(* ===== verification/_CoqProject ===== *)
-Q . S2P
Prelude.v
Frame.v
Envelope.v
Sketch.v
Backend.v
MeshStore.v
Sync.v
RateLimit.v
Policy.v
Relay.v
Outbox.v
Inbox.v
Dedup.v
Crypto.v
Ratchet.v
Session.v
Encrypt.v
Effects.v
KvStore.v
Ids.v
Blocked.v
History.v
Contacts.v
Identity.v
Backup.v
Onion.v
Floats.v
Circuit.v
MessageCodec.v
Registry.v
RelayCustody.v
CircuitBreaker.v
Padding.v
LocalCell.v
Neighborhood.v
GlobalRoutes.v
RoutingEngine.v
NegativeCache.v
RouteTuning.v
Prefetch.v
OptimizedEngine.v
AddrFilter.v
Ledger.v
LedgerPaths.v
Reputation.v
Spam.v
AutoBlock.v
DialPolicy.v
Gatt.v
AuditLog.v
Invite.v
MeshRouting.v
Escalation.v
Observation.v
Health.v
Manager.v
