(* ===== verification/Prelude.v ===== *)
(** * SCMessenger core: a verification library

    SCMessenger is a peer-to-peer messenger whose nodes keep, relay and
    reconcile messages for each other over whatever links they have.  This
    library models the Rust code of [core/src] that carries this logic and proves
    what makes it correct.  Definitions are executable and follow the source
    function by function, with its names; a prefix distinguishes homonyms.

    ** Parts of the program and where they are modelled

    Foundations:
    - [Prelude] (this file): results with panics, machine integers, bytes, hash
      maps and their iteration order, the stable sort, shared tactics, hints and
      lemmas.  [Effects]: the state-and-error monad in which stores are
      written, its weakest preconditions, codecs and text functions.  [Floats]:
      IEEE doubles over [SpecFloat], with order and magnitude.
    - [Backend] ([store/backend.rs]): the trait of key-value stores as a class, with
      a second class of laws its clients rely on, and the memory backend as an
      instance of both; [KvStore]: the same laws for code in the monad.

    What travels:
    - [Frame] ([drift/frame.rs]), [Envelope] ([drift/envelope.rs],
      [drift/compress.rs], [message/types.rs]), [MessageCodec] ([message/codec.rs]),
      [Padding] ([privacy/padding.rs]), [Gatt] ([transport/ble/gatt.rs]): frames,
      envelopes, messages and fragments with their encodings.
    - [Onion] ([privacy/onion.rs]) and [Circuit] ([privacy/circuit.rs]): layered
      messages and the choice of the relays they go through.

    What a node keeps:
    - [MeshStore], [Sketch], [Sync], [RateLimit] ([drift/store.rs],
      [drift/sketch.rs], [drift/sync.rs], [drift/rate_limit.rs]): relayed messages
      and their reconciliation; [Policy], [Relay] ([drift/policy.rs],
      [drift/relay.rs]): what is relayed; [Relay] calls the three above.
    - [Outbox], [Inbox], [Dedup], [History] ([store/outbox.rs], [store/inbox.rs],
      [store/dedup.rs], [store/history.rs]); [Contacts], [Blocked]
      ([store/contacts.rs], [store/blocked.rs]); [Ids] and [Identity] ([identity]),
      [Backup] ([crypto/backup.rs]); [AuditLog] ([observability.rs]).
    - [Registry] and [RelayCustody] ([store/relay_custody.rs]): the relay's record of
      devices and the messages it holds for them.
    - [Ledger], [LedgerPaths] ([store/ledger_entry.rs]): known addresses, their
      exchange and their file, over [AddrFilter] ([transport/addr_filter.rs]).

    Secrets:
    - [Crypto] ([crypto/pq], [crypto/negotiation.rs]), [Ratchet]
      ([crypto/ratchet.rs]), [Session] ([crypto/session_manager.rs]), [Encrypt]
      ([crypto/encrypt.rs]): from primitives with laws to the wire envelope.
    - [Invite] ([relay/invite.rs]): signed invitations and the chain of inviters.

    Where messages go:
    - [LocalCell], [Neighborhood], [GlobalRoutes], [RoutingEngine] ([routing]): the
      three layers of routes and the decision over them; [NegativeCache],
      [RouteTuning], [Prefetch], [OptimizedEngine]: the caches and budgets around it.
    - [MeshRouting] ([transport/mesh_routing.rs]): ranking of relays by their
      deliveries and by who was seen through them.
    - [CircuitBreaker], [DialPolicy] ([transport/circuit_breaker.rs],
      [transport/dial_policy.rs]), [Escalation] ([transport/escalation.rs]),
      [Observation] ([transport/observation.rs]), [Health]
      ([transport/health.rs], [transport/diagnostics.rs]) and [Manager]
      ([transport/manager.rs]), which composes the last three.

    Abuse:
    - [Reputation], [Spam], [AutoBlock] ([transport/reputation.rs], [abuse],
      [iron_core.rs]): scores of peers, heuristics, and what the core does with them.

    ** Conventions

    A function that can fail returns [res E A]: a value, an error, or a panic.
    Integers are [Z] kept at their width; [chk_u] and [chk_i] give the result of
    an operation under the build's choice (class [Build]), either a panic or a
    wrapped value, so theorems hold for both.  State is passed explicitly, or by
    the monad of [Effects] where the source writes to a store; a method on
    [&mut self] keeps the new state also when it fails, where the source may have
    changed it.  An error is its fixed text, without the values formatted into it.
    Clocks and random bytes are arguments; faults of the file system are an
    argument.  Third-party code (hashes, ciphers, signatures, serializers,
    logarithms, multiaddrs) is a parameter; the laws assumed of it are section
    hypotheses or classes, and each witness instantiates them with concrete
    functions.  The order in which a hash map or set is visited is a class
    ([HashIter], [SetOrder], [SetIter]): the theorems hold for every order.

    ** What is proved

    - Codecs (C1-C4, C18, C19): only exact frame encodings are accepted, envelopes
      and messages that are encoded decode to themselves, the signature covers every
      field but itself, accepted wire envelopes have fields of their lengths.
    - Reconciliation and the mesh store (C5-C9): a decoded difference is exact and
      is reached within the code's own limit; the store keeps its bounds and merging
      is set union; two nodes that run a session end with the union.
    - Relaying and queues (C10-C12): a bound on what is relayed in an hour, exact
      flushing, each message accepted once within the tracking window.
    - Encryption (C13-C17): each message of an epoch is read exactly once in any order
      of delivery, both sides agree across epochs, failures change nothing, there
      is no silent downgrade; what session recovery allows a stranger.
    - The relay's registry and custody (C20-C23): the registration machine, its safety
      for the active device, the completion of handovers, readable stored messages.
    - People (C24-C28): blocks cover every id of a peer and fail closed, migration keeps
      contacts, bundles are authentic, identities survive restarts.
    - Privacy and routes (C29-C33): onions are delivered hop by hop, circuits are
      built, the negative cache and the routing engine refine their specifications,
      addresses lead nowhere forbidden.
    - The transport side (C34-C40): disclosure and size of the ledger, reputation within
      its bounds, fair eviction of routes, invitations that cannot be altered,
      reconnection of silent peers and its batches.
    Every file has further theorems with their own examples: what each part promises,
    and, where the code does not do what it says, what it does instead.

    ** Bounds and fuel

    Loops are structural or run on a measure that the source fixes: sketch peeling
    has the source's own iteration limit; eviction loops run as many rounds as
    there are entries, and the invariants show that the loop condition is false
    when the fuel ends; the skipped-key loop runs [target - index] rounds, at most
    256, and reaches its target ([skip_loop_total]); the search for diverse relays
    runs hops times segments rounds and [circuit_built] shows that it ends; the walk up
    the inviters has fuel, and [trust_chain_returns] shows that the number of
    invites and one is enough or the walk never ends.

    ** Not modelled

    The libp2p swarm and the drivers of the links (Wi-Fi, Bluetooth scanning, NAT,
    websockets), platform bridges, user interfaces, the command line node and the web
    client (input and output around the modelled parts); the database backends; log
    files; relay client and server loops; cover traffic, which is random timing; most
    of the façade [iron_core.rs], which forwards to the parts above; locks, since each
    modelled operation runs under one. *)

From Stdlib Require Export ZArith Lia.
From stdpp Require Export base list gmap strings sorting.
From coqutil Require Export Byte Word.LittleEndianList.
From coqutil Require Export Datatypes.RecordSetters.
Export OCamlLikeNotations.

#[global] Open Scope Z_scope.

(** ** Results

    A Rust function that returns [Result<A, E>] ends in one of three ways: it
    returns [Ok], it returns [Err], or it panics (an index out of bounds, an
    arithmetic overflow in a build with overflow checks, a division by zero). *)

Inductive res (E A : Type) : Type :=
| Ok (a : A)
| Err (e : E)
| Panic.

Arguments Ok {E A} a.
Arguments Err {E A} e.
Arguments Panic {E A}.

Definition rbind {E A B} (m : res E A) (k : A -> res E B) : res E B :=
  match m with
  | Ok a => k a
  | Err e => Err e
  | Panic => Panic
  end.

Definition rmap {E A B} (f : A -> B) (m : res E A) : res E B :=
  rbind m (fun a => Ok (f a)).

(** [.map_err(f)] of the source. *)
Definition map_err {E F A} (f : E -> F) (m : res E A) : res F A :=
  match m with
  | Ok a => Ok a
  | Err e => Err (f e)
  | Panic => Panic
  end.

Definition is_ok {E A} (m : res E A) : bool :=
  match m with Ok _ => true | _ => false end.

Declare Scope res_scope.
Delimit Scope res_scope with res.
#[global] Open Scope res_scope.

Notation "'let!' x := m 'in' k" := (rbind m (fun x => k))
  (at level 10, x name, m at level 100, k at level 200) : res_scope.
Notation "'let!' ' p := m 'in' k" := (rbind m (fun p => k))
  (at level 10, p strict pattern, m at level 100, k at level 200) : res_scope.

(** A loop whose body may fail: [for x in l { acc = f(acc, x)?; }]. *)
Fixpoint rfold {E A B} (f : B -> A -> res E B) (acc : B) (l : list A) : res E B :=
  match l with
  | [] => Ok acc
  | x :: l => let! acc' := f acc x in rfold f acc' l
  end.

(** ** Machine integers

    Unsigned and signed integers are [Z] kept in range.  [usize] is [u64]: the
    targets the overflow arguments are about are 64-bit. *)

(** Whether the build checks arithmetic: [cargo]'s dev profile does and its
    release profile does not (the workspace [Cargo.toml] sets neither). *)
Class Build := { overflow_checks : bool }.

Definition u8_max : Z := 2 ^ 8 - 1.
Definition u16_max : Z := 2 ^ 16 - 1.
Definition u32_max : Z := 2 ^ 32 - 1.
Definition u64_max : Z := 2 ^ 64 - 1.

Definition in_u (w z : Z) : Prop := 0 <= z < 2 ^ w.

(** The result of [+], [-], [*] on a [w]-bit unsigned integer whose exact value is [z]. *)
Definition chk_u `{Build} {E} (w z : Z) : res E Z :=
  if (0 <=? z) && (z <? 2 ^ w) then Ok z
  else if overflow_checks then Panic else Ok (z mod 2 ^ w).

(** The same for signed integers. *)
Definition swrap (w z : Z) : Z := (z + 2 ^ (w - 1)) mod 2 ^ w - 2 ^ (w - 1).

Definition chk_i `{Build} {E} (w z : Z) : res E Z :=
  if (- 2 ^ (w - 1) <=? z) && (z <? 2 ^ (w - 1)) then Ok z
  else if overflow_checks then Panic else Ok (swrap w z).

(** [a as uN], a truncating cast. *)
Definition cast_u (w z : Z) : Z := z mod 2 ^ w.

Definition sat_add (w a b : Z) : Z := Z.min (a + b) (2 ^ w - 1).
Definition sat_sub (a b : Z) : Z := Z.max (a - b) 0.
Definition sat_mul (w a b : Z) : Z := Z.min (a * b) (2 ^ w - 1).
Definition sat_pow (w a b : Z) : Z := Z.min (a ^ b) (2 ^ w - 1).

(** ** Byte strings *)

Abbreviation bytes := (list byte).

#[global] Instance byte_eq_dec : EqDecision byte := Byte.byte_eq_dec.

#[global, program] Instance byte_countable : Countable byte :=
  inj_countable' byte.unsigned byte.of_Z _.
Next Obligation. intros b. apply byte.of_Z_unsigned. Qed.

(** [v.len()]. *)
Definition zlen {A} (l : list A) : Z := Z.of_nat (length l).

(** [v[i]]: panics out of bounds. *)
Definition idx {E A} (l : list A) (i : Z) : res E A :=
  if i <? 0 then Panic
  else match l !! Z.to_nat i with
       | Some x => Ok x
       | None => Panic
       end.

(** [&v[a..b]]: panics when [a > b] or [b] is past the end. *)
Definition slice {E A} (l : list A) (a b : Z) : res E (list A) :=
  if (0 <=? a) && (a <=? b) && (b <=? zlen l)
  then Ok (take (Z.to_nat (b - a)) (drop (Z.to_nat a) l))
  else Panic.

(** [u16::from_le_bytes([v[i], v[i + 1]])] and its 32-bit companion. *)
Definition read_u16 {E} (l : bytes) (i : Z) : res E Z :=
  let! b0 := idx l i in
  let! b1 := idx l (i + 1) in
  Ok (le_combine [b0; b1]).

Definition read_u32 {E} (l : bytes) (i : Z) : res E Z :=
  let! b0 := idx l i in
  let! b1 := idx l (i + 1) in
  let! b2 := idx l (i + 2) in
  let! b3 := idx l (i + 3) in
  Ok (le_combine [b0; b1; b2; b3]).

(** The bytes of a string literal. *)
Definition str_bytes (s : string) : bytes := String.list_byte_of_string s.

(** [v[i] = x] and [v[i].update(f)]: panic out of bounds. *)
Definition update {E A} (l : list A) (i : Z) (f : A -> res E A) : res E (list A) :=
  if i <? 0 then Panic
  else match l !! Z.to_nat i with
       | Some x => let! y := f x in Ok (<[Z.to_nat i := y]> l)
       | None => Panic
       end.

(** ** Hash maps

    A [HashMap] is a [gmap].  Iteration visits every entry once, in an order
    that the standard library leaves open: it is a parameter of the code that
    iterates. *)

Class HashIter (K V : Type) `{Countable K} := {
  hm_iter : gmap K V -> list (K * V);
  hm_iter_perm : forall m, hm_iter m ≡ₚ map_to_list m;
}.

(** One possible order, the one [gmap] enumerates. *)
Definition canonical_iter {K V} `{Countable K} : HashIter K V :=
  {| hm_iter := map_to_list; hm_iter_perm := fun m => Permutation_refl _ |}.

(** [Iterator::min_by]: the first of the least elements; [None] on an empty iterator. *)
Definition min_by {A} (cmp : A -> A -> comparison) (l : list A) : option A :=
  match l with
  | [] => None
  | x :: l =>
      Some (foldl (fun best y => match cmp best y with Gt => y | _ => best end) x l)
  end.

(** [slice::sort_by], a stable sort: elements that are equal in the order keep their places. *)
Section Sort.
Context {A : Type} (R : relation A) `{forall x y, Decision (R x y)}.

Fixpoint insert_by (x : A) (l : list A) : list A :=
  match l with
  | [] => [x]
  | y :: rest => if decide (R x y) then x :: l else y :: insert_by x rest
  end.

Definition stable_sort (l : list A) : list A := foldr insert_by [] l.
End Sort.

(** [String::from_utf8] accepts the well-formed sequences of RFC 3629. *)
Definition between (a b : Z) (x : byte) : bool := (a <=? byte.unsigned x) && (byte.unsigned x <=? b).

Fixpoint utf8_valid (l : bytes) : bool :=
  match l with
  | [] => true
  | b0 :: l1 =>
      if between 0 127 b0 then utf8_valid l1
      else match l1 with
      | [] => false
      | b1 :: l2 =>
          if between 194 223 b0 then between 128 191 b1 && utf8_valid l2
          else match l2 with
          | [] => false
          | b2 :: l3 =>
              if between 224 239 b0 then
                between (if byte.unsigned b0 =? 224 then 160 else 128) (if byte.unsigned b0 =? 237 then 159 else 191) b1
                && between 128 191 b2 && utf8_valid l3
              else match l3 with
              | [] => false
              | b3 :: l4 =>
                  between 240 244 b0
                  && between (if byte.unsigned b0 =? 240 then 144 else 128) (if byte.unsigned b0 =? 244 then 143 else 191) b1
                  && between 128 191 b2 && between 128 191 b3 && utf8_valid l4
              end
          end
      end
  end.

(** ** The lexicographic order of byte strings ([Ord] of [[u8; N]]) *)

Fixpoint bytes_leb (a b : bytes) : bool :=
  match a, b with
  | [], _ => true
  | _ :: _, [] => false
  | x :: a, y :: b =>
      (byte.unsigned x <? byte.unsigned y) || ((byte.unsigned x =? byte.unsigned y) && bytes_leb a b)
  end.

Definition bytes_le (a b : bytes) : Prop := bytes_leb a b = true.

#[global] Instance bytes_le_dec : RelDecision bytes_le.
Proof. intros a b. unfold bytes_le. apply _. Defined.

(** ** Automation

    [res_inv] decomposes a hypothesis that says that a sequence of fallible
    steps returned a value; the [zlen] rewrite base normalises lengths; the
    [parse] rewrite base moves a read past the prefix it skips. *)

Create HintDb core_dev.
Create Rewrite HintDb zlen.

Ltac res_inv :=
  repeat match goal with
  | H : rbind ?m _ = Ok _ |- _ =>
      let E := fresh "E" in destruct m eqn:E; cbn [rbind] in H; [| discriminate H | discriminate H]
  | H : Ok _ = Ok _ |- _ => injection H as H; subst
  | H : Err _ = Ok _ |- _ => discriminate H
  | H : Panic = Ok _ |- _ => discriminate H
  end.

(** Splits every [if] on a [Z] or [bool] test in the goal, keeping the fact. *)
Ltac case_if :=
  match goal with
  | |- context [if ?b then _ else _] =>
      let E := fresh "C" in destruct b eqn:E
  end.

Ltac bool_to_prop :=
  repeat match goal with
  | H : (_ && _) = true |- _ => apply andb_true_iff in H as [? ?]
  | H : (_ || _) = false |- _ => apply orb_false_iff in H as [? ?]
  | H : (_ <? _) = true |- _ => apply Z.ltb_lt in H
  | H : (_ <? _) = false |- _ => apply Z.ltb_ge in H
  | H : (_ <=? _) = true |- _ => apply Z.leb_le in H
  | H : (_ <=? _) = false |- _ => apply Z.leb_gt in H
  | H : (_ =? _) = true |- _ => apply Z.eqb_eq in H
  | H : (_ =? _) = false |- _ => apply Z.eqb_neq in H
  | H : negb _ = true |- _ => apply negb_true_iff in H
  | H : negb _ = false |- _ => apply negb_false_iff in H
  end.

(** Closes a decidable goal on concrete data by evaluating its decision procedure. *)
Ltac by_computation := apply (bool_decide_unpack _); by vm_compute.

(** ** Lemmas on results *)

Lemma Ok_inj {E A} (a b : A) : @Ok E A a = Ok b -> a = b.
Proof. congruence. Qed.

Lemma rbind_ok_inv {E A B} (m : res E A) (k : A -> res E B) b :
  rbind m k = Ok b -> exists a, m = Ok a /\ k a = Ok b.
Proof. destruct m; cbn; naive_solver. Qed.

Lemma rbind_no_panic {E A B} (m : res E A) (k : A -> res E B) :
  m <> Panic -> (forall a, m = Ok a -> k a <> Panic) -> rbind m k <> Panic.
Proof. destruct m; cbn; naive_solver. Qed.

Lemma rfold_app {E A B} (f : B -> A -> res E B) acc l1 l2 :
  rfold f acc (l1 ++ l2) = rbind (rfold f acc l1) (fun acc' => rfold f acc' l2).
Proof.
  revert acc; induction l1 as [|x l1 IH]; intros acc; cbn; [done|].
  destruct (f acc x); cbn; auto.
Qed.

(** A loop none of whose steps fails is a pure fold. *)
Lemma rfold_ok {E A B} (P : B -> Prop) (f : B -> A -> res E B) (g : B -> A -> B) l acc :
  P acc ->
  (forall b x, P b -> x ∈ l -> f b x = Ok (g b x) /\ P (g b x)) ->
  rfold f acc l = Ok (foldl g acc l) /\ P (foldl g acc l).
Proof.
  revert acc; induction l as [|x l IH]; intros acc HP Hf; cbn; [done|].
  destruct (Hf acc x HP ltac:(left)) as [-> HP']; cbn.
  apply IH; [done|]. intros b y Hb Hy. apply Hf; [done|by right].
Qed.

(** ** Lemmas on lengths, indexing and slicing *)

Lemma zlen_nil {A} : zlen (@nil A) = 0.
Proof. done. Qed.

Lemma zlen_cons {A} (x : A) l : zlen (x :: l) = 1 + zlen l.
Proof. unfold zlen; cbn [length]; lia. Qed.

Lemma zlen_app {A} (l1 l2 : list A) : zlen (l1 ++ l2) = zlen l1 + zlen l2.
Proof. unfold zlen; rewrite length_app; lia. Qed.

Lemma zlen_nonneg {A} (l : list A) : 0 <= zlen l.
Proof. unfold zlen; lia. Qed.

Lemma zlen_le_split n z : zlen (le_split n z) = Z.of_nat n.
Proof. unfold zlen; by rewrite length_le_split. Qed.

Lemma zlen_replicate {A} n (x : A) : zlen (replicate n x) = Z.of_nat n.
Proof. unfold zlen; by rewrite length_replicate. Qed.

Lemma zlen_of_length {A} (l : list A) n : length l = n -> zlen l = Z.of_nat n.
Proof. by intros <-. Qed.

Lemma zlen_0_inv {A} (l : list A) : zlen l = 0 -> l = [].
Proof. destruct l; [done|]. rewrite zlen_cons. pose proof (zlen_nonneg l); lia. Qed.

#[export] Hint Rewrite @zlen_nil @zlen_cons @zlen_app zlen_le_split @zlen_replicate : zlen.
#[export] Hint Resolve zlen_nonneg : core_dev.

Lemma idx_ok {E A} (l : list A) i :
  0 <= i < zlen l -> exists x, l !! Z.to_nat i = Some x /\ @idx E A l i = Ok x.
Proof.
  intros Hi. unfold idx. destruct (lookup_lt_is_Some_2 l (Z.to_nat i)) as [x Hx];
    [unfold zlen in Hi; lia|].
  exists x. rewrite Hx. destruct (Z.ltb_spec i 0); [lia|done].
Qed.

Lemma idx_ok_inv {E A} (l : list A) i x :
  @idx E A l i = Ok x -> 0 <= i < zlen l /\ l !! Z.to_nat i = Some x.
Proof.
  unfold idx. destruct (Z.ltb_spec i 0); [done|].
  destruct (l !! Z.to_nat i) eqn:Hl; [|done]. intros [= ->]. split; [|done].
  apply lookup_lt_Some in Hl. unfold zlen. lia.
Qed.

Lemma idx_no_err {E A} (l : list A) i e : @idx E A l i <> Err e.
Proof. unfold idx. destruct (i <? 0); [done|]. by destruct (l !! _). Qed.

Lemma idx_app_r {E A} (l1 l2 : list A) i :
  zlen l1 <= i -> @idx E A (l1 ++ l2) i = idx l2 (i - zlen l1).
Proof.
  intros Hi. pose proof (zlen_nonneg l1). unfold idx.
  destruct (Z.ltb_spec i 0), (Z.ltb_spec (i - zlen l1) 0); try lia.
  rewrite lookup_app_r by (unfold zlen in Hi; lia).
  by replace (Z.to_nat i - length l1)%nat with (Z.to_nat (i - zlen l1)) by (unfold zlen; lia).
Qed.

Lemma idx_app_l {E A} (l1 l2 : list A) i :
  i < zlen l1 -> @idx E A (l1 ++ l2) i = idx l1 i.
Proof.
  intros Hi. unfold idx. destruct (Z.ltb_spec i 0); [done|].
  rewrite lookup_app_l; [done|]. unfold zlen in Hi; lia.
Qed.

Lemma idx_cons_r {E A} (x : A) l i : 0 < i -> @idx E A (x :: l) i = idx l (i - 1).
Proof. intros. change (x :: l) with ([x] ++ l). apply (idx_app_r [x]). unfold zlen; cbn; lia. Qed.

Lemma slice_ok {E A} (l : list A) a b :
  0 <= a <= b -> b <= zlen l ->
  @slice E A l a b = Ok (take (Z.to_nat (b - a)) (drop (Z.to_nat a) l)).
Proof.
  intros. unfold slice.
  by rewrite (proj2 (Z.leb_le 0 a)), (proj2 (Z.leb_le a b)), (proj2 (Z.leb_le b (zlen l))) by lia.
Qed.

Lemma slice_ok_inv {E A} (l : list A) a b r :
  @slice E A l a b = Ok r ->
  0 <= a <= b /\ b <= zlen l /\ r = take (Z.to_nat (b - a)) (drop (Z.to_nat a) l).
Proof. unfold slice. case_if; [|done]. intros [= <-]. bool_to_prop. repeat split; done || lia. Qed.

Lemma slice_no_err {E A} (l : list A) a b e : @slice E A l a b <> Err e.
Proof. unfold slice. by case_if. Qed.

Lemma slice_length {E A} (l : list A) a b r :
  @slice E A l a b = Ok r -> zlen r = b - a.
Proof.
  intros (? & ? & ->)%slice_ok_inv. unfold zlen in *.
  rewrite length_take, length_drop. lia.
Qed.

Lemma slice_app_r {E A} (l1 l2 : list A) a b :
  zlen l1 <= a <= b -> @slice E A (l1 ++ l2) a b = slice l2 (a - zlen l1) (b - zlen l1).
Proof.
  intros Ha. pose proof (zlen_nonneg l1). unfold slice. rewrite zlen_app.
  replace (0 <=? a) with (0 <=? a - zlen l1) by (apply eq_bool_prop_intro; rewrite !Is_true_true, !Z.leb_le; lia).
  replace (a - zlen l1 <=? b - zlen l1) with (a <=? b) by (apply eq_bool_prop_intro; rewrite !Is_true_true, !Z.leb_le; lia).
  replace (b - zlen l1 <=? zlen l2) with (b <=? zlen l1 + zlen l2) by (apply eq_bool_prop_intro; rewrite !Is_true_true, !Z.leb_le; lia).
  case_if; [|done]. f_equal.
  replace (b - zlen l1 - (a - zlen l1)) with (b - a) by lia. f_equal.
  rewrite drop_app_ge by (unfold zlen in Ha; lia). f_equal. unfold zlen; lia.
Qed.

Lemma slice_app_l {E A} (l1 l2 : list A) b :
  b = zlen l1 -> @slice E A (l1 ++ l2) 0 b = Ok l1.
Proof.
  intros ->. rewrite slice_ok by (rewrite ?zlen_app; pose proof (zlen_nonneg l1);
    pose proof (zlen_nonneg l2); lia).
  rewrite drop_0. unfold zlen. rewrite Z.sub_0_r, Nat2Z.id. by rewrite take_app_length.
Qed.

Lemma slice_all {E A} (l : list A) b : b = zlen l -> @slice E A l 0 b = Ok l.
Proof. intros ->. rewrite <-(app_nil_r l) at 1. by apply slice_app_l. Qed.

Lemma slice_cons_r {E A} (x : A) l a b :
  0 < a <= b -> @slice E A (x :: l) a b = slice l (a - 1) (b - 1).
Proof. intros. change (x :: l) with ([x] ++ l). apply (slice_app_r [x]). unfold zlen; cbn; lia. Qed.

(** ** Lemmas on machine integers and little-endian words *)

Lemma idx_head {E A} (x : A) l i : i = 0 -> @idx E A (x :: l) i = Ok x.
Proof. by intros ->. Qed.

Lemma slice_head {E A} (l1 l2 : list A) a b :
  a = 0 -> b = zlen l1 -> @slice E A (l1 ++ l2) a b = Ok l1.
Proof. intros -> ->. by apply slice_app_l. Qed.

Lemma two_elems {A} (l : list A) : zlen l = 2 -> exists a b, l = [a; b].
Proof.
  intros H. do 2 (destruct l as [|? l]; [exfalso; revert H; unfold zlen; cbn; lia|]).
  destruct l; [eauto|]. exfalso; revert H; unfold zlen; cbn; lia.
Qed.

Lemma four_elems {A} (l : list A) : zlen l = 4 -> exists a b c d, l = [a; b; c; d].
Proof.
  intros H. do 4 (destruct l as [|? l]; [exfalso; revert H; unfold zlen; cbn; lia|]).
  destruct l; [eauto 6|]. exfalso; revert H; unfold zlen; cbn; lia.
Qed.

Lemma read_u16_app_r {E} (l1 l2 : bytes) i :
  zlen l1 <= i -> @read_u16 E (l1 ++ l2) i = read_u16 l2 (i - zlen l1).
Proof.
  intros. unfold read_u16. rewrite !idx_app_r by lia.
  by replace (i + 1 - zlen l1) with (i - zlen l1 + 1) by lia.
Qed.

Lemma read_u16_app_l {E} (w l : bytes) : zlen w = 2 -> @read_u16 E (w ++ l) 0 = Ok (le_combine w).
Proof. intros (a & b & ->)%two_elems. done. Qed.

Lemma read_u32_app_r {E} (l1 l2 : bytes) i :
  zlen l1 <= i -> @read_u32 E (l1 ++ l2) i = read_u32 l2 (i - zlen l1).
Proof.
  intros. unfold read_u32. rewrite !idx_app_r by lia.
  replace (i + 1 - zlen l1) with (i - zlen l1 + 1) by lia.
  replace (i + 2 - zlen l1) with (i - zlen l1 + 2) by lia.
  by replace (i + 3 - zlen l1) with (i - zlen l1 + 3) by lia.
Qed.

Lemma read_u32_app_l {E} (w l : bytes) : zlen w = 4 -> @read_u32 E (w ++ l) 0 = Ok (le_combine w).
Proof. intros (a & b & c & d & ->)%four_elems. done. Qed.

Lemma read_u16_head {E} (w l : bytes) i z :
  i = 0 -> zlen w = 2 -> le_combine w = z -> @read_u16 E (w ++ l) i = Ok z.
Proof. intros -> ? <-. by apply read_u16_app_l. Qed.

Lemma read_u32_head {E} (w l : bytes) i z :
  i = 0 -> zlen w = 4 -> le_combine w = z -> @read_u32 E (w ++ l) i = Ok z.
Proof. intros -> ? <-. by apply read_u32_app_l. Qed.

Lemma read_u32_all {E} (w : bytes) : zlen w = 4 -> @read_u32 E w 0 = Ok (le_combine w).
Proof. intros. rewrite <-(app_nil_r w) at 1. by apply read_u32_app_l. Qed.

Lemma read_u16_ok {E} (l : bytes) i :
  0 <= i -> i + 2 <= zlen l -> exists z, @read_u16 E l i = Ok z /\ in_u 16 z.
Proof.
  intros. unfold read_u16.
  destruct (@idx_ok E _ l i) as (b0 & _ & ->); [lia|].
  destruct (@idx_ok E _ l (i + 1)) as (b1 & _ & ->); [lia|].
  eexists; split; [done|]. apply (le_combine_bound [b0; b1]).
Qed.

Lemma read_u32_ok {E} (l : bytes) i :
  0 <= i -> i + 4 <= zlen l -> exists z, @read_u32 E l i = Ok z /\ in_u 32 z.
Proof.
  intros. unfold read_u32.
  destruct (@idx_ok E _ l i) as (b0 & _ & ->); [lia|].
  destruct (@idx_ok E _ l (i + 1)) as (b1 & _ & ->); [lia|].
  destruct (@idx_ok E _ l (i + 2)) as (b2 & _ & ->); [lia|].
  destruct (@idx_ok E _ l (i + 3)) as (b3 & _ & ->); [lia|].
  eexists; split; [done|]. apply (le_combine_bound [b0; b1; b2; b3]).
Qed.

Lemma chk_u_ok `{Build} {E} w z : in_u w z -> @chk_u _ E w z = Ok z.
Proof.
  intros [? ?]. unfold chk_u. by rewrite (proj2 (Z.leb_le _ _)), (proj2 (Z.ltb_lt _ _)).
Qed.

Lemma chk_u_range `{Build} {E} w z r : 0 <= w -> @chk_u _ E w z = Ok r -> in_u w r.
Proof.
  intros Hw. unfold chk_u. case_if; [intros [= <-]; bool_to_prop; by split|].
  case_if; [discriminate|]. intros [= <-]. apply Z.mod_pos_bound, Z.pow_pos_nonneg; lia.
Qed.

Lemma chk_i_ok `{Build} {E} w z :
  - 2 ^ (w - 1) <= z < 2 ^ (w - 1) -> @chk_i _ E w z = Ok z.
Proof.
  intros [? ?]. unfold chk_i. by rewrite (proj2 (Z.leb_le _ _)), (proj2 (Z.ltb_lt _ _)).
Qed.

Lemma sat_add_bound w a b : 0 <= w -> 0 <= a -> 0 <= b -> in_u w (sat_add w a b).
Proof. intros. unfold in_u, sat_add. pose proof (Z.pow_pos_nonneg 2 w). lia. Qed.

Lemma le_combine_le_split n z :
  0 <= z < 2 ^ (8 * Z.of_nat n) -> le_combine (le_split n z) = z.
Proof. intros. rewrite le_combine_split, Z.mod_small; [done|]. by rewrite Z.mul_comm. Qed.

(** ** When a read panics *)

Lemma rbind_panic_inv {E A B} (m : res E A) (k : A -> res E B) :
  rbind m k = Panic -> m = Panic \/ exists a, m = Ok a /\ k a = Panic.
Proof. destruct m; cbn; naive_solver. Qed.

Lemma idx_panic {E A} (l : list A) i : @idx E A l i = Panic -> ~ (0 <= i < zlen l).
Proof. intros H Hi. destruct (@idx_ok E A l i Hi) as (x & _ & Hx). congruence. Qed.

Lemma slice_panic {E A} (l : list A) a b : @slice E A l a b = Panic -> ~ (0 <= a <= b /\ b <= zlen l).
Proof. intros H [??]. rewrite slice_ok in H by lia. done. Qed.

Lemma read_u16_panic {E} (l : bytes) i : @read_u16 E l i = Panic -> ~ (0 <= i /\ i + 2 <= zlen l).
Proof. intros H [??]. destruct (@read_u16_ok E l i) as (z & Hz & _); congruence || lia. Qed.

Lemma read_u32_panic {E} (l : bytes) i : @read_u32 E l i = Panic -> ~ (0 <= i /\ i + 4 <= zlen l).
Proof. intros H [??]. destruct (@read_u32_ok E l i) as (z & Hz & _); congruence || lia. Qed.

Lemma read_u16_range {E} (l : bytes) i z : @read_u16 E l i = Ok z -> in_u 16 z.
Proof.
  unfold read_u16. intros H. res_inv.
  match goal with |- in_u 16 (le_combine ?l) => apply (le_combine_bound l) end.
Qed.

Lemma read_u32_range {E} (l : bytes) i z : @read_u32 E l i = Ok z -> in_u 32 z.
Proof.
  unfold read_u32. intros H. res_inv.
  match goal with |- in_u 32 (le_combine ?l) => apply (le_combine_bound l) end.
Qed.

(** [panic_inv] follows a panic to the read that raised it and refutes the reads in range. *)
Ltac panic_inv H :=
  repeat (apply rbind_panic_inv in H as [H | (? & ? & H)];
    [ first [ apply idx_panic in H; exfalso; lia
            | apply slice_panic in H; exfalso; lia
            | apply read_u16_panic in H; exfalso; lia
            | apply read_u32_panic in H; exfalso; lia
            | idtac ] |]).

(** ** Lemmas on hash-map iteration and [min_by] *)

Lemma elem_of_hm_iter {K V} `{Countable K} {HI : HashIter K V} (m : gmap K V) k v :
  (k, v) ∈ hm_iter m <-> m !! k = Some v.
Proof. by rewrite hm_iter_perm, elem_of_map_to_list. Qed.

Lemma length_hm_iter {K V} `{Countable K} {HI : HashIter K V} (m : gmap K V) :
  length (hm_iter m) = size m.
Proof. by rewrite hm_iter_perm, length_map_to_list. Qed.

Lemma NoDup_hm_keys {K V} `{Countable K} {HI : HashIter K V} (m : gmap K V) :
  NoDup (hm_iter m).*1.
Proof. rewrite hm_iter_perm. apply NoDup_fst_map_to_list. Qed.

Lemma min_by_foldl_elem {A} (cmp : A -> A -> comparison) x l :
  foldl (fun best y => match cmp best y with Gt => y | _ => best end) x l ∈ x :: l.
Proof.
  revert x; induction l as [|y l IH]; intros x; cbn; [by left|].
  pose proof (IH x) as Hx; pose proof (IH y) as Hy; clear IH.
  rewrite elem_of_cons in Hx, Hy. rewrite !elem_of_cons.
  destruct (cmp x y); tauto.
Qed.

Lemma min_by_Some {A} (cmp : A -> A -> comparison) l x : min_by cmp l = Some x -> x ∈ l.
Proof. destruct l as [|y l]; cbn; [done|]. intros [= <-]. apply min_by_foldl_elem. Qed.

Lemma min_by_None {A} (cmp : A -> A -> comparison) l : min_by cmp l = None -> l = [].
Proof. by destruct l. Qed.

Lemma filter_id {A} (P : A -> Prop) `{forall x, Decision (P x)} (l : list A) : Forall P l -> filter P l = l.
Proof. induction 1 as [|x l Hx _ IH]; [done|]. by rewrite filter_cons_True, IH. Qed.

(** ** The order of byte strings *)

Lemma ascii_utf8 l : Forall (fun a => byte.unsigned a < 128) l -> utf8_valid l = true.
Proof.
  induction 1 as [|a l Ha _ IH]; [done|]. cbn. unfold between. pose proof (byte.unsigned_range a).
  rewrite (proj2 (Z.leb_le 0 _)), (proj2 (Z.leb_le _ 127)) by lia. done.
Qed.

Lemma bytes_le_cons x y a b :
  bytes_le (x :: a) (y :: b) <->
  byte.unsigned x < byte.unsigned y \/ (byte.unsigned x = byte.unsigned y /\ bytes_le a b).
Proof.
  unfold bytes_le. cbn [bytes_leb]. by rewrite orb_true_iff, andb_true_iff, Z.ltb_lt, Z.eqb_eq.
Qed.

#[global] Instance bytes_le_total : Total bytes_le.
Proof.
  intros a. induction a as [|x a IH]; intros [|y b]; [by left|by left|by right|].
  rewrite !bytes_le_cons.
  destruct (IH b), (Z.lt_trichotomy (byte.unsigned x) (byte.unsigned y)) as [?|[?|?]]; auto.
Qed.

#[global] Instance bytes_le_refl : Reflexive bytes_le.
Proof. intros a. by destruct (total bytes_le a a). Qed.

#[global] Instance bytes_le_trans : Transitive bytes_le.
Proof.
  intros a. induction a as [|x a IH]; intros [|y b] [|z c]; try done.
  rewrite !bytes_le_cons. intros [?|[? ?]] [?|[? ?]]; try lia. right. split; [lia|]. by eapply IH.
Qed.

#[global] Instance bytes_le_antisymm : AntiSymm (=) bytes_le.
Proof.
  intros a. induction a as [|x a IH]; intros [|y b]; try done.
  rewrite !bytes_le_cons. intros [?|[? ?]] [?|[? ?]]; try lia.
  f_equal; [by apply byte.unsigned_inj|by apply IH].
Qed.

(** ** Lemmas on sorting *)

Section SortLemmas.
Context {A : Type} (R : relation A) `{forall x y, Decision (R x y)}.

Lemma insert_by_perm x l : insert_by R x l ≡ₚ x :: l.
Proof. induction l as [|y l IH]; cbn; [done|]. case_decide; [done|]. etrans; [apply Permutation_skip, IH|apply Permutation_swap]. Qed.

Lemma stable_sort_Permutation l : stable_sort R l ≡ₚ l.
Proof. induction l as [|x l IH]; cbn; [done|]. etrans; [apply insert_by_perm|]. by apply Permutation_skip. Qed.

Lemma insert_by_Sorted `{!Total R} x l : Sorted R l -> Sorted R (insert_by R x l).
Proof.
  induction 1 as [|y l Hl IH Hy]; cbn; [repeat constructor|]. case_decide as Hxy; [by repeat constructor|].
  assert (R y x) by (by destruct (total R x y)). constructor; [done|]. inversion Hy; cbn; [by constructor|]. case_decide; by constructor.
Qed.

Lemma Sorted_stable_sort `{!Total R} l : Sorted R (stable_sort R l).
Proof. induction l as [|x l IH]; cbn; [constructor|]. by apply insert_by_Sorted. Qed.

Lemma StronglySorted_stable_sort `{!Transitive R, !Total R} l : StronglySorted R (stable_sort R l).
Proof. apply Sorted_StronglySorted; [apply _|]. by apply Sorted_stable_sort. Qed.

(** Elements that the order does not tell apart keep their order. *)
Lemma stable_sort_stable (P : A -> Prop) `{forall x, Decision (P x)} l :
  (forall x y, P x -> P y -> R x y) -> filter P (stable_sort R l) = filter P l.
Proof.
  intros HP. induction l as [|x l IH]; [done|]. rewrite filter_cons, <-IH. change (stable_sort R (x :: l)) with (insert_by R x (stable_sort R l)). generalize (stable_sort R l). intros s. clear IH.
  induction s as [|y s IHs]; cbn [insert_by]; [by rewrite filter_cons|]. destruct (decide (R x y)) as [Hxy|Hxy]; [by rewrite filter_cons|]. rewrite !filter_cons, IHs.
  destruct (decide (P x)), (decide (P y)); try done. by destruct Hxy; apply HP.
Qed.
End SortLemmas.

(** ** A byte encoding of countable types, to instantiate codecs with concrete functions *)

Fixpoint pos_bytes (p : positive) : bytes :=
  match p with
  | xH => [Byte.x01]
  | xO p => Byte.x02 :: pos_bytes p
  | xI p => Byte.x03 :: pos_bytes p
  end.

Fixpoint bytes_pos (l : bytes) : option positive :=
  match l with
  | [] => None
  | Byte.x01 :: _ => Some xH
  | Byte.x02 :: l => xO <$> bytes_pos l
  | Byte.x03 :: l => xI <$> bytes_pos l
  | _ => None
  end.

Lemma bytes_pos_bytes p : bytes_pos (pos_bytes p) = Some p.
Proof. induction p as [p IH|p IH|]; cbn; [by rewrite IH|by rewrite IH|done]. Qed.

Definition enc_any `{Countable A} (a : A) : bytes := pos_bytes (encode a).

Definition dec_any `{Countable A} (l : bytes) : res string A :=
  match bytes_pos l ≫= decode with Some a => Ok a | None => Err "malformed"%string end.

Lemma dec_enc_any `{Countable A} (a : A) : dec_any (enc_any a) = Ok a.
Proof. unfold dec_any, enc_any. rewrite bytes_pos_bytes. cbn. by rewrite decode_encode. Qed.
