(* ===== verification/Frame.v ===== *)
(** * Drift frames ([core/src/drift/frame.rs], [core/src/drift/mod.rs])

    The transport framing of the Drift protocol: [length (LE u16)], frame type,
    payload, CRC32.  [crc32] is the third-party [crc32fast::Hasher]; the code
    relies on it returning a [u32]. *)

From S2P Require Import Prelude.

(** ** Data *)

Inductive DriftError : Type :=
| BufferTooShort (need got : Z)
| InvalidEnvelopeType (v : Z)
| CiphertextTooLarge (n : Z)
| InvalidVersion (v : Z)
| CrcMismatch
| DecompressionFailed (msg : string)
| InvalidFrameType (v : Z)
| Timeout
| IoError (msg : string).

Definition DRIFT_VERSION : Z := 1.

Definition FRAME_MAX_PAYLOAD : Z := 65535.

Inductive FrameType : Type := FT_Data | FT_SyncReq | FT_SyncResp | FT_Ping | FT_PeerInfo.

#[global] Instance FrameType_eq_dec : EqDecision FrameType.
Proof. solve_decision. Defined.

Record DriftFrame : Type := mkFrame {
  frame_type : FrameType;
  frame_payload : bytes;
}.

Definition frame_type_from_u8 (value : Z) : res DriftError FrameType :=
  match value with
  | 1 => Ok FT_Data
  | 2 => Ok FT_SyncReq
  | 3 => Ok FT_SyncResp
  | 4 => Ok FT_Ping
  | 5 => Ok FT_PeerInfo
  | other => Err (InvalidFrameType other)
  end.

Definition frame_type_as_u8 (t : FrameType) : Z :=
  match t with
  | FT_Data => 1
  | FT_SyncReq => 2
  | FT_SyncResp => 3
  | FT_Ping => 4
  | FT_PeerInfo => 5
  end.

Definition TRANSPORT_OVERHEAD : Z := 7.

(** ** Operations *)

Section Frame.
Context (crc32 : bytes -> Z).

Definition frame_to_bytes (f : DriftFrame) : res DriftError bytes :=
  let payload_len := 1 + zlen (frame_payload f) in
  if u16_max <? payload_len then
    Err (BufferTooShort payload_len u16_max)
  else
    let length := cast_u 16 payload_len in
    let buf := le_split 2 length ++ [byte.of_Z (frame_type_as_u8 (frame_type f))]
                 ++ frame_payload f in
    Ok (buf ++ le_split 4 (crc32 buf)).

Definition frame_from_bytes (data : bytes) : res DriftError DriftFrame :=
  if zlen data <? TRANSPORT_OVERHEAD then
    Err (BufferTooShort TRANSPORT_OVERHEAD (zlen data))
  else
    let! length := read_u16 data 0 in
    if FRAME_MAX_PAYLOAD + 1 <? length then
      Err (BufferTooShort FRAME_MAX_PAYLOAD length)
    else
      let expected_total := 2 + length + 4 in
      if negb (zlen data =? expected_total) then
        Err (BufferTooShort expected_total (zlen data))
      else
        let crc_offset := zlen data - 4 in
        let! data_to_check := slice data 0 crc_offset in
        let! received_crc := read_u32 data crc_offset in
        let computed_crc := crc32 data_to_check in
        if negb (computed_crc =? received_crc) then Err CrcMismatch
        else
          let! d2 := idx data 2 in
          let! frame_type := frame_type_from_u8 (byte.unsigned d2) in
          let! payload := slice data 3 crc_offset in
          Ok (mkFrame frame_type payload).

(** What an asynchronous reader does once the bytes that have arrived run out:
    the peer closed the stream, the stream failed, or nothing more comes before
    the five-second deadline. *)
Inductive ReaderEnd : Type :=
| ReaderFails (msg : string)
| ReaderStalls.

(** [read_exact] under [tokio::time::timeout]: [n] bytes and the rest of the stream. *)
Definition read_exact (stream : bytes) (e : ReaderEnd) (n : Z) : res DriftError (bytes * bytes) :=
  if n <=? zlen stream then
    Ok (take (Z.to_nat n) stream, drop (Z.to_nat n) stream)
  else match e with
       | ReaderFails msg => Err (IoError msg)
       | ReaderStalls => Err Timeout
       end.

(** Reads one frame and returns it with the bytes left in the stream. *)
Definition read_with_timeout (stream : bytes) (e : ReaderEnd) : res DriftError (DriftFrame * bytes) :=
  let! '(len_buf, stream) := read_exact stream e 2 in
  let length := le_combine len_buf in
  if FRAME_MAX_PAYLOAD + 1 <? length then
    Err (BufferTooShort FRAME_MAX_PAYLOAD length)
  else
    let remaining := length + 4 in
    let! '(rest, stream) := read_exact stream e remaining in
    let! f := frame_from_bytes (len_buf ++ rest) in
    Ok (f, stream).

(** A connection that reads frames until the stream is drained. *)
Fixpoint read_frames (n : nat) (stream : bytes) (e : ReaderEnd) : res DriftError (list DriftFrame * bytes) :=
  match n with
  | O => Ok ([], stream)
  | S n =>
      let! '(f, stream) := read_with_timeout stream e in
      let! '(fs, stream) := read_frames n stream e in
      Ok (f :: fs, stream)
  end.

End Frame.

(** The reflected CRC-32 of IEEE 802.3, the function [crc32fast] documents. *)
Definition crc32_bit (crc : Z) : Z :=
  if Z.testbit crc 0 then Z.lxor (Z.shiftr crc 1) 3988292384 else Z.shiftr crc 1.

Definition crc32_byte (crc : Z) (b : byte) : Z :=
  Nat.iter 8 crc32_bit (Z.lxor crc (byte.unsigned b)).

Definition crc32_ieee (data : bytes) : Z :=
  cast_u 32 (Z.lxor (foldl crc32_byte 4294967295 data) 4294967295).

(** ** Lemmas *)

Definition frame_wf (f : DriftFrame) : Prop := zlen (frame_payload f) <= 65534.

Lemma frame_type_roundtrip t :
  frame_type_from_u8 (byte.unsigned (byte.of_Z (frame_type_as_u8 t))) = Ok t.
Proof. by destruct t. Qed.

Lemma frame_type_from_u8_Ok b t :
  frame_type_from_u8 (byte.unsigned b) = Ok t -> b = byte.of_Z (frame_type_as_u8 t).
Proof. by destruct b; intros [= <-]. Qed.

Lemma frame_type_no_panic z : frame_type_from_u8 z <> Panic.
Proof. unfold frame_type_from_u8. repeat case_match; done. Qed.

Section FrameFacts.
Context (crc32 : bytes -> Z).
Context (crc32_u32 : forall data, in_u 32 (crc32 data)).

(** The encoder on a frame that fits: its output, byte for byte. *)
Lemma frame_to_bytes_wf f :
  frame_wf f ->
  let buf := le_split 2 (1 + zlen (frame_payload f))
               ++ byte.of_Z (frame_type_as_u8 (frame_type f)) :: frame_payload f in
  frame_to_bytes crc32 f = Ok (buf ++ le_split 4 (crc32 buf)).
Proof.
  unfold frame_wf, frame_to_bytes, u16_max, cast_u. intros H.
  pose proof (zlen_nonneg (frame_payload f)).
  destruct (Z.ltb_spec (2 ^ 16 - 1) (1 + zlen (frame_payload f))); [lia|].
  rewrite Z.mod_small by lia. done.
Qed.

(** A buffer of the right shape is decoded to the frame it carries. *)
Lemma frame_from_bytes_shape len t payload crc :
  zlen len = 2 -> zlen crc = 4 ->
  le_combine len = 1 + zlen payload ->
  frame_from_bytes crc32 ((len ++ t :: payload) ++ crc) =
    if negb (crc32 (len ++ t :: payload) =? le_combine crc) then Err CrcMismatch
    else rmap (fun ft => mkFrame ft payload) (frame_type_from_u8 (byte.unsigned t)).
Proof.
  intros Hlen Hcrc Hval. pose proof (zlen_nonneg payload).
  assert (Hb : zlen (len ++ t :: payload) = 3 + zlen payload) by (autorewrite with zlen; lia).
  assert (Hbd : 1 + zlen payload < 2 ^ 16).
  { rewrite <-Hval. pose proof (le_combine_bound len) as B.
    change (8 * Z.of_nat (length len)) with (8 * zlen len) in B. rewrite Hlen in B. lia. }
  unfold frame_from_bytes, TRANSPORT_OVERHEAD, FRAME_MAX_PAYLOAD.
  rewrite zlen_app, Hb, Hcrc.
  destruct (Z.ltb_spec (3 + zlen payload + 4) 7); [lia|].
  rewrite <-app_assoc, read_u16_app_l by done. cbn [rbind]. rewrite Hval.
  destruct (Z.ltb_spec (65535 + 1) (1 + zlen payload)); [lia|].
  rewrite (proj2 (Z.eqb_eq (3 + zlen payload + 4) _)) by lia. cbn [negb].
  replace (3 + zlen payload + 4 - 4) with (zlen (len ++ t :: payload)) by lia.
  rewrite app_assoc, slice_app_l, read_u32_app_r, Z.sub_diag, read_u32_all by done.
  cbn [rbind]. case_if; [done|].
  rewrite <-app_assoc, idx_app_r by lia. rewrite Hlen.
  change (idx ((t :: payload) ++ crc) (2 - 2)) with (@Ok DriftError _ t). cbn [rbind].
  unfold rmap. destruct (frame_type_from_u8 (byte.unsigned t)); [|done|done]. cbn [rbind].
  rewrite slice_app_r by lia. rewrite <-app_comm_cons, slice_cons_r by lia.
  rewrite Hlen. rewrite slice_app_l by lia. done.
Qed.

(** Every buffer of at least seven bytes has the four parts of a frame. *)
Lemma frame_split (data : bytes) :
  7 <= zlen data ->
  exists len t payload crc,
    data = (len ++ t :: payload) ++ crc /\ zlen len = 2 /\ zlen crc = 4.
Proof.
  intros H. destruct data as [|d0 [|d1 [|t rest]]]; try (exfalso; revert H; unfold zlen; cbn [length]; lia).
  exists [d0; d1], t, (take (length rest - 4) rest), (drop (length rest - 4) rest).
  split_and!; [cbn; by rewrite take_drop|done|].
  unfold zlen in *. rewrite length_drop. cbn [length] in H. lia.
Qed.

(** The length field is checked against the buffer. *)
Lemma frame_from_bytes_bad_length len t payload crc :
  zlen len = 2 -> zlen crc = 4 ->
  le_combine len <> 1 + zlen payload ->
  frame_from_bytes crc32 ((len ++ t :: payload) ++ crc) =
    Err (BufferTooShort (2 + le_combine len + 4) (zlen payload + 7)).
Proof.
  intros Hlen Hcrc Hval. pose proof (zlen_nonneg payload).
  assert (Hbd : le_combine len < 2 ^ 16).
  { pose proof (le_combine_bound len) as B.
    change (8 * Z.of_nat (length len)) with (8 * zlen len) in B. rewrite Hlen in B. lia. }
  unfold frame_from_bytes, TRANSPORT_OVERHEAD, FRAME_MAX_PAYLOAD.
  rewrite <-app_assoc, read_u16_app_l by done. autorewrite with zlen. rewrite Hlen, Hcrc.
  destruct (Z.ltb_spec (2 + (1 + zlen payload + 4)) 7); [lia|]. cbn [rbind].
  destruct (Z.ltb_spec (65535 + 1) (le_combine len)); [lia|].
  destruct (Z.eqb_spec (2 + (1 + zlen payload + 4)) (2 + le_combine len + 4)); [lia|].
  cbn [negb]. f_equal. f_equal. lia.
Qed.

(** Whatever is decoded had the shape of an encoding. *)
Lemma frame_from_bytes_inv data f :
  frame_from_bytes crc32 data = Ok f ->
  exists len t crc,
    data = (len ++ t :: frame_payload f) ++ crc /\ zlen len = 2 /\ zlen crc = 4 /\
    le_combine len = 1 + zlen (frame_payload f) /\
    le_combine crc = crc32 (len ++ t :: frame_payload f) /\
    frame_type_from_u8 (byte.unsigned t) = Ok (frame_type f).
Proof.
  intros H. destruct (Z.ltb_spec (zlen data) 7) as [Hs|Hs].
  { unfold frame_from_bytes, TRANSPORT_OVERHEAD in H. by rewrite (proj2 (Z.ltb_lt _ _) Hs) in H. }
  destruct (frame_split _ Hs) as (len & t & payload & crc & -> & Hlen & Hcrc).
  destruct (Z.eq_dec (le_combine len) (1 + zlen payload)) as [Hv|Hv];
    [|by rewrite frame_from_bytes_bad_length in H].
  rewrite frame_from_bytes_shape in H by done.
  destruct (Z.eqb_spec (crc32 (len ++ t :: payload)) (le_combine crc)); [|done].
  destruct (frame_type_from_u8 (byte.unsigned t)) eqn:Ht; [|done|done].
  injection H as <-. cbn. eauto 10.
Qed.

(** The encoding of a frame, read from the head of a stream. *)
Lemma read_with_timeout_app f bs rest e :
  frame_wf f -> frame_to_bytes crc32 f = Ok bs ->
  read_with_timeout crc32 (bs ++ rest) e = Ok (f, rest).
Proof.
  intros Hwf Hbs. pose proof (zlen_nonneg (frame_payload f)).
  rewrite frame_to_bytes_wf in Hbs by done. apply Ok_inj in Hbs as <-.
  set (len := le_split 2 (1 + zlen (frame_payload f))).
  set (t := byte.of_Z (frame_type_as_u8 (frame_type f))).
  set (crc := le_split 4 _).
  assert (Hlen : zlen len = 2) by done.
  assert (Hval : le_combine len = 1 + zlen (frame_payload f)).
  { apply le_combine_le_split. unfold frame_wf in Hwf. lia. }
  assert (Hcrc : zlen crc = 4) by done.
  unfold read_with_timeout, read_exact.
  destruct (Z.leb_spec 2 (zlen (((len ++ t :: frame_payload f) ++ crc) ++ rest))) as [_|Hn];
    [|exfalso; revert Hn; autorewrite with zlen; pose proof (zlen_nonneg rest); lia].
  rewrite <-!app_assoc. cbn [rbind]. change (Z.to_nat 2) with (length len).
  rewrite take_app_length, drop_app_length, Hval. unfold FRAME_MAX_PAYLOAD.
  destruct (Z.ltb_spec (65535 + 1) (1 + zlen (frame_payload f))); [unfold frame_wf in Hwf; lia|].
  rewrite app_assoc. set (body := (t :: frame_payload f) ++ crc).
  assert (Hb : zlen body = 1 + zlen (frame_payload f) + 4)
    by (unfold body; autorewrite with zlen; lia).
  destruct (Z.leb_spec (1 + zlen (frame_payload f) + 4) (zlen (body ++ rest))) as [_|Hn];
    [|exfalso; revert Hn; rewrite zlen_app, Hb; pose proof (zlen_nonneg rest); lia].
  cbn [rbind]. rewrite <-Hb. unfold zlen at 1 2. rewrite !Nat2Z.id, take_app_length, drop_app_length.
  unfold body. rewrite app_assoc, frame_from_bytes_shape by done.
  unfold crc at 1. rewrite le_combine_le_split by apply crc32_u32.
  rewrite Z.eqb_refl. cbn [negb]. unfold t. rewrite frame_type_roundtrip. cbn. by destruct f.
Qed.

(** ** Properties *)

(** A frame whose payload has at most 65534 bytes is encoded, the encoding is seven bytes
    longer than the payload, and decoding it gives the frame back. *)
Theorem frame_roundtrip f :
  frame_wf f ->
  exists bs, frame_to_bytes crc32 f = Ok bs /\
             zlen bs = TRANSPORT_OVERHEAD + zlen (frame_payload f) /\
             frame_from_bytes crc32 bs = Ok f.
Proof.
  intros Hwf. rewrite frame_to_bytes_wf by done. eexists; split; [done|].
  split; [autorewrite with zlen; unfold TRANSPORT_OVERHEAD; lia|].
  rewrite frame_from_bytes_shape by
    (try done; apply le_combine_le_split; unfold frame_wf in Hwf;
     pose proof (zlen_nonneg (frame_payload f)); lia).
  rewrite le_combine_le_split by apply crc32_u32.
  rewrite Z.eqb_refl, frame_type_roundtrip. by destruct f.
Qed.

(** Every index and slice the decoder takes is in range. *)
Lemma frame_from_bytes_no_panic data : frame_from_bytes crc32 data <> Panic.
Proof.
  destruct (Z.ltb_spec (zlen data) 7) as [Hs|Hs].
  { unfold frame_from_bytes, TRANSPORT_OVERHEAD. by rewrite (proj2 (Z.ltb_lt _ _) Hs). }
  destruct (frame_split _ Hs) as (len & t & payload & crc & -> & Hlen & Hcrc).
  destruct (Z.eq_dec (le_combine len) (1 + zlen payload)) as [Hv|Hv].
  - rewrite frame_from_bytes_shape by done. case_if; [done|].
    pose proof (frame_type_no_panic (byte.unsigned t)).
    by destruct (frame_type_from_u8 (byte.unsigned t)).
  - by rewrite frame_from_bytes_bad_length.
Qed.

(** C1: the decoder never panics, whatever bytes arrive, and accepts nothing but encodings: a buffer
    that decodes to [f] is, byte for byte, what the encoder produces for [f], so no two distinct
    buffers decode to the same frame. *)
Theorem frame_decode_canonical data :
  frame_from_bytes crc32 data <> Panic /\
  forall f, frame_from_bytes crc32 data = Ok f -> frame_to_bytes crc32 f = Ok data.
Proof.
  split; [apply frame_from_bytes_no_panic|].
  intros f (len & t & crc & -> & Hlen & Hcrc & Hval & Hsum & Ht)%frame_from_bytes_inv.
  apply frame_type_from_u8_Ok in Ht as ->.
  rewrite (frame_to_bytes_wf f).
  2:{ unfold frame_wf. pose proof (le_combine_bound len) as B.
      change (8 * Z.of_nat (length len)) with (8 * zlen len) in B. rewrite Hlen in B. lia. }
  rewrite <-Hval. rewrite (split_le_combine' len 2) by (unfold zlen in Hlen; lia).
  rewrite <-Hsum. by rewrite (split_le_combine' crc 4) by (unfold zlen in Hcrc; lia).
Qed.

(** A peer that sends frames back to back is read frame by frame: however the stream ends
    afterwards, the reader returns exactly the frames sent, in order, and the unread bytes. *)
Theorem read_frames_in_order fs encs rest e :
  Forall frame_wf fs ->
  Forall2 (fun f bs => frame_to_bytes crc32 f = Ok bs) fs encs ->
  read_frames crc32 (length fs) (concat encs ++ rest) e = Ok (fs, rest).
Proof.
  intros Hwf Hen. induction Hen as [|f bs fs encs Hf Hen IH]; [done|].
  inversion_clear Hwf. cbn [read_frames length concat]. rewrite <-app_assoc.
  rewrite (read_with_timeout_app f) by done. cbn [rbind]. by rewrite IH.
Qed.

End FrameFacts.

(** ** Witnesses *)

Definition sample_frame : DriftFrame := mkFrame FT_Ping [Byte.x01; Byte.x80; Byte.xff].

Lemma crc32_ieee_u32 data : in_u 32 (crc32_ieee data).
Proof. unfold crc32_ieee, cast_u. apply Z.mod_pos_bound. lia. Qed.

(** The check value of CRC-32: the checksum of the ASCII digits 1 to 9. *)
Example crc32_ieee_check : crc32_ieee (str_bytes "123456789") = 3421780262.
Proof. reflexivity. Qed.

Lemma frame_roundtrip_witness :
  exists bs, frame_to_bytes crc32_ieee sample_frame = Ok bs /\
             zlen bs = TRANSPORT_OVERHEAD + zlen (frame_payload sample_frame) /\
             frame_from_bytes crc32_ieee bs = Ok sample_frame.
Proof. apply (frame_roundtrip crc32_ieee crc32_ieee_u32). by vm_compute. Defined.

Definition sample_frame_bytes : bytes :=
  match frame_to_bytes crc32_ieee sample_frame with Ok bs => bs | _ => [] end.

Lemma frame_decode_canonical_witness :
  frame_to_bytes crc32_ieee sample_frame = Ok sample_frame_bytes.
Proof. apply (frame_decode_canonical crc32_ieee sample_frame_bytes). vm_compute. reflexivity. Defined.

Lemma read_frames_in_order_witness :
  read_frames crc32_ieee 2 (sample_frame_bytes ++ sample_frame_bytes ++ [Byte.x07]) ReaderStalls
  = Ok ([sample_frame; sample_frame], [Byte.x07]).
Proof.
  apply (read_frames_in_order crc32_ieee crc32_ieee_u32 [sample_frame; sample_frame]
           [sample_frame_bytes; sample_frame_bytes] [Byte.x07] ReaderStalls).
  - repeat constructor; by vm_compute.
  - repeat constructor; vm_compute; reflexivity.
Defined.
