(* ===== verification/Envelope.v ===== *)
(** * Drift envelopes ([core/src/drift/envelope.rs], [core/src/drift/compress.rs])

    The binary envelope that the mesh relays: 187 bytes of fixed fields, an
    optionally LZ4-compressed ciphertext, a ratchet extension and a
    post-quantum extension.  The legacy and hybrid message envelopes it converts
    from and to are the structs of [core/src/message/types.rs].

    Third-party code is a parameter: [lz4_flex] ([lz4_compress],
    [lz4_decompress]), [blake3], [uuid] and [ed25519_dalek]. *)

From S2P Require Import Prelude Frame.

(** ** Data *)

Definition COMPRESSION_THRESHOLD : Z := 256.
Definition COMPRESSION_FLAG : Z := 128.

Inductive EnvelopeType : Type :=
| ET_EncryptedMessage
| ET_DeliveryReceipt
| ET_SyncRequest
| ET_SyncResponse
| ET_PeerAnnouncement
| ET_RouteAdvertisement
| ET_CoverTraffic
| ET_OnionMessage.

#[global] Instance EnvelopeType_eq_dec : EqDecision EnvelopeType.
Proof. solve_decision. Defined.

Record DriftEnvelope : Type := mkEnvelope {
  e_version : Z;
  e_envelope_type : EnvelopeType;
  e_compressed : bool;
  e_message_id : bytes;
  e_recipient_hint : bytes;
  e_created_at : Z;
  e_ttl_expiry : Z;
  e_hop_count : Z;
  e_priority : Z;
  e_sender_public_key : bytes;
  e_ephemeral_public_key : bytes;
  e_nonce : bytes;
  e_signature : bytes;
  e_ciphertext : bytes;
  e_ratchet_dh_public : option bytes;
  e_ratchet_message_number : option Z;
  e_suite : option Z;
  e_pq_kem_ciphertext : option bytes;
  e_pq_encaps_key : option bytes;
  e_transcript_hash : option bytes;
}.

(** [message::Envelope]. *)
Record LegacyEnvelope : Type := mkLegacy {
  l_sender_public_key : bytes;
  l_ephemeral_public_key : bytes;
  l_nonce : bytes;
  l_ciphertext : bytes;
  l_ratchet_dh_public : option bytes;
  l_ratchet_message_number : option Z;
}.

(** [message::EnvelopeV2]. *)
Record EnvelopeV2 : Type := mkV2 {
  v2_suite : Z;
  v2_sender_public_key : bytes;
  v2_ephemeral_public_key : bytes;
  v2_nonce : bytes;
  v2_ciphertext : bytes;
  v2_ratchet_dh_public : option bytes;
  v2_ratchet_message_number : option Z;
  v2_pq_kem_ciphertext : option bytes;
  v2_pq_encaps_key : option bytes;
  v2_transcript_hash : option bytes;
}.

Inductive WireEnvelope : Type :=
| WireV1 (e : LegacyEnvelope)
| WireV2 (e : EnvelopeV2).

Definition envelope_type_from_u8 (value : Z) : res DriftError EnvelopeType :=
  match value with
  | 1 => Ok ET_EncryptedMessage
  | 2 => Ok ET_DeliveryReceipt
  | 3 => Ok ET_SyncRequest
  | 4 => Ok ET_SyncResponse
  | 5 => Ok ET_PeerAnnouncement
  | 6 => Ok ET_RouteAdvertisement
  | 7 => Ok ET_CoverTraffic
  | 8 => Ok ET_OnionMessage
  | other => Err (InvalidEnvelopeType other)
  end.

Definition envelope_type_as_u8 (t : EnvelopeType) : Z :=
  match t with
  | ET_EncryptedMessage => 1
  | ET_DeliveryReceipt => 2
  | ET_SyncRequest => 3
  | ET_SyncResponse => 4
  | ET_PeerAnnouncement => 5
  | ET_RouteAdvertisement => 6
  | ET_CoverTraffic => 7
  | ET_OnionMessage => 8
  end.

Definition FIXED_OVERHEAD : Z := 187.
Definition MAX_CIPHERTEXT : Z := 65535.

(** The byte that carries the envelope type and the compression flag. *)
Definition type_byte (e : DriftEnvelope) : Z :=
  Z.lor (envelope_type_as_u8 (e_envelope_type e))
        (if e_compressed e then COMPRESSION_FLAG else 0).

(** [self.suite.is_some() || self.pq_kem_ciphertext.is_some() || ...]. *)
Definition has_pq (e : DriftEnvelope) : bool :=
  bool_decide (is_Some (e_suite e))
  || bool_decide (is_Some (e_pq_kem_ciphertext e))
  || bool_decide (is_Some (e_pq_encaps_key e))
  || bool_decide (is_Some (e_transcript_hash e)).

(** The closure [append_blob]: a [u32] length and the bytes, empty for [None]. *)
Definition append_blob (v : option bytes) : bytes :=
  let d := default [] v in le_split 4 (cast_u 32 (zlen d)) ++ d.

(** The ratchet extension as it is written. *)
Definition ratchet_ext (e : DriftEnvelope) : bytes :=
  match e_ratchet_dh_public e with
  | Some dh_public =>
      [Byte.x01] ++ dh_public ++ le_split 4 (default 0 (e_ratchet_message_number e))
  | None => [Byte.x00]
  end.

(** The post-quantum extension as it is written. *)
Definition pq_ext (e : DriftEnvelope) : bytes :=
  if has_pq e then
    [Byte.x01] ++ [byte.of_Z (default 2 (e_suite e))]
      ++ append_blob (e_pq_kem_ciphertext e)
      ++ append_blob (e_pq_encaps_key e)
      ++ append_blob (e_transcript_hash e)
  else [].

(** The closure [read_blob]: the blob at [offset] and the offset after it. *)
Definition read_blob (data : bytes) (offset : Z) : res DriftError (option bytes * Z) :=
  if zlen data <? offset + 4 then Err (BufferTooShort (offset + 4) (zlen data))
  else
    let! len := read_u32 data offset in
    let offset := offset + 4 in
    if len =? 0 then Ok (None, offset)
    else if zlen data <? offset + len then Err (BufferTooShort (offset + len) (zlen data))
    else
      let! blob := slice data offset (offset + len) in
      Ok (Some blob, offset + len).

(** The ratchet extension at [offset]: absent, flagged absent, or a key and a number. *)
Definition read_ratchet (data : bytes) (offset : Z) : res DriftError (option bytes * option Z * Z) :=
  if offset <? zlen data then
    let! ratchet_flag := idx data offset in
    let offset := offset + 1 in
    if byte.unsigned ratchet_flag =? 1 then
      if offset + 32 + 4 <=? zlen data then
        let! dh_key := slice data offset (offset + 32) in
        let offset := offset + 32 in
        let! msg_num := read_u32 data offset in
        Ok (Some dh_key, Some msg_num, offset + 4)
      else Err (BufferTooShort (offset + 32 + 4) (zlen data))
    else Ok (None, None, offset)
  else Ok (None, None, offset).

(** The post-quantum extension at [offset]. *)
Definition read_pq (data : bytes) (offset : Z)
  : res DriftError (option Z * option bytes * option bytes * option bytes) :=
  if offset <? zlen data then
    let! pq_flag := idx data offset in
    let offset := offset + 1 in
    if byte.unsigned pq_flag =? 1 then
      let! suite := idx data offset in
      let offset := offset + 1 in
      let! '(pq_kem_ciphertext, offset) := read_blob data offset in
      let! '(pq_encaps_key, offset) := read_blob data offset in
      let! '(transcript_hash, offset) := read_blob data offset in
      Ok (Some (byte.unsigned suite), pq_kem_ciphertext, pq_encaps_key, transcript_hash)
    else Ok (None, None, None, None)
  else Ok (None, None, None, None).

(** ** Operations *)

Section Envelope.
Context {BM : Build}.
Context (lz4_compress : bytes -> bytes) (lz4_decompress : bytes -> res string bytes).
Context (blake3 : bytes -> bytes).

Definition compress (data : bytes) : bytes := lz4_compress data.

Definition decompress (data : bytes) : res DriftError bytes :=
  map_err DecompressionFailed (lz4_decompress data).

Definition envelope_to_bytes (e : DriftEnvelope) : res DriftError bytes :=
  let ciphertext := if e_compressed e then compress (e_ciphertext e) else e_ciphertext e in
  if MAX_CIPHERTEXT <? zlen ciphertext then Err (CiphertextTooLarge (zlen ciphertext))
  else
    let header := [byte.of_Z (e_version e); byte.of_Z (type_byte e)] ++ e_message_id e in
    let routing := e_recipient_hint e ++ le_split 4 (e_created_at e) ++ le_split 4 (e_ttl_expiry e)
                     ++ [byte.of_Z (e_hop_count e); byte.of_Z (e_priority e)] in
    let crypto := e_sender_public_key e ++ e_ephemeral_public_key e ++ e_nonce e ++ e_signature e in
    let payload := le_split 2 (cast_u 16 (zlen ciphertext)) ++ ciphertext in
    Ok (header ++ routing ++ crypto ++ payload ++ ratchet_ext e ++ pq_ext e).

Definition envelope_from_bytes (data : bytes) : res DriftError DriftEnvelope :=
  if zlen data <? FIXED_OVERHEAD then Err (BufferTooShort FIXED_OVERHEAD (zlen data))
  else
    let offset := 0 in
    let! version := idx data offset in
    let version := byte.unsigned version in
    let offset := offset + 1 in
    if negb (version =? DRIFT_VERSION) then Err (InvalidVersion version)
    else
      let! type_byte := idx data offset in
      let type_byte := byte.unsigned type_byte in
      let compressed := negb (Z.land type_byte COMPRESSION_FLAG =? 0) in
      let! envelope_type :=
        envelope_type_from_u8 (Z.land type_byte (Z.lxor 255 COMPRESSION_FLAG)) in
      let offset := offset + 1 in
      let! message_id := slice data offset (offset + 16) in
      let offset := offset + 16 in
      let! recipient_hint := slice data offset (offset + 4) in
      let offset := offset + 4 in
      let! created_at := read_u32 data offset in
      let offset := offset + 4 in
      let! ttl_expiry := read_u32 data offset in
      let offset := offset + 4 in
      let! hop_count := idx data offset in
      let offset := offset + 1 in
      let! priority := idx data offset in
      let offset := offset + 1 in
      let! sender_public_key := slice data offset (offset + 32) in
      let offset := offset + 32 in
      let! ephemeral_public_key := slice data offset (offset + 32) in
      let offset := offset + 32 in
      let! nonce := slice data offset (offset + 24) in
      let offset := offset + 24 in
      let! signature := slice data offset (offset + 64) in
      let offset := offset + 64 in
      let! ciphertext_len := read_u16 data offset in
      let offset := offset + 2 in
      if zlen data <? offset + ciphertext_len then
        Err (BufferTooShort (offset + ciphertext_len) (zlen data))
      else
        let! ciphertext_bytes := slice data offset (offset + ciphertext_len) in
        let! ciphertext := if compressed then decompress ciphertext_bytes else Ok ciphertext_bytes in
        let offset := offset + ciphertext_len in
        let! '(ratchet_dh_public, ratchet_message_number, offset) := read_ratchet data offset in
        let! '(suite, pq_kem_ciphertext, pq_encaps_key, transcript_hash) := read_pq data offset in
        Ok {| e_version := version;
              e_envelope_type := envelope_type;
              e_compressed := compressed;
              e_message_id := message_id;
              e_recipient_hint := recipient_hint;
              e_created_at := created_at;
              e_ttl_expiry := ttl_expiry;
              e_hop_count := byte.unsigned hop_count;
              e_priority := byte.unsigned priority;
              e_sender_public_key := sender_public_key;
              e_ephemeral_public_key := ephemeral_public_key;
              e_nonce := nonce;
              e_signature := signature;
              e_ciphertext := ciphertext;
              e_ratchet_dh_public := ratchet_dh_public;
              e_ratchet_message_number := ratchet_message_number;
              e_suite := suite;
              e_pq_kem_ciphertext := pq_kem_ciphertext;
              e_pq_encaps_key := pq_encaps_key;
              e_transcript_hash := transcript_hash |}.

Definition hint_from_public_key (public_key : bytes) : bytes := take 4 (blake3 public_key).

Definition increment_hop (e : DriftEnvelope) : DriftEnvelope :=
  { e with e_hop_count := sat_add 8 (e_hop_count e) 1 }.

(** [now] is the wall clock in seconds since the epoch. *)
Definition envelope_is_expired (now : Z) (e : DriftEnvelope) : bool :=
  if e_ttl_expiry e =? 0 then false else e_ttl_expiry e <? cast_u 32 now.

Definition to_legacy_envelope (e : DriftEnvelope) : LegacyEnvelope :=
  {| l_sender_public_key := e_sender_public_key e;
     l_ephemeral_public_key := e_ephemeral_public_key e;
     l_nonce := e_nonce e;
     l_ciphertext := e_ciphertext e;
     l_ratchet_dh_public := e_ratchet_dh_public e;
     l_ratchet_message_number := e_ratchet_message_number e |}.

Definition to_wire_envelope (e : DriftEnvelope) : WireEnvelope :=
  if has_pq e then
    WireV2 {| v2_suite := default 2 (e_suite e);
              v2_sender_public_key := e_sender_public_key e;
              v2_ephemeral_public_key := e_ephemeral_public_key e;
              v2_nonce := e_nonce e;
              v2_ciphertext := e_ciphertext e;
              v2_ratchet_dh_public := e_ratchet_dh_public e;
              v2_ratchet_message_number := e_ratchet_message_number e;
              v2_pq_kem_ciphertext := e_pq_kem_ciphertext e;
              v2_pq_encaps_key := e_pq_encaps_key e;
              v2_transcript_hash := e_transcript_hash e |}
  else WireV1 (to_legacy_envelope e).

(** The bytes fed to the hasher by [signing_hash], in order. *)
Definition signing_input (e : DriftEnvelope) : bytes :=
  [byte.of_Z (e_version e)] ++ [byte.of_Z (type_byte e)]
    ++ e_message_id e ++ e_recipient_hint e
    ++ le_split 4 (e_created_at e) ++ le_split 4 (e_ttl_expiry e)
    ++ [byte.of_Z (e_hop_count e)] ++ [byte.of_Z (e_priority e)]
    ++ e_sender_public_key e ++ e_ephemeral_public_key e ++ e_nonce e
    ++ le_split 2 (cast_u 16 (zlen (e_ciphertext e))) ++ e_ciphertext e
    ++ ratchet_ext e ++ pq_ext e.

Definition signing_hash (e : DriftEnvelope) : bytes := blake3 (signing_input e).

(** [ed25519_dalek]: signing, checking that 32 bytes are a public key, verifying. *)
Context {SigningKey : Type}.
Context (ed_sign : SigningKey -> bytes -> bytes).
Context (ed_key_ok : bytes -> res string unit).
Context (ed_verify : bytes -> bytes -> bytes -> res string unit).
Context (uuid_parse : string -> res string bytes).

Definition envelope_sign (k : SigningKey) (e : DriftEnvelope) : bytes := ed_sign k (signing_hash e).

Definition envelope_verify (e : DriftEnvelope) : res DriftError unit :=
  let! _ := map_err (fun m => IoError ("Invalid sender public key: " +:+ m))
              (ed_key_ok (e_sender_public_key e)) in
  map_err (fun m => IoError ("Signature verification failed: " +:+ m))
    (ed_verify (e_sender_public_key e) (signing_hash e) (e_signature e)).

(** [v.try_into()] to an array of [n] bytes. *)
Definition try_into_array (n : Z) (msg : string) (v : bytes) : res DriftError bytes :=
  if zlen v =? n then Ok v else Err (IoError msg).

Definition transpose_array (n : Z) (msg : string) (v : option bytes) : res DriftError (option bytes) :=
  match v with
  | None => Ok None
  | Some v => rmap Some (try_into_array n msg v)
  end.

(** [now]: what [SystemTime::now().duration_since(UNIX_EPOCH)] returns, in seconds. *)
Definition from_legacy_envelope (now : res string Z) (legacy : LegacyEnvelope) (message_id : string)
    (recipient_public_key : bytes) (signing_key : SigningKey) : res DriftError DriftEnvelope :=
  let! message_id_bytes := map_err (fun m => IoError ("Invalid message ID: " +:+ m))
                             (uuid_parse message_id) in
  let recipient_hint := hint_from_public_key recipient_public_key in
  let! now := map_err (fun m => IoError ("Time error: " +:+ m)) now in
  let created_at := cast_u 32 now in
  let! ttl_expiry := chk_u 32 (created_at + 604800) in
  let! sender_public_key := try_into_array 32 "Invalid sender public key length" (l_sender_public_key legacy) in
  let! ephemeral_public_key :=
    try_into_array 32 "Invalid ephemeral public key length" (l_ephemeral_public_key legacy) in
  let! nonce := try_into_array 24 "Invalid nonce length" (l_nonce legacy) in
  let! ratchet_dh_public :=
    transpose_array 32 "Invalid ratchet_dh_public length" (l_ratchet_dh_public legacy) in
  let drift_env :=
    {| e_version := DRIFT_VERSION;
       e_envelope_type := ET_EncryptedMessage;
       e_compressed := COMPRESSION_THRESHOLD <? zlen (l_ciphertext legacy);
       e_message_id := message_id_bytes;
       e_recipient_hint := recipient_hint;
       e_created_at := created_at;
       e_ttl_expiry := ttl_expiry;
       e_hop_count := 0;
       e_priority := 128;
       e_sender_public_key := sender_public_key;
       e_ephemeral_public_key := ephemeral_public_key;
       e_nonce := nonce;
       e_signature := replicate 64 Byte.x00;
       e_ciphertext := l_ciphertext legacy;
       e_ratchet_dh_public := ratchet_dh_public;
       e_ratchet_message_number := l_ratchet_message_number legacy;
       e_suite := None;
       e_pq_kem_ciphertext := None;
       e_pq_encaps_key := None;
       e_transcript_hash := None |} in
  Ok { drift_env with e_signature := envelope_sign signing_key drift_env }.

Definition from_v2_envelope (now : res string Z) (v2 : EnvelopeV2) (message_id : string)
    (recipient_public_key : bytes) (signing_key : SigningKey) : res DriftError DriftEnvelope :=
  let! message_id_bytes := map_err (fun m => IoError ("Invalid message ID: " +:+ m))
                             (uuid_parse message_id) in
  let recipient_hint := hint_from_public_key recipient_public_key in
  let! now := map_err (fun m => IoError ("Time error: " +:+ m)) now in
  let created_at := cast_u 32 now in
  let! ttl_expiry := chk_u 32 (created_at + 604800) in
  let! sender_public_key := try_into_array 32 "Invalid sender public key length" (v2_sender_public_key v2) in
  let! ephemeral_public_key :=
    try_into_array 32 "Invalid ephemeral public key length" (v2_ephemeral_public_key v2) in
  let! nonce := try_into_array 24 "Invalid nonce length" (v2_nonce v2) in
  let! ratchet_dh_public :=
    transpose_array 32 "Invalid ratchet_dh_public length" (v2_ratchet_dh_public v2) in
  let drift_env :=
    {| e_version := DRIFT_VERSION;
       e_envelope_type := ET_EncryptedMessage;
       e_compressed := COMPRESSION_THRESHOLD <? zlen (v2_ciphertext v2);
       e_message_id := message_id_bytes;
       e_recipient_hint := recipient_hint;
       e_created_at := created_at;
       e_ttl_expiry := ttl_expiry;
       e_hop_count := 0;
       e_priority := 128;
       e_sender_public_key := sender_public_key;
       e_ephemeral_public_key := ephemeral_public_key;
       e_nonce := nonce;
       e_signature := replicate 64 Byte.x00;
       e_ciphertext := v2_ciphertext v2;
       e_ratchet_dh_public := ratchet_dh_public;
       e_ratchet_message_number := v2_ratchet_message_number v2;
       e_suite := Some (v2_suite v2);
       e_pq_kem_ciphertext := v2_pq_kem_ciphertext v2;
       e_pq_encaps_key := v2_pq_encaps_key v2;
       e_transcript_hash := v2_transcript_hash v2 |} in
  Ok { drift_env with e_signature := envelope_sign signing_key drift_env }.

End Envelope.

(** ** Well-formed envelopes and what the wire format keeps of them *)

(** The types of the source's fields: fixed arrays have their lengths, integers fit. *)
Record envelope_wf (e : DriftEnvelope) : Prop := mkEnvelopeWf {
  wf_version : e_version e = DRIFT_VERSION;
  wf_message_id : zlen (e_message_id e) = 16;
  wf_recipient_hint : zlen (e_recipient_hint e) = 4;
  wf_created_at : in_u 32 (e_created_at e);
  wf_ttl_expiry : in_u 32 (e_ttl_expiry e);
  wf_hop_count : in_u 8 (e_hop_count e);
  wf_priority : in_u 8 (e_priority e);
  wf_sender : zlen (e_sender_public_key e) = 32;
  wf_ephemeral : zlen (e_ephemeral_public_key e) = 32;
  wf_nonce : zlen (e_nonce e) = 24;
  wf_signature : zlen (e_signature e) = 64;
  wf_dh : forall k, e_ratchet_dh_public e = Some k -> zlen k = 32;
  wf_number : in_u 32 (default 0 (e_ratchet_message_number e));
  wf_suite : in_u 8 (default 2 (e_suite e));
  wf_kem : in_u 32 (zlen (default [] (e_pq_kem_ciphertext e)));
  wf_encaps : in_u 32 (zlen (default [] (e_pq_encaps_key e)));
  wf_transcript : in_u 32 (zlen (default [] (e_transcript_hash e)));
}.

Definition normal_blob (v : option bytes) : option bytes :=
  match v with Some [] => None | v => v end.

(** What a decoder can recover: a message number only beside a ratchet key (0 when it was
    missing), suite 2 when a post-quantum blob came without a suite, and no empty blobs. *)
Definition normal (e : DriftEnvelope) : DriftEnvelope :=
  { e with
    e_ratchet_message_number :=
      (match e_ratchet_dh_public e with
       | Some _ => Some (default 0 (e_ratchet_message_number e))
       | None => None
       end);
    e_suite := (if has_pq e then Some (default 2 (e_suite e)) else None);
    e_pq_kem_ciphertext := normal_blob (e_pq_kem_ciphertext e);
    e_pq_encaps_key := normal_blob (e_pq_encaps_key e);
    e_transcript_hash := normal_blob (e_transcript_hash e) }.

(** ** Lemmas *)

Lemma byte_of_Z_id z : in_u 8 z -> byte.unsigned (byte.of_Z z) = z.
Proof. intros H. rewrite byte.unsigned_of_Z. apply Z.mod_small, H. Qed.

Lemma type_byte_u8 e : in_u 8 (type_byte e).
Proof. unfold type_byte. by destruct (e_envelope_type e), (e_compressed e). Qed.

Lemma type_byte_flag e :
  negb (Z.land (type_byte e) COMPRESSION_FLAG =? 0) = e_compressed e.
Proof. unfold type_byte. by destruct (e_envelope_type e), (e_compressed e). Qed.

Lemma type_byte_type e :
  envelope_type_from_u8 (Z.land (type_byte e) (Z.lxor 255 COMPRESSION_FLAG))
  = Ok (e_envelope_type e).
Proof. unfold type_byte. by destruct (e_envelope_type e), (e_compressed e). Qed.

Lemma type_byte_inj e1 e2 :
  type_byte e1 = type_byte e2 ->
  e_envelope_type e1 = e_envelope_type e2 /\ e_compressed e1 = e_compressed e2.
Proof.
  intros H. pose proof (type_byte_type e1) as T1. rewrite H, type_byte_type in T1.
  pose proof (type_byte_flag e1) as F1. rewrite H, type_byte_flag in F1.
  by apply Ok_inj in T1.
Qed.

Lemma zlen_append_blob v : zlen (append_blob v) = 4 + zlen (default [] v).
Proof. unfold append_blob. autorewrite with zlen. lia. Qed.

#[export] Hint Rewrite zlen_append_blob : zlen.

(** The parsing automation: skip the prefix in front of a read. *)
Ltac zlen_lia := autorewrite with zlen; try lia.

Ltac skip_prefix :=
  repeat first
    [ rewrite idx_app_r by zlen_lia
    | rewrite slice_app_r by zlen_lia
    | rewrite read_u16_app_r by zlen_lia
    | rewrite read_u32_app_r by zlen_lia ].

Lemma read_blob_at data p v r o :
  data = p ++ append_blob v ++ r -> o = zlen p ->
  in_u 32 (zlen (default [] v)) ->
  read_blob data o = Ok (normal_blob v, o + zlen (append_blob v)).
Proof.
  intros -> -> Hb. set (d := default [] v) in *.
  pose proof (zlen_nonneg d); pose proof (zlen_nonneg r).
  unfold read_blob. autorewrite with zlen. fold d.
  destruct (Z.ltb_spec (zlen p + (4 + zlen d + zlen r)) (zlen p + 4)); [lia|].
  unfold append_blob. fold d. unfold cast_u. rewrite Z.mod_small by apply Hb.
  rewrite read_u32_app_r, Z.sub_diag, <-app_assoc, read_u32_app_l by (zlen_lia || done).
  rewrite le_combine_le_split by apply Hb. cbn [rbind].
  destruct (Z.eqb_spec (zlen d) 0) as [Hz|Hz].
  { rewrite Hz. apply zlen_0_inv in Hz. subst d. destruct v as [[|??]|]; [|done|]; cbn.
    all: f_equal; f_equal; lia. }
  destruct (Z.ltb_spec (zlen p + (4 + zlen d + zlen r)) (zlen p + 4 + zlen d)); [lia|].
  rewrite !slice_app_r by zlen_lia. rewrite zlen_le_split.
  replace (zlen p + 4 - zlen p - Z.of_nat 4) with 0 by lia.
  rewrite slice_app_l by lia. cbn [rbind].
  destruct v as [[|b v]|]; [done| |done]. cbn. f_equal. f_equal. unfold d. cbn [default id].
  lia.
Qed.

Lemma read_ratchet_at data p e r o :
  data = p ++ ratchet_ext e ++ r -> o = zlen p -> envelope_wf e ->
  read_ratchet data o =
    Ok (e_ratchet_dh_public e, e_ratchet_message_number (normal e), o + zlen (ratchet_ext e)).
Proof.
  intros -> -> Hwf. pose proof (zlen_nonneg r). unfold read_ratchet, normal.
  cbn [e_ratchet_message_number apply_update constant]. unfold ratchet_ext.
  destruct (e_ratchet_dh_public e) as [k|] eqn:Hk.
  2:{ destruct (Z.ltb_spec (zlen p) (zlen (p ++ [Byte.x00] ++ r))) as [_|Hn];
        [|exfalso; revert Hn; zlen_lia].
      rewrite idx_app_r, Z.sub_diag by lia. done. }
  pose proof (wf_dh e Hwf k Hk) as Hlen.
  set (num := le_split 4 _). assert (Hnum : zlen num = 4) by done.
  destruct (Z.ltb_spec (zlen p) (zlen (p ++ ([Byte.x01] ++ k ++ num) ++ r))) as [_|Hn];
    [|exfalso; revert Hn; zlen_lia].
  rewrite idx_app_r, Z.sub_diag by lia. cbn [rbind idx Z.ltb].
  change (idx (([Byte.x01] ++ k ++ num) ++ r) 0) with (@Ok DriftError _ Byte.x01).
  cbn [rbind]. change (byte.unsigned Byte.x01 =? 1) with true. cbn match.
  destruct (Z.leb_spec (zlen p + 1 + 32 + 4) (zlen (p ++ ([Byte.x01] ++ k ++ num) ++ r))) as [_|Hn];
    [|exfalso; revert Hn; zlen_lia].
  rewrite <-!app_assoc. skip_prefix. change (zlen [Byte.x01]) with 1.
  replace (zlen p + 1 - zlen p - 1) with 0 by lia.
  rewrite slice_app_l by lia. cbn [rbind].
  replace (zlen p + 1 + 32 - zlen p - 1 - zlen k) with 0 by lia.
  rewrite read_u32_app_l by done. unfold num. rewrite le_combine_le_split by apply (wf_number e Hwf).
  cbn [rbind]. f_equal. f_equal. zlen_lia.
Qed.

Lemma read_pq_at data p e o :
  data = p ++ pq_ext e -> o = zlen p -> envelope_wf e ->
  read_pq data o =
    Ok (e_suite (normal e), e_pq_kem_ciphertext (normal e), e_pq_encaps_key (normal e),
        e_transcript_hash (normal e)).
Proof.
  intros Hd -> Hwf. unfold read_pq, normal.
  cbn [e_suite e_pq_kem_ciphertext e_pq_encaps_key e_transcript_hash apply_update constant].
  unfold pq_ext in Hd. destruct (has_pq e) eqn:Hpq.
  2:{ rewrite app_nil_r in Hd. subst data. rewrite Z.ltb_irrefl.
      unfold has_pq in Hpq. bool_to_prop. repeat match goal with
        H : bool_decide (is_Some _) = false |- _ => apply bool_decide_eq_false in H;
          apply eq_None_not_Some in H; rewrite H end. done. }
  assert (Hl : zlen data = zlen p + 2 + (4 + zlen (default [] (e_pq_kem_ciphertext e)))
    + (4 + zlen (default [] (e_pq_encaps_key e))) + (4 + zlen (default [] (e_transcript_hash e))))
    by (rewrite Hd; zlen_lia).
  pose proof (zlen_nonneg (default [] (e_pq_kem_ciphertext e))).
  pose proof (zlen_nonneg (default [] (e_pq_encaps_key e))).
  pose proof (zlen_nonneg (default [] (e_transcript_hash e))).
  destruct (Z.ltb_spec (zlen p) (zlen data)); [|lia].
  set (tl := append_blob (e_pq_kem_ciphertext e) ++ append_blob (e_pq_encaps_key e)
               ++ append_blob (e_transcript_hash e)) in *.
  assert (I0 : @idx DriftError _ data (zlen p) = Ok Byte.x01)
    by (rewrite Hd, idx_app_r, Z.sub_diag by lia; done).
  assert (I1 : @idx DriftError _ data (zlen p + 1) = Ok (byte.of_Z (default 2 (e_suite e))))
    by (rewrite Hd, idx_app_r by lia; replace (zlen p + 1 - zlen p) with 1 by lia; done).
  rewrite I0. cbn [rbind]. change (byte.unsigned Byte.x01 =? 1) with true. cbn match.
  rewrite I1. cbn [rbind].
  set (h := p ++ [Byte.x01] ++ [byte.of_Z (default 2 (e_suite e))]).
  assert (Hh : zlen h = zlen p + 2) by (unfold h; zlen_lia).
  assert (Hd' : data = h ++ tl) by (rewrite Hd; unfold h; by rewrite <-!app_assoc).
  rewrite (read_blob_at data h (e_pq_kem_ciphertext e)
             (append_blob (e_pq_encaps_key e) ++ append_blob (e_transcript_hash e)));
    [|done|lia|apply Hwf]. cbn [rbind].
  rewrite (read_blob_at data (h ++ append_blob (e_pq_kem_ciphertext e)) (e_pq_encaps_key e)
             (append_blob (e_transcript_hash e)));
    [|by rewrite <-app_assoc|zlen_lia|apply Hwf]. cbn [rbind].
  rewrite (read_blob_at data (h ++ append_blob (e_pq_kem_ciphertext e) ++ append_blob (e_pq_encaps_key e))
             (e_transcript_hash e) []);
    [|by rewrite <-!app_assoc, app_nil_r|zlen_lia|apply Hwf]. cbn [rbind].
  by rewrite byte_of_Z_id by apply Hwf.
Qed.

(** ** Injectivity of the pieces of the signed input *)

Lemma app_inj_len {A} (l1 l2 k1 k2 : list A) :
  zlen l1 = zlen l2 -> l1 ++ k1 = l2 ++ k2 -> l1 = l2 /\ k1 = k2.
Proof. unfold zlen. intros Hl. apply app_inj_1. lia. Qed.

Lemma le_split_inj n a b :
  0 <= a < 2 ^ (8 * Z.of_nat n) -> 0 <= b < 2 ^ (8 * Z.of_nat n) ->
  le_split n a = le_split n b -> a = b.
Proof. intros Ha Hb H%(f_equal le_combine). by rewrite !le_combine_le_split in H. Qed.

Lemma byte_of_Z_inj a b : in_u 8 a -> in_u 8 b -> byte.of_Z a = byte.of_Z b -> a = b.
Proof. intros Ha Hb H%(f_equal byte.unsigned). by rewrite !byte_of_Z_id in H. Qed.

Lemma append_blob_inj v1 v2 r1 r2 :
  in_u 32 (zlen (default [] v1)) -> in_u 32 (zlen (default [] v2)) ->
  append_blob v1 ++ r1 = append_blob v2 ++ r2 -> normal_blob v1 = normal_blob v2 /\ r1 = r2.
Proof.
  intros H1 H2 H. unfold append_blob, cast_u in H.
  rewrite !Z.mod_small, <-!app_assoc in H by done.
  apply app_inj_len in H as [Hl H]; [|done]. apply le_split_inj in Hl; [|done|done].
  apply app_inj_len in H as [Hd ->]; [|done]. split; [|done].
  destruct v1 as [[|??]|], v2 as [[|??]|]; cbn in *; congruence.
Qed.

Lemma ratchet_ext_inj e1 e2 r1 r2 :
  envelope_wf e1 -> envelope_wf e2 ->
  ratchet_ext e1 ++ r1 = ratchet_ext e2 ++ r2 ->
  e_ratchet_dh_public e1 = e_ratchet_dh_public e2 /\
  e_ratchet_message_number (normal e1) = e_ratchet_message_number (normal e2) /\ r1 = r2.
Proof.
  intros W1 W2 H. unfold ratchet_ext, normal in *.
  cbn [e_ratchet_message_number apply_update constant].
  destruct (e_ratchet_dh_public e1) as [k1|] eqn:K1, (e_ratchet_dh_public e2) as [k2|] eqn:K2;
    cbn [app] in H; simplify_eq; [|done].
  rewrite <-!app_assoc in H. apply app_inj_len in H as [-> H].
  2:{ by rewrite (wf_dh e1 W1 k1 K1), (wf_dh e2 W2 k2 K2). }
  apply app_inj_len in H as [Hn ->]; [|done].
  apply le_split_inj in Hn as ->; [done|apply W1|apply W2].
Qed.

Lemma envelope_ext a b :
  e_version a = e_version b ->
  e_envelope_type a = e_envelope_type b ->
  e_compressed a = e_compressed b ->
  e_message_id a = e_message_id b ->
  e_recipient_hint a = e_recipient_hint b ->
  e_created_at a = e_created_at b ->
  e_ttl_expiry a = e_ttl_expiry b ->
  e_hop_count a = e_hop_count b ->
  e_priority a = e_priority b ->
  e_sender_public_key a = e_sender_public_key b ->
  e_ephemeral_public_key a = e_ephemeral_public_key b ->
  e_nonce a = e_nonce b ->
  e_signature a = e_signature b ->
  e_ciphertext a = e_ciphertext b ->
  e_ratchet_dh_public a = e_ratchet_dh_public b ->
  e_ratchet_message_number a = e_ratchet_message_number b ->
  e_suite a = e_suite b ->
  e_pq_kem_ciphertext a = e_pq_kem_ciphertext b ->
  e_pq_encaps_key a = e_pq_encaps_key b ->
  e_transcript_hash a = e_transcript_hash b ->
  a = b.
Proof. destruct a, b; cbn; intros; by subst. Qed.

Lemma has_pq_false e :
  has_pq e = false ->
  e_suite e = None /\ e_pq_kem_ciphertext e = None /\ e_pq_encaps_key e = None /\
  e_transcript_hash e = None.
Proof.
  unfold has_pq. intros H. bool_to_prop.
  repeat match goal with H : bool_decide (is_Some _) = false |- _ =>
    apply bool_decide_eq_false, eq_None_not_Some in H end. done.
Qed.

Lemma pq_ext_inj e1 e2 :
  envelope_wf e1 -> envelope_wf e2 -> pq_ext e1 = pq_ext e2 ->
  e_suite (normal e1) = e_suite (normal e2) /\
  e_pq_kem_ciphertext (normal e1) = e_pq_kem_ciphertext (normal e2) /\
  e_pq_encaps_key (normal e1) = e_pq_encaps_key (normal e2) /\
  e_transcript_hash (normal e1) = e_transcript_hash (normal e2).
Proof.
  intros W1 W2 H. unfold pq_ext, normal in *.
  cbn [e_suite e_pq_kem_ciphertext e_pq_encaps_key e_transcript_hash apply_update constant].
  destruct (has_pq e1) eqn:P1, (has_pq e2) eqn:P2; try discriminate H.
  - rewrite <-(app_nil_r (append_blob (e_transcript_hash e1))), <-(app_nil_r (append_blob (e_transcript_hash e2))) in H.
    apply app_inj_len in H as [_ H]; [|done]. apply app_inj_len in H as [Hs H]; [|done].
    assert (Hs' : default 2 (e_suite e1) = default 2 (e_suite e2))
      by (apply byte_of_Z_inj; [apply W1|apply W2|congruence]).
    apply append_blob_inj in H as [-> H]; [|apply W1|apply W2].
    apply append_blob_inj in H as [-> H]; [|apply W1|apply W2].
    apply append_blob_inj in H as [-> _]; [|apply W1|apply W2].
    by rewrite Hs'.
  - apply has_pq_false in P1 as (_ & -> & -> & ->). by apply has_pq_false in P2 as (_ & -> & -> & ->).
Qed.

(** One read of the decoder: the head of the goal is [rbind read k]; [step H v] shows that the read
    returns [v], with [H] giving the layout of the buffer, by skipping the prefix. *)
Ltac read_done :=
  first
    [ apply idx_head; zlen_lia
    | apply slice_head; zlen_lia
    | apply read_u16_head; [zlen_lia | done | apply le_combine_le_split; assumption || lia]
    | apply read_u32_head; [zlen_lia | done | apply le_combine_le_split; assumption] ].

Ltac step H v :=
  match goal with
  | |- rbind ?r _ = _ =>
      let R := fresh "R" in
      assert (R : r = Ok v) by (rewrite H; skip_prefix; read_done);
      rewrite R; clear R; cbn [rbind]
  end.

Section EnvelopeFacts.
Context {BM : Build}.
Context (lz4_compress : bytes -> bytes) (lz4_decompress : bytes -> res string bytes).
Context (lz4_inverse : forall d, lz4_decompress (lz4_compress d) = Ok d).

(** The ciphertext as it travels. *)
Definition wire_ciphertext (e : DriftEnvelope) : bytes :=
  if e_compressed e then lz4_compress (e_ciphertext e) else e_ciphertext e.

Definition envelope_fits (e : DriftEnvelope) : Prop := zlen (wire_ciphertext e) <= MAX_CIPHERTEXT.

(** The encoding of an envelope that fits, field by field. *)
Definition wire_prefix (e : DriftEnvelope) : bytes :=
  [byte.of_Z (e_version e)] ++ [byte.of_Z (type_byte e)] ++ e_message_id e
    ++ e_recipient_hint e ++ le_split 4 (e_created_at e) ++ le_split 4 (e_ttl_expiry e)
    ++ [byte.of_Z (e_hop_count e)] ++ [byte.of_Z (e_priority e)]
    ++ e_sender_public_key e ++ e_ephemeral_public_key e ++ e_nonce e ++ e_signature e
    ++ le_split 2 (zlen (wire_ciphertext e)) ++ wire_ciphertext e.

Definition wire_bytes (e : DriftEnvelope) : bytes := wire_prefix e ++ ratchet_ext e ++ pq_ext e.

Lemma envelope_to_bytes_fits e :
  envelope_fits e -> envelope_to_bytes lz4_compress e = Ok (wire_bytes e).
Proof.
  unfold envelope_fits, envelope_to_bytes, compress, MAX_CIPHERTEXT. fold (wire_ciphertext e).
  intros H. destruct (Z.ltb_spec 65535 (zlen (wire_ciphertext e))); [lia|].
  unfold wire_bytes, wire_prefix, cast_u. pose proof (zlen_nonneg (wire_ciphertext e)).
  rewrite Z.mod_small by lia. f_equal. rewrite <-!app_assoc. done.
Qed.

Lemma zlen_ratchet_ext_pos e : 1 <= zlen (ratchet_ext e).
Proof.
  unfold ratchet_ext. destruct (e_ratchet_dh_public e) as [k|]; autorewrite with zlen; [|lia].
  pose proof (zlen_nonneg k); lia.
Qed.

Lemma zlen_wire_prefix e :
  envelope_wf e -> zlen (wire_prefix e) = 186 + zlen (wire_ciphertext e).
Proof. intros []. unfold wire_prefix. autorewrite with zlen. lia. Qed.

Lemma zlen_wire_bytes e :
  envelope_wf e ->
  zlen (wire_bytes e) = 186 + zlen (wire_ciphertext e) + zlen (ratchet_ext e) + zlen (pq_ext e).
Proof. intros. unfold wire_bytes. rewrite !zlen_app, zlen_wire_prefix by done. lia. Qed.

(** Decoding an encoding with anything appended: the fixed fields are read back, and the two
    extensions are read from the tail. *)
Lemma envelope_from_bytes_fixed e tl :
  envelope_wf e -> envelope_fits e ->
  let data := wire_bytes e ++ tl in
  let off := 186 + zlen (wire_ciphertext e) in
  envelope_from_bytes lz4_decompress data =
    (let! '(dh, num, off) := read_ratchet data off in
     let! '(suite, kem, encaps, th) := read_pq data off in
     Ok { e with e_ratchet_dh_public := dh; e_ratchet_message_number := num; e_suite := suite;
                 e_pq_kem_ciphertext := kem; e_pq_encaps_key := encaps; e_transcript_hash := th }).
Proof.
  intros Hwf Hfit data off.
  assert (Hlen : zlen data = off + zlen (ratchet_ext e) + zlen (pq_ext e) + zlen tl)
    by (unfold data; rewrite zlen_app, zlen_wire_bytes by done; unfold off; lia).
  pose proof (zlen_ratchet_ext_pos e). pose proof (zlen_nonneg (pq_ext e)).
  pose proof (zlen_nonneg tl). pose proof (zlen_nonneg (wire_ciphertext e)) as Hc0.
  assert (Hc1 : zlen (wire_ciphertext e) <= 65535) by apply Hfit.
  assert (Hdata : data = [byte.of_Z (e_version e)] ++ [byte.of_Z (type_byte e)] ++ e_message_id e
    ++ e_recipient_hint e ++ le_split 4 (e_created_at e) ++ le_split 4 (e_ttl_expiry e)
    ++ [byte.of_Z (e_hop_count e)] ++ [byte.of_Z (e_priority e)]
    ++ e_sender_public_key e ++ e_ephemeral_public_key e ++ e_nonce e ++ e_signature e
    ++ le_split 2 (zlen (wire_ciphertext e)) ++ wire_ciphertext e ++ (ratchet_ext e ++ pq_ext e ++ tl)).
  { unfold data, wire_bytes, wire_prefix. by rewrite <-!app_assoc. }
  clearbody data. pose proof Hwf as [].
  unfold envelope_from_bytes, FIXED_OVERHEAD. cbv zeta.
  destruct (Z.ltb_spec (zlen data) 187); [lia|].
  step Hdata (byte.of_Z (e_version e)). rewrite byte_of_Z_id by (rewrite wf_version0; done).
  rewrite wf_version0. cbn [negb Z.eqb Pos.eqb DRIFT_VERSION].
  step Hdata (byte.of_Z (type_byte e)). rewrite byte_of_Z_id by apply type_byte_u8.
  rewrite type_byte_flag, type_byte_type. cbn [rbind].
  step Hdata (e_message_id e).
  step Hdata (e_recipient_hint e).
  step Hdata (e_created_at e).
  step Hdata (e_ttl_expiry e).
  step Hdata (byte.of_Z (e_hop_count e)).
  step Hdata (byte.of_Z (e_priority e)).
  step Hdata (e_sender_public_key e).
  step Hdata (e_ephemeral_public_key e).
  step Hdata (e_nonce e).
  step Hdata (e_signature e).
  step Hdata (zlen (wire_ciphertext e)).
  destruct (Z.ltb_spec (zlen data) (0 + 1 + 1 + 16 + 4 + 4 + 4 + 1 + 1 + 32 + 32 + 24 + 64 + 2
    + zlen (wire_ciphertext e))); [lia|].
  step Hdata (wire_ciphertext e).
  assert (Hdec : (if e_compressed e then decompress lz4_decompress (wire_ciphertext e)
                  else Ok (wire_ciphertext e)) = Ok (e_ciphertext e)).
  { unfold wire_ciphertext, decompress. destruct (e_compressed e); [|done].
    by rewrite lz4_inverse. }
  rewrite Hdec. cbn [rbind].
  replace (0 + 1 + 1 + 16 + 4 + 4 + 4 + 1 + 1 + 32 + 32 + 24 + 64 + 2 + zlen (wire_ciphertext e))
    with off by (unfold off; lia).
  rewrite !byte_of_Z_id by done.
  destruct (read_ratchet data off) as [[[dh num] off']| |]; cbn [rbind]; [|done|done].
  destruct (read_pq data off') as [[[[su kem] enc] th]| |]; cbn [rbind]; [|done|done].
  destruct e; cbn in *. by subst.
Qed.

Lemma read_blob_no_panic data o : 0 <= o -> read_blob data o <> Panic.
Proof.
  intros Ho H. unfold read_blob in H. destruct (Z.ltb_spec (zlen data) (o + 4)); [done|].
  panic_inv H. match goal with R : read_u32 _ _ = Ok _ |- _ => apply read_u32_range in R as [??] end.
  destruct (_ =? 0); [done|]. destruct (Z.ltb_spec (zlen data) (o + 4 + x)); [done|].
  panic_inv H. done.
Qed.

Lemma read_blob_offset data o v o' : read_blob data o = Ok (v, o') -> o <= o'.
Proof.
  intros H. unfold read_blob in H. destruct (_ <? _); [done|]. res_inv.
  match goal with R : read_u32 _ _ = Ok _ |- _ => apply read_u32_range in R as [??] end.
  destruct (_ =? 0); [res_inv; simplify_eq; lia|]. destruct (_ <? _); [done|].
  res_inv. simplify_eq. lia.
Qed.

Lemma read_ratchet_no_panic data o : 0 <= o -> read_ratchet data o <> Panic.
Proof.
  intros Ho H. unfold read_ratchet in H. destruct (Z.ltb_spec o (zlen data)); [|done].
  panic_inv H. destruct (_ =? 1); [|done].
  destruct (Z.leb_spec (o + 1 + 32 + 4) (zlen data)); [|done]. panic_inv H. done.
Qed.

Lemma read_ratchet_offset data o r o' : read_ratchet data o = Ok (r, o') -> o <= o'.
Proof.
  unfold read_ratchet. intros H. repeat (case_match; res_inv; simplify_eq; try done; try lia).
Qed.

(** The post-quantum reader panics only right after a flag that ends the buffer. *)
Lemma read_pq_panic data o :
  0 <= o -> read_pq data o = Panic -> zlen data = o + 1 /\ data !! Z.to_nat o = Some Byte.x01.
Proof.
  intros Ho H. unfold read_pq in H. destruct (Z.ltb_spec o (zlen data)); [|done].
  panic_inv H. destruct (Z.eqb_spec (byte.unsigned x) 1) as [Hf|]; [|done].
  match goal with R : idx _ _ = Ok _ |- _ => apply idx_ok_inv in R as [_ Hx] end.
  assert (x = Byte.x01) as -> by (apply byte.unsigned_inj; done).
  apply rbind_panic_inv in H as [H|(su & _ & H)].
  { apply idx_panic in H. split; [lia|done]. }
  exfalso.
  apply rbind_panic_inv in H as [H|([v1 o1] & R1%read_blob_offset & H)]; [by apply read_blob_no_panic in H; lia|].
  apply rbind_panic_inv in H as [H|([v2 o2] & R2%read_blob_offset & H)]; [by apply read_blob_no_panic in H; lia|].
  apply rbind_panic_inv in H as [H|([v3 o3] & R3%read_blob_offset & H)]; [by apply read_blob_no_panic in H; lia|].
  done.
Qed.

(** The bytes of an envelope that fits decode to its normal form. *)
Lemma envelope_decode_wire e :
  envelope_wf e -> envelope_fits e ->
  envelope_from_bytes lz4_decompress (wire_bytes e) = Ok (normal e).
Proof.
  intros Hwf Hfit.
  rewrite <-(app_nil_r (wire_bytes e)). rewrite envelope_from_bytes_fixed by done. rewrite app_nil_r.
  pose proof (zlen_wire_prefix e Hwf) as Hp.
  rewrite (read_ratchet_at _ (wire_prefix e) e (pq_ext e)) by done. cbn [rbind].
  rewrite (read_pq_at _ (wire_prefix e ++ ratchet_ext e) e);
    [|unfold wire_bytes; by rewrite <-app_assoc|zlen_lia|done].
  by destruct e.
Qed.

(** ** Properties *)

(** C2: encoding an envelope whose (possibly compressed) ciphertext fits in 65535 bytes succeeds,
    and decoding the bytes gives back the envelope in normal form: every field the wire carries. *)
Theorem envelope_roundtrip e :
  envelope_wf e -> envelope_fits e ->
  exists bs, envelope_to_bytes lz4_compress e = Ok bs /\
             FIXED_OVERHEAD <= zlen bs /\
             envelope_from_bytes lz4_decompress bs = Ok (normal e).
Proof.
  intros Hwf Hfit. exists (wire_bytes e). split_and!.
  - by apply envelope_to_bytes_fits.
  - rewrite zlen_wire_bytes by done. unfold FIXED_OVERHEAD.
    pose proof (zlen_ratchet_ext_pos e). pose proof (zlen_nonneg (pq_ext e)).
    pose proof (zlen_nonneg (wire_ciphertext e)). lia.
  - by apply envelope_decode_wire.
Qed.

(** One byte 0x01 after the encoding of an envelope without post-quantum fields. *)
Lemma envelope_flag_panics e bs :
  envelope_wf e -> envelope_fits e -> has_pq e = false ->
  envelope_to_bytes lz4_compress e = Ok bs ->
  envelope_from_bytes lz4_decompress (bs ++ [Byte.x01]) = Panic.
Proof.
  intros Hwf Hfit Hpq Hbs. rewrite envelope_to_bytes_fits in Hbs by done. apply Ok_inj in Hbs as <-.
  rewrite envelope_from_bytes_fixed by done.
  assert (Hx : pq_ext e = []) by (unfold pq_ext; by rewrite Hpq).
  pose proof (zlen_wire_prefix e Hwf) as Hp. pose proof (zlen_wire_bytes e Hwf) as Hl.
  rewrite Hx, zlen_nil in Hl.
  assert (Hw : wire_bytes e = wire_prefix e ++ ratchet_ext e)
    by (unfold wire_bytes; by rewrite Hx, app_nil_r).
  rewrite (read_ratchet_at _ (wire_prefix e) e [Byte.x01]);
    [|by rewrite Hw, <-app_assoc|lia|done]. cbn [rbind].
  unfold read_pq. rewrite zlen_app, Hl. change (zlen [Byte.x01]) with 1.
  destruct (Z.ltb_spec (186 + zlen (wire_ciphertext e) + zlen (ratchet_ext e))
    (186 + zlen (wire_ciphertext e) + zlen (ratchet_ext e) + 0 + 1)); [|lia].
  rewrite idx_app_r by lia. rewrite idx_head by lia. cbn [rbind].
  change (byte.unsigned Byte.x01 =? 1) with true. cbn match.
  rewrite idx_app_r by lia. rewrite idx_cons_r by lia. unfold idx.
  by destruct (_ <? 0).
Qed.

(** A buffer on which the decoder panics ends in that byte. *)
Lemma envelope_panic_last data :
  (forall d, lz4_decompress d <> Panic) ->
  envelope_from_bytes lz4_decompress data = Panic ->
  last data = Some Byte.x01.
Proof.
  intros Hlz H. unfold envelope_from_bytes, FIXED_OVERHEAD in H. cbv zeta in H.
  destruct (Z.ltb_spec (zlen data) 187); [done|].
  panic_inv H. destruct (negb _); [done|]. panic_inv H.
  { exfalso. revert H. unfold envelope_type_from_u8. repeat case_match; done. }
  match goal with R : read_u16 _ _ = Ok ?n |- _ => apply read_u16_range in R as [??]; rename n into len end.
  destruct (Z.ltb_spec (zlen data) (0 + 1 + 1 + 16 + 4 + 4 + 4 + 1 + 1 + 32 + 32 + 24 + 64 + 2 + len)); [done|].
  panic_inv H.
  { exfalso. revert H. unfold decompress. case_match; [|done].
    match goal with |- map_err _ (lz4_decompress ?d) = _ -> _ => pose proof (Hlz d); by destruct (lz4_decompress d) end. }
  { exfalso. apply read_ratchet_no_panic in H; [done|lia]. }
  match goal with R : read_ratchet _ _ = Ok ?r |- _ =>
    destruct r as [[dh num] o]; apply read_ratchet_offset in R end.
  apply rbind_panic_inv in H as [H|([[[su k] en] th] & _ & H)]; [|done].
  apply read_pq_panic in H as [Hz Hx]; [|lia].
  rewrite last_lookup. replace (Init.Nat.pred (length data)) with (Z.to_nat o); [done|].
  unfold zlen in Hz. lia.
Qed.

(** The decoder indexes past the end of the buffer when the buffer ends right after the
    post-quantum flag: one byte 0x01 appended to the encoding of any envelope that has no
    post-quantum fields makes [from_bytes] panic.  That is its only panic: if decompression does not
    panic, [from_bytes] panics on no buffer whose last byte is not the flag 0x01. *)
Theorem envelope_decode_panics :
  (forall e bs, envelope_wf e -> envelope_fits e -> has_pq e = false ->
     envelope_to_bytes lz4_compress e = Ok bs ->
     envelope_from_bytes lz4_decompress (bs ++ [Byte.x01]) = Panic) /\
  (forall data, (forall d, lz4_decompress d <> Panic) ->
     envelope_from_bytes lz4_decompress data = Panic -> last data = Some Byte.x01).
Proof. split; [apply envelope_flag_panics|apply envelope_panic_last]. Qed.


End EnvelopeFacts.

(** ** From a message envelope to the wire and back *)

(** The field types of a legacy envelope; a message number travels only with a ratchet key. *)
Definition legacy_wf (l : LegacyEnvelope) : Prop :=
  in_u 32 (default 0 (l_ratchet_message_number l)) /\
  (is_Some (l_ratchet_message_number l) <-> is_Some (l_ratchet_dh_public l)).

(** The same for a hybrid envelope, whose blobs are not empty when present. *)
Definition v2_wf (v : EnvelopeV2) : Prop :=
  in_u 8 (v2_suite v) /\ in_u 32 (default 0 (v2_ratchet_message_number v)) /\
  (is_Some (v2_ratchet_message_number v) <-> is_Some (v2_ratchet_dh_public v)) /\
  Forall (fun b => b <> Some [] /\ in_u 32 (zlen (default [] b)))
    [v2_pq_kem_ciphertext v; v2_pq_encaps_key v; v2_transcript_hash v].

Lemma try_into_array_Ok n msg v w : try_into_array n msg v = Ok w -> w = v /\ zlen v = n.
Proof. unfold try_into_array. case_if; [|done]. bool_to_prop. intros H. res_inv. done. Qed.

Lemma transpose_array_Ok n msg v w :
  transpose_array n msg v = Ok w -> w = v /\ forall k, v = Some k -> zlen k = n.
Proof.
  unfold transpose_array, rmap. destruct v as [v|]; intros H; [|res_inv; naive_solver].
  res_inv. apply try_into_array_Ok in E as [-> ?]. naive_solver.
Qed.

Lemma normal_number (dh : option bytes) (num : option Z) :
  (is_Some num <-> is_Some dh) ->
  match dh with Some _ => Some (default 0 num) | None => None end = num.
Proof.
  destruct dh as [k|], num as [n|]; cbn; intros [H1 H2]; try done.
  - by destruct H2 as [? ?].
  - by destruct H1 as [? ?].
Qed.

Lemma normal_blob_id v : v <> Some [] -> normal_blob v = v.
Proof. by destruct v as [[|??]|]. Qed.

Section EndToEnd.
Context {BM : Build}.
Context (lz4_compress : bytes -> bytes) (lz4_decompress : bytes -> res string bytes).
Context (blake3 : bytes -> bytes) {SigningKey : Type}.
Context (ed_sign : SigningKey -> bytes -> bytes) (ed_public : SigningKey -> bytes).
Context (ed_key_ok : bytes -> res string unit).
Context (ed_verify : bytes -> bytes -> bytes -> res string unit).
Context (uuid_parse : string -> res string bytes).
(** Documented behaviour of the libraries: LZ4 is lossless, a blake3 digest has 32 bytes, a UUID
    16, an Ed25519 signature 64, and a signature verifies under its key. *)
Context (lz4_inverse : forall d, lz4_decompress (lz4_compress d) = Ok d).
Context (blake3_len : forall m, zlen (blake3 m) = 32).
Context (uuid_len : forall s u, uuid_parse s = Ok u -> zlen u = 16).
Context (ed_sign_len : forall k m, zlen (ed_sign k m) = 64).
Context (ed_public_ok : forall k, ed_key_ok (ed_public k) = Ok tt).
Context (ed_correct : forall k m, ed_verify (ed_public k) m (ed_sign k m) = Ok tt).

Lemma hint_len k : zlen (hint_from_public_key blake3 k) = 4.
Proof.
  unfold hint_from_public_key. pose proof (blake3_len k). unfold zlen in *.
  rewrite length_take. lia.
Qed.

(** A signature is checked on what the wire preserves. *)
Lemma verify_signed k e :
  e_sender_public_key e = ed_public k ->
  envelope_verify blake3 ed_key_ok ed_verify
    { e with e_signature := envelope_sign blake3 ed_sign k e } = Ok tt.
Proof.
  intros He. unfold envelope_verify, envelope_sign. destruct e; cbn in *. subst.
  rewrite ed_public_ok. cbn. unfold signing_hash. cbn. by rewrite ed_correct.
Qed.

(** What a signed envelope in normal form goes through on the wire. *)
Lemma wire_delivers k d :
  let e := { d with e_signature := envelope_sign blake3 ed_sign k d } in
  envelope_wf e -> normal e = e -> envelope_fits lz4_compress e ->
  e_sender_public_key d = ed_public k ->
  exists bs,
    envelope_to_bytes lz4_compress e = Ok bs /\
    envelope_from_bytes lz4_decompress bs = Ok e /\
    envelope_verify blake3 ed_key_ok ed_verify e = Ok tt.
Proof.
  intros e Hwf Hn Hfit Hk.
  exists (wire_bytes lz4_compress e). split_and!.
  - by apply envelope_to_bytes_fits.
  - rewrite (envelope_decode_wire lz4_compress lz4_decompress) by done. by rewrite Hn.
  - by apply verify_signed.
Qed.

Lemma legacy_delivered now l id pk k e :
  from_legacy_envelope blake3 ed_sign uuid_parse now l id pk k = Ok e ->
  legacy_wf l -> envelope_fits lz4_compress e -> l_sender_public_key l = ed_public k ->
  exists bs e',
    envelope_to_bytes lz4_compress e = Ok bs /\
    envelope_from_bytes lz4_decompress bs = Ok e' /\
    envelope_verify blake3 ed_key_ok ed_verify e' = Ok tt /\
    to_wire_envelope e' = WireV1 l.
Proof.
  intros H [Hnum Hiff] Hfit Hk. unfold from_legacy_envelope in H.
  apply rbind_ok_inv in H as (mid & Hmid & H). apply rbind_ok_inv in H as (t & _ & H).
  apply rbind_ok_inv in H as (ttl & Httl & H).
  apply rbind_ok_inv in H as (spk & [-> Hspk]%try_into_array_Ok & H).
  apply rbind_ok_inv in H as (epk & [-> Hepk]%try_into_array_Ok & H).
  apply rbind_ok_inv in H as (no & [-> Hno]%try_into_array_Ok & H).
  apply rbind_ok_inv in H as (dh & [-> Hdh]%transpose_array_Ok & H).
  apply Ok_inj in H.
  match type of H with { ?d with _ := _ } = _ => set (d0 := d) in * end.
  assert (Hn : normal e = e).
  { rewrite <-H. apply envelope_ext; try reflexivity. apply normal_number, Hiff. }
  assert (Hwf : envelope_wf e).
  { rewrite <-H. constructor; try done.
    - cbn. destruct (uuid_parse id) as [u| |] eqn:U; [|done|done].
      apply Ok_inj in Hmid as <-. by apply (uuid_len id).
    - apply hint_len.
    - apply Z.mod_pos_bound. lia.
    - by eapply chk_u_range; [|done].
    - apply ed_sign_len. }
  subst e. destruct (wire_delivers k d0 Hwf Hn Hfit Hk) as (bs & Hb & Hd & Hv).
  exists bs, { d0 with e_signature := envelope_sign blake3 ed_sign k d0 }. split_and!; try done.
  unfold to_wire_envelope. change (has_pq _) with false. f_equal. by destruct l.
Qed.

Lemma v2_delivered now v id pk k e :
  from_v2_envelope blake3 ed_sign uuid_parse now v id pk k = Ok e ->
  v2_wf v -> envelope_fits lz4_compress e -> v2_sender_public_key v = ed_public k ->
  exists bs e',
    envelope_to_bytes lz4_compress e = Ok bs /\
    envelope_from_bytes lz4_decompress bs = Ok e' /\
    envelope_verify blake3 ed_key_ok ed_verify e' = Ok tt /\
    to_wire_envelope e' = WireV2 v.
Proof.
  intros H (Hsu & Hnum & Hiff & Hbl) Hfit Hk. unfold from_v2_envelope in H.
  apply rbind_ok_inv in H as (mid & Hmid & H). apply rbind_ok_inv in H as (t & _ & H).
  apply rbind_ok_inv in H as (ttl & Httl & H).
  apply rbind_ok_inv in H as (spk & [-> Hspk]%try_into_array_Ok & H).
  apply rbind_ok_inv in H as (epk & [-> Hepk]%try_into_array_Ok & H).
  apply rbind_ok_inv in H as (no & [-> Hno]%try_into_array_Ok & H).
  apply rbind_ok_inv in H as (dh & [-> Hdh]%transpose_array_Ok & H).
  apply Ok_inj in H.
  match type of H with { ?d with _ := _ } = _ => set (d0 := d) in * end.
  rewrite !Forall_cons in Hbl. destruct Hbl as ([? ?] & [? ?] & [? ?] & _).
  assert (Hn : normal e = e).
  { rewrite <-H. apply envelope_ext; try reflexivity;
      [apply normal_number, Hiff | by apply normal_blob_id ..]. }
  assert (Hwf : envelope_wf e).
  { rewrite <-H. constructor; try done.
    - cbn. destruct (uuid_parse id) as [u| |] eqn:U; [|done|done].
      apply Ok_inj in Hmid as <-. by apply (uuid_len id).
    - apply hint_len.
    - apply Z.mod_pos_bound. lia.
    - by eapply chk_u_range; [|done].
    - apply ed_sign_len. }
  subst e. destruct (wire_delivers k d0 Hwf Hn Hfit Hk) as (bs & Hb & Hd & Hv).
  exists bs, { d0 with e_signature := envelope_sign blake3 ed_sign k d0 }. split_and!; try done.
  unfold to_wire_envelope. change (has_pq _) with true. cbn match. f_equal. by destruct v.
Qed.

(** C4: a legacy envelope that is wrapped, encoded, decoded at the other end, verified and
    unwrapped is the envelope that was sent, whenever its ciphertext fits; and so is a hybrid
    (post-quantum) envelope: suite, KEM ciphertext, encapsulation key and transcript hash arrive
    unchanged. *)
Theorem wire_end_to_end now id pk k e :
  envelope_fits lz4_compress e ->
  (forall l, from_legacy_envelope blake3 ed_sign uuid_parse now l id pk k = Ok e ->
     legacy_wf l -> l_sender_public_key l = ed_public k ->
     exists bs e',
       envelope_to_bytes lz4_compress e = Ok bs /\ envelope_from_bytes lz4_decompress bs = Ok e' /\
       envelope_verify blake3 ed_key_ok ed_verify e' = Ok tt /\ to_wire_envelope e' = WireV1 l) /\
  (forall v, from_v2_envelope blake3 ed_sign uuid_parse now v id pk k = Ok e ->
     v2_wf v -> v2_sender_public_key v = ed_public k ->
     exists bs e',
       envelope_to_bytes lz4_compress e = Ok bs /\ envelope_from_bytes lz4_decompress bs = Ok e' /\
       envelope_verify blake3 ed_key_ok ed_verify e' = Ok tt /\ to_wire_envelope e' = WireV2 v).
Proof.
  intros Hfit. split; intros w H Hwf Hk.
  - by eapply legacy_delivered.
  - by eapply v2_delivered.
Qed.

End EndToEnd.

(** ** Witnesses *)

(** Small concrete stand-ins with the documented behaviour of the libraries. *)
Definition fit (n : nat) (l : bytes) : bytes := take n (l ++ replicate n Byte.x00).

Lemma zlen_fit n l : zlen (fit n l) = Z.of_nat n.
Proof.
  unfold fit, zlen. rewrite length_take, length_app, length_replicate. lia.
Qed.

Definition toy_compress (d : bytes) : bytes := d.
Definition toy_decompress (d : bytes) : res string bytes := Ok d.
Definition toy_blake3 (m : bytes) : bytes := replicate 32 (foldr byte.xor Byte.x00 m).
Definition toy_public (_ : unit) : bytes := replicate 32 Byte.x07.
Definition toy_key_ok (_ : bytes) : res string unit := Ok tt.
Definition toy_sign (_ : unit) (m : bytes) : bytes := fit 64 m.
Definition toy_verify (pk m s : bytes) : res string unit :=
  if decide (s = fit 64 m) then Ok tt else Err "bad signature"%string.
Definition toy_uuid (s : string) : res string bytes := Ok (fit 16 (str_bytes s)).

Definition sample_envelope : DriftEnvelope :=
  {| e_version := 1; e_envelope_type := ET_OnionMessage; e_compressed := true;
     e_message_id := replicate 16 Byte.x01; e_recipient_hint := replicate 4 Byte.x02;
     e_created_at := 1234567890; e_ttl_expiry := 1234567900; e_hop_count := 5; e_priority := 10;
     e_sender_public_key := replicate 32 Byte.x03; e_ephemeral_public_key := replicate 32 Byte.x04;
     e_nonce := replicate 24 Byte.x05; e_signature := replicate 64 Byte.x06;
     e_ciphertext := [Byte.x61; Byte.x62]; e_ratchet_dh_public := Some (replicate 32 Byte.x07);
     e_ratchet_message_number := None; e_suite := None;
     e_pq_kem_ciphertext := Some [Byte.x09]; e_pq_encaps_key := Some []; e_transcript_hash := None |}.

Definition sample_plain_envelope : DriftEnvelope :=
  { sample_envelope with e_pq_kem_ciphertext := None; e_pq_encaps_key := None }.

Lemma sample_envelope_wf : envelope_wf sample_envelope.
Proof. constructor; try by vm_compute. intros k [= <-]. done. Qed.

Lemma sample_plain_envelope_wf : envelope_wf sample_plain_envelope.
Proof. constructor; try by vm_compute. intros k [= <-]. done. Qed.

Lemma toy_inverse d : toy_decompress (toy_compress d) = Ok d.
Proof. done. Qed.

Lemma envelope_roundtrip_witness :
  exists bs, envelope_to_bytes toy_compress sample_envelope = Ok bs /\
             FIXED_OVERHEAD <= zlen bs /\
             envelope_from_bytes toy_decompress bs = Ok (normal sample_envelope).
Proof.
  apply (envelope_roundtrip toy_compress toy_decompress toy_inverse);
    [exact sample_envelope_wf | by vm_compute].
Defined.

Definition bytes_of (r : res DriftError bytes) : bytes := match r with Ok b => b | _ => [] end.

Lemma envelope_decode_panics_witness :
  envelope_from_bytes toy_decompress
    (bytes_of (envelope_to_bytes toy_compress sample_plain_envelope) ++ [Byte.x01]) = Panic /\
  last (bytes_of (envelope_to_bytes toy_compress sample_plain_envelope) ++ [Byte.x01]) = Some Byte.x01.
Proof.
  destruct (envelope_decode_panics toy_compress toy_decompress toy_inverse) as [H1 H2]. split.
  - apply (H1 sample_plain_envelope); [exact sample_plain_envelope_wf | by vm_compute | reflexivity | reflexivity].
  - apply H2; [done | vm_compute; reflexivity].
Defined.


Definition sample_legacy : LegacyEnvelope :=
  {| l_sender_public_key := toy_public tt; l_ephemeral_public_key := replicate 32 Byte.x04;
     l_nonce := replicate 24 Byte.x05; l_ciphertext := replicate 300 Byte.x61;
     l_ratchet_dh_public := None; l_ratchet_message_number := None |}.

Definition sample_v2 : EnvelopeV2 :=
  {| v2_suite := 3; v2_sender_public_key := toy_public tt;
     v2_ephemeral_public_key := replicate 32 Byte.x04; v2_nonce := replicate 24 Byte.x05;
     v2_ciphertext := [Byte.x61]; v2_ratchet_dh_public := Some (replicate 32 Byte.x08);
     v2_ratchet_message_number := Some 7; v2_pq_kem_ciphertext := Some [Byte.x01];
     v2_pq_encaps_key := None; v2_transcript_hash := Some [Byte.x02] |}.

#[local] Instance checked_build : Build := {| overflow_checks := true |}.

Definition sent_legacy : DriftEnvelope :=
  match from_legacy_envelope toy_blake3 toy_sign toy_uuid (Ok 1700000000) sample_legacy "id"
          (toy_public tt) tt with Ok e => e | _ => sample_envelope end.

Definition sent_v2 : DriftEnvelope :=
  match from_v2_envelope toy_blake3 toy_sign toy_uuid (Ok 1700000000) sample_v2 "id"
          (toy_public tt) tt with Ok e => e | _ => sample_envelope end.

Lemma toy_blake3_len m : zlen (toy_blake3 m) = 32.
Proof. done. Qed.

Lemma toy_uuid_len s u : toy_uuid s = Ok u -> zlen u = 16.
Proof. intros <-%Ok_inj. apply zlen_fit. Qed.

Lemma toy_sign_len k m : zlen (toy_sign k m) = 64.
Proof. apply zlen_fit. Qed.

Lemma toy_correct k m : toy_verify (toy_public k) m (toy_sign k m) = Ok tt.
Proof. unfold toy_verify. by rewrite decide_True. Qed.

Lemma wire_end_to_end_witness :
  (exists bs e',
    envelope_to_bytes toy_compress sent_legacy = Ok bs /\
    envelope_from_bytes toy_decompress bs = Ok e' /\
    envelope_verify toy_blake3 toy_key_ok toy_verify e' = Ok tt /\
    to_wire_envelope e' = WireV1 sample_legacy) /\
  (exists bs e',
    envelope_to_bytes toy_compress sent_v2 = Ok bs /\
    envelope_from_bytes toy_decompress bs = Ok e' /\
    envelope_verify toy_blake3 toy_key_ok toy_verify e' = Ok tt /\
    to_wire_envelope e' = WireV2 sample_v2).
Proof.
  pose proof (fun e => wire_end_to_end toy_compress toy_decompress toy_blake3 toy_sign toy_public toy_key_ok
           toy_verify toy_uuid toy_inverse toy_blake3_len toy_uuid_len toy_sign_len (fun _ => eq_refl)
           toy_correct (Ok 1700000000) "id" (toy_public tt) tt e) as H. split.
  - apply (H sent_legacy); [by vm_compute | vm_compute; reflexivity | | reflexivity].
    split; [by vm_compute | cbn; split; by intros [? ?]].
  - apply (H sent_v2); [by vm_compute | vm_compute; reflexivity | | reflexivity].
    split_and!; [by vm_compute | by vm_compute | split; intros _; cbn; eauto |].
    repeat apply Forall_cons_2; [split; [done | by vm_compute] .. | apply Forall_nil_2].
Defined.
