(* ===== verification/Sketch.v ===== *)
(** * Set reconciliation sketches ([core/src/drift/sketch.rs])

    The invertible Bloom lookup table that two nodes exchange to find which
    messages the other lacks.  [blake3] is a parameter: a function from byte
    strings to 32-byte digests. *)

From S2P Require Import Prelude Frame.

(** ** Data *)

(** [MessageId]: 16 bytes. *)
Abbreviation MessageId := bytes.

Definition HASH_COUNT : Z := 3.
Definition CELLS_PER_DIFF : Z := 3.

Record IBLTCell : Type := mkCell {
  c_count : Z;
  c_key_sum : bytes;
  c_key_check : Z;
}.

Record IBLT : Type := mkIBLT {
  t_cells : list IBLTCell;
  t_num_cells : Z;
}.

#[global] Instance IBLTCell_eq_dec : EqDecision IBLTCell.
Proof. solve_decision. Defined.

Definition xor_bytes (a b : bytes) : bytes := zip_with byte.xor a b.

Definition cell_new : IBLTCell := mkCell 0 (replicate 16 Byte.x00) 0.

Definition cell_is_pure (c : IBLTCell) : bool := (c_count c =? 1) || (c_count c =? -1).

Definition cell_is_empty (c : IBLTCell) : bool := c_count c =? 0.

(** [u32::from_le_bytes([key[0], key[1], key[2], key[3]])]. *)
Definition key_check_of (key : MessageId) : Z := le_combine (take 4 key).

Definition xor_in (key : MessageId) (c : IBLTCell) : IBLTCell :=
  { c with c_key_sum := xor_bytes (c_key_sum c) key;
           c_key_check := Z.lxor (c_key_check c) (key_check_of key) }.

Definition xor_out (key : MessageId) (c : IBLTCell) : IBLTCell := xor_in key c.

Definition iblt_with_cells (num_cells : Z) : IBLT :=
  mkIBLT (replicate (Z.to_nat (Z.max num_cells 1)) cell_new) (Z.max num_cells 1).

Definition iblt_new (expected_diffs : Z) : IBLT :=
  let num_cells := Z.max expected_diffs 1 * CELLS_PER_DIFF in
  mkIBLT (replicate (Z.to_nat num_cells) cell_new) num_cells.

Definition iblt_serialized_size (t : IBLT) : Z := 2 + t_num_cells t * 21.

Definition iblt_cell_count (t : IBLT) : Z := t_num_cells t.

(** ** Operations *)

Section Sketch.
Context {BM : Build} (blake3 : bytes -> bytes).

(** [(value as usize) % self.num_cells], which panics on a table without cells. *)
Definition hash_to_cell (num_cells : Z) (key : MessageId) (hash_idx : Z) : res DriftError Z :=
  let digest := blake3 ([byte.of_Z hash_idx] ++ key) in
  let! first := slice digest 0 8 in
  let value := le_combine first in
  if num_cells =? 0 then Panic else Ok (value mod num_cells).

(** The loop body of [insert], [remove] and [decode]: add [d] to the count and xor the key. *)
Definition bump_cell (num_cells d : Z) (key : MessageId) (cells : list IBLTCell) (hash_idx : Z)
  : res DriftError (list IBLTCell) :=
  let! cell_idx := hash_to_cell num_cells key hash_idx in
  update cells cell_idx (fun c =>
    let! count := chk_i 32 (c_count c + d) in
    Ok (xor_in key { c with c_count := count })).

Definition bump_cells (num_cells d : Z) (key : MessageId) (cells : list IBLTCell)
  : res DriftError (list IBLTCell) :=
  rfold (bump_cell num_cells d key) cells [0; 1; 2].

Definition iblt_insert (t : IBLT) (key : MessageId) : res DriftError IBLT :=
  let! cells := bump_cells (t_num_cells t) 1 key (t_cells t) in
  Ok { t with t_cells := cells }.

Definition iblt_remove (t : IBLT) (key : MessageId) : res DriftError IBLT :=
  let! cells := bump_cells (t_num_cells t) (-1) key (t_cells t) in
  Ok { t with t_cells := cells }.

(** Cell [i] of the difference. *)
Definition sub_cell (a b : IBLTCell) : res DriftError IBLTCell :=
  let! count := chk_i 32 (c_count a - c_count b) in
  Ok (mkCell count (xor_bytes (c_key_sum a) (c_key_sum b)) (Z.lxor (c_key_check a) (c_key_check b))).

Definition iblt_subtract (self other : IBLT) : res DriftError IBLT :=
  if negb (t_num_cells self =? t_num_cells other) then
    Err (BufferTooShort (t_num_cells self) (t_num_cells other))
  else
    let result := iblt_with_cells (t_num_cells self) in
    let! cells := rfold (fun cells i =>
        let! a := idx (t_cells self) i in
        let! b := idx (t_cells other) i in
        let! c := sub_cell a b in
        update cells i (fun _ => Ok c))
      (t_cells result) (seqZ 0 (t_num_cells self)) in
    Ok { result with t_cells := cells }.

Definition ERR_ITERATIONS : string :=
  "IBLT decode failed: exceeded maximum iterations (IBLT likely undersized for differences)".
Definition ERR_STUCK : string := "IBLT decode failed: cannot peel remaining cells".
Definition ERR_CHECK : string :=
  "IBLT decode failed: key_check mismatch, possible hash collision or corruption".

(** The peeling loop; [iters] is the number of iterations left, so the source's own bound
    [max_iterations] is the fuel. *)
Fixpoint decode_loop (iters : nat) (num_cells : Z) (cells : list IBLTCell)
    (alice_only bob_only : list MessageId) : res DriftError (list MessageId * list MessageId) :=
  match iters with
  | O => Err (DecompressionFailed ERR_ITERATIONS)
  | S iters =>
      match list_find (fun c => Is_true (cell_is_pure c)) cells with
      | None =>
          if forallb cell_is_empty cells then Ok (alice_only, bob_only)
          else Err (DecompressionFailed ERR_STUCK)
      | Some (pos, cell) =>
          let key := c_key_sum cell in
          let count := c_count cell in
          if negb (c_key_check cell =? key_check_of key)
          then Err (DecompressionFailed ERR_CHECK)
          else
            let alice_only := if count =? 1 then alice_only ++ [key] else alice_only in
            let bob_only := if count =? 1 then bob_only else bob_only ++ [key] in
            let! cells := bump_cells num_cells (- count) key cells in
            let! cells := update cells (Z.of_nat pos) (fun _ => Ok cell_new) in
            decode_loop iters num_cells cells alice_only bob_only
      end
  end.

Definition iblt_decode (t : IBLT) : res DriftError (list MessageId * list MessageId) :=
  decode_loop (Z.to_nat (t_num_cells t * 10)) (t_num_cells t) (t_cells t) [] [].

End Sketch.

(** [cell.count as u8], the key sum and the check. *)
Definition cell_to_bytes (c : IBLTCell) : bytes :=
  [byte.of_Z (cast_u 8 (c_count c))] ++ c_key_sum c ++ le_split 4 (c_key_check c).

Definition iblt_to_bytes (t : IBLT) : res DriftError bytes :=
  if u16_max <? t_num_cells t then Err (BufferTooShort (t_num_cells t) u16_max)
  else Ok (le_split 2 (cast_u 16 (t_num_cells t)) ++ concat (cell_to_bytes <$> t_cells t)).

Definition cell_from_bytes (data : bytes) (i : Z) : res DriftError IBLTCell :=
  let offset := 2 + i * 21 in
  let! count := idx data offset in
  let! key_sum := slice data (offset + 1) (offset + 17) in
  let! key_check := read_u32 data (offset + 17) in
  Ok (mkCell (byte.unsigned count) key_sum key_check).

Definition iblt_from_bytes (data : bytes) : res DriftError IBLT :=
  if zlen data <? 2 then Err (BufferTooShort 2 (zlen data))
  else
    let! num_cells := read_u16 data 0 in
    let expected_len := 2 + num_cells * 21 in
    if negb (zlen data =? expected_len) then Err (BufferTooShort expected_len (zlen data))
    else
      let! cells := rfold (fun cells i =>
          let! c := cell_from_bytes data i in Ok (cells ++ [c])) [] (seqZ 0 num_cells) in
      Ok (mkIBLT cells num_cells).

(** ** The xor of keys *)

Lemma unsigned_xor a b : byte.unsigned (byte.xor a b) = Z.lxor (byte.unsigned a) (byte.unsigned b).
Proof.
  unfold byte.xor. rewrite byte.unsigned_of_Z. unfold byte.wrap. apply Z.mod_small.
  pose proof (byte.unsigned_range a). pose proof (byte.unsigned_range b).
  split; [apply Z.lxor_nonneg; lia|].
  destruct (Z.eq_dec (Z.lxor (byte.unsigned a) (byte.unsigned b)) 0) as [->|]; [lia|].
  assert (0 <= Z.lxor (byte.unsigned a) (byte.unsigned b)) by (apply Z.lxor_nonneg; lia).
  apply Z.log2_lt_pow2; [lia|].
  eapply Z.le_lt_trans; [apply Z.log2_lxor; lia|].
  apply Z.max_lub_lt.
  - destruct (Z.eq_dec (byte.unsigned a) 0) as [->|]; [done|]. apply Z.log2_lt_pow2; lia.
  - destruct (Z.eq_dec (byte.unsigned b) 0) as [->|]; [done|]. apply Z.log2_lt_pow2; lia.
Qed.

Lemma byte_xor_comm a b : byte.xor a b = byte.xor b a.
Proof. apply byte.unsigned_inj. by rewrite !unsigned_xor, Z.lxor_comm. Qed.

Lemma byte_xor_assoc a b c : byte.xor a (byte.xor b c) = byte.xor (byte.xor a b) c.
Proof. apply byte.unsigned_inj. by rewrite !unsigned_xor, Z.lxor_assoc. Qed.

Lemma byte_xor_cancel a b : byte.xor (byte.xor a b) b = a.
Proof.
  apply byte.unsigned_inj. by rewrite !unsigned_xor, Z.lxor_assoc, Z.lxor_nilpotent, Z.lxor_0_r.
Qed.

Lemma byte_xor_0_l a : byte.xor Byte.x00 a = a.
Proof. apply byte.unsigned_inj. rewrite unsigned_xor. apply Z.lxor_0_l. Qed.

Lemma xor_bytes_comm a b : xor_bytes a b = xor_bytes b a.
Proof.
  revert b; induction a as [|x a IH]; intros [|y b]; cbn; try done. by rewrite byte_xor_comm, IH.
Qed.

Lemma xor_bytes_assoc a b c : xor_bytes a (xor_bytes b c) = xor_bytes (xor_bytes a b) c.
Proof.
  revert b c; induction a as [|x a IH]; intros [|y b] [|z c]; cbn; try done.
  by rewrite byte_xor_assoc, IH.
Qed.

Lemma length_xor_bytes a b : length (xor_bytes a b) = (length a `min` length b)%nat.
Proof. apply length_zip_with. Qed.

Lemma xor_bytes_cancel a b : length a = length b -> xor_bytes (xor_bytes a b) b = a.
Proof.
  revert b; induction a as [|x a IH]; intros [|y b] H; cbn; try done.
  injection H as H. by rewrite byte_xor_cancel, IH.
Qed.

Lemma xor_bytes_zeros_l n a : length a = n -> xor_bytes (replicate n Byte.x00) a = a.
Proof.
  intros <-. induction a as [|x a IH]; cbn; [done|]. fold (xor_bytes (replicate (length a) Byte.x00) a).
  by rewrite byte_xor_0_l, IH.
Qed.

Lemma take_xor_bytes n a b : take n (xor_bytes a b) = xor_bytes (take n a) (take n b).
Proof. revert a b; induction n as [|n IH]; intros [|x a] [|y b]; cbn; try done. by rewrite IH. Qed.

Lemma le_combine_cons x l : le_combine (x :: l) = Z.lor (byte.unsigned x) (Z.shiftl (le_combine l) 8).
Proof. done. Qed.

Lemma testbit_byte_high b n : 8 <= n -> Z.testbit (byte.unsigned b) n = false.
Proof.
  intros. pose proof (byte.unsigned_range b).
  rewrite <-(Z.mod_small (byte.unsigned b) (2 ^ 8)) by lia. apply Z.mod_pow2_bits_high. lia.
Qed.

Lemma le_combine_xor a b :
  length a = length b -> le_combine (xor_bytes a b) = Z.lxor (le_combine a) (le_combine b).
Proof.
  revert b; induction a as [|x a IH]; intros [|y b] H; try done.
  injection H as H. change (xor_bytes (x :: a) (y :: b)) with (byte.xor x y :: xor_bytes a b).
  rewrite !le_combine_cons, IH, unsigned_xor by done.
  apply Z.bits_inj'. intros n Hn.
  rewrite !Z.lxor_spec, !Z.lor_spec, !Z.lxor_spec.
  destruct (Z.lt_ge_cases n 8).
  - rewrite !Z.shiftl_spec_low by lia. by rewrite !orb_false_r.
  - rewrite !Z.shiftl_spec, Z.lxor_spec by lia.
    rewrite !(testbit_byte_high _ n) by lia. by rewrite !orb_false_l.
Qed.

(** ** The abstract table

    A table is described by the touches that built it: (cell, sign, key), three
    for every key added ([1]) or taken away ([-1]).  [sketch n T] is the table
    of [n] cells that the touches [T] lead to. *)

Abbreviation touch := (nat * (Z * MessageId))%type.

Definition cadd (d : Z) (k : MessageId) (c : IBLTCell) : IBLTCell :=
  xor_in k { c with c_count := c_count c + d }.

Definition hit (i : nat) (t : touch) (c : IBLTCell) : IBLTCell :=
  if decide (t.1 = i) then cadd t.2.1 t.2.2 c else c.

Definition cell_of (i : nat) (T : list touch) : IBLTCell := foldr (hit i) cell_new T.

Definition table (n : nat) (T : list touch) : list IBLTCell := (fun i => cell_of i T) <$> seq 0 n.

Definition sketch (n : nat) (T : list touch) : IBLT := mkIBLT (table n T) (Z.of_nat n).

Definition neg_touch (t : touch) : touch := (t.1, (- t.2.1, t.2.2)).

(** Touches of well-formed keys and of unit sign. *)
Definition touch_wf (t : touch) : Prop := (t.2.1 = 1 \/ t.2.1 = -1) /\ length t.2.2 = 16%nat.

Definition cell_wf (c : IBLTCell) : Prop :=
  length (c_key_sum c) = 16%nat /\ c_key_check c = key_check_of (c_key_sum c).

Lemma cell_ext c1 c2 :
  c_count c1 = c_count c2 -> c_key_sum c1 = c_key_sum c2 -> c_key_check c1 = c_key_check c2 -> c1 = c2.
Proof. destruct c1, c2; cbn; congruence. Qed.

Lemma cadd_eq d k c :
  cadd d k c = mkCell (c_count c + d) (xor_bytes (c_key_sum c) k)
                      (Z.lxor (c_key_check c) (key_check_of k)).
Proof. by destruct c. Qed.

Ltac cadd_simpl := rewrite ?cadd_eq; cbn [c_count c_key_sum c_key_check].

Lemma cadd_comm d1 k1 d2 k2 c : cadd d1 k1 (cadd d2 k2 c) = cadd d2 k2 (cadd d1 k1 c).
Proof.
  apply cell_ext; cadd_simpl; [lia| |].
  - by rewrite <-!xor_bytes_assoc, (xor_bytes_comm k1).
  - by rewrite !Z.lxor_assoc, (Z.lxor_comm (key_check_of k1)).
Qed.

Lemma cadd_cancel d k c :
  length (c_key_sum c) = 16%nat -> length k = 16%nat -> cadd (- d) k (cadd d k c) = c.
Proof.
  intros Hc Hk. apply cell_ext; cadd_simpl; [lia| |].
  - apply xor_bytes_cancel. congruence.
  - by rewrite Z.lxor_assoc, Z.lxor_nilpotent, Z.lxor_0_r.
Qed.

Lemma key_check_xor a b :
  length a = 16%nat -> length b = 16%nat ->
  key_check_of (xor_bytes a b) = Z.lxor (key_check_of a) (key_check_of b).
Proof.
  intros Ha Hb. unfold key_check_of. rewrite take_xor_bytes. apply le_combine_xor.
  rewrite !length_take. lia.
Qed.

Lemma cadd_wf d k c : length k = 16%nat -> cell_wf c -> cell_wf (cadd d k c).
Proof.
  intros Hk [Hl Hc]. split; cadd_simpl; [rewrite length_xor_bytes; lia|].
  by rewrite key_check_xor, Hc.
Qed.

Lemma cell_of_wf i T : Forall touch_wf T -> cell_wf (cell_of i T).
Proof.
  induction 1 as [|t T [_ Hk] _ IH]; [done|]. cbn. unfold hit. case_decide; [|done].
  by apply cadd_wf.
Qed.

Lemma hit_comm i t1 t2 c : hit i t1 (hit i t2 c) = hit i t2 (hit i t1 c).
Proof. unfold hit. repeat case_decide; try done. apply cadd_comm. Qed.

Lemma cell_of_cons i t T : cell_of i (t :: T) = hit i t (cell_of i T).
Proof. done. Qed.

#[export] Instance cell_of_proper i : Proper ((≡ₚ) ==> (=)) (cell_of i).
Proof.
  intros T1 T2 HT. unfold cell_of. induction HT; cbn; try congruence. apply hit_comm.
Qed.

#[export] Instance table_proper n : Proper ((≡ₚ) ==> (=)) (table n).
Proof. intros T1 T2 HT. apply list_fmap_ext. intros _ i _. by rewrite HT. Qed.

(** A touch and its opposite cancel. *)
Lemma cell_of_cancel i T1 T2 :
  Forall touch_wf T1 -> Forall touch_wf T2 ->
  cell_of i ((neg_touch <$> T1) ++ T1 ++ T2) = cell_of i T2.
Proof.
  intros H1 H2. induction H1 as [|t T1 Ht H1 IH]; [done|].
  trans (cell_of i (neg_touch t :: t :: (neg_touch <$> T1) ++ T1 ++ T2)).
  { apply cell_of_proper. cbn. apply Permutation_skip. symmetry. apply Permutation_middle. }
  rewrite !cell_of_cons, IH. unfold hit, neg_touch; cbn [fst snd]. case_decide; [|done].
  apply cadd_cancel; [by apply cell_of_wf|apply Ht].
Qed.

Lemma table_cancel n T1 T2 :
  Forall touch_wf T1 -> Forall touch_wf T2 ->
  table n ((neg_touch <$> T1) ++ T1 ++ T2) = table n T2.
Proof. intros. apply list_fmap_ext. intros _ i _. by apply cell_of_cancel. Qed.

Lemma length_table n T : length (table n T) = n.
Proof. unfold table. by rewrite length_fmap, length_seq. Qed.

Lemma lookup_table n T i : (i < n)%nat -> table n T !! i = Some (cell_of i T).
Proof. intros. unfold table. by rewrite list_lookup_fmap, lookup_seq_lt. Qed.

Lemma table_insert n T t :
  (t.1 < n)%nat -> <[t.1 := cadd t.2.1 t.2.2 (cell_of t.1 T)]> (table n T) = table n (t :: T).
Proof.
  intros Ht. apply list_eq_same_length with n.
  { by rewrite length_table. } { by rewrite length_insert, length_table. }
  intros i x y Hi Hx Hy. rewrite lookup_table in Hy by done. injection Hy as <-.
  cbn. unfold hit. case_decide as Heq.
  - rewrite <-Heq, list_lookup_insert_eq in Hx by (rewrite length_table; lia). congruence.
  - rewrite list_lookup_insert_ne, lookup_table in Hx by done. congruence.
Qed.

(** ** The operations act on the touches *)

Lemma replicate_as_fmap_seq {A} (x : A) s n : (fun _ => x) <$> seq s n = replicate n x.
Proof. revert s; induction n as [|n IH]; intros s; cbn; [done|]. by rewrite IH. Qed.

Lemma cell_of_count i T : Forall touch_wf T -> Z.abs (c_count (cell_of i T)) <= zlen T.
Proof.
  induction 1 as [|t T [Ht _] _ IH]; [done|]. rewrite cell_of_cons, zlen_cons. unfold hit.
  case_decide; cadd_simpl; lia.
Qed.

Lemma update_ok {E A} (l : list A) i (f : A -> res E A) x y :
  l !! i = Some x -> f x = Ok y -> update l (Z.of_nat i) f = Ok (<[i := y]> l).
Proof.
  intros Hx Hf. unfold update. destruct (Z.ltb_spec (Z.of_nat i) 0); [lia|].
  by rewrite Nat2Z.id, Hx, Hf.
Qed.

(** A loop that assigns every position in turn. *)
Lemma rfold_fill_upto {E A} (f : list A -> Z -> res E (list A)) (g : nat -> A) n l m :
  length l = n -> (m <= n)%nat ->
  (forall cells i, (i < n)%nat -> length cells = n -> f cells (Z.of_nat i) = Ok (<[i := g i]> cells)) ->
  exists r, rfold f l (seqZ 0 (Z.of_nat m)) = Ok r /\ length r = n /\
            forall i, (i < m)%nat -> r !! i = Some (g i).
Proof.
  intros Hl Hm Hf. induction m as [|m IH]; [exists l; split_and!; [done..|lia]|].
  destruct IH as (r & Hr & Hlen & Hi); [lia|].
  exists (<[m := g m]> r). rewrite seqZ_S, rfold_app, Hr. cbn [rbind rfold].
  rewrite Z.add_0_l, Hf by lia. cbn [rbind]. split_and!; [done|by rewrite length_insert|].
  intros i Him. destruct (decide (i = m)) as [->|].
  - apply list_lookup_insert_eq. lia.
  - rewrite list_lookup_insert_ne by done. apply Hi. lia.
Qed.

Lemma rfold_fill {E A} (f : list A -> Z -> res E (list A)) (g : nat -> A) n l :
  length l = n ->
  (forall cells i, (i < n)%nat -> length cells = n -> f cells (Z.of_nat i) = Ok (<[i := g i]> cells)) ->
  rfold f l (seqZ 0 (Z.of_nat n)) = Ok (g <$> seq 0 n).
Proof.
  intros Hl Hf. destruct (rfold_fill_upto f g n l n Hl ltac:(lia) Hf) as (r & -> & Hlen & Hi).
  f_equal. apply list_eq_same_length with n; [by rewrite length_fmap, length_seq|done|].
  intros i x y Hin Hx Hy. rewrite Hi in Hx by done. rewrite list_lookup_fmap, lookup_seq_lt in Hy by done.
  cbn in Hy. congruence.
Qed.

(** Cell [i] of a table minus cell [i] of another. *)
Lemma cell_of_sub i T1 T2 :
  Forall touch_wf T1 -> Forall touch_wf T2 ->
  cell_of i (T1 ++ (neg_touch <$> T2)) =
  mkCell (c_count (cell_of i T1) - c_count (cell_of i T2))
         (xor_bytes (c_key_sum (cell_of i T1)) (c_key_sum (cell_of i T2)))
         (Z.lxor (c_key_check (cell_of i T1)) (c_key_check (cell_of i T2))).
Proof.
  intros H1 H2. induction H2 as [|t T2 Ht H2 IH].
  - rewrite app_nil_r. apply cell_ext; cbn [c_count c_key_sum c_key_check];
      [cbn; lia| |cbn; by rewrite Z.lxor_0_r].
    change (c_key_sum (cell_of i [])) with (replicate 16 Byte.x00). rewrite xor_bytes_comm, xor_bytes_zeros_l; [done|]. by apply cell_of_wf.
  - trans (cell_of i (neg_touch t :: T1 ++ (neg_touch <$> T2))).
    { apply cell_of_proper. symmetry. apply Permutation_middle. }
    rewrite !cell_of_cons, IH. unfold hit, neg_touch. cbn [fst snd]. case_decide; [|done].
    apply cell_ext; cadd_simpl; [lia|by rewrite xor_bytes_assoc|by rewrite Z.lxor_assoc].
Qed.

Lemma iblt_subtract_sketch {BM : Build} n T1 T2 :
  (0 < n)%nat -> Forall touch_wf T1 -> Forall touch_wf T2 -> zlen T1 + zlen T2 < 2 ^ 31 ->
  iblt_subtract (sketch n T1) (sketch n T2) = Ok (sketch n (T1 ++ (neg_touch <$> T2))).
Proof.
  intros Hn H1 H2 Hb. unfold iblt_subtract, sketch. cbn [t_num_cells t_cells].
  rewrite Z.eqb_refl. cbn [negb]. unfold iblt_with_cells. cbn [t_cells].
  rewrite (rfold_fill _ (fun i => cell_of i (T1 ++ (neg_touch <$> T2))) n).
  - cbn [rbind]. rewrite Z.max_l by lia. done.
  - rewrite length_replicate. lia.
  - intros cells i Hi Hlen. unfold idx. destruct (Z.ltb_spec (Z.of_nat i) 0); [lia|].
    rewrite Nat2Z.id, !lookup_table by done. cbn [rbind]. unfold sub_cell.
    pose proof (cell_of_count i T1 H1). pose proof (cell_of_count i T2 H2).
    rewrite chk_i_ok by (change (32 - 1) with 31; lia). cbn [rbind].
    rewrite <-cell_of_sub by done.
    destruct (lookup_lt_is_Some_2 cells i) as [x Hx]; [lia|]. by apply (update_ok _ _ _ x).
Qed.

Section Touches.
Context {BM : Build} (blake3 : bytes -> bytes).
Hypothesis blake3_len : forall x, length (blake3 x) = 32%nat.

Definition slot (n : nat) (k : MessageId) (j : Z) : nat :=
  Z.to_nat (le_combine (take 8 (blake3 ([byte.of_Z j] ++ k))) mod Z.of_nat n).

Definition touches (n : nat) (r : Z * MessageId) : list touch :=
  (fun j => (slot n r.2 j, r)) <$> [2; 1; 0].

Definition touches_of (n : nat) (R : list (Z * MessageId)) : list touch := R ≫= touches n.

Definition item_wf (r : Z * MessageId) : Prop := (r.1 = 1 \/ r.1 = -1) /\ length r.2 = 16%nat.

Lemma slot_lt n k j : (0 < n)%nat -> (slot n k j < n)%nat.
Proof.
  intros. unfold slot. pose proof (Z.mod_pos_bound (le_combine (take 8 (blake3 ([byte.of_Z j] ++ k)))) (Z.of_nat n)).
  lia.
Qed.

Lemma hash_to_cell_slot n k j :
  (0 < n)%nat -> hash_to_cell blake3 (Z.of_nat n) k j = Ok (Z.of_nat (slot n k j)).
Proof.
  intros. unfold hash_to_cell, slot. rewrite slice_ok; [|lia|rewrite (zlen_of_length _ 32) by done; lia].
  cbn [rbind]. destruct (Z.eqb_spec (Z.of_nat n) 0); [lia|]. f_equal.
  rewrite Z2Nat.id; [done|]. apply Z.mod_pos_bound. lia.
Qed.

Lemma bump_cell_table n d k T j :
  (0 < n)%nat -> Forall touch_wf T -> (d = 1 \/ d = -1) -> zlen T < 2 ^ 31 - 4 ->
  bump_cell blake3 (Z.of_nat n) d k (table n T) j = Ok (table n ((slot n k j, (d, k)) :: T)).
Proof.
  intros Hn HT Hd Hlen. unfold bump_cell. rewrite hash_to_cell_slot by done. cbn [rbind].
  pose proof (slot_lt n k j Hn) as Hs.
  rewrite (update_ok _ _ _ (cell_of (slot n k j) T) (cadd d k (cell_of (slot n k j) T))).
  - f_equal. by apply (table_insert n T (slot n k j, (d, k))).
  - by apply lookup_table.
  - pose proof (cell_of_count (slot n k j) T HT). rewrite chk_i_ok; [done|].
    change (32 - 1) with 31. lia.
Qed.

Lemma touches_wf n r : item_wf r -> Forall touch_wf (touches n r).
Proof. intros [? ?]. unfold touches. repeat (apply Forall_cons_2; [by split|]). done. Qed.

Lemma touches_of_wf n R : Forall item_wf R -> Forall touch_wf (touches_of n R).
Proof.
  induction 1 as [|r R Hr _ IH]; [constructor|]. apply Forall_app; split; [by apply touches_wf|done].
Qed.

Lemma bump_cells_table n r T :
  (0 < n)%nat -> Forall touch_wf T -> item_wf r -> zlen T < 2 ^ 31 - 8 ->
  bump_cells blake3 (Z.of_nat n) r.1 r.2 (table n T) = Ok (table n (touches n r ++ T)).
Proof.
  intros Hn HT Hr Hlen. destruct r as [d k]. pose proof (touches_wf n (d, k) Hr) as Hw.
  unfold touches in *. cbn [fmap list_fmap snd] in *. inversion Hw as [|? ? ? Hw1]; subst.
  inversion Hw1 as [|? ? ? Hw0]; subst. destruct Hr as [Hd Hk].
  unfold bump_cells. cbn [rfold fst snd].
  rewrite bump_cell_table by (done || lia). cbn [rbind].
  rewrite bump_cell_table by (try (by apply Forall_cons_2); autorewrite with zlen; done || lia). cbn [rbind].
  by rewrite bump_cell_table by (try (by repeat apply Forall_cons_2); autorewrite with zlen; done || lia).
Qed.

(** [new] has no touches. *)
Lemma iblt_new_sketch d : iblt_new d = sketch (Z.to_nat (Z.max d 1 * CELLS_PER_DIFF)) [].
Proof.
  unfold iblt_new, sketch. unfold CELLS_PER_DIFF. f_equal; [|lia].
  symmetry. apply (replicate_as_fmap_seq cell_new).
Qed.

Lemma iblt_insert_sketch n k T :
  (0 < n)%nat -> Forall touch_wf T -> length k = 16%nat -> zlen T < 2 ^ 31 - 8 ->
  iblt_insert blake3 (sketch n T) k = Ok (sketch n (touches n (1, k) ++ T)).
Proof.
  intros. unfold iblt_insert, sketch. cbn [t_num_cells t_cells].
  rewrite (bump_cells_table n (1, k)); [done..|split; [by left|done]|done].
Qed.

Lemma iblt_remove_sketch n k T :
  (0 < n)%nat -> Forall touch_wf T -> length k = 16%nat -> zlen T < 2 ^ 31 - 8 ->
  iblt_remove blake3 (sketch n T) k = Ok (sketch n (touches n (-1, k) ++ T)).
Proof.
  intros. unfold iblt_remove, sketch. cbn [t_num_cells t_cells].
  rewrite (bump_cells_table n (-1, k)); [done..|split; [by right|done]|done].
Qed.

Lemma neg_touches n r : neg_touch <$> touches n r = touches n (- r.1, r.2).
Proof. done. Qed.

Lemma neg_touches_of n R : neg_touch <$> touches_of n R = touches_of n ((fun r => (- r.1, r.2)) <$> R).
Proof.
  unfold touches_of. induction R as [|r R IH]; [done|].
  rewrite bind_cons, fmap_app, IH. done.
Qed.

(** *** Peeling *)

Definition hits (i : nat) (T : list touch) : list touch := filter (fun t => t.1 = i) T.

(** No cell is touched by keys of both sides. *)
Definition separated (n : nat) (R : list (Z * MessageId)) : Prop :=
  forall t1 t2, t1 ∈ touches_of n R -> t2 ∈ touches_of n R -> t1.1 = t2.1 -> t1.2.1 = t2.2.1.

(** Every non-empty part of [R] has a cell that exactly one touch of it reaches. *)
Definition peelable (n : nat) (R : list (Z * MessageId)) : Prop :=
  forall R', R' ⊆+ R -> R' <> [] -> exists i, length (hits i (touches_of n R')) = 1%nat.

Lemma cell_of_hits i T : cell_of i T = cell_of i (hits i T).
Proof.
  induction T as [|t T IH]; [done|]. unfold hits. rewrite filter_cons, cell_of_cons, IH. unfold hit.
  case_decide; [|done]. rewrite cell_of_cons. unfold hit. by rewrite decide_True by done.
Qed.

Lemma cell_count_hits i T d :
  (forall t, t ∈ T -> t.1 = i -> t.2.1 = d) -> c_count (cell_of i T) = d * zlen (hits i T).
Proof.
  induction T as [|t T IH]; intros Hd; [symmetry; apply Z.mul_0_r|].
  unfold hits. rewrite filter_cons, cell_of_cons. fold (hits i T). unfold hit.
  case_decide as Hi.
  - cadd_simpl. rewrite zlen_cons, IH by (intros; apply Hd; [by right|done]).
    rewrite (Hd t) by (done || left). lia.
  - apply IH. intros; apply Hd; [by right|done].
Qed.

#[export] Instance touches_of_proper n : Proper ((≡ₚ) ==> (≡ₚ)) (touches_of n).
Proof. intros R1 R2 HR. unfold touches_of. by rewrite HR. Qed.

#[export] Instance hits_proper i : Proper ((≡ₚ) ==> (≡ₚ)) (hits i).
Proof. intros R1 R2 HR. unfold hits. by rewrite HR. Qed.

Lemma touches_of_cons n r R : touches_of n (r :: R) = touches n r ++ touches_of n R.
Proof. done. Qed.

Lemma hits_app i T1 T2 : hits i (T1 ++ T2) = hits i T1 ++ hits i T2.
Proof. apply filter_app. Qed.

Lemma elem_of_touches n r t : t ∈ touches n r -> t.2 = r.
Proof. unfold touches. by intros (j & -> & _)%list_elem_of_fmap. Qed.

Lemma elem_of_touches_of n R t : t ∈ touches_of n R -> t.2 ∈ R /\ t ∈ touches n t.2.
Proof.
  unfold touches_of. intros (r & Ht & Hr)%list_elem_of_bind. by rewrite (elem_of_touches n r t Ht).
Qed.

Lemma separated_cell n R t i :
  separated n R -> t ∈ touches_of n R -> t.1 = i ->
  c_count (cell_of i (touches_of n R)) = t.2.1 * zlen (hits i (touches_of n R)).
Proof. intros Hs Ht Hi. apply cell_count_hits. intros t' Ht' Hi'. apply Hs; congruence. Qed.

Lemma hits_ex i T : hits i T = [] \/ exists t, t ∈ T /\ t.1 = i.
Proof.
  destruct (hits i T) as [|t l] eqn:E; [by left|]. right. exists t.
  assert (t ∈ hits i T) as H by (rewrite E; left). unfold hits in H.
  apply list_elem_of_filter in H. naive_solver.
Qed.

Lemma cell_no_hits i T : hits i T = [] -> cell_of i T = cell_new.
Proof. intros H. by rewrite cell_of_hits, H. Qed.

Lemma separated_check n R :
  bool_decide (Forall (fun t1 => Forall (fun t2 => t1.1 = t2.1 -> t1.2.1 = t2.2.1) (touches_of n R)) (touches_of n R))
    = true -> separated n R.
Proof.
  intros H%bool_decide_eq_true t1 t2 H1 H2. rewrite Forall_forall in H. specialize (H t1 H1).
  rewrite Forall_forall in H. by apply H.
Qed.

Lemma separated_sub n R R' : R' ⊆+ R -> separated n R -> separated n R'.
Proof.
  intros Hsub Hs t1 t2 H1 H2. apply Hs; unfold touches_of in *;
    apply list_elem_of_bind in H1 as (r1 & ? & ?), H2 as (r2 & ? & ?);
    apply list_elem_of_bind; [exists r1|exists r2]; (split; [done|]);
    eapply elem_of_submseteq; eauto.
Qed.

Lemma pure_count c : Is_true (cell_is_pure c) <-> Z.abs (c_count c) = 1.
Proof. unfold cell_is_pure. rewrite Is_true_true, orb_true_iff, !Z.eqb_eq. lia. Qed.

(** A pure cell of a separated table holds one key, with its side. *)
Lemma pure_cell n R i :
  separated n R -> Forall item_wf R -> Z.abs (c_count (cell_of i (touches_of n R))) = 1 ->
  exists r R', R ≡ₚ r :: R' /\ hits i (touches_of n R') = [] /\ hits i (touches n r) <> [] /\
               cell_of i (touches_of n R) = mkCell r.1 r.2 (key_check_of r.2).
Proof.
  intros Hs Hwf Habs. destruct (hits_ex i (touches_of n R)) as [Hno|(t & Ht & Hi)].
  { rewrite cell_no_hits in Habs by done. done. }
  pose proof (separated_cell n R t i Hs Ht Hi) as Hc.
  apply elem_of_touches_of in Ht as Ht'. destruct Ht' as [Hr Htr].
  assert (item_wf t.2) as [Hd Hk] by (by eapply Forall_forall in Hwf).
  apply elem_of_Permutation in Hr as Hp. destruct Hp as [R' HR]. exists t.2, R'.
  assert (t ∈ hits i (touches n t.2)) as Hin by (by apply list_elem_of_filter).
  assert (length (hits i (touches n t.2)) + length (hits i (touches_of n R')) = 1)%nat as Hlen.
  { rewrite <-length_app, <-hits_app, <-touches_of_cons, <-HR. unfold zlen in Hc. nia. }
  destruct (hits i (touches n t.2)) as [|u l] eqn:Hh; [by apply not_elem_of_nil in Hin|].
  cbn [length] in Hlen. assert (hits i (touches_of n R') = []) as Hz by (apply nil_length_inv; lia).
  assert (l = []) as -> by (apply nil_length_inv; lia). apply list_elem_of_singleton in Hin as ->.
  split_and!; try done.
  rewrite cell_of_hits, HR, touches_of_cons, hits_app, Hh, Hz.
  rewrite app_nil_r, cell_of_cons. unfold hit. rewrite decide_True by done. cadd_simpl.
  apply cell_ext; cbn [c_count c_key_sum c_key_check]; [done| |done].
  by apply xor_bytes_zeros_l.
Qed.

Lemma zlen_perm {A} (l1 l2 : list A) : l1 ≡ₚ l2 -> zlen l1 = zlen l2.
Proof. intros H. unfold zlen. by rewrite H. Qed.

Lemma zlen_touches_of n R : zlen (touches_of n R) = 3 * zlen R.
Proof. induction R as [|r R IH]; [done|]. rewrite touches_of_cons, zlen_app, IH, zlen_cons.
  unfold touches, zlen. cbn [length fmap list_fmap]. lia. Qed.

(** Removing the key of a pure cell leaves the table of the other keys. *)
Lemma peel_table n r R R' :
  (0 < n)%nat -> Forall item_wf R -> 3 * zlen R < 2 ^ 31 - 8 -> R ≡ₚ r :: R' ->
  bump_cells blake3 (Z.of_nat n) (- r.1) r.2 (table n (touches_of n R)) = Ok (table n (touches_of n R')).
Proof.
  intros Hn Hwf Hlen HR. assert (Forall item_wf (r :: R')) as Hwf' by (by rewrite <-HR).
  inversion Hwf' as [|? ? Hr HR' Heq]; subst.
  rewrite (bump_cells_table n (- r.1, r.2)).
  - f_equal. rewrite HR, touches_of_cons, <-neg_touches.
    apply table_cancel; [by apply touches_wf|by apply touches_of_wf].
  - done.
  - by apply touches_of_wf.
  - destruct Hr as [Hd Hk]. split; cbn [fst snd]; [lia|done].
  - by rewrite zlen_touches_of.
Qed.

Lemma list_find_table n T pos cell :
  list_find (fun c => Is_true (cell_is_pure c)) (table n T) = Some (pos, cell) ->
  (pos < n)%nat /\ cell = cell_of pos T /\ Z.abs (c_count (cell_of pos T)) = 1.
Proof.
  intros (Hl & Hp & _)%list_find_Some. pose proof (lookup_lt_Some _ _ _ Hl) as Hlt.
  rewrite length_table in Hlt. rewrite lookup_table in Hl by done. injection Hl as <-.
  by apply pure_count in Hp.
Qed.

(** One turn of the loop: a key leaves the table for the list of its side. *)
Lemma decode_loop_step iters n R a b pos cell :
  (0 < n)%nat -> separated n R -> Forall item_wf R -> 3 * zlen R < 2 ^ 31 - 8 ->
  list_find (fun c => Is_true (cell_is_pure c)) (table n (touches_of n R)) = Some (pos, cell) ->
  exists r R', R ≡ₚ r :: R' /\ (pos < n)%nat /\ hits pos (touches_of n R') = [] /\
    hits pos (touches n r) <> [] /\
    decode_loop blake3 (S iters) (Z.of_nat n) (table n (touches_of n R)) a b =
    decode_loop blake3 iters (Z.of_nat n) (table n (touches_of n R'))
      (if r.1 =? 1 then a ++ [r.2] else a) (if r.1 =? 1 then b else b ++ [r.2]).
Proof.
  intros Hn Hs Hwf Hlen Hf. cbn [decode_loop]. rewrite Hf.
  apply list_find_table in Hf as (Hpos & -> & Hp).
  destruct (pure_cell n R pos Hs Hwf Hp) as (r & R' & HR & Hz & Hnz & ->).
  exists r, R'. split_and!; try done. cbn [c_count c_key_sum c_key_check].
  rewrite Z.eqb_refl. cbn [negb]. rewrite (peel_table n r R R') by done. cbn [rbind].
  rewrite (update_ok _ _ _ (cell_of pos (touches_of n R')) cell_new) by (done || by apply lookup_table).
  cbn [rbind]. by rewrite list_insert_id by (rewrite lookup_table, cell_no_hits by done; done).
Qed.

(** The keys of each side. *)
Definition plus (R : list (Z * MessageId)) : list MessageId := (filter (fun r => r.1 = 1) R).*2.
Definition minus (R : list (Z * MessageId)) : list MessageId := (filter (fun r => r.1 <> 1) R).*2.

#[export] Instance plus_proper : Proper ((≡ₚ) ==> (≡ₚ)) plus.
Proof. intros R1 R2 HR. unfold plus. by rewrite HR. Qed.

#[export] Instance minus_proper : Proper ((≡ₚ) ==> (≡ₚ)) minus.
Proof. intros R1 R2 HR. unfold minus. by rewrite HR. Qed.

Lemma plus_cons r R a :
  a ++ plus (r :: R) ≡ₚ (if r.1 =? 1 then a ++ [r.2] else a) ++ plus R.
Proof.
  unfold plus. rewrite filter_cons. destruct (Z.eqb_spec r.1 1); case_decide; try done.
  by rewrite fmap_cons, <-app_assoc.
Qed.

Lemma minus_cons r R b :
  b ++ minus (r :: R) ≡ₚ (if r.1 =? 1 then b else b ++ [r.2]) ++ minus R.
Proof.
  unfold minus. rewrite filter_cons. destruct (Z.eqb_spec r.1 1); case_decide; try done.
  by rewrite fmap_cons, <-app_assoc.
Qed.

Lemma empty_table n R :
  (0 < n)%nat -> separated n R -> Forall item_wf R ->
  forallb cell_is_empty (table n (touches_of n R)) = true -> R = [].
Proof.
  intros Hn Hs Hwf He. destruct R as [|r R]; [done|]. exfalso.
  set (t := (slot n r.2 2, r)).
  assert (t ∈ touches_of n (r :: R)) as Ht by (rewrite touches_of_cons; by left).
  pose proof (separated_cell n (r :: R) t (slot n r.2 2) Hs Ht eq_refl) as Hc.
  assert (t ∈ hits (slot n r.2 2) (touches_of n (r :: R))) as Hin by (by apply list_elem_of_filter).
  assert (0 < zlen (hits (slot n r.2 2) (touches_of n (r :: R)))) as Hpos.
  { destruct (hits _ _); [by apply not_elem_of_nil in Hin|]. rewrite zlen_cons. pose proof (zlen_nonneg l). lia. }
  apply Forall_cons in Hwf as [[Hd _] _].
  assert (Is_true (cell_is_empty (cell_of (slot n r.2 2) (touches_of n (r :: R))))) as Hz.
  { apply Is_true_true. rewrite forallb_forall in He. apply He.
    apply list_elem_of_In. eapply list_elem_of_lookup_2. apply lookup_table. by apply slot_lt. }
  unfold cell_is_empty in Hz. apply Is_true_true, Z.eqb_eq in Hz.
  change t.2.1 with r.1 in Hc. rewrite Hz in Hc. nia.
Qed.

(** Whatever the loop returns is the two sides, exactly. *)
Lemma decode_loop_sound iters n R a b a' b' :
  (0 < n)%nat -> separated n R -> Forall item_wf R -> 3 * zlen R < 2 ^ 31 - 8 ->
  decode_loop blake3 iters (Z.of_nat n) (table n (touches_of n R)) a b = Ok (a', b') ->
  a' ≡ₚ a ++ plus R /\ b' ≡ₚ b ++ minus R.
Proof.
  intros Hn. revert R a b. induction iters as [|iters IH]; intros R a b Hs Hwf Hlen H; [done|].
  destruct (list_find (fun c => Is_true (cell_is_pure c)) (table n (touches_of n R))) as [[pos cell]|] eqn:Hf.
  - destruct (decode_loop_step iters n R a b pos cell Hn Hs Hwf Hlen Hf) as (r & R' & HR & _ & _ & _ & Heq).
    rewrite Heq in H. apply IH in H as [Ha Hb].
    + rewrite Ha, Hb, HR. by rewrite plus_cons, minus_cons.
    + eapply separated_sub; [|done]. rewrite HR. by apply submseteq_cons.
    + rewrite HR in Hwf. by apply Forall_cons in Hwf as [_ ?].
    + rewrite (zlen_perm _ _ HR), zlen_cons in Hlen. lia.
  - cbn [decode_loop] in H. rewrite Hf in H. case_match eqn:He; [|done]. injection H as <- <-.
    rewrite (empty_table n R) by done. by rewrite !app_nil_r.
Qed.

(** The cells in use: every turn of the loop empties one for good, so the loop needs at most one
    turn per cell. *)
Definition busy (n : nat) (R : list (Z * MessageId)) : nat :=
  length (filter (fun i => hits i (touches_of n R) <> []) (seq 0 n)).

Lemma busy_le n R : (busy n R <= n)%nat.
Proof. unfold busy. etrans; [apply length_filter|]. by rewrite length_seq. Qed.

Lemma busy_peel n r R R' pos :
  R ≡ₚ r :: R' -> (pos < n)%nat -> hits pos (touches_of n R') = [] -> hits pos (touches n r) <> [] ->
  (busy n R' < busy n R)%nat.
Proof.
  intros HR Hpos Hz Hnz. unfold busy.
  assert (Hh : forall i, hits i (touches_of n R) ≡ₚ hits i (touches n r) ++ hits i (touches_of n R')).
  { intros i. by rewrite HR, touches_of_cons, hits_app. }
  apply (submseteq_length (pos :: filter (fun i => hits i (touches_of n R') <> []) (seq 0 n))).
  apply NoDup_submseteq.
  - apply NoDup_cons. split; [|apply NoDup_filter, NoDup_seq].
    intros [Hp _]%list_elem_of_filter. done.
  - intros i Hi. apply list_elem_of_filter. apply elem_of_cons in Hi as [->|[Hi Hs]%list_elem_of_filter].
    + split; [|apply elem_of_seq; lia]. intros E. specialize (Hh pos). rewrite E in Hh.
      apply Permutation_nil_l in Hh. symmetry in Hh. by apply app_eq_nil in Hh as [? _].
    + split; [|done]. intros E. specialize (Hh i). rewrite E in Hh.
      apply Permutation_nil_l in Hh. symmetry in Hh. by apply app_eq_nil in Hh as [_ ?].
Qed.

Lemma peelable_sub n R R' : R' ⊆+ R -> peelable n R -> peelable n R'.
Proof. intros Hs Hp R'' HR''. apply Hp. by etrans. Qed.

Lemma peelable_find n R :
  (0 < n)%nat -> separated n R -> Forall item_wf R -> peelable n R -> R <> [] ->
  list_find (fun c => Is_true (cell_is_pure c)) (table n (touches_of n R)) <> None.
Proof.
  intros Hn Hs Hwf Hp HR. destruct (Hp R) as [i Hi]; [done..|].
  destruct (hits_ex i (touches_of n R)) as [E|(t & Ht & Hti)]; [by rewrite E in Hi|].
  intros Hf%list_find_None.
  apply elem_of_touches_of in Ht as Ht'. destruct Ht' as [Hr Htr].
  assert (i < n)%nat as Hin.
  { rewrite <-Hti. unfold touches in Htr. apply list_elem_of_fmap in Htr as (j & -> & _). by apply slot_lt. }
  eapply Forall_forall in Hf; [|eapply list_elem_of_lookup_2, lookup_table, Hin].
  apply Hf. cbv beta. apply pure_count. rewrite (separated_cell n R t i Hs Ht Hti).
  unfold zlen. rewrite Hi. eapply Forall_forall in Hwf; [|exact Hr]. destruct Hwf as [? _]. lia.
Qed.

Lemma decode_loop_complete iters n R a b :
  (0 < n)%nat -> separated n R -> Forall item_wf R -> 3 * zlen R < 2 ^ 31 - 8 ->
  peelable n R -> (busy n R < iters)%nat ->
  exists a' b', decode_loop blake3 iters (Z.of_nat n) (table n (touches_of n R)) a b = Ok (a', b').
Proof.
  intros Hn. revert R a b. induction iters as [|iters IH]; intros R a b Hs Hwf Hlen Hp Hb; [lia|].
  destruct (list_find (fun c => Is_true (cell_is_pure c)) (table n (touches_of n R))) as [[pos cell]|] eqn:Hf.
  - destruct (decode_loop_step iters n R a b pos cell Hn Hs Hwf Hlen Hf)
      as (r & R' & HR & Hpos & Hz & Hnz & ->).
    assert (R' ⊆+ R) as Hsub by (rewrite HR; by apply submseteq_cons).
    pose proof (busy_peel n r R R' pos HR Hpos Hz Hnz). apply IH.
    + by eapply separated_sub.
    + rewrite HR in Hwf. by apply Forall_cons in Hwf as [_ ?].
    + rewrite (zlen_perm _ _ HR), zlen_cons in Hlen. lia.
    + by eapply peelable_sub.
    + lia.
  - assert (R = []) as ->. { destruct R; [done|]. by destruct (peelable_find n (p :: R)). }
    exists a, b. cbn [decode_loop]. rewrite Hf.
    replace (forallb cell_is_empty (table n (touches_of n []))) with true; [done|].
    symmetry. apply forallb_forall. intros c Hc%list_elem_of_In.
    apply list_elem_of_fmap in Hc as (i & -> & _). done.
Qed.

(** Peeling in the order of a list shows that it is peelable. *)
Fixpoint peels (n : nat) (R : list (Z * MessageId)) : bool :=
  match R with
  | [] => true
  | r :: R => existsb (fun i => (length (hits i (touches n r)) =? 1)%nat && (length (hits i (touches_of n R)) =? 0)%nat) (seq 0 n)
              && peels n R
  end.

Lemma peels_peelable n R : peels n R = true -> peelable n R.
Proof.
  induction R as [|r R IH]; intros H R' HR' Hne.
  { apply submseteq_nil_r in HR'. done. }
  cbn [peels] in H. apply andb_true_iff in H as [[i [_ [H1 H0]%andb_true_iff]]%existsb_exists Hrest].
  apply Nat.eqb_eq in H1, H0.
  apply submseteq_cons_r in HR' as [HR'|(k & HR' & Hk)]; [by apply IH|].
  exists i. rewrite HR', touches_of_cons, hits_app, length_app, H1.
  assert (hits i (touches_of n k) ⊆+ hits i (touches_of n R)) as Hsub.
  { apply submseteq_Permutation in Hk as [k' Hk]. rewrite Hk. unfold touches_of.
    rewrite bind_app, hits_app. apply submseteq_inserts_r. done. }
  apply submseteq_length in Hsub. lia.
Qed.

(** ** Building, subtracting and decoding *)

(** The table of a set of identifiers, inserted one by one. *)
Definition iblt_build (d : Z) (A : list MessageId) : res DriftError IBLT :=
  rfold (iblt_insert blake3) (iblt_new d) A.

Definition cells_for (d : Z) : nat := Z.to_nat (Z.max d 1 * CELLS_PER_DIFF).

(** The signed difference of two sets of identifiers. *)
Definition signed_diff (A B : list MessageId) : list (Z * MessageId) :=
  (pair 1 <$> A) ++ (pair (-1) <$> B).

Definition ids_ok (A : list MessageId) : Prop := Forall (fun k => length k = 16%nat) A.

Lemma cells_for_pos d : (0 < cells_for d)%nat.
Proof. unfold cells_for, CELLS_PER_DIFF. lia. Qed.

Lemma sketch_perm n T1 T2 : T1 ≡ₚ T2 -> sketch n T1 = sketch n T2.
Proof. intros HT. unfold sketch. by rewrite HT. Qed.

Lemma items_wf s A : s = 1 \/ s = -1 -> ids_ok A -> Forall item_wf (pair s <$> A).
Proof. intros Hs HA. apply Forall_fmap. eapply Forall_impl; [exact HA|]. by split. Qed.

Lemma iblt_insert_all n A T :
  (0 < n)%nat -> ids_ok A -> Forall touch_wf T -> zlen T + 3 * zlen A < 2 ^ 31 - 8 ->
  rfold (iblt_insert blake3) (sketch n T) A = Ok (sketch n (touches_of n (pair 1 <$> A) ++ T)).
Proof.
  intros Hn HA. revert T. induction HA as [|k A Hk HA IH]; intros T HT Hlen; [done|].
  rewrite zlen_cons in Hlen. pose proof (zlen_nonneg A). cbn [rfold].
  rewrite iblt_insert_sketch by (done || lia). cbn [rbind].
  assert (item_wf (1, k)) as Hi by (split; [by left|done]).
  rewrite IH.
  - f_equal. apply sketch_perm. rewrite fmap_cons, touches_of_cons. solve_Permutation || 
    (rewrite app_assoc, (Permutation_app_comm (touches_of n _)), <-app_assoc; done).
  - apply Forall_app; split; [by apply touches_wf|done].
  - rewrite zlen_app. change (zlen (touches n (1, k))) with 3. lia.
Qed.

Lemma iblt_build_sketch d A :
  ids_ok A -> 3 * zlen A < 2 ^ 31 - 8 ->
  iblt_build d A = Ok (sketch (cells_for d) (touches_of (cells_for d) (pair 1 <$> A))).
Proof.
  intros HA Hlen. unfold iblt_build. rewrite iblt_new_sketch. fold (cells_for d).
  rewrite iblt_insert_all by (done || apply cells_for_pos || constructor || (autorewrite with zlen; lia)).
  by rewrite app_nil_r.
Qed.

(** What two sets share leaves their difference. *)
Lemma table_diff n A B C A' B' :
  ids_ok A -> ids_ok B -> A ≡ₚ C ++ A' -> B ≡ₚ C ++ B' ->
  table n (touches_of n (pair 1 <$> A) ++ (neg_touch <$> touches_of n (pair 1 <$> B))) =
  table n (touches_of n (signed_diff A' B')).
Proof.
  intros HA HB HCA HCB. rewrite HCA, HCB. unfold signed_diff, touches_of in *.
  rewrite !fmap_app, !bind_app, !fmap_app. fold (touches_of n (pair 1 <$> C)).
  fold (touches_of n (pair 1 <$> A')) (touches_of n (pair 1 <$> B')) (touches_of n (pair (-1) <$> B')).
  rewrite (neg_touches_of n (pair 1 <$> B')), <-list_fmap_compose.
  unfold ids_ok in HA, HB. rewrite HCA in HA. rewrite HCB in HB.
  apply Forall_app in HA as [HC HA]. apply Forall_app in HB as [_ HB].
  rewrite <-(table_cancel n (touches_of n (pair 1 <$> C)) (touches_of n (pair 1 <$> A') ++ touches_of n (pair (-1) <$> B'))).
  - apply table_proper. rewrite !app_assoc.
    rewrite (Permutation_app_comm (touches_of n (pair 1 <$> C) ++ touches_of n (pair 1 <$> A'))), !app_assoc. done.
  - apply touches_of_wf, items_wf; [by left|done].
  - apply Forall_app; split; apply touches_of_wf, items_wf; auto.
Qed.

(** The table of a set of identifiers. *)
Definition id_table (n : nat) (A : list MessageId) : IBLT := sketch n (touches_of n (pair 1 <$> A)).

Lemma subtract_id_tables n A B C A' B' :
  (0 < n)%nat -> ids_ok A -> ids_ok B -> zlen A + zlen B < 2 ^ 28 -> A ≡ₚ C ++ A' -> B ≡ₚ C ++ B' ->
  iblt_subtract (id_table n A) (id_table n B) = Ok (sketch n (touches_of n (signed_diff A' B'))).
Proof.
  intros Hn HA HB Hlen HCA HCB. pose proof (zlen_nonneg A). pose proof (zlen_nonneg B).
  unfold id_table. rewrite iblt_subtract_sketch.
  - unfold sketch. by rewrite (table_diff _ A B C A' B').
  - done.
  - apply touches_of_wf, items_wf; auto.
  - apply touches_of_wf, items_wf; auto.
  - rewrite !zlen_touches_of. unfold zlen in *. rewrite !length_fmap. lia.
Qed.

Lemma subtract_build d A B C A' B' :
  ids_ok A -> ids_ok B -> zlen A + zlen B < 2 ^ 28 -> A ≡ₚ C ++ A' -> B ≡ₚ C ++ B' ->
  exists ta tb, iblt_build d A = Ok ta /\ iblt_build d B = Ok tb /\
    iblt_subtract ta tb = Ok (sketch (cells_for d) (touches_of (cells_for d) (signed_diff A' B'))).
Proof.
  intros HA HB Hlen HCA HCB. pose proof (zlen_nonneg A). pose proof (zlen_nonneg B).
  eexists _, _. split; [apply iblt_build_sketch; [done|lia]|].
  split; [apply iblt_build_sketch; [done|lia]|].
  apply (subtract_id_tables _ A B C A' B'); auto using cells_for_pos.
Qed.

Lemma plus_signed_diff A B : plus (signed_diff A B) = A.
Proof.
  unfold plus, signed_diff. rewrite filter_app, fmap_app.
  replace (filter _ (pair (-1) <$> B)) with (@nil (Z * MessageId)) by (induction B; [done|]; cbn; done).
  rewrite app_nil_r. induction A as [|k A IH]; [done|].
  rewrite fmap_cons, filter_cons_True by done. rewrite fmap_cons. by f_equal.
Qed.

Lemma minus_signed_diff A B : minus (signed_diff A B) = B.
Proof.
  unfold minus, signed_diff. rewrite filter_app, fmap_app.
  replace (filter _ (pair 1 <$> A)) with (@nil (Z * MessageId)) by (induction A; [done|]; cbn; done).
  cbn [app fmap list_fmap]. induction B as [|k B IH]; [done|].
  rewrite fmap_cons, filter_cons_True by done. rewrite fmap_cons. by f_equal.
Qed.

Lemma signed_diff_wf A B : ids_ok A -> ids_ok B -> Forall item_wf (signed_diff A B).
Proof. intros. apply Forall_app; split; apply items_wf; auto. Qed.

Lemma zlen_signed_diff A B : zlen (signed_diff A B) = zlen A + zlen B.
Proof. unfold signed_diff. rewrite zlen_app. unfold zlen. by rewrite !length_fmap. Qed.

Lemma ids_ok_part A C A' : ids_ok A -> A ≡ₚ C ++ A' -> ids_ok A' /\ zlen A' <= zlen A.
Proof.
  intros HA HCA. split.
  - unfold ids_ok in HA. rewrite HCA in HA. by apply Forall_app in HA as [_ ?].
  - rewrite (zlen_perm _ _ HCA), zlen_app. pose proof (zlen_nonneg C). lia.
Qed.

(** *** The difference seen from the other side *)

Definition flip_item (r : Z * MessageId) : Z * MessageId := (- r.1, r.2).

Lemma flip_flip (R : list (Z * MessageId)) : flip_item <$> (flip_item <$> R) = R.
Proof.
  rewrite <-list_fmap_compose. rewrite <-(list_fmap_id R) at 2. apply list_fmap_ext.
  intros _ [z k] _. unfold flip_item, compose. cbn. f_equal. lia.
Qed.

Lemma signed_diff_flip A B : signed_diff B A ≡ₚ flip_item <$> signed_diff A B.
Proof.
  unfold signed_diff. rewrite fmap_app, <-!list_fmap_compose, Permutation_app_comm. done.
Qed.

Lemma hits_flip i n R : length (hits i (touches_of n (flip_item <$> R))) = length (hits i (touches_of n R)).
Proof.
  unfold flip_item. rewrite <-neg_touches_of. unfold hits.
  induction (touches_of n R) as [|t T IH]; [done|]. rewrite fmap_cons, !filter_cons. cbn [neg_touch fst].
  case_decide; cbn [length]; by rewrite IH.
Qed.

Lemma separated_flip n A B : separated n (signed_diff A B) -> separated n (signed_diff B A).
Proof.
  intros Hs. apply separated_sub with (flip_item <$> signed_diff A B).
  { apply Permutation_submseteq, signed_diff_flip. }
  intros t1 t2. unfold flip_item. rewrite <-neg_touches_of. intros (u1 & -> & H1)%list_elem_of_fmap (u2 & -> & H2)%list_elem_of_fmap Heq. cbn in *. f_equal. by apply Hs.
Qed.

Lemma peelable_flip n A B : peelable n (signed_diff A B) -> peelable n (signed_diff B A).
Proof.
  intros Hp R' HR' Hne. destruct (Hp (flip_item <$> R')) as [i Hi].
  - trans (flip_item <$> signed_diff B A); [by apply fmap_submseteq|].
    apply Permutation_submseteq. symmetry. apply signed_diff_flip.
  - by destruct R'.
  - exists i. by rewrite hits_flip in Hi.
Qed.

(** ** Properties *)

Lemma decode_diff_sound n A' B' a b :
  (0 < n)%nat -> ids_ok A' -> ids_ok B' -> zlen A' + zlen B' < 2 ^ 28 ->
  separated n (signed_diff A' B') ->
  iblt_decode blake3 (sketch n (touches_of n (signed_diff A' B'))) = Ok (a, b) ->
  a ≡ₚ A' /\ b ≡ₚ B'.
Proof.
  intros Hn HA HB Hlen Hs Hd. unfold iblt_decode in Hd. cbn [t_num_cells t_cells sketch] in Hd.
  apply decode_loop_sound in Hd as [Ha Hb].
  - rewrite plus_signed_diff in Ha. rewrite minus_signed_diff in Hb. done.
  - done.
  - done.
  - by apply signed_diff_wf.
  - rewrite zlen_signed_diff. lia.
Qed.

Lemma decode_diff_complete n A' B' :
  (0 < n)%nat -> ids_ok A' -> ids_ok B' -> zlen A' + zlen B' < 2 ^ 28 ->
  separated n (signed_diff A' B') -> peelable n (signed_diff A' B') ->
  exists a b, iblt_decode blake3 (sketch n (touches_of n (signed_diff A' B'))) = Ok (a, b) /\
              a ≡ₚ A' /\ b ≡ₚ B'.
Proof.
  intros Hn HA HB Hlen Hs Hp.
  destruct (decode_loop_complete (Z.to_nat (Z.of_nat n * 10)) n (signed_diff A' B') [] []) as (a & b & Hd);
    [done|done|by apply signed_diff_wf|rewrite zlen_signed_diff; lia|done| |].
  { pose proof (busy_le n (signed_diff A' B')). lia. }
  exists a, b. split; [done|]. by eapply decode_diff_sound.
Qed.

Section Reconcile.
Variables (d : Z) (A B C A' B' : list MessageId).
Hypothesis A_ok : ids_ok A.
Hypothesis B_ok : ids_ok B.
Hypothesis few : zlen A + zlen B < 2 ^ 28.
Hypothesis A_split : A ≡ₚ C ++ A'.
Hypothesis B_split : B ≡ₚ C ++ B'.
Hypothesis apart : separated (cells_for d) (signed_diff A' B').

(** C5: if the tables of two sets are subtracted and the result decodes, and no cell is touched
    from both sides of the difference, the decoded lists are exactly what each set has and the
    other lacks: no key is missed, invented or put on the wrong side. *)
Theorem iblt_decode_sound ta tb diff a b :
  iblt_build d A = Ok ta -> iblt_build d B = Ok tb ->
  iblt_subtract ta tb = Ok diff -> iblt_decode blake3 diff = Ok (a, b) ->
  a ≡ₚ A' /\ b ≡ₚ B'.
Proof.
  intros Ha Hb Hs Hd.
  destruct (subtract_build d A B C A' B') as (ta' & tb' & Ha' & Hb' & Hs'); try done.
  rewrite Ha' in Ha. apply Ok_inj in Ha as <-. rewrite Hb' in Hb. apply Ok_inj in Hb as <-.
  rewrite Hs' in Hs. apply Ok_inj in Hs as <-.
  destruct (ids_ok_part A C A' A_ok A_split) as [HA' ?], (ids_ok_part B C B' B_ok B_split) as [HB' ?].
  eapply decode_diff_sound; [apply cells_for_pos|done|done|lia|done|done].
Qed.

(** C6: if moreover every non-empty part of the difference has a cell touched exactly once, the
    sketch reconciles: both tables are built, they subtract, and decoding returns the difference
    within the iteration limit of the code. *)
Theorem iblt_reconciles :
  peelable (cells_for d) (signed_diff A' B') ->
  exists ta tb diff a b,
    iblt_build d A = Ok ta /\ iblt_build d B = Ok tb /\
    iblt_subtract ta tb = Ok diff /\ iblt_decode blake3 diff = Ok (a, b) /\
    a ≡ₚ A' /\ b ≡ₚ B'.
Proof.
  intros Hp. destruct (subtract_build d A B C A' B') as (ta & tb & Ha & Hb & Hs); try done.
  destruct (ids_ok_part A C A' A_ok A_split) as [HA' ?], (ids_ok_part B C B' B_ok B_split) as [HB' ?].
  destruct (decode_diff_complete (cells_for d) A' B') as (a & b & Hd & Hpa & Hpb);
    [apply cells_for_pos|done|done|lia|done|done|].
  exists ta, tb, (sketch (cells_for d) (touches_of (cells_for d) (signed_diff A' B'))), a, b. by split_and!.
Qed.

End Reconcile.

(** *** The check word *)

Lemma update_Forall {E X} (P : X -> Prop) (l l' : list X) i (f : X -> res E X) :
  (forall x y, P x -> f x = Ok y -> P y) -> Forall P l -> update l i f = Ok l' -> Forall P l'.
Proof.
  intros Hf Hl H. unfold update in H. case_match; [done|]. destruct (l !! Z.to_nat i) as [x|] eqn:Hx; [|done].
  apply rbind_ok_inv in H as (y & Hy & [= <-]). apply Forall_insert; [done|].
  eapply Hf; [|exact Hy]. by eapply Forall_lookup_1.
Qed.

Lemma update_no_err {E X} (l : list X) i (f : X -> res E X) e :
  (forall x, f x <> Err e) -> update l i f <> Err e.
Proof.
  intros Hf H. unfold update in H. case_match; [done|]. destruct (l !! Z.to_nat i) as [x|]; [|done].
  destruct (f x) eqn:Hx; try done. cbn in H. injection H as ->. by apply (Hf x).
Qed.

Lemma chk_i_no_err {E} w z e : @chk_i BM E w z <> Err e.
Proof. unfold chk_i. by repeat case_if. Qed.

Lemma hash_to_cell_no_err n k j e : hash_to_cell blake3 n k j <> Err e.
Proof.
  unfold hash_to_cell, slice. case_if; [|done]. cbn [rbind]. by case_if.
Qed.

Lemma bump_cells_no_err n d k cells e : bump_cells blake3 n d k cells <> Err e.
Proof.
  unfold bump_cells. generalize [0; 1; 2]. intros l. revert cells.
  induction l as [|j l IH]; intros cells; [done|]. cbn [rfold]. unfold bump_cell at 1.
  destruct (hash_to_cell blake3 n k j) eqn:Hh; [|exfalso; by eapply hash_to_cell_no_err|done]. cbn [rbind].
  match goal with |- rbind ?m _ <> _ => destruct m eqn:Hu end; cbn [rbind]; [apply IH| |done].
  intros _. revert Hu. apply update_no_err. intros c. destruct (chk_i 32 _) eqn:Hc; cbn; try done.
  by apply chk_i_no_err in Hc.
Qed.

Lemma bump_cells_wf n d k cells cells' :
  length k = 16%nat -> Forall cell_wf cells -> bump_cells blake3 n d k cells = Ok cells' ->
  Forall cell_wf cells'.
Proof.
  intros Hk. unfold bump_cells. generalize [0; 1; 2]. intros l. revert cells.
  induction l as [|j l IH]; intros cells Hw H; [by injection H as <-|]. cbn [rfold] in H.
  apply rbind_ok_inv in H as (cells1 & H1 & H). eapply IH; [|exact H].
  unfold bump_cell in H1. apply rbind_ok_inv in H1 as (i & _ & H1).
  eapply update_Forall; [|exact Hw|exact H1]. intros x y Hx Hy.
  apply rbind_ok_inv in Hy as (c & _ & [= <-]).
  replace (xor_in k {x with c_count := c}) with (cadd (c - c_count x) k x) by
    (rewrite cadd_eq; unfold xor_in; destruct x; cbn; f_equal; unfold constant; lia).
  by apply (cadd_wf (c - c_count x) k x).
Qed.

(** In a table whose check words are consistent the decoder never reports a check mismatch. *)
Lemma decode_loop_no_mismatch iters n cells a b :
  Forall cell_wf cells ->
  decode_loop blake3 iters n cells a b <> Err (DecompressionFailed ERR_CHECK).
Proof.
  revert cells a b. induction iters as [|iters IH]; intros cells a b Hw; [done|]. cbn [decode_loop].
  destruct (list_find _ cells) as [[pos cell]|] eqn:Hf; [|by case_match].
  apply list_find_Some in Hf as (Hl & _ & _).
  assert (cell_wf cell) as [Hlen Hcheck] by (by eapply Forall_lookup_1).
  rewrite Hcheck, Z.eqb_refl. cbn [negb].
  destruct (bump_cells _ _ _ _ _) as [cells1| |] eqn:Hb; cbn [rbind];
    [|by apply bump_cells_no_err in Hb|done].
  apply bump_cells_wf in Hb; [|done..].
  destruct (update cells1 _ _) as [cells2| |] eqn:Hu; cbn [rbind]; [|by apply update_no_err in Hu|done].
  apply IH. eapply update_Forall; [|exact Hb|exact Hu]. by intros ? ? _ [= <-].
Qed.

(** The check word of a cell carries no information beyond the key sum, so the decoder's
    mismatch test never fires on the difference of two tables, whatever sets they were built from:
    it does not detect a cell where keys of both sides are mixed. *)
Theorem iblt_check_vacuous d A B ta tb diff :
  ids_ok A -> ids_ok B -> zlen A + zlen B < 2 ^ 28 ->
  iblt_build d A = Ok ta -> iblt_build d B = Ok tb -> iblt_subtract ta tb = Ok diff ->
  iblt_decode blake3 diff <> Err (DecompressionFailed ERR_CHECK).
Proof.
  intros HA HB Hlen Ha Hb Hs. destruct (subtract_build d A B [] A B) as (ta' & tb' & Ha' & Hb' & Hs'); try done.
  rewrite Ha' in Ha. apply Ok_inj in Ha as <-. rewrite Hb' in Hb. apply Ok_inj in Hb as <-.
  rewrite Hs' in Hs. apply Ok_inj in Hs as <-. apply decode_loop_no_mismatch.
  apply Forall_fmap, Forall_true. intros i. apply cell_of_wf, touches_of_wf. by apply signed_diff_wf.
Qed.

End Touches.

(** ** The wire format *)

(** A table as the other end reads it: counts travel as one unsigned byte. *)
Definition wire_cell (c : IBLTCell) : IBLTCell := mkCell (c_count c mod 256) (c_key_sum c) (c_key_check c).

Definition wire_image (t : IBLT) : IBLT := mkIBLT (wire_cell <$> t_cells t) (t_num_cells t).

Definition cell_fits (c : IBLTCell) : Prop := length (c_key_sum c) = 16%nat /\ in_u 32 (c_key_check c).

Definition iblt_wf (t : IBLT) : Prop := zlen (t_cells t) = t_num_cells t /\ Forall cell_fits (t_cells t).

Lemma rfold_push {E A} (f : Z -> res E A) (g : nat -> A) n :
  (forall i, (i < n)%nat -> f (Z.of_nat i) = Ok (g i)) ->
  rfold (fun acc i => let! c := f i in Ok (acc ++ [c])) [] (seqZ 0 (Z.of_nat n)) = Ok (g <$> seq 0 n).
Proof.
  induction n as [|n IH]; intros Hf; [done|].
  rewrite seqZ_S, rfold_app, IH by (intros; apply Hf; lia). cbn [rbind rfold].
  rewrite Z.add_0_l, Hf by lia. cbn [rbind]. f_equal. rewrite seq_S, fmap_app. done.
Qed.

Lemma zlen_cell_to_bytes c : cell_fits c -> zlen (cell_to_bytes c) = 21.
Proof.
  intros [Hk _]. unfold cell_to_bytes. autorewrite with zlen. rewrite (zlen_of_length _ 16) by done. lia.
Qed.

Lemma zlen_cells_to_bytes cells :
  Forall cell_fits cells -> zlen (concat (cell_to_bytes <$> cells)) = 21 * zlen cells.
Proof.
  induction 1 as [|c cells Hc _ IH]; [done|]. rewrite fmap_cons. cbn [concat].
  rewrite zlen_app, IH, zlen_cell_to_bytes, zlen_cons by done. lia.
Qed.

Lemma cell_from_bytes_at pre c post i :
  zlen pre = 2 + i * 21 -> cell_fits c ->
  cell_from_bytes (pre ++ cell_to_bytes c ++ post) i = Ok (wire_cell c).
Proof.
  intros Hpre [Hk Hc]. unfold cell_from_bytes, cell_to_bytes. rewrite <-!app_assoc. cbn [app].
  pose proof (zlen_of_length _ _ Hk) as Hk16. change (Z.of_nat 16) with 16 in Hk16.
  rewrite idx_app_r by lia. rewrite idx_head by lia. cbn [rbind].
  rewrite slice_app_r by lia.
  rewrite slice_cons_r by lia. rewrite slice_head by lia. cbn [rbind].
  rewrite read_u32_app_r by lia.
  change (?x :: ?l) with ([x] ++ l). rewrite read_u32_app_r by (autorewrite with zlen; lia).
  rewrite read_u32_app_r by (autorewrite with zlen; lia).
  rewrite (read_u32_head _ _ _ (c_key_check c)).
  - unfold wire_cell. cbn [rbind]. do 2 f_equal. rewrite byte.unsigned_of_Z. unfold byte.wrap, cast_u.
    by rewrite Z.mod_mod.
  - autorewrite with zlen. lia.
  - by autorewrite with zlen.
  - by apply le_combine_le_split.
Qed.

Lemma cell_from_bytes_nth n cells i c :
  Forall cell_fits cells -> cells !! i = Some c ->
  cell_from_bytes (le_split 2 n ++ concat (cell_to_bytes <$> cells)) (Z.of_nat i) = Ok (wire_cell c).
Proof.
  intros Hw Hi. pose proof (lookup_lt_Some _ _ _ Hi).
  rewrite <-(take_drop_middle cells i c Hi) in Hw |- *.
  apply Forall_app in Hw as [Hw1 [Hc Hw2]%Forall_cons].
  rewrite fmap_app, concat_app, fmap_cons. cbn [concat]. rewrite app_assoc.
  apply cell_from_bytes_at; [|done]. rewrite zlen_app, zlen_cells_to_bytes, zlen_le_split by done.
  unfold zlen. rewrite length_take. lia.
Qed.

Lemma wire_cells_id cells : wire_cell <$> cells = cells <-> Forall (fun c => 0 <= c_count c <= 255) cells.
Proof.
  induction cells as [|c cells IH]; [done|]. rewrite fmap_cons, Forall_cons, <-IH.
  assert (wire_cell c = c <-> 0 <= c_count c <= 255) as <-.
  { destruct c as [n k x]. unfold wire_cell. cbn. split.
    - intros [= <-]. pose proof (Z.mod_pos_bound n 256). lia.
    - intros. by rewrite Z.mod_small by lia. }
  split; [by intros [= -> ->]|by intros [-> ->]].
Qed.

(** What the receiver reads. *)
Lemma iblt_wire_image t :
  iblt_wf t -> t_num_cells t <= u16_max ->
  exists bs, iblt_to_bytes t = Ok bs /\ zlen bs = iblt_serialized_size t /\
             iblt_from_bytes bs = Ok (wire_image t).
Proof.
  intros [Hn Hw] Hmax. pose proof (zlen_nonneg (t_cells t)).
  assert (in_u 16 (t_num_cells t)) as Hu by (unfold in_u, u16_max in *; lia).
  unfold iblt_to_bytes. destruct (Z.ltb_spec u16_max (t_num_cells t)); [lia|].
  eexists. split; [done|]. unfold cast_u. rewrite Z.mod_small by done.
  assert (zlen (le_split 2 (t_num_cells t) ++ concat (cell_to_bytes <$> t_cells t)) = iblt_serialized_size t) as Hlen.
  { rewrite zlen_app, zlen_cells_to_bytes, zlen_le_split by done. unfold iblt_serialized_size. lia. }
  split; [done|].
  unfold iblt_from_bytes. rewrite Hlen. unfold iblt_serialized_size.
    destruct (Z.ltb_spec (2 + t_num_cells t * 21) 2); [lia|].
    rewrite (read_u16_head _ _ _ (t_num_cells t)) by (done || apply le_combine_le_split; done).
    cbn [rbind]. rewrite Z.eqb_refl. cbn [negb].
    replace (seqZ 0 (t_num_cells t)) with (seqZ 0 (Z.of_nat (length (t_cells t)))) by (by rewrite <-Hn).
    rewrite (rfold_push _ (fun i => wire_cell (nth i (t_cells t) cell_new))).
    + cbn [rbind]. unfold wire_image. do 2 f_equal.
      apply list_eq_same_length with (length (t_cells t)); [by rewrite length_fmap|by rewrite length_fmap, length_seq|].
      intros i x y Hi Hx Hy. rewrite list_lookup_fmap, lookup_seq_lt in Hx by done.
      rewrite list_lookup_fmap in Hy. cbn in Hx. injection Hx as <-.
      destruct (t_cells t !! i) as [c|] eqn:Hc; [|done]. cbn in Hy. injection Hy as <-.
      by rewrite (nth_lookup_Some _ _ _ _ Hc).
    + intros i Hi. destruct (lookup_lt_is_Some_2 (t_cells t) i Hi) as [c Hc].
      rewrite (nth_lookup_Some _ _ _ _ Hc). by apply cell_from_bytes_nth.
Qed.

Lemma wire_image_id t : wire_image t = t <-> Forall (fun c => 0 <= c_count c <= 255) (t_cells t).
Proof.
  unfold wire_image. destruct t as [cells n]. cbn [t_cells t_num_cells].
  rewrite <-wire_cells_id. split; [by intros [= ->]|by intros ->].
Qed.

(** Every table with at most 65535 cells is serialized in [serialized_size] bytes, and the
    receiver reads it back with every count reduced modulo 256: it is the table that was sent
    exactly when all counts are between 0 and 255.  A count of -1, the mark of a key that only the
    other side has, arrives as 255. *)
Theorem iblt_wire t :
  iblt_wf t -> t_num_cells t <= u16_max ->
  exists bs, iblt_to_bytes t = Ok bs /\ zlen bs = iblt_serialized_size t /\
             iblt_from_bytes bs = Ok (wire_image t) /\
             (wire_image t = t <-> Forall (fun c => 0 <= c_count c <= 255) (t_cells t)).
Proof.
  intros Hw Hn. destruct (iblt_wire_image t Hw Hn) as (bs & H1 & H2 & H3).
  exists bs. split_and!; try done. apply wire_image_id.
Qed.

(** ** Concrete inputs *)

(** A digest function: the first 32 bytes of the padded input. *)
Definition prefix_digest (x : bytes) : bytes := take 32 (x ++ replicate 32 Byte.x00).

Lemma prefix_digest_len x : length (prefix_digest x) = 32%nat.
Proof. unfold prefix_digest. rewrite length_take, length_app, length_replicate. lia. Qed.

Definition key_of (z : Z) : MessageId := byte.of_Z z :: replicate 15 Byte.x00.

#[local] Instance sketch_build : Build := {| overflow_checks := true |}.

(** With two shared keys, one key of Alice and one of Bob, decoding is exact. *)
Lemma iblt_decode_sound_witness :
  exists ta tb diff a b,
    iblt_build prefix_digest 3 [key_of 1; key_of 0] = Ok ta /\
    iblt_build prefix_digest 3 [key_of 3; key_of 1] = Ok tb /\
    iblt_subtract ta tb = Ok diff /\ iblt_decode prefix_digest diff = Ok (a, b) /\
    a ≡ₚ [key_of 0] /\ b ≡ₚ [key_of 3].
Proof.
  do 5 eexists. do 4 (split; [vm_compute; reflexivity|]).
  eapply (iblt_decode_sound prefix_digest prefix_digest_len 3 [key_of 1; key_of 0] [key_of 3; key_of 1] [key_of 1]);
    [by repeat constructor|by repeat constructor|by vm_compute|done|apply Permutation_swap| | | | |];
    [by apply separated_check; vm_compute|vm_compute; reflexivity..].
Defined.

Lemma iblt_reconciles_witness :
  exists ta tb diff a b,
    iblt_build prefix_digest 3 [key_of 1; key_of 0] = Ok ta /\
    iblt_build prefix_digest 3 [key_of 3; key_of 1] = Ok tb /\
    iblt_subtract ta tb = Ok diff /\ iblt_decode prefix_digest diff = Ok (a, b) /\
    a ≡ₚ [key_of 0] /\ b ≡ₚ [key_of 3].
Proof.
  apply (iblt_reconciles prefix_digest prefix_digest_len 3 [key_of 1; key_of 0] [key_of 3; key_of 1] [key_of 1]);
    [by repeat constructor|by repeat constructor|by vm_compute|done|apply Permutation_swap| |].
  - by apply separated_check; vm_compute.
  - by apply peels_peelable; vm_compute.
Defined.

(** Alice has two keys and Bob a third one in the same cells: the mismatch test passes, and the
    decoder returns a key that neither of them has. *)
Lemma iblt_check_vacuous_witness :
  exists ta tb diff,
    iblt_build prefix_digest 1 [key_of 1; key_of 2] = Ok ta /\
    iblt_build prefix_digest 1 [key_of 4] = Ok tb /\
    iblt_subtract ta tb = Ok diff /\ iblt_decode prefix_digest diff = Ok ([key_of 7], []) /\
    iblt_decode prefix_digest diff <> Err (DecompressionFailed ERR_CHECK).
Proof.
  do 3 eexists. do 4 (split; [vm_compute; reflexivity|]).
  eapply (iblt_check_vacuous prefix_digest prefix_digest_len 1 [key_of 1; key_of 2] [key_of 4]);
    [by repeat constructor|by repeat constructor|by vm_compute|vm_compute; reflexivity..].
Defined.

(** The difference of an empty table and a table with one key does not survive the wire. *)
Lemma iblt_wire_witness :
  exists diff bs,
    iblt_remove prefix_digest (iblt_new 1) (key_of 5) = Ok diff /\
    iblt_to_bytes diff = Ok bs /\ zlen bs = 65 /\ iblt_from_bytes bs = Ok (wire_image diff) /\
    (wire_image diff = diff <-> Forall (fun c => 0 <= c_count c <= 255) (t_cells diff)) /\
    c_count <$> t_cells diff = [-1; -1; -1] /\ c_count <$> t_cells (wire_image diff) = [255; 255; 255].
Proof.
  eexists. edestruct iblt_wire as (bs & H1 & H2 & H3 & H4); cycle 2.
  - exists bs. split; [vm_compute; reflexivity|]. split; [exact H1|]. split; [exact H2|].
    split; [exact H3|]. split; [exact H4|]. split; reflexivity.
  - split; [reflexivity|]. repeat (apply Forall_cons_2; [by vm_compute|]). apply Forall_nil_2.
  - by vm_compute.
Defined.
