(* ===== verification/Backend.v ===== *)
(** * Storage backends ([core/src/store/backend.rs])

    The trait [StorageBackend] as a class of operations, the laws its clients
    rely on as a second class, and the two backends whose code does not call a
    database: [MemoryStorage], which satisfies the laws, and [DegradedStorage],
    whose operations all fail.  A lock is poisoned only by a thread that panics
    while it holds the lock; no operation here panics, so the poisoned case is
    left out. *)

From S2P Require Import Prelude.

(** ** The trait *)

Class StorageBackend (S : Type) : Type := {
  be_put : S -> bytes -> bytes -> res string S;
  be_get : S -> bytes -> res string (option bytes);
  be_remove : S -> bytes -> res string S;
  be_scan_prefix : S -> bytes -> res string (list (bytes * bytes));
  be_count_prefix : S -> bytes -> res string Z;
  be_flush : S -> res string S;
  be_approximate_size : S -> res string Z;
}.

(** [key.starts_with(prefix)]. *)
Fixpoint starts_with (p k : bytes) : bool :=
  match p, k with
  | [], _ => true
  | _ :: _, [] => false
  | a :: p, b :: k => bool_decide (a = b) && starts_with p k
  end.

(** What a client may rely on: the backend is a finite map. *)
Class LawfulBackend (S : Type) {SB : StorageBackend S} : Type := {
  be_view : S -> gmap bytes bytes;
  be_put_law : forall s k v, exists s', be_put s k v = Ok s' /\ be_view s' = <[k := v]> (be_view s);
  be_get_law : forall s k, be_get s k = Ok (be_view s !! k);
  be_remove_law : forall s k, exists s', be_remove s k = Ok s' /\ be_view s' = delete k (be_view s);
  be_scan_law : forall s p, exists l, be_scan_prefix s p = Ok l /\
    l ≡ₚ filter (fun kv => Is_true (starts_with p kv.1)) (map_to_list (be_view s));
  be_count_law : forall s p, exists l, be_scan_prefix s p = Ok l /\ be_count_prefix s p = Ok (zlen l);
  be_flush_law : forall s, exists s', be_flush s = Ok s' /\ be_view s' = be_view s;
}.

(** ** MemoryStorage *)

Record MemoryStorage : Type := mkMemory { ms_data : gmap bytes bytes }.

Definition memory_new : MemoryStorage := mkMemory ∅.

Section Memory.
Context {HI : HashIter bytes bytes}.

Definition memory_put (s : MemoryStorage) (k v : bytes) : res string MemoryStorage :=
  Ok (mkMemory (<[k := v]> (ms_data s))).

Definition memory_get (s : MemoryStorage) (k : bytes) : res string (option bytes) :=
  Ok (ms_data s !! k).

Definition memory_remove (s : MemoryStorage) (k : bytes) : res string MemoryStorage :=
  Ok (mkMemory (delete k (ms_data s))).

Definition memory_scan_prefix (s : MemoryStorage) (prefix : bytes) : res string (list (bytes * bytes)) :=
  Ok (filter (fun kv => Is_true (starts_with prefix kv.1)) (hm_iter (ms_data s))).

Definition memory_count_prefix (s : MemoryStorage) (prefix : bytes) : res string Z :=
  Ok (zlen (filter (fun k => Is_true (starts_with prefix k)) (hm_iter (ms_data s)).*1)).

Definition memory_flush (s : MemoryStorage) : res string MemoryStorage := Ok s.

Definition memory_approximate_size (s : MemoryStorage) : res string Z :=
  Ok (foldr (fun kv acc => zlen kv.1 + zlen kv.2 + acc) 0 (hm_iter (ms_data s))).

#[export] Instance memory_backend : StorageBackend MemoryStorage := {|
  be_put := memory_put;
  be_get := memory_get;
  be_remove := memory_remove;
  be_scan_prefix := memory_scan_prefix;
  be_count_prefix := memory_count_prefix;
  be_flush := memory_flush;
  be_approximate_size := memory_approximate_size;
|}.

Lemma filter_keys (p : bytes) (l : list (bytes * bytes)) :
  filter (fun k => Is_true (starts_with p k)) l.*1 = (filter (fun kv => Is_true (starts_with p kv.1)) l).*1.
Proof.
  induction l as [|kv l IH]; [done|]. rewrite fmap_cons, !filter_cons.
  case_decide; cbn [fmap list_fmap]; by rewrite IH.
Qed.

#[export, program] Instance memory_lawful : LawfulBackend MemoryStorage := {| be_view := ms_data |}.
Next Obligation. intros s k v. by exists (mkMemory (<[k := v]> (ms_data s))). Qed.
Next Obligation. done. Qed.
Next Obligation. intros s k. by exists (mkMemory (delete k (ms_data s))). Qed.
Next Obligation. intros s p. eexists. split; [done|]. by rewrite hm_iter_perm. Qed.
Next Obligation.
  intros s p. eexists. split; [done|]. cbn. unfold memory_count_prefix, zlen.
  by rewrite filter_keys, length_fmap.
Qed.
Next Obligation. intros s. by exists s. Qed.

End Memory.

(** ** DegradedStorage *)

Record DegradedStorage : Type := mkDegraded { dg_path : string; dg_error : string }.

Definition degraded_message (s : DegradedStorage) : string :=
  String.append "storage degraded for path '"
    (String.append (dg_path s) (String.append "': " (dg_error s))).

#[export] Instance degraded_backend : StorageBackend DegradedStorage := {|
  be_put s _ _ := Err (degraded_message s);
  be_get s _ := Err (degraded_message s);
  be_remove s _ := Err (degraded_message s);
  be_scan_prefix s _ := Err (degraded_message s);
  be_count_prefix s _ := Err (degraded_message s);
  be_flush s := Err (degraded_message s);
  be_approximate_size s := Err (degraded_message s);
|}.

(** ** What clients use *)

Section Laws.
Context {S : Type} {SB : StorageBackend S} {LB : LawfulBackend S}.

Lemma be_put_get s k v k' s' :
  be_put s k v = Ok s' -> be_get s' k' = Ok (if decide (k = k') then Some v else be_view s !! k').
Proof.
  intros Hp. destruct (be_put_law s k v) as (s1 & H1 & Hv). rewrite Hp in H1. injection H1 as ->.
  rewrite be_get_law, Hv. case_decide as E; [subst; by rewrite lookup_insert_eq|by rewrite lookup_insert_ne].
Qed.

Lemma starts_with_app p k : starts_with p (p ++ k) = true.
Proof. induction p as [|a p IH]; cbn; [done|]. by rewrite bool_decide_true by done. Qed.

Lemma starts_with_spec p k : starts_with p k = true <-> exists k', k = p ++ k'.
Proof.
  split; [|by intros [k' ->]; apply starts_with_app].
  revert k; induction p as [|a p IH]; intros k; cbn; [by exists k|].
  destruct k as [|b k]; [done|]. intros [->%bool_decide_eq_true [k' ->]%IH]%andb_true_iff. by exists k'.
Qed.

(** The entries of a scan. *)
Lemma elem_of_scan s p l k v :
  be_scan_prefix s p = Ok l -> (k, v) ∈ l <-> starts_with p k = true /\ be_view s !! k = Some v.
Proof.
  intros H. destruct (be_scan_law s p) as (l' & H' & Hp). rewrite H in H'. injection H' as <-.
  rewrite Hp, list_elem_of_filter, elem_of_map_to_list. cbn. by rewrite Is_true_true.
Qed.

Lemma NoDup_scan s p l : be_scan_prefix s p = Ok l -> NoDup l.*1.
Proof.
  intros H. destruct (be_scan_law s p) as (l' & H' & Hp). rewrite H in H'. injection H' as <-.
  rewrite Hp, <-filter_keys. apply NoDup_filter, NoDup_fst_map_to_list.
Qed.

End Laws.
