(* ===== verification/MeshStore.v ===== *)
(** * The mesh message store ([core/src/drift/store.rs])

    A capacity-bounded set of envelopes indexed by message id, merged with the
    stores of the peers a node meets and written through to a storage backend.
    [bincode], [blake3], [hex] and the [exp] of [f64] are parameters; the clock
    is the argument [now] (seconds), read once per operation. *)

From Corelib Require Import PrimFloat FloatOps.
From Stdlib Require Import Uint63.
From S2P Require Import Prelude Backend.

#[local] Close Scope uint63_scope.
#[local] Open Scope Z_scope.

(** ** Data *)

Definition MAX_MESSAGES : Z := 10000.

Record StoredEnvelope : Type := mkStored {
  s_envelope_data : bytes;
  s_message_id : bytes;
  s_recipient_hint : bytes;
  s_created_at : Z;
  s_ttl_expiry : Z;
  s_hop_count : Z;
  s_priority : Z;
  s_received_at : Z;
}.

#[global] Instance StoredEnvelope_eq_dec : EqDecision StoredEnvelope.
Proof. solve_decision. Defined.

Record MeshStore (B : Type) : Type := mkMesh {
  m_messages : gmap bytes StoredEnvelope;
  m_max_messages : Z;
  m_backend : option B;
}.

Arguments mkMesh {B}.
Arguments m_messages {B}.
Arguments m_max_messages {B}.
Arguments m_backend {B}.

(** ** Priority scores *)

(** [z as f64]. *)
Definition f64 (z : Z) : float := PrimFloat.of_uint63 (Uint63.of_Z z).

Definition f64_clamp (x lo hi : float) : float :=
  if PrimFloat.ltb x lo then lo else if PrimFloat.ltb hi x then hi else x.

Section Mesh.
Context {B : Type} {SB : StorageBackend B} {HI : HashIter bytes StoredEnvelope}.
Context (exp : float -> float).
Context (serialize : StoredEnvelope -> res string bytes) (deserialize : bytes -> res string StoredEnvelope).

Definition priority_score (now : Z) (e : StoredEnvelope) : float :=
  let now := f64 now in
  let age_hours := PrimFloat.div (PrimFloat.sub now (f64 (s_created_at e))) (f64 3600) in
  let recency := exp (PrimFloat.div (PrimFloat.opp age_hours) (f64 24)) in
  let hop_penalty := PrimFloat.div (f64 1) (PrimFloat.add (f64 1) (f64 (s_hop_count e))) in
  let ttl_factor :=
    if s_ttl_expiry e =? 0 then f64 1
    else
      let total_lifetime := PrimFloat.sub (f64 (s_ttl_expiry e)) (f64 (s_created_at e)) in
      let remaining := PrimFloat.sub (f64 (s_ttl_expiry e)) now in
      if PrimFloat.leb total_lifetime (f64 0) || PrimFloat.leb remaining (f64 0) then f64 0
      else f64_clamp (PrimFloat.div remaining total_lifetime) (f64 0) (f64 1) in
  PrimFloat.mul (PrimFloat.mul (PrimFloat.mul (f64 (s_priority e)) recency) hop_penalty) ttl_factor.

(** [a.priority_score().partial_cmp(&b.priority_score()).unwrap_or(Equal)]. *)
Definition score_cmp (now : Z) (a b : StoredEnvelope) : comparison :=
  match PrimFloat.compare (priority_score now a) (priority_score now b) with
  | FLt => Lt
  | FGt => Gt
  | FEq | FNotComparable => Eq
  end.

(** ** Operations *)

Definition mesh_with_capacity (max : Z) : MeshStore B := mkMesh ∅ max None.

Definition mesh_new : MeshStore B := mesh_with_capacity MAX_MESSAGES.

Definition drift_key (id : bytes) : bytes := str_bytes "drift:" ++ id.

(** A write whose failure is only logged. *)
Definition logged (b : B) (r : res string B) : B := match r with Ok b' => b' | _ => b end.

Definition mesh_remove (s : MeshStore B) (id : bytes) : bool * MeshStore B :=
  match m_messages s !! id with
  | None => (false, s)
  | Some _ =>
      (true, mkMesh (delete id (m_messages s)) (m_max_messages s)
        (match m_backend s with
         | Some b => Some (logged b (be_remove b (drift_key id)))
         | None => None
         end))
  end.

(** [while self.messages.len() > self.max_messages]: every turn removes one message, so the
    number of messages is enough fuel. *)
Fixpoint evict_loop (fuel : nat) (now : Z) (s : MeshStore B) : MeshStore B :=
  match fuel with
  | O => s
  | S fuel =>
      if m_max_messages s <? Z.of_nat (size (m_messages s)) then
        match min_by (fun a b => score_cmp now a.2 b.2) (hm_iter (m_messages s)) with
        | Some (id, _) => evict_loop fuel now (mesh_remove s id).2
        | None => s
        end
      else s
  end.

Definition evict_if_over_budget (now : Z) (s : MeshStore B) : MeshStore B :=
  evict_loop (size (m_messages s)) now s.

Definition mesh_insert (now : Z) (s : MeshStore B) (envelope : StoredEnvelope) : bool * MeshStore B :=
  match m_messages s !! s_message_id envelope with
  | Some _ => (false, s)
  | None =>
      let backend :=
        match m_backend s with
        | Some b =>
            Some (match serialize envelope with
                  | Ok value => logged b (be_put b (drift_key (s_message_id envelope)) value)
                  | _ => b
                  end)
        | None => None
        end in
      (true, evict_if_over_budget now
         (mkMesh (<[s_message_id envelope := envelope]> (m_messages s)) (m_max_messages s) backend))
  end.

(** [self.merge(other)]: the loop visits the entries of [other] in iteration order. *)
Definition mesh_merge (now : Z) (s other : MeshStore B) : MeshStore B :=
  foldl (fun s '(id, envelope) =>
      match m_messages s !! id with
      | Some _ => s
      | None => (mesh_insert now s envelope).2
      end) s (hm_iter (m_messages other)).

Definition mesh_get (s : MeshStore B) (id : bytes) : option StoredEnvelope := m_messages s !! id.

Definition mesh_contains (s : MeshStore B) (id : bytes) : bool := bool_decide (is_Some (m_messages s !! id)).

Definition message_ids (s : MeshStore B) : list bytes := (hm_iter (m_messages s)).*1.

Definition messages_for_recipient (s : MeshStore B) (hint : bytes) : list StoredEnvelope :=
  filter (fun e => s_recipient_hint e = hint) (hm_iter (m_messages s)).*2.

(** A stable sort, highest score first. *)
Definition by_priority (now : Z) (s : MeshStore B) : list StoredEnvelope :=
  stable_sort (fun a b => score_cmp now b a <> Gt) (hm_iter (m_messages s)).*2.

Definition mesh_len (s : MeshStore B) : Z := Z.of_nat (size (m_messages s)).

Definition mesh_is_empty (s : MeshStore B) : bool := mesh_len s =? 0.

(** The body of the removal loop: a removal that found its message is counted. *)
Definition remove_counted (acc : Z * MeshStore B) (id : bytes) : Z * MeshStore B :=
  let '(removed, s) := acc in
  let '(r, s') := mesh_remove s id in (if r : bool then removed + 1 else removed, s').

Definition expired_ids (now : Z) (s : MeshStore B) : list bytes :=
  (filter (fun kv => s_ttl_expiry kv.2 <> 0 /\ s_ttl_expiry kv.2 <= now) (hm_iter (m_messages s))).*1.

Definition mesh_remove_expired (now : Z) (s : MeshStore B) : Z * MeshStore B :=
  let now := cast_u 32 now in
  foldl remove_counted (0, s) (expired_ids now s).

(** The input of the hash of [generate_proof], and the proof itself. *)
Definition proof_input (s : MeshStore B) : bytes := concat (stable_sort bytes_le (message_ids s)).

Definition generate_proof (blake3 : bytes -> bytes) (hex : bytes -> string) (s : MeshStore B) : string :=
  hex (blake3 (proof_input s)).

Definition mesh_save {B'} `{StorageBackend B'} (s : MeshStore B) (backend : B') : res string B' :=
  rfold (fun b '(id, envelope) =>
      let! value := map_err (String.append "Failed to serialize envelope: ") (serialize envelope) in
      be_put b (drift_key id) value)
    backend (hm_iter (m_messages s)).

(** One scanned entry of [load]: the store, with the numbers of loaded and of failed entries. *)
Definition load_entry (acc : gmap bytes StoredEnvelope * Z * Z) (kv : bytes * bytes)
  : gmap bytes StoredEnvelope * Z * Z :=
  let '(messages, loaded, failed) := acc in
  match deserialize kv.2 with
  | Ok envelope =>
      match messages !! s_message_id envelope with
      | None => (<[s_message_id envelope := envelope]> messages, loaded + 1, failed)
      | Some _ => acc
      end
  | _ => (messages, loaded, failed + 1)
  end.

Definition mesh_load {B'} `{StorageBackend B'} (now : Z) (s : MeshStore B) (backend : B')
  : res string (Z * MeshStore B) :=
  let! entries := be_scan_prefix backend (str_bytes "drift:") in
  let '(messages, loaded, failed) := foldl load_entry (m_messages s, 0, 0) entries in
  Ok (loaded, evict_if_over_budget now (mkMesh messages (m_max_messages s) (m_backend s))).

Definition mesh_persistent (now : Z) (backend : B) : MeshStore B :=
  let store := mkMesh ∅ MAX_MESSAGES (Some backend) in
  match mesh_load now store backend with
  | Ok (_, store) => store
  | _ => store
  end.

End Mesh.

#[global] Arguments drift_key : simpl never.

(** ** Invariants *)

(** Messages are filed under their own id, and the capacity is respected. *)
Definition mesh_wf {B} (s : MeshStore B) : Prop :=
  map_Forall (fun id e => s_message_id e = id) (m_messages s) /\
  Z.of_nat (size (m_messages s)) <= m_max_messages s.

(** Two sets of messages that do not contradict each other. *)
Definition agree (m1 m2 : gmap bytes StoredEnvelope) : Prop :=
  forall id e1 e2, m1 !! id = Some e1 -> m2 !! id = Some e2 -> e1 = e2.

Lemma union_comm_agree m1 m2 : agree m1 m2 -> m1 ∪ m2 = m2 ∪ m1.
Proof.
  intros Ha. apply map_eq. intros id. rewrite !lookup_union.
  destruct (m1 !! id) eqn:H1, (m2 !! id) eqn:H2; try done. cbn. f_equal. by eapply Ha.
Qed.

Lemma union_insert_r_Some (m1 m2 : gmap bytes StoredEnvelope) id e e' :
  m1 !! id = Some e' -> m1 ∪ <[id := e]> m2 = m1 ∪ m2.
Proof.
  intros He. apply map_eq. intros j. rewrite !lookup_union.
  destruct (decide (id = j)) as [<-|]; [by rewrite He, !union_Some_l|by rewrite lookup_insert_ne].
Qed.

Lemma map_size_dom (m1 m2 : gmap bytes StoredEnvelope) : dom m1 ⊆ dom m2 -> (size m1 <= size m2)%nat.
Proof. intros. rewrite <-!size_dom. by apply subseteq_size. Qed.

Lemma map_size_mono (m1 m2 : gmap bytes StoredEnvelope) : m1 ⊆ m2 -> (size m1 <= size m2)%nat.
Proof.
  intros Hs. apply map_size_dom. by apply subseteq_dom.
Qed.

Lemma NoDup_fmap_fst_filter {X} (P : bytes * X -> Prop) `{forall x, Decision (P x)} l :
  NoDup l.*1 -> NoDup (filter P l).*1.
Proof.
  induction l as [|x l IH]; [done|]. rewrite fmap_cons, NoDup_cons, filter_cons. intros [Hx Hl].
  case_decide; [|auto]. rewrite fmap_cons, NoDup_cons. split; [|auto].
  intros (y & Hy & [_ Hin]%list_elem_of_filter)%list_elem_of_fmap. apply Hx. rewrite Hy.
  by apply list_elem_of_fmap_2.
Qed.

Lemma size_foldr_delete (m : gmap bytes StoredEnvelope) ids :
  NoDup ids -> (forall id, id ∈ ids -> is_Some (m !! id)) ->
  Z.of_nat (size (foldr delete m ids)) = Z.of_nat (size m) - zlen ids.
Proof.
  induction ids as [|id ids IH]; intros Hnd Hin; cbn [foldr]; [unfold zlen; cbn; lia|].
  apply NoDup_cons in Hnd as [Hni Hnd].
  assert (is_Some (foldr delete m ids !! id)) as [e He].
  { rewrite lookup_foldr_delete_not_elem_of by done. apply Hin. by left. }
  rewrite map_size_delete_Some by eauto. rewrite zlen_cons.
  specialize (IH Hnd ltac:(intros; apply Hin; by right)).
  assert (size (foldr delete m ids) <> 0%nat) by (eapply map_size_ne_0_lookup_2; eauto). lia.
Qed.

Section MeshProofs.
Context {B : Type} {SB : StorageBackend B} {HI : HashIter bytes StoredEnvelope}.
Context (exp : float -> float).
Context (serialize : StoredEnvelope -> res string bytes) (deserialize : bytes -> res string StoredEnvelope).

Implicit Types s : MeshStore B.

Lemma mesh_remove_messages s id : m_messages (mesh_remove s id).2 = delete id (m_messages s).
Proof. unfold mesh_remove. destruct (m_messages s !! id) eqn:H; cbn; [done|]. by rewrite delete_id. Qed.

Lemma mesh_remove_max s id : m_max_messages (mesh_remove s id).2 = m_max_messages s.
Proof. unfold mesh_remove. by destruct (m_messages s !! id). Qed.

(** Eviction is a sequence of removals. *)
Lemma evict_loop_ind (P : MeshStore B -> Prop) fuel now s :
  (forall s id, P s -> P (mesh_remove s id).2) -> P s -> P (evict_loop exp fuel now s).
Proof.
  intros Hr. revert s. induction fuel as [|fuel IH]; intros s Hs; [done|]. cbn [evict_loop].
  case_if; [|done]. destruct (min_by _ _) as [[id e]|]; [|done]. by apply IH, Hr.
Qed.

Lemma evict_loop_noop fuel now s :
  Z.of_nat (size (m_messages s)) <= m_max_messages s -> evict_loop exp fuel now s = s.
Proof. intros. destruct fuel; cbn [evict_loop]; [done|]. case_if; [|done]. bool_to_prop. lia. Qed.

Lemma evict_loop_bound fuel now s :
  0 <= m_max_messages s -> (size (m_messages s) <= fuel)%nat ->
  Z.of_nat (size (m_messages (evict_loop exp fuel now s))) <= m_max_messages s.
Proof.
  revert s. induction fuel as [|fuel IH]; intros s Hmax Hf; cbn [evict_loop]; [lia|].
  case_if; bool_to_prop; [|lia].
  destruct (min_by _ _) as [[id e]|] eqn:Hm.
  - apply min_by_Some in Hm. apply elem_of_hm_iter in Hm.
    rewrite <-(mesh_remove_max s id). apply IH; [by rewrite mesh_remove_max|].
    rewrite mesh_remove_messages, map_size_delete, Hm. cbn. lia.
  - apply min_by_None in Hm. rewrite <-length_hm_iter, Hm in C. cbn in C. lia.
Qed.

Lemma evict_max fuel now s : m_max_messages (evict_loop exp fuel now s) = m_max_messages s.
Proof.
  apply (evict_loop_ind (fun s' => m_max_messages s' = m_max_messages s)); [|done].
  intros s' id <-. apply mesh_remove_max.
Qed.

Lemma evict_sub fuel now s : m_messages (evict_loop exp fuel now s) ⊆ m_messages s.
Proof.
  apply (evict_loop_ind (fun s' => m_messages s' ⊆ m_messages s)); [|done].
  intros s' id Hs. rewrite mesh_remove_messages. etrans; [apply delete_subseteq|done].
Qed.

Lemma evict_wf now s :
  0 <= m_max_messages s -> map_Forall (fun id e => s_message_id e = id) (m_messages s) ->
  mesh_wf (evict_if_over_budget exp now s).
Proof.
  intros Hmax Hids. split.
  - intros id e He. apply Hids. eapply lookup_weaken; [exact He|apply evict_sub].
  - unfold evict_if_over_budget. rewrite evict_max. by apply evict_loop_bound.
Qed.

Lemma mesh_wf_max s : mesh_wf s -> 0 <= m_max_messages s.
Proof. intros [_ ?]. lia. Qed.

Lemma mesh_remove_wf s id : mesh_wf s -> mesh_wf (mesh_remove s id).2.
Proof.
  intros [Hids Hb]. split.
  - rewrite mesh_remove_messages. by apply map_Forall_delete.
  - rewrite mesh_remove_messages, mesh_remove_max, map_size_delete. destruct (m_messages s !! id); cbn; lia.
Qed.

Lemma mesh_insert_wf now s e : mesh_wf s -> mesh_wf (mesh_insert exp serialize now s e).2.
Proof.
  intros Hw. unfold mesh_insert. destruct (m_messages s !! s_message_id e); [done|]. cbn.
  apply evict_wf; cbn; [by apply mesh_wf_max|]. apply map_Forall_insert_2; [done|apply Hw].
Qed.

Lemma mesh_merge_wf now s o : mesh_wf s -> mesh_wf (mesh_merge exp serialize now s o).
Proof.
  unfold mesh_merge. generalize (hm_iter (m_messages o)). intros l. revert s.
  induction l as [|[id e] l IH]; intros s Hs; cbn [foldl]; [done|]. apply IH.
  destruct (m_messages s !! id); [done|]. by apply mesh_insert_wf.
Qed.

Lemma mesh_insert_max now s e :
  m_max_messages (mesh_insert exp serialize now s e).2 = m_max_messages s.
Proof. unfold mesh_insert. destruct (m_messages s !! _); [done|]. cbn. unfold evict_if_over_budget. by rewrite evict_max. Qed.

Lemma mesh_merge_max now s o : m_max_messages (mesh_merge exp serialize now s o) = m_max_messages s.
Proof.
  unfold mesh_merge. generalize (hm_iter (m_messages o)). intros l. revert s.
  induction l as [|[id e] l IH]; intros s; cbn [foldl]; [done|]. rewrite IH.
  destruct (m_messages s !! id); [done|]. apply mesh_insert_max.
Qed.

Lemma remove_counted_ind (P : MeshStore B -> Prop) ids n s :
  (forall s id, P s -> P (mesh_remove s id).2) -> P s -> P (foldl remove_counted (n, s) ids).2.
Proof.
  intros Hr. revert n s. induction ids as [|id ids IH]; intros n s Hs; cbn [foldl]; [done|].
  unfold remove_counted at 2. pose proof (Hr s id Hs) as H. destruct (mesh_remove s id) as [r s']. by apply IH.
Qed.

Lemma remove_counted_present n s id e :
  m_messages s !! id = Some e -> remove_counted (n, s) id = (n + 1, (mesh_remove s id).2).
Proof. intros He. unfold remove_counted, mesh_remove. by rewrite He. Qed.

(** Ids present and distinct: every removal counts. *)
Lemma remove_counted_exact ids n s :
  NoDup ids -> (forall id, id ∈ ids -> is_Some (m_messages s !! id)) ->
  (foldl remove_counted (n, s) ids).1 = n + zlen ids /\
  m_messages (foldl remove_counted (n, s) ids).2 = foldr delete (m_messages s) ids.
Proof.
  revert n s. induction ids as [|id ids IH]; intros n s Hnd Hin; cbn [foldl].
  { split; [unfold zlen; cbn; lia|done]. }
  apply NoDup_cons in Hnd as [Hni Hnd].
  destruct (Hin id) as [e He]; [by left|].
  rewrite (remove_counted_present n s id e He).
  destruct (IH (n + 1) (mesh_remove s id).2) as [-> ->]; [done| |].
  - intros id' Hid'. rewrite mesh_remove_messages, lookup_delete_ne by (intros ->; done). apply Hin. by right.
  - split; [rewrite zlen_cons; lia|]. cbn [foldr]. by rewrite mesh_remove_messages, delete_foldr_delete.
Qed.

(** *** Inserting and merging *)

Lemma mesh_insert_room now s e :
  m_messages s !! s_message_id e = None ->
  Z.of_nat (size (m_messages s)) < m_max_messages s ->
  m_messages (mesh_insert exp serialize now s e).2 = <[s_message_id e := e]> (m_messages s) /\
  m_max_messages (mesh_insert exp serialize now s e).2 = m_max_messages s.
Proof.
  intros Hn Hr. unfold mesh_insert. rewrite Hn. cbn. unfold evict_if_over_budget.
  rewrite evict_loop_noop; cbn; [done|]. rewrite map_size_insert_None by done. lia.
Qed.

Lemma merge_foldl now l s :
  (forall id e, (id, e) ∈ l -> s_message_id e = id) -> NoDup l.*1 ->
  Z.of_nat (size (m_messages s ∪ list_to_map l)) <= m_max_messages s ->
  m_messages (foldl (fun s '(id, envelope) =>
      match m_messages s !! id with
      | Some _ => s
      | None => (mesh_insert exp serialize now s envelope).2
      end) s l) = m_messages s ∪ list_to_map l.
Proof.
  revert s. induction l as [|[id e] l IH]; intros s Hid Hnd Hsz; cbn [foldl].
  { cbn. by rewrite map_union_empty. }
  cbn in Hnd. apply NoDup_cons in Hnd as [Hni Hnd].
  assert (Hl : (list_to_map l : gmap bytes StoredEnvelope) !! id = None) by (by apply not_elem_of_list_to_map_1).
  assert (forall id e, (id, e) ∈ l -> s_message_id e = id) as Hid' by (intros; apply Hid; by right).
  rewrite list_to_map_cons in Hsz |- *.
  destruct (m_messages s !! id) as [e'|] eqn:He.
  - rewrite IH; [|done..|].
    + symmetry. by eapply union_insert_r_Some.
    + by rewrite (union_insert_r_Some _ _ _ _ _ He) in Hsz.
  - assert (s_message_id e = id) as <- by (apply Hid; by left).
    assert (m_messages s ∪ <[s_message_id e := e]> (list_to_map l) =
            <[s_message_id e := e]> (m_messages s) ∪ list_to_map l) as Hun.
    { by rewrite <-insert_union_r, insert_union_l by done. }
    assert (Z.of_nat (size (m_messages s)) < m_max_messages s) as Hroom.
    { rewrite Hun, <-insert_union_l, map_size_insert_None in Hsz by (by apply lookup_union_None).
      pose proof (map_size_mono (m_messages s) (m_messages s ∪ list_to_map l)) as Hm.
      specialize (Hm ltac:(apply map_union_subseteq_l)). lia. }
    destruct (mesh_insert_room now s e He Hroom) as [Hm Hmax].
    rewrite IH; [by rewrite Hm, Hun|done..|]. by rewrite Hm, Hmax, <-Hun.
Qed.

(** Under capacity, merging is the union of the two sets of messages. *)
Lemma mesh_merge_union now s o :
  mesh_wf o -> Z.of_nat (size (m_messages s ∪ m_messages o)) <= m_max_messages s ->
  m_messages (mesh_merge exp serialize now s o) = m_messages s ∪ m_messages o.
Proof.
  intros [Ho _] Hsz. unfold mesh_merge.
  assert (list_to_map (hm_iter (m_messages o)) = m_messages o) as Hl.
  { rewrite (list_to_map_proper _ (map_to_list (m_messages o))); [apply list_to_map_to_list| |apply hm_iter_perm].
    apply NoDup_hm_keys. }
  rewrite merge_foldl; rewrite ?Hl; try done.
  - intros id e He. apply Ho. by apply elem_of_hm_iter.
  - apply NoDup_hm_keys.
Qed.

End MeshProofs.

(** ** Histories *)

(** The operations that change a store. *)
Inductive mesh_op (B : Type) : Type :=
| OpInsert (now : Z) (e : StoredEnvelope)
| OpMerge (now : Z) (other : MeshStore B)
| OpRemove (id : bytes)
| OpRemoveExpired (now : Z).

Arguments OpInsert {B}.
Arguments OpMerge {B}.
Arguments OpRemove {B}.
Arguments OpRemoveExpired {B}.

(** The fields of an envelope fit their Rust types. *)
Definition stored_wf (e : StoredEnvelope) : Prop :=
  length (s_message_id e) = 16%nat /\ length (s_recipient_hint e) = 4%nat /\
  in_u 32 (s_created_at e) /\ in_u 32 (s_ttl_expiry e) /\ in_u 8 (s_hop_count e) /\
  in_u 8 (s_priority e) /\ in_u 64 (s_received_at e) /\ zlen (s_envelope_data e) <= u64_max.

(** *** The ids of a proof *)

Lemma elem_of_sorted_ids {B : Type} (HI : HashIter bytes StoredEnvelope) (s : MeshStore B) id :
  id ∈ stable_sort bytes_le (message_ids s) <-> id ∈ dom (m_messages s).
Proof.
  rewrite stable_sort_Permutation. unfold message_ids. rewrite hm_iter_perm, elem_of_dom.
  rewrite list_elem_of_fmap. split.
  - intros ([k v] & -> & Hk%elem_of_map_to_list). by exists v.
  - intros [v Hv]. exists (id, v). by rewrite elem_of_map_to_list.
Qed.

Lemma NoDup_sorted_ids {B : Type} (HI : HashIter bytes StoredEnvelope) (s : MeshStore B) :
  NoDup (stable_sort bytes_le (message_ids s)).
Proof. rewrite stable_sort_Permutation. apply NoDup_hm_keys. Qed.

Lemma sorted_ids_16 {B : Type} (HI : HashIter bytes StoredEnvelope) (s : MeshStore B) :
  map_Forall (fun id _ => length id = 16%nat) (m_messages s) ->
  Forall (fun id => length id = 16%nat) (stable_sort bytes_le (message_ids s)).
Proof.
  intros H. apply Forall_forall. intros id [e He]%elem_of_sorted_ids%elem_of_dom. by eapply H.
Qed.

Lemma concat_inj16 (l1 l2 : list bytes) :
  Forall (fun id => length id = 16%nat) l1 -> Forall (fun id => length id = 16%nat) l2 ->
  concat l1 = concat l2 -> l1 = l2.
Proof.
  intros H1. revert l2. induction H1 as [|x l1 Hx H1 IH]; intros l2 H2 Hc.
  - destruct H2 as [|y l2 Hy]; [done|]. cbn in Hc. by destruct y.
  - destruct H2 as [|y l2 Hy H2]; [cbn in Hc; by destruct x|].
    cbn [concat] in Hc. apply app_inj_1 in Hc as [-> Hc]; [|congruence]. f_equal. by apply IH.
Qed.

Section Durable.
Context {B : Type} {SB : StorageBackend B} {LB : LawfulBackend B} {HI : HashIter bytes StoredEnvelope}.
Context (exp : float -> float).
Context (serialize : StoredEnvelope -> res string bytes) (deserialize : bytes -> res string StoredEnvelope).

Definition mesh_step (s : MeshStore B) (op : mesh_op B) : MeshStore B :=
  match op with
  | OpInsert now e => (mesh_insert exp serialize now s e).2
  | OpMerge now other => mesh_merge exp serialize now s other
  | OpRemove id => (mesh_remove s id).2
  | OpRemoveExpired now => (mesh_remove_expired now s).2
  end.

Definition op_wf (op : mesh_op B) : Prop :=
  match op with
  | OpInsert _ e => stored_wf e
  | OpMerge _ other => mesh_wf other /\ map_Forall (fun _ e => stored_wf e) (m_messages other)
  | _ => True
  end.

Lemma mesh_step_wf s op : mesh_wf s -> mesh_wf (mesh_step s op).
Proof.
  intros Hs. destruct op; cbn [mesh_step]; auto using mesh_insert_wf, mesh_merge_wf, mesh_remove_wf.
  unfold mesh_remove_expired. apply (remove_counted_ind mesh_wf); auto using mesh_remove_wf.
Qed.

Lemma mesh_step_max s op : m_max_messages (mesh_step s op) = m_max_messages s.
Proof.
  destruct op; cbn [mesh_step]; [apply mesh_insert_max|apply mesh_merge_max|apply mesh_remove_max|].
  unfold mesh_remove_expired.
  apply (remove_counted_ind (fun s' => m_max_messages s' = m_max_messages s)); [|done].
  intros s' id <-. apply mesh_remove_max.
Qed.

(** [bincode] reads back what it writes. *)
Hypothesis bincode_roundtrip : forall e, stored_wf e -> exists v, serialize e = Ok v /\ deserialize v = Ok e.

Definition encoded (e : StoredEnvelope) : option bytes :=
  match serialize e with Ok v => Some v | _ => None end.

(** The backend holds exactly the messages of the store. *)
Definition coherent (s : MeshStore B) : Prop :=
  exists b, m_backend s = Some b /\
    forall id, be_view b !! drift_key id = m_messages s !! id ≫= encoded.

Definition durable (s : MeshStore B) : Prop :=
  map_Forall (fun id e => s_message_id e = id /\ stored_wf e) (m_messages s) /\ coherent s.

Lemma drift_key_inj id id' : drift_key id = drift_key id' -> id = id'.
Proof. unfold drift_key. by intros ?%app_inv_head. Qed.

Lemma mesh_remove_durable s id : durable s -> durable (mesh_remove s id).2.
Proof.
  intros (Hm & b & Hb & Hv). split.
  { rewrite mesh_remove_messages. by apply map_Forall_delete. }
  unfold mesh_remove. destruct (m_messages s !! id) eqn:He; [|by exists b]. cbn. rewrite Hb.
  destruct (be_remove_law b (drift_key id)) as (b' & -> & Hv'). exists b'. split; [done|].
  intros id'. rewrite Hv'. cbn. destruct (decide (id = id')) as [<-|Hne].
  - by rewrite !lookup_delete_eq.
  - rewrite !lookup_delete_ne; [apply Hv|done|]. by intros ?%drift_key_inj.
Qed.

Lemma evict_durable now s : durable s -> durable (evict_if_over_budget exp now s).
Proof. intros. unfold evict_if_over_budget. apply (evict_loop_ind exp durable); auto using mesh_remove_durable. Qed.

Lemma mesh_insert_durable now s e : stored_wf e -> durable s -> durable (mesh_insert exp serialize now s e).2.
Proof.
  intros He (Hm & b & Hb & Hv). unfold mesh_insert.
  destruct (m_messages s !! s_message_id e) eqn:Hid; [by split; [|exists b]|]. cbn. apply evict_durable.
  rewrite Hb. destruct (bincode_roundtrip e He) as (v & Hs & _). rewrite Hs.
  destruct (be_put_law b (drift_key (s_message_id e)) v) as (b' & -> & Hv').
  split; cbn; [by apply map_Forall_insert_2|]. exists b'. split; [done|]. intros id'. rewrite Hv'. cbn.
  destruct (decide (s_message_id e = id')) as [<-|Hne].
  - rewrite !lookup_insert_eq. cbn. unfold encoded. by rewrite Hs.
  - rewrite !lookup_insert_ne; [apply Hv|done|]. by intros ?%drift_key_inj.
Qed.

Lemma mesh_merge_durable now s o :
  map_Forall (fun _ e => stored_wf e) (m_messages o) -> durable s -> durable (mesh_merge exp serialize now s o).
Proof.
  intros Ho. unfold mesh_merge.
  assert (forall id e, (id, e) ∈ hm_iter (m_messages o) -> stored_wf e) as Hl.
  { intros id e He%elem_of_hm_iter. by eapply Ho. }
  revert Hl. generalize (hm_iter (m_messages o)). intros l. revert s.
  induction l as [|[id e] l IH]; intros s Hl Hs; cbn [foldl]; [done|].
  apply IH; [intros ? ? ?; eapply Hl; by right|].
  destruct (m_messages s !! id); [done|]. apply mesh_insert_durable; [eapply Hl; by left|done].
Qed.

Lemma mesh_step_durable s op : op_wf op -> durable s -> durable (mesh_step s op).
Proof.
  intros Hop Hs. destruct op; cbn [mesh_step op_wf] in *.
  - by apply mesh_insert_durable.
  - by apply mesh_merge_durable; [apply Hop|].
  - by apply mesh_remove_durable.
  - unfold mesh_remove_expired. apply (remove_counted_ind durable); auto using mesh_remove_durable.
Qed.

(** Loading entries that all come from [M] fills the map with parts of [M]. *)
Lemma load_foldl (M : gmap bytes StoredEnvelope) l m n f :
  m ⊆ M ->
  (forall kv, kv ∈ l -> exists e, deserialize kv.2 = Ok e /\ M !! s_message_id e = Some e) ->
  let r := foldl (load_entry deserialize) (m, n, f) l in
  m ⊆ r.1.1 /\ r.1.1 ⊆ M /\
  forall kv e, kv ∈ l -> deserialize kv.2 = Ok e -> is_Some (r.1.1 !! s_message_id e).
Proof.
  revert m n f. induction l as [|kv l IH]; intros m n f Hm Hl; cbn [foldl].
  { split_and!; [done|done|]. by intros kv e ?%elem_of_nil. }
  destruct (Hl kv) as (e & He & HM); [by left|].
  assert (forall kv, kv ∈ l -> exists e, deserialize kv.2 = Ok e /\ M !! s_message_id e = Some e) as Hl'
    by (intros; apply Hl; by right).
  assert (exists m' n', load_entry deserialize (m, n, f) kv = (m', n', f) /\
     m ⊆ m' /\ m' ⊆ M /\ is_Some (m' !! s_message_id e)) as (m' & n' & -> & Hmm & HmM & Hin).
  { unfold load_entry. rewrite He. destruct (m !! s_message_id e) eqn:Hme; eexists _, _; split_and!; eauto.
    - by apply insert_subseteq.
    - by apply insert_subseteq_l.
    - rewrite lookup_insert_eq. eauto. }
  destruct (IH m' n' f HmM Hl') as (H1 & H2 & H3). split_and!; [by etrans|done|].
  intros kv' e' [->|Hkv]%elem_of_cons He'.
  - rewrite He in He'. injection He' as <-. destruct Hin as [x Hx]. exists x. by eapply lookup_weaken.
  - by eapply H3.
Qed.

(** Reopening the backend of a durable store finds every message again. *)
Lemma mesh_persistent_recovers now s b :
  durable s -> m_backend s = Some b -> Z.of_nat (size (m_messages s)) <= MAX_MESSAGES ->
  m_messages (mesh_persistent exp deserialize now b) = m_messages s /\
  m_backend (mesh_persistent exp deserialize now b) = Some b.
Proof.
  intros (Hm & b' & Hb' & Hv) Hb Hsz. rewrite Hb in Hb'. injection Hb' as <-.
  unfold mesh_persistent, mesh_load.
  destruct (be_scan_law b (str_bytes "drift:")) as (l & Hl & _). rewrite Hl. cbn [rbind m_messages].
  assert (forall kv, kv ∈ l -> exists e, deserialize kv.2 = Ok e /\ m_messages s !! s_message_id e = Some e) as Hent.
  { intros [k v] [Hk Hkv]%(elem_of_scan _ _ _ _ _ Hl). apply starts_with_spec in Hk as [id ->].
    change (str_bytes "drift:" ++ id) with (drift_key id) in Hkv. rewrite Hv in Hkv.
    destruct (m_messages s !! id) as [e|] eqn:He; [|done]. cbn in Hkv.
    destruct (Hm id e He) as [Hid Hwf]. destruct (bincode_roundtrip e Hwf) as (v' & Hs & Hd).
    unfold encoded in Hkv. rewrite Hs in Hkv. injection Hkv as <-. exists e. by rewrite Hid. }
  destruct (load_foldl (m_messages s) l ∅ 0 0) as (_ & Hsub & Hall);
    [apply map_empty_subseteq|done|].
  destruct (foldl _ _ l) as [[m n] f]. cbn in Hsub, Hall.
  assert (m = m_messages s) as ->.
  { apply (anti_symm (⊆)); [done|]. apply map_subseteq_spec. intros id e He.
    destruct (Hm id e He) as [Hid Hwf]. destruct (bincode_roundtrip e Hwf) as (v & Hs & Hd).
    assert ((drift_key id, v) ∈ l) as Hin.
    { apply (elem_of_scan _ _ _ _ _ Hl). split; [apply starts_with_app|]. rewrite Hv, He. cbn.
      unfold encoded. by rewrite Hs. }
    destruct (Hall _ e Hin Hd) as [e' He']. rewrite Hid in He'.
    rewrite (lookup_weaken _ _ _ _ He' Hsub) in He. congruence. }
  cbn. unfold evict_if_over_budget. by rewrite evict_loop_noop.
Qed.

End Durable.

(** ** Properties *)

Section MeshProperties.
Context {B : Type} {SB : StorageBackend B} {HI : HashIter bytes StoredEnvelope}.
Context (exp : float -> float) (serialize : StoredEnvelope -> res string bytes).

(** C7: whatever is inserted, merged, removed or expired, the store keeps every message under its
    own id and never holds more than its capacity; an insert reports [true] exactly for an id it did
    not have, a duplicate changes nothing, and a new message that fits is added to the rest. *)
Theorem mesh_store_invariant (s : MeshStore B) (ops : list (mesh_op B)) now e :
  mesh_wf s ->
  let s' := foldl (mesh_step exp serialize) s ops in
  mesh_wf s' /\
  ((mesh_insert exp serialize now s' e).1 = true <-> m_messages s' !! s_message_id e = None) /\
  (is_Some (m_messages s' !! s_message_id e) -> (mesh_insert exp serialize now s' e).2 = s') /\
  (m_messages s' !! s_message_id e = None -> Z.of_nat (size (m_messages s')) < m_max_messages s' ->
   m_messages (mesh_insert exp serialize now s' e).2 = <[s_message_id e := e]> (m_messages s')).
Proof.
  intros Hs s'. assert (mesh_wf s') as Hs'.
  { unfold s'. clear s'. revert s Hs. induction ops as [|op ops IH]; intros s Hs; [done|]. apply IH.
    by apply mesh_step_wf. }
  split_and!.
  - done.
  - unfold mesh_insert. by destruct (m_messages s' !! s_message_id e).
  - intros [e' He]. unfold mesh_insert. by rewrite He.
  - intros He Hroom. by apply mesh_insert_room.
Qed.

(** C8: below capacity, merging is set union: the order of two merges does not matter, merging
    twice changes nothing, and merging is associative, whatever order the maps are visited in. *)
Theorem mesh_merge_crdt now (a b c : MeshStore B) :
  mesh_wf a -> mesh_wf b -> mesh_wf c ->
  m_max_messages a = m_max_messages b -> m_max_messages b = m_max_messages c ->
  Z.of_nat (size (m_messages a ∪ m_messages b ∪ m_messages c)) <= m_max_messages a ->
  agree (m_messages a) (m_messages b) ->
  let merge := mesh_merge exp serialize now in
  m_messages (merge a b) = m_messages a ∪ m_messages b /\
  m_messages (merge a b) = m_messages (merge b a) /\
  m_messages (merge a a) = m_messages a /\
  m_messages (merge (merge a b) c) = m_messages (merge a (merge b c)).
Proof.
  intros Ha Hb Hc Hab Hbc Hsz Hag merge.
  pose proof (map_size_dom (m_messages a ∪ m_messages b) (m_messages a ∪ m_messages b ∪ m_messages c) ltac:(set_solver)).
  pose proof (map_size_dom (m_messages b ∪ m_messages c) (m_messages a ∪ m_messages b ∪ m_messages c) ltac:(set_solver)).
  assert (m_messages (merge a b) = m_messages a ∪ m_messages b) as Mab by (apply mesh_merge_union; [done|lia]).
  assert (m_messages (merge b c) = m_messages b ∪ m_messages c) as Mbc by (apply mesh_merge_union; [done|lia]).
  split_and!.
  - done.
  - rewrite Mab, union_comm_agree by done. symmetry. apply mesh_merge_union; [done|].
    rewrite <-union_comm_agree by done. lia.
  - unfold merge. rewrite mesh_merge_union by (rewrite ?(idemp_L (∪)); apply Ha || done). apply (idemp_L (∪)).
  - unfold merge at 1 3. rewrite !mesh_merge_union.
    + by rewrite Mab, Mbc, (assoc_L (∪)).
    + by apply mesh_merge_wf.
    + by rewrite Mbc, (assoc_L (∪)).
    + done.
    + rewrite Mab. unfold merge. by rewrite mesh_merge_max.
Qed.

(** Expiry removes exactly the messages whose expiry time is set and has been reached, and
    returns their number. *)
Theorem mesh_remove_expired_exact now (s : MeshStore B) :
  let live := filter (fun kv => ~ (s_ttl_expiry kv.2 <> 0 /\ s_ttl_expiry kv.2 <= cast_u 32 now)) (m_messages s) in
  m_messages (mesh_remove_expired now s).2 = live /\
  (mesh_remove_expired now s).1 = Z.of_nat (size (m_messages s)) - Z.of_nat (size live).
Proof.
  intros live. unfold mesh_remove_expired.
  set (ids := expired_ids (cast_u 32 now) s).
  assert (forall id, id ∈ ids <-> exists e, m_messages s !! id = Some e /\ s_ttl_expiry e <> 0 /\ s_ttl_expiry e <= cast_u 32 now) as Hids.
  { intros id. unfold ids, expired_ids. rewrite list_elem_of_fmap. split.
    - intros ([id' e] & -> & [He Hin]%list_elem_of_filter). exists e. by apply elem_of_hm_iter in Hin.
    - intros (e & He & Hx). exists (id, e). split; [done|]. apply list_elem_of_filter. by rewrite elem_of_hm_iter. }
  assert (NoDup ids) as Hnd.
  { unfold ids, expired_ids. apply NoDup_fmap_fst_filter. apply NoDup_hm_keys. }
  destruct (remove_counted_exact ids 0 s Hnd) as [-> ->].
  { intros id (e & He & _)%Hids. eauto. }
  assert (foldr delete (m_messages s) ids = live) as Hlive.
  { apply map_eq. intros id. unfold live. rewrite map_lookup_filter.
    destruct (decide (id ∈ ids)) as [Hin|Hni].
    - rewrite lookup_foldr_delete by done. apply Hids in Hin as (e & -> & Hx). cbn. by rewrite option_guard_False by tauto.
    - rewrite lookup_foldr_delete_not_elem_of by done. destruct (m_messages s !! id) as [e|] eqn:He; [|done]. cbn.
      rewrite option_guard_True; [done|]. intros Hx. apply Hni, Hids. eauto. }
  split; [done|]. rewrite <-Hlive, size_foldr_delete; [unfold zlen; lia|done|].
  intros id (e & He & _)%Hids. eauto.
Qed.

End MeshProperties.

Section Recovery.
Context {B : Type} {SB : StorageBackend B} {LB : LawfulBackend B} {HI : HashIter bytes StoredEnvelope}.
Context (exp : float -> float).
Context (serialize : StoredEnvelope -> res string bytes) (deserialize : bytes -> res string StoredEnvelope).
Hypothesis bincode_roundtrip : forall e, stored_wf e -> exists v, serialize e = Ok v /\ deserialize v = Ok e.

(** The write-through is complete: after any history of well-formed operations on a store that
    was in step with its backend, opening the backend again ([MeshStore::persistent]) gives exactly
    the messages the store held. *)
Theorem mesh_recovery now (s : MeshStore B) ops :
  durable serialize s -> mesh_wf s -> m_max_messages s = MAX_MESSAGES -> Forall op_wf ops ->
  let s' := foldl (mesh_step exp serialize) s ops in
  exists b, m_backend s' = Some b /\
    m_messages (mesh_persistent exp deserialize now b) = m_messages s' /\
    m_backend (mesh_persistent exp deserialize now b) = Some b.
Proof.
  intros Hd Hw Hmax Hops s'.
  assert (durable serialize s' /\ mesh_wf s' /\ m_max_messages s' = MAX_MESSAGES) as (Hd' & Hw' & Hmax').
  { unfold s'. clear s'. revert s Hd Hw Hmax. induction Hops as [|op ops Hop _ IH]; intros s Hd Hw Hmax; [done|].
    apply IH; [by eapply mesh_step_durable|by apply mesh_step_wf|by rewrite mesh_step_max]. }
  destruct Hd' as [Hm (b & Hb & Hv)]. exists b. split; [done|].
  eapply mesh_persistent_recovers; [done|split; [done|by exists b]|done|]. rewrite <-Hmax'. apply Hw'.
Qed.

End Recovery.

Section Proofs.
Context {B : Type} (HI1 HI2 : HashIter bytes StoredEnvelope).

(** The hashed input of [generate_proof] is the same for two stores of 16-byte ids exactly when
    they hold the same set of ids, whatever order each node visits its map in: equal sets give equal
    proofs, and different sets differ in the input of the hash. *)
Theorem mesh_proof_set (s1 s2 : MeshStore B) :
  map_Forall (fun id _ => length id = 16%nat) (m_messages s1) ->
  map_Forall (fun id _ => length id = 16%nat) (m_messages s2) ->
  @proof_input B HI1 s1 = @proof_input B HI2 s2 <-> dom (m_messages s1) = dom (m_messages s2).
Proof.
  intros H1 H2. unfold proof_input. split.
  - intros Hc. apply concat_inj16 in Hc; [|by apply sorted_ids_16..].
    apply set_eq. intros id. rewrite <-(elem_of_sorted_ids HI1), <-(elem_of_sorted_ids HI2). by rewrite Hc.
  - intros Hd. f_equal. apply (Sorted_unique bytes_le).
    + apply Sorted_stable_sort, _.
    + apply Sorted_stable_sort, _.
    + apply NoDup_Permutation; [apply NoDup_sorted_ids..|]. intros id. by rewrite !elem_of_sorted_ids, Hd.
Qed.

End Proofs.

(** ** Concrete inputs *)

(** The layout [bincode] gives the struct: lengths and integers in little-endian order. *)
Definition bincode_stored (e : StoredEnvelope) : res string bytes :=
  Ok (s_message_id e ++ s_recipient_hint e ++ le_split 4 (s_created_at e) ++ le_split 4 (s_ttl_expiry e) ++
      le_split 1 (s_hop_count e) ++ le_split 1 (s_priority e) ++ le_split 8 (s_received_at e) ++ s_envelope_data e).

Definition unbincode_stored (b : bytes) : res string StoredEnvelope :=
  Ok (mkStored (drop 38 b) (take 16 b) (take 4 (drop 16 b)) (le_combine (take 4 (drop 20 b)))
        (le_combine (take 4 (drop 24 b))) (le_combine (take 1 (drop 28 b))) (le_combine (take 1 (drop 29 b)))
        (le_combine (take 8 (drop 30 b)))).

Lemma take_app_eq {A} (n : nat) (l k : list A) : length l = n -> take n (l ++ k) = l.
Proof. intros <-. apply take_app_length. Qed.

Lemma drop_app_eq {A} (n m : nat) (l k : list A) : length l = n -> drop (n + m) (l ++ k) = drop m k.
Proof. intros <-. rewrite <-drop_drop, drop_app_length. done. Qed.

Lemma bincode_stored_roundtrip e :
  stored_wf e -> exists v, bincode_stored e = Ok v /\ unbincode_stored v = Ok e.
Proof.
  intros (Hid & Hh & Hc & Ht & Hhop & Hp & Hr & _). eexists. split; [done|]. unfold unbincode_stored.
  f_equal. destruct e as [data id hint ca ttl hop prio rcv]. cbn [s_envelope_data s_message_id s_recipient_hint
    s_created_at s_ttl_expiry s_hop_count s_priority s_received_at] in *.
  rewrite take_app_eq by done.
  rewrite (drop_app_eq 16 22), (drop_app_eq 16 0), (drop_app_eq 16 4), (drop_app_eq 16 8), (drop_app_eq 16 12),
    (drop_app_eq 16 13), (drop_app_eq 16 14) by done. rewrite drop_0, take_app_eq by done.
  rewrite (drop_app_eq 4 18), (drop_app_eq 4 0), (drop_app_eq 4 4), (drop_app_eq 4 8), (drop_app_eq 4 9),
    (drop_app_eq 4 10) by done. rewrite drop_0, take_app_eq by apply length_le_split.
  rewrite (drop_app_eq 4 14), (drop_app_eq 4 0), (drop_app_eq 4 4), (drop_app_eq 4 5), (drop_app_eq 4 6)
    by apply length_le_split. rewrite drop_0, take_app_eq by apply length_le_split.
  rewrite (drop_app_eq 4 10), (drop_app_eq 4 0), (drop_app_eq 4 1), (drop_app_eq 4 2)
    by apply length_le_split. rewrite drop_0, take_app_eq by apply length_le_split.
  rewrite (drop_app_eq 1 9), (drop_app_eq 1 0), (drop_app_eq 1 1) by apply length_le_split.
  rewrite drop_0, take_app_eq by apply length_le_split.
  rewrite (drop_app_eq 1 8), (drop_app_eq 1 0) by apply length_le_split.
  rewrite drop_0, take_app_eq by apply length_le_split.
  rewrite (drop_app_eq 8 0) by apply length_le_split. rewrite drop_0.
  by rewrite !le_combine_le_split.
Qed.

#[local] Existing Instance canonical_iter.

Definition stored_sample (n ttl : Z) : StoredEnvelope :=
  mkStored [byte.of_Z n] (replicate 16 (byte.of_Z n)) (replicate 4 Byte.x00) 1000 ttl 0 100 1000.

Definition sample_store (max : Z) (l : list (Z * Z)) : MeshStore MemoryStorage :=
  foldl (fun s '(n, ttl) => (mesh_insert (fun x => x) bincode_stored 2000 s (stored_sample n ttl)).2)
    (mesh_with_capacity max) l.

#[export] Instance stored_wf_dec e : Decision (stored_wf e).
Proof. unfold stored_wf, in_u. apply _. Defined.

Lemma mesh_store_invariant_witness :
  let s' := foldl (mesh_step (fun x => x) bincode_stored) (sample_store 2 [])
              [OpInsert 2000 (stored_sample 1 0); OpMerge 2000 (sample_store 2 [(2, 0); (3, 0)])] in
  size (m_messages s') = 2%nat /\ mesh_wf s'.
Proof.
  cbv zeta. split; [vm_compute; reflexivity|].
  apply (mesh_store_invariant (fun x => x) bincode_stored (sample_store 2 [])
           [OpInsert 2000 (stored_sample 1 0); OpMerge 2000 (sample_store 2 [(2, 0); (3, 0)])] 0 (stored_sample 1 0)).
  split; [by_computation|by vm_compute].
Defined.

Lemma mesh_merge_crdt_witness :
  let a := sample_store 10 [(1, 0); (2, 0)] in
  let b := sample_store 10 [(2, 0); (3, 0)] in
  let c := sample_store 10 [(4, 0)] in
  let merge := mesh_merge (fun x => x) bincode_stored 2000 in
  m_messages (merge (merge a b) c) = m_messages (merge a (merge b c)) /\
  size (m_messages (merge (merge a b) c)) = 4%nat.
Proof.
  cbv zeta. split; [|vm_compute; reflexivity].
  apply (mesh_merge_crdt (fun x => x) bincode_stored 2000 (sample_store 10 [(1, 0); (2, 0)])
           (sample_store 10 [(2, 0); (3, 0)]) (sample_store 10 [(4, 0)]));
    try (split; [by_computation|by vm_compute]); try (vm_compute; done).
  intros id e1 e2 H1%elem_of_map_to_list H2%elem_of_map_to_list. revert H1 H2. vm_compute.
  intros H1 H2. repeat (apply elem_of_cons in H1 as [H1|H1]); repeat (apply elem_of_cons in H2 as [H2|H2]);
    try (by apply elem_of_nil in H1); try (by apply elem_of_nil in H2); congruence.
Defined.

Lemma mesh_recovery_witness :
  let ops := [OpInsert 2000 (stored_sample 1 0); OpInsert 2000 (stored_sample 2 1500); OpRemoveExpired 2000] in
  let s' := foldl (mesh_step (fun x => x) bincode_stored) (mkMesh ∅ MAX_MESSAGES (Some memory_new)) ops in
  size (m_messages s') = 1%nat /\
  exists b, m_backend s' = Some b /\
    m_messages (mesh_persistent (fun x => x) unbincode_stored 3000 b) = m_messages s' /\
    m_backend (mesh_persistent (fun x => x) unbincode_stored 3000 b) = Some b.
Proof.
  cbv zeta. split; [vm_compute; reflexivity|].
  apply (mesh_recovery (fun x => x) bincode_stored unbincode_stored bincode_stored_roundtrip).
  - split; [apply map_Forall_empty|]. exists memory_new. split; [done|]. intros id. reflexivity.
  - split; [apply map_Forall_empty|by vm_compute].
  - done.
  - repeat (apply Forall_cons_2; [by vm_compute|]). apply Forall_nil_2.
Defined.

(** Another order of iteration. *)
Definition reverse_iter : HashIter bytes StoredEnvelope :=
  {| hm_iter m := reverse (map_to_list m); hm_iter_perm m := reverse_Permutation _ |}.

Lemma mesh_proof_set_witness :
  let s := sample_store 10 [(1, 0); (2, 0)] in
  @proof_input _ canonical_iter s = @proof_input _ reverse_iter s /\ proof_input s <> [].
Proof.
  cbv zeta. split; [|by vm_compute].
  apply (mesh_proof_set canonical_iter reverse_iter (sample_store 10 [(1, 0); (2, 0)]) (sample_store 10 [(1, 0); (2, 0)]));
    [by_computation|by_computation|done].
Defined.
