(* ===== verification/Sync.v ===== *)
(** * The synchronization protocol ([core/src/drift/sync.rs])

    A session of two nodes that meet: the initiator offers the sketch of its
    message ids, the responder answers with its own sketch and the envelopes
    the initiator lacks, and the initiator completes with the envelopes the
    responder lacks.  [bincode], [blake3] and [hex] are parameters, the clock
    is the argument [now] (seconds). *)

From stdpp Require Import pretty.
From Corelib Require Import PrimFloat.
From S2P Require Import Prelude Frame Sketch Backend MeshStore.

#[local] Open Scope Z_scope.

(** ** Data *)

Definition SYNC_SCHEMA_VERSION : Z := 1.

Inductive SyncMessage : Type :=
| SyncOffer (iblt_data : bytes) (message_count sketch_capacity : Z) (peer_proof : string) (timestamp : Z)
| SyncResponse (iblt_data : bytes) (message_count : Z) (missing_envelopes : list bytes)
| SyncComplete (missing_envelopes : list bytes).

Record VersionedSyncMessage : Type := mkVersioned {
  v_schema_version : Z;
  v_payload : SyncMessage;
}.

Inductive SyncState : Type := Ready | AwaitingResponse | ProcessingResponse | Complete | Failed.

#[global] Instance SyncState_eq_dec : EqDecision SyncState.
Proof. solve_decision. Defined.

Record SyncSession : Type := mkSession {
  ss_state : SyncState;
  ss_our_iblt : option IBLT;
  ss_peer_iblt : option IBLT;
  ss_peer_missing : list MessageId;
  ss_our_missing : list MessageId;
  ss_peer_message_count : Z;
}.

Definition session_new : SyncSession := mkSession Ready None None [] [] 0.

(** ** Versioned messages *)

Definition versioned_new (payload : SyncMessage) : VersionedSyncMessage :=
  mkVersioned SYNC_SCHEMA_VERSION payload.

(** The display of [MeshError::VersionMismatch]. *)
Definition version_mismatch (expected received : Z) : string :=
  String.append "sync protocol version mismatch: got "
    (String.append (pretty received) (String.append ", expected " (pretty expected))).

Definition versioned_validate (m : VersionedSyncMessage) : res string unit :=
  if negb (v_schema_version m =? SYNC_SCHEMA_VERSION)
  then Err (version_mismatch SYNC_SCHEMA_VERSION (v_schema_version m))
  else Ok tt.

Section Versioned.
Context (serialize : VersionedSyncMessage -> res string bytes)
        (deserialize : bytes -> res string VersionedSyncMessage).

Definition versioned_to_bytes (m : VersionedSyncMessage) : res DriftError bytes :=
  map_err DecompressionFailed (serialize m).

Definition versioned_from_bytes (data : bytes) : res DriftError VersionedSyncMessage :=
  let! msg := map_err DecompressionFailed (deserialize data) in
  let! _ := map_err DecompressionFailed (versioned_validate msg) in
  Ok msg.

End Versioned.

Definition sync_frame_type (m : SyncMessage) : FrameType :=
  match m with
  | SyncOffer _ _ _ _ _ => FT_SyncReq
  | SyncResponse _ _ _ => FT_SyncResp
  | SyncComplete _ => FT_SyncResp
  end.

(** ** Sessions

    Every operation returns its result and the session it leaves: a failure
    half way keeps the fields that were already assigned. *)

Section Session.
Context {BM : Build} {B : Type} {SB : StorageBackend B} {HI : HashIter bytes StoredEnvelope}.
Context (blake3 : bytes -> bytes) (hex : bytes -> string) (exp : float -> float).
Context (serialize : StoredEnvelope -> res string bytes) (deserialize : bytes -> res string StoredEnvelope).

(** [for msg_id in store.message_ids() { iblt.insert(&msg_id); }]. *)
Definition insert_ids (t : IBLT) (store : MeshStore B) : res DriftError IBLT :=
  rfold (iblt_insert blake3) t (message_ids store).

Definition initiate (now : Z) (self : SyncSession) (store : MeshStore B)
  : res DriftError SyncMessage * SyncSession :=
  if bool_decide (ss_state self <> Ready)
  then (Err (DecompressionFailed "SyncSession already initiated"), self)
  else
    let message_count := cast_u 32 (mesh_len store) in
    let iblt_capacity := Z.max (message_count * 4 + 8) 1 in
    match (let! iblt := insert_ids (iblt_new iblt_capacity) store in
           let! iblt_data := iblt_to_bytes iblt in
           Ok (iblt, iblt_data)) with
    | Ok (iblt, iblt_data) =>
        (Ok (SyncOffer iblt_data message_count (cast_u 32 (iblt_cell_count iblt))
               (generate_proof blake3 hex store) now),
         { self with ss_our_iblt := Some iblt; ss_state := AwaitingResponse })
    | Err e => (Err e, self)
    | Panic => (Panic, self)
    end.

(** [store.get(id).and_then(|env| bincode::serialize(env).ok())] over the ids. *)
Definition gather (store : MeshStore B) (ids : list MessageId) : list bytes :=
  omap (fun id => env ← mesh_get store id;
                  match serialize env with Ok v => Some v | _ => None end) ids.

Definition respond (self : SyncSession) (store : MeshStore B) (offer : SyncMessage)
  : res DriftError (SyncMessage * list StoredEnvelope) * SyncSession :=
  if bool_decide (ss_state self <> Ready)
  then (Err (DecompressionFailed "SyncSession in wrong state for respond"), self)
  else
    match offer with
    | SyncOffer iblt_data peer_msg_count _ _ _ =>
        match iblt_from_bytes iblt_data with
        | Err e => (Err e, self)
        | Panic => (Panic, self)
        | Ok peer_iblt =>
            let self := { self with ss_peer_iblt := Some peer_iblt; ss_peer_message_count := peer_msg_count } in
            match (let! our_iblt := insert_ids (iblt_with_cells (iblt_cell_count peer_iblt)) store in
                   let! diff := iblt_subtract our_iblt peer_iblt in
                   let! '(they_have_not, they_have_we_dont) := iblt_decode blake3 diff in
                   Ok (our_iblt, they_have_not, they_have_we_dont)) with
            | Err e => (Err e, self)
            | Panic => (Panic, self)
            | Ok (our_iblt, they_have_not, they_have_we_dont) =>
                let self := { self with ss_peer_missing := they_have_not; ss_our_missing := they_have_we_dont } in
                match iblt_to_bytes our_iblt with
                | Err e => (Err e, self)
                | Panic => (Panic, self)
                | Ok our_iblt_data =>
                    let self := { self with ss_our_iblt := Some our_iblt; ss_state := ProcessingResponse } in
                    (Ok (SyncResponse our_iblt_data (cast_u 32 (mesh_len store)) (gather store they_have_not),
                         omap (mesh_get store) (ss_our_missing self)), self)
                end
            end
        end
    | _ => (Err (DecompressionFailed "Expected SyncOffer message"), self)
    end.

(** The envelopes of a response that deserialize. *)
Definition parse_envelopes (missing : list bytes) : list StoredEnvelope :=
  omap (fun b => match deserialize b with Ok e => Some e | _ => None end) missing.

Definition complete (self : SyncSession) (store : MeshStore B) (response : SyncMessage)
  : res DriftError (SyncMessage * list StoredEnvelope) * SyncSession :=
  if bool_decide (ss_state self <> AwaitingResponse)
  then (Err (DecompressionFailed "SyncSession not awaiting response"), self)
  else
    match response with
    | SyncResponse iblt_data _ missing_envelopes =>
        match (let! peer_iblt := iblt_from_bytes iblt_data in
               let! our_iblt := match ss_our_iblt self with
                                | Some t => Ok t
                                | None => Err (DecompressionFailed "No local IBLT stored")
                                end in
               let! diff := iblt_subtract our_iblt peer_iblt in
               iblt_decode blake3 diff) with
        | Err e => (Err e, self)
        | Panic => (Panic, self)
        | Ok (we_have_only, they_have_only) =>
            (Ok (SyncComplete (gather store we_have_only), parse_envelopes missing_envelopes),
             { self with ss_peer_missing := we_have_only; ss_our_missing := they_have_only;
                         ss_state := Complete })
        end
    | _ => (Err (DecompressionFailed "Expected SyncResponse message"), self)
    end.

Definition merge_envelopes (now : Z) (store : MeshStore B) (envelopes : list StoredEnvelope)
  : Z * MeshStore B :=
  foldl (fun '(count, s) e =>
      let '(is_new, s') := mesh_insert exp serialize now s e in
      (if is_new : bool then count + 1 else count, s'))
    (0, store) envelopes.

End Session.

(** ** Tables of stores *)

Section Tables.
Context {BM : Build} {B : Type}.
Context (blake3 : bytes -> bytes).
Hypothesis blake3_len : forall x, length (blake3 x) = 32%nat.

Implicit Types s : MeshStore B.

(** The ids one store has and the other lacks. *)
Definition only_in {HI : HashIter bytes StoredEnvelope} (s1 s2 : MeshStore B) : list MessageId :=
  filter (fun id => ~ is_Some (m_messages s2 !! id)) (message_ids s1).

Definition shared {HI : HashIter bytes StoredEnvelope} (s1 s2 : MeshStore B) : list MessageId :=
  filter (fun id => is_Some (m_messages s2 !! id)) (message_ids s1).

(** Ids of 16 bytes, filed under themselves, with envelopes in range. *)
Definition store_ok s : Prop :=
  mesh_wf s /\ map_Forall (fun _ e => stored_wf e) (m_messages s).

Lemma elem_of_message_ids (HI : HashIter bytes StoredEnvelope) s id :
  id ∈ message_ids s <-> is_Some (m_messages s !! id).
Proof.
  unfold message_ids. rewrite list_elem_of_fmap. split.
  - intros ([k v] & -> & Hk%elem_of_hm_iter). by exists v.
  - intros [v Hv]. exists (id, v). by rewrite elem_of_hm_iter.
Qed.

Lemma store_ids_ok (HI : HashIter bytes StoredEnvelope) s : store_ok s -> ids_ok (message_ids s).
Proof.
  intros [[Hid _] Hwf]. apply Forall_forall. intros id [e He]%elem_of_message_ids.
  rewrite <-(Hid id e He). by apply (Hwf id e He).
Qed.

Lemma zlen_message_ids (HI : HashIter bytes StoredEnvelope) s : zlen (message_ids s) = mesh_len s.
Proof. unfold message_ids, zlen, mesh_len. by rewrite length_fmap, length_hm_iter. Qed.

Lemma message_ids_split (HI : HashIter bytes StoredEnvelope) s1 s2 :
  message_ids s1 ≡ₚ shared s1 s2 ++ only_in s1 s2.
Proof.
  symmetry. unfold shared, only_in. induction (message_ids s1) as [|id l IH]; [done|].
  rewrite !filter_cons. destruct (decide (is_Some (m_messages s2 !! id))) as [Hs|Hs].
  - rewrite decide_False by tauto. cbn. by apply Permutation_skip.
  - rewrite decide_True by done. rewrite <-Permutation_middle. by apply Permutation_skip.
Qed.

Lemma shared_comm (HI1 HI2 : HashIter bytes StoredEnvelope) s1 s2 :
  @shared HI1 s1 s2 ≡ₚ @shared HI2 s2 s1.
Proof.
  apply NoDup_Permutation; [apply NoDup_filter, NoDup_hm_keys..|]. intros id.
  unfold shared. rewrite !list_elem_of_filter, !elem_of_message_ids. tauto.
Qed.

Lemma insert_ids_table (HI : HashIter bytes StoredEnvelope) n s :
  (0 < n)%nat -> store_ok s -> mesh_len s < 2 ^ 28 ->
  insert_ids blake3 (sketch n []) s = Ok (id_table blake3 n (message_ids s)).
Proof.
  intros Hn Hs Hlen. unfold insert_ids. rewrite iblt_insert_all.
  - by rewrite app_nil_r.
  - done.
  - done.
  - by apply store_ids_ok.
  - constructor.
  - rewrite zlen_message_ids. autorewrite with zlen. lia.
Qed.

Lemma with_cells_sketch n : (0 < n)%nat -> iblt_with_cells (Z.of_nat n) = sketch n [].
Proof.
  intros Hn. unfold iblt_with_cells, sketch. rewrite Z.max_l by lia. f_equal.
  rewrite Nat2Z.id. symmetry. apply (replicate_as_fmap_seq cell_new).
Qed.

(** No count of the table of a store exceeds a byte. *)
Definition counts_fit {HI : HashIter bytes StoredEnvelope} (n : nat) s : Prop :=
  Forall (fun c => c_count c <= 255) (t_cells (id_table blake3 n (message_ids s))).

Lemma cell_of_pos_count i (T : list touch) :
  Forall (fun t => t.2.1 = 1) T -> 0 <= c_count (cell_of i T).
Proof.
  intros HT. rewrite (cell_count_hits i T 1); [pose proof (zlen_nonneg (hits i T)); lia|].
  intros t Ht _. by eapply Forall_forall in HT.
Qed.

Lemma id_table_pos n A i : 0 <= c_count (cell_of i (touches_of blake3 n (pair 1 <$> A))).
Proof.
  apply cell_of_pos_count. apply Forall_forall. intros t [Ht _]%elem_of_touches_of.
  by apply list_elem_of_fmap in Ht as (k & -> & _).
Qed.

Lemma key_check_range k : length k = 16%nat -> in_u 32 (key_check_of k).
Proof.
  intros Hk. unfold key_check_of. pose proof (le_combine_bound (take 4 k)) as Hb.
  rewrite length_take, Hk in Hb. done.
Qed.

(** Tables of stores survive the wire. *)
Lemma id_table_wire (HI : HashIter bytes StoredEnvelope) n s :
  store_ok s -> counts_fit n s -> Z.of_nat n <= u16_max ->
  exists bs, iblt_to_bytes (id_table blake3 n (message_ids s)) = Ok bs /\
             iblt_from_bytes bs = Ok (id_table blake3 n (message_ids s)).
Proof.
  intros Hs Hc Hn. destruct (iblt_wire_image (id_table blake3 n (message_ids s))) as (bs & H1 & _ & H2).
  - split; cbn [t_cells t_num_cells id_table sketch]; [unfold zlen; by rewrite length_table|].
    apply Forall_fmap, Forall_true. intros i.
    destruct (cell_of_wf i (touches_of blake3 n (pair 1 <$> message_ids s))) as [Hl Hk].
    { apply touches_of_wf, items_wf; [by left|by apply store_ids_ok]. }
    split; [done|]. rewrite Hk. by apply key_check_range.
  - done.
  - exists bs. split; [done|]. rewrite H2. f_equal. apply wire_image_id.
    apply Forall_forall. intros c Hin. split; [|by eapply Forall_forall in Hc].
    apply list_elem_of_fmap in Hin as (i & -> & _). apply id_table_pos.
Qed.

End Tables.

(** ** Carrying envelopes *)

Section Carry.
Context {B : Type} {SB : StorageBackend B} {HI : HashIter bytes StoredEnvelope}.
Context (exp : float -> float).
Context (serialize : StoredEnvelope -> res string bytes) (deserialize : bytes -> res string StoredEnvelope).
Hypothesis bincode_roundtrip : forall e, stored_wf e -> exists v, serialize e = Ok v /\ deserialize v = Ok e.

Implicit Types s : MeshStore B.

Definition envelopes_of s (ids : list MessageId) : list StoredEnvelope := omap (mesh_get s) ids.

Lemma parse_gather s ids :
  map_Forall (fun _ e => stored_wf e) (m_messages s) ->
  parse_envelopes deserialize (gather serialize s ids) = envelopes_of s ids.
Proof.
  intros Hwf. unfold parse_envelopes, gather, envelopes_of. induction ids as [|id ids IH]; [done|]. cbn.
  destruct (mesh_get s id) as [e|] eqn:He; cbn; [|exact IH].
  destruct (bincode_roundtrip e) as (v & -> & Hd); [by eapply Hwf|]. cbn. rewrite Hd. f_equal. exact IH.
Qed.

Lemma envelopes_absent s ids : (forall id, id ∈ ids -> ~ is_Some (m_messages s !! id)) -> envelopes_of s ids = [].
Proof.
  unfold envelopes_of. induction ids as [|id ids IH]; intros Hi; [done|]. cbn.
  destruct (mesh_get s id) eqn:He; [exfalso; eapply Hi; [by left|by eexists]|].
  apply IH. intros; apply Hi. by right.
Qed.

(** The envelopes of ids of a well-formed store, with the ids they are filed under. *)
Lemma envelopes_of_fst s ids :
  mesh_wf s -> (forall id, id ∈ ids -> is_Some (m_messages s !! id)) ->
  s_message_id <$> envelopes_of s ids = ids.
Proof.
  intros [Hid _]. unfold envelopes_of. induction ids as [|id ids IH]; intros Hi; [done|]. cbn.
  destruct (Hi id) as [e He]; [by left|]. replace (mesh_get s id) with (Some e) by done. cbn.
  rewrite (Hid id e He), IH by (intros; apply Hi; by right). done.
Qed.

Lemma merge_envelopes_fold now s l c :
  (foldl (fun '(count, s) e =>
      let '(is_new, s') := mesh_insert exp serialize now s e in
      (if is_new : bool then count + 1 else count, s')) (c, s) l).2 =
  foldl (fun s '(id, e) => match m_messages s !! id with
                           | Some _ => s
                           | None => (mesh_insert exp serialize now s e).2
                           end) s ((fun e => (s_message_id e, e)) <$> l).
Proof.
  revert s c. induction l as [|e l IH]; intros s c; [done|]. rewrite fmap_cons. cbn [foldl].
  destruct (mesh_insert exp serialize now s e) as [r s'] eqn:Hi. rewrite IH.
  destruct (m_messages s !! s_message_id e) eqn:He; [|done].
  unfold mesh_insert in Hi. rewrite He in Hi. by injection Hi as <- <-.
Qed.

(** Receiving the envelopes one lacks amounts to the union of the two stores. *)
Lemma merge_received (now : Z) (HIo : HashIter bytes StoredEnvelope) s o got :
  mesh_wf o -> got ≡ₚ envelopes_of o (@only_in B HIo o s) ->
  Z.of_nat (size (m_messages s ∪ m_messages o)) <= m_max_messages s ->
  m_messages (merge_envelopes (HI := HI) exp serialize now s got).2 = m_messages s ∪ m_messages o.
Proof.
  intros Ho Hgot Hsz. unfold merge_envelopes. rewrite merge_envelopes_fold.
  set (l := (fun e => (s_message_id e, e)) <$> got).
  assert (l.*1 ≡ₚ @only_in B HIo o s) as Hl1.
  { unfold l. rewrite <-list_fmap_compose. unfold compose. cbn. rewrite Hgot, envelopes_of_fst; [done|done|].
    intros id [_ Hid]%list_elem_of_filter. by apply elem_of_message_ids in Hid. }
  assert (NoDup l.*1) as Hnd by (rewrite Hl1; apply NoDup_filter, NoDup_hm_keys).
  assert (forall id e, (id, e) ∈ l <-> m_messages o !! id = Some e /\ ~ is_Some (m_messages s !! id)) as Hel.
  { intros id e. unfold l. rewrite list_elem_of_fmap. setoid_rewrite Hgot. unfold envelopes_of. split.
    - intros (e' & [= -> ->] & (id' & [Hn Hin]%list_elem_of_filter & He)%list_elem_of_omap).
      unfold mesh_get in He. by rewrite (proj1 Ho id' e' He).
    - intros [He Hn]. exists e. rewrite (proj1 Ho id e He). split; [done|]. apply list_elem_of_omap.
      exists id. split; [|done]. apply list_elem_of_filter. split; [done|]. apply elem_of_message_ids. eauto. }
  assert (m_messages s ∪ list_to_map l = m_messages s ∪ m_messages o) as Hu.
  { apply map_eq. intros id. rewrite !lookup_union.
    destruct (m_messages s !! id) as [e|] eqn:He; [by rewrite !union_Some_l|].
    rewrite !(left_id_L None _). apply option_eq. intros e.
    rewrite <-elem_of_list_to_map by done. rewrite Hel, He. split; [tauto|]. intros. split; [done|by intros [? ?]]. }
  rewrite merge_foldl; rewrite ?Hu; try done.
  intros id e [He _]%Hel. by apply Ho.
Qed.

End Carry.

(** ** Properties *)

Section Exchange.
Context {BM : Build} {B : Type} {SB : StorageBackend B} (HIa HIb : HashIter bytes StoredEnvelope).
Context (blake3 : bytes -> bytes) (hex : bytes -> string) (exp : float -> float).
Context (serialize : StoredEnvelope -> res string bytes) (deserialize : bytes -> res string StoredEnvelope).
Hypothesis blake3_len : forall x, length (blake3 x) = 32%nat.
Hypothesis bincode_roundtrip : forall e, stored_wf e -> exists v, serialize e = Ok v /\ deserialize v = Ok e.

(** The number of cells of the initiator's sketch. *)
Definition offer_cells (a : MeshStore B) : nat := cells_for (mesh_len a * 4 + 8).

Lemma offer_cells_pos a : (0 < offer_cells a)%nat.
Proof. apply cells_for_pos. Qed.

Lemma offer_cells_len a : Z.of_nat (offer_cells a) = (mesh_len a * 4 + 8) * 3.
Proof. unfold offer_cells, cells_for, CELLS_PER_DIFF, mesh_len. lia. Qed.

(** What the initiator sends. *)
Lemma initiate_ok now (a : MeshStore B) :
  store_ok a -> mesh_len a <= 5459 ->
  exists bs, iblt_to_bytes (id_table blake3 (offer_cells a) (@message_ids B HIa a)) = Ok bs /\
    initiate (HI := HIa) blake3 hex now session_new a =
      (Ok (SyncOffer bs (mesh_len a) (cast_u 32 (Z.of_nat (offer_cells a)))
             (generate_proof (HI := HIa) blake3 hex a) now),
       mkSession AwaitingResponse (Some (id_table blake3 (offer_cells a) (@message_ids B HIa a))) None [] [] 0).
Proof.
  intros Ha Hlen. pose proof (offer_cells_pos a) as Hn. pose proof (offer_cells_len a) as Hc.
  assert (0 <= mesh_len a) by (unfold mesh_len; lia).
  unfold initiate. cbn [ss_state session_new]. rewrite bool_decide_eq_false_2 by auto.
  unfold cast_u at 1 2 3. rewrite (Z.mod_small (mesh_len a)) by lia. rewrite (Z.max_l (mesh_len a * 4 + 8)) by lia.
  rewrite iblt_new_sketch. fold (cells_for (mesh_len a * 4 + 8)). fold (offer_cells a).
  rewrite (insert_ids_table blake3 blake3_len HIa) by (done || lia). cbn [rbind].
  unfold iblt_to_bytes. cbn [t_num_cells id_table sketch].
  destruct (Z.ltb_spec u16_max (Z.of_nat (offer_cells a))) as [Hbig|]; [unfold u16_max in Hbig; lia|].
  cbn [rbind]. eexists. split; [done|]. done.
Qed.

Variables a b : MeshStore B.
Let n := offer_cells a.
Hypothesis a_ok : store_ok a.
Hypothesis b_ok : store_ok b.
Hypothesis a_len : mesh_len a <= 5459.
Hypothesis b_len : mesh_len b < 2 ^ 27.
Hypothesis a_fits : counts_fit blake3 (HI := HIa) n a.
Hypothesis b_fits : counts_fit blake3 (HI := HIb) n b.
Hypothesis apart : separated blake3 n (signed_diff (@only_in B HIa a b) (@only_in B HIb b a)).
Hypothesis thin : peelable blake3 n (signed_diff (@only_in B HIa a b) (@only_in B HIb b a)).

Lemma only_in_ok (HI : HashIter bytes StoredEnvelope) (s1 s2 : MeshStore B) :
  store_ok s1 -> ids_ok (@only_in B HI s1 s2) /\ zlen (@only_in B HI s1 s2) <= mesh_len s1.
Proof.
  intros Hs. rewrite <-(zlen_message_ids HI).
  eapply ids_ok_part; [by apply store_ids_ok|apply message_ids_split].
Qed.

(** Either side subtracts the other's sketch from its own and decodes the difference. *)
Lemma exchange_decode :
  exists diff1 we they diff2 we' they',
    iblt_subtract (id_table blake3 n (@message_ids B HIb b)) (id_table blake3 n (@message_ids B HIa a)) = Ok diff1 /\
    iblt_decode blake3 diff1 = Ok (we, they) /\
    we ≡ₚ @only_in B HIb b a /\ they ≡ₚ @only_in B HIa a b /\
    iblt_subtract (id_table blake3 n (@message_ids B HIa a)) (id_table blake3 n (@message_ids B HIb b)) = Ok diff2 /\
    iblt_decode blake3 diff2 = Ok (we', they') /\
    we' ≡ₚ @only_in B HIa a b /\ they' ≡ₚ @only_in B HIb b a.
Proof.
  destruct (only_in_ok HIa a b a_ok) as [Ha ?], (only_in_ok HIb b a b_ok) as [Hb ?].
  pose proof (offer_cells_pos a) as Hn. fold n in Hn.
  assert (@message_ids B HIb b ≡ₚ @shared B HIa a b ++ @only_in B HIb b a) as Hsplit.
  { rewrite (shared_comm HIa HIb). apply message_ids_split. }
  destruct (decode_diff_complete blake3 blake3_len n (@only_in B HIb b a) (@only_in B HIa a b))
    as (w & t & D1 & W1 & T1); [done..|lia|by apply separated_flip|by apply peelable_flip|].
  destruct (decode_diff_complete blake3 blake3_len n (@only_in B HIa a b) (@only_in B HIb b a))
    as (w' & t' & D2 & W2 & T2); [done..|lia|done|done|].
  eexists _, w, t, _, w', t'.
  pose proof (store_ids_ok HIa a a_ok) as Ia. pose proof (store_ids_ok HIb b b_ok) as Ib.
  pose proof (zlen_message_ids HIa a) as La. pose proof (zlen_message_ids HIb b) as Lb.
  split_and!; [|exact D1|done|done| |exact D2|done|done].
  - apply (subtract_id_tables blake3 n _ _ (@shared B HIa a b)); [done|done|done|lia|exact Hsplit|].
    apply message_ids_split.
  - apply (subtract_id_tables blake3 n _ _ (@shared B HIa a b)); [done|done|done|lia| |exact Hsplit].
    apply message_ids_split.
Qed.


End Exchange.

Section SessionRules.
Context {BM : Build} {B : Type} {SB : StorageBackend B} {HI : HashIter bytes StoredEnvelope}.
Context (blake3 : bytes -> bytes) (hex : bytes -> string).
Context (serialize : StoredEnvelope -> res string bytes) (deserialize : bytes -> res string StoredEnvelope).

(** A session can be initiated exactly when the store has at most 5459 messages: the sketch
    has twelve cells per message, plus 24, and the wire format counts cells in 16 bits.  A larger
    store (the store's own limit is 10,000) makes every [initiate] fail and leaves the session as it was. *)
Theorem sync_initiate_limit now (a : MeshStore B) :
  (forall x, length (blake3 x) = 32%nat) -> store_ok a -> mesh_len a < 2 ^ 27 ->
  (mesh_len a <= 5459 <-> is_ok (initiate blake3 hex now session_new a).1 = true) /\
  (5459 < mesh_len a ->
   initiate blake3 hex now session_new a =
     (Err (BufferTooShort ((mesh_len a * 4 + 8) * 3) u16_max), session_new)).
Proof.
  intros Hlen Ha Hb.
  assert (5459 < mesh_len a ->
    initiate blake3 hex now session_new a =
      (Err (BufferTooShort ((mesh_len a * 4 + 8) * 3) u16_max), session_new)) as Hbig.
  { intros Hm. pose proof (offer_cells_pos a) as Hn. pose proof (offer_cells_len a) as Hc.
    unfold initiate. cbn [ss_state session_new]. rewrite bool_decide_eq_false_2 by auto.
    unfold cast_u at 1. rewrite (Z.mod_small (mesh_len a)) by lia. rewrite (Z.max_l (mesh_len a * 4 + 8)) by lia.
    rewrite iblt_new_sketch. fold (cells_for (mesh_len a * 4 + 8)). fold (offer_cells a).
    rewrite (insert_ids_table blake3 Hlen HI) by (done || lia). cbn [rbind].
    unfold iblt_to_bytes. cbn [t_num_cells id_table sketch].
    destruct (Z.ltb_spec u16_max (Z.of_nat (offer_cells a))) as [|Hs]; [|unfold u16_max in Hs; lia].
    cbn [rbind]. by rewrite Hc. }
  split; [|exact Hbig]. split.
  - intros Hm. destruct (initiate_ok HI blake3 hex Hlen now a Ha Hm) as (bs & _ & ->). done.
  - intros Hok. destruct (Z_le_gt_dec (mesh_len a) 5459); [done|]. by rewrite Hbig in Hok by lia.
Qed.

(** The calls a session can receive, and what each does to it. *)
Inductive session_call : Type :=
| CallInitiate (now : Z) (store : MeshStore B)
| CallRespond (store : MeshStore B) (offer : SyncMessage)
| CallComplete (store : MeshStore B) (response : SyncMessage).

Definition session_step (self : SyncSession) (c : session_call) : bool * SyncSession :=
  match c with
  | CallInitiate now store => let '(r, s) := initiate blake3 hex now self store in (is_ok r, s)
  | CallRespond store offer => let '(r, s) := respond blake3 serialize self store offer in (is_ok r, s)
  | CallComplete store resp => let '(r, s) := complete blake3 serialize deserialize self store resp in (is_ok r, s)
  end.

Inductive transition : SyncState -> SyncState -> Prop :=
| tr_initiate : transition Ready AwaitingResponse
| tr_respond : transition Ready ProcessingResponse
| tr_complete : transition AwaitingResponse Complete.

Lemma session_step_spec self c ok self' :
  session_step self c = (ok, self') ->
  (ok = true /\ transition (ss_state self) (ss_state self')) \/ (ok = false /\ ss_state self' = ss_state self).
Proof.
  destruct c; cbn [session_step]; unfold initiate, respond, complete; intros H;
    repeat case_match; simplify_eq; cbn; auto;
    match goal with E : bool_decide (_ <> _) = false |- _ => apply bool_decide_eq_false, dec_stable in E; rewrite E end;
    left; split; try done; constructor.
Qed.

(** Whatever calls a session receives, in whatever order and with whatever stores and messages,
    it moves only from ready to awaiting a response, from there to complete, or from ready to
    processing a response; a call that fails leaves the state alone, a session that has completed or
    responded refuses every further call unchanged, and no session is ever marked as failed. *)
Theorem sync_session_transitions (calls : list session_call) :
  let self := foldl (fun s c => (session_step s c).2) session_new calls in
  ss_state self <> Failed /\
  forall c, let '(ok, self') := session_step self c in
    (ok = true /\ transition (ss_state self) (ss_state self')) \/
    (ok = false /\ ss_state self' = ss_state self /\
     (ss_state self = Complete \/ ss_state self = ProcessingResponse -> self' = self)).
Proof.
  cbv zeta. generalize session_new (eq_refl : ss_state session_new = Ready). intros s0 Hs0.
  assert (ss_state s0 <> Failed) as Hnf by (by rewrite Hs0). clear Hs0. revert s0 Hnf.
  induction calls as [|c calls IH]; intros s Hnf; cbn [foldl].
  - split; [done|]. intros c. destruct (session_step s c) as [ok s'] eqn:E.
    destruct (session_step_spec s c ok s' E) as [?|[-> Hs]]; [by left|right].
    split_and!; [done|done|]. intros Hst. revert E.
    destruct c; cbn [session_step]; unfold initiate, respond, complete; rewrite bool_decide_eq_true_2
      by (destruct Hst as [-> | ->]; done); by intros [= <-].
  - apply IH. destruct (session_step s c) as [ok s'] eqn:E. cbn.
    destruct (session_step_spec s c ok s' E) as [[_ Ht]|[_ ->]]; [by destruct Ht|done].
Qed.

End SessionRules.

(** ** Concrete inputs *)

#[local] Existing Instance canonical_iter.
#[local] Instance sync_build : Build := {| overflow_checks := true |}.

(** Two nodes that share one message and have one of their own each. *)
Definition spread (n : Z) : StoredEnvelope :=
  mkStored [byte.of_Z n] (key_of n) (replicate 4 Byte.x00) 1000 0 0 100 1000.

Definition sync_store (l : list Z) : MeshStore MemoryStorage :=
  foldl (fun s n => (mesh_insert (fun x => x) bincode_stored 2000 s (spread n)).2) mesh_new l.

Ltac store_ok := split; [split; [by_computation|by vm_compute]|by_computation].


Lemma sync_initiate_limit_witness :
  mesh_len (sync_store [1; 2]) <= 5459 /\
  is_ok (initiate prefix_digest (fun _ => String.EmptyString) 3000 session_new (sync_store [1; 2])).1 = true.
Proof.
  split; [by vm_compute|].
  apply (sync_initiate_limit prefix_digest (fun _ => String.EmptyString) 3000 (sync_store [1; 2]));
    [apply prefix_digest_len|store_ok|by vm_compute|by vm_compute].
Defined.
