(* ===== verification/RateLimit.v ===== *)
(** * The sync rate limiter ([core/src/drift/rate_limit.rs])

    A sliding window of request times per peer.  An [Instant] is a number of
    nanoseconds; [now.duration_since(t)] is zero when [t] is later. *)

From S2P Require Import Prelude.

(** ** Data and operations *)

Record SyncRateLimiter : Type := mkLimiter {
  rl_limits : gmap string (list Z);
  rl_window : Z;
  rl_max_per_window : Z;
}.

Definition limiter_new (window max_per_window : Z) : SyncRateLimiter := mkLimiter ∅ window max_per_window.

Definition retain_recent (window now : Z) (timestamps : list Z) : list Z :=
  filter (fun t => sat_sub now t < window) timestamps.

Definition allow_sync_at (self : SyncRateLimiter) (peer_id : string) (now : Z) : bool * SyncRateLimiter :=
  let timestamps := default [] (rl_limits self !! peer_id) in
  let timestamps := retain_recent (rl_window self) now timestamps in
  if rl_max_per_window self <=? zlen timestamps
  then (false, mkLimiter (<[peer_id := timestamps]> (rl_limits self)) (rl_window self) (rl_max_per_window self))
  else (true, mkLimiter (<[peer_id := timestamps ++ [now]]> (rl_limits self)) (rl_window self) (rl_max_per_window self)).

(** [allow_sync]: the request at the instant the clock gives. *)
Definition allow_sync (clock : Z) (self : SyncRateLimiter) (peer_id : string) : bool * SyncRateLimiter :=
  allow_sync_at self peer_id clock.

Definition cleanup_expired (self : SyncRateLimiter) (now : Z) : SyncRateLimiter :=
  mkLimiter (omap (fun ts =>
      let ts := retain_recent (rl_window self) now ts in
      if decide (ts = []) then None else Some ts) (rl_limits self))
    (rl_window self) (rl_max_per_window self).

Definition tracked_peer_count (self : SyncRateLimiter) : Z := Z.of_nat (size (rl_limits self)).

Definition peer_sync_count (self : SyncRateLimiter) (peer_id : string) : Z :=
  match rl_limits self !! peer_id with Some v => zlen v | None => 0 end.

(** ** Histories *)

Inductive limiter_event : Type :=
| Request (peer_id : string) (now : Z)
| Cleanup (now : Z).

Definition event_time (e : limiter_event) : Z := match e with Request _ t => t | Cleanup t => t end.

(** The limiter after a history, with the times of the requests of [p] that were allowed. *)
Definition limiter_step (p : string) (acc : SyncRateLimiter * list Z) (e : limiter_event)
  : SyncRateLimiter * list Z :=
  let '(self, allowed) := acc in
  match e with
  | Request q now =>
      let '(ok, self') := allow_sync_at self q now in
      (self', if (ok : bool) && bool_decide (q = p) then allowed ++ [now] else allowed)
  | Cleanup now => (cleanup_expired self now, allowed)
  end.

Definition limiter_run (p : string) (self : SyncRateLimiter) (h : list limiter_event)
  : SyncRateLimiter * list Z := foldl (limiter_step p) (self, []) h.

(** The allowed requests that count at time [u]. *)
Definition recent (window u : Z) (allowed : list Z) : list Z :=
  filter (fun v => v <= u /\ u - v < window) allowed.

(** ** The window as a specification *)

Section Window.
Context (window max : Z) (p : string).

(** Up to time [t], what the limiter remembers of [p] are the allowed requests that still count. *)
Definition tracks (t : Z) (self : SyncRateLimiter) (allowed : list Z) : Prop :=
  rl_window self = window /\ rl_max_per_window self = max /\
  Forall (fun v => v <= t) allowed /\
  Forall (fun v => v <= t) (default [] (rl_limits self !! p)) /\
  forall u, t <= u -> recent window u (default [] (rl_limits self !! p)) = recent window u allowed.

Lemma retain_recent_eq now ts :
  0 < window -> Forall (fun v => v <= now) ts -> retain_recent window now ts = recent window now ts.
Proof.
  intros Hw. induction 1 as [|v ts Hv _ IH]; [done|]. unfold retain_recent, recent in *.
  rewrite !filter_cons, IH. unfold sat_sub.
  destruct (decide (Z.max (now - v) 0 < window)), (decide (v <= now /\ now - v < window)); done || lia.
Qed.

Lemma recent_twice u now ts : now <= u -> Forall (fun v => v <= now) ts ->
  recent window u (recent window now ts) = recent window u ts.
Proof.
  intros Hu. induction 1 as [|v ts Hv _ IH]; [done|]. unfold recent in *. rewrite !filter_cons.
  destruct (decide (v <= now /\ now - v < window)); rewrite ?filter_cons, IH; [done|].
  destruct (decide (v <= u /\ u - v < window)); [lia|done].
Qed.

Lemma recent_app u l1 l2 : recent window u (l1 ++ l2) = recent window u l1 ++ recent window u l2.
Proof. apply filter_app. Qed.

Lemma Forall_recent (P : Z -> Prop) u ts : Forall P ts -> Forall P (recent window u ts).
Proof. intros H. apply Forall_forall. intros v [_ Hv]%list_elem_of_filter. by eapply Forall_forall in H. Qed.

Lemma Forall_le_trans t u (ts : list Z) : t <= u -> Forall (fun v => v <= t) ts -> Forall (fun v => v <= u) ts.
Proof. intros Htu H. eapply Forall_impl; [exact H|]. cbn. lia. Qed.

(** The decision of the limiter, from the allowed requests alone. *)
Lemma allow_decision t now self allowed :
  0 < window -> tracks t self allowed -> t <= now ->
  (allow_sync_at self p now).1 = bool_decide (zlen (recent window now allowed) < max).
Proof.
  intros Hw (HW & HM & Ha & Hl & Hr) Hnow. unfold allow_sync_at. rewrite HW, HM.
  rewrite retain_recent_eq by (done || by eapply Forall_le_trans). rewrite Hr by done.
  case_if; bool_to_prop; cbn; symmetry; [apply bool_decide_eq_false_2|apply bool_decide_eq_true_2]; lia.
Qed.

Lemma limiter_step_tracks t self allowed e :
  0 < window -> tracks t self allowed -> t <= event_time e ->
  tracks (event_time e) (limiter_step p (self, allowed) e).1 (limiter_step p (self, allowed) e).2.
Proof.
  intros Hw (HW & HM & Ha & Hl & Hr) Ht. destruct e as [q now|now]; cbn [event_time limiter_step] in *.
  - destruct (decide (q = p)) as [->|Hne].
    + unfold allow_sync_at. rewrite HW, HM.
      rewrite retain_recent_eq by (done || by eapply Forall_le_trans). rewrite Hr by done.
      assert (Forall (fun v => v <= now) allowed) as Ha' by (by eapply Forall_le_trans).
      case_if; rewrite ?bool_decide_eq_true_2 by done; unfold tracks;
        cbn [andb fst snd rl_limits rl_window rl_max_per_window];
        rewrite lookup_insert_eq; cbn [default from_option id].
      * split_and!; [done|done|done|by apply Forall_recent|]. intros u Hu. by apply recent_twice.
      * split_and!; [done|done|apply Forall_app; split; [done|by constructor]|
          apply Forall_app; split; [by apply Forall_recent|by constructor]|].
        intros u Hu. by rewrite !recent_app, recent_twice.
    + unfold allow_sync_at. case_if; rewrite ?bool_decide_eq_false_2 by done; unfold tracks;
        cbn [andb fst snd rl_limits rl_window rl_max_per_window]; rewrite lookup_insert_ne by done; split_and!; try done; try (by eapply Forall_le_trans); intros; apply Hr; lia.
  - assert (default [] (rl_limits (cleanup_expired self now) !! p) =
            recent window now (default [] (rl_limits self !! p))) as Hc.
    { unfold cleanup_expired. cbn [rl_limits]. rewrite lookup_omap, HW.
      destruct (rl_limits self !! p) as [ts|]; [|done]. cbn [mbind option_bind].
      rewrite retain_recent_eq by (done || by eapply Forall_le_trans). by case_decide as Hnil. }
    cbn [fst snd]. unfold tracks. rewrite Hc.
    split_and!; [done|done|by eapply Forall_le_trans|apply Forall_recent; by eapply Forall_le_trans|].
    intros u Hu. rewrite recent_twice by (done || by eapply Forall_le_trans). apply Hr. lia.
Qed.

(** The bound holds at every time once it holds at the times of the allowed requests. *)
Lemma recent_bound_step now u allowed :
  Forall (fun v => v <= now) allowed -> zlen (recent window now allowed) < max ->
  zlen (recent window u allowed) <= max -> zlen (recent window u (allowed ++ [now])) <= max.
Proof.
  intros Ha Hn Hu. rewrite recent_app. unfold recent at 2. rewrite filter_cons, filter_nil.
  case_decide as Hd; [|by rewrite app_nil_r]. rewrite zlen_app. change (zlen [now]) with 1.
  enough (zlen (recent window u allowed) <= zlen (recent window now allowed)) by lia.
  clear Hn Hu. induction Ha as [|v allowed Hv _ IH]; [done|]. unfold recent in *. rewrite !filter_cons.
  repeat case_decide; rewrite ?zlen_cons; lia.
Qed.

Lemma limiter_step_bound t self allowed e :
  0 < window -> tracks t self allowed -> t <= event_time e ->
  (forall u, zlen (recent window u allowed) <= max) ->
  forall u, zlen (recent window u (limiter_step p (self, allowed) e).2) <= max.
Proof.
  intros Hw Ht Hte Hb u. destruct e as [q now|now]; cbn [event_time limiter_step] in *; [|apply Hb].
  destruct (decide (q = p)) as [->|Hne].
  - pose proof (allow_decision t now self allowed Hw Ht Hte) as Hd.
    destruct (allow_sync_at self p now) as [ok self']. cbn [fst snd] in *. subst ok.
    rewrite (bool_decide_eq_true_2 (p = p)) by done. rewrite andb_true_r. case_bool_decide; [|apply Hb].
    apply recent_bound_step; [|done|apply Hb]. eapply Forall_le_trans; [exact Hte|apply Ht].
  - destruct (allow_sync_at self q now) as [ok self']. cbn [snd].
    rewrite (bool_decide_eq_false_2 (q = p)) by done. rewrite andb_false_r. apply Hb.
Qed.

Lemma limiter_run_tracks t h self allowed :
  0 < window -> tracks t self allowed -> (forall u, zlen (recent window u allowed) <= max) ->
  StronglySorted Z.le (t :: (event_time <$> h)) ->
  let '(self', allowed') := foldl (limiter_step p) (self, allowed) h in
  exists t', t <= t' /\ (forall t'', Forall (fun e => event_time e <= t'') h -> t <= t'' -> t' <= t'') /\
             tracks t' self' allowed' /\ forall u, zlen (recent window u allowed') <= max.
Proof.
  intros Hw. revert t self allowed. induction h as [|e h IH]; intros t self allowed Ht Hb Hs; cbn [foldl].
  { exists t. split_and!; [lia|by intros|done|done]. }
  rewrite fmap_cons in Hs. inversion Hs as [|? ? Hs' Hall]; subst.
  apply Forall_cons in Hall as [Hte _].
  pose proof (limiter_step_tracks t self allowed e Hw Ht Hte) as Hstep.
  pose proof (limiter_step_bound t self allowed e Hw Ht Hte Hb) as Hstepb.
  destruct (limiter_step p (self, allowed) e) as [self1 allowed1]. cbn [fst snd] in Hstep, Hstepb.
  specialize (IH (event_time e) self1 allowed1 Hstep Hstepb Hs').
  destruct (foldl _ _ h) as [self2 allowed2]. destruct IH as (t' & Hle & Hlast & Htr & Hbd).
  exists t'. split_and!; [lia| |done|done]. intros t'' [Hh Hh']%Forall_cons Ht''. by apply Hlast.
Qed.

End Window.

(** ** Properties *)

(** For any peer and any history of requests and clean-ups with a clock that does not go
    back, no window of the configured length contains more allowed requests than the limit, and
    a request is allowed exactly when the window that ends with it has room: the limiter, with its
    pruned lists, implements the sliding window. *)
Theorem limiter_sliding_window window max p h :
  0 < window -> 0 <= max -> StronglySorted Z.le (event_time <$> h) ->
  let '(self, allowed) := limiter_run p (limiter_new window max) h in
  (forall u, zlen (recent window u allowed) <= max) /\
  (forall now, Forall (fun e => event_time e <= now) h ->
     (allow_sync_at self p now).1 = bool_decide (zlen (recent window now allowed) < max)).
Proof.
  intros Hw Hmax Hs. unfold limiter_run.
  assert (forall t, tracks window max p t (limiter_new window max) []) as H0 by (intros t; by split_and!).
  destruct h as [|e h].
  { split; [done|]. intros now _. by eapply (allow_decision window max p now). }
  assert (StronglySorted Z.le (event_time e :: (event_time <$> e :: h))) as Hs'.
  { constructor; [done|]. rewrite fmap_cons in Hs |- *. apply Forall_cons; split; [lia|]. by inversion Hs. }
  pose proof (limiter_run_tracks window max p (event_time e) (e :: h) (limiter_new window max) [] Hw
    (H0 _) ltac:(intros; done) Hs') as Hrun.
  destruct (foldl _ _ (e :: h)) as [self allowed]. destruct Hrun as (t' & Hle & Hlast & Ht & Hb).
  split; [done|]. intros now Hnow. eapply allow_decision; [done|exact Ht|]. apply Hlast; [done|].
  by apply Forall_cons in Hnow as [? _].
Qed.

(** ** Concrete inputs *)

(** Two requests per 60 s: the third is refused, the clean-up forgets nothing that counts, and the
    fourth, after the window has moved, is allowed. *)
Lemma limiter_sliding_window_witness :
  let h := [Request "a" 0; Request "a" 10; Request "b" 20; Request "a" 30; Cleanup 40; Request "a" 65] in
  let '(self, allowed) := limiter_run "a" (limiter_new 60 2) h in
  allowed = [0; 10; 65] /\ (forall u, zlen (recent 60 u allowed) <= 2) /\
  (forall now, Forall (fun e => event_time e <= now) h ->
     (allow_sync_at self "a" now).1 = bool_decide (zlen (recent 60 now allowed) < 2)).
Proof.
  cbv zeta.
  pose proof (limiter_sliding_window 60 2 "a"
    [Request "a" 0; Request "a" 10; Request "b" 20; Request "a" 30; Cleanup 40; Request "a" 65]) as H.
  destruct (limiter_run _ _ _) as [self allowed] eqn:E. split.
  - by vm_compute in E; injection E.
  - apply H; [lia|lia|]. repeat (constructor; [|repeat constructor; cbn; lia]). constructor.
Defined.
