(* ===== verification/Policy.v ===== *)
(** * The relay policy ([core/src/drift/policy.rs], [RelayConfig] of [core/src/drift/relay.rs])

    Relay parameters computed from the state of the device, with user overrides. *)

From S2P Require Import Prelude.

(** ** Data *)

Record RelayConfig : Type := mkConfig {
  rc_max_relay_per_hour : Z;
  rc_max_hop_count : Z;
  rc_min_relay_priority : Z;
  rc_battery_floor_percent : Z;
  rc_relay_opaque : bool;
}.

Definition default_relay_config : RelayConfig := mkConfig 1000 16 0 20 true.

Record DeviceState : Type := mkDevice {
  d_battery_percent : Z;
  d_is_charging : bool;
  d_has_wifi : bool;
  d_is_moving : bool;
  d_timestamp : Z;
}.

Inductive RelayProfile : Type := Maximum | High | Standard | Reduced | Minimal.

#[global] Instance RelayProfile_eq_dec : EqDecision RelayProfile.
Proof. solve_decision. Defined.

Inductive PolicyError : Type := RelayBudgetCannotBeZero.

Record PolicyEngine : Type := mkPolicy {
  pe_scan_interval_override : option Z;
  pe_relay_budget_override : option Z;
  pe_battery_floor_override : option Z;
  pe_current_profile : RelayProfile;
}.

(** ** Operations *)

Definition policy_new : PolicyEngine := mkPolicy None None None Standard.

(** The ranges of the [match] on the battery level. *)
Definition compute_profile (state : DeviceState) : RelayProfile :=
  if d_is_charging state && d_has_wifi state then Maximum
  else if d_is_charging state then High
  else if (51 <=? d_battery_percent state) && (d_battery_percent state <=? 100) then Standard
  else if (20 <=? d_battery_percent state) && (d_battery_percent state <=? 50) then Reduced
  else Minimal.

Definition update_device_state (self : PolicyEngine) (state : DeviceState) : RelayProfile * PolicyEngine :=
  let p := compute_profile state in
  (p, mkPolicy (pe_scan_interval_override self) (pe_relay_budget_override self) (pe_battery_floor_override self) p).

Definition scan_interval_ms (self : PolicyEngine) : Z :=
  match pe_scan_interval_override self with
  | Some v => v
  | None =>
      match pe_current_profile self with
      | Maximum => 500 | High => 1000 | Standard => 5000 | Reduced => 15000 | Minimal => 60000
      end
  end.

Definition relay_budget_per_hour (self : PolicyEngine) : Z :=
  match pe_relay_budget_override self with
  | Some v => v
  | None =>
      match pe_current_profile self with
      | Maximum => 5000 | High => 3000 | Standard => 1000 | Reduced => 300 | Minimal => 50
      end
  end.

Definition to_relay_config (self : PolicyEngine) : RelayConfig :=
  let battery_floor :=
    default (match pe_current_profile self with
             | Maximum => 10 | High => 15 | Standard => 20 | Reduced => 30 | Minimal => 50
             end) (pe_battery_floor_override self) in
  mkConfig (relay_budget_per_hour self) 16 0 battery_floor true.

Definition set_scan_interval_override (self : PolicyEngine) (ms : option Z) : PolicyEngine :=
  mkPolicy ms (pe_relay_budget_override self) (pe_battery_floor_override self) (pe_current_profile self).

Definition set_relay_budget_override (self : PolicyEngine) (budget : option Z)
  : res PolicyError unit * PolicyEngine :=
  match budget with
  | Some 0 => (Err RelayBudgetCannotBeZero, self)
  | _ => (Ok tt, mkPolicy (pe_scan_interval_override self) budget (pe_battery_floor_override self)
                          (pe_current_profile self))
  end.

Definition set_battery_floor_override (self : PolicyEngine) (percent : option Z) : PolicyEngine :=
  mkPolicy (pe_scan_interval_override self) (pe_relay_budget_override self) percent (pe_current_profile self).

Definition should_reduce (self : PolicyEngine) : bool :=
  match pe_current_profile self with Reduced | Minimal => true | _ => false end.

(** ** Properties *)

Inductive policy_op : Type :=
| OpDevice (state : DeviceState)
| OpScan (ms : option Z)
| OpBudget (budget : option Z)
| OpBattery (percent : option Z).

Definition policy_step (self : PolicyEngine) (op : policy_op) : PolicyEngine :=
  match op with
  | OpDevice d => (update_device_state self d).2
  | OpScan ms => set_scan_interval_override self ms
  | OpBudget b => (set_relay_budget_override self b).2
  | OpBattery p => set_battery_floor_override self p
  end.

(** The budgets a caller passes are unsigned. *)
Definition policy_op_wf (op : policy_op) : Prop :=
  match op with OpBudget (Some b) => in_u 32 b | _ => True end.

Definition budget_ok (self : PolicyEngine) : Prop :=
  match pe_relay_budget_override self with Some b => 0 < b <= u32_max | None => True end.

Lemma policy_step_budget self op : policy_op_wf op -> budget_ok self -> budget_ok (policy_step self op).
Proof.
  destruct op as [d|ms|[[|b|b]|]|p]; cbn; try done.
  - intros [_ Hb] _. unfold budget_ok, u32_max. cbn. lia.
  - intros [Hb _] _. lia.
Qed.

(** The coupling of messaging and relaying: whatever the device reports and whatever the user
    overrides, the relay configuration that reaches the engine has a positive hourly budget that
    fits its type (a budget of zero, which the engine reads as "no limit", cannot be produced), the
    hop limit is 16, every priority is relayed, and the profile is the one of the last device report. *)
Theorem policy_budget_positive (ops : list policy_op) :
  Forall policy_op_wf ops ->
  let self := foldl policy_step policy_new ops in
  let c := to_relay_config self in
  0 < rc_max_relay_per_hour c <= u32_max /\ rc_max_hop_count c = 16 /\ rc_min_relay_priority c = 0 /\
  (forall d, pe_current_profile (policy_step self (OpDevice d)) = compute_profile d).
Proof.
  intros Hops self c. assert (budget_ok self) as Hb.
  { unfold self. assert (budget_ok policy_new) as H0 by done. revert H0. generalize policy_new.
    induction Hops as [|op ops Hop _ IH]; intros s Hs; [done|]. apply IH. by apply policy_step_budget. }
  split_and!; try done; unfold c, to_relay_config, relay_budget_per_hour, budget_ok in *; cbn;
    destruct (pe_relay_budget_override self); [lia| |lia|]; destruct (pe_current_profile self); by vm_compute.
Qed.

Lemma policy_budget_positive_witness :
  let self := foldl policy_step policy_new
    [OpBudget (Some 7); OpBudget (Some 0); OpDevice (mkDevice 15 false false false 0)] in
  rc_max_relay_per_hour (to_relay_config self) = 7 /\ rc_max_hop_count (to_relay_config self) = 16.
Proof.
  cbv zeta. split; [reflexivity|].
  apply (policy_budget_positive [OpBudget (Some 7); OpBudget (Some 0); OpDevice (mkDevice 15 false false false 0)]).
  repeat (apply Forall_cons_2; [by vm_compute|]). apply Forall_nil_2.
Defined.
