(* ===== verification/Relay.v ===== *)
(** * The relay engine ([core/src/drift/relay.rs])

    The decision taken for every incoming envelope.  The reputation manager is
    behind an interface (the score it gives a peer); the clock is [now_ms], in
    milliseconds since the epoch, read once per call.  The cover-traffic
    scheduler and the audit pipeline, which no decision depends on, are left out. *)

From Corelib Require Import PrimFloat.
From S2P Require Import Prelude Frame Envelope Backend MeshStore Policy.

#[local] Open Scope Z_scope.

(** ** Data *)

Inductive NetworkState : Type := Active | Dormant.

#[global] Instance NetworkState_eq_dec : EqDecision NetworkState.
Proof. solve_decision. Defined.

Inductive DropReason : Type :=
  Expired | MaxHopsExceeded | RateLimited | NetworkDormant | LowPriority | StoreFull.

Inductive RelayDecision : Type :=
| DeliverLocal (message_id : bytes)
| StoreAndRelay (message_id : bytes)
| Duplicate (message_id : bytes)
| Dropped (message_id : bytes) (reason : DropReason).

Inductive RelayError : Type :=
| RE_NetworkDormant
| RE_SerializationFailed (e : DriftError)
| RE_InvalidEnvelope (msg : string).

#[global] Instance EnvelopeType_eq_dec : EqDecision EnvelopeType.
Proof. solve_decision. Defined.

(** What the engine asks of a reputation manager. *)
Record EnhancedScore : Type := mkScore { es_is_abusive : bool; es_spam_confidence : float }.

Class ReputationManager (R : Type) : Type := { get_enhanced_score : R -> string -> EnhancedScore }.

Record RelayEngine (B R : Type) : Type := mkEngine {
  re_state : NetworkState;
  re_config : RelayConfig;
  re_store : MeshStore B;
  re_local_hint : bytes;
  re_relay_count_this_hour : Z;
  re_hour_start : Z;
  re_reputation_manager : option R;
  re_shared_reputation_manager : option R;
}.

Arguments mkEngine {B R}.
Arguments re_state {B R}.
Arguments re_config {B R}.
Arguments re_store {B R}.
Arguments re_local_hint {B R}.
Arguments re_relay_count_this_hour {B R}.
Arguments re_hour_start {B R}.
Arguments re_reputation_manager {B R}.
Arguments re_shared_reputation_manager {B R}.

Record MaintenanceReport : Type := mkReport {
  mr_expired_removed : Z;
  mr_store_size : Z;
  mr_evictions : Z;
}.

Definition HOUR_MS : Z := 3600 * 1000.

(** ** Operations *)

Section Relay.
Context {BM : Build} {B R : Type} {SB : StorageBackend B} {RM : ReputationManager R}.
Context {HI : HashIter bytes StoredEnvelope}.
Context (lz4_compress : bytes -> bytes) (lz4_decompress : bytes -> res string bytes).
Context (blake3 : bytes -> bytes) (exp : float -> float).
Context (serialize : StoredEnvelope -> res string bytes).

Definition engine_new (now_ms : Z) (local_public_key : bytes) (config : RelayConfig) : RelayEngine B R :=
  mkEngine Dormant config mesh_new (hint_from_public_key blake3 local_public_key) 0 now_ms None None.

Definition set_network_state (self : RelayEngine B R) (state : NetworkState) : RelayEngine B R :=
  mkEngine state (re_config self) (re_store self) (re_local_hint self) (re_relay_count_this_hour self)
    (re_hour_start self) (re_reputation_manager self) (re_shared_reputation_manager self).

Definition apply_policy_config (self : RelayEngine B R) (config : RelayConfig) : RelayEngine B R :=
  mkEngine (re_state self) config (re_store self) (re_local_hint self) (re_relay_count_this_hour self)
    (re_hour_start self) (re_reputation_manager self) (re_shared_reputation_manager self).

Definition set_reputation_manager (self : RelayEngine B R) (m : R) : RelayEngine B R :=
  mkEngine (re_state self) (re_config self) (re_store self) (re_local_hint self) (re_relay_count_this_hour self)
    (re_hour_start self) (Some m) (re_shared_reputation_manager self).

Definition set_shared_reputation_manager (self : RelayEngine B R) (m : R) : RelayEngine B R :=
  mkEngine (re_state self) (re_config self) (re_store self) (re_local_hint self) (re_relay_count_this_hour self)
    (re_hour_start self) (re_reputation_manager self) (Some m).

Definition with_counter (self : RelayEngine B R) (count hour_start : Z) : RelayEngine B R :=
  mkEngine (re_state self) (re_config self) (re_store self) (re_local_hint self) count hour_start
    (re_reputation_manager self) (re_shared_reputation_manager self).

Definition with_store (self : RelayEngine B R) (store : MeshStore B) : RelayEngine B R :=
  mkEngine (re_state self) (re_config self) store (re_local_hint self) (re_relay_count_this_hour self)
    (re_hour_start self) (re_reputation_manager self) (re_shared_reputation_manager self).

(** [now - self.hour_start] panics in a checked build when the clock went back. *)
Definition check_rate_limit (now_ms : Z) (self : RelayEngine B R) : res DriftError (RelayEngine B R) :=
  let! elapsed := chk_u 64 (now_ms - re_hour_start self) in
  Ok (if HOUR_MS <? elapsed then with_counter self 0 now_ms else self).

Definition sender_score (self : RelayEngine B R) (sender_peer_id : option string) : option EnhancedScore :=
  sender ← sender_peer_id;
  match re_shared_reputation_manager self with
  | Some m => Some (get_enhanced_score m sender)
  | None => (fun m => get_enhanced_score m sender) <$> re_reputation_manager self
  end.

(** [enhanced_score.is_abusive() && enhanced_score.spam_confidence > 0.8]. *)
Definition is_spam (score : option EnhancedScore) : bool :=
  match score with
  | Some s => es_is_abusive s && PrimFloat.ltb (PrimFloat.div (f64 8) (f64 10)) (es_spam_confidence s)
  | None => false
  end.

Definition is_cover (e : DriftEnvelope) : bool := bool_decide (e_envelope_type e = ET_CoverTraffic).

Definition stored_of (envelope_data : bytes) (received_at : Z) (e : DriftEnvelope) : StoredEnvelope :=
  mkStored envelope_data (e_message_id e) (e_recipient_hint e) (e_created_at e) (e_ttl_expiry e)
    (e_hop_count e) (e_priority e) received_at.

(** The end of [process_incoming_from]: store, count, and relay. *)
Definition store_and_relay (now_ms : Z) (self : RelayEngine B R) (envelope_data : bytes) (e : DriftEnvelope)
  : res DriftError RelayDecision * RelayEngine B R :=
  let '(inserted, store) := mesh_insert exp serialize (now_ms / 1000) (re_store self)
                              (stored_of envelope_data (now_ms / 1000) e) in
  let self := with_store self store in
  if negb inserted then (Ok (Duplicate (e_message_id e)), self)
  else if is_cover e then (Ok (StoreAndRelay (e_message_id e)), self)
  else
    match chk_u 32 (re_relay_count_this_hour self + 1) with
    | Ok count => (Ok (StoreAndRelay (e_message_id e)), with_counter self count (re_hour_start self))
    | Err err => (Err err, self)
    | Panic => (Panic, self)
    end.

Definition process_incoming_from (now_ms : Z) (self : RelayEngine B R) (envelope_data : bytes)
    (sender_peer_id : option string) : res DriftError RelayDecision * RelayEngine B R :=
  match envelope_from_bytes lz4_decompress envelope_data with
  | Err err => (Err err, self)
  | Panic => (Panic, self)
  | Ok e =>
      let id := e_message_id e in
      if is_spam (sender_score self sender_peer_id) then (Ok (Dropped id RateLimited), self)
      else if envelope_is_expired (now_ms / 1000) e then (Ok (Dropped id Expired), self)
      else if mesh_contains (re_store self) id then (Ok (Duplicate id), self)
      else if bool_decide (e_recipient_hint e = re_local_hint self) then
        if bool_decide (e_envelope_type e = ET_OnionMessage) || negb (is_cover e)
        then (Ok (DeliverLocal id), self)
        else (Ok (Dropped id Expired), self)
      else if bool_decide (re_state self = Dormant) then (Ok (Dropped id NetworkDormant), self)
      else if rc_max_hop_count (re_config self) <=? e_hop_count e then (Ok (Dropped id MaxHopsExceeded), self)
      else if e_priority e <? rc_min_relay_priority (re_config self) then (Ok (Dropped id LowPriority), self)
      else if is_cover e then store_and_relay now_ms self envelope_data e
      else
        match check_rate_limit now_ms self with
        | Err err => (Err err, self)
        | Panic => (Panic, self)
        | Ok self =>
            if (0 <? rc_max_relay_per_hour (re_config self)) &&
               (rc_max_relay_per_hour (re_config self) <=? re_relay_count_this_hour self)
            then (Ok (Dropped id RateLimited), self)
            else store_and_relay now_ms self envelope_data e
        end
  end.

Definition process_incoming (now_ms : Z) (self : RelayEngine B R) (envelope_data : bytes)
  : res DriftError RelayDecision * RelayEngine B R :=
  process_incoming_from now_ms self envelope_data None.

Definition prepare_outgoing (self : RelayEngine B R) (envelope : DriftEnvelope) : res RelayError bytes :=
  if bool_decide (re_state self = Dormant) then Err RE_NetworkDormant
  else map_err RE_SerializationFailed (envelope_to_bytes lz4_compress envelope).

Definition messages_for_sync (now : Z) (self : RelayEngine B R) (max_count : Z) : list StoredEnvelope :=
  take (Z.to_nat max_count) (by_priority exp now (re_store self)).

Definition maintenance (now : Z) (self : RelayEngine B R) : MaintenanceReport * RelayEngine B R :=
  let '(expired_removed, store) := mesh_remove_expired now (re_store self) in
  (mkReport expired_removed (mesh_len store) 0, with_store self store).

End Relay.

(** ** What relaying does *)

Section RelayFacts.
Context {BM : Build} {B R : Type} {SB : StorageBackend B} {RM : ReputationManager R}.
Context {HI : HashIter bytes StoredEnvelope}.
Context (lz4_compress : bytes -> bytes) (lz4_decompress : bytes -> res string bytes).
Context (blake3 : bytes -> bytes) (exp : float -> float).
Context (serialize : StoredEnvelope -> res string bytes).

Implicit Types self : RelayEngine B R.

(** The conditions under which an envelope of another node is carried. *)
Definition relayable (now_ms : Z) self (e : DriftEnvelope) : Prop :=
  re_state self = Active /\ e_recipient_hint e <> re_local_hint self /\
  m_messages (re_store self) !! e_message_id e = None /\
  envelope_is_expired (now_ms / 1000) e = false /\
  e_hop_count e < rc_max_hop_count (re_config self) /\
  rc_min_relay_priority (re_config self) <= e_priority e.

Definition counted (self : RelayEngine B R) : Prop := 0 <= re_relay_count_this_hour self < u32_max.

Lemma store_and_relay_ok now_ms self data e :
  counted self -> m_messages (re_store self) !! e_message_id e = None ->
  store_and_relay exp serialize now_ms self data e =
    (Ok (StoreAndRelay (e_message_id e)),
     with_counter (with_store self (mesh_insert exp serialize (now_ms / 1000) (re_store self)
                                      (stored_of data (now_ms / 1000) e)).2)
       (if is_cover e then re_relay_count_this_hour self else re_relay_count_this_hour self + 1)
       (re_hour_start self)).
Proof.
  intros [Hc1 Hc2] Hn. unfold store_and_relay.
  assert ((mesh_insert exp serialize (now_ms / 1000) (re_store self) (stored_of data (now_ms / 1000) e)).1 = true) as Hi.
  { unfold mesh_insert. cbn [s_message_id stored_of]. by rewrite Hn. }
  destruct (mesh_insert _ _ _ _ _) as [ins store]. cbn [fst snd] in *. subst ins. cbn [negb].
  destruct (is_cover e); [by destruct self|].
  cbn [re_relay_count_this_hour with_store]. rewrite chk_u_ok; [done|]. unfold in_u, u32_max in *. lia.
Qed.

(** Everything [process_incoming_from] can do, in terms of the envelope and the engine. *)
Lemma process_incoming_cases now_ms self data sender r self' :
  counted self -> 0 <= now_ms - re_hour_start self -> now_ms < 2 ^ 64 -> 0 <= re_hour_start self ->
  process_incoming_from lz4_decompress exp serialize now_ms self data sender = (r, self') ->
  (exists e limited,
     envelope_from_bytes lz4_decompress data = Ok e /\ relayable now_ms self e /\
     r = Ok (StoreAndRelay (e_message_id e)) /\
     limited = (if is_cover e then self
                else if HOUR_MS <? now_ms - re_hour_start self then with_counter self 0 now_ms else self) /\
     (is_cover e = false -> 0 < rc_max_relay_per_hour (re_config self) ->
      re_relay_count_this_hour limited < rc_max_relay_per_hour (re_config self)) /\
     self' = with_counter (with_store limited (mesh_insert exp serialize (now_ms / 1000) (re_store self)
                                                 (stored_of data (now_ms / 1000) e)).2)
               (if is_cover e then re_relay_count_this_hour limited else re_relay_count_this_hour limited + 1)
               (re_hour_start limited)) \/
  ((forall id, r <> Ok (StoreAndRelay id)) /\
   (self' = self \/ (HOUR_MS < now_ms - re_hour_start self /\ self' = with_counter self 0 now_ms))).
Proof.
  intros Hc H0 H1 H2 H. unfold process_incoming_from in H.
  destruct (envelope_from_bytes lz4_decompress data) as [e| |] eqn:He;
    [|right; injection H as <- <-; auto|right; injection H as <- <-; auto].
  cbv zeta in H.
  destruct (is_spam _); [right; injection H as <- <-; auto|].
  destruct (envelope_is_expired (now_ms / 1000) e) eqn:Hexp; [right; injection H as <- <-; auto|].
  destruct (mesh_contains (re_store self) (e_message_id e)) eqn:Hdup; [right; injection H as <- <-; auto|].
  case_bool_decide as Hhint; [right; destruct (_ || _); injection H as <- <-; auto|].
  case_bool_decide as Hst; [right; injection H as <- <-; auto|].
  destruct (Z.leb_spec (rc_max_hop_count (re_config self)) (e_hop_count e)); [right; injection H as <- <-; auto|].
  destruct (Z.ltb_spec (e_priority e) (rc_min_relay_priority (re_config self))); [right; injection H as <- <-; auto|].
  assert (relayable now_ms self e) as Hrel.
  { split_and!; try done; [by destruct (re_state self)|].
    unfold mesh_contains in Hdup. apply bool_decide_eq_false, eq_None_not_Some in Hdup. done. }
  destruct (is_cover e) eqn:Hcov.
  - left. exists e, self. rewrite Hcov. rewrite store_and_relay_ok in H by (done || apply Hrel). rewrite Hcov in H.
    injection H as <- <-. by split_and!.
  - unfold check_rate_limit in H. rewrite chk_u_ok in H by (unfold in_u; lia). cbn [rbind] in H.
    set (limited := if HOUR_MS <? now_ms - re_hour_start self then with_counter self 0 now_ms else self) in *.
    assert (counted limited /\ re_config limited = re_config self /\ re_store limited = re_store self) as (Hcl & Hcfg & Hsto).
    { unfold limited. case_if; split_and!; try done. }
    rewrite Hcfg in H. destruct (_ && _) eqn:C.
    + right. injection H as <- <-. split; [done|]. unfold limited. destruct (HOUR_MS <? _) eqn:Hh; bool_to_prop; auto.
    + left. exists e, limited. rewrite Hcov. rewrite store_and_relay_ok in H by (done || rewrite Hsto; apply Hrel).
      rewrite Hcov, Hsto in H. injection H as <- <-. split_and!; try done.
      intros _ Hmax. apply andb_false_iff in C as [C|C]; bool_to_prop; lia.
Qed.

(** *** The hourly budget *)

(** One incoming envelope at one time. *)
Record arrival : Type := mkArrival { ar_time : Z; ar_data : bytes; ar_sender : option string }.

Definition relays_counted (data : bytes) (r : res DriftError RelayDecision) : bool :=
  match r, envelope_from_bytes lz4_decompress data with
  | Ok (StoreAndRelay _), Ok e => negb (is_cover e)
  | _, _ => false
  end.

(** The engine after the arrivals, with the times at which it relayed an envelope that counts. *)
Definition relay_step (acc : RelayEngine B R * list Z) (a : arrival) : RelayEngine B R * list Z :=
  let '(self, times) := acc in
  let '(r, self') := process_incoming_from lz4_decompress exp serialize (ar_time a) self (ar_data a) (ar_sender a) in
  (self', if relays_counted (ar_data a) r then times ++ [ar_time a] else times).

Definition relay_run self (h : list arrival) : RelayEngine B R * list Z := foldl relay_step (self, []) h.

Definition within (u : Z) (times : list Z) : list Z := filter (fun t => u <= t <= u + HOUR_MS) times.

(** The relays before the previous window, in the previous window, and in the current one. *)
Definition windowed (max now : Z) self (times : list Z) : Prop :=
  exists old prev cur hp,
    times = old ++ prev ++ cur /\ zlen prev <= max /\ zlen cur = re_relay_count_this_hour self /\
    zlen cur <= max /\ rc_max_relay_per_hour (re_config self) = max /\
    Forall (fun t => t <= hp) old /\ hp + HOUR_MS < re_hour_start self /\
    Forall (fun t => t <= re_hour_start self) prev /\
    Forall (fun t => t <= now) cur /\ 0 <= re_hour_start self <= now /\
    forall u, zlen (within u times) <= 2 * max.

Lemma zlen_within u times : zlen (within u times) <= zlen times.
Proof. unfold within, zlen. apply inj_le, length_filter. Qed.

Lemma within_app u l1 l2 : within u (l1 ++ l2) = within u l1 ++ within u l2.
Proof. apply filter_app. Qed.

Lemma within_none u h l : h < u -> Forall (fun t => t <= h) l -> within u l = [].
Proof.
  intros Hu. induction 1 as [|t l Ht _ IH]; [done|]. unfold within in *. rewrite filter_cons, decide_False by lia. done.
Qed.

Lemma windowed_later max now now' self times :
  now <= now' -> windowed max now self times -> windowed max now' self times.
Proof.
  intros Hn (old & prev & cur & hp & H1 & H2 & H3 & H4 & H5 & H6 & H7 & H8 & H9 & H10 & H11).
  exists old, prev, cur, hp. split_and!; try done; [|lia|lia].
  eapply Forall_impl; [exact H9|]. cbn. lia.
Qed.

Lemma windowed_reset max now self times :
  0 < max -> HOUR_MS < now - re_hour_start self -> windowed max now self times ->
  windowed max now (with_counter self 0 now) times.
Proof.
  intros Hm Hh (old & prev & cur & hp & -> & H2 & H3 & H4 & H5 & H6 & H7 & H8 & H9 & H10 & H11).
  exists (old ++ prev), cur, [], (re_hour_start self). cbn [re_hour_start re_config re_relay_count_this_hour with_counter].
  rewrite <-app_assoc, app_nil_r. split_and!; try done; try (autorewrite with zlen; lia).
  - apply Forall_app; split; [|done]. eapply Forall_impl; [exact H6|]. unfold HOUR_MS in *. cbn. lia.
Qed.

Lemma windowed_relay max now self store times :
  re_relay_count_this_hour self < max -> windowed max now self times ->
  windowed max now (with_counter (with_store self store) (re_relay_count_this_hour self + 1) (re_hour_start self))
    (times ++ [now]).
Proof.
  intros Hm (old & prev & cur & hp & -> & H2 & H3 & H4 & H5 & H6 & H7 & H8 & H9 & H10 & H11).
  exists old, prev, (cur ++ [now]), hp. cbn [re_hour_start re_config re_relay_count_this_hour with_counter with_store].
  rewrite <-!app_assoc. split_and!; try done; try (autorewrite with zlen; lia).
  - apply Forall_app; split; [done|]. by constructor.
  - intros u. rewrite !app_assoc. rewrite within_app. unfold within at 2. rewrite filter_cons, filter_nil.
    case_decide as Hu; [|rewrite app_nil_r, <-app_assoc; apply H11].
    rewrite <-app_assoc, !within_app, (within_none u hp old) by (done || lia). cbn [app].
    pose proof (zlen_within u prev). pose proof (zlen_within u cur). autorewrite with zlen. lia.
Qed.

Lemma relay_step_windowed max now self times a :
  0 < max < u32_max -> windowed max now self times -> now <= ar_time a < 2 ^ 64 ->
  let '(self', times') := relay_step (self, times) a in windowed max (ar_time a) self' times'.
Proof.
  intros Hm Hw Ha. unfold relay_step.
  destruct (process_incoming_from _ _ _ _ _ _ _) as [r self'] eqn:Hp.
  apply (windowed_later _ _ (ar_time a)) in Hw; [|lia].
  pose proof Hw as (old & prev & cur & hp & _ & _ & H3 & H4 & H5 & _ & _ & _ & _ & H10 & _).
  pose proof (zlen_nonneg cur).
  assert (forall s, windowed max (ar_time a) s times -> re_hour_start s <= ar_time a) as Hhs.
  { by intros s (? & ? & ? & ? & _ & _ & _ & _ & _ & _ & _ & _ & _ & [_ ?] & _). }
  assert (forall s, s = self \/ (HOUR_MS < ar_time a - re_hour_start self /\ s = with_counter self 0 (ar_time a)) ->
    windowed max (ar_time a) s times) as Hlim.
  { intros s [->|[Hh ->]]; [done|by apply windowed_reset; [lia|..]]. }
  apply process_incoming_cases in Hp as [(e & limited & He & Hrel & -> & -> & Hlt & ->)|[Hr Hs]]; [| |split; lia|lia|lia|lia].
  - unfold relays_counted. rewrite He. destruct (is_cover e) eqn:Hcov; cbn [negb].
    + destruct self; exact Hw.
    + set (limited := if HOUR_MS <? _ then _ else _) in *.
      assert (windowed max (ar_time a) limited times) as Hwl.
      { apply Hlim. unfold limited. case_if; bool_to_prop; auto. }
      apply windowed_relay; [|done]. rewrite <-H5. apply Hlt; [done|lia].
  - assert (relays_counted (ar_data a) r = false) as ->.
    { unfold relays_counted. destruct r as [[]| |]; try done. by exfalso; eapply Hr. }
    by apply Hlim.
Qed.

(** ** Properties *)

(** One toggle: an envelope is stored only by an active node, and only if it is for someone
    else, new, unexpired, within the hop limit and the priority floor; it is stored byte for byte as
    it came (with its hop count as received) and, if the store had room, is found there.  Every other
    outcome, errors included, leaves the store as it was, and a dormant node refuses to send. *)
Theorem relay_store_sound now_ms self data sender :
  counted self -> 0 <= re_hour_start self <= now_ms -> now_ms < 2 ^ 64 ->
  let '(r, self') := process_incoming_from lz4_decompress exp serialize now_ms self data sender in
  (forall id, r = Ok (StoreAndRelay id) ->
   exists e, envelope_from_bytes lz4_decompress data = Ok e /\ id = e_message_id e /\ relayable now_ms self e /\
     (mesh_len (re_store self) < m_max_messages (re_store self) ->
      m_messages (re_store self') = <[id := stored_of data (now_ms / 1000) e]> (m_messages (re_store self)))) /\
  ((forall id, r <> Ok (StoreAndRelay id)) -> re_store self' = re_store self) /\
  (re_state self = Dormant ->
   re_store self' = re_store self /\ forall e, prepare_outgoing lz4_compress self e = Err RE_NetworkDormant).
Proof.
  intros Hc Hh Hn. destruct (process_incoming_from _ _ _ _ _ _ _) as [r self'] eqn:Hp.
  apply process_incoming_cases in Hp as [(e & limited & He & Hrel & -> & -> & _ & ->)|[Hr Hs]]; [| |done|lia|lia|lia].
  - split_and!.
    + intros id [= <-]. exists e. split_and!; try done; [apply Hrel..|]. intros Hroom.
      cbn [re_store with_counter with_store]. destruct Hrel as (_ & _ & Hnew & _).
      by destruct (mesh_insert_room exp serialize (now_ms / 1000) (re_store self) (stored_of data (now_ms / 1000) e)) as [-> _].
    + intros H. exfalso. by eapply H.
    + intros Hd. destruct Hrel as [Ha _]. congruence.
  - assert (re_store self' = re_store self) as Hst by (by destruct Hs as [->|[_ ->]]).
    split_and!; [|done|].
    + intros id ->. exfalso. by eapply Hr.
    + intros Hd. split; [done|]. intros e. unfold prepare_outgoing. by rewrite bool_decide_eq_true_2.
Qed.

(** C10: the hourly budget: from a fresh engine, for any arrivals with a clock that does not go
    back, no interval of one hour contains more than twice the configured number of relayed
    envelopes (cover traffic does not count); the factor two is the price of fixed windows. *)
Theorem relay_rate_bound now0 pk config (h : list arrival) :
  0 < rc_max_relay_per_hour config < u32_max -> HOUR_MS < now0 ->
  StronglySorted Z.le (now0 :: (ar_time <$> h)) -> Forall (fun a => ar_time a < 2 ^ 64) h ->
  forall u, zlen (within u (relay_run (set_network_state (engine_new blake3 now0 pk config) Active) h).2)
            <= 2 * rc_max_relay_per_hour config.
Proof.
  intros Hm H0 Hs Hb. set (max := rc_max_relay_per_hour config) in *. unfold relay_run.
  set (eng := set_network_state (engine_new blake3 now0 pk config) Active).
  assert (windowed max now0 eng []) as Hw.
  { exists [], [], [], (-1). split_and!; try done; try (autorewrite with zlen; lia).
    - change (-1 + HOUR_MS < now0). lia.
    - change (0 <= now0). unfold HOUR_MS in H0. lia.
    - intros u. change (within u []) with (@nil Z). autorewrite with zlen. lia. }
  revert Hw. generalize eng (@nil Z). clear eng. revert now0 H0 Hs.
  induction h as [|a h IH]; intros now0 H0 Hs eng times Hw u; cbn [foldl].
  { destruct Hw as (? & ? & ? & ? & _ & _ & _ & _ & _ & _ & _ & _ & _ & _ & Hu). apply Hu. }
  rewrite fmap_cons in Hs. inversion Hs as [|? ? Hs' Hall]; subst. apply Forall_cons in Hall as [Hle _].
  apply Forall_cons in Hb as [Hb1 Hb].
  pose proof (relay_step_windowed max now0 eng times a Hm Hw ltac:(lia)) as Hstep.
  destruct (relay_step (eng, times) a) as [eng' times']. apply (IH Hb (ar_time a)); [lia|done|done].
Qed.

End RelayFacts.

(** ** Concrete inputs *)

#[local] Existing Instance canonical_iter.
#[local] Instance relay_build : Build := {| overflow_checks := true |}.
#[local] Instance trusting : ReputationManager unit :=
  {| get_enhanced_score _ _ := mkScore false (f64 0) |}.

Definition relay_bytes (n : Z) : bytes :=
  bytes_of (envelope_to_bytes toy_compress
    { sample_plain_envelope with e_message_id := replicate 16 (byte.of_Z n); e_ttl_expiry := 0 }).

Definition relay_start (max : Z) : RelayEngine MemoryStorage unit :=
  set_network_state (engine_new toy_blake3 5000000 (replicate 32 Byte.x07) (mkConfig max 16 0 20 true)) Active.

Lemma relay_store_sound_witness :
  exists r self',
    process_incoming_from toy_decompress (fun x => x) bincode_stored 6000000 (relay_start 2) (relay_bytes 1) None
      = (r, self') /\
    r = Ok (StoreAndRelay (replicate 16 Byte.x01)) /\
    exists e, envelope_from_bytes toy_decompress (relay_bytes 1) = Ok e /\ relayable 6000000 (relay_start 2) e.
Proof.
  pose proof (relay_store_sound toy_compress toy_decompress (fun x => x) bincode_stored 6000000 (relay_start 2)
    (relay_bytes 1) None) as H.
  assert ((process_incoming_from toy_decompress (fun x => x) bincode_stored 6000000 (relay_start 2) (relay_bytes 1) None).1
          = Ok (StoreAndRelay (replicate 16 Byte.x01))) as Hr by (vm_compute; reflexivity).
  destruct (process_incoming_from _ _ _ _ _ _ _) as [r self'] eqn:Hp. exists r, self'. split; [reflexivity|].
  cbn [fst] in Hr. split; [exact Hr|]. destruct H as [H _]; [by vm_compute|by vm_compute|by vm_compute|].
  destruct (H (replicate 16 Byte.x01) Hr) as (e & He & _ & Hrel & _). exists e. split; [exact He|exact Hrel].
Defined.

(** A budget of one: two relays in an hour, across a window boundary. *)
Lemma relay_rate_bound_witness :
  let h := [mkArrival 8500000 (relay_bytes 1) None; mkArrival 8500001 (relay_bytes 2) None;
            mkArrival 8600001 (relay_bytes 3) None] in
  let times := (relay_run toy_decompress (fun x => x) bincode_stored (relay_start 1) h).2 in
  times = [8500000; 8600001] /\ forall u, zlen (within u times) <= 2.
Proof.
  cbv zeta. split; [vm_compute; reflexivity|].
  apply (relay_rate_bound toy_decompress toy_blake3 (fun x => x) bincode_stored 5000000 (replicate 32 Byte.x07)
    (mkConfig 1 16 0 20 true)).
  - by vm_compute.
  - by vm_compute.
  - repeat (constructor; [|repeat constructor; cbn; lia]). constructor.
  - repeat (apply Forall_cons_2; [by vm_compute|]). apply Forall_nil_2.
Defined.
