(* ===== verification/Outbox.v ===== *)
(** * The outbox ([core/src/store/outbox.rs])

    Messages queued for peers that may be offline, in memory or in a storage
    backend, and the retry policy.  [bincode] is a parameter for each of the two
    record layouts it reads and the one it writes.  The outboxes the program
    builds ([Outbox::new], [Outbox::persistent]) have no storage manager, so the
    maintenance hook after [enqueue] does nothing.  [usize] is 64 bits wide. *)

From stdpp Require Import pretty.
From S2P Require Import Prelude Backend.

(** ** Data *)

Definition MAX_QUEUE_PER_PEER : Z := 1000.
Definition MAX_TOTAL_QUEUED : Z := 10000.
Definition MAX_DELIVERY_ATTEMPTS : Z := 12.
Definition QUEUE_PREFIX : bytes := str_bytes "outbox_".

Inductive MessageState : Type := Enqueued | Sent | Failed.

#[global] Instance MessageState_eq_dec : EqDecision MessageState.
Proof. solve_decision. Defined.

Record QueuedMessage : Type := mkQueued {
  q_version : Z;
  q_message_id : string;
  q_recipient_id : string;
  q_envelope_data : bytes;
  q_queued_at : Z;
  q_attempts : Z;
  q_next_retry_at : option Z;
  q_in_custody : bool;
  q_custody_established_at : Z;
  q_state : MessageState;
}.

#[global] Instance QueuedMessage_eq_dec : EqDecision QueuedMessage.
Proof. solve_decision. Defined.

Record LegacyQueuedMessage : Type := mkLegacyQueued {
  lq_message_id : string;
  lq_recipient_id : string;
  lq_envelope_data : bytes;
  lq_queued_at : Z;
  lq_attempts : Z;
  lq_next_retry_at : option Z;
  lq_in_custody : bool;
  lq_custody_established_at : Z;
  lq_state : MessageState;
}.

(** [OutboxBackend], which with no storage manager is all there is in an [Outbox]. *)
Inductive Outbox (B : Type) : Type :=
| OutMemory (queues : gmap string (list QueuedMessage)) (total : Z)
| OutPersistent (db : B).

Arguments OutMemory {B}.
Arguments OutPersistent {B}.

Definition set_attempts (m : QueuedMessage) (n : Z) : QueuedMessage :=
  mkQueued (q_version m) (q_message_id m) (q_recipient_id m) (q_envelope_data m) (q_queued_at m) n
    (q_next_retry_at m) (q_in_custody m) (q_custody_established_at m) (q_state m).

Definition set_custody (m : QueuedMessage) (c : bool) (at_ : Z) : QueuedMessage :=
  mkQueued (q_version m) (q_message_id m) (q_recipient_id m) (q_envelope_data m) (q_queued_at m) (q_attempts m)
    (q_next_retry_at m) c at_ (q_state m).

Definition set_state (m : QueuedMessage) (s : MessageState) : QueuedMessage :=
  mkQueued (q_version m) (q_message_id m) (q_recipient_id m) (q_envelope_data m) (q_queued_at m) (q_attempts m)
    (q_next_retry_at m) (q_in_custody m) (q_custody_established_at m) s.

(** ** Operations *)

Section Outbox.
Context {BM : Build} {B : Type} {SB : StorageBackend B} {HI : HashIter string (list QueuedMessage)}.
Context (serialize : QueuedMessage -> res string bytes).
Context (deserialize : bytes -> res string QueuedMessage) (deserialize_legacy : bytes -> res string LegacyQueuedMessage).

Definition deserialize_queued_message (data : bytes) : res string QueuedMessage :=
  match data with
  | [] => Err "empty"%string
  | b :: _ =>
      if byte.unsigned b =? 1 then deserialize data
      else
        let! l := deserialize_legacy data in
        Ok (mkQueued 1 (lq_message_id l) (lq_recipient_id l) (lq_envelope_data l) (lq_queued_at l)
              (lq_attempts l) (lq_next_retry_at l) (lq_in_custody l) (lq_custody_established_at l) (lq_state l))
  end.

Definition outbox_new : Outbox B := OutMemory ∅ 0.
Definition outbox_persistent (db : B) : Outbox B := OutPersistent db.

Definition peer_prefix (recipient_id : string) : bytes := QUEUE_PREFIX ++ str_bytes recipient_id ++ str_bytes "_".

Definition message_key (m : QueuedMessage) : bytes := peer_prefix (q_recipient_id m) ++ str_bytes (q_message_id m).

Definition ERR_FULL : string := "Outbox full (10000 messages)".
Definition err_peer_full (peer : string) : string :=
  String.append "Queue full for peer " (String.append peer " (1000 messages)").

(** [.unwrap_or(0)]. *)
Definition unwrap_or {A} (r : res string A) (d : A) : A := match r with Ok a => a | _ => d end.

(** [if let Ok(results) = db.scan_prefix(prefix)], empty otherwise. *)
Definition scan_or_nil (db : B) (prefix : bytes) : list (bytes * bytes) := unwrap_or (be_scan_prefix db prefix) [].

(** [let _ = db.op(...)]: the backend after an operation whose failure is ignored. *)
Definition ignored (db : B) (r : res string B) : B := unwrap_or r db.

Definition enqueue (self : Outbox B) (msg : QueuedMessage) : res string unit * Outbox B :=
  match self with
  | OutMemory queues total =>
      if MAX_TOTAL_QUEUED <=? total then (Err ERR_FULL, self)
      else
        let queue := default [] (queues !! q_recipient_id msg) in
        if MAX_QUEUE_PER_PEER <=? zlen queue
        then (Err (err_peer_full (q_recipient_id msg)), OutMemory (<[q_recipient_id msg := queue]> queues) total)
        else
          let queues := <[q_recipient_id msg := queue ++ [msg]]> queues in
          match chk_u 64 (total + 1) with
          | Ok total => (Ok tt, OutMemory queues total)
          | Err e => (Err e, OutMemory queues total)
          | Panic => (Panic, OutMemory queues total)
          end
  | OutPersistent db =>
      if MAX_TOTAL_QUEUED <=? unwrap_or (be_count_prefix db QUEUE_PREFIX) 0 then (Err ERR_FULL, self)
      else if MAX_QUEUE_PER_PEER <=? unwrap_or (be_count_prefix db (peer_prefix (q_recipient_id msg))) 0
      then (Err (err_peer_full (q_recipient_id msg)), self)
      else
        match serialize msg with
        | Ok bytes =>
            match be_put db (message_key msg) bytes with
            | Ok db => match be_flush db with
                       | Ok db => (Ok tt, OutPersistent db)
                       | Err e => (Err e, OutPersistent db)
                       | Panic => (Panic, OutPersistent db)
                       end
            | Err e => (Err e, self)
            | Panic => (Panic, self)
            end
        | _ => (Ok tt, self)
        end
  end.

(** The scanned entries that deserialize. *)
Definition entries (db : B) (prefix : bytes) : list (bytes * QueuedMessage) :=
  omap (fun kv => match deserialize_queued_message kv.2 with Ok m => Some (kv.1, m) | _ => None end)
    (scan_or_nil db prefix).

Definition peek_for_peer (self : Outbox B) (recipient_id : string) : list QueuedMessage :=
  match self with
  | OutMemory queues _ => default [] (queues !! recipient_id)
  | OutPersistent db => (entries db (peer_prefix recipient_id)).*2
  end.

Definition pending (self : Outbox B) : list QueuedMessage :=
  match self with
  | OutMemory queues _ => filter (fun m => q_state m = Enqueued) (concat (hm_iter queues).*2)
  | OutPersistent db => filter (fun m => q_state m = Enqueued) (entries db QUEUE_PREFIX).*2
  end.

(** The first queue, in iteration order, that has the message, with its position there. *)
Definition find_queued (queues : gmap string (list QueuedMessage)) (message_id : string)
  : option (string * list QueuedMessage * nat * QueuedMessage) :=
  foldr (fun '(peer, q) acc =>
      match list_find (fun m => q_message_id m = message_id) q with
      | Some (pos, m) => Some (peer, q, pos, m)
      | None => acc
      end) None (hm_iter queues).

(** The first scanned entry that has the message. *)
Definition find_entry (db : B) (message_id : string) : option (bytes * QueuedMessage) :=
  snd <$> list_find (fun km => q_message_id km.2 = message_id) (entries db QUEUE_PREFIX).

Definition outbox_remove (self : Outbox B) (message_id : string) : res string (bool * Outbox B) :=
  match self with
  | OutMemory queues total =>
      match find_queued queues message_id with
      | Some (peer, q, pos, _) =>
          let! total := chk_u 64 (total - 1) in
          Ok (true, OutMemory (<[peer := delete pos q]> queues) total)
      | None => Ok (false, self)
      end
  | OutPersistent db =>
      match find_entry db message_id with
      | Some (key, _) =>
          let db := ignored db (be_remove db key) in
          Ok (true, OutPersistent (ignored db (be_flush db)))
      | None => Ok (false, self)
      end
  end.

(** [for key in keys_to_remove { let _ = db.remove(&key); } let _ = db.flush();]. *)
Definition remove_keys (db : B) (keys : list bytes) : B :=
  let db := foldl (fun db key => ignored db (be_remove db key)) db keys in
  ignored db (be_flush db).

Definition drain_for_peer (self : Outbox B) (recipient_id : string) : res string (list QueuedMessage * Outbox B) :=
  match self with
  | OutMemory queues total =>
      match queues !! recipient_id with
      | Some queue =>
          let! total := chk_u 64 (total - zlen queue) in
          Ok (filter (fun m => q_in_custody m = false) queue, OutMemory (delete recipient_id queues) total)
      | None => Ok ([], self)
      end
  | OutPersistent db =>
      let drained := filter (fun km => q_in_custody km.2 = false) (entries db (peer_prefix recipient_id)) in
      Ok (drained.*2, OutPersistent (remove_keys db drained.*1))
  end.

(** Retry times above 10^10 are milliseconds, smaller ones seconds. *)
Definition is_due (now_ms : Z) (next_retry : option Z) : bool :=
  match next_retry with
  | None => true
  | Some val => if 10000000000 <? val then val <=? now_ms else val <=? now_ms / 1000
  end.

(** Flushed now: not in custody, still enqueued, and due. *)
Definition deliverable (now_ms : Z) (m : QueuedMessage) : bool :=
  negb (q_in_custody m) && bool_decide (q_state m = Enqueued) && is_due now_ms (q_next_retry_at m).

Definition flush_peer_messages (now_ms : Z) (self : Outbox B) (recipient_id : string)
  : res string (list QueuedMessage * Outbox B) :=
  match self with
  | OutMemory queues total =>
      match queues !! recipient_id with
      | Some queue =>
          let drained := filter (fun m => Is_true (deliverable now_ms m)) queue in
          let remaining := filter (fun m => ~ Is_true (deliverable now_ms m)) queue in
          let! total := chk_u 64 (total - zlen drained) in
          Ok (drained, OutMemory (if decide (remaining = []) then delete recipient_id queues
                                  else <[recipient_id := remaining]> queues) total)
      | None => Ok ([], self)
      end
  | OutPersistent db =>
      let due := filter (fun km => Is_true (deliverable now_ms km.2)) (entries db (peer_prefix recipient_id)) in
      Ok (due.*2, OutPersistent (remove_keys db due.*1))
  end.

(** Rewrite the first message with the given id; [f] gives the new message and the result. *)
Definition update_message (self : Outbox B) (message_id : string) (f : QueuedMessage -> option QueuedMessage * bool)
  : bool * Outbox B :=
  match self with
  | OutMemory queues total =>
      match find_queued queues message_id with
      | Some (peer, q, pos, m) =>
          let '(m', r) := f m in
          (r, match m' with Some m' => OutMemory (<[peer := <[pos := m']> q]> queues) total | None => self end)
      | None => (false, self)
      end
  | OutPersistent db =>
      match find_entry db message_id with
      | Some (key, m) =>
          let '(m', r) := f m in
          (r, match m' with
              | Some m' =>
                  match serialize m' with
                  | Ok bytes =>
                      let db := ignored db (be_put db key bytes) in
                      OutPersistent (ignored db (be_flush db))
                  | _ => self
                  end
              | None => self
              end)
      | None => (false, self)
      end
  end.

Definition record_attempt (self : Outbox B) (message_id : string) : bool * Outbox B :=
  update_message self message_id (fun m =>
    if q_in_custody m then (None, false)
    else
      let attempts := sat_add 32 (q_attempts m) 1 in
      (Some (set_attempts m attempts), MAX_DELIVERY_ATTEMPTS <=? attempts)).

Definition mark_in_custody (self : Outbox B) (message_id : string) (custody_established_at : Z) : bool * Outbox B :=
  update_message self message_id (fun m => (Some (set_custody m true custody_established_at), true)).

Definition mark_not_in_custody (self : Outbox B) (message_id : string) : bool * Outbox B :=
  update_message self message_id (fun m => (Some (set_custody m false 0), true)).

Definition mark_sent (self : Outbox B) (message_id : string) : bool * Outbox B :=
  update_message self message_id (fun m => (Some (set_state m Sent), true)).

Definition mark_failed (self : Outbox B) (message_id : string) : bool * Outbox B :=
  update_message self message_id (fun m => (Some (set_state m Failed), true)).

Definition is_in_custody (self : Outbox B) (message_id : string) : bool :=
  match self with
  | OutMemory queues _ =>
      match find_queued queues message_id with Some (_, _, _, m) => q_in_custody m | None => false end
  | OutPersistent db =>
      match find_entry db message_id with Some (_, m) => q_in_custody m | None => false end
  end.

Definition total_count (self : Outbox B) : Z :=
  match self with
  | OutMemory _ total => total
  | OutPersistent db => unwrap_or (be_count_prefix db QUEUE_PREFIX) 0
  end.

Definition peer_count (self : Outbox B) : Z :=
  match self with
  | OutMemory queues _ => Z.of_nat (size queues)
  | OutPersistent db =>
      Z.of_nat (size (list_to_set (q_recipient_id <$> (entries db QUEUE_PREFIX).*2) : gset string))
  end.

Definition fresh_enough (now max_age_secs : Z) (m : QueuedMessage) : bool :=
  sat_sub now (q_queued_at m) <? max_age_secs.

Definition outbox_remove_expired (now max_age_secs : Z) (self : Outbox B) : res string (Z * Outbox B) :=
  match self with
  | OutMemory queues total =>
      let kept := (fun q => filter (fun m => Is_true (fresh_enough now max_age_secs m)) q) <$> queues in
      let removed := foldr (fun q acc => zlen q - zlen (filter (fun m => Is_true (fresh_enough now max_age_secs m)) q) + acc)
                       0 (hm_iter queues).*2 in
      let! total := chk_u 64 (total - removed) in
      Ok (removed, OutMemory (filter (fun kq => kq.2 <> []) kept) total)
  | OutPersistent db =>
      let old := filter (fun km => ~ Is_true (fresh_enough now max_age_secs km.2)) (entries db QUEUE_PREFIX) in
      Ok (zlen old, OutPersistent (remove_keys db old.*1))
  end.

End Outbox.

(** ** The retry policy *)

Record RetryPolicy : Type := mkRetry {
  rp_max_retries : Z;
  rp_initial_delay_ms : Z;
  rp_backoff_factor : Z;
  rp_suppress_on_custody : bool;
}.

Definition default_retry_policy : RetryPolicy := mkRetry 3 100 2 true.

(** [attempt - 2] is checked 32-bit arithmetic. *)
Definition delay_for_attempt {BM : Build} (p : RetryPolicy) (attempt : Z) : res string (option Z) :=
  if rp_max_retries p <? attempt then Ok None
  else if attempt =? 1 then Ok (Some 0)
  else
    let! power := chk_u 32 (attempt - 2) in
    let multiplier := sat_pow 64 (rp_backoff_factor p) power in
    Ok (Some (sat_mul 64 (rp_initial_delay_ms p) multiplier)).

Definition can_retry (p : RetryPolicy) (attempt : Z) : bool := attempt <? rp_max_retries p.

(** ** Counting queued messages *)

Definition qsum (l : list (string * list QueuedMessage)) : Z := foldr (fun kq acc => zlen kq.2 + acc) 0 l.

Definition queue_sum (queues : gmap string (list QueuedMessage)) : Z := qsum (map_to_list queues).

Lemma qsum_cons k q l : qsum ((k, q) :: l) = zlen q + qsum l.
Proof. done. Qed.

#[export] Instance qsum_proper : Proper ((≡ₚ) ==> (=)) qsum.
Proof. intros l1 l2 Hl. unfold qsum. induction Hl; cbn in *; lia. Qed.

Lemma queue_sum_empty : queue_sum ∅ = 0.
Proof. unfold queue_sum. by rewrite map_to_list_empty. Qed.

Lemma queue_sum_delete queues k :
  queue_sum (delete k queues) = queue_sum queues - zlen (default [] (queues !! k)).
Proof.
  unfold queue_sum. destruct (queues !! k) as [q|] eqn:Hk.
  - rewrite <-(map_to_list_delete queues k q Hk), qsum_cons. cbn [default from_option id]. lia.
  - rewrite delete_id by done. cbn [default from_option id]. rewrite zlen_nil. lia.
Qed.

Lemma queue_sum_insert queues k q :
  queue_sum (<[k := q]> queues) = queue_sum queues - zlen (default [] (queues !! k)) + zlen q.
Proof.
  rewrite <-insert_delete_eq. unfold queue_sum at 1.
  rewrite map_to_list_insert by apply lookup_delete_eq.
  pose proof (queue_sum_delete queues k) as Hd. unfold queue_sum at 1 in Hd. rewrite qsum_cons. lia.
Qed.

Lemma queue_sum_lookup queues k q : queues !! k = Some q -> 0 <= zlen q <= queue_sum queues.
Proof.
  intros Hk. split; [apply zlen_nonneg|]. unfold queue_sum.
  rewrite <-(map_to_list_delete queues k q Hk), qsum_cons.
  enough (forall l, 0 <= qsum l) as H by (specialize (H (map_to_list (delete k queues))); lia).
  induction l as [|[k' q'] l IH]; [done|]. rewrite qsum_cons. pose proof (zlen_nonneg q'). lia.
Qed.

(** Dropping empty queues and keeping parts of queues. *)
Lemma queue_sum_filter_nonempty queues : queue_sum (filter (fun kq => kq.2 <> []) queues) = queue_sum queues.
Proof.
  induction queues as [|k q queues Hk IH] using map_ind; [by rewrite map_filter_empty|].
  rewrite queue_sum_insert, Hk. cbn [default from_option id]. rewrite zlen_nil.
  destruct (decide (q = [])) as [->|Hq].
  - rewrite map_filter_insert_False by (cbn; tauto). rewrite delete_id by done.
    rewrite IH. autorewrite with zlen. lia.
  - rewrite map_filter_insert_True by done. rewrite queue_sum_insert, IH.
    replace (filter _ queues !! k) with (@None (list QueuedMessage)); [cbn [default from_option id]; rewrite zlen_nil; lia|].
    symmetry. apply map_lookup_filter_None. by left.
Qed.

Lemma zlen_filter_le {A} (P : A -> Prop) `{forall x, Decision (P x)} l : zlen (filter P l) <= zlen l.
Proof. unfold zlen. apply inj_le, length_filter. Qed.

Lemma zlen_filter_split {A} (P : A -> Prop) `{forall x, Decision (P x)} l :
  zlen l = zlen (filter P l) + zlen (filter (fun x => ~ P x) l).
Proof.
  induction l as [|x l IH]; [done|]. rewrite !filter_cons.
  destruct (decide (P x)); [rewrite decide_False by tauto|rewrite decide_True by tauto]; rewrite !zlen_cons; lia.
Qed.

(** ** The invariant of the memory outbox *)

Definition queue_ok (peer : string) (q : list QueuedMessage) : Prop :=
  zlen q <= MAX_QUEUE_PER_PEER /\ Forall (fun m => q_recipient_id m = peer) q.

Definition outbox_ok {B} (self : Outbox B) : Prop :=
  match self with
  | OutMemory queues total =>
      total = queue_sum queues /\ 0 <= total <= MAX_TOTAL_QUEUED /\ map_Forall queue_ok queues
  | OutPersistent _ => False
  end.

Lemma queue_ok_sub peer q q' : sublist q' q -> queue_ok peer q -> queue_ok peer q'.
Proof.
  intros Hs [Hl Hr]. split; [apply sublist_length in Hs; unfold zlen in *; lia|].
  apply Forall_forall. intros m Hm. eapply Forall_forall in Hr; [exact Hr|].
  by eapply elem_of_sublist.
Qed.

Section Memory.
Context {BM : Build} {B : Type} {SB : StorageBackend B} {HI : HashIter string (list QueuedMessage)}.
Context (serialize : QueuedMessage -> res string bytes).
Context (deserialize : bytes -> res string QueuedMessage) (deserialize_legacy : bytes -> res string LegacyQueuedMessage).

Implicit Types self : Outbox B.

Lemma find_queued_Some queues id peer q pos m :
  find_queued queues id = Some (peer, q, pos, m) ->
  queues !! peer = Some q /\ q !! pos = Some m /\ q_message_id m = id.
Proof.
  unfold find_queued. intros H.
  assert (forall l, (forall kq, kq ∈ l -> queues !! kq.1 = Some kq.2) ->
    foldr (fun '(peer, q) acc =>
      match list_find (fun m => q_message_id m = id) q with
      | Some (pos, m) => Some (peer, q, pos, m)
      | None => acc
      end) None l = Some (peer, q, pos, m) ->
    queues !! peer = Some q /\ q !! pos = Some m /\ q_message_id m = id) as Hl.
  { induction l as [|[p' q'] l IH]; intros Hin Hf; [done|]. cbn in Hf.
    destruct (list_find _ q') as [[pos' m']|] eqn:Hfind.
    - injection Hf as <- <- <- <-. apply list_find_Some in Hfind as (? & ? & _).
      split_and!; try done. apply (Hin (p', q')). by left.
    - apply IH; [|done]. intros; apply Hin. by right. }
  apply (Hl (hm_iter queues)); [|done]. intros [k v] Hkv. by apply elem_of_hm_iter.
Qed.

Lemma chk_usize z : 0 <= z <= MAX_TOTAL_QUEUED -> @chk_u BM string 64 z = Ok z.
Proof. intros. apply chk_u_ok. unfold in_u, MAX_TOTAL_QUEUED in *. lia. Qed.

Lemma enqueue_ok self msg :
  outbox_ok self -> outbox_ok (enqueue serialize self msg).2 /\ (enqueue serialize self msg).1 <> Panic.
Proof.
  destruct self as [queues total|db]; [|done]. intros (Ht & Hb & Hq). unfold enqueue.
  set (peer := q_recipient_id msg). set (queue := default [] (queues !! peer)).
  assert (queue_ok peer queue) as Hqk.
  { unfold queue. destruct (queues !! peer) as [q|] eqn:Hp; [by apply Hq|]. split; [by vm_compute|constructor]. }
  destruct (Z.leb_spec MAX_TOTAL_QUEUED total); [done|].
  destruct (Z.leb_spec MAX_QUEUE_PER_PEER (zlen queue)).
  - cbn. split; [|done]. split_and!; [|lia|lia|by apply map_Forall_insert_2].
    rewrite queue_sum_insert. fold queue. lia.
  - rewrite chk_usize by lia. cbn. split; [|done]. split_and!; [|lia|lia|].
    + rewrite queue_sum_insert. fold queue. rewrite zlen_app. change (zlen [msg]) with 1. lia.
    + apply map_Forall_insert_2; [|done]. destruct Hqk as [Hl Hr]. split.
      * rewrite zlen_app. change (zlen [msg]) with 1. lia.
      * apply Forall_app. split; [done|]. by repeat constructor.
Qed.

Lemma outbox_remove_ok self id :
  outbox_ok self -> exists r self', outbox_remove deserialize deserialize_legacy self id = Ok (r, self') /\ outbox_ok self'.
Proof.
  destruct self as [queues total|db]; [|done]. intros Hok. pose proof Hok as (Ht & Hb & Hq). unfold outbox_remove.
  destruct (find_queued queues id) as [[[[peer q] pos] m]|] eqn:Hf; [|by eexists _, _; split; [|exact Hok]].
  apply find_queued_Some in Hf as (Hp & Hpos & _).
  pose proof (queue_sum_lookup queues peer q Hp). pose proof (lookup_lt_Some _ _ _ Hpos) as Hlt.
  assert (zlen (delete pos q) = zlen q - 1) as Hd by (unfold zlen; rewrite length_delete by (by eexists); lia).
  assert (1 <= zlen q) by (unfold zlen; lia).
  rewrite chk_usize by lia. cbn [rbind]. eexists _, _. split; [done|]. split_and!; [|lia|lia|].
  - rewrite queue_sum_insert, Hp. change (default [] (Some q)) with q. lia.
  - apply map_Forall_insert_2; [|done]. eapply queue_ok_sub; [apply sublist_delete|by apply Hq].
Qed.

Lemma drain_ok self peer :
  outbox_ok self -> exists r self', drain_for_peer deserialize deserialize_legacy self peer = Ok (r, self') /\ outbox_ok self'.
Proof.
  destruct self as [queues total|db]; [|done]. intros Hok. pose proof Hok as (Ht & Hb & Hq). unfold drain_for_peer.
  destruct (queues !! peer) as [q|] eqn:Hp; [|by eexists _, _; split; [|exact Hok]].
  pose proof (queue_sum_lookup queues peer q Hp). rewrite chk_usize by lia. cbn [rbind].
  eexists _, _. split; [done|]. split_and!; [|lia|lia|by apply map_Forall_delete].
  rewrite queue_sum_delete, Hp. change (default [] (Some q)) with q. lia.
Qed.

Lemma flush_ok now self peer :
  outbox_ok self ->
  exists r self', flush_peer_messages deserialize deserialize_legacy now self peer = Ok (r, self') /\ outbox_ok self'.
Proof.
  destruct self as [queues total|db]; [|done]. intros Hok. pose proof Hok as (Ht & Hb & Hq). unfold flush_peer_messages.
  destruct (queues !! peer) as [q|] eqn:Hp; [|by eexists _, _; split; [|exact Hok]].
  pose proof (queue_sum_lookup queues peer q Hp).
  pose proof (zlen_filter_split (fun m => Is_true (deliverable now m)) q) as Hs.
  set (drained := filter (fun m => Is_true (deliverable now m)) q) in *.
  set (remaining := filter (fun m => ~ Is_true (deliverable now m)) q) in *.
  pose proof (zlen_nonneg drained). pose proof (zlen_nonneg remaining).
  rewrite chk_usize by lia. cbn [rbind]. eexists _, _. split; [done|]. case_decide as Hr.
  - split_and!; [|lia|lia|by apply map_Forall_delete].
    rewrite queue_sum_delete, Hp. change (default [] (Some q)) with q. rewrite Hr, zlen_nil in Hs. lia.
  - split_and!; [|lia|lia|].
    + rewrite queue_sum_insert, Hp. change (default [] (Some q)) with q. lia.
    + apply map_Forall_insert_2; [|done]. eapply queue_ok_sub; [apply sublist_filter|by apply Hq].
Qed.

(** A rewrite that keeps the recipient. *)
Lemma update_message_ok self id f :
  (forall m m' r, f m = (Some m', r) -> q_recipient_id m' = q_recipient_id m) ->
  outbox_ok self -> outbox_ok (update_message serialize deserialize deserialize_legacy self id f).2.
Proof.
  intros Hf. destruct self as [queues total|db]; [|done]. intros Hok. pose proof Hok as (Ht & Hb & Hq).
  unfold update_message. destruct (find_queued queues id) as [[[[peer q] pos] m]|] eqn:Hfind; [|done].
  apply find_queued_Some in Hfind as (Hp & Hpos & _).
  destruct (f m) as [[m'|] r] eqn:Hfm; cbn [snd]; [|done]. split_and!; [|lia|lia|].
  - rewrite queue_sum_insert, Hp. change (default [] (Some q)) with q. unfold zlen. rewrite length_insert. lia.
  - apply map_Forall_insert_2; [|done]. destruct (Hq peer q Hp) as [Hl Hr]. split.
    + unfold zlen. by rewrite length_insert.
    + apply Forall_insert; [done|]. rewrite (Hf m m' r Hfm). by eapply Forall_lookup_1 in Hr.
Qed.

Lemma qsum_fmap (g : list QueuedMessage -> list QueuedMessage) queues :
  queue_sum (g <$> queues) = foldr (fun q acc => zlen (g q) + acc) 0 (map_to_list queues).*2.
Proof.
  unfold queue_sum. rewrite map_to_list_fmap. unfold qsum.
  induction (map_to_list queues) as [|[k q] l IH]; [done|]. cbn in *. by rewrite IH.
Qed.

Lemma queue_sum_foldr queues : queue_sum queues = foldr (fun q acc => zlen q + acc) 0 (map_to_list queues).*2.
Proof.
  unfold queue_sum, qsum. induction (map_to_list queues) as [|[k q] l IH]; [done|]. cbn in *. by rewrite IH.
Qed.

Lemma foldr_Z_perm {A} (w : A -> Z) l1 l2 :
  l1 ≡ₚ l2 -> foldr (fun q acc => w q + acc) 0 l1 = foldr (fun q acc => w q + acc) 0 l2.
Proof. induction 1; cbn in *; lia. Qed.

Lemma removed_eq (g : list QueuedMessage -> list QueuedMessage) queues :
  foldr (fun q acc => zlen q - zlen (g q) + acc) 0 (hm_iter queues).*2 = queue_sum queues - queue_sum (g <$> queues).
Proof.
  rewrite (foldr_Z_perm (fun q => zlen q - zlen (g q)) _ (map_to_list queues).*2) by (by rewrite hm_iter_perm).
  rewrite qsum_fmap, queue_sum_foldr. induction (map_to_list queues).*2 as [|q l IH]; [done|]. cbn [foldr]. lia.
Qed.

Lemma queue_sum_nonneg queues : 0 <= queue_sum queues.
Proof.
  rewrite queue_sum_foldr. induction (map_to_list queues).*2 as [|q l IH]; [done|]. cbn [foldr].
  pose proof (zlen_nonneg q). lia.
Qed.

Lemma queue_sum_fmap_le (g : list QueuedMessage -> list QueuedMessage) queues :
  (forall q, zlen (g q) <= zlen q) -> queue_sum (g <$> queues) <= queue_sum queues.
Proof.
  intros Hg. rewrite qsum_fmap, queue_sum_foldr. induction (map_to_list queues).*2 as [|q l IH]; [done|].
  cbn [foldr]. specialize (Hg q). lia.
Qed.

Lemma remove_expired_ok now age self :
  outbox_ok self ->
  exists r self', outbox_remove_expired deserialize deserialize_legacy now age self = Ok (r, self') /\ outbox_ok self'.
Proof.
  destruct self as [queues total|db]; [|done]. intros (Ht & Hb & Hq). unfold outbox_remove_expired.
  set (g := fun q => filter (fun m => Is_true (fresh_enough now age m)) q).
  rewrite (removed_eq g). fold g.
  pose proof (queue_sum_nonneg (g <$> queues)).
  pose proof (queue_sum_fmap_le g queues ltac:(intros; apply zlen_filter_le)).
  rewrite chk_usize by lia. cbn [rbind]. eexists _, _. split; [done|]. split_and!; [|lia|lia|].
  - rewrite queue_sum_filter_nonempty. lia.
  - intros peer q [Hp _]%map_lookup_filter_Some. rewrite lookup_fmap in Hp.
    destruct (queues !! peer) as [q'|] eqn:Hp'; [|done]. cbn in Hp. injection Hp as <-.
    eapply queue_ok_sub; [apply sublist_filter|by apply Hq].
Qed.

(** ** Histories of the memory outbox *)

Inductive outbox_op : Type :=
| OEnqueue (m : QueuedMessage)
| ORemove (id : string)
| ODrain (peer : string)
| OFlush (now_ms : Z) (peer : string)
| OAttempt (id : string)
| OCustody (id : string) (at_ : Z)
| ONotCustody (id : string)
| OSent (id : string)
| OFailed (id : string)
| OExpire (now age : Z).

(** The next outbox, or [None] if the operation panics. *)
Definition outbox_step self (op : outbox_op) : option (Outbox B) :=
  let keep {A} (r : res string (A * Outbox B)) := match r with Ok (_, s) => Some s | _ => None end in
  match op with
  | OEnqueue m => match enqueue serialize self m with (Panic, _) => None | (_, s) => Some s end
  | ORemove id => keep (outbox_remove deserialize deserialize_legacy self id)
  | ODrain peer => keep (drain_for_peer deserialize deserialize_legacy self peer)
  | OFlush now peer => keep (flush_peer_messages deserialize deserialize_legacy now self peer)
  | OAttempt id => Some (record_attempt serialize deserialize deserialize_legacy self id).2
  | OCustody id t => Some (mark_in_custody serialize deserialize deserialize_legacy self id t).2
  | ONotCustody id => Some (mark_not_in_custody serialize deserialize deserialize_legacy self id).2
  | OSent id => Some (mark_sent serialize deserialize deserialize_legacy self id).2
  | OFailed id => Some (mark_failed serialize deserialize deserialize_legacy self id).2
  | OExpire now age => keep (outbox_remove_expired deserialize deserialize_legacy now age self)
  end.

Fixpoint outbox_run self (ops : list outbox_op) : option (Outbox B) :=
  match ops with
  | [] => Some self
  | op :: ops => self' ← outbox_step self op; outbox_run self' ops
  end.

Lemma outbox_step_ok self op : outbox_ok self -> exists self', outbox_step self op = Some self' /\ outbox_ok self'.
Proof.
  intros Hok. destruct op; cbn [outbox_step].
  - destruct (enqueue_ok self m Hok) as [H1 H2]. destruct (enqueue serialize self m) as [[| |] s]; eauto. done.
  - destruct (outbox_remove_ok self id Hok) as (r & s & -> & Hs). eauto.
  - destruct (drain_ok self peer Hok) as (r & s & -> & Hs). eauto.
  - destruct (flush_ok now_ms self peer Hok) as (r & s & -> & Hs). eauto.
  - eexists. split; [done|]. apply update_message_ok; [|done]. intros m m' r. case_match; by intros [= <- <-].
  - eexists. split; [done|]. apply update_message_ok; [|done]. by intros m m' r [= <- <-].
  - eexists. split; [done|]. apply update_message_ok; [|done]. by intros m m' r [= <- <-].
  - eexists. split; [done|]. apply update_message_ok; [|done]. by intros m m' r [= <- <-].
  - eexists. split; [done|]. apply update_message_ok; [|done]. by intros m m' r [= <- <-].
  - destruct (remove_expired_ok now age self Hok) as (r & s & -> & Hs). eauto.
Qed.

(** ** Properties *)

(** Starting from an empty memory outbox, no sequence of operations panics (the counter never
    under- or overflows), and after it the counter is the number of queued messages, at most 10,000
    messages are queued, at most 1,000 per peer, and every message is in the queue of its recipient. *)
Theorem outbox_memory_invariant (ops : list outbox_op) :
  exists queues total,
    outbox_run outbox_new ops = Some (OutMemory queues total) /\
    total = queue_sum queues /\ 0 <= total <= MAX_TOTAL_QUEUED /\ map_Forall queue_ok queues.
Proof.
  assert (forall self, outbox_ok self -> exists self', outbox_run self ops = Some self' /\ outbox_ok self') as H.
  { induction ops as [|op ops IH]; intros self Hok; [by exists self|]. cbn [outbox_run].
    destruct (outbox_step_ok self op Hok) as (s & -> & Hs). by apply IH. }
  destruct (H outbox_new) as (self & Hr & Hok).
  { split_and!; [by rewrite queue_sum_empty|lia|by vm_compute|apply map_Forall_empty]. }
  destruct self as [queues total|db]; [|done]. eauto.
Qed.

(** A message may be flushed: no relay has it in custody, it has not been sent or
    given up, and its retry time, in seconds or milliseconds, has come. *)
Definition ready (now : Z) (m : QueuedMessage) : Prop :=
  q_in_custody m = false /\ q_state m = Enqueued /\
  match q_next_retry_at m with
  | None => True
  | Some t => (10 ^ 10 < t /\ t <= now) \/ (t <= 10 ^ 10 /\ t <= now / 1000)
  end.

#[global] Instance ready_dec now m : Decision (ready now m).
Proof. unfold ready. destruct (q_next_retry_at m); apply _. Defined.

Lemma deliverable_ready now m : Is_true (deliverable now m) <-> ready now m.
Proof.
  unfold deliverable, ready, is_due. rewrite !Is_true_true, !andb_true_iff, negb_true_iff, bool_decide_eq_true.
  destruct (q_next_retry_at m) as [t|]; [|clear; tauto].
  destruct (Z.ltb_spec 10000000000 t) as [Ht|Ht]; rewrite Z.leb_le; clear -Ht; intuition lia.
Qed.


End Memory.

(** ** The persistent outbox *)

Lemma NoDup_omap_fst {K V W} (f : V -> option W) (l : list (K * V)) :
  NoDup l.*1 -> NoDup (omap (fun kv => (fun w => (kv.1, w)) <$> f kv.2) l).*1.
Proof.
  induction l as [|[k v] l IH]; cbn; [done|]. intros [Hk Hl]%NoDup_cons.
  destruct (f v) as [w|]; cbn; [|by apply IH]. apply NoDup_cons. split; [|by apply IH].
  intros ([k' w'] & Hk' & ([k2 v2] & Hin & Hf)%list_elem_of_omap)%list_elem_of_fmap. cbn in *. subst k'.
  destruct (f v2); [|done]. cbn in Hf. injection Hf as -> ->.
  apply Hk. apply list_elem_of_fmap. by exists (k, v2).
Qed.

Section Persistent.
Context {BM : Build} {B : Type} {SB : StorageBackend B} {LB : LawfulBackend B}.
Context {HI : HashIter string (list QueuedMessage)}.
Context (deserialize : bytes -> res string QueuedMessage) (deserialize_legacy : bytes -> res string LegacyQueuedMessage).

Abbreviation de := (deserialize_queued_message deserialize deserialize_legacy).
Abbreviation entries' := (entries deserialize deserialize_legacy).

Lemma elem_of_entries db p k m :
  (k, m) ∈ entries' db p <-> starts_with p k = true /\ exists v, be_view db !! k = Some v /\ de v = Ok m.
Proof.
  unfold entries, scan_or_nil. destruct (be_scan_law db p) as (l & Hl & _). rewrite Hl. cbn [unwrap_or].
  rewrite list_elem_of_omap. split.
  - intros ([k' v] & Hkv & Hd). cbn [fst snd] in Hd. destruct (de v) as [m'| |] eqn:Hde; try done.
    injection Hd as -> ->. apply (elem_of_scan _ _ _ _ _ Hl) in Hkv as [? ?]. eauto.
  - intros (Hs & v & Hv & Hde). exists (k, v). split; [by apply (elem_of_scan _ _ _ _ _ Hl)|]. cbn. by rewrite Hde.
Qed.

Lemma NoDup_entries db p : NoDup (entries' db p).*1.
Proof.
  unfold entries, scan_or_nil. destruct (be_scan_law db p) as (l & Hl & _). rewrite Hl. cbn [unwrap_or].
  apply NoDup_scan in Hl.
  replace (omap _ l) with (omap (fun kv => (fun w => (kv.1, w)) <$> (match de kv.2 with Ok m => Some m | _ => None end)) l).
  - by apply NoDup_omap_fst with (f := fun v => match de v with Ok m => Some m | _ => None end).
  - clear Hl. induction l as [|[k v] l IH]; [done|]. cbn. rewrite IH. by destruct (de v).
Qed.

Lemma remove_keys_view db keys : be_view (remove_keys db keys) = foldr delete (be_view db) keys.
Proof.
  unfold remove_keys. destruct (be_flush_law (foldl (fun db key => ignored db (be_remove db key)) db keys)) as (db' & Hf & Hv).
  unfold ignored at 1. rewrite Hf. cbn [unwrap_or]. rewrite Hv. clear Hf Hv db'. revert db.
  induction keys as [|k keys IH]; intros db; cbn [foldl foldr]; [done|]. rewrite IH.
  destruct (be_remove_law db k) as (db' & Hr & Hv). unfold ignored. rewrite Hr. cbn [unwrap_or].
  by rewrite Hv, delete_foldr_delete.
Qed.

(** Removing the entries that satisfy [P] keeps exactly the others. *)
Lemma entries_after_remove (P : bytes * QueuedMessage -> Prop) `{forall x, Decision (P x)} db p :
  entries' (remove_keys db (filter P (entries' db p)).*1) p ≡ₚ filter (fun km => ~ P km) (entries' db p).
Proof.
  assert (forall (l : list (bytes * QueuedMessage)), NoDup l.*1 -> NoDup l) as Hfst by (intros l; apply NoDup_fmap_1).
  apply NoDup_Permutation.
  - apply Hfst, NoDup_entries.
  - apply NoDup_filter, Hfst, NoDup_entries.
  - intros [k m]. rewrite list_elem_of_filter, !elem_of_entries, remove_keys_view.
    destruct (decide (k ∈ (filter P (entries' db p)).*1)) as [Hk|Hk].
    + rewrite lookup_foldr_delete by done.
      apply list_elem_of_fmap in Hk as ([k' m'] & -> & [HP Hin]%list_elem_of_filter). cbn [fst] in *.
      apply elem_of_entries in Hin as (Hs & v & Hv & Hd).
      split; [by intros (_ & ? & ? & _)|]. intros [HnP (_ & v' & Hv' & Hd')].
      rewrite Hv in Hv'. injection Hv' as <-. rewrite Hd in Hd'. injection Hd' as <-. done.
    + rewrite lookup_foldr_delete_not_elem_of by done. split; [|tauto]. intros Hkm. split; [|done].
      intros HP. apply Hk. apply list_elem_of_fmap. exists (k, m). split; [done|].
      apply list_elem_of_filter. split; [done|]. by apply elem_of_entries.
Qed.

(** A batch drain of the persistent outbox returns the peer's messages that are not in relay
    custody and keeps exactly those that are; the memory outbox returns the same selection of its
    queue but deletes the whole queue, so its messages in custody are neither returned nor kept. *)
Theorem outbox_drain_custody (db : B) queues total peer :
  outbox_ok (OutMemory (B := B) queues total) ->
  (exists db', drain_for_peer deserialize deserialize_legacy (OutPersistent db) peer =
      Ok ((filter (fun km => q_in_custody km.2 = false) (entries' db (peer_prefix peer))).*2, OutPersistent db') /\
     entries' db' (peer_prefix peer) ≡ₚ filter (fun km => ~ q_in_custody km.2 = false) (entries' db (peer_prefix peer))) /\
  (exists self', drain_for_peer deserialize deserialize_legacy (OutMemory (B := B) queues total) peer =
      Ok (filter (fun m => q_in_custody m = false) (default [] (queues !! peer)), self') /\
     peek_for_peer deserialize deserialize_legacy self' peer = []).
Proof.
  intros Hok. split.
  - eexists. split; [reflexivity|].
    apply (entries_after_remove (fun km : bytes * QueuedMessage => q_in_custody km.2 = false)).
  - destruct (drain_ok deserialize deserialize_legacy _ peer Hok) as (r & self & Hd & _).
    unfold drain_for_peer in *. destruct (queues !! peer) as [q|] eqn:Hp.
    + apply rbind_ok_inv in Hd as (t' & -> & _). cbn [rbind]. eexists. split; [done|]. cbn [peek_for_peer].
      by rewrite lookup_delete_eq.
    + eexists. split; [done|]. cbn [peek_for_peer]. by rewrite Hp.
Qed.

End Persistent.

(** ** Keys *)

Definition no_underscore (s : string) : Prop := Forall (fun b => b <> Byte.x5f) (str_bytes s).

Lemma str_bytes_inj s1 s2 : str_bytes s1 = str_bytes s2 -> s1 = s2.
Proof.
  unfold str_bytes. intros H. apply (f_equal String.string_of_list_byte) in H.
  by rewrite !String.string_of_list_byte_of_string in H.
Qed.

Lemma app_underscore_inj (a b x y : bytes) :
  Forall (fun c => c <> Byte.x5f) a -> Forall (fun c => c <> Byte.x5f) b ->
  a ++ [Byte.x5f] ++ x = b ++ [Byte.x5f] ++ y -> a = b /\ x = y.
Proof.
  intros Ha. revert b. induction Ha as [|c a Hc Ha IH]; intros b Hb H; destruct Hb as [|c' b Hc' Hb]; cbn in H.
  - injection H as ->. by split.
  - injection H as Hx _. congruence.
  - injection H as Hx _. congruence.
  - injection H as -> H. destruct (IH b Hb H) as [-> ->]. by split.
Qed.

(** As long as recipient ids contain no underscore, the keys of the persistent outbox keep
    peers apart: a stored message matches the scan prefix of exactly its recipient, and two messages
    share a key only if they agree on recipient and message id. *)
Theorem outbox_keys_isolated (m1 m2 : QueuedMessage) (peer : string) :
  no_underscore (q_recipient_id m1) -> no_underscore (q_recipient_id m2) -> no_underscore peer ->
  (starts_with (peer_prefix peer) (message_key m1) = true <-> q_recipient_id m1 = peer) /\
  (message_key m1 = message_key m2 -> q_recipient_id m1 = q_recipient_id m2 /\ q_message_id m1 = q_message_id m2).
Proof.
  intros H1 H2 Hp.
  assert (forall p, peer_prefix p = QUEUE_PREFIX ++ str_bytes p ++ [Byte.x5f]) as Hpre by done.
  unfold message_key. rewrite !Hpre. split.
  - rewrite starts_with_spec. rewrite <-!app_assoc. split.
    + intros [k' Hk]. rewrite <-!app_assoc in Hk. apply app_inv_head in Hk. apply app_underscore_inj in Hk as [Hk _]; [|done..].
      by apply str_bytes_inj.
    + intros ->. exists (str_bytes (q_message_id m1)). by rewrite <-!app_assoc.
  - rewrite <-!app_assoc. intros Hk%app_inv_head. apply app_underscore_inj in Hk as [Hr Hm]; [|done..].
    split; by apply str_bytes_inj.
Qed.

(** ** Retry delays *)

Definition retry_wf (p : RetryPolicy) : Prop :=
  in_u 32 (rp_max_retries p) /\ in_u 64 (rp_initial_delay_ms p) /\ 1 <= rp_backoff_factor p < 2 ^ 32.

(** For the attempts of a policy (counted from 1) the delay is zero for the first, then the
    initial delay times the backoff factor to the power of the retries so far, cut off at the largest
    64-bit value; delays never decrease, and an attempt beyond the maximum is abandoned.  Attempt 0
    underflows: a build with overflow checks panics. *)
Theorem retry_delays {BM : Build} p attempt :
  retry_wf p -> 0 <= attempt < 2 ^ 32 ->
  (rp_max_retries p < attempt -> delay_for_attempt p attempt = Ok None) /\
  (2 <= attempt <= rp_max_retries p ->
     delay_for_attempt p attempt =
       Ok (Some (Z.min (rp_initial_delay_ms p * rp_backoff_factor p ^ (attempt - 2)) u64_max))) /\
  (1 <= attempt < rp_max_retries p ->
     exists d d', delay_for_attempt p attempt = Ok (Some d) /\ delay_for_attempt p (attempt + 1) = Ok (Some d') /\ d <= d') /\
  (overflow_checks = true -> delay_for_attempt p 0 = Panic).
Proof.
  intros (Hm & Hi & Hf) Ha.
  assert (Hval : forall a, 2 <= a <= rp_max_retries p -> delay_for_attempt p a =
    Ok (Some (Z.min (rp_initial_delay_ms p * rp_backoff_factor p ^ (a - 2)) u64_max))).
  { intros a Har. unfold delay_for_attempt. destruct (Z.ltb_spec (rp_max_retries p) a); [lia|].
    destruct (Z.eqb_spec a 1); [lia|]. rewrite chk_u_ok by (unfold in_u in *; lia). cbn [rbind].
    unfold sat_mul, sat_pow, u64_max. do 2 f_equal.
    assert (1 <= rp_backoff_factor p ^ (a - 2)) by (apply Z.lt_pred_le, Z.pow_pos_nonneg; lia).
    unfold in_u in *. change (2 ^ 64) with 18446744073709551616 in *.
    destruct (Z.le_gt_cases (rp_backoff_factor p ^ (a - 2)) 18446744073709551615); [by rewrite (Z.min_l (_ ^ _)) by lia|].
    rewrite (Z.min_r (_ ^ _)) by lia. nia. }
  assert (0 <= rp_initial_delay_ms p) by (unfold in_u in *; lia).
  split_and!.
  - intros. unfold delay_for_attempt. by destruct (Z.ltb_spec (rp_max_retries p) attempt); [|lia].
  - apply Hval.
  - intros Har. destruct (Z.eq_dec attempt 1) as [->|Hne].
    + exists 0. rewrite (Hval (1 + 1)) by lia. eexists. split_and!; [|done|].
      * unfold delay_for_attempt. by destruct (Z.ltb_spec (rp_max_retries p) 1); [lia|].
      * assert (0 <= rp_backoff_factor p ^ (1 + 1 - 2)) by (apply Z.pow_nonneg; lia). unfold u64_max. nia.
    + rewrite !Hval by lia. eexists _, _. split_and!; [done|done|].
      apply Z.min_le_compat_r, Z.mul_le_mono_nonneg_l; [done|]. apply Z.pow_le_mono_r; lia.
  - intros Hov. unfold delay_for_attempt. destruct (Z.ltb_spec (rp_max_retries p) 0); [unfold in_u in *; lia|].
    cbn. unfold chk_u. cbn. by rewrite Hov.
Qed.

(** ** Concrete inputs *)

#[local] Existing Instance canonical_iter.
#[local] Instance outbox_build : Build := {| overflow_checks := true |}.

Definition queued_sample (id peer : string) (retry : option Z) (custody : bool) : QueuedMessage :=
  mkQueued 1 id peer [] 0 0 retry custody 0 Enqueued.

Definition no_bytes (m : QueuedMessage) : res string bytes := Err "unused"%string.
Definition no_message (b : bytes) : res string QueuedMessage := Err "unused"%string.
Definition no_legacy (b : bytes) : res string LegacyQueuedMessage := Err "unused"%string.

Definition sample_queues : gmap string (list QueuedMessage) :=
  {[ "bob"%string := [queued_sample "m1" "bob" (Some 5) false; queued_sample "m2" "bob" None true;
                      queued_sample "m3" "bob" None false] ]}.

Lemma sample_outbox_ok : outbox_ok (OutMemory (B := MemoryStorage) sample_queues 3).
Proof.
  split_and!; [by vm_compute|by vm_compute|by vm_compute|]. unfold sample_queues.
  rewrite map_Forall_singleton. split; [by vm_compute|]. by repeat constructor.
Qed.


(** The message in custody is lost from memory by a drain. *)
Lemma outbox_drain_custody_witness :
  exists self', drain_for_peer no_message no_legacy (OutMemory (B := MemoryStorage) sample_queues 3) "bob" =
      Ok ([queued_sample "m1" "bob" (Some 5) false; queued_sample "m3" "bob" None false], self') /\
     peek_for_peer no_message no_legacy self' "bob" = [].
Proof.
  apply (outbox_drain_custody (B := MemoryStorage) (SB := @memory_backend canonical_iter)
    (LB := @memory_lawful canonical_iter) no_message no_legacy memory_new sample_queues 3 "bob" sample_outbox_ok).
Defined.

(** With an underscore in a recipient id the keys of two peers collide. *)
Lemma outbox_keys_isolated_witness :
  starts_with (peer_prefix "bob") (message_key (queued_sample "m1" "bob" None false)) = true /\
  message_key (queued_sample "b_c" "a" None false) = message_key (queued_sample "c" "a_b" None false).
Proof.
  split; [|vm_compute; reflexivity].
  apply (outbox_keys_isolated (queued_sample "m1" "bob" None false) (queued_sample "m2" "eve" None false) "bob");
    [by_computation|by_computation|by_computation|reflexivity].
Defined.

Lemma retry_delays_witness :
  delay_for_attempt default_retry_policy 3 = Ok (Some 200) /\ delay_for_attempt default_retry_policy 4 = Ok None /\
  delay_for_attempt default_retry_policy 0 = Panic.
Proof.
  split_and!.
  - by apply (retry_delays default_retry_policy 3).
  - by apply (retry_delays default_retry_policy 4).
  - by apply (retry_delays default_retry_policy 3).
Defined.
