(* ===== verification/Inbox.v ===== *)
(** * The inbox ([core/src/store/inbox.rs])

    Received messages and the record of seen ids that keeps a replayed message
    from being delivered twice, in memory or in a storage backend.  [blake3] and
    [bincode] are parameters, and so is the order in which a hash set is
    visited.  As for the outbox, the inboxes the program builds have no storage
    manager. *)

From S2P Require Import Prelude Backend.

(** ** Data *)

Definition MAX_SEEN_IDS : Z := 50000.
Definition SEEN_IDS_KEY : bytes := str_bytes "inbox_seen_ids".
Definition MESSAGES_PREFIX : bytes := str_bytes "inbox_msg_".

Record ReceivedMessage : Type := mkReceived {
  r_version : Z;
  r_message_id : string;
  r_sender_id : string;
  r_payload : bytes;
  r_received_at : Z;
  r_sender_public_key_hex : option string;
}.

#[global] Instance ReceivedMessage_eq_dec : EqDecision ReceivedMessage.
Proof. solve_decision. Defined.

Record LegacyReceivedMessage : Type := mkLegacyReceived {
  lr_message_id : string;
  lr_sender_id : string;
  lr_payload : bytes;
  lr_received_at : Z;
}.

Inductive Inbox (B : Type) : Type :=
| InMemory (seen_ids : gset bytes) (seen_order : list bytes)
           (messages : gmap string (list ReceivedMessage)) (total : Z)
| InPersistent (db : B).

Arguments InMemory {B}.
Arguments InPersistent {B}.

(** The order in which a hash set is visited. *)
Class SetIter : Type := {
  hs_iter : gset bytes -> list bytes;
  hs_iter_perm : forall s, hs_iter s ≡ₚ elements s;
}.

Definition canonical_set_iter : SetIter := {| hs_iter := elements; hs_iter_perm := fun s => Permutation_refl _ |}.

(** ** Operations *)

Section Inbox.
Context {BM : Build} {B : Type} {SB : StorageBackend B} {SI : SetIter}.
Context {HI : HashIter string (list ReceivedMessage)}.
Context (blake3 : bytes -> bytes).
Context (ser_set : gset bytes -> res string bytes) (de_set : bytes -> res string (gset bytes)).
Context (serialize : ReceivedMessage -> res string bytes).
Context (deserialize : bytes -> res string ReceivedMessage)
        (deserialize_legacy : bytes -> res string LegacyReceivedMessage).

Definition deserialize_received_message (data : bytes) : res string ReceivedMessage :=
  match data with
  | [] => Err "empty"%string
  | b :: _ =>
      if byte.unsigned b =? 1 then deserialize data
      else
        let! l := deserialize_legacy data in
        Ok (mkReceived 1 (lr_message_id l) (lr_sender_id l) (lr_payload l) (lr_received_at l) None)
  end.

Definition inbox_new : Inbox B := InMemory ∅ [] ∅ 0.
Definition inbox_persistent (db : B) : Inbox B := InPersistent db.

Definition id_hash (message_id : string) : bytes := blake3 (str_bytes message_id).

(** The stored set of seen ids; empty when it is missing or unreadable. *)
Definition load_seen (db : B) : gset bytes :=
  match be_get db SEEN_IDS_KEY with
  | Ok (Some bytes) => match de_set bytes with Ok s => s | _ => ∅ end
  | _ => ∅
  end.

Definition is_duplicate (self : Inbox B) (message_id : string) : bool :=
  match self with
  | InMemory seen_ids _ _ _ => bool_decide (id_hash message_id ∈ seen_ids)
  | InPersistent db => bool_decide (id_hash message_id ∈ load_seen db)
  end.

(** [while seen_ids.len() > MAX_SEEN_IDS]: every turn drops the oldest id. *)
Fixpoint evict_seen (fuel : nat) (seen_ids : gset bytes) (seen_order : list bytes) : gset bytes * list bytes :=
  match fuel with
  | O => (seen_ids, seen_order)
  | S fuel =>
      if MAX_SEEN_IDS <? Z.of_nat (size seen_ids) then
        match seen_order with
        | old_hash :: rest => evict_seen fuel (seen_ids ∖ {[old_hash]}) rest
        | [] => evict_seen fuel seen_ids seen_order
        end
      else (seen_ids, seen_order)
  end.

Definition received_key (m : ReceivedMessage) : bytes :=
  MESSAGES_PREFIX ++ str_bytes (r_sender_id m) ++ str_bytes "_" ++ str_bytes (r_message_id m).

Definition ignore_err (db : B) (r : res string B) : B := match r with Ok db' => db' | _ => db end.

Definition receive (self : Inbox B) (msg : ReceivedMessage) : res string (bool * Inbox B) :=
  let hash := id_hash (r_message_id msg) in
  match self with
  | InMemory seen_ids seen_order messages total =>
      if bool_decide (hash ∈ seen_ids) then Ok (false, self)
      else
        let '(seen_ids, seen_order) :=
          evict_seen (length (seen_order ++ [hash])) ({[hash]} ∪ seen_ids) (seen_order ++ [hash]) in
        let! total := chk_u 64 (total + 1) in
        Ok (true, InMemory seen_ids seen_order
                    (<[r_sender_id msg := default [] (messages !! r_sender_id msg) ++ [msg]]> messages) total)
  | InPersistent db =>
      let seen_ids := load_seen db in
      if bool_decide (hash ∈ seen_ids) then Ok (false, self)
      else
        let seen_ids := {[hash]} ∪ seen_ids in
        let seen_ids := if MAX_SEEN_IDS <? Z.of_nat (size seen_ids)
                        then seen_ids ∖ list_to_set (take 1000 (hs_iter seen_ids)) else seen_ids in
        let db := match ser_set seen_ids with Ok bytes => ignore_err db (be_put db SEEN_IDS_KEY bytes) | _ => db end in
        let db := match serialize msg with
                  | Ok bytes => let db := ignore_err db (be_put db (received_key msg) bytes) in
                                ignore_err db (be_flush db)
                  | _ => db
                  end in
        Ok (true, InPersistent db)
  end.

Definition scanned (db : B) (prefix : bytes) : list (bytes * bytes) :=
  match be_scan_prefix db prefix with Ok l => l | _ => [] end.

Definition parsed (l : list (bytes * bytes)) : list ReceivedMessage :=
  omap (fun kv => match deserialize_received_message kv.2 with Ok m => Some m | _ => None end) l.

Definition messages_from (self : Inbox B) (sender_id : string) : list ReceivedMessage :=
  match self with
  | InMemory _ _ messages _ => default [] (messages !! sender_id)
  | InPersistent db => parsed (scanned db (MESSAGES_PREFIX ++ str_bytes sender_id ++ str_bytes "_"))
  end.

Definition all_messages (self : Inbox B) : list ReceivedMessage :=
  match self with
  | InMemory _ _ messages _ => concat (hm_iter messages).*2
  | InPersistent db => parsed (scanned db MESSAGES_PREFIX)
  end.

Definition inbox_total_count (self : Inbox B) : Z :=
  match self with
  | InMemory _ _ _ total => total
  | InPersistent db => match be_count_prefix db MESSAGES_PREFIX with Ok n => n | _ => 0 end
  end.

Definition sender_count (self : Inbox B) : Z :=
  match self with
  | InMemory _ _ messages _ => Z.of_nat (size messages)
  | InPersistent db =>
      Z.of_nat (size (list_to_set (r_sender_id <$> parsed (scanned db MESSAGES_PREFIX)) : gset string))
  end.

Definition get_inbox_count (self : Inbox B) : Z := cast_u 32 (inbox_total_count self).

(** [for (key, _) in results { let _ = db.remove(&key); } let _ = db.flush();]. *)
Definition remove_all (db : B) (keys : list bytes) : B :=
  let db := foldl (fun db key => ignore_err db (be_remove db key)) db keys in
  ignore_err db (be_flush db).

Definition drain_received_messages (self : Inbox B) : list ReceivedMessage * Inbox B :=
  match self with
  | InMemory seen_ids seen_order messages _ => (concat (hm_iter messages).*2, InMemory seen_ids seen_order ∅ 0)
  | InPersistent db =>
      let results := scanned db MESSAGES_PREFIX in
      (parsed results, InPersistent (remove_all db results.*1))
  end.

Definition clear_messages (self : Inbox B) : Inbox B :=
  match self with
  | InMemory seen_ids seen_order _ _ => InMemory seen_ids seen_order ∅ 0
  | InPersistent db =>
      match be_scan_prefix db MESSAGES_PREFIX with
      | Ok results => InPersistent (remove_all db results.*1)
      | _ => self
      end
  end.

End Inbox.

(** ** The memory inbox as a window *)

Section Window.
Context {BM : Build} {B : Type} {SB : StorageBackend B} {SI : SetIter}.
Context {HI : HashIter string (list ReceivedMessage)}.
Context (blake3 : bytes -> bytes).
Context (ser_set : gset bytes -> res string bytes) (de_set : bytes -> res string (gset bytes)).
Context (serialize : ReceivedMessage -> res string bytes).
Context (deserialize : bytes -> res string ReceivedMessage)
        (deserialize_legacy : bytes -> res string LegacyReceivedMessage).

(** The last [MAX_SEEN_IDS] of a log. *)
Definition last_seen (log : list bytes) : list bytes := drop (length log - Z.to_nat MAX_SEEN_IDS) log.

Definition seen_ok (seen_ids : gset bytes) (seen_order : list bytes) : Prop :=
  seen_ids = list_to_set seen_order /\ NoDup seen_order.

Lemma evict_seen_window fuel seen_ids seen_order :
  seen_ok seen_ids seen_order -> (length seen_order <= fuel)%nat ->
  evict_seen fuel seen_ids seen_order = (list_to_set (last_seen seen_order), last_seen seen_order) /\
  seen_ok (list_to_set (last_seen seen_order)) (last_seen seen_order).
Proof.
  unfold last_seen. revert seen_ids seen_order. induction fuel as [|fuel IH]; intros seen order [-> Hnd] Hf; cbn [evict_seen].
  - destruct order; [|cbn in Hf; lia]. done.
  - rewrite size_list_to_set by done.
    destruct (Z.ltb_spec MAX_SEEN_IDS (Z.of_nat (length order))) as [Hlt|Hge].
    + destruct order as [|h rest]; [cbn in Hlt; unfold MAX_SEEN_IDS in Hlt; lia|].
      apply NoDup_cons in Hnd as [Hh Hnd].
      assert (list_to_set (h :: rest) ∖ {[h]} = (list_to_set rest : gset bytes)) as ->.
      { apply leibniz_equiv. intros x. rewrite elem_of_difference, !elem_of_list_to_set, elem_of_cons, elem_of_singleton.
        split; [tauto|]. intros Hx. split; [by right|]. by intros ->. }
      destruct (IH (list_to_set rest) rest) as [-> Hok]; [done|cbn in Hf; lia|].
      cbn [length] in Hlt |- *.
      replace (S (length rest) - Z.to_nat MAX_SEEN_IDS)%nat with (S (length rest - Z.to_nat MAX_SEEN_IDS)) by lia.
      cbn [drop]. done.
    + replace (length order - Z.to_nat MAX_SEEN_IDS)%nat with 0%nat by lia. by rewrite drop_0.
Qed.

Lemma last_seen_snoc log h : last_seen (last_seen log ++ [h]) = last_seen (log ++ [h]).
Proof.
  unfold last_seen. set (M := Z.to_nat MAX_SEEN_IDS). assert (0 < M)%nat as HM by (unfold M, MAX_SEEN_IDS; lia).
  rewrite !length_app, length_drop. cbn [length].
  destruct (decide (length log <= M)%nat) as [Hle|Hgt].
  - replace (length log - M)%nat with 0%nat by lia. rewrite drop_0. f_equal. lia.
  - rewrite !drop_app_le by (rewrite ?length_drop; lia). rewrite drop_drop. do 2 f_equal. lia.
Qed.

(** What happens to an inbox: messages arrive, and the application collects or clears them. *)
Inductive inbox_event : Type :=
| EvReceive (m : ReceivedMessage)
| EvDrain
| EvClear.

(** The inbox with the log of the hashes it accepted; [None] if a call panics. *)
Definition inbox_step (acc : Inbox B * list bytes) (e : inbox_event) : option (Inbox B * list bytes) :=
  let '(self, log) := acc in
  match e with
  | EvReceive m =>
      match receive blake3 ser_set de_set serialize self m with
      | Ok (is_new, self') => Some (self', if is_new : bool then log ++ [id_hash blake3 (r_message_id m)] else log)
      | _ => None
      end
  | EvDrain => Some ((drain_received_messages deserialize deserialize_legacy self).2, log)
  | EvClear => Some (clear_messages self, log)
  end.

Fixpoint inbox_run (acc : Inbox B * list bytes) (h : list inbox_event) : option (Inbox B * list bytes) :=
  match h with
  | [] => Some acc
  | e :: h => acc' ← inbox_step acc e; inbox_run acc' h
  end.

Definition stored_count (messages : gmap string (list ReceivedMessage)) : Z :=
  foldr (fun kq acc => zlen kq.2 + acc) 0 (map_to_list messages).

(** The memory inbox holds the window of its log, and its counter counts the stored messages. *)
Definition inbox_ok (self : Inbox B) (log : list bytes) : Prop :=
  match self with
  | InMemory seen_ids seen_order messages total =>
      seen_order = last_seen log /\ seen_ok seen_ids seen_order /\
      total = stored_count messages /\ 0 <= total <= zlen log
  | InPersistent _ => False
  end.

Lemma stored_count_insert messages k m :
  stored_count (<[k := default [] (messages !! k) ++ [m]]> messages) = stored_count messages + 1.
Proof.
  unfold stored_count. rewrite <-insert_delete_eq.
  assert (forall l1 l2 : list (string * list ReceivedMessage), l1 ≡ₚ l2 ->
    foldr (fun kq acc => zlen kq.2 + acc) 0 l1 = foldr (fun kq acc => zlen kq.2 + acc) 0 l2) as Hp.
  { induction 1; cbn in *; lia. }
  rewrite (Hp _ _ (map_to_list_insert _ _ _ (lookup_delete_eq messages k))). cbn [foldr snd].
  rewrite zlen_app. change (zlen [m]) with 1. destruct (messages !! k) as [q'|] eqn:Hk.
  - rewrite <-(Hp _ _ (map_to_list_delete messages k q' Hk)). cbn [foldr snd default from_option id]. lia.
  - rewrite delete_id by done. cbn [default from_option]. rewrite zlen_nil. lia.
Qed.

Lemma receive_decision self log m :
  inbox_ok self log -> zlen log < 2 ^ 63 ->
  exists self', receive blake3 ser_set de_set serialize self m =
    Ok (bool_decide (id_hash blake3 (r_message_id m) ∉ last_seen log), self') /\
    inbox_ok self' (if bool_decide (id_hash blake3 (r_message_id m) ∉ last_seen log)
                    then log ++ [id_hash blake3 (r_message_id m)] else log).
Proof.
  destruct self as [seen order messages total|db]; [|done]. intros (-> & [-> Hnd] & Ht & Hb) Hlen.
  unfold receive. set (h := id_hash blake3 (r_message_id m)).
  destruct (decide (h ∈ last_seen log)) as [Hin|Hni].
  - rewrite bool_decide_eq_true_2 by (by apply elem_of_list_to_set). rewrite bool_decide_eq_false_2 by tauto.
    eexists. split; [done|]. split_and!; [done|by split|done|lia|lia].
  - rewrite bool_decide_eq_false_2 by (by rewrite elem_of_list_to_set). rewrite bool_decide_eq_true_2 by done.
    destruct (evict_seen_window (length (last_seen log ++ [h])) ({[h]} ∪ list_to_set (last_seen log)) (last_seen log ++ [h]))
      as [-> Hok]; [|done|].
    { split; [rewrite list_to_set_app_L; set_solver|]. apply NoDup_app. split_and!; [done| |apply NoDup_singleton].
      intros x Hx ->%list_elem_of_singleton. done. }
    rewrite last_seen_snoc in *. rewrite chk_u_ok by (unfold in_u; lia). cbn [rbind].
    eexists. split; [done|]. split_and!; try done.
    + rewrite stored_count_insert. lia.
    + lia.
    + rewrite zlen_app. change (zlen [h]) with 1. lia.
Qed.

Lemma inbox_step_ok self log e :
  inbox_ok self log -> zlen log < 2 ^ 63 ->
  exists self' log', inbox_step (self, log) e = Some (self', log') /\ inbox_ok self' log' /\ zlen log' <= zlen log + 1.
Proof.
  intros Hok Hlen. destruct e as [m| |]; cbn [inbox_step].
  - destruct (receive_decision self log m Hok Hlen) as (self' & -> & Hok').
    eexists _, _. split; [done|]. split; [exact Hok'|]. case_bool_decide; autorewrite with zlen; lia.
  - destruct self as [seen order messages total|db]; [|done]. destruct Hok as (H1 & H2 & _).
    eexists _, log. split; [done|]. pose proof (zlen_nonneg log). split; [|lia]. by split_and!.
  - destruct self as [seen order messages total|db]; [|done]. destruct Hok as (H1 & H2 & _).
    eexists _, log. split; [done|]. pose proof (zlen_nonneg log). split; [|lia]. by split_and!.
Qed.

Lemma inbox_run_ok self log h :
  inbox_ok self log -> zlen log + zlen h < 2 ^ 63 ->
  exists self' log', inbox_run (self, log) h = Some (self', log') /\ inbox_ok self' log' /\ zlen log' <= zlen log + zlen h.
Proof.
  revert self log. induction h as [|e h IH]; intros self log Hok Hlen; cbn [inbox_run].
  { eexists _, _. split; [done|]. split; [done|]. autorewrite with zlen. lia. }
  rewrite zlen_cons in *. pose proof (zlen_nonneg h).
  destruct (inbox_step_ok self log e Hok ltac:(lia)) as (s & l & -> & Hok' & Hl).
  destruct (IH s l Hok' ltac:(lia)) as (s' & l' & Hr & Hok'' & Hl'). eexists _, _. split; [exact Hr|]. split; [done|lia].
Qed.

(** ** Properties *)


End Window.

(** ** The persistent inbox *)

Section PersistentInbox.
Context {BM : Build} {B : Type} {SB : StorageBackend B} {LB : LawfulBackend B} {SI : SetIter}.
Context {HI : HashIter string (list ReceivedMessage)}.
Context (blake3 : bytes -> bytes).
Context (ser_set : gset bytes -> res string bytes) (de_set : bytes -> res string (gset bytes)).
Context (serialize : ReceivedMessage -> res string bytes).
Context (deserialize : bytes -> res string ReceivedMessage)
        (deserialize_legacy : bytes -> res string LegacyReceivedMessage).

(** [bincode] reads back the sets it writes, and messages, which start with their version byte. *)
Hypothesis set_roundtrip : forall s, exists b, ser_set s = Ok b /\ de_set b = Ok s.
Hypothesis message_roundtrip : forall m, r_version m = 1 ->
  exists b, serialize m = Ok (Byte.x01 :: b) /\ deserialize (Byte.x01 :: b) = Ok m.

Lemma ignore_put db k v : be_view (ignore_err db (be_put db k v)) = <[k := v]> (be_view db).
Proof. unfold ignore_err. by destruct (be_put_law db k v) as (db' & -> & ->). Qed.

Lemma ignore_flush db : be_view (ignore_err db (be_flush db)) = be_view db.
Proof. unfold ignore_err. by destruct (be_flush_law db) as (db' & -> & ->). Qed.

Lemma remove_all_view db keys : be_view (remove_all db keys) = foldr delete (be_view db) keys.
Proof.
  unfold remove_all. rewrite ignore_flush. revert db. induction keys as [|k keys IH]; intros db; cbn [foldl foldr]; [done|].
  rewrite IH. unfold ignore_err. destruct (be_remove_law db k) as (db' & -> & ->). by rewrite delete_foldr_delete.
Qed.

Lemma load_seen_view db db' :
  be_view db !! SEEN_IDS_KEY = be_view db' !! SEEN_IDS_KEY -> load_seen de_set db = load_seen de_set db'.
Proof. intros H. unfold load_seen. by rewrite !be_get_law, H. Qed.

Lemma seen_key_not_message k : starts_with MESSAGES_PREFIX k = true -> k <> SEEN_IDS_KEY.
Proof. intros Hk ->. by vm_compute in Hk. Qed.

Lemma received_key_prefix m : starts_with MESSAGES_PREFIX (received_key m) = true.
Proof. apply starts_with_app. Qed.

(** Removing all scanned messages leaves no message and keeps the seen ids. *)
Lemma remove_all_messages db l :
  be_scan_prefix db MESSAGES_PREFIX = Ok l ->
  be_scan_prefix (remove_all db l.*1) MESSAGES_PREFIX = Ok [] /\
  load_seen de_set (remove_all db l.*1) = load_seen de_set db.
Proof.
  intros Hl. destruct (be_scan_law (remove_all db l.*1) MESSAGES_PREFIX) as (l' & Hl' & _). split.
  - rewrite Hl'. f_equal. destruct l' as [|[k v] l']; [done|]. exfalso.
    assert ((k, v) ∈ (k, v) :: l') as Hin by left.
    apply (elem_of_scan _ _ _ _ _ Hl') in Hin as [Hk Hv]. rewrite remove_all_view in Hv.
    destruct (decide (k ∈ l.*1)) as [Hkl|Hkl]; [by rewrite lookup_foldr_delete in Hv|].
    rewrite lookup_foldr_delete_not_elem_of in Hv by done. apply Hkl. apply list_elem_of_fmap.
    exists (k, v). split; [done|]. by apply (elem_of_scan _ _ _ _ _ Hl).
  - apply load_seen_view. rewrite remove_all_view. apply lookup_foldr_delete_not_elem_of.
    intros ([k v] & Hk & Hin)%list_elem_of_fmap. apply (elem_of_scan _ _ _ _ _ Hl) in Hin as [Hs _].
    apply seen_key_not_message in Hs. by cbn in Hk.
Qed.

Lemma receive_persistent db m :
  r_version m = 1 -> id_hash blake3 (r_message_id m) ∉ load_seen de_set db ->
  Z.of_nat (size (load_seen de_set db)) < MAX_SEEN_IDS ->
  exists db', receive blake3 ser_set de_set serialize (InPersistent db) m = Ok (true, InPersistent db') /\
    load_seen de_set db' = {[id_hash blake3 (r_message_id m)]} ∪ load_seen de_set db /\
    m ∈ messages_from deserialize deserialize_legacy (InPersistent db') (r_sender_id m).
Proof.
  intros Hv Hn Hsz. unfold receive. rewrite bool_decide_eq_false_2 by done.
  set (h := id_hash blake3 (r_message_id m)) in *.
  assert (size ({[h]} ∪ load_seen de_set db) = S (size (load_seen de_set db))) as Hs.
  { rewrite size_union, size_singleton; [done|]. set_solver. }
  destruct (Z.ltb_spec MAX_SEEN_IDS (Z.of_nat (size ({[h]} ∪ load_seen de_set db)))); [lia|].
  destruct (set_roundtrip ({[h]} ∪ load_seen de_set db)) as (b & -> & Hb).
  destruct (message_roundtrip m Hv) as (bm & -> & Hbm).
  eexists. split; [done|].
  match goal with |- load_seen _ ?x = _ /\ _ => set (db' := x) end.
  assert (be_view db' = <[received_key m := Byte.x01 :: bm]> (<[SEEN_IDS_KEY := b]> (be_view db))) as Hview.
  { unfold db'. by rewrite ignore_flush, !ignore_put. }
  split.
  - unfold load_seen. rewrite be_get_law, Hview, lookup_insert_ne.
    + by rewrite lookup_insert_eq, Hb.
    + apply seen_key_not_message, received_key_prefix.
  - cbn [messages_from]. unfold scanned.
    set (pre := MESSAGES_PREFIX ++ str_bytes (r_sender_id m) ++ str_bytes "_").
    destruct (be_scan_law db' pre) as (l & Hl & _). rewrite Hl. unfold parsed. apply list_elem_of_omap.
    exists (received_key m, Byte.x01 :: bm). split.
    + apply (elem_of_scan _ _ _ _ _ Hl). split.
      * apply starts_with_spec. exists (str_bytes (r_message_id m)). unfold received_key, pre. by rewrite <-!app_assoc.
      * by rewrite Hview, lookup_insert_eq.
    + cbn. by rewrite Hbm.
Qed.

(** A new message is accepted by the persistent inbox once: below the limit of tracked ids the
    first [receive] stores it where [messages_from] finds it, the second reports a duplicate and
    changes nothing, and this stays so after the messages are drained or cleared, which removes every
    message and no seen id. *)
Theorem inbox_persistent_once db m :
  r_version m = 1 -> id_hash blake3 (r_message_id m) ∉ load_seen de_set db ->
  Z.of_nat (size (load_seen de_set db)) < MAX_SEEN_IDS ->
  exists db' cleared,
    receive blake3 ser_set de_set serialize (InPersistent db) m = Ok (true, InPersistent db') /\
    m ∈ messages_from deserialize deserialize_legacy (InPersistent db') (r_sender_id m) /\
    receive blake3 ser_set de_set serialize (InPersistent db') m = Ok (false, InPersistent db') /\
    clear_messages (InPersistent db') = InPersistent cleared /\
    (drain_received_messages deserialize deserialize_legacy (InPersistent db')).2 = InPersistent cleared /\
    all_messages deserialize deserialize_legacy (InPersistent cleared) = [] /\
    receive blake3 ser_set de_set serialize (InPersistent cleared) m = Ok (false, InPersistent cleared).
Proof.
  intros Hv Hn Hsz. destruct (receive_persistent db m Hv Hn Hsz) as (db' & Hr & Hseen & Hm).
  assert (forall d, load_seen de_set d = load_seen de_set db' ->
    receive blake3 ser_set de_set serialize (InPersistent d) m = Ok (false, InPersistent d)) as Hdup.
  { intros d Hd. unfold receive. rewrite bool_decide_eq_true_2; [done|]. rewrite Hd, Hseen. set_solver. }
  destruct (be_scan_law db' MESSAGES_PREFIX) as (l & Hl & _).
  destruct (remove_all_messages db' l Hl) as [Hempty Hkeep].
  exists db', (remove_all db' l.*1). split_and!; [done|done|by apply Hdup| | | |by apply Hdup].
  - cbn [clear_messages]. by rewrite Hl.
  - cbn [drain_received_messages snd]. unfold scanned. by rewrite Hl.
  - cbn [all_messages]. unfold scanned. by rewrite Hempty.
Qed.

End PersistentInbox.

(** ** Concrete inputs *)

#[local] Existing Instance canonical_iter.
#[local] Existing Instance canonical_set_iter.
#[local] Instance inbox_build : Build := {| overflow_checks := true |}.

Definition fold_digest (x : bytes) : bytes := take 32 (x ++ replicate 32 Byte.x00).

Definition msg_sample (id : string) : ReceivedMessage := mkReceived 1 id "bob" [] 7 None.

Abbreviation msg_fields := (Z * string * string * bytes * Z * option string)%type.

Definition msg_tuple (m : ReceivedMessage) : msg_fields :=
  (r_version m, r_message_id m, r_sender_id m, r_payload m, r_received_at m, r_sender_public_key_hex m).

Definition msg_enc (m : ReceivedMessage) : res string bytes := Ok (Byte.x01 :: enc_any (msg_tuple m)).

Definition msg_dec (b : bytes) : res string ReceivedMessage :=
  match b with
  | [] => Err "empty"%string
  | _ :: b => rmap (fun f : msg_fields => let '(v, i, s, p, t, k) := f in mkReceived v i s p t k) (dec_any b)
  end.

Definition set_enc (s : gset bytes) : res string bytes := Ok (enc_any s).

Definition set_dec (b : bytes) : res string (gset bytes) := dec_any b.


Lemma inbox_persistent_once_witness :
  exists db' cleared,
    receive fold_digest set_enc set_dec msg_enc (InPersistent memory_new) (msg_sample "a") = Ok (true, InPersistent db') /\
    msg_sample "a" ∈ messages_from msg_dec (fun _ => Err "none"%string) (InPersistent db') "bob" /\
    clear_messages (InPersistent db') = InPersistent cleared /\
    receive fold_digest set_enc set_dec msg_enc (InPersistent cleared) (msg_sample "a") = Ok (false, InPersistent cleared).
Proof.
  destruct (inbox_persistent_once fold_digest set_enc set_dec msg_enc msg_dec (fun _ => Err "none"%string))
    with (db := memory_new) (m := msg_sample "a") as (db' & cleared & H1 & H2 & _ & H4 & _ & _ & H7).
  - intros s. exists (enc_any s). split; [reflexivity|apply dec_enc_any].
  - intros m Hv. exists (enc_any (msg_tuple m)). split; [reflexivity|]. cbn [msg_dec].
    rewrite (dec_enc_any (msg_tuple m)). by destruct m.
  - reflexivity.
  - by vm_compute.
  - by vm_compute.
  - exists db', cleared. split_and!; [exact H1|exact H2|exact H4|exact H7].
Defined.
