(* ===== verification/Dedup.v ===== *)
(** * Duplicate statistics ([core/src/store/dedup.rs])

    A bounded table of per-message duplicate counts.  The clock is the argument
    [now_ms]; the order in which the table is visited is a parameter. *)

From S2P Require Import Prelude.

(** ** Data and operations *)

Record DedupStats : Type := mkStats {
  ds_message_id : string;
  ds_first_received_at : Z;
  ds_duplicate_count : Z;
  ds_first_transport : option string;
}.

Record DedupStatsTracker : Type := mkTracker {
  dt_entries : gmap string DedupStats;
  dt_max_entries : Z;
}.

Record DedupAggregateStats : Type := mkAggregate {
  da_total_entries : Z;
  da_total_duplicates : Z;
  da_entries_with_transport : Z;
}.

Definition stats_new (message_id : string) (first_received_at : Z) : DedupStats :=
  mkStats message_id first_received_at 0 None.

Definition record_duplicate (s : DedupStats) : DedupStats :=
  mkStats (ds_message_id s) (ds_first_received_at s) (sat_add 32 (ds_duplicate_count s) 1) (ds_first_transport s).

Definition with_max_entries (max_entries : Z) : DedupStatsTracker := mkTracker ∅ max_entries.

Definition tracker_new : DedupStatsTracker := with_max_entries 10000.

(** [Ord] of the key [(first_received_at, &message_id)]: strings are compared byte by byte. *)
Definition key_cmp (a b : DedupStats) : comparison :=
  match ds_first_received_at a ?= ds_first_received_at b with
  | Eq => if decide (ds_message_id a = ds_message_id b) then Eq
          else if bytes_leb (str_bytes (ds_message_id a)) (str_bytes (ds_message_id b)) then Lt else Gt
  | c => c
  end.

Section Dedup.
Context {HI : HashIter string DedupStats}.

Definition record_received (now_ms : Z) (self : DedupStatsTracker) (message_id : string)
    (first_transport : option string) : DedupStats * DedupStatsTracker :=
  match dt_entries self !! message_id with
  | Some entry =>
      let entry := record_duplicate entry in
      (entry, mkTracker (<[message_id := entry]> (dt_entries self)) (dt_max_entries self))
  | None =>
      let stats := mkStats message_id now_ms 0 first_transport in
      let entries :=
        if dt_max_entries self <=? Z.of_nat (size (dt_entries self)) then
          match min_by (fun a b => key_cmp a.2 b.2) (hm_iter (dt_entries self)) with
          | Some (oldest_key, _) => delete oldest_key (dt_entries self)
          | None => dt_entries self
          end
        else dt_entries self in
      (stats, mkTracker (<[message_id := stats]> entries) (dt_max_entries self))
  end.

Definition get_dedup_stats (self : DedupStatsTracker) (message_id : string) : option DedupStats :=
  dt_entries self !! message_id.

Definition tracker_len (self : DedupStatsTracker) : Z := Z.of_nat (size (dt_entries self)).

Definition tracker_is_empty (self : DedupStatsTracker) : bool := tracker_len self =? 0.

Definition tracker_clear (self : DedupStatsTracker) : DedupStatsTracker := mkTracker ∅ (dt_max_entries self).

(** [.map(|e| e.duplicate_count).sum()] in [u32]. *)
Definition aggregate {BM : Build} (self : DedupStatsTracker) : res string DedupAggregateStats :=
  let! total := rfold (fun acc e => chk_u 32 (acc + ds_duplicate_count e)) 0 (hm_iter (dt_entries self)).*2 in
  Ok (mkAggregate (Z.of_nat (size (dt_entries self))) total
        (zlen (filter (fun e => is_Some (ds_first_transport e)) (hm_iter (dt_entries self)).*2))).

(** ** Facts *)

Definition key_le (a b : DedupStats) : Prop := key_cmp a b <> Gt.

Lemma key_le_spec a b :
  key_le a b <-> ds_first_received_at a < ds_first_received_at b \/
    (ds_first_received_at a = ds_first_received_at b /\ bytes_le (str_bytes (ds_message_id a)) (str_bytes (ds_message_id b))).
Proof.
  unfold key_le, key_cmp, bytes_le. destruct (Z.compare_spec (ds_first_received_at a) (ds_first_received_at b)) as [E|E|E].
  - rewrite E. case_decide as D.
    + rewrite D. split; [|done]. intros _. right. split; [done|].
      apply bytes_le_refl.
    + destruct (bytes_leb _ _) eqn:L; split; try done; auto. intros [?|[_ ?]]; [lia|done].
  - split; [auto|done].
  - split; [done|]. intros [?|[? _]]; lia.
Qed.

#[local] Instance key_le_trans : Transitive key_le.
Proof.
  intros a b c. rewrite !key_le_spec. intros [?|[? ?]] [?|[? ?]]; [left; lia..|right].
  split; [lia|]. by etrans.
Qed.

#[local] Instance key_le_total : Total key_le.
Proof.
  intros a b. rewrite !key_le_spec.
  destruct (Z.lt_trichotomy (ds_first_received_at a) (ds_first_received_at b)) as [?|[?|?]]; auto.
  destruct (total bytes_le (str_bytes (ds_message_id a)) (str_bytes (ds_message_id b))); auto.
Qed.

(** [min_by] with a total preorder finds a least element. *)
Lemma min_by_least {A} (cmp : A -> A -> comparison) (R : relation A) l x :
  (forall a b, cmp a b <> Gt <-> R a b) -> Transitive R -> Total R ->
  min_by cmp l = Some x -> forall y, y ∈ l -> R x y.
Proof.
  intros Hcmp Ht Htot. destruct l as [|z l]; [done|]. cbn. intros [= <-].
  assert (forall x y, y = x \/ y ∈ l -> R (foldl (fun best y => match cmp best y with Gt => y | _ => best end) x l) y) as H.
  { induction l as [|w l IH]; intros x y Hy; cbn [foldl].
    - destruct Hy as [->|Hy%elem_of_nil]; [|done]. destruct (total R x x); done.
    - destruct (cmp x w) eqn:E.
      + assert (R x w) as Hxw by (apply Hcmp; by rewrite E).
        rewrite elem_of_cons in Hy. destruct Hy as [->|[->|Hy]]; [by apply IH; left| |by apply IH; right].
        etrans; [by apply IH; left|done].
      + assert (R x w) as Hxw by (apply Hcmp; by rewrite E).
        rewrite elem_of_cons in Hy. destruct Hy as [->|[->|Hy]]; [by apply IH; left| |by apply IH; right].
        etrans; [by apply IH; left|done].
      + assert (R w x) as Hwx.
        { destruct (total R w x) as [?|Hxw]; [done|]. apply Hcmp in Hxw. congruence. }
        rewrite elem_of_cons in Hy. destruct Hy as [->|[->|Hy]]; [|by apply IH; left|by apply IH; right].
        etrans; [by apply IH; left|done]. }
  intros y Hy. apply H. by apply elem_of_cons in Hy.
Qed.

(** ** Properties *)

(** A repeated id is counted and moves nothing else; a new id is always recorded with a count
    of zero, the table never exceeds its limit (of at least one), and what a full table gives up for
    it is one entry that was received no later than any other. *)
Theorem dedup_tracker_step now self id transport :
  1 <= dt_max_entries self -> tracker_len self <= dt_max_entries self ->
  let '(stats, self') := record_received now self id transport in
  dt_entries self' !! id = Some stats /\ tracker_len self' <= dt_max_entries self' /\
  match dt_entries self !! id with
  | Some entry => stats = record_duplicate entry /\ dt_entries self' = <[id := stats]> (dt_entries self)
  | None => stats = mkStats id now 0 transport /\
      (tracker_len self < dt_max_entries self -> dt_entries self' = <[id := stats]> (dt_entries self)) /\
      (tracker_len self = dt_max_entries self ->
       exists old entry, dt_entries self !! old = Some entry /\
         dt_entries self' = <[id := stats]> (delete old (dt_entries self)) /\
         forall k e, dt_entries self !! k = Some e -> key_le entry e)
  end.
Proof.
  intros Hmax Hlen. unfold record_received, tracker_len in *.
  destruct (dt_entries self !! id) as [entry|] eqn:Hid; cbn [dt_entries dt_max_entries].
  { rewrite lookup_insert_eq, map_size_insert_Some by eauto. done. }
  destruct (Z.leb_spec (dt_max_entries self) (Z.of_nat (size (dt_entries self)))) as [Hfull|Hroom].
  - destruct (min_by _ _) as [[old entry]|] eqn:Hmin.
    + pose proof (min_by_Some _ _ _ Hmin) as Hin. apply elem_of_hm_iter in Hin.
      assert (size (delete old (dt_entries self)) <> size (dt_entries self)) as Hsz.
      { rewrite map_size_delete_Some by eauto. assert (size (dt_entries self) <> 0%nat); [|lia].
        by eapply map_size_ne_0_lookup_2; eexists. }
      rewrite lookup_insert_eq. split_and!; [done| | done|lia|].
      * rewrite map_size_insert_None by (apply lookup_delete_None; auto).
        rewrite map_size_delete_Some in * by eauto. lia.
      * intros _. exists old, entry. split_and!; [done|done|]. intros k e Hk.
        apply (min_by_least (fun a b => key_cmp a.2 b.2) (fun a b : string * DedupStats => key_le a.2 b.2)
                 _ (old, entry)) with (y := (k, e)) in Hmin; [done|done|..].
        -- intros a b c. apply key_le_trans.
        -- intros a b. apply key_le_total.
        -- by apply elem_of_hm_iter.
    + apply min_by_None in Hmin. rewrite <-length_hm_iter, Hmin in Hfull. cbn in Hfull. lia.
  - rewrite lookup_insert_eq. split_and!; [done| |done|done|lia]. rewrite map_size_insert_None by done. lia.
Qed.

End Dedup.

(** ** Concrete inputs *)

#[local] Existing Instance canonical_iter.

Lemma dedup_tracker_step_witness :
  let t1 := (record_received 5 (with_max_entries 1) "a" None).2 in
  let '(stats, t2) := record_received 6 t1 "b" None in
  dt_entries t2 !! "b"%string = Some stats /\ tracker_len t2 <= 1.
Proof.
  cbv zeta. pose proof (dedup_tracker_step 6 (record_received 5 (with_max_entries 1) "a" None).2 "b" None) as H.
  destruct (record_received 6 _ "b" None) as [stats t2] eqn:E.
  destruct H as (H1 & H2 & _); [by vm_compute|by vm_compute|]. split; [exact H1|].
  assert (dt_max_entries t2 = 1) as Hm by (change t2 with (stats, t2).2; rewrite <-E; reflexivity).
  rewrite Hm in H2. exact H2.
Defined.
