(* ===== verification/Crypto.v ===== *)
(** * Cryptographic building blocks ([core/src/crypto])

    The primitives that the program takes from other crates (X25519, Ed25519,
    BLAKE3, SHA-512, XChaCha20-Poly1305, ML-KEM-768, hexadecimal encoding) are the class
    [Crypto]; what their documentation promises is the class [CryptoLaws].  On top
    of them: the ML-KEM wrapper ([pq/mod.rs]), the hybrid key encapsulation
    ([pq/hybrid.rs]), the suite negotiation ([negotiation.rs]) and the conversion
    of identity keys ([encrypt.rs]).  Random bytes are arguments. *)

From S2P Require Import Prelude.

Class Crypto : Type := {
  x25519_public : bytes -> bytes;              (* [PublicKey::from(&StaticSecret)] *)
  diffie_hellman : bytes -> bytes -> bytes;    (* secret, public *)
  was_contributory : bytes -> bool;            (* of a shared secret *)
  derive_key : string -> bytes -> bytes;       (* [blake3::derive_key(context, material)] *)
  blake3_hash : bytes -> bytes;
  sha512 : bytes -> bytes;
  aead_encrypt : bytes -> bytes -> bytes -> bytes -> option bytes;  (* key, nonce, aad, plaintext *)
  aead_decrypt : bytes -> bytes -> bytes -> bytes -> option bytes;  (* key, nonce, aad, ciphertext *)
  mlkem_generate : bytes -> bytes * bytes;     (* seed; public and private key *)
  mlkem_encapsulate : bytes -> bytes -> bytes * bytes;  (* public key, randomness; ciphertext and secret *)
  mlkem_decapsulate : bytes -> bytes -> bytes; (* private key, ciphertext *)
  ed25519_public : bytes -> bytes;             (* [SigningKey::verifying_key] *)
  ed25519_decompress : bytes -> option bytes;  (* the Montgomery form of a valid point *)
  ed25519_sign : bytes -> bytes -> bytes;      (* signing key, message *)
  ed25519_key_valid : bytes -> bool;           (* [VerifyingKey::from_bytes] *)
  ed25519_verify : bytes -> bytes -> bytes -> bool;  (* public key, message, signature *)
  hex_encode : bytes -> string;
  hex_decode : string -> res string bytes;
  hex_decode_to_slice : string -> Z -> res string bytes;  (* text, length of the slice *)
}.

Class CryptoLaws {CR : Crypto} : Prop := {
  dh_comm : forall a b, diffie_hellman a (x25519_public b) = diffie_hellman b (x25519_public a);
  aead_correct : forall k n a p c, aead_encrypt k n a p = Some c -> aead_decrypt k n a c = Some p;
  mlkem_correct : forall seed r,
    mlkem_decapsulate (mlkem_generate seed).2 (mlkem_encapsulate (mlkem_generate seed).1 r).1
    = (mlkem_encapsulate (mlkem_generate seed).1 r).2;
  mlkem_public_length : forall seed, zlen (mlkem_generate seed).1 = 1184;
  mlkem_ct_length : forall pk r, zlen (mlkem_encapsulate pk r).1 = 1088;
  x25519_public_length : forall s, zlen (x25519_public s) = 32;
  derive_key_length : forall c m, zlen (derive_key c m) = 32;
  ed25519_public_length : forall sk, zlen (ed25519_public sk) = 32;
  ed25519_birational : forall sk,
    ed25519_decompress (ed25519_public sk) = Some (x25519_public (take 32 (sha512 sk)));
  ed25519_public_valid : forall sk, ed25519_key_valid (ed25519_public sk) = true;
  ed25519_sign_length : forall sk m, zlen (ed25519_sign sk m) = 64;
  ed25519_correct : forall sk m, ed25519_verify (ed25519_public sk) m (ed25519_sign sk m) = true;
  hex_roundtrip : forall b, hex_decode (hex_encode b) = Ok b;
  hex_slice_roundtrip : forall b, hex_decode_to_slice (hex_encode b) (zlen b) = Ok b;
}.

Section Primitives.
Context {CR : Crypto}.

(** ** ML-KEM-768 *)

Record MlKem768KeyPair : Type := mkKeyPair {
  pub_key : bytes;
  priv_key : bytes;
  kp_seed : bytes;
}.

Definition from_seed (seed : bytes) : MlKem768KeyPair :=
  let keypair := mlkem_generate seed in
  mkKeyPair keypair.1 keypair.2 seed.

(** [generate()] fills [seed] with random bytes and does the same. *)
Definition generate (seed : bytes) : MlKem768KeyPair :=
  let keypair := mlkem_generate seed in
  mkKeyPair keypair.1 keypair.2 seed.

Definition encapsulate (encap_rand : bytes) (encaps_key : bytes) : res string (bytes * bytes) :=
  if negb (zlen encaps_key =? 1184) then Err "Invalid ML-KEM-768 public key length"%string
  else Ok (mlkem_encapsulate encaps_key encap_rand).

Definition decapsulate (keypair : MlKem768KeyPair) (ct : bytes) : res string bytes :=
  if negb (zlen ct =? 1088) then Err "Invalid ML-KEM-768 ciphertext length"%string
  else Ok (mlkem_decapsulate (priv_key keypair) ct).

(** ** The hybrid key encapsulation *)

Record HybridCiphertext : Type := mkHct {
  x25519_ephemeral_public : bytes;
  mlkem_ciphertext : bytes;
}.

Definition HYBRID_KEM_CONTEXT : string := "iron-core hybrid-kem v1 X25519+MLKEM768 2026-07".

Definition hybrid_encapsulate (ephemeral_secret encap_rand : bytes)
    (their_x25519_public their_mlkem_encaps_key : bytes) : res string (HybridCiphertext * bytes) :=
  if negb (zlen their_mlkem_encaps_key =? 1184) then Err "Invalid ML-KEM-768 public key length"%string
  else
    let eph_public := x25519_public ephemeral_secret in
    let ss_x25519 := diffie_hellman ephemeral_secret their_x25519_public in
    if negb (was_contributory ss_x25519) then Err "X25519 all-zero shared secret"%string
    else
      let! '(ct, ss_mlkem) := encapsulate encap_rand their_mlkem_encaps_key in
      let ikm := ss_x25519 ++ ss_mlkem ++ eph_public ++ their_x25519_public ++ ct ++ their_mlkem_encaps_key in
      Ok (mkHct eph_public ct, derive_key HYBRID_KEM_CONTEXT ikm).

Definition hybrid_decapsulate (our_x25519_secret : bytes) (our_mlkem_keypair : MlKem768KeyPair)
    (ct : HybridCiphertext) : res string bytes :=
  if negb (zlen (mlkem_ciphertext ct) =? 1088) then Err "Invalid ML-KEM-768 ciphertext length"%string
  else
    let ss_x25519 := diffie_hellman our_x25519_secret (x25519_ephemeral_public ct) in
    if negb (was_contributory ss_x25519) then Err "X25519 all-zero shared secret"%string
    else
      let! ss_mlkem := decapsulate our_mlkem_keypair (mlkem_ciphertext ct) in
      let our_x25519_public := x25519_public our_x25519_secret in
      let ikm := ss_x25519 ++ ss_mlkem ++ x25519_ephemeral_public ct ++ our_x25519_public
                 ++ mlkem_ciphertext ct ++ pub_key our_mlkem_keypair in
      Ok (derive_key HYBRID_KEM_CONTEXT ikm).

(** ** Suite negotiation *)

Definition HYBRID_SUITE_IDS : list byte := [Byte.x02; Byte.x03].

Definition suite_max (l : list byte) : option byte :=
  match l with
  | [] => None
  | x :: l => Some (foldl (fun m y => if byte.unsigned m <=? byte.unsigned y then y else m) x l)
  end.

(** The intersection of two sets has one largest element, in whatever order it is listed. *)
Definition negotiate_suite (our_suites their_suites our_ed25519_pub their_ed25519_pub : bytes)
    : res string (byte * bytes) :=
  let intersection := filter (fun s => s ∈ their_suites) our_suites in
  match suite_max intersection with
  | None => Err "CryptoError"%string
  | Some negotiated_suite =>
      let material := our_suites ++ [Byte.xff] ++ their_suites ++ [Byte.xff] ++ [negotiated_suite]
                      ++ our_ed25519_pub ++ their_ed25519_pub in
      Ok (negotiated_suite, derive_key "iron-core suite-transcript v1" material)
  end.

(** ** Identity keys *)

(** The first half of the hash; [StaticSecret] clamps when it is used. *)
Definition ed25519_to_x25519_secret (signing_key : bytes) : bytes := take 32 (sha512 signing_key).

Definition ed25519_public_to_x25519 (public_key_bytes : bytes) : res string bytes :=
  match ed25519_decompress public_key_bytes with
  | None => Err "Failed to decompress Ed25519 public key"%string
  | Some montgomery => Ok montgomery
  end.

Record PublicKeyBundle : Type := mkBundle {
  pb_ed25519_public : bytes;
  pb_x25519_public : bytes;
  pb_mlkem_encaps_key : bytes;
  pb_mldsa_public : option bytes;
  pb_created_at : Z;
  pb_supported_suites : bytes;
  pb_signature : bytes;
  pb_mldsa_signature : option bytes;
}.

(** ** Lemmas *)

Context {CL : CryptoLaws}.

(** What the sender encapsulates for a published key pair, its owner decapsulates. *)
Lemma hybrid_kem_agree eph r x seed hct ss :
  hybrid_encapsulate eph r (x25519_public x) (pub_key (generate seed)) = Ok (hct, ss) ->
  hybrid_decapsulate x (generate seed) hct = Ok ss.
Proof.
  unfold hybrid_encapsulate, hybrid_decapsulate, encapsulate, decapsulate. cbn [generate pub_key priv_key].
  rewrite mlkem_public_length. cbn [negb Z.eqb Pos.eqb].
  destruct (was_contributory _) eqn:Ec; cbn [negb rbind]; [|discriminate].
  destruct (mlkem_encapsulate _ r) as [ct ssm] eqn:Em. intros [= <- <-].
  pose proof (mlkem_ct_length (mlkem_generate seed).1 r) as Hl. pose proof (mlkem_correct seed r) as Hc.
  rewrite Em in Hl, Hc. cbn [fst snd] in Hl, Hc. cbn [x25519_ephemeral_public mlkem_ciphertext].
  rewrite Hl. cbn [negb Z.eqb Pos.eqb]. rewrite dh_comm, Ec. cbn [negb rbind].
  by rewrite Hc.
Qed.

End Primitives.

(** ** A sample instance

    Small functions, of no cryptographic strength, that keep the laws; concrete
    sessions are evaluated with them. *)

Module Sample.

Definition pad (n : nat) (l : bytes) : bytes := resize n Byte.x00 l.

Definition mix (l : bytes) : Z := foldl (fun acc b => (acc * 257 + byte.unsigned b + 1) mod 2 ^ 256) 7 l.

Definition digest (n : nat) (l : bytes) : bytes := le_split n (mix l).

Definition sample_decrypt (k n a c : bytes) : option bytes :=
  let p := drop 16 c in
  if decide (take 16 c = digest 16 (k ++ n ++ a ++ p)) then Some p else None.

#[export] Instance sample_crypto : Crypto := {|
  x25519_public := pad 32;
  diffie_hellman a p := le_split 32 (le_combine (pad 32 a) + le_combine (pad 32 p));
  was_contributory ss := negb (bool_decide (ss = replicate 32 Byte.x00));
  derive_key c m := digest 32 (str_bytes c ++ m);
  blake3_hash := digest 32;
  sha512 := digest 64;
  aead_encrypt k n a p := Some (digest 16 (k ++ n ++ a ++ p) ++ p);
  aead_decrypt := sample_decrypt;
  mlkem_generate seed := (pad 1184 (digest 32 seed), seed);
  mlkem_encapsulate pk r := (pad 1088 (pad 32 r), digest 32 (take 32 pk ++ pad 32 r));
  mlkem_decapsulate sk ct := digest 32 (digest 32 sk ++ take 32 ct);
  ed25519_public sk := pad 32 (take 32 (digest 64 sk));
  ed25519_decompress b := if zlen b =? 32 then Some b else None;
  ed25519_sign sk m := pad 64 (digest 32 (pad 32 (take 32 (digest 64 sk)) ++ m));
  ed25519_key_valid b := zlen b =? 32;
  ed25519_verify pk m sig := bool_decide (sig = pad 64 (digest 32 (pk ++ m)));
  hex_encode := String.string_of_list_byte;
  hex_decode s := Ok (str_bytes s);
  hex_decode_to_slice s n := if zlen (str_bytes s) =? n then Ok (str_bytes s) else Err "length"%string;
|}.

Lemma length_digest n l : length (digest n l) = n.
Proof. apply length_le_split. Qed.

#[export] Instance sample_laws : CryptoLaws.
Proof.
  split; cbn [x25519_public diffie_hellman derive_key aead_encrypt aead_decrypt mlkem_generate mlkem_encapsulate
              mlkem_decapsulate ed25519_public ed25519_decompress ed25519_sign ed25519_key_valid ed25519_verify
              sha512 hex_encode hex_decode hex_decode_to_slice sample_crypto fst snd].
  - intros a b. unfold pad. by rewrite !resize_idemp, Z.add_comm.
  - intros k n a p c Hc.
    assert (c = digest 16 (k ++ n ++ a ++ p) ++ p) as -> by congruence. unfold sample_decrypt.
    rewrite (drop_app_length' _ _ 16), (take_app_length' _ _ 16) by (by rewrite length_digest).
    by rewrite decide_True.
  - intros seed r. unfold pad. rewrite !take_resize_le by lia.
    by rewrite resize_idemp, (resize_all_alt (digest 32 seed)) by (by rewrite length_digest).
  - intros. unfold zlen, pad. by rewrite length_resize.
  - intros. unfold zlen, pad. by rewrite length_resize.
  - intros. unfold zlen, pad. by rewrite length_resize.
  - intros. unfold zlen. by rewrite length_digest.
  - intros. unfold zlen, pad. by rewrite length_resize.
  - intros. unfold zlen, pad. by rewrite length_resize.
  - intros. unfold zlen, pad. by rewrite length_resize.
  - intros. unfold zlen, pad. by rewrite length_resize.
  - intros. by apply bool_decide_eq_true.
  - intros b. unfold str_bytes. by rewrite String.list_byte_of_string_of_list_byte.
  - intros b. unfold str_bytes. by rewrite String.list_byte_of_string_of_list_byte, Z.eqb_refl.
Qed.

End Sample.
