(* ===== verification/Ratchet.v ===== *)
(** * The double ratchet ([core/src/crypto/ratchet.rs])

    A session between two peers: a root key that every Diffie-Hellman step
    renews, a sending and a receiving chain of message keys, and a bounded store
    of the keys of messages that have not arrived yet.  Random bytes are
    arguments of the operations that draw them.  [chain.index], [dh_step_count]
    and [transition_counter] keep their machine widths. *)

From S2P Require Import Prelude Crypto.

(** ** Data *)

Definition RATCHET_KDF_CONTEXT : string := "iron-core ratchet v1 2026-04-15".
Definition ROOT_KDF_CONTEXT_V1 : string := "iron-core root-chain v1 2026-04-15".
Definition ROOT_KDF_CONTEXT_V2 : string := "iron-core root-chain v2 hybrid 2026-07".
Definition MAX_SKIP_KEYS : Z := 256.
Definition MAX_RATCHET_STEPS : Z := 10000.

Record PendingPqSecret : Type := mkPending {
  pp_ss : bytes;
  created_step : Z;
}.

Record Chain : Type := mkChain {
  chain_key : bytes;
  chain_index : Z;
}.

Record RatchetSession : Type := mkSession {
  our_dh_secret : bytes;
  our_dh_public : bytes;
  their_dh_public : option bytes;
  root_key : bytes;
  sending_chain : option Chain;
  receiving_chain : option Chain;
  dh_step_count : Z;
  skipped_keys : gmap (bytes * Z) bytes;
  initialized : bool;
  our_identity_secret : option bytes;
  negotiated_suite : option byte;
  transcript_hash : option bytes;
  peer_confirmed : bool;
  bootstrap_hct : option HybridCiphertext;
  pq_our_keypair : option MlKem768KeyPair;
  pq_prev_keypair : option MlKem768KeyPair;
  pq_their_encaps_key : option bytes;
  pq_pending_ct : option bytes;
  pq_pending_sent : option PendingPqSecret;
  pq_pending_recv : option bytes;
  pq_last_mixed_fp : option bytes;
  transition_counter : Z;
}.

Record RatchetEncryptResult : Type := mkEncrypted {
  re_ciphertext : bytes;
  re_nonce : bytes;
  re_message_number : Z;
  re_our_dh_public : bytes;
}.

(** [Ord] of the keys of the skipped-key store, [([u8; 32], u32)]. *)
Definition skipped_cmp (a b : bytes * Z) : comparison :=
  if decide (a.1 = b.1) then a.2 ?= b.2
  else if bytes_leb a.1 b.1 then Lt else Gt.

Section Ratchet.
Context {CR : Crypto} {BM : Build}.

(** ** Key derivation *)

Definition derive_key_with_info (key info : bytes) : bytes :=
  derive_key (String.append RATCHET_KDF_CONTEXT (String.append ":" (hex_encode (blake3_hash info)))) key.

Definition root_key_ratchet_v1 (root dh_output : bytes) : bytes * bytes :=
  let combined := derive_key ROOT_KDF_CONTEXT_V1 (root ++ dh_output) in
  (derive_key (String.append ROOT_KDF_CONTEXT_V1 ":root") combined,
   derive_key (String.append ROOT_KDF_CONTEXT_V1 ":chain") combined).

Definition root_key_ratchet_v2 (root dh_output : bytes) (pq_ss : option bytes) : bytes * bytes :=
  let input := match pq_ss with
               | Some ss_pq => [root; dh_output; ss_pq]
               | None => [root; dh_output]
               end in
  let combined := derive_key ROOT_KDF_CONTEXT_V2 (concat input) in
  (derive_key (String.append ROOT_KDF_CONTEXT_V2 ":root") combined,
   derive_key (String.append ROOT_KDF_CONTEXT_V2 ":chain") combined).

Definition derive_root_key_v1 (prior_root shared_secret : bytes) : bytes :=
  derive_key ROOT_KDF_CONTEXT_V1 (prior_root ++ shared_secret).

Definition pq_ss_fingerprint (ss : bytes) : bytes := take 16 (blake3_hash ss).

(** ** Chains *)

Definition chain_new (key : bytes) : Chain := mkChain key 0.
Definition new_with_index (key : bytes) (index : Z) : Chain := mkChain key index.

Definition next_message_key (c : Chain) : res string (bytes * Chain) :=
  let msg_key := derive_key_with_info (chain_key c) (str_bytes "message-key") in
  let ck := derive_key_with_info (chain_key c) (str_bytes "chain-key") in
  let! index := chk_u 32 (chain_index c + 1) in
  Ok (msg_key, mkChain ck index).

(** ** Initialisation *)

Definition init_as_sender (rnd : bytes) (our_signing_key their_identity_public_x25519 : bytes) : RatchetSession :=
  let our_x25519 := ed25519_to_x25519_secret our_signing_key in
  let shared_secret := diffie_hellman our_x25519 their_identity_public_x25519 in
  let root := derive_root_key_v1 (replicate 32 Byte.x00) shared_secret in
  let dh_output := diffie_hellman rnd their_identity_public_x25519 in
  let '(new_root_key, sending_chain_key) := root_key_ratchet_v1 root dh_output in
  mkSession rnd (x25519_public rnd) (Some their_identity_public_x25519) new_root_key
    (Some (chain_new sending_chain_key)) None 1 ∅ true None None None false None
    None None None None None None None 1.

Definition init_as_receiver (rnd : bytes) (our_signing_key sender_identity_public_x25519 : bytes) : RatchetSession :=
  let our_x25519 := ed25519_to_x25519_secret our_signing_key in
  let shared_secret := diffie_hellman our_x25519 sender_identity_public_x25519 in
  let root := derive_root_key_v1 (replicate 32 Byte.x00) shared_secret in
  mkSession rnd (x25519_public rnd) None root
    None None 0 ∅ false (Some our_x25519) None None false None
    None None None None None None None 0.

(** The random bytes a hybrid sender draws: ratchet key, ephemeral key,
    encapsulation, ML-KEM seed. *)
Record HybridRandom : Type := mkHybridRandom {
  hr_dh : bytes;
  hr_ephemeral : bytes;
  hr_encap : bytes;
  hr_mlkem_seed : bytes;
}.

(** What both hybrid senders do once the initial root key is known. *)
Definition sender_session (rnd : HybridRandom) (suite : byte) (their_bundle : PublicKeyBundle) (th : bytes)
    (hct : HybridCiphertext) (root_key_0 : bytes) : RatchetSession :=
  let dh_output := diffie_hellman (hr_dh rnd) (pb_x25519_public their_bundle) in
  let '(new_root_key, sending_chain_key) := root_key_ratchet_v2 root_key_0 dh_output None in
  mkSession (hr_dh rnd) (x25519_public (hr_dh rnd)) (Some (pb_x25519_public their_bundle)) new_root_key
    (Some (chain_new sending_chain_key)) None 1 ∅ true None (Some suite) (Some th) false (Some hct)
    (Some (generate (hr_mlkem_seed rnd))) None (Some (pb_mlkem_encaps_key their_bundle))
    None None None None 1.

(** What both hybrid receivers do once the initial root key is known. *)
Definition receiver_session (rnd : bytes) (suite : byte) (our_x25519_secret : bytes)
    (our_mlkem_keypair : MlKem768KeyPair) (th : bytes) (hct : HybridCiphertext) (root_key_0 : bytes)
    : RatchetSession :=
  mkSession rnd (x25519_public rnd) None root_key_0
    None None 0 ∅ false (Some our_x25519_secret) (Some suite) (Some th) false (Some hct)
    (Some our_mlkem_keypair) None (Some (mlkem_ciphertext hct)) None None None None 0.

Definition SESSION_ROOT_V3 : string := "iron-core session-root v3 2026-08".
Definition SESSION_ROOT_V2 : string := "iron-core session-root v2 2026-07".

Definition init_as_sender_hybrid (rnd : HybridRandom) (our_x25519_secret : bytes)
    (their_bundle : PublicKeyBundle) (th : bytes) : res string RatchetSession :=
  let! '(hct, ss_hybrid) := hybrid_encapsulate (hr_ephemeral rnd) (hr_encap rnd)
                              (pb_x25519_public their_bundle) (pb_mlkem_encaps_key their_bundle) in
  let dh_static := diffie_hellman our_x25519_secret (pb_x25519_public their_bundle) in
  let root_key_0 := derive_key SESSION_ROOT_V3 (ss_hybrid ++ dh_static ++ th) in
  Ok (sender_session rnd Byte.x03 their_bundle th hct root_key_0).

Definition init_as_receiver_hybrid (rnd : bytes) (our_x25519_secret : bytes) (our_mlkem_keypair : MlKem768KeyPair)
    (sender_bundle : PublicKeyBundle) (hct : HybridCiphertext) (th : bytes) : res string RatchetSession :=
  let! ss_hybrid := hybrid_decapsulate our_x25519_secret our_mlkem_keypair hct in
  let dh_static := diffie_hellman our_x25519_secret (pb_x25519_public sender_bundle) in
  let root_key_0 := derive_key SESSION_ROOT_V3 (ss_hybrid ++ dh_static ++ th) in
  Ok (receiver_session rnd Byte.x03 our_x25519_secret our_mlkem_keypair th hct root_key_0).

Definition init_as_sender_hybrid_suite02 (rnd : HybridRandom) (their_bundle : PublicKeyBundle) (th : bytes)
    : res string RatchetSession :=
  let! '(hct, ss_hybrid) := hybrid_encapsulate (hr_ephemeral rnd) (hr_encap rnd)
                              (pb_x25519_public their_bundle) (pb_mlkem_encaps_key their_bundle) in
  let root_key_0 := derive_key SESSION_ROOT_V2 (ss_hybrid ++ th) in
  Ok (sender_session rnd Byte.x02 their_bundle th hct root_key_0).

Definition init_as_receiver_hybrid_suite02 (rnd : bytes) (our_x25519_secret : bytes)
    (our_mlkem_keypair : MlKem768KeyPair) (hct : HybridCiphertext) (th : bytes) : res string RatchetSession :=
  let! ss_hybrid := hybrid_decapsulate our_x25519_secret our_mlkem_keypair hct in
  let root_key_0 := derive_key SESSION_ROOT_V2 (ss_hybrid ++ th) in
  Ok (receiver_session rnd Byte.x02 our_x25519_secret our_mlkem_keypair th hct root_key_0).

Definition is_pq_hybrid (self : RatchetSession) : bool :=
  match negotiated_suite self with
  | Some s => bool_decide (s ∈ HYBRID_SUITE_IDS)
  | None => false
  end.

(** ** Encryption *)

Definition set_sending_chain (self : RatchetSession) (c : Chain) : RatchetSession :=
  mkSession (our_dh_secret self) (our_dh_public self) (their_dh_public self) (root_key self) (Some c)
    (receiving_chain self) (dh_step_count self) (skipped_keys self) (initialized self)
    (our_identity_secret self) (negotiated_suite self) (transcript_hash self) (peer_confirmed self)
    (bootstrap_hct self) (pq_our_keypair self) (pq_prev_keypair self) (pq_their_encaps_key self)
    (pq_pending_ct self) (pq_pending_sent self) (pq_pending_recv self) (pq_last_mixed_fp self)
    (transition_counter self).

(** An error of the cipher is returned after the chain has advanced. *)
Definition encrypt (nonce_bytes : bytes) (self : RatchetSession) (plaintext aad : bytes)
    : res string RatchetEncryptResult * RatchetSession :=
  match sending_chain self with
  | None => (Err "Sending chain not initialized"%string, self)
  | Some chain =>
      if MAX_RATCHET_STEPS <=? dh_step_count self
      then (Err "Ratchet session has exceeded maximum steps"%string, self)
      else
        match next_message_key chain with
        | Ok (message_key, chain) =>
            let self := set_sending_chain self chain in
            match @chk_u BM string 32 (chain_index chain - 1) with
            | Ok message_number =>
                match aead_encrypt message_key nonce_bytes aad plaintext with
                | Some ciphertext =>
                    (Ok (mkEncrypted ciphertext nonce_bytes message_number (our_dh_public self)), self)
                | None => (Err "Encryption failed"%string, self)
                end
            | Err e => (Err e, self)
            | Panic => (Panic, self)
            end
        | Err e => (Err e, self)
        | Panic => (Panic, self)
        end
  end.

(** ** Message keys *)

Definition evict_skipped (m : gmap (bytes * Z) bytes) : gmap (bytes * Z) bytes :=
  if MAX_SKIP_KEYS <? Z.of_nat (size m) then
    match min_by skipped_cmp (map_to_list m).*1 with
    | Some oldest => delete oldest m
    | None => m
    end
  else m.

(** The loop [while chain.index < target_number]; [fuel] is the number of rounds. *)
Fixpoint skip_loop (fuel : nat) (their_dh : bytes) (target_number : Z) (chain : Chain)
    (skipped : gmap (bytes * Z) bytes) : res string (Chain * gmap (bytes * Z) bytes) :=
  match fuel with
  | O => Ok (chain, skipped)
  | S fuel =>
      if chain_index chain <? target_number then
        let! '(skipped_key, chain) := next_message_key chain in
        let! skipped_number := chk_u 32 (chain_index chain - 1) in
        let skipped := <[(their_dh, skipped_number) := skipped_key]> skipped in
        skip_loop fuel their_dh target_number chain (evict_skipped skipped)
      else Ok (chain, skipped)
  end.

(** The key of a message, the receiving chain and the store afterwards. *)
Definition get_message_key (receiving : option Chain) (skipped : gmap (bytes * Z) bytes)
    (their_dh : bytes) (target_number : Z)
    : res string (bytes * option Chain * gmap (bytes * Z) bytes) :=
  match skipped !! (their_dh, target_number) with
  | Some key => Ok (key, receiving, delete (their_dh, target_number) skipped)
  | None =>
      match receiving with
      | None => Err "Receiving chain not initialized"%string
      | Some chain =>
          if target_number <? chain_index chain
          then Err "Message number is behind current chain position"%string
          else
            let skip_count := target_number - chain_index chain in
            if MAX_SKIP_KEYS <? skip_count then Err "Too many skipped messages"%string
            else
              let! '(chain, skipped) := skip_loop (Z.to_nat skip_count) their_dh target_number chain skipped in
              let! '(key, chain) := next_message_key chain in
              Ok (key, Some chain, skipped)
      end
  end.

(** [XNonce::from_slice] panics on a slice of the wrong length. *)
Definition xnonce (nonce : bytes) : res string bytes := if zlen nonce =? 24 then Ok nonce else Panic.

Definition open_with (key nonce aad ciphertext : bytes) (failure : string) : res string bytes :=
  let! nonce_obj := xnonce nonce in
  match aead_decrypt key nonce_obj aad ciphertext with
  | Some plaintext => Ok plaintext
  | None => Err failure
  end.

Definition set_received (self : RatchetSession) (receiving : option Chain)
    (skipped : gmap (bytes * Z) bytes) (confirmed : bool) : RatchetSession :=
  mkSession (our_dh_secret self) (our_dh_public self) (their_dh_public self) (root_key self)
    (sending_chain self) receiving (dh_step_count self) skipped (initialized self)
    (our_identity_secret self) (negotiated_suite self) (transcript_hash self) confirmed
    (bootstrap_hct self) (pq_our_keypair self) (pq_prev_keypair self) (pq_their_encaps_key self)
    (pq_pending_ct self) (pq_pending_sent self) (pq_pending_recv self) (pq_last_mixed_fp self)
    (transition_counter self).

(** ** The Diffie-Hellman step *)

Definition root_key_ratchet (self : RatchetSession) (root dh_output : bytes) (pq_ss : option bytes) : bytes * bytes :=
  if is_pq_hybrid self then root_key_ratchet_v2 root dh_output pq_ss
  else root_key_ratchet_v1 root dh_output.

Definition dh_step (rnd : bytes) (self : RatchetSession) (their_new_dh : bytes) (candidate : option bytes)
    : res string RatchetSession :=
  let first_dh_secret := default (our_dh_secret self) (our_identity_secret self) in
  let '(new_root_key, receiving_chain_key) :=
    root_key_ratchet self (root_key self) (diffie_hellman first_dh_secret their_new_dh) (pq_pending_recv self) in
  let '(new_root_key_2, sending_chain_key) :=
    root_key_ratchet self new_root_key (diffie_hellman rnd their_new_dh) candidate in
  let! steps := chk_u 32 (dh_step_count self + 1) in
  Ok (mkSession rnd (x25519_public rnd) (Some their_new_dh) new_root_key_2
        (Some (chain_new sending_chain_key)) (Some (chain_new receiving_chain_key)) steps (skipped_keys self)
        true None (negotiated_suite self) (transcript_hash self) (peer_confirmed self) (bootstrap_hct self)
        (pq_our_keypair self) (pq_prev_keypair self) (pq_their_encaps_key self) (pq_pending_ct self)
        (pq_pending_sent self) (pq_pending_recv self) (pq_last_mixed_fp self) (transition_counter self)).

Definition adopt (self : RatchetSession) (candidate : option bytes) : res string RatchetSession :=
  let! counter := chk_u 64 (transition_counter self + 2) in
  let fp := match pq_pending_recv self with
            | Some ss_recv => Some (pq_ss_fingerprint ss_recv)
            | None => pq_last_mixed_fp self
            end in
  let pending_ct := match candidate with Some _ => None | None => pq_pending_ct self end in
  let pending_sent := match candidate with Some _ => None | None => pq_pending_sent self end in
  Ok (mkSession (our_dh_secret self) (our_dh_public self) (their_dh_public self) (root_key self)
        (sending_chain self) (receiving_chain self) (dh_step_count self) (skipped_keys self)
        (initialized self) (our_identity_secret self) (negotiated_suite self) (transcript_hash self) true
        (bootstrap_hct self) (pq_our_keypair self) (pq_prev_keypair self) (pq_their_encaps_key self)
        pending_ct pending_sent None fp counter).

(** One round of the loop over the candidates. *)
Definition trial (rnd : bytes) (self : RatchetSession) (their_new_dh : bytes) (message_number : Z)
    (nonce ciphertext aad : bytes) (candidate : option bytes) : res string (bytes * RatchetSession) :=
  let! t := dh_step rnd self their_new_dh candidate in
  let! '(key, receiving, skipped) := get_message_key (receiving_chain t) (skipped_keys t) their_new_dh message_number in
  let! plaintext := open_with key nonce aad ciphertext "decryption failed" in
  let! t := adopt (set_received t receiving skipped true) candidate in
  Ok (plaintext, t).

Definition candidates (self : RatchetSession) : list (option bytes) :=
  match pq_pending_sent self with
  | Some pending => [Some (pp_ss pending); None]
  | None => [None]
  end.

Fixpoint trial_loop (rnds : nat -> bytes) (self : RatchetSession) (their_new_dh : bytes) (message_number : Z)
    (nonce ciphertext aad : bytes) (cands : list (option bytes)) : res string bytes * RatchetSession :=
  match cands with
  | [] => (Err "Trial decryption failed for all candidates"%string, self)
  | c :: cands =>
      match trial (rnds 0%nat) self their_new_dh message_number nonce ciphertext aad c with
      | Ok (plaintext, t) => (Ok plaintext, t)
      | Err _ => trial_loop (fun i => rnds (S i)) self their_new_dh message_number nonce ciphertext aad cands
      | Panic => (Panic, self)
      end
  end.

Definition handle_dh_ratchet_trial (rnds : nat -> bytes) (self : RatchetSession) (their_new_dh : bytes)
    (message_number : Z) (nonce ciphertext aad : bytes) : res string bytes * RatchetSession :=
  trial_loop rnds self their_new_dh message_number nonce ciphertext aad (candidates self).

(** ** Decryption *)

Definition decrypt (rnds : nat -> bytes) (self : RatchetSession) (their_dh : bytes) (message_number : Z)
    (nonce ciphertext aad : bytes) : res string bytes * RatchetSession :=
  if negb (zlen their_dh =? 32) then (Err "Invalid DH public key length"%string, self)
  else
    match skipped_keys self !! (their_dh, message_number) with
    | Some message_key =>
        match open_with message_key nonce aad ciphertext "Decryption failed with skipped key" with
        | Ok plaintext =>
            (Ok plaintext, set_received self (receiving_chain self)
                             (delete (their_dh, message_number) (skipped_keys self)) true)
        | Err e => (Err e, self)
        | Panic => (Panic, self)
        end
    | None =>
        if decide (their_dh_public self = Some their_dh) then
          match get_message_key (receiving_chain self) (skipped_keys self) their_dh message_number with
          | Ok (message_key, receiving, skipped) =>
              match open_with message_key nonce aad ciphertext "Decryption failed" with
              | Ok plaintext => (Ok plaintext, set_received self receiving skipped true)
              | Err e => (Err e, self)
              | Panic => (Panic, self)
              end
          | Err e => (Err e, self)
          | Panic => (Panic, self)
          end
        else handle_dh_ratchet_trial rnds self their_dh message_number nonce ciphertext aad
    end.

(** ** Post-quantum steps *)

Definition set_pq_sent (self : RatchetSession) (ss ct : bytes) (new_keypair : MlKem768KeyPair) : RatchetSession :=
  mkSession (our_dh_secret self) (our_dh_public self) (their_dh_public self) (root_key self)
    (sending_chain self) (receiving_chain self) (dh_step_count self) (skipped_keys self)
    (initialized self) (our_identity_secret self) (negotiated_suite self) (transcript_hash self)
    (peer_confirmed self) (bootstrap_hct self) (Some new_keypair) (pq_our_keypair self)
    (pq_their_encaps_key self) (Some ct) (Some (mkPending ss (dh_step_count self))) (pq_pending_recv self)
    (pq_last_mixed_fp self) (transition_counter self).

Definition perform_pq_ratchet_step (encap_rand seed : bytes) (self : RatchetSession)
    : res string (bytes * bytes) * RatchetSession :=
  if negb (is_pq_hybrid self) then (Err "PQ ratchet step only supported for PQ-hybrid suites"%string, self)
  else
    match pq_their_encaps_key self with
    | None => (Err "No PQ encapsulation key from peer"%string, self)
    | Some their_encaps_key =>
        match encapsulate encap_rand their_encaps_key with
        | Ok (ct, ss_pq) =>
            let new_keypair := generate seed in
            (Ok (ct, pub_key new_keypair), set_pq_sent self ss_pq ct new_keypair)
        | Err e => (Err e, self)
        | Panic => (Panic, self)
        end
    end.

Definition set_pq_received (self : RatchetSession) (encaps_key : bytes) (recv : option bytes) : RatchetSession :=
  mkSession (our_dh_secret self) (our_dh_public self) (their_dh_public self) (root_key self)
    (sending_chain self) (receiving_chain self) (dh_step_count self) (skipped_keys self)
    (initialized self) (our_identity_secret self) (negotiated_suite self) (transcript_hash self)
    (peer_confirmed self) (bootstrap_hct self) (pq_our_keypair self) (pq_prev_keypair self)
    (Some encaps_key) None (pq_pending_sent self) recv (pq_last_mixed_fp self) (transition_counter self).

(** The previous key pair is tried as well, and its answer replaces that of the current one. *)
Definition handle_incoming_pq_fields (self : RatchetSession) (pq_kem_ciphertext pq_encaps_key : bytes)
    : res string bytes * RatchetSession :=
  if negb (is_pq_hybrid self) then (Err "PQ fields only expected for PQ-hybrid suites"%string, self)
  else
    let attempt (kp : option MlKem768KeyPair) (found : option bytes) :=
      match kp with
      | Some kp => match decapsulate kp pq_kem_ciphertext with Ok ss => Some ss | _ => found end
      | None => found
      end in
    match attempt (pq_prev_keypair self) (attempt (pq_our_keypair self) None) with
    | None => (Ok [], self)
    | Some ss_pq =>
        let fp := pq_ss_fingerprint ss_pq in
        let is_duplicate := bool_decide (pq_last_mixed_fp self = Some fp)
                            || bool_decide (pq_ss_fingerprint <$> pq_pending_recv self = Some fp) in
        let recv := if is_duplicate then pq_pending_recv self else Some ss_pq in
        (Ok ss_pq, set_pq_received self pq_encaps_key recv)
    end.

Definition validate_pq_fields_present (self : RatchetSession) (has_pq_fields : bool) : res string unit :=
  if is_pq_hybrid self && bool_decide (is_Some (pq_their_encaps_key self)) && negb has_pq_fields
  then Err "PQ stripping attempt detected"%string
  else Ok tt.

Definition clear_pq_pending_ct (self : RatchetSession) : RatchetSession :=
  mkSession (our_dh_secret self) (our_dh_public self) (their_dh_public self) (root_key self)
    (sending_chain self) (receiving_chain self) (dh_step_count self) (skipped_keys self)
    (initialized self) (our_identity_secret self) (negotiated_suite self) (transcript_hash self)
    (peer_confirmed self) (bootstrap_hct self) (pq_our_keypair self) (pq_prev_keypair self)
    (pq_their_encaps_key self) None (pq_pending_sent self) (pq_pending_recv self) (pq_last_mixed_fp self)
    (transition_counter self).

Definition our_public_key (self : RatchetSession) : bytes := our_dh_public self.

(** The unconditional step, kept beside the trial. *)
Definition handle_dh_ratchet (rnd : bytes) (self : RatchetSession) (their_new_dh : bytes) : res string RatchetSession :=
  dh_step rnd self their_new_dh (pp_ss <$> pq_pending_sent self).

End Ratchet.

(** ** Specification

    The keys of an epoch are determined by the chain key [ck] it starts with:
    [mk_at ck i] is the key of its [i]-th message. *)

Section Spec.
Context {CR : Crypto} {BM : Build}.

Fixpoint ck_at (ck : bytes) (n : nat) : bytes :=
  match n with
  | O => ck
  | S n => derive_key_with_info (ck_at ck n) (str_bytes "chain-key")
  end.

Definition mk_at (ck : bytes) (n : nat) : bytes := derive_key_with_info (ck_at ck n) (str_bytes "message-key").

Definition chain_at (ck : bytes) (n : nat) : Chain := mkChain (ck_at ck n) (Z.of_nat n).

(** The receiver's view of the epoch that the peer's key [d] opened: [n] keys
    have been derived, the messages [D] have been read, and the keys of the
    others are kept. *)
Record epoch (s : RatchetSession) (d ck : bytes) (n : nat) (D : gset nat) : Prop := {
  ep_their : their_dh_public s = Some d;
  ep_chain : receiving_chain s = Some (chain_at ck n);
  ep_read : forall i, i ∈ D -> (i < n)%nat;
  ep_skipped : forall i, skipped_keys s !! (d, Z.of_nat i) =
                 if decide ((i < n)%nat /\ i ∉ D) then Some (mk_at ck i) else None;
}.

(** A message as it travels: its nonce, its ciphertext and what it carries. *)
Record message : Type := mkMessage { mg_nonce : bytes; mg_ct : bytes; mg_plain : bytes }.

Definition sealed (ck : bytes) (i : nat) (aad : bytes) (m : message) : Prop :=
  zlen (mg_nonce m) = 24 /\ aead_encrypt (mk_at ck i) (mg_nonce m) aad (mg_plain m) = Some (mg_ct m).

(** Deliver the messages numbered [ms], in that order. *)
Fixpoint receive_all (rnds : nat -> bytes) (s : RatchetSession) (d aad : bytes) (msgs : nat -> message)
    (ms : list nat) : list (res string bytes) * RatchetSession :=
  match ms with
  | [] => ([], s)
  | i :: ms =>
      let '(r, s) := decrypt rnds s d (Z.of_nat i) (mg_nonce (msgs i)) (mg_ct (msgs i)) aad in
      let '(rs, s) := receive_all rnds s d aad msgs ms in
      (r :: rs, s)
  end.

(** The promise: each message is read once. *)
Fixpoint read_once (D : gset nat) (msgs : nat -> message) (ms : list nat) : list (res string bytes) :=
  match ms with
  | [] => []
  | i :: ms =>
      (if decide (i ∈ D) then Err "Message number is behind current chain position"%string
       else Ok (mg_plain (msgs i)))
      :: read_once ({[i]} ∪ D) msgs ms
  end.

(** The secret with which a session answers the next key of its peer. *)
Definition answering_secret (s : RatchetSession) : bytes := default (our_dh_secret s) (our_identity_secret s).

(** [x] has opened an epoch that [y] has not seen: deriving from its own root key
    and the public key of [x], [y] obtains the root key of [x] and the chain [x] sends on. *)
Record ahead (x y : RatchetSession) (ck : bytes) (i : nat) : Prop := {
  ah_sending : sending_chain x = Some (chain_at ck i);
  ah_public : our_dh_public x = x25519_public (our_dh_secret x);
  ah_identity : our_identity_secret x = None;
  ah_suite : is_pq_hybrid x = is_pq_hybrid y;
  ah_root : (root_key x, ck) = root_key_ratchet y (root_key y)
              (diffie_hellman (our_dh_secret x) (x25519_public (answering_secret y))) (pq_pending_recv y);
  ah_new : their_dh_public y <> Some (our_dh_public x);
  ah_unused : forall j, skipped_keys y !! (our_dh_public x, j) = None;
}.

(** The store of skipped keys after [k] keys have been set aside. *)
Fixpoint set_aside (d ck : bytes) (n k : nat) (sk : gmap (bytes * Z) bytes) : gmap (bytes * Z) bytes :=
  match k with
  | O => sk
  | S k => set_aside d ck (S n) k (<[(d, Z.of_nat n) := mk_at ck n]> sk)
  end.

Record session_ok (s : RatchetSession) : Prop := {
  so_skipped : Z.of_nat (size (skipped_keys s)) <= MAX_SKIP_KEYS;
  so_sending : forall c, sending_chain s = Some c -> in_u 32 (chain_index c);
  so_receiving : forall c, receiving_chain s = Some c -> in_u 32 (chain_index c);
  so_steps : in_u 32 (dh_step_count s);
  so_counter : in_u 64 (transition_counter s);
}.

(** ** Lemmas on chains and skipped keys *)

Lemma next_message_key_at ck n :
  Z.of_nat n + 1 < 2 ^ 32 -> next_message_key (chain_at ck n) = Ok (mk_at ck n, chain_at ck (S n)).
Proof.
  intros Hn. unfold next_message_key. cbn [chain_index chain_key chain_at].
  rewrite chk_u_ok by (split; lia). cbn [rbind]. unfold chain_at. by rewrite Nat2Z.inj_succ.
Qed.

Lemma size_insert_le {V} (m : gmap (bytes * Z) V) k v : (size (<[k := v]> m) <= S (size m))%nat.
Proof.
  destruct (m !! k) eqn:E.
  - rewrite map_size_insert_Some by done. lia.
  - rewrite map_size_insert_None by done. lia.
Qed.

Lemma evict_skipped_small m : Z.of_nat (size m) <= 256 -> evict_skipped m = m.
Proof. intros H. unfold evict_skipped, MAX_SKIP_KEYS. case_if; bool_to_prop; [lia|done]. Qed.

Lemma evict_skipped_bound m : Z.of_nat (size m) <= 257 -> Z.of_nat (size (evict_skipped m)) <= 256.
Proof.
  intros H. unfold evict_skipped, MAX_SKIP_KEYS. case_if; bool_to_prop; [|lia].
  destruct (min_by _ _) as [k|] eqn:Hm.
  - apply min_by_Some in Hm. apply list_elem_of_fmap in Hm as [[k' v] [-> Hm]].
    apply elem_of_map_to_list in Hm. cbn [fst]. rewrite map_size_delete_Some by done. lia.
  - apply min_by_None, fmap_nil_inv, map_to_list_empty_iff in Hm. subst m. rewrite map_size_empty in *. lia.
Qed.

Lemma skip_loop_at d ck k : forall n sk,
  Z.of_nat (n + k) < 2 ^ 32 -> Z.of_nat (size sk + k) <= 256 ->
  skip_loop k d (Z.of_nat (n + k)) (chain_at ck n) sk = Ok (chain_at ck (n + k), set_aside d ck n k sk).
Proof.
  induction k as [|k IH]; intros n sk Hn Hs; cbn [skip_loop set_aside].
  { by rewrite Nat.add_0_r. }
  cbn [chain_index chain_at]. rewrite (proj2 (Z.ltb_lt _ _)) by lia.
  rewrite next_message_key_at by lia. cbn [rbind chain_index chain_at].
  rewrite chk_u_ok by (split; lia). cbn [rbind].
  replace (Z.of_nat (S n) - 1) with (Z.of_nat n) by lia.
  pose proof (size_insert_le sk (d, Z.of_nat n) (mk_at ck n)).
  rewrite evict_skipped_small by lia. rewrite <-Nat.add_succ_comm. apply IH; lia.
Qed.

Lemma set_aside_size d ck k : forall n sk, (size (set_aside d ck n k sk) <= size sk + k)%nat.
Proof.
  induction k as [|k IH]; intros n sk; cbn [set_aside]; [lia|].
  specialize (IH (S n) (<[(d, Z.of_nat n) := mk_at ck n]> sk)).
  pose proof (size_insert_le sk (d, Z.of_nat n) (mk_at ck n)). lia.
Qed.

Lemma set_aside_lookup d ck k : forall n sk i,
  set_aside d ck n k sk !! (d, Z.of_nat i) =
  if decide ((n <= i < n + k)%nat) then Some (mk_at ck i) else sk !! (d, Z.of_nat i).
Proof.
  induction k as [|k IH]; intros n sk i; cbn [set_aside].
  { rewrite decide_False by lia. done. }
  rewrite IH. destruct (decide (i = n)) as [->|Hne].
  - rewrite decide_False by lia. rewrite decide_True by lia. apply lookup_insert_eq.
  - rewrite lookup_insert_ne by (intros [=]; lia).
    destruct (decide (S n <= i < S n + k)%nat); [rewrite decide_True by lia|rewrite decide_False by lia]; done.
Qed.

Lemma get_message_key_ahead d ck n i sk :
  sk !! (d, Z.of_nat i) = None -> (n <= i)%nat -> Z.of_nat i + 1 < 2 ^ 32 ->
  Z.of_nat (size sk) + (Z.of_nat i - Z.of_nat n) <= 256 ->
  get_message_key (Some (chain_at ck n)) sk d (Z.of_nat i)
  = Ok (mk_at ck i, Some (chain_at ck (S i)), set_aside d ck n (i - n) sk).
Proof.
  intros Hsk Hni Hi Hb. unfold get_message_key, MAX_SKIP_KEYS. rewrite Hsk. cbn [chain_index chain_at].
  rewrite (proj2 (Z.ltb_ge _ _)) by lia. rewrite (proj2 (Z.ltb_ge _ _)) by lia.
  replace (Z.to_nat (Z.of_nat i - Z.of_nat n)) with (i - n)%nat by lia.
  pose proof (skip_loop_at d ck (i - n) n sk) as Hl. replace (n + (i - n))%nat with i in Hl by lia.
  change (mkChain (ck_at ck n) (Z.of_nat n)) with (chain_at ck n).
  rewrite Hl by lia. cbn [rbind]. rewrite next_message_key_at by lia. done.
Qed.

Lemma open_sealed ck i aad m failure :
  CryptoLaws -> sealed ck i aad m -> open_with (mk_at ck i) (mg_nonce m) aad (mg_ct m) failure = Ok (mg_plain m).
Proof.
  intros CL [Hn He]. unfold open_with, xnonce. rewrite Hn. cbn [Z.eqb Pos.eqb rbind].
  by rewrite (aead_correct _ _ _ _ _ He).
Qed.

(** ** Reading an epoch *)

Section Laws.
Context {CL : CryptoLaws}.

Lemma epoch_read_stored rnds s d ck n D i aad m :
  epoch s d ck n D -> zlen d = 32 -> (i < n)%nat -> i ∉ D -> sealed ck i aad m ->
  exists s', decrypt rnds s d (Z.of_nat i) (mg_nonce m) (mg_ct m) aad = (Ok (mg_plain m), s')
    /\ epoch s' d ck n ({[i]} ∪ D) /\ (size (skipped_keys s') <= size (skipped_keys s))%nat.
Proof.
  intros [Ht Hc HD Hs] Hd Hi HiD Hm. unfold decrypt. rewrite Hd. cbn [negb Z.eqb Pos.eqb].
  pose proof (Hs i) as Hsi. rewrite decide_True in Hsi by done. rewrite Hsi, (open_sealed _ _ _ _ _ CL Hm).
  eexists. split; [done|]. cbn [skipped_keys set_received]. split.
  - split; cbn [their_dh_public receiving_chain skipped_keys set_received]; [done..| |].
    + intros j. rewrite elem_of_union, elem_of_singleton. intros [->|Hj]; [done|by apply HD].
    + intros j. destruct (decide (j = i)) as [->|Hne].
      * rewrite lookup_delete_eq, decide_False; [done|]. set_solver.
      * rewrite lookup_delete_ne by (intros [=]; lia). rewrite Hs.
        apply decide_ext. set_solver.
  - rewrite map_size_delete, Hsi. cbn. lia.
Qed.

Lemma epoch_read_ahead rnds s d ck n D i aad m :
  epoch s d ck n D -> zlen d = 32 -> (n <= i)%nat -> sealed ck i aad m -> Z.of_nat i + 1 < 2 ^ 32 ->
  Z.of_nat (size (skipped_keys s)) + (Z.of_nat i - Z.of_nat n) <= 256 ->
  exists s', decrypt rnds s d (Z.of_nat i) (mg_nonce m) (mg_ct m) aad = (Ok (mg_plain m), s')
    /\ epoch s' d ck (S i) ({[i]} ∪ D)
    /\ (size (skipped_keys s') <= size (skipped_keys s) + (i - n))%nat.
Proof.
  intros [Ht Hc HD Hs] Hd Hi Hm Hw Hb. unfold decrypt. rewrite Hd. cbn [negb Z.eqb Pos.eqb].
  pose proof (Hs i) as Hsi. rewrite decide_False in Hsi by lia. rewrite Hsi.
  rewrite decide_True by done. rewrite Hc, get_message_key_ahead by done.
  rewrite (open_sealed _ _ _ _ _ CL Hm). eexists. split; [done|]. cbn [skipped_keys set_received]. split.
  - split; cbn [their_dh_public receiving_chain skipped_keys set_received]; [done..| |].
    + intros j. rewrite elem_of_union, elem_of_singleton. intros [->|Hj]; [lia|]. apply HD in Hj. lia.
    + intros j. rewrite set_aside_lookup, Hs. replace (n + (i - n))%nat with i by lia.
      assert (j ∈ D -> (j < n)%nat) by apply HD.
      repeat case_decide; set_solver by lia.
  - apply set_aside_size.
Qed.

Lemma epoch_read_again rnds s d ck n D i nonce ct aad :
  epoch s d ck n D -> zlen d = 32 -> i ∈ D ->
  decrypt rnds s d (Z.of_nat i) nonce ct aad = (Err "Message number is behind current chain position"%string, s).
Proof.
  intros [Ht Hc HD Hs] Hd Hi. unfold decrypt. rewrite Hd. cbn [negb Z.eqb Pos.eqb].
  pose proof (Hs i) as Hsi. rewrite decide_False in Hsi by set_solver. rewrite Hsi.
  rewrite decide_True by done. unfold get_message_key. rewrite Hsi, Hc. cbn [chain_index chain_at].
  rewrite (proj2 (Z.ltb_lt _ _)); [done|]. apply HD in Hi. lia.
Qed.

(** One delivery, whatever its number. *)
Lemma epoch_deliver rnds s d ck n D i aad m :
  epoch s d ck n D -> zlen d = 32 -> sealed ck i aad m -> Z.of_nat i + 1 < 2 ^ 32 ->
  Z.of_nat (size (skipped_keys s)) + (Z.of_nat i - Z.of_nat n) <= 256 ->
  exists s' n', decrypt rnds s d (Z.of_nat i) (mg_nonce m) (mg_ct m) aad
      = (if decide (i ∈ D) then Err "Message number is behind current chain position"%string else Ok (mg_plain m), s')
    /\ epoch s' d ck n' ({[i]} ∪ D)
    /\ Z.of_nat (size (skipped_keys s')) - Z.of_nat n' <= Z.of_nat (size (skipped_keys s)) - Z.of_nat n.
Proof.
  intros He Hd Hm Hw Hb. destruct (decide (i ∈ D)) as [HiD|HiD].
  - exists s, n. rewrite (epoch_read_again _ _ _ _ _ _ _ _ _ _ He Hd HiD).
    replace ({[i]} ∪ D) with D by set_solver. done.
  - destruct (decide (i < n)%nat) as [Hi|Hi].
    + destruct (epoch_read_stored rnds _ _ _ _ _ _ _ _ He Hd Hi HiD Hm) as (s' & ? & ? & ?).
      exists s', n. split_and!; [done..|lia].
    + destruct (epoch_read_ahead rnds _ _ _ _ _ i aad m He Hd) as (s' & ? & ? & ?); [lia|done..|].
      exists s', (S i). split_and!; [done..|lia].
Qed.

(** C13: the receiver of an epoch reads every message of it exactly once, in
    whatever order and however often the messages are delivered, as long as the
    keys to be set aside fit in the store of 256; a repeated message is refused
    and nothing else is lost. *)
Theorem ratchet_epoch_delivery rnds aad msgs d ck ms : forall s n D,
  epoch s d ck n D -> zlen d = 32 ->
  Forall (fun i => sealed ck i aad (msgs i) /\ Z.of_nat i + 1 < 2 ^ 32
            /\ Z.of_nat (size (skipped_keys s)) + (Z.of_nat i - Z.of_nat n) <= MAX_SKIP_KEYS) ms ->
  (receive_all rnds s d aad msgs ms).1 = read_once D msgs ms
  /\ exists n', epoch (receive_all rnds s d aad msgs ms).2 d ck n' (list_to_set ms ∪ D).
Proof.
  unfold MAX_SKIP_KEYS. induction ms as [|i ms IH]; intros s n D He Hd Hms; cbn [receive_all read_once].
  { split; [done|]. exists n. by replace (list_to_set [] ∪ D) with D by set_solver. }
  apply Forall_cons in Hms as [(Hm & Hw & Hb) Hms].
  destruct (epoch_deliver rnds s d ck n D i aad (msgs i) He Hd Hm Hw Hb) as (s' & n' & -> & He' & Hsz).
  destruct (IH s' n' _ He' Hd) as [IH1 [n2 IH2]].
  { eapply Forall_impl; [exact Hms|]. cbn. intros j (? & ? & ?). split_and!; [done..|lia]. }
  destruct (receive_all rnds s' d aad msgs ms) as [rs s2]. cbn [fst snd] in *. split; [by rewrite IH1|].
  exists n2. rewrite list_to_set_cons. by replace ({[i]} ∪ list_to_set ms ∪ D) with (list_to_set ms ∪ ({[i]} ∪ D)) by set_solver.
Qed.

(** ** Answering a new epoch *)

Lemma candidates_head s : exists rest, candidates s = (pp_ss <$> pq_pending_sent s) :: rest.
Proof. unfold candidates. destruct (pq_pending_sent s); eexists; reflexivity. Qed.

Lemma is_pq_hybrid_eq s s' : negotiated_suite s = negotiated_suite s' -> is_pq_hybrid s = is_pq_hybrid s'.
Proof. unfold is_pq_hybrid. by intros ->. Qed.

Definition counters_low (s : RatchetSession) : Prop :=
  in_u 32 (dh_step_count s + 1) /\ in_u 64 (transition_counter s + 2).

(** The state in which [trial] leaves the session that answers. *)
Record answered (rnd : bytes) (y : RatchetSession) (d ck : bytes) (i : nat) (root : bytes)
    (candidate : option bytes) (t : RatchetSession) : Prop := {
  an_secret : our_dh_secret t = rnd;
  an_public : our_dh_public t = x25519_public rnd;
  an_identity : our_identity_secret t = None;
  an_suite : negotiated_suite t = negotiated_suite y;
  an_epoch : epoch t d ck (S i) {[i]};
  an_root : exists ck', sending_chain t = Some (chain_at ck' 0)
              /\ (root_key t, ck') = root_key_ratchet y root (diffie_hellman rnd d) candidate;
  an_recv : pq_pending_recv t = None;
  an_confirmed : peer_confirmed t = true;
  an_others : forall d' j, d' <> d -> skipped_keys t !! (d', j) = skipped_keys y !! (d', j);
}.

Lemma set_aside_other d ck k : forall n sk d' j, d' <> d -> set_aside d ck n k sk !! (d', j) = sk !! (d', j).
Proof.
  induction k as [|k IH]; intros n sk d' j Hd; cbn [set_aside]; [done|].
  rewrite IH by done. rewrite lookup_insert_ne; [done|]. by intros [= <- _].
Qed.

Lemma trial_ahead rnd x y ck i m aad candidate :
  ahead x y ck i -> counters_low y -> sealed ck i aad m ->
  Z.of_nat (size (skipped_keys y)) + Z.of_nat i <= 256 ->
  exists t, trial rnd y (our_dh_public x) (Z.of_nat i) (mg_nonce m) (mg_ct m) aad candidate = Ok (mg_plain m, t)
    /\ answered rnd y (our_dh_public x) ck i (root_key x) candidate t.
Proof.
  intros [Hs Hp Hid Hsu Hr Hn Hu] [Hc1 Hc2] Hm Hb. unfold trial, dh_step.
  replace (diffie_hellman (default (our_dh_secret y) (our_identity_secret y)) (our_dh_public x))
    with (diffie_hellman (our_dh_secret x) (x25519_public (answering_secret y))) by (rewrite Hp; apply dh_comm).
  rewrite <-Hr. destruct (root_key_ratchet y (root_key x) _ candidate) as [root2 ck2] eqn:Hr2.
  rewrite (chk_u_ok 32) by done. cbn [rbind receiving_chain skipped_keys].
  change (chain_new ck) with (chain_at ck 0).
  rewrite get_message_key_ahead; [|by apply Hu|lia..]. cbn [rbind].
  rewrite (open_sealed _ _ _ _ _ CL Hm). cbn [rbind]. unfold adopt. cbn [transition_counter set_received].
  rewrite (chk_u_ok 64) by done. cbn [rbind]. eexists. split; [done|].
  split; cbn [our_dh_secret our_dh_public our_identity_secret negotiated_suite sending_chain root_key
              pq_pending_recv peer_confirmed skipped_keys set_received]; [done..| | |done|done|].
  - split; cbn [their_dh_public receiving_chain skipped_keys]; [done..| |].
    + intros j. rewrite elem_of_singleton. lia.
    + intros j. rewrite set_aside_lookup, Hu. replace (0 + (i - 0))%nat with i by lia.
      repeat case_decide; set_solver by lia.
  - exists ck2. by rewrite Hr2.
  - intros d' j Hd. by apply set_aside_other.
Qed.

Lemma decrypt_ahead rnds x y ck i m aad :
  ahead x y ck i -> counters_low y -> sealed ck i aad m ->
  Z.of_nat (size (skipped_keys y)) + Z.of_nat i <= 256 ->
  exists t, decrypt rnds y (our_dh_public x) (Z.of_nat i) (mg_nonce m) (mg_ct m) aad = (Ok (mg_plain m), t)
    /\ answered (rnds 0%nat) y (our_dh_public x) ck i (root_key x) (pp_ss <$> pq_pending_sent y) t.
Proof.
  intros Ha Hc Hm Hb. destruct (candidates_head y) as [rest Hrest].
  destruct (trial_ahead (rnds 0%nat) _ _ _ _ _ _ (pp_ss <$> pq_pending_sent y) Ha Hc Hm Hb) as (t & Ht & Han).
  exists t. split; [|done]. unfold decrypt. rewrite (ah_public _ _ _ _ Ha), x25519_public_length.
  rewrite <-(ah_public _ _ _ _ Ha). cbn [negb Z.eqb Pos.eqb]. rewrite (ah_unused _ _ _ _ Ha).
  rewrite decide_False by apply (ah_new _ _ _ _ Ha). unfold handle_dh_ratchet_trial.
  rewrite Hrest. cbn [trial_loop]. by rewrite Ht.
Qed.

Lemma encrypt_at nonce x ck i plaintext aad ct :
  sending_chain x = Some (chain_at ck i) -> dh_step_count x < MAX_RATCHET_STEPS -> Z.of_nat i + 1 < 2 ^ 32 ->
  aead_encrypt (mk_at ck i) nonce aad plaintext = Some ct ->
  encrypt nonce x plaintext aad
  = (Ok (mkEncrypted ct nonce (Z.of_nat i) (our_dh_public x)), set_sending_chain x (chain_at ck (S i))).
Proof.
  intros Hs Hd Hi He. unfold encrypt. rewrite Hs. rewrite (proj2 (Z.leb_gt _ _)) by done.
  rewrite next_message_key_at by lia. cbn [chain_index chain_at]. rewrite chk_u_ok by (split; lia).
  change (mkChain (ck_at ck (S i)) (Z.of_nat (S i))) with (chain_at ck (S i)).
  replace (Z.of_nat (S i) - 1) with (Z.of_nat i) by lia. by rewrite He.
Qed.

Lemma encrypt_at_inv nonce x ck i plaintext aad m x' :
  sending_chain x = Some (chain_at ck i) -> Z.of_nat i + 1 < 2 ^ 32 ->
  encrypt nonce x plaintext aad = (Ok m, x') ->
  exists ct, aead_encrypt (mk_at ck i) nonce aad plaintext = Some ct
    /\ m = mkEncrypted ct nonce (Z.of_nat i) (our_dh_public x) /\ x' = set_sending_chain x (chain_at ck (S i)).
Proof.
  intros Hs Hi He. destruct (aead_encrypt (mk_at ck i) nonce aad plaintext) as [ct|] eqn:Ha.
  - exists ct. split; [done|]. destruct (decide (dh_step_count x < MAX_RATCHET_STEPS)) as [Hd|Hd].
    + rewrite (encrypt_at _ _ _ _ _ _ _ Hs Hd Hi Ha) in He. by injection He as <- <-.
    + unfold encrypt in He. rewrite Hs, (proj2 (Z.leb_le _ _)) in He by lia. discriminate.
  - exfalso. unfold encrypt in He. rewrite Hs in He. case_match; [discriminate|].
    rewrite next_message_key_at in He by lia. cbn [chain_index chain_at] in He.
    rewrite chk_u_ok in He by (split; lia). rewrite Ha in He. discriminate.
Qed.

(** The side that has answered is ahead in turn. *)
Lemma answer_ahead rnd x y ck i t :
  ahead x y ck i -> answered rnd y (our_dh_public x) ck i (root_key x) (pp_ss <$> pq_pending_sent y) t ->
  their_dh_public x <> Some (x25519_public rnd) ->
  (forall j, skipped_keys x !! (x25519_public rnd, j) = None) ->
  (is_pq_hybrid x = true -> pq_pending_recv x = pp_ss <$> pq_pending_sent y) ->
  exists ck', ahead t (set_sending_chain x (chain_at ck (S i))) ck' 0.
Proof.
  intros Ha [Hs Hp Hid Hsu Hep [ck' [Hsc Hr]] _ _ _] Hf1 Hf2 Hpq.
  exists ck'. pose proof (ah_suite _ _ _ _ Ha) as Hsuite.
  split; rewrite ?Hp, ?Hs; try done.
  - rewrite (is_pq_hybrid_eq t y) by done. by rewrite (is_pq_hybrid_eq (set_sending_chain _ _) x) by done.
  - rewrite Hr. unfold root_key_ratchet, answering_secret.
    rewrite (is_pq_hybrid_eq (set_sending_chain _ _) x) by done. rewrite Hsuite.
    cbn [root_key our_dh_secret our_identity_secret pq_pending_recv set_sending_chain].
    rewrite (ah_identity _ _ _ _ Ha), (ah_public _ _ _ _ Ha). cbn [default].
    destruct (is_pq_hybrid y); [|done]. by rewrite (Hpq Hsuite).
Qed.


(** ** Establishing a session *)

Lemma hybrid_ahead rnd rndB suite xB kp bundleB th hct root0 :
  pb_x25519_public bundleB = x25519_public xB -> suite ∈ HYBRID_SUITE_IDS ->
  exists ck, ahead (sender_session rnd suite bundleB th hct root0)
                   (receiver_session rndB suite xB kp th hct root0) ck 0.
Proof.
  intros Hx Hs. unfold sender_session. destruct (root_key_ratchet_v2 root0 _ None) as [r ck] eqn:Hr.
  exists ck. split; try done.
  unfold root_key_ratchet, answering_secret, is_pq_hybrid. cbn. rewrite bool_decide_true by done.
  rewrite <-Hr, Hx. done.
Qed.

(** Sending does not change the agreement, only the next message number. *)
Lemma ahead_advance x y ck i j : ahead x y ck i -> ahead (set_sending_chain x (chain_at ck j)) y ck j.
Proof.
  intros [Hs Hp Hi Hsu Hr Hn Hu]. by split.
Qed.

Lemma classical_ahead rndA rndB skA skB :
  exists ck, ahead (init_as_sender rndA skA (x25519_public (ed25519_to_x25519_secret skB)))
                   (init_as_receiver rndB skB (x25519_public (ed25519_to_x25519_secret skA))) ck 0.
Proof.
  unfold init_as_sender. destruct (root_key_ratchet_v1 _ _) as [r ck] eqn:Hr. exists ck.
  split; try done. unfold root_key_ratchet, is_pq_hybrid, answering_secret, init_as_receiver. cbn.
  rewrite <-Hr. f_equal. f_equal. apply dh_comm.
Qed.

(** In each suite the sender's session and the receiver's session built from
    matching keys start in agreement: the receiver can answer the epoch the
    sender opens.  A receiver of a hybrid suite accepts the ciphertext that the
    sender keeps for its first messages. *)
Theorem ratchet_handshake :
  (forall rndA rndB skA skB,
     exists ck, ahead (init_as_sender rndA skA (x25519_public (ed25519_to_x25519_secret skB)))
                      (init_as_receiver rndB skB (x25519_public (ed25519_to_x25519_secret skA))) ck 0)
  /\ (forall rnd rndB xA xB seedB bundleA bundleB th a,
     pb_x25519_public bundleA = x25519_public xA -> pb_x25519_public bundleB = x25519_public xB ->
     pb_mlkem_encaps_key bundleB = pub_key (generate seedB) ->
     init_as_sender_hybrid rnd xA bundleB th = Ok a ->
     exists hct b ck, bootstrap_hct a = Some hct
       /\ init_as_receiver_hybrid rndB xB (generate seedB) bundleA hct th = Ok b /\ ahead a b ck 0)
  /\ (forall rnd rndB xB seedB bundleB th a,
     pb_x25519_public bundleB = x25519_public xB -> pb_mlkem_encaps_key bundleB = pub_key (generate seedB) ->
     init_as_sender_hybrid_suite02 rnd bundleB th = Ok a ->
     exists hct b ck, bootstrap_hct a = Some hct
       /\ init_as_receiver_hybrid_suite02 rndB xB (generate seedB) hct th = Ok b /\ ahead a b ck 0).
Proof.
  split_and!.
  - apply classical_ahead.
  - intros rnd rndB xA xB seedB bA bB th a HA HB Hk. unfold init_as_sender_hybrid. rewrite HB, Hk.
    destruct (hybrid_encapsulate _ _ _ _) as [[hct ss]|e|] eqn:He; [|discriminate..]. intros [= <-].
    apply hybrid_kem_agree in He.
    set (root0 := derive_key SESSION_ROOT_V3 _).
    destruct (hybrid_ahead rnd rndB Byte.x03 xB (generate seedB) bB th hct root0 HB) as [ck Hck]; [set_solver|].
    exists hct. do 2 eexists. split; [unfold sender_session; by destruct (root_key_ratchet_v2 _ _ _)|].
    split; [|exact Hck]. unfold init_as_receiver_hybrid. rewrite He. cbn [rbind]. by rewrite HA, dh_comm.
  - intros rnd rndB xB seedB bB th a HB Hk. unfold init_as_sender_hybrid_suite02. rewrite HB, Hk.
    destruct (hybrid_encapsulate _ _ _ _) as [[hct ss]|e|] eqn:He; [|discriminate..]. intros [= <-].
    apply hybrid_kem_agree in He.
    set (root0 := derive_key SESSION_ROOT_V2 _).
    destruct (hybrid_ahead rnd rndB Byte.x02 xB (generate seedB) bB th hct root0 HB) as [ck Hck]; [set_solver|].
    exists hct. do 2 eexists. split; [unfold sender_session; by destruct (root_key_ratchet_v2 _ _ _)|].
    split; [|exact Hck]. unfold init_as_receiver_hybrid_suite02. rewrite He. done.
Qed.

End Laws.

(** ** The invariant of a session *)

Lemma next_message_key_range c k c' : next_message_key c = Ok (k, c') -> in_u 32 (chain_index c').
Proof.
  unfold next_message_key. destruct (chk_u 32 _) as [index|e|] eqn:E; cbn [rbind]; [|discriminate..].
  intros [= <- <-]. by eapply chk_u_range.
Qed.

Lemma skip_loop_ok d target fuel : forall c sk c' sk',
  Z.of_nat (size sk) <= 256 -> in_u 32 (chain_index c) -> skip_loop fuel d target c sk = Ok (c', sk') ->
  Z.of_nat (size sk') <= 256 /\ in_u 32 (chain_index c').
Proof.
  induction fuel as [|fuel IH]; intros c sk c' sk' Hs Hc; cbn [skip_loop]; [by intros [= <- <-]|].
  case_if; [|by intros [= <- <-]]. intros H. destruct (next_message_key c) as [[k c1]|e|] eqn:E; cbn [rbind] in H; [|discriminate..].
  destruct (chk_u 32 _) as [num|e|]; cbn [rbind] in H; [|discriminate..].
  apply IH in H; [done| |by eapply next_message_key_range].
  apply evict_skipped_bound. pose proof (size_insert_le sk (d, num) k). lia.
Qed.

Lemma get_message_key_ok r sk d i k r' sk' :
  Z.of_nat (size sk) <= 256 -> (forall c, r = Some c -> in_u 32 (chain_index c)) ->
  get_message_key r sk d i = Ok (k, r', sk') ->
  Z.of_nat (size sk') <= 256 /\ (forall c, r' = Some c -> in_u 32 (chain_index c)).
Proof.
  intros Hs Hr. unfold get_message_key. destruct (sk !! (d, i)) as [key|] eqn:E.
  - intros [= <- <- <-]. split; [|done]. rewrite map_size_delete, E. cbn. lia.
  - destruct r as [c|]; [|discriminate]. case_if; [discriminate|]. case_if; [discriminate|].
    intros H. destruct (skip_loop _ _ _ _ _) as [[c1 sk1]|e|] eqn:El; cbn [rbind] in H; [|discriminate..].
    destruct (next_message_key c1) as [[k2 c2]|e|] eqn:En; cbn [rbind] in H; [|discriminate..].
    injection H as <- <- <-. apply skip_loop_ok in El as [? ?]; [|done|by apply Hr]. split; [done|].
    intros c' [= <-]. by eapply next_message_key_range.
Qed.

Lemma trial_ok rnd s d i nonce ct aad candidate p t :
  session_ok s -> trial rnd s d i nonce ct aad candidate = Ok (p, t) -> session_ok t.
Proof.
  intros [Hk Hsc Hrc Hst Hct] H. unfold trial, dh_step in H.
  destruct (root_key_ratchet s (root_key s) _ _) as [r1 ck1]. destruct (root_key_ratchet s r1 _ _) as [r2 ck2].
  destruct (chk_u 32 _) as [steps|e|] eqn:E1; cbn [rbind] in H; [|discriminate..].
  cbn [receiving_chain skipped_keys] in H.
  destruct (get_message_key _ _ _ _) as [[[k r'] sk']|e|] eqn:E2; cbn [rbind] in H; [|discriminate..].
  destruct (open_with _ _ _ _ _) as [pt|e|] eqn:E3; cbn [rbind] in H; [|discriminate..].
  unfold adopt in H. destruct (chk_u 64 _) as [counter|e|] eqn:E4; cbn [rbind] in H; [|discriminate..].
  injection H as <- <-. unfold MAX_SKIP_KEYS in *.
  apply get_message_key_ok in E2 as [? ?]; [|done|intros c [= <-]; by vm_compute].
  split; cbn [skipped_keys sending_chain receiving_chain dh_step_count transition_counter set_received]; [done| |done| |].
  - intros c [= <-]. by vm_compute.
  - by eapply chk_u_range.
  - by eapply chk_u_range.
Qed.

Lemma trial_loop_ok rnds s d i nonce ct aad cands :
  session_ok s -> session_ok (trial_loop rnds s d i nonce ct aad cands).2.
Proof.
  intros Hs. revert rnds. induction cands as [|c cands IH]; intros rnds; cbn [trial_loop]; [done|].
  destruct (trial _ _ _ _ _ _ _ c) as [[p t]|e|] eqn:E; [by eapply trial_ok|apply IH|done].
Qed.

Lemma set_received_ok s r sk b :
  session_ok s -> Z.of_nat (size sk) <= 256 -> (forall c, r = Some c -> in_u 32 (chain_index c)) ->
  session_ok (set_received s r sk b).
Proof. intros [Hk Hsc Hrc Hst Hct] ? ?. by split. Qed.

Lemma open_with_no_panic key nonce aad ct failure : zlen nonce = 24 -> open_with key nonce aad ct failure <> Panic.
Proof. intros H. unfold open_with, xnonce. rewrite H. cbn. by destruct (aead_decrypt _ _ _ _). Qed.

Lemma next_message_key_total c :
  0 <= chain_index c -> chain_index c + 1 < 2 ^ 32 ->
  exists k c', next_message_key c = Ok (k, c') /\ chain_index c' = chain_index c + 1.
Proof. intros. unfold next_message_key. rewrite chk_u_ok by (split; lia). by do 2 eexists. Qed.

Lemma skip_loop_total d target fuel : forall c sk,
  0 <= chain_index c -> chain_index c + Z.of_nat fuel = target -> target < 2 ^ 32 ->
  exists c' sk', skip_loop fuel d target c sk = Ok (c', sk') /\ chain_index c' = target.
Proof.
  induction fuel as [|fuel IH]; intros c sk H0 Hf Ht; cbn [skip_loop].
  { exists c, sk. split; [done|lia]. }
  rewrite (proj2 (Z.ltb_lt _ _)) by lia.
  destruct (next_message_key_total c) as (k & c' & -> & Hc'); [lia..|]. cbn [rbind].
  rewrite chk_u_ok by (split; lia). cbn [rbind]. apply IH; lia.
Qed.

Lemma get_message_key_no_panic r sk d i :
  0 <= i < 2 ^ 32 - 1 -> (forall c, r = Some c -> in_u 32 (chain_index c)) -> get_message_key r sk d i <> Panic.
Proof.
  intros Hi Hr. unfold get_message_key. destruct (sk !! _); [done|]. destruct r as [c|]; [|done].
  case_if; [done|]. case_if; [done|]. bool_to_prop. destruct (Hr c eq_refl) as [? ?].
  destruct (skip_loop_total d i (Z.to_nat (i - chain_index c)) c sk) as (c' & sk' & -> & Hc'); [lia..|].
  cbn [rbind]. destruct (next_message_key_total c') as (k & c2 & -> & _); [lia..|]. done.
Qed.

Lemma trial_no_panic rnd s d i nonce ct aad candidate :
  counters_low s -> zlen nonce = 24 -> 0 <= i < 2 ^ 32 - 1 ->
  trial rnd s d i nonce ct aad candidate <> Panic.
Proof.
  intros [Hc1 Hc2] Hn Hi. unfold trial, dh_step.
  destruct (root_key_ratchet s (root_key s) _ _) as [r1 ck1]. destruct (root_key_ratchet s r1 _ _) as [r2 ck2].
  rewrite chk_u_ok by done. cbn [rbind receiving_chain skipped_keys].
  apply rbind_no_panic; [apply get_message_key_no_panic; [done|intros c [= <-]; by vm_compute]|].
  intros [[k r] sk] _. apply rbind_no_panic; [by apply open_with_no_panic|]. intros p _.
  unfold adopt. cbn [transition_counter set_received]. by rewrite chk_u_ok by done.
Qed.

Lemma trial_loop_no_panic rnds s d i nonce ct aad cands :
  counters_low s -> zlen nonce = 24 -> 0 <= i < 2 ^ 32 - 1 ->
  (trial_loop rnds s d i nonce ct aad cands).1 <> Panic.
Proof.
  intros Hc Hn Hi. revert rnds. induction cands as [|c cands IH]; intros rnds; cbn [trial_loop]; [done|].
  pose proof (trial_no_panic (rnds 0%nat) s d i nonce ct aad c Hc Hn Hi).
  by destruct (trial _ _ _ _ _ _ _ c) as [[p t]|e|].
Qed.

Lemma trial_loop_unchanged rnds s d i nonce ct aad cands :
  is_ok (trial_loop rnds s d i nonce ct aad cands).1 = false -> (trial_loop rnds s d i nonce ct aad cands).2 = s.
Proof.
  revert rnds. induction cands as [|c cands IH]; intros rnds; cbn [trial_loop]; [done|].
  destruct (trial _ _ _ _ _ _ _ c) as [[p t]|e|]; [discriminate|apply IH|done].
Qed.

Lemma decrypt_unchanged rnds s d i nonce ct aad :
  is_ok (decrypt rnds s d i nonce ct aad).1 = false -> (decrypt rnds s d i nonce ct aad).2 = s.
Proof.
  unfold decrypt. case_if; [done|]. destruct (skipped_keys s !! (d, i)) as [key|].
  - by destruct (open_with _ _ _ _ _).
  - case_decide; [|apply trial_loop_unchanged].
    destruct (get_message_key _ _ _ _) as [[[k r] sk]|e|]; [|done..]. by destruct (open_with _ _ _ _ _).
Qed.

(** C15: decryption keeps the store of skipped keys within 256 entries and the
    counters within their widths; a call that does not return a plaintext leaves
    the session exactly as it was; and with a 24-byte nonce, a message number below
    the largest and counters that are not about to overflow, no input panics. *)
Theorem ratchet_decrypt_atomic rnds s d i nonce ct aad :
  session_ok s ->
  session_ok (decrypt rnds s d i nonce ct aad).2
  /\ (is_ok (decrypt rnds s d i nonce ct aad).1 = false -> (decrypt rnds s d i nonce ct aad).2 = s)
  /\ (counters_low s -> zlen nonce = 24 -> 0 <= i < 2 ^ 32 - 1 -> (decrypt rnds s d i nonce ct aad).1 <> Panic).
Proof.
  intros Hok. pose proof Hok as [Hk Hsc Hrc Hst Hct]. pose proof (decrypt_unchanged rnds s d i nonce ct aad) as Hu.
  split; [|split; [exact Hu|]]; clear Hu; unfold decrypt, MAX_SKIP_KEYS in *; (case_if; [done|]).
  - destruct (skipped_keys s !! (d, i)) as [key|] eqn:Ek.
    + destruct (open_with _ _ _ _ _) as [p|e|]; [|done..].
      apply set_received_ok; [done| |done]. rewrite map_size_delete, Ek. cbn. lia.
    + case_decide; [|by apply trial_loop_ok].
      destruct (get_message_key _ _ _ _) as [[[k r] sk]|e|] eqn:Em; [|done..].
      destruct (open_with _ _ _ _ _) as [p|e|]; [|done..].
      apply get_message_key_ok in Em as [? ?]; [|done..]. by apply set_received_ok.
  - intros Hc Hn Hi. destruct (skipped_keys s !! (d, i)) as [key|] eqn:Ek.
    + pose proof (open_with_no_panic key nonce aad ct "Decryption failed with skipped key" Hn).
      by destruct (open_with _ _ _ _ _) as [p|e|].
    + case_decide; [|by apply trial_loop_no_panic].
      pose proof (get_message_key_no_panic (receiving_chain s) (skipped_keys s) d i Hi Hrc).
      destruct (get_message_key _ _ _ _) as [[[k r] sk]|e|]; [|done..].
      pose proof (open_with_no_panic k nonce aad ct "Decryption failed" Hn).
      by destruct (open_with _ _ _ _ _) as [p|e|].
Qed.

(** ** The trial of candidates *)

(** A trial reads the message with the receiving chain, which neither the candidate
    nor the new key enters. *)
Lemma trial_candidate_blind rnd rnd' s d i nonce ct aad c c' :
  rmap fst (trial rnd s d i nonce ct aad c) = rmap fst (trial rnd' s d i nonce ct aad c').
Proof.
  unfold trial, dh_step. destruct (root_key_ratchet s (root_key s) _ _) as [r1 ck1].
  destruct (root_key_ratchet s r1 _ c) as [r2 ck2]. destruct (root_key_ratchet s r1 _ c') as [r3 ck3].
  destruct (chk_u 32 _) as [steps|e|]; cbn [rbind rmap receiving_chain skipped_keys]; [|done..].
  destruct (get_message_key _ _ _ _) as [[[k r'] sk']|e|]; cbn [rbind rmap]; [|done..].
  destruct (open_with _ _ _ _ _) as [pt|e|]; cbn [rbind rmap]; [|done..].
  unfold adopt. cbn [transition_counter set_received]. by destruct (chk_u 64 _).
Qed.

(** What an adopted secret leaves behind. *)
Lemma trial_adopted rnd s d i nonce ct aad ss p t :
  trial rnd s d i nonce ct aad (Some ss) = Ok (p, t) ->
  pq_pending_sent t = None /\ pq_pending_ct t = None
  /\ root_key t = (root_key_ratchet s
       (root_key_ratchet s (root_key s) (diffie_hellman (answering_secret s) d) (pq_pending_recv s)).1
       (diffie_hellman rnd d) (Some ss)).1.
Proof.
  unfold trial, dh_step, answering_secret. destruct (root_key_ratchet s (root_key s) _ _) as [r1 ck1].
  cbn [fst]. destruct (root_key_ratchet s r1 _ (Some ss)) as [r2 ck2].
  destruct (chk_u 32 _) as [steps|e|]; cbn [rbind receiving_chain skipped_keys]; [|discriminate..].
  destruct (get_message_key _ _ _ _) as [[[k r'] sk']|e|]; cbn [rbind]; [|discriminate..].
  destruct (open_with _ _ _ _ _) as [pt|e|]; cbn [rbind]; [|discriminate..].
  unfold adopt. destruct (chk_u 64 _) as [cnt|e|]; cbn [rbind]; [|discriminate..]. by intros [= <- <-].
Qed.

(** While an encapsulated ML-KEM secret is pending, every new key of the peer
    that comes with a readable message makes the session mix that secret into its
    root key and forget it, although the message would have been read just the
    same under any other candidate: the trial cannot tell whether the peer has
    the secret, and the candidate without it is never adopted. *)
Theorem pq_adoption_unconfirmed rnds s d i nonce ct aad pending plaintext s' :
  pq_pending_sent s = Some pending ->
  handle_dh_ratchet_trial rnds s d i nonce ct aad = (Ok plaintext, s') ->
  pq_pending_sent s' = None /\ pq_pending_ct s' = None
  /\ root_key s' = (root_key_ratchet s
       (root_key_ratchet s (root_key s) (diffie_hellman (answering_secret s) d) (pq_pending_recv s)).1
       (diffie_hellman (rnds 0%nat) d) (Some (pp_ss pending))).1
  /\ forall rnd c, exists t, trial rnd s d i nonce ct aad c = Ok (plaintext, t).
Proof.
  intros Hp. unfold handle_dh_ratchet_trial, candidates. rewrite Hp. cbn [trial_loop].
  pose proof (fun rnd => trial_candidate_blind rnd (rnds 0%nat) s d i nonce ct aad) as Hblind.
  destruct (trial (rnds 0%nat) _ _ _ _ _ _ (Some _)) as [[p t]|e|] eqn:E; [| |discriminate].
  - intros [= <- <-]. destruct (trial_adopted _ _ _ _ _ _ _ _ _ _ E) as (? & ? & ?). split_and!; [done..|].
    intros rnd c. specialize (Hblind rnd c (Some (pp_ss pending))). rewrite E in Hblind.
    destruct (trial rnd _ _ _ _ _ _ c) as [[p' t']|e|]; [|discriminate..]. injection Hblind as ->. by exists t'.
  - specialize (Hblind (rnds 1%nat) None (Some (pp_ss pending))). rewrite E in Hblind.
    destruct (trial (rnds 1%nat) _ _ _ _ _ _ None) as [[p' t']|e'|]; discriminate.
Qed.

(** A ciphertext of the right length is never refused, so once a previous key pair
    exists it is the one whose secret is kept, whatever key the peer used. *)
Theorem pq_previous_key_wins s kp ct encaps_key :
  is_pq_hybrid s = true -> pq_prev_keypair s = Some kp -> zlen ct = 1088 ->
  (handle_incoming_pq_fields s ct encaps_key).1 = Ok (mlkem_decapsulate (priv_key kp) ct).
Proof.
  intros Hh Hk Hl. unfold handle_incoming_pq_fields, decapsulate. rewrite Hh, Hk, Hl. done.
Qed.

End Spec.

(** ** Examples *)

Module Examples.
Import Crypto.Sample.

#[local] Instance release : Build := {| overflow_checks := false |}.

Definition key_of (n : Z) : bytes := le_split 32 n.
Definition nonce_of (n : Z) : bytes := le_split 24 n.
Definition text (n : nat) : bytes := le_split 4 (Z.of_nat n + 1000).
Definition rnds (i : nat) : bytes := key_of (900 + Z.of_nat i).

Definition alice : RatchetSession :=
  init_as_sender (key_of 11) (key_of 1) (x25519_public (ed25519_to_x25519_secret (key_of 2))).
Definition bob : RatchetSession :=
  init_as_receiver (key_of 12) (key_of 2) (x25519_public (ed25519_to_x25519_secret (key_of 1))).

(** A receiver at the start of an epoch. *)
Definition listening : RatchetSession :=
  mkSession (key_of 5) (key_of 5) (Some (key_of 6)) (key_of 7) None (Some (chain_new (key_of 8))) 1 ∅ true None
    None None false None None None None None None None None 2.

Definition post (i : nat) : message :=
  mkMessage (nonce_of (Z.of_nat i))
    (default [] (aead_encrypt (mk_at (key_of 8) i) (nonce_of (Z.of_nat i)) [] (text i))) (text i).

Lemma post_sealed i : sealed (key_of 8) i [] (post i).
Proof. split; [apply zlen_le_split|]. reflexivity. Qed.

Lemma ratchet_epoch_delivery_witness :
  (receive_all rnds listening (key_of 6) [] post [2; 0; 0; 1; 2; 4]%nat).1
  = [Ok (text 2); Ok (text 0); Err "Message number is behind current chain position"%string;
     Ok (text 1); Err "Message number is behind current chain position"%string; Ok (text 4)].
Proof.
  refine (eq_trans (proj1 (ratchet_epoch_delivery (CL := sample_laws) rnds [] post (key_of 6) (key_of 8)
    [2; 0; 0; 1; 2; 4]%nat listening 0 ∅ _ _ _)) _).
  - split; [done|done|set_solver|]. intros i. rewrite decide_False by lia. apply lookup_empty.
  - done.
  - repeat (apply Forall_cons; split; [split_and!; [apply post_sealed|lia|by vm_compute]|]). apply Forall_nil. exact I.
  - reflexivity.
Defined.


Definition bundle (x mlkem : bytes) : PublicKeyBundle := mkBundle [] (x25519_public x) mlkem None 0 [Byte.x03] [] None.
Definition coins : HybridRandom := mkHybridRandom (key_of 21) (key_of 22) (key_of 23) (key_of 24).

Lemma ratchet_handshake_witness :
  (exists ck, ahead alice bob ck 0)
  /\ exists a hct b ck,
       init_as_sender_hybrid coins (key_of 31) (bundle (key_of 32) (pub_key (generate (key_of 33)))) (key_of 9) = Ok a
       /\ init_as_receiver_hybrid (key_of 34) (key_of 32) (generate (key_of 33)) (bundle (key_of 31) []) hct (key_of 9) = Ok b
       /\ ahead a b ck 0.
Proof.
  destruct (ratchet_handshake (CL := sample_laws)) as (H1 & H2 & _). split; [apply H1|].
  assert (Hok : is_ok (init_as_sender_hybrid coins (key_of 31)
            (bundle (key_of 32) (pub_key (generate (key_of 33)))) (key_of 9)) = true) by (vm_compute; reflexivity).
  destruct (init_as_sender_hybrid coins (key_of 31) (bundle (key_of 32) (pub_key (generate (key_of 33)))) (key_of 9))
    as [a|e|] eqn:E; [|discriminate Hok..].
  destruct (H2 coins (key_of 34) (key_of 31) (key_of 32) (key_of 33) (bundle (key_of 31) [])
    (bundle (key_of 32) (pub_key (generate (key_of 33)))) (key_of 9) a)
    as (hct & b & ck & _ & Hb & Hah); [reflexivity..|exact E|].
  exists a, hct, b, ck. split_and!; [reflexivity|exact Hb|exact Hah].
Defined.

Lemma ratchet_decrypt_atomic_witness :
  (decrypt rnds listening (key_of 6) 1 (nonce_of 1) [] []).2 = listening.
Proof.
  apply (ratchet_decrypt_atomic rnds listening (key_of 6) 1 (nonce_of 1) [] []); [|by vm_compute].
  split; [by vm_compute|done| |by vm_compute|by vm_compute]. intros c [= <-]. by vm_compute.
Defined.

(** A hybrid session with a secret pending, whose peer, knowing nothing of it, opens an epoch. *)
Definition pending : RatchetSession :=
  mkSession (key_of 5) (key_of 5) (Some (key_of 6)) (key_of 7) None None 1 ∅ true None
    (Some Byte.x03) None true None None None None (Some [Byte.x01]) (Some (mkPending (key_of 50) 1)) None None 2.

Definition peer_chain : bytes := (root_key_ratchet_v2 (key_of 7) (diffie_hellman (key_of 60) (x25519_public (key_of 5))) None).2.

Definition peer_ct : bytes := default [] (aead_encrypt (mk_at peer_chain 0) (nonce_of 4) [] (text 9)).

Lemma pq_adoption_unconfirmed_witness :
  exists s', handle_dh_ratchet_trial rnds pending (key_of 60) 0 (nonce_of 4) peer_ct [] = (Ok (text 9), s')
    /\ pq_pending_sent s' = None.
Proof.
  destruct (handle_dh_ratchet_trial rnds pending (key_of 60) 0 (nonce_of 4) peer_ct []) as [r s'] eqn:E.
  assert (r = Ok (text 9)) as ->.
  { transitivity (handle_dh_ratchet_trial rnds pending (key_of 60) 0 (nonce_of 4) peer_ct []).1; [by rewrite E|by vm_compute]. }
  exists s'. split; [reflexivity|]. apply (pq_adoption_unconfirmed rnds pending (key_of 60) 0 (nonce_of 4) peer_ct []
    (mkPending (key_of 50) 1) (text 9) s' eq_refl E).
Defined.

End Examples.
