(* ===== verification/Session.v ===== *)
(** * Ratchet sessions of all peers ([core/src/crypto/session_manager.rs])

    The table of sessions by peer, how a session is negotiated and created, and
    its persistence as one JSON document.  [serde_json] is a parameter.  A text is
    the bytes of its UTF-8 encoding. *)

From S2P Require Import Prelude Crypto Backend Ratchet.

(** ** Data *)

Record ChainState : Type := mkChainState {
  chain_key_hex : string;
  cs_index : Z;
}.

Record SerializableRatchetSession : Type := mkSerializable {
  our_dh_secret_hex : string;
  our_dh_public_hex : string;
  their_dh_public_hex : option string;
  root_key_hex : string;
  ss_sending_chain : option ChainState;
  ss_receiving_chain : option ChainState;
  ss_dh_step_count : Z;
  ss_initialized : bool;
  has_identity_secret : bool;
  identity_secret_hex : option string;
  ss_negotiated_suite : option byte;
  transcript_hash_hex : option string;
  ss_peer_confirmed : bool;
  bootstrap_hct_ephemeral_hex : option string;
  bootstrap_hct_mlkem_hex : option string;
  ss_skipped_keys : list (string * Z * string);
}.

Record RatchetSessionManager (B : Type) : Type := mkManager {
  sessions : gmap string RatchetSession;
  backend : option B;
}.

Arguments mkManager {B}.
Arguments sessions {B}.
Arguments backend {B}.

Definition SESSIONS_KEY : bytes := str_bytes "ratchet_sessions_v1".

Section Manager.
Context {CR : Crypto} {BM : Build} {B : Type} {SB : StorageBackend B}.
Context {HIk : HashIter (bytes * Z) bytes} {HIs : HashIter string SerializableRatchetSession}.
Context (to_json : gmap string SerializableRatchetSession -> res string bytes)
        (from_json : bytes -> res string (gmap string SerializableRatchetSession)).

(** ** Snapshots *)

Definition chain_state (c : Chain) : ChainState := mkChainState (hex_encode (chain_key c)) (chain_index c).

Definition from_session (s : RatchetSession) : SerializableRatchetSession :=
  mkSerializable
    (hex_encode (our_dh_secret s)) (hex_encode (our_dh_public s)) (hex_encode <$> their_dh_public s)
    (hex_encode (root_key s)) (chain_state <$> sending_chain s) (chain_state <$> receiving_chain s)
    (dh_step_count s) (initialized s) (bool_decide (is_Some (our_identity_secret s)))
    (hex_encode <$> our_identity_secret s) (negotiated_suite s) (hex_encode <$> transcript_hash s)
    (peer_confirmed s) ((fun h => hex_encode (x25519_ephemeral_public h)) <$> bootstrap_hct s)
    ((fun h => hex_encode (mlkem_ciphertext h)) <$> bootstrap_hct s)
    ((fun '((dh, idx), key) => (hex_encode dh, idx, hex_encode key)) <$> hm_iter (skipped_keys s)).

(** A hexadecimal field that must hold [n] bytes. *)
Definition hex_field (n : Z) (invalid wrong_length : string) (h : string) : res string bytes :=
  let! b := map_err (fun _ => invalid) (hex_decode h) in
  if negb (zlen b =? n) then Err wrong_length else Ok b.

Definition hex_option (n : Z) (invalid wrong_length : string) (h : option string) : res string (option bytes) :=
  match h with
  | Some h => rmap Some (hex_field n invalid wrong_length h)
  | None => Ok None
  end.

Definition chain_of (corrupt : string) (cs : option ChainState) : res string (option Chain) :=
  match cs with
  | Some cs =>
      let! ck := map_err (fun _ => corrupt) (hex_decode_to_slice (chain_key_hex cs) 32) in
      Ok (Some (new_with_index ck (cs_index cs)))
  | None => Ok None
  end.

Definition hct_of (e_hex m_hex : option string) : res string (option HybridCiphertext) :=
  match e_hex, m_hex with
  | Some e_hex, Some m_hex =>
      let! e_bytes := map_err (fun _ => "bad eph"%string) (hex_decode e_hex) in
      let! m_bytes := map_err (fun _ => "bad mlkem"%string) (hex_decode m_hex) in
      if negb (zlen e_bytes =? 32) || negb (zlen m_bytes =? 1088) then Err "bad hct lengths"%string
      else Ok (Some (mkHct e_bytes m_bytes))
  | _, _ => Ok None
  end.

Definition add_skipped (acc : gmap (bytes * Z) bytes) (entry : string * Z * string) : res string (gmap (bytes * Z) bytes) :=
  let '((dh_hex, idx), key_hex) := entry in
  let! dh_bytes := map_err (fun _ => "Invalid skipped_keys dh hex"%string) (hex_decode dh_hex) in
  let! key_bytes := map_err (fun _ => "Invalid skipped_keys key hex"%string) (hex_decode key_hex) in
  if negb (zlen dh_bytes =? 32) || negb (zlen key_bytes =? 32)
  then Err "skipped_keys entries must be 32 bytes each"%string
  else Ok (<[(dh_bytes, idx) := key_bytes]> acc).

Definition into_session (self : SerializableRatchetSession) : res string RatchetSession :=
  let! secret := hex_field 32 "Invalid our_dh_secret_hex" "our_dh_secret must be 32 bytes" (our_dh_secret_hex self) in
  let! public := hex_field 32 "Invalid our_dh_public_hex" "our_dh_public must be 32 bytes" (our_dh_public_hex self) in
  let! theirs := hex_option 32 "Invalid their_dh_public_hex" "their_dh_public must be 32 bytes" (their_dh_public_hex self) in
  let! root := hex_field 32 "Invalid root_key_hex" "root_key must be 32 bytes" (root_key_hex self) in
  let! sending := chain_of "Corrupt sending chain_key_hex in DB" (ss_sending_chain self) in
  let! receiving := chain_of "Corrupt receiving chain_key_hex in DB" (ss_receiving_chain self) in
  let! identity := hex_option 32 "Invalid identity_secret_hex" "identity_secret must be 32 bytes" (identity_secret_hex self) in
  let! transcript := hex_option 32 "Invalid transcript_hash_hex" "transcript_hash must be 32 bytes" (transcript_hash_hex self) in
  let! hct := hct_of (bootstrap_hct_ephemeral_hex self) (bootstrap_hct_mlkem_hex self) in
  let! skipped := rfold add_skipped ∅ (ss_skipped_keys self) in
  Ok (mkSession secret public theirs root sending receiving (ss_dh_step_count self) skipped
        (ss_initialized self) identity (ss_negotiated_suite self) transcript (ss_peer_confirmed self) hct
        None None None None None None None 0).

(** ** The table of sessions *)

Definition manager_new : RatchetSessionManager B := mkManager ∅ None.
Definition with_backend (b : B) : RatchetSessionManager B := mkManager ∅ (Some b).

Definition get_session (self : RatchetSessionManager B) (peer_id : string) : option RatchetSession :=
  sessions self !! peer_id.

Definition insert_session (self : RatchetSessionManager B) (peer_id : string) (s : RatchetSession)
    : RatchetSessionManager B := mkManager (<[peer_id := s]> (sessions self)) (backend self).

(** What a caller of [get_session_mut] does with the session it was lent. *)
Definition get_session_mut {A : Type} (self : RatchetSessionManager B) (peer_id : string)
    (f : RatchetSession -> A * RatchetSession) : option A * RatchetSessionManager B :=
  match sessions self !! peer_id with
  | Some s => let '(a, s) := f s in (Some a, insert_session self peer_id s)
  | None => (None, self)
  end.

Definition remove_session (self : RatchetSessionManager B) (peer_id : string) : RatchetSessionManager B :=
  mkManager (delete peer_id (sessions self)) (backend self).

Definition session_count (self : RatchetSessionManager B) : Z := Z.of_nat (size (sessions self)).

Definition has_session (self : RatchetSessionManager B) (peer_id : string) : bool :=
  bool_decide (is_Some (sessions self !! peer_id)).

Definition get_or_create_session (rnd : bytes) (self : RatchetSessionManager B) (peer_id : string)
    (our_signing_key their_identity_public_x25519 : bytes) : RatchetSession * RatchetSessionManager B :=
  match sessions self !! peer_id with
  | Some s => (s, self)
  | None =>
      let s := init_as_sender rnd our_signing_key their_identity_public_x25519 in
      (s, insert_session self peer_id s)
  end.

Definition create_receiver_session (rnd : bytes) (self : RatchetSessionManager B) (peer_id : string)
    (our_signing_key sender_identity_public_x25519 : bytes) : RatchetSession * RatchetSessionManager B :=
  let s := init_as_receiver rnd our_signing_key sender_identity_public_x25519 in
  (s, insert_session self peer_id s).

(** [s.negotiated_suite = Some(suite); s.transcript_hash = Some(hash)]. *)
Definition bind_suite (s : RatchetSession) (suite : byte) (hash : bytes) : RatchetSession :=
  mkSession (our_dh_secret s) (our_dh_public s) (their_dh_public s) (root_key s) (sending_chain s)
    (receiving_chain s) (dh_step_count s) (skipped_keys s) (initialized s) (our_identity_secret s)
    (Some suite) (Some hash) (peer_confirmed s) (bootstrap_hct s) (pq_our_keypair s) (pq_prev_keypair s)
    (pq_their_encaps_key s) (pq_pending_ct s) (pq_pending_sent s) (pq_pending_recv s) (pq_last_mixed_fp s)
    (transition_counter s).

Definition get_or_create_session_hybrid (rnd : HybridRandom) (self : RatchetSessionManager B) (peer_id : string)
    (our_signing_key our_x25519_secret : bytes) (our_bundle their_bundle : PublicKeyBundle)
    : res string (RatchetSession * RatchetSessionManager B) :=
  match sessions self !! peer_id with
  | Some s => Ok (s, self)
  | None =>
      let! '(suite, hash) := negotiate_suite (pb_supported_suites our_bundle) (pb_supported_suites their_bundle)
                               (pb_ed25519_public our_bundle) (pb_ed25519_public their_bundle) in
      let! session :=
        if bool_decide (suite = Byte.x03) then init_as_sender_hybrid rnd our_x25519_secret their_bundle hash
        else if bool_decide (suite = Byte.x02) then init_as_sender_hybrid_suite02 rnd their_bundle hash
        else
          let! their_x25519 := ed25519_public_to_x25519 (pb_ed25519_public their_bundle) in
          Ok (bind_suite (init_as_sender (hr_dh rnd) our_signing_key their_x25519) suite hash) in
      Ok (session, insert_session self peer_id session)
  end.

Definition create_receiver_session_hybrid (rnd : bytes) (self : RatchetSessionManager B) (peer_id : string)
    (our_signing_key our_x25519_secret : bytes) (our_mlkem_keypair : MlKem768KeyPair)
    (our_bundle their_bundle : PublicKeyBundle) (hct_opt : option HybridCiphertext)
    : res string (RatchetSession * RatchetSessionManager B) :=
  let! '(suite, hash) := negotiate_suite (pb_supported_suites their_bundle) (pb_supported_suites our_bundle)
                           (pb_ed25519_public their_bundle) (pb_ed25519_public our_bundle) in
  let sender_x25519 := pb_x25519_public their_bundle in
  let! session :=
    if bool_decide (suite = Byte.x03) then
      match hct_opt with
      | Some hct => init_as_receiver_hybrid rnd our_x25519_secret our_mlkem_keypair their_bundle hct hash
      | None => Err "Suite 0x03 requires hybrid ciphertext for receiver initialization"%string
      end
    else if bool_decide (suite = Byte.x02) then
      match hct_opt with
      | Some hct => init_as_receiver_hybrid_suite02 rnd our_x25519_secret our_mlkem_keypair hct hash
      | None => Err "Suite 0x02 requires hybrid ciphertext for receiver initialization"%string
      end
    else Ok (bind_suite (init_as_receiver rnd our_signing_key sender_x25519) suite hash) in
  Ok (session, insert_session self peer_id session).

(** ** Persistence *)

Definition serialize_sessions (self : RatchetSessionManager B) : res string bytes :=
  map_err (fun _ => "Failed to serialize ratchet sessions"%string) (to_json (from_session <$> sessions self)).

Definition load_entry (acc : gmap string RatchetSession) (e : string * SerializableRatchetSession)
    : gmap string RatchetSession :=
  if bool_decide (is_Some (acc !! e.1)) then acc
  else match into_session e.2 with
       | Ok s => <[e.1 := s]> acc
       | _ => acc
       end.

Definition deserialize_sessions (self : RatchetSessionManager B) (json : bytes) : res string (RatchetSessionManager B) :=
  let! map := map_err (fun _ => "Failed to deserialize ratchet sessions"%string) (from_json json) in
  Ok (mkManager (foldl load_entry (sessions self) (hm_iter map)) (backend self)).

(** Every entry is converted before the first one is inserted. *)
Definition deserialize_sessions_strict (self : RatchetSessionManager B) (json : bytes)
    : res string (RatchetSessionManager B) :=
  let! map := map_err (fun _ => "Failed to deserialize ratchet sessions"%string) (from_json json) in
  let! decoded := rfold (fun acc (e : string * SerializableRatchetSession) =>
      if bool_decide (is_Some (sessions self !! e.1)) then Ok acc
      else let! s := into_session e.2 in Ok (acc ++ [(e.1, s)])) [] (hm_iter map) in
  Ok (mkManager (foldl (fun acc e => <[e.1 := e.2]> acc) (sessions self) decoded) (backend self)).

Definition save (self : RatchetSessionManager B) : res string (RatchetSessionManager B) :=
  match backend self with
  | Some b =>
      let! json := serialize_sessions self in
      let! b := map_err (fun _ => "Failed to save ratchet sessions"%string) (be_put b SESSIONS_KEY json) in
      Ok (mkManager (sessions self) (Some b))
  | None => Ok self
  end.

Definition load (self : RatchetSessionManager B) : res string (RatchetSessionManager B) :=
  match backend self with
  | Some b =>
      let! stored := map_err (fun _ => "Failed to load ratchet sessions"%string) (be_get b SESSIONS_KEY) in
      match stored with
      | Some bytes =>
          if utf8_valid bytes then deserialize_sessions self bytes
          else Err "Invalid ratchet session encoding"%string
      | None => Ok self
      end
  | None => Ok self
  end.

End Manager.

(** ** What a snapshot keeps *)

(** The post-quantum part of the state is not stored. *)
Definition erase_pq (s : RatchetSession) : RatchetSession :=
  mkSession (our_dh_secret s) (our_dh_public s) (their_dh_public s) (root_key s) (sending_chain s)
    (receiving_chain s) (dh_step_count s) (skipped_keys s) (initialized s) (our_identity_secret s)
    (negotiated_suite s) (transcript_hash s) (peer_confirmed s) (bootstrap_hct s) None None None None None
    None None 0.

(** The widths of the byte arrays of a session. *)
Record stored_ok (s : RatchetSession) : Prop := {
  st_secret : zlen (our_dh_secret s) = 32;
  st_public : zlen (our_dh_public s) = 32;
  st_theirs : forall b, their_dh_public s = Some b -> zlen b = 32;
  st_root : zlen (root_key s) = 32;
  st_sending : forall c, sending_chain s = Some c -> zlen (chain_key c) = 32;
  st_receiving : forall c, receiving_chain s = Some c -> zlen (chain_key c) = 32;
  st_identity : forall b, our_identity_secret s = Some b -> zlen b = 32;
  st_transcript : forall b, transcript_hash s = Some b -> zlen b = 32;
  st_hct : forall h, bootstrap_hct s = Some h -> zlen (x25519_ephemeral_public h) = 32 /\ zlen (mlkem_ciphertext h) = 1088;
  st_skipped : forall d i k, skipped_keys s !! (d, i) = Some k -> zlen d = 32 /\ zlen k = 32;
}.

Section Persist.
Context {CR : Crypto} {CL : CryptoLaws} {BM : Build} {B : Type} {SB : StorageBackend B} {LB : LawfulBackend B}.
Context {HIk : HashIter (bytes * Z) bytes} {HIs : HashIter string SerializableRatchetSession}.
Context (to_json : gmap string SerializableRatchetSession -> res string bytes)
        (from_json : bytes -> res string (gmap string SerializableRatchetSession)).
Context (json_roundtrip : forall m, exists j, to_json m = Ok j /\ utf8_valid j = true /\ from_json j = Ok m).

Lemma hex_field_encode n e1 e2 b : zlen b = n -> hex_field n e1 e2 (hex_encode b) = Ok b.
Proof. intros <-. unfold hex_field. rewrite hex_roundtrip. cbn [map_err rbind]. by rewrite Z.eqb_refl. Qed.

Lemma hex_option_encode n e1 e2 b :
  (forall x, b = Some x -> zlen x = n) -> hex_option n e1 e2 (hex_encode <$> b) = Ok b.
Proof. destruct b as [x|]; [|done]. intros H. cbn. by rewrite hex_field_encode by auto. Qed.

Lemma chain_of_state e c :
  (forall x, c = Some x -> zlen (chain_key x) = 32) -> chain_of e (chain_state <$> c) = Ok c.
Proof.
  destruct c as [[ck i]|]; [|done]. intros H. cbn. rewrite <-(H _ eq_refl). cbn [chain_key].
  by rewrite hex_slice_roundtrip.
Qed.

Lemma hct_of_encode h :
  (forall x, h = Some x -> zlen (x25519_ephemeral_public x) = 32 /\ zlen (mlkem_ciphertext x) = 1088) ->
  hct_of ((fun h => hex_encode (x25519_ephemeral_public h)) <$> h) ((fun h => hex_encode (mlkem_ciphertext h)) <$> h) = Ok h.
Proof.
  destruct h as [[e m]|]; [|done]. intros H. destruct (H _ eq_refl) as [He Hm]. cbn in *.
  rewrite !hex_roundtrip. cbn [map_err rbind]. by rewrite He, Hm.
Qed.

Lemma foldl_insert {K V} `{Countable K} (l : list (K * V)) : forall acc,
  NoDup l.*1 -> foldl (fun acc (e : K * V) => <[e.1 := e.2]> acc) acc l = (list_to_map l ∪ acc : gmap K V).
Proof.
  induction l as [|[k v] l IH]; intros acc; [intros _; cbn; by rewrite (left_id_L ∅ (∪))|].
  rewrite fmap_cons. intros [Hk Hl]%NoDup_cons. cbn. rewrite IH by done.
  rewrite <-insert_union_r, insert_union_l; [done|]. by apply not_elem_of_list_to_map_1.
Qed.

Lemma add_skipped_all (l : list (bytes * Z * bytes)) : forall acc,
  Forall (fun e => zlen e.1.1 = 32 /\ zlen e.2 = 32) l ->
  rfold add_skipped acc ((fun '((dh, idx), key) => (hex_encode dh, idx, hex_encode key)) <$> l)
  = Ok (foldl (fun acc e => <[e.1 := e.2]> acc) acc l).
Proof.
  induction l as [|[[d i] k] l IH]; intros acc Hl; [done|]. apply Forall_cons in Hl as [[Hd Hk] Hl].
  rewrite fmap_cons. cbn [rfold add_skipped fst snd] in *. rewrite !hex_roundtrip. cbn [map_err rbind].
  rewrite Hd, Hk. cbn [Z.eqb Pos.eqb negb orb rbind foldl fst snd]. by apply IH.
Qed.

Lemma skipped_restored (m : gmap (bytes * Z) bytes) :
  (forall d i k, m !! (d, i) = Some k -> zlen d = 32 /\ zlen k = 32) ->
  rfold add_skipped ∅ ((fun '((dh, idx), key) => (hex_encode dh, idx, hex_encode key)) <$> hm_iter m) = Ok m.
Proof.
  intros Hm. rewrite add_skipped_all.
  - rewrite foldl_insert by apply NoDup_hm_keys. rewrite (right_id_L ∅ (∪)).
    rewrite (list_to_map_proper _ (map_to_list m)), list_to_map_to_list; [done|apply NoDup_hm_keys|apply hm_iter_perm].
  - apply Forall_forall. intros [[d i] k]. rewrite elem_of_hm_iter. apply Hm.
Qed.

Lemma snapshot_roundtrip s : stored_ok s -> into_session (from_session s) = Ok (erase_pq s).
Proof.
  intros [Hs Hp Ht Hr Hsc Hrc Hi Hth Hh Hk]. unfold into_session, from_session.
  cbn [our_dh_secret_hex our_dh_public_hex their_dh_public_hex root_key_hex ss_sending_chain ss_receiving_chain
       identity_secret_hex transcript_hash_hex bootstrap_hct_ephemeral_hex bootstrap_hct_mlkem_hex ss_skipped_keys].
  rewrite !hex_field_encode by done. cbn [rbind]. rewrite !hex_option_encode by done. cbn [rbind].
  rewrite !chain_of_state by done. cbn [rbind]. rewrite hct_of_encode by done. cbn [rbind].
  by rewrite skipped_restored by done.
Qed.

Lemma init_as_sender_stored rnd sk pk : zlen rnd = 32 -> zlen pk = 32 -> stored_ok (init_as_sender rnd sk pk).
Proof.
  intros Hr Hp. unfold init_as_sender, root_key_ratchet_v1.
  split; cbn; try done; try apply x25519_public_length; try apply derive_key_length.
  - by intros b [= <-].
  - intros c [= <-]. apply derive_key_length.
Qed.

(** Loading adds the entries of the document and keeps what is in memory. *)
Lemma load_entries (l : list (string * SerializableRatchetSession)) : forall acc k, NoDup l.*1 ->
  foldl load_entry acc l !! k =
  match acc !! k with
  | Some s => Some s
  | None => (list_to_map l : gmap _ _) !! k ≫= fun e => match into_session e with Ok s => Some s | _ => None end
  end.
Proof.
  induction l as [|[p e] l IH]; intros acc k; [intros _; cbn; by destruct (acc !! k)|].
  rewrite fmap_cons. intros [Hp Hl]%NoDup_cons. cbn [foldl fst]. rewrite IH by done.
  apply not_elem_of_list_to_map_1 in Hp. cbn [fst] in Hp. unfold load_entry. cbn [fst snd list_to_map foldr].
  destruct (decide (k = p)) as [->|Hne].
  - rewrite lookup_insert_eq. cbn [mbind option_bind]. case_bool_decide as Hs.
    + destruct Hs as [s Hs]. by rewrite Hs.
    + rewrite <-eq_None_not_Some in Hs. rewrite Hs, Hp. destruct (into_session e); [by rewrite lookup_insert_eq|by rewrite Hs..].
  - rewrite lookup_insert_ne by done. case_bool_decide; [done|].
    destruct (into_session e); [by rewrite lookup_insert_ne by done|done..].
Qed.

(** A manager whose sessions were saved finds them again after a restart,
    message keys of delayed messages included, and loading never replaces a
    session in memory; of a hybrid session, the ML-KEM key pairs, the pending
    secrets and the peer's encapsulation key are gone. *)
Theorem session_persistence (m : RatchetSessionManager B) (b : B) :
  backend m = Some b -> map_Forall (fun _ s => stored_ok s) (sessions m) ->
  exists b', save to_json m = Ok (mkManager (sessions m) (Some b'))
    /\ forall m0, backend m0 = Some b' -> exists m1, load from_json m0 = Ok m1
         /\ forall peer, get_session m1 peer =
              match get_session m0 peer with
              | Some s => Some s
              | None => erase_pq <$> get_session m peer
              end.
Proof.
  intros Hb Hok. unfold save, serialize_sessions. rewrite Hb.
  destruct (json_roundtrip (from_session <$> sessions m)) as (j & -> & Hutf & Hj). cbn [map_err rbind].
  destruct (be_put_law b SESSIONS_KEY j) as (b' & -> & Hv). cbn [map_err rbind]. exists b'. split; [done|].
  intros m0 Hm0. unfold load. rewrite Hm0, be_get_law, Hv, lookup_insert_eq. cbn [map_err rbind].
  rewrite Hutf. unfold deserialize_sessions. rewrite Hj. cbn [map_err rbind]. eexists. split; [done|].
  intros peer. unfold get_session. cbn [sessions]. rewrite load_entries by apply NoDup_hm_keys.
  destruct (sessions m0 !! peer); [done|].
  rewrite (list_to_map_proper _ (map_to_list (from_session <$> sessions m)));
    [|apply NoDup_hm_keys|apply hm_iter_perm].
  rewrite list_to_map_to_list, lookup_fmap. destruct (sessions m !! peer) as [s|] eqn:E; [|done].
  cbn. rewrite snapshot_roundtrip; [done|]. by apply (Hok peer).
Qed.

End Persist.

(** ** Examples *)

#[global] Instance ChainState_eq_dec : EqDecision ChainState.
Proof. solve_decision. Defined.
#[global, program] Instance ChainState_countable : Countable ChainState :=
  inj_countable' (fun c => (chain_key_hex c, cs_index c)) (fun p => mkChainState p.1 p.2) _.
Next Obligation. by intros []. Qed.

#[global] Instance Serializable_eq_dec : EqDecision SerializableRatchetSession.
Proof. solve_decision. Defined.
#[global, program] Instance Serializable_countable : Countable SerializableRatchetSession :=
  inj_countable'
    (fun s => ((our_dh_secret_hex s, our_dh_public_hex s, their_dh_public_hex s, root_key_hex s),
               (ss_sending_chain s, ss_receiving_chain s, ss_dh_step_count s, ss_initialized s),
               (has_identity_secret s, identity_secret_hex s, ss_negotiated_suite s, transcript_hash_hex s),
               (ss_peer_confirmed s, bootstrap_hct_ephemeral_hex s, bootstrap_hct_mlkem_hex s, ss_skipped_keys s)))
    (fun '((a, b, c, d), (e, f, g, h), (i, j, k, l), (m, n, o, p)) => mkSerializable a b c d e f g h i j k l m n o p) _.
Next Obligation. by intros []. Qed.

Module Examples.
Import Crypto.Sample.
Import Ratchet.Examples.

#[local] Existing Instance release.
#[local] Existing Instance canonical_iter.

Lemma pos_bytes_utf8 p : utf8_valid (pos_bytes p) = true.
Proof. induction p as [p IH|p IH|]; [exact IH|exact IH|done]. Qed.

Lemma enc_json_roundtrip (m : gmap string SerializableRatchetSession) :
  exists j, (fun m => Ok (enc_any m) : res string bytes) m = Ok j /\ utf8_valid j = true /\ dec_any j = Ok m.
Proof. exists (enc_any m). split_and!; [done|apply pos_bytes_utf8|apply dec_enc_any]. Qed.

Definition running : RatchetSessionManager MemoryStorage :=
  insert_session (with_backend memory_new) "peer" alice.

Lemma session_persistence_witness :
  exists b', save (fun m => Ok (enc_any m)) running = Ok (mkManager (sessions running) (Some b'))
    /\ exists m1, load dec_any (with_backend b') = Ok m1 /\ get_session m1 "peer" = Some (erase_pq alice).
Proof.
  assert (stored_ok alice) as Ha.
  { apply (init_as_sender_stored (CL := sample_laws)); [apply zlen_le_split|apply x25519_public_length]. }
  destruct (session_persistence (CL := sample_laws) (fun m => Ok (enc_any m)) dec_any enc_json_roundtrip
    running memory_new eq_refl) as (b' & Hs & Hl).
  { apply map_Forall_insert_2; [exact Ha|apply map_Forall_empty]. }
  exists b'. split; [exact Hs|]. destruct (Hl (with_backend b') eq_refl) as (m1 & Hm1 & Hget).
  exists m1. split; [exact Hm1|exact (Hget "peer"%string)].
Defined.

(** Two peers that only share suite 0x01: the key the sender uses for its identity is
    derived from its signing key, the one the receiver looks up is the dedicated
    encryption key of the sender's bundle. *)
Definition identity_public (signing_key : bytes) : bytes := x25519_public (ed25519_to_x25519_secret signing_key).

Definition classical_bundle (signing_key x : bytes) : PublicKeyBundle :=
  mkBundle (identity_public signing_key) (x25519_public x) [] None 0 [Byte.x01] [] None.

Definition classical_exchange (alice_x : bytes) : res string bytes :=
  let alice_bundle := classical_bundle (key_of 1) alice_x in
  let bob_bundle := classical_bundle (key_of 2) (key_of 42) in
  let manager : RatchetSessionManager MemoryStorage := manager_new in
  let! '(a, _) := get_or_create_session_hybrid coins manager "bob" (key_of 1) alice_x alice_bundle bob_bundle in
  let! '(b, _) := create_receiver_session_hybrid (key_of 12) manager "alice" (key_of 2) (key_of 42)
                    (generate (key_of 33)) bob_bundle alice_bundle None in
  let! m := (encrypt (nonce_of 1) a (text 1) []).1 in
  (decrypt rnds b (re_our_dh_public m) (re_message_number m) (re_nonce m) (re_ciphertext m) []).1.

(** With a dedicated key of its own the sender's first message cannot be read; it can
    when the dedicated key happens to be the one derived from the signing key. *)
Theorem classical_suite_disagrees :
  classical_exchange (key_of 41) = Err "Trial decryption failed for all candidates"%string
  /\ classical_exchange (ed25519_to_x25519_secret (key_of 1)) = Ok (text 1).
Proof. split; vm_compute; reflexivity. Qed.

End Examples.
