(* ===== verification/Encrypt.v ===== *)
(** * Message encryption by peer ([core/src/crypto/encrypt.rs])

    What turns a plaintext into a wire envelope and back: per-message encryption
    to a static key, the double ratchet, the choice between them, and the
    recovery of a receiver whose session does not fit.  [bincode] is a
    parameter.  Of the audit log only the events that this code appends are
    seen, as the list of peers of legacy sends. *)

From S2P Require Import Prelude Frame Envelope Crypto Backend Ratchet Session.

(** ** Data *)

Definition KDF_CONTEXT : string := "iron-core v2 message encryption 2026-02-05".
Definition WIRE_TAG_V2 : byte := Byte.x02.

Record SignedEnvelope : Type := mkSigned {
  se_envelope : LegacyEnvelope;
  se_signature : bytes;
}.

Record SignedEnvelopeV2 : Type := mkSignedV2 {
  se2_envelope : EnvelopeV2;
  se2_signature : bytes;
}.

(** The random bytes of one send: those of a new session, the nonce, the
    ephemeral key of a legacy message, and those of a post-quantum step. *)
Record SendRandom : Type := mkSendRandom {
  sr_session : HybridRandom;
  sr_nonce : bytes;
  sr_ephemeral : bytes;
  sr_pq_encap : bytes;
  sr_pq_seed : bytes;
}.

(** The random bytes of one receive: a session and ratchet keys, at the first and
    at the second attempt. *)
Record RecvRandom : Type := mkRecvRandom {
  rr_session : bytes;
  rr_dh : nat -> bytes;
  rr_session2 : bytes;
  rr_dh2 : nat -> bytes;
}.

Section Encrypt.
Context {CR : Crypto} {BM : Build} {B : Type}.

(** ** Key validation *)

Definition validate_ed25519_public_key (public_key_hex : string) : res string unit :=
  let! public_key_bytes := map_err (fun _ => "Invalid hex encoding in public key"%string) (hex_decode public_key_hex) in
  if negb (zlen public_key_bytes =? 32) then Err "Public key must be exactly 32 bytes (64 hex characters)"%string
  else
    match ed25519_decompress public_key_bytes with
    | None => Err "Public key is not a valid Ed25519 point (decompression failed)"%string
    | Some _ => Ok tt
    end.

(** ** Per-message encryption *)

Definition message_kdf (shared_secret : bytes) : bytes := derive_key KDF_CONTEXT shared_secret.

Definition encrypt_message (ephemeral_secret nonce_bytes : bytes) (sender_signing_key recipient_public_key plaintext : bytes)
    : res string LegacyEnvelope :=
  let! recipient_x25519 := ed25519_public_to_x25519 recipient_public_key in
  let shared_secret := diffie_hellman ephemeral_secret recipient_x25519 in
  let symmetric_key := message_kdf shared_secret in
  let sender_public_bytes := ed25519_public sender_signing_key in
  match aead_encrypt symmetric_key nonce_bytes sender_public_bytes plaintext with
  | None => Err "Encryption failed"%string
  | Some ciphertext =>
      Ok (mkLegacy sender_public_bytes (x25519_public ephemeral_secret) nonce_bytes ciphertext None None)
  end.

Definition decrypt_message (recipient_signing_key : bytes) (envelope : LegacyEnvelope) : res string bytes :=
  if negb (zlen (l_ephemeral_public_key envelope) =? 32) then Err "Invalid ephemeral public key length"%string
  else if negb (zlen (l_nonce envelope) =? 24) then Err "Invalid nonce length"%string
  else
    let recipient_x25519_secret := ed25519_to_x25519_secret recipient_signing_key in
    let shared_secret := diffie_hellman recipient_x25519_secret (l_ephemeral_public_key envelope) in
    let symmetric_key := message_kdf shared_secret in
    if negb (zlen (l_sender_public_key envelope) =? 32) then Err "Invalid sender public key length"%string
    else
      match aead_decrypt symmetric_key (l_nonce envelope) (l_sender_public_key envelope) (l_ciphertext envelope) with
      | Some plaintext => Ok plaintext
      | None => Err "Decryption failed: invalid ciphertext, wrong key, or tampered sender public key"%string
      end.

(** ** Ratcheted messages *)

(** [session.peer_confirmed = true]. *)
Definition confirm (s : RatchetSession) : RatchetSession :=
  set_received s (receiving_chain s) (skipped_keys s) true.

Definition decrypt_message_ratcheted (rnds : nat -> bytes) (session : RatchetSession) (envelope : LegacyEnvelope)
    : res string bytes * RatchetSession :=
  match l_ratchet_dh_public envelope, l_ratchet_message_number envelope with
  | None, _ => (Err "Ratcheted envelope missing ratchet_dh_public field"%string, session)
  | _, None => (Err "Ratcheted envelope missing ratchet_message_number field"%string, session)
  | Some dh_public, Some message_number =>
      if negb (zlen (l_nonce envelope) =? 24)
      then (Err "Invalid nonce length in ratcheted envelope"%string, session)
      else
        match decrypt rnds session dh_public message_number (l_nonce envelope) (l_ciphertext envelope)
                (l_sender_public_key envelope) with
        | (Ok plaintext, session) => (Ok plaintext, confirm session)
        | (r, session) => (r, session)
        end
  end.

Definition transcript_mismatch (session : RatchetSession) (envelope : EnvelopeV2) : bool :=
  negb (peer_confirmed session) &&
  match transcript_hash session, v2_transcript_hash envelope with
  | Some expected_hash, Some envelope_hash => negb (bool_decide (expected_hash = envelope_hash))
  | _, _ => false
  end.

(** The post-quantum fields of a message of a confirmed hybrid session. *)
Definition incoming_pq (session : RatchetSession) (envelope : EnvelopeV2) (message_number : Z)
    : res string unit * RatchetSession :=
  if is_pq_hybrid session && peer_confirmed session then
    let expects_pq_fields := (0 <? message_number) && (message_number mod 100 =? 0) in
    match (if expects_pq_fields
           then validate_pq_fields_present session (bool_decide (is_Some (v2_pq_kem_ciphertext envelope)))
           else Ok tt) with
    | Ok _ =>
        match v2_pq_kem_ciphertext envelope, v2_pq_encaps_key envelope with
        | Some pq_kem_ciphertext, Some pq_encaps_key =>
            let '(r, session) := handle_incoming_pq_fields session pq_kem_ciphertext pq_encaps_key in
            (rmap (fun _ => tt) r, session)
        | _, _ => (Ok tt, session)
        end
    | r => (r, session)
    end
  else (Ok tt, session).

Definition decrypt_message_ratcheted_v2 (rnds : nat -> bytes) (session : RatchetSession) (envelope : EnvelopeV2)
    : res string bytes * RatchetSession :=
  match v2_ratchet_dh_public envelope, v2_ratchet_message_number envelope with
  | None, _ => (Err "Ratcheted V2 envelope missing ratchet_dh_public field"%string, session)
  | _, None => (Err "Ratcheted V2 envelope missing ratchet_message_number field"%string, session)
  | Some dh_public, Some message_number =>
      if negb (zlen (v2_nonce envelope) =? 24)
      then (Err "Invalid nonce length in ratcheted V2 envelope"%string, session)
      else if transcript_mismatch session envelope then (Err "Transcript hash mismatch"%string, session)
      else
        match incoming_pq session envelope message_number with
        | (Ok _, session) =>
            match decrypt rnds session dh_public message_number (v2_nonce envelope) (v2_ciphertext envelope)
                    (v2_sender_public_key envelope) with
            | (Ok plaintext, session) => (Ok plaintext, confirm session)
            | (r, session) => (r, session)
            end
        | (Err e, session) => (Err e, session)
        | (Panic, session) => (Panic, session)
        end
  end.

(** The post-quantum fields a hybrid sender attaches, after the message was encrypted. *)
Definition outgoing_pq (encap_rand seed : bytes) (session : RatchetSession)
    : option bytes * option bytes * RatchetSession :=
  if negb (peer_confirmed session) then
    match bootstrap_hct session with
    | Some hct => (Some (mlkem_ciphertext hct), pub_key <$> pq_our_keypair session, session)
    | None => (None, None, session)
    end
  else
    match sending_chain session with
    | Some chain =>
        let current_message_number := sat_sub (chain_index chain) 1 in
        if (0 <? current_message_number) && (current_message_number mod 100 =? 0) then
          match perform_pq_ratchet_step encap_rand seed session with
          | (Ok (ct, encaps_key), session) => (Some ct, Some encaps_key, session)
          | (_, session) => (None, None, session)
          end
        else (None, None, session)
    | None => (None, None, session)
    end.

Definition encrypt_message_ratcheted (rnd : SendRandom) (sender_signing_key : bytes) (session : RatchetSession)
    (plaintext : bytes) : res string WireEnvelope * RatchetSession :=
  let sender_public_bytes := ed25519_public sender_signing_key in
  match encrypt (sr_nonce rnd) session plaintext sender_public_bytes with
  | (Ok result, session) =>
      if is_pq_hybrid session then
        let '(pq_kem_ciphertext, pq_encaps_key, session) := outgoing_pq (sr_pq_encap rnd) (sr_pq_seed rnd) session in
        let ephemeral_public_key :=
          if negb (peer_confirmed session) then
            match bootstrap_hct session with
            | Some hct => x25519_ephemeral_public hct
            | None => re_our_dh_public result
            end
          else re_our_dh_public result in
        let th := if negb (peer_confirmed session) then transcript_hash session else None in
        (Ok (WireV2 (mkV2 (byte.unsigned (default Byte.x02 (negotiated_suite session))) sender_public_bytes
               ephemeral_public_key (re_nonce result) (re_ciphertext result) (Some (re_our_dh_public result))
               (Some (re_message_number result)) pq_kem_ciphertext pq_encaps_key th)), session)
      else
        (Ok (WireV1 (mkLegacy sender_public_bytes (re_our_dh_public result) (re_nonce result) (re_ciphertext result)
               (Some (re_our_dh_public result)) (Some (re_message_number result)))), session)
  | (Err e, session) => (Err e, session)
  | (Panic, session) => (Panic, session)
  end.

(** ** Sending *)

Definition should_use_ratcheted_encryption (recipient_bundle : option PublicKeyBundle) (session_exists require_pq : bool)
    : res string bool :=
  let classical :=
    if session_exists then Ok true
    else if require_pq then Err "V1 peer cannot be sent to when require_pq=true"%string
    else Ok false in
  match recipient_bundle with
  | Some bundle =>
      if existsb (fun s => bool_decide (s ∈ HYBRID_SUITE_IDS)) (pb_supported_suites bundle) then Ok true else classical
  | None => classical
  end.

Definition lend {A : Type} (manager : RatchetSessionManager B) (peer_id : string)
    (f : RatchetSession -> res string A * RatchetSession) : res string A * RatchetSessionManager B :=
  match get_session_mut manager peer_id f with
  | (Some r, manager) => (r, manager)
  | (None, manager) => (Err "Session exists but cannot be retrieved for peer"%string, manager)
  end.

Record SendState : Type := mkSendState {
  sd_manager : option (RatchetSessionManager B);
  sd_audit : option (list string);
}.

Definition encrypt_with_ratchet_fallback (rnd : SendRandom) (sender_signing_key : bytes)
    (recipient_bundle : option PublicKeyBundle) (recipient_public_key_fallback plaintext : bytes) (st : SendState)
    (peer_id : string) (our_bundle : option PublicKeyBundle) (our_x25519_secret : option bytes) (require_pq : bool)
    : res string WireEnvelope * SendState :=
  let session_exists := match sd_manager st with Some m => has_session m peer_id | None => false end in
  match should_use_ratcheted_encryption recipient_bundle session_exists require_pq with
  | Err e => (Err e, st)
  | Panic => (Panic, st)
  | Ok true =>
      match sd_manager st with
      | None => (Err "Session exists but no session manager provided"%string, st)
      | Some manager =>
          let opened :=
            match our_bundle, recipient_bundle with
            | Some our_b, Some their_b =>
                match our_x25519_secret with
                | None => Err "Hybrid session requires our dedicated X25519 secret"%string
                | Some our_x25519 =>
                    get_or_create_session_hybrid (sr_session rnd) manager peer_id sender_signing_key our_x25519 our_b their_b
                end
            | _, _ =>
                let! their_x25519 := ed25519_public_to_x25519 recipient_public_key_fallback in
                Ok (get_or_create_session (hr_dh (sr_session rnd)) manager peer_id sender_signing_key their_x25519)
            end in
          match opened with
          | Ok (_, manager) =>
              let '(r, manager) := lend manager peer_id
                (fun s => encrypt_message_ratcheted rnd sender_signing_key s plaintext) in
              (r, mkSendState (Some manager) (sd_audit st))
          | Err e => (Err e, st)
          | Panic => (Panic, st)
          end
      end
  | Ok false =>
      let st := mkSendState (sd_manager st) ((fun log => log ++ [peer_id]) <$> sd_audit st) in
      (rmap WireV1 (encrypt_message (sr_ephemeral rnd) (sr_nonce rnd) sender_signing_key recipient_public_key_fallback plaintext),
       st)
  end.

(** ** Receiving *)

Definition is_ratcheted_envelope (envelope : LegacyEnvelope) : bool :=
  bool_decide (is_Some (l_ratchet_dh_public envelope)) && bool_decide (is_Some (l_ratchet_message_number envelope)).

(** [copy_from_slice] into an array of [n] bytes panics on another length. *)
Definition array_of (n : Z) (b : bytes) : res string bytes := if zlen b =? n then Ok b else Panic.

Definition envelope_hct (envelope : EnvelopeV2) : res string (option HybridCiphertext) :=
  match v2_pq_kem_ciphertext envelope with
  | Some mlk =>
      let! e := array_of 32 (v2_ephemeral_public_key envelope) in
      let! m := array_of 1088 mlk in
      Ok (Some (mkHct e m))
  | None => Ok None
  end.

Definition init_receiver_v2_session (rnd : bytes) (manager : RatchetSessionManager B) (peer_id : string)
    (recipient_signing_key : bytes) (recipient_x25519_secret : option bytes) (our_mlkem_keypair : option MlKem768KeyPair)
    (our_bundle sender_bundle : option PublicKeyBundle) (envelope : EnvelopeV2)
    : res string (RatchetSessionManager B) :=
  match our_mlkem_keypair, our_bundle, sender_bundle with
  | Some our_k, Some our_b, Some their_b =>
      let! hct := envelope_hct envelope in
      match recipient_x25519_secret with
      | None => Err "V2 session requires recipient x25519 secret"%string
      | Some x =>
          rmap snd (create_receiver_session_hybrid rnd manager peer_id recipient_signing_key x our_k our_b their_b hct)
      end
  | _, _, _ => Err "V2 ratcheted envelope received, but missing keys/bundles for hybrid init"%string
  end.

(** A classical receiver session from the static keys, in place of whatever is there. *)
Definition init_receiver_v1_session (rnd : bytes) (manager : RatchetSessionManager B) (peer_id : string)
    (recipient_signing_key sender_public_key : bytes) : res string (RatchetSessionManager B) :=
  let! sender_ed := array_of 32 sender_public_key in
  let! sender_x25519 := ed25519_public_to_x25519 sender_ed in
  Ok (create_receiver_session rnd manager peer_id recipient_signing_key sender_x25519).2.

Definition peer_id_of (sender_public_key : bytes) : string := hex_encode (blake3_hash sender_public_key).

Definition decrypt_v1 (rnd : RecvRandom) (recipient_signing_key : bytes) (envelope : LegacyEnvelope)
    (manager : RatchetSessionManager B) : res string bytes * RatchetSessionManager B :=
  let peer_id := peer_id_of (l_sender_public_key envelope) in
  match (if has_session manager peer_id then Ok manager
         else init_receiver_v1_session (rr_session rnd) manager peer_id recipient_signing_key (l_sender_public_key envelope)) with
  | Err e => (Err e, manager)
  | Panic => (Panic, manager)
  | Ok manager =>
      match lend manager peer_id (fun s => decrypt_message_ratcheted (rr_dh rnd) s envelope) with
      | (Ok plaintext, manager) => (Ok plaintext, manager)
      | (Panic, manager) => (Panic, manager)
      | (Err first_error, manager) =>
          match init_receiver_v1_session (rr_session2 rnd) manager peer_id recipient_signing_key (l_sender_public_key envelope) with
          | Err e => (Err e, manager)
          | Panic => (Panic, manager)
          | Ok manager =>
              match lend manager peer_id (fun s => decrypt_message_ratcheted (rr_dh2 rnd) s envelope) with
              | (Ok plaintext, manager) => (Ok plaintext, manager)
              | (Panic, manager) => (Panic, manager)
              | (Err _, manager) => (Err first_error, manager)
              end
          end
      end
  end.

Definition decrypt_v2 (rnd : RecvRandom) (recipient_signing_key : bytes) (recipient_x25519_secret : option bytes)
    (envelope : EnvelopeV2) (our_mlkem_keypair : option MlKem768KeyPair) (our_bundle sender_bundle : option PublicKeyBundle)
    (manager : RatchetSessionManager B) : res string bytes * RatchetSessionManager B :=
  let peer_id := peer_id_of (v2_sender_public_key envelope) in
  let init rnd manager := init_receiver_v2_session rnd manager peer_id recipient_signing_key recipient_x25519_secret
                            our_mlkem_keypair our_bundle sender_bundle envelope in
  match (if has_session manager peer_id then Ok manager else init (rr_session rnd) manager) with
  | Err e => (Err e, manager)
  | Panic => (Panic, manager)
  | Ok manager =>
      match lend manager peer_id (fun s => decrypt_message_ratcheted_v2 (rr_dh rnd) s envelope) with
      | (Ok plaintext, manager) => (Ok plaintext, manager)
      | (Panic, manager) => (Panic, manager)
      | (Err first_error, manager) =>
          match init (rr_session2 rnd) manager with
          | Panic => (Panic, manager)
          | Err _ => (Err first_error, manager)
          | Ok manager =>
              match lend manager peer_id (fun s => decrypt_message_ratcheted_v2 (rr_dh2 rnd) s envelope) with
              | (Ok plaintext, manager) => (Ok plaintext, manager)
              | (Panic, manager) => (Panic, manager)
              | (Err _, manager) => (Err first_error, manager)
              end
          end
      end
  end.

Definition decrypt_with_ratchet_fallback (rnd : RecvRandom) (recipient_signing_key : bytes)
    (recipient_x25519_secret : option bytes) (wire_envelope : WireEnvelope)
    (session_manager : option (RatchetSessionManager B)) (our_mlkem_keypair : option MlKem768KeyPair)
    (our_bundle sender_bundle : option PublicKeyBundle) : res string bytes * option (RatchetSessionManager B) :=
  match wire_envelope with
  | WireV1 envelope =>
      if is_ratcheted_envelope envelope then
        match session_manager with
        | Some manager => prod_map id Some (decrypt_v1 rnd recipient_signing_key envelope manager)
        | None => (Err "Ratcheted V1 envelope received but no active ratchet session"%string, session_manager)
        end
      else (decrypt_message recipient_signing_key envelope, session_manager)
  | WireV2 envelope =>
      match session_manager with
      | Some manager =>
          prod_map id Some (decrypt_v2 rnd recipient_signing_key recipient_x25519_secret envelope
                              our_mlkem_keypair our_bundle sender_bundle manager)
      | None => (Err "V2 envelope received but no session manager available"%string, session_manager)
      end
  end.

(** ** Signatures *)

Context (serialize : LegacyEnvelope -> res string bytes) (serialize_v2 : EnvelopeV2 -> res string bytes).

Definition sign_envelope (envelope : LegacyEnvelope) (sender_signing_key : bytes) : res string SignedEnvelope :=
  let! envelope_bytes := map_err (fun _ => "Failed to serialize envelope"%string) (serialize envelope) in
  Ok (mkSigned envelope (ed25519_sign sender_signing_key envelope_bytes)).

Definition verify_envelope (signed_envelope : SignedEnvelope) : res string unit :=
  let sender := l_sender_public_key (se_envelope signed_envelope) in
  if negb (zlen sender =? 32) then Err "Invalid sender public key length"%string
  else if negb (ed25519_key_valid sender) then Err "Invalid sender public key"%string
  else if negb (zlen (se_signature signed_envelope) =? 64) then Err "Invalid signature length"%string
  else
    let! envelope_bytes := map_err (fun _ => "Failed to serialize envelope"%string) (serialize (se_envelope signed_envelope)) in
    if ed25519_verify sender envelope_bytes (se_signature signed_envelope) then Ok tt
    else Err "Signature verification failed"%string.

Definition sign_envelope_v2 (envelope : EnvelopeV2) (sender_signing_key : bytes) : res string SignedEnvelopeV2 :=
  let! envelope_bytes := map_err (fun _ => "Failed to serialize envelope V2"%string) (serialize_v2 envelope) in
  Ok (mkSignedV2 envelope (ed25519_sign sender_signing_key (WIRE_TAG_V2 :: envelope_bytes))).

Definition verify_envelope_v2 (signed_envelope : SignedEnvelopeV2) : res string unit :=
  let sender := v2_sender_public_key (se2_envelope signed_envelope) in
  if negb (zlen sender =? 32) then Err "Invalid sender public key length in V2 envelope"%string
  else if negb (ed25519_key_valid sender) then Err "Invalid sender public key"%string
  else if negb (zlen (se2_signature signed_envelope) =? 64) then Err "Invalid V2 signature length"%string
  else
    let! envelope_bytes := map_err (fun _ => "Failed to serialize envelope V2"%string) (serialize_v2 (se2_envelope signed_envelope)) in
    if ed25519_verify sender (WIRE_TAG_V2 :: envelope_bytes) (se2_signature signed_envelope) then Ok tt
    else Err "V2 signature verification failed"%string.

End Encrypt.

(** ** Lemmas *)

Section Theorems.
Context {CR : Crypto} {CL : CryptoLaws} {BM : Build} {B : Type}.

Implicit Types (manager : RatchetSessionManager B).

Lemma own_x25519 sk : ed25519_public_to_x25519 (ed25519_public sk) = Ok (x25519_public (ed25519_to_x25519_secret sk)).
Proof. unfold ed25519_public_to_x25519. by rewrite ed25519_birational. Qed.

Lemma lend_session {A : Type} manager peer s (f : RatchetSession -> res string A * RatchetSession) :
  sessions manager !! peer = Some s -> lend manager peer f = ((f s).1, insert_session manager peer (f s).2).
Proof. intros H. unfold lend, get_session_mut. rewrite H. by destruct (f s). Qed.

Lemma has_session_true manager peer s : sessions manager !! peer = Some s -> has_session manager peer = true.
Proof. intros H. unfold has_session. by rewrite H, bool_decide_true. Qed.

Lemma has_session_false manager peer : get_session manager peer = None -> has_session manager peer = false.
Proof. intros H. apply bool_decide_eq_false. unfold get_session in H. rewrite H. by intros [? [=]]. Qed.

Lemma get_inserted manager peer s : get_session (insert_session manager peer s) peer = Some s.
Proof. apply lookup_insert_eq. Qed.

(** What a receiver does with a classical message that its session cannot read. *)
Lemma v1_recovery rnd sk env manager s x first_error :
  sessions manager !! peer_id_of (l_sender_public_key env) = Some s ->
  (decrypt_message_ratcheted (rr_dh rnd) s env).1 = Err first_error ->
  zlen (l_sender_public_key env) = 32 -> ed25519_public_to_x25519 (l_sender_public_key env) = Ok x ->
  let '(r, s') := decrypt_message_ratcheted (rr_dh2 rnd) (init_as_receiver (rr_session2 rnd) sk x) env in
  (decrypt_v1 rnd sk env manager).1 = match r with Err _ => Err first_error | _ => r end
  /\ get_session (decrypt_v1 rnd sk env manager).2 (peer_id_of (l_sender_public_key env)) = Some s'.
Proof.
  intros Hs He Hl Hx. unfold decrypt_v1. rewrite (has_session_true _ _ _ Hs), (lend_session _ _ _ _ Hs), He.
  unfold init_receiver_v1_session, array_of. rewrite Hl. cbn [Z.eqb Pos.eqb rbind]. rewrite Hx.
  cbn [rbind create_receiver_session snd]. erewrite lend_session by apply lookup_insert_eq.
  destruct (decrypt_message_ratcheted (rr_dh2 rnd) _ env) as [[p|e|] s']; cbn [fst snd];
    (split; [done|apply get_inserted]).
Qed.

Lemma decrypt_message_ratcheted_unchanged rnds s env :
  is_ok (decrypt_message_ratcheted rnds s env).1 = false -> (decrypt_message_ratcheted rnds s env).2 = s.
Proof.
  unfold decrypt_message_ratcheted. destruct (l_ratchet_dh_public env) as [d|]; [|done].
  destruct (l_ratchet_message_number env) as [i|]; [|done]. case_if; [done|].
  pose proof (decrypt_unchanged rnds s d i (l_nonce env) (l_ciphertext env) (l_sender_public_key env)) as H.
  destruct (decrypt _ _ _ _ _ _ _) as [[p|e|] s']; [done|exact H..].
Qed.

(** The message number [i] of the first epoch of a classical sender, as it travels. *)
Definition first_epoch_envelope (rndA skA skB : bytes) (ck : bytes) (i : nat) (eph nonce plaintext ct : bytes)
    (env : LegacyEnvelope) : Prop :=
  let a := init_as_sender rndA skA (x25519_public (ed25519_to_x25519_secret skB)) in
  sending_chain a = Some (chain_at ck 0)
  /\ env = mkLegacy (ed25519_public skA) eph nonce ct (Some (our_dh_public a)) (Some (Z.of_nat i))
  /\ zlen nonce = 24 /\ aead_encrypt (mk_at ck i) nonce (ed25519_public skA) plaintext = Some ct.

(** A fresh classical receiver reads any of the first messages. *)
Lemma first_epoch_read rnds rndA rndB skA skB ck i eph nonce plaintext ct env :
  first_epoch_envelope rndA skA skB ck i eph nonce plaintext ct env -> Z.of_nat i <= MAX_SKIP_KEYS ->
  exists s', decrypt_message_ratcheted rnds
               (init_as_receiver rndB skB (x25519_public (ed25519_to_x25519_secret skA))) env = (Ok plaintext, s').
Proof.
  unfold MAX_SKIP_KEYS. intros (Hck & -> & Hn & He) Hi.
  destruct (classical_ahead rndA rndB skA skB) as [ck' Ha]. assert (ck' = ck) as ->.
  { pose proof (ah_sending _ _ _ _ Ha) as H. rewrite Hck in H. by injection H. }
  destruct (decrypt_ahead rnds _ _ ck i (mkMessage nonce ct plaintext) (ed25519_public skA)
    (ahead_advance _ _ _ _ i Ha)) as (t & Ht & _); [split; by vm_compute|by split|unfold init_as_receiver; cbn [skipped_keys]; rewrite map_size_empty; lia|].
  unfold decrypt_message_ratcheted. cbn [l_ratchet_dh_public l_ratchet_message_number l_nonce l_ciphertext l_sender_public_key].
  rewrite Hn. cbn [Z.eqb Pos.eqb negb]. cbn [mg_nonce mg_ct mg_plain our_dh_public set_sending_chain] in Ht. rewrite Ht. by eexists.
Qed.

(** ** Sending and receiving *)

(** A message encrypted to a static key is read by the owner of the key, with or
    without ratchet sessions, and leaves every session alone. *)
Theorem legacy_roundtrip eph nonce skA skB plaintext env rnd x (managers : option (RatchetSessionManager B)) kp b1 b2 :
  zlen nonce = 24 -> encrypt_message eph nonce skA (ed25519_public skB) plaintext = Ok env ->
  decrypt_with_ratchet_fallback rnd skB x (WireV1 env) managers kp b1 b2 = (Ok plaintext, managers).
Proof.
  intros Hn. unfold encrypt_message. rewrite own_x25519. cbn [rbind].
  destruct (aead_encrypt _ _ _ _) as [ct|] eqn:He; [|discriminate]. intros [= <-].
  unfold decrypt_with_ratchet_fallback. change (is_ratcheted_envelope _) with false.
  cbn match. f_equal. unfold decrypt_message.
  cbn [l_ephemeral_public_key l_nonce l_sender_public_key l_ciphertext].
  rewrite x25519_public_length, Hn, ed25519_public_length. cbn [Z.eqb Pos.eqb negb].
  rewrite dh_comm. by rewrite (aead_correct _ _ _ _ _ He).
Qed.

Lemma legacy_only bundle session_exists require_pq :
  should_use_ratcheted_encryption bundle session_exists require_pq = Ok false ->
  require_pq = false /\ session_exists = false
  /\ forall b, bundle = Some b -> forall suite, suite ∈ pb_supported_suites b -> suite ∉ HYBRID_SUITE_IDS.
Proof.
  unfold should_use_ratcheted_encryption. destruct bundle as [b|]; [destruct (existsb _ _) eqn:Hex; [discriminate|]|];
    (destruct session_exists; [discriminate|]); (destruct require_pq; [discriminate|]); intros _; split_and!; try done.
  intros b' [= <-] suite Hin Hh. rewrite <-not_true_iff_false in Hex. apply Hex, existsb_exists. exists suite.
  split; [by apply list_elem_of_In|by apply bool_decide_eq_true].
Qed.

(** C16: no silent downgrade: an envelope without ratchet fields leaves a sender only
    when post-quantum encryption is not required, there is no session with the
    peer, and the peer has not published a hybrid suite; and the send is recorded
    in the audit log, if there is one. *)
Theorem no_silent_downgrade rnd sk bundle pk plaintext (st st' : SendState (B := B)) peer ob ox require_pq env :
  encrypt_with_ratchet_fallback rnd sk bundle pk plaintext st peer ob ox require_pq = (Ok (WireV1 env), st') ->
  is_ratcheted_envelope env = false ->
  require_pq = false
  /\ (forall m, sd_manager st = Some m -> get_session m peer = None)
  /\ (forall b, bundle = Some b -> forall suite, suite ∈ pb_supported_suites b -> suite ∉ HYBRID_SUITE_IDS)
  /\ sd_audit st' = (fun log => log ++ [peer]) <$> sd_audit st.
Proof.
  unfold encrypt_with_ratchet_fallback.
  destruct (should_use_ratcheted_encryption _ _ _) as [[]|e|] eqn:Hu; [| |discriminate..].
  - intros H Hr. exfalso. destruct (sd_manager st) as [m|]; [|discriminate].
    match type of H with context [match ?o with Ok _ => _ | Err _ => _ | Panic => _ end] => destruct o as [[s0 m1]|e|] end;
      [|discriminate..].
    unfold lend, get_session_mut in H. destruct (sessions m1 !! peer) as [s|]; [|discriminate].
    unfold encrypt_message_ratcheted in H. destruct (encrypt _ _ _ _) as [[r|e|] s1]; [|discriminate..].
    destruct (is_pq_hybrid s1); [by destruct (outgoing_pq _ _ _) as [[c k] s2]|].
    injection H as <- <-. discriminate.
  - intros H _. injection H as _ <-. cbn [sd_audit]. apply legacy_only in Hu as (-> & Hex & Hb).
    split_and!; [done| |done|done]. intros m Hm. rewrite Hm in Hex. apply bool_decide_eq_false in Hex.
    by apply eq_None_not_Some.
Qed.

(** A first-epoch message that the session refuses is read after the recovery. *)
Lemma v1_replay_accepted rnd rndA skA skB ck i eph nonce plaintext ct env manager s e :
  first_epoch_envelope rndA skA skB ck i eph nonce plaintext ct env -> Z.of_nat i <= MAX_SKIP_KEYS ->
  get_session manager (peer_id_of (ed25519_public skA)) = Some s ->
  (decrypt_message_ratcheted (rr_dh rnd) s env).1 = Err e ->
  (decrypt_v1 rnd skB env manager).1 = Ok plaintext.
Proof.
  intros Hf Hi Hs He. pose proof Hf as (_ & Henv & _).
  assert (Hpk : l_sender_public_key env = ed25519_public skA) by (by rewrite Henv).
  pose proof (v1_recovery rnd skB env manager s (x25519_public (ed25519_to_x25519_secret skA)) e) as Hr.
  rewrite Hpk in Hr. specialize (Hr Hs He (ed25519_public_length skA) (own_x25519 skA)).
  destruct (first_epoch_read (rr_dh2 rnd) rndA (rr_session2 rnd) skA skB ck i eph nonce plaintext ct env Hf Hi) as [s' Hs'].
  rewrite Hs' in Hr. apply Hr.
Qed.

(** A message that neither session reads leaves the second one behind. *)
Lemma v1_forgery_resets rnd skB env manager s x e :
  get_session manager (peer_id_of (l_sender_public_key env)) = Some s ->
  zlen (l_sender_public_key env) = 32 -> ed25519_public_to_x25519 (l_sender_public_key env) = Ok x ->
  (decrypt_message_ratcheted (rr_dh rnd) s env).1 = Err e ->
  is_ok (decrypt_message_ratcheted (rr_dh2 rnd) (init_as_receiver (rr_session2 rnd) skB x) env).1 = false ->
  is_ok (decrypt_v1 rnd skB env manager).1 = false
  /\ get_session (decrypt_v1 rnd skB env manager).2 (peer_id_of (l_sender_public_key env))
     = Some (init_as_receiver (rr_session2 rnd) skB x).
Proof.
  intros Hs Hl Hx He Hf. pose proof (v1_recovery rnd skB env manager s x e Hs He Hl Hx) as Hr.
  pose proof (decrypt_message_ratcheted_unchanged _ _ _ Hf) as Hu.
  destruct (decrypt_message_ratcheted (rr_dh2 rnd) _ env) as [r s']. cbn [fst snd] in *. subst s'.
  destruct Hr as [-> Hg]. split; [by destruct r|exact Hg].
Qed.

(** C17: the recovery of a diverged classical session does not ask who caused the
    divergence.  Any of the first 257 messages that a peer ever sent in a classical
    session is read again when it is delivered again, in whatever state the
    receiver is, whenever its session rightly refuses it; and one unreadable
    envelope that names a peer as its sender, which anyone can make, replaces the
    session with that peer by a new one made from the static keys alone. *)
Theorem v1_recovery_unauthenticated rnd skB env manager s e :
  get_session manager (peer_id_of (l_sender_public_key env)) = Some s ->
  (decrypt_message_ratcheted (rr_dh rnd) s env).1 = Err e ->
  (forall rndA skA ck i eph nonce plaintext ct,
     first_epoch_envelope rndA skA skB ck i eph nonce plaintext ct env -> Z.of_nat i <= MAX_SKIP_KEYS ->
     (decrypt_v1 rnd skB env manager).1 = Ok plaintext)
  /\ (forall x, zlen (l_sender_public_key env) = 32 -> ed25519_public_to_x25519 (l_sender_public_key env) = Ok x ->
     is_ok (decrypt_message_ratcheted (rr_dh2 rnd) (init_as_receiver (rr_session2 rnd) skB x) env).1 = false ->
     is_ok (decrypt_v1 rnd skB env manager).1 = false
     /\ get_session (decrypt_v1 rnd skB env manager).2 (peer_id_of (l_sender_public_key env))
        = Some (init_as_receiver (rr_session2 rnd) skB x)).
Proof.
  intros Hs He. split.
  - intros rndA skA ck i eph nonce plaintext ct Hf Hi. eapply v1_replay_accepted; [exact Hf|done| |exact He].
    destruct Hf as (_ & Henv & _). by rewrite Henv in Hs.
  - intros x Hl Hx Hf. by eapply v1_forgery_resets.
Qed.

(** The post-quantum fields of a message are applied before the message is
    authenticated: an envelope that fails to decrypt still makes a confirmed
    hybrid session take over the sender's encapsulation key, drop the pending
    ciphertext, and keep the secret of the ciphertext for the next epoch, unless
    it has already mixed it. *)
Theorem pq_fields_unauthenticated rnds s env kp ct ek dh i e :
  is_pq_hybrid s = true -> peer_confirmed s = true ->
  pq_our_keypair s = Some kp -> pq_prev_keypair s = None ->
  v2_ratchet_dh_public env = Some dh -> v2_ratchet_message_number env = Some i -> zlen (v2_nonce env) = 24 ->
  v2_pq_kem_ciphertext env = Some ct -> v2_pq_encaps_key env = Some ek -> zlen ct = 1088 ->
  pq_last_mixed_fp s <> Some (pq_ss_fingerprint (mlkem_decapsulate (priv_key kp) ct)) ->
  pq_pending_recv s = None ->
  (decrypt_message_ratcheted_v2 rnds s env).1 = Err e ->
  pq_pending_recv (decrypt_message_ratcheted_v2 rnds s env).2 = Some (mlkem_decapsulate (priv_key kp) ct)
  /\ pq_their_encaps_key (decrypt_message_ratcheted_v2 rnds s env).2 = Some ek
  /\ pq_pending_ct (decrypt_message_ratcheted_v2 rnds s env).2 = None.
Proof.
  intros Hq Hc Hk Hk' Hd Hi Hn Hct Hek Hl Hfp Hr. unfold decrypt_message_ratcheted_v2.
  rewrite Hd, Hi, Hn. cbn [Z.eqb Pos.eqb negb]. unfold transcript_mismatch. rewrite Hc. cbn [negb andb].
  unfold incoming_pq, validate_pq_fields_present. rewrite Hq, Hc, Hct, Hek. cbn [andb].
  rewrite (bool_decide_true (is_Some (Some ct))) by (by eexists). cbn [negb]. rewrite andb_false_r.
  assert (Hif : forall b : bool, (if b then Ok tt else Ok tt) = @Ok string unit tt) by (by intros []). rewrite Hif.
  unfold handle_incoming_pq_fields, decapsulate. rewrite Hq, Hk, Hk', Hl, Hr. cbn [negb Z.eqb Pos.eqb fmap option_fmap option_map].
  rewrite (bool_decide_false (pq_last_mixed_fp s = _)) by done. rewrite bool_decide_false by done. cbn [orb rmap rbind].
  set (s1 := set_pq_received s ek _).
  pose proof (decrypt_unchanged rnds s1 dh i (v2_nonce env) (v2_ciphertext env) (v2_sender_public_key env)) as Hu.
  destruct (decrypt rnds s1 _ _ _ _ _) as [[p|e'|] s2]; cbn [fst snd] in *; [discriminate| |discriminate].
  intros _. by rewrite (Hu eq_refl).
Qed.

(** A handshake ciphertext of the wrong length stops the receiver's thread. *)
Theorem v2_bad_ciphertext_panics rnd sk x env kp b1 b2 manager ct :
  get_session manager (peer_id_of (v2_sender_public_key env)) = None ->
  v2_pq_kem_ciphertext env = Some ct -> zlen ct <> 1088 ->
  (decrypt_v2 rnd sk x env (Some kp) (Some b1) (Some b2) manager).1 = Panic.
Proof.
  intros Hs Hct Hl. unfold decrypt_v2.
  rewrite (has_session_false _ _ Hs). unfold init_receiver_v2_session, envelope_hct. rewrite Hct. unfold array_of.
  rewrite (proj2 (Z.eqb_neq (zlen ct) _)) by done. by case_if.
Qed.

(** ** First contact in a hybrid suite *)

Record published (sk x seed : bytes) (b : PublicKeyBundle) : Prop := {
  pu_ed : pb_ed25519_public b = ed25519_public sk;
  pu_x : pb_x25519_public b = x25519_public x;
  pu_mlkem : pb_mlkem_encaps_key b = pub_key (generate seed);
}.

Lemma suite_max_elem l x : suite_max l = Some x -> x ∈ l.
Proof.
  destruct l as [|y l]; [discriminate|]. cbn. intros [= <-]. revert y.
  induction l as [|z l IH]; intros y; cbn; [by left|]. specialize (IH (if byte.unsigned y <=? byte.unsigned z then z else y)).
  apply elem_of_cons in IH as [->|IH]; [|by right; right]. case_if; [by right; left|by left].
Qed.

Lemma negotiate_supported ours theirs ed1 ed2 suite th :
  negotiate_suite ours theirs ed1 ed2 = Ok (suite, th) -> suite ∈ theirs.
Proof.
  unfold negotiate_suite. destruct (suite_max _) as [m|] eqn:Hm; [|discriminate]. intros [= <- _].
  apply suite_max_elem, list_elem_of_filter in Hm. apply Hm.
Qed.

Lemma encapsulated_lengths eph r x k hct ss :
  hybrid_encapsulate eph r x k = Ok (hct, ss) ->
  zlen (x25519_ephemeral_public hct) = 32 /\ zlen (mlkem_ciphertext hct) = 1088.
Proof.
  unfold hybrid_encapsulate, encapsulate. case_if; [discriminate|]. case_if; [discriminate|]. cbn [rbind].
  pose proof (mlkem_ct_length k r) as Hl. destruct (mlkem_encapsulate k r) as [ct ssm]. intros [= <- <-].
  split; [apply x25519_public_length|exact Hl].
Qed.

(** Both sides open the session from the same root key. *)
Lemma hybrid_open rnd manager peer skA xA seedA bA skB xB seedB bB suite th a mA' :
  published skA xA seedA bA -> published skB xB seedB bB ->
  negotiate_suite (pb_supported_suites bA) (pb_supported_suites bB) (pb_ed25519_public bA) (pb_ed25519_public bB)
    = Ok (suite, th) -> suite ∈ HYBRID_SUITE_IDS -> get_session manager peer = None ->
  get_or_create_session_hybrid rnd manager peer skA xA bA bB = Ok (a, mA') ->
  exists hct root0, a = sender_session rnd suite bB th hct root0 /\ mA' = insert_session manager peer a
    /\ zlen (x25519_ephemeral_public hct) = 32 /\ zlen (mlkem_ciphertext hct) = 1088
    /\ forall rndB mB pid, create_receiver_session_hybrid (B := B) rndB mB pid skB xB (generate seedB) bB bA (Some hct)
         = Ok (receiver_session rndB suite xB (generate seedB) th hct root0,
               insert_session mB pid (receiver_session rndB suite xB (generate seedB) th hct root0)).
Proof.
  intros [HA1 HA2 HA3] [HB1 HB2 HB3] Hneg Hh Hs. unfold get_or_create_session_hybrid, create_receiver_session_hybrid.
  unfold get_session in Hs. rewrite Hs, Hneg. cbn [rbind].
  assert (suite = Byte.x03 \/ suite = Byte.x02) as [->| ->] by set_solver; cbn [bool_decide].
  - rewrite bool_decide_true by done. unfold init_as_sender_hybrid, init_as_receiver_hybrid. rewrite HB2, HB3.
    destruct (hybrid_encapsulate _ _ _ _) as [[hct ss]|e|] eqn:He; [|discriminate..]. cbn [rbind]. intros [= <- <-].
    exists hct. eexists. split; [reflexivity|]. split; [done|].
    destruct (encapsulated_lengths _ _ _ _ _ _ He) as [-> ->]. split_and!; [done..|].
    intros rndB mB pid. apply hybrid_kem_agree in He. rewrite He. cbn [rbind]. by rewrite HA2, dh_comm.
  - rewrite bool_decide_false by done. rewrite bool_decide_true by done.
    unfold init_as_sender_hybrid_suite02, init_as_receiver_hybrid_suite02. rewrite HB2, HB3.
    destruct (hybrid_encapsulate _ _ _ _) as [[hct ss]|e|] eqn:He; [|discriminate..]. cbn [rbind]. intros [= <- <-].
    exists hct. eexists. split; [reflexivity|]. split; [done|].
    destruct (encapsulated_lengths _ _ _ _ _ _ He) as [-> ->]. split_and!; [done..|].
    intros rndB mB pid. apply hybrid_kem_agree in He. by rewrite He.
Qed.

(** The first message of a hybrid session, as it travels. *)
Lemma first_hybrid_message rnd sk suite bB th hct root0 rndB xB kp plaintext w s' :
  pb_x25519_public bB = x25519_public xB -> suite ∈ HYBRID_SUITE_IDS ->
  encrypt_message_ratcheted rnd sk (sender_session (sr_session rnd) suite bB th hct root0) plaintext = (Ok w, s') ->
  exists ck ct ek, ahead (sender_session (sr_session rnd) suite bB th hct root0)
                         (receiver_session rndB suite xB kp th hct root0) ck 0
    /\ aead_encrypt (mk_at ck 0) (sr_nonce rnd) (ed25519_public sk) plaintext = Some ct
    /\ s' = set_sending_chain (sender_session (sr_session rnd) suite bB th hct root0) (chain_at ck 1)
    /\ w = WireV2 (mkV2 (byte.unsigned suite) (ed25519_public sk) (x25519_ephemeral_public hct) (sr_nonce rnd) ct
               (Some (x25519_public (hr_dh (sr_session rnd)))) (Some 0) (Some (mlkem_ciphertext hct)) ek (Some th)).
Proof.
  intros Hx Hh. destruct (hybrid_ahead (sr_session rnd) rndB suite xB kp bB th hct root0 Hx Hh) as [ck Ha].
  set (a := sender_session _ _ _ _ _ _) in *. unfold encrypt_message_ratcheted.
  destruct (encrypt _ a _ _) as [[m|e|] a'] eqn:He; [|discriminate..].
  destruct (encrypt_at_inv _ _ ck 0 _ _ _ _ (ah_sending _ _ _ _ Ha) ltac:(lia) He) as (ct & Hct & -> & ->).
  assert (Hpub : our_dh_public a = x25519_public (hr_dh (sr_session rnd))
    /\ negotiated_suite a = Some suite /\ peer_confirmed a = false /\ bootstrap_hct a = Some hct
    /\ transcript_hash a = Some th).
  { unfold a, sender_session. by destruct (root_key_ratchet_v2 _ _ _). }
  destruct Hpub as (Hp & Hsu & Hc & Hb & Ht).
  assert (Hq : is_pq_hybrid (set_sending_chain a (chain_at ck 1)) = true).
  { unfold is_pq_hybrid. cbn [negotiated_suite set_sending_chain]. rewrite Hsu. by apply bool_decide_eq_true. }
  rewrite Hq. unfold outgoing_pq. cbn [peer_confirmed bootstrap_hct set_sending_chain pq_our_keypair].
  rewrite Hc, Hb. cbn [negb peer_confirmed bootstrap_hct transcript_hash negotiated_suite set_sending_chain].
  rewrite Hc, Hb, Hsu, Ht. cbn [negb default]. intros [= <- <-]. do 3 eexists. split; [exact Ha|].
  split; [exact Hct|]. split; [done|]. by rewrite <-Hp.
Qed.

(** A receiver without a session reads a message that carries the handshake. *)
Lemma first_hybrid_read rr sk xB seedB bB bA manager suite th hct root0 skA nonce ct dh ek plaintext t :
  get_session manager (peer_id_of (ed25519_public skA)) = None -> zlen nonce = 24 ->
  zlen (x25519_ephemeral_public hct) = 32 -> zlen (mlkem_ciphertext hct) = 1088 ->
  (forall rndB mB pid, create_receiver_session_hybrid (B := B) rndB mB pid sk xB (generate seedB) bB bA (Some hct)
     = Ok (receiver_session rndB suite xB (generate seedB) th hct root0,
           insert_session mB pid (receiver_session rndB suite xB (generate seedB) th hct root0))) ->
  decrypt (rr_dh rr) (receiver_session (rr_session rr) suite xB (generate seedB) th hct root0) dh 0 nonce ct
    (ed25519_public skA) = (Ok plaintext, t) ->
  exists manager', decrypt_with_ratchet_fallback rr sk (Some xB)
      (WireV2 (mkV2 (byte.unsigned suite) (ed25519_public skA) (x25519_ephemeral_public hct) nonce ct (Some dh) (Some 0)
         (Some (mlkem_ciphertext hct)) ek (Some th)))
      (Some manager) (Some (generate seedB)) (Some bB) (Some bA) = (Ok plaintext, Some manager')
    /\ get_session manager' (peer_id_of (ed25519_public skA)) = Some (confirm t).
Proof.
  intros Hs Hn He Hm Hrecv Ht. set (env := mkV2 _ _ _ _ _ _ _ _ _ _). set (b0 := receiver_session _ _ _ _ _ _ _) in *.
  assert (Hd2 : decrypt_message_ratcheted_v2 (rr_dh rr) b0 env = (Ok plaintext, confirm t)).
  { unfold decrypt_message_ratcheted_v2, env. cbn [v2_ratchet_dh_public v2_ratchet_message_number v2_nonce v2_ciphertext v2_sender_public_key].
    rewrite Hn. cbn [Z.eqb Pos.eqb negb]. replace (transcript_mismatch b0 _) with false.
    2: { unfold transcript_mismatch. cbn [v2_transcript_hash]. change (peer_confirmed b0) with false.
         change (transcript_hash b0) with (Some th). cbn [negb andb]. by rewrite bool_decide_true. }
    unfold incoming_pq. change (peer_confirmed b0) with false. by rewrite andb_false_r, Ht. }
  eexists. split; [|apply get_inserted]. cbn [decrypt_with_ratchet_fallback]. unfold decrypt_v2, env in *.
  cbn [v2_sender_public_key]. rewrite (has_session_false _ _ Hs).
  unfold init_receiver_v2_session, envelope_hct. cbn [v2_pq_kem_ciphertext v2_ephemeral_public_key].
  unfold array_of. rewrite He, Hm. cbn [Z.eqb Pos.eqb rbind]. replace (mkHct _ _) with hct by (by destruct hct).
  rewrite Hrecv. cbn [rmap rbind snd]. erewrite lend_session by apply lookup_insert_eq.
  fold b0. by rewrite Hd2.
Qed.

(** First contact: when two peers that have published bundles share a hybrid
    suite, the first message that the sender's node emits is read by the
    receiver's node, which had no session before; both then hold sessions in
    agreement, and the receiver can answer. *)
Theorem hybrid_first_contact rnd rr skA xA seedA bA skB xB seedB bB pk plaintext (mA mB : RatchetSessionManager B)
    log peer require_pq suite th w st' :
  published skA xA seedA bA -> published skB xB seedB bB ->
  negotiate_suite (pb_supported_suites bA) (pb_supported_suites bB) (pb_ed25519_public bA) (pb_ed25519_public bB)
    = Ok (suite, th) -> suite ∈ HYBRID_SUITE_IDS ->
  get_session mA peer = None -> get_session mB (peer_id_of (ed25519_public skA)) = None ->
  zlen (sr_nonce rnd) = 24 -> x25519_public (rr_dh rr 0) <> x25519_public xB ->
  encrypt_with_ratchet_fallback rnd skA (Some bB) pk plaintext (mkSendState (Some mA) log) peer (Some bA) (Some xA)
    require_pq = (Ok w, st') ->
  exists mA' mB' a b ck, sd_manager st' = Some mA'
    /\ decrypt_with_ratchet_fallback rr skB (Some xB) w (Some mB) (Some (generate seedB)) (Some bB) (Some bA)
       = (Ok plaintext, Some mB')
    /\ get_session mA' peer = Some a /\ get_session mB' (peer_id_of (ed25519_public skA)) = Some b
    /\ ahead b a ck 0.
Proof.
  intros HA HB Hneg Hh HsA HsB Hn Hfresh. unfold encrypt_with_ratchet_fallback, should_use_ratcheted_encryption.
  rewrite (proj2 (existsb_exists _ _)).
  2: { exists suite. split; [by apply list_elem_of_In, (negotiate_supported _ _ _ _ _ _ Hneg)|by apply bool_decide_eq_true]. }
  cbn [sd_manager]. destruct (get_or_create_session_hybrid _ mA peer skA xA bA bB) as [[a0 mA1]|e|] eqn:Hopen; [|discriminate..].
  destruct (hybrid_open _ _ _ _ _ _ _ _ _ _ _ _ _ _ _ HA HB Hneg Hh HsA Hopen) as (hct & root0 & -> & -> & He & Hm & Hrecv).
  erewrite lend_session by apply lookup_insert_eq.
  destruct (encrypt_message_ratcheted _ _ _ _) as [r a1] eqn:Henc. intros [= -> <-].
  destruct (first_hybrid_message _ _ _ _ _ _ _ (rr_session rr) xB (generate seedB) _ _ _ (pu_x _ _ _ _ HB) Hh Henc)
    as (ck & ct & ek & Hah & Hct & -> & ->). set (a0 := sender_session _ _ _ _ _ _) in *.
  set (b0 := receiver_session _ _ _ _ _ _ _) in *.
  destruct (decrypt_ahead (rr_dh rr) a0 b0 ck 0 (mkMessage (sr_nonce rnd) ct plaintext) (ed25519_public skA) Hah)
    as (t & Ht & Han); [split; by vm_compute|by split|by vm_compute|].
  assert (Hpub : our_dh_public a0 = x25519_public (hr_dh (sr_session rnd))) by (unfold a0, sender_session; by destruct (root_key_ratchet_v2 _ _ _)).
  rewrite Hpub in Ht. cbn [mg_nonce mg_ct mg_plain] in Ht. change (Z.of_nat 0) with 0 in Ht.
  assert (Hans : exists ck', ahead (confirm t) (set_sending_chain a0 (chain_at ck 1)) ck' 0).
  { destruct (answer_ahead (rr_dh rr 0%nat) a0 b0 ck 0 t Hah Han) as [ck' [? ? ? ? ? ? ?]]; [..|by exists ck'; split];
      unfold a0, sender_session; destruct (root_key_ratchet_v2 _ _ _); [|by intros; apply lookup_empty|done].
    cbn [their_dh_public]. rewrite (pu_x _ _ _ _ HB). congruence. }
  destruct Hans as [ck' Hans].
  destruct (first_hybrid_read rr skB xB seedB bB bA mB suite th hct root0 skA (sr_nonce rnd) ct _ ek plaintext t
    HsB Hn He Hm Hrecv Ht) as (mB' & Hread & Hget).
  exists (insert_session (insert_session mA peer a0) peer (set_sending_chain a0 (chain_at ck 1))), mB',
    (set_sending_chain a0 (chain_at ck 1)), (confirm t), ck'.
  split; [reflexivity|]. split; [exact Hread|]. split; [apply get_inserted|]. by split.
Qed.

End Theorems.

(** ** Examples *)

Module Examples.
Import Crypto.Sample.
Import Ratchet.Examples.

#[local] Existing Instance release.

Definition send_coins : SendRandom := mkSendRandom coins (nonce_of 7) (key_of 25) (key_of 26) (key_of 27).
Definition recv_coins : RecvRandom := mkRecvRandom (key_of 61) rnds (key_of 62) (fun i => key_of (700 + Z.of_nat i)).

Definition no_sessions : RatchetSessionManager MemoryStorage := manager_new.

Lemma legacy_roundtrip_witness :
  exists env, encrypt_message (key_of 3) (nonce_of 1) (key_of 1) (ed25519_public (key_of 2)) (text 1) = Ok env
    /\ decrypt_with_ratchet_fallback recv_coins (key_of 2) None (WireV1 env) (Some no_sessions) None None None
       = (Ok (text 1), Some no_sessions).
Proof.
  assert (Hok : is_ok (encrypt_message (key_of 3) (nonce_of 1) (key_of 1) (ed25519_public (key_of 2)) (text 1)) = true)
    by (vm_compute; reflexivity).
  destruct (encrypt_message _ _ _ _ _) as [env|e|] eqn:E; [|discriminate Hok..].
  exists env. split; [reflexivity|]. apply (legacy_roundtrip (CL := sample_laws) (key_of 3) (nonce_of 1) (key_of 1));
    [apply zlen_le_split|exact E].
Defined.

Definition plain_send : res string WireEnvelope * SendState (B := MemoryStorage) :=
  encrypt_with_ratchet_fallback send_coins (key_of 1) None (ed25519_public (key_of 2)) (text 1)
    (mkSendState (Some no_sessions) (Some [])) "bob" None None false.

Definition is_plain (r : res string WireEnvelope) : bool :=
  match r with Ok (WireV1 env) => negb (is_ratcheted_envelope env) | _ => false end.

Lemma no_silent_downgrade_witness : sd_audit plain_send.2 = Some ["bob"%string].
Proof.
  assert (Hp : is_plain plain_send.1 = true) by (vm_compute; reflexivity).
  destruct plain_send as [[[env|env]|e|] st'] eqn:E; [|discriminate Hp..]. cbn [fst snd is_plain] in *.
  apply negb_true_iff in Hp. unfold plain_send in E.
  apply (no_silent_downgrade send_coins (key_of 1) None (ed25519_public (key_of 2)) (text 1) _ st' "bob" None None false env E Hp).
Defined.

(** Bob has read Alice's first message; it is delivered to him again. *)
Definition alice_chain : bytes := match sending_chain alice with Some c => chain_key c | None => [] end.

Definition first_ct : bytes := default [] (aead_encrypt (mk_at alice_chain 0) (nonce_of 8) (ed25519_public (key_of 1)) (text 4)).

Definition first_envelope : LegacyEnvelope :=
  mkLegacy (ed25519_public (key_of 1)) (our_dh_public alice) (nonce_of 8) first_ct (Some (our_dh_public alice)) (Some 0).

Definition after_first : RatchetSession := (decrypt_message_ratcheted rnds bob first_envelope).2.

Lemma v1_recovery_unauthenticated_witness :
  (decrypt_message_ratcheted rnds bob first_envelope).1 = Ok (text 4)
  /\ (decrypt_v1 recv_coins (key_of 2) first_envelope
        (insert_session no_sessions (peer_id_of (ed25519_public (key_of 1))) after_first)).1 = Ok (text 4).
Proof.
  split; [vm_compute; reflexivity|].
  apply (v1_recovery_unauthenticated (CL := sample_laws) recv_coins (key_of 2) first_envelope _ after_first
           "Message number is behind current chain position") with (rndA := key_of 11) (skA := key_of 1)
    (ck := alice_chain) (i := 0%nat) (eph := our_dh_public alice) (nonce := nonce_of 8) (ct := first_ct).
  - apply get_inserted.
  - vm_compute. reflexivity.
  - split; [reflexivity|]. split; [reflexivity|]. split; [apply zlen_le_split|reflexivity].
  - done.
Defined.

(** A confirmed hybrid session and an envelope that anyone could have made. *)
Definition confirmed : RatchetSession :=
  mkSession (key_of 5) (key_of 5) (Some (key_of 6)) (key_of 7) None None 1 ∅ true None
    (Some Byte.x03) None true None (Some (generate (key_of 70))) None None (Some [Byte.x01]) None None None 2.

Definition junk_kem : bytes := replicate 1088 Byte.x05.

Definition junk : EnvelopeV2 :=
  mkV2 3 (ed25519_public (key_of 1)) (key_of 6) (nonce_of 9) [] (Some (key_of 6)) (Some 1) (Some junk_kem) (Some [Byte.x09]) None.

Lemma pq_fields_unauthenticated_witness :
  pq_pending_recv (decrypt_message_ratcheted_v2 rnds confirmed junk).2
  = Some (mlkem_decapsulate (priv_key (generate (key_of 70))) junk_kem).
Proof.
  apply (pq_fields_unauthenticated rnds confirmed junk (generate (key_of 70)) junk_kem [Byte.x09] (key_of 6) 1
    "Receiving chain not initialized"); first [reflexivity|apply zlen_le_split|apply zlen_replicate|done|vm_compute; reflexivity].
Defined.

Definition bundle_of (sk x seed : bytes) : PublicKeyBundle :=
  mkBundle (ed25519_public sk) (x25519_public x) (pub_key (generate seed)) None 0 [Byte.x01; Byte.x02; Byte.x03] [] None.

Definition first_send : res string WireEnvelope * SendState (B := MemoryStorage) :=
  encrypt_with_ratchet_fallback send_coins (key_of 1) (Some (bundle_of (key_of 2) (key_of 42) (key_of 43))) [] (text 6)
    (mkSendState (Some no_sessions) None) "bob" (Some (bundle_of (key_of 1) (key_of 41) (key_of 44))) (Some (key_of 41)) true.

Lemma hybrid_first_contact_witness :
  exists w st' manager', first_send = (Ok w, st')
    /\ decrypt_with_ratchet_fallback recv_coins (key_of 2) (Some (key_of 42)) w (Some no_sessions)
         (Some (generate (key_of 43))) (Some (bundle_of (key_of 2) (key_of 42) (key_of 43)))
         (Some (bundle_of (key_of 1) (key_of 41) (key_of 44))) = (Ok (text 6), Some manager').
Proof.
  assert (Hok : is_ok first_send.1 = true) by (vm_compute; reflexivity).
  destruct first_send as [[w|e|] st'] eqn:E; [|discriminate Hok..]. unfold first_send in E.
  destruct (hybrid_first_contact (CL := sample_laws) send_coins recv_coins (key_of 1) (key_of 41) (key_of 44)
    (bundle_of (key_of 1) (key_of 41) (key_of 44)) (key_of 2) (key_of 42) (key_of 43)
    (bundle_of (key_of 2) (key_of 42) (key_of 43)) [] (text 6) no_sessions no_sessions None "bob" true Byte.x03
    (derive_key "iron-core suite-transcript v1"
       ([Byte.x01; Byte.x02; Byte.x03] ++ [Byte.xff] ++ [Byte.x01; Byte.x02; Byte.x03] ++ [Byte.xff] ++ [Byte.x03]
        ++ ed25519_public (key_of 1) ++ ed25519_public (key_of 2))) w st')
    as (mA' & mB' & a & b & ck & _ & Hd & _); [by split|by split|reflexivity|set_solver|reflexivity|reflexivity
      |apply zlen_le_split|by vm_compute|exact E|].
  exists w, st', mB'. split; [reflexivity|exact Hd].
Defined.

End Examples.
