(* ===== verification/Effects.v ===== *)
(** * Stateful services

    What the stores that live behind a [StorageBackend] share: a state monad
    whose computations can fail (the state reached is kept when they do, as the
    source keeps what it wrote before an error), a weakest-precondition calculus
    for it, [serde] codecs as a class with its law, and the string functions of
    the standard library that these stores call. *)

From stdpp Require Import pretty.
From S2P Require Import Prelude.

(** ** Computations that read and write a state and may fail *)

Definition M (W A : Type) : Type := W -> res string A * W.

Definition ret {W A} (a : A) : M W A := fun w => (Ok a, w).

Definition throw {W A} (e : string) : M W A := fun w => (Err e, w).

Definition bind {W A B} (m : M W A) (k : A -> M W B) : M W B := fun w =>
  match m w with
  | (Ok a, w) => k a w
  | (Err e, w) => (Err e, w)
  | (Panic, w) => (Panic, w)
  end.

(** A computation without effect on the state, such as [validate(x)?]. *)
Definition lift {W A} (r : res string A) : M W A := fun w => (r, w).

Definition reads {W A} (f : W -> res string A) : M W A := fun w => (f w, w).

(** An update that may fail and then leaves the state alone. *)
Definition writes {W} (f : W -> res string W) : M W unit := fun w =>
  match f w with
  | Ok w' => (Ok tt, w')
  | Err e => (Err e, w)
  | Panic => (Panic, w)
  end.

(** [call().ok()]: the error is dropped, what the call did is not. *)
Definition try_ok {W A} (m : M W A) : M W (option A) := fun w =>
  match m w with
  | (Ok a, w) => (Ok (Some a), w)
  | (Err _, w) => (Ok None, w)
  | (Panic, w) => (Panic, w)
  end.

(** [call().map_err(|_| e)]. *)
Definition or_throw {W A} (m : M W A) (e : string) : M W A := fun w =>
  match m w with
  | (Err _, w) => (Err e, w)
  | r => r
  end.

Declare Scope eff_scope.
Delimit Scope eff_scope with eff.
#[global] Open Scope eff_scope.

Notation "'let*' x := m 'in' k" := (bind m (fun x => k))
  (at level 10, x name, m at level 100, k at level 200) : eff_scope.
Notation "'let*' ' p := m 'in' k" := (bind m (fun p => k))
  (at level 10, p strict pattern, m at level 100, k at level 200) : eff_scope.

(** [for x in l { acc = f(acc, x)?; }]. *)
Fixpoint mfold {W A B} (f : B -> A -> M W B) (acc : B) (l : list A) : M W B :=
  match l with
  | [] => ret acc
  | x :: l => let* acc' := f acc x in mfold f acc' l
  end.

(** ** Weakest preconditions

    [wp m Q E w]: run from [w], [m] does not panic; if it returns [a] then [Q a]
    holds of the final state, and if it fails with [e] then [E e] does. *)

Definition wp {W A} (m : M W A) (Q : A -> W -> Prop) (E : string -> W -> Prop) (w : W) : Prop :=
  match m w with
  | (Ok a, w') => Q a w'
  | (Err e, w') => E e w'
  | (Panic, _) => False
  end.

Create HintDb wp_db.

Section Wp.
Context {W : Type}.
Implicit Types w : W.

Lemma wp_ret {A} (a : A) Q E w : Q a w -> wp (ret a) Q E w.
Proof. done. Qed.

Lemma wp_throw {A} e (Q : A -> W -> Prop) (E : string -> W -> Prop) w : E e w -> wp (throw e) Q E w.
Proof. done. Qed.

Lemma wp_bind {A B} (m : M W A) (k : A -> M W B) Q E w :
  wp m (fun a w' => wp (k a) Q E w') E w -> wp (bind m k) Q E w.
Proof. unfold wp, bind. by destruct (m w) as [[a|e|] w']. Qed.

Lemma wp_lift {A} (r : res string A) Q E w :
  match r with Ok a => Q a w | Err e => E e w | Panic => False end -> wp (lift r) Q E w.
Proof. by destruct r. Qed.

Lemma wp_reads {A} (f : W -> res string A) Q E w :
  match f w with Ok a => Q a w | Err e => E e w | Panic => False end -> wp (reads f) Q E w.
Proof. unfold wp, reads. by destruct (f w). Qed.

Lemma wp_try_ok {A} (m : M W A) Q E w :
  wp m (fun a w' => Q (Some a) w') (fun _ w' => Q None w') w -> wp (try_ok m) Q E w.
Proof. unfold wp, try_ok. by destruct (m w) as [[a|e|] w']. Qed.

Lemma wp_or_throw {A} (m : M W A) e Q (E : string -> W -> Prop) w :
  wp m Q (fun _ w' => E e w') w -> wp (or_throw m e) Q E w.
Proof. unfold wp, or_throw. by destruct (m w) as [[a|e'|] w']. Qed.

Lemma wp_mono {A} (m : M W A) (Q Q' : A -> W -> Prop) (E E' : string -> W -> Prop) w :
  wp m Q E w -> (forall a w', Q a w' -> Q' a w') -> (forall e w', E e w' -> E' e w') -> wp m Q' E' w.
Proof. unfold wp. destruct (m w) as [[a|e|] w']; eauto. Qed.

(** A loop, with an invariant over the elements that are left. *)
Lemma wp_mfold {A B} (f : B -> A -> M W B) (I : B -> list A -> W -> Prop) (E : string -> W -> Prop) l acc w :
  I acc l w ->
  (forall b x l' w', I b (x :: l') w' -> wp (f b x) (fun b' w'' => I b' l' w'') E w') ->
  wp (mfold f acc l) (fun b w' => I b [] w') E w.
Proof.
  intros HI Hf. revert acc w HI. induction l as [|x l IH]; intros acc w HI; [done|].
  cbn [mfold]. apply wp_bind. eapply wp_mono; [by apply Hf|cbn; eauto|done].
Qed.

(** What a run that returned did. *)
Lemma wp_ok_inv {A} (m : M W A) Q E w a w' : wp m Q E w -> m w = (Ok a, w') -> Q a w'.
Proof. unfold wp. intros H Hm. by rewrite Hm in H. Qed.

Lemma wp_snd {A} (m : M W A) (P : W -> Prop) w : wp m (fun _ => P) (fun _ => P) w -> P (m w).2.
Proof. unfold wp. by destruct (m w) as [[a|e|] w']. Qed.

Lemma wp_run {A} (m : M W A) Q w : wp m Q (fun _ _ => False) w -> exists a w', m w = (Ok a, w') /\ Q a w'.
Proof. unfold wp. destruct (m w) as [[a|e|] w']; [eauto|done|done]. Qed.

Lemma wp_fails {A} (m : M W A) E w :
  wp m (fun _ _ => False) E w -> exists e w', m w = (Err e, w') /\ E e w'.
Proof. unfold wp. destruct (m w) as [[a|e|] w']; [done|eauto|done]. Qed.

Lemma bind_ok_inv {A B} (m : M W A) (k : A -> M W B) w b w' :
  bind m k w = (Ok b, w') -> exists a w1, m w = (Ok a, w1) /\ k a w1 = (Ok b, w').
Proof. unfold bind. destruct (m w) as [[a|e|] w1]; naive_solver. Qed.

End Wp.

(** Steps through a computation, leaving calls of named operations. *)
Ltac wp_step :=
  match goal with
  | |- wp (bind _ _) _ _ _ => apply wp_bind
  | |- wp (ret _) _ _ _ => apply wp_ret
  | |- wp (throw _) _ _ _ => apply wp_throw
  | |- wp (lift _) _ _ _ => apply wp_lift
  | |- wp (reads _) _ _ _ => apply wp_reads
  | |- wp (try_ok _) _ _ _ => apply wp_try_ok
  | |- wp (or_throw _ _) _ _ _ => apply wp_or_throw
  end.
Ltac wp_steps := repeat wp_step.

(** ** Serialization

    A type that [bincode] or [serde_json] can write and read back; the texts of
    their errors are left out. *)

Class Codec (A : Type) : Type := {
  enc : A -> option bytes;
  dec : bytes -> option A;
}.

(** Every value is written, and what is written is read back as it was. *)
Class LawfulCodec (A : Type) {C : Codec A} : Prop :=
  enc_dec : forall a, exists b, enc a = Some b /\ dec b = Some a.

(** A concrete codec for any countable type, for examples. *)
Definition any_codec {A} `{Countable A} : Codec A :=
  {| enc a := Some (enc_any a); dec b := match dec_any b with Ok a => Some a | _ => None end |}.

Lemma any_codec_lawful {A} `{Countable A} : LawfulCodec A (C := any_codec).
Proof. intros a. exists (enc_any a). split; [done|]. cbn. by rewrite dec_enc_any. Qed.

(** [.map_err(|_| e)?] of a fallible call and [.ok_or(e)?]. *)
Definition ok_or {A} (o : option A) (e : string) : res string A :=
  match o with Some a => Ok a | None => Err e end.

(** ** Strings, as UTF-8 bytes *)

Definition of_bytes (l : bytes) : string := String.string_of_list_byte l.

Lemma str_bytes_of_bytes l : str_bytes (of_bytes l) = l.
Proof. apply String.list_byte_of_string_of_list_byte. Qed.

Lemma of_bytes_str_bytes s : of_bytes (str_bytes s) = s.
Proof. apply String.string_of_list_byte_of_string. Qed.

#[export] Instance str_bytes_inj : Inj (=) (=) str_bytes.
Proof. intros s t H. by rewrite <-(of_bytes_str_bytes s), <-(of_bytes_str_bytes t), H. Qed.

(** The characters with the Unicode property White_Space, by the length of their encoding. *)
Definition ws1 (a : byte) : bool :=
  let a := byte.unsigned a in ((9 <=? a) && (a <=? 13)) || (a =? 32).
Definition ws2 (a b : byte) : bool :=
  (byte.unsigned a =? 0xC2) && ((byte.unsigned b =? 0x85) || (byte.unsigned b =? 0xA0)).
Definition ws3 (a b c : byte) : bool :=
  let '(a, b, c) := (byte.unsigned a, byte.unsigned b, byte.unsigned c) in
  ((a =? 0xE1) && (b =? 0x9A) && (c =? 0x80)) ||
  ((a =? 0xE2) && (b =? 0x80) && (((0x80 <=? c) && (c <=? 0x8A)) || (c =? 0xA8) || (c =? 0xA9) || (c =? 0xAF))) ||
  ((a =? 0xE2) && (b =? 0x81) && (c =? 0x9F)) ||
  ((a =? 0xE3) && (b =? 0x80) && (c =? 0x80)).

Fixpoint strip (w2 : byte -> byte -> bool) (w3 : byte -> byte -> byte -> bool) (l : bytes) : bytes :=
  match l with
  | [] => []
  | a :: l1 =>
      if ws1 a then strip w2 w3 l1
      else match l1 with
           | [] => l
           | b :: l2 =>
               if w2 a b then strip w2 w3 l2
               else match l2 with
                    | [] => l
                    | c :: l3 => if w3 a b c then strip w2 w3 l3 else l
                    end
           end
  end.

(** [str::trim]. *)
Definition trim (s : string) : string :=
  of_bytes (reverse (strip (fun b a => ws2 a b) (fun c b a => ws3 a b c)
    (reverse (strip ws2 ws3 (str_bytes s))))).

(** [str::to_lowercase] where only the ASCII part of the result matters: every
    caller rejects a result that is not made of hexadecimal digits, and no other
    character has a lower-case form made of those. *)
Definition lower_byte (a : byte) : byte :=
  if (65 <=? byte.unsigned a) && (byte.unsigned a <=? 90) then byte.of_Z (byte.unsigned a + 32) else a.

Definition to_lowercase (s : string) : string := of_bytes (lower_byte <$> str_bytes s).

(** [u8::is_ascii_hexdigit]. *)
Definition is_ascii_hexdigit (a : byte) : bool :=
  let a := byte.unsigned a in
  ((48 <=? a) && (a <=? 57)) || ((65 <=? a) && (a <=? 70)) || ((97 <=? a) && (a <=? 102)).

Definition str_len (s : string) : Z := zlen (str_bytes s).

Lemma str_len_lower s : str_len (to_lowercase s) = str_len s.
Proof. unfold str_len, to_lowercase, zlen. by rewrite str_bytes_of_bytes, length_fmap. Qed.

(** [str::parse::<u64>]: decimal digits after an optional plus sign, in range. *)
Fixpoint digits (acc : Z) (l : bytes) : option Z :=
  match l with
  | [] => Some acc
  | a :: l =>
      let d := byte.unsigned a - 48 in
      if (0 <=? d) && (d <=? 9)
      then let acc := 10 * acc + d in if acc <=? u64_max then digits acc l else None
      else None
  end.

Definition parse_u64 (s : string) : option Z :=
  match str_bytes s with
  | [] => None
  | a :: l =>
      if byte.unsigned a =? 43 then match l with [] => None | _ => digits 0 l end
      else digits 0 (a :: l)
  end.

(** [{:0n}] of an unsigned integer. *)
Definition zero_pad (n : nat) (z : Z) : string :=
  let s := pretty z in of_bytes (replicate (n - String.length s) Byte.x30) +:+ s.

(** ** Lemmas on strings *)

Lemma str_bytes_app s t : str_bytes (s +:+ t) = str_bytes s ++ str_bytes t.
Proof.
  unfold str_bytes. induction s as [|a s IH]; [done|].
  change (String.list_byte_of_string (String a s +:+ t)) with (Ascii.byte_of_ascii a :: String.list_byte_of_string (s +:+ t)).
  by rewrite IH.
Qed.

Lemma strip_id w2 w3 l :
  Forall (fun a => ws1 a = false /\ (forall b, w2 a b = false) /\ (forall b c, w3 a b c = false)) l ->
  strip w2 w3 l = l.
Proof.
  destruct l as [|a l]; [done|]. intros [(H1 & H2 & H3) Hl]%Forall_cons. cbn. rewrite H1.
  destruct l as [|b [|c l]]; [done| |]; by rewrite ?H2, ?H3.
Qed.

(** A byte that starts or ends no white space: every ASCII byte that is not white space. *)
Lemma ascii_ws2 a b : byte.unsigned a < 128 -> ws2 a b = false /\ ws2 b a = false.
Proof.
  intros. unfold ws2. split; apply andb_false_iff; [left; apply Z.eqb_neq; lia|right].
  apply orb_false_iff. split; apply Z.eqb_neq; lia.
Qed.

Lemma ascii_ws3 a b c : byte.unsigned a < 128 -> ws3 a b c = false /\ ws3 c b a = false.
Proof.
  intros. unfold ws3. split.
  - rewrite (proj2 (Z.eqb_neq (byte.unsigned a) 0xE1)), (proj2 (Z.eqb_neq (byte.unsigned a) 0xE2)),
      (proj2 (Z.eqb_neq (byte.unsigned a) 0xE3)) by lia. done.
  - rewrite (proj2 (Z.eqb_neq (byte.unsigned a) 0x80)), (proj2 (Z.leb_gt 0x80 (byte.unsigned a))),
      (proj2 (Z.eqb_neq (byte.unsigned a) 0xA8)), (proj2 (Z.eqb_neq (byte.unsigned a) 0xA9)),
      (proj2 (Z.eqb_neq (byte.unsigned a) 0xAF)), (proj2 (Z.eqb_neq (byte.unsigned a) 0x9F)) by lia.
    by rewrite !andb_false_r.
Qed.

Definition plain (a : byte) : Prop := byte.unsigned a < 128 /\ ws1 a = false.

Lemma trim_plain s : Forall plain (str_bytes s) -> trim s = s.
Proof.
  intros H. unfold trim. rewrite (strip_id ws2 ws3), (strip_id (fun b a => ws2 a b)).
  - by rewrite reverse_involutive, of_bytes_str_bytes.
  - apply Forall_reverse. eapply Forall_impl; [exact H|]. intros a [Ha H1].
    split_and!; [done|intros b; by apply (ascii_ws2 a b)|intros b c; by apply (ascii_ws3 a b c)].
  - eapply Forall_impl; [exact H|]. intros a [Ha H1].
    split_and!; [done|intros b; by apply (ascii_ws2 a b)|intros b c; by apply (ascii_ws3 a b c)].
Qed.

Lemma hexdigit_plain a : is_ascii_hexdigit a = true -> plain a.
Proof.
  unfold is_ascii_hexdigit, plain, ws1. intros H. rewrite !orb_true_iff, !andb_true_iff, !Z.leb_le in H.
  split; [lia|]. apply orb_false_iff. rewrite andb_false_iff, !Z.leb_gt, Z.eqb_neq. lia.
Qed.

Lemma lower_byte_hex a : is_ascii_hexdigit a = true -> is_ascii_hexdigit (lower_byte a) = true.
Proof.
  intros H. unfold lower_byte. case_if; [|done]. bool_to_prop. unfold is_ascii_hexdigit in *.
  rewrite byte.unsigned_of_Z. rewrite !orb_true_iff, !andb_true_iff, !Z.leb_le in *.
  unfold byte.wrap. rewrite Z.mod_small by lia. lia.
Qed.

Lemma lower_byte_idemp a : lower_byte (lower_byte a) = lower_byte a.
Proof.
  destruct ((65 <=? byte.unsigned a) && (byte.unsigned a <=? 90)) eqn:C; unfold lower_byte; rewrite C; [|by rewrite C].
  bool_to_prop. rewrite byte.unsigned_of_Z. unfold byte.wrap. rewrite Z.mod_small by lia.
  case_if; [|done]. bool_to_prop. lia.
Qed.

Lemma to_lowercase_idemp s : to_lowercase (to_lowercase s) = to_lowercase s.
Proof.
  unfold to_lowercase. rewrite str_bytes_of_bytes, <-list_fmap_compose. f_equal.
  apply list_fmap_ext. intros _ a _. apply lower_byte_idemp.
Qed.

(** ** Loops *)

Lemma mfold_app {W A B} (f : B -> A -> M W B) acc l1 l2 w :
  mfold f acc (l1 ++ l2) w = bind (mfold f acc l1) (fun acc => mfold f acc l2) w.
Proof.
  revert acc w. induction l1 as [|x l1 IH]; intros acc w; [done|].
  cbn [app mfold]. unfold bind at 1 2 3. destruct (f acc x w) as [[acc'|e|] w']; [apply IH|done|done].
Qed.

Lemma mfold_fmap {W A A' B} (f : B -> A' -> M W B) (g : A -> A') acc l w :
  mfold f acc (g <$> l) w = mfold (fun acc x => f acc (g x)) acc l w.
Proof.
  revert acc w. induction l as [|x l IH]; intros acc w; [done|].
  cbn [fmap list_fmap mfold]. unfold bind. destruct (f acc (g x) w) as [[acc'|e|] w']; [apply IH|done|done].
Qed.

Lemma bind_ret_l {W A B} (a : A) (k : A -> M W B) w : bind (ret a) k w = k a w.
Proof. done. Qed.

Lemma bind_assoc {W A B C} (m : M W A) (k : A -> M W B) (h : B -> M W C) w :
  bind (bind m k) h w = bind m (fun a => bind (k a) h) w.
Proof. unfold bind. by destruct (m w) as [[a|e|] w']. Qed.

Lemma bind_ext {W A B} (m : M W A) (k k' : A -> M W B) w :
  (forall a w', m w = (Ok a, w') -> k a w' = k' a w') -> bind m k w = bind m k' w.
Proof. unfold bind. destruct (m w) as [[a|e|] w']; auto. Qed.

(** What a computation that returned is bound to. *)
Lemma bind_run {W A B} (m : M W A) (k : A -> M W B) w a w' : m w = (Ok a, w') -> bind m k w = k a w'.
Proof. unfold bind. by intros ->. Qed.

(** *** Decimal numbers *)

Definition digit (a : byte) : Prop := 48 <= byte.unsigned a <= 57.

Lemma pretty_N_char_digit (x : N) : (x < 10)%N ->
  exists a, str_bytes (String.String (pretty_N_char x) "") = [a] /\ byte.unsigned a = Z.of_N x + 48.
Proof.
  intros Hx. assert (exists k, (k < 10)%nat /\ x = N.of_nat k) as (k & Hk & ->) by (exists (N.to_nat x); lia).
  do 10 (destruct k as [|k]; [by eexists|]). lia.
Qed.

Lemma str_bytes_cons c s : str_bytes (String.String c s) = str_bytes (String.String c "") ++ str_bytes s.
Proof. apply (str_bytes_app (String.String c "") s). Qed.

(** Reading on after the digits of [x] is reading on with [x] as the value so far. *)
Lemma digits_pretty_go (x : N) s : Z.of_N x <= u64_max ->
  digits 0 (str_bytes (pretty_N_go x s)) = digits (Z.of_N x) (str_bytes s).
Proof.
  revert s. induction (N.lt_wf_0 x) as [x _ IH]. intros s Hx.
  destruct (decide (x = 0)%N) as [->|Hn]; [by rewrite pretty_N_go_0|].
  rewrite pretty_N_go_step by lia. pose proof (N.div_mod x 10 ltac:(lia)) as Hdm.
  pose proof (N.mod_lt x 10 ltac:(lia)) as Hm. pose proof (N.div_lt x 10 ltac:(lia) ltac:(lia)) as Hq.
  set (q := (x `div` 10)%N) in *. set (r := (x `mod` 10)%N) in *. clearbody q r. rewrite IH by lia.
  rewrite str_bytes_cons. destruct (pretty_N_char_digit r Hm) as (a & -> & Ha). cbn [app digits].
  rewrite Ha. replace (Z.of_N r + 48 - 48) with (Z.of_N r) by lia.
  rewrite (proj2 (Z.leb_le 0 _)), (proj2 (Z.leb_le _ 9)) by lia. cbn [andb].
  replace (10 * Z.of_N q + Z.of_N r) with (Z.of_N x) by lia. by rewrite (proj2 (Z.leb_le _ _)).
Qed.

Lemma pretty_go_digits (x : N) s : Forall digit (str_bytes s) -> Forall digit (str_bytes (pretty_N_go x s)).
Proof.
  revert s. induction (N.lt_wf_0 x) as [x _ IH]. intros s Hs.
  destruct (decide (x = 0)%N) as [->|Hn]; [by rewrite pretty_N_go_0|].
  rewrite pretty_N_go_step by lia. apply IH; [apply N.div_lt; lia|]. rewrite str_bytes_cons.
  pose proof (N.mod_lt x 10 ltac:(lia)) as Hm. destruct (pretty_N_char_digit (x `mod` 10)%N Hm) as (a & -> & Ha).
  set (r := (x `mod` 10)%N) in *. clearbody r. constructor; [unfold digit; lia|done].
Qed.

(** [z.to_string().parse::<u64>()]. *)
Lemma parse_pretty z : in_u 64 z -> parse_u64 (pretty z) = Some z /\ Forall digit (str_bytes (pretty z)).
Proof.
  intros Hz. assert (exists x, z = Z.of_N x) as [x ->] by (exists (Z.to_N z); unfold in_u in Hz; lia).
  assert (pretty (Z.of_N x) = pretty x) as ->.
  { unfold pretty at 1, pretty_Z. destruct x; [done|]. done. }
  assert (digits 0 (str_bytes (pretty x)) = Some (Z.of_N x) /\ Forall digit (str_bytes (pretty x)) /\ str_bytes (pretty x) <> [])
    as (Hd & Hf & Hn).
  { unfold pretty, pretty_N. destruct (decide (x = 0)%N) as [->|Hx].
    - split_and!; [done| |done]. by repeat constructor.
    - split_and!; [rewrite digits_pretty_go; [done|unfold u64_max; unfold in_u in Hz; lia]|by apply pretty_go_digits|].
      intros He. pose proof (digits_pretty_go x "" ltac:(unfold u64_max; unfold in_u in Hz; lia)) as Hg. rewrite He in Hg.
      injection Hg as Hg. lia. }
  split; [|done]. unfold parse_u64. destruct (str_bytes (pretty x)) as [|a l]; [done|].
  apply Forall_cons in Hf as [Ha _]. unfold digit in Ha. by rewrite (proj2 (Z.eqb_neq _ 43)) by lia.
Qed.
