(* ===== verification/KvStore.v ===== *)
(** * Storage as an effect

    The calls that managers over a [StorageBackend] make, with the errors that the
    source maps them to, and their rules over a lawful backend.  The state of a
    manager is its backend. *)

From S2P Require Import Prelude Backend Effects.

Section Kv.
Context {B : Type} {SB : StorageBackend B}.

(** [self.backend.op(..).map_err(|_| IronCoreError::StorageError)?]. *)
Definition kv_put (k v : bytes) : M B unit := or_throw (writes (fun b => be_put b k v)) "StorageError".
Definition kv_get (k : bytes) : M B (option bytes) := or_throw (reads (fun b => be_get b k)) "StorageError".
Definition kv_remove (k : bytes) : M B unit := or_throw (writes (fun b => be_remove b k)) "StorageError".
Definition kv_scan (p : bytes) : M B (list (bytes * bytes)) :=
  or_throw (reads (fun b => be_scan_prefix b p)) "StorageError".

(** [serde_json::to_vec(..).map_err(|_| IronCoreError::Internal)?] and its inverse. *)
Definition kv_enc {A} `{Codec A} (a : A) : M B bytes := lift (ok_or (enc a) "Internal"%string).
Definition kv_dec {A} `{Codec A} (v : bytes) : M B A := lift (ok_or (dec v) "Internal"%string).

Context {LB : LawfulBackend B}.
Implicit Types b : B.

(** The entries under a prefix. *)
Definition under (p : bytes) b : gmap bytes bytes := filter (fun kv => starts_with p kv.1 = true) (be_view b).

Lemma under_put p b b' k v :
  starts_with p k = true -> be_view b' = <[k := v]> (be_view b) -> under p b' = <[k := v]> (under p b).
Proof. intros Hk H. unfold under. rewrite H. by apply map_filter_insert_True. Qed.

Lemma under_put_other p b b' k v :
  starts_with p k = false -> be_view b' = <[k := v]> (be_view b) -> under p b' = under p b.
Proof.
  intros Hk H. unfold under. rewrite H. apply map_eq. intros k'. apply option_eq. intros v'.
  rewrite !map_lookup_filter_Some. cbn [fst]. split; intros [Hv Hp]; (split; [|done]).
  - rewrite lookup_insert_ne in Hv by (intros ->; congruence). done.
  - rewrite lookup_insert_ne by (intros ->; congruence). done.
Qed.

Lemma under_remove p b b' k : be_view b' = delete k (be_view b) -> under p b' = delete k (under p b).
Proof. intros H. unfold under. rewrite H. apply map_filter_delete. Qed.

Lemma under_lookup p b k : starts_with p k = true -> under p b !! k = be_view b !! k.
Proof.
  intros Hk. apply option_eq. intros v. unfold under. rewrite map_lookup_filter_Some. cbn [fst]. tauto.
Qed.

Lemma wp_kv_put k v (Q : unit -> B -> Prop) E b :
  (forall b', be_view b' = <[k := v]> (be_view b) -> Q tt b') -> wp (kv_put k v) Q E b.
Proof.
  intros H. unfold kv_put. apply wp_or_throw. unfold wp, writes.
  destruct (be_put_law b k v) as (b' & -> & Hv). by apply H.
Qed.

Lemma wp_kv_get k (Q : option bytes -> B -> Prop) E b : Q (be_view b !! k) b -> wp (kv_get k) Q E b.
Proof. intros H. unfold kv_get. apply wp_or_throw, wp_reads. by rewrite be_get_law. Qed.

Lemma wp_kv_remove k (Q : unit -> B -> Prop) E b :
  (forall b', be_view b' = delete k (be_view b) -> Q tt b') -> wp (kv_remove k) Q E b.
Proof.
  intros H. unfold kv_remove. apply wp_or_throw. unfold wp, writes.
  destruct (be_remove_law b k) as (b' & -> & Hv). by apply H.
Qed.

Lemma wp_kv_scan p (Q : list (bytes * bytes) -> B -> Prop) E b :
  (forall l, l ≡ₚ map_to_list (under p b) -> Q l b) -> wp (kv_scan p) Q E b.
Proof.
  intros H. unfold kv_scan. apply wp_or_throw, wp_reads.
  destruct (be_scan_law b p) as (l & Hl & Hp). rewrite Hl. apply H. apply NoDup_Permutation.
  - eapply NoDup_fmap_1, NoDup_scan. exact Hl.
  - apply NoDup_map_to_list.
  - intros [k v]. rewrite (elem_of_scan _ _ _ _ _ Hl), elem_of_map_to_list. unfold under.
    rewrite map_lookup_filter_Some. cbn [fst]. tauto.
Qed.

Lemma kv_scan_run p b : exists l, kv_scan p b = (Ok l, b) /\ l ≡ₚ map_to_list (under p b).
Proof.
  destruct (wp_run (kv_scan p) (fun l b' => l ≡ₚ map_to_list (under p b) /\ b' = b) b) as (l & b' & H & Hp & ->);
    [|by exists l]. by apply wp_kv_scan.
Qed.

Lemma wp_kv_enc {A} `{CA : Codec A} {LA : LawfulCodec A} (a : A) (Q : bytes -> B -> Prop) E b :
  (forall v, enc a = Some v -> dec v = Some a -> Q v b) -> wp (kv_enc a) Q E b.
Proof. intros H. unfold kv_enc. destruct (enc_dec a) as (v & Hv & Hd). rewrite Hv. apply wp_lift. by apply H. Qed.

Lemma wp_kv_dec {A} `{CA : Codec A} v (a : A) (Q : A -> B -> Prop) E b :
  dec v = Some a -> Q a b -> wp (kv_dec v) Q E b.
Proof. intros Hd H. unfold kv_dec. rewrite Hd. by apply wp_lift. Qed.

End Kv.

Section KvRun.
Context {B : Type} {SB : StorageBackend B} {LB : LawfulBackend B}.
Implicit Types b : B.

Lemma kv_get_run k b : kv_get k b = (Ok (be_view b !! k), b).
Proof. unfold kv_get, or_throw, reads. by rewrite be_get_law. Qed.

Lemma kv_put_run k v b : exists b', kv_put k v b = (Ok tt, b') /\ be_view b' = <[k := v]> (be_view b).
Proof.
  destruct (be_put_law b k v) as (b' & H & Hv). exists b'. unfold kv_put, or_throw, writes. by rewrite H.
Qed.

Lemma kv_remove_run k b : exists b', kv_remove k b = (Ok tt, b') /\ be_view b' = delete k (be_view b).
Proof.
  destruct (be_remove_law b k) as (b' & H & Hv). exists b'. unfold kv_remove, or_throw, writes. by rewrite H.
Qed.

(** Removing the keys of a list, one call after the other. *)
Lemma remove_all_run {X} (key : X -> bytes) l b : exists b',
  mfold (fun _ x => kv_remove (key x)) tt l b = (Ok tt, b') /\
  forall k, be_view b' !! k = if decide (k ∈ key <$> l) then None else be_view b !! k.
Proof.
  revert b. induction l as [|x l IH]; intros b.
  { exists b. split; [done|]. intros k. rewrite decide_False; [done|apply not_elem_of_nil]. }
  destruct (kv_remove_run (key x) b) as (b1 & H1 & Hv1). destruct (IH b1) as (b2 & H2 & Hv2).
  exists b2. split; [cbn [mfold]; by rewrite (bind_run _ _ _ _ _ H1)|]. intros k. rewrite Hv2, Hv1, fmap_cons.
  destruct (decide (k = key x)) as [->|Hne].
  - rewrite lookup_delete_eq. rewrite (decide_True (P := key x ∈ key x :: _)) by left. by case_decide.
  - rewrite lookup_delete_ne by done. destruct (decide (k ∈ key <$> l)) as [Hin|Hin].
    + by rewrite decide_True by (by right).
    + by rewrite decide_False by (rewrite elem_of_cons; tauto).
Qed.

End KvRun.
