(* ===== verification/Ids.v ===== *)
(** * Identifiers ([core/src/identity/keys.rs], [core/src/store/blocked.rs])

    The spellings under which one peer appears: the hexadecimal of its public key, the
    identity id (a hash of the key), both with a prefix that says which it is, and the
    libp2p peer id.  Hexadecimal, hashes, curve points, UUIDs and peer ids are third-party
    code and parameters. *)

From S2P Require Import Prelude Effects.

(** Third-party identifiers and hashes. *)
Class IdLib : Type := {
  uuid_version : string -> option Z;      (** [Uuid::parse_str(s)] and [get_version_num] *)
  hex_decode : string -> option bytes;
  hex_encode : bytes -> string;
  blake3_hash : bytes -> bytes;
}.

(** Third-party keys: whether bytes are an Ed25519 point, the Ed25519 key that a libp2p
    peer id carries in line, and base 58. *)
Class KeyLib : Type := {
  ed_point : bytes -> bool;
  peer_id_key : string -> option bytes;
  bs58_decode : string -> option bytes;
}.

(** What the [hex] crate documents: lower-case digits, two for each byte, and reading that
    does not mind the case. *)
Class LawfulHex {IL : IdLib} : Prop := {
  hex_encode_digits : forall l, Forall (fun a => is_ascii_hexdigit a = true) (str_bytes (hex_encode l));
  hex_encode_lower : forall l, to_lowercase (hex_encode l) = hex_encode l;
  hex_encode_len : forall l, str_len (hex_encode l) = 2 * zlen l;
  hex_decode_encode : forall l, hex_decode (hex_encode l) = Some l;
  hex_decode_lower : forall s, hex_decode (to_lowercase s) = hex_decode s;
}.

Definition PUBLIC_KEY_PREFIX : string := "pk:".
Definition IDENTITY_ID_PREFIX : string := "id:".

Definition is_valid_identity_id (hex_str : string) : bool :=
  (str_len hex_str =? 64) && forallb is_ascii_hexdigit (str_bytes hex_str).

(** [str::strip_prefix]. *)
Fixpoint strip_prefix (p s : string) : option string :=
  match p, s with
  | EmptyString, _ => Some s
  | String a p, String b s => if decide (a = b) then strip_prefix p s else None
  | String _ _, EmptyString => None
  end.

Section Ids.
Context {IL : IdLib} {KL : KeyLib}.

Definition is_valid_public_key (hex_str : string) : bool :=
  if negb (str_len hex_str =? 64) || negb (forallb is_ascii_hexdigit (str_bytes hex_str)) then false
  else match hex_decode hex_str with
       | Some bytes => (zlen bytes =? 32) && ed_point bytes
       | None => false
       end.

Definition identity_id_from_public_key_hex (public_key_hex : string) : option string :=
  if negb (is_valid_public_key public_key_hex) then None
  else (fun bytes => hex_encode (blake3_hash bytes)) <$> hex_decode public_key_hex.

Definition identify_key_type (hex_str : string) : string :=
  if is_valid_public_key hex_str then "public_key"
  else if is_valid_identity_id hex_str then "identity_id" else "unknown".

Definition public_key_hex_from_peer_id (peer_id : string) : option string := hex_encode <$> peer_id_key peer_id.

End Ids.

Inductive IdentifierFlavor : Type := Legacy | PublicKey | IdentityId.

#[global] Instance IdentifierFlavor_eq_dec : EqDecision IdentifierFlavor.
Proof. solve_decision. Defined.

Definition split_identifier_flavor (peer_id : string) : string * IdentifierFlavor :=
  match strip_prefix PUBLIC_KEY_PREFIX peer_id with
  | Some raw => (raw, PublicKey)
  | None =>
      match strip_prefix IDENTITY_ID_PREFIX peer_id with
      | Some raw => (raw, IdentityId)
      | None => (peer_id, Legacy)
      end
  end.

Definition push_unique (identifiers : list string) (identifier : string) : list string :=
  if existsb (String.eqb identifier) identifiers then identifiers else identifiers ++ [identifier].

Lemma strip_prefix_app p s : strip_prefix p (p +:+ s) = Some s.
Proof.
  induction p as [|a p IH]; [done|]. change (String a p +:+ s) with (String a (p +:+ s)).
  cbn [strip_prefix]. by rewrite decide_True.
Qed.

Lemma split_public_key k : split_identifier_flavor (PUBLIC_KEY_PREFIX +:+ k) = (k, PublicKey).
Proof. done. Qed.

Lemma split_identity_id i : split_identifier_flavor (IDENTITY_ID_PREFIX +:+ i) = (i, IdentityId).
Proof. done. Qed.

Lemma elem_of_push_unique l x y : y ∈ push_unique l x <-> y ∈ l \/ y = x.
Proof.
  unfold push_unique. destruct (existsb (String.eqb x) l) eqn:E.
  - apply existsb_exists in E as (z & Hz & ->%String.eqb_eq). apply list_elem_of_In in Hz. naive_solver.
  - rewrite elem_of_app, list_elem_of_singleton. done.
Qed.

(** ** A concrete library, for examples *)

Module SampleIds.

Definition hex_digit (n : Z) : byte := byte.of_Z (if n <? 10 then 48 + n else 87 + n).

Definition hex_value (a : byte) : option Z :=
  let a := byte.unsigned a in
  if (48 <=? a) && (a <=? 57) then Some (a - 48)
  else if (97 <=? a) && (a <=? 102) then Some (a - 87)
  else if (65 <=? a) && (a <=? 70) then Some (a - 55) else None.

Fixpoint hex_bytes (l : bytes) : option bytes :=
  match l with
  | [] => Some []
  | [_] => None
  | a :: b :: l =>
      match hex_value a, hex_value b, hex_bytes l with
      | Some x, Some y, Some r => Some (byte.of_Z (16 * x + y) :: r)
      | _, _, _ => None
      end
  end.

(** Hashing reverses, and a point starts with the byte 0x0a. *)
#[export] Instance sample_ids : IdLib :=
  {| uuid_version s := if str_len s =? 36 then (fun b => byte.unsigned b - 48) <$> (str_bytes s !! 14%nat) else None;
     hex_decode s := hex_bytes (str_bytes s);
     hex_encode l := of_bytes (l ≫= fun a => [hex_digit (byte.unsigned a / 16); hex_digit (byte.unsigned a mod 16)]);
     blake3_hash := reverse |}.

#[export] Instance sample_keys : KeyLib :=
  {| ed_point l := bool_decide (head l = Some Byte.x0a);
     peer_id_key s := match strip_prefix "12D3" s with Some r => hex_bytes (str_bytes r) | None => None end;
     bs58_decode s := match strip_prefix "12D3" s with
       | Some r => (fun k => [Byte.x00; Byte.x24; Byte.x08; Byte.x01; Byte.x12; Byte.x20] ++ k) <$> hex_bytes (str_bytes r)
       | None => match strip_prefix "Qm" s with Some r => hex_bytes (str_bytes r) | None => None end
       end |}.

Lemma hex_digit_ok n : 0 <= n < 16 ->
  is_ascii_hexdigit (hex_digit n) = true /\ lower_byte (hex_digit n) = hex_digit n /\ hex_value (hex_digit n) = Some n.
Proof.
  intros Hn. assert (exists k, (k < 16)%nat /\ n = Z.of_nat k) as (k & Hk & ->) by (exists (Z.to_nat n); lia).
  do 16 (destruct k as [|k]; [done|]). lia.
Qed.

Lemma hex_value_lower a : hex_value (lower_byte a) = hex_value a.
Proof. by destruct a. Qed.

Lemma byte_nibbles a : 0 <= byte.unsigned a / 16 < 16 /\ 0 <= byte.unsigned a mod 16 < 16 /\
  byte.of_Z (16 * (byte.unsigned a / 16) + byte.unsigned a mod 16) = a.
Proof.
  pose proof (byte.unsigned_range a). split_and!; [apply Z.div_pos; lia|apply Z.div_lt_upper_bound; lia|
    apply Z.mod_pos_bound; lia..|]. rewrite <-Z.div_mod by lia. apply byte.of_Z_unsigned.
Qed.

Lemma hex_bytes_lower l : hex_bytes (lower_byte <$> l) = hex_bytes l.
Proof.
  induction l as [l IH] using (induction_ltof1 _ length). destruct l as [|a [|b l]]; [done|done|].
  cbn [fmap list_fmap hex_bytes]. rewrite !hex_value_lower. change (list_fmap _ _ lower_byte l) with (lower_byte <$> l).
  rewrite IH; [done|]. unfold ltof. cbn. lia.
Qed.

#[export] Instance sample_hex : LawfulHex.
Proof.
  split; cbn [hex_encode hex_decode sample_ids].
  - intros l. rewrite str_bytes_of_bytes. apply Forall_forall. intros x (a & Hx & _)%list_elem_of_bind.
    destruct (byte_nibbles a) as (H1 & H2 & _). rewrite elem_of_cons, list_elem_of_singleton in Hx.
    destruct Hx as [-> | ->]; by apply hex_digit_ok.
  - intros l. unfold to_lowercase. rewrite str_bytes_of_bytes. f_equal. induction l as [|a l IH]; [done|].
    destruct (byte_nibbles a) as (H1 & H2 & _). rewrite bind_cons, fmap_app, IH. f_equal. cbn [fmap list_fmap].
    by rewrite (proj1 (proj2 (hex_digit_ok _ H1))), (proj1 (proj2 (hex_digit_ok _ H2))).
  - intros l. unfold str_len, zlen. rewrite str_bytes_of_bytes. induction l as [|a l IH]; [done|].
    rewrite bind_cons, length_app. cbn [length]. lia.
  - intros l. rewrite str_bytes_of_bytes. induction l as [|a l IH]; [done|].
    destruct (byte_nibbles a) as (H1 & H2 & H3). rewrite bind_cons. cbn [app hex_bytes].
    rewrite (proj2 (proj2 (hex_digit_ok _ H1))), (proj2 (proj2 (hex_digit_ok _ H2))). by rewrite IH, H3.
  - intros t. unfold to_lowercase. rewrite str_bytes_of_bytes. apply hex_bytes_lower.
Qed.

Definition KEY : string := "0a23456789abcdef0123456789abcdef0123456789abcdef0123456789abcdef".
Definition ID : string := "efcdab8967452301efcdab8967452301efcdab8967452301efcdab896745230a".

Example key_id : identity_id_from_public_key_hex KEY = Some ID.
Proof. vm_compute. reflexivity. Qed.

End SampleIds.
