(* ===== verification/Blocked.v ===== *)
(** * The block list ([core/src/store/blocked.rs])

    Blocked peers and devices in a storage backend, under every spelling of their id, and
    the registry of known devices through which a block of a peer reaches all of them.
    [serde_json] is a [Codec] of the two stored types. *)

From S2P Require Import Prelude Backend Effects KvStore Ids.

(** ** Data *)

Definition BLOCKED_PREFIX : string := "blocked:".
Definition DEVICE_REGISTRY_PREFIX : string := "blocked_devs:".

Record BlockedIdentity : Type := mkBlocked {
  bi_peer_id : string;
  bi_device_id : option string;
  bi_blocked_at : Z;
  bi_reason : option string;
  bi_notes : option string;
  bi_is_deleted : bool;
  bi_identifier_flavor : IdentifierFlavor;
}.

#[global] Instance BlockedIdentity_eq_dec : EqDecision BlockedIdentity.
Proof. solve_decision. Defined.

(** [now] is the clock in seconds. *)
Definition blocked_new (now : Z) (peer_id : string) : BlockedIdentity :=
  mkBlocked peer_id None now None None false Legacy.

Definition full_relay (now : Z) : BlockedIdentity := blocked_new now "relay-stub".

Definition with_device_id (b : BlockedIdentity) (device_id : string) : BlockedIdentity :=
  mkBlocked (bi_peer_id b) (Some device_id) (bi_blocked_at b) (bi_reason b) (bi_notes b) (bi_is_deleted b)
    (bi_identifier_flavor b).

Definition with_reason (b : BlockedIdentity) (reason : string) : BlockedIdentity :=
  mkBlocked (bi_peer_id b) (bi_device_id b) (bi_blocked_at b) (Some reason) (bi_notes b) (bi_is_deleted b)
    (bi_identifier_flavor b).

(** The same block under another id, for another device. *)
Definition block_as (b : BlockedIdentity) (peer_id : string) (device_id : option string) (flavor : IdentifierFlavor) :
    BlockedIdentity :=
  mkBlocked peer_id device_id (bi_blocked_at b) (bi_reason b) (bi_notes b) (bi_is_deleted b) flavor.

Definition block_key (peer_id : string) (device_id : option string) : bytes :=
  str_bytes match device_id with
            | Some device_id => BLOCKED_PREFIX +:+ peer_id +:+ ":" +:+ device_id
            | None => BLOCKED_PREFIX +:+ peer_id
            end.

Definition storage_key (b : BlockedIdentity) : bytes := block_key (bi_peer_id b) (bi_device_id b).

Definition registry_key (peer_id : string) : bytes := str_bytes (DEVICE_REGISTRY_PREFIX +:+ peer_id).

Definition latest_first (a b : BlockedIdentity) : Prop := bi_blocked_at b <= bi_blocked_at a.

#[global] Instance latest_first_dec : RelDecision latest_first.
Proof. intros a b. unfold latest_first. apply _. Defined.

(** ** The manager *)

Section Blocked.
Context {B : Type} {SB : StorageBackend B} {IL : IdLib} {KL : KeyLib}.
Context {CB : Codec BlockedIdentity} {CD : Codec (list string)} {HI : HashIter string ()}.

Definition resolved_identifiers (peer_id : string) : list string :=
  let '(raw_peer_id, flavor) := split_identifier_flavor peer_id in
  let identifiers := [raw_peer_id] in
  let identifiers := if decide (flavor = Legacy) then identifiers else push_unique identifiers peer_id in
  match flavor with
  | PublicKey =>
      match identity_id_from_public_key_hex raw_peer_id with
      | Some derived_id => push_unique identifiers derived_id
      | None => identifiers
      end
  | Legacy =>
      match public_key_hex_from_peer_id raw_peer_id with
      | Some public_key =>
          let identifiers := push_unique identifiers public_key in
          let identifiers := push_unique identifiers ("pk:" +:+ public_key) in
          match identity_id_from_public_key_hex public_key with
          | Some derived_id =>
              let identifiers := push_unique identifiers derived_id in
              push_unique identifiers ("id:" +:+ derived_id)
          | None => identifiers
          end
      | None => identifiers
      end
  | IdentityId => identifiers
  end.

Definition write_block_entry (blocked : BlockedIdentity) : M B unit :=
  let* value := kv_enc blocked in
  kv_put (storage_key blocked) value.

Definition remove_block_entry (peer_id : string) (device_id : option string) : M B unit :=
  kv_remove (block_key peer_id device_id).

Definition is_blocked_exact (peer_id : string) (device_id : option string) : M B bool :=
  let* found :=
    match device_id with
    | Some device_id =>
        let* v := kv_get (block_key peer_id (Some device_id)) in
        ret (bool_decide (is_Some v))
    | None => ret false
    end in
  if found then ret true
  else
    let* v := kv_get (block_key peer_id None) in
    ret (bool_decide (is_Some v)).

Definition get_exact (peer_id : string) (device_id : option string) : M B (option BlockedIdentity) :=
  let* data := kv_get (block_key peer_id device_id) in
  match data with
  | Some data => let* blocked := kv_dec data in ret (Some blocked)
  | None => ret None
  end.

Definition is_blocked_and_deleted_exact (peer_id : string) : M B bool :=
  let* data := kv_get (block_key peer_id None) in
  match data with
  | Some data => let* blocked := kv_dec (A := BlockedIdentity) data in ret (bi_is_deleted blocked)
  | None => ret false
  end.

Definition get_known_devices (peer_id : string) : M B (list string) :=
  let '(raw_peer_id, _) := split_identifier_flavor peer_id in
  let* data := kv_get (registry_key raw_peer_id) in
  match data with
  | Some data => kv_dec data
  | None => ret []
  end.

(** The rows for the known devices of a peer that is blocked. *)
Definition write_device_entries (blocked : BlockedIdentity) (peer_id : string) (flavor : IdentifierFlavor)
    (devices : list string) : M B unit :=
  mfold (fun _ device_id => write_block_entry (block_as blocked peer_id (Some device_id) flavor)) tt devices.

Definition block (blocked : BlockedIdentity) : M B unit :=
  let '(raw_peer_id, flavor) := split_identifier_flavor (bi_peer_id blocked) in
  let blocked := block_as blocked raw_peer_id (bi_device_id blocked) flavor in
  let* derived_id :=
    if decide (flavor = PublicKey) then
      let* derived_id := lift (ok_or (identity_id_from_public_key_hex (bi_peer_id blocked)) "InvalidInput"%string) in
      ret (Some derived_id)
    else ret None in
  let* devices :=
    match bi_device_id blocked with
    | None => get_known_devices (bi_peer_id blocked)
    | Some _ => ret []
    end in
  let* _ :=
    match derived_id with
    | Some derived_id => write_block_entry (block_as blocked derived_id (bi_device_id blocked) IdentityId)
    | None => ret tt
    end in
  let* _ := write_block_entry blocked in
  match bi_device_id blocked with
  | None =>
      let* _ := write_device_entries blocked (bi_peer_id blocked) flavor devices in
      match derived_id with
      | Some derived_id => write_device_entries blocked derived_id IdentityId devices
      | None => ret tt
      end
  | Some _ => ret tt
  end.

Definition block_and_delete (now : Z) (peer_id : string) (reason : option string) : M B unit :=
  let blocked := blocked_new now peer_id in
  block (mkBlocked (bi_peer_id blocked) (bi_device_id blocked) (bi_blocked_at blocked)
    (match reason with Some r => Some r | None => bi_reason blocked end) (bi_notes blocked) true
    (bi_identifier_flavor blocked)).

Definition unregister_device_from_registry (peer_id device_id : string) : M B unit :=
  let '(raw_peer_id, _) := split_identifier_flavor peer_id in
  let* devices := get_known_devices raw_peer_id in
  let devices := filter (fun d => d <> device_id) devices in
  match devices with
  | [] => kv_remove (registry_key raw_peer_id)
  | _ => let* encoded := kv_enc devices in kv_put (registry_key raw_peer_id) encoded
  end.

(** The public keys whose identity id is the one to unblock, among the rows and the registries. *)
Definition row_alias (raw_peer_id : string) (identifiers : list string) (kv : bytes * bytes) : list string :=
  match dec (A := BlockedIdentity) kv.2 with
  | Some blocked =>
      if decide (bi_identifier_flavor blocked = PublicKey) then
        if decide (identity_id_from_public_key_hex (bi_peer_id blocked) = Some raw_peer_id)
        then push_unique identifiers (bi_peer_id blocked) else identifiers
      else identifiers
  | None => identifiers
  end.

Definition registry_alias (raw_peer_id : string) (identifiers : list string) (kv : bytes * bytes) : list string :=
  let public_key := of_bytes (drop (length (str_bytes DEVICE_REGISTRY_PREFIX)) kv.1) in
  if decide (identity_id_from_public_key_hex public_key = Some raw_peer_id)
  then push_unique identifiers public_key else identifiers.

(** A key that is not UTF-8 is skipped; it is not the hexadecimal of a key either, so the
    test on its identity id already skips it. *)
Definition identifiers_for_unblock (peer_id : string) : M B (list string) :=
  let identifiers := resolved_identifiers peer_id in
  let '(raw_peer_id, _) := split_identifier_flavor peer_id in
  let* blocked_entries := kv_scan (str_bytes BLOCKED_PREFIX) in
  let identifiers := foldl (row_alias raw_peer_id) identifiers blocked_entries in
  let* registries := kv_scan (str_bytes DEVICE_REGISTRY_PREFIX) in
  ret (foldl (registry_alias raw_peer_id) identifiers registries).

(** [devices.extend(..)] of a hash set. *)
Definition extend (devices : gmap string ()) (l : list string) : gmap string () :=
  foldl (fun s d => <[d := tt]> s) devices l.

Definition unblock (peer_id : string) (device_id : option string) : M B unit :=
  let* identifiers := identifiers_for_unblock peer_id in
  match device_id with
  | Some did =>
      mfold (fun _ identifier =>
        let* _ := remove_block_entry identifier (Some did) in
        unregister_device_from_registry identifier did) tt identifiers
  | None =>
      let* devices := mfold (fun devices identifier =>
        let* known := get_known_devices identifier in ret (extend devices known)) ∅ identifiers in
      mfold (fun _ identifier =>
        let* _ := remove_block_entry identifier None in
        let* _ := mfold (fun _ did => remove_block_entry identifier (Some did)) tt (hm_iter devices).*1 in
        kv_remove (registry_key identifier)) tt identifiers
  end.

(** [for x in l { if f(x)? { return Ok(true) } } Ok(false)]. *)
Fixpoint any_of {A} (f : A -> M B bool) (l : list A) : M B bool :=
  match l with
  | [] => ret false
  | x :: l => let* found := f x in if found then ret true else any_of f l
  end.

(** [for x in l { if let Some(r) = f(x)? { return Ok(Some(r)) } } Ok(None)]. *)
Fixpoint first_of {A R} (f : A -> M B (option R)) (l : list A) : M B (option R) :=
  match l with
  | [] => ret None
  | x :: l => let* found := f x in match found with Some r => ret (Some r) | None => first_of f l end
  end.

Definition is_blocked_resolved (peer_id : string) (device_id : option string) : M B bool :=
  any_of (fun identifier => is_blocked_exact identifier device_id) (resolved_identifiers peer_id).

Definition is_blocked (peer_id : string) (device_id : option string) : M B bool :=
  is_blocked_resolved peer_id device_id.

Definition blocked_get (peer_id : string) (device_id : option string) : M B (option BlockedIdentity) :=
  first_of (fun identifier => get_exact identifier device_id) (resolved_identifiers peer_id).

(** A row of a public key whose identity id has a row too. *)
Definition shadowed (identity_ids : list string) (b : BlockedIdentity) : bool :=
  bool_decide (bi_identifier_flavor b = PublicKey) &&
  match identity_id_from_public_key_hex (bi_peer_id b) with
  | Some derived => negb (String.eqb derived (bi_peer_id b)) && existsb (String.eqb derived) identity_ids
  | None => false
  end.

Definition blocked_list : M B (list BlockedIdentity) :=
  let* all := kv_scan (str_bytes BLOCKED_PREFIX) in
  let* blocked_list := mfold (fun blocked_list kv =>
    let* blocked := kv_dec kv.2 in ret (blocked_list ++ [blocked])) [] all in
  let identity_ids := bi_peer_id <$> blocked_list in
  ret (stable_sort latest_first (filter (fun b => Is_true (negb (shadowed identity_ids b))) blocked_list)).

Definition blocked_count : M B Z :=
  let* l := blocked_list in ret (zlen l).

Definition is_blocked_and_deleted_resolved (peer_id : string) : M B bool :=
  any_of is_blocked_and_deleted_exact (resolved_identifiers peer_id).

Definition is_blocked_and_deleted (peer_id : string) : M B bool := is_blocked_and_deleted_resolved peer_id.

Definition blocked_only_peer_ids : M B (gset string) :=
  let* l := blocked_list in
  ret (list_to_set (bi_peer_id <$> filter (fun b => bi_is_deleted b = false) l)).

Definition register_device_id (now : Z) (peer_id device_id : string) : M B bool :=
  let '(raw_peer_id, flavor) := split_identifier_flavor peer_id in
  let* devices := get_known_devices raw_peer_id in
  if existsb (String.eqb device_id) devices then ret false
  else
    let devices := devices ++ [device_id] in
    let* encoded := kv_enc devices in
    let* _ := kv_put (registry_key raw_peer_id) encoded in
    let* blocked := is_blocked_resolved raw_peer_id None in
    let* _ :=
      if blocked then
        let* peer_block := blocked_get raw_peer_id None in
        block (mkBlocked raw_peer_id (Some device_id) (from_option bi_blocked_at now peer_block)
          (peer_block ≫= bi_reason) None (from_option bi_is_deleted false peer_block) flavor)
      else ret tt in
    ret true.

Definition register_device_ids (now : Z) (peer_id : string) (device_ids : list string) : M B Z :=
  mfold (fun registered device_id =>
    let* fresh := register_device_id now peer_id device_id in
    ret (if fresh then registered + 1 else registered)) 0 device_ids.

Definition is_device_blocked (peer_id device_id : string) : M B bool := is_blocked peer_id (Some device_id).

End Blocked.

(** ** Keys *)

Definition COLON : byte := Byte.x3a.

(** A key after its prefix. *)
Definition path (peer_id : string) (device_id : option string) : bytes :=
  str_bytes peer_id ++ match device_id with Some d => COLON :: str_bytes d | None => [] end.

Lemma block_key_path id device : block_key id device = str_bytes BLOCKED_PREFIX ++ path id device.
Proof.
  unfold block_key, path. destruct device as [d|]; rewrite !str_bytes_app; [done|]. by rewrite app_nil_r.
Qed.

Lemma block_key_prefix id device : starts_with (str_bytes BLOCKED_PREFIX) (block_key id device) = true.
Proof. rewrite block_key_path. apply starts_with_app. Qed.

Lemma registry_key_other id : starts_with (str_bytes BLOCKED_PREFIX) (registry_key id) = false.
Proof. unfold registry_key. by rewrite str_bytes_app. Qed.

Lemma block_not_registry id device id' : block_key id device <> registry_key id'.
Proof. intros H. pose proof (block_key_prefix id device) as Hp. rewrite H, registry_key_other in Hp. done. Qed.

#[export] Instance registry_key_inj : Inj (=) (=) registry_key.
Proof. intros x y H. unfold registry_key in H. rewrite !str_bytes_app in H. by apply app_inv_head, str_bytes_inj in H. Qed.

(** Ids without a colon, as those in hexadecimal are. *)
Definition plain_id (id : string) : Prop := COLON ∉ str_bytes id.

(** [id] is neither [n] nor the key of a device of [n]. *)
Definition apart (n id : string) : Prop := id <> n /\ starts_with (str_bytes n ++ [COLON]) (str_bytes id) = false.

Lemma plain_apart n id : plain_id id -> id <> n -> apart n id.
Proof.
  intros Hi Hne. split; [done|]. apply not_true_iff_false. intros [k Hk]%starts_with_spec. apply Hi. rewrite Hk.
  set_solver.
Qed.

Lemma apart_path n id device device' : plain_id n -> apart n id -> path id device <> path n device'.
Proof.
  intros Hn [Hne Hs] H. unfold path in H.
  apply app_eq_inv in H as [(k & Hk & Ht)|(k & Hk & Ht)]; destruct k as [|c k].
  - rewrite app_nil_r in Hk. by apply str_bytes_inj in Hk.
  - destruct device' as [d|]; [|done]. injection Ht as <- _. apply not_true_iff_false in Hs. apply Hs.
    apply starts_with_spec. exists k. rewrite Hk, <-app_assoc. done.
  - rewrite app_nil_r in Hk. by apply str_bytes_inj in Hk.
  - destruct device as [d|]; [|done]. injection Ht as <- _. apply Hn. rewrite Hk. set_solver.
Qed.

Lemma apart_key n id device device' : plain_id n -> apart n id -> block_key id device <> block_key n device'.
Proof. intros Hn Ha. rewrite !block_key_path. intros H%app_inv_head. by eapply apart_path. Qed.

Lemma plain_key_inj n device id : plain_id n -> plain_id id -> block_key id device = block_key n None -> id = n /\ device = None.
Proof.
  intros Hn Hi H. destruct (decide (id = n)) as [->|Hne].
  - split; [done|]. rewrite !block_key_path in H. apply app_inv_head in H. unfold path in H.
    apply app_inv_head in H. by destruct device.
  - exfalso. by eapply apart_key, H; [|apply plain_apart].
Qed.

(** ** What a block writes *)

Section Rows.
Context {B : Type} {SB : StorageBackend B} {IL : IdLib} {KL : KeyLib}.
Context {CB : Codec BlockedIdentity} {CD : Codec (list string)}.

(** The rows of a block, in the order in which they are written. *)
Definition block_rows (blocked : BlockedIdentity) (derived : option string) (devices : list string) :
    list BlockedIdentity :=
  let '(raw, flavor) := split_identifier_flavor (bi_peer_id blocked) in
  let rows id flavor := (fun d => block_as blocked id (Some d) flavor) <$> devices in
  from_option (fun id => [block_as blocked id (bi_device_id blocked) IdentityId]) [] derived ++
  [block_as blocked raw (bi_device_id blocked) flavor] ++
  match bi_device_id blocked with
  | None => rows raw flavor ++ from_option (fun id => rows id IdentityId) [] derived
  | Some _ => []
  end.

Definition write_rows : list BlockedIdentity -> M B unit := mfold (fun _ r => write_block_entry r) tt.

(** The canonical id of a block. *)
Definition derived_of (peer_id : string) : option string :=
  let '(raw, flavor) := split_identifier_flavor peer_id in
  if decide (flavor = PublicKey) then identity_id_from_public_key_hex raw else None.

(** The names a block is filed under. *)
Definition names (peer_id : string) : list string :=
  (split_identifier_flavor peer_id).1 :: option_list (derived_of peer_id).

Lemma write_rows_app l1 l2 b : write_rows (l1 ++ l2) b = bind (write_rows l1) (fun _ => write_rows l2) b.
Proof.
  unfold write_rows. rewrite mfold_app. apply bind_ext. by intros [] w' _.
Qed.

Lemma write_rows_cons r rows b : write_rows (r :: rows) b = bind (write_block_entry r) (fun _ => write_rows rows) b.
Proof. apply bind_ext. by intros [] b' _. Qed.

Lemma write_devices_rows blocked id flavor devices b :
  write_device_entries blocked id flavor devices b = write_rows ((fun d => block_as blocked id (Some d) flavor) <$> devices) b.
Proof. unfold write_device_entries, write_rows. by rewrite mfold_fmap. Qed.

(** A block writes its rows, one after the other, and nothing else. *)
Lemma block_writes blocked b l :
  (bi_device_id blocked = None -> get_known_devices (split_identifier_flavor (bi_peer_id blocked)).1 b = (Ok l, b)) ->
  ((split_identifier_flavor (bi_peer_id blocked)).2 = PublicKey -> is_Some (derived_of (bi_peer_id blocked))) ->
  block blocked b = write_rows (block_rows blocked (derived_of (bi_peer_id blocked)) l) b.
Proof.
  intros Hk Hd. unfold block, block_rows, derived_of in *.
  destruct (split_identifier_flavor (bi_peer_id blocked)) as [raw flavor]. cbn [fst snd block_as bi_peer_id bi_device_id] in *.
  rewrite (bind_run _ _ _ (if decide (flavor = PublicKey) then identity_id_from_public_key_hex raw else None) b).
  2:{ case_decide as Hf; [|done]. destruct (Hd Hf) as [d Hd']. unfold bind, lift, ok_or. by rewrite Hd'. }
  set (derived := if decide (flavor = PublicKey) then _ else None). clearbody derived.
  rewrite (bind_run _ _ _ (match bi_device_id blocked with None => l | Some _ => [] end) b).
  2:{ destruct (bi_device_id blocked); [done|]. by apply Hk. }
  rewrite write_rows_app. destruct derived as [d|]; cbn [from_option].
  - unfold write_rows at 1. cbn [mfold].
    rewrite !bind_assoc. apply bind_ext. intros [] b1 _. rewrite bind_ret_l, write_rows_app.
    unfold write_rows at 1. cbn [mfold]. rewrite !bind_assoc. apply bind_ext. intros [] b2 _. rewrite bind_ret_l.
    destruct (bi_device_id blocked) as [dev|]; [done|]. rewrite write_rows_app.
    unfold bind at 1. rewrite write_devices_rows. unfold bind at 1. apply bind_ext. intros [] b3 _.
    by rewrite write_devices_rows.
  - change (write_rows []) with (ret (W := B) tt). rewrite !bind_ret_l, write_rows_app. unfold write_rows at 1.
    cbn [mfold]. rewrite !bind_assoc. apply bind_ext. intros [] b2 _. rewrite bind_ret_l.
    destruct (bi_device_id blocked) as [dev|]; [done|]. rewrite write_rows_app.
    unfold bind at 1. rewrite write_devices_rows. unfold bind at 1. done.
Qed.

End Rows.

(** ** What a block list holds *)

Section Laws.
Context {B : Type} {SB : StorageBackend B} {LB : LawfulBackend B} {IL : IdLib} {KL : KeyLib}.
Context {CB : Codec BlockedIdentity} {LC : LawfulCodec BlockedIdentity}.
Context {CD : Codec (list string)} {LD : LawfulCodec (list string)} {HI : HashIter string ()}.

Implicit Types b : B.

(** Whether an id, spelled exactly so, is blocked for a device. *)
Definition blocked_at b (id : string) (device : option string) : bool :=
  match device with Some d => bool_decide (is_Some (be_view b !! block_key id (Some d))) | None => false end
  || bool_decide (is_Some (be_view b !! block_key id None)).

Lemma is_blocked_exact_run id device b : is_blocked_exact id device b = (Ok (blocked_at b id device), b).
Proof.
  unfold is_blocked_exact, blocked_at. destruct device as [d|].
  - rewrite (bind_run _ _ _ (bool_decide (is_Some (be_view b !! block_key id (Some d)))) b);
      [|by unfold bind; rewrite kv_get_run].
    case_bool_decide; [done|]. unfold bind. by rewrite kv_get_run.
  - rewrite (bind_run _ _ _ false b) by done. unfold bind. by rewrite kv_get_run.
Qed.

Lemma is_blocked_run q device b :
  is_blocked q device b = (Ok (existsb (fun i => blocked_at b i device) (resolved_identifiers q)), b).
Proof.
  unfold is_blocked, is_blocked_resolved. induction (resolved_identifiers q) as [|i l IH]; [done|].
  cbn [any_of existsb]. rewrite (bind_run _ _ _ _ _ (is_blocked_exact_run i device b)).
  by destruct (blocked_at b i device).
Qed.

Lemma is_blocked_true q device b i :
  i ∈ resolved_identifiers q -> blocked_at b i device = true -> is_blocked q device b = (Ok true, b).
Proof.
  intros Hi Hb. rewrite is_blocked_run. do 2 f_equal. apply existsb_exists. exists i. split; [|done].
  by apply list_elem_of_In.
Qed.

Lemma is_blocked_false q device b :
  (forall i, i ∈ resolved_identifiers q -> blocked_at b i device = false) -> is_blocked q device b = (Ok false, b).
Proof.
  intros H. rewrite is_blocked_run. do 2 f_equal. apply not_true_iff_false. intros (i & Hi & Hb)%existsb_exists.
  rewrite H in Hb; [done|]. by apply list_elem_of_In.
Qed.

(** The devices a registry lists; [None] when it cannot be read. *)
Definition known b (peer_id : string) : option (list string) :=
  match be_view b !! registry_key (split_identifier_flavor peer_id).1 with Some data => dec data | None => Some [] end.

Lemma get_known_run peer_id b l : known b peer_id = Some l -> get_known_devices peer_id b = (Ok l, b).
Proof.
  unfold known, get_known_devices. destruct (split_identifier_flavor peer_id) as [raw flavor]. cbn [fst].
  unfold bind. rewrite kv_get_run. destruct (be_view b !! registry_key raw) as [data|]; [|by intros [= <-]].
  unfold kv_dec, lift. by intros ->.
Qed.

(** *** Writing rows *)

Lemma write_entry_run r b : exists b' v,
  write_block_entry r b = (Ok tt, b') /\ dec v = Some r /\ be_view b' = <[storage_key r := v]> (be_view b).
Proof.
  destruct (enc_dec r) as (v & Hv & Hd). destruct (kv_put_run (storage_key r) v b) as (b' & H & Hb').
  exists b', v. split_and!; [|done|done]. unfold write_block_entry, kv_enc, lift, bind, ok_or. by rewrite Hv.
Qed.

Lemma write_rows_run rows b : exists b', write_rows rows b = (Ok tt, b') /\
  (forall k, k ∈ storage_key <$> rows -> exists r v, r ∈ rows /\ storage_key r = k /\ be_view b' !! k = Some v /\ dec v = Some r) /\
  (forall k, k ∉ storage_key <$> rows -> be_view b' !! k = be_view b !! k).
Proof.
  revert b. induction rows as [|r rows IH]; intros b.
  { exists b. split_and!; [done|by intros k ?%elem_of_nil|done]. }
  destruct (write_entry_run r b) as (b1 & v & H1 & Hd & Hv1). destruct (IH b1) as (b2 & H2 & Hin & Hout).
  exists b2. split_and!.
  - unfold write_rows in *. cbn [mfold]. by rewrite (bind_run _ _ _ _ _ H1).
  - intros k Hk. rewrite fmap_cons in Hk. destruct (decide (k ∈ storage_key <$> rows)) as [Hr|Hr].
    + destruct (Hin k Hr) as (r' & v' & ? & ? & ? & ?). exists r', v'. split_and!; [by right|done..].
    + apply elem_of_cons in Hk as [->|?]; [|done]. exists r, v. split_and!; [by left|done| |done].
      rewrite Hout, Hv1 by done. apply lookup_insert_eq.
  - intros k Hk. rewrite fmap_cons, not_elem_of_cons in Hk. destruct Hk as [Hne Hk].
    rewrite Hout, Hv1 by done. by apply lookup_insert_ne.
Qed.

Lemma rows_names blocked devices r :
  r ∈ block_rows blocked (derived_of (bi_peer_id blocked)) devices -> bi_peer_id r ∈ names (bi_peer_id blocked).
Proof.
  unfold block_rows, names. destruct (split_identifier_flavor (bi_peer_id blocked)) as [raw flavor]. cbn [fst].
  destruct (derived_of (bi_peer_id blocked)) as [d|]; cbn [from_option option_list];
    destruct (bi_device_id blocked) as [dev|]; rewrite ?elem_of_app, ?list_elem_of_fmap, ?list_elem_of_singleton, ?elem_of_nil;
    intros Hr; destruct_or?; destruct_and?; naive_solver set_solver.
Qed.

Lemma names_rows blocked devices i :
  i ∈ names (bi_peer_id blocked) ->
  block_key i (bi_device_id blocked) ∈ storage_key <$> block_rows blocked (derived_of (bi_peer_id blocked)) devices.
Proof.
  unfold block_rows, names. destruct (split_identifier_flavor (bi_peer_id blocked)) as [raw flavor]. cbn [fst].
  intros [->|Hi]%elem_of_cons; rewrite !fmap_app, !elem_of_app.
  - right. left. apply list_elem_of_singleton. done.
  - left. destruct (derived_of (bi_peer_id blocked)) as [d|]; cbn [option_list] in Hi; [|by apply elem_of_nil in Hi].
    apply list_elem_of_singleton in Hi as ->. apply list_elem_of_singleton. done.
Qed.

(** *** Which spellings mean the same peer *)

Definition same_peer (p q : string) : Prop := exists i, i ∈ resolved_identifiers q /\ i ∈ names p.

Lemma raw_resolved q : (split_identifier_flavor q).1 ∈ resolved_identifiers q.
Proof.
  unfold resolved_identifiers. destruct (split_identifier_flavor q) as [raw flavor]. cbn [fst].
  destruct flavor; [rewrite decide_True by done|rewrite decide_False by done..].
  - destruct (public_key_hex_from_peer_id raw) as [k|]; [|by left].
    destruct (identity_id_from_public_key_hex k); rewrite !elem_of_push_unique, list_elem_of_singleton; tauto.
  - destruct (identity_id_from_public_key_hex raw); rewrite !elem_of_push_unique, list_elem_of_singleton; tauto.
  - rewrite elem_of_push_unique, list_elem_of_singleton. tauto.
Qed.

Lemma spelled_same_peer p q : (split_identifier_flavor q).1 ∈ names p -> same_peer p q.
Proof. intros H. exists (split_identifier_flavor q).1. split; [apply raw_resolved|done]. Qed.

Lemma carried_same_peer p q k :
  split_identifier_flavor q = (q, Legacy) -> public_key_hex_from_peer_id q = Some k -> k ∈ names p -> same_peer p q.
Proof.
  intros Hs Hk Hp. exists k. split; [|done]. unfold resolved_identifiers. rewrite Hs, Hk.
  rewrite decide_True by done.
  destruct (identity_id_from_public_key_hex k); rewrite !elem_of_push_unique; tauto.
Qed.

(** *** Lifting a block *)

(** Every device registry can be read. *)
Definition registries_ok b : Prop := forall id data, be_view b !! registry_key id = Some data -> is_Some (dec (A := list string) data).

Lemma registries_known b id : registries_ok b -> exists l, known b id = Some l.
Proof. intros H. unfold known. destruct (be_view b !! _) as [data|] eqn:Hd; [by eapply H|by eexists]. Qed.

(** The keys that lifting the block of an id removes. *)
Definition lifted_keys (devices : list string) (id : string) : list bytes :=
  block_key id None :: ((fun d => block_key id (Some d)) <$> devices) ++ [registry_key id].

Lemma elem_of_extend l s d : is_Some (extend s l !! d) <-> d ∈ l \/ is_Some (s !! d).
Proof.
  revert s. induction l as [|x l IH]; intros s; cbn; [set_solver|]. rewrite IH, elem_of_cons.
  destruct (decide (d = x)) as [->|Hne]; [rewrite lookup_insert_eq; naive_solver|].
  rewrite lookup_insert_ne by done. naive_solver.
Qed.

Lemma collect_devices_run ids b : registries_ok b -> exists devices,
  mfold (fun devices identifier => let* known := get_known_devices identifier in ret (extend devices known)) ∅ ids b
    = (Ok devices, b) /\
  forall d, is_Some (devices !! d) <-> exists i l, i ∈ ids /\ known b i = Some l /\ d ∈ l.
Proof.
  intros Hok.
  assert (forall acc, exists devices,
    mfold (fun devices identifier => let* known := get_known_devices identifier in ret (extend devices known)) acc ids b
      = (Ok devices, b) /\
    forall d, is_Some (devices !! d) <-> is_Some (acc !! d) \/ exists i l, i ∈ ids /\ known b i = Some l /\ d ∈ l) as H.
  { induction ids as [|i ids IH]; intros acc.
    { exists acc. split; [done|]. intros d. split; [by left|]. intros [?|(i & l & ?%elem_of_nil & _)]; done. }
    destruct (registries_known b i Hok) as [l Hl]. destruct (IH (extend acc l)) as (devices & H & Hd).
    exists devices. split.
    - cbn [mfold]. rewrite (bind_run _ _ _ (extend acc l) b); [done|].
      by rewrite (bind_run _ _ _ _ _ (get_known_run i b l Hl)).
    - intros d. rewrite Hd, elem_of_extend. split.
      + intros [[?|?]|(j & lj & ? & ? & ?)]; [right; exists i, l|by left|right; exists j, lj]; split_and!; try done; set_solver.
      + intros [?|(j & lj & [->|?]%elem_of_cons & Hj & ?)]; [left; by right| |right; by exists j, lj].
        rewrite Hl in Hj. injection Hj as <-. left. by left. }
  destruct (H ∅) as (devices & H' & Hd). exists devices. split; [done|]. intros d. rewrite Hd, lookup_empty.
  split; [intros [[? ?]|?]; done|by right].
Qed.

Lemma lift_one i devices b : exists b',
  (let* _ := remove_block_entry i None in
   let* _ := mfold (fun _ did => remove_block_entry i (Some did)) tt devices in
   kv_remove (registry_key i)) b = (Ok tt, b') /\
  forall k, be_view b' !! k = if decide (k ∈ lifted_keys devices i) then None else be_view b !! k.
Proof.
  destruct (kv_remove_run (block_key i None) b) as (b1 & H1 & Hv1).
  destruct (remove_all_run (fun d => block_key i (Some d)) devices b1) as (b2 & H2 & Hv2).
  destruct (kv_remove_run (registry_key i) b2) as (b3 & H3 & Hv3).
  exists b3. split; [by rewrite (bind_run _ _ _ _ _ H1), (bind_run _ _ _ _ _ H2)|].
  intros k. rewrite Hv3. unfold lifted_keys.
  destruct (decide (k = registry_key i)) as [->|Hr].
  { rewrite lookup_delete_eq, decide_True; [done|]. set_solver. }
  rewrite lookup_delete_ne, Hv2 by done. destruct (decide (k ∈ _ <$> devices)) as [Hd|Hd].
  { rewrite decide_True; [done|]. set_solver. }
  rewrite Hv1. destruct (decide (k = block_key i None)) as [->|Hn].
  - rewrite lookup_delete_eq, decide_True; [done|]. left.
  - rewrite lookup_delete_ne, decide_False by done || set_solver. done.
Qed.

Lemma lift_loop ids devices b : exists b',
  mfold (fun _ identifier =>
    let* _ := remove_block_entry identifier None in
    let* _ := mfold (fun _ did => remove_block_entry identifier (Some did)) tt devices in
    kv_remove (registry_key identifier)) tt ids b = (Ok tt, b') /\
  forall k, be_view b' !! k = if decide (k ∈ ids ≫= lifted_keys devices) then None else be_view b !! k.
Proof.
  revert b. induction ids as [|i ids IH]; intros b.
  { exists b. split; [done|]. intros k. by rewrite decide_False by apply not_elem_of_nil. }
  destruct (lift_one i devices b) as (b1 & H1 & Hv1). destruct (IH b1) as (b2 & H2 & Hv2).
  exists b2. split; [cbn [mfold]; by rewrite (bind_run _ _ _ _ _ H1)|]. intros k. rewrite Hv2, Hv1.
  rewrite bind_cons. destruct (decide (k ∈ ids ≫= lifted_keys devices)) as [Hi|Hi].
  - rewrite decide_True; [done|]. apply elem_of_app. by right.
  - destruct (decide (k ∈ lifted_keys devices i)) as [Hj|Hj].
    + rewrite decide_True; [done|]. apply elem_of_app. by left.
    + rewrite decide_False; [done|]. rewrite elem_of_app. tauto.
Qed.

Lemma foldl_incl {A} (f : list string -> A -> list string) l ids :
  (forall ids x i, i ∈ ids -> i ∈ f ids x) -> forall i, i ∈ ids -> i ∈ foldl f ids l.
Proof. intros Hf. revert ids. induction l as [|x l IH]; intros ids i Hi; [done|]. apply IH, Hf, Hi. Qed.

Lemma foldl_adds {A} (f : list string -> A -> list string) l ids x i :
  (forall ids x i, i ∈ ids -> i ∈ f ids x) -> x ∈ l -> (forall ids, i ∈ f ids x) -> i ∈ foldl f ids l.
Proof.
  intros Hf Hx Hi. revert ids. induction l as [|y l IH]; intros ids; [by apply elem_of_nil in Hx|].
  cbn. apply elem_of_cons in Hx as [->|Hx]; [by apply foldl_incl|by apply IH].
Qed.

Lemma row_alias_incl raw ids x i : i ∈ ids -> i ∈ row_alias raw ids x.
Proof.
  intros Hi. unfold row_alias. destruct (dec x.2); [|done]. repeat case_decide; try done.
  apply elem_of_push_unique. by left.
Qed.

Lemma registry_alias_incl raw ids x i : i ∈ ids -> i ∈ registry_alias raw ids x.
Proof. intros Hi. unfold registry_alias. case_decide; [|done]. apply elem_of_push_unique. by left. Qed.

(** The ids an unblock works on: the spellings of the one given, and public keys found in rows. *)
Lemma identifiers_run p b : exists ids, identifiers_for_unblock p b = (Ok ids, b) /\
  (forall i, i ∈ resolved_identifiers p -> i ∈ ids) /\
  (forall k v r, starts_with (str_bytes BLOCKED_PREFIX) k = true -> be_view b !! k = Some v -> dec v = Some r ->
     bi_identifier_flavor r = PublicKey ->
     identity_id_from_public_key_hex (bi_peer_id r) = Some (split_identifier_flavor p).1 -> bi_peer_id r ∈ ids).
Proof.
  unfold identifiers_for_unblock. destruct (split_identifier_flavor p) as [raw flavor] eqn:Hs. cbn [fst].
  destruct (kv_scan_run (str_bytes BLOCKED_PREFIX) b) as (l1 & H1 & Hp1).
  destruct (kv_scan_run (str_bytes DEVICE_REGISTRY_PREFIX) b) as (l2 & H2 & Hp2).
  eexists. split; [by rewrite (bind_run _ _ _ _ _ H1), (bind_run _ _ _ _ _ H2)|]. split.
  - intros i Hi. apply foldl_incl; [apply registry_alias_incl|]. apply foldl_incl; [apply row_alias_incl|done].
  - intros k v r Hk Hv Hd Hf Hid. apply foldl_incl; [apply registry_alias_incl|].
    apply (foldl_adds _ _ _ (k, v)); [apply row_alias_incl| |].
    + rewrite Hp1. apply elem_of_map_to_list. by rewrite under_lookup.
    + intros ids. unfold row_alias. cbn [snd]. rewrite Hd, !decide_True by done. apply elem_of_push_unique. by right.
Qed.

(** *** Lifting, as a whole *)

Lemma unblock_run p b : registries_ok b -> exists b' ids devices, unblock p None b = (Ok tt, b') /\
  identifiers_for_unblock p b = (Ok ids, b) /\
  (forall d, d ∈ devices <-> exists i l, i ∈ ids /\ known b i = Some l /\ d ∈ l) /\
  forall k, be_view b' !! k = if decide (k ∈ ids ≫= lifted_keys devices) then None else be_view b !! k.
Proof.
  intros Hok. destruct (identifiers_run p b) as (ids & Hids & _).
  destruct (collect_devices_run ids b Hok) as (devs & Hd & Hdevs).
  destruct (lift_loop ids (hm_iter devs).*1 b) as (b' & H & Hv).
  exists b', ids, (hm_iter devs).*1. split_and!; [|done| |done].
  - unfold unblock. by rewrite (bind_run _ _ _ _ _ Hids), (bind_run _ _ _ _ _ Hd).
  - intros d. rewrite <-Hdevs, list_elem_of_fmap. split.
    + intros ([d' []] & -> & Hx%elem_of_hm_iter). by eexists.
    + intros [[] Hx]. exists (d, tt). split; [done|]. by apply elem_of_hm_iter.
Qed.

(** *** Hexadecimal ids *)

Lemma hex_plain id : is_valid_identity_id id = true -> plain_id id /\ (2 < length (str_bytes id))%nat.
Proof.
  intros [Hl Hh]%andb_true_iff. apply Z.eqb_eq in Hl. unfold str_len, zlen in Hl. split; [|lia].
  intros Hc. rewrite forallb_forall in Hh. apply list_elem_of_In, Hh in Hc. done.
Qed.

Lemma public_key_hex k d : identity_id_from_public_key_hex k = Some d -> is_valid_identity_id k = true.
Proof.
  unfold identity_id_from_public_key_hex, is_valid_public_key, is_valid_identity_id.
  destruct (str_len k =? 64), (forallb is_ascii_hexdigit (str_bytes k)); done.
Qed.

(** A prefixed spelling shares no key with a hexadecimal id. *)
Lemma prefixed_apart n x p : is_valid_identity_id n = true -> p = "pk:"%string \/ p = "id:"%string -> apart n (p +:+ x).
Proof.
  intros [Hn Hl]%hex_plain Hp. split.
  - intros <-. apply Hn. destruct Hp as [-> | ->]; rewrite str_bytes_app; set_solver.
  - apply not_true_iff_false. intros [k Hk]%starts_with_spec. apply Hn.
    destruct (str_bytes n) as [|a [|a' [|c n']]]; [cbn in Hl; lia..|].
    destruct Hp as [-> | ->]; rewrite str_bytes_app in Hk; injection Hk as <- <- <- _; set_solver.
Qed.

Lemma pair_apart k d x p : is_valid_identity_id k = true -> is_valid_identity_id d = true ->
  p = "pk:"%string \/ p = "id:"%string -> forall m, m ∈ [k; d] -> apart m (p +:+ x).
Proof.
  intros Hk Hd Hp m Hm. rewrite elem_of_cons, list_elem_of_singleton in Hm.
  destruct Hm as [-> | ->]; by apply prefixed_apart.
Qed.

Lemma blocked_at_unchanged b b' i device :
  (forall device, be_view b' !! block_key i device = be_view b !! block_key i device) ->
  blocked_at b' i device = blocked_at b i device.
Proof. intros H. unfold blocked_at. destruct device; by rewrite !H. Qed.

Lemma blocked_at_row b i device : is_Some (be_view b !! block_key i None) -> blocked_at b i device = true.
Proof. intros H. unfold blocked_at. apply orb_true_iff. right. by apply bool_decide_eq_true. Qed.

Lemma blocked_at_none b i device :
  be_view b !! block_key i None = None -> (forall d, device = Some d -> be_view b !! block_key i (Some d) = None) ->
  blocked_at b i device = false.
Proof.
  intros Hn Hd. unfold blocked_at. rewrite Hn. destruct device as [d|]; [rewrite (Hd d) by done|]; done.
Qed.

(** What a block does to the store. *)
Lemma block_run blocked b :
  (bi_device_id blocked = None -> registries_ok b) ->
  ((split_identifier_flavor (bi_peer_id blocked)).2 = PublicKey -> is_Some (derived_of (bi_peer_id blocked))) ->
  exists b' rows, block blocked b = (Ok tt, b') /\
    (forall r, r ∈ rows -> bi_peer_id r ∈ names (bi_peer_id blocked)) /\
    (forall i, i ∈ names (bi_peer_id blocked) -> is_Some (be_view b' !! block_key i (bi_device_id blocked))) /\
    (forall k, k ∈ storage_key <$> rows -> exists r v, r ∈ rows /\ storage_key r = k /\ be_view b' !! k = Some v /\ dec v = Some r) /\
    (forall k, k ∉ storage_key <$> rows -> be_view b' !! k = be_view b !! k) /\
    exists devices, rows = block_rows blocked (derived_of (bi_peer_id blocked)) devices.
Proof.
  intros Hr Hd.
  assert (exists l, bi_device_id blocked = None ->
    get_known_devices (split_identifier_flavor (bi_peer_id blocked)).1 b = (Ok l, b)) as [l Hl].
  { destruct (bi_device_id blocked); [by exists []|]. destruct (registries_known b (split_identifier_flavor (bi_peer_id blocked)).1 (Hr eq_refl)) as [l Hl].
    exists l. intros _. by apply get_known_run. }
  set (rows := block_rows blocked (derived_of (bi_peer_id blocked)) l).
  destruct (write_rows_run rows b) as (b' & Hw & Hin & Hout). exists b', rows. split_and!.
  - by rewrite (block_writes blocked b l).
  - intros r. apply rows_names.
  - intros i Hi. destruct (Hin _ (names_rows blocked l i Hi)) as (r & v & _ & _ & Hv & _). by exists v.
  - done.
  - done.
  - by exists l.
Qed.

Lemma derived_public_key k d : identity_id_from_public_key_hex k = Some d -> derived_of ("pk:" +:+ k) = Some d.
Proof.
  intros H. unfold derived_of. change ("pk:" +:+ k) with (PUBLIC_KEY_PREFIX +:+ k). rewrite split_public_key.
  by rewrite decide_True by done.
Qed.

Lemma names_public_key k d : identity_id_from_public_key_hex k = Some d -> names ("pk:" +:+ k) = [k; d].
Proof.
  intros H. unfold names. rewrite (derived_public_key k d H). change ("pk:" +:+ k) with (PUBLIC_KEY_PREFIX +:+ k).
  by rewrite split_public_key.
Qed.

Lemma resolved_public_key k d : identity_id_from_public_key_hex k = Some d ->
  forall i, i ∈ resolved_identifiers ("pk:" +:+ k) <-> i = k \/ i = "pk:" +:+ k \/ i = d.
Proof.
  intros H i. unfold resolved_identifiers. change ("pk:" +:+ k) with (PUBLIC_KEY_PREFIX +:+ k) at 1. rewrite split_public_key.
  rewrite H, decide_False by done. rewrite !elem_of_push_unique, list_elem_of_singleton. tauto.
Qed.

Lemma resolved_identity_id d i : i ∈ resolved_identifiers ("id:" +:+ d) <-> i = d \/ i = "id:" +:+ d.
Proof.
  unfold resolved_identifiers. change ("id:" +:+ d) with (IDENTITY_ID_PREFIX +:+ d) at 1. rewrite split_identity_id.
  rewrite decide_False by done. rewrite elem_of_push_unique, list_elem_of_singleton. tauto.
Qed.

(** The row of a public key says that it is one. *)
Lemma rows_flavor blocked devices r : r ∈ block_rows blocked (derived_of (bi_peer_id blocked)) devices ->
  bi_peer_id r = (split_identifier_flavor (bi_peer_id blocked)).1 ->
  derived_of (bi_peer_id blocked) <> Some (bi_peer_id r) ->
  bi_identifier_flavor r = (split_identifier_flavor (bi_peer_id blocked)).2.
Proof.
  unfold block_rows. destruct (split_identifier_flavor (bi_peer_id blocked)) as [raw flavor]. cbn [fst snd].
  destruct (derived_of (bi_peer_id blocked)) as [d|]; cbn [from_option];
    destruct (bi_device_id blocked) as [dev|]; rewrite ?elem_of_app, ?list_elem_of_fmap, ?list_elem_of_singleton, ?elem_of_nil;
    intros Hr; destruct_or?; naive_solver.
Qed.

(** Everything under a public key and its identity id, after the block and after it is lifted. *)
Lemma lifted_at b1 b2 ids devices i device :
  (forall k, be_view b2 !! k = if decide (k ∈ ids ≫= lifted_keys devices) then None else be_view b1 !! k) ->
  i ∈ ids -> (forall d, device = Some d -> d ∈ devices) -> blocked_at b2 i device = false.
Proof.
  intros Hv Hi Hd. apply blocked_at_none.
  - rewrite Hv, decide_True; [done|]. apply list_elem_of_bind. exists i. split; [left|done].
  - intros d ->. rewrite Hv, decide_True; [done|]. apply list_elem_of_bind. exists i. split; [|done].
    right. apply elem_of_app. left. apply (list_elem_of_fmap_2 (fun d => block_key i (Some d))). by apply Hd.
Qed.

(** Rows of no name are never added by a block, nor by an unblock. *)
Lemma untouched_at b b1 b2 (rows : list BlockedIdentity) ids devices i device (n : list string) :
  (forall k, be_view b2 !! k = if decide (k ∈ ids ≫= lifted_keys devices) then None else be_view b1 !! k) ->
  (forall k, k ∉ storage_key <$> rows -> be_view b1 !! k = be_view b !! k) ->
  (forall r, r ∈ rows -> bi_peer_id r ∈ n) -> Forall plain_id n -> (forall m, m ∈ n -> apart m i) ->
  (forall device, be_view b !! block_key i device = None) -> blocked_at b2 i device = false.
Proof.
  intros Hv Hout Hrows Hplain Hap Hnone.
  assert (forall dev, be_view b2 !! block_key i dev = None) as H.
  { intros dev. rewrite Hv. case_decide; [done|]. rewrite Hout; [done|].
    intros (r & Hk & Hr)%list_elem_of_fmap. apply Hrows in Hr. rewrite Forall_forall in Hplain.
    by eapply (apart_key (bi_peer_id r) i dev (bi_device_id r)); [apply Hplain|apply Hap|]. }
  by apply blocked_at_none.
Qed.

(** A row of a name of the block, after a block, when no other row has its key. *)
Lemma registries_preserved b b1 (rows : list BlockedIdentity) :
  (forall k, k ∉ storage_key <$> rows -> be_view b1 !! k = be_view b !! k) ->
  forall id, be_view b1 !! registry_key id = be_view b !! registry_key id.
Proof. intros Hout id. apply Hout. intros (r & Hk & _)%list_elem_of_fmap. by apply (block_not_registry _ _ _ (eq_sym Hk)). Qed.

(** ** Properties *)

(** C24: a block holds under every spelling and for no one else.  After a peer-level block,
    every spelling that resolves to one of its names is blocked for every device; after a
    block of one device, that device is; and if the names are plain, a peer none of whose
    spellings shares a name with them is blocked exactly as before. *)
Theorem block_covers blocked b :
  (bi_device_id blocked = None -> registries_ok b) ->
  ((split_identifier_flavor (bi_peer_id blocked)).2 = PublicKey -> is_Some (derived_of (bi_peer_id blocked))) ->
  exists b', block blocked b = (Ok tt, b') /\
    (forall q device, same_peer (bi_peer_id blocked) q -> bi_device_id blocked = None \/ bi_device_id blocked = device ->
       is_blocked q device b' = (Ok true, b')) /\
    (Forall plain_id (names (bi_peer_id blocked)) -> forall q device,
       (forall n i, n ∈ names (bi_peer_id blocked) -> i ∈ resolved_identifiers q -> apart n i) ->
       (is_blocked q device b').1 = (is_blocked q device b).1).
Proof.
  intros Hr Hd. destruct (block_run blocked b Hr Hd) as (b' & rows & H & Hnames & Hhas & _ & Hout & _).
  exists b'. split_and!; [done| |].
  - intros q device (i & Hi & Hn) Hdev. apply (is_blocked_true q device b' i Hi). specialize (Hhas i Hn).
    destruct Hdev as [Hdev|<-]; [rewrite Hdev in Hhas; by apply blocked_at_row|].
    unfold blocked_at. destruct (bi_device_id blocked) as [d|]; [|by apply bool_decide_eq_true].
    apply orb_true_iff. left. by apply bool_decide_eq_true.
  - intros Hplain q device Hap. rewrite !is_blocked_run. cbn [fst]. f_equal.
    assert (forall i, i ∈ resolved_identifiers q -> blocked_at b' i device = blocked_at b i device) as Heq.
    { intros i Hi. apply blocked_at_unchanged. intros dev. apply Hout.
      intros (r & Hk & Hin)%list_elem_of_fmap. apply Hnames in Hin. rewrite Forall_forall in Hplain.
      by eapply (apart_key (bi_peer_id r) i dev (bi_device_id r)); [apply Hplain|apply Hap|]. }
    induction (resolved_identifiers q) as [|i l IH]; [done|]. cbn. rewrite Heq by left. f_equal.
    apply IH; intros; [apply Hap; [done|by right]|apply Heq; by right].
Qed.

(** A block of a public key is lifted under any of its canonical spellings.  After a
    block of [pk:k], the key and its identity id are blocked for every device; an unblock of
    [pk:k], of the identity id or of its prefixed form then leaves neither of them blocked,
    and none of the devices the registry of the key lists. *)
Theorem block_lifted k d q blocked b :
  identity_id_from_public_key_hex k = Some d -> is_valid_identity_id d = true -> k <> d -> registries_ok b ->
  bi_peer_id blocked = "pk:" +:+ k -> bi_device_id blocked = None ->
  q = "pk:" +:+ k \/ (split_identifier_flavor q).1 = d ->
  (forall device, be_view b !! block_key ("pk:" +:+ k) device = None /\ be_view b !! block_key ("id:" +:+ d) device = None) ->
  exists b1 b2, block blocked b = (Ok tt, b1) /\ unblock q None b1 = (Ok tt, b2) /\
    (forall device, is_blocked ("pk:" +:+ k) device b1 = (Ok true, b1) /\ is_blocked ("id:" +:+ d) device b1 = (Ok true, b1)) /\
    (forall device, (forall x, device = Some x -> exists l, known b k = Some l /\ x ∈ l) ->
       is_blocked ("pk:" +:+ k) device b2 = (Ok false, b2) /\ is_blocked ("id:" +:+ d) device b2 = (Ok false, b2)).
Proof.
  intros Hkd Hd Hne Hok Hp Hdev Hq Hlegacy.
  pose proof (public_key_hex k d Hkd) as Hk. destruct (hex_plain k Hk) as [Hkp _]. destruct (hex_plain d Hd) as [Hdp _].
  destruct (block_run blocked b (fun _ => Hok)) as (b1 & rows & H1 & Hnames & Hhas & Hin & Hout & devs & Hrows).
  { intros _. rewrite Hp, (derived_public_key k d Hkd). by eexists. }
  rewrite Hp in *. rewrite (names_public_key k d Hkd) in *. rewrite Hdev in *.
  pose proof (registries_preserved b b1 rows Hout) as Hreg.
  destruct (unblock_run q b1) as (b2 & ids & devices & H2 & Hids & Hdevices & Hv2).
  { intros id data. rewrite Hreg. apply Hok. }
  destruct (identifiers_run q b1) as (ids' & Hids' & Hres & Hfound). rewrite Hids in Hids'. injection Hids' as <-.
  assert (k ∈ ids /\ d ∈ ids) as [Hki Hdi].
  { destruct Hq as [->|Hq]; [split; apply Hres, (resolved_public_key k d Hkd); tauto|].
    split; [|apply Hres; rewrite <-Hq; apply raw_resolved].
    destruct (Hhas k) as [v0 Hv0]; [by left|].
    destruct (Hin (block_key k None)) as (r & v & Hr & Hrk & Hv & Hdec).
    { pose proof (names_rows blocked devs k) as Hn. rewrite Hp, Hdev, (names_public_key k d Hkd) in Hn.
      rewrite Hrows. apply Hn. left. }
    assert (bi_peer_id r = k) as Hrp.
    { apply (plain_key_inj k (bi_device_id r) (bi_peer_id r)); [done| |done].
      apply Hnames in Hr. rewrite elem_of_cons, list_elem_of_singleton in Hr. by destruct Hr as [-> | ->]. }
    rewrite <-Hrp. apply (Hfound (block_key k None) v); [apply block_key_prefix|done..| |by rewrite Hrp, Hq].
    pose proof (rows_flavor blocked devs r) as Hf. rewrite Hp, (derived_public_key k d Hkd) in Hf.
    rewrite Hrows, (derived_public_key k d Hkd) in Hr.
    apply (Hf Hr Hrp). rewrite Hrp. congruence. }
  exists b1, b2. split_and!; [done|done| |].
  - intros device. split; eapply is_blocked_true.
    + apply (resolved_public_key k d Hkd). by left.
    + apply blocked_at_row, Hhas. by left.
    + apply resolved_identity_id. by left.
    + apply blocked_at_row, Hhas. right. by left.
  - intros device Hdevice.
    assert (forall x, device = Some x -> x ∈ devices) as Hx.
    { intros x Hx. apply Hdevices. destruct (Hdevice x Hx) as (l & Hl & Hxl). exists k, l.
      split_and!; [done| |done]. unfold known in *. by rewrite Hreg. }
    assert (Forall plain_id [k; d]) as Hpl by (repeat constructor; done).
    split; apply is_blocked_false; intros i Hi.
    + apply (resolved_public_key k d Hkd) in Hi as [-> | [-> | -> ]]; [by eapply lifted_at| |by eapply lifted_at].
      eapply (untouched_at b b1 b2 rows ids devices _ device [k; d]); try done; [|intros; apply Hlegacy].
      apply (pair_apart k d); auto.
    + apply resolved_identity_id in Hi as [-> | -> ]; [by eapply lifted_at|].
      eapply (untouched_at b b1 b2 rows ids devices _ device [k; d]); try done; [|intros; apply Hlegacy].
      apply (pair_apart k d); auto.
Qed.

(** The public keys an unblock finds have the id it is for. *)
Lemma ids_only p b ids : identifiers_for_unblock p b = (Ok ids, b) -> forall i, i ∈ ids ->
  i ∈ resolved_identifiers p \/ identity_id_from_public_key_hex i = Some (split_identifier_flavor p).1.
Proof.
  unfold identifiers_for_unblock. destruct (split_identifier_flavor p) as [raw flavor]. cbn [fst].
  destruct (kv_scan_run (str_bytes BLOCKED_PREFIX) b) as (l1 & H1 & _).
  destruct (kv_scan_run (str_bytes DEVICE_REGISTRY_PREFIX) b) as (l2 & H2 & _).
  rewrite (bind_run _ _ _ _ _ H1), (bind_run _ _ _ _ _ H2). intros [= <-].
  set (P i := i ∈ resolved_identifiers p \/ identity_id_from_public_key_hex i = Some raw).
  assert (forall l ids, (forall i, i ∈ ids -> P i) -> forall i, i ∈ foldl (row_alias raw) ids l -> P i) as Hrow.
  { induction l as [|x l IH]; intros ids Hids; [done|]. cbn. apply IH. intros i. unfold row_alias.
    destruct (dec x.2) as [r|]; [|apply Hids]. repeat case_decide; [|apply Hids..].
    rewrite elem_of_push_unique. intros [?| ->]; [by apply Hids|by right]. }
  assert (forall l ids, (forall i, i ∈ ids -> P i) -> forall i, i ∈ foldl (registry_alias raw) ids l -> P i) as Hreg.
  { induction l as [|x l IH]; intros ids Hids; [done|]. cbn. apply IH. intros i. unfold registry_alias.
    case_decide; [|apply Hids]. rewrite elem_of_push_unique. intros [?| ->]; [by apply Hids|by right]. }
  apply Hreg, Hrow. intros i Hi. by left.
Qed.

(** A row that no id of an unblock reaches. *)
Lemma row_survives b1 b2 ids devices n device :
  (forall k, be_view b2 !! k = if decide (k ∈ ids ≫= lifted_keys devices) then None else be_view b1 !! k) ->
  (forall i dev, i ∈ ids -> block_key i dev = block_key n device -> exists d, dev = Some d /\ d ∉ devices) ->
  be_view b2 !! block_key n device = be_view b1 !! block_key n device.
Proof.
  intros Hv Hids. rewrite Hv, decide_False; [done|].
  intros (i & Hk & Hi)%list_elem_of_bind. unfold lifted_keys in Hk.
  rewrite elem_of_cons, elem_of_app, list_elem_of_fmap, list_elem_of_singleton in Hk.
  destruct Hk as [Hk|[(d & Hk & Hd)|Hk]].
  - by destruct (Hids i None Hi (eq_sym Hk)) as (d & ? & _).
  - destruct (Hids i (Some d) Hi (eq_sym Hk)) as (d' & [= <-] & ?). done.
  - by apply block_not_registry in Hk.
Qed.

(** *** What an unblock under a bare key does not reach *)

Section Gaps.
Context (k d : string) (Hkd : identity_id_from_public_key_hex k = Some d) (Hd : is_valid_identity_id d = true).
Context (Hdn : identity_id_from_public_key_hex d = None) (Hne : k <> d).
Context (Hk : split_identifier_flavor k = (k, Legacy)) (Hpk : public_key_hex_from_peer_id k = None).

Lemma bare_resolved i : i ∈ resolved_identifiers k <-> i = k.
Proof.
  unfold resolved_identifiers. rewrite Hk, Hpk. rewrite decide_True by done. apply list_elem_of_singleton.
Qed.

(** The ids of the unblock are hexadecimal, and none is the identity id. *)
Lemma bare_ids b ids i : identifiers_for_unblock k b = (Ok ids, b) -> i ∈ ids -> plain_id i /\ i <> d.
Proof.
  intros H Hi. apply (ids_only k b ids H) in Hi as [->%bare_resolved|Hi].
  - split; [|done]. by apply hex_plain, (public_key_hex k d).
  - rewrite Hk in Hi. split; [by apply hex_plain, (public_key_hex i k)|]. intros ->. congruence.
Qed.

Lemma unblock_leaves_device dev now b :
  registries_ok b -> (forall id l, known b id = Some l -> dev ∉ l) -> exists b1 b2,
  block (with_device_id (blocked_new now k) dev) b = (Ok tt, b1) /\
  unblock k None b1 = (Ok tt, b2) /\ is_device_blocked k dev b2 = (Ok true, b2).
Proof.
  intros Hok Hdev. destruct (hex_plain k (public_key_hex k d Hkd)) as [Hkp _].
  destruct (block_run (with_device_id (blocked_new now k) dev) b) as (b1 & rows & H1 & _ & Hhas & _ & Hout & _);
    [done|cbn; by rewrite Hk|].
  pose proof (registries_preserved b b1 rows Hout) as Hreg.
  destruct (unblock_run k b1) as (b2 & ids & devices & H2 & Hi2 & Hdevs & Hv2); [intros id data; rewrite Hreg; apply Hok|].
  exists b1, b2. split_and!; [done|done|]. apply (is_blocked_true k (Some dev) b2 k); [by apply bare_resolved|].
  unfold blocked_at. apply orb_true_iff. left. apply bool_decide_eq_true.
  rewrite (row_survives b1 b2 ids devices k (Some dev) Hv2); [apply Hhas; cbn; unfold names; rewrite Hk; left|].
  intros i dv Hi Hkey. destruct (bare_ids b1 ids i Hi2 Hi) as [Hip _].
  destruct (decide (i = k)) as [->|Hik]; [|exfalso; by eapply apart_key, Hkey; [|apply plain_apart]].
  rewrite !block_key_path in Hkey. apply app_inv_head, app_inv_head in Hkey.
  destruct dv as [d0|]; [|done]. injection Hkey as ->%str_bytes_inj. exists dev. split; [done|].
  rewrite Hdevs. intros (j & l & _ & Hl & Hin). apply (Hdev j l); [|done]. unfold known in *. by rewrite Hreg in Hl.
Qed.

Lemma unblock_leaves_identity now b : registries_ok b -> exists b1 b2,
  block (blocked_new now ("pk:" +:+ k)) b = (Ok tt, b1) /\ unblock k None b1 = (Ok tt, b2) /\
  forall device, is_blocked ("pk:" +:+ k) device b2 = (Ok true, b2) /\ is_blocked ("id:" +:+ d) device b2 = (Ok true, b2).
Proof.
  intros Hok. destruct (hex_plain d Hd) as [Hdp _].
  destruct (block_run (blocked_new now ("pk:" +:+ k)) b) as (b1 & rows & H1 & _ & Hhas & _ & Hout & _);
    [done|intros _; cbn [bi_peer_id blocked_new]; rewrite (derived_public_key k d Hkd); by eexists|].
  destruct (unblock_run k b1) as (b2 & ids & devices & H2 & Hi2 & Hdevs & Hv2).
  { intros id data. rewrite (registries_preserved b b1 rows Hout). apply Hok. }
  assert (is_Some (be_view b2 !! block_key d None)) as Hrow.
  { rewrite (row_survives b1 b2 ids devices d None Hv2).
    - apply Hhas. cbn [bi_peer_id blocked_new]. rewrite (names_public_key k d Hkd). right. left.
    - intros i dv Hi Hkey. destruct (bare_ids b1 ids i Hi2 Hi) as [Hip Hid].
      exfalso. by eapply apart_key, Hkey; [|apply plain_apart]. }
  exists b1, b2. split_and!; [done|done|]. intros device. split; eapply is_blocked_true.
  - apply (resolved_public_key k d Hkd). right. by right.
  - by apply blocked_at_row.
  - apply resolved_identity_id. by left.
  - by apply blocked_at_row.
Qed.

End Gaps.

(** What an unblock leaves behind.  A device that was blocked by its id alone and is in
    no registry stays blocked after its peer is unblocked as a whole; and a block of [pk:k]
    that is lifted under the bare key remains in force under the prefixed key and the
    identity id. *)
Theorem unblock_gaps k d dev now b :
  identity_id_from_public_key_hex k = Some d -> is_valid_identity_id d = true ->
  identity_id_from_public_key_hex d = None -> k <> d ->
  split_identifier_flavor k = (k, Legacy) -> public_key_hex_from_peer_id k = None ->
  registries_ok b -> (forall id l, known b id = Some l -> dev ∉ l) ->
  (exists b1 b2, block (with_device_id (blocked_new now k) dev) b = (Ok tt, b1) /\
     unblock k None b1 = (Ok tt, b2) /\ is_device_blocked k dev b2 = (Ok true, b2)) /\
  (exists b1 b2, block (blocked_new now ("pk:" +:+ k)) b = (Ok tt, b1) /\ unblock k None b1 = (Ok tt, b2) /\
     forall device, is_blocked ("pk:" +:+ k) device b2 = (Ok true, b2) /\ is_blocked ("id:" +:+ d) device b2 = (Ok true, b2)).
Proof.
  intros. split; [by apply (unblock_leaves_device k d)|by apply unblock_leaves_identity].
Qed.

(** *** Deleted peers *)

Lemma rows_deleted blocked derived devices r :
  r ∈ block_rows blocked derived devices -> bi_is_deleted r = bi_is_deleted blocked.
Proof.
  unfold block_rows. destruct (split_identifier_flavor (bi_peer_id blocked)) as [raw flavor].
  destruct derived as [d|]; cbn [from_option];
    destruct (bi_device_id blocked) as [dev|]; rewrite ?elem_of_app, ?list_elem_of_fmap, ?list_elem_of_singleton, ?elem_of_nil;
    intros Hr; destruct_or?; naive_solver.
Qed.

(** The last block of a peer decides whether it counts as deleted. *)
Lemma block_sets_deleted p blocked b : registries_ok b -> resolved_identifiers p = [p] ->
  split_identifier_flavor p = (p, Legacy) -> bi_peer_id blocked = p -> bi_device_id blocked = None ->
  exists b', block blocked b = (Ok tt, b') /\ registries_ok b' /\
    is_blocked p None b' = (Ok true, b') /\ is_blocked_and_deleted p b' = (Ok (bi_is_deleted blocked), b').
Proof.
  intros Hok Hres Hs Hp Hdev.
  destruct (block_run blocked b (fun _ => Hok)) as (b' & rows & H & _ & Hhas & Hin & Hout & devs & Hrows).
  { by rewrite Hp, Hs. }
  assert (p ∈ names (bi_peer_id blocked)) as Hn by (rewrite Hp; unfold names; rewrite Hs; left).
  pose proof (names_rows blocked devs p Hn) as Hkey. rewrite <-Hrows, Hdev in Hkey.
  destruct (Hin _ Hkey) as (r & v & Hr & _ & Hv & Hd).
  exists b'. split_and!; [done| | |].
  - intros id data. rewrite (registries_preserved b b' rows Hout). apply Hok.
  - apply (is_blocked_true p None b' p); [rewrite Hres; left|]. apply blocked_at_row. by eexists.
  - unfold is_blocked_and_deleted, is_blocked_and_deleted_resolved. rewrite Hres. cbn [any_of].
    rewrite (bind_run _ _ _ (bi_is_deleted blocked) b'); [by destruct (bi_is_deleted blocked)|].
    unfold is_blocked_and_deleted_exact. rewrite (bind_run _ _ _ _ _ (kv_get_run _ b')), Hv.
    unfold kv_dec, lift, bind, ok_or. rewrite Hd. rewrite Hrows in Hr. by rewrite (rows_deleted _ _ _ _ Hr).
Qed.

(** A second block takes a deletion back.  A peer that was blocked and deleted, whose
    messages are to be dropped, and is then blocked again, as the automatic block does, is
    still blocked but no longer counts as deleted. *)
Theorem reblock_undeletes p reason now now' b : registries_ok b -> resolved_identifiers p = [p] ->
  split_identifier_flavor p = (p, Legacy) ->
  exists b1 b2, block_and_delete now p reason b = (Ok tt, b1) /\ is_blocked_and_deleted p b1 = (Ok true, b1) /\
    block (blocked_new now' p) b1 = (Ok tt, b2) /\ is_blocked p None b2 = (Ok true, b2) /\
    is_blocked_and_deleted p b2 = (Ok false, b2).
Proof.
  intros Hok Hres Hs.
  destruct (block_sets_deleted p (mkBlocked p None now (match reason with Some r => Some r | None => None end) None true Legacy) b)
    as (b1 & H1 & Hok1 & _ & Hd1); [done..|].
  destruct (block_sets_deleted p (blocked_new now' p) b1) as (b2 & H2 & _ & Hb2 & Hd2); [done..|].
  exists b1, b2. done.
Qed.

End Laws.

(** ** Interrupted writes

    A backend that refuses every write after the first [writes_left]. *)

Record Limited (B : Type) : Type := mkLimited { writes_left : nat; inner : B }.
Arguments mkLimited {B}.
Arguments writes_left {B}.
Arguments inner {B}.

#[export] Instance limited_backend {B} `{StorageBackend B} : StorageBackend (Limited B) := {|
  be_put s k v :=
    match writes_left s with
    | O => Err "full"%string
    | S n => let! b := be_put (inner s) k v in Ok (mkLimited n b)
    end;
  be_get s k := be_get (inner s) k;
  be_remove s k := let! b := be_remove (inner s) k in Ok (mkLimited (writes_left s) b);
  be_scan_prefix s p := be_scan_prefix (inner s) p;
  be_count_prefix s p := be_count_prefix (inner s) p;
  be_flush s := let! b := be_flush (inner s) in Ok (mkLimited (writes_left s) b);
  be_approximate_size s := be_approximate_size (inner s);
|}.

Section Interrupted.
Context {B : Type} {SB : StorageBackend B} {LB : LawfulBackend B} {IL : IdLib} {KL : KeyLib}.
Context {CB : Codec BlockedIdentity} {LC : LawfulCodec BlockedIdentity}.
Context {CD : Codec (list string)} {LD : LawfulCodec (list string)}.

Implicit Types s : Limited B.

Lemma write_entry_limited r s :
  (writes_left s = O /\ exists e, write_block_entry r s = (Err e, s)) \/
  exists s', write_block_entry r s = (Ok tt, s') /\ is_Some (be_view (inner s') !! storage_key r) /\
    forall k, is_Some (be_view (inner s) !! k) -> is_Some (be_view (inner s') !! k).
Proof.
  destruct (enc_dec r) as (v & Hv & _). unfold write_block_entry, kv_enc, lift, bind, ok_or, kv_put, or_throw, writes.
  rewrite Hv. cbn. destruct s as [[|n] b]; cbn; [left; eauto|right].
  destruct (be_put_law b (storage_key r) v) as (b' & -> & Hb'). cbn. exists (mkLimited n b'). split; [done|]. cbn.
  rewrite Hb'. split; [rewrite lookup_insert_eq; by eexists|]. intros k Hk.
  destruct (decide (k = storage_key r)) as [->|]; [rewrite lookup_insert_eq; by eexists|by rewrite lookup_insert_ne].
Qed.

(** Whatever happens on the way, no row that was written is lost. *)
Lemma write_rows_limited rows s k :
  is_Some (be_view (inner s) !! k) -> is_Some (be_view (inner (write_rows rows s).2) !! k).
Proof.
  revert s. induction rows as [|r rows IH]; intros s Hk; [done|]. unfold write_rows. cbn [mfold]. unfold bind.
  destruct (write_entry_limited r s) as [(_ & e & ->)|(s' & -> & _ & Hm)]; [done|]. by apply IH, Hm.
Qed.

(** C25: an interrupted block fails closed.  However many of the writes of a block of a
    public key go through before the storage refuses one, either none did and the call
    fails, or the identity id of the key is blocked. *)
Theorem block_fails_closed k d blocked n b :
  identity_id_from_public_key_hex k = Some d -> bi_peer_id blocked = "pk:" +:+ k -> registries_ok b ->
  let '(r, s) := block blocked (mkLimited n b) in
  (n = O /\ s = mkLimited n b /\ exists e, r = Err e) \/ is_blocked ("id:" +:+ d) (bi_device_id blocked) (inner s) = (Ok true, inner s).
Proof.
  intros Hkd Hp Hok.
  assert (exists l, bi_device_id blocked = None ->
    get_known_devices (B := Limited B) (split_identifier_flavor (bi_peer_id blocked)).1 (mkLimited n b) = (Ok l, mkLimited n b)) as [l Hl].
  { destruct (registries_known b (split_identifier_flavor (bi_peer_id blocked)).1 Hok) as [l Hl]. exists l. intros _.
    unfold known, get_known_devices in *. destruct (split_identifier_flavor _) as [raw flavor]. cbn [fst] in Hl.
    unfold bind, kv_get, or_throw, reads. cbn. rewrite be_get_law.
    destruct (be_view b !! registry_key raw) as [data|]; [|by injection Hl as <-]. unfold kv_dec, lift. by rewrite Hl. }
  rewrite (block_writes blocked (mkLimited n b) l Hl) by (intros _; rewrite Hp, (derived_public_key k d Hkd); by eexists).
  rewrite Hp, (derived_public_key k d Hkd). unfold block_rows. rewrite Hp.
  change ("pk:" +:+ k) with (PUBLIC_KEY_PREFIX +:+ k). rewrite split_public_key. cbn [from_option app].
  set (row := block_as blocked d (bi_device_id blocked) IdentityId). rewrite write_rows_cons. unfold bind.
  destruct (write_entry_limited row (mkLimited n b)) as [(H0 & e & ->)|(s' & -> & Hrow & _)].
  { left. cbn in H0. split_and!; [done|done|by exists e]. }
  match goal with |- context [write_rows ?rows s'] => pose proof (write_rows_limited rows s' (storage_key row) Hrow) as Hk end.
  destruct (write_rows _ s') as [r s]. right. cbn [snd] in Hk.
  apply (is_blocked_true _ _ _ d); [apply resolved_identity_id; by left|]. unfold blocked_at.
  unfold storage_key, row, block_as in Hk. cbn in Hk.
  destruct (bi_device_id blocked) as [dv|]; apply orb_true_iff; [left|right]; by apply bool_decide_eq_true.
Qed.

End Interrupted.

(** ** Examples *)

Module BlockedExamples.
Import SampleIds.

#[local] Instance flavor_countable : Countable IdentifierFlavor.
Proof.
  refine (inj_countable' (fun f => match f with Legacy => None | PublicKey => Some true | IdentityId => Some false end)
    (fun o : option bool => match o with None => Legacy | Some true => PublicKey | Some false => IdentityId end) _).
  by intros [].
Defined.

#[local] Instance blocked_countable : Countable BlockedIdentity.
Proof.
  refine (inj_countable' (fun r => (bi_peer_id r, bi_device_id r, bi_blocked_at r,
      (bi_reason r, bi_notes r, bi_is_deleted r, bi_identifier_flavor r)))
    (fun '(p, d, t, (r, n, x, f)) => mkBlocked p d t r n x f) _). by intros [].
Defined.

#[local] Instance ex_iter : HashIter bytes bytes := canonical_iter.
#[local] Instance ex_iter_s : HashIter string () := canonical_iter.
#[local] Instance ex_codec : Codec BlockedIdentity := any_codec.
#[local] Instance ex_lawful : LawfulCodec BlockedIdentity := any_codec_lawful.
#[local] Instance ex_codec_d : Codec (list string) := any_codec.
#[local] Instance ex_lawful_d : LawfulCodec (list string) := any_codec_lawful.

(** A store in which the phone of the peer is known. *)
Definition phones : bytes := default [] (enc ["phone"%string]).
Definition b0 : MemoryStorage := mkMemory (<[registry_key KEY := phones]> ∅).

Definition request : BlockedIdentity := blocked_new 7 ("pk:" +:+ KEY).

Lemma b0_view : be_view b0 = <[registry_key KEY := phones]> ∅.
Proof. reflexivity. Qed.

Lemma b0_ok : registries_ok b0.
Proof.
  intros i data. rewrite b0_view. intros [[_ <-]|[_ H]]%lookup_insert_Some; [|by rewrite lookup_empty in H].
  exists ["phone"%string]. vm_compute. reflexivity.
Qed.

Lemma b0_rows x device : be_view b0 !! block_key x device = None.
Proof.
  rewrite b0_view, lookup_insert_ne by (intros H; by apply (block_not_registry x device KEY)). apply lookup_empty.
Qed.

Lemma b0_tablet x l : known b0 x = Some l -> "tablet"%string ∉ l.
Proof.
  unfold known. rewrite b0_view. destruct (decide (registry_key KEY = registry_key (split_identifier_flavor x).1)) as [<-|H].
  - rewrite lookup_insert_eq. intros Hd. assert (dec phones = Some ["phone"%string]) as Hp by (vm_compute; reflexivity).
    rewrite Hp in Hd. injection Hd as <-. by rewrite list_elem_of_singleton.
  - rewrite lookup_insert_ne, lookup_empty by done. intros [= <-]. apply not_elem_of_nil.
Qed.

(** Blocked under the key, the id and the transport id; for a device seen later too. *)
Example blocked_everywhere :
  let b := (block request b0).2 in
  (is_blocked KEY None b).1 = Ok true /\ (is_blocked ID None b).1 = Ok true /\
  (is_blocked ("12D3" +:+ KEY) (Some "tablet"%string) b).1 = Ok true /\ (is_blocked "somebody" None b).1 = Ok false.
Proof. vm_compute. repeat split; reflexivity. Qed.

Lemma block_covers_witness : exists b', block request b0 = (Ok tt, b') /\
    (forall q device, same_peer (bi_peer_id request) q -> bi_device_id request = None \/ bi_device_id request = device ->
       is_blocked q device b' = (Ok true, b')) /\
    (Forall plain_id (names (bi_peer_id request)) -> forall q device,
       (forall n i, n ∈ names (bi_peer_id request) -> i ∈ resolved_identifiers q -> apart n i) ->
       (is_blocked q device b').1 = (is_blocked q device b0).1).
Proof.
  apply (block_covers request b0); [intros _; exact b0_ok|]. intros _. exists ID. vm_compute. reflexivity.
Defined.

Lemma block_lifted_witness : exists b1 b2, block request b0 = (Ok tt, b1) /\ unblock ID None b1 = (Ok tt, b2) /\
    (forall device, is_blocked ("pk:" +:+ KEY) device b1 = (Ok true, b1) /\ is_blocked ("id:" +:+ ID) device b1 = (Ok true, b1)) /\
    (forall device, (forall x, device = Some x -> exists l, known b0 KEY = Some l /\ x ∈ l) ->
       is_blocked ("pk:" +:+ KEY) device b2 = (Ok false, b2) /\ is_blocked ("id:" +:+ ID) device b2 = (Ok false, b2)).
Proof.
  apply (block_lifted KEY ID ID request b0); [vm_compute; reflexivity..|discriminate|exact b0_ok|reflexivity|reflexivity| |].
  - right. vm_compute. reflexivity.
  - intros device. split; apply b0_rows.
Defined.

Lemma unblock_gaps_witness :
  (exists b1 b2, block (with_device_id (blocked_new 7 KEY) "tablet") b0 = (Ok tt, b1) /\
     unblock KEY None b1 = (Ok tt, b2) /\ is_device_blocked KEY "tablet" b2 = (Ok true, b2)) /\
  (exists b1 b2, block request b0 = (Ok tt, b1) /\ unblock KEY None b1 = (Ok tt, b2) /\
     forall device, is_blocked ("pk:" +:+ KEY) device b2 = (Ok true, b2) /\ is_blocked ("id:" +:+ ID) device b2 = (Ok true, b2)).
Proof.
  apply (unblock_gaps KEY ID "tablet" 7 b0);
    [vm_compute; reflexivity|vm_compute; reflexivity|vm_compute; reflexivity|discriminate
    |vm_compute; reflexivity|vm_compute; reflexivity|exact b0_ok|exact b0_tablet].
Defined.

Lemma reblock_undeletes_witness : exists b1 b2, block_and_delete 7 "mallory" None b0 = (Ok tt, b1) /\
    is_blocked_and_deleted "mallory" b1 = (Ok true, b1) /\
    block (blocked_new 8 "mallory") b1 = (Ok tt, b2) /\ is_blocked "mallory" None b2 = (Ok true, b2) /\
    is_blocked_and_deleted "mallory" b2 = (Ok false, b2).
Proof. apply (reblock_undeletes "mallory" None 7 8 b0); [exact b0_ok|vm_compute; reflexivity|vm_compute; reflexivity]. Defined.

Lemma block_fails_closed_witness :
  let '(r, s) := block request (mkLimited 1 b0) in
  (1%nat = O /\ s = mkLimited 1 b0 /\ exists e, r = Err e) \/ is_blocked ("id:" +:+ ID) (bi_device_id request) (inner s) = (Ok true, inner s).
Proof. apply (block_fails_closed KEY ID request 1 b0); [vm_compute; reflexivity|reflexivity|exact b0_ok]. Defined.

End BlockedExamples.
