(* ===== verification/History.v ===== *)
(** * Message history ([core/src/store/history.rs])

    The record of every message sent and received, in a storage backend: queries that
    leave out the messages of blocked peers, hiding and restoring them, retention.
    [serde_json] is a [Codec]; the lower-case mapping of all of Unicode, which [search]
    applies to texts, is a parameter.  Counters of stored records are below [2^32]. *)

From S2P Require Import Prelude Backend Effects KvStore.

(** ** Data *)

Inductive MessageDirection : Type := DSent | DReceived.

#[global] Instance MessageDirection_eq_dec : EqDecision MessageDirection.
Proof. solve_decision. Defined.

Record MessageRecord : Type := mkRecord {
  mr_id : string;
  mr_direction : MessageDirection;
  mr_peer_id : string;
  mr_content : string;
  mr_timestamp : Z;
  mr_sender_timestamp : Z;
  mr_delivered : bool;
  mr_hidden : bool;
}.

#[global] Instance MessageRecord_eq_dec : EqDecision MessageRecord.
Proof. solve_decision. Defined.

Record HistoryStats : Type := mkHistoryStats {
  total_messages : Z;
  sent_count : Z;
  received_count : Z;
  undelivered_count : Z;
}.

Definition MSG_PREFIX : bytes := str_bytes "msg_".

Definition set_hidden (r : MessageRecord) (h : bool) : MessageRecord :=
  mkRecord (mr_id r) (mr_direction r) (mr_peer_id r) (mr_content r) (mr_timestamp r) (mr_sender_timestamp r)
    (mr_delivered r) h.

Definition set_delivered (r : MessageRecord) : MessageRecord :=
  mkRecord (mr_id r) (mr_direction r) (mr_peer_id r) (mr_content r) (mr_timestamp r) (mr_sender_timestamp r) true
    (mr_hidden r).

Definition adjust_legacy_timestamps (r : MessageRecord) : MessageRecord :=
  if mr_sender_timestamp r =? 0
  then mkRecord (mr_id r) (mr_direction r) (mr_peer_id r) (mr_content r) (mr_timestamp r) (mr_timestamp r)
         (mr_delivered r) (mr_hidden r)
  else r.

(** [id] is a fresh UUID and [now] the clock in seconds. *)
Definition new_sent (id : string) (now : Z) (peer_id content : string) : MessageRecord :=
  mkRecord id DSent peer_id content now now false false.

Definition new_received (id : string) (now : Z) (peer_id content : string) (sender_timestamp : Z) : MessageRecord :=
  mkRecord id DReceived peer_id content now sender_timestamp true false.

(** [a.eq_ignore_ascii_case(b)]. *)
Definition eq_ignore_ascii_case (a b : string) : bool := bool_decide (to_lowercase a = to_lowercase b).

(** [hay.contains(needle)]. *)
Fixpoint contains_bytes (needle hay : bytes) : bool :=
  starts_with needle hay || match hay with [] => false | _ :: hay => contains_bytes needle hay end.

Definition contains (hay needle : string) : bool := contains_bytes (str_bytes needle) (str_bytes hay).

Definition history_key (id : string) : bytes := MSG_PREFIX ++ str_bytes id.

Definition newest_first (a b : MessageRecord) : Prop := mr_timestamp b <= mr_timestamp a.
Definition oldest_first (a b : bytes * MessageRecord) : Prop := mr_timestamp a.2 <= mr_timestamp b.2.

#[global] Instance newest_first_dec : RelDecision newest_first.
Proof. intros a b. unfold newest_first. apply _. Defined.
#[global] Instance oldest_first_dec : RelDecision oldest_first.
Proof. intros a b. unfold oldest_first. apply _. Defined.

(** ** The manager *)

Section History.
Context {B : Type} {SB : StorageBackend B} {CR : Codec MessageRecord}.
Context (unicode_lower : string -> string).

Definition hs_scan : M B (list (bytes * bytes)) := kv_scan MSG_PREFIX.

Definition add (record : MessageRecord) : M B unit :=
  let* value := kv_enc record in
  kv_put (history_key (mr_id record)) value.

Definition history_get (id : string) : M B (option MessageRecord) :=
  let* data := kv_get (history_key id) in
  match data with
  | Some data => let* record := kv_dec data in ret (Some (adjust_legacy_timestamps record))
  | None => ret None
  end.

(** The records of a scan that satisfy [keep], in its order; the first that cannot be read is an error. *)
Definition collect_step (keep : MessageRecord -> bool) (records : list MessageRecord) (kv : bytes * bytes) :
    M B (list MessageRecord) :=
  let* record := kv_dec kv.2 in
  let record := adjust_legacy_timestamps record in
  ret (if keep record then records ++ [record] else records).

Definition collect (keep : MessageRecord -> bool) (all : list (bytes * bytes)) : M B (list MessageRecord) :=
  mfold (collect_step keep) [] all.

(** Newest first, at most [limit]. *)
Definition newest (limit : Z) (records : list MessageRecord) : list MessageRecord :=
  take (Z.to_nat (Z.min limit (zlen records))) (stable_sort newest_first records).

Definition wanted (peer_filter : option string) (include_hidden : bool) (r : MessageRecord) : bool :=
  (negb (mr_hidden r) || include_hidden) &&
  match peer_filter with Some peer => eq_ignore_ascii_case (mr_peer_id r) peer | None => true end.

Definition recent_internal (peer_filter : option string) (limit : Z) (include_hidden : bool) : M B (list MessageRecord) :=
  let* all := hs_scan in
  let* records := collect (wanted peer_filter include_hidden) all in
  ret (newest limit records).

Definition recent (peer_filter : option string) (limit : Z) : M B (list MessageRecord) :=
  recent_internal peer_filter limit false.

Definition recent_including_hidden (peer_filter : option string) (limit : Z) : M B (list MessageRecord) :=
  recent_internal peer_filter limit true.

Definition conversation (peer_id : string) (limit : Z) : M B (list MessageRecord) := recent (Some peer_id) limit.

(** The common loop of [hide_messages_for_peer] and [unhide_messages_for_peer]. *)
Definition set_hidden_step (h : bool) (peer_id : string) (count : Z) (kv : bytes * bytes) : M B Z :=
  let* record := kv_dec kv.2 in
  if negb (bool_decide (mr_hidden record = h)) && eq_ignore_ascii_case (mr_peer_id record) peer_id then
    let* updated := kv_enc (set_hidden record h) in
    let* _ := kv_put (history_key (mr_id record)) updated in
    ret (count + 1)
  else ret count.

Definition set_hidden_for_peer (h : bool) (peer_id : string) : M B Z :=
  let* all := hs_scan in
  mfold (set_hidden_step h peer_id) 0 all.

Definition unhide_messages_for_peer (peer_id : string) : M B Z := set_hidden_for_peer false peer_id.
Definition hide_messages_for_peer (peer_id : string) : M B Z := set_hidden_for_peer true peer_id.

Definition search (query : string) (limit : Z) : M B (list MessageRecord) :=
  let query_lower := unicode_lower query in
  let* all := hs_scan in
  let* records := collect (fun r => negb (mr_hidden r) && contains (unicode_lower (mr_content r)) query_lower) all in
  ret (newest limit records).

(** A loop that removes the entries whose record satisfies [gone]. *)
Definition remove_where (gone : MessageRecord -> bool) (all : list (bytes * bytes)) : M B Z :=
  mfold (fun removed kv =>
    let* record := kv_dec kv.2 in
    if gone record then let* _ := kv_remove kv.1 in ret (removed + 1) else ret removed) 0 all.

Definition remove_conversation (peer_id : string) : M B unit :=
  let* all := hs_scan in
  let* _ := remove_where (fun r => eq_ignore_ascii_case (mr_peer_id (adjust_legacy_timestamps r)) peer_id) all in
  ret tt.

Definition mark_delivered (id : string) : M B unit :=
  let* r := history_get id in
  match r with
  | Some record => add (set_delivered record)
  | None => ret tt
  end.

Definition clear : M B unit :=
  let* all := hs_scan in
  mfold (fun _ kv => kv_remove kv.1) tt all.

Definition history_delete (id : string) : M B unit := kv_remove (history_key id).

Definition count_record (stats : HistoryStats) (r : MessageRecord) : HistoryStats :=
  match mr_direction r with
  | DSent => mkHistoryStats (total_messages stats + 1) (sent_count stats + 1) (received_count stats)
               (undelivered_count stats + if mr_delivered r then 0 else 1)
  | DReceived => mkHistoryStats (total_messages stats + 1) (sent_count stats) (received_count stats + 1)
                   (undelivered_count stats)
  end.

Definition stats : M B HistoryStats :=
  let* all := hs_scan in
  mfold (fun stats kv =>
    let* record := kv_dec kv.2 in
    ret (count_record stats (adjust_legacy_timestamps record))) (mkHistoryStats 0 0 0 0) all.

Definition history_count (b : B) : Z :=
  match be_count_prefix b MSG_PREFIX with Ok n => cast_u 32 n | _ => 0 end.

(** Records that cannot be read are skipped here. *)
Definition enforce_retention (max_messages : Z) : M B Z :=
  let* all := hs_scan in
  if zlen all <=? max_messages then ret 0
  else
    let records := stable_sort oldest_first (omap (fun kv => (fun r => (kv.1, r)) <$> dec kv.2) all) in
    let to_remove := sat_sub (zlen records) max_messages in
    let* _ := mfold (fun _ kr => kv_remove kr.1) tt (take (Z.to_nat to_remove) records) in
    ret (cast_u 32 to_remove).

Definition prune_before (before_timestamp : Z) : M B Z :=
  let* all := hs_scan in
  remove_where (fun r => mr_timestamp r <? before_timestamp) all.

Definition history_flush (b : B) : B := match be_flush b with Ok b => b | _ => b end.

End History.

(** ** What the operations do to a lawful backend *)

(** The stored history. *)
Abbreviation hview := (under MSG_PREFIX).

Section Laws.
Context {B : Type} {SB : StorageBackend B} {LB : LawfulBackend B}.
Context {CR : Codec MessageRecord} {LR : LawfulCodec MessageRecord}.

Implicit Types b : B.

(** Every entry can be read and is stored under its own id. *)
Definition history_ok b : Prop := map_Forall (fun k v => exists r, dec v = Some r /\ k = history_key (mr_id r)) (hview b).

Lemma history_key_prefix id : starts_with MSG_PREFIX (history_key id) = true.
Proof. apply starts_with_app. Qed.

Lemma wp_hs_put k v (Q : unit -> B -> Prop) E b :
  starts_with MSG_PREFIX k = true -> (forall b', hview b' = <[k := v]> (hview b) -> Q tt b') -> wp (kv_put k v) Q E b.
Proof. intros Hk H. apply wp_kv_put. intros b' Hb'. apply H. by apply under_put. Qed.

Lemma wp_hs_remove k (Q : unit -> B -> Prop) E b :
  (forall b', hview b' = delete k (hview b) -> Q tt b') -> wp (kv_remove k) Q E b.
Proof. intros H. apply wp_kv_remove. intros b' Hb'. apply H. by apply under_remove. Qed.

(** *** Reading *)

(** The records among entries, as queries see them. *)
Definition read_entries (l : list (bytes * bytes)) : list MessageRecord :=
  adjust_legacy_timestamps <$> omap (fun kv => dec kv.2) l.

Definition readable (l : list (bytes * bytes)) : Prop := Forall (fun kv => is_Some (dec kv.2)) l.

Lemma read_entries_cons k v l r : dec v = Some r ->
  read_entries ((k, v) :: l) = adjust_legacy_timestamps r :: read_entries l.
Proof. intros Hr. unfold read_entries. cbn. by rewrite Hr. Qed.

Lemma collect_step_ok keep acc k v r b : dec v = Some r ->
  collect_step keep acc (k, v) b =
  (Ok (acc ++ if keep (adjust_legacy_timestamps r) then [adjust_legacy_timestamps r] else []), b).
Proof. intros Hr. unfold collect_step, kv_dec, bind. cbn. rewrite Hr. cbn. case_if; [done|]. by rewrite app_nil_r. Qed.

Lemma collect_loop_ok keep acc l b : readable l ->
  mfold (collect_step keep) acc l b = (Ok (acc ++ filter (fun r => Is_true (keep r)) (read_entries l)), b).
Proof.
  intros Hl. revert acc. induction Hl as [|[k v] l [r Hr] _ IH]; intros acc; [by cbn; rewrite app_nil_r|]. cbn in Hr.
  cbn [mfold]. unfold bind at 1. rewrite (collect_step_ok _ _ _ _ r) by done. cbn beta iota. rewrite IH.
  rewrite <-app_assoc. f_equal. f_equal. f_equal. rewrite (read_entries_cons _ _ _ r) by done. rewrite filter_cons.
  destruct (keep (adjust_legacy_timestamps r)) eqn:Hk.
  - by rewrite decide_True by done.
  - by rewrite decide_False by (intros []).
Qed.

Lemma collect_ok keep l b : readable l -> collect keep l b = (Ok (filter (fun r => Is_true (keep r)) (read_entries l)), b).
Proof. intros Hl. exact (collect_loop_ok keep [] l b Hl). Qed.

Lemma collect_loop_corrupt keep acc l b k v :
  (k, v) ∈ l -> dec v = None -> mfold (collect_step keep) acc l b = (Err "Internal"%string, b).
Proof.
  intros Hin Hv. revert acc. induction l as [|[k' v'] l IH]; intros acc; [by apply elem_of_nil in Hin|].
  cbn [mfold]. unfold bind at 1. destruct (dec v') as [r|] eqn:Hr.
  - rewrite (collect_step_ok _ _ _ _ r) by done. cbn beta iota.
    apply IH. apply elem_of_cons in Hin as [[= -> ->]|?]; [congruence|done].
  - unfold collect_step, kv_dec, bind. cbn. by rewrite Hr.
Qed.

Lemma collect_corrupt keep l b k v : (k, v) ∈ l -> dec v = None -> collect keep l b = (Err "Internal"%string, b).
Proof. exact (collect_loop_corrupt keep [] l b k v). Qed.

Lemma ok_readable b l : history_ok b -> l ≡ₚ map_to_list (hview b) -> readable l.
Proof.
  intros Hok Hp. apply Forall_forall. intros [k v]. rewrite Hp, elem_of_map_to_list. intros Hv.
  destruct (Hok k v Hv) as (r & Hr & _). by exists r.
Qed.

#[export] Instance read_entries_proper : Proper ((≡ₚ) ==> (≡ₚ)) read_entries.
Proof. intros l1 l2 Hl. unfold read_entries. by rewrite Hl. Qed.

Lemma filter_perm {A} (P : A -> Prop) `{forall x, Decision (P x)} l l' : l ≡ₚ l' -> filter P l ≡ₚ filter P l'.
Proof. by intros ->. Qed.

#[export] Instance newest_first_total : Total newest_first.
Proof. intros a b. unfold newest_first. lia. Qed.

#[export] Instance newest_first_trans : Transitive newest_first.
Proof. intros a b c. unfold newest_first. lia. Qed.

(** *** Records by id *)

Definition record_at b (id : string) : option MessageRecord := hview b !! history_key id ≫= dec.

Lemma record_at_id b id r : history_ok b -> record_at b id = Some r -> mr_id r = id.
Proof.
  unfold record_at. intros Hok H. destruct (hview b !! history_key id) as [v|] eqn:Hv; [|done]. cbn in H.
  destruct (Hok _ _ Hv) as (r' & Hr & Hk). rewrite H in Hr. injection Hr as <-.
  unfold history_key in Hk. by apply app_inv_head, str_bytes_inj in Hk.
Qed.

Lemma elem_of_read b r : history_ok b ->
  r ∈ read_entries (map_to_list (hview b)) <-> exists id r0, record_at b id = Some r0 /\ r = adjust_legacy_timestamps r0.
Proof.
  intros Hok. unfold read_entries. rewrite list_elem_of_fmap. split.
  - intros (r0 & -> & ([k v] & Hkv & Hd)%list_elem_of_omap). apply elem_of_map_to_list in Hkv. cbn in Hd.
    destruct (Hok k v Hkv) as (r' & Hr & ->). rewrite Hd in Hr. injection Hr as <-.
    exists (mr_id r0), r0. unfold record_at. by rewrite Hkv.
  - intros (id & r0 & H & ->). exists r0. split; [done|]. apply list_elem_of_omap. unfold record_at in H.
    destruct (hview b !! history_key id) as [v|] eqn:Hv; [|done]. exists (history_key id, v).
    split; [by apply elem_of_map_to_list|done].
Qed.

(** *** Adding *)

Lemma history_key_inj id id' : history_key id = history_key id' -> id = id'.
Proof. intros H. by apply app_inv_head, str_bytes_inj in H. Qed.

Lemma add_run r b : history_ok b -> exists b', add r b = (Ok tt, b') /\ history_ok b' /\
  forall id, record_at b' id = if decide (id = mr_id r) then Some r else record_at b id.
Proof.
  intros Hok. destruct (wp_run (add r) (fun _ b' => history_ok b' /\
    forall id, record_at b' id = if decide (id = mr_id r) then Some r else record_at b id) b) as ([] & b' & H & ? & ?);
    [|by exists b'].
  unfold add. wp_steps. apply wp_kv_enc. intros v _ Hd. apply wp_hs_put; [apply history_key_prefix|].
  intros b' Hb'. split.
  - unfold history_ok. rewrite Hb'. apply map_Forall_insert_2; [by exists r|done].
  - intros id. unfold record_at. rewrite Hb'. case_decide as Hi.
    + subst id. by rewrite lookup_insert_eq.
    + rewrite lookup_insert_ne; [done|]. by intros ?%history_key_inj.
Qed.

(** *** Hiding *)

Definition mark (h : bool) (peer : string) (r : MessageRecord) : MessageRecord :=
  if eq_ignore_ascii_case (mr_peer_id r) peer then set_hidden r h else r.

Lemma mark_same h peer r : mr_hidden r = h -> mark h peer r = r.
Proof. intros <-. unfold mark. case_if; [|done]. by destruct r. Qed.

Lemma mark_mark h h' peer r : mark h peer (mark h' peer r) = mark h peer r.
Proof. unfold mark. destruct (eq_ignore_ascii_case (mr_peer_id r) peer) eqn:Hp; cbn; by rewrite Hp. Qed.

(** A query that does not ask for hidden messages shows no message of a hidden peer. *)
Lemma marked_unwanted pf peer r :
  Is_true (wanted pf false (adjust_legacy_timestamps (mark true peer r))) ->
  eq_ignore_ascii_case (mr_peer_id (adjust_legacy_timestamps (mark true peer r))) peer = false.
Proof.
  unfold wanted, adjust_legacy_timestamps, mark. destruct (eq_ignore_ascii_case (mr_peer_id r) peer) eqn:Hp.
  - cbn. by destruct (mr_sender_timestamp r =? 0).
  - by destruct (mr_sender_timestamp r =? 0).
Qed.

Lemma wp_set_hidden_loop h peer l n (Q : Z -> B -> Prop) E b :
  NoDup l.*1 ->
  Forall (fun kv => hview b !! kv.1 = Some kv.2 /\ exists r, dec kv.2 = Some r /\ kv.1 = history_key (mr_id r)) l ->
  (forall n' b', (forall k, if decide (k ∈ l.*1)
      then exists v r, hview b !! k = Some v /\ dec v = Some r /\ k = history_key (mr_id r) /\
             exists v', hview b' !! k = Some v' /\ dec v' = Some (mark h peer r)
      else hview b' !! k = hview b !! k) -> Q n' b') ->
  wp (mfold (set_hidden_step h peer) n l) Q E b.
Proof.
  revert n b. induction l as [|[k v] l IH]; intros n b Hnd Hl HQ; cbn [mfold].
  { apply wp_ret, HQ. intros k. by rewrite decide_False by apply not_elem_of_nil. }
  rewrite fmap_cons in Hnd. apply NoDup_cons in Hnd as [Hn Hnd]. apply Forall_cons in Hl as [(Hk & r & Hr & Hkr) Hl]. cbn [fst snd] in Hk, Hr, Hkr, Hn.
  apply wp_bind. unfold set_hidden_step at 1. cbn [snd]. wp_steps. apply (wp_kv_dec v r); [done|].
  assert (forall n' b1, hview b1 !! k = Some v \/ (exists v', hview b1 !! k = Some v' /\ dec v' = Some (mark h peer r)) ->
    (forall k', k' <> k -> hview b1 !! k' = hview b !! k') ->
    (hview b1 !! k = Some v -> mark h peer r = r) ->
    wp (mfold (set_hidden_step h peer) n' l) Q E b1) as Hrest.
  { intros n' b1 Hk1 Hother Hsame. apply IH; [done| |].
    - apply Forall_forall. intros [k' v'] Hin. rewrite Forall_forall in Hl. destruct (Hl _ Hin) as [H1 H2]. cbn [fst snd] in *.
      rewrite Hother; [by split|]. intros ->. apply Hn. by apply (list_elem_of_fmap_2 fst l (k, v')).
    - intros n'' b2 Hb2. apply HQ. intros k'. rewrite fmap_cons. cbn [fst]. specialize (Hb2 k').
      destruct (decide (k' = k)) as [->|Hne].
      + rewrite (decide_True (P := k ∈ k :: l.*1)) by left. rewrite decide_False in Hb2 by done.
        exists v, r. split_and!; [done|done|done|]. rewrite Hb2.
        destruct Hk1 as [Hk1|(v' & ? & ?)]; [exists v; by rewrite (Hsame Hk1)|by exists v'].
      + destruct (decide (k' ∈ l.*1)) as [Hin|Hin].
        * rewrite decide_True by (by right). by rewrite Hother in Hb2.
        * rewrite decide_False by (rewrite elem_of_cons; tauto). rewrite Hb2. by apply Hother. }
  case_if.
  - apply andb_true_iff in C as [_ Hpeer]. wp_steps. apply wp_kv_enc. intros v' _ Hd. wp_steps.
    apply wp_hs_put; [apply history_key_prefix|]. intros b1 Hb1. wp_steps. rewrite <-Hkr in Hb1.
    assert (hview b1 !! k = Some v') as Hk1 by (rewrite Hb1; apply lookup_insert_eq).
    apply Hrest.
    + right. exists v'. split; [done|]. unfold mark. by rewrite Hpeer.
    + intros k' Hne. by rewrite Hb1, lookup_insert_ne.
    + rewrite Hk1. intros [= ->]. rewrite Hr in Hd. injection Hd as Hd. unfold mark. rewrite Hpeer. done.
  - apply wp_ret, Hrest; [by left|done|]. intros _.
    apply andb_false_iff in C as [Hh|Hp].
    + apply mark_same. apply negb_false_iff, bool_decide_eq_true in Hh. done.
    + unfold mark. by rewrite Hp.
Qed.

Lemma set_hidden_run h peer b :
  history_ok b -> exists n b', set_hidden_for_peer h peer b = (Ok n, b') /\ history_ok b' /\
    forall id, record_at b' id = mark h peer <$> record_at b id.
Proof.
  intros Hok.
  destruct (wp_run (set_hidden_for_peer h peer) (fun _ b' => history_ok b' /\
    forall id, record_at b' id = mark h peer <$> record_at b id) b) as (n & b' & H & ? & ?); [|eauto].
  unfold set_hidden_for_peer. wp_steps. apply wp_kv_scan. intros l Hl.
  assert (forall k, k ∈ l.*1 <-> is_Some (hview b !! k)) as Hdom.
  { intros k. rewrite Hl, list_elem_of_fmap. split.
    - intros ([k' v] & -> & Hv%elem_of_map_to_list). by eexists.
    - intros [v Hv]. exists (k, v). split; [done|]. by apply elem_of_map_to_list. }
  apply wp_set_hidden_loop.
  - rewrite Hl. apply NoDup_fst_map_to_list.
  - apply Forall_forall. intros [k v]. rewrite Hl, elem_of_map_to_list. intros Hv. by split; [|apply Hok].
  - intros n' b' Hb'. split.
    + intros k v Hv. specialize (Hb' k). case_decide as Hin.
      * destruct Hb' as (v0 & r & _ & _ & -> & v' & Hv' & Hd). rewrite Hv in Hv'. injection Hv' as <-.
        exists (mark h peer r). split; [done|]. unfold mark. by case_if.
      * rewrite Hb' in Hv. by apply Hok.
    + intros id. unfold record_at. specialize (Hb' (history_key id)). case_decide as Hin.
      * destruct Hb' as (v0 & r & Hv0 & Hr & _ & v' & Hv' & Hd). rewrite Hv', Hv0. cbn. by rewrite Hd, Hr.
      * rewrite Hb'. rewrite Hdom, <-eq_None_not_Some in Hin. by rewrite Hin.
Qed.

(** *** Queries *)

Lemma recent_run pf lim ih b : history_ok b -> 0 <= lim -> exists rs rest,
  recent_internal pf lim ih b = (Ok rs, b) /\
  rs ++ rest ≡ₚ filter (fun r => Is_true (wanted pf ih r)) (read_entries (map_to_list (hview b))) /\
  StronglySorted newest_first (rs ++ rest) /\
  zlen rs = Z.min lim (zlen (filter (fun r => Is_true (wanted pf ih r)) (read_entries (map_to_list (hview b))))).
Proof.
  intros Hok Hlim. destruct (kv_scan_run MSG_PREFIX b) as (l & Hl & Hp).
  pose proof (collect_ok (wanted pf ih) l b (ok_readable b l Hok Hp)) as Hc.
  set (found := filter (fun r => Is_true (wanted pf ih r)) (read_entries l)) in *.
  assert (found ≡ₚ filter (fun r => Is_true (wanted pf ih r)) (read_entries (map_to_list (hview b)))) as Hf.
  { apply filter_perm. by rewrite Hp. }
  set (n := Z.to_nat (Z.min lim (zlen found))).
  exists (take n (stable_sort newest_first found)), (drop n (stable_sort newest_first found)).
  rewrite take_drop. split_and!; [|by rewrite stable_sort_Permutation|apply StronglySorted_stable_sort; apply _|].
  - unfold recent_internal, hs_scan, bind at 1. rewrite Hl. unfold bind. rewrite Hc. done.
  - unfold zlen. rewrite length_take, stable_sort_Permutation, <-Hf. unfold n, zlen. lia.
Qed.

(** *** Removing *)

Lemma wp_remove_all {X} (key : X -> bytes) l (Q : unit -> B -> Prop) E b :
  (forall b', hview b' = filter (fun kv => kv.1 ∉ key <$> l) (hview b) -> Q tt b') ->
  wp (mfold (fun _ x => kv_remove (key x)) tt l) Q E b.
Proof.
  revert b. induction l as [|x l IH]; intros b HQ; cbn [mfold].
  { apply wp_ret, HQ. symmetry. apply map_filter_id. intros. apply not_elem_of_nil. }
  apply wp_bind, wp_hs_remove. intros b1 Hb1. apply IH. intros b2 Hb2. apply HQ. rewrite Hb2, Hb1.
  apply map_eq. intros k. apply option_eq. intros v. rewrite !map_lookup_filter_Some, lookup_delete_Some.
  cbn [fst fmap list_fmap]. rewrite not_elem_of_cons. intuition congruence.
Qed.

(** The entries retention can read. *)
Definition retained (l : list (bytes * bytes)) : list (bytes * MessageRecord) :=
  omap (fun kv => (fun r => (kv.1, r)) <$> dec kv.2) l.

Lemma elem_of_retained l k r : (k, r) ∈ retained l <-> exists v, (k, v) ∈ l /\ dec v = Some r.
Proof.
  unfold retained. rewrite list_elem_of_omap. split.
  - intros ([k' v] & Hin & (r' & Hd & [= -> ->])%fmap_Some). by exists v.
  - intros (v & Hin & Hd). exists (k, v). split; [done|]. cbn. by rewrite Hd.
Qed.

Lemma NoDup_retained l : NoDup l.*1 -> NoDup (retained l).*1.
Proof.
  induction l as [|[k v] l IH]; [done|]. rewrite fmap_cons. intros [Hn Hnd]%NoDup_cons. unfold retained. cbn.
  destruct (dec v) as [r|]; cbn; [|by apply IH]. apply NoDup_cons. split; [|by apply IH].
  intros ([k' r'] & -> & (v' & Hin & _)%elem_of_retained)%list_elem_of_fmap. apply Hn.
  by apply (list_elem_of_fmap_2 fst l (k', v')).
Qed.

Lemma retained_size (m : gmap bytes bytes) : zlen (retained (map_to_list m)) <= Z.of_nat (size m).
Proof.
  rewrite <-length_map_to_list. unfold zlen, retained. apply inj_le.
  induction (map_to_list m) as [|[k v] l IH]; [done|]. cbn. destruct (dec v); cbn; lia.
Qed.

#[export] Instance oldest_first_total : Total oldest_first.
Proof. intros a b. unfold oldest_first. lia. Qed.

#[export] Instance oldest_first_trans : Transitive oldest_first.
Proof. intros a b c. unfold oldest_first. lia. Qed.

Lemma retention_run max b : 0 <= max -> exists b' gone,
  enforce_retention max b = (Ok (cast_u 32 (zlen gone)), b') /\
  hview b' = filter (fun kv => kv.1 ∉ gone) (hview b) /\ NoDup gone /\
  (zlen gone = if Z.of_nat (size (hview b)) <=? max then 0
               else sat_sub (zlen (retained (map_to_list (hview b)))) max) /\
  (forall k, k ∈ gone -> exists v r, hview b !! k = Some v /\ dec v = Some r /\
     forall k' v' r', hview b' !! k' = Some v' -> dec v' = Some r' -> mr_timestamp r <= mr_timestamp r').
Proof.
  intros Hmax.
  assert (wp (enforce_retention max) (fun n b' => exists gone, n = cast_u 32 (zlen gone) /\
    hview b' = filter (fun kv => kv.1 ∉ gone) (hview b) /\ NoDup gone /\
    (zlen gone = if Z.of_nat (size (hview b)) <=? max then 0
                 else sat_sub (zlen (retained (map_to_list (hview b)))) max) /\
    (forall k, k ∈ gone -> exists v r, hview b !! k = Some v /\ dec v = Some r /\
     forall k' v' r', hview b' !! k' = Some v' -> dec v' = Some r' -> mr_timestamp r <= mr_timestamp r'))
    (fun _ _ => False) b) as (n & b' & H & gone & -> & Hg)%wp_run; [|eauto].
  unfold enforce_retention. wp_steps. apply wp_kv_scan. intros l Hl.
  assert (zlen l = Z.of_nat (size (hview b))) as Hlen.
  { unfold zlen. by rewrite Hl, length_map_to_list. }
  rewrite Hlen. case_if.
  { apply wp_ret. exists []. split_and!; [done| |constructor|done|by intros k ?%elem_of_nil].
    symmetry. apply map_filter_id. intros. apply not_elem_of_nil. }
  fold (retained l).
  assert (retained l ≡ₚ retained (map_to_list (hview b))) as Hr by (unfold retained; by rewrite Hl).
  set (sorted := stable_sort oldest_first (retained l)).
  assert (sorted ≡ₚ retained l) as Hperm by apply stable_sort_Permutation.
  assert (StronglySorted oldest_first sorted) as Hss by (apply StronglySorted_stable_sort; apply _).
  assert (zlen sorted = zlen (retained (map_to_list (hview b)))) as Hsl by (unfold zlen; by rewrite Hperm, Hr).
  set (m := Z.to_nat (sat_sub (zlen sorted) max)).
  wp_steps. apply wp_remove_all. intros b' Hb'. wp_steps. exists (fst <$> take m sorted).
  assert (forall k r, (k, r) ∈ sorted <-> exists v, hview b !! k = Some v /\ dec v = Some r) as Hin.
  { intros k r. rewrite Hperm, elem_of_retained. setoid_rewrite Hl. by setoid_rewrite elem_of_map_to_list. }
  assert (NoDup sorted.*1) as Hnd.
  { rewrite Hperm. apply NoDup_retained. rewrite Hl. apply NoDup_fst_map_to_list. }
  assert (zlen (fst <$> take m sorted) = sat_sub (zlen sorted) max) as Hz.
  { unfold zlen. rewrite length_fmap, length_take. unfold m, sat_sub, zlen in *. lia. }
  split_and!; [by rewrite Hz|done| |by rewrite Hz, Hsl|].
  - rewrite <-(take_drop m sorted), fmap_app in Hnd. by apply NoDup_app in Hnd as (? & _).
  - intros k ([k' r] & -> & Hk)%list_elem_of_fmap. cbn [fst].
    assert ((k', r) ∈ sorted) as (v & Hv & Hd)%Hin by (by apply elem_of_take in Hk as (i & Hk & _); eapply list_elem_of_lookup_2).
    exists v, r. split_and!; [done|done|]. intros k2 v2 r2 H2 Hd2. rewrite Hb' in H2.
    apply map_lookup_filter_Some in H2 as [H2 Hn]. cbn [fst] in Hn.
    assert ((k2, r2) ∈ sorted) as Hs2 by (apply Hin; eauto).
    rewrite <-(take_drop m sorted) in Hs2. apply elem_of_app in Hs2 as [Hs2|Hs2].
    { exfalso. apply Hn. by apply (list_elem_of_fmap_2 fst _ (k2, r2)). }
    rewrite <-(take_drop m sorted) in Hss. exact (StronglySorted_app_1_elem_of _ _ _ _ _ Hss Hk Hs2).
Qed.

(** *** Records that cannot be read *)

Lemma corrupt_query {A} (k : list (bytes * bytes) -> M B A) b key v :
  hview b !! key = Some v -> dec v = None ->
  (forall l b, (key, v) ∈ l -> k l b = (Err "Internal"%string, b)) ->
  bind (kv_scan MSG_PREFIX) k b = (Err "Internal"%string, b).
Proof.
  intros Hv Hd Hk. destruct (kv_scan_run MSG_PREFIX b) as (l & Hl & Hp). unfold bind. rewrite Hl. apply Hk.
  rewrite Hp. by apply elem_of_map_to_list.
Qed.

Lemma stats_loop_corrupt s (l : list (bytes * bytes)) b k v : (k, v) ∈ l -> dec v = None ->
  mfold (fun stats kv => let* record := kv_dec kv.2 in ret (count_record stats (adjust_legacy_timestamps record))) s l b
  = (Err "Internal"%string, b).
Proof.
  intros Hin Hv. revert s. induction l as [|[k' v'] l IH]; intros s; [by apply elem_of_nil in Hin|].
  cbn [mfold]. unfold bind at 1 2, kv_dec. cbn [snd]. destruct (dec v') as [r|] eqn:Hr; cbn; [|done].
  apply IH. apply elem_of_cons in Hin as [[= -> ->]|?]; [congruence|done].
Qed.

(** ** Properties *)

(** Hiding a peer's messages and restoring them.  Over a readable history, hiding
    marks exactly the messages of the peer (whatever the case of its id): every other
    record is unchanged, no query of [recent] shows the peer afterwards, and restoring
    gives back the same history with the peer's messages visible. *)
Theorem hide_unhide peer b : history_ok b ->
  exists n b1, hide_messages_for_peer peer b = (Ok n, b1) /\ history_ok b1 /\
    (forall id, record_at b1 id = mark true peer <$> record_at b id) /\
    (forall pf lim, 0 <= lim -> exists rs, recent pf lim b1 = (Ok rs, b1) /\
       Forall (fun r => eq_ignore_ascii_case (mr_peer_id r) peer = false) rs) /\
  exists n2 b2, unhide_messages_for_peer peer b1 = (Ok n2, b2) /\ history_ok b2 /\
    forall id, record_at b2 id = mark false peer <$> record_at b id.
Proof.
  intros Hok. destruct (set_hidden_run true peer b Hok) as (n & b1 & H1 & Hok1 & Hr1).
  destruct (set_hidden_run false peer b1 Hok1) as (n2 & b2 & H2 & Hok2 & Hr2).
  exists n, b1. split_and!; [done..| |].
  - intros pf lim Hlim. destruct (recent_run pf lim false b1 Hok1 Hlim) as (rs & rest & H & Hp & _).
    exists rs. split; [done|]. apply Forall_forall. intros r Hr.
    assert (r ∈ rs ++ rest) as Hin by (apply elem_of_app; by left).
    rewrite Hp in Hin. apply list_elem_of_filter in Hin as [Hw (id & r0 & Hr0 & ->)%elem_of_read]; [|done].
    rewrite Hr1 in Hr0. apply fmap_Some in Hr0 as (r1 & _ & ->). exact (marked_unwanted pf peer r1 Hw).
  - exists n2, b2. split_and!; [done..|]. intros id. rewrite Hr2, Hr1, <-option_fmap_compose.
    apply option_fmap_ext. intros r. apply mark_mark.
Qed.

(** [recent], [conversation] and [recent_including_hidden] answer with the newest of
    the wanted messages.  The answer and some rest together are exactly the stored
    records that pass the filter; every message of the answer is at least as new as the
    ones after it and as all of the rest; its length is the limit, or everything. *)
Theorem recent_exact pf lim ih b : history_ok b -> 0 <= lim ->
  exists rs rest, recent_internal pf lim ih b = (Ok rs, b) /\
    rs ++ rest ≡ₚ filter (fun r => Is_true (wanted pf ih r)) (read_entries (map_to_list (hview b))) /\
    StronglySorted newest_first (rs ++ rest) /\
    zlen rs = Z.min lim (zlen (rs ++ rest)).
Proof.
  intros Hok Hlim. destruct (recent_run pf lim ih b Hok Hlim) as (rs & rest & H & Hp & Hs & Hz).
  exists rs, rest. split_and!; [done..|]. rewrite Hz. unfold zlen. by rewrite Hp.
Qed.

(** Retention.  [enforce_retention] removes whole entries and nothing else, never
    one that is newer than a readable one it keeps; a history that exceeds the limit is
    left with [max_messages] readable records (or all of them, when they are fewer); the
    entries that cannot be read are never removed. *)
Theorem retention max b : 0 <= max -> Z.of_nat (size (hview b)) < 2 ^ 32 ->
  exists gone b', enforce_retention max b = (Ok (zlen gone), b') /\
    hview b' = filter (fun kv => kv.1 ∉ gone) (hview b) /\ NoDup gone /\
    (zlen gone = if Z.of_nat (size (hview b)) <=? max then 0
                 else Z.max 0 (zlen (retained (map_to_list (hview b))) - max)) /\
    (forall k, k ∈ gone -> exists v r, hview b !! k = Some v /\ dec v = Some r /\
       forall k' v' r', hview b' !! k' = Some v' -> dec v' = Some r' -> mr_timestamp r <= mr_timestamp r').
Proof.
  intros Hmax Hsize. destruct (retention_run max b Hmax) as (b' & gone & H & Hv & Hnd & Hz & Hold).
  assert (0 <= zlen gone < 2 ^ 32) as Hg.
  { rewrite Hz. pose proof (retained_size (hview b)). unfold sat_sub. case_if; lia. }
  exists gone, b'. split_and!; [|done|done| |done].
  - rewrite H. unfold cast_u. by rewrite Z.mod_small.
  - rewrite Hz. unfold sat_sub. case_if; lia.
Qed.

(** One stored record that cannot be read makes every query fail, whatever it asks
    for, and no retention limit ever removes that record. *)
Theorem corrupt_record unicode_lower key v b : hview b !! key = Some v -> dec v = None ->
  (forall pf lim ih, recent_internal pf lim ih b = (Err "Internal"%string, b)) /\
  (forall query lim, search unicode_lower query lim b = (Err "Internal"%string, b)) /\
  stats b = (Err "Internal"%string, b) /\
  forall max, 0 <= max -> exists n b', enforce_retention max b = (Ok n, b') /\ hview b' !! key = Some v.
Proof.
  intros Hv Hd. split_and!.
  - intros pf lim ih. apply (corrupt_query _ b key v); [done..|]. intros l b' Hin.
    unfold bind. by rewrite (collect_corrupt _ l b' key v).
  - intros query lim. apply (corrupt_query _ b key v); [done..|]. intros l b' Hin.
    unfold bind. by rewrite (collect_corrupt _ l b' key v).
  - apply (corrupt_query _ b key v); [done..|]. intros l b' Hin. by apply (stats_loop_corrupt _ l b' key v).
  - intros max Hmax. destruct (retention_run max b Hmax) as (b' & gone & H & Hb' & _ & _ & Hold).
    exists (cast_u 32 (zlen gone)), b'. split; [done|]. rewrite Hb'. apply map_lookup_filter_Some.
    split; [done|]. cbn [fst]. intros Hg. destruct (Hold key Hg) as (v' & r & Hv' & Hd' & _). congruence.
Qed.

End Laws.

(** ** Examples *)

Module HistoryExamples.

#[local] Instance direction_countable : Countable MessageDirection.
Proof.
  refine (inj_countable' (fun d => match d with DSent => true | DReceived => false end)
    (fun b : bool => if b then DSent else DReceived) _). by intros [].
Defined.

#[local] Instance record_countable : Countable MessageRecord.
Proof.
  refine (inj_countable' (fun r => (mr_id r, mr_direction r, mr_peer_id r, mr_content r,
      (mr_timestamp r, mr_sender_timestamp r, mr_delivered r, mr_hidden r)))
    (fun '(i, d, p, c, (t, st, dl, h)) => mkRecord i d p c t st dl h) _). by intros [].
Defined.

#[local] Instance ex_iter : HashIter bytes bytes := canonical_iter.
#[local] Instance ex_codec : Codec MessageRecord := any_codec.
#[local] Instance ex_lawful : LawfulCodec MessageRecord := any_codec_lawful.

Definition r1 : MessageRecord := new_sent "m1" 10 "Alice" "hello".
Definition r2 : MessageRecord := new_received "m2" 20 "ALICE" "hi" 0.
Definition r3 : MessageRecord := new_received "m3" 30 "bob" "news" 25.

Definition store_of (rs : list MessageRecord) : MemoryStorage := (mfold (fun _ r => add r) tt rs memory_new).2.

Definition b3 : MemoryStorage := store_of [r3; r1; r2].

Lemma store_of_ok rs : history_ok (store_of rs).
Proof.
  unfold store_of. assert (history_ok memory_new) as H by (vm_compute; intros k v Hv; done).
  revert H. generalize memory_new. induction rs as [|r rs IH]; intros b Hb; [done|].
  destruct (add_run r b Hb) as (b' & H & Hok & _). cbn [mfold]. unfold bind at 1. rewrite H. by apply IH.
Defined.

(** Hiding is by id whatever its case, and [recent] shows the rest, newest first. *)
Example hide_alice : (recent None 10 (hide_messages_for_peer "alice" b3).2).1 = Ok [r3].
Proof. vm_compute. reflexivity. Qed.

Example recent_two : (recent None 2 b3).1 = Ok [r3; adjust_legacy_timestamps r2].
Proof. vm_compute. reflexivity. Qed.

Lemma hide_unhide_witness : exists n b1, hide_messages_for_peer "alice" b3 = (Ok n, b1) /\ history_ok b1 /\
    (forall id, record_at b1 id = mark true "alice" <$> record_at b3 id) /\
    (forall pf lim, 0 <= lim -> exists rs, recent pf lim b1 = (Ok rs, b1) /\
       Forall (fun r => eq_ignore_ascii_case (mr_peer_id r) "alice" = false) rs) /\
  exists n2 b2, unhide_messages_for_peer "alice" b1 = (Ok n2, b2) /\ history_ok b2 /\
    forall id, record_at b2 id = mark false "alice" <$> record_at b3 id.
Proof. apply (hide_unhide "alice" b3). apply store_of_ok. Defined.

Lemma recent_exact_witness : exists rs rest, recent_internal None 2 false b3 = (Ok rs, b3) /\
    rs ++ rest ≡ₚ filter (fun r => Is_true (wanted None false r)) (read_entries (map_to_list (hview b3))) /\
    StronglySorted newest_first (rs ++ rest) /\ zlen rs = Z.min 2 (zlen (rs ++ rest)).
Proof. apply (recent_exact None 2 false b3); [apply store_of_ok|lia]. Defined.

Definition bad : bytes := str_bytes "{".
Definition b4 : MemoryStorage := mkMemory (<[history_key "m0" := bad]> (ms_data b3)).

Lemma retention_witness : Z.of_nat (size (hview b4)) = 4 /\
  exists gone b', enforce_retention 1 b4 = (Ok (zlen gone), b') /\
    hview b' = filter (fun kv => kv.1 ∉ gone) (hview b4) /\ NoDup gone /\
    (zlen gone = if Z.of_nat (size (hview b4)) <=? 1 then 0
                 else Z.max 0 (zlen (retained (map_to_list (hview b4))) - 1)) /\
    (forall k, k ∈ gone -> exists v r, hview b4 !! k = Some v /\ dec v = Some r /\
       forall k' v' r', hview b' !! k' = Some v' -> dec v' = Some r' -> mr_timestamp r <= mr_timestamp r').
Proof.
  assert (Z.of_nat (size (hview b4)) = 4) as Hs by (vm_compute; reflexivity).
  split; [exact Hs|]. apply (retention 1 b4); [lia|]. rewrite Hs. lia.
Defined.

Lemma corrupt_record_witness : dec bad = @None MessageRecord /\
  (forall pf lim ih, recent_internal pf lim ih b4 = (Err "Internal"%string, b4)) /\
  (forall query lim, search to_lowercase query lim b4 = (Err "Internal"%string, b4)) /\
  stats b4 = (Err "Internal"%string, b4) /\
  forall max, 0 <= max -> exists n b', enforce_retention max b4 = (Ok n, b') /\ hview b' !! history_key "m0" = Some bad.
Proof.
  assert (dec bad = @None MessageRecord) as Hd by (vm_compute; reflexivity).
  split; [exact Hd|]. apply (corrupt_record to_lowercase (history_key "m0") bad b4); [|exact Hd].
  vm_compute. reflexivity.
Defined.

End HistoryExamples.
