(* ===== verification/Contacts.v ===== *)
(** * Contacts ([core/src/store/contacts.rs])

    The address book: contacts under their canonical id, an index from identity ids to
    public keys, key bundles, and the two migrations that run when the manager is opened.
    [serde_json] is a [Codec]; hexadecimal, base 58, curve points and UUIDs are the
    parameters of [Ids], and the lower-case mapping of all of Unicode, which [search]
    applies, is one too.  The log lines of the source are left out. *)

From S2P Require Import Prelude Backend Crypto Effects KvStore Ids History.

(** ** Data *)

Record Contact : Type := mkContact {
  ct_peer_id : string;
  ct_nickname : option string;
  ct_local_nickname : option string;
  ct_public_key : string;
  ct_added_at : Z;
  ct_last_seen : option Z;
  ct_notes : option string;
  ct_last_known_device_id : option string;
}.

#[global] Instance Contact_eq_dec : EqDecision Contact.
Proof. solve_decision. Defined.

(** [now] is the clock in seconds. *)
Definition contact_new (now : Z) (peer_id public_key : string) : Contact :=
  mkContact peer_id None None public_key now None None None.

Definition set_ids (c : Contact) (peer_id public_key : string) : Contact :=
  mkContact peer_id (ct_nickname c) (ct_local_nickname c) public_key (ct_added_at c) (ct_last_seen c) (ct_notes c)
    (ct_last_known_device_id c).

Definition with_nick (c : Contact) (nickname : option string) : Contact :=
  mkContact (ct_peer_id c) nickname (ct_local_nickname c) (ct_public_key c) (ct_added_at c) (ct_last_seen c) (ct_notes c)
    (ct_last_known_device_id c).

Definition with_local_nick (c : Contact) (nickname : option string) : Contact :=
  mkContact (ct_peer_id c) (ct_nickname c) nickname (ct_public_key c) (ct_added_at c) (ct_last_seen c) (ct_notes c)
    (ct_last_known_device_id c).

Definition with_last_seen (c : Contact) (t : option Z) : Contact :=
  mkContact (ct_peer_id c) (ct_nickname c) (ct_local_nickname c) (ct_public_key c) (ct_added_at c) t (ct_notes c)
    (ct_last_known_device_id c).

Definition with_known_device (c : Contact) (d : option string) : Contact :=
  mkContact (ct_peer_id c) (ct_nickname c) (ct_local_nickname c) (ct_public_key c) (ct_added_at c) (ct_last_seen c)
    (ct_notes c) d.

Definition display_name (c : Contact) : string :=
  match ct_local_nickname c with
  | Some local => local
  | None => default (ct_peer_id c) (ct_nickname c)
  end.

Definition federated_nickname (c : Contact) : option string := ct_nickname c.

Definition CONTACT_KEY_PREFIX : bytes := str_bytes "contact:".
Definition CONTACT_BUNDLE_KEY_PREFIX : bytes := str_bytes "contact_bundle:".
Definition IDENTITY_ID_INDEX_PREFIX : bytes := str_bytes "identity_id_idx:".

Definition contact_key (peer_id : string) : bytes := CONTACT_KEY_PREFIX ++ str_bytes peer_id.
Definition contact_bundle_key (public_key_hex : string) : bytes := CONTACT_BUNDLE_KEY_PREFIX ++ str_bytes public_key_hex.
Definition identity_id_index_key (identity_id : string) : bytes := IDENTITY_ID_INDEX_PREFIX ++ str_bytes identity_id.

(** ** Nicknames *)

Definition non_empty (s : string) : option string := if decide (s = ""%string) then None else Some s.

Definition normalize_nickname (value : option string) : option string := value ≫= fun s => non_empty (trim s).

Definition is_synthetic_fallback_nickname (value : option string) : bool :=
  match normalize_nickname value with
  | Some normalized => starts_with (str_bytes "peer-") (str_bytes (to_lowercase normalized))
  | None => false
  end.

Definition select_authoritative_nickname (incoming existing : option string) : option string :=
  let incoming_norm := normalize_nickname incoming in
  let existing_norm := normalize_nickname existing in
  let incoming_synthetic := is_synthetic_fallback_nickname incoming_norm in
  let existing_synthetic := is_synthetic_fallback_nickname existing_norm in
  let incoming_none := negb (bool_decide (is_Some incoming_norm)) in
  let existing_none := negb (bool_decide (is_Some existing_norm)) in
  if incoming_none && existing_synthetic then None
  else if incoming_none then existing_norm
  else if incoming_synthetic && existing_none then None
  else if incoming_synthetic && existing_synthetic then None
  else if incoming_synthetic then existing_norm
  else if existing_synthetic then incoming_norm
  else incoming_norm.

(** The nickname a duplicate leaves to the canonical contact, and whether that is a change. *)
Definition merge_nickname (duplicate canonical : option string) : option string * bool :=
  let authoritative := select_authoritative_nickname duplicate canonical in
  let should_update :=
    match authoritative, canonical with
    | Some auth, Some curr =>
        (is_synthetic_fallback_nickname (Some curr) || negb (bool_decide (is_Some (normalize_nickname (Some curr)))))
        && negb (is_synthetic_fallback_nickname (Some auth))
    | Some _, None => true
    | None, Some curr => is_synthetic_fallback_nickname (Some curr)
    | None, None => false
    end in
  if should_update then (authoritative, true)
  else if negb (bool_decide (is_Some authoritative)) && is_synthetic_fallback_nickname canonical then (None, true)
  else (canonical, false).

(** A nickname that a person chose. *)
Definition real_nickname (n : option string) : option string :=
  if is_synthetic_fallback_nickname (normalize_nickname n) then None else normalize_nickname n.

(** A placeholder never displaces a chosen nickname: the incoming one wins if it was
    chosen, then the existing one if it was, and otherwise there is none. *)
Theorem nickname_authority incoming existing :
  select_authoritative_nickname incoming existing =
  match real_nickname incoming with Some n => Some n | None => real_nickname existing end.
Proof.
  unfold select_authoritative_nickname, real_nickname.
  destruct (normalize_nickname incoming) as [i|]; destruct (normalize_nickname existing) as [e|]; cbn [is_Some];
    repeat (rewrite bool_decide_true by done || rewrite bool_decide_false by (by intros [])); cbn [negb andb];
    repeat match goal with |- context [is_synthetic_fallback_nickname ?x] => destruct (is_synthetic_fallback_nickname x) end; done.
Qed.

Definition by_name (a b : Contact) : Prop := bytes_le (str_bytes (display_name a)) (str_bytes (display_name b)).

#[global] Instance by_name_dec : RelDecision by_name.
Proof. intros a b. unfold by_name. apply _. Defined.

(** ** The manager *)

Section Contacts.
Context {B : Type} {SB : StorageBackend B} {IL : IdLib} {KL : KeyLib}.
Context {CC : Codec Contact} {CP : Codec PublicKeyBundle} {CR : Codec MessageRecord}.
Context (unicode_lower : string -> string).

(** [s.trim().len() == 64 && s.chars().all(hex digit) && hex::decode(s.trim()).is_ok()]. *)
Definition hex_key (s : string) : bool :=
  (str_len (trim s) =? 64) && forallb is_ascii_hexdigit (str_bytes s) && bool_decide (is_Some (hex_decode (trim s))).

Definition PEER_ID_HEADER : bytes := [Byte.x00; Byte.x24; Byte.x08; Byte.x01; Byte.x12; Byte.x20].

Definition derive_public_key_from_peer_id (peer_id : string) : res string string :=
  let trimmed := trim peer_id in
  if (str_len trimmed =? 64) && forallb is_ascii_hexdigit (str_bytes trimmed) then
    match hex_decode trimmed with
    | Some bytes =>
        if (zlen bytes =? 32) && ed_point bytes then Ok (to_lowercase trimmed) else Err "InvalidInput"%string
    | None => Err "InvalidInput"%string
    end
  else
    match bs58_decode trimmed with
    | Some bytes =>
        if (zlen bytes =? 38) && starts_with PEER_ID_HEADER bytes then
          let! tail := slice bytes 6 38 in Ok (hex_encode tail)
        else if 32 <=? zlen bytes then
          let! tail := slice bytes (zlen bytes - 32) (zlen bytes) in Ok (hex_encode tail)
        else Err "InvalidInput"%string
    | None => Err "InvalidInput"%string
    end.

(** The canonical id of a contact: its public key, or the key its peer id gives. *)
Definition canonical_of (c : Contact) (peer_id_trimmed : string) : res string (option string) :=
  if hex_key (ct_public_key c) then Ok (Some (to_lowercase (trim (ct_public_key c))))
  else match derive_public_key_from_peer_id peer_id_trimmed with
       | Ok derived => Ok (Some (to_lowercase derived))
       | Err _ => Ok None
       | Panic => Panic
       end.

Definition canonicalize (c : Contact) : res string Contact :=
  let peer_id_trimmed := trim (ct_peer_id c) in
  if decide (peer_id_trimmed = ""%string) then Ok c
  else
    let! canonical := canonical_of c peer_id_trimmed in
    let canonical := match canonical with
      | Some canonical => Some canonical
      | None => if hex_key peer_id_trimmed then Some (to_lowercase peer_id_trimmed) else None
      end in
    match canonical with
    | None => Ok c
    | Some canonical =>
        let pk := ct_public_key c in
        let pk_differs := String.eqb (to_lowercase (trim pk)) canonical && negb (String.eqb pk canonical) in
        if negb (String.eqb (to_lowercase peer_id_trimmed) canonical) then
          Ok (set_ids c canonical (if negb (hex_key pk) || pk_differs then canonical else pk))
        else if negb (String.eqb (ct_peer_id c) canonical) then
          Ok (set_ids c canonical (if pk_differs then canonical else pk))
        else Ok c
    end.

Definition save_identity_id_index (identity_id public_key_hex : string) : M B unit :=
  kv_put (identity_id_index_key identity_id) (str_bytes public_key_hex).

Definition resolve_identity_id (identity_id : string) : M B (option string) :=
  let* data := kv_get (identity_id_index_key identity_id) in
  match data with
  | Some data => if utf8_valid data then ret (Some (of_bytes data)) else throw "Internal"
  | None => ret None
  end.

Definition contact_add (contact : Contact) : M B unit :=
  let* contact := lift (canonicalize contact) in
  let* value := kv_enc contact in
  let* _ := kv_put (contact_key (ct_peer_id contact)) value in
  match identity_id_from_public_key_hex (ct_public_key contact) with
  | Some identity_id => let* _ := try_ok (save_identity_id_index identity_id (ct_public_key contact)) in ret tt
  | None => ret tt
  end.

(** The call of itself with the public key an identity id stands for; a chain longer than
    the index runs in a circle, and the source out of its stack. *)
Definition panic {A} : M B A := fun b => (Panic, b).

Definition index_depth (b : B) : nat :=
  match be_count_prefix b IDENTITY_ID_INDEX_PREFIX with Ok n => Z.to_nat n + 2 | _ => 2 end.

Fixpoint contact_get_from (depth : nat) (peer_id : string) : M B (option Contact) :=
  match depth with
  | O => panic
  | S depth =>
      let* data := kv_get (contact_key peer_id) in
      match data with
      | Some data => let* contact := kv_dec data in ret (Some contact)
      | None =>
          let* resolved := try_ok (resolve_identity_id peer_id) in
          match resolved with
          | Some (Some public_key) => contact_get_from depth public_key
          | _ => ret None
          end
      end
  end.

Definition contact_get (peer_id : string) : M B (option Contact) := fun b => contact_get_from (index_depth b) peer_id b.

Definition contact_list : M B (list Contact) :=
  let* all := kv_scan CONTACT_KEY_PREFIX in
  let* contacts := mfold (fun contacts kv => let* contact := kv_dec kv.2 in ret (contacts ++ [contact])) [] all in
  ret (stable_sort by_name contacts).

Definition get_by_public_key (public_key : string) : M B (option Contact) :=
  let normalized := trim public_key in
  if decide (normalized = ""%string) then ret None
  else
    let* l := contact_list in
    ret (head (filter (fun c => Is_true (eq_ignore_ascii_case (ct_public_key c) normalized)) l)).

Definition contact_remove (peer_id : string) : M B unit :=
  let* contact := contact_get peer_id in
  let* _ :=
    match contact with
    | Some contact => let* _ := try_ok (kv_remove (contact_bundle_key (ct_public_key contact))) in ret tt
    | None => ret tt
    end in
  kv_remove (contact_key peer_id).

Definition save_contact_bundle (public_key_hex : string) (bundle : PublicKeyBundle) : M B unit :=
  let* value := kv_enc bundle in
  kv_put (contact_bundle_key public_key_hex) value.

Fixpoint get_contact_bundle_from (depth : nat) (public_key_hex : string) : M B (option PublicKeyBundle) :=
  match depth with
  | O => panic
  | S depth =>
      let* data := kv_get (contact_bundle_key public_key_hex) in
      match data with
      | Some data => let* bundle := kv_dec data in ret (Some bundle)
      | None =>
          let* resolved := try_ok (resolve_identity_id public_key_hex) in
          match resolved with
          | Some (Some pk) => get_contact_bundle_from depth pk
          | _ => ret None
          end
      end
  end.

Definition get_contact_bundle (public_key_hex : string) : M B (option PublicKeyBundle) :=
  fun b => get_contact_bundle_from (index_depth b) public_key_hex b.

Definition matches (query_lower : string) (s : string) : bool := contains (unicode_lower s) query_lower.

Definition contact_search (query : string) : M B (list Contact) :=
  let query_lower := unicode_lower query in
  let* all := contact_list in
  ret (filter (fun c => Is_true (matches query_lower (ct_peer_id c) || matches query_lower (ct_public_key c) ||
    from_option (matches query_lower) false (ct_nickname c) ||
    from_option (matches query_lower) false (ct_local_nickname c))) all).

Definition set_nickname (peer_id : string) (nickname : option string) : M B unit :=
  let* contact := contact_get peer_id in
  match contact with
  | Some contact => contact_add (with_nick contact (normalize_nickname nickname))
  | None => throw "InvalidInput"
  end.

Definition set_local_nickname (peer_id : string) (nickname : option string) : M B unit :=
  let* contact := contact_get peer_id in
  match contact with
  | Some contact => contact_add (with_local_nick contact (normalize_nickname nickname))
  | None => throw "InvalidInput"
  end.

Definition update_last_seen (now : Z) (peer_id : string) : M B unit :=
  let* contact := contact_get peer_id in
  match contact with
  | Some contact => contact_add (with_last_seen contact (Some now))
  | None => ret tt
  end.

Definition update_last_known_device_id (peer_id : string) (device_id : option string) : M B unit :=
  let* contact := contact_get peer_id in
  match contact, device_id with
  | Some contact, None => contact_add (with_known_device contact None)
  | Some contact, Some device_id =>
      let normalized := trim device_id in
      if negb (String.eqb normalized "") && bool_decide (is_Some (uuid_version normalized))
      then contact_add (with_known_device contact (Some normalized)) else ret tt
  | None, _ => ret tt
  end.

Definition contact_count (b : B) : Z :=
  cast_u 32 match be_count_prefix b CONTACT_KEY_PREFIX with Ok n => n | _ => 0 end.

Definition contact_flush (b : B) : B := match be_flush b with Ok b => b | _ => b end.

Definition verify_integrity (b : B) : res string unit :=
  let count := contact_count b in
  let raw_entry_count := match be_count_prefix b CONTACT_KEY_PREFIX with Ok n => n | _ => 0 end in
  if (count =? 0) && (0 <? raw_entry_count) then
    let has_data := match be_scan_prefix b CONTACT_KEY_PREFIX with Ok (_ :: _) => true | _ => false end in
    if has_data then Err "CorruptionDetected"%string else Ok tt
  else Ok tt.

Definition flag_set (key : string) : M B bool :=
  let* v := try_ok (kv_get (str_bytes key)) in
  ret (match v with Some (Some _) => true | _ => false end).

Definition set_flag (key : string) : M B unit :=
  let* _ := try_ok (kv_put (str_bytes key) (str_bytes "true")) in ret tt.

Definition migrate_unprefixed_entry (kv : bytes * bytes) : M B unit :=
  let '(key, value) := kv in
  if starts_with CONTACT_KEY_PREFIX key then ret tt
  else match dec (A := Contact) value with
  | None => ret tt
  | Some contact =>
      if negb (bool_decide (str_bytes (ct_peer_id contact) = key)) then ret tt
      else
        let prefixed := contact_key (ct_peer_id contact) in
        let* existing := try_ok (kv_get prefixed) in
        match existing with
        | Some (Some _) => let* _ := try_ok (kv_remove key) in ret tt
        | _ =>
            let* put := try_ok (kv_put prefixed value) in
            match put with
            | Some _ => let* _ := try_ok (kv_remove key) in ret tt
            | None => ret tt
            end
        end
  end.

Definition migrate_unprefixed_contacts : M B unit :=
  let* done := flag_set "metadata_contacts_migrated" in
  if done then ret tt
  else
    let* entries := try_ok (kv_scan []) in
    match entries with
    | None => ret tt
    | Some entries =>
        let* _ := mfold (fun _ kv => migrate_unprefixed_entry kv) tt entries in
        set_flag "metadata_contacts_migrated"
    end.

(** One contact of the second migration. *)
Definition migrate_contact (contact : Contact) : M B unit :=
  let peer_id_trimmed := trim (ct_peer_id contact) in
  if decide (peer_id_trimmed = ""%string) then ret tt
  else
    let* canonical := lift (canonical_of contact peer_id_trimmed) in
    match canonical with
    | None => ret tt
    | Some canonical_hex =>
        if String.eqb canonical_hex (to_lowercase peer_id_trimmed) then
          if negb (String.eqb (ct_peer_id contact) canonical_hex) || negb (String.eqb (trim (ct_public_key contact)) canonical_hex)
          then
            let* added := try_ok (contact_add (set_ids contact canonical_hex canonical_hex)) in
            match added with
            | Some _ =>
                if negb (String.eqb (ct_peer_id contact) canonical_hex)
                then let* _ := try_ok (kv_remove (contact_key peer_id_trimmed)) in ret tt else ret tt
            | None => ret tt
            end
          else ret tt
        else
          let* existing := try_ok (kv_get (contact_key canonical_hex)) in
          match existing with
          | Some (Some _) =>
              let* canonical_contact := try_ok (contact_get canonical_hex) in
              let* _ :=
                match canonical_contact with
                | Some (Some c) =>
                    let '(nickname, changed) := merge_nickname (ct_nickname contact) (ct_nickname c) in
                    let '(local_nickname, changed_local) := merge_nickname (ct_local_nickname contact) (ct_local_nickname c) in
                    if changed || changed_local
                    then let* _ := try_ok (contact_add (with_local_nick (with_nick c nickname) local_nickname)) in ret tt
                    else ret tt
                | _ => ret tt
                end in
              let* _ := try_ok (kv_remove (contact_key peer_id_trimmed)) in ret tt
          | _ =>
              let* added := try_ok (contact_add (set_ids contact canonical_hex canonical_hex)) in
              match added with
              | Some _ => let* _ := try_ok (kv_remove (contact_key peer_id_trimmed)) in ret tt
              | None => ret tt
              end
          end
    end.

Definition migrate_libp2p_peer_ids_to_canonical_hex : M B unit :=
  let* contacts := try_ok contact_list in
  match contacts with
  | None => set_flag "metadata_contacts_canonical_hex_migrated"
  | Some contacts =>
      let* _ := mfold (fun _ c => migrate_contact c) tt contacts in
      set_flag "metadata_contacts_canonical_hex_migrated"
  end.

(** [ContactManager::new]. *)
Definition contacts_open : M B unit :=
  let* _ := migrate_unprefixed_contacts in
  migrate_libp2p_peer_ids_to_canonical_hex.

Definition reconcile_from_history (now : Z) (history : B) : M B Z :=
  let* all_messages := lift (recent_including_hidden None 10000 history).1 in
  mfold (fun recovered msg =>
    let* first := try_ok (contact_get (mr_peer_id msg)) in
    match first with
    | Some _ =>
        let* known := contact_get (mr_peer_id msg) in
        match known with
        | Some _ => ret recovered
        | None =>
            match derive_public_key_from_peer_id (mr_peer_id msg) with
            | Ok pub_key =>
                let* _ := contact_add (contact_new now (mr_peer_id msg) pub_key) in
                ret (recovered + 1)
            | Err _ => ret recovered
            | Panic => panic
            end
        end
    | None => ret recovered
    end) 0 all_messages.

Definition migrate_identity_id_index : M B Z :=
  let* done := flag_set "metadata_identity_id_index_migrated" in
  if done then ret 0
  else
    let* contacts := try_ok contact_list in
    let* migrated := mfold (fun migrated contact =>
      match identity_id_from_public_key_hex (ct_public_key contact) with
      | Some identity_id =>
          let* resolved := try_ok (resolve_identity_id identity_id) in
          match resolved with
          | Some None =>
              let* _ := try_ok (save_identity_id_index identity_id (ct_public_key contact)) in
              ret (migrated + 1)
          | _ => ret migrated
          end
      | None => ret migrated
      end) 0 (default [] contacts) in
    let* _ := set_flag "metadata_identity_id_index_migrated" in
    ret migrated.

End Contacts.

(** ** Canonical ids *)

Section Canonical.
Context {IL : IdLib} {KL : KeyLib} {LH : LawfulHex}.

Definition canonical_id (h : string) : Prop :=
  is_valid_identity_id h = true /\ to_lowercase h = h /\ is_Some (hex_decode h).

Lemma hex_digits_trim s : forallb is_ascii_hexdigit (str_bytes s) = true -> trim s = s.
Proof.
  intros H. apply trim_plain, Forall_forall. intros a Ha. apply hexdigit_plain.
  rewrite forallb_forall in H. apply H. by apply list_elem_of_In.
Qed.

Lemma canonical_trim h : canonical_id h -> trim h = h.
Proof. intros [[_ H]%andb_true_iff _]. by apply hex_digits_trim. Qed.

Lemma canonical_hex_key h : canonical_id h -> hex_key h = true.
Proof.
  intros Hc. unfold hex_key. rewrite (canonical_trim h Hc). destruct Hc as ([Hl Hd]%andb_true_iff & _ & Hs).
  rewrite Hl, Hd. by apply bool_decide_eq_true.
Qed.

Lemma hex_digits_lower s :
  forallb is_ascii_hexdigit (str_bytes s) = true -> forallb is_ascii_hexdigit (str_bytes (to_lowercase s)) = true.
Proof.
  unfold to_lowercase. rewrite str_bytes_of_bytes. induction (str_bytes s) as [|a l IH]; [done|]. cbn.
  intros [Ha Hl]%andb_true_iff. rewrite (lower_byte_hex a Ha). by apply IH.
Qed.

(** The lower-case form of 64 digits that decode. *)
Lemma canonical_lower s :
  str_len s = 64 -> forallb is_ascii_hexdigit (str_bytes s) = true -> is_Some (hex_decode s) -> canonical_id (to_lowercase s).
Proof.
  intros Hl Hd Hs. split_and!; [|apply to_lowercase_idemp|by rewrite hex_decode_lower].
  apply andb_true_iff. split; [apply Z.eqb_eq; by rewrite str_len_lower|by apply hex_digits_lower].
Qed.

Lemma hex_key_spec s : hex_key s = true ->
  trim s = s /\ str_len s = 64 /\ forallb is_ascii_hexdigit (str_bytes s) = true /\ is_Some (hex_decode s).
Proof.
  intros [[Hl Hd]%andb_true_iff Hs]%andb_true_iff. pose proof (hex_digits_trim s Hd) as Ht. rewrite Ht in *.
  apply Z.eqb_eq in Hl. by apply bool_decide_eq_true in Hs.
Qed.

Lemma hex_encode_canonical l : zlen l = 32 -> canonical_id (hex_encode l).
Proof.
  intros Hl. split_and!; [|apply hex_encode_lower|rewrite hex_decode_encode; by eexists].
  apply andb_true_iff. split; [apply Z.eqb_eq; rewrite hex_encode_len; lia|].
  apply forallb_forall. intros a Ha%list_elem_of_In. pose proof (hex_encode_digits l) as H.
  rewrite Forall_forall in H. by apply H.
Qed.

(** A key derived from a peer id is 64 digits in lower case; deriving never panics. *)
Lemma derive_spec p : match derive_public_key_from_peer_id p with
  | Ok h => canonical_id h | Err _ => True | Panic => False end.
Proof.
  unfold derive_public_key_from_peer_id. destruct ((str_len (trim p) =? 64) && _) eqn:Hh.
  - apply andb_true_iff in Hh as [Hl Hd]. apply Z.eqb_eq in Hl. destruct (hex_decode (trim p)) as [bytes|] eqn:Hx; [|done].
    case_if; [|done]. apply canonical_lower; [done|done|by eexists].
  - destruct (bs58_decode (trim p)) as [bytes|]; [|done].
    destruct ((zlen bytes =? 38) && starts_with PEER_ID_HEADER bytes) eqn:Hc.
    + apply andb_true_iff in Hc as [Hl _]. apply Z.eqb_eq in Hl.
      destruct (slice bytes 6 38) as [t|e|] eqn:Hs; [| |].
      * apply slice_length in Hs. apply hex_encode_canonical. lia.
      * done.
      * apply slice_panic in Hs. lia.
    + destruct (32 <=? zlen bytes) eqn:H32; [|done]. apply Z.leb_le in H32.
      destruct (slice bytes (zlen bytes - 32) (zlen bytes)) as [t|e|] eqn:Hs.
      * apply slice_length in Hs. apply hex_encode_canonical. lia.
      * done.
      * apply slice_panic in Hs. lia.
Qed.

Lemma canonical_of_spec c p : exists o, canonical_of c p = Ok o /\ forall h, o = Some h -> canonical_id h.
Proof.
  unfold canonical_of. destruct (hex_key (ct_public_key c)) eqn:Hk.
  - apply hex_key_spec in Hk as (Ht & Hl & Hd & Hs). eexists. split; [done|]. intros h [= <-]. rewrite Ht. by apply canonical_lower.
  - pose proof (derive_spec p) as Hd. destruct (derive_public_key_from_peer_id p) as [h|e|]; [| |done].
    + eexists. split; [done|]. intros h' [= <-]. by rewrite (proj1 (proj2 Hd)).
    + by eexists.
Qed.

Lemma canonicalize_total c : exists c', canonicalize c = Ok c'.
Proof.
  unfold canonicalize. case_decide; [by eexists|]. destruct (canonical_of_spec c (trim (ct_peer_id c))) as (o & -> & _).
  cbn. destruct o as [h|]; [|destruct (hex_key _)]; repeat case_if; by eexists.
Qed.

(** A contact under a canonical id that is its key stays as it is. *)
Lemma canonicalize_fix c h : canonical_id h -> ct_peer_id c = h -> ct_public_key c = h -> canonicalize c = Ok c.
Proof.
  intros Hc Hp Hk. unfold canonicalize. rewrite Hp, (canonical_trim h Hc). rewrite decide_False.
  2:{ intros ->. destruct Hc as ([Hl _]%andb_true_iff & _). done. }
  unfold canonical_of. rewrite Hk, (canonical_hex_key h Hc), (canonical_trim h Hc), (proj1 (proj2 Hc)). cbn.
  by rewrite String.eqb_refl.
Qed.

End Canonical.

(** ** What the operations do to a lawful backend *)

Section Laws.
Context {B : Type} {SB : StorageBackend B} {LB : LawfulBackend B} {IL : IdLib} {KL : KeyLib} {LH : LawfulHex}.
Context {CC : Codec Contact} {LC : LawfulCodec Contact} {CP : Codec PublicKeyBundle}.

Implicit Types b : B.

(** *** Keys *)

#[export] Instance contact_key_inj : Inj (=) (=) contact_key.
Proof. intros x y H%app_inv_head. by apply str_bytes_inj. Qed.

#[export] Instance index_key_inj : Inj (=) (=) identity_id_index_key.
Proof. intros x y H%app_inv_head. by apply str_bytes_inj. Qed.

Lemma contact_not_index x y : contact_key x <> identity_id_index_key y.
Proof. done. Qed.

Lemma contact_not_bundle x y : contact_key x <> contact_bundle_key y.
Proof. done. Qed.

Lemma index_not_bundle x y : identity_id_index_key x <> contact_bundle_key y.
Proof. done. Qed.

(** *** Adding *)

(** The index entry of a contact. *)
Definition index_of (c : Contact) (m : gmap bytes bytes) : gmap bytes bytes :=
  match identity_id_from_public_key_hex (ct_public_key c) with
  | Some d => <[identity_id_index_key d := str_bytes (ct_public_key c)]> m
  | None => m
  end.

Lemma index_of_contact c m x : index_of c m !! contact_key x = m !! contact_key x.
Proof.
  unfold index_of. destruct (identity_id_from_public_key_hex _); [|done]. by rewrite lookup_insert_ne.
Qed.

Lemma contact_add_run c c' b : canonicalize c = Ok c' -> exists b' v, contact_add c b = (Ok tt, b') /\
  dec v = Some c' /\ be_view b' = index_of c' (<[contact_key (ct_peer_id c') := v]> (be_view b)).
Proof.
  intros Hc. destruct (enc_dec c') as (v & Hv & Hd).
  destruct (kv_put_run (contact_key (ct_peer_id c')) v b) as (b1 & H1 & Hv1).
  assert (forall k : bytes -> M B unit, bind (kv_enc c') k b = k v b) as Henc.
  { intros k. unfold kv_enc, lift, bind, ok_or. by rewrite Hv. }
  unfold contact_add, index_of. rewrite Hc, (bind_run (lift (Ok c')) _ b c' b), Henc, (bind_run _ _ _ _ _ H1) by done.
  destruct (identity_id_from_public_key_hex (ct_public_key c')) as [d|]; [|by exists b1, v].
  destruct (kv_put_run (identity_id_index_key d) (str_bytes (ct_public_key c')) b1) as (b2 & H2 & Hv2).
  exists b2, v. split_and!; [|done|by rewrite Hv2, Hv1].
  rewrite (bind_run _ _ _ (Some tt) b2); [done|]. unfold try_ok, save_identity_id_index. by rewrite H2.
Qed.

(** What is stored under an id, and what a public key or identity id leads to. *)
Definition contact_at b (id : string) : option Contact := be_view b !! contact_key id ≫= dec.

Lemma contact_added b b' c' v : dec v = Some c' ->
  be_view b' = index_of c' (<[contact_key (ct_peer_id c') := v]> (be_view b)) ->
  forall x, contact_at b' x = if decide (x = ct_peer_id c') then Some c' else contact_at b x.
Proof.
  intros Hd Hv x. unfold contact_at. rewrite Hv, index_of_contact. case_decide as Hx.
  - subst x. rewrite lookup_insert_eq. done.
  - rewrite lookup_insert_ne; [done|]. intros H%contact_key_inj. congruence.
Qed.

(** *** Getting *)

Lemma index_depth_pos b : exists n, index_depth b = S (S n).
Proof. unfold index_depth. destruct (be_count_prefix b _) as [n| |]; [|by exists O..]. exists (Z.to_nat n). lia. Qed.

Lemma get_from_found n x b c : contact_at b x = Some c -> contact_get_from (S n) x b = (Ok (Some c), b).
Proof.
  unfold contact_at. intros H. cbn [contact_get_from]. rewrite (bind_run _ _ _ _ _ (kv_get_run _ b)).
  destruct (be_view b !! contact_key x) as [v|]; [|done]. cbn in H. unfold kv_dec, lift, bind, ok_or. by rewrite H.
Qed.

Lemma contact_get_found x b c : contact_at b x = Some c -> contact_get x b = (Ok (Some c), b).
Proof. intros H. unfold contact_get. destruct (index_depth_pos b) as [n ->]. by apply get_from_found. Qed.

Lemma get_from_absent n x b :
  be_view b !! contact_key x = None -> be_view b !! identity_id_index_key x = None -> contact_get_from (S n) x b = (Ok None, b).
Proof.
  intros Hc Hi. cbn [contact_get_from]. rewrite (bind_run _ _ _ _ _ (kv_get_run _ b)), Hc.
  rewrite (bind_run _ _ _ (Some None) b); [done|]. unfold try_ok, resolve_identity_id.
  by rewrite (bind_run _ _ _ _ _ (kv_get_run _ b)), Hi.
Qed.

Lemma contact_get_absent x b :
  be_view b !! contact_key x = None -> be_view b !! identity_id_index_key x = None -> contact_get x b = (Ok None, b).
Proof. intros. unfold contact_get. destruct (index_depth_pos b) as [n ->]. by apply get_from_absent. Qed.

(** An identity id leads to the contact of its public key. *)
Lemma contact_get_indexed x k b c :
  be_view b !! contact_key x = None -> be_view b !! identity_id_index_key x = Some (str_bytes k) ->
  utf8_valid (str_bytes k) = true -> contact_at b k = Some c -> contact_get x b = (Ok (Some c), b).
Proof.
  intros Hc Hi Hu Hk. unfold contact_get. destruct (index_depth_pos b) as [n ->]. cbn [contact_get_from].
  rewrite (bind_run _ _ _ _ _ (kv_get_run _ b)), Hc.
  rewrite (bind_run _ _ _ (Some (Some k)) b); [by apply get_from_found|]. unfold try_ok, resolve_identity_id.
  by rewrite (bind_run _ _ _ _ _ (kv_get_run _ b)), Hi, Hu, of_bytes_str_bytes.
Qed.

Lemma hex_utf8 s : forallb is_ascii_hexdigit (str_bytes s) = true -> utf8_valid (str_bytes s) = true.
Proof.
  intros H. apply ascii_utf8, Forall_forall. intros a Ha. rewrite forallb_forall in H.
  by apply hexdigit_plain, H, list_elem_of_In.
Qed.

(** *** Migrating *)

Lemma contact_add_grows c b : exists b', contact_add c b = (Ok tt, b') /\
  forall x, is_Some (be_view b !! contact_key x) -> is_Some (be_view b' !! contact_key x).
Proof.
  destruct (canonicalize_total c) as [c' Hc]. destruct (contact_add_run c c' b Hc) as (b' & v & H & _ & Hv).
  exists b'. split; [done|]. intros x Hx. rewrite Hv, index_of_contact.
  destruct (decide (contact_key (ct_peer_id c') = contact_key x)) as [<-|Hne];
    [rewrite lookup_insert_eq; by eexists|by rewrite lookup_insert_ne].
Qed.

Lemma contact_add_at c h b : canonical_id h -> ct_peer_id c = h -> ct_public_key c = h -> exists b',
  contact_add c b = (Ok tt, b') /\ is_Some (be_view b' !! contact_key h) /\
  forall x, is_Some (be_view b !! contact_key x) -> is_Some (be_view b' !! contact_key x).
Proof.
  intros Hh Hp Hk. pose proof (canonicalize_fix c h Hh Hp Hk) as Hc.
  destruct (contact_add_run c c b Hc) as (b' & v & H & _ & Hv). destruct (contact_add_grows c b) as (b'' & H' & Hg).
  rewrite H in H'. injection H' as <-. exists b'. split_and!; [done| |done].
  rewrite Hv, index_of_contact, Hp, lookup_insert_eq. by eexists.
Qed.

Lemma try_remove_run k b : exists b', (let* _ := try_ok (kv_remove k) in ret tt) b = (Ok tt, b') /\ be_view b' = delete k (be_view b).
Proof.
  destruct (kv_remove_run k b) as (b' & H & Hv). exists b'. split; [|done].
  rewrite (bind_run _ _ _ (Some tt) b'); [done|]. unfold try_ok. by rewrite H.
Qed.

Lemma contact_get_row x b : is_Some (be_view b !! contact_key x) -> exists o, try_ok (contact_get x) b = (Ok o, b).
Proof.
  intros [v Hv]. unfold try_ok, contact_get. destruct (index_depth_pos b) as [n ->]. cbn [contact_get_from].
  rewrite (bind_run _ _ _ _ _ (kv_get_run _ b)), Hv. unfold kv_dec, lift, bind, ok_or.
  destruct (dec v); cbn; by eexists.
Qed.

(** The rows that are there after a step: all but that of the id that moved. *)
Definition keeps_but (moved : string -> Prop) b b' : Prop :=
  forall x, ~ moved x -> is_Some (be_view b !! contact_key x) -> is_Some (be_view b' !! contact_key x).

(** Adding under the canonical id and dropping the row of the old one. *)
Lemma move_run c h b : canonical_id h -> exists b',
  (let* added := try_ok (contact_add (set_ids c h h)) in
   match added with
   | Some _ => let* _ := try_ok (kv_remove (contact_key (ct_peer_id c))) in ret tt
   | None => ret tt
   end) b = (Ok tt, b') /\
  (ct_peer_id c <> h -> is_Some (be_view b' !! contact_key h)) /\ keeps_but (fun x => x = ct_peer_id c) b b'.
Proof.
  intros Hh. destruct (contact_add_at (set_ids c h h) h b Hh eq_refl eq_refl) as (b1 & H1 & Hat & Hg).
  destruct (try_remove_run (contact_key (ct_peer_id c)) b1) as (b2 & H2 & Hv2). exists b2. split_and!.
  - rewrite (bind_run _ _ _ (Some tt) b1); [done|]. unfold try_ok. by rewrite H1.
  - intros Hne. rewrite Hv2, lookup_delete_ne; [done|]. by intros ?%contact_key_inj.
  - intros x Hx Hs. rewrite Hv2, lookup_delete_ne; [by apply Hg|]. intros <-%contact_key_inj. by apply Hx.
Qed.

Lemma migrate_step c h b : ct_peer_id c <> ""%string -> trim (ct_peer_id c) = ct_peer_id c ->
  canonical_of c (ct_peer_id c) = Ok (Some h) -> exists b', migrate_contact c b = (Ok tt, b') /\
    (ct_peer_id c <> h \/ is_Some (be_view b !! contact_key h) -> is_Some (be_view b' !! contact_key h)) /\
    keeps_but (fun x => x = ct_peer_id c /\ x <> h) b b'.
Proof.
  intros Hp Ht Hcan. destruct (canonical_of_spec c (ct_peer_id c)) as (o & Ho & Hid). rewrite Hcan in Ho. injection Ho as <-.
  specialize (Hid h eq_refl). unfold migrate_contact. rewrite Ht, decide_False by done.
  rewrite Hcan, (bind_run (lift _) _ b (Some h) b) by done.
  assert (forall b', ct_peer_id c = h -> (forall x, is_Some (be_view b !! contact_key x) -> is_Some (be_view b' !! contact_key x)) ->
    (ct_peer_id c <> h \/ is_Some (be_view b !! contact_key h) -> is_Some (be_view b' !! contact_key h)) /\
    keeps_but (fun x => x = ct_peer_id c /\ x <> h) b b') as Hsame.
  { intros b' Heq Hg. split; [intros [?|?]; [done|by apply Hg]|]. intros x _. apply Hg. }
  assert (forall b', ct_peer_id c <> h -> is_Some (be_view b' !! contact_key h) -> keeps_but (fun x => x = ct_peer_id c) b b' ->
    (ct_peer_id c <> h \/ is_Some (be_view b !! contact_key h) -> is_Some (be_view b' !! contact_key h)) /\
    keeps_but (fun x => x = ct_peer_id c /\ x <> h) b b') as Hmoved.
  { intros b' Hne Hat Hk. split; [done|]. intros x Hx Hs. destruct (decide (x = h)) as [->|]; [done|].
    apply Hk; [|done]. intros ->. by apply Hx. }
  destruct (String.eqb h (to_lowercase (ct_peer_id c))) eqn:Hlow.
  - destruct (String.eqb (ct_peer_id c) h) eqn:Hph; [apply String.eqb_eq in Hph|apply String.eqb_neq in Hph]; cbn [negb orb].
    + destruct (negb (String.eqb (trim (ct_public_key c)) h)); [|exists b; split; [done|by apply Hsame]].
      destruct (contact_add_at (set_ids c h h) h b Hid eq_refl eq_refl) as (b1 & H1 & Hat & Hg).
      exists b1. split; [|by apply Hsame]. rewrite (bind_run _ _ _ (Some tt) b1); [done|]. unfold try_ok. by rewrite H1.
    + destruct (move_run c h b Hid) as (b' & H & Hat & Hk). exists b'. split; [exact H|]. apply Hmoved; auto.
  - assert (ct_peer_id c <> h) as Hne.
    { intros Heq. rewrite Heq, (proj1 (proj2 Hid)), String.eqb_refl in Hlow. done. }
    rewrite (bind_run _ _ _ (Some (be_view b !! contact_key h)) b) by (unfold try_ok; by rewrite kv_get_run).
    destruct (be_view b !! contact_key h) as [v|] eqn:Hv.
    + destruct (contact_get_row h b) as [o Ho]; [by rewrite Hv|]. rewrite (bind_run _ _ _ _ _ Ho).
      match goal with |- exists b', bind ?m _ b = _ /\ _ => assert (exists b1, m b = (Ok tt, b1) /\
        forall x, is_Some (be_view b !! contact_key x) -> is_Some (be_view b1 !! contact_key x)) as (b1 & H1 & Hg) end.
      { destruct o as [[c'|]|]; [|by exists b..].
        destruct (merge_nickname _ _) as [n ch], (merge_nickname _ _) as [n' ch']. destruct (ch || ch'); [|by exists b].
        destruct (contact_add_grows (with_local_nick (with_nick c' n) n') b) as (b1 & H1 & Hg).
        exists b1. split; [|done]. rewrite (bind_run _ _ _ (Some tt) b1); [done|]. unfold try_ok. by rewrite H1. }
      rewrite (bind_run _ _ _ _ _ H1). destruct (try_remove_run (contact_key (ct_peer_id c)) b1) as (b2 & H2 & Hv2).
      exists b2. split; [done|]. apply Hmoved; [done| |].
      * rewrite Hv2, lookup_delete_ne by (by intros ?%contact_key_inj). apply Hg. by rewrite Hv.
      * intros x Hx Hs. rewrite Hv2, lookup_delete_ne; [by apply Hg|]. intros <-%contact_key_inj. by apply Hx.
    + destruct (move_run c h b Hid) as (b' & H & Hat & Hk). exists b'. split; [exact H|]. apply Hmoved; auto.
Qed.

(** *** The list of contacts *)

Definition contacts_ok b : Prop :=
  map_Forall (fun k v => exists c, dec v = Some c /\ k = contact_key (ct_peer_id c)) (under CONTACT_KEY_PREFIX b).

Lemma contact_key_prefix x : starts_with CONTACT_KEY_PREFIX (contact_key x) = true.
Proof. apply starts_with_app. Qed.

Lemma decode_all l acc b : Forall (fun kv => is_Some (dec (A := Contact) kv.2)) l ->
  mfold (fun contacts kv => let* contact := kv_dec kv.2 in ret (contacts ++ [contact])) acc l b =
  (Ok (acc ++ omap (fun kv : bytes * bytes => dec (A := Contact) kv.2) l), b).
Proof.
  intros Hl. revert acc. induction Hl as [|[k v] l [c Hc] _ IH]; intros acc; cbn [mfold]; [by rewrite app_nil_r|].
  cbn [snd] in *. rewrite (bind_run _ _ _ (acc ++ [c]) b); [|unfold kv_dec, lift, bind, ok_or; by rewrite Hc].
  rewrite IH, <-app_assoc. cbn. by rewrite Hc.
Qed.

Lemma contact_list_run b : contacts_ok b -> exists l, contact_list b = (Ok l, b) /\
  forall c, c ∈ l <-> contact_at b (ct_peer_id c) = Some c.
Proof.
  intros Hok. destruct (kv_scan_run CONTACT_KEY_PREFIX b) as (rows & Hr & Hp).
  assert (Forall (fun kv => is_Some (dec (A := Contact) kv.2)) rows) as Hdec.
  { apply Forall_forall. intros [k v]. rewrite Hp, elem_of_map_to_list. intros Hv.
    destruct (Hok k v Hv) as (c & Hc & _). by exists c. }
  eexists. split; [unfold contact_list; by rewrite (bind_run _ _ _ _ _ Hr), (bind_run _ _ _ _ _ (decode_all rows [] b Hdec))|].
  intros c. rewrite stable_sort_Permutation. cbn [app]. rewrite list_elem_of_omap. unfold contact_at. split.
  - intros ([k v] & Hin & Hd). rewrite Hp, elem_of_map_to_list in Hin. cbn [snd] in Hd.
    destruct (Hok k v Hin) as (c' & Hc' & ->). rewrite Hd in Hc'. injection Hc' as <-.
      rewrite <-(under_lookup CONTACT_KEY_PREFIX) by apply contact_key_prefix. by rewrite Hin.
    - destruct (be_view b !! contact_key (ct_peer_id c)) as [v|] eqn:Hv; [|done]. cbn. intros Hd.
      exists (contact_key (ct_peer_id c), v). split; [|done]. rewrite Hp, elem_of_map_to_list.
      by rewrite under_lookup by apply contact_key_prefix.
Qed.

Lemma contact_at_id b x c : contacts_ok b -> contact_at b x = Some c -> ct_peer_id c = x.
Proof.
  intros Hok. unfold contact_at. destruct (be_view b !! contact_key x) as [v|] eqn:Hv; [|done]. cbn. intros Hd.
  rewrite <-(under_lookup CONTACT_KEY_PREFIX) in Hv by apply contact_key_prefix.
  destruct (Hok _ _ Hv) as (c' & Hc' & Hk). rewrite Hd in Hc'. injection Hc' as <-. by apply contact_key_inj in Hk.
Qed.

Lemma set_flag_run name b : (forall x, contact_key x <> str_bytes name) -> exists b',
  set_flag name b = (Ok tt, b') /\ forall x, be_view b' !! contact_key x = be_view b !! contact_key x.
Proof.
  intros Hn. destruct (kv_put_run (str_bytes name) (str_bytes "true") b) as (b' & H & Hv). exists b'. split.
  - unfold set_flag. rewrite (bind_run _ _ _ (Some tt) b'); [done|]. unfold try_ok. by rewrite H.
  - intros x. rewrite Hv, lookup_insert_ne; [done|]. intros Heq. by apply (Hn x).
Qed.

(** Where a contact is to be found after the migration. *)
Definition home (c : Contact) : string := match canonical_of c (ct_peer_id c) with Ok (Some h) => h | _ => ct_peer_id c end.

Lemma migrate_loop l b :
  Forall (fun c => ct_peer_id c <> ""%string /\ trim (ct_peer_id c) = ct_peer_id c) l ->
  (forall c c', c ∈ l -> c' ∈ l -> ct_peer_id c = home c' -> home c = home c') ->
  (forall c, c ∈ l -> ct_peer_id c = home c -> is_Some (be_view b !! contact_key (home c))) ->
  exists b', mfold (fun _ c => migrate_contact c) tt l b = (Ok tt, b') /\
    (forall c, c ∈ l -> is_Some (be_view b' !! contact_key (home c))) /\
    keeps_but (fun x => exists c, c ∈ l /\ ct_peer_id c = x /\ x <> home c) b b'.
Proof.
  revert b. induction l as [|c l IH]; intros b Hl Hcross Hhome.
  { exists b. split_and!; [done|by intros c ?%elem_of_nil|by intros x _ ?]. }
  apply Forall_cons in Hl as [[Hne Ht] Hl].
  assert (exists b1, migrate_contact c b = (Ok tt, b1) /\ is_Some (be_view b1 !! contact_key (home c)) /\
    keeps_but (fun x => x = ct_peer_id c /\ x <> home c) b b1) as (b1 & H1 & Hat & Hk1).
  { assert (ct_peer_id c <> home c \/ is_Some (be_view b !! contact_key (home c))) as Hor.
    { destruct (decide (ct_peer_id c = home c)) as [Heq|]; [right; apply Hhome; [by left|done]|by left]. }
    unfold home in *. destruct (canonical_of_spec c (ct_peer_id c)) as (o & Ho & _). rewrite Ho in *. destruct o as [h|].
    - destruct (migrate_step c h b Hne Ht Ho) as (b1 & H1 & Hat & Hk). exists b1. split_and!; [done|by apply Hat|done].
    - exists b. split_and!; [|destruct Hor; done|by intros x _ ?]. unfold migrate_contact. rewrite Ht, decide_False by done.
      by rewrite Ho. }
  destruct (IH b1 Hl) as (b2 & H2 & Hall & Hk2).
  { intros c1 c2 Hc1 Hc2. apply Hcross; by right. }
  { intros c' Hc' Heq. apply Hk1; [|apply Hhome; [by right|done]]. intros [Hp Hn]. apply Hn.
    symmetry. apply Hcross; [by left|by right|done]. }
  assert (is_Some (be_view b2 !! contact_key (home c))) as Hc2.
  { apply Hk2; [|done]. intros (c' & Hc' & Hp & Hn). apply Hn. symmetry. apply Hcross; [by right|by left|done]. }
  exists b2. split_and!.
  - cbn [mfold]. by rewrite (bind_run _ _ _ _ _ H1).
  - intros c' [->|Hc']%elem_of_cons; [done|by apply Hall].
  - intros x Hx Hs. apply Hk2; [|apply Hk1; [|done]].
    + intros (c' & Hc' & ? & ?). apply Hx. exists c'. split; [by right|done].
    + intros [-> Hn]. apply Hx. exists c. split; [by left|done].
Qed.

(** ** Properties *)

(** A contact is found under its canonical id, and through the identity id of its key.
    Adding never fails; it stores the canonical form and changes no other contact; a contact
    with a valid public key is filed under that key in lower case. *)
Theorem contact_add_get c b : exists c' b', canonicalize c = Ok c' /\ contact_add c b = (Ok tt, b') /\
  contact_get (ct_peer_id c') b' = (Ok (Some c'), b') /\
  (forall x, x <> ct_peer_id c' -> contact_at b' x = contact_at b x) /\
  (hex_key (ct_public_key c) = true -> trim (ct_peer_id c) <> ""%string -> ct_peer_id c' = to_lowercase (ct_public_key c)) /\
  (forall d, identity_id_from_public_key_hex (ct_public_key c') = Some d -> d <> ct_peer_id c' ->
     be_view b !! contact_key d = None -> ct_public_key c' = ct_peer_id c' -> contact_get d b' = (Ok (Some c'), b')).
Proof.
  destruct (canonicalize_total c) as [c' Hc]. destruct (contact_add_run c c' b Hc) as (b' & v & H & Hd & Hv).
  pose proof (contact_added b b' c' v Hd Hv) as Hat. exists c', b'. split_and!; [done|done| | | |].
  - apply contact_get_found. by rewrite Hat, decide_True.
  - intros x Hx. by rewrite Hat, decide_False.
  - intros Hk Hne. unfold canonicalize, canonical_of in Hc. rewrite decide_False, Hk in Hc by done. cbn in Hc.
    apply hex_key_spec in Hk as (Ht & _). rewrite Ht in Hc.
    destruct (String.eqb (to_lowercase (trim (ct_peer_id c))) (to_lowercase (ct_public_key c))); cbn in Hc; [|by injection Hc as <-].
    destruct (String.eqb (ct_peer_id c) (to_lowercase (ct_public_key c))) eqn:He; cbn in Hc; [|by injection Hc as <-].
    injection Hc as <-. by apply String.eqb_eq in He.
  - intros d Hid Hne Hnone Hpk. apply (contact_get_indexed d (ct_public_key c')).
    + rewrite Hv, index_of_contact, lookup_insert_ne; [done|]. by intros ?%contact_key_inj.
    + rewrite Hv. unfold index_of. rewrite Hid. apply lookup_insert_eq.
    + apply hex_utf8. unfold identity_id_from_public_key_hex, is_valid_public_key in Hid.
      destruct (forallb is_ascii_hexdigit (str_bytes (ct_public_key c'))); [done|]. by rewrite orb_true_r in Hid.
    + rewrite Hpk, Hat. by rewrite decide_True.
Qed.

(** A contact cannot be reached under the peer id it was added with.  When a contact
    with a valid public key is added under another id, such as its libp2p id, a lookup of
    that id finds nothing and setting a nickname under it is an error. *)
Theorem contact_given_id_lost c n b :
  hex_key (ct_public_key c) = true -> trim (ct_peer_id c) <> ""%string ->
  to_lowercase (trim (ct_peer_id c)) <> to_lowercase (ct_public_key c) ->
  identity_id_from_public_key_hex (to_lowercase (ct_public_key c)) <> Some (ct_peer_id c) ->
  identity_id_from_public_key_hex (ct_public_key c) <> Some (ct_peer_id c) ->
  be_view b !! contact_key (ct_peer_id c) = None -> be_view b !! identity_id_index_key (ct_peer_id c) = None ->
  exists b', contact_add c b = (Ok tt, b') /\ contact_get (ct_peer_id c) b' = (Ok None, b') /\
    set_nickname (ct_peer_id c) n b' = (Err "InvalidInput"%string, b').
Proof.
  intros Hk Hne Hdiff Hid1 Hid2 Hc Hi.
  set (c' := set_ids c (to_lowercase (ct_public_key c)) (if String.eqb (ct_public_key c) (to_lowercase (ct_public_key c))
    then ct_public_key c else to_lowercase (ct_public_key c))).
  assert (canonicalize c = Ok c') as Hcan.
  { unfold canonicalize, canonical_of. rewrite decide_False, Hk by done. cbn.
    pose proof (hex_key_spec _ Hk) as (Ht & _). rewrite Ht. rewrite (proj2 (String.eqb_neq _ _) Hdiff). cbn.
    rewrite String.eqb_refl. unfold c'. by destruct (String.eqb (ct_public_key c) _). }
  destruct (contact_add_run c c' b Hcan) as (b' & v & H & _ & Hv). exists b'.
  assert (contact_get (ct_peer_id c) b' = (Ok None, b')) as Hget.
  { apply contact_get_absent; rewrite Hv.
    - rewrite index_of_contact, lookup_insert_ne; [done|]. intros Heq%contact_key_inj. apply Hdiff. rewrite <-Heq.
      cbn [c' set_ids ct_peer_id]. pose proof (hex_key_spec _ Hk) as (_ & _ & Hd & _).
      rewrite (hex_digits_trim _ (hex_digits_lower _ Hd)). apply to_lowercase_idemp.
    - unfold index_of. assert (identity_id_from_public_key_hex (ct_public_key c') <> Some (ct_peer_id c)) as Hid.
      { unfold c'. cbn [set_ids ct_public_key]. by destruct (String.eqb _ _). }
      destruct (identity_id_from_public_key_hex (ct_public_key c')) as [d|]; [|by rewrite lookup_insert_ne].
      rewrite lookup_insert_ne, lookup_insert_ne; [done|done|]. intros Heq%index_key_inj. congruence. }
  split_and!; [done|done|]. unfold set_nickname. by rewrite (bind_run _ _ _ _ _ Hget).
Qed.


(** What migrating overwrites.  A contact whose id is its key with white space around it
    makes the migration delete the contact stored under the key; one whose id is its key in
    upper case replaces that contact, its nicknames included. *)
Theorem migration_overwrites c h b : canonical_id h -> ct_public_key c = h -> ct_peer_id c <> h ->
  to_lowercase (trim (ct_peer_id c)) = h ->
  exists b', migrate_contact c b = (Ok tt, b') /\
    (trim (ct_peer_id c) = h -> be_view b' !! contact_key h = None) /\
    (trim (ct_peer_id c) <> h -> contact_at b' h = Some (set_ids c h h)).
Proof.
  intros Hh Hk Hne Hlow. pose proof (canonicalize_fix (set_ids c h h) h Hh eq_refl eq_refl) as Hfix.
  destruct (contact_add_run _ _ b Hfix) as (b1 & v & H1 & Hd & Hv1).
  destruct (try_remove_run (contact_key (trim (ct_peer_id c))) b1) as (b2 & H2 & Hv2). exists b2. split_and!.
  - unfold migrate_contact. rewrite decide_False.
    2:{ intros He. rewrite He in Hlow. destruct Hh as ([Hl _]%andb_true_iff & _). by rewrite <-Hlow in Hl. }
    unfold canonical_of. rewrite Hk, (canonical_hex_key h Hh), (canonical_trim h Hh), (proj1 (proj2 Hh)).
    rewrite (bind_run (lift _) _ b (Some h) b) by done. rewrite Hlow, String.eqb_refl, (proj2 (String.eqb_neq _ _) Hne).
    cbn [negb orb]. rewrite (bind_run _ _ _ (Some tt) b1) by (unfold try_ok; by rewrite H1). done.
  - intros Htrim. rewrite Hv2, Htrim. apply lookup_delete_eq.
  - intros Htrim. unfold contact_at. rewrite Hv2, lookup_delete_ne by (by intros ?%contact_key_inj).
    rewrite Hv1, index_of_contact. cbn [set_ids ct_peer_id]. by rewrite lookup_insert_eq.
Qed.

(** The integrity check detects nothing: whatever the entries of contacts contain, and
    also when none of them can be read, it reports a healthy store. *)
Theorem integrity_check_void b : Z.of_nat (size (under CONTACT_KEY_PREFIX b)) < 2 ^ 32 -> verify_integrity b = Ok tt.
Proof.
  intros Hsize. unfold verify_integrity, contact_count. destruct (be_count_law b CONTACT_KEY_PREFIX) as (l & Hl & ->).
  destruct (kv_scan_run CONTACT_KEY_PREFIX b) as (l' & Hl' & Hp). unfold kv_scan, or_throw, reads in Hl'. rewrite Hl in Hl'.
  injection Hl' as <-. assert (zlen l < 2 ^ 32) as Hz by (unfold zlen; by rewrite Hp, length_map_to_list).
  pose proof (zlen_nonneg l). unfold cast_u. rewrite Z.mod_small by lia.
  destruct (zlen l =? 0) eqn:E; [|done]. apply Z.eqb_eq in E. by rewrite E.
Qed.

(** Removing a contact under its identity id removes its key bundle and not the contact. *)
Theorem remove_by_identity_id d k c b :
  be_view b !! contact_key d = None -> be_view b !! identity_id_index_key d = Some (str_bytes k) ->
  utf8_valid (str_bytes k) = true -> d <> k -> contact_at b k = Some c ->
  exists b', contact_remove d b = (Ok tt, b') /\ contact_get d b' = (Ok (Some c), b') /\
    be_view b' !! contact_bundle_key (ct_public_key c) = None.
Proof.
  intros Hc Hi Hu Hne Hk. pose proof (contact_get_indexed d k b c Hc Hi Hu Hk) as Hget.
  destruct (try_remove_run (contact_bundle_key (ct_public_key c)) b) as (b1 & H1 & Hv1).
  destruct (kv_remove_run (contact_key d) b1) as (b2 & H2 & Hv2). exists b2. split_and!.
  - unfold contact_remove. by rewrite (bind_run _ _ _ _ _ Hget), (bind_run _ _ _ _ _ H1).
  - apply (contact_get_indexed d k); [rewrite Hv2; apply lookup_delete_eq| |done|].
    + by rewrite Hv2, Hv1, !lookup_delete_ne by done.
    + unfold contact_at in *. rewrite Hv2, Hv1, lookup_delete_ne by (by intros ?%contact_key_inj).
      by rewrite lookup_delete_ne by done.
  - rewrite Hv2, Hv1, lookup_delete_ne by done. apply lookup_delete_eq.
Qed.

End Laws.

(** ** Concrete runs *)

Module ContactExamples.
Import SampleIds.

#[local] Instance contact_countable : Countable Contact.
Proof.
  refine (inj_countable' (fun c => (ct_peer_id c, ct_nickname c, ct_local_nickname c, ct_public_key c,
      (ct_added_at c, ct_last_seen c, ct_notes c, ct_last_known_device_id c)))
    (fun '(p, n, l, k, (t, s, o, d)) => mkContact p n l k t s o d) _). by intros [].
Defined.

#[local] Instance ex_iter : HashIter bytes bytes := canonical_iter.
#[local] Instance ex_codec : Codec Contact := any_codec.
#[local] Instance ex_lawful : LawfulCodec Contact := any_codec_lawful.

(** Anna, under the transport id of her key, and under the key itself. *)
Definition anna : Contact := with_nick (contact_new 5 ("12D3" +:+ KEY) KEY) (Some "anna"%string).
Definition anna_row : bytes := default [] (enc anna).
Definition home_anna : Contact := set_ids anna KEY KEY.
Definition home_row : bytes := default [] (enc home_anna).

Definition legacy : MemoryStorage := mkMemory (<[contact_key ("12D3" +:+ KEY) := anna_row]> ∅).
Definition indexed : MemoryStorage :=
  mkMemory (<[contact_key KEY := home_row]> (<[identity_id_index_key ID := str_bytes KEY]> ∅)).

Lemma anna_dec : dec anna_row = Some anna.
Proof. vm_compute. reflexivity. Qed.

Lemma home_dec : dec home_row = Some home_anna.
Proof. vm_compute. reflexivity. Qed.

Lemma legacy_view : be_view legacy = <[contact_key ("12D3" +:+ KEY) := anna_row]> ∅.
Proof. reflexivity. Qed.

Lemma indexed_view : be_view indexed = <[contact_key KEY := home_row]> (<[identity_id_index_key ID := str_bytes KEY]> ∅).
Proof. reflexivity. Qed.

Lemma legacy_at x c : contact_at legacy x = Some c -> x = ("12D3" +:+ KEY)%string /\ c = anna.
Proof.
  unfold contact_at. rewrite legacy_view. destruct (decide (contact_key ("12D3" +:+ KEY) = contact_key x)) as [Hx|Hx].
  - rewrite Hx, lookup_insert_eq. cbn [mbind option_bind]. rewrite anna_dec. intros [= <-].
    apply contact_key_inj in Hx. by rewrite Hx.
  - by rewrite lookup_insert_ne, lookup_empty.
Qed.

Lemma legacy_ok : contacts_ok legacy.
Proof.
  intros k v. unfold under. rewrite map_lookup_filter_Some, legacy_view. intros [[[<- <-]|[_ H]]%lookup_insert_Some _].
  - exists anna. split; [exact anna_dec|done].
  - by rewrite lookup_empty in H.
Qed.

Lemma contact_add_get_witness : exists c' b', canonicalize anna = Ok c' /\ contact_add anna memory_new = (Ok tt, b') /\
  contact_get (ct_peer_id c') b' = (Ok (Some c'), b') /\
  (forall x, x <> ct_peer_id c' -> contact_at b' x = contact_at memory_new x) /\
  (hex_key (ct_public_key anna) = true -> trim (ct_peer_id anna) <> ""%string ->
     ct_peer_id c' = to_lowercase (ct_public_key anna)) /\
  (forall d, identity_id_from_public_key_hex (ct_public_key c') = Some d -> d <> ct_peer_id c' ->
     be_view memory_new !! contact_key d = None -> ct_public_key c' = ct_peer_id c' ->
     contact_get d b' = (Ok (Some c'), b')).
Proof. apply (contact_add_get anna memory_new). Defined.

Lemma contact_given_id_lost_witness : exists b', contact_add anna memory_new = (Ok tt, b') /\
  contact_get (ct_peer_id anna) b' = (Ok None, b') /\ set_nickname (ct_peer_id anna) None b' = (Err "InvalidInput"%string, b').
Proof.
  apply (contact_given_id_lost anna None memory_new); try (vm_compute; reflexivity); vm_compute; discriminate.
Defined.


Lemma migration_overwrites_witness : exists b', migrate_contact (set_ids anna (" " +:+ KEY) KEY) indexed = (Ok tt, b') /\
    (trim (" " +:+ KEY) = KEY -> be_view b' !! contact_key KEY = None) /\
    (trim (" " +:+ KEY) <> KEY -> contact_at b' KEY = Some (set_ids (set_ids anna (" " +:+ KEY) KEY) KEY KEY)).
Proof.
  apply (migration_overwrites (set_ids anna (" " +:+ KEY) KEY) KEY indexed);
    [repeat split; [vm_compute; reflexivity..|eexists; vm_compute; reflexivity]|reflexivity|discriminate|vm_compute; reflexivity].
Defined.

(** A store whose only contact cannot be read. *)
Lemma integrity_check_void_witness : let b := mkMemory (<[contact_key KEY := [Byte.x00]]> ∅) in
  verify_integrity b = Ok tt.
Proof. apply integrity_check_void. vm_compute. reflexivity. Defined.

Lemma remove_by_identity_id_witness : exists b', contact_remove ID indexed = (Ok tt, b') /\
    contact_get ID b' = (Ok (Some home_anna), b') /\ be_view b' !! contact_bundle_key (ct_public_key home_anna) = None.
Proof.
  apply (remove_by_identity_id ID KEY home_anna indexed).
  - rewrite indexed_view, lookup_insert_ne, lookup_insert_ne by (intros H; vm_compute in H; discriminate). apply lookup_empty.
  - rewrite indexed_view, lookup_insert_ne by (intros H; vm_compute in H; discriminate). apply lookup_insert_eq.
  - vm_compute. reflexivity.
  - vm_compute. discriminate.
  - unfold contact_at. rewrite indexed_view, lookup_insert_eq. exact home_dec.
Defined.

End ContactExamples.
