(* ===== verification/Identity.v ===== *)
(** * Identity ([core/src/identity], [core/src/crypto/pq/mldsa.rs])

    The keys of a node, their serialization in three versions, the signed bundle of its
    public keys, safety numbers, and the manager that keeps keys, nickname and device
    metadata in memory and in a store.  ML-DSA, libp2p keys and [bincode] are parameters;
    fresh random bytes, UUIDs and clock readings are arguments ([Fresh]). *)

From stdpp Require Import pretty.
From S2P Require Import Prelude Backend Crypto Effects KvStore Ids.

(** ** ML-DSA-65 ([mldsa.rs]) *)

Class MlDsa : Type := {
  dsa_public : bytes -> bytes;                    (** [SigningKey::from_seed(..).verifying_key()] *)
  dsa_sign : bytes -> bytes -> bytes;             (** seed, message *)
  dsa_signature_valid : bytes -> bool;            (** [Signature::try_from] *)
  dsa_verify : bytes -> bytes -> bytes -> bool;   (** public key, message, signature *)
}.

Class MlDsaLaws {MD : MlDsa} : Prop := {
  dsa_public_length : forall s, zlen (dsa_public s) = 1952;
  dsa_sign_length : forall s m, zlen (dsa_sign s m) = 3309;
  dsa_sign_valid : forall s m, dsa_signature_valid (dsa_sign s m) = true;
  dsa_correct : forall s m, dsa_verify (dsa_public s) m (dsa_sign s m) = true;
}.

Record MlDsa65KeyPair : Type := mkDsa {
  verifying_key : bytes;
  signing_key : bytes;
}.

Section MlDsaOps.
Context {MD : MlDsa}.

Definition mldsa_from_bytes (vk sk : bytes) : res string MlDsa65KeyPair :=
  if negb (zlen vk =? 1952) || negb (zlen sk =? 32) then Err "Invalid ML-DSA-65 key lengths"%string
  else Ok (mkDsa vk sk).

Definition generate_keypair (seed : bytes) : MlDsa65KeyPair := mkDsa (dsa_public seed) seed.

Definition mldsa_sign (keypair : MlDsa65KeyPair) (message : bytes) : bytes := dsa_sign (signing_key keypair) message.

Definition mldsa_verify (public_key message signature : bytes) : res string unit :=
  if negb (zlen public_key =? 1952) then Err "Invalid ML-DSA-65 public key length"%string
  else if negb (zlen signature =? 3309) then Err "Invalid ML-DSA-65 signature length"%string
  else if negb (dsa_signature_valid signature) then Err "Failed to create signature from bytes"%string
  else if dsa_verify public_key message signature then Ok tt else Err "Signature verification failed"%string.

End MlDsaOps.

(** ** Keys ([keys.rs]) *)

Record IdentityKeysV2Raw : Type := mkV2 {
  v2_signing_key_bytes : bytes;
  v2_x25519_secret_bytes : bytes;
  v2_mlkem_seed : bytes;
}.

Record IdentityKeysV3Raw : Type := mkV3 {
  v3_signing_key_bytes : bytes;
  v3_x25519_secret_bytes : bytes;
  v3_mlkem_seed : bytes;
  v3_mldsa_public_key : bytes;
  v3_mldsa_secret_key : bytes;
}.

#[global] Instance v2_eq_dec : EqDecision IdentityKeysV2Raw.
Proof. solve_decision. Defined.

#[global] Instance v3_eq_dec : EqDecision IdentityKeysV3Raw.
Proof. solve_decision. Defined.

(** What [bincode] does with two arrays of 32 bytes followed by vectors. *)
Definition arrays_ok (a b : bytes) : Prop := zlen a = 32 /\ zlen b = 32.

Class LawfulRaw {C2 : Codec IdentityKeysV2Raw} {C3 : Codec IdentityKeysV3Raw} : Prop := {
  v2_enc_dec : forall r, arrays_ok (v2_signing_key_bytes r) (v2_x25519_secret_bytes r) ->
    exists b, enc r = Some b /\ dec b = Some r /\ 64 <= zlen b;
  v3_enc_dec : forall r, arrays_ok (v3_signing_key_bytes r) (v3_x25519_secret_bytes r) ->
    exists b, enc r = Some b /\ dec b = Some r /\ 64 <= zlen b;
  v2_typed : forall b r, dec b = Some r -> arrays_ok (v2_signing_key_bytes r) (v2_x25519_secret_bytes r);
  v3_typed : forall b r, dec b = Some r -> arrays_ok (v3_signing_key_bytes r) (v3_x25519_secret_bytes r);
}.

Record IdentityKeys : Type := mkKeys {
  ik_signing_key : bytes;
  ik_x25519_secret : bytes;
  ik_mlkem : MlKem768KeyPair;
  ik_mldsa : option MlDsa65KeyPair;
}.

(** What one call may draw from the random generator, the UUID crate and the clock. *)
Record Fresh : Type := mkFresh {
  fr_signing : bytes;
  fr_x25519 : bytes;
  fr_mlkem : bytes;
  fr_mldsa : bytes;
  fr_uuid : string;
  fr_now : Z;
}.

Class Libp2p : Type := {
  lp_keypair : Type;
  lp_peer_id_of_public : bytes -> option string;  (** [ed25519::PublicKey::try_from_bytes] and [to_peer_id] *)
  lp_keypair_of_seed : bytes -> option lp_keypair;
  lp_keypair_peer_id : lp_keypair -> string;
}.

Section Keys.
Context {CR : Crypto} {MD : MlDsa} {IL : IdLib} {LP : Libp2p}.
Context {C2 : Codec IdentityKeysV2Raw} {C3 : Codec IdentityKeysV3Raw}.

Definition keys_generate (f : Fresh) : IdentityKeys :=
  mkKeys (fr_signing f) (fr_x25519 f) (generate (fr_mlkem f)) (Some (generate_keypair (fr_mldsa f))).

Definition public_key (k : IdentityKeys) : bytes := ed25519_public (ik_signing_key k).

Definition public_key_hex (k : IdentityKeys) : string := hex_encode (public_key k).
Definition public_key_hex_prefixed (k : IdentityKeys) : string := PUBLIC_KEY_PREFIX +:+ public_key_hex k.
Definition identity_id (k : IdentityKeys) : string := hex_encode (blake3_hash (public_key k)).
Definition identity_id_prefixed (k : IdentityKeys) : string := IDENTITY_ID_PREFIX +:+ identity_id k.

Definition keys_sign (k : IdentityKeys) (data : bytes) : bytes := ed25519_sign (ik_signing_key k) data.

Definition sign_mldsa (k : IdentityKeys) (data : bytes) : res string bytes :=
  match ik_mldsa k with
  | Some kp => Ok (mldsa_sign kp data)
  | None => Err "ML-DSA keypair not available"%string
  end.

Definition keys_verify (data signature public_key : bytes) : res string bool :=
  if negb (zlen public_key =? 32) then Err "Invalid public key"%string
  else if negb (ed25519_key_valid public_key) then Err "signature error"%string
  else if negb (zlen signature =? 64) then Err "Invalid signature"%string
  else Ok (ed25519_verify public_key data signature).

(** [.expect(..)]: a failure to serialize is a panic. *)
Definition expect_enc {A} `{Codec A} (tag : byte) (a : A) : res string bytes :=
  match enc a with Some b => Ok (tag :: b) | None => Panic end.

Definition keys_to_bytes (k : IdentityKeys) : res string bytes :=
  match ik_mldsa k with
  | Some kp => expect_enc Byte.x03 (mkV3 (ik_signing_key k) (ik_x25519_secret k) (kp_seed (ik_mlkem k)) (verifying_key kp) (signing_key kp))
  | None => expect_enc Byte.x02 (mkV2 (ik_signing_key k) (ik_x25519_secret k) (kp_seed (ik_mlkem k)))
  end.

Definition keys_from_bytes (f : Fresh) (l : bytes) : res string IdentityKeys :=
  if zlen l =? 32 then
    Ok (mkKeys l (fr_x25519 f) (generate (fr_mlkem f)) (Some (generate_keypair (fr_mldsa f))))
  else match l with
  | Byte.x02 :: l =>
      let! raw := ok_or (dec l) "Failed to deserialize V2 keys"%string in
      if negb (zlen (v2_mlkem_seed raw) =? 64) then Err "Invalid ML-KEM seed length in V2 keys"%string
      else Ok (mkKeys (v2_signing_key_bytes raw) (v2_x25519_secret_bytes raw) (from_seed (v2_mlkem_seed raw))
                 (Some (generate_keypair (fr_mldsa f))))
  | Byte.x03 :: l =>
      let! raw := ok_or (dec l) "Failed to deserialize V3 keys"%string in
      if negb (zlen (v3_mlkem_seed raw) =? 64) then Err "Invalid ML-KEM seed length in V3 keys"%string
      else
        let! kp := map_err (fun _ => "Failed to restore ML-DSA-65 keypair"%string)
          (mldsa_from_bytes (v3_mldsa_public_key raw) (v3_mldsa_secret_key raw)) in
        Ok (mkKeys (v3_signing_key_bytes raw) (v3_x25519_secret_bytes raw) (from_seed (v3_mlkem_seed raw)) (Some kp))
  | _ => Err "Invalid identity keys format/tag"%string
  end.

Definition to_libp2p_keypair (k : IdentityKeys) : res string lp_keypair :=
  ok_or (lp_keypair_of_seed (ik_signing_key k)) "Failed to convert Ed25519 secret key to libp2p format"%string.

Definition to_libp2p_peer_id (k : IdentityKeys) : res string string :=
  match lp_peer_id_of_public (public_key k) with
  | Some peer_id => Ok peer_id
  | None => let! kp := to_libp2p_keypair k in Ok (lp_keypair_peer_id kp)
  end.

(** ** Public key bundles *)

Definition default_supported_suites : bytes := [Byte.x01].

Definition BUNDLE_V1 : bytes := str_bytes "iron-core keybundle v1".
Definition BUNDLE_V2 : bytes := str_bytes "iron-core keybundle v2".
Definition BUNDLE_V3 : bytes := str_bytes "iron-core keybundle v3".

Definition sig_input_v3 (b : PublicKeyBundle) : bytes :=
  BUNDLE_V3 ++ pb_ed25519_public b ++ pb_x25519_public b ++ pb_mlkem_encaps_key b ++ default [] (pb_mldsa_public b)
    ++ le_split 8 (pb_created_at b) ++ pb_supported_suites b.

Definition sig_input_v2 (b : PublicKeyBundle) : bytes :=
  BUNDLE_V2 ++ pb_ed25519_public b ++ pb_x25519_public b ++ pb_mlkem_encaps_key b ++ le_split 8 (pb_created_at b)
    ++ pb_supported_suites b.

Definition sig_input_v1 (b : PublicKeyBundle) : bytes :=
  BUNDLE_V1 ++ pb_ed25519_public b ++ pb_x25519_public b ++ pb_mlkem_encaps_key b ++ le_split 8 (pb_created_at b).

Definition sign_bundle (now : Z) (k : IdentityKeys) : res string PublicKeyBundle :=
  let unsigned := mkBundle (public_key k) (x25519_public (ik_x25519_secret k)) (pub_key (ik_mlkem k))
    (verifying_key <$> ik_mldsa k) now [Byte.x01; Byte.x03] [] None in
  let sig_input := sig_input_v3 unsigned in
  let signature := keys_sign k sig_input in
  let! mldsa_signature :=
    match ik_mldsa k with
    | Some _ => let! s := sign_mldsa k sig_input in Ok (Some s)
    | None => Ok None
    end in
  Ok (mkBundle (pb_ed25519_public unsigned) (pb_x25519_public unsigned) (pb_mlkem_encaps_key unsigned)
        (pb_mldsa_public unsigned) now (pb_supported_suites unsigned) signature mldsa_signature).

Definition verified (r : res string bool) : bool := match r with Ok b => b | _ => false end.

Definition verify_bundle (b : PublicKeyBundle) : res string unit :=
  match pb_mldsa_public b, pb_mldsa_signature b with
  | Some mldsa_public, Some mldsa_signature =>
      let sig_input := sig_input_v3 b in
      let ed_verified := verified (keys_verify sig_input (pb_signature b) (pb_ed25519_public b)) in
      let mldsa_verified := is_ok (mldsa_verify mldsa_public sig_input mldsa_signature) in
      if ed_verified && mldsa_verified then Ok tt
      else Err "Dual signature verification failed: both signatures must be valid"%string
  | _, _ =>
      if verified (keys_verify (sig_input_v2 b) (pb_signature b) (pb_ed25519_public b)) then Ok tt
      else
        let! verified_v1 := keys_verify (sig_input_v1 b) (pb_signature b) (pb_ed25519_public b) in
        if negb verified_v1 then Err "Invalid signature on key bundle"%string else Ok tt
  end.

(** ** Safety numbers *)

Definition safety_group (hash : bytes) (group : Z) : res string Z :=
  let offset := (group * 2) mod 24 in
  let! hi := idx hash offset in
  let! lo := idx hash (offset + 1) in
  Ok ((256 * byte.unsigned hi + byte.unsigned lo) mod 100000).

Definition safety_number (our_pubkey_hex their_pubkey_hex : string) : res string string :=
  let! our_bytes := ok_or (hex_decode our_pubkey_hex) "Invalid our pubkey hex"%string in
  let! their_bytes := ok_or (hex_decode their_pubkey_hex) "Invalid their pubkey hex"%string in
  if negb (zlen our_bytes =? 32) || negb (zlen their_bytes =? 32) then Err "Public keys must be 32 bytes"%string
  else
    let '(first, second) := if bytes_leb our_bytes their_bytes then (our_bytes, their_bytes) else (their_bytes, our_bytes) in
    let hash := blake3_hash (first ++ second) in
    rfold (fun text group =>
      let! group_val := safety_group hash group in
      Ok (text +:+ (if 0 <? group then " "%string else ""%string) +:+ zero_pad 5 group_val)) ""%string (seqZ 0 12).

End Keys.

(** ** The store ([store.rs]) *)

Definition IDENTITY_KEY : bytes := str_bytes "identity_keys".
Definition NICKNAME_KEY : bytes := str_bytes "identity_nickname".
Definition DEVICE_ID_KEY : bytes := str_bytes "identity_device_id".
Definition SENIORITY_TIMESTAMP_KEY : bytes := str_bytes "identity_seniority_timestamp".

Record DeviceMetadata : Type := mkDevice {
  device_id : string;
  seniority_timestamp : Z;
}.

Definition device_generate (f : Fresh) : DeviceMetadata := mkDevice (fr_uuid f) (fr_now f).

Inductive IdentityStore (B : Type) : Type :=
  | Memory
  | Persistent (db : B).
Arguments Memory {B}.
Arguments Persistent {B} db.

(** [match self { Memory => Ok(d), Persistent(db) => .. }]. *)
Definition on_db {B A} (d : A) (m : M B A) : M (IdentityStore B) A := fun s =>
  match s with
  | Memory => (Ok d, Memory)
  | Persistent b => let '(r, b) := m b in (r, Persistent b)
  end.

Record IdentityManager (B : Type) : Type := mkManager {
  im_store : IdentityStore B;
  im_keys : option IdentityKeys;
  im_nickname : option string;
  im_device : option DeviceMetadata;
}.
Arguments mkManager {B}.
Arguments im_store {B}.
Arguments im_keys {B}.
Arguments im_nickname {B}.
Arguments im_device {B}.

Section Store.
Context {B : Type} {SB : StorageBackend B}.
Context {CR : Crypto} {MD : MlDsa} {IL : IdLib}.
Context {C2 : Codec IdentityKeysV2Raw} {C3 : Codec IdentityKeysV3Raw}.

Definition db_put (k v : bytes) : M B unit := writes (fun b => be_put b k v).
Definition db_get (k : bytes) : M B (option bytes) := reads (fun b => be_get b k).
Definition db_remove (k : bytes) : M B unit := writes (fun b => be_remove b k).
Definition db_flush : M B unit := writes be_flush.

Definition save_keys (keys : IdentityKeys) : M (IdentityStore B) unit :=
  on_db tt (
    let* bytes := lift (keys_to_bytes keys) in
    let* _ := db_put IDENTITY_KEY bytes in
    db_flush).

Definition save_nickname (nickname : string) : M (IdentityStore B) unit :=
  on_db tt (let* _ := db_put NICKNAME_KEY (str_bytes nickname) in db_flush).

Definition save_device_metadata (metadata : DeviceMetadata) : M (IdentityStore B) unit :=
  on_db tt (
    let* _ := db_put DEVICE_ID_KEY (str_bytes (device_id metadata)) in
    let* _ := db_put SENIORITY_TIMESTAMP_KEY (str_bytes (pretty (seniority_timestamp metadata))) in
    db_flush).

Definition load_keys (f : Fresh) : M (IdentityStore B) (option IdentityKeys) :=
  let* stored := on_db None (db_get IDENTITY_KEY) in
  match stored with
  | Some bytes =>
      let* keys := lift (keys_from_bytes f bytes) in
      let* _ := if zlen bytes =? 32 then save_keys keys else ret tt in
      ret (Some keys)
  | None => ret None
  end.

(** [String::from_utf8(bytes)?]. *)
Definition load_text (key : bytes) : M (IdentityStore B) (option string) :=
  let* stored := on_db None (db_get key) in
  match stored with
  | Some bytes => if utf8_valid bytes then ret (Some (of_bytes bytes)) else throw "invalid utf-8"
  | None => ret None
  end.

Definition load_nickname : M (IdentityStore B) (option string) := load_text NICKNAME_KEY.

Definition load_device_id : M (IdentityStore B) (option string) := load_text DEVICE_ID_KEY.

Definition load_seniority_timestamp : M (IdentityStore B) (option Z) :=
  let* s := load_text SENIORITY_TIMESTAMP_KEY in
  match s with
  | Some s => let* ts := lift (ok_or (parse_u64 s) "invalid stored seniority_timestamp"%string) in ret (Some ts)
  | None => ret None
  end.

Definition load_device_metadata : M (IdentityStore B) (option DeviceMetadata) :=
  let* device_id_opt := load_device_id in
  let* seniority_opt := load_seniority_timestamp in
  match device_id_opt, seniority_opt with
  | Some device_id, Some seniority_timestamp =>
      let* version := lift (ok_or (uuid_version device_id) "invalid stored device_id"%string) in
      if negb (version =? 4) then throw "invalid stored device_id version: expected UUIDv4"
      else ret (Some (mkDevice device_id seniority_timestamp))
  | _, _ => ret None
  end.

Definition load_or_create_device_metadata (f : Fresh) : M (IdentityStore B) DeviceMetadata :=
  let* metadata := load_device_metadata in
  match metadata with
  | Some metadata => ret metadata
  | None =>
      let metadata := device_generate f in
      let* _ := save_device_metadata metadata in
      ret metadata
  end.

Definition store_clear : M (IdentityStore B) unit :=
  on_db tt (
    let* _ := db_remove IDENTITY_KEY in
    let* _ := db_remove NICKNAME_KEY in
    let* _ := db_remove DEVICE_ID_KEY in
    let* _ := db_remove SENIORITY_TIMESTAMP_KEY in
    db_flush).

(** ** The manager ([mod.rs]) *)

Definition Mgr : Type := IdentityManager B.

(** A call on the store of the manager. *)
Definition on_store {A} (m : M (IdentityStore B) A) : M Mgr A := fun w =>
  let '(r, s) := m (im_store w) in (r, mkManager s (im_keys w) (im_nickname w) (im_device w)).

Definition modify (f : Mgr -> Mgr) : M Mgr unit := fun w => (Ok tt, f w).
Definition gets {A} (f : Mgr -> A) : M Mgr A := fun w => (Ok (f w), w).

Definition set_keys (k : option IdentityKeys) (w : Mgr) : Mgr := mkManager (im_store w) k (im_nickname w) (im_device w).
Definition set_nick (n : option string) (w : Mgr) : Mgr := mkManager (im_store w) (im_keys w) n (im_device w).
Definition set_device (d : option DeviceMetadata) (w : Mgr) : Mgr := mkManager (im_store w) (im_keys w) (im_nickname w) d.

Definition manager_new : Mgr := mkManager Memory None None None.

Definition ensure_device_metadata (f : Fresh) : M Mgr unit :=
  let* missing := gets (fun w => bool_decide (is_Some (im_keys w)) && negb (bool_decide (is_Some (im_device w)))) in
  if missing then
    let* d := on_store (load_or_create_device_metadata f) in
    modify (set_device (Some d))
  else ret tt.

Definition hydrate_from_store (f : Fresh) : M Mgr unit :=
  let* nickname := on_store load_nickname in
  let* _ := match nickname with Some n => modify (set_nick (Some n)) | None => ret tt end in
  let* keys := on_store (load_keys f) in
  let* _ := match keys with Some k => modify (set_keys (Some k)) | None => ret tt end in
  let* d := on_store load_device_metadata in
  let* _ := modify (set_device d) in
  ensure_device_metadata f.

(** [with_backend]; on an error the manager is dropped and the backend keeps what was written. *)
Definition with_backend (f : Fresh) (b : B) : res string unit * Mgr :=
  hydrate_from_store f (mkManager (Persistent b) None None None).

Definition initialize (f : Fresh) : M Mgr unit :=
  let* _ := hydrate_from_store f in
  let* present := gets (fun w => bool_decide (is_Some (im_keys w))) in
  let* _ :=
    if present then ret tt
    else
      let keys := keys_generate f in
      let* _ := on_store (save_keys keys) in
      modify (set_keys (Some keys)) in
  ensure_device_metadata f.

Definition manager_sign (data : bytes) (w : Mgr) : res string bytes :=
  match im_keys w with
  | Some keys => Ok (keys_sign keys data)
  | None => Err "Identity not initialized"%string
  end.

Definition manager_verify (data signature public_key : bytes) : res string bool := keys_verify data signature public_key.

Definition set_nickname (nickname : string) : M Mgr unit :=
  let* _ := on_store (save_nickname nickname) in
  modify (set_nick (Some nickname)).

Definition export_key_bytes (w : Mgr) : option (res string bytes) := keys_to_bytes <$> im_keys w.

Definition import_key_bytes (f : Fresh) (l : bytes) : M Mgr unit :=
  let* keys := lift (keys_from_bytes f l) in
  let* _ := on_store (save_keys keys) in
  let* _ := modify (set_keys (Some keys)) in
  ensure_device_metadata f.

(** The accessors. *)
Definition manager_public_key_hex (w : Mgr) : option string := public_key_hex <$> im_keys w.
Definition manager_identity_id (w : Mgr) : option string := identity_id <$> im_keys w.
Definition manager_device_id (w : Mgr) : option string := device_id <$> im_device w.
Definition manager_seniority (w : Mgr) : option Z := seniority_timestamp <$> im_device w.

End Store.

(** ** Laws of the keys *)

Section KeyLaws.
Context {CR : Crypto} {CL : CryptoLaws} {MD : MlDsa} {ML : MlDsaLaws}.
Context {C2 : Codec IdentityKeysV2Raw} {C3 : Codec IdentityKeysV3Raw} {LR : LawfulRaw}.
Implicit Types (k : IdentityKeys) (b p : PublicKeyBundle).

(** Keys as every constructor of the program makes them. *)
Definition keys_ok k : Prop :=
  arrays_ok (ik_signing_key k) (ik_x25519_secret k) /\
  ik_mlkem k = from_seed (kp_seed (ik_mlkem k)) /\ zlen (kp_seed (ik_mlkem k)) = 64 /\
  exists kp, ik_mldsa k = Some kp /\ zlen (verifying_key kp) = 1952 /\ zlen (signing_key kp) = 32.

Definition fresh_ok (f : Fresh) : Prop :=
  arrays_ok (fr_signing f) (fr_x25519 f) /\ zlen (fr_mlkem f) = 64 /\ zlen (fr_mldsa f) = 32.

Lemma keys_generate_ok f : fresh_ok f -> keys_ok (keys_generate f).
Proof.
  intros (Ha & Hm & Hd). split_and!; [done|done|done|]. eexists. split; [done|]. split; [apply dsa_public_length|done].
Qed.

Lemma keys_to_bytes_ok k : keys_ok k -> exists l, keys_to_bytes k = Ok l /\ zlen l <> 32 /\
  forall f, keys_from_bytes f l = Ok k.
Proof.
  intros (Ha & Hm & Hs & [vk sk] & Hd & Hv & Hk). cbn in Hv, Hk. unfold keys_to_bytes, expect_enc. rewrite Hd.
  destruct (v3_enc_dec (mkV3 (ik_signing_key k) (ik_x25519_secret k) (kp_seed (ik_mlkem k)) vk sk) Ha) as (l & He & Hl & Hn).
  cbn [verifying_key signing_key]. rewrite He. exists (Byte.x03 :: l). split_and!; [done|rewrite zlen_cons; lia|].
  intros f. unfold keys_from_bytes. rewrite zlen_cons, (proj2 (Z.eqb_neq _ _)) by lia. rewrite Hl. cbn.
  rewrite Hs. cbn. unfold mldsa_from_bytes. rewrite Hv, Hk. cbn. rewrite <-Hm. destruct k. cbn in *. by rewrite Hd.
Qed.

Lemma keys_from_bytes_ok f l k : fresh_ok f -> keys_from_bytes f l = Ok k -> keys_ok k.
Proof.
  intros ((Hf1 & Hf2) & Hm & Hd). unfold keys_from_bytes. destruct (zlen l =? 32) eqn:El.
  { apply Z.eqb_eq in El. intros [= <-]. split_and!; [split; done|done|done|]. eexists. split; [done|].
    split; [apply dsa_public_length|done]. }
  destruct l as [|t l]; [done|]. assert (forall e, @Err string IdentityKeys e = Ok k -> keys_ok k) as Hdone by done.
  destruct t; try apply Hdone.
  - destruct (dec l) as [r|] eqn:Hr; [|apply Hdone]. cbn [ok_or rbind].
    destruct (zlen (v2_mlkem_seed r) =? 64) eqn:Es; [|apply Hdone]. apply Z.eqb_eq in Es. intros [= <-].
    split_and!; [by apply (v2_typed l)|done|done|]. eexists. split; [done|]. split; [apply dsa_public_length|done].
  - destruct (dec l) as [r|] eqn:Hr; [|apply Hdone]. cbn [ok_or rbind].
    destruct (zlen (v3_mlkem_seed r) =? 64) eqn:Es; [|apply Hdone]. apply Z.eqb_eq in Es. cbn [negb].
    unfold mldsa_from_bytes. destruct (zlen (v3_mldsa_public_key r) =? 1952) eqn:Ev; [|apply Hdone].
    destruct (zlen (v3_mldsa_secret_key r) =? 32) eqn:Ek; [|apply Hdone]. apply Z.eqb_eq in Ev, Ek. intros [= <-].
    split_and!; [by apply (v3_typed l)|done|done|]. by eexists.
Qed.

(** *** What a signature on a bundle covers *)

(** The fields of a bundle apart from its signatures. *)
Definition contents b : bytes * bytes * bytes * option bytes * Z * bytes :=
  (pb_ed25519_public b, pb_x25519_public b, pb_mlkem_encaps_key b, pb_mldsa_public b, pb_created_at b, pb_supported_suites b).

Definition bundle_ok b : Prop :=
  zlen (pb_ed25519_public b) = 32 /\ zlen (pb_x25519_public b) = 32 /\ zlen (pb_mlkem_encaps_key b) = 1184 /\
  in_u 64 (pb_created_at b).

Lemma app_inj_zlen (a b c d : bytes) : zlen a = zlen b -> a ++ c = b ++ d -> a = b /\ c = d.
Proof. unfold zlen. intros Hl H. apply app_inj_1 in H; [done|lia]. Qed.

Lemma sig_input_v3_inj b p v w : bundle_ok b -> bundle_ok p ->
  pb_mldsa_public b = Some v -> pb_mldsa_public p = Some w -> zlen v = 1952 -> zlen w = 1952 ->
  sig_input_v3 b = sig_input_v3 p -> contents b = contents p.
Proof.
  intros (E1 & X1 & K1 & T1) (E2 & X2 & K2 & T2) Hv Hw Lv Lw. unfold sig_input_v3, contents. rewrite Hv, Hw. cbn [from_option]. unfold id.
  intros [_ H]%app_inj_zlen; [|done]. apply app_inj_zlen in H as [-> H]; [|lia]. apply app_inj_zlen in H as [-> H]; [|lia].
  apply app_inj_zlen in H as [-> H]; [|lia]. apply app_inj_zlen in H as [-> H]; [|cbn; lia].
  apply app_inj_zlen in H as [Ht ->]; [|by rewrite !zlen_le_split].
  assert (pb_created_at b = pb_created_at p) as ->; [|done].
  rewrite <-(le_combine_le_split 8 (pb_created_at b)), <-(le_combine_le_split 8 (pb_created_at p)) by done. by rewrite Ht.
Qed.

Lemma tags_apart b p : sig_input_v2 b <> sig_input_v3 p /\ sig_input_v1 b <> sig_input_v3 p.
Proof. split; (intros [H _]%app_inj_zlen; [discriminate H|done]). Qed.

Lemma keys_verify_true m s pk : verified (keys_verify m s pk) = true -> ed25519_verify pk m s = true.
Proof. unfold keys_verify. by repeat case_if. Qed.

Lemma keys_verify_own k m : verified (keys_verify m (keys_sign k m) (public_key k)) = true.
Proof.
  unfold keys_verify, public_key, keys_sign. rewrite ed25519_public_length, ed25519_public_valid, ed25519_sign_length. cbn.
  apply ed25519_correct.
Qed.

(** ** Bundles, key files and safety numbers *)

(** A bundle that the owner of a key signs is accepted. *)
Theorem bundle_verifies now k seed : ik_mldsa k = Some (generate_keypair seed) ->
  exists b, sign_bundle now k = Ok b /\ verify_bundle b = Ok tt /\ pb_ed25519_public b = public_key k.
Proof.
  intros Hd. unfold sign_bundle, sign_mldsa. rewrite Hd. cbn [rbind fmap option_fmap option_map].
  eexists. split_and!; [done| |done]. unfold verify_bundle. cbn [pb_mldsa_public pb_mldsa_signature pb_signature pb_ed25519_public].
  set (m := sig_input_v3 _). change (sig_input_v3 _) with m. rewrite keys_verify_own. unfold mldsa_verify, generate_keypair, mldsa_sign.
  cbn [verifying_key signing_key]. by rewrite dsa_public_length, dsa_sign_length, dsa_sign_valid, dsa_correct.
Qed.

(** C27: whoever accepts a bundle under an honest key accepts one its owner published.  If
    every message that starts like a bundle and verifies with the signature is one that the
    owner signed in a published bundle, and lengths are those of the key types, then an
    accepted bundle carries the keys, the suites and the time of a published one: no field
    can be replaced, and the ML-DSA part cannot be stripped to fall back to an older format. *)
Theorem bundle_authentic k (published : list PublicKeyBundle) b :
  keys_ok k -> bundle_ok b -> pb_ed25519_public b = public_key k ->
  (forall p, p ∈ published -> exists now, in_u 64 now /\ sign_bundle now k = Ok p) ->
  (forall m, starts_with (str_bytes "iron-core keybundle") m = true ->
     ed25519_verify (public_key k) m (pb_signature b) = true -> exists p, p ∈ published /\ m = sig_input_v3 p) ->
  verify_bundle b = Ok tt -> exists p, p ∈ published /\ contents b = contents p.
Proof.
  intros Hk Hb He Hpub Hsig. unfold verify_bundle.
  assert (forall m, starts_with (str_bytes "iron-core keybundle") m = true ->
    verified (keys_verify m (pb_signature b) (pb_ed25519_public b)) = true ->
    exists p, p ∈ published /\ m = sig_input_v3 p) as Hs.
  { intros m Hm Hv%keys_verify_true. apply Hsig; [done|by rewrite <-He]. }
  assert (verified (keys_verify (sig_input_v2 b) (pb_signature b) (pb_ed25519_public b)) = false) as H2.
  { apply not_true_iff_false. intros (p & _ & Heq)%Hs; [|done]. by apply (proj1 (tags_apart b p)). }
  assert (verified (keys_verify (sig_input_v1 b) (pb_signature b) (pb_ed25519_public b)) = false) as H1.
  { apply not_true_iff_false. intros (p & _ & Heq)%Hs; [|done]. by apply (proj2 (tags_apart b p)). }
  assert ((if verified (keys_verify (sig_input_v2 b) (pb_signature b) (pb_ed25519_public b)) then Ok tt
    else let! verified_v1 := keys_verify (sig_input_v1 b) (pb_signature b) (pb_ed25519_public b) in
      if negb verified_v1 then Err "Invalid signature on key bundle"%string else Ok tt) <> Ok tt) as Hold.
  { rewrite H2. revert H1. by destruct (keys_verify (sig_input_v1 b) _ _) as [[]| |]. }
  destruct (pb_mldsa_public b) as [v|] eqn:Hv; [|done]. destruct (pb_mldsa_signature b) as [s|]; [|done].
  destruct (verified (keys_verify (sig_input_v3 b) _ _)) eqn:H3; [|intros Hf; discriminate Hf].
  destruct (is_ok (mldsa_verify v _ s)) eqn:H4; [|intros Hf; discriminate Hf]. intros _.
  apply Hs in H3 as (p & Hp & Heq); [|done]. exists p. split; [done|].
  destruct (Hpub p Hp) as (now & Hnow & Hsign). destruct Hk as (_ & Hm & _ & kp & Hd & Hl & _).
  unfold sign_bundle, sign_mldsa in Hsign. rewrite Hd in Hsign. cbn in Hsign. injection Hsign as <-.
  apply (sig_input_v3_inj b _ v (verifying_key kp)); try done.
  - split_and!; [apply ed25519_public_length|apply x25519_public_length| |done].
    cbn [pb_mlkem_encaps_key]. rewrite Hm. apply mlkem_public_length.
  - unfold mldsa_verify in H4. destruct (zlen v =? 1952) eqn:E; [by apply Z.eqb_eq in E|done].
Qed.

Definition with_mldsa b (x : option bytes) : PublicKeyBundle :=
  mkBundle (pb_ed25519_public b) (pb_x25519_public b) (pb_mlkem_encaps_key b) x (pb_created_at b) (pb_supported_suites b)
    (pb_signature b) (pb_mldsa_signature b).

Definition with_suites b (s : bytes) : PublicKeyBundle :=
  mkBundle (pb_ed25519_public b) (pb_x25519_public b) (pb_mlkem_encaps_key b) (pb_mldsa_public b) (pb_created_at b) s
    (pb_signature b) (pb_mldsa_signature b).

(** What the signature on a bundle without an ML-DSA signature does not cover: the
    ML-DSA key, which any other can replace; the suites, if the bundle was signed in the
    first format; and where the ML-KEM key ends, so that its last byte can be moved into
    the time and a byte of the time into the suites. *)
Theorem legacy_bundle_unbound b : pb_mldsa_signature b = None ->
  (forall x, verify_bundle (with_mldsa b x) = verify_bundle b) /\
  (verified (keys_verify (sig_input_v1 b) (pb_signature b) (pb_ed25519_public b)) = true ->
   forall s, verify_bundle (with_suites b s) = Ok tt) /\
  (verified (keys_verify (sig_input_v2 b) (pb_signature b) (pb_ed25519_public b)) = true ->
   forall m c, pb_mlkem_encaps_key b = m ++ [c] ->
   exists b' t, verify_bundle b' = Ok tt /\ pb_ed25519_public b' = pb_ed25519_public b /\ pb_signature b' = pb_signature b /\
     pb_mlkem_encaps_key b' = m /\ pb_supported_suites b' = t :: pb_supported_suites b).
Proof.
  intros Hs. split_and!.
  - intros x. unfold verify_bundle. cbn [with_mldsa pb_mldsa_public pb_mldsa_signature]. rewrite Hs.
    by destruct x, (pb_mldsa_public b).
  - intros Hv s. unfold verify_bundle. cbn [with_suites pb_mldsa_public pb_mldsa_signature]. rewrite Hs.
    change (sig_input_v1 (with_suites b s)) with (sig_input_v1 b). cbn [with_suites pb_signature pb_ed25519_public].
    revert Hv. destruct (keys_verify (sig_input_v1 b) _ _) as [[]| |]; try done. intros _.
    destruct (pb_mldsa_public b), (verified (keys_verify (sig_input_v2 _) _ _)); done.
  - intros Hv m c Hm. assert (length (le_split 8 (pb_created_at b)) = 8%nat) as Hl by apply length_le_split.
    destruct (le_split 8 (pb_created_at b)) as [|t0 [|t1 [|t2 [|t3 [|t4 [|t5 [|t6 [|t7 [|]]]]]]]]] eqn:Ht; try discriminate Hl.
    exists (mkBundle (pb_ed25519_public b) (pb_x25519_public b) m (pb_mldsa_public b) (le_combine [c; t0; t1; t2; t3; t4; t5; t6])
      (t7 :: pb_supported_suites b) (pb_signature b) None), t7. split_and!; try done.
    unfold verify_bundle. cbn [pb_mldsa_public pb_mldsa_signature].
    match goal with |- context [sig_input_v2 ?x] => assert (sig_input_v2 x = sig_input_v2 b) as -> end.
    { unfold sig_input_v2. cbn [pb_ed25519_public pb_x25519_public pb_mlkem_encaps_key pb_created_at pb_supported_suites].
      assert (le_split 8 (le_combine [c; t0; t1; t2; t3; t4; t5; t6]) = [c; t0; t1; t2; t3; t4; t5; t6]) as ->
        by apply (split_le_combine [c; t0; t1; t2; t3; t4; t5; t6]). rewrite Ht, Hm, <-app_assoc. done. }
    cbn [pb_signature pb_ed25519_public]. rewrite Hv. by destruct (pb_mldsa_public b).
Qed.

(** Keys survive their file.  Keys that the program made are read back from the bytes
    it writes, whatever is drawn meanwhile. *)
Theorem key_file_roundtrip f k : keys_ok k -> exists l, keys_to_bytes k = Ok l /\ keys_from_bytes f l = Ok k.
Proof. intros Hk. destruct (keys_to_bytes_ok k Hk) as (l & Hl & _ & Hf). by exists l. Qed.

End KeyLaws.

(** *** Safety numbers *)

Section Safety.
Context {IL : IdLib}.

Lemma bytes_sorted (x y : bytes) :
  (if bytes_leb x y then (x, y) else (y, x)) = (if bytes_leb y x then (y, x) else (x, y)).
Proof.
  destruct (bytes_leb x y) eqn:Hxy, (bytes_leb y x) eqn:Hyx; try done.
  - by rewrite (anti_symm bytes_le x y Hxy Hyx).
  - destruct (bytes_le_total x y) as [H|H]; unfold bytes_le in H; congruence.
Qed.

Lemma safety_group_ok hash g : zlen hash = 32 -> 0 <= g < 12 -> exists v, safety_group hash g = Ok v /\ 0 <= v < 2 ^ 16.
Proof.
  intros Hl Hg. unfold safety_group. replace ((g * 2) mod 24) with (g * 2) by (rewrite Z.mod_small; lia).
  destruct (idx_ok (E := string) hash (g * 2)) as (hi & _ & ->); [lia|].
  destruct (idx_ok (E := string) hash (g * 2 + 1)) as (lo & _ & ->); [lia|]. cbn [rbind].
  pose proof (byte.unsigned_range hi). pose proof (byte.unsigned_range lo). eexists. split; [done|].
  rewrite Z.mod_small; lia.
Qed.

Lemma str_app_assoc s t u : ((s +:+ t) +:+ u = s +:+ (t +:+ u))%string.
Proof. apply (inj str_bytes). by rewrite !str_bytes_app, app_assoc. Qed.

Lemma concat_foldl (sep x : string) l : String.concat sep (x :: l) = foldl (fun t y => t +:+ sep +:+ y) x l.
Proof.
  revert x. induction l as [|y l IH]; intros x; [done|]. change (String.concat sep (x :: y :: l)) with (x +:+ sep +:+ String.concat sep (y :: l)).
  rewrite IH. cbn [foldl]. generalize y. clear. induction l as [|z l IH]; intros y; [done|]. cbn [foldl].
  rewrite IH. by rewrite !str_app_assoc.
Qed.

Lemma safety_text hash l text : zlen hash = 32 -> Forall (fun g => 0 < g < 12) l ->
  exists vs, length vs = length l /\ Forall (fun v => 0 <= v < 2 ^ 16) vs /\
    rfold (fun text group =>
      let! group_val := safety_group hash group in
      Ok (text +:+ (if 0 <? group then " "%string else ""%string) +:+ zero_pad 5 group_val)) text l
    = Ok (foldl (fun t y => t +:+ " " +:+ y) text (zero_pad 5 <$> vs)).
Proof.
  intros Hl Hall. revert text. induction Hall as [|g l Hg Hall IH]; intros text; [by exists []|].
  destruct (safety_group_ok hash g Hl ltac:(lia)) as (v & Hv & Hr). cbn [rfold]. rewrite Hv. cbn [rbind].
  rewrite (proj2 (Z.ltb_lt 0 g)) by lia. destruct (IH (text +:+ " " +:+ zero_pad 5 v)) as (vs & Hn & Hf & ->).
  exists (v :: vs). split_and!; [by rewrite length_cons, Hn|by constructor|done].
Qed.

(** Both sides of a conversation see the same safety number, and it consists of twelve
    groups of five digits.  A group stands for two bytes of the hash, so it is below 65,536
    and the reduction modulo 100,000 never changes it. *)
Theorem safety_number_agrees a b x y : (forall m, zlen (blake3_hash m) = 32) ->
  hex_decode a = Some x -> hex_decode b = Some y -> zlen x = 32 -> zlen y = 32 ->
  safety_number a b = safety_number b a /\
  exists groups, length groups = 12%nat /\ Forall (fun g => 0 <= g < 2 ^ 16) groups /\
    safety_number a b = Ok (String.concat " " (zero_pad 5 <$> groups)).
Proof.
  intros Hhash Ha Hb Hx Hy. unfold safety_number. rewrite Ha, Hb. cbn [ok_or rbind]. rewrite Hx, Hy. cbn [Z.eqb Pos.eqb negb orb].
  rewrite (bytes_sorted y x). split; [done|]. destruct (if bytes_leb x y then _ else _) as [p q].
  pose proof (Hhash (p ++ q)) as Hl. destruct (safety_group_ok _ 0 Hl ltac:(lia)) as (v & Hv & Hr).
  destruct (safety_text _ (seqZ 1 11) (zero_pad 5 v) Hl) as (vs & Hn & Hf & Ht); [by apply Forall_seqZ; lia|].
  exists (v :: vs). split_and!; [by rewrite length_cons, Hn|by constructor|].
  change (seqZ 0 12) with (0 :: seqZ 1 11). cbn [rfold]. rewrite Hv. cbn [rbind].
  cbn [fmap list_fmap]. rewrite concat_foldl. exact Ht.
Qed.

End Safety.

(** ** What the manager keeps *)

Section StoreLaws.
Context {B : Type} {SB : StorageBackend B} {LB : LawfulBackend B}.
Context {CR : Crypto} {CL : CryptoLaws} {MD : MlDsa} {ML : MlDsaLaws} {IL : IdLib}.
Context {C2 : Codec IdentityKeysV2Raw} {C3 : Codec IdentityKeysV3Raw} {LR : LawfulRaw}.
Implicit Types (b : B) (w : @Mgr B).

Lemma db_put_run k v b : exists b', db_put k v b = (Ok tt, b') /\ be_view b' = <[k := v]> (be_view b).
Proof. destruct (be_put_law b k v) as (b' & H & Hv). exists b'. unfold db_put, writes. by rewrite H. Qed.

Lemma db_flush_run b : exists b', db_flush b = (Ok tt, b') /\ be_view b' = be_view b.
Proof. destruct (be_flush_law b) as (b' & H & Hv). exists b'. unfold db_flush, writes. by rewrite H. Qed.

Lemma put_flush_run k v b : exists b', (let* _ := db_put k v in db_flush) b = (Ok tt, b') /\ be_view b' = <[k := v]> (be_view b).
Proof.
  destruct (db_put_run k v b) as (b1 & H1 & Hv1). destruct (db_flush_run b1) as (b2 & H2 & Hv2).
  exists b2. split; [by rewrite (bind_run _ _ _ _ _ H1)|congruence].
Qed.

Definition device_ok (d : DeviceMetadata) : Prop :=
  uuid_version (device_id d) = Some 4 /\ utf8_valid (str_bytes (device_id d)) = true /\ in_u 64 (seniority_timestamp d).

(** The entries of the store are the fields of the manager. *)
Record mirrors (m : gmap bytes bytes) w : Prop := {
  mirrors_keys : match im_keys w with
    | Some k => keys_ok k /\ exists l, keys_to_bytes k = Ok l /\ m !! IDENTITY_KEY = Some l
    | None => m !! IDENTITY_KEY = None
    end;
  mirrors_nick : m !! NICKNAME_KEY = str_bytes <$> im_nickname w;
  mirrors_nick_ok : forall n, im_nickname w = Some n -> utf8_valid (str_bytes n) = true;
  mirrors_device : m !! DEVICE_ID_KEY = (str_bytes ∘ device_id) <$> im_device w;
  mirrors_seniority : m !! SENIORITY_TIMESTAMP_KEY = (str_bytes ∘ pretty ∘ seniority_timestamp) <$> im_device w;
  mirrors_device_ok : forall d, im_device w = Some d -> device_ok d;
}.

(** Device metadata exist exactly when there are keys. *)
Definition complete w : Prop := is_Some (im_keys w) <-> is_Some (im_device w).

Definition persisted w : Prop := exists b, im_store w = Persistent b /\ mirrors (be_view b) w /\ complete w.

Lemma db_get_run k b : on_db None (db_get k) (Persistent b) = (Ok (be_view b !! k), Persistent b).
Proof. unfold on_db, db_get, reads. by rewrite be_get_law. Qed.

Lemma load_text_run k b o : be_view b !! k = str_bytes <$> o -> (forall s, o = Some s -> utf8_valid (str_bytes s) = true) ->
  load_text k (Persistent b) = (Ok o, Persistent b).
Proof.
  intros Hk Ho. unfold load_text. rewrite (bind_run _ _ _ _ _ (db_get_run k b)), Hk. destruct o as [s|]; [|done].
  cbn [fmap option_fmap option_map]. by rewrite (Ho s eq_refl), of_bytes_str_bytes.
Qed.

Lemma load_keys_run f b w : mirrors (be_view b) w -> load_keys f (Persistent b) = (Ok (im_keys w), Persistent b).
Proof.
  intros [Hk _ _ _ _ _]. unfold load_keys. rewrite (bind_run _ _ _ _ _ (db_get_run _ b)).
  destruct (im_keys w) as [k|]; [|by rewrite Hk]. destruct Hk as (Hk & l & Hl & ->).
  destruct (keys_to_bytes_ok k Hk) as (l' & Hl' & Hn & Hf). rewrite Hl' in Hl. injection Hl as <-.
  rewrite (bind_run _ _ _ k (Persistent b)) by (unfold lift; by rewrite Hf).
  by rewrite (proj2 (Z.eqb_neq _ _) Hn).
Qed.

Lemma load_device_run b w : mirrors (be_view b) w -> load_device_metadata (Persistent b) = (Ok (im_device w), Persistent b).
Proof.
  intros [_ _ _ Hd Hs Hok]. unfold load_device_metadata, load_device_id, load_seniority_timestamp.
  destruct (im_device w) as [d|] eqn:Hw.
  - destruct (Hok d eq_refl) as (Hu & H8 & Ht). destruct (parse_pretty _ Ht) as (Hp & Hdig).
    rewrite (bind_run _ _ _ (Some (device_id d)) (Persistent b)) by (apply load_text_run; [done|by intros s [= <-]]).
    rewrite (bind_run _ _ _ (Some (seniority_timestamp d)) (Persistent b)).
    + rewrite (bind_run _ _ _ 4 (Persistent b)) by (unfold lift; by rewrite Hu). by destruct d.
    + rewrite (bind_run _ _ _ (Some (pretty (seniority_timestamp d))) (Persistent b)).
      * rewrite (bind_run _ _ _ (seniority_timestamp d) (Persistent b)); [done|]. unfold lift. by rewrite Hp.
      * apply load_text_run; [done|]. intros s [= <-]. apply ascii_utf8. eapply Forall_impl; [exact Hdig|].
        unfold digit. intros a. cbn. lia.
  - rewrite (bind_run _ _ _ None (Persistent b)) by (by apply load_text_run).
    rewrite (bind_run _ _ _ None (Persistent b)); [done|].
    by rewrite (bind_run _ _ _ None (Persistent b)) by (by apply load_text_run).
Qed.

Lemma on_store_run {A} (m : M (IdentityStore B) A) w r s : m (im_store w) = (r, s) ->
  on_store m w = (r, mkManager s (im_keys w) (im_nickname w) (im_device w)).
Proof. unfold on_store. by intros ->. Qed.

(** Loading the fields of a manager that the store mirrors, over any previous fields that
    are the same or absent. *)
Lemma hydrate_run f b w v : mirrors (be_view b) w -> complete w -> im_store w = Persistent b -> im_store v = Persistent b ->
  (im_keys v = None \/ im_keys v = im_keys w) -> (im_nickname v = None \/ im_nickname v = im_nickname w) ->
  hydrate_from_store f v = (Ok tt, w).
Proof.
  intros Hm Hb Hw Hv Hk Hn. unfold hydrate_from_store.
  assert (load_nickname (Persistent b) = (Ok (im_nickname w), Persistent b)) as Hnick.
  { apply load_text_run; [apply Hm|apply Hm]. }
  rewrite <-Hv in Hnick. rewrite (bind_run _ _ _ _ _ (on_store_run _ _ _ _ Hnick)). rewrite Hv.
  set (v1 := mkManager (Persistent b) (im_keys v) (im_nickname w) (im_device v)).
  rewrite (bind_run _ _ _ tt v1).
  2:{ unfold v1. destruct (im_nickname w); [done|]. destruct Hn as [-> | ->]; done. }
  assert (load_keys f (im_store v1) = (Ok (im_keys w), Persistent b)) as Hkeys by (by apply load_keys_run).
  rewrite (bind_run _ _ _ _ _ (on_store_run _ _ _ _ Hkeys)).
  set (v2 := mkManager (Persistent b) (im_keys w) (im_nickname w) (im_device v)).
  rewrite (bind_run _ _ _ tt v2).
  2:{ unfold v1, v2. cbn. destruct (im_keys w); [done|]. destruct Hk as [-> | ->]; done. }
  assert (load_device_metadata (im_store v2) = (Ok (im_device w), Persistent b)) as Hdev by (by apply load_device_run).
  rewrite (bind_run _ _ _ _ _ (on_store_run _ _ _ _ Hdev)). cbn [im_keys im_nickname im_device v2].
  rewrite (bind_run (modify _) _ _ tt w) by (unfold modify, set_device; cbn; by destruct w; cbn in *; subst).
  unfold ensure_device_metadata.
  rewrite (bind_run (gets _) _ w false w); [done|]. unfold gets. do 2 f_equal. unfold complete in Hb.
  destruct (im_keys w), (im_device w); try done. by destruct (proj1 Hb ltac:(done)).
Qed.

Definition fresh_id_ok (f : Fresh) : Prop := fresh_ok f /\ device_ok (device_generate f).

Lemma save_keys_run k b : keys_ok k -> exists l b', keys_to_bytes k = Ok l /\
  save_keys k (Persistent b) = (Ok tt, Persistent b') /\ be_view b' = <[IDENTITY_KEY := l]> (be_view b).
Proof.
  intros Hk. destruct (keys_to_bytes_ok k Hk) as (l & Hl & _). destruct (put_flush_run IDENTITY_KEY l b) as (b' & H & Hv).
  exists l, b'. split_and!; [done| |done]. unfold save_keys, on_db.
  rewrite (bind_run (lift _) _ b l b) by (unfold lift; by rewrite Hl). by rewrite H.
Qed.

Lemma save_device_run d b : exists b', save_device_metadata d (Persistent b) = (Ok tt, Persistent b') /\
  be_view b' = <[SENIORITY_TIMESTAMP_KEY := str_bytes (pretty (seniority_timestamp d))]>
    (<[DEVICE_ID_KEY := str_bytes (device_id d)]> (be_view b)).
Proof.
  destruct (db_put_run DEVICE_ID_KEY (str_bytes (device_id d)) b) as (b1 & H1 & Hv1).
  destruct (put_flush_run SENIORITY_TIMESTAMP_KEY (str_bytes (pretty (seniority_timestamp d))) b1) as (b2 & H2 & Hv2).
  exists b2. split; [|by rewrite Hv2, Hv1]. unfold save_device_metadata, on_db. by rewrite (bind_run _ _ _ _ _ H1), H2.
Qed.

(** New keys in the manager and in the store. *)
Lemma mirrors_set_keys m w k l s : mirrors m w -> keys_ok k -> keys_to_bytes k = Ok l ->
  mirrors (<[IDENTITY_KEY := l]> m) (mkManager s (Some k) (im_nickname w) (im_device w)).
Proof.
  intros [_ H2 H3 H4 H5 H6] Hk Hl. split; cbn [im_keys im_nickname im_device]; try (by rewrite lookup_insert_ne); [|done|done].
  split; [done|]. exists l. split; [done|]. apply lookup_insert_eq.
Qed.

Lemma mirrors_set_device m w d s : mirrors m w -> device_ok d ->
  mirrors (<[SENIORITY_TIMESTAMP_KEY := str_bytes (pretty (seniority_timestamp d))]> (<[DEVICE_ID_KEY := str_bytes (device_id d)]> m))
    (mkManager s (im_keys w) (im_nickname w) (Some d)).
Proof.
  intros [H1 H2 H3 H4 H5 H6] Hd. split; cbn [im_keys im_nickname im_device].
  - by rewrite !lookup_insert_ne by done.
  - by rewrite !lookup_insert_ne by done.
  - done.
  - rewrite lookup_insert_ne by done. by rewrite lookup_insert_eq.
  - by rewrite lookup_insert_eq.
  - by intros ? [= <-].
Qed.

Lemma ensure_run f b w : mirrors (be_view b) w -> im_store w = Persistent b -> fresh_id_ok f ->
  (is_Some (im_device w) -> is_Some (im_keys w)) ->
  exists w', ensure_device_metadata f w = (Ok tt, w') /\ persisted w' /\ im_keys w' = im_keys w /\ im_nickname w' = im_nickname w.
Proof.
  intros Hm Hs [_ Hf] Hdk. unfold ensure_device_metadata, gets.
  destruct (im_keys w) as [k|] eqn:Ek, (im_device w) as [d|] eqn:Ed.
  - exists w. split_and!; [by cbn; rewrite Ek, Ed| |done|done]. exists b. split_and!; [done|done|]. unfold complete. by rewrite Ek, Ed.
  - destruct (save_device_run (device_generate f) b) as (b' & Hsave & Hv).
    assert (load_or_create_device_metadata f (im_store w) = (Ok (device_generate f), Persistent b')) as H.
    { rewrite Hs. unfold load_or_create_device_metadata. rewrite (bind_run _ _ _ _ _ (load_device_run b w Hm)), Ed.
      by rewrite (bind_run _ _ _ _ _ Hsave). }
    rewrite (bind_run _ _ w true w) by (by rewrite Ek, Ed). rewrite (bind_run _ _ _ _ _ (on_store_run _ _ _ _ H)).
    eexists. split_and!; [done| |done|done]. exists b'. split_and!; [done| |done].
    rewrite Hv. by apply (mirrors_set_device _ w).
  - by destruct (Hdk ltac:(done)).
  - exists w. split_and!; [by cbn; rewrite Ek, Ed| |done|done]. exists b. split_and!; [done|done|]. unfold complete. rewrite Ek, Ed.
    by split; intros [].
Qed.

(** *** Operations *)

Inductive identity_op : Type :=
  | Initialize (f : Fresh)
  | SetNickname (n : string)
  | ImportKeys (f : Fresh) (l : bytes).

Definition op_ok (op : identity_op) : Prop :=
  match op with
  | Initialize f | ImportKeys f _ => fresh_id_ok f
  | SetNickname n => utf8_valid (str_bytes n) = true
  end.

Definition run_op (op : identity_op) : M Mgr unit :=
  match op with
  | Initialize f => initialize f
  | SetNickname n => set_nickname n
  | ImportKeys f l => import_key_bytes f l
  end.

(** Storing keys and completing the manager, as [initialize] and [import_key_bytes] do. *)
Lemma adopt_keys_run f k w : persisted w -> keys_ok k -> fresh_id_ok f -> exists w',
  (let* _ := on_store (save_keys k) in let* _ := modify (set_keys (Some k)) in ensure_device_metadata f) w = (Ok tt, w') /\
  persisted w' /\ im_keys w' = Some k /\ im_nickname w' = im_nickname w.
Proof.
  intros (b & Hs & Hm & Hc) Hk Hf. destruct (save_keys_run k b Hk) as (l & b' & Hl & H & Hv). rewrite <-Hs in H.
  rewrite (bind_run _ _ _ _ _ (on_store_run _ _ _ _ H)). rewrite (bind_run (modify _) _ _ tt _) by done.
  set (w1 := mkManager (Persistent b') (Some k) (im_nickname w) (im_device w)).
  destruct (ensure_run f b' w1) as (w' & Hrun & Hp & Hk' & Hn'); [rewrite Hv; by apply mirrors_set_keys|done|done|done|].
  exists w'. by split_and!.
Qed.

Lemma hydrate_same f w : persisted w -> hydrate_from_store f w = (Ok tt, w).
Proof. intros (b & Hs & Hm & Hc). apply (hydrate_run f b); auto. Qed.

Lemma initialize_run f w : persisted w -> fresh_id_ok f -> exists w', initialize f w = (Ok tt, w') /\ persisted w' /\
  im_nickname w' = im_nickname w /\ im_keys w' = Some (default (keys_generate f) (im_keys w)).
Proof.
  intros Hp Hf. unfold initialize. rewrite (bind_run _ _ _ _ _ (hydrate_same f w Hp)). unfold gets.
  destruct (im_keys w) as [k|] eqn:Ek.
  - rewrite (bind_run _ _ w true w) by (by rewrite Ek). rewrite (bind_run (ret tt) _ w tt w) by done.
    destruct Hp as (b & Hs & Hm & Hc). destruct (ensure_run f b w Hm Hs Hf) as (w' & H & Hp' & Hk & Hn); [|exists w'; by rewrite Hk, Ek].
    unfold complete in Hc. tauto.
  - rewrite (bind_run _ _ w false w) by (by rewrite Ek).
    destruct (adopt_keys_run f (keys_generate f) w Hp (keys_generate_ok f (proj1 Hf)) Hf) as (w' & H & Hp' & Hk & Hn).
    exists w'. split_and!; [|done|done|done]. rewrite <-H. rewrite bind_assoc. done.
Qed.

Lemma run_op_persisted op w : op_ok op -> persisted w -> persisted (run_op op w).2.
Proof.
  intros Hop Hp. destruct op as [f|n|f l]; cbn [run_op op_ok] in *.
  - destruct (initialize_run f w Hp Hop) as (w' & -> & Hp' & _). done.
  - destruct Hp as (b & Hs & [H1 H2 H3 H4 H5 H6] & Hc). unfold set_nickname.
    destruct (put_flush_run NICKNAME_KEY (str_bytes n) b) as (b' & H & Hv).
    assert (save_nickname n (im_store w) = (Ok tt, Persistent b')) as Hsave by (rewrite Hs; unfold save_nickname, on_db; by rewrite H).
    rewrite (bind_run _ _ _ _ _ (on_store_run _ _ _ _ Hsave)). exists b'. split_and!; [done| |done].
    split; cbn [modify set_nick snd im_keys im_nickname im_device]; rewrite ?Hv; try (by rewrite lookup_insert_ne); [|by intros ? [= <-]|done].
    apply lookup_insert_eq.
  - unfold import_key_bytes. unfold lift at 1. unfold bind at 1. destruct (keys_from_bytes f l) as [k| |] eqn:Hl; [|done|done].
    destruct (adopt_keys_run f k w Hp (keys_from_bytes_ok f l k (proj1 Hop) Hl) Hop) as (w' & H & Hp' & _). by rewrite H.
Qed.


(** Which parts of an identity are drawn again.  Keys stored in the first format get
    the missing parts once; keys stored in the second get a new ML-DSA pair at every load,
    since only the first format is written back; and initializing a manager in memory a
    second time keeps its keys and replaces its device metadata. *)
Theorem identity_redraws f1 f2 seed1 l2 r b :
  fresh_ok f1 -> zlen seed1 = 32 -> dec l2 = Some r -> zlen (v2_mlkem_seed r) = 64 -> zlen l2 <> 31 ->
  (be_view b !! IDENTITY_KEY = Some seed1 -> exists k b', load_keys f1 (Persistent b) = (Ok (Some k), Persistent b') /\
     ik_signing_key k = seed1 /\ load_keys f2 (Persistent b') = (Ok (Some k), Persistent b')) /\
  (be_view b !! IDENTITY_KEY = Some (Byte.x02 :: l2) -> exists k1 k2,
     load_keys f1 (Persistent b) = (Ok (Some k1), Persistent b) /\ load_keys f2 (Persistent b) = (Ok (Some k2), Persistent b) /\
     ik_mldsa k1 = Some (generate_keypair (fr_mldsa f1)) /\ ik_mldsa k2 = Some (generate_keypair (fr_mldsa f2))) /\
  (let w1 := (initialize f1 (@manager_new B)).2 in let w2 := (initialize f2 w1).2 in
   im_keys w2 = im_keys w1 /\ im_device w1 = Some (device_generate f1) /\ im_device w2 = Some (device_generate f2)).
Proof.
  intros Hf H1 Hr Hs Hl2. split_and!.
  - intros Hb. assert (exists k, keys_from_bytes f1 seed1 = Ok k /\ ik_signing_key k = seed1) as (k & Hk & Hsk).
    { unfold keys_from_bytes. rewrite H1. by eexists. }
    pose proof (keys_from_bytes_ok f1 seed1 k Hf Hk) as Hok. destruct (save_keys_run k b Hok) as (l & b' & Hl & Hsave & Hv).
    destruct (keys_to_bytes_ok k Hok) as (l' & Hl' & Hn & Hback). rewrite Hl in Hl'. injection Hl' as <-.
    exists k, b'. split_and!; [|done|].
    + unfold load_keys. rewrite (bind_run _ _ _ _ _ (db_get_run _ b)), Hb.
      rewrite (bind_run _ _ _ k (Persistent b)) by (unfold lift; by rewrite Hk). by rewrite H1, (bind_run _ _ _ _ _ Hsave).
    + unfold load_keys. rewrite (bind_run _ _ _ _ _ (db_get_run _ b')), Hv, lookup_insert_eq.
      rewrite (bind_run _ _ _ k (Persistent b')) by (unfold lift; by rewrite Hback). by rewrite (proj2 (Z.eqb_neq _ _) Hn).
  - intros Hb. assert (forall f, exists k, load_keys f (Persistent b) = (Ok (Some k), Persistent b) /\
      ik_mldsa k = Some (generate_keypair (fr_mldsa f))) as Hload.
    { intros f. assert ((zlen (Byte.x02 :: l2) =? 32) = false) as Hn by (rewrite zlen_cons; apply Z.eqb_neq; lia).
      eexists. unfold load_keys. rewrite (bind_run _ _ _ _ _ (db_get_run _ b)), Hb. unfold keys_from_bytes. rewrite Hn, Hr.
      cbn [ok_or rbind]. rewrite Hs. split; done. }
    destruct (Hload f1) as (k1 & ? & ?), (Hload f2) as (k2 & ? & ?). by exists k1, k2.
  - by split_and!.
Qed.

End StoreLaws.

(** ** Concrete runs *)

Module IdentityExamples.
Import SampleIds Sample.

#[local] Instance ex_dsa : MlDsa := {|
  dsa_public := pad 1952;
  dsa_sign s m := pad 3309 (digest 32 (pad 1952 s ++ m));
  dsa_signature_valid _ := true;
  dsa_verify pk m s := bool_decide (s = pad 3309 (digest 32 (pk ++ m)));
|}.

#[local] Instance ex_dsa_laws : MlDsaLaws.
Proof.
  split; cbn [dsa_public dsa_sign dsa_signature_valid dsa_verify ex_dsa].
  - intros. unfold zlen, pad. by rewrite length_resize.
  - intros. unfold zlen, pad. by rewrite length_resize.
  - done.
  - intros. by apply bool_decide_eq_true.
Qed.

#[local] Instance v2_countable : Countable IdentityKeysV2Raw.
Proof.
  refine (inj_countable' (fun r => (v2_signing_key_bytes r, v2_x25519_secret_bytes r, v2_mlkem_seed r))
    (fun '(a, b, c) => mkV2 a b c) _). by intros [].
Defined.

#[local] Instance v3_countable : Countable IdentityKeysV3Raw.
Proof.
  refine (inj_countable' (fun r => (v3_signing_key_bytes r, v3_x25519_secret_bytes r, v3_mlkem_seed r,
      v3_mldsa_public_key r, v3_mldsa_secret_key r)) (fun '(a, b, c, d, e) => mkV3 a b c d e) _). by intros [].
Defined.

(** A codec of values with two arrays of 32 bytes. *)
Definition array_codec {A} `{Countable A} (f g : A -> bytes) : Codec A := {|
  enc a := Some (replicate 64 Byte.x00 ++ enc_any a);
  dec l := match dec_any (drop 64 l) with Ok a => if (zlen (f a) =? 32) && (zlen (g a) =? 32) then Some a else None | _ => None end;
|}.

Lemma array_codec_ok {A} `{Countable A} (f g : A -> bytes) a : arrays_ok (f a) (g a) ->
  exists l, enc (Codec := array_codec f g) a = Some l /\ dec (Codec := array_codec f g) l = Some a /\ 64 <= zlen l.
Proof.
  intros [Hf Hg]. eexists. split_and!; [done| |].
  - cbn [dec array_codec]. rewrite drop_app_length' by (by rewrite length_replicate). by rewrite dec_enc_any, Hf, Hg.
  - rewrite zlen_app, zlen_replicate. pose proof (zlen_nonneg (enc_any a)). lia.
Qed.

Lemma array_codec_typed {A} `{Countable A} (f g : A -> bytes) l a :
  dec (Codec := array_codec f g) l = Some a -> arrays_ok (f a) (g a).
Proof.
  cbn [dec array_codec]. destruct (dec_any (drop 64 l)) as [a'| |]; try done.
  destruct (zlen (f a') =? 32) eqn:Hf, (zlen (g a') =? 32) eqn:Hg; try done. intros [= <-]. by apply Z.eqb_eq in Hf, Hg.
Qed.

#[local] Instance ex_v2 : Codec IdentityKeysV2Raw := array_codec v2_signing_key_bytes v2_x25519_secret_bytes.
#[local] Instance ex_v3 : Codec IdentityKeysV3Raw := array_codec v3_signing_key_bytes v3_x25519_secret_bytes.
#[local] Instance ex_raw : LawfulRaw.
Proof. split; [intros r; apply array_codec_ok..|intros l r; apply array_codec_typed|intros l r; apply array_codec_typed]. Qed.

#[local] Instance ex_iter : HashIter bytes bytes := canonical_iter.

Definition fresh (n : byte) : Fresh :=
  mkFresh (replicate 32 n) (replicate 32 Byte.x02) (replicate 64 Byte.x03) (replicate 32 n)
    "01234567-89ab-4def-8123-456789abcdef" 1700000000.

Lemma fresh_is_ok n : fresh_id_ok (fresh n).
Proof. split; [done|]. by split_and!. Qed.

Definition owner : IdentityKeys := keys_generate (fresh Byte.x01).

Lemma owner_ok : keys_ok owner.
Proof. apply keys_generate_ok, fresh_is_ok. Qed.

Lemma bundle_verifies_witness :
  exists b, sign_bundle 7 owner = Ok b /\ verify_bundle b = Ok tt /\ pb_ed25519_public b = public_key owner.
Proof. apply (bundle_verifies 7 owner (replicate 32 Byte.x01)). reflexivity. Defined.

(** Signatures of which one is good for one message only. *)
Definition pinned_sign (m0 m : bytes) : bytes := replicate 64 (if decide (m = m0) then Byte.x01 else Byte.x00).

Definition pinned (m0 : bytes) : Crypto := {|
  x25519_public := x25519_public; diffie_hellman := diffie_hellman; was_contributory := was_contributory;
  derive_key := derive_key; Crypto.blake3_hash := Crypto.blake3_hash; sha512 := sha512;
  aead_encrypt := aead_encrypt; aead_decrypt := aead_decrypt;
  mlkem_generate := mlkem_generate; mlkem_encapsulate := mlkem_encapsulate; mlkem_decapsulate := mlkem_decapsulate;
  ed25519_public := ed25519_public; ed25519_decompress := ed25519_decompress;
  ed25519_sign _ m := pinned_sign m0 m;
  ed25519_key_valid := ed25519_key_valid;
  ed25519_verify _ m s := bool_decide (s = pinned_sign m0 m);
  Crypto.hex_encode := Crypto.hex_encode; Crypto.hex_decode := Crypto.hex_decode; hex_decode_to_slice := hex_decode_to_slice;
|}.

Lemma pinned_laws m0 : CryptoLaws (CR := pinned m0).
Proof.
  pose proof sample_laws as [].
  assert (forall sk m, zlen (ed25519_sign (Crypto := pinned m0) sk m) = 64) by (intros; apply zlen_replicate).
  split; try assumption. intros sk m. by apply bool_decide_eq_true.
Qed.

Definition owner_dsa : MlDsa65KeyPair := generate_keypair (replicate 32 Byte.x01).
Definition unsigned0 : PublicKeyBundle :=
  mkBundle (public_key owner) (x25519_public (ik_x25519_secret owner)) (pub_key (ik_mlkem owner)) (Some (verifying_key owner_dsa)) 7
    [Byte.x01; Byte.x03] [] None.
Definition message0 : bytes := sig_input_v3 unsigned0.
Definition published0 : PublicKeyBundle :=
  mkBundle (pb_ed25519_public unsigned0) (pb_x25519_public unsigned0) (pb_mlkem_encaps_key unsigned0)
    (Some (verifying_key owner_dsa)) 7 [Byte.x01; Byte.x03] (replicate 64 Byte.x01) (Some (mldsa_sign owner_dsa message0)).

Lemma published0_mldsa : is_ok (mldsa_verify (verifying_key owner_dsa) message0 (mldsa_sign owner_dsa message0)) = true.
Proof.
  unfold mldsa_verify, owner_dsa, generate_keypair, mldsa_sign. cbn [verifying_key signing_key].
  by rewrite dsa_public_length, dsa_sign_length, dsa_sign_valid, dsa_correct.
Qed.

Lemma bundle_authentic_witness : exists p, p ∈ [published0] /\ contents published0 = contents p.
Proof.
  apply (bundle_authentic (CR := pinned message0) (CL := pinned_laws message0) owner [published0] published0).
  - exact owner_ok.
  - by split_and!.
  - reflexivity.
  - intros p ->%list_elem_of_singleton. exists 7. split; [done|]. unfold sign_bundle. cbn [rbind].
    change (sig_input_v3 _) with message0. unfold keys_sign. cbn [ed25519_sign pinned]. unfold pinned_sign.
    rewrite decide_True by done. reflexivity.
  - intros m _. cbn [ed25519_verify pinned]. intros Hv%bool_decide_eq_true. unfold pinned_sign in Hv.
    destruct (decide (m = message0)) as [->|]; [|discriminate Hv]. exists published0. split; [by left|reflexivity].
  - unfold verify_bundle. cbn [published0 pb_mldsa_public pb_mldsa_signature].
    change (sig_input_v3 _) with message0. rewrite published0_mldsa.
    unfold keys_verify. cbn [verified ed25519_verify pinned]. unfold pinned_sign. by rewrite decide_True by done.
Defined.

(** A bundle in the second format. *)
Definition legacy0 : PublicKeyBundle :=
  let b := mkBundle (public_key owner) (replicate 32 Byte.x05) (replicate 1184 Byte.x06) None 9 [Byte.x01] [] None in
  mkBundle (pb_ed25519_public b) (pb_x25519_public b) (pb_mlkem_encaps_key b) None 9 [Byte.x01] (keys_sign owner (sig_input_v2 b)) None.

Example legacy_accepted : verify_bundle legacy0 = Ok tt.
Proof. vm_compute. reflexivity. Qed.

Lemma legacy_bundle_unbound_witness :
  (forall x, verify_bundle (with_mldsa legacy0 x) = verify_bundle legacy0) /\
  (verified (keys_verify (sig_input_v1 legacy0) (pb_signature legacy0) (pb_ed25519_public legacy0)) = true ->
   forall s, verify_bundle (with_suites legacy0 s) = Ok tt) /\
  (verified (keys_verify (sig_input_v2 legacy0) (pb_signature legacy0) (pb_ed25519_public legacy0)) = true ->
   forall m c, pb_mlkem_encaps_key legacy0 = m ++ [c] ->
   exists b' t, verify_bundle b' = Ok tt /\ pb_ed25519_public b' = pb_ed25519_public legacy0 /\
     pb_signature b' = pb_signature legacy0 /\ pb_mlkem_encaps_key b' = m /\
     pb_supported_suites b' = t :: pb_supported_suites legacy0).
Proof. apply (legacy_bundle_unbound legacy0). reflexivity. Defined.

Lemma key_file_roundtrip_witness :
  exists l, keys_to_bytes owner = Ok l /\ keys_from_bytes (fresh Byte.x09) l = Ok owner.
Proof. apply (key_file_roundtrip (fresh Byte.x09) owner). exact owner_ok. Defined.

(** A hash of 32 bytes. *)
Definition fixed_hash : IdLib :=
  {| uuid_version := uuid_version; hex_decode := hex_decode; hex_encode := hex_encode; blake3_hash l := resize 32 Byte.x00 l |}.

Lemma safety_number_agrees_witness :
  safety_number (IL := fixed_hash) KEY ID = safety_number (IL := fixed_hash) ID KEY /\
  exists groups, length groups = 12%nat /\ Forall (fun g => 0 <= g < 2 ^ 16) groups /\
    safety_number (IL := fixed_hash) KEY ID = Ok (String.concat " " (zero_pad 5 <$> groups)).
Proof.
  eapply (safety_number_agrees (IL := fixed_hash) KEY ID); [|vm_compute; reflexivity..].
  intros m. cbn [blake3_hash fixed_hash]. unfold zlen. by rewrite length_resize.
Defined.

Definition history0 : list identity_op :=
  [Initialize (fresh Byte.x01); SetNickname "ada"; ImportKeys (fresh Byte.x04) (replicate 32 Byte.x07); ImportKeys (fresh Byte.x04) []].


Definition old_keys : IdentityKeysV2Raw := mkV2 (replicate 32 Byte.x01) (replicate 32 Byte.x02) (replicate 64 Byte.x03).
Definition old_file : bytes := default [] (enc old_keys).

Definition old_store : MemoryStorage := mkMemory {[ IDENTITY_KEY := Byte.x02 :: old_file ]}.

Lemma identity_redraws_witness :
  (be_view old_store !! IDENTITY_KEY = Some (replicate 32 Byte.x07) ->
     exists k b', load_keys (fresh Byte.x01) (Persistent old_store) = (Ok (Some k), Persistent b') /\
     ik_signing_key k = replicate 32 Byte.x07 /\ load_keys (fresh Byte.x08) (Persistent b') = (Ok (Some k), Persistent b')) /\
  (be_view old_store !! IDENTITY_KEY = Some (Byte.x02 :: old_file) -> exists k1 k2,
     load_keys (fresh Byte.x01) (Persistent old_store) = (Ok (Some k1), Persistent old_store) /\
     load_keys (fresh Byte.x08) (Persistent old_store) = (Ok (Some k2), Persistent old_store) /\
     ik_mldsa k1 = Some (generate_keypair (fr_mldsa (fresh Byte.x01))) /\
     ik_mldsa k2 = Some (generate_keypair (fr_mldsa (fresh Byte.x08)))) /\
  (let w1 := (initialize (fresh Byte.x01) (@manager_new MemoryStorage)).2 in let w2 := (initialize (fresh Byte.x08) w1).2 in
   im_keys w2 = im_keys w1 /\ im_device w1 = Some (device_generate (fresh Byte.x01)) /\
   im_device w2 = Some (device_generate (fresh Byte.x08))).
Proof.
  apply (identity_redraws (fresh Byte.x01) (fresh Byte.x08) (replicate 32 Byte.x07) old_file old_keys old_store);
    [apply fresh_is_ok|reflexivity|vm_compute; reflexivity|reflexivity|vm_compute; discriminate].
Defined.

End IdentityExamples.
