(* ===== verification/Backup.v ===== *)
(** * Encrypted backups ([core/src/crypto/backup.rs])

    Encryption of an exported identity under a passphrase in the two current formats, and
    decryption of these and of the two older ones.  Argon2id and PBKDF2 are parameters
    beside the primitives of [Crypto]; salt and nonce are arguments. *)

From S2P Require Import Prelude Crypto Effects.

Definition FORMAT_TAG_ARGON2ID : byte := Byte.x02.
Definition FORMAT_TAG_BLAKE3 : byte := Byte.x03.
Definition NONCE_LEN : Z := 24.
Definition TAG_LEN : Z := 16.
Definition MIN_DATA_LEN : Z := NONCE_LEN + TAG_LEN.

(** The password hashes of other crates, with the parameters of the source. *)
Class PasswordHash : Type := {
  argon2id : bytes -> bytes -> option bytes;  (** passphrase, salt *)
  pbkdf2 : bytes -> bytes -> bytes;
}.

Inductive BackupError : Type := CryptoError | InvalidInput | CorruptionDetected.

Section Backup.
Context {CR : Crypto} {PH : PasswordHash}.

Definition derive_key_argon2id (passphrase : string) (salt : bytes) : res BackupError bytes :=
  match argon2id (str_bytes passphrase) salt with Some key => Ok key | None => Err CryptoError end.

Definition derive_key_blake3 (passphrase : string) (salt : bytes) : bytes :=
  derive_key "SCMessenger device-bound backup v1" (str_bytes passphrase ++ salt).

Definition derive_key_pbkdf2 (passphrase : string) (salt : bytes) : bytes := pbkdf2 (str_bytes passphrase) salt.

Definition try_decrypt (key nonce_bytes ciphertext : bytes) : option bytes := aead_decrypt key nonce_bytes [] ciphertext.

Definition encrypt_backup_inner (salt_bytes nonce_bytes : bytes) (payload passphrase : string) (format_tag : byte)
    : res BackupError string :=
  let! key :=
    if decide (format_tag = FORMAT_TAG_BLAKE3) then Ok (derive_key_blake3 passphrase salt_bytes)
    else derive_key_argon2id passphrase salt_bytes in
  match aead_encrypt key nonce_bytes [] (str_bytes payload) with
  | Some ciphertext => Ok (hex_encode (format_tag :: salt_bytes ++ nonce_bytes ++ ciphertext))
  | None => Err CryptoError
  end.

(** The salt is the caller's, if there is one, and random otherwise. *)
Definition encrypt_backup (random_salt nonce : bytes) (payload passphrase : string) (custom_salt : option bytes) :=
  encrypt_backup_inner (default random_salt custom_salt) nonce payload passphrase FORMAT_TAG_ARGON2ID.

Definition encrypt_backup_fast (random_salt nonce : bytes) (payload passphrase : string) (custom_salt : option bytes) :=
  encrypt_backup_inner (default random_salt custom_salt) nonce payload passphrase FORMAT_TAG_BLAKE3.

(** [slice.split_at(n)]. *)
Definition split_at (l : bytes) (n : Z) : res BackupError (bytes * bytes) :=
  let! a := slice l 0 n in
  let! b := slice l n (zlen l) in
  Ok (a, b).

Definition text_of (plaintext : bytes) : res BackupError string :=
  if utf8_valid plaintext then Ok (of_bytes plaintext) else Err CorruptionDetected.

(** One format: [None] when it does not apply or does not authenticate. *)
Definition attempt_salted (derive : bytes -> option bytes) (rest : bytes) : res BackupError (option bytes) :=
  let! '(salt_bytes, rest) := split_at rest 16 in
  let! '(nonce_bytes, ciphertext) := split_at rest NONCE_LEN in
  Ok (match derive salt_bytes with Some key => try_decrypt key nonce_bytes ciphertext | None => None end).

Definition ok_key (r : res BackupError bytes) : option bytes := match r with Ok key => Some key | _ => None end.

Definition tagged (tag : byte) (data : bytes) : bool :=
  bool_decide (head data = Some tag) && (1 + 16 + NONCE_LEN + TAG_LEN <=? zlen data).

(** The rest of the function after one format did not produce a plaintext. *)
Definition or_else (first : res BackupError (option bytes)) (next : res BackupError string) : res BackupError string :=
  let! plaintext := first in
  match plaintext with Some p => text_of p | None => next end.

Definition decrypt_backup (encrypted_hex passphrase : string) : res BackupError string :=
  let! data := map_err (fun _ => InvalidInput) (hex_decode encrypted_hex) in
  if zlen data <? MIN_DATA_LEN then Err InvalidInput
  else
    or_else
      (if tagged FORMAT_TAG_BLAKE3 data then
         let! rest := slice data 1 (zlen data) in
         attempt_salted (fun salt => Some (derive_key_blake3 passphrase salt)) rest
       else Ok None)
    (or_else
      (if tagged FORMAT_TAG_ARGON2ID data then
         let! rest := slice data 1 (zlen data) in
         attempt_salted (fun salt => ok_key (derive_key_argon2id passphrase salt)) rest
       else Ok None)
    (or_else
      (if 16 + NONCE_LEN + TAG_LEN <=? zlen data
       then attempt_salted (fun salt => Some (derive_key_pbkdf2 passphrase salt)) data
       else Ok None)
    (or_else
      (let! '(nonce_bytes, ciphertext) := split_at data NONCE_LEN in
       Ok (try_decrypt (derive_key_pbkdf2 passphrase (blake3_hash (str_bytes passphrase))) nonce_bytes ciphertext))
    (Err CorruptionDetected)))).

(** ** Laws *)

(** The length of an authenticated ciphertext, and that the [hex] crate returns errors. *)
Class BackupLaws : Prop := {
  aead_length : forall k n a p c, aead_encrypt k n a p = Some c -> zlen c = zlen p + 16;
  hex_decode_returns : forall s, hex_decode s <> Panic;
}.

Context {CL : CryptoLaws} {BL : BackupLaws}.

Lemma split_at_app a b n : zlen a = n -> split_at (a ++ b) n = Ok (a, b).
Proof.
  intros <-. pose proof (zlen_nonneg b). unfold split_at. rewrite slice_head by done. cbn [rbind].
  rewrite slice_app_r by (rewrite zlen_app; lia). rewrite Z.sub_diag, slice_all by (rewrite zlen_app; lia). done.
Qed.

Lemma split_at_ok l n : 0 <= n <= zlen l -> exists a b, split_at l n = Ok (a, b) /\ zlen b = zlen l - n.
Proof.
  intros Hn. unfold split_at. rewrite (slice_ok l 0 n) by lia. cbn [rbind].
  destruct (slice (E := BackupError) l n (zlen l)) as [b| |] eqn:Hb; [|by apply slice_no_err in Hb|apply slice_panic in Hb; lia].
  cbn [rbind]. eexists _, b. split; [done|]. by apply slice_length in Hb.
Qed.

(** The keys that decryption derives from a passphrase. *)
Definition derived (passphrase : string) (key : bytes) : Prop := exists salt,
  key = derive_key_blake3 passphrase salt \/ derive_key_argon2id passphrase salt = Ok key \/ key = derive_key_pbkdf2 passphrase salt.

(** An attempt returns, and what it returns was authenticated under a derived key. *)
Definition attempted (passphrase : string) (r : res BackupError (option bytes)) : Prop :=
  exists o, r = Ok o /\ forall p, o = Some p -> exists key n c, derived passphrase key /\ aead_decrypt key n [] c = Some p.

Lemma attempted_none passphrase : attempted passphrase (Ok None).
Proof. by exists None. Qed.

Lemma attempt_salted_spec passphrase derive rest : 40 <= zlen rest ->
  (forall salt key, derive salt = Some key -> derived passphrase key) -> attempted passphrase (attempt_salted derive rest).
Proof.
  intros Hl Hd. unfold attempt_salted. destruct (split_at_ok rest 16) as (salt & r & -> & Hr); [lia|]. cbn [rbind].
  destruct (split_at_ok r NONCE_LEN) as (n & c & -> & _); [unfold NONCE_LEN; lia|]. cbn [rbind].
  eexists. split; [done|]. intros p. destruct (derive salt) as [key|] eqn:Hk; [|done]. intros Hp. exists key, n, c.
  split; [by apply (Hd salt)|done].
Qed.

Lemma tagged_spec passphrase tag data derive : (forall salt key, derive salt = Some key -> derived passphrase key) ->
  attempted passphrase (if tagged tag data then let! rest := slice data 1 (zlen data) in attempt_salted derive rest else Ok None).
Proof.
  intros Hd. unfold tagged. destruct (bool_decide _); [|apply attempted_none]. cbn [andb].
  destruct (1 + 16 + NONCE_LEN + TAG_LEN <=? zlen data) eqn:Hl; [|apply attempted_none]. unfold NONCE_LEN, TAG_LEN in Hl.
  apply Z.leb_le in Hl. destruct (slice data 1 (zlen data)) as [rest| |] eqn:Hs;
    [|by apply slice_no_err in Hs|apply slice_panic in Hs; lia].
  apply attempt_salted_spec; [|done]. apply slice_length in Hs. lia.
Qed.

Lemma or_else_spec passphrase first next : attempted passphrase first ->
  (next <> Panic /\ forall s, next = Ok s -> exists key n c, derived passphrase key /\ aead_decrypt key n [] c = Some (str_bytes s)) ->
  or_else first next <> Panic /\ forall s, or_else first next = Ok s ->
    exists key n c, derived passphrase key /\ aead_decrypt key n [] c = Some (str_bytes s).
Proof.
  intros (o & -> & Ho) Hnext. cbn [or_else rbind]. destruct o as [p|]; [|done]. unfold or_else, text_of. cbn [rbind].
  destruct (utf8_valid p); [|done]. split; [done|]. intros s [= <-]. rewrite str_bytes_of_bytes. by apply Ho.
Qed.

(** Decrypting a backup always returns, and returns only text that was authenticated
    under a key derived from the passphrase. *)
Theorem backup_decrypt_sound encrypted_hex passphrase :
  decrypt_backup encrypted_hex passphrase <> Panic /\
  forall s, decrypt_backup encrypted_hex passphrase = Ok s ->
    exists key n c, derived passphrase key /\ aead_decrypt key n [] c = Some (str_bytes s).
Proof.
  unfold decrypt_backup. pose proof (hex_decode_returns encrypted_hex) as Hh.
  destruct (hex_decode encrypted_hex) as [data| |]; cbn [map_err rbind]; [|done|done].
  destruct (zlen data <? MIN_DATA_LEN) eqn:Hl; [done|]. unfold MIN_DATA_LEN, NONCE_LEN, TAG_LEN in Hl. apply Z.ltb_ge in Hl.
  apply or_else_spec; [apply tagged_spec; intros salt key [= <-]; exists salt; by left|].
  apply or_else_spec; [apply tagged_spec; intros salt key Hk; exists salt; right; left|].
  { destruct (derive_key_argon2id passphrase salt); [by injection Hk as ->|done|done]. }
  apply or_else_spec.
  { destruct (_ <=? zlen data) eqn:Hs; [|apply attempted_none]. unfold NONCE_LEN, TAG_LEN in Hs. apply Z.leb_le in Hs.
    apply attempt_salted_spec; [lia|]. intros salt key [= <-]. exists salt. by right; right. }
  apply or_else_spec; [|done]. destruct (split_at_ok data NONCE_LEN) as (n & c & -> & _); [unfold NONCE_LEN; lia|]. cbn [rbind].
  eexists. split; [done|]. intros p Hp. eexists _, n, c. split; [|exact Hp]. eexists. by right; right.
Qed.

(** A backup made in either current format is restored with its passphrase. *)
Theorem backup_roundtrip salt nonce payload passphrase tag text :
  tag = FORMAT_TAG_BLAKE3 \/ tag = FORMAT_TAG_ARGON2ID ->
  zlen salt = 16 -> zlen nonce = 24 -> utf8_valid (str_bytes payload) = true ->
  encrypt_backup_inner salt nonce payload passphrase tag = Ok text -> decrypt_backup text passphrase = Ok payload.
Proof.
  intros Htag Hs Hn Hu He. unfold encrypt_backup_inner in He.
  apply rbind_ok_inv in He as (key & Hkey & He).
  destruct (aead_encrypt key nonce [] (str_bytes payload)) as [c|] eqn:Hc; [|done]. injection He as <-.
  pose proof (aead_length _ _ _ _ _ Hc) as Hlen. apply aead_correct in Hc. pose proof (zlen_nonneg (str_bytes payload)).
  assert (forall derive, derive salt = Some key -> attempt_salted derive (salt ++ nonce ++ c) = Ok (Some (str_bytes payload))) as Hatt.
  { intros derive Hd. unfold attempt_salted. rewrite split_at_app by done. cbn [rbind].
    rewrite split_at_app by done. cbn [rbind]. rewrite Hd. unfold try_decrypt. by rewrite Hc. }
  unfold decrypt_backup. rewrite hex_roundtrip. cbn [map_err rbind].
  assert (forall t, zlen (t :: salt ++ nonce ++ c) = 57 + zlen (str_bytes payload)) as Hz
    by (intros; rewrite zlen_cons, !zlen_app; lia).
  assert (forall t t', tagged t (t' :: salt ++ nonce ++ c) = bool_decide (t' = t)) as Ht.
  { intros t t'. unfold tagged. rewrite Hz. rewrite (proj2 (Z.leb_le _ _)) by (unfold NONCE_LEN, TAG_LEN; lia).
    rewrite andb_true_r. apply bool_decide_ext. cbn. naive_solver. }
  rewrite Hz, (proj2 (Z.ltb_ge _ _)) by (unfold MIN_DATA_LEN, NONCE_LEN, TAG_LEN; lia). rewrite !Ht, <-!(Hz tag).
  assert (slice (E := BackupError) (tag :: salt ++ nonce ++ c) 1 (zlen (tag :: salt ++ nonce ++ c)) = Ok (salt ++ nonce ++ c)) as Hsl.
  { rewrite Hz, slice_cons_r by lia. apply slice_all. rewrite !zlen_app. lia. }
  assert (text_of (str_bytes payload) = Ok payload) as Htext by (unfold text_of; by rewrite Hu, of_bytes_str_bytes).
  destruct Htag as [-> | ->].
  - rewrite decide_True in Hkey by done. injection Hkey as <-. rewrite bool_decide_true, Hsl by done. cbn [rbind].
    by rewrite Hatt.
  - rewrite decide_False in Hkey by done. rewrite bool_decide_false by done. cbn [or_else rbind].
    rewrite bool_decide_true, Hsl by done. cbn [rbind]. rewrite Hatt; [done|]. by rewrite Hkey.
Qed.

End Backup.

(** ** Concrete runs *)

Module BackupExamples.
Import Sample.

#[local] Instance ex_hash : PasswordHash :=
  {| argon2id p s := Some (digest 32 (p ++ s)); pbkdf2 p s := digest 32 (s ++ p) |}.

#[local] Instance ex_laws : BackupLaws.
Proof.
  split; [|done]. intros k n a p c. cbn [aead_encrypt sample_crypto]. intros Hc.
  assert (c = digest 16 (k ++ n ++ a ++ p) ++ p) as -> by congruence. rewrite zlen_app. unfold zlen at 1. rewrite length_digest. lia.
Qed.

Definition salt0 : bytes := replicate 16 Byte.x07.
Definition nonce0 : bytes := replicate 24 Byte.x08.
Definition text0 : string := match encrypt_backup salt0 nonce0 "secret" "horse" None with Ok t => t | _ => ""%string end.

Example wrong_passphrase : decrypt_backup text0 "pony" = Err CorruptionDetected.
Proof. vm_compute. reflexivity. Qed.

Lemma backup_decrypt_sound_witness : decrypt_backup text0 "horse" <> Panic /\
  forall s, decrypt_backup text0 "horse" = Ok s ->
    exists key n c, derived "horse" key /\ aead_decrypt key n [] c = Some (str_bytes s).
Proof. apply (backup_decrypt_sound text0 "horse"). Defined.

Lemma backup_roundtrip_witness : decrypt_backup text0 "horse" = Ok "secret"%string.
Proof.
  apply (backup_roundtrip salt0 nonce0 "secret" "horse" FORMAT_TAG_ARGON2ID);
    [right; reflexivity|reflexivity|reflexivity|reflexivity|vm_compute; reflexivity].
Defined.

End BackupExamples.
