(* ===== verification/Onion.v ===== *)
(** * Onion routing ([core/src/privacy/onion.rs], [core/src/iron_core.rs])

    Construction of a layered envelope for a path of classical and hybrid hops, the
    peeling of one layer by a relay, and the two calls of the façade that carry layers
    between nodes.  [bincode] is a parameter that reads a value from the front of a buffer;
    ephemeral keys are arguments, one draw per hop. *)

From S2P Require Import Prelude Crypto Effects.

(** Values that [bincode] writes, and reads from the front of a buffer ([deserialize_from]
    of a cursor; [deserialize] of a slice, which accepts trailing bytes). *)
Class Bin (A : Type) : Type := {
  ser : A -> option bytes;
  de : bytes -> option (A * bytes);
}.

Class LawfulBin (A : Type) {BA : Bin A} : Prop :=
  ser_de : forall a l rest, ser a = Some l -> de (l ++ rest) = Some (a, rest).

(** Tuples are written one component after the other. *)
Definition ser_pair {A B} `{Bin A} `{Bin B} (a : A) (b : B) : option bytes :=
  match ser a, ser b with Some x, Some y => Some (x ++ y) | _, _ => None end.

Definition MAX_ONION_HOPS : Z := 5.
Definition XCHACHA_NONCE_SIZE : Z := 24.

(** [[u8; 32]]. *)
Record Key32 : Type := mkKey { key_bytes : bytes }.

Record ClassicalOnionLayer : Type := mkClassical {
  ephemeral_pk : bytes;
  encrypted_routing_info : bytes;
  encrypted_payload : bytes;
}.

Record HybridOnionLayer : Type := mkHybrid {
  hybrid_ct : HybridCiphertext;
  is_destination : bool;
  hl_payload : bytes;
}.

Inductive HopAddress : Type :=
  | Classical (pk : bytes)
  | Hybrid (bundle : PublicKeyBundle).

Definition hop_x25519_public (hop : HopAddress) : bytes :=
  match hop with Classical pk => pk | Hybrid bundle => pb_x25519_public bundle end.

Definition is_hybrid (hop : HopAddress) : bool := match hop with Hybrid _ => true | Classical _ => false end.

Inductive OnionError : Type :=
  | InvalidEnvelope | EncryptionFailed | DecryptionFailed | TooManyHops (max : Z) | InvalidRoutingInfo
  | NoLayersRemaining | InvalidHopAddress | IoError (s : string) | HybridDecryptionFailed | MissingPqKeys
  | MixedHopsNotAllowed.

Record OnionEnvelope : Type := mkOnion {
  version : Z;
  layer_data : bytes;
  remaining_layers : bytes;
}.

Record OnionConstructionResult : Type := mkResult {
  envelope : OnionEnvelope;
  pq_hops : Z;
  total_hops : Z;
}.

(** What the source draws for one hop: the ephemeral secret and the ML-KEM randomness. *)
Record Draw : Type := mkDraw { ephemeral : bytes; encap_rand : bytes }.

Definition onion_ok {A} (o : option A) (e : OnionError) : res OnionError A :=
  match o with Some a => Ok a | None => Err e end.

Section Onion.
Context {CR : Crypto} {BB : Bin bool} {BK : Bin Key32} {BP : Bin PublicKeyBundle}.
Context {BC : Bin ClassicalOnionLayer} {BH : Bin HybridOnionLayer}.

Definition derive_layer_key (shared_secret : bytes) : bytes := derive_key "SCMessenger-onion-layer-key-v1" shared_secret.

Definition derive_nonce (shared_secret : bytes) (counter : byte) : res OnionError bytes :=
  slice (derive_key "SCMessenger-onion-layer-nonce-v1" (shared_secret ++ [counter])) 0 XCHACHA_NONCE_SIZE.

(** [cipher.encrypt(nonce, Payload { msg, aad: nonce })] and its inverse. *)
Definition seal (shared_secret : bytes) (counter : byte) (msg : bytes) : res OnionError bytes :=
  let! nonce := derive_nonce shared_secret counter in
  onion_ok (aead_encrypt (derive_layer_key shared_secret) nonce nonce msg) EncryptionFailed.

Definition unseal (shared_secret : bytes) (counter : byte) (msg : bytes) : res OnionError bytes :=
  let! nonce := derive_nonce shared_secret counter in
  onion_ok (aead_decrypt (derive_layer_key shared_secret) nonce nonce msg) DecryptionFailed.

(** The hop that a relay forwards to, as its routing information says it. *)
Definition next_hop_info (next_hop : HopAddress) : res OnionError bytes :=
  match next_hop with
  | Hybrid bundle => onion_ok (ser_pair true bundle) InvalidEnvelope
  | Classical pk => onion_ok (ser_pair false (mkKey pk)) InvalidEnvelope
  end.

Definition hybrid_layer (r : Draw) (bundle : PublicKeyBundle) (is_destination : bool) (payload : bytes) : res OnionError bytes :=
  let! '(hybrid_ct, shared_secret) := map_err (fun _ => EncryptionFailed)
    (hybrid_encapsulate (ephemeral r) (encap_rand r) (pb_x25519_public bundle) (pb_mlkem_encaps_key bundle)) in
  let! encrypted_payload := seal shared_secret Byte.x00 payload in
  onion_ok (ser (mkHybrid hybrid_ct is_destination encrypted_payload)) InvalidEnvelope.

Definition classical_layer (r : Draw) (pk routing_info payload : bytes) : res OnionError bytes :=
  let shared_secret := diffie_hellman (ephemeral r) pk in
  let! encrypted_routing_info := seal shared_secret Byte.x00 routing_info in
  let! encrypted_payload := seal shared_secret Byte.x01 payload in
  onion_ok (ser (mkClassical (x25519_public (ephemeral r)) encrypted_routing_info encrypted_payload)) InvalidEnvelope.

Definition destination_layer (r : Draw) (hop : HopAddress) (payload : bytes) : res OnionError bytes :=
  match hop with
  | Hybrid bundle => hybrid_layer r bundle true payload
  | Classical pk => classical_layer r pk [] payload
  end.

(** The encapsulation comes first in the source; its failure is reported before one of
    the routing information, and neither has an effect. *)
Definition relay_layer (r : Draw) (relay_hop next_hop : HopAddress) (remaining_layers : bytes) : res OnionError bytes :=
  match relay_hop with
  | Hybrid bundle =>
      let! _ := map_err (fun _ => EncryptionFailed)
        (hybrid_encapsulate (ephemeral r) (encap_rand r) (pb_x25519_public bundle) (pb_mlkem_encaps_key bundle)) in
      let! info := next_hop_info next_hop in
      hybrid_layer r bundle false (info ++ remaining_layers)
  | Classical pk =>
      let! info := next_hop_info next_hop in
      classical_layer r pk info remaining_layers
  end.

(** The innermost layer and the loop over the relays, from the last to the first. *)
Fixpoint wrap (path : list (HopAddress * Draw)) (payload : bytes) : res OnionError bytes :=
  match path with
  | [] => Panic
  | [(destination_hop, r)] => destination_layer r destination_hop payload
  | (relay_hop, r) :: (((next_hop, _) :: _) as rest) =>
      let! remaining_layers := wrap rest payload in
      relay_layer r relay_hop next_hop remaining_layers
  end.

Definition onion_version (hop : HopAddress) : Z := if is_hybrid hop then 2 else 1.

Definition construct_onion (path : list (HopAddress * Draw)) (payload : bytes) (require_pq : bool)
    : res OnionError OnionConstructionResult :=
  match path with
  | [] => Err (TooManyHops MAX_ONION_HOPS)
  | (first, _) :: _ =>
      if MAX_ONION_HOPS <? zlen path then Err (TooManyHops MAX_ONION_HOPS)
      else
        let total_hops := cast_u 8 (zlen path) in
        let pq_hops := cast_u 8 (zlen (filter (fun h => is_hybrid h = true) path.*1)) in
        if require_pq && negb (pq_hops =? total_hops) then Err MixedHopsNotAllowed
        else
          let! layer_data := wrap path payload in
          Ok (mkResult (mkOnion (onion_version first) layer_data []) pq_hops total_hops)
  end.

Definition construct_classical_onion (path : list (bytes * Draw)) (payload : bytes) : res OnionError OnionEnvelope :=
  let! result := construct_onion (prod_map Classical id <$> path) payload false in
  Ok (envelope result).

(** Reading the next hop from the front of the routing information. *)
Definition read_hop (e : OnionError) (l : bytes) : res OnionError (HopAddress * bytes) :=
  let! '(is_hybrid, l) := onion_ok (de l) e in
  if (is_hybrid : bool) then
    let! '(bundle, l) := onion_ok (de l) e in Ok (Hybrid bundle, l)
  else
    let! '(pk, l) := onion_ok (de l) e in Ok (Classical (key_bytes pk), l).

Definition peel_layer (envelope : OnionEnvelope) (relay_secret_key : bytes) (relay_mlkem_keypair : option MlKem768KeyPair)
    : res OnionError (option HopAddress * bytes) :=
  if version envelope =? 1 then
    let! '(layer, _) := onion_ok (de (layer_data envelope)) InvalidEnvelope in
    if negb (zlen (ephemeral_pk layer) =? 32) then Err InvalidEnvelope
    else
      let shared_secret := diffie_hellman relay_secret_key (ephemeral_pk layer) in
      let! routing_info_plaintext :=
        match encrypted_routing_info layer with
        | [] => Ok []
        | info => unseal shared_secret Byte.x00 info
        end in
      let! payload_plaintext := unseal shared_secret Byte.x01 (encrypted_payload layer) in
      match routing_info_plaintext with
      | [] => Ok (None, payload_plaintext)
      | info =>
          let! '(next_hop, _) := read_hop InvalidHopAddress info in
          Ok (Some next_hop, payload_plaintext)
      end
  else if version envelope =? 2 then
    let! '(layer, _) := onion_ok (de (layer_data envelope)) InvalidEnvelope in
    let! relay_mlkem_keypair := onion_ok relay_mlkem_keypair MissingPqKeys in
    let! shared_secret := map_err (fun _ => HybridDecryptionFailed)
      (hybrid_decapsulate relay_secret_key relay_mlkem_keypair (hybrid_ct layer)) in
    let! payload_plaintext := unseal shared_secret Byte.x00 (hl_payload layer) in
    if is_destination layer then Ok (None, payload_plaintext)
    else
      let! '(next_hop, remaining) := read_hop InvalidEnvelope payload_plaintext in
      Ok (Some next_hop, remaining)
  else Err InvalidEnvelope.

End Onion.

(** ** The calls of the façade ([IronCore::prepare_onion_message], [IronCore::peel_onion_layer])

    [bincode] of the construction result, of an envelope and of a byte vector, and
    [serde_json] of the list of keys, are parameters here too. *)

Record PeelResult : Type := mkPeel {
  next_hop : option bytes;
  remaining_data : bytes;
}.

Section Facade.
Context {CR : Crypto} {BB : Bin bool} {BK : Bin Key32} {BP : Bin PublicKeyBundle}.
Context {BC : Bin ClassicalOnionLayer} {BH : Bin HybridOnionLayer} {BR : Bin OnionConstructionResult} {BE : Bin OnionEnvelope}.
Context {BV : Bin bytes} (keys_of_json : string -> option (list string)).

Definition relay_hop_of_hex (hex : string) : res string HopAddress :=
  let! bytes := map_err (fun _ => "InvalidInput"%string) (hex_decode hex) in
  if zlen bytes =? 32 then Ok (Classical bytes) else Err "InvalidInput"%string.

(** The draws are those that [construct_onion] makes, hop by hop. *)
Definition prepare_onion_message (onion_routing_enabled : bool) (draws : list Draw) (envelope_data : bytes)
    (relay_public_keys_json : string) : res string bytes :=
  if negb onion_routing_enabled then Err "OnionRoutingDisabled"%string
  else
    let! relay_keys := ok_or (keys_of_json relay_public_keys_json) "InvalidInput"%string in
    match relay_keys with
    | [] => Ok envelope_data
    | _ =>
        let! path := rfold (fun path hex => let! hop := relay_hop_of_hex hex in Ok (path ++ [hop])) [] relay_keys in
        let! result := map_err (fun _ => "CryptoError"%string) (construct_onion (zip path draws) envelope_data false) in
        ok_or (ser result) "Internal"%string
    end.

Definition peel_onion_layer (onion_routing_enabled : bool) (onion_data relay_secret_key : bytes) : res string PeelResult :=
  if negb onion_routing_enabled then Err "OnionRoutingDisabled"%string
  else if negb (zlen relay_secret_key =? 32) then Err "InvalidInput"%string
  else
    let! '(envelope, _) := ok_or (de (A := OnionEnvelope) onion_data) "InvalidInput"%string in
    let! '(next_hop, remaining) := map_err (fun _ => "CryptoError"%string) (peel_layer envelope relay_secret_key None) in
    let remaining_data := default remaining (ser remaining) in
    Ok (mkPeel (hop_x25519_public <$> next_hop) remaining_data).

End Facade.

(** ** Laws *)

Section Laws.
Context {CR : Crypto} {CL : CryptoLaws}.
Context {BB : Bin bool} {BK : Bin Key32} {BP : Bin PublicKeyBundle} {BC : Bin ClassicalOnionLayer} {BH : Bin HybridOnionLayer}.
Context {LBB : LawfulBin bool} {LBK : LawfulBin Key32} {LBP : LawfulBin PublicKeyBundle}.
Context {LBC : LawfulBin ClassicalOnionLayer} {LBH : LawfulBin HybridOnionLayer}.

(** A flag takes a byte, and a ciphertext is not empty. *)
Class OnionLaws : Prop := {
  bool_bytes : forall b l, ser (A := bool) b = Some l -> l <> [];
  sealed_bytes : forall k n a p c, aead_encrypt k n a p = Some c -> c <> [];
}.
Context {OL : OnionLaws}.

Lemma derive_nonce_ok ss c : exists n, derive_nonce ss c = Ok n.
Proof.
  unfold derive_nonce. rewrite slice_ok; [by eexists|unfold XCHACHA_NONCE_SIZE; lia|].
  rewrite derive_key_length. unfold XCHACHA_NONCE_SIZE. lia.
Qed.

Lemma unseal_seal ss c msg sealed : seal ss c msg = Ok sealed -> unseal ss c sealed = Ok msg /\ sealed <> [].
Proof.
  unfold seal, unseal. destruct (derive_nonce_ok ss c) as [n ->]. cbn [rbind].
  destruct (aead_encrypt _ _ _ _) as [x|] eqn:He; [|done]. cbn. intros [= <-].
  split; [by rewrite (aead_correct _ _ _ _ _ He)|by apply sealed_bytes in He].
Qed.

Lemma onion_ok_inv {A} (o : option A) e a : onion_ok o e = Ok a -> o = Some a.
Proof. destruct o; cbn; [by intros [= <-]|done]. Qed.

Lemma next_hop_info_read hop l e rest : next_hop_info hop = Ok l -> read_hop e (l ++ rest) = Ok (hop, rest) /\ l <> [].
Proof.
  unfold next_hop_info, ser_pair, read_hop. destruct hop as [pk|bundle]; intros H%onion_ok_inv.
  - destruct (ser false) as [x|] eqn:Hx; [|done]. destruct (ser (mkKey pk)) as [y|] eqn:Hy; [|done]. injection H as <-.
    rewrite <-app_assoc, (ser_de _ _ _ Hx). cbn [onion_ok rbind]. rewrite (ser_de _ _ _ Hy). split; [done|].
    apply bool_bytes in Hx. by destruct x.
  - destruct (ser true) as [x|] eqn:Hx; [|done]. destruct (ser bundle) as [y|] eqn:Hy; [|done]. injection H as <-.
    rewrite <-app_assoc, (ser_de _ _ _ Hx). cbn [onion_ok rbind]. rewrite (ser_de _ _ _ Hy). split; [done|].
    apply bool_bytes in Hx. by destruct x.
Qed.

(** [secret] and [kp] are the private keys behind a hop. *)
Definition owns (hop : HopAddress) (secret : bytes) (kp : option MlKem768KeyPair) : Prop :=
  match hop with
  | Classical pk => pk = x25519_public secret
  | Hybrid bundle => exists seed, kp = Some (generate seed) /\ pb_x25519_public bundle = x25519_public secret /\
      pb_mlkem_encaps_key bundle = pub_key (generate seed)
  end.

Lemma de_whole {A} `{LawfulBin A} (a : A) l : ser a = Some l -> de l = Some (a, []).
Proof. intros Hs. rewrite <-(app_nil_r l). by apply ser_de. Qed.

Lemma peel_hybrid r bundle secret kp d payload l rest : owns (Hybrid bundle) secret kp ->
  hybrid_layer r bundle d payload = Ok l ->
  peel_layer (mkOnion 2 l rest) secret kp =
    if d then Ok (None, payload) else let! '(h, remaining) := read_hop InvalidEnvelope payload in Ok (Some h, remaining).
Proof.
  intros (seed & -> & Hx & Hk). unfold hybrid_layer. rewrite Hx, Hk.
  destruct (hybrid_encapsulate _ _ _ _) as [[ct ss]| |] eqn:He; [|done|done]. cbn [map_err rbind].
  apply hybrid_kem_agree in He. intros (sealed & Hs & Hl%onion_ok_inv)%rbind_ok_inv.
  unfold peel_layer. cbn [version layer_data Z.eqb Pos.eqb]. rewrite (de_whole _ _ Hl). cbn [onion_ok rbind hybrid_ct].
  rewrite He. cbn [map_err rbind hl_payload is_destination]. rewrite (proj1 (unseal_seal _ _ _ _ Hs)). cbn [rbind].
  by destruct d.
Qed.

Lemma peel_classical r pk secret kp info payload l rest : owns (Classical pk) secret kp ->
  classical_layer r pk info payload = Ok l ->
  peel_layer (mkOnion 1 l rest) secret kp =
    match info with [] => Ok (None, payload)
    | _ => let! '(h, _) := read_hop InvalidHopAddress info in Ok (Some h, payload) end.
Proof.
  intros ->. unfold classical_layer. rewrite dh_comm. intros (s1 & H1 & H)%rbind_ok_inv.
  apply rbind_ok_inv in H as (s2 & H2 & Hl%onion_ok_inv).
  unfold peel_layer. cbn [version layer_data Z.eqb Pos.eqb]. rewrite (de_whole _ _ Hl).
  cbn [onion_ok rbind ephemeral_pk encrypted_routing_info encrypted_payload]. rewrite x25519_public_length. cbn [Z.eqb Pos.eqb negb].
  destruct (unseal_seal _ _ _ _ H1) as [E1 N1]. destruct (unseal_seal _ _ _ _ H2) as [E2 _].
  destruct s1 as [|a s1]; [done|]. rewrite E1. cbn [rbind]. rewrite E2. by destruct info.
Qed.

(** ** A message on its way *)

(** The envelope that a relay hands to the hop it was told, as the tests of the module do. *)
Definition envelope_for (hop : HopAddress) (layers : bytes) : OnionEnvelope := mkOnion (onion_version hop) layers [].

(** The nodes peel one after the other; the hops that were announced, and what the last
    node reads. *)
Fixpoint travel (e : OnionEnvelope) (nodes : list (bytes * option MlKem768KeyPair)) : res OnionError (list HopAddress * bytes) :=
  match nodes with
  | [] => Err NoLayersRemaining
  | (secret, kp) :: nodes =>
      let! '(next, data) := peel_layer e secret kp in
      match next with
      | None => Ok ([], data)
      | Some hop =>
          let! '(hops, plaintext) := travel (envelope_for hop data) nodes in
          Ok (hop :: hops, plaintext)
      end
  end.

Lemma peel_destination r hop secret kp payload l : owns hop secret kp -> destination_layer r hop payload = Ok l ->
  peel_layer (envelope_for hop l) secret kp = Ok (None, payload).
Proof.
  destruct hop as [pk|bundle]; intros Ho Hl; [by apply (peel_classical _ _ _ _ _ _ _ [] Ho) in Hl|
    by apply (peel_hybrid _ _ _ _ _ _ _ [] Ho) in Hl].
Qed.

Lemma peel_relay r hop next secret kp remaining l : owns hop secret kp -> relay_layer r hop next remaining = Ok l ->
  peel_layer (envelope_for hop l) secret kp = Ok (Some next, remaining).
Proof.
  intros Ho. destruct hop as [pk|bundle]; cbn [relay_layer].
  - intros (info & Hi & Hl)%rbind_ok_inv. apply (peel_classical _ _ _ _ _ _ _ [] Ho) in Hl.
    destruct (next_hop_info_read next info InvalidHopAddress [] Hi) as [Hr Hn]. rewrite app_nil_r in Hr.
    unfold envelope_for. cbn [onion_version is_hybrid]. rewrite Hl, Hr. by destruct info.
  - intros (x & _ & H)%rbind_ok_inv. apply rbind_ok_inv in H as (info & Hi & Hl).
    apply (peel_hybrid _ _ _ _ _ _ _ [] Ho) in Hl. unfold envelope_for. cbn [onion_version is_hybrid]. rewrite Hl.
    by rewrite (proj1 (next_hop_info_read next info InvalidEnvelope remaining Hi)).
Qed.

Lemma wrap_travel path nodes payload l hop : Forall2 (fun h n => owns h.1 n.1 n.2) path nodes ->
  fst <$> head path = Some hop -> wrap path payload = Ok l ->
  travel (envelope_for hop l) nodes = Ok (tail path.*1, payload).
Proof.
  intros Hall. revert l hop. induction Hall as [|[h r] [secret kp] path nodes Ho Hall IH]; intros l hop; [done|].
  cbn [head fmap option_fmap option_map fst]. intros [= <-]. cbn [fst snd] in Ho. destruct path as [|[h' r'] path].
  - cbn [wrap]. intros Hl. cbn [travel]. by rewrite (peel_destination _ _ _ _ _ _ Ho Hl).
  - intros Hl. change (wrap ((h, r) :: (h', r') :: path) payload)
      with (let! inner := wrap ((h', r') :: path) payload in relay_layer r h h' inner) in Hl.
    apply rbind_ok_inv in Hl as (inner & Hi & Hl). cbn [travel]. rewrite (peel_relay _ _ _ _ _ _ _ Ho Hl). cbn [rbind].
    by rewrite (IH inner h' eq_refl Hi).
Qed.

(** What keeps the construction from failing: the serializer and the cipher accept
    everything, and an encapsulation is possible for every hybrid hop. *)
Class TotalOnion : Prop := {
  ser_bool_total : forall b : bool, is_Some (ser b);
  ser_key_total : forall k : Key32, is_Some (ser k);
  ser_bundle_total : forall p : PublicKeyBundle, is_Some (ser p);
  ser_classical_total : forall c : ClassicalOnionLayer, is_Some (ser c);
  ser_hybrid_total : forall h : HybridOnionLayer, is_Some (ser h);
  aead_total : forall k n a p, is_Some (aead_encrypt k n a p);
}.
Context {TO : TotalOnion}.

Definition reachable (h : HopAddress * Draw) : Prop :=
  match h.1 with
  | Classical _ => True
  | Hybrid bundle => zlen (pb_mlkem_encaps_key bundle) = 1184 /\
      was_contributory (diffie_hellman (ephemeral h.2) (pb_x25519_public bundle)) = true
  end.

Lemma seal_ok ss c msg : exists x, seal ss c msg = Ok x.
Proof.
  unfold seal. destruct (derive_nonce_ok ss c) as [n ->]. cbn [rbind]. destruct (aead_total (derive_layer_key ss) n n msg) as [x ->].
  by exists x.
Qed.

Lemma next_hop_info_ok hop : exists l, next_hop_info hop = Ok l.
Proof.
  unfold next_hop_info, ser_pair. destruct hop as [pk|bundle].
  - destruct (ser_bool_total false) as [x ->], (ser_key_total (mkKey pk)) as [y ->]. by eexists.
  - destruct (ser_bool_total true) as [x ->], (ser_bundle_total bundle) as [y ->]. by eexists.
Qed.

Lemma hybrid_encapsulate_ok bundle r : reachable (Hybrid bundle, r) -> exists x,
  hybrid_encapsulate (ephemeral r) (encap_rand r) (pb_x25519_public bundle) (pb_mlkem_encaps_key bundle) = Ok x.
Proof.
  intros [Hk Hc]. cbn in Hc. unfold hybrid_encapsulate, encapsulate. rewrite Hk, Hc. cbn [Z.eqb Pos.eqb negb rbind].
  destruct (mlkem_encapsulate _ _) as [ct ss]. by eexists.
Qed.

Lemma hybrid_layer_ok bundle r d payload : reachable (Hybrid bundle, r) -> exists l, hybrid_layer r bundle d payload = Ok l.
Proof.
  intros Hr. unfold hybrid_layer. destruct (hybrid_encapsulate_ok bundle r Hr) as [[ct ss] ->]. cbn [map_err rbind].
  destruct (seal_ok ss Byte.x00 payload) as [x ->]. cbn [rbind]. destruct (ser_hybrid_total (mkHybrid ct d x)) as [l ->]. by exists l.
Qed.

Lemma classical_layer_ok pk r info payload : exists l, classical_layer r pk info payload = Ok l.
Proof.
  unfold classical_layer. set (ss := diffie_hellman _ _). destruct (seal_ok ss Byte.x00 info) as [x ->]. cbn [rbind].
  destruct (seal_ok ss Byte.x01 payload) as [y ->]. cbn [rbind].
  destruct (ser_classical_total (mkClassical (x25519_public (ephemeral r)) x y)) as [l ->]. by exists l.
Qed.

Lemma wrap_ok path payload : path <> [] -> Forall reachable path -> exists l, wrap path payload = Ok l.
Proof.
  intros Hne Hall. induction Hall as [|[h r] path Hr Hall IH]; [done|]. destruct path as [|[h' r'] path].
  - cbn [wrap]. destruct h; cbn [destination_layer]; [apply classical_layer_ok|by apply hybrid_layer_ok].
  - change (wrap ((h, r) :: (h', r') :: path) payload)
      with (let! inner := wrap ((h', r') :: path) payload in relay_layer r h h' inner).
    destruct (IH ltac:(done)) as [inner ->]. cbn [rbind]. destruct (next_hop_info_ok h') as [info Hi].
    destruct h as [pk|bundle]; cbn [relay_layer].
    + rewrite Hi. cbn [rbind]. apply classical_layer_ok.
    + destruct (hybrid_encapsulate_ok bundle r Hr) as [x ->]. cbn [map_err rbind]. rewrite Hi. cbn [rbind]. by apply hybrid_layer_ok.
Qed.

(** C29: a message reaches the end of its path.  For one to five hops, classical and hybrid
    in any order, the construction succeeds; the nodes that peel one after the other are
    told exactly the next hop of the path, and the last one reads the message. *)
Theorem onion_delivers path nodes payload : path <> [] -> zlen path <= MAX_ONION_HOPS -> Forall reachable path ->
  Forall2 (fun h n => owns h.1 n.1 n.2) path nodes ->
  exists r, construct_onion path payload false = Ok r /\ travel (envelope r) nodes = Ok (tail path.*1, payload) /\
    total_hops r = zlen path.
Proof.
  intros Hne Hlen Hreach Howns. destruct path as [|[h r] path]; [done|].
  destruct (wrap_ok ((h, r) :: path) payload Hne Hreach) as [l Hl]. unfold construct_onion.
  rewrite (proj2 (Z.ltb_ge _ _)) by lia. cbn [andb]. rewrite Hl. cbn [rbind]. eexists. split_and!; [done| |].
  - exact (wrap_travel _ nodes payload l h Howns eq_refl Hl).
  - cbn [total_hops]. unfold cast_u. unfold MAX_ONION_HOPS in Hlen. pose proof (zlen_nonneg ((h, r) :: path)). by rewrite Z.mod_small by lia.
Qed.

(** A layer as somebody without the keys can alter it: the flag set, the routing
    information taken away. *)
Definition mark_final (hop : HopAddress) (l : bytes) : option bytes :=
  match hop with
  | Hybrid _ => match de l with Some (layer, _) => ser (mkHybrid (hybrid_ct layer) true (hl_payload layer)) | None => None end
  | Classical _ => match de l with Some (layer, _) => ser (mkClassical (ephemeral_pk layer) [] (encrypted_payload layer)) | None => None end
  end.

(** That a layer is the last one is not authenticated.  Whoever forwards a layer can
    alter it without any key so that the relay that opens it takes itself for the
    destination and what is inside for the message. *)
Theorem onion_end_unauthenticated r hop next secret kp remaining l : owns hop secret kp ->
  relay_layer r hop next remaining = Ok l ->
  exists l' data, mark_final hop l = Some l' /\ peel_layer (envelope_for hop l') secret kp = Ok (None, data) /\
    exists front, data = front ++ remaining.
Proof.
  intros Ho. destruct hop as [pk|bundle]; cbn [relay_layer mark_final].
  - intros (info & _ & H)%rbind_ok_inv. unfold classical_layer in H. apply rbind_ok_inv in H as (s1 & _ & H).
    apply rbind_ok_inv in H as (s2 & H2 & Hl%onion_ok_inv). rewrite (de_whole _ _ Hl). cbn [ephemeral_pk encrypted_payload].
    destruct (ser_classical_total (mkClassical (x25519_public (ephemeral r)) [] s2)) as [l' Hl']. exists l', remaining.
    split_and!; [done| |by exists []]. unfold peel_layer, envelope_for. cbn [onion_version is_hybrid version layer_data Z.eqb Pos.eqb].
    rewrite (de_whole _ _ Hl'). cbn [onion_ok rbind ephemeral_pk encrypted_routing_info encrypted_payload].
    rewrite x25519_public_length. cbn [Z.eqb Pos.eqb negb rbind]. cbn [owns] in Ho. rewrite Ho, dh_comm in H2.
    by rewrite (proj1 (unseal_seal _ _ _ _ H2)).
  - intros (x & _ & H)%rbind_ok_inv. apply rbind_ok_inv in H as (info & _ & H). unfold hybrid_layer in H.
    apply rbind_ok_inv in H as ([ct ss] & He & H). apply rbind_ok_inv in H as (sealed & Hs & Hl%onion_ok_inv).
    rewrite (de_whole _ _ Hl). cbn [hybrid_ct hl_payload]. destruct (ser_hybrid_total (mkHybrid ct true sealed)) as [l' Hl'].
    exists l', (info ++ remaining). split_and!; [done| |by exists info].
    apply (peel_hybrid r bundle secret kp true (info ++ remaining) l' []); [done|].
    unfold hybrid_layer. rewrite He. cbn [rbind]. rewrite Hs. cbn [rbind]. by rewrite Hl'.
Qed.

End Laws.

(** ** Layers between nodes *)

Section FacadeLaws.
Context {CR : Crypto} {BB : Bin bool} {BK : Bin Key32} {BP : Bin PublicKeyBundle}.
Context {BC : Bin ClassicalOnionLayer} {BH : Bin HybridOnionLayer} {BE : Bin OnionEnvelope} {BV : Bin bytes}.

(** How [bincode] writes a vector of bytes, and that the first byte of an envelope is its
    version. *)
Class WireFormat : Prop := {
  vec_format : forall l, ser (A := bytes) l = Some (le_split 8 (zlen l) ++ l);
  envelope_format : forall v l e rest, de (A := OnionEnvelope) (v :: l) = Some (e, rest) -> version e = byte.unsigned v;
}.
Context {WF : WireFormat}.

Lemma le_split_head z : 0 <= z -> exists v l, le_split 8 z = v :: l /\ byte.unsigned v = z mod 256.
Proof.
  intros Hz. cbn [le_split]. eexists _, _. split; [done|]. apply byte.unsigned_of_Z.
Qed.

(** A peeled layer cannot be peeled again.  The façade returns what was inside a layer
    as a vector with its length in front, for the destination as well, and not as an
    envelope: the version that the next node reads is the lowest byte of the length, so
    that unless this happens to be a version the next call fails. *)
Theorem facade_chain_broken data secret pr : peel_onion_layer true data secret = Ok pr ->
  exists layers, remaining_data pr = le_split 8 (zlen layers) ++ layers /\
    (zlen layers mod 256 <> 1 -> zlen layers mod 256 <> 2 ->
     forall secret', exists e, peel_onion_layer true (remaining_data pr) secret' = Err e).
Proof.
  unfold peel_onion_layer at 1. cbn [negb]. destruct (zlen secret =? 32); [|done]. cbn [negb].
  intros ([env rest] & _ & H)%rbind_ok_inv. apply rbind_ok_inv in H as ([hop layers] & _ & H). injection H as <-.
  exists layers. cbn [remaining_data]. rewrite vec_format. cbn [from_option]. split; [done|]. intros H1 H2 secret'.
  unfold peel_onion_layer. cbn [negb]. destruct (zlen secret' =? 32); [|by eexists]. cbn [negb].
  destruct (le_split_head (zlen layers) (zlen_nonneg layers)) as (v & l & -> & Hv). change (id ?x) with x. cbn [app].
  destruct (de (v :: l ++ layers)) as [[e rest']|] eqn:He; cbn [ok_or rbind]; [|by eexists].
  apply envelope_format in He. unfold peel_layer. rewrite He, Hv.
  rewrite (proj2 (Z.eqb_neq _ 1) H1), (proj2 (Z.eqb_neq _ 2) H2). by eexists.
Qed.

End FacadeLaws.

(** ** Concrete runs *)

Module OnionExamples.
Import Sample.

(** Every byte with a mark in front, and another mark at the end. *)
Fixpoint mark (l : bytes) : bytes := match l with [] => [Byte.x00] | a :: l => Byte.x01 :: a :: mark l end.

Fixpoint unmark (l : bytes) : option (bytes * bytes) :=
  match l with
  | Byte.x00 :: l => Some ([], l)
  | Byte.x01 :: a :: l => match unmark l with Some (x, r) => Some (a :: x, r) | None => None end
  | _ => None
  end.

Lemma unmark_mark l rest : unmark (mark l ++ rest) = Some (l, rest).
Proof. induction l as [|a l IH]; [done|]. cbn. by rewrite IH. Qed.

Definition any_bin {A} `{Countable A} : Bin A := {|
  ser a := Some (mark (enc_any a));
  de l := match unmark l with
    | Some (x, rest) => match dec_any x with Ok a => Some (a, rest) | _ => None end
    | None => None
    end;
|}.

Lemma any_bin_lawful {A} `{Countable A} : LawfulBin A (BA := any_bin).
Proof. intros a l rest [= <-]. cbn [de any_bin]. by rewrite unmark_mark, dec_enc_any. Qed.

#[local] Instance key_eq_dec : EqDecision Key32.
Proof. solve_decision. Defined.
#[local] Instance key_countable : Countable Key32.
Proof. refine (inj_countable' key_bytes mkKey _). by intros []. Defined.

#[local] Instance bundle_eq_dec : EqDecision PublicKeyBundle.
Proof. solve_decision. Defined.
#[local] Instance bundle_countable : Countable PublicKeyBundle.
Proof.
  refine (inj_countable' (fun b => (pb_ed25519_public b, pb_x25519_public b, pb_mlkem_encaps_key b, pb_mldsa_public b,
      (pb_created_at b, pb_supported_suites b, pb_signature b, pb_mldsa_signature b)))
    (fun '(a, b, c, d, (e, f, g, h)) => mkBundle a b c d e f g h) _). by intros [].
Defined.

(** A classical layer as its three fields. *)
#[local] Instance bin_classical : Bin ClassicalOnionLayer := {|
  ser c := Some (mark (ephemeral_pk c) ++ mark (encrypted_routing_info c) ++ mark (encrypted_payload c));
  de l := match unmark l with
    | Some (a, l) => match unmark l with
      | Some (b, l) => match unmark l with Some (c, l) => Some (mkClassical a b c, l) | None => None end
      | None => None end
    | None => None end;
|}.

#[local] Instance law_classical : LawfulBin ClassicalOnionLayer.
Proof. intros [a b c] l rest [= <-]. cbn [de bin_classical]. by rewrite <-!app_assoc, !unmark_mark. Qed.

#[local] Instance ct_eq_dec : EqDecision HybridCiphertext.
Proof. solve_decision. Defined.
#[local] Instance hybrid_eq_dec : EqDecision HybridOnionLayer.
Proof. solve_decision. Defined.
#[local] Instance hybrid_countable : Countable HybridOnionLayer.
Proof.
  refine (inj_countable' (fun h => (x25519_ephemeral_public (hybrid_ct h), mlkem_ciphertext (hybrid_ct h), is_destination h, hl_payload h))
    (fun '(a, b, c, d) => mkHybrid (mkHct a b) c d) _). by intros [[]].
Defined.

#[local] Instance bin_bool : Bin bool := any_bin.
#[local] Instance bin_key : Bin Key32 := any_bin.
#[local] Instance bin_bundle : Bin PublicKeyBundle := any_bin.
#[local] Instance bin_hybrid : Bin HybridOnionLayer := any_bin.
#[local] Instance law_bool : LawfulBin bool := any_bin_lawful.
#[local] Instance law_key : LawfulBin Key32 := any_bin_lawful.
#[local] Instance law_bundle : LawfulBin PublicKeyBundle := any_bin_lawful.
#[local] Instance law_hybrid : LawfulBin HybridOnionLayer := any_bin_lawful.

#[local] Instance ex_onion : OnionLaws.
Proof.
  split.
  - intros b l Hl. change (Some (mark (enc_any b)) = Some l) in Hl. injection Hl as <-. by destruct (enc_any b).
  - intros k n a p c Hc. assert (c = digest 16 (k ++ n ++ a ++ p) ++ p) as -> by (cbn in Hc; congruence).
    intros H%(f_equal length). rewrite length_app, length_digest in H. discriminate H.
Qed.

#[local] Instance ex_total : TotalOnion.
Proof. split; intros; by eexists. Qed.

Definition relay_secret : bytes := replicate 32 Byte.x11.
Definition seed : bytes := replicate 64 Byte.x22.
Definition dest_secret : bytes := replicate 32 Byte.x33.

Definition relay : HopAddress :=
  Hybrid (mkBundle [] (x25519_public relay_secret) (pub_key (generate seed)) None 0 [] [] None).
Definition destination : HopAddress := Classical (x25519_public dest_secret).

Definition route : list (HopAddress * Draw) :=
  [(relay, mkDraw (replicate 32 Byte.x01) (replicate 32 Byte.x02)); (destination, mkDraw (replicate 32 Byte.x03) [])].

Definition nodes : list (bytes * option MlKem768KeyPair) := [(relay_secret, Some (generate seed)); (dest_secret, None)].

Lemma onion_delivers_witness :
  exists r, construct_onion route (str_bytes "hello") false = Ok r /\
    travel (envelope r) nodes = Ok (tail route.*1, str_bytes "hello") /\ total_hops r = zlen route.
Proof.
  apply (onion_delivers route nodes (str_bytes "hello")); [discriminate|vm_compute; discriminate| |].
  - repeat constructor.
  - repeat constructor. exists seed. split_and!; reflexivity.
Defined.

Definition layer0 : bytes :=
  match relay_layer (mkDraw (replicate 32 Byte.x01) []) destination destination (str_bytes "inner") with Ok l => l | _ => [] end.

Lemma onion_end_unauthenticated_witness :
  exists l' data, mark_final destination layer0 = Some l' /\
    peel_layer (envelope_for destination l') dest_secret None = Ok (None, data) /\ exists front, data = front ++ str_bytes "inner".
Proof.
  apply (onion_end_unauthenticated (mkDraw (replicate 32 Byte.x01) []) destination destination dest_secret None (str_bytes "inner") layer0);
    [reflexivity|vm_compute; reflexivity].
Defined.

#[local] Instance bin_envelope : Bin OnionEnvelope := {|
  ser e := Some (byte.of_Z (version e) :: layer_data e);
  de l := match l with v :: l => Some (mkOnion (byte.unsigned v) l [], []) | [] => None end;
|}.
#[local] Instance bin_vec : Bin bytes := {| ser l := Some (le_split 8 (zlen l) ++ l); de l := None |}.
#[local] Instance ex_format : WireFormat.
Proof. split; [done|]. intros v l e rest. cbn. by intros [= <- <-]. Qed.

Definition peeled0 : PeelResult :=
  match peel_onion_layer true (Byte.x01 :: layer0) dest_secret with Ok p => p | _ => mkPeel None [] end.

Lemma facade_chain_broken_witness :
  exists layers, remaining_data peeled0 = le_split 8 (zlen layers) ++ layers /\
    (zlen layers mod 256 <> 1 -> zlen layers mod 256 <> 2 ->
     forall secret', exists e, peel_onion_layer true (remaining_data peeled0) secret' = Err e).
Proof. apply (facade_chain_broken (Byte.x01 :: layer0) dest_secret peeled0). vm_compute. reflexivity. Defined.

Example second_peel : is_ok (peel_onion_layer true (remaining_data peeled0) dest_secret) = false.
Proof. vm_compute. reflexivity. Qed.

End OnionExamples.
