(* ===== verification/Floats.v ===== *)
(** * Floating point

    The [f64] arithmetic that the source uses, on the standard library's IEEE 754
    [spec_float]: rounding to nearest, ties to even, with 53 bits of precision.  [SFcompare]
    is [partial_cmp].  [ln], [exp], [powf] and [powi] have no specified rounding in Rust:
    code that calls one of them takes it as an argument. *)

From Stdlib Require Import SpecFloat.
From S2P Require Import Prelude.

#[global] Instance spec_float_eq_dec : EqDecision spec_float.
Proof. solve_decision. Defined.

Notation f64 := spec_float (only parsing).

Definition f64_add : f64 -> f64 -> f64 := SFadd 53 1024.
Definition f64_sub : f64 -> f64 -> f64 := SFsub 53 1024.
Definition f64_mul : f64 -> f64 -> f64 := SFmul 53 1024.
Definition f64_div : f64 -> f64 -> f64 := SFdiv 53 1024.

(** [z as f64] for an integer. *)
Definition f64_of (z : Z) : f64 := binary_normalize 53 1024 z 0 false.

(** The literal [n/d]: for integers below [2^53] the quotient is correctly rounded, as a
    decimal literal is. *)
Definition lit (n d : Z) : f64 := f64_div (f64_of n) (f64_of d).

Definition is_nan (x : f64) : bool := bool_decide (x = S754_nan).

(** [f64::max] and [f64::min]: an operand that is not a number is ignored. *)
Definition f64_max (x y : f64) : f64 :=
  if is_nan x then y else if is_nan y then x else if SFltb x y then y else x.
Definition f64_min (x y : f64) : f64 :=
  if is_nan x then y else if is_nan y then x else if SFltb y x then y else x.

(** [clamp] for bounds that are ordered. *)
Definition clamp (lo hi x : f64) : f64 := if SFltb x lo then lo else if SFltb hi x then hi else x.

(** [x as uN]: truncates, saturates, and maps a NaN to zero. *)
Definition f64_to_u (w : Z) (x : f64) : Z :=
  match x with
  | S754_nan | S754_zero _ | S754_infinity true | S754_finite true _ _ => 0
  | S754_infinity false => 2 ^ w - 1
  | S754_finite false m e => Z.min (if 0 <=? e then Z.pos m * 2 ^ e else Z.pos m / 2 ^ (- e)) (2 ^ w - 1)
  end.

(** [ceil] and [round] (half away from zero); the results are integers and exact. *)
Definition f64_integral (up : Z -> Z -> Z) (x : f64) : f64 :=
  match x with
  | S754_finite s m e =>
      if 0 <=? e then x
      else match up (Z.pos m) (2 ^ (- e)) with
           | Z0 => S754_zero s
           | n => if s then SFopp (f64_of n) else f64_of n
           end
  | _ => x
  end.

Definition f64_ceil (x : f64) : f64 :=
  f64_integral (fun m d => match x with S754_finite true _ _ => m / d | _ => (m + d - 1) / d end) x.
Definition f64_round (x : f64) : f64 := f64_integral (fun m d => (2 * m + d) / (2 * d)) x.

Definition f64_zero : f64 := S754_zero false.
Definition f64_one : f64 := f64_of 1.

(** ** Order *)

(** Floats other than NaN, as a key that is ordered lexicographically. *)
Definition f64_key (x : f64) : Z * Z * Z :=
  match x with
  | S754_nan | S754_zero _ => (0, 0, 0)
  | S754_infinity s => (if s then -2 else 2, 0, 0)
  | S754_finite s m e => if s then (-1, - e, Z.neg m) else (1, e, Z.pos m)
  end.

Definition key_cmp (a b : Z * Z * Z) : comparison :=
  match a.1.1 ?= b.1.1 with
  | Eq => match a.1.2 ?= b.1.2 with Eq => a.2 ?= b.2 | c => c end
  | c => c
  end.

Lemma SFcompare_key x y :
  is_nan x = false -> is_nan y = false -> SFcompare x y = Some (key_cmp (f64_key x) (f64_key y)).
Proof.
  unfold is_nan. intros Hx Hy. apply bool_decide_eq_false in Hx, Hy.
  destruct x as [sx|sx| |sx mx ex], y as [sy|sy| |sy my ey]; try done;
    try destruct sx; try destruct sy; try done; cbn -[Z.compare]; unfold key_cmp; cbn -[Z.compare]; f_equal.
  replace (- ex ?= - ey) with (CompOpp (ex ?= ey)) by (by rewrite <-Z.compare_antisym, Z.compare_opp).
  by destruct (ex ?= ey).
Qed.

Lemma key_cmp_Lt a b :
  key_cmp a b = Lt <-> a.1.1 < b.1.1 \/ a.1.1 = b.1.1 /\ (a.1.2 < b.1.2 \/ a.1.2 = b.1.2 /\ a.2 < b.2).
Proof.
  unfold key_cmp. destruct (Z.compare_spec a.1.1 b.1.1), (Z.compare_spec a.1.2 b.1.2), (Z.compare_spec a.2 b.2);
    split; intros; try done; try lia; tauto || (exfalso; lia).
Qed.

Lemma key_cmp_Eq a b : key_cmp a b = Eq <-> a = b.
Proof.
  destruct a as [[a1 a2] a3], b as [[b1 b2] b3]. unfold key_cmp. cbn -[Z.compare].
  destruct (Z.compare_spec a1 b1), (Z.compare_spec a2 b2), (Z.compare_spec a3 b3);
    split; intros Heq; subst; try done; injection Heq; lia.
Qed.

Lemma key_cmp_antisym a b : key_cmp b a = CompOpp (key_cmp a b).
Proof.
  unfold key_cmp. rewrite (Z.compare_antisym b.1.1), (Z.compare_antisym b.1.2), (Z.compare_antisym b.2).
  by destruct (b.1.1 ?= a.1.1), (b.1.2 ?= a.1.2), (b.2 ?= a.2).
Qed.

(** The order of the keys: at most. *)
Definition f64_le (x y : f64) : Prop := key_cmp (f64_key x) (f64_key y) <> Gt.

#[global] Instance f64_le_dec : RelDecision f64_le.
Proof. intros x y. unfold f64_le. apply _. Defined.

Lemma f64_le_iff x y : f64_le x y <-> key_cmp (f64_key x) (f64_key y) = Lt \/ f64_key x = f64_key y.
Proof. unfold f64_le. rewrite <-key_cmp_Eq. destruct (key_cmp _ _); naive_solver. Qed.

#[global] Instance f64_le_refl : Reflexive f64_le.
Proof. intros x. apply f64_le_iff. by right. Qed.

#[global] Instance f64_le_trans : Transitive f64_le.
Proof.
  intros x y z. rewrite !f64_le_iff, !key_cmp_Lt. intros [?|Hxy] [?|Hyz].
  - left. lia.
  - rewrite <-Hyz. tauto.
  - rewrite Hxy. tauto.
  - right. by rewrite Hxy.
Qed.

#[global] Instance f64_le_total : Total f64_le.
Proof. intros x y. unfold f64_le. rewrite (key_cmp_antisym (f64_key x) (f64_key y)). destruct (key_cmp _ _); cbn; auto. Qed.

Lemma SFltb_spec x y : is_nan x = false -> is_nan y = false -> SFltb x y = negb (bool_decide (f64_le y x)).
Proof.
  intros Hx Hy. unfold SFltb. rewrite SFcompare_key by done.
  case_bool_decide as Hb; unfold f64_le in Hb; rewrite (key_cmp_antisym (f64_key x) (f64_key y)) in Hb;
    destruct (key_cmp (f64_key x) (f64_key y)); naive_solver.
Qed.

Lemma SFleb_spec x y : is_nan x = false -> is_nan y = false -> SFleb x y = bool_decide (f64_le x y).
Proof.
  intros Hx Hy. unfold SFleb. rewrite SFcompare_key by done.
  case_bool_decide as Hb; unfold f64_le in Hb; destruct (key_cmp _ _); naive_solver.
Qed.

Lemma clamp_range lo hi x :
  is_nan lo = false -> is_nan hi = false -> is_nan x = false -> f64_le lo hi ->
  is_nan (clamp lo hi x) = false /\ f64_le lo (clamp lo hi x) /\ f64_le (clamp lo hi x) hi.
Proof.
  intros Hl Hh Hx Hle. unfold clamp. rewrite !SFltb_spec by done.
  do 2 case_bool_decide; cbn; split_and!; done || reflexivity.
Qed.

(** ** Results that are numbers *)

Lemma shr_1_nonneg r : 0 <= shr_m r -> 0 <= shr_m (shr_1 r).
Proof. destruct r as [m r s]. cbn. destruct m as [|[p|p|]|[p|p|]]; cbn; lia. Qed.

Lemma iter_pos_inv {A} (P : A -> Prop) f n x : (forall x, P x -> P (f x)) -> P x -> P (SpecFloat.iter_pos f n x).
Proof. intros Hf. revert x. induction n as [n IH|n IH|]; intros x Hx; cbn; auto. Qed.

Lemma shr_fexp_nonneg prec emax m e l : 0 <= m -> 0 <= shr_m (shr_fexp prec emax m e l).1.
Proof.
  intros Hm. unfold shr_fexp, shr. assert (0 <= shr_m (shr_record_of_loc m l)) by (by destruct l as [|[]]).
  destruct (_ - e); cbn; try done. apply (iter_pos_inv (fun r => 0 <= shr_m r)); [apply shr_1_nonneg|done].
Qed.

Lemma round_aux_number prec emax s m e l : 0 <= m -> is_nan (binary_round_aux prec emax s m e l) = false.
Proof.
  intros Hm. unfold binary_round_aux. pose proof (shr_fexp_nonneg prec emax m e l Hm) as H1.
  destruct (shr_fexp prec emax m e l) as [r1 e1]. cbn in H1.
  set (m1 := round_nearest_even _ _).
  assert (0 <= m1) as Hm1.
  { unfold m1, round_nearest_even. destruct (loc_of_shr_record r1) as [|[]]; try case_if; lia. }
  pose proof (shr_fexp_nonneg prec emax m1 e1 loc_Exact Hm1) as H2.
  destruct (shr_fexp prec emax m1 e1 loc_Exact) as [r2 e2]. cbn in H2.
  destruct (shr_m r2); [done| |lia]. by destruct (e2 <=? _).
Qed.

Lemma normalize_number prec emax m e s : is_nan (binary_normalize prec emax m e s) = false.
Proof.
  destruct m as [|m|m]; [done|cbn; unfold binary_round..]; destruct (shl_align _ _ _); by apply round_aux_number.
Qed.

Definition finite (x : f64) : bool := match x with S754_zero _ | S754_finite _ _ _ => true | _ => false end.

Lemma f64_add_number x y : finite x = true -> finite y = true -> is_nan (f64_add x y) = false.
Proof.
  destruct x as [[]|?| |?], y as [[]|?| |?]; intros; try done; try apply normalize_number.
Qed.

Lemma f64_le_finite lo hi x : finite lo = true -> finite hi = true -> is_nan x = false -> f64_le lo x -> f64_le x hi -> finite x = true.
Proof.
  rewrite !f64_le_iff, !key_cmp_Lt. destruct x as [[]|[]| |?]; try done;
    destruct lo as [?|?| |[] ? ?], hi as [?|?| |[] ? ?]; cbn; intros; try done; exfalso; naive_solver lia.
Qed.

Lemma SFdiv_core_nonneg m1 e1 m2 e2 : 0 <= (SFdiv_core_binary 53 1024 (Z.pos m1) e1 (Z.pos m2) e2).1.1.
Proof.
  unfold SFdiv_core_binary. set (m' := match _ with Z0 => _ | _ => _ end).
  assert (0 <= m') as Hm. { unfold m'. destruct (_ - _); [lia| |lia]. apply Z.shiftl_nonneg. lia. }
  pose proof (Z_div_pos m' (Z.pos m2) eq_refl Hm) as Hq. unfold Z.div in Hq. by destruct (Z.div_eucl m' (Z.pos m2)).
Qed.

Lemma f64_div_number x y :
  finite x = true -> is_nan y = false -> (forall s, y <> S754_zero s) -> is_nan (f64_div x y) = false.
Proof.
  intros Hx Hy Hz. destruct x as [sx|?| |sx mx ex]; [|done..|]; destruct y as [sy|sy| |sy my ey]; try done;
    [by destruct (Hz sy)..|].
  unfold f64_div, SFdiv. pose proof (SFdiv_core_nonneg mx ex my ey) as H.
  destruct (SFdiv_core_binary _ _ _ _ _ _) as [[q e] l]. by apply round_aux_number.
Qed.

(** A number and a finite one. *)
Lemma f64_add_number_r x y : is_nan x = false -> finite y = true -> is_nan (f64_add x y) = false.
Proof. destruct x as [[]|[]| |?], y as [[]|?| |?]; intros; try done; try apply normalize_number. Qed.

Lemma f64_add_number_l x y : finite x = true -> is_nan y = false -> is_nan (f64_add x y) = false.
Proof. destruct x as [[]|?| |?], y as [[]|[]| |?]; intros; try done; try apply normalize_number. Qed.

Lemma f64_sub_number_r x y : is_nan x = false -> finite y = true -> is_nan (f64_sub x y) = false.
Proof. destruct x as [[]|[]| |?], y as [[]|?| |?]; intros; try done; try apply normalize_number. Qed.

Lemma f64_mul_number_r x y :
  is_nan x = false -> finite y = true -> (forall s, y <> S754_zero s) -> is_nan (f64_mul x y) = false.
Proof.
  intros Hx Hy Hz. destruct y as [s|?| |sy my ey]; try done; [by destruct (Hz s)|].
  destruct x as [?|?| |sx mx ex]; try done. apply round_aux_number. lia.
Qed.

(** ** Integers are exact *)

Lemma digits2_bounds p : 2 ^ (Z.pos (digits2_pos p) - 1) <= Z.pos p < 2 ^ Z.pos (digits2_pos p).
Proof.
  induction p as [p IH|p IH|]; cbn [digits2_pos]; [..|lia];
    rewrite Pos2Z.inj_succ; replace (Z.succ (Z.pos (digits2_pos p)) - 1) with (Z.succ (Z.pos (digits2_pos p) - 1)) by lia;
    rewrite !Z.pow_succ_r by lia; lia.
Qed.

Lemma digits2_iter p k : digits2_pos (Pos.iter xO p k) = (digits2_pos p + k)%positive.
Proof. induction k as [|k IH] using Pos.peano_ind; [cbn; lia|]. rewrite Pos.iter_succ. cbn [digits2_pos]. rewrite IH. lia. Qed.

Lemma iter_xO p k : Z.pos (Pos.iter xO p k) = Z.pos p * 2 ^ Z.pos k.
Proof.
  induction k as [|k IH] using Pos.peano_ind; [cbn; lia|]. rewrite Pos.iter_succ, Pos2Z.inj_xO, IH, Pos2Z.inj_succ, Z.pow_succ_r by lia.
  lia.
Qed.

(** A mantissa of 53 digits is not rounded. *)
Lemma round_aux_exact s m e :
  Z.pos (digits2_pos m) = 53 -> -1074 <= e <= 971 -> binary_round_aux 53 1024 s (Z.pos m) e loc_Exact = S754_finite s m e.
Proof.
  intros Hd He. unfold binary_round_aux, shr_fexp. cbn [Zdigits2]. rewrite Hd.
  assert (fexp 53 1024 (53 + e) - e = 0) as Hf by (unfold fexp, emin; lia).
  rewrite Hf. cbn [shr shr_record_of_loc loc_of_shr_record round_nearest_even shr_m Zdigits2].
  rewrite Hd, Hf. cbn [shr shr_m]. by rewrite (proj2 (Z.leb_le e (1024 - 53))) by lia.
Qed.

Lemma f64_of_exact n :
  0 < n < 2 ^ 53 ->
  exists m k, f64_of n = S754_finite false m (- k) /\ 0 <= k <= 52 /\ Z.pos m = n * 2 ^ k /\ 2 ^ 52 <= Z.pos m.
Proof.
  intros Hn. destruct n as [|p|p]; [lia| |lia]. unfold f64_of, binary_normalize, binary_round. rewrite Z.add_0_r.
  pose proof (digits2_bounds p) as [Hlo Hhi]. set (d := Z.pos (digits2_pos p)) in *.
  assert (d <= 53) as Hd53.
  { destruct (Z.le_gt_cases d 53) as [|Hgt]; [done|]. assert (2 ^ 53 <= 2 ^ (d - 1)) by (apply Z.pow_le_mono_r; lia). lia. }
  assert (fexp 53 1024 d = d - 53) as -> by (unfold fexp, emin; lia). unfold shl_align. rewrite Z.sub_0_r.
  destruct (d - 53) as [|q|q] eqn:Hq; [|lia|].
  - exists p, 0. rewrite round_aux_exact by (fold d; lia). replace (d - 1) with 52 in Hlo by lia. split_and!; [done|lia..].
  - exists (Pos.iter xO p q), (Z.pos q). rewrite round_aux_exact; [|rewrite digits2_iter, Pos2Z.inj_add; fold d; lia|lia].
    rewrite iter_xO. split_and!; [done|lia..|]. replace 52 with ((d - 1) + Z.pos q) by lia.
    rewrite Z.pow_add_r by lia. nia.
Qed.

Lemma f64_of_finite n : 0 <= n < 2 ^ 53 -> finite (f64_of n) = true.
Proof.
  intros Hn. destruct (decide (n = 0)) as [ -> |]; [done|]. destruct (f64_of_exact n) as (m & k & -> & _); [lia|done].
Qed.

Lemma f64_of_nonzero n s : 0 < n < 2 ^ 53 -> f64_of n <> S754_zero s.
Proof. intros Hn. by destruct (f64_of_exact n) as (m & k & -> & _). Qed.

Lemma f64_of_number n : is_nan (f64_of n) = false.
Proof. apply normalize_number. Qed.

(** Casting an integer to a float and back. *)
Lemma f64_to_u_of w n : 0 <= n < 2 ^ 53 -> 53 <= w -> f64_to_u w (f64_of n) = n.
Proof.
  intros Hn Hw. destruct (decide (n = 0)) as [ -> |]; [done|]. destruct (f64_of_exact n) as (m & k & -> & Hk & Hm & _); [lia|].
  assert (2 ^ 53 <= 2 ^ w) by (apply Z.pow_le_mono_r; lia).
  cbn [f64_to_u]. rewrite Z.opp_involutive, Hm. destruct (Z.leb_spec 0 (- k)).
  - replace k with 0 by lia. rewrite !Z.pow_0_r. lia.
  - rewrite Z.div_mul by (apply Z.pow_nonzero; lia). lia.
Qed.

(** ** Results have at most 53 digits *)

Definition short (x : f64) : Prop := match x with S754_finite _ m _ => Z.pos m < 2 ^ 53 | _ => True end.

Lemma shr_1_div2 r : 0 <= shr_m r -> shr_m (shr_1 r) = shr_m r / 2.
Proof.
  destruct r as [[|[p|p|]|p] r s]; cbn [shr_m shr_1]; intros; try done; try lia.
  - apply Z.div_unique with 1; lia.
  - apply Z.div_unique with 0; lia.
Qed.

Lemma iter_shr p r : 0 <= shr_m r -> shr_m (SpecFloat.iter_pos shr_1 p r) = shr_m r / 2 ^ Z.pos p.
Proof.
  revert r. induction p as [p IH|p IH|]; intros r Hr; cbn [SpecFloat.iter_pos].
  - pose proof (shr_1_nonneg r Hr) as H1.
    assert (0 <= shr_m (SpecFloat.iter_pos shr_1 p (shr_1 r))) as H2 by (rewrite IH by done; by apply Z.div_pos; lia).
    rewrite !IH, shr_1_div2 by done. rewrite (Pos2Z.inj_xI p), Z.pow_add_r, Z.pow_twice_r, Z.pow_1_r, !Z.div_div by lia.
    f_equal. lia.
  - assert (0 <= shr_m (SpecFloat.iter_pos shr_1 p r)) as H2 by (rewrite IH by done; by apply Z.div_pos; lia).
    rewrite !IH by done. by rewrite (Pos2Z.inj_xO p), Z.pow_twice_r, Z.div_div by lia.
  - rewrite shr_1_div2 by done. done.
Qed.

Lemma shr_fexp_short m e l : 0 <= m -> shr_m (shr_fexp 53 1024 m e l).1 < 2 ^ 53.
Proof.
  intros Hm. unfold shr_fexp, shr. assert (shr_m (shr_record_of_loc m l) = m) as Hml by (by destruct l as [|[]]).
  assert (m < 2 ^ Zdigits2 m) as Hd.
  { destruct m as [|p|p]; [done| |lia]. cbn [Zdigits2]. apply digits2_bounds. }
  assert (Zdigits2 m - 53 <= fexp 53 1024 (Zdigits2 m + e) - e) as Hf by (unfold fexp; lia).
  destruct (_ - e) as [|p|p] eqn:Hs; cbn [fst].
  - rewrite Hml. eapply Z.lt_le_trans; [exact Hd|]. apply Z.pow_le_mono_r; lia.
  - rewrite iter_shr by lia. rewrite Hml. apply Z.div_lt_upper_bound; [lia|]. rewrite <-Z.pow_add_r by lia.
    eapply Z.lt_le_trans; [exact Hd|]. apply Z.pow_le_mono_r; lia.
  - rewrite Hml. eapply Z.lt_le_trans; [exact Hd|]. apply Z.pow_le_mono_r; lia.
Qed.

Lemma round_aux_short s m e l : 0 <= m -> short (binary_round_aux 53 1024 s m e l).
Proof.
  intros Hm. unfold binary_round_aux. pose proof (shr_fexp_nonneg 53 1024 m e l Hm) as H1.
  destruct (shr_fexp 53 1024 m e l) as [r1 e1]. cbn in H1. set (m1 := round_nearest_even _ _).
  assert (0 <= m1) as Hm1.
  { unfold m1, round_nearest_even. destruct (loc_of_shr_record r1) as [|[]]; try case_if; lia. }
  pose proof (shr_fexp_short m1 e1 loc_Exact Hm1) as H2. destruct (shr_fexp 53 1024 m1 e1 loc_Exact) as [r2 e2]. cbn in H2.
  destruct (shr_m r2); [done| |done]. destruct (e2 <=? _); [cbn; lia|done].
Qed.

Lemma f64_mul_short x y : short (f64_mul x y).
Proof. destruct x, y; try done; cbn [f64_mul SFmul]. apply round_aux_short. lia. Qed.

(** Truncation of a float that is at most an integer. *)
Lemma f64_to_u_le w x n : short x -> is_nan x = false -> 0 <= n < 2 ^ 53 -> f64_le x (f64_of n) -> f64_to_u w x <= n.
Proof.
  intros Hs Hx Hn. rewrite f64_le_iff, key_cmp_Lt. destruct (decide (n = 0)) as [ -> |].
  { destruct x as [?|[]| |[] m e]; cbn; intros Hle; try done; try lia; exfalso; naive_solver lia. }
  destruct (f64_of_exact n) as (m0 & k & -> & Hk & Hm0 & H52); [lia|].
  destruct x as [?|[]| |[] m e]; cbn [f64_to_u f64_key]; cbn [fst snd]; intros Hle; try done; try lia.
  { exfalso. naive_solver lia. }
  cbn in Hs. apply Z.le_trans with (if 0 <=? e then Z.pos m * 2 ^ e else Z.pos m / 2 ^ (- e)); [lia|].
  assert (e < - k \/ e = - k /\ Z.pos m <= Z.pos m0) as Hcase.
  { destruct Hle as [Hle|Heq]; [lia|]. simplify_eq. lia. }
  destruct (Z.leb_spec 0 e).
  - assert (e = 0 /\ k = 0) as [-> ->] by lia. rewrite Z.pow_0_r in *. lia.
  - apply Z.div_le_upper_bound; [apply Z.pow_pos_nonneg; lia|]. destruct Hcase as [He|[-> Hm]].
    + assert (2 ^ (k + 1) <= 2 ^ (- e)) as Hp by (apply Z.pow_le_mono_r; lia). rewrite Z.pow_add_r, Z.pow_1_r in Hp by lia. nia.
    + rewrite Z.opp_involutive. lia.
Qed.

(** ** Least elements *)

Definition f64_le_by {A} (f : A -> f64) (a b : A) : Prop := f64_le (f a) (f b).

#[global] Instance f64_le_by_refl {A} (f : A -> f64) : Reflexive (f64_le_by f).
Proof. intros a. unfold f64_le_by. reflexivity. Qed.
#[global] Instance f64_le_by_trans {A} (f : A -> f64) : Transitive (f64_le_by f).
Proof. intros a b c. apply f64_le_trans. Qed.

Lemma min_by_minimum {A} (cmp : A -> A -> comparison) (R : A -> A -> Prop) `{!Reflexive R, !Transitive R} l m :
  (forall a b, a ∈ l -> b ∈ l -> (cmp a b = Gt -> R b a) /\ (cmp a b <> Gt -> R a b)) ->
  min_by cmp l = Some m -> m ∈ l /\ Forall (R m) l.
Proof.
  intros Hc Hm. split; [by eapply min_by_Some|]. destruct l as [|x l]; [done|]. cbn in Hm. injection Hm as <-.
  revert x Hc. induction l as [|y l IH]; intros x Hc; cbn; [by repeat constructor|].
  destruct (Hc x y) as [Hgt Hle]; [set_solver..|].
  assert (cmp x y = Gt \/ cmp x y <> Gt) as [Hg|Hg] by (destruct (cmp x y); auto).
  - rewrite Hg. specialize (Hgt Hg). pose proof (IH y ltac:(set_solver)) as Hall. apply Forall_cons in Hall as [Hy Hl].
    repeat constructor; try done. by etrans.
  - specialize (Hle Hg). replace (match cmp x y with Gt => y | _ => x end) with x by (by destruct (cmp x y)).
    pose proof (IH x ltac:(set_solver)) as Hall. apply Forall_cons in Hall as [Hx Hl].
    repeat constructor; try done. by etrans.
Qed.

(** [partial_cmp(..).unwrap_or(Equal)] on numbers. *)
Lemma cmp_or_equal_spec x y :
  is_nan x = false -> is_nan y = false ->
  (default Eq (SFcompare x y) = Gt -> f64_le y x) /\ (default Eq (SFcompare x y) <> Gt -> f64_le x y).
Proof.
  intros Hx Hy. rewrite SFcompare_key by done. cbn. unfold f64_le. split; [|done].
  intros Hgt. by rewrite key_cmp_antisym, Hgt.
Qed.

(** ** Magnitudes

    [mag k x]: a finite float below [2 ^ k]; sums and products of such floats are finite. *)

Definition mag (k : Z) (x : f64) : Prop :=
  match x with
  | S754_zero _ => True
  | S754_finite _ m e => -1074 <= e <= k /\ Z.pos m < 2 ^ (k - e)
  | _ => False
  end.

Lemma mag_finite k x : mag k x -> finite x = true.
Proof. by destruct x. Qed.

Lemma mag_weaken k k' x : k <= k' -> mag k x -> mag k' x.
Proof.
  intros Hk. destruct x as [| | |s m e]; cbn; try done. intros [He Hm]. split; [lia|]. eapply Z.lt_le_trans; [exact Hm|].
  apply Z.pow_le_mono_r; lia.
Qed.

Lemma Zdigits2_le m j : 0 <= m < 2 ^ j -> 0 <= j -> Zdigits2 m <= j.
Proof.
  intros Hm Hj. destruct m as [|p|p]; [done| |lia]. cbn [Zdigits2]. pose proof (digits2_bounds p) as [Hlo _].
  destruct (Z.le_gt_cases (Z.pos (digits2_pos p)) j) as [|Hgt]; [done|].
  assert (2 ^ j <= 2 ^ (Z.pos (digits2_pos p) - 1)) by (apply Z.pow_le_mono_r; lia). lia.
Qed.

Lemma shr_fexp_mag m e l k :
  0 <= m < 2 ^ (k - e) -> e <= k -> -1074 <= k ->
  let '(r, e') := shr_fexp 53 1024 m e l in -1074 <= e' <= k /\ e <= e' /\ 0 <= shr_m r < 2 ^ (k - e').
Proof.
  intros Hm He Hk. pose proof (Zdigits2_le m (k - e) Hm ltac:(lia)) as Hd. unfold shr_fexp, shr.
  assert (shr_m (shr_record_of_loc m l) = m) as Hml by (by destruct l as [|[]]).
  assert (-1074 <= fexp 53 1024 (Zdigits2 m + e) <= k) as Hf by (unfold fexp, emin; lia).
  destruct (fexp 53 1024 (Zdigits2 m + e) - e) as [|p|p] eqn:Hs; [rewrite Hml; lia| |rewrite Hml; split_and!; lia].
  rewrite iter_shr, Hml by lia. split_and!; [lia..|apply Z.div_pos; lia|]. apply Z.div_lt_upper_bound; [lia|].
  rewrite <-Z.pow_add_r by lia. replace (Z.pos p + (k - (e + Z.pos p))) with (k - e) by lia. lia.
Qed.

Lemma round_aux_mag s m e l k :
  0 <= m < 2 ^ (k - e) -> e <= k -> -1074 <= k <= 960 -> mag (k + 1) (binary_round_aux 53 1024 s m e l).
Proof.
  intros Hm He Hk. unfold binary_round_aux. pose proof (shr_fexp_mag m e l k Hm He ltac:(lia)) as H1.
  destruct (shr_fexp 53 1024 m e l) as [r1 e1]. destruct H1 as (He1 & _ & Hr1). set (m1 := round_nearest_even _ _).
  assert (0 <= m1 <= 2 ^ (k - e1)) as Hm1.
  { unfold m1, round_nearest_even. destruct (loc_of_shr_record r1) as [|[]]; try case_if; lia. }
  assert (2 ^ (k + 1 - e1) = 2 * 2 ^ (k - e1)) as Hp by (rewrite <-Z.pow_succ_r by lia; f_equal; lia).
  pose proof (shr_fexp_mag m1 e1 loc_Exact (k + 1) ltac:(lia) ltac:(lia) ltac:(lia)) as H2.
  destruct (shr_fexp 53 1024 m1 e1 loc_Exact) as [r2 e2]. destruct H2 as (He2 & _ & Hr2).
  destruct (shr_m r2) as [|p|p]; [done| |lia]. rewrite (proj2 (Z.leb_le e2 (1024 - 53))) by lia. cbn. split; lia.
Qed.

Lemma shl_align_spec m e e' : let '(m', f) := shl_align m e e' in f <= e /\ Z.pos m' = Z.pos m * 2 ^ (e - f).
Proof.
  unfold shl_align. destruct (e' - e) as [|p|p] eqn:Hp; [rewrite Z.sub_diag; lia|rewrite Z.sub_diag; lia|].
  split; [lia|]. rewrite iter_xO. by replace (e - e') with (Z.pos p) by lia.
Qed.

Lemma binary_round_mag s m e k : Z.pos m < 2 ^ (k - e) -> e <= k -> -1074 <= k <= 960 -> mag (k + 1) (binary_round 53 1024 s m e).
Proof.
  intros Hm He Hk. unfold binary_round. set (f := fexp _ _ _). pose proof (shl_align_spec m e f) as Ha.
  destruct (shl_align m e f) as [m' e']. destruct Ha as [He' Hm']. apply round_aux_mag; [|lia|lia]. rewrite Hm'.
  replace (k - e') with ((k - e) + (e - e')) by lia. rewrite Z.pow_add_r by lia. nia.
Qed.

Lemma normalize_mag m e z k : Z.abs m < 2 ^ (k - e) -> e <= k -> -1074 <= k <= 960 -> mag (k + 1) (binary_normalize 53 1024 m e z).
Proof. intros Hm He Hk. destruct m as [|m|m]; [done|..]; by apply binary_round_mag. Qed.

Lemma f64_of_mag n k : Z.abs n < 2 ^ k -> 0 <= k <= 960 -> mag (k + 1) (f64_of n).
Proof. intros Hn Hk. apply normalize_mag; [by rewrite Z.sub_0_r|lia..]. Qed.

Lemma f64_mul_mag a b x y : mag a x -> mag b y -> -1074 <= a + b <= 960 -> mag (a + b + 1) (f64_mul x y).
Proof.
  intros Hx Hy Hk. destruct x as [| | |sx mx ex], y as [| | |sy my ey]; try done. destruct Hx as [Hex Hmx], Hy as [Hey Hmy].
  apply round_aux_mag; [|lia|lia]. rewrite Pos2Z.inj_mul. replace (a + b - (ex + ey)) with ((a - ex) + (b - ey)) by lia.
  rewrite Z.pow_add_r by lia. split; [lia|]. apply Z.mul_lt_mono_nonneg; lia.
Qed.

Lemma aligned m e f k : f <= e -> Z.pos m < 2 ^ (k - e) -> e <= k -> Z.pos (shl_align m e f).1 < 2 ^ (k - f).
Proof.
  intros Hf Hm He. assert ((shl_align m e f).2 = f) as Hs by (unfold shl_align; destruct (f - e) eqn:E; cbn; lia).
  pose proof (shl_align_spec m e f) as Ha. destruct (shl_align m e f) as [m' e']. cbn in *. subst e'. destruct Ha as [_ ->].
  replace (k - f) with ((k - e) + (e - f)) by lia. rewrite Z.pow_add_r by lia. nia.
Qed.

Lemma cond_Zopp_abs s m : Z.abs (cond_Zopp s m) = Z.abs m.
Proof. destruct s; cbn; lia. Qed.

Lemma f64_add_mag k x y : mag k x -> mag k y -> -1074 <= k <= 950 -> mag (k + 2) (f64_add x y).
Proof.
  intros Hx Hy Hk. replace (k + 2) with (k + 1 + 1) by lia.
  destruct x as [[]| | |sx mx ex], y as [[]| | |sy my ey]; try done; try (by eapply mag_weaken; [|eassumption]; lia).
  destruct Hx as [Hex Hmx], Hy as [Hey Hmy]. unfold f64_add, SFadd. apply normalize_mag; [|lia|lia].
  pose proof (aligned mx ex (Z.min ex ey) k ltac:(lia) Hmx ltac:(lia)). pose proof (aligned my ey (Z.min ex ey) k ltac:(lia) Hmy ltac:(lia)).
  replace (k + 1 - Z.min ex ey) with (Z.succ (k - Z.min ex ey)) by lia. rewrite Z.pow_succ_r by lia.
  eapply Z.le_lt_trans; [apply Z.abs_triangle|]. rewrite !cond_Zopp_abs.
  generalize dependent (2 ^ (k - Z.min ex ey)). intros; lia.
Qed.

Lemma mag_opp k x : mag k x -> mag k (SFopp x).
Proof. by destruct x. Qed.

Lemma mag_abs k x : mag k x -> mag k (SFabs x).
Proof. by destruct x. Qed.

Lemma f64_sub_mag k x y : mag k x -> mag k y -> -1074 <= k <= 950 -> mag (k + 2) (f64_sub x y).
Proof.
  intros Hx Hy Hk. replace (k + 2) with (k + 1 + 1) by lia.
  destruct x as [[]| | |sx mx ex], y as [[]| | |sy my ey]; try done;
    try (by eapply mag_weaken; [|eassumption]; lia); try (by eapply (mag_weaken k _ (S754_finite (negb sy) my ey)); [lia|]).
  destruct Hx as [Hex Hmx], Hy as [Hey Hmy]. unfold f64_sub, SFsub. apply normalize_mag; [|lia|lia].
  pose proof (aligned mx ex (Z.min ex ey) k ltac:(lia) Hmx ltac:(lia)). pose proof (aligned my ey (Z.min ex ey) k ltac:(lia) Hmy ltac:(lia)).
  replace (k + 1 - Z.min ex ey) with (Z.succ (k - Z.min ex ey)) by lia. rewrite Z.pow_succ_r by lia.
  generalize dependent (2 ^ (k - Z.min ex ey)). intros P HP1 HP2. rewrite <-Z.add_opp_r.
  eapply Z.le_lt_trans; [apply Z.abs_triangle|]. rewrite Z.abs_opp, !cond_Zopp_abs. lia.
Qed.

(** A mantissa of 53 digits or more does not round to zero. *)
Lemma shr_fexp_big m e l : 2 ^ 52 <= m -> -1074 <= e ->
  let '(r, e') := shr_fexp 53 1024 m e l in 2 ^ 52 <= shr_m r /\ -1074 <= e'.
Proof.
  intros Hm He. unfold shr_fexp, shr. assert (shr_m (shr_record_of_loc m l) = m) as Hml by (by destruct l as [|[]]).
  destruct m as [|p|p]; [lia| |lia]. cbn [Zdigits2]. pose proof (digits2_bounds p) as [Hlo Hhi]. set (d := Z.pos (digits2_pos p)) in *.
  assert (53 <= d) as Hd.
  { destruct (Z.le_gt_cases 53 d) as [|Hgt]; [done|]. assert (2 ^ d <= 2 ^ 52) as Hx by (apply Z.pow_le_mono_r; lia).
    exfalso. revert Hm Hhi Hx. generalize (2 ^ d), (2 ^ 52). intros; lia. }
  assert (fexp 53 1024 (d + e) - e = d - 53) as -> by (unfold fexp, emin; lia).
  destruct (d - 53) as [|q|q] eqn:Hq; [by rewrite Hml| |lia]. rewrite iter_shr, Hml by lia. split; [|lia].
  apply Z.div_le_lower_bound; [lia|]. rewrite <-Z.pow_add_r by lia. by replace (Z.pos q + 52) with (d - 1) by lia.
Qed.

Lemma round_aux_nonzero s m e l t : 2 ^ 52 <= m -> -1074 <= e -> binary_round_aux 53 1024 s m e l <> S754_zero t.
Proof.
  intros Hm He. unfold binary_round_aux. pose proof (shr_fexp_big m e l Hm He) as H1. destruct (shr_fexp 53 1024 m e l) as [r1 e1].
  destruct H1 as [Hr1 He1]. set (m1 := round_nearest_even _ _).
  assert (2 ^ 52 <= m1) as Hm1.
  { unfold m1, round_nearest_even. destruct (loc_of_shr_record r1) as [|[]]; try case_if; lia. }
  pose proof (shr_fexp_big m1 e1 loc_Exact Hm1 He1) as H2. destruct (shr_fexp 53 1024 m1 e1 loc_Exact) as [r2 e2].
  destruct H2 as [Hr2 _]. destruct (shr_m r2); [lia| |lia]. by case_if.
Qed.

(** [1.0 + x.abs()]. *)
Lemma one_plus_nonzero k x t : mag k x -> f64_add f64_one (SFabs x) <> S754_zero t.
Proof.
  intros Hx. destruct x as [| | |sx m e]; try done. destruct Hx as [He _]. cbn [SFabs].
  change f64_one with (S754_finite false 4503599627370496 (-52)). unfold f64_add, SFadd, binary_normalize, cond_Zopp.
  set (ez := Z.min (-52) e). pose proof (shl_align_spec 4503599627370496 (-52) ez) as Ha.
  destruct (shl_align 4503599627370496 (-52) ez) as [m1 e1]. cbn [fst].
  destruct (Z.pos m1 + Z.pos (shl_align m e ez).1) as [|p|p] eqn:Hp; [lia| |lia]. unfold binary_round.
  set (f := fexp _ _ _). pose proof (shl_align_spec p ez f) as Hb. assert (-1074 <= f) as Hf by (unfold f, fexp, emin; lia).
  assert (-1074 <= (shl_align p ez f).2) as Hz by (unfold shl_align; destruct (f - ez); cbn; lia).
  destruct (shl_align p ez f) as [m' e']. destruct Ha as [Hle1 Hm1], Hb as [Hle2 Hm']. apply round_aux_nonzero; [|done].
  rewrite Hm', <-Hp. pose proof (Z.pow_pos_nonneg 2 (-52 - e1) ltac:(lia) ltac:(lia)).
  pose proof (Z.pow_pos_nonneg 2 (ez - e') ltac:(lia) ltac:(lia)). change (2 ^ 52) with 4503599627370496. nia.
Qed.

(** ** Canonical floats

    The results of the operations: a mantissa of at most 53 digits and an exponent in range. *)

Definition canonical (x : f64) : Prop :=
  match x with S754_finite _ m e => Z.pos m < 2 ^ 53 /\ -1074 <= e | _ => True end.

Lemma shr_fexp_exponent m e l : -1074 <= (shr_fexp 53 1024 m e l).2.
Proof.
  unfold shr_fexp. set (f := fexp _ _ _). assert (-1074 <= f) by (unfold f, fexp, emin; lia).
  unfold shr. destruct (f - e) eqn:Hd; cbn [snd]; lia.
Qed.

Lemma round_aux_canonical s m e l : 0 <= m -> canonical (binary_round_aux 53 1024 s m e l).
Proof.
  intros Hm. pose proof (round_aux_short s m e l Hm) as Hs. unfold binary_round_aux in *.
  destruct (shr_fexp 53 1024 m e l) as [r1 e1]. set (m1 := round_nearest_even _ _) in *.
  pose proof (shr_fexp_exponent m1 e1 loc_Exact) as He. destruct (shr_fexp 53 1024 m1 e1 loc_Exact) as [r2 e2].
  destruct (shr_m r2); try done. by destruct (e2 <=? _).
Qed.

Lemma normalize_canonical m e z : canonical (binary_normalize 53 1024 m e z).
Proof.
  destruct m as [|m|m]; [done|cbn; unfold binary_round..]; destruct (shl_align _ _ _); by apply round_aux_canonical.
Qed.

Lemma f64_add_canonical x y : canonical x -> canonical y -> canonical (f64_add x y).
Proof. destruct x as [[]|[]| |], y as [[]|[]| |]; try done. intros _ _. apply normalize_canonical. Qed.

Lemma f64_mul_canonical x y : canonical (f64_mul x y).
Proof. destruct x as [[]|[]| |], y as [[]|[]| |]; try done. apply round_aux_canonical. lia. Qed.

Lemma f64_div_canonical x y : canonical (f64_div x y).
Proof.
  destruct x as [[]|[]| |? m1 e1], y as [[]|[]| |? m2 e2]; try done. unfold f64_div, SFdiv.
  pose proof (SFdiv_core_nonneg m1 e1 m2 e2) as H. destruct (SFdiv_core_binary _ _ _ _ _ _) as [[q e] l]. by apply round_aux_canonical.
Qed.

Lemma clamp_canonical lo hi x : canonical lo -> canonical hi -> canonical x -> canonical (clamp lo hi x).
Proof. intros. unfold clamp. by repeat case_if. Qed.

Lemma canonical_mag k m e x :
  canonical x -> is_nan x = false -> f64_le f64_zero x -> f64_le x (S754_finite false m e) -> Z.pos m < 2 ^ 53 -> 0 <= 53 + e <= k ->
  mag k x.
Proof.
  rewrite !f64_le_iff, !key_cmp_Lt. destruct x as [?|[]| |[] m' e']; cbn; try done; try (intros; exfalso; naive_solver lia).
  intros [Hm He] _ _ Hx Hm0 Hk. assert (e' < e \/ e' = e /\ Z.pos m' <= Z.pos m) as Hc by (destruct Hx as [?|Heq]; [lia|simplify_eq; lia]).
  split; [lia|]. apply Z.lt_le_trans with (2 ^ 53); [done|]. apply Z.pow_le_mono_r; lia.
Qed.

Lemma round_aux_nonneg m e l : f64_le f64_zero (binary_round_aux 53 1024 false m e l).
Proof.
  rewrite f64_le_iff, key_cmp_Lt. unfold binary_round_aux.
  destruct (shr_fexp _ _ m e l) as [r1 e1]. destruct (shr_fexp _ _ _ e1 loc_Exact) as [r2 e2]. destruct (shr_m r2); cbn; try naive_solver lia.
  destruct (e2 <=? _); cbn; naive_solver lia.
Qed.

(** The quotient of floats that are not negative. *)
Lemma f64_div_nonneg x y :
  f64_le f64_zero x -> f64_le f64_zero y -> (forall s, x <> S754_zero s) -> (forall s, y <> S754_zero s) -> f64_le f64_zero (f64_div x y).
Proof.
  rewrite !f64_le_iff, !key_cmp_Lt. intros Hx Hy Nx Ny.
  destruct x as [s|[]| |[]], y as [t|[]| |[]]; cbn in Hx, Hy; try (by destruct (Nx s)); try (by destruct (Ny t)); try (exfalso; naive_solver lia);
    try (cbn; naive_solver lia).
  rewrite <-key_cmp_Lt, <-f64_le_iff. unfold f64_div, SFdiv. destruct (SFdiv_core_binary _ _ _ _ _ _) as [[q e'] l]. apply round_aux_nonneg.
Qed.

Lemma f64_min_range x y :
  is_nan x = false -> is_nan y = false -> is_nan (f64_min x y) = false /\ f64_le (f64_min x y) y /\ (f64_min x y = x \/ f64_min x y = y).
Proof.
  intros Hx Hy. unfold f64_min. rewrite Hx, Hy, SFltb_spec by done. case_bool_decide; cbn; auto. split_and!; [done|reflexivity|auto].
Qed.

Lemma f64_to_u_range w x : 0 <= w -> 0 <= f64_to_u w x < 2 ^ w.
Proof.
  intros Hw. pose proof (Z.pow_pos_nonneg 2 w ltac:(lia) Hw). destruct x as [|[]| |[] m e]; cbn [f64_to_u]; try lia.
  destruct (Z.leb_spec 0 e); [pose proof (Z.pow_nonneg 2 e)|pose proof (Z.div_pos (Z.pos m) (2 ^ (- e)) ltac:(lia) (Z.pow_pos_nonneg 2 (- e) ltac:(lia) ltac:(lia)))]; lia.
Qed.

(** A positive integer of any size does not convert to zero. *)
Lemma f64_of_pos n s : 0 < n -> f64_le f64_zero (f64_of n) /\ f64_of n <> S754_zero s.
Proof.
  intros Hn. split.
  - destruct n as [|p|p]; [lia| |lia]. unfold f64_of, binary_normalize, binary_round. destruct (shl_align _ _ _). apply round_aux_nonneg.
  - destruct (Z.lt_ge_cases n (2 ^ 53)) as [|Hbig]; [by apply f64_of_nonzero|]. destruct n as [|p|p]; [lia| |lia].
    unfold f64_of, binary_normalize, binary_round. rewrite Z.add_0_r. pose proof (digits2_bounds p) as [_ Hhi]. set (d := Z.pos (digits2_pos p)) in *.
    assert (53 <= d) as Hd.
    { destruct (Z.le_gt_cases 53 d) as [|Hgt]; [done|]. assert (2 ^ d <= 2 ^ 53) as Hx by (apply Z.pow_le_mono_r; lia).
      exfalso. revert Hbig Hhi Hx. generalize (2 ^ d), (2 ^ 53). intros; lia. }
    assert (fexp 53 1024 d = d - 53) as -> by (unfold fexp, emin; lia). unfold shl_align. rewrite Z.sub_0_r.
    destruct (d - 53) eqn:Hq; [..|lia]; apply round_aux_nonzero; lia.
Qed.
