(* ===== verification/Circuit.v ===== *)
(** * Circuits ([core/src/privacy/circuit.rs])

    Selection of the relays of an onion path.  Reliability scores are 32-bit floats, of
    which only comparisons matter, so they are the standard's [spec_float].  The number of
    hops and the choice of [choose_multiple] are arguments; the order of a hash map is any.
    The loop that looks for hops may not end, so it takes fuel. *)

From Stdlib Require Import SpecFloat.
From S2P Require Import Prelude Crypto Effects Onion Floats.

(** 0.0, 0.5 and 1.0 in single precision. *)
Definition f32_zero : spec_float := S754_zero false.
Definition f32_half : spec_float := S754_finite false 8388608 (-24).
Definition f32_one : spec_float := S754_finite false 8388608 (-23).

Inductive CircuitError : Type := InsufficientPeers | PeerNotFound | InvalidConfig | DuplicatePeer.

Record PeerInfo : Type := mkPeer {
  peer_id : string;
  peer_public_key : bytes;
  reliability_score : spec_float;
  network_segment : string;
}.

#[global] Instance peer_eq_dec : EqDecision PeerInfo.
Proof. solve_decision. Defined.

Record CircuitPath : Type := mkPath {
  circuit_id : Z;
  hops : list (string * bytes);
  path_destination : option PeerInfo;
}.

Definition key_of (pk : bytes) : res CircuitError bytes := if negb (zlen pk =? 32) then Err InvalidConfig else Ok pk.

Definition public_keys (p : CircuitPath) : res CircuitError (list bytes) :=
  let! keys := rfold (fun keys hop => let! k := key_of hop.2 in Ok (keys ++ [k])) [] (hops p) in
  match path_destination p with
  | Some dest => let! k := key_of (peer_public_key dest) in Ok (keys ++ [k])
  | None => Ok keys
  end.

Definition hop_count (p : CircuitPath) : Z := zlen (hops p).

Record CircuitConfig : Type := mkCircuitConfig {
  min_hops : Z;
  max_hops : Z;
  prefer_diverse_paths : bool;
  min_reliability : spec_float;
}.

Definition circuit_default : CircuitConfig := mkCircuitConfig 3 5 true f32_half.

Definition circuit_validate (c : CircuitConfig) : res CircuitError unit :=
  if (min_hops c =? 0) || (max_hops c =? 0) then Err InvalidConfig
  else if max_hops c <? min_hops c then Err InvalidConfig
  else if SFltb (min_reliability c) f32_zero || SFltb f32_one (min_reliability c) then Err InvalidConfig
  else Ok tt.

Record CircuitBuilder : Type := mkBuilder {
  peers : list PeerInfo;
  config : CircuitConfig;
}.

Definition builder_new (peers : list PeerInfo) (config : CircuitConfig) : res CircuitError CircuitBuilder :=
  let! _ := circuit_validate config in Ok (mkBuilder peers config).

Definition eligible (b : CircuitBuilder) (destination : PeerInfo) : list PeerInfo :=
  filter (fun p => SFleb (min_reliability (config b)) (reliability_score p) && negb (String.eqb (peer_id p) (peer_id destination)) = true)
    (peers b).

(** [partial_cmp(..).unwrap_or(Equal)], and [max_by], which keeps the last of equal ones. *)
Definition by_score (a b : PeerInfo) : comparison := default Eq (SFcompare (reliability_score a) (reliability_score b)).

Definition max_by {A} (cmp : A -> A -> comparison) (l : list A) : option A :=
  match l with
  | [] => None
  | x :: l => Some (foldl (fun m y => match cmp m y with Gt => m | _ => y end) x l)
  end.

Definition entry (p : PeerInfo) : string * bytes := (peer_id p, peer_public_key p).

Section Builder.
Context {HI : HashIter string (list PeerInfo)}.

(** [entry(segment).or_insert_with(Vec::new).push(peer)]. *)
Definition group_by_segment (l : list PeerInfo) : gmap string (list PeerInfo) :=
  foldl (fun m p => <[network_segment p := default [] (m !! network_segment p) ++ [p]]> m) ∅ l.

(** [None]: the fuel ran out. *)
Fixpoint diverse_loop (fuel : nat) (by_segment : gmap string (list PeerInfo)) (segments : list string) (num_hops : Z)
    (selected : list (string * bytes)) (used_peers : gset string) (segment_idx : nat)
    : option (res CircuitError (list (string * bytes))) :=
  if num_hops <=? zlen selected then Some (Ok selected)
  else match fuel with
  | O => None
  | S fuel =>
      if bool_decide (segments = []) then Some (Err InsufficientPeers)
      else
        match segments !! (segment_idx mod length segments)%nat with
        | None => Some Panic
        | Some segment =>
            match by_segment !! segment with
            | None => Some Panic
            | Some peers_in_segment =>
                match max_by by_score (filter (fun p => peer_id p ∉ used_peers) peers_in_segment) with
                | Some peer =>
                    diverse_loop fuel by_segment segments num_hops (selected ++ [entry peer]) ({[peer_id peer]} ∪ used_peers)
                      (S segment_idx)
                | None => diverse_loop fuel by_segment segments num_hops selected used_peers (S segment_idx)
                end
            end
        end
  end.

Definition select_diverse_hops (fuel : nat) (b : CircuitBuilder) (num_hops : Z) (destination : PeerInfo)
    : option (res CircuitError (list (string * bytes))) :=
  let candidates := eligible b destination in
  if zlen candidates <? num_hops then Some (Err InsufficientPeers)
  else
    let by_segment := group_by_segment candidates in
    diverse_loop fuel by_segment (hm_iter by_segment).*1 num_hops [] {[peer_id destination]} O.

(** [chosen] is what [choose_multiple] picks from the candidates. *)
Definition select_random_hops (b : CircuitBuilder) (num_hops : Z) (destination : PeerInfo)
    (chosen : list PeerInfo -> Z -> list PeerInfo) : res CircuitError (list (string * bytes)) :=
  let candidates := eligible b destination in
  if zlen candidates <? num_hops then Err InsufficientPeers
  else Ok (entry <$> chosen candidates num_hops).

(** [num_hops] is drawn between the configured bounds, [id] at random. *)
Definition build_circuit (fuel : nat) (b : CircuitBuilder) (num_hops id : Z) (chosen : list PeerInfo -> Z -> list PeerInfo)
    (destination : PeerInfo) : option (res CircuitError CircuitPath) :=
  if zlen (peers b) <? num_hops then Some (Err InsufficientPeers)
  else
    let selected :=
      if prefer_diverse_paths (config b) then select_diverse_hops fuel b num_hops destination
      else Some (select_random_hops b num_hops destination chosen) in
    match selected with
    | None => None
    | Some selected_hops => Some (let! hops := selected_hops in Ok (mkPath id hops (Some destination)))
    end.

Definition clamp (score : spec_float) : spec_float :=
  if SFltb score f32_zero then f32_zero else if SFltb f32_one score then f32_one else score.

Fixpoint update_first (peer_id' : string) (score : spec_float) (l : list PeerInfo) : option (list PeerInfo) :=
  match l with
  | [] => None
  | p :: l =>
      if String.eqb (peer_id p) peer_id'
      then Some (mkPeer (peer_id p) (peer_public_key p) (clamp score) (network_segment p) :: l)
      else (fun l => p :: l) <$> update_first peer_id' score l
  end.

Definition update_peer_reliability (b : CircuitBuilder) (peer_id' : string) (score : spec_float) : res CircuitError CircuitBuilder :=
  match update_first peer_id' score (peers b) with
  | Some l => Ok (mkBuilder l (config b))
  | None => Err PeerNotFound
  end.

End Builder.

(** ** Laws *)

Section Laws.
Context {HI : HashIter string (list PeerInfo)}.

Lemma group_lookup l s : group_by_segment l !! s =
  match filter (fun p => network_segment p = s) l with [] => None | f => Some f end.
Proof.
  induction l as [|p l IH] using rev_ind; [done|]. unfold group_by_segment. rewrite foldl_snoc.
  change (foldl _ ∅ l) with (group_by_segment l). rewrite filter_app. destruct (decide (network_segment p = s)) as [<-|Hs].
  - rewrite lookup_insert_eq, IH. rewrite filter_cons_True, filter_nil by done. by destruct (filter _ l).
  - rewrite lookup_insert_ne, IH by done. rewrite filter_cons_False, filter_nil, app_nil_r by done. done.
Qed.

Lemma max_by_elem {A} (cmp : A -> A -> comparison) l x : max_by cmp l = Some x -> x ∈ l.
Proof.
  destruct l as [|y l]; [done|]. cbn [max_by]. intros [= <-]. revert y. induction l as [|z l IH]; intros y; cbn; [by left|].
  pose proof (IH y) as Hy. pose proof (IH z) as Hz. rewrite elem_of_cons in Hy, Hz. rewrite !elem_of_cons.
  destruct (cmp y z); tauto.
Qed.

Lemma max_by_none {A} (cmp : A -> A -> comparison) l : max_by cmp l = None -> l = [].
Proof. by destruct l. Qed.

Section Loop.
Context (candidates : list PeerInfo) (destination : PeerInfo) (num_hops : Z).

Definition groups : gmap string (list PeerInfo) := group_by_segment candidates.
Definition segments : list string := (hm_iter groups).*1.

Definition used (ps : list PeerInfo) : gset string := {[peer_id destination]} ∪ list_to_set (peer_id <$> ps).

(** What has been selected so far. *)
Record chosen_ok (ps : list PeerInfo) : Prop := {
  chosen_sub : Forall (fun p => p ∈ candidates) ps;
  chosen_nodup : NoDup (peer_id <$> ps);
  chosen_dest : peer_id destination ∉ peer_id <$> ps;
  chosen_count : zlen ps <= num_hops;
}.

Definition run (fuel : nat) (ps : list PeerInfo) (idx : nat) : option (res CircuitError (list (string * bytes))) :=
  diverse_loop fuel groups segments num_hops (entry <$> ps) (used ps) idx.

Lemma segment_peers s l : groups !! s = Some l -> l = filter (fun p => network_segment p = s) candidates /\ l <> [].
Proof.
  unfold groups. rewrite group_lookup. destruct (filter _ candidates) eqn:Hf; [done|]. by intros [= <-].
Qed.

Lemma segment_of p : p ∈ candidates -> network_segment p ∈ segments.
Proof.
  intros Hp. unfold segments. apply list_elem_of_fmap.
  destruct (groups !! network_segment p) as [l|] eqn:Hl; [|exfalso].
  - exists (network_segment p, l). split; [done|]. by apply elem_of_hm_iter.
  - unfold groups in Hl. rewrite group_lookup in Hl. destruct (filter _ candidates) eqn:Hf; [|done].
    assert (p ∈ filter (fun q => network_segment q = network_segment p) candidates) as Hin by (by apply list_elem_of_filter).
    rewrite Hf in Hin. by apply elem_of_nil in Hin.
Qed.

Lemma segments_groups s : s ∈ segments -> exists l, groups !! s = Some l.
Proof. unfold segments. intros ([s' l] & -> & Hin)%list_elem_of_fmap. exists l. by apply elem_of_hm_iter. Qed.

Lemma segments_nodup : NoDup segments.
Proof. apply NoDup_hm_keys. Qed.

(** One turn of the loop. *)
Lemma run_step fuel ps idx : zlen ps < num_hops -> segments <> [] -> exists s l,
  segments !! (idx mod length segments)%nat = Some s /\ groups !! s = Some l /\
  run (S fuel) ps idx =
    match max_by by_score (filter (fun p => peer_id p ∉ used ps) l) with
    | Some p => run fuel (ps ++ [p]) (S idx)
    | None => run fuel ps (S idx)
    end.
Proof.
  intros Hn Hs. assert (length segments <> 0%nat) as Hz by (by intros ?%nil_length_inv).
  destruct (lookup_lt_is_Some_2 segments (idx mod length segments)%nat) as [s Hl]; [by apply Nat.mod_upper_bound|].
  destruct (segments_groups s) as [l Hg]; [by eapply list_elem_of_lookup_2|]. exists s, l. split_and!; [done|done|].
  unfold run. cbn [diverse_loop].
  assert (zlen (entry <$> ps) = zlen ps) as -> by (unfold zlen; by rewrite length_fmap). rewrite (proj2 (Z.leb_gt _ _)), bool_decide_false, Hl, Hg by done.
  destruct (max_by _ _) as [p|]; [|done]. rewrite fmap_app. cbn [fmap list_fmap]. f_equal. unfold used. rewrite fmap_app, list_to_set_app_L.
  cbn. set_solver.
Qed.

Lemma chosen_step ps l s p : chosen_ok ps -> zlen ps < num_hops -> groups !! s = Some l ->
  p ∈ filter (fun p => peer_id p ∉ used ps) l -> chosen_ok (ps ++ [p]).
Proof.
  intros [H1 H2 H3 H4] Hn Hg [Hu Hp]%list_elem_of_filter. apply segment_peers in Hg as [-> _].
  apply list_elem_of_filter in Hp as [_ Hp]. unfold used in Hu. rewrite elem_of_union, elem_of_list_to_set, elem_of_singleton in Hu.
  split.
  - apply Forall_app. split; [done|]. by apply Forall_singleton.
  - rewrite fmap_app. apply NoDup_app. split_and!; [done| |apply NoDup_singleton].
    intros x Hx Hx2. cbn in Hx2. apply list_elem_of_singleton in Hx2 as ->. tauto.
  - rewrite fmap_app, elem_of_app. cbn. rewrite list_elem_of_singleton. intros [?|Heq]; [done|]. apply Hu. by left.
  - rewrite zlen_app, zlen_cons, zlen_nil. lia.
Qed.

Lemma zlen_entries ps : zlen (entry <$> ps) = zlen ps.
Proof. unfold zlen. by rewrite length_fmap. Qed.

Lemma run_done fuel ps idx : chosen_ok ps -> num_hops <= zlen ps -> run fuel ps idx = Some (Ok (entry <$> ps)) /\
  forall r, run fuel ps idx = Some r -> exists ps', r = Ok (entry <$> ps') /\ chosen_ok ps' /\ zlen ps' = num_hops.
Proof.
  intros Hok Hle. assert (run fuel ps idx = Some (Ok (entry <$> ps))) as Hrun.
  { unfold run. destruct fuel; cbn [diverse_loop]; by rewrite zlen_entries, (proj2 (Z.leb_le _ _)). }
  split; [done|]. rewrite Hrun. intros r [= <-]. exists ps. split_and!; [done|done|]. destruct Hok. lia.
Qed.

(** Whatever the loop returns is a selection of the right size. *)
Lemma run_sound fuel ps idx r : chosen_ok ps -> segments <> [] -> run fuel ps idx = Some r ->
  exists ps', r = Ok (entry <$> ps') /\ chosen_ok ps' /\ zlen ps' = num_hops.
Proof.
  intros Hok Hs. revert ps idx Hok. induction fuel as [|fuel IH]; intros ps idx Hok Hr;
    (destruct (decide (num_hops <= zlen ps)) as [Hle|Hgt]; [by apply (proj2 (run_done _ _ _ Hok Hle)) in Hr|]).
  - unfold run in Hr. cbn [diverse_loop] in Hr. rewrite zlen_entries, (proj2 (Z.leb_gt _ _)) in Hr by lia. done.
  - destruct (run_step fuel ps idx ltac:(lia) Hs) as (s & l & _ & Hg & Hstep). rewrite Hstep in Hr.
    destruct (max_by _ _) as [p|] eqn:Hp; [|by apply (IH ps (S idx))].
    apply (IH (ps ++ [p]) (S idx)); [|done]. apply max_by_elem in Hp. eapply chosen_step; try done. lia.
Qed.

(** With distinct ids among the candidates there is an unused one as long as the selection
    is too short. *)
Lemma unused_candidate ps : NoDup (peer_id <$> candidates) -> peer_id destination ∉ peer_id <$> candidates ->
  chosen_ok ps -> zlen ps < num_hops -> num_hops <= zlen candidates -> exists p, p ∈ candidates /\ peer_id p ∉ used ps.
Proof.
  intros Hnd Hdest Hok Hn Hc. destruct (decide (Exists (fun p => peer_id p ∉ used ps) candidates)) as [He|He].
  { apply Exists_exists in He as (p & ? & ?). by exists p. }
  exfalso. assert (forall p, p ∈ candidates -> peer_id p ∈ peer_id <$> ps) as Hall.
  { intros p Hp. apply not_Exists_Forall in He; [|solve_decision]. rewrite Forall_forall in He. specialize (He p Hp). cbn in He.
    apply dec_stable in He. unfold used in He. rewrite elem_of_union, elem_of_list_to_set, elem_of_singleton in He.
    destruct He as [He|He]; [|done]. exfalso. apply Hdest. rewrite <-He. apply list_elem_of_fmap. by exists p. }
  assert (length (peer_id <$> candidates) <= length (peer_id <$> ps))%nat as Hlen.
  { apply submseteq_length, NoDup_submseteq; [done|]. intros x (p & -> & Hp)%list_elem_of_fmap. by apply Hall. }
  rewrite !length_fmap in Hlen. unfold zlen in *. lia.
Qed.

(** Every segment is visited within one round. *)
Lemma visit idx s : s ∈ segments -> exists d, (d < length segments)%nat /\ segments !! ((idx + d) mod length segments)%nat = Some s.
Proof.
  intros (j & Hj)%list_elem_of_lookup. pose proof (lookup_lt_Some _ _ _ Hj) as Hlt. set (n := length segments) in *.
  exists ((j + (n - idx mod n)) mod n)%nat. split; [apply Nat.mod_upper_bound; lia|]. rewrite <-Hj. f_equal.
  pose proof (Nat.mod_upper_bound idx n ltac:(lia)). rewrite Nat.Div0.add_mod_idemp_r.
  rewrite (Nat.Div0.div_mod idx n) at 1. replace (n * (idx / n) + idx mod n + (j + (n - idx mod n)))%nat with (j + (idx / n + 1) * n)%nat by nia.
  rewrite Nat.Div0.mod_add. by apply Nat.mod_small.
Qed.

(** The loop ends: one round of the segments finds at least one hop. *)
Lemma run_ends fuel ps idx : NoDup (peer_id <$> candidates) -> peer_id destination ∉ peer_id <$> candidates ->
  num_hops <= zlen candidates -> segments <> [] -> chosen_ok ps ->
  (Z.to_nat (num_hops - zlen ps) * length segments <= fuel)%nat -> is_Some (run fuel ps idx).
Proof.
  intros Hnd Hdest Hc Hs. remember (Z.to_nat (num_hops - zlen ps)) as r eqn:Hr. revert fuel ps idx Hr.
  induction r as [|r IH]; intros fuel ps idx Hr Hok Hf.
  { destruct (run_done fuel ps idx Hok ltac:(lia)) as [H _]. by rewrite H. }
  destruct (unused_candidate ps Hnd Hdest Hok ltac:(lia) Hc) as (p & Hp & Hu).
  destruct (visit idx (network_segment p) (segment_of p Hp)) as (d & Hd & Hseg).
  assert (S d + r * length segments <= fuel)%nat as Hfuel by lia. clear Hf Hd.
  revert fuel idx Hseg Hfuel. induction d as [|d IHd]; intros fuel idx Hseg Hfuel.
  all: destruct fuel as [|fuel]; [lia|]; destruct (run_step fuel ps idx ltac:(lia) Hs) as (s & l & Hl & Hg & ->).
  all: assert (forall q, max_by by_score (filter (fun p => peer_id p ∉ used ps) l) = Some q -> is_Some (run fuel (ps ++ [q]) (S idx)))
    as Hpick by (intros q Hq%max_by_elem; apply IH; [rewrite zlen_app, zlen_cons, zlen_nil; lia|
      by eapply chosen_step; try done; lia|lia]).
  - destruct (max_by _ _) as [q|] eqn:Hq; [by apply Hpick|]. exfalso. apply max_by_none in Hq.
    rewrite Nat.add_0_r, Hl in Hseg. injection Hseg as ->. apply segment_peers in Hg as [-> _].
    assert (p ∈ filter (fun p => peer_id p ∉ used ps) (filter (fun q => network_segment q = network_segment p) candidates)) as Hin
      by (by rewrite !list_elem_of_filter). rewrite Hq in Hin. by apply elem_of_nil in Hin.
  - destruct (max_by _ _) as [q|] eqn:Hq; [by apply Hpick|]. apply IHd; [|lia]. by rewrite Nat.add_succ_comm.
Qed.

Lemma same_id p q : NoDup (peer_id <$> candidates) -> p ∈ candidates -> q ∈ candidates -> peer_id p = peer_id q -> p = q.
Proof.
  intros Hnd (i & Hi)%list_elem_of_lookup (j & Hj)%list_elem_of_lookup Heq.
  assert (i = j) as <-; [|congruence]. apply (NoDup_lookup _ i j (peer_id p) Hnd); rewrite list_lookup_fmap; [by rewrite Hi|].
  rewrite Hj. cbn. by rewrite Heq.
Qed.

(** While the first round lasts, every turn takes a hop from a new segment. *)
Lemma first_round fuel ps r : NoDup (peer_id <$> candidates) -> peer_id destination ∉ peer_id <$> candidates ->
  num_hops <= zlen segments -> segments <> [] -> chosen_ok ps -> network_segment <$> ps = take (length ps) segments ->
  run fuel ps (length ps) = Some r ->
  exists ps', r = Ok (entry <$> ps') /\ chosen_ok ps' /\ zlen ps' = num_hops /\ NoDup (network_segment <$> ps').
Proof.
  intros Hnd Hdest Hseg Hs. revert ps. induction fuel as [|fuel IH]; intros ps Hok Htake Hr;
    (destruct (decide (num_hops <= zlen ps)) as [Hle|Hgt];
     [rewrite (proj1 (run_done _ _ _ Hok Hle)) in Hr; injection Hr as <-; exists ps; split_and!; [done|done|destruct Hok; lia|];
      rewrite Htake; apply (sublist_NoDup _ segments); [apply segments_nodup|apply sublist_take]|]).
  { unfold run in Hr. cbn [diverse_loop] in Hr. rewrite zlen_entries, (proj2 (Z.leb_gt _ _)) in Hr by lia. done. }
  destruct (run_step fuel ps (length ps) ltac:(lia) Hs) as (s & l & Hl & Hg & Hstep). rewrite Hstep in Hr.
  rewrite Nat.mod_small in Hl by (unfold zlen in *; lia). destruct (segment_peers s l Hg) as [-> Hne].
  assert (filter (fun p => peer_id p ∉ used ps) (filter (fun p => network_segment p = s) candidates)
    = filter (fun p => network_segment p = s) candidates) as Hall.
  { apply filter_id, Forall_forall. intros p [Hps Hp]%list_elem_of_filter. unfold used.
    rewrite elem_of_union, elem_of_list_to_set, elem_of_singleton. intros [Hd|(q & Hq & Hin)%list_elem_of_fmap].
    - apply Hdest. rewrite <-Hd. apply list_elem_of_fmap. by exists p.
    - assert (p = q) as <- by (apply same_id; [done|done|exact (proj1 (Forall_forall _ _) (chosen_sub _ Hok) q Hin)|done]).
      assert (s ∈ take (length ps) segments) as (i & Hi)%list_elem_of_lookup by (rewrite <-Htake, <-Hps; apply list_elem_of_fmap; by exists p).
      apply lookup_take_Some in Hi as [Hi Hlt]. pose proof (NoDup_lookup _ _ _ _ segments_nodup Hi Hl). lia. }
  rewrite Hall in Hr. destruct (max_by _ _) as [p|] eqn:Hp; [|by apply max_by_none in Hp].
  apply max_by_elem in Hp. pose proof Hp as [Hps _]%list_elem_of_filter. rewrite <-Hall in Hp.
  apply (IH (ps ++ [p])).
  - eapply chosen_step; [done|lia|done|done].
  - rewrite fmap_app, Htake, length_app, Nat.add_1_r. cbn [length fmap list_fmap]. rewrite Hps. symmetry. by apply take_S_r.
  - rewrite length_app, Nat.add_1_r. done.
Qed.

End Loop.

(** ** Properties *)

Definition hop_ok (b : CircuitBuilder) (destination p : PeerInfo) : Prop :=
  p ∈ peers b /\ SFleb (min_reliability (config b)) (reliability_score p) = true /\ peer_id p <> peer_id destination.

Lemma eligible_ok b destination p : p ∈ eligible b destination <-> hop_ok b destination p.
Proof.
  unfold eligible, hop_ok. rewrite list_elem_of_filter, andb_true_iff, negb_true_iff, String.eqb_neq. tauto.
Qed.

Lemma eligible_dest b destination : peer_id destination ∉ peer_id <$> eligible b destination.
Proof. intros (p & Hid & (_ & _ & Hne)%eligible_ok)%list_elem_of_fmap. by apply Hne. Qed.

Lemma eligible_nodup b destination : NoDup (peer_id <$> peers b) -> NoDup (peer_id <$> eligible b destination).
Proof. intros Hnd. eapply sublist_NoDup; [exact Hnd|]. apply fmap_sublist, sublist_filter. Qed.

Lemma chosen_nil destination candidates n : 0 <= n -> chosen_ok candidates destination n [].
Proof. intros Hn. split; [done|constructor|apply not_elem_of_nil|done]. Qed.

Lemma start_run fuel candidates destination n :
  diverse_loop fuel (groups candidates) (segments candidates) n [] {[peer_id destination]} O = run candidates destination n fuel [] 0.
Proof. unfold run, used. cbn [fmap list_fmap list_to_set]. by rewrite union_empty_r_L. Qed.

Lemma segments_nonempty candidates : 0 < zlen candidates -> segments candidates <> [].
Proof.
  intros Hl Hs. destruct candidates as [|p l]; [done|]. assert (network_segment p ∈ segments (p :: l)) as Hin by (apply segment_of; by left).
  rewrite Hs in Hin. by apply elem_of_nil in Hin.
Qed.

(** C30: a circuit that prefers diverse paths is built, with distinct reliable relays.  If
    the peers have distinct ids and enough of them are eligible, the search ends within as
    many turns as hops times segments; it finds the wanted number of distinct relays, all
    reliable enough and none the destination, and, when there are as many segments as hops,
    no two of them in the same segment. *)
Theorem circuit_built b n id chosen destination fuel : prefer_diverse_paths (config b) = true ->
  NoDup (peer_id <$> peers b) -> 0 < n <= zlen (eligible b destination) ->
  (Z.to_nat n * length (segments (eligible b destination)) <= fuel)%nat ->
  exists relays, build_circuit fuel b n id chosen destination = Some (Ok (mkPath id (entry <$> relays) (Some destination))) /\
    zlen relays = n /\ NoDup (peer_id <$> relays) /\ Forall (hop_ok b destination) relays /\
    (n <= zlen (segments (eligible b destination)) -> NoDup (network_segment <$> relays)).
Proof.
  intros Hdiv Hnd Hn Hfuel. set (cs := eligible b destination) in *.
  assert (segments cs <> []) as Hs by (apply segments_nonempty; lia).
  pose proof (eligible_nodup b destination Hnd) as Hcs. pose proof (eligible_dest b destination) as Hdest.
  assert (chosen_ok cs destination n []) as Hnil by (apply chosen_nil; lia).
  destruct (run_ends cs destination n fuel [] 0 Hcs Hdest (proj2 Hn) Hs Hnil) as [r Hr].
  { by rewrite zlen_nil, Z.sub_0_r. }
  assert (exists relays, r = Ok (entry <$> relays) /\ chosen_ok cs destination n relays /\ zlen relays = n /\
    (n <= zlen (segments cs) -> NoDup (network_segment <$> relays))) as (relays & -> & Hok & Hlen & Hseg).
  { destruct (decide (n <= zlen (segments cs))) as [Hle|Hgt].
    - destruct (first_round cs destination n fuel [] r Hcs Hdest Hle Hs Hnil eq_refl Hr) as (ps & ? & ? & ? & ?). by exists ps.
    - destruct (run_sound cs destination n fuel [] 0 r Hnil Hs Hr) as (ps & ? & ? & ?). by exists ps. }
  exists relays. split_and!; [|done|apply Hok| |done].
  - unfold build_circuit. assert (zlen cs <= zlen (peers b)) as Hle.
    { unfold zlen. apply inj_le, sublist_length. unfold cs, eligible. apply sublist_filter. }
    rewrite (proj2 (Z.ltb_ge _ _)), Hdiv by lia. unfold select_diverse_hops. fold cs. rewrite (proj2 (Z.ltb_ge _ _)) by lia.
    change (group_by_segment cs) with (groups cs). change (hm_iter (groups cs)).*1 with (segments cs). by rewrite start_run, Hr.
  - eapply Forall_impl; [apply Hok|]. intros p Hp. by apply eligible_ok.
Qed.

(** The search for hops need not end.  When fewer distinct ids are eligible than hops
    are wanted, but repeated entries make up the number that the check before it counts,
    the loop goes round the segments forever. *)
Theorem circuit_search_diverges b n id chosen destination fuel : prefer_diverse_paths (config b) = true ->
  Z.of_nat (size (list_to_set (peer_id <$> eligible b destination) : gset string)) < n -> n <= zlen (eligible b destination) ->
  build_circuit fuel b n id chosen destination = None.
Proof.
  intros Hdiv Hfew Hn. set (cs := eligible b destination) in *. unfold build_circuit.
  assert (zlen cs <= zlen (peers b)) as Hle by (unfold zlen; apply inj_le, sublist_length; unfold cs, eligible; apply sublist_filter).
  rewrite (proj2 (Z.ltb_ge _ _)), Hdiv by lia. unfold select_diverse_hops. fold cs. rewrite (proj2 (Z.ltb_ge _ _)) by lia.
  change (group_by_segment cs) with (groups cs). change (hm_iter (groups cs)).*1 with (segments cs). rewrite start_run.
  destruct (run cs destination n fuel [] 0) as [r|] eqn:Hr; [exfalso|done].
  destruct (run_sound cs destination n fuel [] 0 r) as (ps & _ & Hok & Hlen); [apply chosen_nil; lia|apply segments_nonempty; lia|done|].
  assert (length (peer_id <$> ps) <= size (list_to_set (peer_id <$> cs) : gset string))%nat as Hsize.
  { rewrite <-(size_list_to_set (C := gset string) (peer_id <$> ps)) by apply Hok. apply subseteq_size.
    intros x. rewrite !elem_of_list_to_set, !list_elem_of_fmap. intros (p & -> & Hp). exists p. split; [done|].
    exact (proj1 (Forall_forall _ _) (chosen_sub _ _ _ _ Hok) p Hp). }
  rewrite length_fmap in Hsize. unfold zlen in Hlen. lia.
Qed.

Lemma collect_keys l acc : Forall (fun hop => zlen hop.2 = 32) l ->
  rfold (fun keys (hop : string * bytes) => let! k := key_of hop.2 in Ok (keys ++ [k])) acc l = Ok (acc ++ l.*2).
Proof.
  intros Hl. revert acc. induction Hl as [|hop l Hh _ IH]; intros acc; [by rewrite app_nil_r|]. cbn [rfold].
  unfold key_of at 1. rewrite Hh. cbn [Z.eqb Pos.eqb negb rbind]. by rewrite IH, <-app_assoc.
Qed.

(** Circuits and onions disagree about lengths.  A circuit with the default maximum of
    five relays has six keys with its destination, and no onion is built for them. *)
Theorem longest_circuit_refused `{Crypto, Bin bool, Bin Key32, Bin PublicKeyBundle, Bin ClassicalOnionLayer, Bin HybridOnionLayer}
    p dest payload draws :
  hop_count p = max_hops circuit_default -> path_destination p = Some dest -> zlen (peer_public_key dest) = 32 ->
  Forall (fun hop => zlen hop.2 = 32) (hops p) -> length draws = 6%nat ->
  exists keys, public_keys p = Ok keys /\ zlen keys = 6 /\
    construct_classical_onion (zip keys draws) payload = Err (TooManyHops MAX_ONION_HOPS).
Proof.
  intros Hc Hd Hk Hh Hdraws. exists ((hops p).*2 ++ [peer_public_key dest]). cbn in Hc. unfold hop_count in Hc.
  assert (zlen ((hops p).*2 ++ [peer_public_key dest]) = 6) as Hlen.
  { rewrite zlen_app, zlen_cons, zlen_nil. unfold zlen in *. rewrite length_fmap. lia. }
  split_and!; [|done|].
  - unfold public_keys. rewrite collect_keys, Hd by done. unfold key_of. rewrite Hk. done.
  - unfold construct_classical_onion. set (l := prod_map Classical id <$> zip _ draws).
    assert (zlen l = 6) as Hl by (unfold l; unfold zlen in *; rewrite length_fmap, length_zip_with, Hdraws; lia).
    destruct l as [|[h r] l]; [done|]. unfold construct_onion. by rewrite Hl.
Qed.

End Laws.

(** ** Concrete runs *)

Module CircuitExamples.

#[local] Instance ex_iter : HashIter string (list PeerInfo) := canonical_iter.

Definition key0 : bytes := replicate 32 Byte.x01.
Definition peer (name segment : string) : PeerInfo := mkPeer name key0 f32_one segment.
Definition dest0 : PeerInfo := peer "dest" "z".

Definition builder0 : CircuitBuilder :=
  mkBuilder [peer "a" "x"; peer "b" "x"; peer "c" "y"; dest0; mkPeer "d" key0 f32_zero "w"] circuit_default.

Lemma circuit_built_witness :
  exists relays, build_circuit 6 builder0 3 1 (fun l _ => l) dest0 = Some (Ok (mkPath 1 (entry <$> relays) (Some dest0))) /\
    zlen relays = 3 /\ NoDup (peer_id <$> relays) /\ Forall (hop_ok builder0 dest0) relays /\
    (3 <= zlen (segments (eligible builder0 dest0)) -> NoDup (network_segment <$> relays)).
Proof.
  apply (circuit_built builder0 3 1 (fun l _ => l) dest0 6); [reflexivity| |vm_compute; split; [reflexivity|discriminate]|vm_compute; lia].
  apply (bool_decide_unpack _). vm_compute. reflexivity.
Defined.

Definition doubled : CircuitBuilder := mkBuilder [peer "a" "x"; peer "a" "x"; peer "a" "y"] circuit_default.

Lemma circuit_search_diverges_witness : build_circuit 1000 doubled 3 1 (fun l _ => l) dest0 = None.
Proof.
  apply (circuit_search_diverges doubled 3 1 (fun l _ => l) dest0 1000); [reflexivity|vm_compute; reflexivity|vm_compute; discriminate].
Defined.

Definition long_path : CircuitPath := mkPath 1 (replicate 5 ("r"%string, key0)) (Some dest0).

Import Sample.
#[local] Instance no_bin A : Bin A := {| ser _ := None; de _ := None |}.

Lemma longest_circuit_refused_witness :
  exists keys, public_keys long_path = Ok keys /\ zlen keys = 6 /\
    construct_classical_onion (zip keys (replicate 6 (mkDraw [] []))) [] = Err (TooManyHops MAX_ONION_HOPS).
Proof.
  apply (longest_circuit_refused long_path dest0 [] (replicate 6 (mkDraw [] []))); try reflexivity.
  repeat constructor.
Defined.

End CircuitExamples.
