(* ===== verification/MessageCodec.v ===== *)
(** * The message codec ([core/src/message/codec.rs])

    Size limits, the choice between the Drift binary format, tagged hybrid envelopes
    and bare legacy envelopes, and the validation of what was decoded.  [bincode] is
    a [Codec] for each type; that a legacy envelope starts with the length of its first
    field, in little-endian order, is its documented layout.  Errors are texts. *)

From S2P Require Import Prelude Frame Envelope Crypto Backend Ratchet Session Encrypt Effects.

Definition MAX_MESSAGE_SIZE : Z := 256 * 1024.
Definition MAX_PAYLOAD_SIZE : Z := 8 * 1024.

Inductive MessageType : Type := MText | MReceipt | MOnionRelay.

Record Message : Type := mkMessage {
  mg_id : string;
  mg_sender_id : string;
  mg_recipient_id : string;
  mg_message_type : MessageType;
  mg_payload : bytes;
  mg_timestamp : Z;
}.

Inductive WireSignedEnvelope : Type :=
| WireSignedV1 (e : SignedEnvelope)
| WireSignedV2 (e : SignedEnvelopeV2).

Section MessageCodec.
Context {BM : Build}.
Context {CMsg : Codec Message} {CL : Codec LegacyEnvelope} {CV : Codec EnvelopeV2}.
Context {CS : Codec SignedEnvelope} {CS2 : Codec SignedEnvelopeV2}.
Context (lz4_decompress : bytes -> res string bytes) (blake3 : bytes -> bytes).
Context (ed_key_ok : bytes -> res string unit) (ed_verify : bytes -> bytes -> bytes -> res string unit).

Definition validate_payload_size (payload : bytes) : res string unit :=
  if MAX_PAYLOAD_SIZE <? zlen payload then Err "Payload too large"%string else Ok tt.

(** [bincode::serialize(v)?] and the check of its size. *)
Definition encode_limited {A} `{Codec A} (v : A) (too_large : string) : res string bytes :=
  let! bytes := ok_or (enc v) "bincode"%string in
  if MAX_MESSAGE_SIZE <? zlen bytes then Err too_large else Ok bytes.

Definition encode_message (msg : Message) : res string bytes :=
  let! _ := validate_payload_size (mg_payload msg) in
  encode_limited msg "Encoded message too large".

Definition decode_message (bytes : bytes) : res string Message :=
  if MAX_MESSAGE_SIZE <? zlen bytes then Err "Message too large"%string
  else ok_or (dec bytes) "bincode"%string.

Definition encode_envelope (envelope : LegacyEnvelope) : res string bytes :=
  encode_limited envelope "Encoded envelope too large".

(** What the Drift decoder makes of a buffer: [None] when it is not taken for one. *)
Definition try_drift (buf : bytes) : res string (option DriftEnvelope) :=
  match buf with
  | b :: _ =>
      if byte.unsigned b =? DRIFT_VERSION then
        match envelope_from_bytes lz4_decompress buf with
        | Ok drift_env =>
            match envelope_verify blake3 ed_key_ok ed_verify drift_env with
            | Ok _ => Ok (Some drift_env)
            | Err _ => Err "Drift envelope signature verification failed"%string
            | Panic => Panic
            end
        | Err _ => Ok None
        | Panic => Panic
        end
      else Ok None
  | [] => Ok None
  end.

Definition decode_envelope (bytes : bytes) : res string LegacyEnvelope :=
  if MAX_MESSAGE_SIZE <? zlen bytes then Err "Envelope too large"%string
  else
    let! drift := try_drift bytes in
    match drift with
    | Some drift_env => Ok (to_legacy_envelope drift_env)
    | None => ok_or (dec bytes) "bincode"%string
    end.

Definition encode_wire_envelope (wire_envelope : WireEnvelope) : res string bytes :=
  match wire_envelope with
  | WireV1 env => encode_limited env "Encoded V1 envelope too large"
  | WireV2 env =>
      let! env_bytes := ok_or (enc env) "bincode"%string in
      let bytes := WIRE_TAG_V2 :: env_bytes in
      if MAX_MESSAGE_SIZE <? zlen bytes then Err "Encoded V2 envelope too large"%string else Ok bytes
  end.

(** [if let Some(ref v) = field { if v.len() != n { bail!(..) } }]. *)
Definition opt_len (n : Z) (v : option bytes) : bool :=
  match v with Some v => zlen v =? n | None => true end.

(** The checks on a hybrid envelope, in the source's order; the first that fails is reported. *)
Definition validate_v2 (env : EnvelopeV2) : res string unit :=
  if negb (zlen (v2_sender_public_key env) =? 32) then Err "Invalid V2 sender public key length"%string
  else if negb (zlen (v2_ephemeral_public_key env) =? 32) then Err "Invalid V2 ephemeral public key length"%string
  else if negb (zlen (v2_nonce env) =? 24) then Err "Invalid V2 nonce length"%string
  else if negb (opt_len 32 (v2_ratchet_dh_public env)) then Err "Invalid V2 ratchet DH public key length"%string
  else if negb (opt_len 1088 (v2_pq_kem_ciphertext env)) then Err "Invalid V2 PQ KEM ciphertext length"%string
  else if negb (opt_len 1184 (v2_pq_encaps_key env)) then Err "Invalid V2 PQ encapsulation key length"%string
  else if negb (opt_len 32 (v2_transcript_hash env)) then Err "Invalid V2 transcript hash length"%string
  else Ok tt.

Definition validate_v1 (env : LegacyEnvelope) : res string unit :=
  if negb (zlen (l_sender_public_key env) =? 32) then Err "Invalid V1 sender public key length"%string
  else if negb (zlen (l_ephemeral_public_key env) =? 32) then Err "Invalid V1 ephemeral public key length"%string
  else if negb (zlen (l_nonce env) =? 24) then Err "Invalid V1 nonce length"%string
  else if negb (opt_len 32 (l_ratchet_dh_public env)) then Err "Invalid V1 ratchet DH public key length"%string
  else Ok tt.

Definition decode_wire_v1 (buf : bytes) : res string WireEnvelope :=
  let! env := ok_or (dec buf) "bincode"%string in
  let! _ := validate_v1 env in
  Ok (WireV1 env).

Definition decode_wire_envelope (buf : bytes) : res string WireEnvelope :=
  match buf with
  | [] => Err "Empty envelope buffer"%string
  | b :: rest =>
      if MAX_MESSAGE_SIZE <? zlen buf then Err "Envelope buffer too large"%string
      else
        let! drift := try_drift buf in
        match drift with
        | Some drift_env => Ok (to_wire_envelope drift_env)
        | None =>
            if decide (b = WIRE_TAG_V2) then
              match dec rest with
              | Some env => let! _ := validate_v2 env in Ok (WireV2 env)
              | None => decode_wire_v1 buf
              end
            else decode_wire_v1 buf
        end
  end.

Definition encode_wire_signed_envelope (wire_signed : WireSignedEnvelope) : res string bytes :=
  match wire_signed with
  | WireSignedV1 env => encode_limited env "Encoded V1 signed envelope too large"
  | WireSignedV2 env =>
      let! env_bytes := ok_or (enc env) "bincode"%string in
      let bytes := WIRE_TAG_V2 :: env_bytes in
      if MAX_MESSAGE_SIZE <? zlen bytes then Err "Encoded V2 signed envelope too large"%string else Ok bytes
  end.

(** The signature is checked after the nonce. *)
Definition validate_signed_v2 (env : SignedEnvelopeV2) : res string unit :=
  let e := se2_envelope env in
  if negb (zlen (v2_sender_public_key e) =? 32) then Err "Invalid V2 signed sender public key length"%string
  else if negb (zlen (v2_ephemeral_public_key e) =? 32) then Err "Invalid V2 signed ephemeral public key length"%string
  else if negb (zlen (v2_nonce e) =? 24) then Err "Invalid V2 signed nonce length"%string
  else if negb (zlen (se2_signature env) =? 64) then Err "Invalid V2 signature length"%string
  else if negb (opt_len 32 (v2_ratchet_dh_public e)) then Err "Invalid V2 signed ratchet DH public key length"%string
  else if negb (opt_len 1088 (v2_pq_kem_ciphertext e)) then Err "Invalid V2 signed PQ KEM ciphertext length"%string
  else if negb (opt_len 1184 (v2_pq_encaps_key e)) then Err "Invalid V2 signed PQ encapsulation key length"%string
  else if negb (opt_len 32 (v2_transcript_hash e)) then Err "Invalid V2 signed transcript hash length"%string
  else Ok tt.

Definition validate_signed_v1 (env : SignedEnvelope) : res string unit :=
  let e := se_envelope env in
  if negb (zlen (l_sender_public_key e) =? 32) then Err "Invalid V1 signed sender public key length"%string
  else if negb (zlen (l_ephemeral_public_key e) =? 32) then Err "Invalid V1 signed ephemeral public key length"%string
  else if negb (zlen (l_nonce e) =? 24) then Err "Invalid V1 signed nonce length"%string
  else if negb (zlen (se_signature env) =? 64) then Err "Invalid V1 signed signature length"%string
  else if negb (opt_len 32 (l_ratchet_dh_public e)) then Err "Invalid V1 signed ratchet DH public key length"%string
  else Ok tt.

Definition decode_wire_signed_v1 (buf : bytes) : res string WireSignedEnvelope :=
  let! env := ok_or (dec buf) "bincode"%string in
  let! _ := validate_signed_v1 env in
  Ok (WireSignedV1 env).

Definition decode_wire_signed_envelope (buf : bytes) : res string WireSignedEnvelope :=
  match buf with
  | [] => Err "Empty signed envelope buffer"%string
  | b :: rest =>
      if MAX_MESSAGE_SIZE <? zlen buf then Err "Signed envelope buffer too large"%string
      else if decide (b = WIRE_TAG_V2) then
        match dec rest with
        | Some env => let! _ := validate_signed_v2 env in Ok (WireSignedV2 env)
        | None => decode_wire_signed_v1 buf
        end
      else decode_wire_signed_v1 buf
  end.

(** ** Well-formed envelopes *)

Definition v1_lengths (e : LegacyEnvelope) : Prop :=
  zlen (l_sender_public_key e) = 32 /\ zlen (l_ephemeral_public_key e) = 32 /\ zlen (l_nonce e) = 24 /\
  (forall k, l_ratchet_dh_public e = Some k -> zlen k = 32).

(** The lengths a receiver relies on, but for the post-quantum fields. *)
Definition v2_lengths (e : EnvelopeV2) : Prop :=
  zlen (v2_sender_public_key e) = 32 /\ zlen (v2_ephemeral_public_key e) = 32 /\ zlen (v2_nonce e) = 24 /\
  (forall k, v2_ratchet_dh_public e = Some k -> zlen k = 32).

Definition pq_lengths (e : EnvelopeV2) : Prop :=
  (forall c, v2_pq_kem_ciphertext e = Some c -> zlen c = 1088) /\
  (forall k, v2_pq_encaps_key e = Some k -> zlen k = 1184) /\
  (forall h, v2_transcript_hash e = Some h -> zlen h = 32).

Lemma opt_len_spec n v : opt_len n v = true <-> forall k, v = Some k -> zlen k = n.
Proof.
  destruct v as [v|]; cbn; [|by split]. rewrite Z.eqb_eq. split; [by intros ? ? [= <-]|by intros H; apply H].
Qed.

(** Splits a chain of negated checks. *)
Ltac checks H :=
  repeat match type of H with
  | (if negb ?b then _ else _) = _ => let C := fresh "C" in destruct b eqn:C; cbn [negb] in H; [|discriminate H]
  end.

Lemma validate_v1_ok e : validate_v1 e = Ok tt <-> v1_lengths e.
Proof.
  unfold validate_v1, v1_lengths. split.
  - intros H. checks H. bool_to_prop. by rewrite opt_len_spec in *.
  - intros (-> & -> & -> & Hd). rewrite (proj2 (opt_len_spec 32 _) Hd). done.
Qed.

Lemma validate_v2_ok e : validate_v2 e = Ok tt <-> v2_lengths e /\ pq_lengths e.
Proof.
  unfold validate_v2, v2_lengths, pq_lengths. split.
  - intros H. checks H. bool_to_prop. rewrite opt_len_spec in *. done.
  - intros [(-> & -> & -> & Hd) (Hc & Hk & Hh)].
    by rewrite (proj2 (opt_len_spec 32 _) Hd), (proj2 (opt_len_spec 1088 _) Hc), (proj2 (opt_len_spec 1184 _) Hk),
      (proj2 (opt_len_spec 32 _) Hh).
Qed.

Lemma validate_signed_v1_ok e :
  validate_signed_v1 e = Ok tt <-> v1_lengths (se_envelope e) /\ zlen (se_signature e) = 64.
Proof.
  unfold validate_signed_v1, v1_lengths. split.
  - intros H. checks H. bool_to_prop. by rewrite opt_len_spec in *.
  - intros [(-> & -> & -> & Hd) ->]. by rewrite (proj2 (opt_len_spec 32 _) Hd).
Qed.

Lemma validate_signed_v2_ok e :
  validate_signed_v2 e = Ok tt <->
  (v2_lengths (se2_envelope e) /\ pq_lengths (se2_envelope e)) /\ zlen (se2_signature e) = 64.
Proof.
  unfold validate_signed_v2, v2_lengths, pq_lengths. split.
  - intros H. checks H. bool_to_prop. rewrite opt_len_spec in *. done.
  - intros [[(-> & -> & -> & Hd) (Hc & Hk & Hh)] ->].
    by rewrite (proj2 (opt_len_spec 32 _) Hd), (proj2 (opt_len_spec 1088 _) Hc), (proj2 (opt_len_spec 1184 _) Hk),
      (proj2 (opt_len_spec 32 _) Hh).
Qed.

(** *** The Drift path *)

Lemma read_ratchet_len data o dh num o' :
  read_ratchet data o = Ok (dh, num, o') -> forall k, dh = Some k -> zlen k = 32.
Proof.
  unfold read_ratchet. intros H k ->. destruct (_ <? _); [|done]. res_inv.
  destruct (_ =? 1); [|done]. destruct (_ <=? _); [|done]. res_inv.
  match goal with E : slice _ _ _ = Ok ?d |- _ => apply slice_length in E end. congruence || lia.
Qed.

Lemma from_bytes_lengths data e :
  envelope_from_bytes lz4_decompress data = Ok e ->
  zlen (e_sender_public_key e) = 32 /\ zlen (e_ephemeral_public_key e) = 32 /\ zlen (e_nonce e) = 24 /\
  (forall k, e_ratchet_dh_public e = Some k -> zlen k = 32).
Proof.
  unfold envelope_from_bytes. intros H. cbv zeta in H. destruct (_ <? FIXED_OVERHEAD); [done|]. res_inv.
  destruct (negb _); [done|]. res_inv. destruct (_ <? _); [done|]. res_inv.
  repeat match goal with E : slice _ _ _ = Ok _ |- _ => apply slice_length in E end.
  repeat match goal with p : _ * _ |- _ => destruct p end. cbn [rbind] in *. res_inv.
  repeat match goal with p : _ * _ |- _ => destruct p end. cbn [rbind] in *. res_inv. cbn.
  split_and!; try lia. by eapply read_ratchet_len.
Qed.

Lemma try_drift_Some buf e :
  try_drift buf = Ok (Some e) ->
  envelope_from_bytes lz4_decompress buf = Ok e /\ exists b rest, buf = b :: rest /\ byte.unsigned b = DRIFT_VERSION.
Proof.
  unfold try_drift. destruct buf as [|b rest]; [done|]. destruct (Z.eqb_spec (byte.unsigned b) DRIFT_VERSION); [|done].
  destruct (envelope_from_bytes _ _) as [e'|?|]; [|done..]. destruct (envelope_verify _ _ _ _); [|done..].
  intros [= <-]. eauto.
Qed.

Lemma try_drift_other b rest : byte.unsigned b <> DRIFT_VERSION -> try_drift (b :: rest) = Ok None.
Proof. intros H. unfold try_drift. by rewrite (proj2 (Z.eqb_neq _ _) H). Qed.

(** ** Properties *)

Definition wire_lengths (e : WireEnvelope) : Prop :=
  match e with WireV1 l => v1_lengths l | WireV2 v => v2_lengths v /\ pq_lengths v end.

Definition wire_signed_lengths (e : WireSignedEnvelope) : Prop :=
  match e with
  | WireSignedV1 l => v1_lengths (se_envelope l) /\ zlen (se_signature l) = 64
  | WireSignedV2 v => (v2_lengths (se2_envelope v) /\ pq_lengths (se2_envelope v)) /\ zlen (se2_signature v) = 64
  end.

Section RoundTrip.
Context {LL : LawfulCodec LegacyEnvelope} {LV : LawfulCodec EnvelopeV2}.
Context {LS : LawfulCodec SignedEnvelope} {LS2 : LawfulCodec SignedEnvelopeV2} {LMsg : LawfulCodec Message}.
(** The layout of [bincode]: a vector is its length in eight little-endian bytes, then its items. *)
Context (bincode_head : forall e b, enc e = Some b ->
  exists rest, b = byte.of_Z (zlen (l_sender_public_key e)) :: rest).
Context (bincode_head_signed : forall e b, enc e = Some b ->
  exists rest, b = byte.of_Z (zlen (l_sender_public_key (se_envelope e))) :: rest).

Lemma encode_limited_ok {A} `{LawfulCodec A} (v : A) msg b :
  encode_limited v msg = Ok b -> enc v = Some b /\ dec b = Some v /\ zlen b <= MAX_MESSAGE_SIZE.
Proof.
  unfold encode_limited. destruct (enc_dec v) as (b' & He & Hd). rewrite He. cbn [ok_or rbind].
  destruct (Z.ltb_spec MAX_MESSAGE_SIZE (zlen b')); [done|]. intros [= <-]. done.
Qed.

Lemma tagged_ok {A} `{LawfulCodec A} (v : A) msg b :
  (let! env_bytes := ok_or (enc v) "bincode"%string in
   let bytes := WIRE_TAG_V2 :: env_bytes in
   if MAX_MESSAGE_SIZE <? zlen bytes then Err msg else Ok bytes) = Ok b ->
  exists b', b = WIRE_TAG_V2 :: b' /\ dec b' = Some v /\ zlen b <= MAX_MESSAGE_SIZE.
Proof.
  destruct (enc_dec v) as (b' & He & Hd). rewrite He. cbn [ok_or rbind]. cbv zeta.
  destruct (Z.ltb_spec MAX_MESSAGE_SIZE (zlen (WIRE_TAG_V2 :: b'))); [done|]. intros [= <-]. by exists b'.
Qed.

(** C18: what the codec writes it reads.  A message within the payload limit, and a wire or
    signed wire envelope of either version whose fields have their lengths, are decoded to
    themselves whenever they can be encoded; the three formats are never confused. *)
Theorem message_codec_roundtrip :
  (forall m b, encode_message m = Ok b -> zlen (mg_payload m) <= MAX_PAYLOAD_SIZE /\ decode_message b = Ok m) /\
  (forall e b, encode_wire_envelope e = Ok b -> wire_lengths e -> decode_wire_envelope b = Ok e) /\
  (forall e b, encode_wire_signed_envelope e = Ok b -> wire_signed_lengths e -> decode_wire_signed_envelope b = Ok e).
Proof.
  split; [|split].
  - intros m b. unfold encode_message, validate_payload_size, decode_message.
    destruct (Z.ltb_spec MAX_PAYLOAD_SIZE (zlen (mg_payload m))); [done|]. cbn [rbind].
    intros (_ & Hd & Hl)%encode_limited_ok. split; [done|].
    destruct (Z.ltb_spec MAX_MESSAGE_SIZE (zlen b)); [lia|]. by rewrite Hd.
  - intros [l|v] b; cbn [encode_wire_envelope wire_lengths].
    + intros (He & Hd & Hl)%encode_limited_ok Hlen. destruct (bincode_head l b He) as [rest Hb].
      rewrite (proj1 Hlen) in Hb. subst b. unfold decode_wire_envelope.
      destruct (Z.ltb_spec MAX_MESSAGE_SIZE (zlen (byte.of_Z 32 :: rest))); [lia|].
      rewrite try_drift_other by done. cbn [rbind]. rewrite decide_False by done.
      unfold decode_wire_v1. rewrite Hd. cbn [ok_or rbind]. by rewrite (proj2 (validate_v1_ok l) Hlen).
    + intros (b' & -> & Hd & Hl)%tagged_ok Hlen. unfold decode_wire_envelope.
      destruct (Z.ltb_spec MAX_MESSAGE_SIZE (zlen (WIRE_TAG_V2 :: b'))); [lia|].
      rewrite try_drift_other by done. cbn [rbind]. rewrite decide_True by done.
      rewrite Hd. by rewrite (proj2 (validate_v2_ok v) Hlen).
  - intros [l|v] b; cbn [encode_wire_signed_envelope wire_signed_lengths].
    + intros (He & Hd & Hl)%encode_limited_ok Hlen. destruct (bincode_head_signed l b He) as [rest Hb].
      rewrite (proj1 (proj1 Hlen)) in Hb. subst b. unfold decode_wire_signed_envelope.
      destruct (Z.ltb_spec MAX_MESSAGE_SIZE (zlen (byte.of_Z 32 :: rest))); [lia|].
      rewrite decide_False by done.
      unfold decode_wire_signed_v1. rewrite Hd. cbn [ok_or rbind]. by rewrite (proj2 (validate_signed_v1_ok l) Hlen).
    + intros (b' & -> & Hd & Hl)%tagged_ok Hlen. unfold decode_wire_signed_envelope.
      destruct (Z.ltb_spec MAX_MESSAGE_SIZE (zlen (WIRE_TAG_V2 :: b'))); [lia|].
      rewrite decide_True by done. rewrite Hd. by rewrite (proj2 (validate_signed_v2_ok v) Hlen).
Qed.

End RoundTrip.

(** C19: what a decoded envelope is.  Every wire envelope that is accepted, whatever the
    bytes, has keys of 32 bytes and a nonce of 24, and was at most the size limit; its
    post-quantum fields have their lengths too unless it came in the Drift format, which
    starts with its version byte.  Signed envelopes always have all of them. *)
Theorem decoded_wire_typed :
  (forall buf e, decode_wire_envelope buf = Ok e ->
     0 < zlen buf <= MAX_MESSAGE_SIZE /\
     match e with
     | WireV1 l => v1_lengths l
     | WireV2 v => v2_lengths v /\ ((exists b rest, buf = b :: rest /\ byte.unsigned b = DRIFT_VERSION) \/ pq_lengths v)
     end) /\
  (forall buf e, decode_wire_signed_envelope buf = Ok e ->
     0 < zlen buf <= MAX_MESSAGE_SIZE /\ wire_signed_lengths e).
Proof.
  split; intros [|b rest] e; try done; unfold decode_wire_envelope, decode_wire_signed_envelope, decode_wire_v1, decode_wire_signed_v1;
    (destruct (Z.ltb_spec MAX_MESSAGE_SIZE (zlen (b :: rest))) as [|Hl]; [done|]); rewrite zlen_cons in *;
    pose proof (zlen_nonneg rest); intros H0; (split; [lia|]).
  - apply rbind_ok_inv in H0 as ([d|] & Hd & H0).
    + injection H0 as <-. apply try_drift_Some in Hd as [Hd Hver]. apply from_bytes_lengths in Hd.
      unfold to_wire_envelope. case_if; [|exact Hd]. split; [exact Hd|by left].
    + assert (forall (r : res string LegacyEnvelope), (let! env := r in let! _ := validate_v1 env in Ok (WireV1 env)) = Ok e ->
        exists l, e = WireV1 l /\ v1_lengths l) as Hv1.
      { intros r Hr. res_inv. destruct a0. eexists. split; [done|]. by apply validate_v1_ok. }
      case_decide; [destruct (dec rest) as [v|]|].
      * res_inv. destruct a. apply validate_v2_ok in E as [? ?]. by split; [|right].
      * apply Hv1 in H0 as (l & -> & ?). done.
      * apply Hv1 in H0 as (l & -> & ?). done.
  - assert (forall (r : res string SignedEnvelope), (let! env := r in let! _ := validate_signed_v1 env in Ok (WireSignedV1 env)) = Ok e ->
        wire_signed_lengths e) as Hv1.
    { intros r Hr. res_inv. destruct a0. by apply validate_signed_v1_ok. }
    case_decide; [destruct (dec rest) as [v|]|].
    + res_inv. destruct a. by apply validate_signed_v2_ok.
    + by eapply Hv1.
    + by eapply Hv1.
Qed.

End MessageCodec.

(** ** From the Drift encoder to the message codec *)

Section Network.
Context {BM : Build}.
Context {CL : Codec LegacyEnvelope} {CV : Codec EnvelopeV2}.
Context (lz4_compress : bytes -> bytes) (lz4_decompress : bytes -> res string bytes).
Context (blake3 : bytes -> bytes) {SigningKey : Type}.
Context (ed_sign : SigningKey -> bytes -> bytes) (ed_public : SigningKey -> bytes).
Context (ed_key_ok : bytes -> res string unit).
Context (ed_verify : bytes -> bytes -> bytes -> res string unit).
Context (uuid_parse : string -> res string bytes).
(** The documented behaviour of the libraries, as for envelopes. *)
Context (lz4_inverse : forall d, lz4_decompress (lz4_compress d) = Ok d).
Context (blake3_len : forall m, zlen (blake3 m) = 32).
Context (uuid_len : forall s u, uuid_parse s = Ok u -> zlen u = 16).
Context (ed_sign_len : forall k m, zlen (ed_sign k m) = 64).
Context (ed_public_ok : forall k, ed_key_ok (ed_public k) = Ok tt).
Context (ed_correct : forall k m, ed_verify (ed_public k) m (ed_sign k m) = Ok tt).

Abbreviation decode := (decode_wire_envelope lz4_decompress blake3 ed_key_ok ed_verify).

(** A buffer that the Drift decoder accepts starts with the version. *)
Lemma from_bytes_version data r :
  envelope_from_bytes lz4_decompress data = r -> (forall e, r <> Err e) ->
  exists b rest, data = b :: rest /\ byte.unsigned b = DRIFT_VERSION.
Proof.
  intros <- H. unfold envelope_from_bytes in H. cbv zeta in H.
  destruct (Z.ltb_spec (zlen data) FIXED_OVERHEAD); [by exfalso; eapply H|].
  destruct data as [|b rest]; [unfold FIXED_OVERHEAD in *; change (zlen (@nil byte)) with 0 in *; lia|].
  exists b, rest. split; [done|]. rewrite (idx_head b rest 0) in H by done. cbn [rbind] in H.
  destruct (Z.eqb_spec (byte.unsigned b) DRIFT_VERSION) as [|Hn]; [done|]. by exfalso; eapply H.
Qed.

Lemma decode_drift data e :
  envelope_from_bytes lz4_decompress data = Ok e -> envelope_verify blake3 ed_key_ok ed_verify e = Ok tt ->
  zlen data <= MAX_MESSAGE_SIZE -> decode data = Ok (to_wire_envelope e).
Proof.
  intros Hd Hv Hl. destruct (from_bytes_version data (Ok e) Hd) as (b & rest & -> & Hb); [done|].
  unfold decode_wire_envelope, try_drift. destruct (Z.ltb_spec MAX_MESSAGE_SIZE (zlen (b :: rest))); [lia|].
  by rewrite (proj2 (Z.eqb_eq _ _) Hb), Hd, Hv.
Qed.

(** Envelopes sent in the Drift format arrive through the codec.  A legacy or hybrid
    envelope that is wrapped and encoded decodes to itself; the lengths of its post-quantum
    fields play no part in that, although the other formats require them. *)
Theorem drift_through_codec now id pk k e bs :
  envelope_fits lz4_compress e -> envelope_to_bytes lz4_compress e = Ok bs -> zlen bs <= MAX_MESSAGE_SIZE ->
  (forall l, from_legacy_envelope blake3 ed_sign uuid_parse now l id pk k = Ok e ->
     legacy_wf l -> l_sender_public_key l = ed_public k -> decode bs = Ok (WireV1 l)) /\
  (forall v, from_v2_envelope blake3 ed_sign uuid_parse now v id pk k = Ok e ->
     v2_wf v -> v2_sender_public_key v = ed_public k -> decode bs = Ok (WireV2 v)).
Proof.
  intros Hfit Hbs Hl. split.
  - intros l Hfrom Hwf Hk.
    destruct (legacy_delivered lz4_compress lz4_decompress blake3 ed_sign ed_public ed_key_ok ed_verify uuid_parse
      lz4_inverse blake3_len uuid_len ed_sign_len ed_public_ok ed_correct now l id pk k e Hfrom Hwf Hfit Hk)
      as (bs' & e' & Hb & Hd & Hv & Hw). rewrite Hbs in Hb. injection Hb as <-.
    rewrite <-Hw. by apply decode_drift.
  - intros v Hfrom Hwf Hk.
    destruct (v2_delivered lz4_compress lz4_decompress blake3 ed_sign ed_public ed_key_ok ed_verify uuid_parse
      lz4_inverse blake3_len uuid_len ed_sign_len ed_public_ok ed_correct now v id pk k e Hfrom Hwf Hfit Hk)
      as (bs' & e' & Hb & Hd & Hv & Hw). rewrite Hbs in Hb. injection Hb as <-.
    rewrite <-Hw. by apply decode_drift.
Qed.

(** One stray byte from the network is a panic.  The Drift encoding of any envelope without
    post-quantum fields, followed by the byte 0x01, makes the decoder of the network boundary
    panic before any signature is checked; if the libraries do not panic, these are the only
    panics: such a buffer starts with the version and ends in that byte. *)
Theorem decode_wire_panics :
  (forall e bs, envelope_wf e -> envelope_fits lz4_compress e -> has_pq e = false ->
     envelope_to_bytes lz4_compress e = Ok bs -> zlen bs < MAX_MESSAGE_SIZE ->
     decode (bs ++ [Byte.x01]) = Panic) /\
  ((forall d, lz4_decompress d <> Panic) -> (forall k, ed_key_ok k <> Panic) -> (forall k m s, ed_verify k m s <> Panic) ->
   forall buf, decode buf = Panic ->
     (exists b rest, buf = b :: rest /\ byte.unsigned b = DRIFT_VERSION) /\ last buf = Some Byte.x01).
Proof.
  split.
  - intros e bs Hwf Hfit Hpq Hbs Hl.
    pose proof (envelope_flag_panics lz4_compress lz4_decompress lz4_inverse e bs Hwf Hfit Hpq Hbs) as Hp.
    destruct (from_bytes_version _ _ Hp) as (b & rest & Hb & Hver); [done|]. rewrite Hb in Hp |- *.
    unfold decode_wire_envelope, try_drift.
    destruct (Z.ltb_spec MAX_MESSAGE_SIZE (zlen (b :: rest))).
    { rewrite <-Hb, zlen_app in *. change (zlen [Byte.x01]) with 1 in *. lia. }
    by rewrite (proj2 (Z.eqb_eq _ _) Hver), Hp.
  - intros Hlz Hkey Hver [|b rest]; [done|]. unfold decode_wire_envelope, decode_wire_v1. case_if; [done|].
    assert (forall (r : res string LegacyEnvelope), r <> Panic ->
      (let! env := r in let! _ := validate_v1 env in Ok (WireV1 env)) <> Panic) as Hv1.
    { intros r Hr. apply rbind_no_panic; [done|]. intros l _. apply rbind_no_panic; [|done].
      unfold validate_v1. repeat case_if; done. }
    intros [H|([d|] & _ & H)]%rbind_panic_inv; [|done|].
    + unfold try_drift in H. destruct (Z.eqb_spec (byte.unsigned b) DRIFT_VERSION) as [Hb|]; [|done].
      destruct (envelope_from_bytes _ _) as [d|?|] eqn:Hd; [|done|].
      * exfalso. destruct (envelope_verify _ _ _ d) eqn:Hev; [done..|]. revert Hev. unfold envelope_verify.
        pose proof (Hkey (e_sender_public_key d)). destruct (ed_key_ok _); cbn; [|done..].
        pose proof (Hver (e_sender_public_key d) (signing_hash blake3 d) (e_signature d)). by destruct (ed_verify _ _ _).
      * split; [by exists b, rest|]. by apply (envelope_panic_last lz4_decompress).
    + exfalso. case_decide; [destruct (dec rest) as [v|]|].
      * apply rbind_panic_inv in H as [H|(? & _ & ?)]; [|done]. revert H. unfold validate_v2. repeat case_if; done.
      * eapply Hv1; [|exact H]. by destruct (dec (b :: rest)).
      * eapply Hv1; [|exact H]. by destruct (dec (b :: rest)).
Qed.

End Network.

(** ** Concrete instances *)

#[global] Instance LegacyEnvelope_eq_dec : EqDecision LegacyEnvelope.
Proof. solve_decision. Defined.

#[global, program] Instance LegacyEnvelope_countable : Countable LegacyEnvelope :=
  inj_countable' (fun e => (l_sender_public_key e, l_ephemeral_public_key e, l_nonce e, l_ciphertext e,
      l_ratchet_dh_public e, l_ratchet_message_number e))
    (fun '(a, b, c, d, e, f) => mkLegacy a b c d e f) _.
Next Obligation. by intros []. Qed.

#[global] Instance EnvelopeV2_eq_dec : EqDecision EnvelopeV2.
Proof. solve_decision. Defined.

#[global, program] Instance EnvelopeV2_countable : Countable EnvelopeV2 :=
  inj_countable' (fun e => (v2_suite e, v2_sender_public_key e, v2_ephemeral_public_key e, v2_nonce e, v2_ciphertext e,
      v2_ratchet_dh_public e, v2_ratchet_message_number e, v2_pq_kem_ciphertext e, v2_pq_encaps_key e, v2_transcript_hash e))
    (fun '(a, b, c, d, e, f, g, h, i, j) => mkV2 a b c d e f g h i j) _.
Next Obligation. by intros []. Qed.

#[global] Instance SignedEnvelope_eq_dec : EqDecision SignedEnvelope.
Proof. solve_decision. Defined.

#[global, program] Instance SignedEnvelope_countable : Countable SignedEnvelope :=
  inj_countable' (fun e => (se_envelope e, se_signature e)) (fun '(a, b) => mkSigned a b) _.
Next Obligation. by intros []. Qed.

#[global] Instance SignedEnvelopeV2_eq_dec : EqDecision SignedEnvelopeV2.
Proof. solve_decision. Defined.

#[global, program] Instance SignedEnvelopeV2_countable : Countable SignedEnvelopeV2 :=
  inj_countable' (fun e => (se2_envelope e, se2_signature e)) (fun '(a, b) => mkSignedV2 a b) _.
Next Obligation. by intros []. Qed.

#[global] Instance MessageType_eq_dec : EqDecision MessageType.
Proof. solve_decision. Defined.

#[global] Instance MessageType_countable : Countable MessageType.
Proof.
  refine (inj_countable' (fun s => match s with MText => 0 | MReceipt => 1 | MOnionRelay => 2 end)
    (fun n => match n with 0 => MText | 1 => MReceipt | _ => MOnionRelay end) _). by intros [].
Defined.

#[global] Instance Message_eq_dec : EqDecision Message.
Proof. solve_decision. Defined.

#[global, program] Instance Message_countable : Countable Message :=
  inj_countable' (fun m => (mg_id m, mg_sender_id m, mg_recipient_id m, mg_message_type m, mg_payload m, mg_timestamp m))
    (fun '(a, b, c, d, e, f) => mkMessage a b c d e f) _.
Next Obligation. by intros []. Qed.

Module CodecExamples.

(** A codec whose first byte is the low byte of a length, as [bincode] writes it. *)
Definition headed {A} `{Countable A} (len : A -> Z) : Codec A :=
  {| enc a := Some (byte.of_Z (len a) :: enc_any a);
     dec b := match b with _ :: b => match dec_any b with Ok a => Some a | _ => None end | [] => None end |}.

Lemma headed_lawful {A} `{Countable A} (len : A -> Z) : LawfulCodec A (C := headed len).
Proof. intros a. eexists. split; [done|]. cbn. by rewrite dec_enc_any. Qed.

#[local] Instance ex_build : Build := {| overflow_checks := true |}.
#[local] Instance cl : Codec LegacyEnvelope := headed (fun e => zlen (l_sender_public_key e)).
#[local] Instance cs : Codec SignedEnvelope := headed (fun e => zlen (l_sender_public_key (se_envelope e))).
#[local] Instance cv : Codec EnvelopeV2 := any_codec.
#[local] Instance cs2 : Codec SignedEnvelopeV2 := any_codec.
#[local] Instance cm : Codec Message := any_codec.
#[local] Instance ll : LawfulCodec LegacyEnvelope := headed_lawful _.
#[local] Instance ls : LawfulCodec SignedEnvelope := headed_lawful _.
#[local] Instance lv : LawfulCodec EnvelopeV2 := any_codec_lawful.
#[local] Instance ls2 : LawfulCodec SignedEnvelopeV2 := any_codec_lawful.
#[local] Instance lm : LawfulCodec Message := any_codec_lawful.

Definition small : LegacyEnvelope :=
  mkLegacy (replicate 32 Byte.x07) (replicate 32 Byte.x04) (replicate 24 Byte.x05) [Byte.x61] None None.

Lemma small_lengths : v1_lengths small.
Proof. by split_and!. Qed.

Definition small_bytes : bytes := match encode_wire_envelope (WireV1 small) with Ok b => b | _ => [] end.

Lemma message_codec_roundtrip_witness :
  decode_wire_envelope toy_decompress toy_blake3 toy_key_ok toy_verify small_bytes = Ok (WireV1 small).
Proof.
  apply (message_codec_roundtrip toy_decompress toy_blake3 toy_key_ok toy_verify);
    [intros e b [= <-]; eauto|intros e b [= <-]; eauto|vm_compute; reflexivity|exact small_lengths].
Defined.

Lemma decoded_wire_typed_witness : 0 < zlen small_bytes <= MAX_MESSAGE_SIZE.
Proof.
  apply (proj1 (decoded_wire_typed toy_decompress toy_blake3 toy_key_ok toy_verify) small_bytes (WireV1 small)).
  vm_compute. reflexivity.
Defined.

(** The hybrid envelope of this example has a KEM ciphertext of one byte. *)
Lemma drift_through_codec_witness :
  decode_wire_envelope toy_decompress toy_blake3 toy_key_ok toy_verify
    (bytes_of (envelope_to_bytes toy_compress sent_v2)) = Ok (WireV2 sample_v2).
Proof.
  apply (drift_through_codec toy_compress toy_decompress toy_blake3 toy_sign toy_public toy_key_ok
           toy_verify toy_uuid toy_inverse toy_blake3_len toy_uuid_len toy_sign_len (fun _ => eq_refl)
           toy_correct (Ok 1700000000) "id" (toy_public tt) tt sent_v2);
    [by vm_compute|vm_compute; reflexivity|by vm_compute|vm_compute; reflexivity| |reflexivity].
  split_and!; [by vm_compute | by vm_compute | split; intros _; cbn; eauto |].
  repeat apply Forall_cons_2; [split; [done | by vm_compute] .. | apply Forall_nil_2].
Defined.

Lemma decode_wire_panics_witness :
  decode_wire_envelope toy_decompress toy_blake3 toy_key_ok toy_verify
    (bytes_of (envelope_to_bytes toy_compress sample_plain_envelope) ++ [Byte.x01]) = Panic.
Proof.
  apply (proj1 (decode_wire_panics toy_compress toy_decompress toy_blake3 toy_key_ok toy_verify toy_inverse) sample_plain_envelope);
    [exact sample_plain_envelope_wf|by vm_compute|reflexivity|reflexivity|by vm_compute].
Defined.

End CodecExamples.
