(* ===== verification/Registry.v ===== *)
(** * The relay registry ([core/src/store/relay_custody.rs], [RelayRegistry])

    Which device of an identity a relay delivers to: one record per identity in a
    storage backend, the state machine that registration and deregistration
    requests drive, and the audit log of its transitions.  The registry shares
    its backend with the custody store, or has one of its own; the process-wide
    sequence counter and the readings of the clock are part of the state, so that
    two readings within one operation may differ.  [uuid], [hex] and [blake3] are
    parameters. *)

From stdpp Require Import pretty.
From S2P Require Import Prelude Backend Effects Ids.

(** ** Data *)

Definition REGISTRATION_STATE_PREFIX : bytes := str_bytes "relay_registration_state_".
Definition REGISTRATION_AUDIT_PREFIX : bytes := str_bytes "relay_registration_audit_".
Definition REGISTRATION_STALE_TAKEOVER_MS : Z := 15 * 24 * 60 * 60 * 1000.
Definition HANDOVER_STALE_COLLAPSE_MS : Z := 15 * 24 * 60 * 60 * 1000.

Inductive RegistrationState : Type :=
| Active (device_id : string) (seniority_timestamp : Z)
| Handover (from_device_id to_device_id : string) (initiated_at : Z)
| Abandoned (device_id : string) (abandoned_at : Z).

#[global] Instance RegistrationState_eq_dec : EqDecision RegistrationState.
Proof. solve_decision. Defined.

Record RegistrationRecord : Type := mkRegistration {
  rr_identity_id : string;
  rr_state : RegistrationState;
  rr_updated_at_ms : Z;
}.

Record RegistrationTransition : Type := mkRegTransition {
  rt_identity_id : string;
  rt_from_state : option RegistrationState;
  rt_to_state : RegistrationState;
  rt_reason : string;
  rt_at_ms : Z;
  rt_sequence : Z;
}.

Record RegistrationStateInfo : Type := mkInfo {
  ri_state : string;
  ri_device_id : option string;
  ri_seniority_timestamp : option Z;
}.

Inductive CustodyError : Type := DeviceMismatch | AbandonedIdentity | NoRegistration.

Definition as_code (e : CustodyError) : string :=
  match e with
  | DeviceMismatch => "identity_device_mismatch"
  | AbandonedIdentity => "identity_abandoned"
  | NoRegistration => "identity_registration_missing"
  end.

Inductive CustodyEnforcement : Type :=
| EnforceActive (identity_id device_id : string)
| Redirected (identity_id from_device_id to_device_id : string).

Inductive RegistrySideEffect : Type :=
| SideNone
| Migrate (identity_id from_device_id to_device_id : string)
| Purge (identity_id : string) (device_id : option string).

Record RegistrationUpdateOutcome : Type := mkOutcome {
  ro_state : RegistrationState;
  ro_side_effect : RegistrySideEffect;
}.

Inductive CustodyCompatMode : Type := PhaseA | PhaseB.

Record DeviceStorageSnapshot : Type := mkSnapshot { ds_total_bytes : Z; ds_used_bytes : Z }.

(** ** The state of a relay

    [w_reg] is the registry's backend when it is not the custody backend [w_db];
    [w_seq] is [CUSTODY_SEQUENCE]; [w_ticks] counts the readings of the clock and of
    the storage probe. *)

Record World (B : Type) : Type := mkWorld {
  w_db : B;
  w_reg : option B;
  w_seq : Z;
  w_ticks : nat;
  w_compat : CustodyCompatMode;
  w_ws13 : Z;
  w_legacy : Z;
}.

Arguments mkWorld {B}.
Arguments w_db {B}.
Arguments w_reg {B}.
Arguments w_seq {B}.
Arguments w_ticks {B}.
Arguments w_compat {B}.
Arguments w_ws13 {B}.
Arguments w_legacy {B}.

Definition set_db {B} (w : World B) (d : B) : World B :=
  mkWorld d (w_reg w) (w_seq w) (w_ticks w) (w_compat w) (w_ws13 w) (w_legacy w).

(** The backend of the registry. *)
Definition reg_db {B} (w : World B) : B := default (w_db w) (w_reg w).

Definition set_reg_db {B} (w : World B) (d : B) : World B :=
  match w_reg w with
  | None => set_db w d
  | Some _ => mkWorld (w_db w) (Some d) (w_seq w) (w_ticks w) (w_compat w) (w_ws13 w) (w_legacy w)
  end.

Definition tick {B} (w : World B) : World B :=
  mkWorld (w_db w) (w_reg w) (w_seq w) (S (w_ticks w)) (w_compat w) (w_ws13 w) (w_legacy w).

Definition bump_seq {B} (w : World B) : World B :=
  mkWorld (w_db w) (w_reg w) ((w_seq w + 1) mod 2 ^ 64) (w_ticks w) (w_compat w) (w_ws13 w) (w_legacy w).

(** What the process sees of its surroundings: the clock and the storage probe, by
    the number of the reading, and its environment variables. *)
Class Env : Type := {
  clock : nat -> Z;
  probe : nat -> option DeviceStorageSnapshot;
  env_var : string -> option string;
}.

Definition is_hex_64 (value : string) : bool :=
  (str_len value =? 64) && forallb is_ascii_hexdigit (str_bytes value).

Definition normalize_identity_id (identity_id : string) : res string string :=
  let normalized := to_lowercase (trim identity_id) in
  if is_hex_64 normalized then Ok normalized else Err "registration_identity_id_invalid"%string.

Definition registration_key (identity_id : string) : bytes := REGISTRATION_STATE_PREFIX ++ str_bytes identity_id.

Section Registry.
Context {B : Type} {SB : StorageBackend B} {EV : Env} {IL : IdLib}.
Context {CR : Codec RegistrationRecord} {CT : Codec RegistrationTransition}.

Abbreviation RM := (M (World B)).

Definition normalize_uuid_v4 (value error : string) : res string string :=
  let normalized := trim value in
  match uuid_version normalized with
  | Some v => if v =? 4 then Ok normalized else Err error
  | None => Err error
  end.

Definition derive_identity_id_from_public_key_hex (value : string) : option string :=
  if is_hex_64 value then
    match hex_decode value with
    | Some b => if zlen b =? 32 then Some (hex_encode (blake3_hash b)) else None
    | None => None
    end
  else None.

(** ** Effects *)

Definition now_ms : RM Z := fun w => (Ok (clock (w_ticks w)), tick w).

Definition next_sequence : RM Z := fun w => (Ok (w_seq w), bump_seq w).

Definition reg_get (k : bytes) : RM (option bytes) := reads (fun w => be_get (reg_db w) k).
Definition reg_scan (p : bytes) : RM (list (bytes * bytes)) := reads (fun w => be_scan_prefix (reg_db w) p).
Definition reg_put (k v : bytes) : RM unit := writes (fun w => rmap (set_reg_db w) (be_put (reg_db w) k v)).
Definition reg_flush : RM unit := writes (fun w => rmap (set_reg_db w) (be_flush (reg_db w))).

(** ** The registry *)

Definition registry_len (w : World B) : Z :=
  match be_count_prefix (reg_db w) REGISTRATION_STATE_PREFIX with Ok n => n | _ => 0 end.

Definition registry_is_empty (w : World B) : bool := registry_len w =? 0.

Definition registration_audit_key (at_ms sequence : Z) (identity_id : string) : bytes :=
  REGISTRATION_AUDIT_PREFIX ++ str_bytes (zero_pad 20 at_ms) ++ str_bytes "_" ++ str_bytes (zero_pad 6 sequence)
    ++ str_bytes "_" ++ str_bytes identity_id.

Definition registry_record_transition (identity_id : string) (from_state : option RegistrationState)
    (to_state : RegistrationState) (reason : string) (at_ms : Z) : RM unit :=
  let* sequence := next_sequence in
  let key := registration_audit_key at_ms sequence identity_id in
  let transition := mkRegTransition identity_id from_state to_state reason at_ms sequence in
  let* bytes := lift (ok_or (enc transition) "serialize registration transition failed") in
  reg_put key bytes.

Definition persist_state (identity_id : string) (from_state : option RegistrationState)
    (state : RegistrationState) (reason : string) (updated_at_ms : Z) : RM unit :=
  let record := mkRegistration identity_id state updated_at_ms in
  let* bytes := lift (ok_or (enc record) "serialize registration state failed") in
  let* _ := reg_put (registration_key identity_id) bytes in
  let* _ := registry_record_transition identity_id from_state state reason updated_at_ms in
  reg_flush.

Definition record_exists (identity_id : string) : RM bool :=
  let* b := reg_get (registration_key identity_id) in ret (bool_decide (is_Some b)).

(** A handover that nobody completed in time becomes an abandonment when it is read. *)
Definition get_record_by_identity_id (identity_id : string) : RM (option RegistrationRecord) :=
  let* b := reg_get (registration_key identity_id) in
  match b with
  | None => ret None
  | Some bytes =>
      let* record := lift (ok_or (dec bytes) "deserialize registration state failed") in
      match rr_state record with
      | Handover from_device_id _ initiated_at =>
          let* now := now_ms in
          if HANDOVER_STALE_COLLAPSE_MS <? sat_sub now initiated_at then
            let* abandoned_at := now_ms in
            let collapsed := Abandoned from_device_id abandoned_at in
            let* updated_at := now_ms in
            let* _ := persist_state identity_id (Some (rr_state record)) collapsed
                        "registration_handover_stale_timeout" updated_at in
            let* now' := now_ms in
            ret (Some (mkRegistration identity_id collapsed now'))
          else ret (Some record)
      | _ => ret (Some record)
      end
  end.

(** The [match] of [register]: the new state, what the custody store has to do, the reason. *)
Definition register_decision (identity_id device_id : string) (seniority_timestamp now : Z)
    (current : option RegistrationRecord) : res string (RegistrationState * RegistrySideEffect * string) :=
  let active := Active device_id seniority_timestamp in
  match current with
  | None => Ok (active, SideNone, "registration_activated"%string)
  | Some r =>
      match rr_state r with
      | Active active_device_id _ =>
          if decide (active_device_id = device_id) then Ok (active, SideNone, "registration_refreshed"%string)
          else if REGISTRATION_STALE_TAKEOVER_MS <? sat_sub now (rr_updated_at_ms r)
          then Ok (active, Purge identity_id (Some active_device_id), "registration_stale_takeover"%string)
          else Err "registration_active_conflict"%string
      | Handover _ to_device_id _ =>
          if decide (to_device_id = device_id)
          then Ok (active, SideNone, "registration_handover_completed"%string)
          else Err "registration_handover_conflict"%string
      | Abandoned _ _ => Ok (active, SideNone, "registration_reactivated"%string)
      end
  end.

Definition register (identity_id device_id : string) (seniority_timestamp : Z) : RM RegistrationUpdateOutcome :=
  let* identity_id := lift (normalize_identity_id identity_id) in
  let* device_id := lift (normalize_uuid_v4 device_id "registration_device_id_invalid") in
  if seniority_timestamp =? 0 then throw "registration_seniority_invalid" else
  let* now := now_ms in
  let* current := get_record_by_identity_id identity_id in
  let* '(state, side_effect, reason) :=
    lift (register_decision identity_id device_id seniority_timestamp now current) in
  let* _ := persist_state identity_id (rr_state <$> current) state reason now in
  ret (mkOutcome state side_effect).

(** The [match] of [deregister]. *)
Definition deregister_decision (identity_id from_device_id : string) (target_device_id : option string) (now : Z)
    (previous_state : RegistrationState) : res string (RegistrationState * RegistrySideEffect * string) :=
  match previous_state with
  | Active device_id _ =>
      if decide (device_id = from_device_id) then
        match target_device_id with
        | Some target =>
            Ok (Handover from_device_id target now, Migrate identity_id from_device_id target,
                "registration_handover_started"%string)
        | None =>
            Ok (Abandoned from_device_id now, Purge identity_id None, "registration_abandoned"%string)
        end
      else Err "registration_device_mismatch"%string
  | Handover current_from current_to initiated_at =>
      if decide (current_from = from_device_id /\ target_device_id = Some current_to)
      then Ok (Handover current_from current_to initiated_at, SideNone, "registration_handover_reaffirmed"%string)
      else Err "registration_handover_conflict"%string
  | Abandoned device_id _ =>
      if decide (device_id = from_device_id)
      then Ok (Abandoned device_id now, SideNone, "registration_abandon_reaffirmed"%string)
      else Err "registration_device_mismatch"%string
  end.

Definition deregister (identity_id from_device_id : string) (target_device_id : option string)
  : RM RegistrationUpdateOutcome :=
  let* identity_id := lift (normalize_identity_id identity_id) in
  let* from_device_id := lift (normalize_uuid_v4 from_device_id "deregistration_from_device_id_invalid") in
  let* target_device_id :=
    match target_device_id with
    | Some t => let* t := lift (normalize_uuid_v4 t "deregistration_target_device_id_invalid") in ret (Some t)
    | None => ret None
    end in
  if decide (target_device_id = Some from_device_id) then throw "deregistration_target_matches_source" else
  let* now := now_ms in
  let* current := get_record_by_identity_id identity_id in
  match current with
  | None => throw "registration_not_found"
  | Some current =>
      let previous_state := rr_state current in
      let* '(state, side_effect, reason) :=
        lift (deregister_decision identity_id from_device_id target_device_id now previous_state) in
      let* _ := persist_state identity_id (Some previous_state) state reason now in
      ret (mkOutcome state side_effect)
  end.

(** Accepts an identity, or a public key whose hash is a registered identity. *)
Definition normalize_lookup_identity (identity_hint : string) : RM (option string) :=
  let trimmed := to_lowercase (trim identity_hint) in
  if negb (is_hex_64 trimmed) then ret None else
  let* found := record_exists trimmed in
  if found : bool then ret (Some trimmed) else
  match derive_identity_id_from_public_key_hex trimmed with
  | Some derived =>
      let* found := record_exists derived in
      if found : bool then ret (Some derived) else ret (Some trimmed)
  | None => ret (Some trimmed)
  end.

Definition get_state (identity_id : string) : RM (option RegistrationState) :=
  let* id := normalize_lookup_identity identity_id in
  match id with
  | None => ret None
  | Some id => let* r := get_record_by_identity_id id in ret (rr_state <$> r)
  end.

Definition get_state_info (identity_id : string) : RM RegistrationStateInfo :=
  let* s := try_ok (get_state identity_id) in
  ret match mjoin s with
      | Some (Active device_id ts) => mkInfo "active" (Some device_id) (Some ts)
      | Some (Handover _ to_device_id _) => mkInfo "handover" (Some to_device_id) None
      | Some (Abandoned device_id _) => mkInfo "abandoned" (Some device_id) None
      | None => mkInfo "none" None None
      end.

(** The [match] of [enforce_custody]. *)
Definition enforce_decision (identity_id device_id : string) (s : option RegistrationState)
  : CustodyEnforcement + CustodyError :=
  match s with
  | Some (Active active_device_id _) =>
      if decide (active_device_id = device_id) then inl (EnforceActive identity_id device_id) else inr DeviceMismatch
  | Some (Handover from_device_id to_device_id _) =>
      if decide (device_id = from_device_id \/ device_id = to_device_id)
      then inl (Redirected identity_id from_device_id to_device_id) else inr DeviceMismatch
  | Some (Abandoned _ _) => inr AbandonedIdentity
  | None => inr NoRegistration
  end.

(** Errors are values of [CustodyError] here, by their codes. *)
Definition enforce_custody (identity_id device_id : string) : RM CustodyEnforcement :=
  let* id := or_throw (normalize_lookup_identity identity_id) (as_code NoRegistration) in
  match id with
  | None => throw (as_code NoRegistration)
  | Some id =>
      let* device_id := or_throw (lift (normalize_uuid_v4 device_id "registration_device_id_invalid"))
                          (as_code NoRegistration) in
      let* s := or_throw (get_state id) (as_code NoRegistration) in
      match enforce_decision id device_id s with
      | inl e => ret e
      | inr e => throw (as_code e)
      end
  end.

Definition transition_le (a b : RegistrationTransition) : Prop :=
  rt_at_ms a < rt_at_ms b \/ (rt_at_ms a = rt_at_ms b /\ rt_sequence a <= rt_sequence b).

#[export] Instance transition_le_dec : RelDecision transition_le.
Proof. intros a b. unfold transition_le. apply _. Defined.

Definition transitions_for_identity (identity_id : string) : RM (list RegistrationTransition) :=
  let* id := try_ok (normalize_lookup_identity identity_id) in
  match mjoin id with
  | None => ret []
  | Some id =>
      let* entries := try_ok (reg_scan REGISTRATION_AUDIT_PREFIX) in
      ret (stable_sort transition_le
             (filter (fun t => rt_identity_id t = id) (omap (fun kv => dec kv.2) (default [] entries))))
  end.

End Registry.

(** ** The abstract registration machine

    What the registry promises of one identity: the steps its record can take, by
    the device that asks for the step (none for the collapse of a handover) and the
    time of the step. *)

Inductive reg_step : option string -> Z -> option RegistrationRecord -> option RegistrationRecord -> Prop :=
| step_activate d now ts i :
    reg_step (Some d) now None (Some (mkRegistration i (Active d ts) now))
| step_refresh d now ts ts' i i' u :
    reg_step (Some d) now (Some (mkRegistration i (Active d ts) u)) (Some (mkRegistration i' (Active d ts') now))
| step_takeover d d' now ts ts' i i' u :
    d <> d' -> REGISTRATION_STALE_TAKEOVER_MS < now - u ->
    reg_step (Some d') now (Some (mkRegistration i (Active d ts) u)) (Some (mkRegistration i' (Active d' ts') now))
| step_complete f t at_ now ts i i' u :
    reg_step (Some t) now (Some (mkRegistration i (Handover f t at_) u)) (Some (mkRegistration i' (Active t ts) now))
| step_reactivate d d' at_ now ts i i' u :
    reg_step (Some d') now (Some (mkRegistration i (Abandoned d at_) u)) (Some (mkRegistration i' (Active d' ts) now))
| step_handover d t now ts i i' u :
    d <> t ->
    reg_step (Some d) now (Some (mkRegistration i (Active d ts) u)) (Some (mkRegistration i' (Handover d t now) now))
| step_abandon d now ts i i' u :
    reg_step (Some d) now (Some (mkRegistration i (Active d ts) u)) (Some (mkRegistration i' (Abandoned d now) now))
| step_reaffirm f t at_ now i i' u :
    reg_step (Some f) now (Some (mkRegistration i (Handover f t at_) u)) (Some (mkRegistration i' (Handover f t at_) now))
| step_reabandon d at_ now i i' u :
    reg_step (Some d) now (Some (mkRegistration i (Abandoned d at_) u)) (Some (mkRegistration i' (Abandoned d now) now))
| step_collapse f t at_ abandoned_at updated_at now i i' u :
    HANDOVER_STALE_COLLAPSE_MS < now - at_ ->
    reg_step None now (Some (mkRegistration i (Handover f t at_) u))
      (Some (mkRegistration i' (Abandoned f abandoned_at) updated_at)).

(** ** What the operations do to a lawful backend *)

Section Laws.
Context {B : Type} {SB : StorageBackend B} {LB : LawfulBackend B} {EV : Env} {IL : IdLib}.
Context {CR : Codec RegistrationRecord} {CT : Codec RegistrationTransition}.
Context {LR : LawfulCodec RegistrationRecord} {LT : LawfulCodec RegistrationTransition}.

Implicit Types w : World B.

Definition rview w : gmap bytes bytes := be_view (reg_db w).
Definition cview w : gmap bytes bytes := be_view (w_db w).

(** The record of an identity. *)
Definition reg_at w (identity_id : string) : option RegistrationRecord :=
  rview w !! registration_key identity_id ≫= dec.

Definition reg_key (k : bytes) : Prop :=
  (exists i, k = REGISTRATION_STATE_PREFIX ++ i) \/ (exists i, k = REGISTRATION_AUDIT_PREFIX ++ i).

(** Nothing but the registry's entries and the counters changed, and time went on. *)
Record reg_only w w' : Prop := {
  ro_custody : forall k, ~ reg_key k -> cview w' !! k = cview w !! k;
  ro_compat : w_compat w' = w_compat w;
  ro_ws13 : w_ws13 w' = w_ws13 w;
  ro_legacy : w_legacy w' = w_legacy w;
  ro_time : (w_ticks w <= w_ticks w')%nat;
}.

Lemma reg_only_refl w : reg_only w w.
Proof. by constructor. Qed.

Lemma reg_only_trans w1 w2 w3 : reg_only w1 w2 -> reg_only w2 w3 -> reg_only w1 w3.
Proof.
  intros [H1 ? ? ? ?] [H2 ? ? ? ?]. constructor; [intros k Hk; by rewrite H2, H1|congruence..|lia].
Qed.

Lemma reg_only_tick w : reg_only w (tick w).
Proof. constructor; intros; cbn; done || lia. Qed.

Lemma reg_only_bump w : reg_only w (bump_seq w).
Proof. constructor; intros; cbn; done || lia. Qed.

Lemma rview_set w d : rview (set_reg_db w d) = be_view d.
Proof. unfold rview, reg_db, set_reg_db. by destruct w as [? []]. Qed.

Lemma reg_only_set w d :
  (forall k, ~ reg_key k -> be_view d !! k = rview w !! k) -> reg_only w (set_reg_db w d).
Proof.
  intros H. unfold set_reg_db. destruct w as [db [r|] ? ? ? ? ?]; constructor; try done.
Qed.

Lemma registration_key_reg i : reg_key (registration_key i).
Proof. left. by exists (str_bytes i). Qed.

Lemma registration_audit_key_reg a s i : reg_key (registration_audit_key a s i).
Proof. right. by eexists. Qed.

#[export] Instance registration_key_inj : Inj (=) (=) registration_key.
Proof. intros i j H. by apply app_inv_head, str_bytes_inj in H. Qed.

Lemma audit_not_registration a s i j : registration_audit_key a s i <> registration_key j.
Proof. intros H. apply app_inj_1 in H as [H _]; [|done]. discriminate H. Qed.

(** *** The effects *)

Lemma wp_now_ms (Q : Z -> World B -> Prop) E w : Q (clock (w_ticks w)) (tick w) -> wp now_ms Q E w.
Proof. done. Qed.

Lemma wp_next_sequence (Q : Z -> World B -> Prop) E w : Q (w_seq w) (bump_seq w) -> wp next_sequence Q E w.
Proof. done. Qed.

Lemma wp_reg_get k Q E w : Q (rview w !! k) w -> wp (reg_get k) Q E w.
Proof. intros H. apply wp_reads. by rewrite be_get_law. Qed.

Lemma wp_reg_put k v (Q : unit -> World B -> Prop) E w :
  (forall d, be_view d = <[k := v]> (rview w) -> Q tt (set_reg_db w d)) -> wp (reg_put k v) Q E w.
Proof.
  intros H. unfold wp, reg_put, writes. destruct (be_put_law (reg_db w) k v) as (d & -> & Hd). cbn. by apply H.
Qed.

Lemma wp_reg_flush (Q : unit -> World B -> Prop) E w :
  (forall d, be_view d = rview w -> Q tt (set_reg_db w d)) -> wp reg_flush Q E w.
Proof.
  intros H. unfold wp, reg_flush, writes. destruct (be_flush_law (reg_db w)) as (d & -> & Hd). cbn. by apply H.
Qed.

(** What [persist_state] leaves behind. *)
Record persisted w w' (identity_id : string) (state : RegistrationState) (at_ : Z) : Prop := {
  ps_record : reg_at w' identity_id = Some (mkRegistration identity_id state at_);
  ps_others : forall j, j <> identity_id -> rview w' !! registration_key j = rview w !! registration_key j;
  ps_only : reg_only w w';
  ps_ticks : w_ticks w' = w_ticks w;
  ps_exists : is_Some (rview w' !! registration_key identity_id);
}.

Lemma wp_persist_state i from st reason at_ (Q : unit -> World B -> Prop) E w :
  (forall w', persisted w w' i st at_ -> Q tt w') -> wp (persist_state i from st reason at_) Q E w.
Proof.
  intros H. unfold persist_state, registry_record_transition.
  destruct (enc_dec (mkRegistration i st at_)) as (b & -> & Hdec). wp_steps. cbn [ok_or].
  wp_steps. apply wp_reg_put. intros d1 Hd1. wp_steps. apply wp_next_sequence. wp_steps.
  destruct (enc_dec (mkRegTransition i from st reason at_ (w_seq (set_reg_db w d1)))) as (b2 & -> & _). cbn [ok_or].
  apply wp_reg_put. intros d2 Hd2. apply wp_reg_flush. intros d3 Hd3.
  rewrite rview_set in Hd3.
  change (rview (bump_seq (set_reg_db w d1))) with (rview (set_reg_db w d1)) in Hd2. rewrite rview_set, Hd1 in Hd2.
  apply H. constructor.
  - unfold reg_at. rewrite rview_set, Hd3, Hd2, lookup_insert_ne, lookup_insert_eq by apply audit_not_registration.
    cbn. by rewrite Hdec.
  - intros j Hj. rewrite rview_set, Hd3, Hd2, !lookup_insert_ne; [done| |apply audit_not_registration].
    by intros ?%registration_key_inj.
  - unfold set_reg_db. destruct w as [db [r|] ? ? ? ? ?]; constructor; try done; intros k Hk; unfold cview; cbn.
    rewrite Hd3, Hd2, !lookup_insert_ne; [done| |];
      intros <-; apply Hk; [apply registration_key_reg|apply registration_audit_key_reg].
  - unfold set_reg_db. by destruct w as [db [r|] ? ? ? ? ?].
  - rewrite rview_set, Hd3, Hd2, lookup_insert_ne, lookup_insert_eq by apply audit_not_registration. done.
Qed.

(** *** Reading a record *)

Definition stale_handover (now at_ : Z) : Prop := HANDOVER_STALE_COLLAPSE_MS < now - at_.

Inductive looked w (id : string) : option RegistrationRecord -> World B -> Prop :=
| looked_none : rview w !! registration_key id = None -> looked w id None w
| looked_plain r :
    reg_at w id = Some r -> (forall f t a, rr_state r <> Handover f t a) -> looked w id (Some r) w
| looked_handover r f t a :
    reg_at w id = Some r -> rr_state r = Handover f t a -> ~ stale_handover (clock (w_ticks w)) a ->
    looked w id (Some r) (tick w)
| looked_collapse r f t a at1 at2 at3 w1 :
    reg_at w id = Some r -> rr_state r = Handover f t a -> stale_handover (clock (w_ticks w)) a ->
    persisted (tick (tick (tick w))) w1 id (Abandoned f at1) at2 ->
    looked w id (Some (mkRegistration id (Abandoned f at1) at3)) (tick w1).

Lemma wp_get_record id (Q : option RegistrationRecord -> World B -> Prop) (E : string -> World B -> Prop) w :
  (forall o w', looked w id o w' -> Q o w') -> (forall e, reg_at w id = None -> E e w) ->
  wp (get_record_by_identity_id id) Q E w.
Proof.
  intros HQ HE. unfold get_record_by_identity_id. wp_steps. apply wp_reg_get.
  destruct (rview w !! registration_key id) as [b|] eqn:Hb; [|by apply wp_ret, HQ, looked_none].
  wp_steps. destruct (dec b) as [r|] eqn:Hr; cbn [ok_or]; [|apply HE; unfold reg_at; rewrite Hb; cbn; by rewrite Hr].
  assert (reg_at w id = Some r) as Hat by (unfold reg_at; rewrite Hb; cbn; by rewrite Hr).
    destruct (rr_state r) as [d ts|f t a|d a] eqn:Hs; [by apply wp_ret, HQ, looked_plain; [|rewrite Hs]| |by apply wp_ret, HQ, looked_plain; [|rewrite Hs]].
    wp_steps. apply wp_now_ms. destruct (Z.ltb_spec HANDOVER_STALE_COLLAPSE_MS (sat_sub (clock (w_ticks w)) a)) as [Hl|Hl].
    + wp_steps. apply wp_now_ms. wp_steps. apply wp_now_ms. wp_steps. apply wp_persist_state. intros w1 Hw1.
      wp_steps. apply wp_now_ms, wp_ret, HQ. eapply looked_collapse; try done.
      unfold stale_handover, sat_sub, HANDOVER_STALE_COLLAPSE_MS in *. lia.
    + apply wp_ret, HQ. eapply looked_handover; try done. unfold stale_handover, sat_sub in *. lia.
Qed.

(** *** Operations refine the abstract machine *)

(** One step of an identity's record at a reading of the clock between two states. *)
Definition step_between w w' (who : option string) (r r' : option RegistrationRecord) : Prop :=
  exists i, (w_ticks w <= i < w_ticks w')%nat /\ (reg_step who (clock i) r r' \/ reg_step None (clock i) r r').

(** Every identity's record moves by steps of the machine asked for by [who]. *)
Definition evolves (who : option string) w w' : Prop :=
  reg_only w w' /\ forall x, rtc (step_between w w' who) (reg_at w x) (reg_at w' x).

Lemma step_between_mono w1 w2 w1' w2' who r r' :
  (w_ticks w1' <= w_ticks w1)%nat -> (w_ticks w2 <= w_ticks w2')%nat ->
  step_between w1 w2 who r r' -> step_between w1' w2' who r r'.
Proof. intros ?? (i & ? & ?). exists i. split; [lia|done]. Qed.

Lemma evolves_only who w w' :
  reg_only w w' -> (forall x, reg_at w' x = reg_at w x) -> evolves who w w'.
Proof. intros H Hx. split; [done|]. intros x. by rewrite Hx. Qed.

Lemma evolves_refl who w : evolves who w w.
Proof. by apply evolves_only; [apply reg_only_refl|]. Qed.

Lemma evolves_trans who w1 w2 w3 : evolves who w1 w2 -> evolves who w2 w3 -> evolves who w1 w3.
Proof.
  intros [O1 H1] [O2 H2]. split; [by eapply reg_only_trans|]. intros x.
  destruct O1, O2. etrans; (eapply rtc_subrel; [|eauto]); intros ??; apply step_between_mono; lia.
Qed.

Lemma evolves_weaken who w w' : evolves None w w' -> evolves who w w'.
Proof.
  intros [HO H]. split; [done|]. intros x. eapply rtc_subrel; [|apply H].
  intros r r' (i & Hi & Hs). exists i. split; [done|]. right. by destruct Hs.
Qed.

Lemma reg_at_lookup w w' x : rview w' !! registration_key x = rview w !! registration_key x -> reg_at w' x = reg_at w x.
Proof. unfold reg_at. by intros ->. Qed.

(** A persisted step of one identity. *)
Lemma evolves_persisted who w0 w w' id st at_ i :
  (w_ticks w0 <= i < w_ticks w)%nat -> reg_only w0 w -> (forall x, reg_at w x = reg_at w0 x) ->
  reg_step who (clock i) (reg_at w id) (Some (mkRegistration id st at_)) ->
  persisted w w' id st at_ -> evolves who w0 w'.
Proof.
  intros Hi HO Hat Hs [Hr Hothers Honly Hticks _]. split; [by eapply reg_only_trans|]. intros x.
  destruct (decide (x = id)) as [->|Hx]; [|by rewrite (reg_at_lookup w w' x (Hothers x Hx)), Hat].
  apply rtc_once. exists i. split; [lia|]. left. by rewrite Hr, <-Hat.
Qed.

Lemma looked_evolves w id o w' : looked w id o w' -> evolves None w w'.
Proof.
  intros [Hn|r Hr _|r f t a Hr Hs Hst|r f t a at1 at2 at3 w1 Hr Hs Hst Hp].
  - apply evolves_refl.
  - apply evolves_refl.
  - apply evolves_only; [apply reg_only_tick|done].
  - eapply evolves_trans; [|apply evolves_only; [apply reg_only_tick|done]].
    eapply (evolves_persisted None w (tick (tick (tick w))) w1 id _ _ (w_ticks w)); [cbn; lia| |done| |exact Hp].
    + eapply reg_only_trans; [|eapply reg_only_trans]; apply reg_only_tick.
    + change (reg_at (tick (tick (tick w))) id) with (reg_at w id). rewrite Hr.
      destruct r as [i st u]. cbn in Hs. subst st. by apply step_collapse.
Qed.

(** What was read is what is stored, up to the time of a collapse. *)
Lemma looked_at w id o w' :
  looked w id o w' ->
  rr_state <$> o = rr_state <$> reg_at w' id /\
  (forall r d ts, o = Some r -> rr_state r = Active d ts -> reg_at w' id = Some r).
Proof.
  intros [Hn|r Hr Hs|r f t a Hr Hs Hst|r f t a at1 at2 at3 w1 Hr Hs Hst Hp].
  - unfold reg_at. by rewrite Hn.
  - rewrite Hr. split; [done|]. naive_solver.
  - change (reg_at (tick w) id) with (reg_at w id). rewrite Hr. split; [done|]. naive_solver.
  - change (reg_at (tick w1) id) with (reg_at w1 id). rewrite (ps_record _ _ _ _ _ Hp). split; [done|].
    intros r' d ts [= <-] [=].
Qed.

Lemma wp_normalize_lookup hint (Q : option string -> World B -> Prop) (E : string -> World B -> Prop) w :
  (forall o, Q o w) -> wp (normalize_lookup_identity hint) Q E w.
Proof.
  intros H. unfold normalize_lookup_identity, record_exists. case_if; [by apply wp_ret|].
  wp_steps. apply wp_reg_get. wp_steps. case_if; [by apply wp_ret|].
  destruct (derive_identity_id_from_public_key_hex _); [|by apply wp_ret].
  wp_steps. apply wp_reg_get. wp_steps. case_if; by apply wp_ret.
Qed.

Lemma wp_get_state hint (Q : option RegistrationState -> World B -> Prop) (E : string -> World B -> Prop) w :
  (forall o w', evolves None w w' -> Q o w') -> (forall e, E e w) -> wp (get_state hint) Q E w.
Proof.
  intros HQ HE. unfold get_state. wp_steps. apply wp_normalize_lookup. intros [id|]; [|apply wp_ret, HQ, evolves_refl].
  wp_steps. apply wp_get_record; [|by eauto]. intros o w' Hl. apply wp_ret, HQ. by eapply looked_evolves.
Qed.

Lemma register_decision_step id dev ts now o stored st eff reason :
  register_decision id dev ts now o = Ok (st, eff, reason) ->
  rr_state <$> o = rr_state <$> stored ->
  (forall r d ts', o = Some r -> rr_state r = Active d ts' -> stored = Some r) ->
  reg_step (Some dev) now stored (Some (mkRegistration id st now)).
Proof.
  intros Hd Hst Ha. unfold register_decision in Hd. destruct o as [r|]; cbn in Hst.
  - destruct stored as [[i st' u]|]; [|done]. cbn in Hst. injection Hst as Hst.
    destruct (rr_state r) as [d ts'|f t a|d a] eqn:Hs; subst st'.
    + specialize (Ha r d ts' eq_refl Hs). injection Ha as Ha. subst r. case_decide as E.
      * injection Hd as <- _ _. subst. apply step_refresh.
      * destruct (_ <? _) eqn:C; [|done]. injection Hd as <- _ _. apply step_takeover; [done|].
        bool_to_prop. unfold sat_sub in *. cbn in *. unfold REGISTRATION_STALE_TAKEOVER_MS in *. lia.
    + case_decide; [|done]. injection Hd as <- _ _. subst. apply step_complete.
    + injection Hd as <- _ _. apply step_reactivate.
  - destruct stored; [done|]. injection Hd as <- _ _. apply step_activate.
Qed.

Lemma deregister_decision_step id from target now r st eff reason :
  deregister_decision id from target now (rr_state r) = Ok (st, eff, reason) ->
  target <> Some from ->
  reg_step (Some from) now (Some r) (Some (mkRegistration id st now)).
Proof.
  destruct r as [i st' u]. cbn. intros Hd Ht. destruct st' as [d ts|f t a|d a]; cbn in Hd; case_decide as E; try done; subst.
  - destruct target as [t|]; injection Hd as <- _ _; [apply step_handover; congruence|apply step_abandon].
  - destruct E as [-> ->]. injection Hd as <- _ _. apply step_reaffirm.
  - injection Hd as <- _ _. apply step_reabandon.
Qed.

Lemma normalize_uuid_trim v e r : normalize_uuid_v4 v e = Ok r -> r = trim v.
Proof. unfold normalize_uuid_v4. destruct (uuid_version _); [|done]. case_if; [by intros [= <-]|done]. Qed.

Lemma normalize_uuid_no_panic v e : normalize_uuid_v4 v e <> Panic.
Proof. unfold normalize_uuid_v4. destruct (uuid_version _); [|done]. by case_if. Qed.

Lemma normalize_identity_no_panic id : normalize_identity_id id <> Panic.
Proof. unfold normalize_identity_id. by case_if. Qed.

Lemma register_decision_no_panic id dev ts now o : register_decision id dev ts now o <> Panic.
Proof. destruct o as [r|]; cbn; [|done]. destruct (rr_state r); repeat (case_decide || case_if); done. Qed.

Lemma deregister_decision_no_panic id from target now st : deregister_decision id from target now st <> Panic.
Proof. destruct st; cbn; case_decide; try done. by destruct target. Qed.

(** The effect of a decision that is persisted after the record was read. *)
Lemma looked_persisted who w id o w1 w2 st :
  looked (tick w) id o w1 -> reg_step who (clock (w_ticks w)) (reg_at w1 id) (Some (mkRegistration id st (clock (w_ticks w)))) ->
  persisted w1 w2 id st (clock (w_ticks w)) -> evolves who w w2.
Proof.
  intros Hl Hs [Hr Hothers Honly Hticks _].
  destruct (looked_evolves _ _ _ _ Hl) as [HO Hev]. pose proof (ro_time _ _ HO) as Ht. cbn in Ht.
  split; [eapply reg_only_trans; [apply reg_only_tick|]; by eapply reg_only_trans|]. intros x.
  assert (rtc (step_between w w2 who) (reg_at w x) (reg_at w1 x)) as H1.
  { eapply rtc_subrel; [|apply (Hev x)]. intros r r' (i & Hi & Hst). exists i. split; [cbn in Hi; lia|].
    right. by destruct Hst. }
  destruct (decide (x = id)) as [->|Hx].
  - eapply rtc_r; [exact H1|]. exists (w_ticks w). split; [lia|]. left. by rewrite Hr.
  - by rewrite (reg_at_lookup w1 w2 x (Hothers x Hx)).
Qed.

Lemma looked_evolves_tick who w id o w1 : looked (tick w) id o w1 -> evolves who w w1.
Proof.
  intros Hl%looked_evolves. apply evolves_weaken. eapply evolves_trans; [|exact Hl].
  apply evolves_only; [apply reg_only_tick|done].
Qed.

Lemma wp_register id dev ts w :
  wp (register id dev ts) (fun _ w' => evolves (Some (trim dev)) w w') (fun _ w' => evolves (Some (trim dev)) w w') w.
Proof.
  unfold register. wp_steps. pose proof (normalize_identity_no_panic id).
  destruct (normalize_identity_id id) as [nid|e|]; [|apply evolves_refl|done]. wp_steps.
  pose proof (normalize_uuid_no_panic dev "registration_device_id_invalid").
  destruct (normalize_uuid_v4 dev _) as [nd|e|] eqn:Hd; [|apply evolves_refl|done].
  apply normalize_uuid_trim in Hd as ->. case_if; [apply evolves_refl|].
  wp_steps. apply wp_now_ms. wp_steps. apply wp_get_record; [|intros; apply evolves_only; [apply reg_only_tick|done]].
  intros o w1 Hl. destruct (looked_at _ _ _ _ Hl) as [Hst Ha]. wp_steps.
  pose proof (register_decision_no_panic nid (trim dev) ts (clock (w_ticks w)) o).
  destruct (register_decision _ _ _ _ _) as [[[st eff] reason]|e|] eqn:Hdec; [|by eapply looked_evolves_tick|done].
  wp_steps. apply wp_persist_state. intros w2 Hp. apply wp_ret. eapply looked_persisted; [done| |done].
  by eapply register_decision_step.
Qed.

Lemma wp_deregister id from target w :
  wp (deregister id from target) (fun _ w' => evolves (Some (trim from)) w w')
    (fun _ w' => evolves (Some (trim from)) w w') w.
Proof.
  unfold deregister. wp_steps. pose proof (normalize_identity_no_panic id).
  destruct (normalize_identity_id id) as [nid|e|]; [|apply evolves_refl|done]. wp_steps.
  pose proof (normalize_uuid_no_panic from "deregistration_from_device_id_invalid").
  destruct (normalize_uuid_v4 from _) as [nd|e|] eqn:Hd; [|apply evolves_refl|done].
  apply normalize_uuid_trim in Hd as ->. wp_steps.
  eapply (wp_mono _ (fun _ w' => w' = w) _ (fun _ w' => w' = w));
    [|intros nt ? ->|intros ? ? ->; apply evolves_refl].
  { destruct target as [t|]; [|done]. wp_steps.
    pose proof (normalize_uuid_no_panic t "deregistration_target_device_id_invalid").
    by destruct (normalize_uuid_v4 t _) as [nt|e|]. }
  case_decide as Hnt; [apply evolves_refl|].
  wp_steps. apply wp_now_ms. wp_steps. apply wp_get_record; [|intros; apply evolves_only; [apply reg_only_tick|done]].
  intros o w1 Hl. destruct (looked_at _ _ _ _ Hl) as [Hst Ha].
  destruct o as [r|]; [|by eapply looked_evolves_tick]. wp_steps.
  pose proof (deregister_decision_no_panic nid (trim from) nt (clock (w_ticks w)) (rr_state r)).
  destruct (deregister_decision _ _ _ _ _) as [[[st eff] reason]|e|] eqn:Hdec; [|by eapply looked_evolves_tick|done].
  wp_steps. apply wp_persist_state. intros w2 Hp. apply wp_ret. eapply looked_persisted; [done| |done].
  destruct (reg_at w1 nid) as [r'|]; [|done]. injection Hst as Hst. rewrite Hst in Hdec.
  by eapply deregister_decision_step.
Qed.

Lemma wp_enforce_custody id dev (Q : CustodyEnforcement -> World B -> Prop) (E : string -> World B -> Prop) w :
  (forall e w', evolves None w w' -> Q e w') -> (forall e w', evolves None w w' -> E e w') ->
  wp (enforce_custody id dev) Q E w.
Proof.
  intros HQ HE. unfold enforce_custody. wp_steps. apply wp_normalize_lookup. intros [nid|]; [|apply HE, evolves_refl].
  wp_steps. pose proof (normalize_uuid_no_panic dev "registration_device_id_invalid").
  destruct (normalize_uuid_v4 dev _) as [nd|e|]; [|apply HE, evolves_refl|done]. wp_steps.
  apply wp_get_state; [|intros; apply HE, evolves_refl]. intros o w' Hev.
  destruct (enforce_decision nid nd o); [by apply HQ|by apply HE].
Qed.

(** *** Runs of requests *)

Inductive RegOp : Type :=
| OpRegister (identity_id device_id : string) (seniority_timestamp : Z)
| OpDeregister (identity_id from_device_id : string) (target_device_id : option string)
| OpGetState (identity_id : string)
| OpGetStateInfo (identity_id : string)
| OpEnforce (identity_id device_id : string).

(** The device that asks, as the registry spells it. *)
Definition op_device (op : RegOp) : option string :=
  match op with
  | OpRegister _ d _ => Some (trim d)
  | OpDeregister _ d _ => Some (trim d)
  | _ => None
  end.

(** The state after a request, whether or not it was granted. *)
Definition run_op (op : RegOp) w : World B :=
  match op with
  | OpRegister i d ts => (register i d ts w).2
  | OpDeregister i d t => (deregister i d t w).2
  | OpGetState i => (get_state i w).2
  | OpGetStateInfo i => (get_state_info i w).2
  | OpEnforce i d => (enforce_custody i d w).2
  end.

Definition run_ops (ops : list RegOp) w : World B := foldl (fun w op => run_op op w) w ops.

Lemma run_op_evolves op w : evolves (op_device op) w (run_op op w).
Proof.
  destruct op as [i d ts|i d t|i|i|i d]; cbn [run_op op_device].
  - apply (wp_snd _ (fun w' => evolves _ w w')), wp_register.
  - apply (wp_snd _ (fun w' => evolves _ w w')), wp_deregister.
  - apply (wp_snd _ (fun w' => evolves _ w w')), wp_get_state; [done|intros; apply evolves_refl].
  - apply (wp_snd _ (fun w' => evolves _ w w')). unfold get_state_info. wp_steps.
    apply wp_get_state; [done|intros; apply evolves_refl].
  - apply (wp_snd _ (fun w' => evolves _ w w')), wp_enforce_custody; done.
Qed.

(** *** Which device an identity has *)

(** A record that no step in the interval can leave. *)
Lemma evolves_stable (P : option RegistrationRecord -> Prop) who w w' x :
  evolves who w w' -> P (reg_at w x) ->
  (forall n r r', (w_ticks w <= n < w_ticks w')%nat -> P r ->
     reg_step who (clock n) r r' \/ reg_step None (clock n) r r' -> P r') ->
  P (reg_at w' x).
Proof.
  intros [_ Hev] HP Hstep. specialize (Hev x). revert HP.
  induction Hev as [r|r r1 r2 (n & Hn & Hs) _ IH]; [done|]. eauto.
Qed.

Lemma run_ops_stable (P : option RegistrationRecord -> Prop) ops w x :
  P (reg_at w x) ->
  (forall op n r r', op ∈ ops -> (w_ticks w <= n < w_ticks (run_ops ops w))%nat -> P r ->
     reg_step (op_device op) (clock n) r r' \/ reg_step None (clock n) r r' -> P r') ->
  P (reg_at (run_ops ops w) x) /\ reg_only w (run_ops ops w).
Proof.
  revert w; induction ops as [|op ops IH]; intros w HP Hstep; [split; [done|apply reg_only_refl]|].
  cbn [run_ops foldl] in *. fold (run_ops ops (run_op op w)) in *.
  pose proof (run_op_evolves op w) as Hev. pose proof (ro_time _ _ (proj1 Hev)).
  assert (reg_only (run_op op w) (run_ops ops (run_op op w))) as HO.
  { clear -LB LR LT. revert w op. induction ops as [|o ops IH]; intros w op; [apply reg_only_refl|].
    cbn [run_ops foldl]. eapply reg_only_trans; [apply (proj1 (run_op_evolves o (run_op op w)))|apply IH]. }
  pose proof (ro_time _ _ HO).
  destruct (IH (run_op op w)) as [HP' HO'].
  - eapply evolves_stable; [exact Hev|exact HP|]. intros n r r' Hn. apply Hstep; [left|lia].
  - intros o n r r' Ho Hn. apply Hstep; [by right|lia].
  - split; [done|]. by eapply reg_only_trans; [apply (proj1 Hev)|].
Qed.

Lemma is_hex_64_trim s : is_hex_64 s = true -> trim s = s.
Proof.
  unfold is_hex_64. intros [_ H]%andb_true_iff. apply trim_plain. rewrite Forall_forall. intros a Ha.
  apply hexdigit_plain. rewrite forallb_forall in H. by apply H, list_elem_of_In.
Qed.

Lemma normalize_identity_fix id nid :
  normalize_identity_id id = Ok nid -> is_hex_64 nid = true /\ to_lowercase (trim nid) = nid.
Proof.
  unfold normalize_identity_id. destruct (is_hex_64 _) eqn:Hh; [|done]. intros [= <-]. split; [done|].
  by rewrite (is_hex_64_trim _ Hh), to_lowercase_idemp.
Qed.

(** A registered identity is looked up under its own name. *)
Lemma wp_lookup_registered id nid (Q : option string -> World B -> Prop) E w :
  normalize_identity_id id = Ok nid -> is_Some (rview w !! registration_key nid) ->
  Q (Some nid) w -> wp (normalize_lookup_identity nid) Q E w.
Proof.
  intros [Hh Hl]%normalize_identity_fix Hs HQ. unfold normalize_lookup_identity, record_exists.
  rewrite Hl, Hh. cbn [negb]. wp_steps. apply wp_reg_get. wp_steps. by rewrite bool_decide_true.
Qed.

Lemma looked_Some w id r o w' :
  reg_at w id = Some r -> (forall f t a, rr_state r = Handover f t a -> ~ stale_handover (clock (w_ticks w)) a) ->
  looked w id o w' -> o = Some r /\ (w' = w \/ w' = tick w).
Proof.
  intros Hr Hst [Hn|r' Hr' _|r' f t a Hr' _ _|r' f t a at1 at2 at3 w1 Hr' Hs Hs' _].
  - unfold reg_at in Hr. by rewrite Hn in Hr.
  - rewrite Hr in Hr'. naive_solver.
  - rewrite Hr in Hr'. naive_solver.
  - rewrite Hr in Hr'. injection Hr' as ->. by destruct (Hst f t a).
Qed.

Lemma looked_None w id o w' : looked w id o w' -> reg_at w id = None -> o = None /\ w' = w.
Proof.
  intros [Hn|r' Hr' _|r' f t a Hr' _ _|r' f t a at1 at2 at3 w1 Hr' Hs Hs' _] Hr; [done|congruence..].
Qed.

Lemma wp_get_known id r (Q : option RegistrationRecord -> World B -> Prop) E w :
  reg_at w id = Some r -> (forall f t a, rr_state r = Handover f t a -> ~ stale_handover (clock (w_ticks w)) a) ->
  Q (Some r) w -> Q (Some r) (tick w) -> wp (get_record_by_identity_id id) Q E w.
Proof.
  intros Hr Hst HQ HQ'. apply wp_get_record; [|by rewrite Hr]. intros o w' Hl.
  by destruct (looked_Some _ _ _ _ _ Hr Hst Hl) as [-> [->| ->]].
Qed.

(** The decision on a registration request for an identity whose record is known. *)
Lemma wp_register_known id nid dev nd ts r (Q : RegistrationUpdateOutcome -> World B -> Prop) (E : string -> World B -> Prop) w :
  normalize_identity_id id = Ok nid -> normalize_uuid_v4 dev "registration_device_id_invalid" = Ok nd -> ts <> 0 ->
  reg_at w nid = Some r ->
  (forall f t a, rr_state r = Handover f t a -> ~ stale_handover (clock (S (w_ticks w))) a) ->
  match register_decision nid nd ts (clock (w_ticks w)) (Some r) with
  | Ok (st, eff, _) =>
      forall w', (w_ticks w < w_ticks w')%nat -> reg_at w' nid = Some (mkRegistration nid st (clock (w_ticks w))) ->
        is_Some (rview w' !! registration_key nid) -> Q (mkOutcome st eff) w'
  | Err e => forall w', reg_at w' nid = Some r -> E e w'
  | Panic => True
  end -> wp (register id dev ts) Q E w.
Proof.
  intros Hid Hd Hts Hr Hst HQ. unfold register. rewrite Hid, Hd. wp_steps.
  rewrite (proj2 (Z.eqb_neq ts 0) Hts). wp_steps. apply wp_now_ms. wp_steps.
  set (now := clock (w_ticks w)) in *.
  pose proof (register_decision_no_panic nid nd ts now (Some r)) as Hnp.
  apply (wp_get_known nid r); [done|done| |]; wp_steps;
    destruct (register_decision nid nd ts now (Some r)) as [[[st eff] reason]|e|]; try by apply HQ.
  all: try congruence.
  all: wp_steps; apply wp_persist_state; intros w2 [Hp _ HO _ Hs]; apply wp_ret, HQ; [|done..];
    pose proof (ro_time _ _ HO) as Ht; cbn in Ht; lia.
Qed.

Lemma wp_enforce_known id nid dev nd st (Q : CustodyEnforcement -> World B -> Prop) (E : string -> World B -> Prop) w :
  normalize_identity_id id = Ok nid -> normalize_uuid_v4 dev "registration_device_id_invalid" = Ok nd ->
  rr_state <$> reg_at w nid = Some st -> is_Some (rview w !! registration_key nid) ->
  (forall f t a, st = Handover f t a -> ~ stale_handover (clock (w_ticks w)) a) ->
  match enforce_decision nid nd (Some st) with
  | inl e => Q e w /\ Q e (tick w)
  | inr e => E (as_code e) w /\ E (as_code e) (tick w)
  end -> wp (enforce_custody nid dev) Q E w.
Proof.
  intros Hid Hd Hr Hs Hst HQ. destruct (reg_at w nid) as [r|] eqn:Hat; [|done]. injection Hr as Hr.
  unfold enforce_custody. wp_steps. apply (wp_lookup_registered id); [done|done|].
  wp_steps. rewrite Hd. wp_steps. unfold get_state. wp_steps. apply (wp_lookup_registered id); [done|done|]. wp_steps.
  apply (wp_get_known nid r); [done|by rewrite Hr| |]; apply wp_ret; cbn [fmap option_fmap option_map]; rewrite Hr;
    destruct (enforce_decision nid nd (Some st)); by destruct HQ.
Qed.

(** The active device starts a handover. *)
Lemma deregister_starts_handover id nid from nf to nt w i s u :
  normalize_identity_id id = Ok nid ->
  normalize_uuid_v4 from "deregistration_from_device_id_invalid" = Ok nf ->
  normalize_uuid_v4 to "deregistration_target_device_id_invalid" = Ok nt -> nf <> nt ->
  reg_at w nid = Some (mkRegistration i (Active nf s) u) ->
  exists w1, deregister id from (Some to) w =
      (Ok (mkOutcome (Handover nf nt (clock (w_ticks w))) (Migrate nid nf nt)), w1) /\
    reg_at w1 nid = Some (mkRegistration nid (Handover nf nt (clock (w_ticks w))) (clock (w_ticks w))).
Proof.
  intros Hid Hf Ht Hne Hr. set (a := clock (w_ticks w)).
  destruct (wp_run (deregister id from (Some to))
    (fun o w1 => o = mkOutcome (Handover nf nt a) (Migrate nid nf nt) /\
       reg_at w1 nid = Some (mkRegistration nid (Handover nf nt a) a)) w) as (o & w1 & Hrun & -> & Hw1); [|eauto].
  unfold deregister. rewrite Hid, Hf, Ht. wp_steps. rewrite decide_False by congruence. wp_steps.
  apply wp_now_ms. wp_steps. apply (wp_get_known nid (mkRegistration i (Active nf s) u)); [done|done| |];
    cbn [rr_state deregister_decision]; rewrite decide_True by done; wp_steps; apply wp_persist_state;
    intros w2 Hp; apply wp_ret; (split; [done|apply (ps_record _ _ _ _ _ Hp)]).
Qed.

(** The active device abandons its identity. *)
Lemma deregister_abandons id nid from nf w i s u :
  normalize_identity_id id = Ok nid ->
  normalize_uuid_v4 from "deregistration_from_device_id_invalid" = Ok nf ->
  reg_at w nid = Some (mkRegistration i (Active nf s) u) ->
  exists w1, deregister id from None w =
      (Ok (mkOutcome (Abandoned nf (clock (w_ticks w))) (Purge nid None)), w1) /\
    is_Some (rview w1 !! registration_key nid).
Proof.
  intros Hid Hf Hr. set (a := clock (w_ticks w)).
  destruct (wp_run (deregister id from None)
    (fun o w1 => o = mkOutcome (Abandoned nf a) (Purge nid None) /\ is_Some (rview w1 !! registration_key nid)) w)
    as (o & w1 & Hrun & -> & Hw1); [|eauto].
  unfold deregister. rewrite Hid, Hf. wp_steps. rewrite decide_False by done. wp_steps.
  apply wp_now_ms. wp_steps. apply (wp_get_known nid (mkRegistration i (Active nf s) u)); [done|done| |];
    cbn [rr_state deregister_decision]; rewrite decide_True by done; wp_steps; apply wp_persist_state;
    intros w2 Hp; apply wp_ret; (split; [done|apply (ps_exists _ _ _ _ _ Hp)]).
Qed.

(** A handover that has not expired outlives the requests of devices other than its target. *)
Lemma handover_stays ops w nid i f t a u :
  reg_at w nid = Some (mkRegistration i (Handover f t a) u) ->
  Forall (fun op => op_device op <> Some t) ops ->
  (forall n, clock n - a <= HANDOVER_STALE_COLLAPSE_MS) ->
  exists i' u', reg_at (run_ops ops w) nid = Some (mkRegistration i' (Handover f t a) u').
Proof.
  intros Hr Hops Hclock.
  destruct (run_ops_stable (fun r => exists i' u', r = Some (mkRegistration i' (Handover f t a) u')) ops w nid)
    as [H _]; [eauto| |exact H].
  intros op n r r' Hop _ (i' & u' & ->) Hs. rewrite Forall_forall in Hops. specialize (Hops op Hop).
  specialize (Hclock n). destruct Hs as [Hs|Hs]; inversion Hs; subst; try congruence; try lia; eauto.
Qed.

Lemma normalize_uuid_any v e e' r : normalize_uuid_v4 v e = Ok r -> normalize_uuid_v4 v e' = Ok r.
Proof. unfold normalize_uuid_v4. destruct (uuid_version _); [|done]. by case_if. Qed.

End Laws.

(** ** Properties of the registry *)

Section Properties.
Context {B : Type} {SB : StorageBackend B} {LB : LawfulBackend B} {EV : Env} {IL : IdLib}.
Context {CR : Codec RegistrationRecord} {CT : Codec RegistrationTransition}.
Context {LR : LawfulCodec RegistrationRecord} {LT : LawfulCodec RegistrationTransition}.

Implicit Types w : World B.

(** C20: the registry implements the abstract registration machine.  Whatever the
    request, and whether or not it is granted, the record of every identity moves
    only along steps of the machine that the requesting device may take (or by the
    collapse of a stale handover), each at a reading of the clock made during the
    request; entries that are not the registry's are untouched. *)
Theorem registry_refines op w x :
  reg_only w (run_op op w) /\
  rtc (step_between w (run_op op w) (op_device op)) (reg_at w x) (reg_at (run_op op w) x).
Proof. destruct (run_op_evolves op w) as [HO H]. split; [exact HO|apply H]. Qed.

(** C21: while a device has refreshed its registration within the takeover time, no
    sequence of requests by other devices, for any identity and in any order, changes
    the record that makes it the active device. *)
Theorem active_device_safe ops w x i d ts u :
  reg_at w x = Some (mkRegistration i (Active d ts) u) ->
  Forall (fun op => op_device op <> Some d) ops ->
  (forall n, (w_ticks w <= n < w_ticks (run_ops ops w))%nat -> clock n - u <= REGISTRATION_STALE_TAKEOVER_MS) ->
  reg_at (run_ops ops w) x = Some (mkRegistration i (Active d ts) u).
Proof.
  intros Hr Hops Ht.
  destruct (run_ops_stable (fun r => r = Some (mkRegistration i (Active d ts) u)) ops w x Hr) as [H _]; [|exact H].
  intros op n r r' Hop Hn -> Hs. specialize (Ht n Hn). rewrite Forall_forall in Hops. specialize (Hops op Hop).
  destruct Hs as [Hs|Hs]; inversion Hs; subst; try lia; congruence.
Qed.


End Properties.

(** ** Concrete instances *)

#[global, program] Instance RegistrationState_countable : Countable RegistrationState :=
  inj_countable' (fun s => match s with
    | Active d t => inl (d, t)
    | Handover f t a => inr (inl (f, t, a))
    | Abandoned d a => inr (inr (d, a)) end)
  (fun x => match x with
    | inl (d, t) => Active d t
    | inr (inl (f, t, a)) => Handover f t a
    | inr (inr (d, a)) => Abandoned d a end) _.
Next Obligation. by intros []. Qed.

#[global] Instance RegistrationRecord_eq_dec : EqDecision RegistrationRecord.
Proof. solve_decision. Defined.

#[global, program] Instance RegistrationRecord_countable : Countable RegistrationRecord :=
  inj_countable' (fun r => (rr_identity_id r, rr_state r, rr_updated_at_ms r))
    (fun '(i, s, u) => mkRegistration i s u) _.
Next Obligation. by intros []. Qed.

#[global] Instance RegistrationTransition_eq_dec : EqDecision RegistrationTransition.
Proof. solve_decision. Defined.

#[global, program] Instance RegistrationTransition_countable : Countable RegistrationTransition :=
  inj_countable' (fun r => (rt_identity_id r, rt_from_state r, rt_to_state r, rt_reason r, rt_at_ms r, rt_sequence r))
    (fun '(i, f, t, re, a, s) => mkRegTransition i f t re a s) _.
Next Obligation. by intros []. Qed.

Module RegExamples.

#[local] Instance ex_env : Env :=
  {| clock n := 1000 + Z.of_nat n mod 1000; probe _ := None; env_var _ := None |}.

(** A UUID is recognised by its length, and its version is the digit at its place. *)
#[local] Instance ex_ids : IdLib :=
  {| uuid_version s := if str_len s =? 36 then (fun b => byte.unsigned b - 48) <$> (str_bytes s !! 14%nat) else None;
     hex_decode s := Some (str_bytes s);
     hex_encode b := of_bytes b;
     blake3_hash b := b |}.

#[local] Instance ex_iter : HashIter bytes bytes := canonical_iter.
#[local] Instance ex_codec_r : Codec RegistrationRecord := any_codec.
#[local] Instance ex_codec_t : Codec RegistrationTransition := any_codec.
#[local] Instance ex_lawful_r : LawfulCodec RegistrationRecord := any_codec_lawful.
#[local] Instance ex_lawful_t : LawfulCodec RegistrationTransition := any_codec_lawful.

Definition w0 : World MemoryStorage := mkWorld memory_new None 0 0 PhaseA 0 0.

Definition ID : string := "ABcdef0123456789abcdef0123456789abcdef0123456789abcdef0123456789".
Definition ID' : string := "abcdef0123456789abcdef0123456789abcdef0123456789abcdef0123456789".
Definition DA : string := "11111111-1111-4111-8111-111111111111".
Definition DB : string := " 22222222-2222-4222-8222-222222222222".
Definition DB' : string := "22222222-2222-4222-8222-222222222222".
Definition DC : string := "33333333-3333-4333-8333-333333333333".

Definition w1 : World MemoryStorage := run_op (OpRegister ID DA 7) w0.

Lemma w1_at : reg_at w1 ID' = Some (mkRegistration ID' (Active DA 7) 1000).
Proof. vm_compute. reflexivity. Qed.

Lemma clock_window n : clock n - 1000 <= 999.
Proof. cbn. pose proof (Z.mod_pos_bound (Z.of_nat n) 1000). lia. Qed.

Lemma registry_refines_witness :
  rtc (step_between w0 (run_op (OpRegister ID DA 7) w0) (Some DA)) None
    (reg_at (run_op (OpRegister ID DA 7) w0) ID').
Proof. exact (proj2 (registry_refines (OpRegister ID DA 7) w0 ID')). Defined.

Definition intruders : list RegOp :=
  [OpRegister ID DB 9; OpDeregister ID DC None; OpGetState ID; OpEnforce ID DC; OpRegister ID DC 1].

Lemma active_device_safe_witness :
  reg_at (run_ops intruders w1) ID' = Some (mkRegistration ID' (Active DA 7) 1000).
Proof.
  apply (active_device_safe intruders w1 ID' ID' DA 7 1000).
  - exact w1_at.
  - by_computation.
  - intros n _. pose proof (clock_window n). unfold REGISTRATION_STALE_TAKEOVER_MS. lia.
Defined.

Definition bystanders : list RegOp :=
  [OpRegister ID DC 9; OpDeregister ID DA (Some DB); OpGetState ID; OpEnforce ID DC].


End RegExamples.
