(* ===== verification/RelayCustody.v ===== *)
(** * Relay custody ([core/src/store/relay_custody.rs], [RelayCustodyStore])

    The messages a relay keeps for recipients that are offline: acceptance under
    the registry's rules, the dispatch life cycle with its audit log, migration and
    purging when the recipient changes devices, and the quota that follows the
    pressure on the device's storage.  The store is the [World] of [Registry]; the
    clock, the storage probe and the environment are read through [Env].  Sums of
    lengths of stored values and counters of visited records are below [2^64].  The
    security audit pipeline that [accept_custody] runs has its result discarded
    and is left out. *)

From stdpp Require Import pretty.
From S2P Require Import Prelude Backend Effects Ids Registry.

(** ** Data *)

Definition CUSTODY_MSG_PREFIX : bytes := str_bytes "relay_custody_msg_".
Definition CUSTODY_AUDIT_PREFIX : bytes := str_bytes "relay_custody_audit_".
Definition MAX_PENDING_PER_DESTINATION : Z := 10000.
Definition DEVICE_USAGE_CEILING_PERCENT : Z := 90.
Definition FALLBACK_STORAGE_TOTAL_BYTES : Z := 8 * 1024 * 1024 * 1024.
Definition MAX_DELIVERY_ATTEMPTS : Z := 12.

Inductive StoragePressureBand : Type :=
| UpTo20Pct | From20To50Pct | From50To70Pct | From70To80Pct | From80To90Pct | EmergencyOver90Pct.

#[global] Instance StoragePressureBand_eq_dec : EqDecision StoragePressureBand.
Proof. solve_decision. Defined.

Record StoragePressureState : Type := mkPressure {
  sp_band : StoragePressureBand;
  sp_hard_ceiling_bytes : Z;
  sp_target_quota_bytes : Z;
  sp_scm_bytes : Z;
}.

Record StoragePressureReport : Type := mkReport {
  pr_emergency_mode : bool;
  pr_hard_ceiling_bytes : Z;
  pr_target_quota_bytes : Z;
  pr_scm_bytes_before : Z;
  pr_scm_bytes_after : Z;
  pr_purged_records : Z;
  pr_purged_bytes : Z;
}.

Inductive CustodyState : Type := Accepted | Dispatching | Delivered.

#[global] Instance CustodyState_eq_dec : EqDecision CustodyState.
Proof. solve_decision. Defined.

Definition custody_state_str (s : CustodyState) : string :=
  match s with Accepted => "accepted" | Dispatching => "dispatching" | Delivered => "delivered" end.

Record CustodyMessage : Type := mkCustody {
  cm_custody_id : string;
  cm_relay_message_id : string;
  cm_source_peer_id : string;
  cm_destination_peer_id : string;
  cm_recipient_identity_id : option string;
  cm_intended_device_id : option string;
  cm_envelope_data : bytes;
  cm_state : CustodyState;
  cm_accepted_at_ms : Z;
  cm_updated_at_ms : Z;
  cm_delivery_attempts : Z;
}.

Record CustodyTransition : Type := mkTransition {
  ct_custody_id : string;
  ct_relay_message_id : string;
  ct_source_peer_id : string;
  ct_destination_peer_id : string;
  ct_from_state : option CustodyState;
  ct_to_state : CustodyState;
  ct_reason : string;
  ct_at_ms : Z;
  ct_sequence : Z;
}.

(** A stored record with the size of its encoding. *)
Record StoredCustodyRecord : Type := mkStored { sr_record : CustodyMessage; sr_serialized_bytes : Z }.

Definition set_state (r : CustodyMessage) (s : CustodyState) (now attempts : Z) : CustodyMessage :=
  mkCustody (cm_custody_id r) (cm_relay_message_id r) (cm_source_peer_id r) (cm_destination_peer_id r)
    (cm_recipient_identity_id r) (cm_intended_device_id r) (cm_envelope_data r) s (cm_accepted_at_ms r) now attempts.

Definition set_device (r : CustodyMessage) (device : string) (now : Z) : CustodyMessage :=
  mkCustody (cm_custody_id r) (cm_relay_message_id r) (cm_source_peer_id r) (cm_destination_peer_id r)
    (cm_recipient_identity_id r) (Some device) (cm_envelope_data r) (cm_state r) (cm_accepted_at_ms r) now
    (cm_delivery_attempts r).

(** ** The pressure on the device's storage *)

Record StoragePressureContext : Type := mkContext { sc_total_bytes : Z; sc_non_scm_used_bytes : Z }.

Definition from_snapshot (s : DeviceStorageSnapshot) (scm_bytes : Z) : option StoragePressureContext :=
  if ds_total_bytes s =? 0 then None
  else
    let used_bytes := Z.min (ds_used_bytes s) (ds_total_bytes s) in
    Some (mkContext (ds_total_bytes s) (sat_sub used_bytes scm_bytes)).

Definition band_of (used_percent_basis_points : Z) : StoragePressureBand * Z :=
  if used_percent_basis_points <=? 2000 then (UpTo20Pct, 70)
  else if used_percent_basis_points <=? 5000 then (From20To50Pct, 45)
  else if used_percent_basis_points <=? 7000 then (From50To70Pct, 25)
  else if used_percent_basis_points <=? 8000 then (From70To80Pct, 10)
  else if used_percent_basis_points <=? 9000 then (From80To90Pct, 3)
  else (EmergencyOver90Pct, 0).

(** Products are computed in 128 bits; [from_snapshot] rules out a total of zero. *)
Definition state_for_scm_bytes (self : StoragePressureContext) (scm_bytes : Z) : StoragePressureState :=
  let used_bytes := sat_add 64 (sc_non_scm_used_bytes self) scm_bytes in
  let used_percent_basis_points := cast_u 64 (used_bytes * 10000 / sc_total_bytes self) in
  let free_bytes := sat_sub (sc_total_bytes self) used_bytes in
  let ninety_percent_total := cast_u 64 (sc_total_bytes self * DEVICE_USAGE_CEILING_PERCENT / 100) in
  let hard_ceiling_bytes := sat_sub ninety_percent_total (sc_non_scm_used_bytes self) in
  let '(band, band_percent) := band_of used_percent_basis_points in
  let dynamic_target :=
    if decide (band = EmergencyOver90Pct) then hard_ceiling_bytes
    else cast_u 64 (free_bytes * band_percent / 100) in
  mkPressure band hard_ceiling_bytes (Z.min dynamic_target hard_ceiling_bytes) scm_bytes.

Definition emergency_mode (s : StoragePressureState) : bool := bool_decide (sp_band s = EmergencyOver90Pct).

Definition destination_prefix (destination_peer_id : string) : bytes :=
  CUSTODY_MSG_PREFIX ++ str_bytes destination_peer_id ++ str_bytes "_".

Definition message_key (destination_peer_id custody_id : string) : bytes :=
  destination_prefix destination_peer_id ++ str_bytes custody_id.

Definition custody_audit_key (at_ms sequence : Z) (custody_id : string) (to_state : CustodyState) : bytes :=
  CUSTODY_AUDIT_PREFIX ++ str_bytes (zero_pad 20 at_ms) ++ str_bytes "_" ++ str_bytes (zero_pad 6 sequence)
    ++ str_bytes "_" ++ str_bytes custody_id ++ str_bytes "_" ++ str_bytes (custody_state_str to_state).

(** [sort_by_key(|record| (record.accepted_at_ms, record.custody_id.clone()))]. *)
Definition accepted_le (a b : CustodyMessage) : Prop :=
  cm_accepted_at_ms a < cm_accepted_at_ms b \/
  (cm_accepted_at_ms a = cm_accepted_at_ms b /\ bytes_le (str_bytes (cm_custody_id a)) (str_bytes (cm_custody_id b))).

#[global] Instance accepted_le_dec : RelDecision accepted_le.
Proof. intros a b. unfold accepted_le. apply _. Defined.

Definition custody_transition_le (a b : CustodyTransition) : Prop :=
  ct_at_ms a < ct_at_ms b \/ (ct_at_ms a = ct_at_ms b /\ ct_sequence a <= ct_sequence b).

#[global] Instance custody_transition_le_dec : RelDecision custody_transition_le.
Proof. intros a b. unfold custody_transition_le. apply _. Defined.

Definition delivery_priority (s : StoredCustodyRecord) : Z :=
  if decide (cm_state (sr_record s) = Delivered) then 0 else 1.

(** ** The store *)

Section Custody.
Context {B : Type} {SB : StorageBackend B} {EV : Env} {IL : IdLib}.
Context {CR : Codec RegistrationRecord} {CT : Codec RegistrationTransition}.
Context {CM : Codec CustodyMessage} {CC : Codec CustodyTransition}.
Context (local_identity : option string).

Abbreviation RM := (M (World B)).

Definition db_get (k : bytes) : RM (option bytes) := reads (fun w => be_get (w_db w) k).
Definition db_scan (p : bytes) : RM (list (bytes * bytes)) := reads (fun w => be_scan_prefix (w_db w) p).
Definition db_put (k v : bytes) : RM unit := writes (fun w => rmap (set_db w) (be_put (w_db w) k v)).
Definition db_remove (k : bytes) : RM unit := writes (fun w => rmap (set_db w) (be_remove (w_db w) k)).
Definition db_flush : RM unit := writes (fun w => rmap (set_db w) (be_flush (w_db w))).

(** [self.pressure_probe.snapshot()]. *)
Definition snapshot : RM (option DeviceStorageSnapshot) := fun w => (Ok (probe (w_ticks w)), tick w).

Definition in_memory (backend : B) : World B := mkWorld backend None 0 0 PhaseA 0 0.

Definition new_with_backends (custody_backend registry_backend : B) : World B :=
  mkWorld custody_backend (Some registry_backend) 0 0 PhaseA 0 0.

Definition set_compat_mode (mode : CustodyCompatMode) (w : World B) : World B :=
  mkWorld (w_db w) (w_reg w) (w_seq w) (w_ticks w) mode (w_ws13 w) (w_legacy w).

Definition adoption_stats (w : World B) : Z * Z := (w_ws13 w, w_legacy w).

Definition count_ws13 : RM unit := fun w =>
  (Ok tt, mkWorld (w_db w) (w_reg w) (w_seq w) (w_ticks w) (w_compat w) ((w_ws13 w + 1) mod 2 ^ 64) (w_legacy w)).

Definition count_legacy : RM unit := fun w =>
  (Ok tt, mkWorld (w_db w) (w_reg w) (w_seq w) (w_ticks w) (w_compat w) (w_ws13 w) ((w_legacy w + 1) mod 2 ^ 64)).

(** The records among scanned entries. *)
Definition decoded (entries : list (bytes * bytes)) : list CustodyMessage := omap (fun kv => dec kv.2) entries.

Definition record_transition (record : CustodyMessage) (from_state : option CustodyState)
    (to_state : CustodyState) (reason : string) : RM unit :=
  let* at_ms := now_ms in
  let* sequence := next_sequence in
  let key := custody_audit_key at_ms sequence (cm_custody_id record) to_state in
  let transition := mkTransition (cm_custody_id record) (cm_relay_message_id record) (cm_source_peer_id record)
    (cm_destination_peer_id record) from_state to_state reason at_ms sequence in
  let* bytes := lift (ok_or (enc transition) "serialize custody transition failed") in
  let* _ := db_put key bytes in
  db_flush.

Definition put_message (record : CustodyMessage) : RM unit :=
  let* bytes := lift (ok_or (enc record) "serialize custody record failed") in
  let* _ := db_put (message_key (cm_destination_peer_id record) (cm_custody_id record)) bytes in
  db_flush.

Definition remove_message (destination_peer_id custody_id : string) : RM unit :=
  let* _ := db_remove (message_key destination_peer_id custody_id) in
  db_flush.

Definition get_message (destination_peer_id custody_id : string) : RM (option CustodyMessage) :=
  let* b := db_get (message_key destination_peer_id custody_id) in
  match b with
  | Some bytes =>
      let* record := lift (ok_or (dec bytes) "deserialize custody record failed") in ret (Some record)
  | None => ret None
  end.

Definition require_record (destination_peer_id custody_id : string) : RM CustodyMessage :=
  let* r := get_message destination_peer_id custody_id in
  lift (ok_or r "custody record not found").

Definition find_existing (destination_peer_id relay_message_id : string) : RM (option CustodyMessage) :=
  let* entries := db_scan (destination_prefix destination_peer_id) in
  ret (snd <$> list_find (fun r => cm_relay_message_id r = relay_message_id) (decoded entries)).

Definition has_message_for_destination (destination_peer_id relay_message_id : string) : RM bool :=
  let* r := try_ok (find_existing destination_peer_id relay_message_id) in
  ret (bool_decide (is_Some (mjoin r))).

Definition pending_for_destination (destination_peer_id : string) (limit : Z) : RM (list CustodyMessage) :=
  let* entries := try_ok (db_scan (destination_prefix destination_peer_id)) in
  let records := filter (fun r => cm_state r = Accepted) (decoded (default [] entries)) in
  ret (take (Z.to_nat (Z.min limit (zlen records))) (stable_sort accepted_le records)).

(** ** The life cycle of a record *)

Definition mark_dispatching (destination_peer_id custody_id reason : string) : RM unit :=
  let* record := require_record destination_peer_id custody_id in
  match cm_state record with
  | Dispatching => ret tt
  | Delivered => ret tt
  | Accepted =>
      if MAX_DELIVERY_ATTEMPTS <=? cm_delivery_attempts record then throw "Max delivery attempts exceeded" else
      let from_state := cm_state record in
      let* now := now_ms in
      let record := set_state record Dispatching now (sat_add 32 (cm_delivery_attempts record) 1) in
      let* _ := put_message record in
      record_transition record (Some from_state) Dispatching reason
  end.

Definition mark_dispatch_failed (destination_peer_id custody_id reason : string) : RM unit :=
  let* record := require_record destination_peer_id custody_id in
  match cm_state record with
  | Accepted => ret tt
  | Delivered => ret tt
  | Dispatching =>
      let from_state := cm_state record in
      let* now := now_ms in
      let record := set_state record Accepted now (cm_delivery_attempts record) in
      let* _ := put_message record in
      record_transition record (Some from_state) Accepted reason
  end.

Definition mark_delivered (destination_peer_id custody_id reason : string) : RM unit :=
  let* record := require_record destination_peer_id custody_id in
  if decide (cm_state record = Delivered) then ret tt else
  let from_state := cm_state record in
  let* now := now_ms in
  let record := set_state record Delivered now (cm_delivery_attempts record) in
  let* _ := record_transition record (Some from_state) Delivered reason in
  remove_message destination_peer_id custody_id.

Definition converge_delivered_for_message (destination_peer_id relay_message_id reason : string) : RM Z :=
  let* entries := db_scan (destination_prefix destination_peer_id) in
  let records := filter (fun r => cm_relay_message_id r = relay_message_id) (decoded entries) in
  mfold (fun converged record =>
    if decide (cm_state record = Delivered) then ret converged else
    let from_state := cm_state record in
    let* now := now_ms in
    let record := set_state record Delivered now (cm_delivery_attempts record) in
    let* _ := record_transition record (Some from_state) Delivered reason in
    let* _ := remove_message destination_peer_id (cm_custody_id record) in
    ret (converged + 1)) 0 records.

Definition transitions_for_custody (custody_id : string) : RM (list CustodyTransition) :=
  let* entries := try_ok (db_scan CUSTODY_AUDIT_PREFIX) in
  ret (stable_sort custody_transition_le
         (filter (fun t => ct_custody_id t = custody_id) (omap (fun kv => dec kv.2) (default [] entries)))).

Definition audit_count (w : World B) : Z :=
  match be_count_prefix (w_db w) CUSTODY_AUDIT_PREFIX with Ok n => n | _ => 0 end.

(** ** Storage pressure *)

Definition is_identity_related_ids (source_peer_id destination_peer_id : string) : bool :=
  match local_identity with
  | None => false
  | Some l => bool_decide (source_peer_id = l) || bool_decide (destination_peer_id = l)
  end.

Definition is_identity_related_record (r : CustodyMessage) : bool :=
  is_identity_related_ids (cm_source_peer_id r) (cm_destination_peer_id r).

Definition synthetic_storage_snapshot (scm_bytes : Z) : option DeviceStorageSnapshot :=
  let total_bytes :=
    match env_var "SCM_STORAGE_TOTAL_BYTES" ≫= parse_u64 with
    | Some v => if 0 <? v then v else FALLBACK_STORAGE_TOTAL_BYTES
    | None => FALLBACK_STORAGE_TOTAL_BYTES
    end in
  let used_bytes :=
    match env_var "SCM_STORAGE_USED_BYTES" ≫= parse_u64 with
    | Some v => Z.max v scm_bytes
    | None => scm_bytes
    end in
  if total_bytes =? 0 then None else Some (mkSnapshot total_bytes (Z.min used_bytes total_bytes)).

Definition sum_sizes (entries : list (bytes * bytes)) : Z := foldr (fun kv acc => zlen kv.2 + acc) 0 entries.

Definition current_scm_storage_bytes : RM Z :=
  let* entries := db_scan CUSTODY_MSG_PREFIX in ret (sum_sizes entries).

Definition load_stored_records : RM (list StoredCustodyRecord) :=
  let* entries := db_scan CUSTODY_MSG_PREFIX in
  ret (omap (fun kv => (fun r => mkStored r (zlen kv.2)) <$> dec kv.2) entries).

(** [sort_by_key] of the purge: records of others first, then by age. *)
Definition purge_key (s : StoredCustodyRecord) : Z * Z * Z * bytes :=
  (Z.b2z (is_identity_related_record (sr_record s)), delivery_priority s,
   cm_accepted_at_ms (sr_record s), str_bytes (cm_custody_id (sr_record s))).

Definition purge_le (a b : StoredCustodyRecord) : Prop :=
  let '(i1, p1, t1, c1) := purge_key a in
  let '(i2, p2, t2, c2) := purge_key b in
  i1 < i2 \/ (i1 = i2 /\ (p1 < p2 \/ (p1 = p2 /\ (t1 < t2 \/ (t1 = t2 /\ bytes_le c1 c2))))).

#[export] Instance purge_le_dec : RelDecision purge_le.
Proof. intros a b. unfold purge_le. destruct (purge_key a) as [[[??]?]?], (purge_key b) as [[[??]?]?]. apply _. Defined.

Fixpoint purge_loop (reason : string) (candidates : list StoredCustodyRecord)
    (required_bytes purged_records purged_bytes : Z) : RM (Z * Z) :=
  match candidates with
  | [] => ret (purged_records, purged_bytes)
  | c :: candidates =>
      if required_bytes =? 0 then ret (purged_records, purged_bytes) else
      let* _ := record_transition (sr_record c) (Some (cm_state (sr_record c))) (cm_state (sr_record c))
                  (reason +:+ "_purged") in
      let* _ := remove_message (cm_destination_peer_id (sr_record c)) (cm_custody_id (sr_record c)) in
      purge_loop reason candidates (sat_sub required_bytes (sr_serialized_bytes c)) (purged_records + 1)
        (sat_add 64 purged_bytes (sr_serialized_bytes c))
  end.

Definition purge_oldest_by_policy (required_bytes : Z) (reason : string) : RM (Z * Z) :=
  if required_bytes =? 0 then ret (0, 0) else
  let* candidates := load_stored_records in
  purge_loop reason (stable_sort purge_le candidates) required_bytes 0 0.

Definition storage_pressure_state : RM (option StoragePressureState) :=
  let* scm := try_ok current_scm_storage_bytes in
  match scm with
  | None => ret None
  | Some scm_bytes =>
      let* s := snapshot in
      ret (let s := match s with Some s => Some s | None => synthetic_storage_snapshot scm_bytes end in
           (fun c => state_for_scm_bytes c scm_bytes) <$> (s ≫= fun s => from_snapshot s scm_bytes))
  end.

(** [if required > 0]: purge, and account for it in the size and in the report. *)
Definition purge_required (required : Z) (reason : string) (scm_bytes records bytes : Z) : RM (Z * Z * Z) :=
  if 0 <? required then
    let* '(purged_records, purged_bytes) := purge_oldest_by_policy required reason in
    ret (sat_sub scm_bytes purged_bytes, records + purged_records, sat_add 64 bytes purged_bytes)
  else ret (scm_bytes, records, bytes).

Definition enforce_storage_pressure_internal (incoming : option CustodyMessage) : RM StoragePressureReport :=
  let* scm_before := current_scm_storage_bytes in
  let* s := snapshot in
  let* s := lift (ok_or (match s with Some s => Some s | None => synthetic_storage_snapshot scm_before end)
                    "invalid_storage_snapshot") in
  let* context := lift (ok_or (from_snapshot s scm_before) "invalid_storage_snapshot") in
  let state := state_for_scm_bytes context scm_before in
  if emergency_mode state && match incoming with Some r => negb (is_identity_related_record r) | None => false end then
    let need := sat_sub scm_before (sp_hard_ceiling_bytes state) in
    if 0 <? need then
      let* '(purged_records, purged_bytes) := purge_oldest_by_policy need "storage_pressure_emergency" in
      ret (mkReport (emergency_mode state) (sp_hard_ceiling_bytes state) (sp_target_quota_bytes state) scm_before
             (sat_sub scm_before purged_bytes) purged_records purged_bytes)
    else
      ret (mkReport (emergency_mode state) (sp_hard_ceiling_bytes state) (sp_target_quota_bytes state) scm_before
             scm_before 0 0)
  else
    let required := sat_sub scm_before (sp_target_quota_bytes state) in
    let* '(scm_bytes, records, bytes) :=
      purge_required required "storage_pressure_target_quota" scm_before 0 0 in
    let current_state := state_for_scm_bytes context scm_bytes in
    let required := sat_sub scm_bytes (sp_hard_ceiling_bytes current_state) in
    let* '(scm_bytes, records, bytes) :=
      purge_required required "storage_pressure_hard_ceiling" scm_bytes records bytes in
    let current_state := state_for_scm_bytes context scm_bytes in
    ret (mkReport (emergency_mode current_state) (sp_hard_ceiling_bytes current_state)
           (sp_target_quota_bytes current_state) scm_before scm_bytes records bytes).

Definition enforce_storage_pressure : RM StoragePressureReport := enforce_storage_pressure_internal None.

Definition serialized_record_bytes (record : CustodyMessage) : res string Z :=
  rmap zlen (ok_or (enc record) "serialize custody record failed"%string).

(** One round of [enforce_storage_pressure_for_write]: purge what a bound requires. *)
Definition make_room (write_bytes scm_bytes bound : Z) (reason : string) : RM Z :=
  let projected := sat_add 64 scm_bytes write_bytes in
  if bound <? projected then
    let* '(_, purged_bytes) := purge_oldest_by_policy (sat_sub projected bound) reason in
    ret (sat_sub scm_bytes purged_bytes)
  else ret scm_bytes.

Definition enforce_storage_pressure_for_write (incoming : CustodyMessage) : RM unit :=
  let* report := enforce_storage_pressure_internal (Some incoming) in
  let* s := snapshot in
  match s with
  | None => ret tt
  | Some s =>
      let* write_bytes := lift (serialized_record_bytes incoming) in
      let scm_bytes := pr_scm_bytes_after report in
      let* context := lift (ok_or (from_snapshot s scm_bytes) "invalid_storage_snapshot") in
      let state := state_for_scm_bytes context scm_bytes in
      if emergency_mode state && negb (is_identity_related_record incoming)
      then throw "emergency_mode_non_critical_rejected" else
      let* scm_bytes := make_room write_bytes scm_bytes (sp_target_quota_bytes state) "storage_pressure_target_quota" in
      let state := state_for_scm_bytes context scm_bytes in
      let* scm_bytes := make_room write_bytes scm_bytes (sp_hard_ceiling_bytes state) "storage_pressure_hard_ceiling" in
      let state := state_for_scm_bytes context scm_bytes in
      let projected := sat_add 64 scm_bytes write_bytes in
      if (sp_target_quota_bytes state <? projected) || (sp_hard_ceiling_bytes state <? projected)
      then throw "storage_pressure_capacity_exceeded" else ret tt
  end.

(** ** Acceptance *)

(** [intended_device_id.as_deref().map(str::trim).filter(|value| !value.is_empty())]. *)
Definition normalize_device (intended_device_id : option string) : option string :=
  match intended_device_id with
  | Some d => let d := trim d in if decide (d = ""%string) then None else Some d
  | None => None
  end.

(** The compatibility rules; the result is the reason to record. *)
Definition custody_rules (identity device : option string) : RM string :=
  match identity with
  | None => ret "custody_accepted"%string
  | Some identity_id =>
      match device with
      | Some device_id =>
          let* _ := enforce_custody identity_id device_id in
          let* _ := count_ws13 in
          ret "custody_accepted"%string
      | None =>
          let* reason := reads (fun w => Ok match w_compat w with
            | PhaseA => "custody_accepted_compat_phase_a"%string
            | PhaseB => "custody_accepted_compat_phase_b"%string
            end) in
          let* _ := count_legacy in
          ret reason
      end
  end.

Definition make_custody_id (relay_message_id : string) (now sequence : Z) : string :=
  relay_message_id +:+ "-" +:+ pretty now +:+ "-" +:+ pretty sequence.

Definition accept_custody (source_peer_id destination_peer_id relay_message_id : string) (envelope_data : bytes)
    (recipient_identity_id intended_device_id : option string) : RM CustodyMessage :=
  let* existing := find_existing destination_peer_id relay_message_id in
  match existing with
  | Some existing => ret existing
  | None =>
      let* identity :=
        match recipient_identity_id with
        | Some i => let* n := try_ok (normalize_lookup_identity i) in ret (mjoin n)
        | None => ret None
        end in
      let device := normalize_device intended_device_id in
      let* reason := custody_rules identity device in
      let* pending := pending_for_destination destination_peer_id u64_max in
      if MAX_PENDING_PER_DESTINATION <=? zlen pending then throw "custody queue full for destination" else
      let* now := now_ms in
      let* sequence := next_sequence in
      let message := mkCustody (make_custody_id relay_message_id now sequence) relay_message_id source_peer_id
        destination_peer_id identity device envelope_data Accepted now now 0 in
      let* _ := enforce_storage_pressure_for_write message in
      let* _ := put_message message in
      let* _ := record_transition message None Accepted reason in
      ret message
  end.

(** ** Changes of device *)

(** The records of an identity that are not delivered, among all. *)
Definition pending_of_identity (identity_id : string) (device_id : option string) (entries : list (bytes * bytes))
  : list CustodyMessage :=
  filter (fun r => cm_state r <> Delivered /\ cm_recipient_identity_id r = Some identity_id /\
                   (device_id = None \/ cm_intended_device_id r = device_id))
    (decoded entries).

Definition migrate_pending_identity_device (identity_id from_device_id to_device_id reason : string) : RM Z :=
  let* id := normalize_lookup_identity identity_id in
  match id with
  | None => ret 0
  | Some identity_id =>
      let* entries := db_scan CUSTODY_MSG_PREFIX in
      mfold (fun migrated record =>
        let* now := now_ms in
        let record := set_device record to_device_id now in
        let* _ := put_message record in
        let* _ := record_transition record (Some (cm_state record)) (cm_state record) reason in
        ret (migrated + 1)) 0 (pending_of_identity identity_id (Some from_device_id) entries)
  end.

Definition purge_pending_identity_messages (identity_id : string) (device_id : option string) (reason : string) : RM Z :=
  let* id := normalize_lookup_identity identity_id in
  match id with
  | None => ret 0
  | Some identity_id =>
      let* entries := db_scan CUSTODY_MSG_PREFIX in
      mfold (fun purged record =>
        let* _ := record_transition record (Some (cm_state record)) (cm_state record) reason in
        let* _ := remove_message (cm_destination_peer_id record) (cm_custody_id record) in
        ret (purged + 1)) 0 (pending_of_identity identity_id device_id entries)
  end.

Definition apply_registry_side_effect (side_effect : RegistrySideEffect) : RM unit :=
  match side_effect with
  | SideNone => ret tt
  | Migrate identity_id from_device_id to_device_id =>
      let* _ := migrate_pending_identity_device identity_id from_device_id to_device_id
                  "identity_handover_queue_migrated" in ret tt
  | Purge identity_id device_id =>
      let* _ := purge_pending_identity_messages identity_id device_id "identity_queue_purged" in ret tt
  end.

Definition register_identity (identity_id device_id : string) (seniority_timestamp : Z) : RM RegistrationState :=
  let* outcome := register identity_id device_id seniority_timestamp in
  let* _ := apply_registry_side_effect (ro_side_effect outcome) in
  ret (ro_state outcome).

Definition deregister_identity (identity_id from_device_id : string) (target_device_id : option string)
  : RM RegistrationState :=
  let* outcome := deregister identity_id from_device_id target_device_id in
  let* _ := apply_registry_side_effect (ro_side_effect outcome) in
  ret (ro_state outcome).

End Custody.

(** ** What the operations do to a lawful backend *)

Lemma starts_with_prefix p q k : starts_with (p ++ q) k = true -> starts_with p k = true.
Proof. rewrite !starts_with_spec. intros [k' ->]. exists (q ++ k'). by rewrite app_assoc. Qed.

Lemma msg_key_prefix d c : starts_with CUSTODY_MSG_PREFIX (message_key d c) = true.
Proof. unfold message_key, destination_prefix. rewrite <-!app_assoc. apply starts_with_app. Qed.

Lemma audit_not_msg a s c st : starts_with CUSTODY_MSG_PREFIX (custody_audit_key a s c st) = false.
Proof. reflexivity. Qed.

Lemma reg_key_not_msg k : reg_key k -> starts_with CUSTODY_MSG_PREFIX k = false.
Proof. by intros [[i ->]|[i ->]]. Qed.

Lemma audit_not_reg a s c st : ~ reg_key (custody_audit_key a s c st).
Proof. by intros [[i H]|[i H]]. Qed.

Lemma msg_not_reg d c : ~ reg_key (message_key d c).
Proof. intros H%reg_key_not_msg. by rewrite msg_key_prefix in H. Qed.

Section Views.
Context {B : Type} {SB : StorageBackend B} {LB : LawfulBackend B} {EV : Env} {IL : IdLib}.
Context {CR : Codec RegistrationRecord} {CT : Codec RegistrationTransition}.
Context {CM : Codec CustodyMessage} {CC : Codec CustodyTransition}.
Context {LM : LawfulCodec CustodyMessage} {LC : LawfulCodec CustodyTransition}.

Implicit Types w : World B.

(** The stored messages. *)
Definition mview w : gmap bytes bytes := filter (fun kv => starts_with CUSTODY_MSG_PREFIX kv.1 = true) (cview w).

(** Nothing of the registry changed, and time went on. *)
Record custody_only w w' : Prop := {
  co_registry : forall k, reg_key k -> rview w' !! k = rview w !! k;
  co_compat : w_compat w' = w_compat w;
  co_time : (w_ticks w <= w_ticks w')%nat;
}.

Lemma custody_only_refl w : custody_only w w.
Proof. by constructor. Qed.

Lemma custody_only_trans w1 w2 w3 : custody_only w1 w2 -> custody_only w2 w3 -> custody_only w1 w3.
Proof. intros [H1 ? ?] [H2 ? ?]. constructor; [intros k Hk; by rewrite H2, H1|congruence|lia]. Qed.

Lemma custody_only_tick w : custody_only w (tick w).
Proof. constructor; intros; cbn; done || lia. Qed.

Lemma custody_only_bump w : custody_only w (bump_seq w).
Proof. by constructor. Qed.

Lemma custody_only_set w d :
  (forall k, reg_key k -> be_view d !! k = cview w !! k) -> custody_only w (set_db w d).
Proof. intros H. destruct w as [db [r|] ? ? ? ? ?]; constructor; try done. Qed.

Lemma mview_set w d : mview (set_db w d) = filter (fun kv => starts_with CUSTODY_MSG_PREFIX kv.1 = true) (be_view d).
Proof. done. Qed.

Lemma mview_lookup w k b :
  mview w !! k = Some b <-> cview w !! k = Some b /\ starts_with CUSTODY_MSG_PREFIX k = true.
Proof. apply map_lookup_filter_Some. Qed.

(** An entry outside the messages. *)
Lemma mview_insert_other w d k v :
  starts_with CUSTODY_MSG_PREFIX k = false -> be_view d = <[k := v]> (cview w) -> mview (set_db w d) = mview w.
Proof.
  intros Hk Hd. rewrite mview_set, Hd. unfold mview. rewrite map_filter_insert_False by (cbn [fst]; congruence).
  apply map_filter_delete_not. intros y _. cbn [fst]. congruence.
Qed.

Lemma mview_insert_msg w d k v :
  starts_with CUSTODY_MSG_PREFIX k = true -> be_view d = <[k := v]> (cview w) ->
  mview (set_db w d) = <[k := v]> (mview w).
Proof. intros Hk Hd. rewrite mview_set, Hd. by apply map_filter_insert_True. Qed.

Lemma mview_delete w d k : be_view d = delete k (cview w) -> mview (set_db w d) = delete k (mview w).
Proof. intros Hd. rewrite mview_set, Hd. apply map_filter_delete. Qed.

(** *** The effects *)

Lemma wp_db_get k Q E w : Q (cview w !! k) w -> wp (db_get k) Q E w.
Proof. intros H. apply wp_reads. by rewrite be_get_law. Qed.

Lemma wp_db_scan p (Q : list (bytes * bytes) -> World B -> Prop) E w :
  (forall l, be_scan_prefix (w_db w) p = Ok l -> Q l w) -> wp (db_scan p) Q E w.
Proof. intros H. apply wp_reads. destruct (be_scan_law (w_db w) p) as (l & Hl & _). rewrite Hl. by apply H. Qed.

Lemma wp_db_put k v (Q : unit -> World B -> Prop) E w :
  (forall d, be_view d = <[k := v]> (cview w) -> Q tt (set_db w d)) -> wp (db_put k v) Q E w.
Proof.
  intros H. unfold wp, db_put, writes. destruct (be_put_law (w_db w) k v) as (d & -> & Hd). cbn. by apply H.
Qed.

Lemma wp_db_remove k (Q : unit -> World B -> Prop) E w :
  (forall d, be_view d = delete k (cview w) -> Q tt (set_db w d)) -> wp (db_remove k) Q E w.
Proof.
  intros H. unfold wp, db_remove, writes. destruct (be_remove_law (w_db w) k) as (d & -> & Hd). cbn. by apply H.
Qed.

Lemma wp_db_flush (Q : unit -> World B -> Prop) E w :
  (forall d, be_view d = cview w -> Q tt (set_db w d)) -> wp db_flush Q E w.
Proof.
  intros H. unfold wp, db_flush, writes. destruct (be_flush_law (w_db w)) as (d & -> & Hd). cbn. by apply H.
Qed.

Lemma wp_snapshot (Q : option DeviceStorageSnapshot -> World B -> Prop) E w :
  Q (probe (w_ticks w)) (tick w) -> wp snapshot Q E w.
Proof. done. Qed.

(** The entries that a scan below the message prefix visits. *)
Lemma scan_mview w p l :
  be_scan_prefix (w_db w) (CUSTODY_MSG_PREFIX ++ p) = Ok l ->
  l ≡ₚ filter (fun kv => Is_true (starts_with (CUSTODY_MSG_PREFIX ++ p) kv.1)) (map_to_list (mview w)).
Proof.
  intros Hl. apply NoDup_Permutation.
  - eapply NoDup_fmap_1, NoDup_scan. exact Hl.
  - apply NoDup_filter, NoDup_map_to_list.
  - intros [k b]. rewrite (elem_of_scan _ _ _ _ _ Hl), list_elem_of_filter, elem_of_map_to_list, mview_lookup, Is_true_true.
    cbn [fst]. split; [intros [Hs Hb]|intros (Hs & Hb & _); exact (conj Hs Hb)].
    exact (conj Hs (conj Hb (starts_with_prefix _ _ _ Hs))).
Qed.

Lemma elem_of_scan_msg w p l k b :
  be_scan_prefix (w_db w) (CUSTODY_MSG_PREFIX ++ p) = Ok l ->
  (k, b) ∈ l <-> starts_with (CUSTODY_MSG_PREFIX ++ p) k = true /\ mview w !! k = Some b.
Proof. intros Hl. by rewrite (scan_mview _ _ _ Hl), list_elem_of_filter, elem_of_map_to_list, Is_true_true. Qed.

Lemma scan_all w l : be_scan_prefix (w_db w) CUSTODY_MSG_PREFIX = Ok l -> l ≡ₚ map_to_list (mview w).
Proof.
  intros Hl. rewrite <-(app_nil_r CUSTODY_MSG_PREFIX) in Hl. rewrite (scan_mview _ _ _ Hl), app_nil_r.
  rewrite filter_id; [done|]. apply Forall_forall. intros [k b] Hk%elem_of_map_to_list%mview_lookup.
  apply Is_true_true, (proj2 Hk).
Qed.

(** *** Writing a transition, a message, and removing one *)

Definition msg_key (r : CustodyMessage) : bytes := message_key (cm_destination_peer_id r) (cm_custody_id r).

Lemma wp_record_transition r from to reason (Q : unit -> World B -> Prop) E w :
  (forall w', mview w' = mview w -> custody_only w w' -> Q tt w') -> wp (record_transition r from to reason) Q E w.
Proof.
  intros H. unfold record_transition. wp_steps. apply wp_now_ms. wp_steps. apply wp_next_sequence. wp_steps.
  match goal with |- context [enc ?t] => destruct (enc_dec t) as (b & -> & _) end. cbn [ok_or]. wp_steps.
  apply wp_db_put. intros d Hd. apply wp_db_flush. intros d2 Hd2. apply H.
  - rewrite mview_set, Hd2. change (mview (set_db (bump_seq (tick w)) d) = mview w).
    change (mview w) with (mview (bump_seq (tick w))). eapply mview_insert_other; [|exact Hd]. apply audit_not_msg.
  - eapply custody_only_trans; [apply custody_only_tick|]. eapply custody_only_trans; [apply custody_only_bump|].
    eapply custody_only_trans; apply custody_only_set; intros k Hk; [|by rewrite Hd2].
    rewrite Hd, lookup_insert_ne; [done|]. intros <-. by apply audit_not_reg in Hk.
Qed.

Lemma wp_put_message r (Q : unit -> World B -> Prop) E w :
  (forall w' b, enc r = Some b -> dec b = Some r -> mview w' = <[msg_key r := b]> (mview w) ->
     custody_only w w' -> Q tt w') -> wp (put_message r) Q E w.
Proof.
  intros H. unfold put_message. destruct (enc_dec r) as (b & Hb & Hd). rewrite Hb. wp_steps.
  cbn [ok_or]. wp_steps. apply wp_db_put. intros d Hv. apply wp_db_flush. intros d2 Hd2. apply (H _ b); [done|done| |].
  - rewrite mview_set, Hd2. change (mview (set_db w d) = <[msg_key r:=b]> (mview w)).
    apply mview_insert_msg; [apply msg_key_prefix|exact Hv].
  - eapply custody_only_trans; apply custody_only_set; intros k Hk; [|by rewrite Hd2].
    rewrite Hv, lookup_insert_ne; [done|]. intros <-. by apply msg_not_reg in Hk.
Qed.

Lemma wp_remove_message d c (Q : unit -> World B -> Prop) E w :
  (forall w', mview w' = delete (message_key d c) (mview w) -> custody_only w w' -> Q tt w') ->
  wp (remove_message d c) Q E w.
Proof.
  intros H. unfold remove_message. wp_steps. apply wp_db_remove. intros d1 Hv. apply wp_db_flush. intros d2 Hd2. apply H.
  - rewrite mview_set, Hd2. change (mview (set_db w d1) = delete (message_key d c) (mview w)).
    by apply mview_delete.
  - eapply custody_only_trans; apply custody_only_set; intros k Hk; [|by rewrite Hd2].
    rewrite Hv, lookup_delete_ne; [done|]. intros <-. by apply msg_not_reg in Hk.
Qed.

Lemma wp_require_record d c (Q : CustodyMessage -> World B -> Prop) (E : string -> World B -> Prop) w :
  (forall r b, mview w !! message_key d c = Some b -> dec b = Some r -> Q r w) ->
  (forall e, E e w) -> wp (require_record d c) Q E w.
Proof.
  intros HQ HE. unfold require_record, get_message. wp_steps. apply wp_db_get.
  destruct (cview w !! message_key d c) as [b|] eqn:Hb; wp_steps; [|apply HE].
  destruct (dec b) as [r|] eqn:Hr; cbn [ok_or]; [|apply HE]. wp_steps. apply (HQ r b); [|done].
  apply mview_lookup. split; [done|apply msg_key_prefix].
Qed.

End Views.

(** ** Sizes *)

Definition msum (m : gmap bytes bytes) : Z := sum_sizes (map_to_list m).

#[export] Instance sum_sizes_proper : Proper ((≡ₚ) ==> (=)) sum_sizes.
Proof. intros l1 l2 Hl. unfold sum_sizes. induction Hl; cbn in *; lia. Qed.

Lemma sum_sizes_nonneg l : 0 <= sum_sizes l.
Proof. induction l as [|[k b] l IH]; cbn; [done|]. fold (sum_sizes l). pose proof (zlen_nonneg b). lia. Qed.

Lemma msum_delete m k b : m !! k = Some b -> msum (delete k m) = msum m - zlen b.
Proof. intros Hk. unfold msum. rewrite <-(map_to_list_delete m k b Hk). cbn. fold (sum_sizes (map_to_list (delete k m))). lia. Qed.

Lemma msum_insert m k b : m !! k = None -> msum (<[k := b]> m) = msum m + zlen b.
Proof. intros Hk. unfold msum. rewrite map_to_list_insert by done. cbn. fold (sum_sizes (map_to_list m)). lia. Qed.

Lemma msum_insert_le m k b : msum (<[k := b]> m) <= msum m + zlen b.
Proof.
  rewrite <-insert_delete_eq, msum_insert by apply lookup_delete_eq.
  destruct (m !! k) as [b'|] eqn:Hk; [|rewrite delete_id by done; lia].
  rewrite (msum_delete _ _ _ Hk). pose proof (zlen_nonneg b'). lia.
Qed.

Lemma msum_mono m' m : m' ⊆ m -> msum m' <= msum m.
Proof.
  revert m. induction m' as [|k b m' Hk IH] using map_ind; intros m Hs.
  { unfold msum at 1. rewrite map_to_list_empty. apply sum_sizes_nonneg. }
  assert (m !! k = Some b) as Hb by (eapply lookup_weaken; [apply lookup_insert_eq|exact Hs]).
  rewrite msum_insert by done. specialize (IH (delete k m)). rewrite (msum_delete _ _ _ Hb) in IH.
  enough (m' ⊆ delete k m) by (specialize (IH H); lia).
  apply map_subseteq_spec. intros k' b' Hk'. rewrite lookup_delete_ne by congruence.
  eapply lookup_weaken; [|exact Hs]. by rewrite lookup_insert_ne by congruence.
Qed.

(** The records a purge of [required] bytes takes from a queue. *)
Fixpoint purge_prefix (required : Z) (cs : list StoredCustodyRecord) : list StoredCustodyRecord :=
  match cs with
  | [] => []
  | c :: cs =>
      if required =? 0 then [] else c :: purge_prefix (sat_sub required (sr_serialized_bytes c)) cs
  end.

Definition stored_sum (cs : list StoredCustodyRecord) : Z := foldr (fun c acc => sr_serialized_bytes c + acc) 0 cs.

Definition sat_sum (acc : Z) (cs : list StoredCustodyRecord) : Z :=
  foldl (fun acc c => sat_add 64 acc (sr_serialized_bytes c)) acc cs.

Definition sizes_ok (cs : list StoredCustodyRecord) : Prop := Forall (fun c => 0 <= sr_serialized_bytes c) cs.

Lemma stored_sum_cons c cs : stored_sum (c :: cs) = sr_serialized_bytes c + stored_sum cs.
Proof. done. Qed.

Lemma stored_sum_nonneg cs : sizes_ok cs -> 0 <= stored_sum cs.
Proof. unfold sizes_ok. induction 1; [done|]. rewrite stored_sum_cons. lia. Qed.

Lemma sat_sum_exact acc cs : sizes_ok cs -> acc + stored_sum cs <= u64_max -> sat_sum acc cs = acc + stored_sum cs.
Proof.
  intros Hs. unfold sizes_ok in Hs. revert acc. induction Hs as [|c cs Hc Hcs IH]; intros acc Hle; [cbn; lia|].
  pose proof (stored_sum_nonneg cs Hcs). rewrite stored_sum_cons in *.
  change (sat_sum (sat_add 64 acc (sr_serialized_bytes c)) cs = acc + (sr_serialized_bytes c + stored_sum cs)).
  assert (sat_add 64 acc (sr_serialized_bytes c) = acc + sr_serialized_bytes c) as ->
    by (unfold sat_add, u64_max in *; lia).
  rewrite IH by lia. lia.
Qed.

Lemma purge_prefix_prefix q cs : exists rest, cs = purge_prefix q cs ++ rest.
Proof.
  revert q; induction cs as [|c cs IH]; intros q; cbn; [by exists []|].
  case_if; [by exists (c :: cs)|]. destruct (IH (sat_sub q (sr_serialized_bytes c))) as [rest Hr].
  exists rest. cbn. by rewrite <-Hr.
Qed.

(** Enough is purged, or everything. *)
Lemma purge_prefix_enough q cs :
  sizes_ok cs -> 0 <= q -> q <= stored_sum (purge_prefix q cs) \/ purge_prefix q cs = cs.
Proof.
  intros Hs. revert q. induction Hs as [|c cs Hc Hcs IH]; intros q Hq; cbn; [by right|].
  destruct (Z.eqb_spec q 0) as [->|Hq0]; [left; cbn; lia|].
  destruct (IH (sat_sub q (sr_serialized_bytes c))) as [H|H]; [unfold sat_sub; lia|left|right; by rewrite H].
  rewrite stored_sum_cons. unfold sat_sub in *. lia.
Qed.

(** Nothing is purged that was not needed. *)
Lemma purge_prefix_needed q cs pre c :
  sizes_ok cs -> 0 <= q -> purge_prefix q cs = pre ++ [c] -> stored_sum pre < q.
Proof.
  intros Hs. revert q pre. induction Hs as [|c' cs Hc Hcs IH]; intros q pre Hq; cbn; [by destruct pre|].
  destruct (Z.eqb_spec q 0) as [->|Hq0]; [by destruct pre|].
  destruct pre as [|c1 pre]; [cbn; lia|]. intros [= <- Hp].
  destruct (Z.eq_dec (sat_sub q (sr_serialized_bytes c')) 0) as [H0|H0].
  { rewrite H0 in Hp. destruct cs; by destruct pre. }
  apply IH in Hp; [|unfold sat_sub; lia]. rewrite stored_sum_cons. unfold sat_sub in *. lia.
Qed.

Section Purge.
Context {B : Type} {SB : StorageBackend B} {LB : LawfulBackend B} {EV : Env} {IL : IdLib}.
Context {CR : Codec RegistrationRecord} {CT : Codec RegistrationTransition}.
Context {CM : Codec CustodyMessage} {CC : Codec CustodyTransition}.
Context {LM : LawfulCodec CustodyMessage} {LC : LawfulCodec CustodyTransition}.
Context (local_identity : option string).

Implicit Types w : World B.

(** ** The invariant *)

(** A stored record: under its own key, not yet delivered, within the attempts. *)
Definition record_ok (k b : bytes) : Prop :=
  exists r, dec b = Some r /\ k = msg_key r /\ cm_state r <> Delivered /\
    0 <= cm_delivery_attempts r <= MAX_DELIVERY_ATTEMPTS.

Definition custody_ok w : Prop := map_Forall record_ok (mview w).

Definition scm_bytes w : Z := msum (mview w).

Definition ckey (c : StoredCustodyRecord) : bytes := msg_key (sr_record c).

Definition stored_in (m : gmap bytes bytes) (c : StoredCustodyRecord) : Prop :=
  exists b, m !! ckey c = Some b /\ zlen b = sr_serialized_bytes c.

(** [m'] is [m] without the keys [ks]. *)
Definition removed (ks : list bytes) (m m' : gmap bytes bytes) : Prop :=
  forall k, m' !! k = if decide (k ∈ ks) then None else m !! k.

Lemma removed_nil m : removed [] m m.
Proof. intros k. by rewrite decide_False by apply not_elem_of_nil. Qed.

Lemma removed_cons k ks m m' : removed ks (delete k m) m' -> removed (k :: ks) m m'.
Proof.
  intros H k'. rewrite H. destruct (decide (k' = k)) as [->|Hk].
  - rewrite (decide_True (P := k ∈ k :: ks)) by left. case_decide; [done|]. apply lookup_delete_eq.
  - rewrite lookup_delete_ne by done. case_decide as Hin; [by rewrite decide_True by (by right)|].
    rewrite decide_False; [done|]. by rewrite elem_of_cons; intros [?|?].
Qed.

Lemma removed_subseteq ks m m' : removed ks m m' -> m' ⊆ m.
Proof. intros H. apply map_subseteq_spec. intros k b. rewrite H. by case_decide. Qed.

Lemma custody_ok_sub w w' : mview w' ⊆ mview w -> custody_ok w -> custody_ok w'.
Proof. intros Hs H k b Hb. apply H. by eapply lookup_weaken. Qed.

Lemma wp_purge_loop reason cs q n acc (Q : Z * Z -> World B -> Prop) E w :
  NoDup (ckey <$> cs) -> Forall (stored_in (mview w)) cs ->
  (forall w', removed (ckey <$> purge_prefix q cs) (mview w) (mview w') -> custody_only w w' ->
     scm_bytes w' = scm_bytes w - stored_sum (purge_prefix q cs) ->
     Q (n + zlen (purge_prefix q cs), sat_sum acc (purge_prefix q cs)) w') ->
  wp (purge_loop reason cs q n acc) Q E w.
Proof.
  revert q n acc w. induction cs as [|c cs IH]; intros q n acc w Hnd Hin HQ; cbn [purge_loop purge_prefix] in *.
  { apply wp_ret. specialize (HQ w (removed_nil _) (custody_only_refl w)). cbn in HQ.
    rewrite !Z.add_0_r, Z.sub_0_r in HQ. by apply HQ. }
  destruct (q =? 0) eqn:Hq.
  { apply wp_ret. specialize (HQ w (removed_nil _) (custody_only_refl w)). cbn in HQ.
    rewrite !Z.add_0_r, Z.sub_0_r in HQ. by apply HQ. }
  apply NoDup_cons in Hnd as [Hn Hnd]. apply Forall_cons in Hin as [(b & Hb & Hz) Hin].
  wp_steps. apply wp_record_transition. intros w1 Hv1 Ho1. wp_steps. apply wp_remove_message. intros w2 Hv2 Ho2.
  rewrite Hv1 in Hv2. fold (msg_key (sr_record c)) in Hv2. fold (ckey c) in Hv2.
  apply IH; [exact Hnd| |].
  { rewrite Forall_forall in Hin |- *. intros c' Hc'. destruct (Hin c' Hc') as (b' & Hb' & Hz').
    exists b'. split; [|done]. rewrite Hv2, lookup_delete_ne; [done|].
    intros Heq. apply Hn. rewrite Heq. by apply list_elem_of_fmap_2. }
  intros w3 Hr Ho Hs. rewrite fmap_cons, zlen_cons in HQ.
  replace (n + 1 + zlen (purge_prefix (sat_sub q (sr_serialized_bytes c)) cs))
    with (n + (1 + zlen (purge_prefix (sat_sub q (sr_serialized_bytes c)) cs))) by lia.
  apply HQ.
  - apply removed_cons. by rewrite <-Hv2.
  - eapply custody_only_trans; [exact Ho1|]. by eapply custody_only_trans.
  - rewrite Hs. unfold scm_bytes. rewrite Hv2, (msum_delete _ _ b Hb), Hz, stored_sum_cons. lia.
Qed.

(** *** Purging *)

Lemma decode_entries (l : list (bytes * bytes)) :
  Forall (fun kv => record_ok kv.1 kv.2) l ->
  let cs := omap (fun kv => (fun r => mkStored r (zlen kv.2)) <$> dec kv.2) l in
  ckey <$> cs = l.*1 /\ stored_sum cs = sum_sizes l /\ sizes_ok cs /\
  Forall (fun c => exists b, (ckey c, b) ∈ l /\ zlen b = sr_serialized_bytes c) cs.
Proof.
  induction 1 as [|[k b] l (r & Hr & Hk & _) _ IH]; cbn in *; [split_and!; done || constructor|]. rewrite Hr. cbn.
  destruct IH as (H1 & H2 & H3 & H4). cbn in Hk. subst k. split_and!.
  - by rewrite H1.
  - unfold stored_sum, sum_sizes in *. cbn. lia.
  - constructor; [apply zlen_nonneg|done].
  - constructor; [exists b; split; [left|done]|]. eapply Forall_impl; [exact H4|].
    intros c (b' & Hb' & Hz). exists b'. split; [by right|done].
Qed.

(** The candidates of a purge: every stored record once, with its size. *)
Definition candidates_of w (cs : list StoredCustodyRecord) : Prop :=
  NoDup (ckey <$> cs) /\ Forall (stored_in (mview w)) cs /\ sizes_ok cs /\ stored_sum cs = scm_bytes w /\
  (forall k, k ∈ ckey <$> cs <-> is_Some (mview w !! k)).

Lemma stored_sum_perm cs cs' : cs ≡ₚ cs' -> stored_sum cs = stored_sum cs'.
Proof. induction 1; rewrite ?stored_sum_cons in *; lia. Qed.

Lemma load_candidates w l :
  custody_ok w -> be_scan_prefix (w_db w) CUSTODY_MSG_PREFIX = Ok l ->
  candidates_of w (stable_sort (purge_le local_identity)
    (omap (fun kv => (fun r => mkStored r (zlen kv.2)) <$> dec kv.2) l)).
Proof.
  intros Hok Hl. pose proof (scan_all _ _ Hl) as Hp.
  destruct (decode_entries l) as (H1 & H2 & H3 & H4).
  { apply Forall_forall. intros [k b]. rewrite Hp. rewrite elem_of_map_to_list. apply Hok. }
  unfold candidates_of. rewrite (stored_sum_perm _ _ (stable_sort_Permutation _ _)).
  unfold sizes_ok. rewrite !stable_sort_Permutation, H1. split_and!; [| |exact H3| |].
  - eapply NoDup_scan. exact Hl.
  - eapply Forall_impl; [exact H4|]. intros c (b & Hb & Hz). exists b. split; [|done].
    rewrite Hp in Hb. by apply elem_of_map_to_list in Hb.
  - rewrite H2. unfold scm_bytes, msum. by rewrite Hp.
  - intros k. rewrite stable_sort_Permutation, H1, Hp, list_elem_of_fmap. split.
    + intros ([k' b] & -> & Hb%elem_of_map_to_list). by eexists.
    + intros [b Hb]. exists (k, b). split; [done|]. by apply elem_of_map_to_list.
Qed.

(** A purge of [q] bytes: the oldest records, as many as are needed. *)
Definition purged (q : Z) w w' (r : Z * Z) : Prop :=
  exists cs, candidates_of w cs /\ Sorted (purge_le local_identity) cs /\
    removed (ckey <$> purge_prefix q cs) (mview w) (mview w') /\
    scm_bytes w' = scm_bytes w - stored_sum (purge_prefix q cs) /\
    r = (zlen (purge_prefix q cs), sat_sum 0 (purge_prefix q cs)).

#[export] Instance purge_le_total : Total (purge_le local_identity).
Proof.
  intros a b. unfold purge_le. destruct (purge_key _ a) as [[[i1 p1] t1] c1], (purge_key _ b) as [[[i2 p2] t2] c2].
  destruct (total bytes_le c1 c2), (Z.lt_trichotomy i1 i2) as [?|[?|?]], (Z.lt_trichotomy p1 p2) as [?|[?|?]],
    (Z.lt_trichotomy t1 t2) as [?|[?|?]]; auto 10.
Qed.

Lemma wp_purge q reason (Q : Z * Z -> World B -> Prop) E w :
  custody_ok w ->
  (forall r w', purged q w w' r -> custody_only w w' -> Q r w') ->
  wp (purge_oldest_by_policy local_identity q reason) Q E w.
Proof.
  intros Hok HQ. unfold purge_oldest_by_policy, load_stored_records.
  destruct (Z.eqb_spec q 0) as [->|Hq].
  - apply wp_ret, HQ; [|apply custody_only_refl].
    destruct (be_scan_law (w_db w) CUSTODY_MSG_PREFIX) as (l & Hl & _).
    eexists. split; [exact (load_candidates w l Hok Hl)|]. split; [apply (Sorted_stable_sort _)|].
    assert (forall cs, purge_prefix 0 cs = []) as -> by (by intros []). split_and!; [apply removed_nil|cbn; lia|done].
  - wp_steps. apply wp_db_scan. intros l Hl. wp_steps.
    pose proof (load_candidates w l Hok Hl) as Hc. destruct Hc as (Hnd & Hin & Hrest).
    apply wp_purge_loop; [exact Hnd|exact Hin|]. intros w' Hr Ho Hs. apply HQ; [|exact Ho].
    eexists. split; [exact (load_candidates w l Hok Hl)|]. split; [apply (Sorted_stable_sort _)|].
    split_and!; [exact Hr|exact Hs|done].
Qed.

(** *** Operations that only remove messages *)

Definition shrinks w w' : Prop := mview w' ⊆ mview w /\ custody_only w w'.

Lemma shrinks_refl w : shrinks w w.
Proof. split; [done|apply custody_only_refl]. Qed.

Lemma shrinks_trans w1 w2 w3 : shrinks w1 w2 -> shrinks w2 w3 -> shrinks w1 w3.
Proof. intros [? ?] [? ?]. split; [by etrans|by eapply custody_only_trans]. Qed.

Lemma shrinks_tick w : shrinks w (tick w).
Proof. split; [done|apply custody_only_tick]. Qed.

Lemma shrinks_ok w w' : shrinks w w' -> custody_ok w -> custody_ok w'.
Proof. intros [H _]. by apply custody_ok_sub. Qed.

Lemma msum_nonneg m : 0 <= msum m.
Proof. apply sum_sizes_nonneg. Qed.

Lemma purge_prefix_sizes q cs : sizes_ok cs -> sizes_ok (purge_prefix q cs) /\ stored_sum (purge_prefix q cs) <= stored_sum cs.
Proof.
  intros Hs. destruct (purge_prefix_prefix q cs) as [rest Hr]. unfold sizes_ok in *. rewrite Hr in Hs.
  apply Forall_app in Hs as [H1 H2]. split; [done|]. rewrite Hr at 2.
  assert (forall a b, stored_sum (a ++ b) = stored_sum a + stored_sum b) as ->.
  { intros a b. induction a as [|c a IH]; [done|]. rewrite <-app_comm_cons, !stored_sum_cons. lia. }
  pose proof (stored_sum_nonneg rest H2). lia.
Qed.

(** The bytes a purge reports are the bytes it freed. *)
Lemma purged_bytes q w w' n b :
  purged q w w' (n, b) -> mview w' ⊆ mview w /\
  (scm_bytes w <= u64_max -> b = scm_bytes w - scm_bytes w' /\ sat_sub (scm_bytes w) b = scm_bytes w').
Proof.
  intros (cs & (Hnd & Hin & Hsz & Hsum & _) & _ & Hr & Hs & [= -> ->]).
  split; [by eapply removed_subseteq|]. intros Hle. destruct (purge_prefix_sizes q cs Hsz) as [Hsz' Hle'].
  rewrite sat_sum_exact by (done || lia). pose proof (msum_nonneg (mview w')). unfold sat_sub, scm_bytes in *. lia.
Qed.

Lemma wp_current (Q : Z -> World B -> Prop) E w : Q (scm_bytes w) w -> wp current_scm_storage_bytes Q E w.
Proof.
  intros H. unfold current_scm_storage_bytes. wp_steps. apply wp_db_scan. intros l Hl. apply wp_ret.
  by rewrite (scan_all _ _ Hl).
Qed.

(** A purge that is made when a bound is exceeded, with the size the caller keeps. *)
Lemma wp_purge_required q reason scm recs byts (Q : Z * Z * Z -> World B -> Prop) E w :
  custody_ok w ->
  (forall s r b w', shrinks w w' -> (scm = scm_bytes w -> scm_bytes w <= u64_max -> s = scm_bytes w') -> Q (s, r, b) w') ->
  wp (purge_required local_identity q reason scm recs byts) Q E w.
Proof.
  intros Hok HQ. unfold purge_required. case_if; [|apply wp_ret, HQ; [apply shrinks_refl|done]].
  wp_steps. apply wp_purge; [done|]. intros [n b] w' Hp Ho. destruct (purged_bytes _ _ _ _ _ Hp) as [Hs Hb].
  apply wp_ret, HQ; [by split|]. intros -> Hle. by apply Hb.
Qed.

Lemma shrinks_bytes w w' : shrinks w w' -> scm_bytes w' <= scm_bytes w.
Proof. intros [H _]. by apply msum_mono. Qed.

Lemma wp_enforce_internal incoming (Q : StoragePressureReport -> World B -> Prop) (E : string -> World B -> Prop) w :
  custody_ok w ->
  (forall rep w', shrinks w w' -> (scm_bytes w <= u64_max -> pr_scm_bytes_after rep = scm_bytes w') -> Q rep w') ->
  (forall e w', shrinks w w' -> E e w') ->
  wp (enforce_storage_pressure_internal local_identity incoming) Q E w.
Proof.
  intros Hok HQ HE. unfold enforce_storage_pressure_internal. wp_steps. apply wp_current. wp_steps. apply wp_snapshot.
  wp_steps. pose proof (shrinks_tick w) as Ht. pose proof (shrinks_ok _ _ Ht Hok) as Hokt.
  destruct (match probe (w_ticks w) with Some s => _ | None => _ end) as [sn|]; cbn [ok_or]; [|by apply HE].
  wp_steps. destruct (from_snapshot sn (scm_bytes w)) as [c|]; cbn [ok_or]; [|by apply HE].
  case_if.
  - case_if; [|by apply wp_ret, HQ]. wp_steps. apply wp_purge; [done|]. intros [n b] w' Hp Ho.
    destruct (purged_bytes _ _ _ _ _ Hp) as [Hs Hb]. apply wp_ret, HQ.
    + eapply shrinks_trans; [exact Ht|by split].
    + intros Hle. apply (Hb Hle).
  - wp_steps. apply wp_purge_required; [done|]. intros s1 r1 b1 w1 Hs1 Ha1. wp_steps.
    apply wp_purge_required; [by eapply shrinks_ok|]. intros s2 r2 b2 w2 Hs2 Ha2. apply wp_ret, HQ.
    + eapply shrinks_trans; [exact Ht|]. by eapply shrinks_trans.
    + intros Hle. pose proof (shrinks_bytes _ _ Hs1). change (scm_bytes (tick w)) with (scm_bytes w) in *.
      cbn. apply Ha2; [by apply Ha1|lia].
Qed.

Lemma wp_make_room wb scm bound reason (Q : Z -> World B -> Prop) E w :
  custody_ok w ->
  (forall s w', shrinks w w' -> (scm = scm_bytes w -> scm_bytes w <= u64_max -> s = scm_bytes w') -> Q s w') ->
  wp (make_room local_identity wb scm bound reason) Q E w.
Proof.
  intros Hok HQ. unfold make_room. case_if; [|apply wp_ret, HQ; [apply shrinks_refl|done]].
  wp_steps. apply wp_purge; [done|]. intros [n b] w' Hp Ho. destruct (purged_bytes _ _ _ _ _ Hp) as [Hs Hb].
  apply wp_ret, HQ; [by split|]. intros -> Hle. by apply Hb.
Qed.

(** The check that lets a write of [incoming] through: after it, the bytes fit the
    quota that a reading of the probe gives. *)
Definition fits (incoming : CustodyMessage) w w' : Prop :=
  exists n s c scm b, (w_ticks w <= n < w_ticks w')%nat /\ probe n = Some s /\ 0 <= scm <= scm_bytes w /\
    from_snapshot s scm = Some c /\ enc incoming = Some b /\
    let st := state_for_scm_bytes c (scm_bytes w') in
    sat_add 64 (scm_bytes w') (zlen b) <= sp_target_quota_bytes st /\
    sat_add 64 (scm_bytes w') (zlen b) <= sp_hard_ceiling_bytes st.

Lemma wp_enforce_for_write incoming (Q : unit -> World B -> Prop) (E : string -> World B -> Prop) w :
  custody_ok w ->
  (forall w', shrinks w w' ->
     (scm_bytes w <= u64_max -> (forall n, is_Some (probe n)) -> fits incoming w w') -> Q tt w') ->
  (forall e w', shrinks w w' -> E e w') ->
  wp (enforce_storage_pressure_for_write local_identity incoming) Q E w.
Proof.
  intros Hok HQ HE. unfold enforce_storage_pressure_for_write, serialized_record_bytes. wp_steps.
  apply wp_enforce_internal; [done| |done]. intros rep w1 Hs1 Ha1. wp_steps. apply wp_snapshot.
  assert (shrinks w (tick w1)) as Ht by (eapply shrinks_trans; [exact Hs1|apply shrinks_tick]).
  pose proof (shrinks_ok _ _ Ht Hok) as Hokt.
  destruct (probe (w_ticks w1)) as [sn|] eqn:Hsn.
  2: { apply wp_ret, HQ; [done|]. intros _ Hp. destruct (Hp (w_ticks w1)). congruence. }
  destruct (enc_dec incoming) as (b & Hb & _). rewrite Hb. wp_steps. cbn [ok_or rmap rbind].
  wp_steps. destruct (from_snapshot sn _) as [c|] eqn:Hc; cbn [ok_or]; [|by apply HE].
  case_if; [by apply HE|]. wp_steps. apply wp_make_room; [done|]. intros s2 w2 Hs2 Ha2. wp_steps.
  assert (shrinks w w2) as Hw2 by (by eapply shrinks_trans).
  apply wp_make_room; [by eapply shrinks_ok|]. intros s3 w3 Hs3 Ha3.
  assert (shrinks w w3) as Hw3 by (by eapply shrinks_trans).
  case_if; [by apply HE|]. apply wp_ret, HQ; [done|]. intros Hle _.
  pose proof (shrinks_bytes _ _ Hs1). pose proof (shrinks_bytes _ _ Hs2). pose proof (shrinks_bytes _ _ Hs3).
  change (scm_bytes (tick w1)) with (scm_bytes w1) in *. rewrite Ha1 in * by done.
  assert (s2 = scm_bytes w2) as -> by (apply Ha2; [done|lia]).
  assert (s3 = scm_bytes w3) as -> by (apply Ha3; [done|lia]).
  exists (w_ticks w1), sn, c, (scm_bytes w1), b. split_and!; try done.
  - apply (co_time _ _ (proj2 Hs1)).
  - pose proof (co_time _ _ (proj2 Hs2)) as H2. pose proof (co_time _ _ (proj2 Hs3)). cbn in H2. lia.
  - apply msum_nonneg.
  - cbv zeta. by bool_to_prop.
Qed.

(** *** Records of the registry leave messages alone *)

Lemma reg_only_mview w w' : reg_only w w' -> mview w' = mview w.
Proof.
  intros H. apply map_eq. intros k. unfold mview. rewrite !map_lookup_filter.
  destruct (starts_with CUSTODY_MSG_PREFIX k) eqn:Hk.
  - rewrite (ro_custody _ _ H); [done|]. intros Hr%reg_key_not_msg. congruence.
  - destruct (cview w' !! k), (cview w !! k); cbn [mbind option_bind guard fst]; try done;
      repeat case_guard; try done; cbn [fst] in *; congruence.
Qed.

(** *** Invariant, by operation *)

Definition keeps {A} (m : M (World B) A) : Prop :=
  forall w, custody_ok w -> wp m (fun _ w' => custody_ok w') (fun _ w' => custody_ok w') w.

Lemma custody_ok_mview w w' : mview w' = mview w -> custody_ok w -> custody_ok w'.
Proof. unfold custody_ok. by intros ->. Qed.

Lemma keeps_record_transition r from to reason : keeps (record_transition r from to reason).
Proof. intros w Hok. apply wp_record_transition. intros w' Hv _. by eapply custody_ok_mview. Qed.

Lemma keeps_put r :
  cm_state r <> Delivered -> 0 <= cm_delivery_attempts r <= MAX_DELIVERY_ATTEMPTS -> keeps (put_message r).
Proof.
  intros Hs Ha w Hok. apply wp_put_message. intros w' b _ Hd Hv _. unfold custody_ok. rewrite Hv.
  apply map_Forall_insert_2; [|exact Hok]. by exists r.
Qed.

Lemma keeps_remove d c : keeps (remove_message d c).
Proof.
  intros w Hok. apply wp_remove_message. intros w' Hv _. eapply custody_ok_sub; [|exact Hok].
  rewrite Hv. apply delete_subseteq.
Qed.

Lemma keeps_bind {A A'} (m : M (World B) A) (k : A -> M (World B) A') :
  keeps m -> (forall a, keeps (k a)) -> keeps (bind m k).
Proof.
  intros Hm Hk w Hok. apply wp_bind. eapply wp_mono; [by apply Hm|cbn; intros a w' H; by apply Hk|done].
Qed.

Lemma keeps_ret {A} (a : A) : keeps (ret a).
Proof. by intros w Hok. Qed.

Lemma keeps_now : keeps now_ms.
Proof. by intros w Hok. Qed.

Lemma keeps_mfold {A A'} (f : A' -> A -> M (World B) A') l acc :
  (forall a x, x ∈ l -> keeps (f a x)) -> keeps (mfold f acc l).
Proof.
  intros Hf. revert acc. induction l as [|x l IH]; intros acc; cbn [mfold]; [apply keeps_ret|].
  apply keeps_bind; [apply Hf; left|]. intros a. apply IH. intros a' y Hy. apply Hf. by right.
Qed.

(** The record found under a key. *)
Lemma custody_ok_record w k b r : custody_ok w -> mview w !! k = Some b -> dec b = Some r ->
  k = msg_key r /\ cm_state r <> Delivered /\ 0 <= cm_delivery_attempts r <= MAX_DELIVERY_ATTEMPTS.
Proof. intros Hok Hb Hr. destruct (Hok k b Hb) as (r' & Hr' & Hrest). rewrite Hr in Hr'. by injection Hr' as ->. Qed.

End Purge.

Section Operations.
Context {B : Type} {SB : StorageBackend B} {LB : LawfulBackend B} {EV : Env} {IL : IdLib}.
Context {CR : Codec RegistrationRecord} {CT : Codec RegistrationTransition}.
Context {LR : LawfulCodec RegistrationRecord} {LT : LawfulCodec RegistrationTransition}.
Context {CM : Codec CustodyMessage} {CC : Codec CustodyTransition}.
Context {LM : LawfulCodec CustodyMessage} {LC : LawfulCodec CustodyTransition}.
Context (local_identity : option string).

Implicit Types w : World B.

Lemma keeps_mark_dispatching d c reason : keeps (B := B) (mark_dispatching d c reason).
Proof.
  intros w Hok. unfold mark_dispatching. wp_steps. apply wp_require_record; [|done]. intros r b Hb Hr.
  destruct (custody_ok_record w _ b r Hok Hb Hr) as (_ & _ & Ha).
  destruct (cm_state r) eqn:Hs; [|by apply wp_ret|by apply wp_ret]. case_if; [done|]. bool_to_prop.
  apply keeps_bind; [apply keeps_now|intros now|done]. apply keeps_bind; [|intros _; apply keeps_record_transition].
  apply keeps_put; [done|]. cbn. unfold sat_add, MAX_DELIVERY_ATTEMPTS in *. lia.
Qed.

Lemma keeps_mark_dispatch_failed d c reason : keeps (B := B) (mark_dispatch_failed d c reason).
Proof.
  intros w Hok. unfold mark_dispatch_failed. wp_steps. apply wp_require_record; [|done]. intros r b Hb Hr.
  destruct (custody_ok_record w _ b r Hok Hb Hr) as (_ & _ & Ha).
  destruct (cm_state r) eqn:Hs; [by apply wp_ret| |by apply wp_ret].
  apply keeps_bind; [apply keeps_now|intros now|done]. apply keeps_bind; [by apply keeps_put|].
  intros _; apply keeps_record_transition.
Qed.

Lemma keeps_mark_delivered d c reason : keeps (B := B) (mark_delivered d c reason).
Proof.
  intros w Hok. unfold mark_delivered. wp_steps. apply wp_require_record; [|done]. intros r b Hb Hr.
  case_decide; [by apply wp_ret|]. apply keeps_bind; [apply keeps_now|intros now|done].
  apply keeps_bind; [apply keeps_record_transition|intros _; apply keeps_remove].
Qed.

Lemma keeps_converge d m reason : keeps (B := B) (converge_delivered_for_message d m reason).
Proof.
  intros w Hok. unfold converge_delivered_for_message. wp_steps. apply wp_db_scan. intros l Hl.
  apply keeps_mfold; [|done]. intros a r _. case_decide; [apply keeps_ret|].
  apply keeps_bind; [apply keeps_now|intros now].
  apply keeps_bind; [apply keeps_record_transition|intros _]. apply keeps_bind; [apply keeps_remove|intros _; apply keeps_ret].
Qed.

Lemma keeps_enforce incoming : keeps (B := B) (enforce_storage_pressure_internal local_identity incoming).
Proof.
  intros w Hok. apply wp_enforce_internal; [done| |]; intros ? w' Hs; [intros _|]; by eapply shrinks_ok.
Qed.

Lemma keeps_reg_only {A} (m : M (World B) A) :
  (forall w, wp m (fun _ w' => reg_only w w') (fun _ w' => reg_only w w') w) -> keeps m.
Proof.
  intros H w Hok. eapply wp_mono; [apply H| |]; intros ? w' Hr; (apply (custody_ok_mview w w'); [by apply reg_only_mview|exact Hok]).
Qed.

Lemma reg_only_normalize hint w :
  wp (normalize_lookup_identity hint) (fun _ w' => reg_only w w') (fun _ w' => reg_only w w') w.
Proof. apply wp_normalize_lookup. intros _. apply reg_only_refl. Qed.

Lemma reg_only_enforce i d w :
  wp (enforce_custody i d) (fun _ w' => reg_only w w') (fun _ w' => reg_only w w') w.
Proof. apply wp_enforce_custody; intros ? w' [H _]; exact H. Qed.

(** The records an identity has, as they are stored. *)
Lemma pending_of_identity_stored w l i d r :
  custody_ok w -> be_scan_prefix (w_db w) CUSTODY_MSG_PREFIX = Ok l -> r ∈ pending_of_identity i d l ->
  exists b, mview w !! msg_key r = Some b /\ dec b = Some r /\ cm_state r <> Delivered /\
    0 <= cm_delivery_attempts r <= MAX_DELIVERY_ATTEMPTS.
Proof.
  intros Hok Hl [_ Hr]%list_elem_of_filter. unfold decoded in Hr.
  apply list_elem_of_omap in Hr as ([k b] & Hin & Hd). cbn in Hd. rewrite (scan_all _ _ Hl) in Hin.
  apply elem_of_map_to_list in Hin. destruct (custody_ok_record w k b r Hok Hin Hd) as (-> & ? & ?). by exists b.
Qed.

Lemma keeps_migrate i f t reason : keeps (B := B) (migrate_pending_identity_device i f t reason).
Proof.
  apply keeps_bind; [apply keeps_reg_only, reg_only_normalize|]. intros [id|]; [|apply keeps_ret].
  intros w Hok. apply wp_bind, wp_db_scan. intros l Hl. apply keeps_mfold; [|done]. intros a r Hr.
  destruct (pending_of_identity_stored w l _ _ r Hok Hl Hr) as (b & _ & _ & Hs & Ha).
  apply keeps_bind; [apply keeps_now|intros now]. apply keeps_bind; [by apply keeps_put|intros _].
  apply keeps_bind; [apply keeps_record_transition|intros _; apply keeps_ret].
Qed.

Lemma keeps_purge_identity i d reason : keeps (B := B) (purge_pending_identity_messages i d reason).
Proof.
  apply keeps_bind; [apply keeps_reg_only, reg_only_normalize|]. intros [id|]; [|apply keeps_ret].
  intros w Hok. apply wp_bind, wp_db_scan. intros l Hl. apply keeps_mfold; [|done]. intros a r Hr.
  apply keeps_bind; [apply keeps_record_transition|intros _]. apply keeps_bind; [apply keeps_remove|intros _; apply keeps_ret].
Qed.

Lemma keeps_side_effect e : keeps (B := B) (apply_registry_side_effect e).
Proof.
  destruct e; [apply keeps_ret| |]; (apply keeps_bind; [|intros _; apply keeps_ret]);
    [apply keeps_migrate|apply keeps_purge_identity].
Qed.

Lemma keeps_register_identity i d ts : keeps (B := B) (register_identity i d ts).
Proof.
  apply keeps_bind; [|intros o; apply keeps_bind; [apply keeps_side_effect|intros _; apply keeps_ret]].
  apply keeps_reg_only. intros w. eapply wp_mono; [apply wp_register| |]; intros ? w' [H _]; exact H.
Qed.

Lemma keeps_deregister_identity i d t : keeps (B := B) (deregister_identity i d t).
Proof.
  apply keeps_bind; [|intros o; apply keeps_bind; [apply keeps_side_effect|intros _; apply keeps_ret]].
  apply keeps_reg_only. intros w. eapply wp_mono; [apply wp_deregister| |]; intros ? w' [H _]; exact H.
Qed.

(** *** Acceptance *)

(** The steps of [accept_custody] before the message is stored. *)
Lemma wp_custody_rules i d (Q : string -> World B -> Prop) (E : string -> World B -> Prop) w :
  (forall r w', mview w' = mview w -> (w_ticks w <= w_ticks w')%nat -> Q r w') ->
  (forall e w', mview w' = mview w -> E e w') -> wp (custody_rules i d) Q E w.
Proof.
  intros HQ HE. unfold custody_rules. destruct i as [i|]; [|by apply wp_ret, HQ].
  destruct d as [d|].
  - wp_steps. eapply wp_mono; [apply reg_only_enforce| |]; intros ? w' Hr; cbn.
    + apply HQ; [exact (reg_only_mview _ _ Hr)|exact (ro_time _ _ Hr)].
    + apply HE. by apply reg_only_mview.
  - wp_steps. by apply HQ.
Qed.

Lemma wp_pending d limit (Q : list CustodyMessage -> World B -> Prop) E w :
  (forall l, Q l w) -> wp (pending_for_destination d limit) Q E w.
Proof. intros HQ. unfold pending_for_destination. wp_steps. apply wp_db_scan. intros l Hl. by wp_steps. Qed.

Lemma wp_find_existing d m (Q : option CustodyMessage -> World B -> Prop) E w :
  (forall o l, be_scan_prefix (w_db w) (destination_prefix d) = Ok l ->
     o = snd <$> list_find (fun r => cm_relay_message_id r = m) (decoded l) -> Q o w) ->
  wp (find_existing d m) Q E w.
Proof. intros HQ. unfold find_existing. wp_steps. apply wp_db_scan. intros l Hl. apply wp_ret. by eapply HQ. Qed.

Lemma omap_length_le {A A'} (f : A -> option A') (l : list A) : (length (omap f l) <= length l)%nat.
Proof. induction l as [|x l IH]; cbn; [done|]. destruct (f x); cbn; lia. Qed.

(** A new message, once it is let through: what [accept_custody] has done. *)
Record accepted w w' (src dst mid : string) (data : bytes) (m : CustodyMessage) : Prop := {
  ac_msg : exists now seq i d,
    m = mkCustody (make_custody_id mid now seq) mid src dst i d data Accepted now now 0;
  ac_step : exists w1 b, custody_ok w1 /\ mview w1 ⊆ mview w /\ enc m = Some b /\ dec b = Some m /\
    mview w' = <[msg_key m := b]> (mview w1) /\
    (scm_bytes w <= u64_max -> (forall n, is_Some (probe n)) -> exists w0, scm_bytes w0 = scm_bytes w /\
       (w_ticks w <= w_ticks w0)%nat /\ fits m w0 w1);
}.

Lemma wp_accept src dst mid data ri di (Q : CustodyMessage -> World B -> Prop) (E : string -> World B -> Prop) w :
  custody_ok w ->
  (forall l o, be_scan_prefix (w_db w) (destination_prefix dst) = Ok l ->
     snd <$> list_find (fun r => cm_relay_message_id r = mid) (decoded l) = Some o -> Q o w) ->
  (forall l m w', be_scan_prefix (w_db w) (destination_prefix dst) = Ok l ->
     snd <$> list_find (fun r => cm_relay_message_id r = mid) (decoded l) = None ->
     accepted w w' src dst mid data m -> custody_ok w' -> Q m w') ->
  (forall e w', custody_ok w' -> E e w') ->
  wp (accept_custody local_identity src dst mid data ri di) Q E w.
Proof.
  intros Hok HQ1 HQ2 HE. unfold accept_custody. wp_steps. apply wp_find_existing. intros o l Hl Ho.
  destruct o as [o|]; [by apply wp_ret; eapply HQ1|]. wp_steps.
  eapply (wp_mono _ (fun _ w' => w' = w) _ (fun _ w' => w' = w)); [|intros i ? ->|intros ? ? ->; by apply HE].
  { destruct ri as [ri|]; [|done]. wp_steps. by apply wp_normalize_lookup. }
  wp_steps. apply wp_custody_rules; [|intros e w' Hv; by apply HE, (custody_ok_mview w w')].
  intros reason w1 Hv1 Ht1. wp_steps. apply wp_pending. intros pending.
  assert (custody_ok w1) as Hok1 by (by apply (custody_ok_mview w w1)).
  case_if; [by apply HE|]. wp_steps. apply wp_now_ms. wp_steps. apply wp_next_sequence. wp_steps.
  set (m := mkCustody _ _ _ _ _ _ _ _ _ _ _). set (w2 := bump_seq (tick w1)).
  assert (custody_ok w2) as Hok2 by exact Hok1.
  apply wp_enforce_for_write; [done| |intros e w' Hs; by apply HE, (shrinks_ok w2 w')].
  intros w3 Hs3 Hfit. pose proof (shrinks_ok w2 w3 Hs3 Hok2) as Hok3. wp_steps.
  apply wp_put_message. intros w4 b Henc Hdec Hv4 _. wp_steps. apply wp_record_transition. intros w5 Hv5 _.
  apply wp_ret. eapply HQ2; [done|by rewrite <-Ho| |].
  - constructor; [by eexists _, _, _, _|]. exists w3, b.
    split_and!; [done| |done|done|by rewrite Hv5|].
    + rewrite <-Hv1. apply Hs3.
    + intros Hle Hp. exists w2. unfold scm_bytes in *. change (mview w2) with (mview w1) in *. rewrite Hv1 in *.
      split_and!; [done|cbn; lia|by apply Hfit].
  - unfold custody_ok. rewrite Hv5, Hv4. apply map_Forall_insert_2; [|exact Hok3]. exists m. by split_and!.
Qed.

Lemma keeps_accept src dst mid data ri di : keeps (B := B) (accept_custody local_identity src dst mid data ri di).
Proof. intros w Hok. apply wp_accept; eauto. Qed.

(** *** Queues of an identity *)

Lemma decoded_keys (l : list (bytes * bytes)) :
  Forall (fun kv => record_ok kv.1 kv.2) l -> msg_key <$> decoded l = l.*1.
Proof.
  induction 1 as [|[k b] l (r & Hr & Hk & _) _ IH]; [done|]. unfold decoded in *. cbn in *. rewrite Hr. cbn.
  by rewrite IH, Hk.
Qed.

Lemma pending_NoDup w l i d :
  custody_ok w -> be_scan_prefix (w_db w) CUSTODY_MSG_PREFIX = Ok l ->
  NoDup (msg_key <$> pending_of_identity i d l).
Proof.
  intros Hok Hl. eapply sublist_NoDup; [|apply fmap_sublist, sublist_filter]. rewrite decoded_keys.
  - eapply NoDup_scan. exact Hl.
  - apply Forall_forall. intros [k b]. rewrite (scan_all _ _ Hl), elem_of_map_to_list. apply Hok.
Qed.

(** A record is pending for the identity exactly when it is stored so. *)
Lemma elem_of_pending w l i d r :
  custody_ok w -> be_scan_prefix (w_db w) CUSTODY_MSG_PREFIX = Ok l ->
  r ∈ pending_of_identity i d l <->
  (exists b, mview w !! msg_key r = Some b /\ dec b = Some r) /\
  cm_recipient_identity_id r = Some i /\ (d = None \/ cm_intended_device_id r = d).
Proof.
  intros Hok Hl. split.
  - intros Hr. destruct (pending_of_identity_stored w l i d r Hok Hl Hr) as (b & ? & ? & _).
    apply list_elem_of_filter in Hr as [(_ & ? & ?) _]. eauto.
  - intros [(b & Hb & Hd) [Hi Hdev]]. apply list_elem_of_filter.
    destruct (custody_ok_record w _ b r Hok Hb Hd) as (_ & Hs & _). split; [done|].
    apply list_elem_of_omap. exists (msg_key r, b). split; [|done]. by rewrite (scan_all _ _ Hl), elem_of_map_to_list.
Qed.

(** [w'] has the records [rs] of [w] addressed to device [t], and the others as they were. *)
Definition retargeted (t : string) (rs : list CustodyMessage) (m m' : gmap bytes bytes) : Prop :=
  (forall r, r ∈ rs -> exists b now, m' !! msg_key r = Some b /\ dec b = Some (set_device r t now)) /\
  (forall k, k ∉ msg_key <$> rs -> m' !! k = m !! k).

Lemma wp_migrate_loop t reason rs n (Q : Z -> World B -> Prop) E w :
  NoDup (msg_key <$> rs) ->
  (forall w', retargeted t rs (mview w) (mview w') -> custody_only w w' -> Q (n + zlen rs) w') ->
  wp (mfold (fun migrated record =>
        let* now := now_ms in
        let record := set_device record t now in
        let* _ := put_message record in
        let* _ := record_transition record (Some (cm_state record)) (cm_state record) reason in
        ret (migrated + 1)) n rs) Q E w.
Proof.
  revert n w. induction rs as [|r rs IH]; intros n w Hnd HQ; cbn [mfold].
  { apply wp_ret. rewrite <-(Z.add_0_r n). apply HQ; [|apply custody_only_refl]. split; [|done]. intros r Hr. by apply elem_of_nil in Hr. }
  apply NoDup_cons in Hnd as [Hn Hnd]. wp_steps. apply wp_now_ms. wp_steps. apply wp_put_message.
  intros w1 b _ Hd Hv1 Ho1. wp_steps. apply wp_record_transition. intros w2 Hv2 Ho2. wp_steps.
  apply IH; [done|]. intros w3 [Hr1 Hr2] Ho3. rewrite Hv2, Hv1 in Hr2.
  replace (n + 1 + zlen rs) with (n + zlen (r :: rs)) by (rewrite zlen_cons; lia). apply HQ.
  - split.
    + intros r' [->|Hr']%elem_of_cons; [|by apply Hr1]. exists b, (clock (w_ticks w)). split; [|done].
      rewrite Hr2 by done. apply lookup_insert_eq.
    + intros k Hk. rewrite fmap_cons, not_elem_of_cons in Hk. destruct Hk as [Hk1 Hk2].
      rewrite Hr2 by done. by rewrite lookup_insert_ne by (intros <-; by apply Hk1).
  - eapply custody_only_trans; [apply custody_only_tick|]. eapply custody_only_trans; [exact Ho1|].
    by eapply custody_only_trans.
Qed.

Lemma wp_purge_identity_loop reason rs n (Q : Z -> World B -> Prop) E w :
  (forall w', removed (msg_key <$> rs) (mview w) (mview w') -> custody_only w w' -> Q (n + zlen rs) w') ->
  wp (mfold (fun purged record =>
        let* _ := record_transition record (Some (cm_state record)) (cm_state record) reason in
        let* _ := remove_message (cm_destination_peer_id record) (cm_custody_id record) in
        ret (purged + 1)) n rs) Q E w.
Proof.
  revert n w. induction rs as [|r rs IH]; intros n w HQ; cbn [mfold].
  { apply wp_ret. rewrite <-(Z.add_0_r n). apply HQ; [apply removed_nil|apply custody_only_refl]. }
  wp_steps. apply wp_record_transition. intros w1 Hv1 Ho1. wp_steps. apply wp_remove_message. intros w2 Hv2 Ho2.
  wp_steps. apply IH. intros w3 Hr Ho3.
  replace (n + 1 + zlen rs) with (n + zlen (r :: rs)) by (rewrite zlen_cons; lia). apply HQ.
  - rewrite fmap_cons. apply removed_cons. by rewrite Hv2, Hv1 in Hr.
  - eapply custody_only_trans; [exact Ho1|]. by eapply custody_only_trans.
Qed.

End Operations.

(** ** Properties *)

Inductive CustodyOp : Type :=
| OpAccept (src dst mid : string) (data : bytes) (identity device : option string)
| OpDispatching (dst cid reason : string)
| OpDispatchFailed (dst cid reason : string)
| OpDelivered (dst cid reason : string)
| OpConverge (dst mid reason : string)
| OpEnforcePressure
| OpRegisterIdentity (identity device : string) (ts : Z)
| OpDeregisterIdentity (identity device : string) (target : option string).

Section Properties.
Context {B : Type} {SB : StorageBackend B} {LB : LawfulBackend B} {EV : Env} {IL : IdLib}.
Context {CR : Codec RegistrationRecord} {CT : Codec RegistrationTransition}.
Context {LR : LawfulCodec RegistrationRecord} {LT : LawfulCodec RegistrationTransition}.
Context {CM : Codec CustodyMessage} {CC : Codec CustodyTransition}.
Context {LM : LawfulCodec CustodyMessage} {LC : LawfulCodec CustodyTransition}.
Context (local_identity : option string).

Implicit Types w : World B.

Definition run_cop (op : CustodyOp) : M (World B) unit :=
  match op with
  | OpAccept src dst mid data i d => let* _ := accept_custody local_identity src dst mid data i d in ret tt
  | OpDispatching dst cid reason => mark_dispatching dst cid reason
  | OpDispatchFailed dst cid reason => mark_dispatch_failed dst cid reason
  | OpDelivered dst cid reason => mark_delivered dst cid reason
  | OpConverge dst mid reason => let* _ := converge_delivered_for_message dst mid reason in ret tt
  | OpEnforcePressure => let* _ := enforce_storage_pressure local_identity in ret tt
  | OpRegisterIdentity i d ts => let* _ := register_identity i d ts in ret tt
  | OpDeregisterIdentity i d t => let* _ := deregister_identity i d t in ret tt
  end.

Lemma keeps_op op : keeps (run_cop op).
Proof.
  destruct op; cbn [run_cop];
    [apply keeps_bind; [apply keeps_accept|intros; apply keeps_ret]|apply keeps_mark_dispatching
    |apply keeps_mark_dispatch_failed|apply keeps_mark_delivered
    |apply keeps_bind; [apply keeps_converge|intros; apply keeps_ret]
    |apply keeps_bind; [apply keeps_enforce|intros; apply keeps_ret]
    |apply keeps_bind; [apply keeps_register_identity|intros; apply keeps_ret]
    |apply keeps_bind; [apply keeps_deregister_identity|intros; apply keeps_ret]].
Qed.

(** C23: under every sequence of operations, granted or refused, no operation panics and
    every stored message stays readable, under the key of its own destination and custody
    id, not delivered, and with at most twelve delivery attempts. *)
Theorem custody_invariant ops w :
  custody_ok w ->
  custody_ok (foldl (fun w op => (run_cop op w).2) w ops) /\
  forall pre op post, ops = pre ++ op :: post -> (run_cop op (foldl (fun w op => (run_cop op w).2) w pre)).1 <> Panic.
Proof.
  assert (forall ops w, custody_ok w -> custody_ok (foldl (fun w op => (run_cop op w).2) w ops)) as Hrun.
  { clear ops w. induction ops as [|op ops IH]; intros w Hok; [exact Hok|]. apply IH.
    apply (wp_snd _ custody_ok). by apply keeps_op. }
  intros Hok. split; [by apply Hrun|]. intros pre op post _ Hp.
  pose proof (keeps_op op _ (Hrun pre w Hok)) as H. unfold wp in H.
  destruct (run_cop op _) as [[?|?|] ?]; done.
Qed.

(** Custody is taken once.  A message that was accepted is returned again, and
    nothing changes, whenever the same relay message id is offered for the same
    destination, whatever the other arguments. *)
Theorem accept_idempotent src dst mid data ri di w m w' src2 data2 ri2 di2 :
  custody_ok w ->
  accept_custody local_identity src dst mid data ri di w = (Ok m, w') ->
  accept_custody local_identity src2 dst mid data2 ri2 di2 w' = (Ok m, w').
Proof.
  intros Hok Hrun. set (mine := fun r => cm_relay_message_id r = mid).
  enough (forall l, be_scan_prefix (w_db w') (destination_prefix dst) = Ok l ->
            snd <$> list_find mine (decoded l) = Some m) as Hf.
  { destruct (be_scan_law (w_db w') (destination_prefix dst)) as (l & Hl & _).
    assert (find_existing dst mid w' = (Ok (Some m), w')) as Hfe.
    { rewrite <-(Hf l Hl). unfold find_existing, bind, db_scan, reads. by rewrite Hl. }
    unfold accept_custody, bind at 1. by rewrite Hfe. }
  revert Hrun. apply (wp_ok_inv _ (fun m w' => forall l, be_scan_prefix (w_db w') (destination_prefix dst) = Ok l ->
            snd <$> list_find mine (decoded l) = Some m) (fun _ _ => True)).
  apply wp_accept; [done| | |done].
  { intros l o Hl Ho l' Hl'. rewrite Hl in Hl'. by injection Hl' as <-. }
  clear m w'. intros l m w' Hl Hnone [(now & seq & i & d & Hm) (w1 & b & _ & Hsub & Henc & Hdec & Hv & _)] _ l' Hl'.
  assert (forall r, r ∈ decoded l' -> mine r -> r = m) as Honly.
  { intros r ([k b'] & Hin & Hd)%list_elem_of_omap Hmine. cbn in Hd.
    apply (elem_of_scan_msg w' (str_bytes dst ++ str_bytes "_") l' k b' Hl') in Hin as [Hs Hk].
    rewrite Hv in Hk. destruct (decide (k = msg_key m)) as [->|Hne].
    { rewrite lookup_insert_eq in Hk. injection Hk as <-. congruence. }
    rewrite lookup_insert_ne in Hk by done. exfalso.
    assert (r ∈ decoded l) as Hr.
    { apply list_elem_of_omap. exists (k, b'). split; [|done].
      apply (elem_of_scan_msg w (str_bytes dst ++ str_bytes "_") l k b' Hl). split; [exact Hs|].
      by eapply lookup_weaken. }
    change (snd <$> list_find mine (decoded l) = None) in Hnone.
    destruct (list_find mine (decoded l)) as [?|] eqn:Hf; [done|]. apply list_find_None in Hf.
    rewrite Forall_forall in Hf. by apply (Hf r Hr). }
  assert (m ∈ decoded l') as Hmin.
  { apply list_elem_of_omap. exists (msg_key m, b). split; [|done].
    apply (elem_of_scan_msg w' (str_bytes dst ++ str_bytes "_") l' _ _ Hl').
    rewrite Hv, lookup_insert_eq. split; [|done]. rewrite Hm. unfold msg_key, message_key, destination_prefix.
    cbn [cm_destination_peer_id cm_custody_id]. apply starts_with_app. }
  destruct (list_find mine (decoded l')) as [[n r]|] eqn:Hf.
  - apply list_find_Some in Hf as (Hn & Hmine & _). cbn. f_equal. apply Honly; [|done]. by eapply list_elem_of_lookup_2.
  - exfalso. apply list_find_None in Hf. rewrite Forall_forall in Hf. apply (Hf m Hmin). by rewrite Hm.
Qed.

(** What the pressure policy removes.  A purge of [q] bytes takes stored records in
    the order of the policy (records of other nodes before the relay's own, then oldest
    first), it frees the bytes asked for or empties the store, and it takes no record
    that was not needed; every other record stays. *)
Theorem purge_policy q reason w :
  custody_ok w -> 0 <= q ->
  exists r w' cs rest,
    purge_oldest_by_policy local_identity q reason w = (Ok r, w') /\
    candidates_of w (purge_prefix q cs ++ rest) /\ Sorted (purge_le local_identity) (purge_prefix q cs ++ rest) /\
    removed (ckey <$> purge_prefix q cs) (mview w) (mview w') /\
    scm_bytes w' = scm_bytes w - stored_sum (purge_prefix q cs) /\
    (q <= stored_sum (purge_prefix q cs) \/ mview w' = ∅) /\
    (forall pre c, purge_prefix q cs = pre ++ [c] -> stored_sum pre < q).
Proof.
  intros Hok Hq.
  destruct (wp_run (purge_oldest_by_policy local_identity q reason) (fun r w' => purged local_identity q w w' r) w)
    as (r & w' & Hrun & cs & Hc & Hsort & Hr & Hs & _).
  { apply wp_purge; [done|]. intros r w' Hp _. exact Hp. }
  destruct (purge_prefix_prefix q cs) as [rest Hrest]. exists r, w', cs, rest. rewrite <-Hrest.
  pose proof Hc as (_ & _ & Hsz & _ & Hkeys). split_and!; try done.
  - destruct (purge_prefix_enough q cs Hsz Hq) as [H|H]; [by left|right]. rewrite H in Hr.
    apply map_eq. intros k. rewrite Hr, lookup_empty. case_decide as Hk; [done|].
    apply eq_None_not_Some. by rewrite <-Hkeys.
  - intros pre c Hp. by eapply purge_prefix_needed.
Qed.

(** The ceiling holds.  When the storage probe works, accepting a message either
    returns one that is already held or leaves the stored messages within the ceiling
    that a reading of the probe made during the call gives: nine tenths of the device,
    less what the rest of the device uses. *)
Theorem accept_within_quota src dst mid data ri di w m w' :
  custody_ok w -> scm_bytes w <= u64_max ->
  (forall n, exists s, probe n = Some s /\ 0 < ds_total_bytes s <= u64_max /\ 0 <= ds_used_bytes s) ->
  accept_custody local_identity src dst mid data ri di w = (Ok m, w') ->
  w' = w \/
  exists n s scm, (w_ticks w <= n)%nat /\ probe n = Some s /\ 0 <= scm <= scm_bytes w /\
    scm_bytes w' <= sat_sub (ds_total_bytes s * 90 / 100)
                      (sat_sub (Z.min (ds_used_bytes s) (ds_total_bytes s)) scm).
Proof.
  intros Hok Hle Hprobe. revert m w'.
  enough (wp (accept_custody local_identity src dst mid data ri di) (fun _ w' => w' = w \/
    exists n s scm, (w_ticks w <= n)%nat /\ probe n = Some s /\ 0 <= scm <= scm_bytes w /\
      scm_bytes w' <= sat_sub (ds_total_bytes s * 90 / 100)
                        (sat_sub (Z.min (ds_used_bytes s) (ds_total_bytes s)) scm)) (fun _ _ => True) w) as H.
  { intros m w' Hrun. by eapply wp_ok_inv in H; [|exact Hrun]. }
  apply wp_accept; [done|by left| |done].
  intros _ m w' _ _ [_ (w1 & b & _ & _ & Henc & _ & Hv & Hfit)] _. right.
  destruct Hfit as (w0 & Hs0 & Ht0 & (n & s & c & scm & b' & Hn & Hp & Hscm & Hc & Henc' & Hfits)); [done| |].
  { intros n. destruct (Hprobe n) as (s & -> & _). done. }
  rewrite Henc in Henc'. injection Henc' as <-. rewrite Hs0 in Hscm.
  exists n, s, scm. split_and!; [lia|done|lia|lia|].
  destruct (Hprobe n) as (s' & Hp' & Ht & Hu). rewrite Hp in Hp'. injection Hp' as <-.
  unfold from_snapshot in Hc. destruct (Z.eqb_spec (ds_total_bytes s) 0) as [|_]; [done|]. injection Hc as <-.
  destruct Hfits as [_ Hfits]. unfold state_for_scm_bytes in Hfits. cbn [sc_total_bytes sc_non_scm_used_bytes] in Hfits.
  destruct (band_of _) as [band pct]. cbn [sp_hard_ceiling_bytes] in Hfits.
  unfold DEVICE_USAGE_CEILING_PERCENT, cast_u in Hfits.
  assert (0 <= ds_total_bytes s * 90 / 100 < u64_max) as Hn90.
  { split; [apply Z.div_pos; lia|]. apply Z.div_lt_upper_bound; unfold u64_max in *; lia. }
  rewrite Z.mod_small in Hfits by (unfold u64_max in *; lia).
  pose proof (msum_insert_le (mview w1) (msg_key m) b). unfold scm_bytes in *. rewrite Hv.
  unfold sat_add, sat_sub, u64_max in *. lia.
Qed.

(** A handover takes the queue along.  When the active device hands its identity
    over, every message held for that identity and addressed to that device is addressed
    to the new one, and every other message is as it was. *)
Theorem handover_retargets id nid from nf to nt w i s u :
  custody_ok w ->
  normalize_identity_id id = Ok nid ->
  normalize_uuid_v4 from "deregistration_from_device_id_invalid" = Ok nf ->
  normalize_uuid_v4 to "deregistration_target_device_id_invalid" = Ok nt -> nf <> nt ->
  reg_at w nid = Some (mkRegistration i (Active nf s) u) ->
  exists w', deregister_identity id from (Some to) w = (Ok (Handover nf nt (clock (w_ticks w))), w') /\
    forall r b, mview w !! msg_key r = Some b -> dec b = Some r ->
      if decide (cm_recipient_identity_id r = Some nid /\ cm_intended_device_id r = Some nf)
      then exists b' now, mview w' !! msg_key r = Some b' /\ dec b' = Some (set_device r nt now)
      else mview w' !! msg_key r = Some b.
Proof.
  intros Hok Hid Hf Ht Hne Hr.
  destruct (deregister_starts_handover id nid from nf to nt w i s u Hid Hf Ht Hne Hr) as (w1 & Hrun & Hw1).
  assert (reg_only w w1) as Honly.
  { eapply (wp_ok_inv _ (fun _ w' => reg_only w w') (fun _ _ => True)); [|exact Hrun].
    eapply wp_mono; [apply wp_deregister| |done]. intros ? w' [H _]. exact H. }
  pose proof (reg_only_mview w w1 Honly) as Hv1.
  assert (custody_ok w1) as Hok1 by (by apply (custody_ok_mview w w1)).
  destruct (wp_run (migrate_pending_identity_device nid nf nt "identity_handover_queue_migrated")
    (fun _ w' => exists l, be_scan_prefix (w_db w1) CUSTODY_MSG_PREFIX = Ok l /\
       retargeted nt (pending_of_identity nid (Some nf) l) (mview w1) (mview w')) w1) as (n & w2 & Hrun2 & l & Hl & Hret).
  { unfold migrate_pending_identity_device. wp_steps. apply (wp_lookup_registered id); [done| |].
    { unfold reg_at in Hw1. destruct (rview w1 !! registration_key nid); [done|discriminate Hw1]. }
    wp_steps. apply wp_db_scan. intros l Hl. apply wp_migrate_loop; [by eapply pending_NoDup|]. eauto. }
  exists w2. split.
  { unfold deregister_identity, bind at 1. rewrite Hrun. cbn [ro_side_effect ro_state apply_registry_side_effect].
    unfold bind. by rewrite Hrun2. }
  destruct Hret as [Hin Hout]. rewrite Hv1 in Hout. intros r b Hb Hd. case_decide as Hc.
  - apply Hin. apply (elem_of_pending w1); [done|done|]. rewrite Hv1. split_and!; [by exists b|tauto|right; tauto].
  - rewrite Hout; [done|]. intros (r' & Hk & Hr')%list_elem_of_fmap.
    rewrite (elem_of_pending w1 l) in Hr' by done. destruct Hr' as [(b' & Hb' & Hd') [Hi Hdev]].
    rewrite Hv1, <-Hk, Hb in Hb'. injection Hb' as <-. rewrite Hd in Hd'. injection Hd' as <-.
    destruct Hdev as [?|Hdev]; [done|tauto].
Qed.

(** The two ways to be abandoned.  An identity that its active device abandons loses
    every message held for it, and no other message; a handover that expires is turned
    into an abandonment by the next lookup, which leaves all messages in place. *)
Theorem abandonment_queue id nid from nf w i s u :
  custody_ok w ->
  normalize_identity_id id = Ok nid ->
  normalize_uuid_v4 from "deregistration_from_device_id_invalid" = Ok nf ->
  reg_at w nid = Some (mkRegistration i (Active nf s) u) ->
  (exists w', deregister_identity id from None w = (Ok (Abandoned nf (clock (w_ticks w))), w') /\
    forall r b, mview w !! msg_key r = Some b -> dec b = Some r ->
      mview w' !! msg_key r = if decide (cm_recipient_identity_id r = Some nid) then None else Some b) /\
  (forall hint w2, mview (get_state hint w2).2 = mview w2).
Proof.
  intros Hok Hid Hf Hr. split.
  2: { intros hint w2. apply (wp_snd _ (fun w' => mview w' = mview w2)).
       apply wp_get_state; [|done]. intros o w' [H _]. by apply reg_only_mview. }
  destruct (deregister_abandons id nid from nf w i s u Hid Hf Hr) as (w1 & Hrun & Hw1).
  assert (reg_only w w1) as Honly.
  { eapply (wp_ok_inv _ (fun _ w' => reg_only w w') (fun _ _ => True)); [|exact Hrun].
    eapply wp_mono; [apply wp_deregister| |done]. intros ? w' [H _]. exact H. }
  pose proof (reg_only_mview w w1 Honly) as Hv1.
  assert (custody_ok w1) as Hok1 by (by apply (custody_ok_mview w w1)).
  destruct (wp_run (purge_pending_identity_messages nid None "identity_queue_purged")
    (fun _ w' => exists l, be_scan_prefix (w_db w1) CUSTODY_MSG_PREFIX = Ok l /\
       removed (msg_key <$> pending_of_identity nid None l) (mview w1) (mview w')) w1) as (n & w2 & Hrun2 & l & Hl & Hret).
  { unfold purge_pending_identity_messages. wp_steps. apply (wp_lookup_registered id); [done|done|].
    wp_steps. apply wp_db_scan. intros l Hl. apply wp_purge_identity_loop. eauto. }
  exists w2. split.
  { unfold deregister_identity, bind at 1. rewrite Hrun. cbn [ro_side_effect ro_state apply_registry_side_effect].
    unfold bind. by rewrite Hrun2. }
  intros r b Hb Hd. rewrite Hret, Hv1, Hb. case_decide as Hin; case_decide as Hc; try done; exfalso.
  - apply list_elem_of_fmap in Hin as (r' & Hk & Hr'). rewrite (elem_of_pending w1 l) in Hr' by done.
    destruct Hr' as [(b' & Hb' & Hd') [Hi _]]. rewrite Hv1, <-Hk, Hb in Hb'. injection Hb' as <-. congruence.
  - apply Hin, list_elem_of_fmap. exists r. split; [done|]. apply (elem_of_pending w1 l); [done|done|].
    rewrite Hv1. split_and!; [by exists b|done|by left].
Qed.

(** The attempt limit leaves a message behind.  Once a queued message has been
    dispatched twelve times, every further attempt is refused and changes nothing, yet
    the message is still among those pending for its destination and counts towards its
    queue limit. *)
Theorem exhausted_stays w dst cid b r ops :
  mview w !! message_key dst cid = Some b -> dec b = Some r ->
  cm_state r = Accepted -> MAX_DELIVERY_ATTEMPTS <= cm_delivery_attempts r ->
  Z.of_nat (size (mview w)) <= u64_max ->
  Forall (fun op => exists reason, op = OpDispatching dst cid reason \/ op = OpDispatchFailed dst cid reason) ops ->
  foldl (fun w op => (run_cop op w).2) w ops = w /\
  (forall reason, (mark_dispatching dst cid reason w).1 = Err "Max delivery attempts exceeded"%string) /\
  exists q, pending_for_destination dst u64_max w = (Ok q, w) /\ r ∈ q.
Proof.
  intros Hb Hd Hs Ha Hsz Hops. apply mview_lookup in Hb as [Hb _].
  assert (require_record dst cid w = (Ok r, w)) as Hreq.
  { unfold require_record, get_message, bind, db_get, reads. rewrite be_get_law. fold (cview w). rewrite Hb.
    cbn. unfold lift, ok_or. by rewrite Hd. }
  assert (forall reason, mark_dispatching dst cid reason w = (Err "Max delivery attempts exceeded"%string, w)) as Hmark.
  { intros reason. unfold mark_dispatching, bind at 1. rewrite Hreq, Hs. by rewrite (proj2 (Z.leb_le _ _) Ha). }
  split; [|split].
  - induction Hops as [|op ops [reason [->| ->]] _ IH]; [done|..]; cbn [foldl run_cop].
    + by rewrite Hmark.
    + unfold mark_dispatch_failed, bind at 1. by rewrite Hreq, Hs.
  - intros reason. by rewrite Hmark.
  - destruct (be_scan_law (w_db w) (destination_prefix dst)) as (l & Hl & _).
    eexists. split; [unfold pending_for_destination, bind, try_ok, db_scan, reads; by rewrite Hl|].
    cbn [default from_option id]. set (rs := filter _ _).
    assert (r ∈ rs) as Hr.
    { apply list_elem_of_filter. split; [done|]. apply list_elem_of_omap. exists (message_key dst cid, b).
      split; [|done]. apply (elem_of_scan _ _ _ _ _ Hl). split; [apply starts_with_app|done]. }
    assert (zlen rs <= u64_max) as Hle.
    { etrans; [|exact Hsz]. unfold zlen. apply inj_le. unfold rs. etrans; [apply length_filter|].
      etrans; [apply omap_length_le|]. rewrite (scan_mview _ _ _ Hl).
      etrans; [apply length_filter|]. by rewrite length_map_to_list. }
    rewrite take_ge; [by rewrite stable_sort_Permutation|]. rewrite stable_sort_Permutation.
    rewrite Z.min_r by done. unfold zlen. lia.
Qed.

End Properties.

(** ** Concrete instances *)

#[global] Instance CustodyState_countable : Countable CustodyState.
Proof.
  refine (inj_countable' (fun s => match s with Accepted => 0 | Dispatching => 1 | Delivered => 2 end)
    (fun n => match n with 0 => Accepted | 1 => Dispatching | _ => Delivered end) _). by intros [].
Defined.

#[global] Instance CustodyMessage_eq_dec : EqDecision CustodyMessage.
Proof. solve_decision. Defined.

#[global, program] Instance CustodyMessage_countable : Countable CustodyMessage :=
  inj_countable' (fun r => (cm_custody_id r, cm_relay_message_id r, cm_source_peer_id r, cm_destination_peer_id r,
      cm_recipient_identity_id r, cm_intended_device_id r, cm_envelope_data r, cm_state r, cm_accepted_at_ms r,
      cm_updated_at_ms r, cm_delivery_attempts r))
    (fun '(a, b, c, d, e, f, g, h, i, j, k) => mkCustody a b c d e f g h i j k) _.
Next Obligation. by intros []. Qed.

#[global] Instance CustodyTransition_eq_dec : EqDecision CustodyTransition.
Proof. solve_decision. Defined.

#[global, program] Instance CustodyTransition_countable : Countable CustodyTransition :=
  inj_countable' (fun r => (ct_custody_id r, ct_relay_message_id r, ct_source_peer_id r, ct_destination_peer_id r,
      ct_from_state r, ct_to_state r, ct_reason r, ct_at_ms r, ct_sequence r))
    (fun '(a, b, c, d, e, f, g, h, i) => mkTransition a b c d e f g h i) _.
Next Obligation. by intros []. Qed.

Module CustodyExamples.

#[local] Instance ex_env : Env :=
  {| clock n := 1000 + Z.of_nat n mod 1000; probe _ := Some (mkSnapshot 1000000 200000); env_var _ := None |}.

#[local] Instance ex_ids : IdLib :=
  {| uuid_version s := if str_len s =? 36 then (fun b => byte.unsigned b - 48) <$> (str_bytes s !! 14%nat) else None;
     hex_decode s := Some (str_bytes s);
     hex_encode b := of_bytes b;
     blake3_hash b := b |}.

#[local] Instance ex_iter : HashIter bytes bytes := canonical_iter.
#[local] Instance ex_codec_r : Codec RegistrationRecord := any_codec.
#[local] Instance ex_codec_t : Codec RegistrationTransition := any_codec.
#[local] Instance ex_codec_m : Codec CustodyMessage := any_codec.
#[local] Instance ex_codec_c : Codec CustodyTransition := any_codec.
#[local] Instance ex_lawful_r : LawfulCodec RegistrationRecord := any_codec_lawful.
#[local] Instance ex_lawful_t : LawfulCodec RegistrationTransition := any_codec_lawful.
#[local] Instance ex_lawful_m : LawfulCodec CustodyMessage := any_codec_lawful.
#[local] Instance ex_lawful_c : LawfulCodec CustodyTransition := any_codec_lawful.

Definition w0 : World MemoryStorage := in_memory memory_new.

Definition ID : string := "abcdef0123456789abcdef0123456789abcdef0123456789abcdef0123456789".
Definition DA : string := "11111111-1111-4111-8111-111111111111".
Definition DB : string := "22222222-2222-4222-8222-222222222222".

(** A registered identity with one message for its device and one without a device. *)
Definition setup : list CustodyOp :=
  [OpRegisterIdentity ID DA 7; OpAccept "src" "dst" "m1" [Byte.x01] (Some ID) (Some DA);
   OpAccept "src" "dst" "m2" [Byte.x02] None None].

Definition run (ops : list CustodyOp) (w : World MemoryStorage) : World MemoryStorage :=
  foldl (fun w op => (run_cop (Some "dst"%string) op w).2) w ops.

Lemma w0_ok : custody_ok w0.
Proof. intros k b Hb. apply mview_lookup in Hb as [Hb _]. discriminate Hb. Qed.

Lemma run_ok ops w : custody_ok w -> custody_ok (run ops w).
Proof.
  revert w. induction ops as [|op ops IH]; intros w Hok; [exact Hok|]. apply IH.
  apply (wp_snd _ custody_ok). by apply keeps_op.
Qed.

Lemma custody_invariant_witness : custody_ok (run setup w0).
Proof. exact (proj1 (custody_invariant (Some "dst"%string) setup w0 w0_ok)). Defined.

Lemma accept_idempotent_witness : exists m w1,
  accept_custody None "a" "b" "m" [Byte.x01] None None w0 = (Ok m, w1) /\
  accept_custody None "c" "b" "m" [Byte.x02] (Some ID) (Some DA) w1 = (Ok m, w1).
Proof.
  assert (is_ok (accept_custody None "a" "b" "m" [Byte.x01] None None w0).1 = true) as Hc by (vm_compute; reflexivity).
  destruct (accept_custody None "a" "b" "m" [Byte.x01] None None w0) as [[m|e|] w1] eqn:Hrun; [|discriminate Hc..].
  exists m, w1. split; [reflexivity|].
  exact (accept_idempotent None "a" "b" "m" [Byte.x01] None None w0 m w1 "c" [Byte.x02] (Some ID) (Some DA) w0_ok Hrun).
Defined.

Lemma purge_policy_witness : exists r w' cs rest,
  purge_oldest_by_policy (Some "dst"%string) 5 "r" (run setup w0) = (Ok r, w') /\
  candidates_of (run setup w0) (purge_prefix 5 cs ++ rest).
Proof.
  destruct (purge_policy (Some "dst"%string) 5 "r" (run setup w0) (run_ok setup w0 w0_ok)) as (r & w' & cs & rest & H1 & H2 & _);
    [lia|]. exists r, w', cs, rest. exact (conj H1 H2).
Defined.

Lemma accept_within_quota_witness : exists m w1,
  accept_custody None "a" "b" "m" [Byte.x01] None None w0 = (Ok m, w1) /\
  (w1 = w0 \/ exists n s scm, (w_ticks w0 <= n)%nat /\ probe n = Some s /\ 0 <= scm <= scm_bytes w0 /\
    scm_bytes w1 <= sat_sub (ds_total_bytes s * 90 / 100) (sat_sub (Z.min (ds_used_bytes s) (ds_total_bytes s)) scm)).
Proof.
  assert (is_ok (accept_custody None "a" "b" "m" [Byte.x01] None None w0).1 = true) as Hc by (vm_compute; reflexivity).
  destruct (accept_custody None "a" "b" "m" [Byte.x01] None None w0) as [[m|e|] w1] eqn:Hrun; [|discriminate Hc..].
  exists m, w1. split; [reflexivity|].
  apply (accept_within_quota None "a" "b" "m" [Byte.x01] None None w0 m w1 w0_ok); [by vm_compute| |exact Hrun].
  intros n. exists (mkSnapshot 1000000 200000). unfold u64_max. cbn. split; [reflexivity|lia].
Defined.

Lemma setup_at : reg_at (run setup w0) ID = Some (mkRegistration ID (Active DA 7) 1000).
Proof. vm_compute. reflexivity. Qed.

Lemma handover_retargets_witness : exists w',
  deregister_identity ID DA (Some DB) (run setup w0) =
    (Ok (Handover DA DB (clock (w_ticks (run setup w0)))), w').
Proof.
  destruct (handover_retargets ID ID DA DA DB DB (run setup w0) ID 7 1000 (run_ok setup w0 w0_ok)) as (w' & H & _);
    [by vm_compute..|exact setup_at|]. exists w'. exact H.
Defined.

Lemma abandonment_queue_witness : exists w',
  deregister_identity ID DA None (run setup w0) = (Ok (Abandoned DA (clock (w_ticks (run setup w0)))), w').
Proof.
  destruct (abandonment_queue ID ID DA DA (run setup w0) ID 7 1000 (run_ok setup w0 w0_ok)) as [(w' & H & _) _];
    [by vm_compute..|exact setup_at|]. exists w'. exact H.
Defined.

(** A message whose attempts are used up. *)
Definition tired : CustodyMessage :=
  mkCustody "c1" "m9" "src" "dst" None None [Byte.x01] Accepted 1000 1000 12.

Definition w9 : World MemoryStorage := (put_message tired w0).2.

Lemma exhausted_stays_witness :
  run [OpDispatching "dst" "c1" "retry"; OpDispatchFailed "dst" "c1" "retry"] w9 = w9 /\
  (forall reason, (mark_dispatching "dst" "c1" reason w9).1 = Err "Max delivery attempts exceeded"%string) /\
  exists q, pending_for_destination "dst" u64_max w9 = (Ok q, w9) /\ tired ∈ q.
Proof.
  apply (exhausted_stays (Some "dst"%string) w9 "dst" "c1" (enc_any tired) tired);
    [vm_compute; reflexivity|vm_compute; reflexivity|reflexivity|by vm_compute|by vm_compute|].
  repeat constructor; eexists; [left|right]; reflexivity.
Defined.

End CustodyExamples.
