(* ===== verification/CircuitBreaker.v ===== *)
(** * Circuit breakers for relays ([core/src/transport/circuit_breaker.rs])

    One breaker per relay address: closed while the relay works, open after too many
    failures, half open while a recovery is probed.  Times and durations are
    milliseconds; each method runs under the lock, except that [allow_request]
    releases the lock between its check and the transition to half open, which are
    two definitions here. *)

From S2P Require Import Prelude.

(** ** Data *)

Inductive CircuitState : Type := Closed | Open | HalfOpen.

#[global] Instance CircuitState_eq_dec : EqDecision CircuitState.
Proof. solve_decision. Defined.

Record CircuitBreakerConfig : Type := mkConfig {
  failure_threshold : Z;
  open_timeout : Z;
  half_open_timeout : Z;
  success_threshold : Z;
  max_half_open_probes : Z;
}.

Definition default_config : CircuitBreakerConfig := mkConfig 3 300000 30000 2 3.

Record CircuitBreakerEntry : Type := mkEntry {
  cb_state : CircuitState;
  failure_count : Z;
  success_count : Z;
  half_open_probes : Z;
  opened_at : option Z;
  half_open_started_at : option Z;
  last_failure_reason : option string;
  last_success_at : option Z;
}.

Definition entry_new : CircuitBreakerEntry := mkEntry Closed 0 0 0 None None None None.

Record CircuitBreakerManager : Type := mkManager {
  cb_config : CircuitBreakerConfig;
  cb_entries : gmap string CircuitBreakerEntry;
}.

Record CircuitBreakerStats : Type := mkStats {
  closed_count : Z;
  open_count : Z;
  half_open_count : Z;
  stats_total : Z;
}.

(** ** Operations *)

Section Breaker.
Context {BM : Build} {HI : HashIter string CircuitBreakerEntry}.

Definition manager_new (config : CircuitBreakerConfig) : CircuitBreakerManager := mkManager config ∅.

Definition with_defaults : CircuitBreakerManager := manager_new default_config.

Definition set_entry (m : CircuitBreakerManager) (a : string) (e : CircuitBreakerEntry) : CircuitBreakerManager :=
  mkManager (cb_config m) (<[a := e]> (cb_entries m)).

(** What [allow_request] decides under the read lock. *)
Inductive Decision3 : Type := Allow | Deny | Probe.

(** [opened_at.elapsed().unwrap_or_default()] is zero when the clock went back. *)
Definition check_request (now : Z) (m : CircuitBreakerManager) (relay_address : string) : Decision3 :=
  match cb_entries m !! relay_address with
  | None => Allow
  | Some entry =>
      match cb_state entry with
      | Closed => Allow
      | Open =>
          match opened_at entry with
          | Some t => if open_timeout (cb_config m) <=? sat_sub now t then Probe else Deny
          | None => Deny
          end
      | HalfOpen => if half_open_probes entry <? max_half_open_probes (cb_config m) then Allow else Deny
      end
  end.

Definition transition_to_half_open (now : Z) (m : CircuitBreakerManager) (relay_address : string)
  : res string CircuitBreakerManager :=
  match cb_entries m !! relay_address with
  | Some e =>
      let! probes := chk_u 32 (half_open_probes e + 1) in
      Ok (set_entry m relay_address (mkEntry HalfOpen (failure_count e) 0 probes (opened_at e) (Some now)
            (last_failure_reason e) (last_success_at e)))
  | None => Ok m
  end.

Definition allow_request (now : Z) (m : CircuitBreakerManager) (relay_address : string)
  : res string (bool * CircuitBreakerManager) :=
  match check_request now m relay_address with
  | Allow => Ok (true, m)
  | Deny => Ok (false, m)
  | Probe => let! m := transition_to_half_open now m relay_address in Ok (true, m)
  end.

Definition record_success (now : Z) (m : CircuitBreakerManager) (relay_address : string)
  : res string CircuitBreakerManager :=
  let e := default entry_new (cb_entries m !! relay_address) in
  match cb_state e with
  | Closed =>
      Ok (set_entry m relay_address (mkEntry Closed 0 (success_count e) (half_open_probes e) (opened_at e)
            (half_open_started_at e) None (Some now)))
  | HalfOpen =>
      let! successes := chk_u 32 (success_count e + 1) in
      if success_threshold (cb_config m) <=? successes
      then Ok (set_entry m relay_address (mkEntry Closed 0 0 0 None None None (Some now)))
      else Ok (set_entry m relay_address (mkEntry HalfOpen (failure_count e) successes (half_open_probes e)
                 (opened_at e) (half_open_started_at e) None (Some now)))
  | Open =>
      Ok (set_entry m relay_address (mkEntry Open (failure_count e) (success_count e) (half_open_probes e)
            (opened_at e) (half_open_started_at e) None (Some now)))
  end.

Definition record_failure (now : Z) (m : CircuitBreakerManager) (relay_address reason : string)
  : res string CircuitBreakerManager :=
  let e := default entry_new (cb_entries m !! relay_address) in
  let! failures := chk_u 32 (failure_count e + 1) in
  match cb_state e with
  | Closed =>
      if failure_threshold (cb_config m) <=? failures
      then Ok (set_entry m relay_address (mkEntry Open failures 0 (half_open_probes e) (Some now)
                 (half_open_started_at e) (Some reason) (last_success_at e)))
      else Ok (set_entry m relay_address (mkEntry Closed failures (success_count e) (half_open_probes e) (opened_at e)
                 (half_open_started_at e) (Some reason) (last_success_at e)))
  | HalfOpen =>
      Ok (set_entry m relay_address (mkEntry Open failures 0 0 (Some now) None (Some reason) (last_success_at e)))
  | Open =>
      Ok (set_entry m relay_address (mkEntry Open failures (success_count e) (half_open_probes e) (Some now)
            (half_open_started_at e) (Some reason) (last_success_at e)))
  end.

Definition get_state (m : CircuitBreakerManager) (relay_address : string) : CircuitState :=
  from_option cb_state Closed (cb_entries m !! relay_address).

Definition get_failure_count (m : CircuitBreakerManager) (relay_address : string) : Z :=
  from_option failure_count 0 (cb_entries m !! relay_address).

Definition get_last_failure_reason (m : CircuitBreakerManager) (relay_address : string) : option string :=
  cb_entries m !! relay_address ≫= last_failure_reason.

Definition reset (m : CircuitBreakerManager) (relay_address : string) : CircuitBreakerManager :=
  mkManager (cb_config m) (delete relay_address (cb_entries m)).

Definition reset_all (m : CircuitBreakerManager) : CircuitBreakerManager := mkManager (cb_config m) ∅.

Definition get_open_circuits (m : CircuitBreakerManager) : list string :=
  (filter (fun ke => cb_state ke.2 = Open) (hm_iter (cb_entries m))).*1.

Definition get_healthy_relays (m : CircuitBreakerManager) : list string :=
  (filter (fun ke => cb_state ke.2 = Closed) (hm_iter (cb_entries m))).*1.

Definition get_stats (m : CircuitBreakerManager) : CircuitBreakerStats :=
  let entries := (hm_iter (cb_entries m)).*2 in
  mkStats (zlen (filter (fun e => cb_state e = Closed) entries)) (zlen (filter (fun e => cb_state e = Open) entries))
    (zlen (filter (fun e => cb_state e = HalfOpen) entries)) (Z.of_nat (size (cb_entries m))).

(** ** Runs *)

Inductive BreakerOp : Type :=
| OpAllow (now : Z) (a : string)
| OpSuccess (now : Z) (a : string)
| OpFailure (now : Z) (a reason : string)
| OpReset (a : string)
| OpResetAll.

(** One call; the answer of [allow_request] is kept. *)
Definition breaker_step (m : CircuitBreakerManager) (op : BreakerOp)
  : res string (option (string * bool) * CircuitBreakerManager) :=
  match op with
  | OpAllow now a => let! '(b, m) := allow_request now m a in Ok (Some (a, b), m)
  | OpSuccess now a => let! m := record_success now m a in Ok (None, m)
  | OpFailure now a reason => let! m := record_failure now m a reason in Ok (None, m)
  | OpReset a => Ok (None, reset m a)
  | OpResetAll => Ok (None, reset_all m)
  end.

(** A run of calls: the answers to requests for the address [a], and the final state. *)
Fixpoint breaker_run (a : string) (m : CircuitBreakerManager) (ops : list BreakerOp)
  : res string (list bool * CircuitBreakerManager) :=
  match ops with
  | [] => Ok ([], m)
  | op :: ops =>
      let! '(o, m) := breaker_step m op in
      let! '(answers, m) := breaker_run a m ops in
      Ok (match o with Some (a', b) => if decide (a' = a) then b :: answers else answers | None => answers end, m)
  end.

End Breaker.

(** The address an operation is about, and its time. *)
Definition op_addr (op : BreakerOp) : option string :=
  match op with OpAllow _ a | OpSuccess _ a | OpFailure _ a _ | OpReset a => Some a | OpResetAll => None end.

(** ** Properties *)

Section Properties.
Context {BM : Build}.

Implicit Types (m : CircuitBreakerManager) (e : CircuitBreakerEntry).

(** What holds of every entry a manager with configuration [c] can reach. *)
Definition entry_ok (c : CircuitBreakerConfig) e : Prop :=
  0 <= failure_count e <= u32_max /\ 0 <= success_count e /\
  match cb_state e with
  | Closed => half_open_probes e = 0 /\ (failure_count e < failure_threshold c \/ failure_count e = 0) /\
              success_count e = 0 /\ opened_at e = None
  | Open => half_open_probes e = 0 /\ success_count e = 0 /\ is_Some (opened_at e)
  | HalfOpen => half_open_probes e = 1 /\ (success_count e < success_threshold c \/ success_count e = 0) /\
                is_Some (opened_at e)
  end.

Definition manager_ok m : Prop :=
  map_Forall (fun _ => entry_ok (cb_config m)) (cb_entries m) /\
  success_threshold (cb_config m) <= u32_max.

Lemma entry_new_ok c : entry_ok c entry_new.
Proof. unfold entry_ok, u32_max. cbn. split_and!; auto; lia. Qed.

Lemma default_ok m a : manager_ok m -> entry_ok (cb_config m) (default entry_new (cb_entries m !! a)).
Proof. intros [H _]. destruct (cb_entries m !! a) eqn:Ha; [by apply (H a)|apply entry_new_ok]. Qed.

Lemma set_entry_ok m a e : manager_ok m -> entry_ok (cb_config m) e -> manager_ok (set_entry m a e).
Proof. intros [H Hs] He. split; [|done]. by apply map_Forall_insert_2. Qed.

Lemma chk_u32_range z r : @chk_u BM string 32 z = Ok r -> 0 <= r <= u32_max /\ (0 <= z <= u32_max -> r = z).
Proof.
  intros H. pose proof (chk_u_range 32 z r ltac:(lia) H) as Hr. unfold in_u, u32_max in *. split; [lia|].
  intros Hz. rewrite chk_u_ok in H by (unfold in_u; lia). congruence.
Qed.

(** The step function keeps the configuration and the invariant. *)
Lemma step_ok m op o m' :
  manager_ok m -> breaker_step m op = Ok (o, m') -> manager_ok m' /\ cb_config m' = cb_config m.
Proof.
  intros Hok. destruct op as [now a|now a|now a reason|a|]; cbn.
  - unfold allow_request, check_request, transition_to_half_open.
    destruct (cb_entries m !! a) as [e|] eqn:Ha; cbn; [|by intros [= <- <-]].
    pose proof (proj1 Hok a e Ha) as (Hf & Hs & He). destruct (cb_state e) eqn:Hst; [by intros [= <- <-]| |].
    + destruct He as (Hp & Hsc & Ho). destruct (opened_at e) as [t|] eqn:Hoe; [|by intros [= <- <-]]. case_if; [|by intros [= <- <-]].
      cbn. rewrite chk_u_ok by (rewrite Hp; unfold in_u; lia). cbn. intros [= <- <-]. split; [|done].
      apply set_entry_ok; [done|]. unfold entry_ok. cbn. rewrite Hp. split_and!; try lia; done.
    + case_if; by intros [= <- <-].
  - unfold record_success. pose proof (default_ok m a Hok) as (Hf & Hs & He).
    set (e := default entry_new (cb_entries m !! a)) in *. destruct (cb_state e) eqn:Hst; cbn.
    + intros [= <- <-]. split; [|done]. apply set_entry_ok; [done|]. unfold entry_ok, u32_max in *. cbn.
      destruct He as (? & ? & ? & ?). split_and!; try lia; done.
    + intros [= <- <-]. split; [|done]. apply set_entry_ok; [done|]. unfold entry_ok. cbn. by destruct He.
    + destruct (chk_u 32 _) as [n|err|] eqn:Hn; cbn; [|done..]. apply chk_u32_range in Hn as [Hn _].
      case_if; intros [= <- <-]; (split; [|done]); (apply set_entry_ok; [done|]); unfold entry_ok, u32_max in *; cbn; bool_to_prop;
        destruct He as (? & ? & ?); split_and!; try lia; done.
  - unfold record_failure. pose proof (default_ok m a Hok) as (Hf & Hs & He).
    set (e := default entry_new (cb_entries m !! a)) in *.
    destruct (chk_u 32 _) as [n|err|] eqn:Hn; cbn; [|done..]. apply chk_u32_range in Hn as [Hn _].
    destruct (cb_state e) eqn:Hst; cbn; [case_if|..]; cbn; intros [= <- <-]; (split; [|done]); (apply set_entry_ok; [done|]);
      unfold entry_ok, u32_max in *; cbn; bool_to_prop; destruct He as (? & ? & ?); split_and!; try lia; try done.
    all: tauto.
  - intros [= <- <-]. split; [|done]. destruct Hok as [H Hs]. split; [|done]. by apply map_Forall_delete.
  - intros [= <- <-]. split; [|done]. destruct Hok as [H Hs]. split; [apply map_Forall_empty|done].
Qed.

(** *** One call, seen from one address *)

(** A call that can change what is known of [a]. *)
Definition touches (a : string) (op : BreakerOp) : bool :=
  match op with OpResetAll => true | _ => bool_decide (op_addr op = Some a) end.

Lemma step_other m op o m' a :
  touches a op = false -> breaker_step m op = Ok (o, m') ->
  cb_entries m' !! a = cb_entries m !! a /\ cb_config m' = cb_config m /\ (forall b, o <> Some (a, b)).
Proof.
  intros Ht. assert (forall x e, x <> a -> cb_entries (set_entry m x e) !! a = cb_entries m !! a /\
    cb_config (set_entry m x e) = cb_config m /\ (forall b : bool, None <> Some (a, b))) as Hset
    by (intros x e Hx; unfold set_entry; cbn [cb_entries]; by rewrite lookup_insert_ne).
  destruct op as [now x|now x|now x reason|x|]; cbn in Ht; try (apply bool_decide_eq_false in Ht);
    try (assert (x <> a) as Hx by congruence); [..|done]; unfold breaker_step.
  - unfold allow_request, transition_to_half_open. destruct (check_request now m x); cbn [rbind]; [by intros [= <- <-]; naive_solver..|].
    destruct (cb_entries m !! x); cbn [rbind]; [|by intros [= <- <-]; naive_solver].
    destruct (chk_u 32 _); cbn [rbind]; [|done..]. intros [= <- <-].
    match goal with |- context [set_entry m x ?e] => destruct (Hset x e Hx) as (? & ? & _) end. naive_solver.
  - unfold record_success. destruct (cb_state _); cbn [rbind]; try (intros [= <- <-]; by apply Hset).
    destruct (chk_u 32 _); cbn [rbind]; [|done..]. case_if; intros [= <- <-]; by apply Hset.
  - unfold record_failure. destruct (chk_u 32 _); cbn [rbind]; [|done..].
    destruct (cb_state _); cbn [rbind]; [case_if|..]; cbn [rbind]; intros [= <- <-]; by apply Hset.
  - intros [= <- <-]. unfold reset. cbn [cb_entries cb_config]. by rewrite lookup_delete_ne.
Qed.

(** An invariant of one address over a run whose calls for it satisfy [C]. *)
Lemma run_invariant (I : CircuitBreakerManager -> Prop) (C : BreakerOp -> Prop) (R : bool -> Prop) a ops m answers m' :
  (forall m1 op o m2, C op -> I m1 -> breaker_step m1 op = Ok (o, m2) -> I m2 /\ (forall b, o = Some (a, b) -> R b)) ->
  Forall C ops -> I m -> breaker_run a m ops = Ok (answers, m') -> I m' /\ Forall R answers.
Proof.
  intros Hstep HC. revert m answers. induction HC as [|op ops Hop _ IH]; intros m answers HI; cbn.
  { intros [= <- <-]. by split; [|constructor]. }
  destruct (breaker_step m op) as [[o m1]|?|] eqn:H1; cbn; [|done..].
  destruct (breaker_run a m1 ops) as [[ans m2]|?|] eqn:H2; cbn; [|done..]. intros [= <- <-].
  destruct (Hstep m op o m1 Hop HI H1) as [HI1 HR]. destruct (IH m1 ans HI1 H2) as [HI2 HR2]. split; [done|].
  destruct o as [[a' b]|]; [|done]. case_decide; [|done]. subst. constructor; [by apply HR|done].
Qed.

Lemma run_app a m ops1 ops2 :
  breaker_run a m (ops1 ++ ops2) =
  let! '(ans1, m1) := breaker_run a m ops1 in
  let! '(ans2, m2) := breaker_run a m1 ops2 in Ok (ans1 ++ ans2, m2).
Proof.
  revert m. induction ops1 as [|op ops1 IH]; intros m; cbn.
  { by destruct (breaker_run a m ops2) as [[? ?]|?|]. }
  destruct (breaker_step m op) as [[o m1]|?|]; cbn; [|done..]. rewrite IH.
  destruct (breaker_run a m1 ops1) as [[ans1 m2]|?|]; cbn; [|done..].
  destruct (breaker_run a m2 ops2) as [[ans2 m3]|?|]; cbn; [|done..].
  destruct o as [[a' b]|]; [|done]. by case_decide.
Qed.

(** *** A run does not fail while the failure counters have room *)

Definition room (n : Z) m : Prop := map_Forall (fun _ e => failure_count e + n <= u32_max) (cb_entries m).

Lemma step_total m op n :
  manager_ok m -> room (n + 1) m -> 0 <= n < u32_max ->
  exists o m', breaker_step m op = Ok (o, m') /\ room n m'.
Proof.
  intros Hok Hr Hn.
  assert (forall a, failure_count (default entry_new (cb_entries m !! a)) + (n + 1) <= u32_max) as Hdef.
  { intros a. destruct (cb_entries m !! a) eqn:Ha; [by apply (Hr a)|cbn; lia]. }
  assert (room n m) as Hr0 by (intros a e He; specialize (Hr a e He); cbn in Hr; lia).
  assert (forall a e, failure_count e + n <= u32_max -> room n (set_entry m a e)) as Hset.
  { intros a e He. by apply map_Forall_insert_2. }
  destruct op as [now a|now a|now a reason|a|]; cbn.
  - unfold allow_request, check_request, transition_to_half_open.
    destruct (cb_entries m !! a) as [e|] eqn:Ha; cbn; [|by eexists _, _].
    pose proof (proj1 Hok a e Ha) as (Hf & Hs & He). specialize (Hr0 a e Ha) as Hre.
    destruct (cb_state e) eqn:Hst; [by eexists _, _| |case_if; by eexists _, _].
    destruct He as (Hp & _ & _). destruct (opened_at e); [|by eexists _, _]. case_if; [|by eexists _, _]. cbn.
    rewrite chk_u_ok by (rewrite Hp; unfold in_u; lia). cbn. eexists _, _. split; [done|]. by apply Hset.
  - unfold record_success. pose proof (default_ok m a Hok) as (Hf & Hs & He). specialize (Hdef a).
    set (e := default entry_new (cb_entries m !! a)) in *. destruct (cb_state e); cbn;
      [eexists _, _; split; [done|]; apply Hset; cbn; lia|eexists _, _; split; [done|]; apply Hset; cbn; lia|].
    destruct He as (_ & Hsc & _), Hok as [_ Hthr]. rewrite chk_u_ok by (unfold in_u, u32_max in *; lia). cbn.
    case_if; eexists _, _; (split; [done|]); apply Hset; cbn; lia.
  - unfold record_failure. pose proof (default_ok m a Hok) as (Hf & _). specialize (Hdef a).
    set (e := default entry_new (cb_entries m !! a)) in *. rewrite chk_u_ok by (unfold in_u, u32_max in *; lia). cbn.
    destruct (cb_state e); cbn; [case_if|..]; cbn; eexists _, _; (split; [done|]); apply Hset; cbn; lia.
  - eexists _, _. split; [done|]. by apply map_Forall_delete.
  - eexists _, _. split; [done|]. apply map_Forall_empty.
Qed.

Lemma run_total a m ops :
  manager_ok m -> room (zlen ops) m -> zlen ops <= u32_max -> exists answers m', breaker_run a m ops = Ok (answers, m').
Proof.
  revert m. induction ops as [|op ops IH]; intros m Hok Hr Hl; cbn; [by eexists _, _|]. rewrite zlen_cons in *.
  pose proof (zlen_nonneg ops). destruct (step_total m op (zlen ops)) as (o & m1 & Hs & Hr1);
    [done|by rewrite Z.add_comm|lia|].
  rewrite Hs. cbn. destruct (step_ok _ _ _ _ Hok Hs) as [Hok1 _].
  destruct (IH m1 Hok1 Hr1 ltac:(lia)) as (ans & m2 & ->). by eexists _, _.
Qed.

(** *** Open and half open *)

(** Open since [t] at the latest. *)
Definition open_since (c : CircuitBreakerConfig) (a : string) (t : Z) m : Prop :=
  cb_config m = c /\ exists e t', cb_entries m !! a = Some e /\ cb_state e = Open /\ opened_at e = Some t' /\ t <= t'.

(** A call for [a] that is made within the time [c] keeps a circuit open, and is no reset. *)
Definition within (c : CircuitBreakerConfig) (a : string) (t : Z) (op : BreakerOp) : Prop :=
  match op with
  | OpAllow now a' | OpFailure now a' _ => a' = a -> t <= now < t + open_timeout c
  | OpSuccess _ _ => True
  | OpReset a' => a' <> a
  | OpResetAll => False
  end.

Lemma open_step c a t m op o m' :
  within c a t op -> open_since c a t m -> breaker_step m op = Ok (o, m') ->
  open_since c a t m' /\ (forall b, o = Some (a, b) -> b = false).
Proof.
  intros Hw (Hc & e & t' & He & Hst & Ht & Hle) Hs.
  destruct (touches a op) eqn:Htouch.
  2: { destruct (step_other m op o m' a Htouch Hs) as (H1 & H2 & H3). split; [|by intros b ?%H3].
       split; [congruence|]. exists e, t'. by rewrite H1. }
  destruct op as [now x|now x|now x reason|x|]; cbn in Htouch, Hw; try (apply bool_decide_eq_true in Htouch; injection Htouch as ->);
    [| | |done..]; cbn in Hs.
  - unfold allow_request, check_request in Hs. rewrite He, Hst, Ht, Hc in Hs. specialize (Hw eq_refl).
    destruct (Z.leb_spec (open_timeout c) (sat_sub now t')); [unfold sat_sub in *; lia|].
    injection Hs as <- <-. split; [by split; [|exists e, t']|by intros b [= <-]].
  - unfold record_success in Hs. rewrite He in Hs. cbn [default from_option id] in Hs. rewrite Hst in Hs. cbn [rbind] in Hs.
    injection Hs as <- <-. split; [|done]. split; [done|]. eexists _, t'.
    unfold set_entry. cbn [cb_entries]. by rewrite lookup_insert_eq.
  - unfold record_failure in Hs. rewrite He in Hs. cbn [default from_option id] in Hs. rewrite Hst in Hs.
    destruct (chk_u 32 _) in Hs; cbn [rbind] in Hs; [|done..]. injection Hs as <- <-. specialize (Hw eq_refl).
    split; [|done]. split; [done|]. eexists _, now. unfold set_entry. cbn [cb_entries]. rewrite lookup_insert_eq.
    split_and!; try done. lia.
Qed.

(** A closed circuit after [n] more failures. *)
Definition closed_with (c : CircuitBreakerConfig) (a : string) (f : Z) m : Prop :=
  cb_config m = c /\ manager_ok m /\ get_state m a = Closed /\ get_failure_count m a = f.

Definition is_failure_of (a : string) (op : BreakerOp) : Prop :=
  match op with OpFailure _ a' _ => a' = a | _ => False end.

#[export] Instance is_failure_of_dec a op : Decision (is_failure_of a op).
Proof. destruct op; cbn; apply _. Defined.

Definition failures_of (a : string) (ops : list BreakerOp) : Z := zlen (filter (is_failure_of a) ops).

(** A call that is neither a success for [a] nor a reset of it. *)
Definition no_relief (a : string) (op : BreakerOp) : Prop :=
  match op with OpSuccess _ a' | OpReset a' => a' <> a | OpResetAll => False | _ => True end.

Lemma closed_run c a ops m answers m' f :
  Forall (no_relief a) ops -> closed_with c a f m -> f + failures_of a ops < failure_threshold c ->
  failure_threshold c <= u32_max -> breaker_run a m ops = Ok (answers, m') ->
  closed_with c a (f + failures_of a ops) m' /\ Forall (eq true) answers.
Proof.
  intros Hn. revert m answers f. induction Hn as [|op ops Hop Hn IH]; intros m answers f Hcl Hf Hthr; cbn.
  { intros [= <- <-]. split; [|constructor]. by rewrite Z.add_0_r. }
  destruct (breaker_step m op) as [[o m1]|?|] eqn:Hs; cbn; [|done..].
  destruct (breaker_run a m1 ops) as [[ans m2]|?|] eqn:H2; cbn; [|done..]. intros [= <- <-].
  destruct Hcl as (Hc & Hok & Hst & Hfc). destruct (step_ok _ _ _ _ Hok Hs) as [Hok1 Hc1].
  assert (exists f1, closed_with c a f1 m1 /\ f1 + failures_of a ops = f + failures_of a (op :: ops) /\
            (forall b, o = Some (a, b) -> b = true)) as (f1 & Hcl1 & Hf1 & Hb).
  { destruct (touches a op) eqn:Htouch.
    2: { destruct (step_other m op o m1 a Htouch Hs) as (H1 & H3 & H4). exists f.
         unfold closed_with, get_state, get_failure_count in *. rewrite H1. split; [split_and!; congruence || done|].
         split; [|by intros b ?%H4]. unfold failures_of. rewrite filter_cons_False; [done|].
         destruct op as [| |now x r| |]; cbn; try tauto. cbn in Htouch. apply bool_decide_eq_false in Htouch. congruence. }
    destruct op as [now x|now x|now x reason|x|]; cbn in Htouch, Hop; try (apply bool_decide_eq_true in Htouch; injection Htouch as ->);
      try done; cbn in Hs.
    - exists f. unfold allow_request, check_request in Hs. unfold get_state in Hst.
      unfold failures_of. rewrite filter_cons_False by (cbn; tauto).
      destruct (cb_entries m !! a) as [e|] eqn:He; cbn in Hst; [rewrite Hst in Hs|]; injection Hs as <- <-;
        (split; [unfold closed_with, get_state, get_failure_count in *; rewrite ?He in *; done|split; [done|by intros b [= <-]]]).
    - exists (f + 1). unfold record_failure in Hs. pose proof (default_ok m a Hok) as (Hfr & _ & _).
      assert (cb_state (default entry_new (cb_entries m !! a)) = Closed /\
              failure_count (default entry_new (cb_entries m !! a)) = f) as [Hst' Hf'].
      { unfold get_state, get_failure_count in *. by destruct (cb_entries m !! a). }
      rewrite Hst', Hf' in Hs. unfold failures_of in *. rewrite filter_cons_True, zlen_cons in * by done.
      pose proof (zlen_nonneg (filter (is_failure_of a) ops)).
      rewrite chk_u_ok in Hs by (unfold in_u, u32_max in *; lia). cbn [rbind] in Hs. rewrite Hc in Hs.
      destruct (Z.leb_spec (failure_threshold c) (f + 1)); [lia|]. cbn [rbind] in Hs. injection Hs as <- <-.
      split; [|split; [lia|done]]. unfold closed_with, get_state, get_failure_count, set_entry in *. cbn [cb_entries cb_config].
      rewrite lookup_insert_eq. split_and!; done. }
  destruct (IH m1 ans f1 Hcl1) as [Hend Hans]; [lia|done|done|]. rewrite <-Hf1. split; [done|].
  destruct o as [[a' b]|]; [|done]. case_decide; [|done]. subst. constructor; [symmetry; by apply Hb|done].
Qed.

(** A circuit breaker trips and holds.  From a closed circuit, requests are granted
    while the failures stay below the threshold; the failure that reaches it opens the
    circuit, and then, whatever is recorded and whatever happens to other relays, every
    request within the open time of that failure is refused. *)
Theorem breaker_trips_and_holds a m ops1 t reason ops2 :
  manager_ok m -> get_state m a = Closed -> failure_threshold (cb_config m) <= u32_max ->
  Forall (no_relief a) ops1 ->
  get_failure_count m a + failures_of a ops1 = failure_threshold (cb_config m) - 1 ->
  Forall (within (cb_config m) a t) ops2 ->
  room (zlen ops1 + 1 + zlen ops2) m -> zlen ops1 + 1 + zlen ops2 <= u32_max ->
  exists ans1 ans2 m', breaker_run a m (ops1 ++ OpFailure t a reason :: ops2) = Ok (ans1 ++ ans2, m') /\
    (exists m1, breaker_run a m ops1 = Ok (ans1, m1)) /\
    Forall (eq true) ans1 /\ Forall (eq false) ans2 /\ get_state m' a = Open.
Proof.
  intros Hok Hst Hthr Hn Hf Hw Hroom Hlen. set (c := cb_config m) in *.
  destruct (run_total a m (ops1 ++ OpFailure t a reason :: ops2)) as (answers & m' & Hrun); [done|..].
  { rewrite zlen_app, zlen_cons. intros k e He. specialize (Hroom k e He). cbn in *. lia. }
  { rewrite zlen_app, zlen_cons. lia. }
  rewrite run_app in Hrun |- *.
  destruct (breaker_run a m ops1) as [[ans1 m1]|?|] eqn:H1; cbn [rbind] in Hrun |- *; [|done..].
  destruct (closed_run c a ops1 m ans1 m1 (get_failure_count m a)) as [(Hc1 & Hok1 & Hst1 & Hf1) Ht1]; try done; [lia|].
  cbn [breaker_run] in Hrun |- *. destruct (breaker_step m1 _) as [[o m2]|?|] eqn:H2; cbn [rbind] in Hrun |- *; [|done..].
  destruct (breaker_run a m2 ops2) as [[ans2 m3]|?|] eqn:H3; cbn [rbind] in Hrun |- *; [|done..].
  assert (open_since c a t m2 /\ o = None) as [Hopen ->].
  { cbn in H2. unfold record_failure in H2.
    assert (cb_state (default entry_new (cb_entries m1 !! a)) = Closed /\
            failure_count (default entry_new (cb_entries m1 !! a)) = failure_threshold c - 1) as [Hst' Hf'].
    { unfold get_state, get_failure_count in *. rewrite <-Hf, <-Hf1. by destruct (cb_entries m1 !! a). }
    pose proof (default_ok m1 a Hok1) as (Hfr & _ & _).
    rewrite Hst', Hf' in *. rewrite chk_u_ok in H2 by (unfold in_u, u32_max in *; lia). cbn [rbind] in H2. rewrite Hc1 in H2.
    destruct (Z.leb_spec (failure_threshold c) (failure_threshold c - 1 + 1)); [|lia]. cbn [rbind] in H2. injection H2 as <- <-.
    split; [|done]. split; [done|]. eexists _, t. unfold set_entry. cbn [cb_entries]. rewrite lookup_insert_eq. split_and!; try done. }
  destruct (run_invariant (open_since c a t) (within c a t) (eq false) a ops2 m2 ans2 m3) as [Hend Hans]; try done.
  { intros m4 op o m5 Hop HI Hs. destruct (open_step c a t m4 op o m5 Hop HI Hs) as [? Hb]. split; [done|].
    intros b ->. symmetry. by apply Hb. }
  exists ans1, ans2, m3. split_and!; try done; [by exists m1|].
  destruct Hend as (_ & e & _ & He & Hs & _). unfold get_state. by rewrite He.
Qed.

(** *** Recovery *)

(** A call that is neither a failure for [a] nor a reset. *)
Definition no_setback (a : string) (op : BreakerOp) : Prop :=
  match op with OpFailure _ a' _ | OpReset a' => a' <> a | OpResetAll => False | _ => True end.

Definition is_success_of (a : string) (op : BreakerOp) : Prop :=
  match op with OpSuccess _ a' => a' = a | _ => False end.

#[export] Instance is_success_of_dec a op : Decision (is_success_of a op).
Proof. destruct op; cbn; apply _. Defined.

Definition successes_of (a : string) (ops : list BreakerOp) : Z := zlen (filter (is_success_of a) ops).

(** Closed, or half open with [k] successes. *)
Definition recovering (a : string) (k : Z) m : Prop :=
  exists e, cb_entries m !! a = Some e /\
    (cb_state e = Closed \/ (cb_state e = HalfOpen /\ success_count e = k)).

Lemma recovering_step a k m op o m' :
  manager_ok m -> no_setback a op -> recovering a k m -> breaker_step m op = Ok (o, m') ->
  recovering a (k + if decide (is_success_of a op) then 1 else 0) m'.
Proof.
  intros Hok Hop (e & He & Hst) Hs. destruct (touches a op) eqn:Htouch.
  2: { destruct (step_other m op o m' a Htouch Hs) as (H1 & _ & _). rewrite decide_False.
       - exists e. by rewrite H1, Z.add_0_r.
       - destruct op; cbn in *; try tauto. apply bool_decide_eq_false in Htouch. congruence. }
  destruct op as [now x|now x|now x reason|x|]; cbn in Htouch, Hop; try (apply bool_decide_eq_true in Htouch; injection Htouch as ->);
    try done; cbn in Hs.
  - rewrite decide_False by (cbn; tauto). rewrite Z.add_0_r. unfold allow_request, check_request in Hs. rewrite He in Hs.
    exists e. destruct Hst as [Hst|[Hst Hk]]; rewrite Hst in Hs; [injection Hs as <- <-; by auto|].
    destruct (half_open_probes e <? _) in Hs; injection Hs as <- <-; auto.
  - rewrite decide_True by done. unfold record_success in Hs. rewrite He in Hs. cbn [default from_option id] in Hs.
    pose proof (proj1 Hok a e He) as (_ & Hsc & Heok). destruct Hst as [Hst|[Hst Hk]]; rewrite Hst in Hs, Heok; cbn [rbind] in Hs.
    + injection Hs as <- <-. eexists. unfold set_entry. cbn [cb_entries]. rewrite lookup_insert_eq. by split; [|left].
    + destruct Heok as (_ & Hlt & _), Hok as [_ Hthr]. rewrite chk_u_ok in Hs by (unfold in_u, u32_max in *; lia). cbn [rbind] in Hs.
      destruct (_ <=? _) in Hs; cbn [rbind] in Hs; injection Hs as <- <-; eexists; unfold set_entry; cbn [cb_entries];
        rewrite lookup_insert_eq; (split; [done|]); cbn; [by left|right; by rewrite Hk].
Qed.

Lemma recovering_run a k ops m answers m' :
  Forall (no_setback a) ops -> manager_ok m -> recovering a k m -> breaker_run a m ops = Ok (answers, m') ->
  recovering a (k + successes_of a ops) m' /\ manager_ok m' /\ cb_config m' = cb_config m.
Proof.
  intros Hn. revert k m answers. induction Hn as [|op ops Hop Hn IH]; intros k m answers Hok Hr; cbn.
  { intros [= <- <-]. by rewrite Z.add_0_r. }
  destruct (breaker_step m op) as [[o m1]|?|] eqn:Hs; cbn; [|done..].
  destruct (breaker_run a m1 ops) as [[ans m2]|?|] eqn:H2; cbn; [|done..]. intros [= <- <-].
  destruct (step_ok _ _ _ _ Hok Hs) as [Hok1 Hc1]. pose proof (recovering_step a k m op o m1 Hok Hop Hr Hs) as Hr1.
  destruct (IH _ m1 ans Hok1 Hr1 H2) as (Hr2 & Hok2 & Hc2). split; [|split; [done|congruence]].
  unfold successes_of in *. destruct (decide (is_success_of a op)).
  - rewrite filter_cons_True, zlen_cons by done. by rewrite Z.add_assoc.
  - rewrite filter_cons_False by done. by rewrite Z.add_0_r in Hr2.
Qed.

(** A relay comes back.  Once the open time has passed, the next request is granted as
    a probe, and after the configured number of successes without a failure, in whatever
    order requests and events of other relays come between, the circuit is closed. *)
Theorem breaker_recovers a m e t now ops :
  manager_ok m -> cb_entries m !! a = Some e -> cb_state e = Open -> opened_at e = Some t ->
  0 <= open_timeout (cb_config m) -> t + open_timeout (cb_config m) <= now ->
  Forall (no_setback a) ops ->
  Z.max 1 (success_threshold (cb_config m)) <= successes_of a ops ->
  room (1 + zlen ops) m -> 1 + zlen ops <= u32_max ->
  exists answers m', breaker_run a m (OpAllow now a :: ops) = Ok (true :: answers, m') /\ get_state m' a = Closed.
Proof.
  intros Hok He Hst Ht Hto Hnow Hn Hs Hroom Hlen.
  destruct (run_total a m (OpAllow now a :: ops)) as (answers & m' & Hrun); [done|by rewrite zlen_cons|by rewrite zlen_cons|].
  pose proof (proj1 Hok a e He) as (_ & _ & Heok). rewrite Hst in Heok. destruct Heok as (Hp & _ & _).
  cbn [breaker_run] in Hrun |- *.
  assert (exists m1, breaker_step m (OpAllow now a) = Ok (Some (a, true), m1) /\ recovering a 0 m1) as (m1 & H1 & Hr1).
  { cbn. unfold allow_request, check_request, transition_to_half_open. rewrite He, Hst, Ht.
    destruct (Z.leb_spec (open_timeout (cb_config m)) (sat_sub now t)); [|unfold sat_sub in *; lia].
    rewrite chk_u_ok by (rewrite Hp; unfold in_u; lia). cbn [rbind]. eexists. split; [done|].
    eexists. unfold set_entry. cbn [cb_entries]. rewrite lookup_insert_eq. split; [done|]. by right. }
  rewrite H1 in Hrun |- *. cbn [rbind] in Hrun |- *.
  destruct (breaker_run a m1 ops) as [[ans m2]|?|] eqn:H2; cbn [rbind] in Hrun |- *; [|done..].
  exists ans, m2. split; [by rewrite decide_True|]. destruct (step_ok _ _ _ _ Hok H1) as [Hok1 Hc1].
  destruct (recovering_run a 0 ops m1 ans m2) as ((e2 & He2 & Hst2) & Hok2 & Hc2); try done.
  unfold get_state. rewrite He2. cbn. destruct Hst2 as [?|[Hst2 Hk]]; [done|]. exfalso.
  pose proof (proj1 Hok2 a e2 He2) as (_ & _ & Heok). rewrite Hst2, Hc2, Hc1 in Heok. lia.
Qed.

(** The limit on probes is not a limit.  A half-open circuit that can be reached always
    counts one probe, so a run of requests is granted in full when the configured maximum is
    at least two, and refused in full, however late, when it is less. *)
Theorem probe_limit_void a m nows :
  manager_ok m -> get_state m a = HalfOpen ->
  breaker_run a m ((fun now => OpAllow now a) <$> nows) =
    Ok (replicate (length nows) (2 <=? max_half_open_probes (cb_config m)), m).
Proof.
  intros Hok Hst. induction nows as [|now nows IH]; [done|]. cbn [fmap list_fmap breaker_run].
  unfold get_state in Hst. destruct (cb_entries m !! a) as [e|] eqn:He; cbn in Hst; [|done].
  pose proof (proj1 Hok a e He) as (_ & _ & Heok). rewrite Hst in Heok. destruct Heok as (Hp & _ & _).
  cbn [breaker_step]. unfold allow_request, check_request. rewrite He, Hst, Hp.
  replace (1 <? max_half_open_probes (cb_config m)) with (2 <=? max_half_open_probes (cb_config m))
    by (apply eq_bool_prop_intro; rewrite !Is_true_true, Z.leb_le, Z.ltb_lt; lia).
  change (list_fmap Z BreakerOp (fun now => OpAllow now a) nows) with ((fun now => OpAllow now a) <$> nows).
  case_if; cbn [rbind]; rewrite IH; cbn [rbind length replicate]; by rewrite decide_True by done.
Qed.

End Properties.

Module BreakerExamples.

#[local] Instance ex_build : Build := {| overflow_checks := true |}.

Definition m0 : CircuitBreakerManager := with_defaults.

Lemma m0_ok : manager_ok m0.
Proof. split; [apply map_Forall_empty|by vm_compute]. Qed.

Lemma m0_room n : room n m0.
Proof. apply map_Forall_empty. Qed.

Definition before : list BreakerOp :=
  [OpFailure 10 "r1" "timeout"; OpAllow 11 "r1"; OpSuccess 12 "r2"; OpFailure 13 "r1" "timeout"; OpAllow 14 "r1"].
Definition during : list BreakerOp :=
  [OpAllow 20 "r1"; OpSuccess 21 "r1"; OpFailure 1000 "r1" "refused"; OpAllow 300014 "r1"; OpReset "r2"].

Lemma breaker_trips_and_holds_witness : exists ans1 ans2 m',
  breaker_run "r1" m0 (before ++ OpFailure 15 "r1" "timeout" :: during) = Ok (ans1 ++ ans2, m') /\
  Forall (eq true) ans1 /\ Forall (eq false) ans2 /\ get_state m' "r1" = Open.
Proof.
  destruct (breaker_trips_and_holds "r1" m0 before 15 "timeout" during m0_ok)
    as (ans1 & ans2 & m' & H1 & _ & H2); [reflexivity|by vm_compute| | | |apply m0_room|by vm_compute|].
  - by repeat constructor.
  - reflexivity.
  - repeat constructor; cbn; try lia; try done.
  - exists ans1, ans2, m'. exact (conj H1 H2).
Defined.

Definition tripped : CircuitBreakerManager :=
  match breaker_run "r1" m0 [OpFailure 1 "r1" "x"; OpFailure 2 "r1" "x"; OpFailure 3 "r1" "x"] with
  | Ok (_, m) => m | _ => m0 end.

Definition tripped_entry : CircuitBreakerEntry := mkEntry Open 3 0 0 (Some 3) None (Some "x"%string) None.

Lemma tripped_eq : tripped = mkManager default_config {["r1"%string := tripped_entry]}.
Proof. reflexivity. Qed.

Lemma tripped_ok : manager_ok tripped /\ room 100 tripped.
Proof.
  rewrite tripped_eq. split; [split; [|by vm_compute]|]; cbn [cb_entries cb_config]; apply map_Forall_singleton.
  - unfold entry_ok. cbn. unfold u32_max. split_and!; [lia..|done|done|by eexists].
  - cbn. unfold u32_max. lia.
Qed.

Lemma breaker_recovers_witness : exists answers m',
  breaker_run "r1" tripped [OpAllow 400000 "r1"; OpSuccess 400001 "r1"; OpAllow 400002 "r1"; OpSuccess 400003 "r1"]
    = Ok (true :: answers, m') /\ get_state m' "r1" = Closed.
Proof.
  apply (breaker_recovers "r1" tripped tripped_entry 3);
    [apply tripped_ok|reflexivity|reflexivity|reflexivity|by vm_compute|by vm_compute|by repeat constructor|by vm_compute| |by vm_compute].
  intros k e He. pose proof (proj2 tripped_ok k e He). cbn in *. unfold zlen. cbn. lia.
Defined.

Definition probing : CircuitBreakerManager :=
  match breaker_run "r1" tripped [OpAllow 400000 "r1"] with Ok (_, m) => m | _ => m0 end.

Lemma probing_ok : manager_ok probing.
Proof.
  assert (breaker_step tripped (OpAllow 400000 "r1") = Ok (Some ("r1"%string, true), probing)) as H by reflexivity.
  exact (proj1 (step_ok _ _ _ _ (proj1 tripped_ok) H)).
Qed.

Lemma probe_limit_void_witness :
  breaker_run "r1" probing ((fun now => OpAllow now "r1") <$> [1; 2; 3; 4; 5]) = Ok ([true; true; true; true; true], probing).
Proof. exact (probe_limit_void "r1" probing [1; 2; 3; 4; 5] probing_ok eq_refl). Defined.

End BreakerExamples.
