(* ===== verification/Padding.v ===== *)
(** * Message padding ([core/src/privacy/padding.rs])

    Messages are padded to fixed or standard sizes with a marker byte and zeros.
    The random size of the [Random] scheme is an argument. *)

From S2P Require Import Prelude.

Definition STANDARD_SIZES : list Z := [256; 512; 1024; 2048; 4096].

Inductive PaddingScheme : Type :=
| PadNone
| PadFixed (size : Z)
| PadPowerOfTwo
| PadRandom (min max : Z).

Inductive PaddingError : Type := InvalidConfig | MessageTooLarge (size : Z) | InvalidPaddingFormat.

Definition MARKER : byte := Byte.x80.
Definition ZERO : byte := Byte.x00.

(** The loop that fills up with zeros runs once per missing byte. *)
Definition pad_message (message : bytes) (target_size : Z) : res PaddingError bytes :=
  if target_size <? zlen message then Err (MessageTooLarge target_size)
  else
    let padded := message ++ [MARKER] in
    Ok (padded ++ replicate (Z.to_nat (target_size - zlen padded)) ZERO).

(** [iter().rposition(|b| b == x)]. *)
Definition rposition (x : byte) (l : bytes) : option Z :=
  (fun '(i, _) => zlen l - 1 - Z.of_nat i) <$> list_find (fun b => b = x) (reverse l).

Definition unpad_message (padded_message : bytes) : res PaddingError bytes :=
  match rposition MARKER padded_message with
  | None => Err InvalidPaddingFormat
  | Some marker_pos =>
      let! tail := slice padded_message (marker_pos + 1) (zlen padded_message) in
      if forallb (fun b => bool_decide (b = ZERO)) tail then slice padded_message 0 marker_pos
      else Err InvalidPaddingFormat
  end.

Definition pad_to_next_standard_size (message : bytes) : res PaddingError bytes :=
  match list_find (fun size => zlen message <= size) STANDARD_SIZES with
  | Some (_, target_size) => pad_message message target_size
  | None => Err InvalidConfig
  end.

(** [u64::next_power_of_two]; the length of a vector is below [2^63]. *)
Definition next_power_of_two (n : Z) : Z := if n <=? 1 then 1 else 2 ^ Z.log2_up n.

(** [random] is what [gen_range(min..=max)] returns. *)
Definition apply_padding_scheme (random : Z) (message : bytes) (scheme : PaddingScheme) : res PaddingError bytes :=
  match scheme with
  | PadNone => Ok message
  | PadFixed size => pad_message message size
  | PadPowerOfTwo => pad_message message (next_power_of_two (zlen message))
  | PadRandom min max =>
      if (max <? min) || (min =? 0) then Err InvalidConfig
      else if random <? zlen message then Err (MessageTooLarge random)
      else pad_message message random
  end.

(** ** Properties *)

Lemma pad_message_ok m t p :
  pad_message m t = Ok p ->
  zlen m <= t /\ p = m ++ [MARKER] ++ replicate (Z.to_nat (t - zlen m - 1)) ZERO /\
  zlen p = Z.max t (zlen m + 1).
Proof.
  unfold pad_message. case_if; [done|]. bool_to_prop. intros [= <-]. rewrite zlen_app, <-app_assoc.
  change (zlen [MARKER]) with 1. replace (t - (zlen m + 1)) with (t - zlen m - 1) by lia.
  split_and!; [done|done|]. autorewrite with zlen. change (zlen [MARKER]) with 1. lia.
Qed.

Lemma list_find_zeros n l : list_find (fun b => b = MARKER) (replicate n ZERO ++ MARKER :: l) = Some (n, MARKER).
Proof. induction n as [|n IH]; cbn; [done|]. by rewrite IH. Qed.

Lemma unpad_padded m n : unpad_message (m ++ [MARKER] ++ replicate n ZERO) = Ok m.
Proof.
  unfold unpad_message, rposition. set (p := m ++ _).
  assert (reverse p = replicate n ZERO ++ MARKER :: reverse m) as ->.
  { unfold p. by rewrite !reverse_app, reverse_replicate, <-app_assoc. }
  rewrite list_find_zeros. cbn [fmap option_fmap option_map].
  assert (zlen p = zlen m + 1 + Z.of_nat n) as Hp.
  { unfold p. autorewrite with zlen. change (zlen [MARKER]) with 1. lia. }
  replace (zlen p - 1 - Z.of_nat n) with (zlen m) by lia.
  assert (p = (m ++ [MARKER]) ++ replicate n ZERO) as Hsplit by (unfold p; by rewrite <-app_assoc).
  rewrite Hsplit at 1. rewrite (slice_app_r (m ++ [MARKER])).
  2: { rewrite zlen_app. change (zlen [MARKER]) with 1. lia. }
  rewrite zlen_app. change (zlen [MARKER]) with 1. replace (zlen m + 1 - (zlen m + 1)) with 0 by lia.
  rewrite slice_all by (rewrite zlen_replicate; lia). cbn [rbind].
  assert (forallb (fun b => bool_decide (b = ZERO)) (replicate n ZERO) = true) as ->
    by (clear; induction n as [|n IH]; [done|cbn; rewrite IH; by rewrite bool_decide_true]). unfold p. by apply slice_app_l.
Qed.

(** The size a scheme asks for. *)
Definition target_of (random : Z) (message : bytes) (scheme : PaddingScheme) : option Z :=
  match scheme with
  | PadNone => None
  | PadFixed size => Some size
  | PadPowerOfTwo => Some (next_power_of_two (zlen message))
  | PadRandom _ _ => Some random
  end.

(** Padding is removed exactly.  Whatever the scheme other than none, and also for
    standard sizes, a message that was padded is recovered as it was; the padded length is
    the target, and one more byte when the message already has the target's length. *)
Theorem padding_roundtrip random m scheme p t :
  (apply_padding_scheme random m scheme = Ok p /\ target_of random m scheme = Some t) \/
  (pad_to_next_standard_size m = Ok p /\ snd <$> list_find (fun size => zlen m <= size) STANDARD_SIZES = Some t) ->
  unpad_message p = Ok m /\ zlen p = (if decide (zlen m = t) then t + 1 else t).
Proof.
  intros H. assert (pad_message m t = Ok p) as Hp.
  { destruct H as [[H Ht]|[H Ht]].
    - destruct scheme as [|size| |lo hi]; cbn in *; try congruence.
      injection Ht as ->. destruct (_ || _); [done|]. by destruct (_ <? _).
    - unfold pad_to_next_standard_size in H. destruct (list_find _ _) as [[i t']|]; [|done]. cbn in Ht. congruence. }
  apply pad_message_ok in Hp as (Hle & -> & Hl). split; [apply unpad_padded|]. rewrite Hl. case_decide; lia.
Qed.

(** Unpadding accepts only padded messages: what it returns is what was padded. *)
Theorem unpad_sound p m : unpad_message p = Ok m <-> exists n, p = m ++ [MARKER] ++ replicate n ZERO.
Proof.
  split; [|intros [n ->]; apply unpad_padded]. unfold unpad_message, rposition.
  destruct (list_find _ (reverse p)) as [[i x]|] eqn:Hf; cbn; [|done].
  apply list_find_Some in Hf as (Hi & -> & _). pose proof (lookup_lt_Some _ _ _ Hi) as Hlt. rewrite length_reverse in Hlt.
  rewrite reverse_lookup in Hi by done. set (pos := zlen p - 1 - Z.of_nat i).
  assert (Z.to_nat pos = (length p - S i)%nat) as Hpos by (unfold pos, zlen; lia).
  rewrite <-Hpos in Hi. assert (0 <= pos < zlen p) as Hr by (unfold pos, zlen; lia).
  destruct (slice p (pos + 1) (zlen p)) as [tail|e|] eqn:Ht; cbn [rbind]; [|by apply slice_no_err in Ht|done].
  apply slice_ok_inv in Ht as (_ & _ & Ht). case_if; [|done]. intros Hm. apply slice_ok_inv in Hm as (_ & _ & Hm).
  rewrite Z.sub_0_r, drop_0 in Hm.
  assert (tail = replicate (length tail) ZERO) as Hz.
  { symmetry. apply replicate_as_elem_of. split; [done|]. intros b Hb. rewrite forallb_forall in C.
    specialize (C b (proj1 (list_elem_of_In _ _) Hb)). by apply bool_decide_eq_true in C. }
  exists (length tail). rewrite <-Hz. rewrite <-(take_drop_middle p (Z.to_nat pos) MARKER Hi) at 1.
  rewrite Hm, Ht. do 2 f_equal. rewrite take_ge.
  - by replace (Z.to_nat (pos + 1)) with (S (Z.to_nat pos)) by lia.
  - rewrite length_drop. unfold zlen. lia.
Qed.

Lemma padding_roundtrip_witness :
  unpad_message (match apply_padding_scheme 7 [Byte.x80; Byte.x00] (PadRandom 3 9) with Ok p => p | _ => [] end)
    = Ok [Byte.x80; Byte.x00].
Proof.
  apply (padding_roundtrip 7 [Byte.x80; Byte.x00] (PadRandom 3 9)
    (match apply_padding_scheme 7 [Byte.x80; Byte.x00] (PadRandom 3 9) with Ok p => p | _ => [] end) 7).
  left. split; reflexivity.
Defined.
