(* ===== verification/LocalCell.v ===== *)
(** * Local cell ([core/src/routing/local.rs])

    The first routing layer: the peers in direct range, their status and how reliable they
    are.  The clock is the argument [now]; hash maps are visited in any order. *)

From Stdlib Require Import SpecFloat.
From S2P Require Import Prelude Floats.

(** 32 bytes. *)
Notation PeerId := bytes (only parsing).
(** 4 bytes. *)
Notation Hint := bytes (only parsing).

Inductive TransportType : Type := BLE | WiFiAware | WiFiDirect | TCP | QUIC.

#[global] Instance transport_eq_dec : EqDecision TransportType.
Proof. solve_decision. Defined.

Inductive PeerStatus : Type :=
| Active (last_seen : Z) (transport : TransportType)
| Stale (last_seen : Z) (last_transport : TransportType)
| Dormant (last_seen : Z).

#[global] Instance status_eq_dec : EqDecision PeerStatus.
Proof. solve_decision. Defined.

Record PeerInfo : Type := mkPeer {
  peer_id : PeerId;
  status : PeerStatus;
  reachable_hints : list Hint;
  message_count : Z;
  reliability_score : f64;
  transports : list TransportType;
  is_gateway : bool;
  sync_count : Z;
  avg_sync_ms : Z;
}.

#[global] Instance peer_info_eq_dec : EqDecision PeerInfo.
Proof. solve_decision. Defined.

Record CellSummary : Type := mkSummary {
  cs_peer_count : Z;
  cs_gateway_count : Z;
  cs_reachable_hints : list Hint;
  cs_avg_reliability : f64;
  cs_timestamp : Z;
}.

Inductive PeerEvent : Type :=
| PeerBecameActive (id : PeerId)
| PeerBecameStale (id : PeerId)
| PeerBecameDormant (id : PeerId)
| PeerEvicted (id : PeerId).

#[global] Instance event_eq_dec : EqDecision PeerEvent.
Proof. solve_decision. Defined.

Record LocalCell : Type := mkCell {
  local_id : PeerId;
  peers : gmap PeerId PeerInfo;
  active_timeout : Z;
  stale_timeout : Z;
  max_peers : Z;
}.

(** Assignments to one field. *)
Definition set_peers (m : gmap PeerId PeerInfo) (c : LocalCell) : LocalCell :=
  mkCell (local_id c) m (active_timeout c) (stale_timeout c) (max_peers c).
Definition set_status (s : PeerStatus) (p : PeerInfo) : PeerInfo :=
  mkPeer (peer_id p) s (reachable_hints p) (message_count p) (reliability_score p) (transports p) (is_gateway p)
    (sync_count p) (avg_sync_ms p).
Definition set_transports (l : list TransportType) (p : PeerInfo) : PeerInfo :=
  mkPeer (peer_id p) (status p) (reachable_hints p) (message_count p) (reliability_score p) l (is_gateway p)
    (sync_count p) (avg_sync_ms p).
Definition set_hints (l : list Hint) (p : PeerInfo) : PeerInfo :=
  mkPeer (peer_id p) (status p) l (message_count p) (reliability_score p) (transports p) (is_gateway p)
    (sync_count p) (avg_sync_ms p).
Definition set_gateway (g : bool) (p : PeerInfo) : PeerInfo :=
  mkPeer (peer_id p) (status p) (reachable_hints p) (message_count p) (reliability_score p) (transports p) g
    (sync_count p) (avg_sync_ms p).
Definition set_score (s : f64) (p : PeerInfo) : PeerInfo :=
  mkPeer (peer_id p) (status p) (reachable_hints p) (message_count p) s (transports p) (is_gateway p)
    (sync_count p) (avg_sync_ms p).
Definition set_sync (count avg messages : Z) (p : PeerInfo) : PeerInfo :=
  mkPeer (peer_id p) (status p) (reachable_hints p) messages (reliability_score p) (transports p) (is_gateway p)
    count avg.

Definition is_active (p : PeerInfo) : bool := match status p with Active _ _ => true | _ => false end.
Definition last_seen (s : PeerStatus) : Z := match s with Active t _ | Stale t _ | Dormant t => t end.

Definition cell_new (id : PeerId) : LocalCell := mkCell id ∅ 300 1800 1000.
Definition cell_with_timeouts (id : PeerId) (active stale : Z) : LocalCell := mkCell id ∅ active stale 1000.

(** [partial_cmp(..).expect(..)] on two scores. *)
Definition cmp_expect (x y : f64) : res string comparison :=
  match SFcompare x y with Some c => Ok c | None => Panic end.

(** [min_by] with a comparison that may panic. *)
Definition min_by_res {A} (cmp : A -> A -> res string comparison) (l : list A) : res string (option A) :=
  match l with
  | [] => Ok None
  | x :: l =>
      let! m := rfold (fun best y => let! c := cmp best y in Ok (match c with Gt => y | _ => best end)) x l in
      Ok (Some m)
  end.

(** A stable sort whose comparison may panic: it does when a pair that cannot be compared
    is compared; sorting at least two elements compares each of them. *)
Definition insert_res {A} (cmp : A -> A -> res string comparison) : A -> list A -> res string (list A) :=
  fix go (x : A) (l : list A) : res string (list A) :=
    match l with
    | [] => Ok [x]
    | y :: l => let! c := cmp x y in
                match c with Gt => let! l := go x l in Ok (y :: l) | _ => Ok (x :: y :: l) end
    end.

Fixpoint sort_res {A} (cmp : A -> A -> res string comparison) (l : list A) : res string (list A) :=
  match l with
  | [] => Ok []
  | x :: l => let! l := sort_res cmp l in insert_res cmp x l
  end.

(** [contains(x)] on a vector, and [push] unless contained. *)
Definition push_new {A} `{EqDecision A} (l : list A) (x : A) : list A := if bool_decide (x ∈ l) then l else l ++ [x].

(** Membership in the list of an option. *)
Lemma elem_of_option_list {A} (x : A) o : x ∈ option_list o <-> o = Some x.
Proof. destruct o; cbn; set_solver. Qed.

Section Cell.
Context `{Build} {HI : HashIter PeerId PeerInfo}.

Definition peer_values (c : LocalCell) : list PeerInfo := (hm_iter (peers c)).*2.

Definition evict_lowest_reliability (c : LocalCell) : res string LocalCell :=
  if bool_decide (peers c = ∅) then Ok c
  else
    let! lowest := min_by_res (fun a b => cmp_expect (reliability_score a) (reliability_score b)) (peer_values c) in
    match lowest with
    | Some p => Ok (set_peers (delete (peer_id p) (peers c)) c)
    | None => Panic
    end.

Definition peer_new (now : Z) (id : PeerId) (t : TransportType) : PeerInfo :=
  mkPeer id (Active now t) [] 0 (lit 1 2) [t] false 0 0.

Definition peer_seen (now : Z) (id : PeerId) (t : TransportType) (c : LocalCell) : res string LocalCell :=
  match peers c !! id with
  | Some p => Ok (set_peers (<[id := set_transports (push_new (transports p) t) (set_status (Active now t) p)]> (peers c)) c)
  | None =>
      let! c := if max_peers c <=? Z.of_nat (size (peers c)) then evict_lowest_reliability c else Ok c in
      Ok (set_peers (<[id := peer_new now id t]> (peers c)) c)
  end.

Definition update_peer_hints (id : PeerId) (hints : list Hint) (c : LocalCell) : LocalCell :=
  match peers c !! id with
  | Some p => set_peers (<[id := set_hints hints p]> (peers c)) c
  | None => c
  end.

Definition mark_as_gateway (id : PeerId) (g : bool) (c : LocalCell) : LocalCell :=
  match peers c !! id with
  | Some p => set_peers (<[id := set_gateway g p]> (peers c)) c
  | None => c
  end.

Definition record_sync (id : PeerId) (sync_duration_ms messages_exchanged : Z) (c : LocalCell) : res string LocalCell :=
  match peers c !! id with
  | Some p =>
      let! count := chk_u 32 (sync_count p + 1) in
      let! product := chk_u 64 (avg_sync_ms p * sync_count p) in
      let! total := chk_u 64 (product + sync_duration_ms) in
      if count =? 0 then Panic
      else Ok (set_peers (<[id := set_sync count (total / count) messages_exchanged p]> (peers c)) c)
  | None => Ok c
  end.

Definition update_reliability (id : PeerId) (success : bool) (c : LocalCell) : LocalCell :=
  match peers c !! id with
  | Some p =>
      let increment := if success then lit 1 10 else SFopp (lit 15 100) in
      set_peers (<[id := set_score (clamp f64_zero f64_one (f64_add (reliability_score p) increment)) p]> (peers c)) c
  | None => c
  end.

Definition peers_for_hint (hint : Hint) (c : LocalCell) : list PeerInfo :=
  filter (fun p => is_active p && bool_decide (hint ∈ reachable_hints p) = true) (peer_values c).

Definition active_peers (c : LocalCell) : res string (list PeerInfo) :=
  sort_res (fun a b => cmp_expect (reliability_score b) (reliability_score a))
    (filter (fun p => is_active p = true) (peer_values c)).

Definition gateway_peers (c : LocalCell) : list PeerInfo :=
  filter (fun p => is_gateway p && is_active p = true) (peer_values c).

(** One peer in the loop of [tick]. *)
Definition tick_peer (now : Z) (c : LocalCell) (id : PeerId) (p : PeerInfo) : res string (PeerInfo * list PeerEvent) :=
  match status p with
  | Active seen transport =>
      let! age := chk_u 64 (now - seen) in
      Ok (if active_timeout c <? age then (set_status (Stale seen transport) p, [PeerBecameStale id]) else (p, []))
  | Stale seen _ =>
      let! age := chk_u 64 (now - seen) in
      Ok (if stale_timeout c <? age then (set_status (Dormant seen) p, [PeerBecameDormant id]) else (p, []))
  | Dormant _ => Ok (p, [])
  end.

Definition cell_tick (now : Z) (c : LocalCell) : res string (LocalCell * list PeerEvent) :=
  rfold (fun st id =>
    let '(c, events) := st in
    match peers c !! id with
    | Some p => let! r := tick_peer now c id p in
                Ok (set_peers (<[id := r.1]> (peers c)) c, events ++ r.2)
    | None => Ok (c, events)
    end) (c, []) (hm_iter (peers c)).*1.

Definition cell_summarize (now : Z) (c : LocalCell) : CellSummary :=
  let values := peer_values c in
  mkSummary (cast_u 32 (zlen values))
    (cast_u 32 (zlen (filter (fun p => is_gateway p = true) values)))
    (foldl push_new [] (concat (map reachable_hints values)))
    (if bool_decide (peers c = ∅) then f64_zero
     else f64_div (foldl f64_add f64_zero (map reliability_score values)) (f64_of (zlen values)))
    now.

Definition peer_count (c : LocalCell) : Z := Z.of_nat (size (peers c)).
Definition active_count (c : LocalCell) : Z := zlen (filter (fun p => is_active p = true) (peer_values c)).
Definition get_peer (id : PeerId) (c : LocalCell) : option PeerInfo := peers c !! id.
End Cell.

(** ** Sorting and least elements *)

Section Order.
Context {A : Type} (cmp : A -> A -> res string comparison) (R : A -> A -> Prop) (P : A -> Prop).
Context `{!Transitive R}.
Hypothesis cmp_spec : forall a b, P a -> P b -> exists c, cmp a b = Ok c /\ (c = Gt -> R b a) /\ (c <> Gt -> R a b).

Lemma insert_res_sorted x l :
  P x -> Forall P l -> StronglySorted R l ->
  exists l', insert_res cmp x l = Ok l' /\ l' ≡ₚ x :: l /\ StronglySorted R l'.
Proof using All.
  intros Hx. induction l as [|y l IH]; intros Hl Hs; cbn.
  { exists [x]. split_and!; [done..|by repeat constructor]. }
  apply Forall_cons in Hl as [Hy Hl]. apply StronglySorted_inv in Hs as [Hs Hyl].
  destruct (cmp_spec x y Hx Hy) as (c & -> & Hgt & Hle). cbn.
  assert (c = Gt \/ c <> Gt) as [ -> | Hc] by (destruct c; auto).
  - destruct (IH Hl Hs) as (l' & -> & Hp & Hs'). exists (y :: l'). split_and!; [done|rewrite Hp; by constructor|].
    constructor; [done|]. rewrite Hp. constructor; auto.
  - exists (x :: y :: l). split_and!; [by destruct c|done|]. specialize (Hle Hc).
    repeat constructor; try done. eapply Forall_impl; [exact Hyl|]. intros z Hz. by etrans.
Qed.

Lemma sort_res_sorted l :
  Forall P l -> exists l', sort_res cmp l = Ok l' /\ l' ≡ₚ l /\ StronglySorted R l'.
Proof using All.
  induction l as [|x l IH]; intros Hl; cbn; [by exists []; repeat constructor|].
  apply Forall_cons in Hl as [Hx Hl]. destruct (IH Hl) as (l1 & -> & Hp & Hs). cbn.
  destruct (insert_res_sorted x l1 Hx) as (l2 & -> & Hp2 & Hs2); [by rewrite Hp|done|].
  exists l2. split_and!; [done|by rewrite Hp2, Hp|done].
Qed.

Lemma min_by_res_least `{!Reflexive R} l :
  Forall P l -> l <> [] -> exists m, min_by_res cmp l = Ok (Some m) /\ m ∈ l /\ Forall (R m) l.
Proof using All.
  destruct l as [|x l]; [done|]. intros [Hx Hl]%Forall_cons _. cbn.
  enough (exists m, rfold (fun best y => let! c := cmp best y in Ok (match c with Gt => y | _ => best end)) x l = Ok m
    /\ m ∈ x :: l /\ Forall (R m) (x :: l)) as (m & -> & ?); [by exists m|].
  revert x Hx. induction l as [|y l IH]; intros x Hx; cbn.
  { exists x. split_and!; [done|by constructor|by repeat constructor]. }
  apply Forall_cons in Hl as [Hy Hl]. destruct (cmp_spec x y Hx Hy) as (c & -> & Hgt & Hle). cbn.
  assert (c = Gt \/ c <> Gt) as [ -> | Hc] by (destruct c; auto).
  - destruct (IH Hl y Hy) as (m & -> & Hin & [Hmy Hml]%Forall_cons). exists m. specialize (Hgt eq_refl).
    split_and!; [done|by constructor|]. repeat constructor; try done. by etrans.
  - destruct (IH Hl x Hx) as (m & Hm & Hin & [Hmx Hml]%Forall_cons). exists m. specialize (Hle Hc).
    split_and!; [by destruct c|set_solver|]. repeat constructor; try done. by etrans.
Qed.
End Order.

(** ** Invariant *)

(** A number between 0 and 1. *)
Definition score_ok (x : f64) : Prop := is_nan x = false /\ f64_le f64_zero x /\ f64_le x f64_one.

Definition peers_ok (m : gmap PeerId PeerInfo) : Prop :=
  map_Forall (fun id p => peer_id p = id /\ score_ok (reliability_score p)) m.

Definition cell_ok (n : Z) (c : LocalCell) : Prop :=
  peers_ok (peers c) /\ max_peers c = n /\ Z.of_nat (size (peers c)) <= Z.max 1 n.

Lemma score_add_ok x d : score_ok x -> finite d = true -> score_ok (clamp f64_zero f64_one (f64_add x d)).
Proof.
  intros (Hn & Hl & Hh) Hd. apply clamp_range; [done..| |by_computation].
  apply f64_add_number; [|done]. by apply (f64_le_finite f64_zero f64_one).
Qed.

Definition higher (a b : PeerInfo) : Prop := f64_le (reliability_score b) (reliability_score a).

Lemma cmp_expect_spec a b :
  score_ok (reliability_score a) -> score_ok (reliability_score b) ->
  exists c, cmp_expect (reliability_score a) (reliability_score b) = Ok c /\
    (c = Gt -> higher a b) /\ (c <> Gt -> higher b a).
Proof.
  intros [Ha _] [Hb _]. unfold cmp_expect. rewrite SFcompare_key by done. eexists. split; [done|].
  unfold higher, f64_le. split; [|done]. intros Hgt. by rewrite key_cmp_antisym, Hgt.
Qed.

#[local] Instance higher_trans : Transitive higher.
Proof. intros a b c. unfold higher. intros. by etrans. Qed.

(** The operations that change a cell, in sequence. *)
Inductive CellOp : Type :=
| OpSeen (now : Z) (id : PeerId) (t : TransportType)
| OpHints (id : PeerId) (hints : list Hint)
| OpGateway (id : PeerId) (g : bool)
| OpSync (id : PeerId) (duration messages : Z)
| OpReliability (id : PeerId) (success : bool)
| OpTick (now : Z).

Section CellProofs.
Context `{Build} {HI : HashIter PeerId PeerInfo}.

Definition run_op (c : LocalCell) (op : CellOp) : res string LocalCell :=
  match op with
  | OpSeen now id t => peer_seen now id t c
  | OpHints id hints => Ok (update_peer_hints id hints c)
  | OpGateway id g => Ok (mark_as_gateway id g c)
  | OpSync id d n => record_sync id d n c
  | OpReliability id b => Ok (update_reliability id b c)
  | OpTick now => let! r := cell_tick now c in Ok r.1
  end.

Lemma elem_of_peer_values c p : p ∈ peer_values c <-> exists id, peers c !! id = Some p.
Proof.
  unfold peer_values. rewrite list_elem_of_fmap. split.
  - intros ([id q] & -> & Hin%elem_of_hm_iter). by exists id.
  - intros [id Hp%elem_of_hm_iter]. by exists (id, p).
Qed.

Lemma peer_values_ok c : peers_ok (peers c) -> Forall (fun p => score_ok (reliability_score p)) (peer_values c).
Proof. intros Hok. apply Forall_forall. intros p [id Hp]%elem_of_peer_values. by apply Hok in Hp as [_ ?]. Qed.

Lemma peer_values_empty c : peer_values c = [] -> peers c = ∅.
Proof.
  unfold peer_values. intros Hn%fmap_nil_inv. apply map_to_list_empty_iff. apply Permutation_nil.
  by rewrite <-hm_iter_perm, Hn.
Qed.

(** Eviction removes one peer of the lowest score. *)
Lemma evict_spec c :
  peers_ok (peers c) -> peers c <> ∅ ->
  exists id p, peers c !! id = Some p /\ evict_lowest_reliability c = Ok (set_peers (delete id (peers c)) c) /\
    forall id' q, peers c !! id' = Some q -> f64_le (reliability_score p) (reliability_score q).
Proof.
  intros Hok Hne. unfold evict_lowest_reliability. rewrite bool_decide_false by done.
  destruct (min_by_res_least (fun a b => cmp_expect (reliability_score a) (reliability_score b)) (f64_le_by reliability_score)
    (fun p => score_ok (reliability_score p))) with (l := peer_values c) as (m & -> & Hin & Hall).
  - intros a b Ha Hb. by apply cmp_expect_spec.
  - apply f64_le_by_refl.
  - by apply peer_values_ok.
  - intros Hn%peer_values_empty. done.
  - apply elem_of_peer_values in Hin as [id Hp]. exists id, m. destruct (Hok _ _ Hp) as [<- _]. split_and!; [done..|].
    intros id' q Hq. rewrite Forall_forall in Hall. apply Hall, elem_of_peer_values. by exists id'.
Qed.

Lemma peers_ok_insert m id p :
  peers_ok m -> peer_id p = id -> score_ok (reliability_score p) -> peers_ok (<[id := p]> m).
Proof. intros. by apply map_Forall_insert_2. Qed.

Lemma size_insert_known (m : gmap PeerId PeerInfo) id p q : m !! id = Some p -> size (<[id := q]> m) = size m.
Proof. intros Hp. rewrite map_size_insert, Hp. done. Qed.

Lemma cell_ok_replace n c id p q :
  cell_ok n c -> peers c !! id = Some p -> peer_id q = id -> score_ok (reliability_score q) ->
  cell_ok n (set_peers (<[id := q]> (peers c)) c).
Proof.
  intros (Hok & Hm & Hsz) Hp Hid Hq. split_and!; cbn; [by apply peers_ok_insert|done|]. by erewrite size_insert_known.
Qed.

Lemma half_ok : score_ok (lit 1 2).
Proof. split; [done|split; by_computation]. Qed.

Lemma peer_seen_ok n now id t c : cell_ok n c -> exists c', peer_seen now id t c = Ok c' /\ cell_ok n c'.
Proof.
  intros Hc. pose proof Hc as (Hok & Hm & Hsz). unfold peer_seen. destruct (peers c !! id) as [p|] eqn:Hp.
  { eexists. split; [done|]. destruct (Hok _ _ Hp). by eapply cell_ok_replace. }
  destruct (Z.leb_spec (max_peers c) (Z.of_nat (size (peers c)))).
  - destruct (decide (peers c = ∅)) as [He|Hne].
    + unfold evict_lowest_reliability. rewrite bool_decide_true by done. cbn. eexists. split; [done|]. split_and!; cbn; [|done|].
      * apply peers_ok_insert; [done..|apply half_ok].
      * rewrite map_size_insert, Hp, He, map_size_empty. lia.
    + destruct (evict_spec c Hok Hne) as (e & q & Hq & -> & _). cbn. eexists. split; [done|]. split_and!; cbn; [|done|].
      * apply peers_ok_insert; [by apply map_Forall_delete|done|apply half_ok].
      * rewrite map_size_insert, lookup_delete_ne, Hp by (intros ->; congruence).
        rewrite map_size_delete, Hq. cbn. destruct (size (peers c)); lia.
  - cbn. eexists. split; [done|]. split_and!; cbn; [apply peers_ok_insert; [done..|apply half_ok]|done|].
    rewrite map_size_insert, Hp. lia.
Qed.

(** What the passing of time does to one peer, and the event it raises. *)
Definition demote (now : Z) (c : LocalCell) (p : PeerInfo) : PeerInfo :=
  match status p with
  | Active seen t => if active_timeout c <? now - seen then set_status (Stale seen t) p else p
  | Stale seen _ => if stale_timeout c <? now - seen then set_status (Dormant seen) p else p
  | Dormant _ => p
  end.

Definition demotion (now : Z) (c : LocalCell) (id : PeerId) (p : PeerInfo) : option PeerEvent :=
  match status p with
  | Active seen _ => if active_timeout c <? now - seen then Some (PeerBecameStale id) else None
  | Stale seen _ => if stale_timeout c <? now - seen then Some (PeerBecameDormant id) else None
  | Dormant _ => None
  end.

Definition seen_before (now : Z) (p : PeerInfo) : Prop := in_u 64 (now - last_seen (status p)).

Lemma tick_peer_past now c id p :
  seen_before now p -> tick_peer now c id p = Ok (demote now c p, option_list (demotion now c id p)).
Proof.
  unfold seen_before, tick_peer, demote, demotion. destruct (status p) as [seen t|seen t|seen]; cbn; intros Hin; [| |done];
    rewrite chk_u_ok by done; cbn; by destruct (_ <? _).
Qed.

(** The loop of [tick] over distinct peers. *)
Lemma tick_loop now c (Hpast : map_Forall (fun _ => seen_before now) (peers c)) ids m events :
  NoDup ids -> (forall id, id ∈ ids -> m !! id = peers c !! id) ->
  rfold (fun st id =>
    let '(c, events) := st in
    match peers c !! id with
    | Some p => let! r := tick_peer now c id p in
                Ok (set_peers (<[id := r.1]> (peers c)) c, events ++ r.2)
    | None => Ok (c, events)
    end) (set_peers m c, events) ids =
  Ok (set_peers (foldl (fun m id => match peers c !! id with Some p => <[id := demote now c p]> m | None => m end) m ids) c,
      events ++ concat (map (fun id => option_list (peers c !! id ≫= demotion now c id)) ids)).
Proof.
  revert m events. induction ids as [|id ids IH]; intros m events Hnd Hm; cbn [rfold map concat foldl].
  { by rewrite app_nil_r. }
  apply NoDup_cons in Hnd as [Hid Hnd].
  change (peers (set_peers m c)) with m. rewrite (Hm id) by (by left). destruct (peers c !! id) as [p|] eqn:Hp; cbn [mbind option_bind].
  - rewrite (tick_peer_past now (set_peers m c)) by (by eapply Hpast). cbn [rbind fst snd].
    change (demote now (set_peers m c)) with (demote now c). change (demotion now (set_peers m c)) with (demotion now c).
    change (set_peers ?a (set_peers m c)) with (set_peers a c).
    rewrite IH; [by rewrite <-app_assoc|done|].
    intros id' Hid'. rewrite lookup_insert_ne by (by intros ->). apply Hm. by right.
  - cbn [rbind]. rewrite IH; [done|done|]. intros id' Hid'. apply Hm. by right.
Qed.

Lemma demote_loop (now : Z) (c : LocalCell) (ids : list PeerId) (m : gmap PeerId PeerInfo) (id : PeerId) :
  (foldl (fun m id => match peers c !! id with Some p => <[id := demote now c p]> m | None => m end) m ids) !! id =
  if bool_decide (id ∈ ids) then match peers c !! id with Some p => Some (demote now c p) | None => m !! id end else m !! id.
Proof.
  revert m. induction ids as [|i ids IH]; intros m; cbn [foldl]; [done|]. rewrite IH.
  destruct (decide (id ∈ ids)) as [Hin|Hin].
  - rewrite !bool_decide_true by set_solver. destruct (peers c !! id) eqn:Hp; [done|].
    destruct (decide (i = id)) as [ -> |]; [by rewrite Hp|]. destruct (peers c !! i); [by rewrite lookup_insert_ne|done].
  - rewrite (bool_decide_false (id ∈ ids)) by done. destruct (decide (i = id)) as [ -> |Hne].
    + rewrite bool_decide_true by set_solver. destruct (peers c !! id); [by rewrite lookup_insert_eq|done].
    + rewrite bool_decide_false by set_solver. destruct (peers c !! i); [by rewrite lookup_insert_ne|done].
Qed.

(** With a clock that has not gone back, a tick applies [demote] to every peer once and
    raises one event per peer it changed. *)
Theorem tick_demotes now c :
  map_Forall (fun _ => seen_before now) (peers c) ->
  exists events, cell_tick now c = Ok (set_peers (demote now c <$> peers c) c, events) /\ NoDup events /\
    forall e, e ∈ events <-> exists id p, peers c !! id = Some p /\ demotion now c id p = Some e.
Proof.
  intros Hpast. unfold cell_tick. set (ids := (hm_iter (peers c)).*1).
  assert (NoDup ids) as Hnd by apply NoDup_hm_keys.
  assert (forall id, id ∈ ids <-> is_Some (peers c !! id)) as Hids.
  { intros id. unfold ids. rewrite list_elem_of_fmap. split.
    - intros ([i p] & -> & Hin%elem_of_hm_iter). by eexists.
    - intros [p Hp%elem_of_hm_iter]. by exists (id, p). }
  pose proof (tick_loop now c Hpast ids (peers c) [] Hnd (fun _ _ => eq_refl)) as Hl.
  replace (set_peers (peers c) c) with c in Hl by (by destruct c).
  rewrite Hl. clear Hl. cbn [app]. eexists. split; [|split].
  - do 2 f_equal. f_equal. apply map_eq. intros id. rewrite demote_loop, lookup_fmap. case_bool_decide as Hin.
    + by destruct (peers c !! id).
    + destruct (peers c !! id) eqn:Hp; [|done]. exfalso. apply Hin, Hids. by eexists.
  - clear Hids. induction Hnd as [|id ids Hid Hnd IH]; cbn [map concat]; [constructor|].
    apply NoDup_app. split_and!; [destruct (_ ≫= _); repeat constructor; set_solver| |done].
    intros e He (l & Hl & Hin)%list_elem_of_In%in_concat. apply in_map_iff in Hl as (i & <- & Hi%list_elem_of_In).
    apply list_elem_of_In in Hin. assert (i <> id) as Hne by (by intros ->).
    apply elem_of_option_list in He, Hin. apply bind_Some in He as (p & _ & He), Hin as (q & _ & Hq).
    unfold demotion in He, Hq. destruct (status p), (status q); repeat case_match; simplify_eq; done.
  - intros e. rewrite list_elem_of_In, in_concat. split.
    + intros (l & Hl & Hin). apply in_map_iff in Hl as (id & <- & _). apply list_elem_of_In in Hin.
      apply elem_of_option_list, bind_Some in Hin as (p & Hp & He). by exists id, p.
    + intros (id & p & Hp & He). eexists. split.
      * apply in_map_iff. exists id. split; [done|]. apply list_elem_of_In, Hids. by eexists.
      * apply list_elem_of_In, elem_of_option_list. by rewrite Hp.
Qed.

Lemma demote_ok now c p : peer_id (demote now c p) = peer_id p /\ reliability_score (demote now c p) = reliability_score p.
Proof. unfold demote. destruct (status p); try case_if; done. Qed.

(** The loop of [tick] keeps the invariant, whatever the clock. *)
Lemma tick_loop_ok n now ids c events r :
  cell_ok n c ->
  rfold (fun st id =>
    let '(c, events) := st in
    match peers c !! id with
    | Some p => let! r := tick_peer now c id p in
                Ok (set_peers (<[id := r.1]> (peers c)) c, events ++ r.2)
    | None => Ok (c, events)
    end) (c, events) ids = Ok r -> cell_ok n r.1.
Proof.
  revert c events. induction ids as [|id ids IH]; intros c events Hc; cbn [rfold].
  { by intros [= <-]. }
  destruct (peers c !! id) as [p|] eqn:Hp; cbn [rbind]; [|by apply IH].
  destruct (tick_peer now c id p) as [[q es]| |] eqn:Ht; cbn [rbind fst snd]; [|done..]. apply IH.
  pose proof Hc as [Hok _]. destruct (Hok _ _ Hp) as [Hid Hsc].
  assert (peer_id q = id /\ reliability_score q = reliability_score p) as [Hq1 Hq2].
  { unfold tick_peer in Ht. destruct (status p); [apply rbind_ok_inv in Ht as (age & _ & Ht)..|];
      try destruct (_ <? age); by simplify_eq/=. }
  eapply cell_ok_replace; [done..|]. by rewrite Hq2.
Qed.

Lemma run_op_ok n c op c' : cell_ok n c -> run_op c op = Ok c' -> cell_ok n c'.
Proof.
  intros Hc. pose proof Hc as [Hok _].
  destruct op as [now id t|id hints|id g|id d k|id b|now]; cbn [run_op].
  - destruct (peer_seen_ok n now id t c Hc) as (c1 & -> & ?). by intros [= <-].
  - intros [= <-]. unfold update_peer_hints. destruct (peers c !! id) eqn:Hp; [|done]. destruct (Hok _ _ Hp).
    by eapply cell_ok_replace.
  - intros [= <-]. unfold mark_as_gateway. destruct (peers c !! id) eqn:Hp; [|done]. destruct (Hok _ _ Hp).
    by eapply cell_ok_replace.
  - unfold record_sync. destruct (peers c !! id) eqn:Hp; [|by intros [= <-]]. destruct (Hok _ _ Hp).
    intros Hr. do 3 apply rbind_ok_inv in Hr as (? & _ & Hr). destruct (_ =? 0); simplify_eq. by eapply cell_ok_replace.
  - intros [= <-]. unfold update_reliability. destruct (peers c !! id) eqn:Hp; [|done]. destruct (Hok _ _ Hp) as [? Hs].
    eapply cell_ok_replace; [done..|]. apply score_add_ok; [done|]. by destruct b.
  - intros (r & Ht & [= <-])%rbind_ok_inv. by eapply tick_loop_ok.
Qed.

(** Whatever sequence of operations led to a cell: its scores are numbers from 0 to 1, it
    holds at most [max_peers] peers, recording a sighting never panics, and the active peers
    are listed, all of them, from the most to the least reliable. *)
Theorem cell_invariant id ops c :
  rfold run_op (cell_new id) ops = Ok c ->
  peers_ok (peers c) /\ Z.of_nat (size (peers c)) <= 1000 /\
  (forall now p t, exists c', peer_seen now p t c = Ok c') /\
  exists l, active_peers c = Ok l /\ StronglySorted higher l /\
    forall p, p ∈ l <-> is_active p = true /\ peers c !! peer_id p = Some p.
Proof.
  intros Hr.
  assert (cell_ok 1000 c) as Hc.
  { assert (cell_ok 1000 (cell_new id)) as H0 by (split_and!; [apply map_Forall_empty|done|cbn [peers cell_new]; rewrite map_size_empty; lia]).
    revert Hr H0. generalize (cell_new id). clear id. induction ops as [|op ops IH]; intros c0 Hr H0; cbn [rfold] in Hr.
    - by injection Hr as <-.
    - apply rbind_ok_inv in Hr as (c1 & H1 & Hr). apply (IH c1 Hr). by eapply run_op_ok. }
  pose proof Hc as (Hok & _ & Hsz). split_and!; [done|lia| |].
  - intros now p t. destruct (peer_seen_ok 1000 now p t c Hc) as (c' & ? & _). by exists c'.
  - unfold active_peers.
    destruct (sort_res_sorted (fun a b => cmp_expect (reliability_score b) (reliability_score a)) higher
      (fun p => score_ok (reliability_score p))) with (l := filter (fun p => is_active p = true) (peer_values c))
      as (l & -> & Hp & Hs).
    + intros a b Ha Hb. by apply cmp_expect_spec.
    + apply Forall_forall. intros p [_ Hin]%list_elem_of_filter. by eapply Forall_forall in Hin; [|by apply peer_values_ok].
    + exists l. split_and!; [done..|]. intros p. rewrite Hp, list_elem_of_filter, elem_of_peer_values. split.
      * intros (? & i & Hi). destruct (Hok _ _ Hi) as [<- _]. done.
      * intros (? & ?). split; [done|]. by eexists.
Qed.

(** A peer that was seen after the clock reading of a tick: a build with overflow checks
    panics in the tick, one without demotes the peer at once, as its age wraps around. *)
Theorem tick_clock_back now c id seen t p :
  peers c = {[ id := p ]} -> status p = Active seen t -> 0 <= now < seen -> seen < 2 ^ 64 ->
  active_timeout c < 2 ^ 64 - (seen - now) ->
  if overflow_checks then cell_tick now c = Panic
  else exists c', cell_tick now c = Ok (c', [PeerBecameStale id]) /\ status <$> peers c' !! id = Some (Stale seen t).
Proof.
  intros Hp Hs Hn Hseen Hgap. unfold cell_tick. rewrite Hp.
  assert (hm_iter ({[id := p]} : gmap PeerId PeerInfo) = [(id, p)]) as ->.
  { apply Permutation_singleton_r. rewrite hm_iter_perm. by rewrite map_to_list_singleton. }
  cbn [fmap list_fmap fst rfold]. rewrite Hp, lookup_singleton_eq. unfold tick_peer. rewrite Hs. unfold chk_u.
  rewrite (proj2 (Z.leb_gt 0 (now - seen))) by lia. cbn [andb].
  destruct overflow_checks; [done|]. cbn [rbind].
  assert ((now - seen) mod 2 ^ 64 = 2 ^ 64 - (seen - now)) as ->.
  { symmetry. apply (Z.mod_unique _ _ (-1)); lia. }
  rewrite (proj2 (Z.ltb_lt _ _)) by lia. eexists. split; [done|]. cbn.
  by rewrite lookup_insert_eq.
Qed.

(** The average sync time stays between the bounds of the samples, as long as the sums fit. *)
Theorem sync_average_bounded lo hi samples c c' id p :
  0 <= lo <= hi -> hi * (zlen samples + 1) < 2 ^ 64 -> zlen samples < 2 ^ 32 ->
  peers c !! id = Some p -> sync_count p = 0 -> samples <> [] -> Forall (fun d => lo <= d <= hi) samples ->
  rfold run_op c (map (fun d => OpSync id d 0) samples) = Ok c' ->
  exists q, peers c' !! id = Some q /\ sync_count q = zlen samples /\ lo <= avg_sync_ms q <= hi.
Proof.
  intros Hlh Hfit Hlen Hp H0 Hne Hall.
  enough (forall l c p n, peers c !! id = Some p -> sync_count p = n -> 0 <= n -> n + zlen l <= zlen samples ->
    Forall (fun d => lo <= d <= hi) l -> (0 < n -> lo <= avg_sync_ms p <= hi) -> 0 < n + zlen l ->
    rfold run_op c (map (fun d => OpSync id d 0) l) = Ok c' ->
    exists q, peers c' !! id = Some q /\ sync_count q = n + zlen l /\ lo <= avg_sync_ms q <= hi) as Hgen.
  { intros Hr. apply (Hgen samples c p 0); try done; try lia. destruct samples; [done|]. autorewrite with zlen.
    pose proof (zlen_nonneg samples). lia. }
  clear Hp H0 c p. intros l. induction l as [|d l IH]; intros c p n Hp Hn Hn0 Hle Hl Havg Hpos; cbn [map rfold].
  { intros [= <-]. exists p. autorewrite with zlen in *. split_and!; [done|lia|apply Havg; lia..]. }
  apply Forall_cons in Hl as [Hd Hl]. autorewrite with zlen in *. pose proof (zlen_nonneg l).
  cbn [run_op]. unfold record_sync. rewrite Hp, Hn.
  assert (0 <= avg_sync_ms p * n <= hi * n) as Hm by (destruct (decide (n = 0)) as [ -> |]; [lia|specialize (Havg ltac:(lia)); nia]).
  rewrite chk_u_ok by (unfold in_u; lia). cbn [rbind]. rewrite chk_u_ok by (unfold in_u; nia). cbn [rbind].
  rewrite chk_u_ok by (unfold in_u; nia). cbn [rbind]. rewrite (proj2 (Z.eqb_neq (n + 1) 0)) by lia. cbn [rbind].
  intros Hr. replace (n + (1 + zlen l)) with ((n + 1) + zlen l) by lia.
  refine (IH _ (set_sync (n + 1) _ 0 p) (n + 1) (lookup_insert_eq (peers c) _ _) eq_refl _ _ Hl _ _ Hr); [lia..| |lia]. intros _. cbn.
  destruct (decide (n = 0)) as [ -> |].
  - rewrite !Z.mul_0_r, Z.div_1_r. lia.
  - specialize (Havg ltac:(lia)). split; [apply Z.div_le_lower_bound; nia|apply Z.div_le_upper_bound; nia].
Qed.
End CellProofs.

(** ** Examples *)

Module LocalCellExamples.
#[local] Instance lc_build : Build := {| overflow_checks := false |}.
#[local] Instance lc_iter : HashIter PeerId PeerInfo := canonical_iter.

Definition p1 : PeerId := [Byte.x01].
Definition p2 : PeerId := [Byte.x02].
Definition seen_cell : LocalCell := set_peers {[p1 := peer_new 1000 p1 TCP]} (cell_new []).

Lemma tick_demotes_witness :
  exists events, cell_tick 1301 seen_cell = Ok (set_peers (demote 1301 seen_cell <$> peers seen_cell) seen_cell, events) /\
    NoDup events /\
    forall e, e ∈ events <-> exists id p, peers seen_cell !! id = Some p /\ demotion 1301 seen_cell id p = Some e.
Proof. apply tick_demotes. apply map_Forall_singleton. by vm_compute. Defined.

Lemma tick_clock_back_witness :
  exists c', cell_tick 999 seen_cell = Ok (c', [PeerBecameStale p1]) /\ status <$> peers c' !! p1 = Some (Stale 1000 TCP).
Proof.
  refine (tick_clock_back 999 seen_cell p1 1000 TCP (peer_new 1000 p1 TCP) eq_refl eq_refl _ _ _); cbn; lia.
Defined.

Lemma sync_average_bounded_witness :
  exists q, peers (set_peers {[p1 := set_sync 2 25 0 (peer_new 1000 p1 TCP)]} seen_cell) !! p1 = Some q /\
    sync_count q = 2 /\ 20 <= avg_sync_ms q <= 30.
Proof.
  apply (sync_average_bounded 20 30 [20; 30] seen_cell _ p1 (peer_new 1000 p1 TCP)); try done.
  repeat constructor; done.
Defined.

Definition ops : list CellOp :=
  [OpSeen 1000 p1 TCP; OpSeen 1001 p2 BLE; OpReliability p2 true; OpGateway p1 true; OpSync p1 40 3; OpTick 1200].

Definition end_cell : LocalCell := match rfold run_op (cell_new []) ops with Ok c => c | _ => cell_new [] end.

Lemma cell_invariant_witness :
  rfold run_op (cell_new []) ops = Ok end_cell /\ peer_count end_cell = 2 /\
  exists l, active_peers end_cell = Ok l /\ map peer_id l = [p2; p1] /\ StronglySorted higher l.
Proof.
  assert (rfold run_op (cell_new []) ops = Ok end_cell) as Hr.
  { unfold end_cell. assert (is_ok (rfold run_op (cell_new []) ops) = true) as Hok by (by vm_compute).
    by destruct (rfold run_op (cell_new []) ops). }
  pose proof (cell_invariant [] ops end_cell Hr) as (_ & _ & _ & l & Hl & Hs & _).
  split; [exact Hr|]. split; [by vm_compute|]. exists l. split; [exact Hl|]. split; [|exact Hs].
  assert (match active_peers end_cell with Ok l => map peer_id l | _ => [] end = [p2; p1]) as Hm by (by vm_compute).
  by rewrite Hl in Hm.
Defined.
End LocalCellExamples.
