(* ===== verification/Neighborhood.v ===== *)
(** * Neighborhood ([core/src/routing/neighborhood.rs])

    The second routing layer: what gateway peers say lies behind them.  The summaries and
    their timestamps come from other nodes.  The clock is the argument [now]. *)

From Stdlib Require Import SpecFloat.
From S2P Require Import Prelude Floats LocalCell.

Inductive EnergyClass : Type := Charging | High | Low | Critical.

#[global] Instance energy_eq_dec : EqDecision EnergyClass.
Proof. solve_decision. Defined.

Definition energy_default : EnergyClass := High.

Definition cost_multiplier (e : EnergyClass) : f64 :=
  match e with
  | Charging => lit 1 2
  | High => f64_of 1
  | Low => f64_of 2
  | Critical => f64_of 8
  end.

Definition from_battery (battery_pct : Z) (is_charging : bool) : EnergyClass :=
  if is_charging then Charging
  else if 50 <? battery_pct then High
  else if 20 <? battery_pct then Low
  else Critical.

Record GatewayInfo : Type := mkGateway {
  gateway_id : PeerId;
  cell_summary : CellSummary;
  hops_away : Z;
  last_updated : Z;
  gw_transport : TransportType;
  gw_energy : EnergyClass;
}.

Record NeighborhoodSummary : Type := mkNSummary {
  total_reachable : Z;
  ns_hints : list Hint;
  path_reliability : f64;
  hop_count : Z;
  ns_timestamp : Z;
}.

Record NeighborhoodGossip : Type := mkGossip {
  local_summary : CellSummary;
  neighborhood_summaries : list NeighborhoodSummary;
  gossip_timestamp : Z;
  gossip_energy : EnergyClass;
}.

Record NeighborhoodTable : Type := mkTable {
  gateways : gmap PeerId GatewayInfo;
  summaries : list NeighborhoodSummary;
  max_staleness : Z;
  max_gateways : Z;
  max_hops : Z;
}.

Definition set_gateways (m : gmap PeerId GatewayInfo) (t : NeighborhoodTable) : NeighborhoodTable :=
  mkTable m (summaries t) (max_staleness t) (max_gateways t) (max_hops t).
Definition set_summaries (l : list NeighborhoodSummary) (t : NeighborhoodTable) : NeighborhoodTable :=
  mkTable (gateways t) l (max_staleness t) (max_gateways t) (max_hops t).

Definition table_new : NeighborhoodTable := mkTable ∅ [] 3600 100 4.
Definition with_max_staleness (s : Z) : NeighborhoodTable := mkTable ∅ [] s 100 4.

(** [min_by_key], and a lookup that updates the first match. *)
Definition by_updated (a b : GatewayInfo) : comparison := last_updated a ?= last_updated b.

Definition adopt (s : NeighborhoodSummary) (hops timestamp : Z) : NeighborhoodSummary :=
  mkNSummary (total_reachable s) (ns_hints s) (path_reliability s) hops timestamp.

Definition same_path (hops : Z) (s : NeighborhoodSummary) (x : NeighborhoodSummary) : bool :=
  (hop_count x =? hops) && bool_decide (ns_hints x = ns_hints s).

Definition as_summary (g : GatewayInfo) : NeighborhoodSummary :=
  mkNSummary (cs_peer_count (cell_summary g)) (cs_reachable_hints (cell_summary g)) (cs_avg_reliability (cell_summary g))
    (hops_away g) (last_updated g).

(** [cost = hops * energy / reliability]. *)
Definition gateway_cost (g : GatewayInfo) : f64 :=
  f64_div (f64_mul (f64_of (hops_away g)) (cost_multiplier (gw_energy g)))
    (f64_max (cs_avg_reliability (cell_summary g)) (lit 1 100)).

Definition by_cost (a b : GatewayInfo) : comparison := default Eq (SFcompare (gateway_cost a) (gateway_cost b)).

Section Table.
Context `{Build} {HG : HashIter PeerId GatewayInfo} {HS : HashIter (list Hint) NeighborhoodSummary}.

Definition gateway_values (t : NeighborhoodTable) : list GatewayInfo := (hm_iter (gateways t)).*2.

(** One step of the deduplication: the fresher of two summaries of the same hints. *)
Definition dedup_step (m : gmap (list Hint) NeighborhoodSummary) (s : NeighborhoodSummary) :
    gmap (list Hint) NeighborhoodSummary :=
  match m !! ns_hints s with
  | Some existing => if ns_timestamp existing <? ns_timestamp s then <[ns_hints s := s]> m else m
  | None => <[ns_hints s := s]> m
  end.

Definition rebuild_summaries (t : NeighborhoodTable) : NeighborhoodTable :=
  set_summaries (hm_iter (foldl dedup_step ∅ (summaries t))).*2 t.

Definition evict_stalest_gateway (t : NeighborhoodTable) : res string NeighborhoodTable :=
  if bool_decide (gateways t = ∅) then Ok t
  else match min_by by_updated (gateway_values t) with
       | Some g => Ok (set_gateways (delete (gateway_id g) (gateways t)) t)
       | None => Panic
       end.

Definition update_gateway_with_energy (now : Z) (id : PeerId) (s : CellSummary) (hops : Z) (tr : TransportType)
    (e : EnergyClass) (t : NeighborhoodTable) : res string NeighborhoodTable :=
  if max_hops t <? hops then Ok t
  else
    let t := set_gateways (<[id := mkGateway id s hops now tr e]> (gateways t)) t in
    let! t := if max_gateways t <? Z.of_nat (size (gateways t)) then evict_stalest_gateway t else Ok t in
    Ok (rebuild_summaries t).

Definition update_gateway (now : Z) (id : PeerId) (s : CellSummary) (hops : Z) (tr : TransportType)
    (t : NeighborhoodTable) : res string NeighborhoodTable :=
  update_gateway_with_energy now id s hops tr energy_default t.

Definition gateways_for_hint (hint : Hint) (t : NeighborhoodTable) : list GatewayInfo :=
  filter (fun g => hint ∈ cs_reachable_hints (cell_summary g)) (gateway_values t).

Definition best_gateway_for_hint (hint : Hint) (t : NeighborhoodTable) : option GatewayInfo :=
  min_by by_cost (gateways_for_hint hint t).

(** One summary of a gossip message. *)
Definition learn (timestamp : Z) (t : NeighborhoodTable) (s : NeighborhoodSummary) : res string NeighborhoodTable :=
  let! our_hops := chk_u 8 (hop_count s + 1) in
  if our_hops <=? max_hops t then
    match list_find (fun x => same_path our_hops s x = true) (summaries t) with
    | Some (i, existing) =>
        if ns_timestamp existing <? timestamp
        then Ok (set_summaries (<[i := adopt s our_hops timestamp]> (summaries t)) t)
        else Ok t
    | None => Ok (set_summaries (summaries t ++ [adopt s our_hops timestamp]) t)
    end
  else Ok t.

Definition process_gossip (now : Z) (from_peer : PeerId) (g : NeighborhoodGossip) (t : NeighborhoodTable) :
    res string NeighborhoodTable :=
  let! t := update_gateway now from_peer (local_summary g) 1 TCP t in
  let! t := rfold (learn (gossip_timestamp g)) t (neighborhood_summaries g) in
  Ok (rebuild_summaries t).

Definition generate_gossip (now : Z) (local_summary : CellSummary) (t : NeighborhoodTable) : NeighborhoodGossip :=
  let add l g :=
    let s := as_summary g in
    if existsb (fun x => same_path (hop_count s) s x) l then l else l ++ [s] in
  mkGossip local_summary (foldl add (summaries t) (gateway_values t)) now energy_default.

(** [retain] with a predicate that may panic. *)
Definition retain_res {A} (keep : A -> res string bool) (l : list A) : res string (list A) :=
  rfold (fun acc x => let! b := keep x in Ok (if b then acc ++ [x] else acc)) [] l.

Definition fresh (now : Z) (t : NeighborhoodTable) (timestamp : Z) : res string bool :=
  let! age := chk_u 64 (now - timestamp) in Ok (age <=? max_staleness t).

Definition table_cleanup (now : Z) (t : NeighborhoodTable) : res string (NeighborhoodTable * Z) :=
  let initial_count := Z.of_nat (size (gateways t)) in
  let! kept := retain_res (fun kv => fresh now t (last_updated kv.2)) (hm_iter (gateways t)) in
  let t1 := set_gateways (list_to_map kept) t in
  let! kept_summaries := retain_res (fun s => fresh now t (ns_timestamp s)) (summaries t1) in
  let t2 := set_summaries kept_summaries t1 in
  Ok (t2, initial_count - Z.of_nat (size (gateways t2))).

Definition all_gateways (t : NeighborhoodTable) : list GatewayInfo := gateway_values t.

Definition all_reachable_hints (t : NeighborhoodTable) : list Hint :=
  foldl push_new
    (foldl push_new [] (concat (map (fun g => cs_reachable_hints (cell_summary g)) (gateway_values t))))
    (concat (map ns_hints (summaries t))).

Definition gateway_count (t : NeighborhoodTable) : Z := Z.of_nat (size (gateways t)).
Definition summary_count (t : NeighborhoodTable) : Z := zlen (summaries t).
End Table.

(** ** Routing cost *)

Lemma base_cost_finite hops e : 0 <= hops < 256 -> finite (f64_mul (f64_of hops) (cost_multiplier e)) = true.
Proof.
  intros Hh.
  assert (forallb (fun h => forallb (fun e => finite (f64_mul (f64_of (Z.of_nat h)) (cost_multiplier e)))
    [Charging; High; Low; Critical]) (seq 0 256) = true) as Hall by (by vm_compute).
  rewrite forallb_forall in Hall. specialize (Hall (Z.to_nat hops)). rewrite in_seq in Hall.
  specialize (Hall ltac:(lia)). rewrite forallb_forall in Hall. specialize (Hall e). rewrite Z2Nat.id in Hall by lia.
  apply Hall. destruct e; cbn; tauto.
Qed.

Lemma floor_nonzero r : is_nan (f64_max r (lit 1 100)) = false /\ forall s, f64_max r (lit 1 100) <> S754_zero s.
Proof.
  unfold f64_max. destruct (is_nan r) eqn:Hr; [by split|]. rewrite (eq_refl : is_nan (lit 1 100) = false).
  destruct (SFltb r (lit 1 100)) eqn:Hl; [by split|]. split; [done|]. intros s ->. by destruct s.
Qed.

(** Whatever reliability a gateway claims, its cost is a number. *)
Lemma gateway_cost_number g : in_u 8 (hops_away g) -> is_nan (gateway_cost g) = false.
Proof.
  intros Hh. unfold gateway_cost. destruct (floor_nonzero (cs_avg_reliability (cell_summary g))).
  apply f64_div_number; [|done..]. by apply base_cost_finite.
Qed.

(** ** Invariant *)

Definition gateway_ok (t : NeighborhoodTable) (id : PeerId) (g : GatewayInfo) : Prop :=
  gateway_id g = id /\ 0 <= hops_away g <= max_hops t.

Definition summaries_bounded `{Build} (t : NeighborhoodTable) : Prop :=
  Forall (fun s => (if overflow_checks then 1 else 0) <= hop_count s <= max_hops t) (summaries t).

Definition table_ok `{Build} (t : NeighborhoodTable) : Prop :=
  map_Forall (gateway_ok t) (gateways t) /\ Z.of_nat (size (gateways t)) <= max_gateways t /\
  0 <= max_gateways t /\ summaries_bounded t /\ NoDup (map ns_hints (summaries t)).

Section TableProofs.
Context `{Build} {HG : HashIter PeerId GatewayInfo} {HS : HashIter (list Hint) NeighborhoodSummary}.

Lemma elem_of_gateway_values t g : g ∈ gateway_values t <-> exists id, gateways t !! id = Some g.
Proof.
  unfold gateway_values. rewrite list_elem_of_fmap. split.
  - intros ([id q] & -> & Hin%elem_of_hm_iter). by exists id.
  - intros [id Hp%elem_of_hm_iter]. by exists (id, g).
Qed.

(** The best gateway for a hint is one of least cost among those that claim the hint,
    whatever reliabilities they claim; there is none only when no gateway claims it. *)
Theorem best_gateway_least hint t :
  map_Forall (fun _ g => in_u 8 (hops_away g)) (gateways t) ->
  match best_gateway_for_hint hint t with
  | Some g =>
      (exists id, gateways t !! id = Some g) /\ hint ∈ cs_reachable_hints (cell_summary g) /\
      forall id g', gateways t !! id = Some g' -> hint ∈ cs_reachable_hints (cell_summary g') ->
        f64_le (gateway_cost g) (gateway_cost g')
  | None => forall id g, gateways t !! id = Some g -> hint ∉ cs_reachable_hints (cell_summary g)
  end.
Proof.
  intros Hok. unfold best_gateway_for_hint.
  assert (forall g, g ∈ gateways_for_hint hint t <->
    hint ∈ cs_reachable_hints (cell_summary g) /\ exists id, gateways t !! id = Some g) as Hin.
  { intros g. unfold gateways_for_hint. by rewrite list_elem_of_filter, elem_of_gateway_values. }
  destruct (min_by by_cost (gateways_for_hint hint t)) as [g|] eqn:Hm.
  - apply (min_by_minimum by_cost (f64_le_by gateway_cost)) in Hm as [Hg Hall].
    + apply Hin in Hg as [Hh Hid]. split_and!; [done..|]. intros id g' Hg' Hh'. rewrite Forall_forall in Hall.
      apply Hall, Hin. eauto.
    + intros a b [_ [i Ha]]%Hin [_ [j Hb]]%Hin. apply cmp_or_equal_spec; apply gateway_cost_number; by eapply Hok.
  - apply min_by_None in Hm. intros id g Hg Hh. assert (g ∈ gateways_for_hint hint t) as Hx by (apply Hin; eauto).
    rewrite Hm in Hx. set_solver.
Qed.

(** Deduplication keeps a summary for every set of hints, under its own hints. *)
Lemma dedup_keys l m k x :
  (forall k x, m !! k = Some x -> ns_hints x = k) -> foldl dedup_step m l !! k = Some x ->
  ns_hints x = k /\ (x ∈ l \/ m !! k = Some x).
Proof.
  revert m. induction l as [|s l IH]; intros m Hm; cbn [foldl]; [eauto|]. intros Hk.
  assert (forall k x, dedup_step m s !! k = Some x -> ns_hints x = k /\ (x = s \/ m !! k = Some x)) as Hstep.
  { intros k' x'. unfold dedup_step. destruct (m !! ns_hints s) eqn:Hs; try case_if; eauto;
      (destruct (decide (ns_hints s = k')) as [ <- |Hne]; [rewrite lookup_insert_eq; intros [= <-]; auto|
       rewrite lookup_insert_ne by done; eauto]). }
  apply IH in Hk as [Hx [Hin|Hin]]; [split; [done|]; left; by right| |by intros ? ? [? _]%Hstep].
  apply Hstep in Hin as [_ [ -> |Hin]]; split; auto. left. by left.
Qed.

Lemma elem_of_rebuild t s : s ∈ summaries (rebuild_summaries t) -> s ∈ summaries t.
Proof.
  cbn. rewrite list_elem_of_fmap. intros ([k x] & -> & Hin%elem_of_hm_iter).
  apply dedup_keys in Hin as [_ [Hin|Hin]]; [done|by rewrite lookup_empty in Hin|]. intros *. by rewrite lookup_empty.
Qed.

Lemma NoDup_rebuild t : NoDup (map ns_hints (summaries (rebuild_summaries t))).
Proof.
  cbn. rewrite map_map. set (m := foldl dedup_step ∅ (summaries t)).
  replace (map (fun x => ns_hints x.2) (hm_iter m)) with ((hm_iter m).*1); [apply NoDup_hm_keys|].
  apply list_fmap_ext. intros i [k x] Hi. apply list_elem_of_lookup_2, elem_of_hm_iter in Hi. cbn.
  apply dedup_keys in Hi as [? _]; [done|]. intros *; by rewrite lookup_empty.
Qed.

Lemma rebuild_ok t :
  map_Forall (gateway_ok t) (gateways t) -> Z.of_nat (size (gateways t)) <= max_gateways t -> 0 <= max_gateways t ->
  summaries_bounded t -> table_ok (rebuild_summaries t).
Proof.
  intros Hg Hsz H0 Hb. split_and!; [done..| |apply NoDup_rebuild].
  unfold summaries_bounded in *. rewrite Forall_forall in *. intros s Hs%elem_of_rebuild. by apply Hb.
Qed.

Lemma evict_stalest_spec t :
  map_Forall (gateway_ok t) (gateways t) -> gateways t <> ∅ ->
  exists id, is_Some (gateways t !! id) /\ evict_stalest_gateway t = Ok (set_gateways (delete id (gateways t)) t).
Proof.
  intros Hok Hne. unfold evict_stalest_gateway. rewrite bool_decide_false by done.
  destruct (min_by by_updated (gateway_values t)) as [g|] eqn:Hm.
  - apply min_by_Some, elem_of_gateway_values in Hm as [id Hg]. exists id. split; [by eexists|].
    by destruct (Hok _ _ Hg) as [-> _].
  - apply min_by_None in Hm. destruct Hne. unfold gateway_values in Hm. apply fmap_nil_inv in Hm.
    apply map_to_list_empty_iff, Permutation_nil. by rewrite <-hm_iter_perm, Hm.
Qed.

Lemma update_gateway_ok now id s hops tr e t :
  table_ok t -> 0 <= hops -> exists t', update_gateway_with_energy now id s hops tr e t = Ok t' /\ table_ok t' /\
    max_hops t' = max_hops t /\ max_gateways t' = max_gateways t.
Proof.
  intros (Hg & Hsz & H0 & Hb & Hnd) Hh. unfold update_gateway_with_energy. destruct (Z.ltb_spec (max_hops t) hops) as [Hlt|Hle].
  { eexists. split; [done|]. by split_and!. }
  cbn -[Z.of_nat size evict_stalest_gateway rebuild_summaries]. set (m := <[id := _]> (gateways t)).
  assert (map_Forall (gateway_ok t) m) as Hgm by (apply map_Forall_insert_2; done).
  assert (Z.of_nat (size m) <= max_gateways t + 1) as Hsm.
  { unfold m. rewrite map_size_insert. destruct (gateways t !! id); unfold Datatypes.id; lia. }
  destruct (Z.ltb_spec (max_gateways t) (Z.of_nat (size m))).
  - destruct (evict_stalest_spec (set_gateways m t)) as (i & [x Hx] & ->); [done| |].
    { cbn. intros Hm. rewrite Hm, map_size_empty in *. lia. }
    cbn [rbind]. eexists. split; [done|]. split; [|done]. apply rebuild_ok; cbn; [by apply map_Forall_delete| |done..].
    rewrite map_size_delete. cbn in Hx. rewrite Hx. cbn. lia.
  - cbn [rbind]. eexists. split; [done|]. split; [|done]. by apply rebuild_ok.
Qed.

Lemma learn_ok ts t s t' :
  summaries_bounded t -> 0 <= hop_count s -> learn ts t s = Ok t' ->
  summaries_bounded t' /\ gateways t' = gateways t /\ max_hops t' = max_hops t /\ max_gateways t' = max_gateways t.
Proof.
  intros Hb Hs. unfold learn. intros (h & Hh & Hr)%rbind_ok_inv.
  assert ((if overflow_checks then 1 else 0) <= h) as Hlo.
  { pose proof Hh as Hu%chk_u_range; [|lia]. unfold in_u in Hu. unfold chk_u in Hh. destruct overflow_checks; [|lia].
    destruct (_ && _); [|done]. simplify_eq. lia. }
  destruct (Z.leb_spec h (max_hops t)); [|by simplify_eq].
  assert ((if overflow_checks then 1 else 0) <= hop_count (adopt s h ts) <= max_hops t) as Hnew by (cbn; lia).
  unfold summaries_bounded in *.
  destruct (list_find _ _) as [[i x]|]; [destruct (_ <? _)|]; simplify_eq; split_and!; try done; cbn.
  - by apply Forall_insert.
  - by apply Forall_app_2; [|constructor].
Qed.

Lemma retain_res_sub {A} (keep : A -> res string bool) l r :
  retain_res keep l = Ok r -> r `sublist_of` l /\ forall x, x ∈ r <-> x ∈ l /\ keep x = Ok true.
Proof.
  unfold retain_res. enough (forall acc, rfold (fun acc x => let! b := keep x in Ok (if b then acc ++ [x] else acc)) acc l = Ok r ->
    exists r', r = acc ++ r' /\ r' `sublist_of` l /\ forall x, x ∈ r' <-> x ∈ l /\ keep x = Ok true) as Hgen.
  { intros (r' & -> & ? & ?)%Hgen. done. }
  induction l as [|x l IH]; intros acc; cbn [rfold].
  { intros [= <-]. exists []. rewrite app_nil_r. split_and!; [done..|set_solver]. }
  intros (acc1 & (b & Hk & [= <-])%rbind_ok_inv & (r' & -> & Hsub & Hin)%IH)%rbind_ok_inv. destruct b.
  - exists (x :: r'). rewrite <-app_assoc. split_and!; [done|by apply sublist_skip|]. intros y. rewrite !elem_of_cons, Hin.
    naive_solver.
  - exists r'. split_and!; [done|by apply sublist_cons|]. intros y. rewrite elem_of_cons, Hin.
    split; [tauto|]. intros [[ -> |] ?]; [congruence|done].
Qed.

Lemma retain_res_ok {A} (keep : A -> res string bool) (f : A -> bool) l :
  Forall (fun x => keep x = Ok (f x)) l -> retain_res keep l = Ok (filter (fun x => f x = true) l).
Proof.
  unfold retain_res. intros Hall.
  enough (forall acc, rfold (fun acc x => let! b := keep x in Ok (if b then acc ++ [x] else acc)) acc l =
    Ok (acc ++ filter (fun x => f x = true) l)) as Hgen by apply Hgen.
  induction Hall as [|x l Hx Hl IH]; intros acc; cbn [rfold]; [by rewrite app_nil_r|].
  rewrite Hx. cbn [rbind]. rewrite IH, filter_cons. destruct (f x); cbn; [by rewrite <-app_assoc|done].
Qed.

Definition kept_gateways (now : Z) (t : NeighborhoodTable) : gmap PeerId GatewayInfo :=
  filter (fun kv => now - last_updated kv.2 <= max_staleness t) (gateways t).

Lemma list_to_map_filter_iter (P : PeerId * GatewayInfo -> Prop) `{forall x, Decision (P x)} (m : gmap PeerId GatewayInfo) :
  list_to_map (filter P (hm_iter m)) = filter P m.
Proof.
  apply map_eq. intros i. apply option_eq. intros x. rewrite map_lookup_filter_Some.
  rewrite <-elem_of_list_to_map.
  - rewrite list_elem_of_filter, elem_of_hm_iter. tauto.
  - eapply sublist_NoDup; [apply NoDup_hm_keys|]. apply fmap_sublist, sublist_filter.
Qed.

(** With timestamps that are not ahead of the clock, a cleanup keeps exactly the gateways
    and summaries that are not too old and reports how many gateways it removed. *)
Theorem cleanup_exact now t :
  map_Forall (fun _ g => in_u 64 (now - last_updated g)) (gateways t) ->
  Forall (fun s => in_u 64 (now - ns_timestamp s)) (summaries t) ->
  table_cleanup now t =
  Ok (set_summaries (filter (fun s => now - ns_timestamp s <= max_staleness t) (summaries t))
        (set_gateways (kept_gateways now t) t),
      Z.of_nat (size (gateways t)) - Z.of_nat (size (kept_gateways now t))).
Proof.
  intros Hg Hs. unfold table_cleanup.
  assert (forall ts, in_u 64 (now - ts) -> fresh now t ts = Ok (bool_decide (now - ts <= max_staleness t))) as Hf.
  { intros ts Hts. unfold fresh. rewrite chk_u_ok by done. cbn. f_equal.
    case_bool_decide; [by apply Z.leb_le|apply Z.leb_gt; lia]. }
  rewrite (retain_res_ok _ (fun kv => bool_decide (now - last_updated kv.2 <= max_staleness t))).
  2:{ apply Forall_forall. intros [id g] Hin%elem_of_hm_iter. apply Hf. by eapply Hg. }
  cbn [rbind]. rewrite (retain_res_ok _ (fun s => bool_decide (now - ns_timestamp s <= max_staleness t))).
  2:{ eapply Forall_impl; [exact Hs|]. intros s. apply Hf. }
  cbn [rbind]. rewrite list_to_map_filter_iter. unfold kept_gateways.
  assert (forall (m : gmap PeerId GatewayInfo), filter (fun kv => bool_decide (now - last_updated kv.2 <= max_staleness t) = true) m =
    filter (fun kv => now - last_updated kv.2 <= max_staleness t) m) as Hm.
  { intros m. apply map_filter_ext. intros. by rewrite bool_decide_eq_true. }
  cbn [set_gateways gateways summaries set_summaries]. rewrite Hm. do 3 f_equal.
  apply list_filter_iff. intros s. by rewrite bool_decide_eq_true.
Qed.

(** The operations that change the table. *)
Inductive TableOp : Type :=
| OpGatewayInfo (now : Z) (id : PeerId) (s : CellSummary) (hops : Z) (tr : TransportType) (e : EnergyClass)
| OpGossip (now : Z) (from : PeerId) (g : NeighborhoodGossip)
| OpCleanup (now : Z).

Definition run_table (t : NeighborhoodTable) (op : TableOp) : res string NeighborhoodTable :=
  match op with
  | OpGatewayInfo now id s hops tr e => update_gateway_with_energy now id s hops tr e t
  | OpGossip now from g => process_gossip now from g t
  | OpCleanup now => let! r := table_cleanup now t in Ok r.1
  end.

(** Hop counts arrive as bytes. *)
Definition op_typed (op : TableOp) : Prop :=
  match op with
  | OpGatewayInfo _ _ _ hops _ _ => in_u 8 hops
  | OpGossip _ _ g => Forall (fun s => in_u 8 (hop_count s)) (neighborhood_summaries g)
  | OpCleanup _ => True
  end.

Lemma learn_all_ok ts l t t' :
  summaries_bounded t -> Forall (fun s => in_u 8 (hop_count s)) l -> rfold (learn ts) t l = Ok t' ->
  summaries_bounded t' /\ gateways t' = gateways t /\ max_hops t' = max_hops t /\ max_gateways t' = max_gateways t.
Proof.
  intros Hb Hl. revert t Hb. induction Hl as [|s l [Hs _] Hl IH]; intros t Hb; cbn [rfold].
  { by intros [= <-]. }
  intros (t1 & H1 & Hr)%rbind_ok_inv. destruct (learn_ok _ _ _ _ Hb Hs H1) as (Hb1 & Hg1 & Hm1 & Hx1).
  destruct (IH _ Hb1 Hr) as (? & ? & ? & ?). split_and!; congruence.
Qed.

Lemma run_table_ok t op t' :
  table_ok t -> op_typed op -> run_table t op = Ok t' ->
  table_ok t' /\ max_hops t' = max_hops t /\ max_gateways t' = max_gateways t.
Proof.
  intros Hok Hty. destruct op as [now id s hops tr e|now from g|now]; cbn [run_table op_typed] in *.
  - destruct (update_gateway_ok now id s hops tr e t Hok) as (t1 & -> & ?); [apply Hty|]. by intros [= <-].
  - unfold process_gossip, update_gateway.
    destruct (update_gateway_ok now from (local_summary g) 1 TCP energy_default t Hok) as (t1 & -> & Hok1 & Hm1 & Hx1); [lia|].
    cbn [rbind]. intros (t2 & H2 & [= <-])%rbind_ok_inv. destruct Hok1 as (Hg & Hsz & H0 & Hb & _).
    destruct (learn_all_ok _ _ _ _ Hb Hty H2) as (Hb2 & Hg2 & Hm2 & Hx2). split_and!; [|cbn; congruence..].
    apply rebuild_ok; rewrite ?Hg2, ?Hx2; [|done..]. unfold gateway_ok. by rewrite Hm2.
  - intros (r & Hr & [= <-])%rbind_ok_inv. unfold table_cleanup in Hr.
    apply rbind_ok_inv in Hr as (kept & Hk & (ks & Hks & [= <-])%rbind_ok_inv). cbn in *.
    apply retain_res_sub in Hk as [Hsub1 Hin1], Hks as [Hsub2 Hin2]. destruct Hok as (Hg & Hsz & H0 & Hb & Hnd).
    assert (NoDup kept.*1) as Hndk by (eapply sublist_NoDup; [apply NoDup_hm_keys|by apply fmap_sublist]).
    assert ((list_to_map kept : gmap PeerId GatewayInfo) ⊆ gateways t) as Hss.
    { apply map_subseteq_spec. intros i x Hx%elem_of_list_to_map_2. apply Hin1 in Hx as [Hx%elem_of_hm_iter _]. done. }
    split; [|done]. split_and!; cbn; try done.
    + intros i x Hx. eapply Hg, lookup_weaken; done.
    + apply map_subseteq_size in Hss. lia.
    + unfold summaries_bounded in *. cbn. rewrite Forall_forall in *. intros s [? _]%Hin2. by apply Hb.
    + eapply sublist_NoDup; [done|]. by apply fmap_sublist.
Qed.

(** Whatever the node is told, the table holds at most 100 gateways and one summary per set
    of hints, none of them more than four hops away. *)
Theorem table_invariant ops t :
  Forall op_typed ops -> rfold run_table table_new ops = Ok t ->
  gateway_count t <= 100 /\ map_Forall (fun id g => gateway_id g = id /\ 0 <= hops_away g <= 4) (gateways t) /\
  Forall (fun s => (if overflow_checks then 1 else 0) <= hop_count s <= 4) (summaries t) /\
  NoDup (map ns_hints (summaries t)).
Proof.
  intros Hty Hr.
  assert (table_ok table_new) as H0 by (split_and!; [done..|constructor|constructor]).
  enough (table_ok t /\ max_hops t = 4 /\ max_gateways t = 100) as ((Hg & Hsz & _ & Hb & Hnd) & Hm & Hx).
  { unfold gateway_ok, summaries_bounded in *. rewrite Hm in *. rewrite Hx in *. by split_and!. }
  change 4 with (max_hops table_new). change 100 with (max_gateways table_new).
  revert Hr H0. generalize table_new. induction Hty as [|op ops Hop Hty IH]; intros t0 Hr H0; cbn [rfold] in Hr.
  - by injection Hr as <-.
  - apply rbind_ok_inv in Hr as (t1 & H1 & Hr). destruct (run_table_ok _ _ _ H0 Hop H1) as (Hok1 & <- & <-). by apply IH.
Qed.

(** The first gossip message, with one summary. *)
Lemma first_gossip now from g s h :
  neighborhood_summaries g = [s] -> @chk_u _ string 8 (hop_count s + 1) = Ok h -> h <= 4 ->
  process_gossip now from g table_new =
  Ok (mkTable {[from := mkGateway from (local_summary g) 1 now TCP High]} [adopt s h (gossip_timestamp g)] 3600 100 4).
Proof.
  intros Hg Hh Hle. unfold process_gossip, update_gateway, update_gateway_with_energy. 
  change (max_hops table_new <? 1) with false. change (gateways table_new) with (∅ : gmap PeerId GatewayInfo).
  rewrite insert_empty. cbn [max_gateways set_gateways gateways]. rewrite map_size_singleton. change (max_gateways table_new <? Z.of_nat 1) with false. cbn [rbind].
  assert (forall k s, hm_iter ({[k := s]} : gmap (list Hint) NeighborhoodSummary) = [(k, s)]) as Hone.
  { intros k x. apply Permutation_singleton_r. by rewrite hm_iter_perm, map_to_list_singleton. }
  assert (hm_iter (∅ : gmap (list Hint) NeighborhoodSummary) = []) as Hnone.
  { apply Permutation_nil_r. by rewrite hm_iter_perm, map_to_list_empty. }
  assert (forall m, rebuild_summaries (set_gateways m table_new) = set_gateways m table_new) as ->.
  { intros m. unfold rebuild_summaries. cbn [summaries set_gateways table_new foldl]. by rewrite Hnone. }
  rewrite Hg. cbn [rfold]. unfold learn. rewrite Hh. cbn [rbind]. change (max_hops (set_gateways _ table_new)) with 4.
  rewrite (proj2 (Z.leb_le h 4)) by done. cbn [list_find summaries set_gateways table_new rbind].
  unfold rebuild_summaries, dedup_step. cbn [summaries foldl set_summaries app gateways].
  rewrite lookup_empty, insert_empty, Hone. done.
Qed.

(** A neighbour that claims a summary 255 hops away: with overflow checks the node panics;
    without, it stores the summary as its own cell's, no hop away. *)
Theorem gossip_hop_wrap now from g s :
  neighborhood_summaries g = [s] -> hop_count s = 255 ->
  if overflow_checks then process_gossip now from g table_new = Panic
  else exists t, process_gossip now from g table_new = Ok t /\ summaries t = [adopt s 0 (gossip_timestamp g)].
Proof.
  intros Hg Hs. destruct overflow_checks eqn:Hoc.
  - unfold process_gossip, update_gateway.
    destruct (update_gateway_with_energy now from (local_summary g) 1 TCP energy_default table_new) as [t| |] eqn:Hu; cbn [rbind].
    + rewrite Hg. cbn [rfold]. unfold learn, chk_u. by rewrite Hs, Hoc.
    + exfalso. revert Hu. unfold update_gateway_with_energy. repeat case_if; try done. unfold evict_stalest_gateway.
      repeat case_match; done.
    + done.
  - erewrite (first_gossip _ _ _ s 0); [by eexists|done| |lia]. rewrite Hs. unfold chk_u. by rewrite Hoc.
Qed.

(** One gossip message with a timestamp ahead of the clock: with overflow checks the
    cleanups before that time panic; without, the summary is dropped as too old. *)
Theorem gossip_future now from g s later :
  neighborhood_summaries g = [s] -> 0 <= hop_count s < 4 -> 0 <= now <= later -> later < now + 3600 ->
  later < gossip_timestamp g < later + 2 ^ 63 -> later < 2 ^ 63 ->
  exists t, process_gossip now from g table_new = Ok t /\ summary_count t = 1 /\
  if overflow_checks then table_cleanup later t = Panic
  else exists t', table_cleanup later t = Ok (t', 0) /\ summary_count t' = 0.
Proof.
  intros Hg Hs Hn Hl Hts H63. rewrite (first_gossip _ _ _ s (hop_count s + 1)); [|done|apply chk_u_ok; unfold in_u; lia|lia].
  eexists. split; [done|]. split; [done|]. unfold table_cleanup. cbn [gateways summaries set_gateways].
  assert (forall k x, hm_iter ({[k := x]} : gmap PeerId GatewayInfo) = [(k, x)]) as Hone.
  { intros k x. apply Permutation_singleton_r. by rewrite hm_iter_perm, map_to_list_singleton. }
  rewrite Hone, (retain_res_ok _ (fun _ => true)).
  2:{ constructor; [|constructor]. unfold fresh. cbn [snd last_updated]. rewrite chk_u_ok by (unfold in_u; lia).
      cbn [rbind max_staleness]. by rewrite (proj2 (Z.leb_le (later - now) 3600)) by lia. }
  cbn [rbind]. rewrite filter_id by (by repeat constructor). cbn [list_to_map foldr fst snd].
  rewrite insert_empty. unfold retain_res, fresh, chk_u. cbn [rfold ns_timestamp adopt].
  rewrite (proj2 (Z.leb_gt 0 (later - gossip_timestamp g))) by lia. cbn [andb].
  destruct overflow_checks; [done|]. cbn [rbind max_staleness].
  assert ((later - gossip_timestamp g) mod 2 ^ 64 = 2 ^ 64 - (gossip_timestamp g - later)) as ->.
  { symmetry. apply (Z.mod_unique _ _ (-1)); lia. }
  rewrite (proj2 (Z.leb_gt _ 3600)) by lia. cbn [rbind]. eexists.
  split; [do 2 f_equal; cbn [gateways set_gateways set_summaries]; by rewrite !map_size_singleton|done].
Qed.

(** Gossip from a known gateway overwrites its transport and its energy class, whatever
    was known before and whatever the message says. *)
Theorem gossip_resets_gateway now from g t t' old :
  gateways t !! from = Some old -> gateway_count t <= max_gateways t -> 1 <= max_hops t ->
  process_gossip now from g t = Ok t' ->
  exists gw, gateways t' !! from = Some gw /\ gw_transport gw = TCP /\ gw_energy gw = High /\ last_updated gw = now.
Proof.
  intros Hold Hsz Hm. unfold process_gossip, update_gateway, update_gateway_with_energy.
  rewrite (proj2 (Z.ltb_ge (max_hops t) 1) Hm). cbn [max_gateways set_gateways gateways].
  rewrite map_size_insert, Hold. unfold gateway_count in Hsz. unfold Datatypes.id.
  rewrite (proj2 (Z.ltb_ge (max_gateways t) _) Hsz). cbn [rbind].
  intros (t2 & H2 & [= <-])%rbind_ok_inv. cbn.
  assert (forall l t t', rfold (learn (gossip_timestamp g)) t l = Ok t' -> gateways t' = gateways t) as Hgw.
  { clear. induction l as [|s l IH]; intros t t'; cbn [rfold]; [by intros [= <-]|].
    intros (t1 & H1 & ->%IH)%rbind_ok_inv. unfold learn in H1. apply rbind_ok_inv in H1 as (h & _ & H1).
    repeat case_match; by simplify_eq. }
  rewrite (Hgw _ _ _ H2). cbn. rewrite lookup_insert_eq. by eexists.
Qed.
End TableProofs.

(** ** Examples *)

Module NeighborhoodExamples.
#[local] Instance nb_build : Build := {| overflow_checks := false |}.
#[local] Instance nb_gateways : HashIter PeerId GatewayInfo := canonical_iter.
#[local] Instance nb_summaries : HashIter (list Hint) NeighborhoodSummary := canonical_iter.

Definition gw : PeerId := [Byte.x01].
Definition hint : Hint := [Byte.x0a; Byte.x0b; Byte.x0c; Byte.x0d].
Definition cell : CellSummary := mkSummary 3 1 [hint] (lit 9 10) 1000.
Definition gossip (hops timestamp : Z) : NeighborhoodGossip :=
  mkGossip cell [mkNSummary 3 [hint] (lit 9 10) hops timestamp] timestamp Charging.
Definition one_gateway : NeighborhoodTable :=
  set_gateways {[gw := mkGateway gw cell 2 1000 BLE Charging]} table_new.

Lemma best_gateway_least_witness :
  best_gateway_for_hint hint one_gateway = Some (mkGateway gw cell 2 1000 BLE Charging) /\
  forall id g', gateways one_gateway !! id = Some g' -> hint ∈ cs_reachable_hints (cell_summary g') ->
    f64_le (gateway_cost (mkGateway gw cell 2 1000 BLE Charging)) (gateway_cost g').
Proof.
  pose proof (best_gateway_least hint one_gateway) as Hb.
  replace (best_gateway_for_hint hint one_gateway) with (Some (mkGateway gw cell 2 1000 BLE Charging)) in * by (by vm_compute).
  split; [done|]. apply Hb. by apply map_Forall_singleton.
Defined.

Lemma cleanup_exact_witness : is_ok (table_cleanup 4601 one_gateway) = true /\ kept_gateways 4601 one_gateway = ∅.
Proof.
  split; [|by apply map_empty; intros i; vm_compute; destruct i].
  rewrite (cleanup_exact 4601 one_gateway); [done| |by constructor]. by apply map_Forall_singleton.
Defined.

Lemma table_invariant_witness :
  exists t, rfold run_table table_new [OpGossip 1000 gw (gossip 1 1000); OpCleanup 1500] = Ok t /\ gateway_count t <= 100.
Proof.
  destruct (rfold run_table table_new [OpGossip 1000 gw (gossip 1 1000); OpCleanup 1500]) as [t| |] eqn:Hr.
  - exists t. split; [done|]. apply (table_invariant _ t) in Hr; [apply Hr|]. repeat constructor; done.
  - exfalso. apply (f_equal is_ok) in Hr. by vm_compute in Hr.
  - exfalso. apply (f_equal is_ok) in Hr. by vm_compute in Hr.
Defined.

Lemma gossip_hop_wrap_witness :
  exists t, process_gossip 1000 gw (gossip 255 1000) table_new = Ok t /\ map hop_count (summaries t) = [0].
Proof.
  destruct (gossip_hop_wrap 1000 gw (gossip 255 1000) _ eq_refl eq_refl) as (t & Ht & Hs). exists t. split; [done|].
  by rewrite Hs.
Defined.

Lemma gossip_future_witness :
  exists t, process_gossip 1000 gw (gossip 1 5000) table_new = Ok t /\ summary_count t = 1 /\
  exists t', table_cleanup 2000 t = Ok (t', 0) /\ summary_count t' = 0.
Proof. refine (gossip_future 1000 gw (gossip 1 5000) _ 2000 eq_refl _ _ _ _ _); cbn; lia. Defined.

Lemma gossip_resets_gateway_witness :
  exists t' g, process_gossip 1200 gw (gossip 1 1200) one_gateway = Ok t' /\ gateways t' !! gw = Some g /\
    gw_transport g = TCP /\ gw_energy g = High /\ last_updated g = 1200.
Proof.
  destruct (process_gossip 1200 gw (gossip 1 1200) one_gateway) as [t'| |] eqn:Hp;
    [|by apply (f_equal is_ok) in Hp; vm_compute in Hp..].
  exists t'. apply (gossip_resets_gateway _ _ _ _ _ (mkGateway gw cell 2 1000 BLE Charging)) in Hp as (g & ?); [by exists g|done..].
Defined.
End NeighborhoodExamples.
