(* ===== verification/GlobalRoutes.v ===== *)
(** * Global routes ([core/src/routing/global.rs])

    The third routing layer: route advertisements, a few per destination, with sequence
    numbers and expiry, and the pending route requests. *)

From Stdlib Require Import SpecFloat.
From S2P Require Import Prelude Floats LocalCell.

Record RouteAdvertisement : Type := mkRoute {
  destination_hint : Hint;
  next_hop : PeerId;
  ra_hop_count : Z;
  reliability : f64;
  last_confirmed : Z;
  sequence : Z;
  ttl : Z;
}.

#[global] Instance route_eq_dec : EqDecision RouteAdvertisement.
Proof. solve_decision. Defined.

Record RouteRequest : Type := mkRequest {
  rq_hint : Hint;
  requested_at : Z;
  attempts : Z;
  max_attempts : Z;
}.

Record GlobalRoutes : Type := mkRoutes {
  routes : gmap Hint (list RouteAdvertisement);
  max_routes_per_hint : Z;
  max_total_routes : Z;
  local_advertisements : list RouteAdvertisement;
  pending_requests : gmap Hint RouteRequest;
}.

Definition set_routes (m : gmap Hint (list RouteAdvertisement)) (g : GlobalRoutes) : GlobalRoutes :=
  mkRoutes m (max_routes_per_hint g) (max_total_routes g) (local_advertisements g) (pending_requests g).
Definition set_local (l : list RouteAdvertisement) (g : GlobalRoutes) : GlobalRoutes :=
  mkRoutes (routes g) (max_routes_per_hint g) (max_total_routes g) l (pending_requests g).
Definition set_pending (m : gmap Hint RouteRequest) (g : GlobalRoutes) : GlobalRoutes :=
  mkRoutes (routes g) (max_routes_per_hint g) (max_total_routes g) (local_advertisements g) m.

Definition routes_new : GlobalRoutes := mkRoutes ∅ 3 10000 [] ∅.
Definition with_limits (per_hint total : Z) : GlobalRoutes := mkRoutes ∅ per_hint total [] ∅.

(** [sort_by] on a slice of at most twenty elements: each element moves left while it is less
    than its neighbour. *)
Fixpoint shift_left {A} (cmp : A -> A -> comparison) (x : A) (sorted_rev : list A) : list A :=
  match sorted_rev with
  | [] => [x]
  | y :: l => match cmp x y with Lt => y :: shift_left cmp x l | _ => x :: y :: l end
  end.

Definition insertion_sort {A} (cmp : A -> A -> comparison) (l : list A) : list A :=
  reverse (foldl (fun acc x => shift_left cmp x acc) [] l).

(** Differences of at most 0.01 do not count. *)
Definition close (a b : f64) : bool := negb (SFltb (lit 1 100) (SFabs (f64_sub a b))).

Definition worst_first (a b : RouteAdvertisement) : comparison :=
  if negb (ra_hop_count a =? ra_hop_count b) then ra_hop_count b ?= ra_hop_count a
  else if negb (close (reliability a) (reliability b)) then default Eq (SFcompare (reliability a) (reliability b))
  else last_confirmed a ?= last_confirmed b.

Definition better_than_worst (ad worst : RouteAdvertisement) : bool :=
  (ra_hop_count ad <? ra_hop_count worst)
  || ((ra_hop_count ad =? ra_hop_count worst) && SFltb (reliability worst) (reliability ad))
  || ((ra_hop_count ad =? ra_hop_count worst) && close (reliability ad) (reliability worst)
      && (last_confirmed worst <? last_confirmed ad)).

(** Fewest hops, then highest reliability, then most recently confirmed. *)
Definition better_first (a b : RouteAdvertisement) : comparison :=
  match ra_hop_count a ?= ra_hop_count b with
  | Eq => match SFcompare (reliability b) (reliability a) with
          | Some Eq | None => last_confirmed b ?= last_confirmed a
          | Some c => c
          end
  | c => c
  end.

Definition expired (now : Z) (r : RouteAdvertisement) : bool := ttl r <=? sat_sub now (last_confirmed r).

(** [retain] on the vector of every hint, dropping the hints that are left empty. *)
Definition retain_routes (keep : RouteAdvertisement -> bool) (m : gmap Hint (list RouteAdvertisement)) :
    gmap Hint (list RouteAdvertisement) :=
  filter (fun kv => kv.2 <> []) (filter (fun r => keep r = true) <$> m).

Section Routes.
Context {HR : HashIter Hint (list RouteAdvertisement)} {HP : HashIter Hint RouteRequest}.

Definition route_count (g : GlobalRoutes) : Z := foldl Z.add 0 (map (fun kv => zlen kv.2) (hm_iter (routes g))).

Definition add_route (ad : RouteAdvertisement) (g : GlobalRoutes) : res string (bool * GlobalRoutes) :=
  if max_total_routes g <=? route_count g then Ok (false, g)
  else
    let hint := destination_hint ad in
    let for_hint := default [] (routes g !! hint) in
    let put l := set_routes (<[hint := l]> (routes g)) g in
    match list_find (fun r => next_hop r = next_hop ad) for_hint with
    | Some (pos, existing) =>
        if sequence ad <=? sequence existing then Ok (false, put for_hint)
        else Ok (true, put (<[pos := ad]> for_hint))
    | None =>
        if max_routes_per_hint g <=? zlen for_hint then
          match insertion_sort worst_first for_hint with
          | [] => Panic
          | (worst :: rest) as sorted =>
              if better_than_worst ad worst then Ok (true, put (rest ++ [ad])) else Ok (false, put sorted)
          end
        else Ok (true, put (for_hint ++ [ad]))
    end.

Definition routes_for_hint (hint : Hint) (g : GlobalRoutes) : list RouteAdvertisement := default [] (routes g !! hint).

Definition best_route_for_hint (hint : Hint) (g : GlobalRoutes) : option RouteAdvertisement :=
  routes g !! hint ≫= min_by better_first.

Definition request_route (hint : Hint) (now : Z) (g : GlobalRoutes) : RouteRequest * GlobalRoutes :=
  let request := mkRequest hint now 0 5 in (request, set_pending (<[hint := request]> (pending_requests g)) g).

Definition is_route_pending (hint : Hint) (g : GlobalRoutes) : bool := bool_decide (is_Some (pending_requests g !! hint)).

Definition increment_route_request_attempts `{Build} (hint : Hint) (g : GlobalRoutes) : res string (bool * GlobalRoutes) :=
  match pending_requests g !! hint with
  | Some req =>
      let! n := chk_u 32 (attempts req + 1) in
      let req := mkRequest (rq_hint req) (requested_at req) n (max_attempts req) in
      Ok (n <? max_attempts req, set_pending (<[hint := req]> (pending_requests g)) g)
  | None => Ok (false, g)
  end.

Definition resolve_route_request (hint : Hint) (g : GlobalRoutes) : GlobalRoutes :=
  set_pending (delete hint (pending_requests g)) g.

Definition local_ad (id : PeerId) (now : Z) (hint : Hint) : RouteAdvertisement := mkRoute hint id 0 (lit 1 1) now 1 3600.

Definition update_local_advertisements (hints : list Hint) (id : PeerId) (now : Z) (g : GlobalRoutes) : GlobalRoutes :=
  set_local (map (local_ad id now) hints) g.

Definition get_advertisements (g : GlobalRoutes) : list RouteAdvertisement := local_advertisements g.

(** How many routes a predicate drops. *)
Definition count_dropped (keep : RouteAdvertisement -> bool) (g : GlobalRoutes) : Z :=
  foldl Z.add 0 (map (fun kv => zlen (filter (fun r => keep r = false) kv.2)) (hm_iter (routes g))).

Definition routes_cleanup (now : Z) (g : GlobalRoutes) : Z * GlobalRoutes :=
  let keep r := negb (expired now r) in
  let removed := count_dropped keep g in
  let g := set_routes (retain_routes keep (routes g)) g in
  (removed, set_pending (filter (fun kv => sat_sub now (requested_at kv.2) <= 300) (pending_requests g)) g).

Definition remove_routes_via (id : PeerId) (g : GlobalRoutes) : Z * GlobalRoutes :=
  let keep r := negb (bool_decide (next_hop r = id)) in
  (count_dropped keep g, set_routes (retain_routes keep (routes g)) g).

Definition has_route_for (hint : Hint) (g : GlobalRoutes) : bool :=
  match routes g !! hint with Some r => negb (bool_decide (r = [])) | None => false end.

Definition unique_destination_count (g : GlobalRoutes) : Z := Z.of_nat (size (routes g)).
Definition pending_request_count (g : GlobalRoutes) : Z := Z.of_nat (size (pending_requests g)).
Definition pending_list (g : GlobalRoutes) : list RouteRequest := (hm_iter (pending_requests g)).*2.
End Routes.

(** ** Counting *)

Definition total (f : list RouteAdvertisement -> Z) (m : gmap Hint (list RouteAdvertisement)) : Z :=
  foldr Z.add 0 (map (fun kv => f kv.2) (map_to_list m)).

Lemma foldl_add_foldr l : foldl Z.add 0 l = foldr Z.add 0 l.
Proof.
  enough (forall a, foldl Z.add a l = a + foldr Z.add 0 l) as Hg by (by rewrite Hg).
  induction l as [|x l IH]; intros a; cbn; [lia|]. rewrite IH. lia.
Qed.

Lemma sum_perm (l k : list Z) : l ≡ₚ k -> foldr Z.add 0 l = foldr Z.add 0 k.
Proof. induction 1; cbn; lia. Qed.

Lemma total_iter {HR : HashIter Hint (list RouteAdvertisement)} f m :
  foldl Z.add 0 (map (fun kv => f kv.2) (hm_iter m)) = total f m.
Proof. rewrite foldl_add_foldr. apply sum_perm. by rewrite hm_iter_perm. Qed.

Lemma total_insert_new f m k v : m !! k = None -> total f (<[k := v]> m) = f v + total f m.
Proof. intros Hk. unfold total. rewrite (sum_perm _ _ (Permutation_map _ (map_to_list_insert m k v Hk))). done. Qed.

Lemma total_delete f m k v : m !! k = Some v -> total f m = f v + total f (delete k m).
Proof. intros Hk. unfold total. by rewrite <-(sum_perm _ _ (Permutation_map _ (map_to_list_delete m k v Hk))). Qed.

Lemma total_insert f m k v : f [] = 0 -> total f (<[k := v]> m) = total f m + f v - f (default [] (m !! k)).
Proof.
  intros H0. destruct (m !! k) as [w|] eqn:Hk.
  - rewrite (total_delete f m k w Hk), <-insert_delete_eq, total_insert_new by apply lookup_delete_eq. cbn. lia.
  - rewrite total_insert_new by done. cbn. lia.
Qed.

Lemma total_nonneg m : 0 <= total zlen m.
Proof. unfold total. induction (map_to_list m) as [|[k v] l IH]; cbn; [lia|]. pose proof (zlen_nonneg v). lia. Qed.

Lemma filter_split keep (l : list RouteAdvertisement) :
  zlen (filter (fun r => keep r = true) l) + zlen (filter (fun r => keep r = false) l) = zlen l.
Proof.
  induction l as [|r l IH]; [done|]. rewrite !filter_cons.
  destruct (keep r); cbn [decide]; repeat (case_decide; try done); autorewrite with zlen; lia.
Qed.

Lemma lookup_retain keep m h l :
  retain_routes keep m !! h = Some l <-> l <> [] /\ exists l0, m !! h = Some l0 /\ l = filter (fun r => keep r = true) l0.
Proof.
  unfold retain_routes. rewrite map_lookup_filter_Some, lookup_fmap_Some. naive_solver.
Qed.

(** The routes kept and the routes dropped are all the routes. *)
Lemma retain_count keep m :
  total zlen (retain_routes keep m) + total (fun l => zlen (filter (fun r => keep r = false) l)) m = total zlen m.
Proof.
  induction m as [|h l m Hh IH] using map_ind; [done|]. rewrite !(total_insert_new _ m h l Hh).
  pose proof (filter_split keep l) as Hs. unfold retain_routes in *. rewrite fmap_insert.
  assert ((filter (fun r => keep r = true) <$> m) !! h = None) as Hn by (by rewrite lookup_fmap, Hh).
  destruct (decide (filter (fun r => keep r = true) l = [])) as [He|Hne].
  - rewrite map_filter_insert_False by (cbn; tauto). rewrite delete_id by done. rewrite He in Hs. change (zlen []) with 0 in Hs. lia.
  - rewrite map_filter_insert_True by done. rewrite total_insert_new; [lia|]. apply map_lookup_filter_None. by left.
Qed.

(** ** Invariant *)

Definition hint_ok (g : GlobalRoutes) (h : Hint) (l : list RouteAdvertisement) : Prop :=
  l <> [] /\ zlen l <= max_routes_per_hint g /\ NoDup (map next_hop l) /\ Forall (fun r => destination_hint r = h) l.

Definition routes_ok (g : GlobalRoutes) : Prop :=
  map_Forall (hint_ok g) (routes g) /\ total zlen (routes g) <= max_total_routes g.

Lemma shift_left_perm {A} (cmp : A -> A -> comparison) x l : shift_left cmp x l ≡ₚ x :: l.
Proof. induction l as [|y l IH]; cbn; [done|]. destruct (cmp x y); [done| |done]. rewrite IH. apply Permutation_swap. Qed.

Lemma insertion_sort_perm {A} (cmp : A -> A -> comparison) l : insertion_sort cmp l ≡ₚ l.
Proof.
  unfold insertion_sort. rewrite reverse_Permutation.
  enough (forall acc, foldl (fun acc x => shift_left cmp x acc) acc l ≡ₚ l ++ acc) as Hg by (by rewrite Hg, app_nil_r).
  induction l as [|x l IH]; intros acc; cbn; [done|]. rewrite IH, shift_left_perm. by rewrite Permutation_middle.
Qed.

Lemma hint_ok_perm g h l l' : l ≡ₚ l' -> hint_ok g h l -> hint_ok g h l'.
Proof.
  intros Hp (Hne & Hz & Hnd & Hall). split_and!.
  - intros ->. by apply Permutation_nil_r in Hp.
  - unfold zlen in *. by rewrite <-Hp.
  - by rewrite <-(Permutation_map next_hop Hp).
  - by rewrite <-Hp.
Qed.

Lemma retain_ok keep g : routes_ok g -> routes_ok (set_routes (retain_routes keep (routes g)) g).
Proof.
  intros [Hok Ht]. split; cbn.
  - intros h l (Hne & l0 & Hl0 & ->)%lookup_retain. destruct (Hok _ _ Hl0) as (_ & Hz & Hnd & Hall). split_and!; [done|..].
    + pose proof (filter_split keep l0). pose proof (zlen_nonneg (filter (fun r => keep r = false) l0)). cbn. lia.
    + eapply sublist_NoDup; [exact Hnd|]. apply fmap_sublist, sublist_filter.
    + apply Forall_forall. intros r [_ Hr]%list_elem_of_filter. by eapply Forall_forall in Hall.
  - pose proof (retain_count keep (routes g)) as Hc.
    enough (0 <= total (fun l => zlen (filter (fun r => keep r = false) l)) (routes g)) by lia.
    clear. unfold total. induction (map_to_list _) as [|[k v] l IH]; cbn [map foldr snd]; [lia|].
    pose proof (zlen_nonneg (filter (fun r => keep r = false) v)). lia.
Qed.

Lemma elem_of_insert_inv {A} (l : list A) i x y : x ∈ <[i := y]> l -> x = y \/ x ∈ l.
Proof.
  intros [j Hj]%list_elem_of_lookup_1. apply list_lookup_insert_Some in Hj as [(_ & <- & _)|[_ Hj]]; [by left|].
  right. by eapply list_elem_of_lookup_2.
Qed.

Section RouteProofs.
Context `{Build} {HR : HashIter Hint (list RouteAdvertisement)} {HP : HashIter Hint RouteRequest}.

Lemma route_count_total g : route_count g = total zlen (routes g).
Proof. apply total_iter. Qed.

Lemma put_ok g h l :
  routes_ok g -> hint_ok g h l -> total zlen (routes g) + zlen l - zlen (default [] (routes g !! h)) <= max_total_routes g ->
  routes_ok (set_routes (<[h := l]> (routes g)) g).
Proof.
  intros [Hok Ht] Hl Hle. split; cbn; [by apply map_Forall_insert_2|]. by rewrite total_insert by done.
Qed.

Lemma NoDup_map_replace (l : list RouteAdvertisement) i x y :
  l !! i = Some x -> next_hop y = next_hop x -> map next_hop (<[i := y]> l) = map next_hop l.
Proof.
  intros Hi Heq. change (map next_hop) with (fmap (M := list) next_hop). rewrite list_fmap_insert, Heq.
  apply list_insert_id. by rewrite list_lookup_fmap, Hi.
Qed.

(** What an advertisement does to the routes of its hint: [None] leaves the table as it is. *)
Lemma add_route_ok ad g :
  routes_ok g -> 1 <= max_routes_per_hint g -> exists b g', add_route ad g = Ok (b, g') /\ routes_ok g' /\
    max_routes_per_hint g' = max_routes_per_hint g /\ max_total_routes g' = max_total_routes g.
Proof.
  intros Hok Hmax. pose proof Hok as [Hall Ht]. unfold add_route. rewrite route_count_total.
  destruct (Z.leb_spec (max_total_routes g) (total zlen (routes g))) as [Hfull|Hroom]; [by exists false, g|].
  set (h := destination_hint ad). destruct (routes g !! h) as [l|] eqn:Hl; cbn [default id].
  2:{ cbn [list_find zlen length Z.of_nat]. rewrite (proj2 (Z.leb_gt _ _)) by (change (zlen (@nil RouteAdvertisement)) with 0; lia).
      do 2 eexists. split; [done|]. split; [|done]. apply put_ok; [done| |rewrite Hl; cbn [default id]; autorewrite with zlen; lia].
      split_and!; [done|autorewrite with zlen; lia|repeat constructor; set_solver|by constructor]. }
  pose proof (Hall _ _ Hl) as Hh. destruct (Hh) as (Hne & Hz & Hnd & Hdest).
  destruct (list_find (fun r => next_hop r = next_hop ad) l) as [[i r]|] eqn:Hf.
  - apply list_find_Some in Hf as (Hi & Heq & _).
    destruct (Z.leb_spec (sequence ad) (sequence r)); do 2 eexists; (split; [done|]); (split; [|done]).
    + by rewrite insert_id.
    + apply put_ok; [done| |rewrite Hl; cbn [default id]; unfold zlen; rewrite length_insert; unfold zlen in Ht; lia].
      split_and!.
      * intros Hn%(f_equal length). rewrite length_insert in Hn. by destruct l.
      * unfold zlen. rewrite length_insert. exact Hz.
      * by rewrite (NoDup_map_replace _ _ r).
      * by apply Forall_insert.
  - assert (next_hop ad ∉ map next_hop l) as Hnew.
    { intros (r & Heq & Hr)%list_elem_of_fmap. apply list_find_None in Hf. rewrite Forall_forall in Hf.
      by apply (Hf r). }
    destruct (Z.leb_spec (max_routes_per_hint g) (zlen l)).
    + pose proof (insertion_sort_perm worst_first l) as Hp.
      destruct (insertion_sort worst_first l) as [|worst rest]; [by apply Permutation_nil_l in Hp|].
      assert (zlen l = 1 + zlen rest) as Hzl by (unfold zlen; rewrite <-Hp; cbn; lia).
      destruct (better_than_worst ad worst); do 2 eexists; (split; [done|]); (split; [|done]);
        (apply put_ok; [done| |rewrite Hl; cbn [default id]; autorewrite with zlen; lia]).
      * apply (hint_ok_perm g h (ad :: rest)); [by rewrite Permutation_app_comm|].
        rewrite <-Hp in Hnd, Hdest, Hnew. cbn [map] in Hnd, Hnew. apply NoDup_cons in Hnd as [_ Hnd]. apply Forall_cons in Hdest as [_ Hdest].
        split_and!; [done|autorewrite with zlen; lia| |by constructor]. cbn [map]. apply NoDup_cons. set_solver.
      * by apply (hint_ok_perm g h l).
    + do 2 eexists. split; [done|]. split; [|done].
      apply put_ok; [done| |rewrite Hl; cbn [default id]; autorewrite with zlen; lia].
      apply (hint_ok_perm g h (ad :: l)); [by rewrite Permutation_app_comm|].
      split_and!; [done|autorewrite with zlen; lia| |by constructor]. cbn [map]. by apply NoDup_cons.
Qed.

(** The operations that change the table of routes. *)
Inductive RouteOp : Type :=
| OpAdd (ad : RouteAdvertisement)
| OpCleanup (now : Z)
| OpVia (id : PeerId)
| OpRequest (hint : Hint) (now : Z)
| OpResolve (hint : Hint)
| OpLocal (hints : list Hint) (id : PeerId) (now : Z).

Definition run_routes (g : GlobalRoutes) (op : RouteOp) : res string GlobalRoutes :=
  match op with
  | OpAdd ad => let! r := add_route ad g in Ok r.2
  | OpCleanup now => Ok (routes_cleanup now g).2
  | OpVia id => Ok (remove_routes_via id g).2
  | OpRequest hint now => Ok (request_route hint now g).2
  | OpResolve hint => Ok (resolve_route_request hint g)
  | OpLocal hints id now => Ok (update_local_advertisements hints id now g)
  end.

(** No sequence of operations panics; every destination has at most three routes, through
    different peers and to itself, and there are at most 10,000 routes. *)
Theorem routes_invariant ops :
  exists g, rfold run_routes routes_new ops = Ok g /\ route_count g <= 10000 /\
    forall h l, routes g !! h = Some l ->
      l <> [] /\ zlen l <= 3 /\ NoDup (map next_hop l) /\ Forall (fun r => destination_hint r = h) l.
Proof.
  enough (forall g0, routes_ok g0 -> max_routes_per_hint g0 = 3 -> max_total_routes g0 = 10000 ->
    exists g, rfold run_routes g0 ops = Ok g /\ routes_ok g /\ max_routes_per_hint g = 3 /\ max_total_routes g = 10000) as Hgen.
  { destruct (Hgen routes_new) as (g & Hr & [Hok Ht] & Hm & Hx); [split; [apply map_Forall_empty|done]|done..|].
    exists g. rewrite route_count_total. split_and!; [done|lia|]. intros h l Hl. rewrite <-Hm. by apply Hok. }
  induction ops as [|op ops IH]; intros g0 Hok Hm Hx; cbn [rfold]; [by exists g0|].
  enough (exists g1, run_routes g0 op = Ok g1 /\ routes_ok g1 /\ max_routes_per_hint g1 = 3 /\ max_total_routes g1 = 10000)
    as (g1 & -> & Hok1 & Hm1 & Hx1) by (by apply IH).
  destruct op; cbn [run_routes]; try (by eexists; split_and!).
  - destruct (add_route_ok ad g0 Hok) as (b & g1 & -> & Hok1 & Hm1 & Hx1); [lia|]. exists g1. by rewrite Hm1, Hx1.
  - eexists. split; [done|]. split; [|done]. exact (retain_ok (fun r => negb (expired now r)) g0 Hok).
  - eexists. split; [done|]. split; [|done]. exact (retain_ok _ g0 Hok).
Qed.

(** Fewer hops; or as many, and more reliable; or as reliable, and confirmed no earlier. *)
Definition preferred (a b : RouteAdvertisement) : Prop :=
  ra_hop_count a < ra_hop_count b \/
  ra_hop_count a = ra_hop_count b /\
  (key_cmp (f64_key (reliability b)) (f64_key (reliability a)) = Lt \/
   f64_key (reliability a) = f64_key (reliability b) /\ last_confirmed b <= last_confirmed a).

#[local] Instance preferred_refl : Reflexive preferred.
Proof. intros a. right. split; [done|]. right. split; [done|lia]. Qed.

#[local] Instance preferred_trans : Transitive preferred.
Proof.
  intros a b c. unfold preferred. rewrite !key_cmp_Lt. intros [?|[? Hab]] [?|[? Hbc]]; try lia. right. split; [lia|].
  destruct Hab as [Hab|[Hab ?]], Hbc as [Hbc|[Hbc ?]].
  - left. lia.
  - left. by rewrite <-Hbc.
  - left. by rewrite Hab.
  - right. split; [congruence|lia].
Qed.

Lemma better_first_spec a b :
  is_nan (reliability a) = false -> is_nan (reliability b) = false ->
  (better_first a b = Gt -> preferred b a) /\ (better_first a b <> Gt -> preferred a b).
Proof.
  intros Ha Hb. unfold better_first, preferred. rewrite SFcompare_key by done.
  rewrite (key_cmp_antisym (f64_key (reliability a)) (f64_key (reliability b))).
  destruct (key_cmp _ _) eqn:Hk; cbn; [apply key_cmp_Eq in Hk| |];
    destruct (Z.compare_spec (ra_hop_count a) (ra_hop_count b)), (Z.compare_spec (last_confirmed b) (last_confirmed a));
    split; intros Hc; try done; try (left; lia); right; split; try lia; auto; right; split; lia || congruence.
Qed.

(** The best route for a destination is preferred to every other one, if no advertised
    reliability is a NaN. *)
Theorem best_route_preferred hint g r :
  Forall (fun r => is_nan (reliability r) = false) (routes_for_hint hint g) ->
  best_route_for_hint hint g = Some r ->
  r ∈ routes_for_hint hint g /\ Forall (preferred r) (routes_for_hint hint g).
Proof.
  unfold best_route_for_hint, routes_for_hint. destruct (routes g !! hint) as [l|]; [|done]. cbn [default mbind option_bind id].
  intros Hall Hm. apply (min_by_minimum better_first preferred) in Hm; [done|]. rewrite Forall_forall in Hall.
  intros a b Ha Hb. apply better_first_spec; auto.
Qed.

(** A cleanup keeps exactly the routes that have not expired, under their destinations, and
    counts the others. *)
Theorem routes_cleanup_exact now g removed g' :
  routes_cleanup now g = (removed, g') ->
  removed = route_count g - route_count g' /\
  forall h r, r ∈ routes_for_hint h g' <-> r ∈ routes_for_hint h g /\ last_confirmed r <= now < last_confirmed r + ttl r
    \/ r ∈ routes_for_hint h g /\ now < last_confirmed r /\ 0 < ttl r.
Proof.
  intros [= <- <-]. split.
  - rewrite !route_count_total. unfold count_dropped.
    rewrite (total_iter (fun l => zlen (filter (fun r => negb (expired now r) = false) l))). cbn [routes set_routes set_pending].
    pose proof (retain_count (fun r => negb (expired now r)) (routes g)) as Hc. cbn beta in Hc. lia.
  - intros h r. unfold routes_for_hint. cbn [routes set_routes set_pending].
    assert (negb (expired now r) = true <-> last_confirmed r <= now < last_confirmed r + ttl r \/ now < last_confirmed r /\ 0 < ttl r) as He.
    { unfold expired, sat_sub. rewrite negb_true_iff, Z.leb_gt. lia. }
    transitivity (exists l, routes g !! h = Some l /\ r ∈ l /\ negb (expired now r) = true).
    + destruct (retain_routes _ _ !! h) as [l'|] eqn:Hl'; cbn.
      * apply lookup_retain in Hl' as (_ & l & Hl & ->). rewrite list_elem_of_filter. split; [|naive_solver].
        intros [? ?]. by exists l.
      * split; [set_solver|]. intros (l & Hl & Hr & Hk). exfalso.
        assert (retain_routes (fun r => negb (expired now r)) (routes g) !! h =
          Some (filter (fun r => negb (expired now r) = true) l)) as Hx; [|congruence].
        apply lookup_retain. split; [|by exists l]. intros Hn.
        assert (r ∈ filter (fun r => negb (expired now r) = true) l) as Hin by (by apply list_elem_of_filter).
        rewrite Hn in Hin. set_solver.
    + destruct (routes g !! h) as [l|]; cbn; [|set_solver]. split; [intros (? & [= <-] & ? & ?%He); tauto|].
      intros Hor. exists l. split; [done|]. rewrite He. tauto.
Qed.

(** The sequence number of a held route never goes back. *)
Theorem add_route_sequence ad g b g' h r r' :
  routes_ok g -> add_route ad g = Ok (b, g') -> r ∈ routes_for_hint h g -> r' ∈ routes_for_hint h g' ->
  next_hop r' = next_hop r -> sequence r <= sequence r'.
Proof.
  intros [Hok _] Ha Hr Hr' Heq.
  assert (forall r1 r2, r1 ∈ routes_for_hint h g -> r2 ∈ routes_for_hint h g -> next_hop r1 = next_hop r2 -> r1 = r2) as Huniq.
  { intros r1 r2. unfold routes_for_hint. destruct (routes g !! h) as [l|] eqn:Hl; cbn [default id]; [|set_solver].
    destruct (Hok _ _ Hl) as (_ & _ & Hnd & _). intros [i H1]%list_elem_of_lookup_1 [j H2]%list_elem_of_lookup_1 Hn.
    assert (i = j) as ->; [|congruence]. eapply (NoDup_lookup _ i j); [exact Hnd| |].
    - change (map next_hop) with (fmap (M := list) next_hop). by rewrite list_lookup_fmap, H1.
    - change (map next_hop) with (fmap (M := list) next_hop). by rewrite list_lookup_fmap, H2, Hn. }
  enough (r' ∈ routes_for_hint h g \/ sequence r < sequence r') as [Hin|]; [|lia|].
  { by rewrite (Huniq r' r). }
  unfold add_route in Ha. destruct (_ <=? _) in Ha; [simplify_eq; by left|].
  set (h' := destination_hint ad) in Ha. set (l := default [] (routes g !! h')) in Ha.
  assert (h = h' -> routes_for_hint h g = l) as Hsame by (by intros ->).
  assert (forall lx, r' ∈ routes_for_hint h (set_routes (<[h' := lx]> (routes g)) g) -> r' ∈ routes_for_hint h g \/ h = h' /\ r' ∈ lx) as Hput.
  { intros lx. unfold routes_for_hint. cbn. destruct (decide (h' = h)) as [ -> |Hne]; [rewrite lookup_insert_eq; auto|].
    rewrite lookup_insert_ne by done. auto. }
  destruct (list_find (fun r => next_hop r = next_hop ad) l) as [[i e]|] eqn:Hf.
  - apply list_find_Some in Hf as (Hi & Hne & _). destruct (Z.leb_spec (sequence ad) (sequence e)); simplify_eq.
    + apply Hput in Hr' as [?|[Hh Hin]]; [by left|]. left. by rewrite (Hsame Hh).
    + apply Hput in Hr' as [?|[Hh Hin]]; [by left|]. apply elem_of_insert_inv in Hin as [ -> | Hin].
      * right. rewrite (Huniq r e); [done|done| |congruence]. rewrite (Hsame Hh). by eapply list_elem_of_lookup_2.
      * left. by rewrite (Hsame Hh).
  - assert (h = h' -> r' <> ad) as Hnew.
    { intros Hh ->. apply list_find_None in Hf. rewrite Forall_forall in Hf. apply (Hf r); [by rewrite <-(Hsame Hh)|done]. }
    assert (forall lx, (forall x, x ∈ lx -> x ∈ l \/ x = ad) -> r' ∈ routes_for_hint h (set_routes (<[h' := lx]> (routes g)) g) ->
      r' ∈ routes_for_hint h g) as Hp2.
    { intros lx Hlx [?|[Hh [Hin| Hin]%Hlx]]%Hput; [done|by rewrite (Hsame Hh)|by destruct (Hnew Hh)]. }
    pose proof (insertion_sort_perm worst_first l) as Hperm.
    destruct (_ <=? _) in Ha.
    + destruct (insertion_sort worst_first l) as [|w rest]; [done|].
      destruct (better_than_worst ad w); simplify_eq; left; eapply Hp2; try exact Hr'; intros x.
      * rewrite elem_of_app, list_elem_of_singleton. intros [Hx| ->]; [left|by right]. rewrite <-Hperm. by right.
      * rewrite Hperm. auto.
    + simplify_eq. left. eapply Hp2; [|exact Hr']. intros x. rewrite elem_of_app, list_elem_of_singleton. auto.
Qed.

(** A full table refuses every advertisement, a newer version of a held route too. *)
Theorem full_table_refuses ad g : max_total_routes g <= route_count g -> add_route ad g = Ok (false, g).
Proof. intros Hf. unfold add_route. by rewrite (proj2 (Z.leb_le _ _)). Qed.

Definition readvertise (id : PeerId) (hint : Hint) (g : GlobalRoutes) (t : Z) : res string GlobalRoutes :=
  let! r := add_route (local_ad id t hint) g in Ok r.2.

(** A node's own advertisements all carry sequence number 1: a peer that holds one ignores
    every later one, so the route expires an hour after the first however often it is
    advertised again. *)
Theorem readvertising_expires id hint t0 times :
  0 <= t0 ->
  exists g1, add_route (local_ad id t0 hint) routes_new = Ok (true, g1) /\ has_route_for hint g1 = true /\
    rfold (readvertise id hint) g1 times = Ok g1 /\
    has_route_for hint (routes_cleanup (t0 + 3600) g1).2 = false.
Proof.
  intros H0. set (g1 := mkRoutes {[hint := [local_ad id t0 hint]]} 3 10000 [] ∅).
  assert (add_route (local_ad id t0 hint) routes_new = Ok (true, g1)) as Hadd.
  { unfold add_route. rewrite route_count_total. change (total zlen (routes routes_new)) with 0.
    change (max_total_routes routes_new <=? 0) with false. cbn [routes routes_new]. rewrite lookup_empty. cbn.
    by rewrite insert_empty. }
  exists g1. split; [done|]. split; [unfold has_route_for, g1; cbn [routes]; by rewrite lookup_singleton_eq|]. split.
  - induction times as [|t times IH]; cbn [rfold]; [done|]. unfold readvertise at 1, add_route. rewrite route_count_total.
    assert (total zlen (routes g1) = 1) as -> by (unfold total, g1; cbn [routes]; by rewrite map_to_list_singleton).
    cbn [max_total_routes g1]. rewrite (eq_refl : 10000 <=? 1 = false). cbn [destination_hint local_ad routes g1].
    rewrite lookup_singleton_eq. cbn [default Datatypes.id list_find next_hop]. rewrite decide_True by done.
    cbn [sequence local_ad Z.leb Z.compare rbind snd].
    rewrite insert_id by apply lookup_singleton_eq. exact IH.
  - unfold has_route_for. destruct (routes (routes_cleanup (t0 + 3600) g1).2 !! hint) as [l|] eqn:Hl; [|done].
    cbn [routes_cleanup snd routes set_routes set_pending] in Hl. apply lookup_retain in Hl as (Hne & l0 & Hl0 & ->).
    cbn [routes g1] in Hl0. rewrite lookup_singleton_eq in Hl0. injection Hl0 as <-. destruct Hne.
    cbn [filter list_filter]. unfold filter, list_filter. rewrite decide_False; [done|].
    unfold expired, sat_sub. cbn [ttl last_confirmed local_ad]. rewrite (proj2 (Z.leb_le _ _)) by lia. done.
Qed.
End RouteProofs.

(** ** Examples *)

Module GlobalRoutesExamples.
#[local] Instance gr_build : Build := {| overflow_checks := true |}.
#[local] Instance gr_routes : HashIter Hint (list RouteAdvertisement) := canonical_iter.
#[local] Instance gr_pending : HashIter Hint RouteRequest := canonical_iter.

Definition a : PeerId := [Byte.x01].
Definition b : PeerId := [Byte.x02].
Definition hint : Hint := [Byte.x0a; Byte.x0b; Byte.x0c; Byte.x0d].
Definition r1 : RouteAdvertisement := mkRoute hint a 2 (lit 9 10) 1000 1 3600.
Definition r2 : RouteAdvertisement := mkRoute hint b 2 (lit 95 100) 1000 1 3600.
Definition table : GlobalRoutes := set_routes {[hint := [r1; r2]]} routes_new.

Lemma best_route_preferred_witness :
  best_route_for_hint hint table = Some r2 /\ r2 ∈ routes_for_hint hint table /\ Forall (preferred r2) (routes_for_hint hint table).
Proof.
  split; [by vm_compute|]. apply (best_route_preferred hint table r2); [|by vm_compute].
  change (routes_for_hint hint table) with [r1; r2]. by repeat constructor.
Defined.

Lemma routes_cleanup_exact_witness :
  (routes_cleanup 4600 table).1 = 2 /\ (routes_cleanup 4600 table).1 = route_count table - route_count (routes_cleanup 4600 table).2.
Proof. split; [by vm_compute|]. apply (routes_cleanup_exact 4600 table _ _ (surjective_pairing _)). Defined.

Lemma add_route_sequence_witness :
  exists g', add_route (mkRoute hint a 1 (lit 1 2) 2000 2 3600) table = Ok (true, g') /\
    mkRoute hint a 1 (lit 1 2) 2000 2 3600 ∈ routes_for_hint hint g' /\ sequence r1 <= 2.
Proof.
  eexists. split; [reflexivity|]. split; [by vm_compute; left|].
  refine (add_route_sequence (mkRoute hint a 1 (lit 1 2) 2000 2 3600) table true _ hint r1
    (mkRoute hint a 1 (lit 1 2) 2000 2 3600) _ eq_refl _ _ eq_refl).
  - split; [|by vm_compute]. apply map_Forall_singleton. split_and!; [done|by vm_compute| |by repeat constructor].
    apply (bool_decide_unpack _). by vm_compute.
  - by vm_compute; left.
  - by vm_compute; left.
Defined.

Lemma full_table_refuses_witness :
  add_route (mkRoute hint a 1 (lit 1 2) 2000 2 3600) (mkRoutes {[hint := [r1; r2]]} 3 2 [] ∅) =
  Ok (false, mkRoutes {[hint := [r1; r2]]} 3 2 [] ∅).
Proof. apply full_table_refuses. by vm_compute. Defined.

Lemma readvertising_expires_witness :
  exists g1, add_route (local_ad a 1000 hint) routes_new = Ok (true, g1) /\ has_route_for hint g1 = true /\
    rfold (readvertise a hint) g1 [2000; 3000; 4000] = Ok g1 /\ has_route_for hint (routes_cleanup 4600 g1).2 = false.
Proof. apply (readvertising_expires a hint 1000 [2000; 3000; 4000]). lia. Defined.
End GlobalRoutesExamples.
