(* ===== verification/RoutingEngine.v ===== *)
(** * Routing engine ([core/src/routing/engine.rs])

    Where to send a message: the local cell first, then the neighborhood, then the global
    routes; otherwise the message is carried or a route is asked for. *)

From Stdlib Require Import SpecFloat.
From S2P Require Import Prelude Floats LocalCell Neighborhood GlobalRoutes.

Inductive NextHop : Type :=
| Direct (id : PeerId) (t : TransportType)
| Gateway (id : PeerId) (t : TransportType) (hops_remaining : Z)
| GlobalRoute (next_hop_id : PeerId) (total_hops : Z)
| StoreAndCarry
| RouteDiscovery (hint : Hint).

#[global] Instance next_hop_eq_dec : EqDecision NextHop.
Proof. solve_decision. Defined.

Inductive RoutingLayer : Type := LLocal | LNeighborhood | LGlobal | LStoreAndCarry.

#[global] Instance layer_eq_dec : EqDecision RoutingLayer.
Proof. solve_decision. Defined.

Record RoutingDecision : Type := mkDecision {
  d_message_id : bytes;
  d_recipient_hint : Hint;
  d_primary : NextHop;
  d_alternatives : list NextHop;
  d_decided_by : RoutingLayer;
  d_confidence : f64;
}.

Record RoutingMaintenance : Type := mkMaintenance {
  peers_promoted : Z;
  peers_demoted : Z;
  stale_gateways_removed : Z;
  expired_routes_removed : Z;
}.

Record RoutingSummary : Type := mkRoutingSummary {
  rs_local_peers : Z;
  rs_active_peers : Z;
  rs_gateway_peers : Z;
  rs_neighborhood_cells : Z;
  rs_global_routes : Z;
  rs_total_reachable_hints : Z;
}.

Record RoutingEngine : Type := mkEngine {
  local : LocalCell;
  neighborhood : NeighborhoodTable;
  global : GlobalRoutes;
  engine_id : PeerId;
  local_hint : Hint;
}.

Definition set_local_cell (c : LocalCell) (e : RoutingEngine) : RoutingEngine :=
  mkEngine c (neighborhood e) (global e) (engine_id e) (local_hint e).

Definition engine_new (id : PeerId) (hint : Hint) : RoutingEngine :=
  mkEngine (cell_new id) table_new routes_new id hint.

Definition gateway_hop (g : GatewayInfo) : NextHop := Gateway (gateway_id g) (gw_transport g) (hops_away g).
Definition route_hop (r : RouteAdvertisement) : NextHop := GlobalRoute (next_hop r) (ra_hop_count r).

(** A peer as a direct hop, by the first of its transports. *)
Definition peer_hop (p : PeerInfo) : option NextHop := Direct (peer_id p) <$> head (transports p).

Section Engine.
Context `{Build} {HI : HashIter PeerId PeerInfo} {HG : HashIter PeerId GatewayInfo}.
Context {HS : HashIter (list Hint) NeighborhoodSummary} {HR : HashIter Hint (list RouteAdvertisement)}.

Definition collect_alternative_hops (hint : Hint) (skip : RoutingLayer) (e : RoutingEngine) : list NextHop :=
  (if bool_decide (skip <> LLocal) then omap peer_hop (take 1 (peers_for_hint hint (local e))) else [])
  ++ (if bool_decide (skip <> LNeighborhood) then option_list (gateway_hop <$> best_gateway_for_hint hint (neighborhood e)) else [])
  ++ (if bool_decide (skip <> LGlobal) then option_list (route_hop <$> best_route_for_hint hint (global e)) else []).

Definition route_message (hint : Hint) (message_id : bytes) (priority now : Z) (e : RoutingEngine) : RoutingDecision :=
  match peers_for_hint hint (local e) with
  | best_peer :: _ =>
      mkDecision message_id hint
        (Direct (peer_id best_peer) (default BLE (head (transports best_peer))))
        (collect_alternative_hops hint LLocal e) LLocal
        (f64_min (reliability_score best_peer) (lit 98 100))
  | [] =>
      match best_gateway_for_hint hint (neighborhood e) with
      | Some g =>
          mkDecision message_id hint (gateway_hop g) (collect_alternative_hops hint LNeighborhood e) LNeighborhood
            (f64_sub (lit 85 100) (f64_mul (f64_of (hops_away g)) (lit 5 100)))
      | None =>
          match best_route_for_hint hint (global e) with
          | Some r =>
              mkDecision message_id hint (route_hop r) (collect_alternative_hops hint LGlobal e) LGlobal (reliability r)
          | None =>
              let should_request := negb (is_route_pending hint (global e)) && (100 <=? priority) in
              mkDecision message_id hint (if should_request then RouteDiscovery hint else StoreAndCarry) [] LStoreAndCarry f64_zero
          end
      end
  end.

Definition collect_alternative_hops_count (hint : Hint) (count : Z) (e : RoutingEngine) : list NextHop :=
  let local_peers := peers_for_hint hint (local e) in
  let alternatives := omap peer_hop (take (Z.to_nat (Z.min count (zlen local_peers))) local_peers) in
  let alternatives :=
    if zlen alternatives <? count
    then alternatives ++ option_list (gateway_hop <$> best_gateway_for_hint hint (neighborhood e)) else alternatives in
  if zlen alternatives <? count
  then alternatives ++ option_list (route_hop <$> best_route_for_hint hint (global e)) else alternatives.

Definition route_redundant (hint : Hint) (message_id : bytes) (priority redundancy now : Z) (e : RoutingEngine) : RoutingDecision :=
  let d := route_message hint message_id priority now e in
  if 1 <? redundancy
  then mkDecision (d_message_id d) (d_recipient_hint d) (d_primary d)
         (collect_alternative_hops_count hint (redundancy - 1) e) (d_decided_by d) (d_confidence d)
  else d.

Definition is_for_us (hint : Hint) (e : RoutingEngine) : bool := bool_decide (hint = local_hint e).

Definition is_promotion (ev : PeerEvent) : bool := match ev with PeerBecameActive _ => true | _ => false end.
Definition is_demotion (ev : PeerEvent) : bool := match ev with PeerBecameStale _ => true | _ => false end.

Definition engine_tick (now : Z) (e : RoutingEngine) : res string (RoutingMaintenance * RoutingEngine) :=
  let! cell := cell_tick now (local e) in
  let promoted := zlen (filter (fun ev => is_promotion ev = true) cell.2) in
  let demoted := zlen (filter (fun ev => is_demotion ev = true) cell.2) in
  let! table := table_cleanup now (neighborhood e) in
  let routes := routes_cleanup now (global e) in
  Ok (mkMaintenance promoted demoted table.2 routes.1,
      mkEngine cell.1 table.1 routes.2 (engine_id e) (local_hint e)).

Definition count_reachable_hints (now : Z) (e : RoutingEngine) : Z :=
  Z.of_nat (size (list_to_set (cs_reachable_hints (cell_summarize now (local e)))
    ∪ list_to_set (all_reachable_hints (neighborhood e)) : gset Hint)).

Definition routing_summary (now : Z) (e : RoutingEngine) : RoutingSummary :=
  let local_summary := cell_summarize now (local e) in
  mkRoutingSummary (peer_count (local e)) (active_count (local e)) (cs_gateway_count local_summary)
    (gateway_count (neighborhood e)) (route_count (global e)) (count_reachable_hints now e).
End Engine.

(** ** Soundness of decisions *)

(** A hop that the layers know for a destination. *)
Definition known_hop (hint : Hint) (e : RoutingEngine) (h : NextHop) : Prop :=
  match h with
  | Direct id t =>
      exists k p, peers (local e) !! k = Some p /\ peer_id p = id /\ is_active p = true /\ hint ∈ reachable_hints p /\
        (t ∈ transports p \/ transports p = [])
  | Gateway id t hops =>
      exists k g, gateways (neighborhood e) !! k = Some g /\ hint ∈ cs_reachable_hints (cell_summary g) /\
        gateway_id g = id /\ gw_transport g = t /\ hops_away g = hops
  | GlobalRoute id hops => exists r, r ∈ routes_for_hint hint (global e) /\ next_hop r = id /\ ra_hop_count r = hops
  | StoreAndCarry | RouteDiscovery _ => False
  end.

(** Some layer knows the destination. *)
Definition reachable (hint : Hint) (e : RoutingEngine) : Prop := exists h, known_hop hint e h.

Section EngineProofs.
Context `{Build} {HI : HashIter PeerId PeerInfo} {HG : HashIter PeerId GatewayInfo}.
Context {HS : HashIter (list Hint) NeighborhoodSummary} {HR : HashIter Hint (list RouteAdvertisement)}.

Lemma elem_of_peers_for_hint hint c p :
  p ∈ peers_for_hint hint c <-> is_active p = true /\ hint ∈ reachable_hints p /\ exists k, peers c !! k = Some p.
Proof.
  unfold peers_for_hint. rewrite list_elem_of_filter, elem_of_peer_values, andb_true_iff, bool_decide_eq_true. tauto.
Qed.

Lemma peer_hop_known hint e p h : p ∈ peers_for_hint hint (local e) -> peer_hop p = Some h -> known_hop hint e h.
Proof.
  intros (Ha & Hh & k & Hk)%elem_of_peers_for_hint. unfold peer_hop. intros (t & Ht & ->)%fmap_Some. exists k, p.
  split_and!; try done. left. destruct (transports p); [done|]. injection Ht as ->. by left.
Qed.

Lemma gateway_known hint e g : best_gateway_for_hint hint (neighborhood e) = Some g -> known_hop hint e (gateway_hop g).
Proof.
  unfold best_gateway_for_hint, gateways_for_hint. intros [Hh [k Hk]%elem_of_gateway_values]%min_by_Some%list_elem_of_filter.
  by exists k, g.
Qed.

Lemma route_known hint e r : best_route_for_hint hint (global e) = Some r -> known_hop hint e (route_hop r).
Proof.
  unfold best_route_for_hint. intros (l & Hl & Hr%min_by_Some)%bind_Some. exists r. unfold routes_for_hint. by rewrite Hl.
Qed.

Lemma no_best_gateway hint e :
  best_gateway_for_hint hint (neighborhood e) = None -> forall id t n, ~ known_hop hint e (Gateway id t n).
Proof.
  intros Hn%min_by_None id t n (k & g & Hk & Hh & _).
  assert (g ∈ gateways_for_hint hint (neighborhood e)) as Hin
    by (apply list_elem_of_filter; split; [done|apply elem_of_gateway_values; by exists k]).
  rewrite Hn in Hin. set_solver.
Qed.

Lemma no_best_route hint e : best_route_for_hint hint (global e) = None -> forall id n, ~ known_hop hint e (GlobalRoute id n).
Proof.
  unfold best_route_for_hint. intros Hn id n (r & Hr & _). unfold routes_for_hint in Hr.
  destruct (routes (global e) !! hint) as [l|]; cbn in *; [|set_solver]. apply min_by_None in Hn. subst. set_solver.
Qed.

Lemma no_local hint e : peers_for_hint hint (local e) = [] -> forall id t, ~ known_hop hint e (Direct id t).
Proof.
  intros Hn id t (k & p & Hk & _ & Ha & Hh & _).
  assert (p ∈ peers_for_hint hint (local e)) as Hin by (apply elem_of_peers_for_hint; eauto). rewrite Hn in Hin. set_solver.
Qed.

Lemma alternatives_known hint skip e : Forall (known_hop hint e) (collect_alternative_hops hint skip e).
Proof.
  unfold collect_alternative_hops. repeat apply Forall_app_2; case_bool_decide; try constructor.
  - apply Forall_forall. intros h (p & Hp & Hh)%list_elem_of_omap. apply elem_of_take in Hp as (i & Hi & _).
    eapply peer_hop_known; [by eapply list_elem_of_lookup_2|done].
  - destruct (best_gateway_for_hint _ _) eqn:Hg; cbn; repeat constructor. by apply gateway_known.
  - destruct (best_route_for_hint _ _) eqn:Hr; cbn; repeat constructor. by apply route_known.
Qed.

(** C32: a decision names only hops that the layers know for the destination, in the order local
    cell, neighborhood, global routes; a message is carried, or a route asked for, exactly
    when no layer knows the destination. *)
Theorem route_message_sound hint message_id priority now e :
  let d := route_message hint message_id priority now e in
  Forall (known_hop hint e) (d_alternatives d) /\
  match d_decided_by d with
  | LLocal => exists id t, d_primary d = Direct id t /\ known_hop hint e (Direct id t)
  | LNeighborhood =>
      (forall id t, ~ known_hop hint e (Direct id t)) /\
      exists id t n, d_primary d = Gateway id t n /\ known_hop hint e (Gateway id t n)
  | LGlobal =>
      (forall id t, ~ known_hop hint e (Direct id t)) /\ (forall id t n, ~ known_hop hint e (Gateway id t n)) /\
      exists id n, d_primary d = GlobalRoute id n /\ known_hop hint e (GlobalRoute id n)
  | LStoreAndCarry =>
      ~ reachable hint e /\ d_alternatives d = [] /\
      d_primary d = if negb (is_route_pending hint (global e)) && (100 <=? priority) then RouteDiscovery hint else StoreAndCarry
  end.
Proof.
  cbn zeta. unfold route_message. destruct (peers_for_hint hint (local e)) as [|p ps] eqn:Hp.
  2:{ cbn. split; [apply alternatives_known|]. do 2 eexists. split; [done|].
      assert (p ∈ peers_for_hint hint (local e)) as (Ha & Hh & k & Hk)%elem_of_peers_for_hint by (rewrite Hp; by left).
      exists k, p. split_and!; try done. destruct (transports p); [by right|left; by left]. }
  pose proof (no_local hint e Hp) as Hnl.
  destruct (best_gateway_for_hint hint (neighborhood e)) as [g|] eqn:Hg.
  { cbn. split; [apply alternatives_known|]. split; [done|]. do 3 eexists. split; [done|]. by apply (gateway_known hint e g). }
  pose proof (no_best_gateway hint e Hg) as Hng.
  destruct (best_route_for_hint hint (global e)) as [r|] eqn:Hr.
  { cbn. split; [apply alternatives_known|]. split_and!; [done..|]. do 2 eexists. split; [done|]. by apply (route_known hint e r). }
  pose proof (no_best_route hint e Hr) as Hnr.
  cbn. split; [constructor|]. split_and!; [|done..]. intros [[] Hh]; try done; [by eapply Hnl|by eapply Hng|by eapply Hnr].
Qed.

(** A redundancy of two for a message that has a direct peer gives no second path: the only
    alternative is the primary hop again. *)
Theorem redundant_repeats_primary hint message_id priority now e p ps t ts :
  peers_for_hint hint (local e) = p :: ps -> transports p = t :: ts ->
  let d := route_redundant hint message_id priority 2 now e in
  d_primary d = Direct (peer_id p) t /\ d_alternatives d = [Direct (peer_id p) t].
Proof.
  intros Hp Ht. unfold route_redundant, route_message. rewrite Hp. cbn [d_primary d_alternatives Z.ltb Z.compare Pos.compare Pos.compare_cont].
  rewrite Ht. split; [done|]. unfold collect_alternative_hops_count. rewrite Hp.
  replace (Z.to_nat (Z.min (2 - 1) (zlen (p :: ps)))) with 1%nat by (autorewrite with zlen; pose proof (zlen_nonneg ps); lia).
  cbn [take omap list_omap]. unfold peer_hop. rewrite Ht. done.
Qed.

(** No tick ever reports a promoted peer. *)
Theorem tick_never_promotes now e m e' : engine_tick now e = Ok (m, e') -> peers_promoted m = 0.
Proof.
  unfold engine_tick. intros ([c evs] & Hc & (tb & _ & [= <- _])%rbind_ok_inv)%rbind_ok_inv. cbn.
  enough (Forall (fun ev => is_promotion ev = false) evs) as Hall.
  { clear Hc. induction Hall as [|ev evs Hev _ IH]; [done|].
    rewrite filter_cons_False by (by rewrite Hev). done. }
  unfold cell_tick in Hc. set (ids := (hm_iter (peers (local e))).*1) in Hc. clearbody ids.
  assert (Forall (fun ev => is_promotion ev = false) []) as H0 by constructor. revert Hc H0.
  generalize (@nil PeerEvent) as ev0. generalize (local e) as c0.
  induction ids as [|id ids IH]; intros c0 ev0; cbn [rfold]; [by intros [= <- <-]|].
  destruct (peers c0 !! id) as [p|]; cbn [rbind]; [|by apply IH].
  destruct (tick_peer now c0 id p) as [[q es]| |] eqn:Ht; cbn [rbind fst snd]; [|done..].
  intros Hr H0. apply (IH _ _ Hr), Forall_app_2; [done|]. unfold tick_peer in Ht. destruct (status p); [apply rbind_ok_inv in Ht as (age & _ & Ht)..|];
    try destruct (_ <? age); simplify_eq; repeat constructor.
Qed.
End EngineProofs.

(** ** Examples *)

Module RoutingEngineExamples.
#[local] Instance re_build : Build := {| overflow_checks := true |}.
#[local] Instance re_peers : HashIter PeerId PeerInfo := canonical_iter.
#[local] Instance re_gateways : HashIter PeerId GatewayInfo := canonical_iter.
#[local] Instance re_summaries : HashIter (list Hint) NeighborhoodSummary := canonical_iter.
#[local] Instance re_routes : HashIter Hint (list RouteAdvertisement) := canonical_iter.

Definition p1 : PeerId := [Byte.x01].
Definition p2 : PeerId := [Byte.x02].
Definition hint : Hint := [Byte.x0a; Byte.x0b; Byte.x0c; Byte.x0d].
Definition peer (id : PeerId) (score : f64) : PeerInfo := set_score score (set_hints [hint] (peer_new 1000 id TCP)).
Definition engine (m : gmap PeerId PeerInfo) : RoutingEngine := set_local_cell (set_peers m (cell_new [])) (engine_new [] []).

(** The most reliable of two direct peers is not the one that is chosen. *)
Example local_choice_unsorted :
  d_primary (route_message hint [] 0 0 (engine {[p1 := peer p1 (lit 1 10); p2 := peer p2 (lit 9 10)]})) = Direct p1 TCP \/
  d_primary (route_message hint [] 0 0 (engine {[p1 := peer p1 (lit 9 10); p2 := peer p2 (lit 1 10)]})) = Direct p2 TCP.
Proof. by vm_compute; (left; reflexivity) || (right; reflexivity). Qed.

Lemma redundant_repeats_primary_witness :
  let d := route_redundant hint [] 0 2 0 (engine {[p1 := peer p1 (lit 9 10)]}) in
  d_primary d = Direct p1 TCP /\ d_alternatives d = [Direct p1 TCP].
Proof. by apply (redundant_repeats_primary hint [] 0 0 (engine {[p1 := peer p1 (lit 9 10)]}) (peer p1 (lit 9 10)) [] TCP []). Defined.

Lemma tick_never_promotes_witness :
  exists m e', engine_tick 1200 (engine {[p1 := peer p1 (lit 9 10)]}) = Ok (m, e') /\ peers_promoted m = 0.
Proof.
  destruct (engine_tick 1200 (engine {[p1 := peer p1 (lit 9 10)]})) as [[m e']| |] eqn:Ht;
    [|by apply (f_equal is_ok) in Ht; vm_compute in Ht..].
  exists m, e'. split; [done|]. by apply (tick_never_promotes _ _ _ _ Ht).
Defined.
End RoutingEngineExamples.
