(* ===== verification/NegativeCache.v ===== *)
(** * Negative cache ([core/src/routing/negative_cache.rs])

    Peers that were recently found unreachable: a Bloom filter in front of a table of
    entries that expire.  [Instant]s and [Duration]s are counted in nanoseconds; an instant
    that is read is the argument [now].  The hasher of the standard library, whose algorithm
    is unspecified, and the logarithm, the exponential and the powers are parameters. *)

From Stdlib Require Import SpecFloat.
From S2P Require Import Prelude Floats.

(** The 64-bit hash of the bytes written to a [DefaultHasher]. *)
Class DefaultHasher : Type := { hasher_finish : bytes -> Z }.

Class FloatFns : Type := {
  f64_ln : f64 -> f64;
  f64_exp : f64 -> f64;
  f64_powf : f64 -> f64 -> f64;
  f64_powi : f64 -> Z -> f64;
}.

Definition SEC : Z := 10 ^ 9.
Definition elapsed (now since : Z) : Z := sat_sub now since.

(** ** Bloom filter *)

Record BloomFilter : Type := mkBloom {
  bits : list bool;
  bloom_size : Z;
  bloom_k : Z;
  bloom_count : Z;
}.

Section Bloom.
Context `{Build} {DH : DefaultHasher} {FF : FloatFns}.

Definition bloom_new (expected_items : Z) (false_positive_rate : f64) : BloomFilter :=
  let n := f64_of expected_items in
  let m := f64_div (f64_mul (SFopp n) (f64_ln false_positive_rate)) (f64_powi (f64_ln (f64_of 2)) 2) in
  let size := f64_to_u 64 (f64_ceil m) in
  let k := f64_to_u 64 (f64_ceil (f64_mul (f64_div (f64_of size) n) (f64_ln (f64_of 2)))) in
  mkBloom (replicate (Z.to_nat size) false) size k 0.

Definition for_peer_cache : BloomFilter := bloom_new 1000 (lit 1 100).

(** What hashing a string, and a pair of a string and ["salt"], writes. *)
Definition str_stream (s : string) : bytes := str_bytes s ++ [Byte.xff].
Definition salted_stream (s : string) : bytes := str_stream s ++ str_stream "salt".

Definition hash_position (b : BloomFilter) (peer_id : string) (i : Z) : res string Z :=
  let h1 := hasher_finish (str_stream peer_id) in
  let h2 := hasher_finish (salted_stream peer_id) in
  if bloom_size b =? 0 then Panic else Ok (cast_u 64 (h1 + cast_u 64 (i * h2)) mod bloom_size b).

Definition hash_positions (b : BloomFilter) (peer_id : string) : res string (list Z) :=
  rfold (fun l i => let! pos := hash_position b peer_id i in Ok (l ++ [pos])) [] (seqZ 0 (bloom_k b)).

Definition set_bits (l : list bool) (b : BloomFilter) : BloomFilter := mkBloom l (bloom_size b) (bloom_k b) (bloom_count b).

Definition bloom_insert (peer_id : string) (b : BloomFilter) : res string BloomFilter :=
  let! positions := hash_positions b peer_id in
  let! l := rfold (fun l pos => update l pos (fun _ => Ok true)) (bits b) positions in
  let! n := chk_u 64 (bloom_count b + 1) in
  Ok (mkBloom l (bloom_size b) (bloom_k b) n).

(** The loop of [contains]. *)
Fixpoint all_set (l : list bool) (positions : list Z) : res string bool :=
  match positions with
  | [] => Ok true
  | pos :: positions => let! b := idx l pos in if negb b then Ok false else all_set l positions
  end.

Definition bloom_contains (peer_id : string) (b : BloomFilter) : res string bool :=
  let! positions := hash_positions b peer_id in all_set (bits b) positions.

Definition bloom_false_positive_rate (b : BloomFilter) : f64 :=
  if bloom_count b =? 0 then f64_zero
  else
    let n := f64_of (bloom_count b) in
    let m := f64_of (bloom_size b) in
    let k := f64_of (bloom_k b) in
    f64_powf (f64_sub (f64_of 1) (f64_exp (f64_div (f64_mul (SFopp k) n) m))) k.

Definition bloom_clear (b : BloomFilter) : BloomFilter :=
  mkBloom (replicate (length (bits b)) false) (bloom_size b) (bloom_k b) 0.
End Bloom.

(** ** The cache *)

Record NegativeCacheEntry : Type := mkEntry {
  confirmed_at : Z;
  entry_ttl : Z;
  confirmation_count : Z;
}.

Record NegativeCacheStats : Type := mkNegStats {
  negative_checks : Z;
  bloom_hits : Z;
  bloom_misses : Z;
  entry_count : Z;
  expired_count : Z;
}.

Record NegativeCache : Type := mkCache {
  bloom : BloomFilter;
  entries : gmap string NegativeCacheEntry;
  default_ttl : Z;
  max_entries : Z;
  nc_stats : NegativeCacheStats;
}.

Definition entry_new (now ttl : Z) : NegativeCacheEntry := mkEntry now ttl 1.
Definition is_expired (now : Z) (e : NegativeCacheEntry) : bool := entry_ttl e <? elapsed now (confirmed_at e).

Definition set_bloom (b : BloomFilter) (c : NegativeCache) : NegativeCache :=
  mkCache b (entries c) (default_ttl c) (max_entries c) (nc_stats c).
Definition set_entries (m : gmap string NegativeCacheEntry) (c : NegativeCache) : NegativeCache :=
  mkCache (bloom c) m (default_ttl c) (max_entries c) (nc_stats c).
Definition set_stats (s : NegativeCacheStats) (c : NegativeCache) : NegativeCache :=
  mkCache (bloom c) (entries c) (default_ttl c) (max_entries c) s.

Section Cache.
Context `{Build} {DH : DefaultHasher} {FF : FloatFns} {HE : HashIter string NegativeCacheEntry}.

Definition cache_new (ttl max : Z) : NegativeCache := mkCache for_peer_cache ∅ ttl max (mkNegStats 0 0 0 0 0).
Definition cache_with_defaults : NegativeCache := cache_new (600 * SEC) 10000.

Definition entry_refresh (now : Z) (e : NegativeCacheEntry) : res string NegativeCacheEntry :=
  let! n := chk_u 32 (confirmation_count e + 1) in Ok (mkEntry now (entry_ttl e) n).

Definition bump_checks (c : NegativeCache) : res string NegativeCache :=
  let s := nc_stats c in
  let! n := chk_u 64 (negative_checks s + 1) in
  Ok (set_stats (mkNegStats n (bloom_hits s) (bloom_misses s) (entry_count s) (expired_count s)) c).
Definition bump_hits (c : NegativeCache) : res string NegativeCache :=
  let s := nc_stats c in
  let! n := chk_u 64 (bloom_hits s + 1) in
  Ok (set_stats (mkNegStats (negative_checks s) n (bloom_misses s) (entry_count s) (expired_count s)) c).
Definition bump_misses (c : NegativeCache) : res string NegativeCache :=
  let s := nc_stats c in
  let! n := chk_u 64 (bloom_misses s + 1) in
  Ok (set_stats (mkNegStats (negative_checks s) (bloom_hits s) n (entry_count s) (expired_count s)) c).
Definition bump_expired (removed : Z) (c : NegativeCache) : res string NegativeCache :=
  let s := nc_stats c in
  let! n := chk_u 64 (expired_count s + removed) in
  Ok (set_stats (mkNegStats (negative_checks s) (bloom_hits s) (bloom_misses s) (entry_count s) n) c).

Definition is_definitely_unreachable (now : Z) (peer_id : string) (c : NegativeCache) : res string (bool * NegativeCache) :=
  let! c := bump_checks c in
  let! maybe := bloom_contains peer_id (bloom c) in
  if negb maybe then let! c := bump_misses c in Ok (false, c)
  else
    match entries c !! peer_id with
    | Some e =>
        if negb (is_expired now e) then let! c := bump_hits c in Ok (true, c)
        else let! c := bump_misses c in Ok (false, c)
    | None => let! c := bump_misses c in Ok (false, c)
    end.

Definition evict_oldest (m : gmap string NegativeCacheEntry) : gmap string NegativeCacheEntry :=
  match min_by (fun a b => confirmed_at a.2 ?= confirmed_at b.2) (hm_iter m) with
  | Some (key, _) => delete key m
  | None => m
  end.

Definition record_unreachable (now : Z) (peer_id : string) (c : NegativeCache) : res string NegativeCache :=
  let! b := bloom_insert peer_id (bloom c) in
  let c := set_bloom b c in
  match entries c !! peer_id with
  | Some e => let! e := entry_refresh now e in Ok (set_entries (<[peer_id := e]> (entries c)) c)
  | None =>
      let m := if max_entries c <=? Z.of_nat (size (entries c)) then evict_oldest (entries c) else entries c in
      Ok (set_entries (<[peer_id := entry_new now (default_ttl c)]> m) c)
  end.

Definition clear_unreachable (peer_id : string) (c : NegativeCache) : NegativeCache := set_entries (delete peer_id (entries c)) c.

(** [retain], counting what it removed. *)
Definition retain_entries (keep : NegativeCacheEntry -> bool) (c : NegativeCache) : res string (Z * NegativeCache) :=
  let before := Z.of_nat (size (entries c)) in
  let m := filter (fun kv => keep kv.2 = true) (entries c) in
  let removed := before - Z.of_nat (size m) in
  let! c := bump_expired removed (set_entries m c) in
  Ok (removed, c).

Definition cleanup_expired (now : Z) (c : NegativeCache) : res string (Z * NegativeCache) :=
  retain_entries (fun e => negb (is_expired now e)) c.

Definition cache_stats (c : NegativeCache) : NegativeCacheStats :=
  let s := nc_stats c in
  mkNegStats (negative_checks s) (bloom_hits s) (bloom_misses s) (Z.of_nat (size (entries c))) (expired_count s).

Definition cache_len (c : NegativeCache) : Z := Z.of_nat (size (entries c)).
Definition cache_clear (c : NegativeCache) : NegativeCache := set_entries ∅ (set_bloom (bloom_clear (bloom c)) c).

Definition prune_below_confidence (min_confirmations : f64) (c : NegativeCache) : res string (Z * NegativeCache) :=
  let threshold := f64_to_u 32 (f64_ceil min_confirmations) in
  retain_entries (fun e => threshold <=? confirmation_count e) c.

Definition should_exempt (reputation_score : f64) : bool := SFleb (lit 1 2) reputation_score.

Definition record_unreachable_with_reputation (now : Z) (peer_id : string) (score : f64) (c : NegativeCache) :
    res string (bool * NegativeCache) :=
  if should_exempt score then Ok (false, c)
  else let! c := record_unreachable now peer_id c in Ok (true, c).
End Cache.

(** ** The filter has no false negatives *)

Definition bloom_ok (b : BloomFilter) : Prop := zlen (bits b) = bloom_size b /\ 0 < bloom_size b.

Section BloomProofs.
Context `{Build} {DH : DefaultHasher}.

Definition position (size : Z) (peer_id : string) (i : Z) : Z :=
  cast_u 64 (hasher_finish (str_stream peer_id) + cast_u 64 (i * hasher_finish (salted_stream peer_id))) mod size.

Definition positions (size k : Z) (peer_id : string) : list Z := map (position size peer_id) (seqZ 0 k).

Lemma rfold_collect {E A B} (f : A -> B) (l : list A) acc :
  @rfold E A (list B) (fun acc x => let! y := Ok (f x) in Ok (acc ++ [y])) acc l = Ok (acc ++ map f l).
Proof.
  revert acc. induction l as [|x l IH]; intros acc; cbn [rfold map]; [by rewrite app_nil_r|].
  cbn [rbind]. rewrite IH, <-app_assoc. done.
Qed.

Lemma hash_positions_ok b id : bloom_ok b -> hash_positions b id = Ok (positions (bloom_size b) (bloom_k b) id).
Proof.
  intros [_ Hs]. unfold hash_positions, hash_position. rewrite (proj2 (Z.eqb_neq (bloom_size b) 0)) by lia.
  apply (rfold_collect (position (bloom_size b) id)).
Qed.

Lemma positions_range size k id p : 0 < size -> p ∈ positions size k id -> 0 <= p < size.
Proof. intros Hs (i & -> & _)%list_elem_of_fmap. apply Z.mod_pos_bound. done. Qed.

Definition bit_set (l : list bool) (p : Z) : Prop := l !! Z.to_nat p = Some true.

Lemma all_set_spec l ps :
  Forall (fun p => 0 <= p < zlen l) ps -> exists b, all_set l ps = Ok b /\ (b = true <-> Forall (bit_set l) ps).
Proof.
  induction ps as [|p ps IH]; intros Hall; cbn [all_set]; [by exists true|].
  apply Forall_cons in Hall as [Hp Hall]. destruct (IH Hall) as (b & Hb & Hiff).
  destruct (idx_ok (E := string) l p Hp) as (x & Hlx & Hx). rewrite Hx. cbn [rbind]. destruct x; cbn [negb].
  - exists b. split; [done|]. rewrite Hiff, Forall_cons. split; [done|]. by intros [_ ?].
  - exists false. split; [done|]. rewrite Forall_cons. unfold bit_set at 1. rewrite Hlx. naive_solver.
Qed.

Lemma set_all l ps :
  Forall (fun p => 0 <= p < zlen l) ps ->
  exists l', @rfold string _ _ (fun l pos => update l pos (fun _ => Ok true)) l ps = Ok l' /\ length l' = length l /\
    Forall (bit_set l') ps /\ forall p, bit_set l p -> bit_set l' p.
Proof.
  revert l. induction ps as [|p ps IH]; intros l Hall; cbn [rfold]; [by exists l|].
  apply Forall_cons in Hall as [Hp Hall]. unfold update at 1. rewrite (proj2 (Z.ltb_ge p 0)) by lia.
  destruct (lookup_lt_is_Some_2 l (Z.to_nat p)) as [x Hx]; [unfold zlen in Hp; lia|]. rewrite Hx. cbn [rbind].
  destruct (IH (<[Z.to_nat p := true]> l)) as (l' & -> & Hlen & Hset & Hmono).
  { unfold zlen. rewrite length_insert. done. }
  assert (forall q, bit_set l q \/ q = p -> bit_set (<[Z.to_nat p := true]> l) q) as Hq.
  { intros q Hq. unfold bit_set in *. destruct (decide (Z.to_nat q = Z.to_nat p)) as [ -> |Hne].
    - apply list_lookup_insert_eq. by eapply lookup_lt_Some.
    - rewrite list_lookup_insert_ne by done. destruct Hq as [?| -> ]; done. }
  exists l'. rewrite Hlen, length_insert. split_and!; [done..| |intros; apply Hmono, Hq; by left].
  constructor; [|done]. apply Hmono, Hq. by right.
Qed.

(** A peer's bits are all set. *)
Definition covered (b : BloomFilter) (id : string) : Prop := Forall (bit_set (bits b)) (positions (bloom_size b) (bloom_k b) id).

Lemma positions_in b id : bloom_ok b -> Forall (fun p => 0 <= p < zlen (bits b)) (positions (bloom_size b) (bloom_k b) id).
Proof. intros [Hz Hs]. apply Forall_forall. intros p Hp. rewrite Hz. by eapply positions_range. Qed.

Lemma bloom_contains_spec b id : bloom_ok b -> exists x, bloom_contains id b = Ok x /\ (x = true <-> covered b id).
Proof.
  intros Hb. unfold bloom_contains. rewrite hash_positions_ok by done. cbn [rbind]. by apply all_set_spec, positions_in.
Qed.

Lemma bloom_insert_spec b id :
  bloom_ok b -> in_u 64 (bloom_count b + 1) ->
  exists b', bloom_insert id b = Ok b' /\ bloom_ok b' /\ bloom_count b' = bloom_count b + 1 /\ covered b' id /\
    forall id', covered b id' -> covered b' id'.
Proof.
  intros Hb Hc. unfold bloom_insert. rewrite hash_positions_ok by done. cbn [rbind].
  destruct (set_all (bits b) _ (positions_in b id Hb)) as (l' & -> & Hlen & Hset & Hmono). cbn [rbind].
  rewrite chk_u_ok by done. cbn [rbind]. destruct Hb as [Hz Hs]. eexists. split; [done|]. split_and!; [split; [|done]| done | done |].
  - unfold zlen in *. cbn. by rewrite Hlen.
  - intros id' Hid. unfold covered in *. cbn. eapply Forall_impl; [exact Hid|]. exact Hmono.
Qed.

(** No false negatives: what was inserted is contained, whatever is inserted afterwards. *)
Theorem bloom_no_false_negatives b ids id :
  bloom_ok b -> 0 <= bloom_count b -> bloom_count b + zlen ids < 2 ^ 64 -> id ∈ ids ->
  exists b', rfold (fun b id => bloom_insert id b) b ids = Ok b' /\ bloom_contains id b' = Ok true.
Proof.
  intros Hb H0 Hc Hin.
  enough (exists b', rfold (fun b id => bloom_insert id b) b ids = Ok b' /\ bloom_ok b' /\ covered b' id) as (b' & Hr & Hb' & Hcov).
  { exists b'. split; [done|]. destruct (bloom_contains_spec b' id Hb') as (x & -> & Hx). f_equal. by apply Hx. }
  assert (covered b id \/ id ∈ ids) as Hor by (by right). clear Hin. revert b Hb H0 Hc Hor.
  induction ids as [|i ids IH]; intros b Hb H0 Hc Hor; cbn [rfold].
  { exists b. split_and!; [done..|]. destruct Hor as [?|?]; [done|set_solver]. }
  autorewrite with zlen in Hc. pose proof (zlen_nonneg ids).
  destruct (bloom_insert_spec b i Hb) as (b1 & -> & Hb1 & Hc1 & Hi & Hmono); [unfold in_u; lia|]. cbn [rbind].
  apply IH; [done|lia..|]. destruct Hor as [?|[ -> |?]%elem_of_cons]; auto.
Qed.
End BloomProofs.

(** ** Refinement: the filter does not show

    The abstract cache is the table of entries alone. *)

Inductive CacheOp : Type :=
| OpCheck (now : Z) (id : string)
| OpRecord (now : Z) (id : string)
| OpClearOne (id : string)
| OpExpire (now : Z)
| OpPrune (min_confirmations : f64)
| OpClearAll.

Inductive Answer : Type := ABool (b : bool) | ACount (n : Z) | ADone.

Section CacheProofs.
Context `{Build} {DH : DefaultHasher} {FF : FloatFns} {HE : HashIter string NegativeCacheEntry}.

Definition run_cache (c : NegativeCache) (op : CacheOp) : res string (Answer * NegativeCache) :=
  match op with
  | OpCheck now id => let! r := is_definitely_unreachable now id c in Ok (ABool r.1, r.2)
  | OpRecord now id => let! c := record_unreachable now id c in Ok (ADone, c)
  | OpClearOne id => Ok (ADone, clear_unreachable id c)
  | OpExpire now => let! r := cleanup_expired now c in Ok (ACount r.1, r.2)
  | OpPrune f => let! r := prune_below_confidence f c in Ok (ACount r.1, r.2)
  | OpClearAll => Ok (ADone, cache_clear c)
  end.

Fixpoint run_ops (c : NegativeCache) (ops : list CacheOp) : res string (list Answer * NegativeCache) :=
  match ops with
  | [] => Ok ([], c)
  | op :: ops => let! r := run_cache c op in let! rs := run_ops r.2 ops in Ok (r.1 :: rs.1, rs.2)
  end.

Definition spec_retain (keep : NegativeCacheEntry -> bool) (m : gmap string NegativeCacheEntry) :
    Answer * gmap string NegativeCacheEntry :=
  let m' := filter (fun kv => keep kv.2 = true) m in (ACount (Z.of_nat (size m) - Z.of_nat (size m')), m').

Definition spec_cache (ttl max : Z) (m : gmap string NegativeCacheEntry) (op : CacheOp) :
    Answer * gmap string NegativeCacheEntry :=
  match op with
  | OpCheck now id => (ABool (match m !! id with Some e => negb (is_expired now e) | None => false end), m)
  | OpRecord now id =>
      (ADone, match m !! id with
              | Some e => <[id := mkEntry now (entry_ttl e) (confirmation_count e + 1)]> m
              | None => <[id := entry_new now ttl]> (if max <=? Z.of_nat (size m) then evict_oldest m else m)
              end)
  | OpClearOne id => (ADone, delete id m)
  | OpExpire now => spec_retain (fun e => negb (is_expired now e)) m
  | OpPrune f => spec_retain (fun e => f64_to_u 32 (f64_ceil f) <=? confirmation_count e) m
  | OpClearAll => (ADone, ∅)
  end.

Fixpoint spec_ops (ttl max : Z) (m : gmap string NegativeCacheEntry) (ops : list CacheOp) :
    list Answer * gmap string NegativeCacheEntry :=
  match ops with
  | [] => ([], m)
  | op :: ops => let r := spec_cache ttl max m op in let rs := spec_ops ttl max r.2 ops in (r.1 :: rs.1, rs.2)
  end.

(** After [n] operations: the filter covers the table, and no counter exceeds [n]. *)
Definition cache_ok (n : Z) (c : NegativeCache) : Prop :=
  bloom_ok (bloom c) /\ (forall id, is_Some (entries c !! id) -> covered (bloom c) id) /\
  0 <= bloom_count (bloom c) <= n /\ 0 <= negative_checks (nc_stats c) <= n /\ 0 <= bloom_hits (nc_stats c) <= n /\
  0 <= bloom_misses (nc_stats c) <= n /\ 0 <= expired_count (nc_stats c) /\
  expired_count (nc_stats c) + Z.of_nat (size (entries c)) <= n /\
  map_Forall (fun _ e => 0 <= confirmation_count e <= n) (entries c).

Lemma evict_oldest_sub m : evict_oldest m ⊆ m.
Proof. unfold evict_oldest. destruct (min_by _ _) as [[k e]|]; [apply delete_subseteq|done]. Qed.

Lemma retain_refines keep n c :
  cache_ok n c -> n < 2 ^ 32 -> exists r c', retain_entries keep c = Ok (r, c') /\
    (ACount r, entries c') = spec_retain keep (entries c) /\ cache_ok (n + 1) c' /\
    default_ttl c' = default_ttl c /\ max_entries c' = max_entries c.
Proof.
  intros (Hb & Hcov & Hbc & Hch & Hh & Hm & He0 & He & Hall) Hn. unfold retain_entries, bump_expired.
  cbn [set_entries nc_stats]. set (m := filter _ (entries c)).
  assert (m ⊆ entries c) as Hsub by apply map_filter_subseteq.
  assert (Z.of_nat (size m) <= Z.of_nat (size (entries c))) as Hsz by (apply map_subseteq_size in Hsub; lia).
  rewrite chk_u_ok by (unfold in_u; lia). cbn [rbind]. do 2 eexists. split; [done|]. split; [done|]. split; [|done].
  split_and!; cbn; try done; try lia.
  - intros id [e Hid]. apply Hcov. exists e. by eapply lookup_weaken.
  - intros id e Hid. eapply lookup_weaken in Hid; [|exact Hsub]. apply Hall in Hid. cbn in Hid. lia.
Qed.

Lemma check_refines now id n c :
  cache_ok n c -> n < 2 ^ 32 -> exists c',
    is_definitely_unreachable now id c =
      Ok (match entries c !! id with Some e => negb (is_expired now e) | None => false end, c') /\
    entries c' = entries c /\ cache_ok (n + 1) c' /\ default_ttl c' = default_ttl c /\ max_entries c' = max_entries c.
Proof.
  intros (Hb & Hcov & Hbc & Hch & Hh & Hm & He0 & He & Hall) Hn. unfold is_definitely_unreachable, bump_checks.
  rewrite chk_u_ok by (unfold in_u; lia). cbn [rbind bloom set_stats entries].
  assert (map_Forall (fun _ e => 0 <= confirmation_count e <= n + 1) (entries c)) as Hall'.
  { eapply map_Forall_impl; [exact Hall|]. cbn. lia. }
  destruct (bloom_contains_spec (bloom c) id Hb) as (x & -> & Hx). cbn [rbind].
  unfold bump_misses, bump_hits. cbn [nc_stats set_stats negative_checks bloom_hits bloom_misses].
  destruct x; cbn [negb].
  - destruct (entries c !! id) as [e|] eqn:Hid; [destruct (is_expired now e)|]; cbn [negb];
      rewrite chk_u_ok by (unfold in_u; lia); cbn [rbind]; eexists; (split; [done|]); (split; [done|]); (split; [|done]);
      by split_and!; cbn; try done; try lia.
  - destruct (entries c !! id) as [e|] eqn:Hid.
    { assert (false = true) by (apply Hx, Hcov; by eexists). done. }
    rewrite chk_u_ok by (unfold in_u; lia); cbn [rbind]; eexists; (split; [done|]); (split; [done|]); (split; [|done]);
      by split_and!; cbn; try done; try lia.
Qed.

Lemma record_refines now id n c :
  cache_ok n c -> n + 1 < 2 ^ 32 -> exists c', record_unreachable now id c = Ok c' /\
    (ADone, entries c') = spec_cache (default_ttl c) (max_entries c) (entries c) (OpRecord now id) /\
    cache_ok (n + 1) c' /\ default_ttl c' = default_ttl c /\ max_entries c' = max_entries c.
Proof.
  intros (Hb & Hcov & Hbc & Hch & Hh & Hm & He0 & He & Hall) Hn. unfold record_unreachable.
  destruct (bloom_insert_spec (bloom c) id Hb) as (b & -> & Hb' & Hbc' & Hid & Hmono); [unfold in_u; lia|].
  cbn [rbind set_bloom entries max_entries default_ttl spec_cache].
  destruct (entries c !! id) as [e|] eqn:Hl.
  - pose proof (Hall _ _ Hl) as Hcc. cbn in Hcc. unfold entry_refresh. rewrite chk_u_ok by (unfold in_u; lia). cbn [rbind].
    eexists. split; [done|]. split; [done|]. split; [|done]. split_and!; cbn; try done; try lia.
    + intros id' [e' Hid']. destruct (decide (id = id')) as [ <- |Hne]; [done|]. rewrite lookup_insert_ne in Hid' by done.
      apply Hmono, Hcov. by eexists.
    + rewrite map_size_insert, Hl. unfold Datatypes.id. lia.
    + apply map_Forall_insert_2; [cbn; lia|]. eapply map_Forall_impl; [exact Hall|]. cbn. lia.
  - set (m := if max_entries c <=? _ then _ else _).
    assert (m ⊆ entries c) as Hsub by (unfold m; case_if; [apply evict_oldest_sub|done]).
    eexists. split; [done|]. split; [done|]. split; [|done]. split_and!; cbn; try done; try lia.
    + intros id' [e' Hid']. destruct (decide (id = id')) as [ <- |Hne]; [done|]. rewrite lookup_insert_ne in Hid' by done.
      apply Hmono, Hcov. exists e'. by eapply lookup_weaken.
    + pose proof (map_subseteq_size _ _ Hsub). rewrite map_size_insert. destruct (m !! id); unfold Datatypes.id; lia.
    + apply map_Forall_insert_2; [cbn; lia|]. intros i e Hi. eapply lookup_weaken in Hi; [|exact Hsub].
      apply Hall in Hi. cbn in Hi. lia.
Qed.

Lemma step_refines op n c :
  cache_ok n c -> n + 1 < 2 ^ 32 -> exists a c', run_cache c op = Ok (a, c') /\
    (a, entries c') = spec_cache (default_ttl c) (max_entries c) (entries c) op /\ cache_ok (n + 1) c' /\
    default_ttl c' = default_ttl c /\ max_entries c' = max_entries c.
Proof.
  intros Hok Hn. destruct op as [now id|now id|id|now|f|]; cbn [run_cache].
  - destruct (check_refines now id n c Hok) as (c' & -> & He & ?); [lia|]. cbn [rbind fst snd]. do 2 eexists.
    split; [done|]. split; [|done]. cbn. by rewrite He.
  - destruct (record_refines now id n c Hok Hn) as (c' & -> & ?). cbn [rbind]. by do 2 eexists.
  - do 2 eexists. split; [done|]. split; [done|]. split; [|done].
    destruct Hok as (Hb & Hcov & Hbc & Hch & Hh & Hm & He0 & He & Hall). split_and!; cbn; try done; try lia.
    + intros i [e Hi]. apply Hcov. exists e. by eapply lookup_weaken, delete_subseteq.
    + pose proof (map_subseteq_size _ _ (delete_subseteq (entries c) id)). lia.
    + intros i e Hi. eapply lookup_weaken in Hi; [|apply delete_subseteq]. apply Hall in Hi. cbn in Hi. lia.
  - destruct (retain_refines (fun e => negb (is_expired now e)) n c Hok) as (r & c' & Hr & ?); [lia|].
    unfold cleanup_expired. rewrite Hr. cbn [rbind fst snd]. by do 2 eexists.
  - destruct (retain_refines (fun e => f64_to_u 32 (f64_ceil f) <=? confirmation_count e) n c Hok) as (r & c' & Hr & ?); [lia|].
    unfold prune_below_confidence. cbn zeta. rewrite Hr. cbn [rbind fst snd]. by do 2 eexists.
  - do 2 eexists. split; [done|]. split; [done|]. split; [|done].
    destruct Hok as (Hb & Hcov & Hbc & Hch & Hh & Hm & He0 & He & Hall). split_and!; cbn; try done; try lia.
    + destruct Hb as [Hz Hs]. split; [|done]. unfold zlen in *. cbn. by rewrite length_replicate.
    + intros i [e Hi]. by rewrite lookup_empty in Hi.
    + rewrite map_size_empty. lia.
Qed.

(** C31: through any sequence of operations the cache answers as the table of entries alone
    would, and does not panic: the filter only saves lookups. *)
Theorem negative_cache_refines ttl max ops :
  bloom_ok for_peer_cache -> zlen ops < 2 ^ 32 ->
  exists c, run_ops (cache_new ttl max) ops = Ok ((spec_ops ttl max ∅ ops).1, c) /\ entries c = (spec_ops ttl max ∅ ops).2.
Proof.
  intros Hb Hlen.
  enough (forall ops n c, cache_ok n c -> n + zlen ops < 2 ^ 32 -> default_ttl c = ttl -> max_entries c = max ->
    exists c', run_ops c ops = Ok ((spec_ops ttl max (entries c) ops).1, c') /\ entries c' = (spec_ops ttl max (entries c) ops).2) as Hgen.
  { apply (Hgen ops 0 (cache_new ttl max)); [|lia|done..]. split_and!; cbn; try done; try lia.
    - intros i [e Hi]. by rewrite lookup_empty in Hi. }
  clear ops Hlen. intros ops. induction ops as [|op ops IH]; intros n c Hok Hn Ht Hm; cbn [run_ops spec_ops]; [by exists c|].
  autorewrite with zlen in Hn. pose proof (zlen_nonneg ops).
  destruct (step_refines op n c Hok) as (a & c1 & -> & Hs & Hok1 & Ht1 & Hm1); [lia|]. cbn [rbind fst snd].
  rewrite <-Ht, <-Hm, <-Hs. cbn [fst snd]. destruct (IH (n + 1) c1) as (c' & Hr & He); [done|lia|congruence..|].
  exists c'. rewrite Ht, Hm, Hr. by cbn [rbind fst snd].
Qed.
End CacheProofs.

(** ** Examples *)

Module NegativeCacheExamples.
#[local] Instance nc_build : Build := {| overflow_checks := true |}.
(** A hasher and a logarithm of a hundredth that stand for the real ones. *)
#[local] Instance nc_hasher : DefaultHasher := {| hasher_finish l := le_combine (take 8 l) |}.
#[local] Instance nc_floats : FloatFns :=
  {| f64_ln x := if bool_decide (x = lit 1 100) then SFopp (lit 46 10) else lit 69 100; f64_exp x := x;
     f64_powf x _ := x; f64_powi x _ := f64_mul x x |}.
#[local] Instance nc_iter : HashIter string NegativeCacheEntry := canonical_iter.

Lemma bloom_no_false_negatives_witness :
  exists b', rfold (fun b id => bloom_insert id b) (mkBloom (replicate 16 false) 16 3 0) ["a"; "b"]%string = Ok b' /\
    bloom_contains "a" b' = Ok true.
Proof. apply bloom_no_false_negatives; [done|done|done|set_solver]. Defined.

Definition ops : list CacheOp := [OpRecord 0 "a"; OpCheck 5 "a"; OpCheck 5 "b"; OpCheck 11 "a"; OpExpire 11].

Lemma negative_cache_refines_witness :
  (spec_ops 10 5 ∅ ops).1 = [ADone; ABool true; ABool false; ABool false; ACount 1] /\
  exists c, run_ops (cache_new 10 5) ops = Ok ((spec_ops 10 5 ∅ ops).1, c) /\ entries c = (spec_ops 10 5 ∅ ops).2.
Proof.
  split; [by vm_compute|]. apply (negative_cache_refines 10 5 ops); [|by vm_compute].
  split; by vm_compute.
Defined.
End NegativeCacheExamples.
