(* ===== verification/RouteTuning.v ===== *)
(** * Discovery budget, adaptive lifetimes, retries and delivery paths
    ([core/src/routing/timeout_budget.rs], [adaptive_ttl.rs], [smart_retry.rs], [multipath.rs])

    Instants and durations are counted in nanoseconds; an instant that is read is an
    argument. *)

From Stdlib Require Import SpecFloat.
From S2P Require Import Prelude Floats LocalCell NegativeCache.

(** ** Time budget of a discovery *)

Inductive DiscoveryPhase : Type := LocalCache | NeighborhoodQuery | DelegateQuery | FullDhtWalk.

#[global] Instance phase_eq_dec : EqDecision DiscoveryPhase.
Proof. solve_decision. Defined.

Definition MILLI : Z := 10 ^ 6.

Definition estimated_duration (p : DiscoveryPhase) : Z :=
  match p with
  | LocalCache => 10 * MILLI
  | NeighborhoodQuery => 50 * MILLI
  | DelegateQuery => 200 * MILLI
  | FullDhtWalk => 500 * MILLI
  end.

Definition next_phase (p : DiscoveryPhase) : option DiscoveryPhase :=
  match p with
  | LocalCache => Some NeighborhoodQuery
  | NeighborhoodQuery => Some DelegateQuery
  | DelegateQuery => Some FullDhtWalk
  | FullDhtWalk => None
  end.

Record TimeoutBudget : Type := mkBudget {
  total_budget : Z;
  start_time : Z;
  phase : DiscoveryPhase;
  phase_start : Z;
  exhausted : bool;
}.

Record BudgetSummary : Type := mkBudgetSummary {
  bs_total_budget : Z;
  bs_elapsed : Z;
  bs_remaining : Z;
  bs_current_phase : DiscoveryPhase;
  bs_phase_elapsed : Z;
  bs_is_exhausted : bool;
}.

Definition budget_new (now total : Z) : TimeoutBudget := mkBudget total now LocalCache now false.
Definition default_500ms (now : Z) : TimeoutBudget := budget_new now (500 * MILLI).

Definition budget_elapsed (now : Z) (b : TimeoutBudget) : Z := elapsed now (start_time b).
Definition budget_remaining (now : Z) (b : TimeoutBudget) : Z := sat_sub (total_budget b) (budget_elapsed now b).
Definition phase_elapsed (now : Z) (b : TimeoutBudget) : Z := elapsed now (phase_start b).
Definition is_exhausted (now : Z) (b : TimeoutBudget) : bool := exhausted b || (budget_remaining now b =? 0).

Definition should_advance (now : Z) (b : TimeoutBudget) : bool :=
  if exhausted b then false
  else match next_phase (phase b) with
       | Some _ => 10 <=? budget_remaining now b / MILLI
       | None => false
       end.

(** [advance]; the clock is read for the remaining time and for the start of the phase. *)
Definition advance (now1 now2 : Z) (b : TimeoutBudget) : option DiscoveryPhase * TimeoutBudget :=
  if exhausted b then (None, b)
  else match next_phase (phase b) with
       | Some next =>
           let low := budget_remaining now1 b <? estimated_duration next / 2 in
           (Some next, mkBudget (total_budget b) (start_time b) next now2 (exhausted b || low))
       | None => (None, mkBudget (total_budget b) (start_time b) (phase b) (phase_start b) true)
       end.

Definition budget_complete (b : TimeoutBudget) : TimeoutBudget :=
  mkBudget (total_budget b) (start_time b) (phase b) (phase_start b) true.

Definition is_final_phase (b : TimeoutBudget) : bool := negb (bool_decide (is_Some (next_phase (phase b)))).

Definition budget_summary (now : Z) (b : TimeoutBudget) : BudgetSummary :=
  mkBudgetSummary (total_budget b) (budget_elapsed now b) (budget_remaining now b) (phase b) (phase_elapsed now b) (exhausted b).

(** ** Adaptive lifetimes *)

Record ActivityHistory : Type := mkActivity {
  recent_messages : Z;
  last_message : Z;
  adaptive_ttl : Z;
}.

(** [Duration::as_secs_f64]. *)
Definition as_secs_f64 (d : Z) : f64 := f64_add (f64_of (d / SEC)) (f64_div (f64_of (d mod SEC)) (f64_of SEC)).

Record AdaptiveTTLManager : Type := mkTTL {
  peer_activity : gmap string ActivityHistory;
  base_ttl : Z;
  max_ttl : Z;
  half_life : Z;
}.

Definition set_activity (m : gmap string ActivityHistory) (t : AdaptiveTTLManager) : AdaptiveTTLManager :=
  mkTTL m (base_ttl t) (max_ttl t) (half_life t).

Definition ttl_new (base max half : Z) : AdaptiveTTLManager := mkTTL ∅ base max half.
Definition ttl_with_defaults : AdaptiveTTLManager := ttl_new (1800 * SEC) (7200 * SEC) (3600 * SEC).

Definition activity_new (now : Z) : ActivityHistory := mkActivity 0 now (1800 * SEC).

(** The largest [Duration]. *)
Definition duration_max : Z := 2 ^ 64 * SEC - 1.

Section Adaptive.
Context `{Build} {FF : FloatFns}.

Definition record_message (now : Z) (a : ActivityHistory) : res string ActivityHistory :=
  let! n := chk_u 32 (recent_messages a + 1) in Ok (mkActivity n now (adaptive_ttl a)).

Definition activity_ttl (base max : Z) (a : ActivityHistory) : res string Z :=
  if 10 <? recent_messages a then Ok max
  else if 2 <? recent_messages a then (if duration_max <? base * 2 then Panic else Ok (base * 2))
  else Ok base.

Definition decayed (count elapsed half : Z) : Z :=
  f64_to_u 32 (f64_round (f64_mul (f64_of count) (f64_powf (lit 1 2) (f64_div (as_secs_f64 elapsed) (as_secs_f64 half))))).

Definition activity_decay (now half base max : Z) (a : ActivityHistory) : res string ActivityHistory :=
  let a := mkActivity (decayed (recent_messages a) (elapsed now (last_message a)) half) (last_message a) (adaptive_ttl a) in
  let! ttl := activity_ttl base max a in
  Ok (mkActivity (recent_messages a) (last_message a) ttl).

Definition calculate_ttl (now : Z) (id : string) (t : AdaptiveTTLManager) : res string (Z * AdaptiveTTLManager) :=
  let a := default (activity_new now) (peer_activity t !! id) in
  let! a := activity_decay now (half_life t) (base_ttl t) (max_ttl t) a in
  Ok (adaptive_ttl a, set_activity (<[id := a]> (peer_activity t)) t).

Definition record_activity (now : Z) (id : string) (t : AdaptiveTTLManager) : res string AdaptiveTTLManager :=
  let a := default (activity_new now) (peer_activity t !! id) in
  let! a := record_message now a in
  let! ttl := activity_ttl (base_ttl t) (max_ttl t) a in
  Ok (set_activity (<[id := mkActivity (recent_messages a) (last_message a) ttl]> (peer_activity t)) t).

Definition ttl_cleanup (now max_age : Z) (t : AdaptiveTTLManager) : Z * AdaptiveTTLManager :=
  let m := filter (fun kv => elapsed now (last_message kv.2) < max_age) (peer_activity t) in
  (Z.of_nat (size (peer_activity t)) - Z.of_nat (size m), set_activity m t).

Definition calculate_dynamic_ttl (base battery_level peers : Z) : res string Z :=
  let ttl := if battery_level <? 20 then base / 2 else base in
  if peers <? 3 then chk_u 64 (ttl * 2) else Ok ttl.
End Adaptive.

Definition get_activity (id : string) (t : AdaptiveTTLManager) : option ActivityHistory := peer_activity t !! id.

(** ** Retries *)

Record BackoffStrategy : Type := mkBackoff {
  base_ms : Z;
  backoff_max_ms : Z;
  multiplier : f64;
}.

Definition next_attempt_delay `{Build} {FF : FloatFns} (attempt_count : Z) (s : BackoffStrategy) : res string Z :=
  if attempt_count =? 0 then Ok 0
  else
    let! n := chk_i 32 (swrap 32 attempt_count - 1) in
    Ok (f64_to_u 64 (f64_min (f64_mul (f64_of (base_ms s)) (f64_powi (multiplier s) n)) (f64_of (backoff_max_ms s)))).

Definition calculate_next_attempt `{Build} {FF : FloatFns} (now_ms attempt_count : Z) (s : BackoffStrategy) : res string Z :=
  let! delay := next_attempt_delay attempt_count s in chk_u 64 (now_ms + delay).

Definition isAtMaxDelay (delay_ms max_ms : Z) : bool := max_ms <=? delay_ms.

Inductive DeliveryTrigger : Type := ScheduledTimer | PeerDiscovered (id : string) | RouteUpdated (id : string).

(** ** Delivery paths *)

Record DeliveryPath : Type := mkPath {
  path_id : Z;
  path_peer_id : PeerId;
  estimated_latency_ms : Z;
  path_active : bool;
  score : f64;
  attempt_count : Z;
  success_count : Z;
}.

Definition set_path_score (x : f64) (p : DeliveryPath) : DeliveryPath :=
  mkPath (path_id p) (path_peer_id p) (estimated_latency_ms p) (path_active p) x (attempt_count p) (success_count p).
Definition deactivate (p : DeliveryPath) : DeliveryPath :=
  mkPath (path_id p) (path_peer_id p) (estimated_latency_ms p) false (score p) (attempt_count p) (success_count p).

Definition recalculate_score (p : DeliveryPath) : DeliveryPath :=
  if attempt_count p =? 0 then set_path_score (f64_of 75) p
  else
    let success_ratio := f64_div (f64_of (success_count p)) (f64_of (Z.max (attempt_count p) 1)) in
    let latency_penalty := f64_div (f64_of (Z.min (estimated_latency_ms p) 2000)) (f64_of 100) in
    set_path_score
      (clamp f64_zero (f64_of 100)
         (f64_sub (f64_add (f64_mul success_ratio (f64_of 80)) (f64_of 20)) latency_penalty)) p.

Section Paths.
Context `{Build}.

Definition path_record_success (latency_ms : Z) (p : DeliveryPath) : res string DeliveryPath :=
  let! attempts := chk_u 64 (attempt_count p + 1) in
  let! successes := chk_u 64 (success_count p + 1) in
  let! sum := chk_u 64 (estimated_latency_ms p + latency_ms) in
  Ok (recalculate_score (mkPath (path_id p) (path_peer_id p) (sum / 2) (path_active p) (score p) attempts successes)).

Definition path_record_failure (p : DeliveryPath) : res string DeliveryPath :=
  let! attempts := chk_u 64 (attempt_count p + 1) in
  Ok (recalculate_score (mkPath (path_id p) (path_peer_id p) (estimated_latency_ms p) (path_active p) (score p) attempts (success_count p))).
End Paths.

Record MultiPathDelivery : Type := mkMulti {
  paths : gmap Hint (list DeliveryPath);
  max_paths_per_hint : Z;
}.

Definition multi_new : MultiPathDelivery := mkMulti ∅ 3.

Definition register_path (hint : Hint) (p : DeliveryPath) (d : MultiPathDelivery) : MultiPathDelivery :=
  let l := default [] (paths d !! hint) in
  let l :=
    match list_find (fun q => path_id q = path_id p) l with
    | Some (i, _) => <[i := p]> l
    | None => if zlen l <? max_paths_per_hint d then l ++ [p] else l
    end in
  mkMulti (<[hint := l]> (paths d)) (max_paths_per_hint d).

(** [sort_by] of [partial_cmp(..).unwrap_or(Equal)], best score first. *)
Definition score_le (a b : DeliveryPath) : Prop := default Eq (SFcompare (score b) (score a)) <> Gt.

#[global] Instance score_le_dec : RelDecision score_le.
Proof. intros a b. unfold score_le. apply _. Defined.

Definition active_paths (hint : Hint) (d : MultiPathDelivery) : list DeliveryPath :=
  stable_sort score_le (filter (fun p => path_active p = true) (default [] (paths d !! hint))).

Definition prune_below (threshold : f64) (d : MultiPathDelivery) : MultiPathDelivery :=
  mkMulti (map (fun p => if SFltb (score p) threshold then deactivate p else p) <$> paths d) (max_paths_per_hint d).

Definition multi_len (d : MultiPathDelivery) : Z := Z.of_nat (size (paths d)).

Section Failing.
Context `{Build} {HM : HashIter Hint (list DeliveryPath)}.

(** The loop over the hints: the first path with the id is marked. *)
Fixpoint fail_first (id : Z) (hints : list (Hint * list DeliveryPath)) (m : gmap Hint (list DeliveryPath)) :
    res string (gmap Hint (list DeliveryPath)) :=
  match hints with
  | [] => Ok m
  | (hint, l) :: hints =>
      match list_find (fun p => path_id p = id) l with
      | Some (i, p) => let! q := path_record_failure (deactivate p) in Ok (<[hint := <[i := q]> l]> m)
      | None => fail_first id hints m
      end
  end.

Definition mark_path_failed (id : Z) (d : MultiPathDelivery) : res string MultiPathDelivery :=
  let! m := fail_first id (hm_iter (paths d)) (paths d) in Ok (mkMulti m (max_paths_per_hint d)).
End Failing.

(** ** Theorems on the budget *)

(** The answers of successive calls of [advance]. *)
Fixpoint advances (b : TimeoutBudget) (times : list (Z * Z)) : list (option DiscoveryPhase) :=
  match times with
  | [] => []
  | (now1, now2) :: times => let r := advance now1 now2 b in r.1 :: advances r.2 times
  end.

Lemma advances_exhausted b times : exhausted b = true -> advances b times = replicate (length times) None.
Proof.
  intros He. induction times as [|[t1 t2] times IH]; [done|]. cbn [advances length replicate]. unfold advance. rewrite He.
  cbn [fst snd]. by rewrite IH.
Qed.

Fixpoint phases_after (fuel : nat) (p : DiscoveryPhase) : list DiscoveryPhase :=
  match fuel with
  | O => []
  | S fuel => match next_phase p with Some q => q :: phases_after fuel q | None => [] end
  end.

Lemma advances_spec b times :
  exists k, (k <= length (phases_after 3 (phase b)))%nat /\
    advances b times = take (length times) (map Some (take k (phases_after 3 (phase b))) ++ replicate (length times) None).
Proof.
  revert b. induction times as [|[t1 t2] times IH]; intros b; [by exists 0%nat; split; [lia|]|].
  destruct (exhausted b) eqn:He.
  { exists 0%nat. split; [lia|]. rewrite advances_exhausted by done. change (map Some (take 0 _) ++ ?l) with l.
    by rewrite take_replicate, Nat.min_id. }
  cbn [advances]. unfold advance. rewrite He. destruct (next_phase (phase b)) as [q|] eqn:Hq; cbn [fst snd].
  - set (b' := mkBudget _ _ q _ _). destruct (IH b') as (k & Hk & ->). exists (S k).
    assert (phases_after 3 (phase b) = q :: phases_after 3 q) as -> by (destruct (phase b); cbn in Hq; simplify_eq; done).
    change (phase b') with q in *. split; [cbn [length]; lia|]. cbn [take map app length]. f_equal.
    change (None :: replicate ?n None) with (replicate (S n) (@None DiscoveryPhase)).
    rewrite !take_app, !take_replicate. f_equal. f_equal. lia.
  - rewrite advances_exhausted by done. exists 0%nat. split; [lia|].
    change (map Some (take 0 _) ++ ?l) with l. by rewrite take_replicate, Nat.min_id.
Qed.

(** However the calls are timed, a discovery goes through the neighborhood, the delegates
    and the DHT in this order, each at most once, and after at most three advances reports
    that it has ended, for good. *)
Theorem discovery_ends now total times :
  exists k, (k <= 3)%nat /\
    advances (budget_new now total) times =
    take (length times) (map Some (take k [NeighborhoodQuery; DelegateQuery; FullDhtWalk]) ++ replicate (length times) None).
Proof. exact (advances_spec (budget_new now total) times). Qed.

(** [should_advance] is false once the ten milliseconds that it asks for are not left, but
    [advance] moves on all the same: it is [advance] that decides. *)
Theorem advance_without_time now b next :
  exhausted b = false -> next_phase (phase b) = Some next -> budget_remaining now b = 0 ->
  should_advance now b = false /\ (advance now now b).1 = Some next /\ exhausted (advance now now b).2 = true.
Proof.
  intros He Hn Hr. unfold should_advance, advance. rewrite He, Hn, Hr. split; [done|]. cbn [fst snd exhausted].
  split; [done|]. by destruct next.
Qed.

(** ** Theorems on lifetimes *)

Section TuningProofs.
Context `{Build} {FF : FloatFns}.

(** [k] calls of [calculate_ttl] at one instant. *)
Fixpoint polls (k : nat) (now : Z) (id : string) (t : AdaptiveTTLManager) : res string (list Z) :=
  match k with
  | O => Ok []
  | S k => let! r := calculate_ttl now id t in let! l := polls k now id r.2 in Ok (r.1 :: l)
  end.

(** Reading a lifetime shortens it: each call takes off the same hour again, so that four
    readings at one instant go from two hours down to half an hour. *)
Theorem ttl_polling_decays now id :
  0 <= now -> f64_powf (lit 1 2) (f64_of 1) = lit 1 2 ->
  let t := set_activity {[id := mkActivity 22 now (7200 * SEC)]} ttl_with_defaults in
  polls 4 (now + 3600 * SEC) id t = Ok [7200 * SEC; 3600 * SEC; 3600 * SEC; 1800 * SEC].
Proof.
  intros Hn Hp t.
  assert (elapsed (now + 3600 * SEC) now = 3600 * SEC) as He by (unfold elapsed, sat_sub, SEC; lia).
  assert (forall c, decayed c (3600 * SEC) (3600 * SEC) = f64_to_u 32 (f64_round (f64_mul (f64_of c) (lit 1 2)))) as Hd.
  { intros c. unfold decayed.
    assert (f64_div (as_secs_f64 (3600 * SEC)) (as_secs_f64 (3600 * SEC)) = f64_of 1) as -> by (by vm_compute). by rewrite Hp. }
  assert (forall c c' ttl ttl', f64_to_u 32 (f64_round (f64_mul (f64_of c) (lit 1 2))) = c' ->
    activity_ttl (1800 * SEC) (7200 * SEC) (mkActivity c' now ttl) = Ok ttl' ->
    calculate_ttl (now + 3600 * SEC) id (set_activity {[id := mkActivity c now ttl]} ttl_with_defaults) =
    Ok (ttl', set_activity {[id := mkActivity c' now ttl']} ttl_with_defaults)) as Hstep.
  { intros c c' ttl ttl' Hc Ht. unfold calculate_ttl. cbn [peer_activity set_activity]. rewrite lookup_singleton_eq.
    cbn [default Datatypes.id half_life base_ttl max_ttl set_activity ttl_with_defaults ttl_new]. unfold activity_decay.
    cbn [recent_messages last_message adaptive_ttl]. rewrite He, Hd, Hc, Ht. cbn [rbind adaptive_ttl].
    by rewrite insert_singleton_eq. }
  unfold t. cbn [polls].
  rewrite (Hstep 22 11 _ (7200 * SEC)) by done. cbn [rbind fst snd]. rewrite (Hstep 11 6 _ (3600 * SEC)) by done. cbn [rbind fst snd].
  rewrite (Hstep 6 3 _ (3600 * SEC)) by done. cbn [rbind fst snd]. by rewrite (Hstep 3 2 _ (1800 * SEC)) by done.
Qed.

(** ** Theorem on retries *)

(** The delay never exceeds the maximum, whatever the multiplier and however many attempts. *)
Theorem retry_delay_capped attempt s delay :
  0 <= backoff_max_ms s < 2 ^ 53 -> next_attempt_delay attempt s = Ok delay -> 0 <= delay <= backoff_max_ms s.
Proof.
  intros Hm. unfold next_attempt_delay. destruct (attempt =? 0); [intros [= <-]; lia|].
  intros (n & _ & [= <-])%rbind_ok_inv. set (x := f64_mul _ _).
  assert (short x) as Hs by apply f64_mul_short. clearbody x.
  split.
  - unfold f64_to_u. destruct (f64_min _ _) as [?|[]| |[] m e]; try lia.
    assert (0 <= (if 0 <=? e then Z.pos m * 2 ^ e else Z.pos m / 2 ^ (- e))); [|lia]. destruct (Z.leb_spec 0 e).
    + apply Z.mul_nonneg_nonneg; [lia|]. apply Z.pow_nonneg. lia.
    + apply Z.div_pos; [lia|]. apply Z.pow_pos_nonneg; lia.
  - unfold f64_min. rewrite f64_of_number. destruct (is_nan x) eqn:Hx; [rewrite f64_to_u_of; lia|].
    rewrite SFltb_spec by (done || apply f64_of_number). case_bool_decide as Hle; cbn [negb].
    + by apply f64_to_u_le.
    + rewrite f64_to_u_of; lia.
Qed.
End TuningProofs.

(** ** Theorems on delivery paths *)

Definition score_100 (x : f64) : Prop := is_nan x = false /\ f64_le f64_zero x /\ f64_le x (f64_of 100).

(** Scores are numbers from 0 to 100. *)
Lemma recalculate_bounded p :
  0 <= success_count p < 2 ^ 53 -> 0 <= attempt_count p < 2 ^ 53 -> 0 <= estimated_latency_ms p ->
  score_100 (score (recalculate_score p)).
Proof.
  intros Hs Ha Hl. unfold recalculate_score. destruct (attempt_count p =? 0) eqn:Hz.
  { split; [done|]. split; by_computation. }
  apply Z.eqb_neq in Hz. cbn [score set_path_score]. apply clamp_range; [done..| |by_computation].
  assert (finite (f64_div (f64_of (Z.min (estimated_latency_ms p) 2000)) (f64_of 100)) = true) as Hpen.
  { set (n := Z.min (estimated_latency_ms p) 2000). assert (0 <= n <= 2000) as Hn by (unfold n; lia). clearbody n.
    assert (forallb (fun i => finite (f64_div (f64_of (Z.of_nat i)) (f64_of 100))) (seq 0 2001) = true) as Hall by (by vm_compute).
    rewrite forallb_forall in Hall. specialize (Hall (Z.to_nat n)). rewrite Z2Nat.id in Hall by lia. apply Hall, in_seq. lia. }
  apply f64_sub_number_r; [|exact Hpen]. apply f64_add_number_r; [|done]. apply f64_mul_number_r; [|done|done].
  apply f64_div_number; [by apply f64_of_finite|apply f64_of_number|]. intros s. apply f64_of_nonzero. lia.
Qed.

Definition path_ok (n : Z) (p : DeliveryPath) : Prop :=
  score_100 (score p) /\ 0 <= success_count p < n /\ 0 <= attempt_count p < n /\ 0 <= estimated_latency_ms p.

Definition multi_ok (n : Z) (d : MultiPathDelivery) : Prop :=
  max_paths_per_hint d = 3 /\
  map_Forall (fun _ l => zlen l <= 3 /\ NoDup (map path_id l) /\ Forall (path_ok n) l) (paths d).

Lemma path_ok_mono n n' p : n <= n' -> path_ok n p -> path_ok n' p.
Proof. intros Hn (? & ? & ? & ?). split_and!; [done|lia..]. Qed.

Lemma multi_ok_mono n n' d : n <= n' -> multi_ok n d -> multi_ok n' d.
Proof.
  intros Hn [Hm Hall]. split; [done|]. eapply map_Forall_impl; [exact Hall|]. cbn. intros h l (? & ? & Hl). split_and!; [done..|].
  eapply Forall_impl; [exact Hl|]. intros p. by apply path_ok_mono.
Qed.

Lemma map_insert_id_same (l : list DeliveryPath) i x y :
  l !! i = Some x -> path_id y = path_id x -> map path_id (<[i := y]> l) = map path_id l.
Proof.
  intros Hi Heq. change (map path_id) with (fmap (M := list) path_id). rewrite list_fmap_insert, Heq.
  apply list_insert_id. by rewrite list_lookup_fmap, Hi.
Qed.

Lemma register_ok n hint p d : multi_ok n d -> path_ok n p -> multi_ok n (register_path hint p d).
Proof.
  intros [Hm Hall] Hp. split; [done|]. cbn. apply map_Forall_insert_2; [|done].
  assert (zlen (default [] (paths d !! hint)) <= 3 /\ NoDup (map path_id (default [] (paths d !! hint))) /\
    Forall (path_ok n) (default [] (paths d !! hint))) as (Hz & Hnd & Hl).
  { destruct (paths d !! hint) as [l|] eqn:Hh; [by apply (Hall _ _ Hh)|]. split_and!; [done|constructor..]. }
  set (l := default [] (paths d !! hint)) in *. clearbody l.
  destruct (list_find (fun q => path_id q = path_id p) l) as [[i q]|] eqn:Hf.
  - apply list_find_Some in Hf as (Hi & Heq & _). split_and!.
    + unfold zlen. rewrite length_insert. done.
    + by rewrite (map_insert_id_same l i q p).
    + by apply Forall_insert.
  - rewrite Hm. destruct (Z.ltb_spec (zlen l) 3); [|done]. split_and!; [autorewrite with zlen; lia| |by apply Forall_app_2; [|constructor]].
    rewrite map_app. cbn [map]. apply NoDup_app. split_and!; [done| |by apply NoDup_singleton].
    intros x (q & -> & Hq)%list_elem_of_fmap Hin%list_elem_of_singleton. apply list_find_None in Hf. rewrite Forall_forall in Hf. by apply (Hf q).
Qed.

Section MultiProofs.
Context `{Build} {HM : HashIter Hint (list DeliveryPath)}.

Lemma fail_ok n p : path_ok n p -> n < 2 ^ 53 ->
  exists q, path_record_failure (deactivate p) = Ok q /\ path_ok (n + 1) q /\ path_id q = path_id p /\ path_active q = false.
Proof.
  intros (_ & Hs & Ha & Hl) Hn. unfold path_record_failure. cbn [attempt_count deactivate]. rewrite chk_u_ok by (unfold in_u; lia).
  cbn [rbind]. eexists. split; [done|]. set (p' := mkPath _ _ _ _ _ _ _).
  assert (forall p, success_count (recalculate_score p) = success_count p /\ attempt_count (recalculate_score p) = attempt_count p /\
    estimated_latency_ms (recalculate_score p) = estimated_latency_ms p /\ path_id (recalculate_score p) = path_id p /\
    path_active (recalculate_score p) = path_active p) as Hframe.
  { intros x. unfold recalculate_score. by destruct (_ =? 0). }
  destruct (Hframe p') as (E1 & E2 & E3 & E4 & E5). split; [|by rewrite E4, E5].
  unfold path_ok. rewrite E1, E2, E3. split; [apply recalculate_bounded; cbn; lia|]. cbn. lia.
Qed.

Lemma fail_first_ok n id hints m :
  n < 2 ^ 53 -> map_Forall (fun _ l => zlen l <= 3 /\ NoDup (map path_id l) /\ Forall (path_ok n) l) m ->
  (forall h l, (h, l) ∈ hints -> m !! h = Some l) ->
  exists m', fail_first id hints m = Ok m' /\
    map_Forall (fun _ l => zlen l <= 3 /\ NoDup (map path_id l) /\ Forall (path_ok (n + 1)) l) m' /\
    (forall h l, (h, l) ∈ hints -> id ∈ map path_id l ->
      exists h' l' i p q, m !! h' = Some l' /\ l' !! i = Some p /\ path_id p = id /\ path_id q = id /\ path_active q = false /\
        m' = <[h' := <[i := q]> l']> m).
Proof.
  intros Hn Hall Hin.
  assert (map_Forall (fun _ l => zlen l <= 3 /\ NoDup (map path_id l) /\ Forall (path_ok (n + 1)) l) m) as Hall1.
  { eapply map_Forall_impl; [exact Hall|]. cbn. intros h l (? & ? & Hl). split_and!; [done..|].
    eapply Forall_impl; [exact Hl|]. intros p. apply path_ok_mono. lia. }
  induction hints as [|[h l] hints IH]; cbn [fail_first].
  { exists m. split_and!; [done..|]. intros h l Hx. by apply not_elem_of_nil in Hx. }
  assert (m !! h = Some l) as Hl by (apply Hin; by left). destruct (Hall _ _ Hl) as (Hz & Hnd & Hok).
  destruct (list_find (fun p => path_id p = id) l) as [[i p]|] eqn:Hf.
  - apply list_find_Some in Hf as (Hi & Hid & _). destruct (fail_ok n p) as (q & -> & Hq & Hqid & Hqa); [|done|].
    { rewrite Forall_lookup in Hok. by eapply Hok. }
    cbn [rbind]. eexists. split; [done|]. split.
    + apply map_Forall_insert_2; [|done]. destruct (Hall1 _ _ Hl) as (_ & _ & Hok1). split_and!.
      * unfold zlen. rewrite length_insert. done.
      * by rewrite (map_insert_id_same l i p q).
      * by apply Forall_insert.
    + intros h0 l0 _ _. exists h, l, i, p, q. split_and!; try done. by rewrite Hqid.
  - destruct IH as (m' & Hm' & Hok' & Hspec). { intros h0 l0 H0. apply Hin. by right. }
    exists m'. split_and!; [done..|]. intros h0 l0 [[= -> ->]|H0]%elem_of_cons Hid; [|by eapply Hspec].
    apply list_elem_of_fmap in Hid as (p & -> & Hp). apply list_find_None in Hf. rewrite Forall_forall in Hf. by destruct (Hf p).
Qed.

Inductive MultiOp : Type :=
| OpRegister (hint : Hint) (p : DeliveryPath)
| OpFailed (id : Z)
| OpPrune (threshold : f64).

Definition run_multi (d : MultiPathDelivery) (op : MultiOp) : res string MultiPathDelivery :=
  match op with
  | OpRegister hint p => Ok (register_path hint p d)
  | OpFailed id => mark_path_failed id d
  | OpPrune f => Ok (prune_below f d)
  end.

(** Paths are registered as the engine registers them. *)
Definition op_fresh (op : MultiOp) : Prop := match op with OpRegister _ p => path_ok 1 p | _ => True end.

Lemma run_multi_ok n d op :
  multi_ok n d -> 1 <= n < 2 ^ 53 -> op_fresh op -> exists d', run_multi d op = Ok d' /\ multi_ok (n + 1) d'.
Proof.
  intros Hd Hn Hop. destruct op as [hint p|id|f]; cbn [run_multi].
  - eexists. split; [done|]. apply (multi_ok_mono n); [lia|]. apply register_ok; [done|]. apply (path_ok_mono 1); [lia|done].
  - unfold mark_path_failed. destruct Hd as [Hm Hall].
    destruct (fail_first_ok n id (hm_iter (paths d)) (paths d)) as (m' & -> & Hok & _); [lia|done|by intros h l Hx%elem_of_hm_iter|].
    cbn [rbind]. by eexists.
  - eexists. split; [done|]. apply (multi_ok_mono n); [lia|]. destruct Hd as [Hm Hall]. split; [done|]. cbn.
    intros h l' (l & <- & Hl)%lookup_fmap_Some. destruct (Hall _ _ Hl) as (Hz & Hnd & Hok). split_and!.
    + unfold zlen. rewrite length_map. done.
    + rewrite List.map_map, (map_ext _ path_id); [done|]. intros p. by destruct (SFltb _ _).
    + apply Forall_map. eapply Forall_impl; [exact Hok|]. intros p Hp. by destruct (SFltb _ _).
Qed.

Definition better_path (a b : DeliveryPath) : Prop := f64_le (score b) (score a).

#[local] Instance better_path_trans : Transitive better_path.
Proof. intros a b c. unfold better_path. intros. by etrans. Qed.

#[local] Instance score_le_total : Total score_le.
Proof.
  intros a b. unfold score_le. destruct (is_nan (score a)) eqn:Ha.
  { left. apply bool_decide_eq_true in Ha. rewrite Ha. by destruct (score b). }
  destruct (is_nan (score b)) eqn:Hb.
  { left. apply bool_decide_eq_true in Hb. by rewrite Hb. }
  rewrite !SFcompare_key by done. cbn. rewrite (key_cmp_antisym (f64_key (score a)) (f64_key (score b))).
  destruct (key_cmp _ _); cbn; auto.
Qed.

Lemma Sorted_scores l : Forall (fun p => is_nan (score p) = false) l -> Sorted score_le l -> StronglySorted better_path l.
Proof.
  intros Hall Hs. apply Sorted_StronglySorted; [apply _|]. induction Hs as [|a l Hs IH Hr]; constructor.
  - apply Forall_cons in Hall as [_ ?]. auto.
  - apply Forall_cons in Hall as [Ha Hl]. destruct Hr as [|b l Hab]; constructor. apply Forall_cons in Hl as [Hb _].
    unfold score_le in Hab. by apply cmp_or_equal_spec in Hab.
Qed.

Lemma run_multi_all ops n d :
  Forall op_fresh ops -> 1 <= n -> n + zlen ops < 2 ^ 53 -> multi_ok n d ->
  exists d', rfold run_multi d ops = Ok d' /\ multi_ok (n + zlen ops) d'.
Proof.
  intros Hops. revert n d. induction Hops as [|op ops Hop Hops IH]; intros n d H1 Hn H0; cbn [rfold]; autorewrite with zlen in *.
  - exists d. by rewrite Z.add_0_r.
  - pose proof (zlen_nonneg ops). destruct (run_multi_ok n d op H0) as (d1 & -> & Hd1); [lia|done|]. cbn [rbind].
    destruct (IH (n + 1) d1) as (d' & ? & ?); [lia..|done|]. exists d'. split; [done|].
    by replace (n + (1 + zlen ops)) with (n + 1 + zlen ops) by lia.
Qed.

(** Whatever is registered, failed and pruned: nothing panics, every destination has at most three
    paths with different ids, and its active paths are listed, all of them, best score first. *)
Theorem active_paths_best ops hint :
  Forall op_fresh ops -> zlen ops < 2 ^ 53 - 1 ->
  exists d, rfold run_multi multi_new ops = Ok d /\
    zlen (active_paths hint d) <= 3 /\ NoDup (map path_id (active_paths hint d)) /\
    StronglySorted better_path (active_paths hint d) /\
    forall p, p ∈ active_paths hint d <-> path_active p = true /\ p ∈ default [] (paths d !! hint).
Proof.
  intros Hops Hlen.
  assert (exists d, rfold run_multi multi_new ops = Ok d /\ multi_ok (1 + zlen ops) d) as (d & Hr & Hm & Hall).
  { apply run_multi_all; [done|lia..|]. split; [done|apply map_Forall_empty]. }
  exists d. split; [done|].
  assert (zlen (default [] (paths d !! hint)) <= 3 /\ NoDup (map path_id (default [] (paths d !! hint))) /\
    Forall (path_ok (1 + zlen ops)) (default [] (paths d !! hint))) as (Hz & Hnd & Hl).
  { destruct (paths d !! hint) as [l|] eqn:Hh; [by apply (Hall _ _ Hh)|]. split_and!; [done|constructor..]. }
  unfold active_paths. set (l := default [] (paths d !! hint)) in *.
  assert (forall p, p ∈ stable_sort score_le (filter (fun p => path_active p = true) l) <-> path_active p = true /\ p ∈ l) as Hin.
  { intros p. by rewrite stable_sort_Permutation, list_elem_of_filter. }
  split_and!; [| | |done].
  - unfold zlen in *. rewrite stable_sort_Permutation.
    pose proof (sublist_length _ _ (sublist_filter (fun p => path_active p = true) l)). lia.
  - rewrite (Permutation_map path_id (stable_sort_Permutation score_le _)).
    eapply sublist_NoDup; [exact Hnd|]. apply (fmap_sublist path_id), sublist_filter.
  - apply Sorted_scores; [|apply Sorted_stable_sort, _]. apply Forall_forall. intros p [_ Hp]%Hin.
    rewrite Forall_forall in Hl. apply (Hl p Hp).
Qed.
End MultiProofs.

(** ** Examples *)

Module RouteTuningExamples.
#[local] Instance rt_build : Build := {| overflow_checks := true |}.
#[local] Instance rt_floats : FloatFns :=
  {| f64_ln x := x; f64_exp x := x; f64_powf x _ := x; f64_powi x _ := f64_mul x x |}.
#[local] Instance rt_iter : HashIter Hint (list DeliveryPath) := canonical_iter.

Lemma advance_without_time_witness :
  should_advance (600 * MILLI) (default_500ms 0) = false /\
  (advance (600 * MILLI) (600 * MILLI) (default_500ms 0)).1 = Some NeighborhoodQuery /\
  exhausted (advance (600 * MILLI) (600 * MILLI) (default_500ms 0)).2 = true.
Proof. by apply advance_without_time. Defined.

Lemma ttl_polling_decays_witness :
  polls 4 (3600 * SEC) "a" (set_activity {[("a")%string := mkActivity 22 0 (7200 * SEC)]} ttl_with_defaults) =
  Ok [7200 * SEC; 3600 * SEC; 3600 * SEC; 1800 * SEC].
Proof. by apply (ttl_polling_decays 0 "a"). Defined.

Lemma retry_delay_capped_witness :
  next_attempt_delay 9 (mkBackoff 1000 30000 (f64_of 8)) = Ok 30000 /\ 0 <= 30000 <= 30000.
Proof.
  split; [by vm_compute|]. apply (retry_delay_capped 9 (mkBackoff 1000 30000 (f64_of 8))); [cbn; lia|by vm_compute].
Defined.

Definition path (id latency : Z) (x : f64) : DeliveryPath := mkPath id [] latency true x 0 0.
Definition ops (h : Hint) : list MultiOp :=
  [OpRegister h (path 1 50 (f64_of 75)); OpRegister h (path 2 20 (f64_of 75)); OpFailed 1].

Lemma active_paths_best_witness :
  exists d, rfold run_multi multi_new (ops []) = Ok d /\ map path_id (active_paths [] d) = [2] /\
    StronglySorted better_path (active_paths [] d).
Proof.
  destruct (active_paths_best (ops []) []) as (d & Hr & _ & _ & Hs & _).
  - assert (score_100 (f64_of 75)) by (split; [done|split; by_computation]). repeat constructor; done.
  - done.
  - exists d. split; [done|]. split; [|done].
    assert (match rfold run_multi multi_new (ops []) with Ok d => map path_id (active_paths [] d) | _ => [] end = [2]) as Hx by (by vm_compute).
    by rewrite Hr in Hx.
Defined.
End RouteTuningExamples.
