(* ===== verification/Prefetch.v ===== *)
(** * Route prefetch ([core/src/routing/resume_prefetch.rs])

    The routes that were valid before the application went to the background, and the peers
    it talks to most.  Instants are in nanoseconds and are arguments. *)

From Stdlib Require Import SpecFloat.
From S2P Require Import Prelude Floats LocalCell GlobalRoutes NegativeCache RouteTuning.

Inductive PrefetchStatus : Type := Fresh | PStale | Refreshing | Failed.

#[global] Instance pstatus_eq_dec : EqDecision PrefetchStatus.
Proof. solve_decision. Defined.

Record PrefetchedRoute : Type := mkPrefetched {
  pr_route : RouteAdvertisement;
  last_validated : Z;
  pr_status : PrefetchStatus;
  refresh_attempts : Z;
  pr_priority : Z;
}.

Record PrefetchConfig : Type := mkPrefetchConfig {
  max_route_age : Z;
  max_stale_age : Z;
  max_prefetch_routes : Z;
  max_concurrent_refreshes : Z;
  refresh_batch_delay : Z;
}.

Definition prefetch_default : PrefetchConfig := mkPrefetchConfig (300 * SEC) (3600 * SEC) 100 10 (100 * MILLI).

Record FrequentPeer : Type := mkFrequent {
  fp_peer_id : PeerId;
  fp_hint : Hint;
  fp_message_count : Z;
  fp_last_message : Z;
  fp_priority : Z;
}.

Record ResumePrefetchManager : Type := mkPrefetch {
  pf_routes : gmap Hint PrefetchedRoute;
  frequent_peers : list FrequentPeer;
  prefetch_in_progress : bool;
  prefetch_started : option Z;
  pf_config : PrefetchConfig;
  refresh_queue : list Hint;
  active_refreshes : Z;
}.

Record PrefetchStats : Type := mkPrefetchStats {
  total_routes : Z;
  fresh_routes : Z;
  stale_routes : Z;
  refreshing_routes : Z;
  failed_routes : Z;
  ps_in_progress : bool;
  queue_remaining : Z;
}.

Definition set_pf_routes (m : gmap Hint PrefetchedRoute) (p : ResumePrefetchManager) : ResumePrefetchManager :=
  mkPrefetch m (frequent_peers p) (prefetch_in_progress p) (prefetch_started p) (pf_config p) (refresh_queue p) (active_refreshes p).
Definition set_frequent (l : list FrequentPeer) (p : ResumePrefetchManager) : ResumePrefetchManager :=
  mkPrefetch (pf_routes p) l (prefetch_in_progress p) (prefetch_started p) (pf_config p) (refresh_queue p) (active_refreshes p).
Definition set_queue (q : list Hint) (p : ResumePrefetchManager) : ResumePrefetchManager :=
  mkPrefetch (pf_routes p) (frequent_peers p) (prefetch_in_progress p) (prefetch_started p) (pf_config p) q (active_refreshes p).
Definition finish_one (p : ResumePrefetchManager) : ResumePrefetchManager :=
  mkPrefetch (pf_routes p) (frequent_peers p) (prefetch_in_progress p) (prefetch_started p) (pf_config p) (refresh_queue p)
    (sat_sub (active_refreshes p) 1).

Definition prefetched_new (now : Z) (r : RouteAdvertisement) (priority : Z) : PrefetchedRoute := mkPrefetched r now Fresh 0 priority.

Definition is_fresh (now max_age : Z) (r : PrefetchedRoute) : bool := elapsed now (last_validated r) <? max_age.

Definition is_usable (now max_stale : Z) (r : PrefetchedRoute) : bool :=
  match pr_status r with
  | Fresh | PStale => elapsed now (last_validated r) <? max_stale
  | Refreshing => true
  | Failed => false
  end.

Definition complete_refresh (now : Z) (r : PrefetchedRoute) : PrefetchedRoute :=
  mkPrefetched (pr_route r) now Fresh (refresh_attempts r) (pr_priority r).
Definition fail_refresh (r : PrefetchedRoute) : PrefetchedRoute :=
  mkPrefetched (pr_route r) (last_validated r) Failed (refresh_attempts r) (pr_priority r).

Definition manager_new (c : PrefetchConfig) : ResumePrefetchManager := mkPrefetch ∅ [] false None c [] 0.
Definition manager_with_defaults : ResumePrefetchManager := manager_new prefetch_default.

Definition frequent_new (now : Z) (id : PeerId) (hint : Hint) : FrequentPeer := mkFrequent id hint 1 now 1.

(** [sort_by_key(Reverse(..))]. *)
Definition by_priority (a b : Hint * Z) : Prop := b.2 <= a.2.
Definition by_peer_priority (a b : FrequentPeer) : Prop := fp_priority b <= fp_priority a.

#[global] Instance by_priority_dec : RelDecision by_priority.
Proof. intros a b. unfold by_priority. apply _. Defined.
#[global] Instance by_peer_priority_dec : RelDecision by_peer_priority.
Proof. intros a b. unfold by_peer_priority. apply _. Defined.

Section Prefetch.
Context `{Build} {FF : FloatFns} {HP : HashIter Hint PrefetchedRoute}.

Definition start_refresh (r : PrefetchedRoute) : res string PrefetchedRoute :=
  let! n := chk_u 32 (refresh_attempts r + 1) in
  Ok (mkPrefetched (pr_route r) (last_validated r) Refreshing n (pr_priority r)).

Definition frequent_priority (count : Z) : res string Z := let! n := chk_u 32 (count * 10) in Ok (Z.min n 100).

Definition frequent_record (now : Z) (p : FrequentPeer) : res string FrequentPeer :=
  let! n := chk_u 32 (fp_message_count p + 1) in
  let! pr := frequent_priority n in
  Ok (mkFrequent (fp_peer_id p) (fp_hint p) n now pr).

Definition frequent_decay (now half : Z) (p : FrequentPeer) : res string FrequentPeer :=
  let n := decayed (fp_message_count p) (elapsed now (fp_last_message p)) half in
  let! pr := frequent_priority n in
  Ok (mkFrequent (fp_peer_id p) (fp_hint p) n (fp_last_message p) pr).

Definition on_app_background (now : Z) (current : list (PeerId * Hint * RouteAdvertisement)) (p : ResumePrefetchManager) :
    ResumePrefetchManager :=
  let save m x :=
    let '(_, hint, route) := x in
    let priority := match list_find (fun f => fp_hint f = hint) (frequent_peers p) with Some (_, f) => fp_priority f | None => 1 end in
    <[hint := prefetched_new now route priority]> m in
  set_pf_routes (foldl save ∅ current) p.

Definition on_app_resume (now : Z) (p : ResumePrefetchManager) : list Hint * ResumePrefetchManager :=
  let hints := stable_sort by_priority (map (fun kv => (kv.1, pr_priority kv.2)) (hm_iter (pf_routes p))) in
  let immediate_count := Z.min (max_concurrent_refreshes (pf_config p)) (zlen hints) in
  (take (Z.to_nat immediate_count) hints.*1,
   mkPrefetch (pf_routes p) (frequent_peers p) true (Some now) (pf_config p) hints.*1 0).

Definition get_route_early (now : Z) (hint : Hint) (p : ResumePrefetchManager) : option RouteAdvertisement :=
  match pf_routes p !! hint with
  | Some r => if is_usable now (max_stale_age (pf_config p)) r then Some (pr_route r) else None
  | None => None
  end.

Definition update_route (now : Z) (hint : Hint) (route : RouteAdvertisement) (p : ResumePrefetchManager) : ResumePrefetchManager :=
  let r :=
    match pf_routes p !! hint with
    | Some r => complete_refresh now (mkPrefetched route (last_validated r) (pr_status r) (refresh_attempts r) (pr_priority r))
    | None => prefetched_new now route 1
    end in
  finish_one (set_pf_routes (<[hint := r]> (pf_routes p)) p).

Definition mark_refresh_failed (hint : Hint) (p : ResumePrefetchManager) : ResumePrefetchManager :=
  finish_one (match pf_routes p !! hint with
              | Some r => set_pf_routes (<[hint := fail_refresh r]> (pf_routes p)) p
              | None => p
              end).

Definition start_route_refresh (hint : Hint) (p : ResumePrefetchManager) : res string ResumePrefetchManager :=
  match pf_routes p !! hint with
  | Some r => let! r := start_refresh r in Ok (set_pf_routes (<[hint := r]> (pf_routes p)) p)
  | None => Ok p
  end.

Definition next_refresh_hint (p : ResumePrefetchManager) : option Hint * ResumePrefetchManager :=
  match refresh_queue p with
  | h :: q => (Some h, set_queue q p)
  | [] => (None, p)
  end.

Definition is_prefetch_complete (p : ResumePrefetchManager) : bool :=
  bool_decide (refresh_queue p = []) && (active_refreshes p =? 0).

Definition count_status (s : PrefetchStatus) (p : ResumePrefetchManager) : Z :=
  zlen (filter (fun kv => pr_status kv.2 = s) (hm_iter (pf_routes p))).

Definition prefetch_stats (p : ResumePrefetchManager) : PrefetchStats :=
  mkPrefetchStats (Z.of_nat (size (pf_routes p))) (count_status Fresh p) (count_status PStale p) (count_status Refreshing p)
    (count_status Failed p) (prefetch_in_progress p) (zlen (refresh_queue p)).

(** [retain_mut]: every peer decays; those without messages left go. *)
Definition decay_all (now half : Z) (l : list FrequentPeer) : res string (list FrequentPeer) :=
  rfold (fun acc p => let! p := frequent_decay now half p in Ok (if 0 <? fp_message_count p then acc ++ [p] else acc)) [] l.

Definition prefetch_record_message (now : Z) (id : PeerId) (hint : Hint) (p : ResumePrefetchManager) : res string ResumePrefetchManager :=
  let! peers := decay_all now (3600 * SEC) (frequent_peers p) in
  let! peers :=
    match list_find (fun f => fp_peer_id f = id) peers with
    | Some (i, f) => let! f := frequent_record now f in Ok (<[i := f]> peers)
    | None => Ok (peers ++ [frequent_new now id hint])
    end in
  Ok (set_frequent (take 50 (stable_sort by_peer_priority peers)) p).

Definition top_frequent_peers (n : Z) (p : ResumePrefetchManager) : list FrequentPeer := take (Z.to_nat n) (frequent_peers p).

Definition prefetch_clear (p : ResumePrefetchManager) : ResumePrefetchManager :=
  mkPrefetch ∅ (frequent_peers p) false (prefetch_started p) (pf_config p) [] 0.
End Prefetch.

(** ** Theorems *)

#[local] Instance by_priority_trans : Transitive by_priority.
Proof. intros a b c. unfold by_priority. lia. Qed.
#[local] Instance by_priority_total : Total by_priority.
Proof. intros a b. unfold by_priority. lia. Qed.
#[local] Instance by_peer_priority_trans : Transitive by_peer_priority.
Proof. intros a b c. unfold by_peer_priority. lia. Qed.
#[local] Instance by_peer_priority_total : Total by_peer_priority.
Proof. intros a b. unfold by_peer_priority. lia. Qed.

Inductive PrefetchOp : Type :=
| OpBackground (now : Z) (current : list (PeerId * Hint * RouteAdvertisement))
| OpUpdate (now : Z) (hint : Hint) (route : RouteAdvertisement)
| OpRefreshFailed (hint : Hint)
| OpStart (hint : Hint)
| OpNext
| OpMessage (now : Z) (id : PeerId) (hint : Hint).

Section PrefetchProofs.
Context `{Build} {FF : FloatFns} {HP : HashIter Hint PrefetchedRoute}.

Definition priority_of (p : ResumePrefetchManager) (h : Hint) : Z := from_option pr_priority 0 (pf_routes p !! h).

(** On resuming, every saved route is queued once, by decreasing priority, and the first of
    the queue are handed out at once, without leaving it: they are handed out again. *)
Theorem resume_queue now p immediate p' :
  0 <= max_concurrent_refreshes (pf_config p) -> on_app_resume now p = (immediate, p') ->
  NoDup (refresh_queue p') /\ (forall h, h ∈ refresh_queue p' <-> is_Some (pf_routes p !! h)) /\
  StronglySorted (fun a b => priority_of p b <= priority_of p a) (refresh_queue p') /\
  zlen immediate = Z.min (max_concurrent_refreshes (pf_config p)) (Z.of_nat (size (pf_routes p))) /\
  immediate `prefix_of` refresh_queue p'.
Proof.
  intros Hmax. unfold on_app_resume. intros [= <- <-]. cbn [refresh_queue].
  set (pairs := map _ (hm_iter (pf_routes p))). pose proof (stable_sort_Permutation by_priority pairs) as Hp.
  assert (pairs.*1 = (hm_iter (pf_routes p)).*1) as Hfst.
  { unfold pairs. change (map ?f ?l) with (f <$> l). rewrite <-list_fmap_compose. done. }
  assert (forall h, h ∈ (stable_sort by_priority pairs).*1 <-> is_Some (pf_routes p !! h)) as Hin.
  { intros h. rewrite Hp, Hfst, list_elem_of_fmap. split.
    - intros ([k r] & -> & Hr%elem_of_hm_iter). by eexists.
    - intros [r Hr%elem_of_hm_iter]. by exists (h, r). }
  split_and!.
  - rewrite Hp, Hfst. apply NoDup_hm_keys.
  - done.
  - assert (StronglySorted by_priority (stable_sort by_priority pairs)) as Hs by (apply StronglySorted_stable_sort; apply _).
    assert (Forall (fun x => x.2 = priority_of p x.1) (stable_sort by_priority pairs)) as Hpr.
    { rewrite Hp. unfold pairs. apply Forall_forall. intros x ([k r] & -> & Hr%elem_of_hm_iter)%list_elem_of_fmap.
      unfold priority_of. cbn. by rewrite Hr. }
    revert Hs Hpr. generalize (stable_sort by_priority pairs). clear. intros l Hs Hpr. induction Hs as [|x l Hs IH Hx]; cbn; [constructor|].
    apply Forall_cons in Hpr as [Hx2 Hl]. constructor; [by apply IH|]. apply Forall_map, Forall_forall. intros y Hy.
    rewrite Forall_forall in Hx, Hl. specialize (Hx y Hy). unfold by_priority in Hx. rewrite Hx2, (Hl y Hy) in Hx. done.
  - assert (zlen (stable_sort by_priority pairs) = Z.of_nat (size (pf_routes p))) as Hz.
    { unfold zlen. rewrite Hp. unfold pairs. by rewrite length_map, length_hm_iter. }
    unfold zlen at 1. rewrite length_take, length_fmap. unfold zlen in *. lia.
  - apply prefix_take.
Qed.

Definition run_prefetch (p : ResumePrefetchManager) (op : PrefetchOp) : res string ResumePrefetchManager :=
  match op with
  | OpBackground now l => Ok (on_app_background now l p)
  | OpUpdate now h r => Ok (update_route now h r p)
  | OpRefreshFailed h => Ok (mark_refresh_failed h p)
  | OpStart h => start_route_refresh h p
  | OpNext => Ok (next_refresh_hint p).2
  | OpMessage now id h => prefetch_record_message now id h p
  end.

(** Starting a refresh is not counted: once the application has resumed, a prefetch counts
    as complete as soon as the queue is empty, whatever is being refreshed, and stays in
    progress for ever. *)
Theorem prefetch_miscounted now p ops p' :
  rfold run_prefetch (on_app_resume now p).2 ops = Ok p' ->
  prefetch_in_progress p' = true /\ active_refreshes p' = 0 /\
  (is_prefetch_complete p' = true <-> refresh_queue p' = []).
Proof.
  intros Hr. enough (prefetch_in_progress p' = true /\ active_refreshes p' = 0) as [H1 H2].
  { unfold is_prefetch_complete. rewrite H2. split_and!; [done..|]. rewrite andb_true_r. apply bool_decide_eq_true. }
  assert (prefetch_in_progress (on_app_resume now p).2 = true /\ active_refreshes (on_app_resume now p).2 = 0) as H0 by done.
  revert Hr H0. generalize (on_app_resume now p).2. clear. induction ops as [|op ops IH]; intros p0 Hr H0; cbn [rfold] in Hr.
  { by injection Hr as <-. }
  apply rbind_ok_inv in Hr as (p1 & H1 & Hr). apply (IH p1 Hr). clear Hr IH. destruct H0 as [Ha Hb].
  destruct op; cbn [run_prefetch] in H1.
  - injection H1 as <-. done.
  - injection H1 as <-. cbn. by rewrite Hb.
  - injection H1 as <-. unfold mark_refresh_failed. destruct (pf_routes p0 !! hint); cbn; by rewrite Hb.
  - unfold start_route_refresh in H1. destruct (pf_routes p0 !! hint); [|by injection H1 as <-].
    apply rbind_ok_inv in H1 as (r & _ & [= <-]). done.
  - injection H1 as <-. unfold next_refresh_hint. by destruct (refresh_queue p0).
  - unfold prefetch_record_message in H1. apply rbind_ok_inv in H1 as (l & _ & (l' & _ & [= <-])%rbind_ok_inv). done.
Qed.

(** A saved route is used for an hour after it was saved, whatever its lifetime. *)
Theorem early_route_unexpired saved later id hint route p :
  later - saved < max_stale_age (pf_config p) -> saved <= later ->
  get_route_early later hint (on_app_background saved [(id, hint, route)] p) = Some route.
Proof.
  intros Hage Hle. unfold get_route_early, on_app_background. cbn [foldl set_pf_routes pf_routes pf_config].
  rewrite lookup_insert_eq. unfold is_usable, prefetched_new. cbn [pr_status last_validated].
  unfold elapsed, sat_sub. by rewrite (proj2 (Z.ltb_lt _ _)) by lia.
Qed.

Lemma decay_all_spec now half l l' :
  decay_all now half l = Ok l' -> map fp_peer_id l' `sublist_of` map fp_peer_id l.
Proof.
  unfold decay_all. enough (forall acc, rfold (fun acc p => let! p := frequent_decay now half p in
    Ok (if 0 <? fp_message_count p then acc ++ [p] else acc)) acc l = Ok l' ->
    exists r, l' = acc ++ r /\ map fp_peer_id r `sublist_of` map fp_peer_id l) as Hg.
  { intros (r & -> & ?)%Hg. done. }
  induction l as [|p l IH]; intros acc; cbn [rfold map].
  { intros [= <-]. exists []. by rewrite app_nil_r. }
  intros (a1 & (q & Hq & [= <-])%rbind_ok_inv & (r & -> & Hs)%IH)%rbind_ok_inv.
  assert (fp_peer_id q = fp_peer_id p) as Hid.
  { unfold frequent_decay in Hq. by apply rbind_ok_inv in Hq as (? & _ & [= <-]). }
  destruct (0 <? fp_message_count q).
  - exists (q :: r). rewrite <-app_assoc. split; [done|]. cbn [map]. rewrite Hid. by apply sublist_skip.
  - exists r. split; [done|]. by apply sublist_cons.
Qed.

(** The list of frequent peers holds at most fifty different peers, most important first. *)
Theorem frequent_peers_kept now id hint p p' :
  NoDup (map fp_peer_id (frequent_peers p)) -> prefetch_record_message now id hint p = Ok p' ->
  NoDup (map fp_peer_id (frequent_peers p')) /\ zlen (frequent_peers p') <= 50 /\
  StronglySorted by_peer_priority (frequent_peers p').
Proof.
  intros Hnd. unfold prefetch_record_message. intros (l & Hl%decay_all_spec & (l' & Hl' & [= <-])%rbind_ok_inv)%rbind_ok_inv.
  assert (NoDup (map fp_peer_id l)) as Hndl by (by eapply sublist_NoDup).
  assert (NoDup (map fp_peer_id l')) as Hndl'.
  { destruct (list_find (fun f => fp_peer_id f = id) l) as [[i f]|] eqn:Hf.
    - apply list_find_Some in Hf as (Hi & <- & _). apply rbind_ok_inv in Hl' as (f' & Hf' & [= <-]).
      unfold frequent_record in Hf'. apply rbind_ok_inv in Hf' as (n & _ & (pr & _ & [= <-])%rbind_ok_inv).
      change (map fp_peer_id) with (fmap (M := list) fp_peer_id) in *. rewrite list_fmap_insert. cbn [fp_peer_id].
      rewrite list_insert_id; [done|]. by rewrite list_lookup_fmap, Hi.
    - injection Hl' as <-. rewrite map_app. cbn [map]. apply NoDup_app. split_and!; [done| |by apply NoDup_singleton].
      intros x (q & -> & Hq)%list_elem_of_fmap Hin%list_elem_of_singleton. apply list_find_None in Hf.
      rewrite Forall_forall in Hf. by apply (Hf q). }
  cbn [frequent_peers set_frequent]. split_and!.
  - eapply sublist_NoDup; [|apply (fmap_sublist fp_peer_id), sublist_take].
    by rewrite (Permutation_map fp_peer_id (stable_sort_Permutation by_peer_priority l')).
  - unfold zlen. rewrite length_take. lia.
  - assert (StronglySorted by_peer_priority (stable_sort by_peer_priority l')) as Hs by (apply StronglySorted_stable_sort; apply _).
    rewrite <-(take_drop 50 (stable_sort by_peer_priority l')) in Hs. by eapply StronglySorted_app_1_l.
Qed.
End PrefetchProofs.

(** ** Examples *)

Module PrefetchExamples.
#[local] Instance pf_build : Build := {| overflow_checks := true |}.
#[local] Instance pf_floats : FloatFns :=
  {| f64_ln x := x; f64_exp x := x; f64_powf x _ := f64_one; f64_powi x _ := f64_mul x x |}.
#[local] Instance pf_iter : HashIter Hint PrefetchedRoute := canonical_iter.

Definition peer : PeerId := [Byte.x01].
Definition hint : Hint := [Byte.x0a; Byte.x0b; Byte.x0c; Byte.x0d].
(** A route that was confirmed at second 1 and lasts one second. *)
Definition route : RouteAdvertisement := mkRoute hint peer 2 (lit 9 10) 1 1 1.
Definition saved : ResumePrefetchManager := on_app_background 0 [(peer, hint, route)] manager_with_defaults.

Lemma resume_queue_witness :
  (on_app_resume 5 saved).1 = [hint] /\ refresh_queue (on_app_resume 5 saved).2 = [hint] /\ NoDup [hint].
Proof.
  split; [by vm_compute|]. split; [by vm_compute|].
  destruct (resume_queue 5 saved [hint] (on_app_resume 5 saved).2) as (Hnd & _); [done|by vm_compute|].
  by replace [hint] with (refresh_queue (on_app_resume 5 saved).2) by (by vm_compute).
Defined.

Lemma prefetch_miscounted_witness :
  exists p', rfold run_prefetch (on_app_resume 5 saved).2 [OpNext; OpStart hint] = Ok p' /\
    prefetch_in_progress p' = true /\ (is_prefetch_complete p' = true <-> refresh_queue p' = []).
Proof.
  destruct (rfold run_prefetch (on_app_resume 5 saved).2 [OpNext; OpStart hint]) as [p'| |] eqn:Hr;
    [|by apply (f_equal is_ok) in Hr; vm_compute in Hr..].
  exists p'. destruct (prefetch_miscounted _ _ _ _ Hr) as (? & _ & ?). split; [reflexivity|]. split; assumption.
Defined.

Lemma early_route_unexpired_witness :
  expired 1000 route = true /\ get_route_early (1000 * SEC) hint saved = Some route.
Proof. split; [by vm_compute|]. apply (early_route_unexpired 0 (1000 * SEC) peer hint route manager_with_defaults); by vm_compute. Defined.

Lemma frequent_peers_kept_witness :
  exists p', prefetch_record_message 7 peer hint manager_with_defaults = Ok p' /\ zlen (frequent_peers p') <= 50.
Proof.
  destruct (prefetch_record_message 7 peer hint manager_with_defaults) as [p'| |] eqn:Hr;
    [|by apply (f_equal is_ok) in Hr; vm_compute in Hr..].
  exists p'. split; [done|]. by apply (frequent_peers_kept 7 peer hint manager_with_defaults p'); [constructor|].
Defined.
End PrefetchExamples.
