(* ===== verification/OptimizedEngine.v ===== *)
(** * Optimized routing engine ([core/src/routing/optimized_engine.rs])

    The engine that the node uses: the negative cache, the prefetched routes and the
    delivery paths are asked before the three layers.  [now] is the wall clock in seconds,
    [at_] the instant in nanoseconds, read once per operation. *)

From Stdlib Require Import SpecFloat.
From S2P Require Import Prelude Effects Ids Floats LocalCell Neighborhood GlobalRoutes RoutingEngine NegativeCache RouteTuning Prefetch.

Record OptimizedRoutingEngine : Type := mkOptimized {
  base_engine : RoutingEngine;
  timeout_budget : TimeoutBudget;
  negative_cache : NegativeCache;
  prefetch_manager : ResumePrefetchManager;
  oe_ttl : AdaptiveTTLManager;
  multipath : MultiPathDelivery;
  oe_local_id : PeerId;
  oe_local_hint : Hint;
  current_phase : DiscoveryPhase;
  discovery_in_progress : bool;
}.

Record OptimizedRoutingMaintenance : Type := mkOptMaintenance {
  base_maintenance : RoutingMaintenance;
  negative_cache_entries_cleaned : Z;
  om_negative_cache_stats : NegativeCacheStats;
  adaptive_ttl_entries_cleaned : Z;
  om_budget_summary : BudgetSummary;
}.

Definition set_base (b : RoutingEngine) (e : OptimizedRoutingEngine) : OptimizedRoutingEngine :=
  mkOptimized b (timeout_budget e) (negative_cache e) (prefetch_manager e) (oe_ttl e) (multipath e) (oe_local_id e)
    (oe_local_hint e) (current_phase e) (discovery_in_progress e).
Definition set_cache (c : NegativeCache) (e : OptimizedRoutingEngine) : OptimizedRoutingEngine :=
  mkOptimized (base_engine e) (timeout_budget e) c (prefetch_manager e) (oe_ttl e) (multipath e) (oe_local_id e)
    (oe_local_hint e) (current_phase e) (discovery_in_progress e).
Definition set_prefetch (p : ResumePrefetchManager) (e : OptimizedRoutingEngine) : OptimizedRoutingEngine :=
  mkOptimized (base_engine e) (timeout_budget e) (negative_cache e) p (oe_ttl e) (multipath e) (oe_local_id e)
    (oe_local_hint e) (current_phase e) (discovery_in_progress e).
Definition set_ttl (t : AdaptiveTTLManager) (e : OptimizedRoutingEngine) : OptimizedRoutingEngine :=
  mkOptimized (base_engine e) (timeout_budget e) (negative_cache e) (prefetch_manager e) t (multipath e) (oe_local_id e)
    (oe_local_hint e) (current_phase e) (discovery_in_progress e).
Definition set_multipath (d : MultiPathDelivery) (e : OptimizedRoutingEngine) : OptimizedRoutingEngine :=
  mkOptimized (base_engine e) (timeout_budget e) (negative_cache e) (prefetch_manager e) (oe_ttl e) d (oe_local_id e)
    (oe_local_hint e) (current_phase e) (discovery_in_progress e).
Definition set_discovery (b : TimeoutBudget) (p : DiscoveryPhase) (on : bool) (e : OptimizedRoutingEngine) : OptimizedRoutingEngine :=
  mkOptimized (base_engine e) b (negative_cache e) (prefetch_manager e) (oe_ttl e) (multipath e) (oe_local_id e)
    (oe_local_hint e) p on.

(** [try_into().unwrap_or([0u8; 4])]. *)
Definition to_hint (l : bytes) : Hint := if zlen l =? 4 then l else replicate 4 Byte.x00.

(** [&s[..n]] panics inside a character. *)
Definition str_prefix (s : string) (n : Z) : res string string :=
  let! l := slice (str_bytes s) 0 n in
  match str_bytes s !! Z.to_nat n with
  | Some b => if between 128 191 b then Panic else Ok (String.string_of_list_byte l)
  | None => Ok (String.string_of_list_byte l)
  end.

Section Optimized.
Context `{Build} {IL : IdLib} {DH : DefaultHasher} {FF : FloatFns}.
Context {HI : HashIter PeerId PeerInfo} {HG : HashIter PeerId GatewayInfo} {HS : HashIter (list Hint) NeighborhoodSummary}.
Context {HR : HashIter Hint (list RouteAdvertisement)} {HE : HashIter string NegativeCacheEntry}.
Context {HP : HashIter Hint PrefetchedRoute} {HM : HashIter Hint (list DeliveryPath)}.

Definition optimized_new (at_ : Z) (id : PeerId) (hint : Hint) : OptimizedRoutingEngine :=
  mkOptimized (engine_new id hint) (default_500ms at_) cache_with_defaults manager_with_defaults ttl_with_defaults multi_new
    id hint LocalCache false.

(** The hint of a peer: the start of the hash of its id. *)
Definition direct_hint (id : PeerId) : Hint := to_hint (take 4 (blake3_hash id)).

Definition carry (hint : Hint) (message_id : bytes) : RoutingDecision :=
  mkDecision message_id hint StoreAndCarry [] LStoreAndCarry f64_zero.

Definition path_hop (p : DeliveryPath) : NextHop := GlobalRoute (path_peer_id p) 1.

(** The first active delivery path, and the others as alternatives. *)
Definition multipath_decision (hint : Hint) (message_id : bytes) (e : OptimizedRoutingEngine) : option RoutingDecision :=
  match active_paths hint (multipath e) with
  | p :: rest =>
      if path_active p then
        Some (mkDecision message_id hint (path_hop p)
          (map path_hop (filter (fun q => path_active q = true) rest)) LGlobal (lit 9 10))
      else None
  | [] => None
  end.

Definition start_discovery_if_needed (at_ : Z) (e : OptimizedRoutingEngine) : OptimizedRoutingEngine :=
  if discovery_in_progress e then e else set_discovery (default_500ms at_) LocalCache true e.

(** A direct hop by the transport the peer was last seen on, with its other transports as
    alternatives. *)
Definition prefer_active_transport (e : RoutingEngine) (d : RoutingDecision) : RoutingDecision :=
  match d_primary d with
  | Direct id t =>
      match get_peer id (local e) with
      | Some p =>
          let t := match status p with Active _ active_t => active_t | _ => t end in
          let add l alt := if bool_decide (alt <> t) then push_new l (Direct id alt) else l in
          mkDecision (d_message_id d) (d_recipient_hint d) (Direct id t) (foldl add (d_alternatives d) (transports p))
            (d_decided_by d) (d_confidence d)
      | None => d
      end
  | _ => d
  end.

(** The lifetime of a global next hop is read and its activity counted; returns the name
    under which the next hop is known, empty for the other hops. *)
Definition track_next_hop (at_ : Z) (d : RoutingDecision) (e : OptimizedRoutingEngine) : res string (string * OptimizedRoutingEngine) :=
  match d_primary d with
  | GlobalRoute next_hop_id _ =>
      let s := hex_encode next_hop_id in
      let! r := calculate_ttl at_ s (oe_ttl e) in
      let! t := record_activity at_ s r.2 in
      Ok (s, set_ttl t e)
  | _ => Ok (EmptyString, e)
  end.

Definition route_message_optimized (hint : Hint) (message_id : bytes) (priority now at_ : Z) (e : OptimizedRoutingEngine) :
    res string (RoutingDecision * OptimizedRoutingEngine) :=
  let! r := is_definitely_unreachable at_ (hex_encode hint) (negative_cache e) in
  let e := set_cache r.2 e in
  if r.1 then Ok (carry hint message_id, e)
  else
    match get_route_early at_ hint (prefetch_manager e) with
    | Some route => Ok (mkDecision message_id hint (route_hop route) [] LGlobal (lit 95 100), e)
    | None =>
        match multipath_decision hint message_id e with
        | Some d => Ok (d, e)
        | None =>
            let e := start_discovery_if_needed at_ e in
            let d := prefer_active_transport (base_engine e) (route_message hint message_id priority now (base_engine e)) in
            let! t := track_next_hop at_ d e in
            let e := t.2 in
            if bool_decide (d_primary d = StoreAndCarry) && (100 <=? priority) && negb (String.eqb t.1 EmptyString)
            then let! c := record_unreachable at_ t.1 (negative_cache e) in Ok (d, set_cache c e)
            else Ok (d, e)
        end
    end.

Definition advance_discovery_phase (at1 at2 : Z) (e : OptimizedRoutingEngine) : option DiscoveryPhase * OptimizedRoutingEngine :=
  if negb (discovery_in_progress e) then (None, e)
  else
    let r := advance at1 at2 (timeout_budget e) in
    match r.1 with
    | Some p => (Some p, set_discovery r.2 p true e)
    | None => (None, set_discovery r.2 (current_phase e) false e)
    end.

Definition optimized_tick (now at_ : Z) (e : OptimizedRoutingEngine) : res string (OptimizedRoutingMaintenance * OptimizedRoutingEngine) :=
  let! b := engine_tick now (base_engine e) in
  let stats := cache_stats (negative_cache e) in
  let! c := cleanup_expired at_ (negative_cache e) in
  let t := ttl_cleanup at_ (86400 * SEC) (oe_ttl e) in
  let e := set_ttl t.2 (set_cache c.2 (set_base b.2 e)) in
  Ok (mkOptMaintenance b.1 c.1 stats t.1 (budget_summary at_ (timeout_budget e)), e).

Definition opt_on_app_background (at_ : Z) (current : list (PeerId * Hint * RouteAdvertisement)) (e : OptimizedRoutingEngine) :
    OptimizedRoutingEngine := set_prefetch (on_app_background at_ current (prefetch_manager e)) e.

Definition opt_on_app_resume (at_ : Z) (e : OptimizedRoutingEngine) : list Hint * OptimizedRoutingEngine :=
  let r := on_app_resume at_ (prefetch_manager e) in (r.1, set_prefetch r.2 e).

Definition record_message_activity (at_ : Z) (id : string) (e : OptimizedRoutingEngine) : res string OptimizedRoutingEngine :=
  let! t := record_activity at_ id (oe_ttl e) in Ok (set_ttl t e).

Definition record_unreachable_peer (at_ : Z) (id : string) (e : OptimizedRoutingEngine) : res string OptimizedRoutingEngine :=
  let! c := record_unreachable at_ id (negative_cache e) in Ok (set_cache c e).

Definition clear_unreachable_peer (id : string) (e : OptimizedRoutingEngine) : OptimizedRoutingEngine :=
  set_cache (clear_unreachable id (negative_cache e)) e.

Definition refresh_delegate_routes (at_ : Z) (e : OptimizedRoutingEngine) : OptimizedRoutingEngine :=
  set_ttl (ttl_cleanup at_ (300 * SEC) (oe_ttl e)).2 e.

Definition evaluate_all_tracked (at_ : Z) (e : OptimizedRoutingEngine) : res string (Z * OptimizedRoutingEngine) :=
  let! c := cleanup_expired at_ (negative_cache e) in
  let t := ttl_cleanup at_ (86400 * SEC) (oe_ttl e) in
  let! n := chk_u 64 (c.1 + t.1) in
  Ok (n, set_ttl t.2 (set_cache c.2 e)).

(** [peer_seen] of the engine. *)
Definition opt_peer_seen (now at_ : Z) (id : PeerId) (t : TransportType) (e : OptimizedRoutingEngine) : res string OptimizedRoutingEngine :=
  let peer_id_hex := hex_encode id in
  let e := set_cache (clear_unreachable peer_id_hex (negative_cache e)) e in
  let! ttl := record_activity at_ peer_id_hex (oe_ttl e) in
  let e := set_ttl ttl e in
  let! cell := peer_seen now id t (local (base_engine e)) in
  let cell :=
    match get_peer id cell with
    | Some p =>
        if bool_decide (direct_hint id ∈ reachable_hints p) then cell
        else update_peer_hints id (reachable_hints p ++ [direct_hint id]) cell
    | None => cell
    end in
  Ok (set_base (set_local_cell cell (base_engine e)) e).

Definition can_reach_destination (at_ : Z) (peer_id_hex : string) (e : OptimizedRoutingEngine) : res string (bool * OptimizedRoutingEngine) :=
  let! r := is_definitely_unreachable at_ peer_id_hex (negative_cache e) in
  let e := set_cache r.2 e in
  if r.1 then Ok (false, e)
  else
    let cell := local (base_engine e) in
    let known :=
      match hex_decode peer_id_hex with
      | Some id =>
          (zlen id =? 32) &&
          (match get_peer id cell with Some p => is_active p | None => false end
           || negb (bool_decide (peers_for_hint (direct_hint id) cell = [])))
      | None => false
      end in
    if known then Ok (true, e)
    else
      let! hint :=
        if 8 <=? str_len peer_id_hex
        then let! s := str_prefix peer_id_hex 8 in Ok (to_hint (default [] (hex_decode s)))
        else Ok (replicate 4 Byte.x00) in
      Ok (negb (bool_decide (peers_for_hint hint cell = [])), e).

Definition opt_prune_below (threshold : f64) (e : OptimizedRoutingEngine) : res string OptimizedRoutingEngine :=
  let e := set_multipath (prune_below threshold (multipath e)) e in
  let! c := prune_below_confidence threshold (negative_cache e) in
  Ok (set_cache c.2 e).

Definition multipath_mark_path_failed (id : Z) (e : OptimizedRoutingEngine) : res string OptimizedRoutingEngine :=
  let! d := mark_path_failed id (multipath e) in Ok (set_multipath d e).

(** The first 32 bytes, filled up with zeros. *)
Definition pad_peer_id (l : bytes) : PeerId := if 32 <=? zlen l then take 32 l else l ++ replicate (32 - length l) Byte.x00.

Definition multipath_register_path (peer_id_hex : string) (id latency_ms : Z) (e : OptimizedRoutingEngine) : OptimizedRoutingEngine :=
  let peer_id := pad_peer_id (default [] (hex_decode peer_id_hex)) in
  let path := mkPath id peer_id latency_ms true (f64_of 75) 0 0 in
  set_multipath (register_path (direct_hint peer_id) path (multipath e)) e.
End Optimized.

(** ** Theorems *)

Section OptimizedProofs.
Context `{Build} {IL : IdLib} {LH : LawfulHex} {DH : DefaultHasher} {FF : FloatFns}.
Context {HI : HashIter PeerId PeerInfo} {HG : HashIter PeerId GatewayInfo} {HS : HashIter (list Hint) NeighborhoodSummary}.
Context {HR : HashIter Hint (list RouteAdvertisement)} {HE : HashIter string NegativeCacheEntry}.
Context {HP : HashIter Hint PrefetchedRoute} {HM : HashIter Hint (list DeliveryPath)}.

(** What a sighting leaves in the cell. *)
Lemma opt_peer_seen_spec n now at_ id t e e' :
  cell_ok n (local (base_engine e)) -> opt_peer_seen now at_ id t e = Ok e' ->
  cell_ok n (local (base_engine e')) /\
  negative_cache e' = clear_unreachable (hex_encode id) (negative_cache e) /\
  prefetch_manager e' = prefetch_manager e /\ multipath e' = multipath e /\
  exists p, peers (local (base_engine e')) !! id = Some p /\ status p = Active now t /\ direct_hint id ∈ reachable_hints p.
Proof.
  intros Hc. unfold opt_peer_seen. intros (ttl & _ & (cell & Hcell & [= <-])%rbind_ok_inv)%rbind_ok_inv.
  cbn [base_engine set_base set_ttl set_cache local set_local_cell negative_cache prefetch_manager multipath] in *.
  destruct (peer_seen_ok n now id t _ Hc) as (cell' & Hs & Hok). rewrite Hs in Hcell. injection Hcell as ->.
  assert (exists p, peers cell !! id = Some p /\ status p = Active now t /\ peer_id p = id) as (p & Hp & Hst & Hid).
  { unfold peer_seen in Hs. destruct (peers (local (base_engine e)) !! id) as [q|] eqn:Hq.
    - injection Hs as <-. cbn. rewrite lookup_insert_eq. eexists. split_and!; [done..|]. by destruct Hc as [Hx _]; destruct (Hx _ _ Hq).
    - apply rbind_ok_inv in Hs as (c1 & _ & [= <-]). cbn. rewrite lookup_insert_eq. by eexists. }
  unfold get_peer. rewrite Hp. case_bool_decide as Hh.
  - split_and!; try done. by exists p.
  - unfold update_peer_hints. rewrite Hp. split_and!; try done.
    + eapply cell_ok_replace; [done..|]. destruct Hok as [Hx _]. by destruct (Hx _ _ Hp).
    + exists (set_hints (reachable_hints p ++ [direct_hint id]) p). cbn. rewrite lookup_insert_eq. split_and!; [done..|]. set_solver.
Qed.

Lemma clear_ok n id c : cache_ok n c -> n + 1 < 2 ^ 32 -> cache_ok (n + 1) (clear_unreachable id c).
Proof.
  intros Hc Hn. destruct (step_refines (OpClearOne id) n c Hc Hn) as (a & c' & Hr & _ & Hok & _). by injection Hr as _ <-.
Qed.

(** A peer that was just seen can be reached, even if it was unreachable before. *)
Theorem seen_is_reachable n m now at_ later id t e e' :
  cell_ok n (local (base_engine e)) -> cache_ok m (negative_cache e) -> m + 2 < 2 ^ 32 -> zlen id = 32 ->
  opt_peer_seen now at_ id t e = Ok e' -> exists e'', can_reach_destination later (hex_encode id) e' = Ok (true, e'').
Proof.
  intros Hc Hcache Hm Hid Hs. destruct (opt_peer_seen_spec n now at_ id t e e' Hc Hs) as (_ & Hneg & _ & _ & p & Hp & Hst & _).
  unfold can_reach_destination. rewrite Hneg.
  destruct (check_refines later (hex_encode id) (m + 1) (clear_unreachable (hex_encode id) (negative_cache e))) as (c' & -> & _);
    [apply clear_ok; [done|lia]|lia|].
  cbn [entries clear_unreachable set_entries]. rewrite lookup_delete_eq. cbn [rbind fst snd]. rewrite hex_decode_encode, Hid.
  cbn [Z.eqb Pos.eqb andb]. unfold get_peer. cbn [base_engine set_cache]. rewrite Hp. unfold is_active. rewrite Hst. cbn [orb].
  by eexists.
Qed.

(** What the engine answers when the negative cache answers [b]. *)
Lemma route_optimized_cases hint mid priority now at_ e b c :
  is_definitely_unreachable at_ (hex_encode hint) (negative_cache e) = Ok (b, c) ->
  exists r, route_message_optimized hint mid priority now at_ e = r /\
    rmap fst r =
    (if b then Ok (carry hint mid)
     else match get_route_early at_ hint (prefetch_manager e) with
          | Some route => Ok (mkDecision mid hint (route_hop route) [] LGlobal (lit 95 100))
          | None =>
              match multipath_decision hint mid e with
              | Some d => Ok d
              | None =>
                  let d := prefer_active_transport (base_engine e) (route_message hint mid priority now (base_engine e)) in
                  rmap (fun _ => d) (track_next_hop at_ d e)
              end
          end) /\
    forall d e', r = Ok (d, e') -> negative_cache e' = c.
Proof.
  intros Hd. eexists. split; [done|]. unfold route_message_optimized. rewrite Hd. cbn [rbind fst snd].
  destruct b; [split; [done|]; by intros ? ? [= _ <-]|]. cbn [prefetch_manager set_cache].
  destruct (get_route_early _ _ _); [split; [done|]; by intros ? ? [= _ <-]|].
  change (multipath_decision hint mid (set_cache c e)) with (multipath_decision hint mid e).
  destruct (multipath_decision _ _ _); [split; [done|]; by intros ? ? [= _ <-]|].
  set (e1 := start_discovery_if_needed at_ (set_cache c e)).
  assert (base_engine e1 = base_engine e /\ negative_cache e1 = c /\ oe_ttl e1 = oe_ttl e) as (Hb & Hc & Ht).
  { unfold e1, start_discovery_if_needed. by destruct (discovery_in_progress _). }
  rewrite Hb. set (d := prefer_active_transport _ _). clearbody d. cbn zeta. unfold track_next_hop. rewrite Ht.
  destruct (d_primary d) eqn:Hp; cbn [rbind rmap fst snd].
  1,2,5: rewrite bool_decide_false by done; cbn [andb rmap fst]; split; [done|]; by intros ? ? [= _ <-].
  2:{ rewrite andb_false_r. split; [done|]. by intros ? ? [= _ <-]. }
  destruct (calculate_ttl _ _ _) as [r| |]; cbn [rbind rmap fst snd]; [|done..].
  destruct (record_activity _ _ _) as [t| |]; cbn [rbind rmap fst snd]; [|done..].
  rewrite bool_decide_false by done. cbn [andb rmap fst]. split; [done|]. by intros ? ? [= _ <-].
Qed.

(** Routing never records a destination as unreachable, although the code means to. *)
Theorem routing_never_caches hint mid priority now at_ e d e' :
  route_message_optimized hint mid priority now at_ e = Ok (d, e') ->
  entries (negative_cache e') = entries (negative_cache e).
Proof.
  intros Hr.
  destruct (is_definitely_unreachable at_ (hex_encode hint) (negative_cache e)) as [[b c]| |] eqn:Hd;
    [|unfold route_message_optimized in Hr; by rewrite Hd in Hr..].
  destruct (route_optimized_cases hint mid priority now at_ e b c Hd) as (r & <- & _ & Hc). rewrite (Hc _ _ Hr). clear Hr Hc.
  unfold is_definitely_unreachable, bump_checks, bump_hits, bump_misses in Hd. repeat case_match; res_inv; repeat case_match; res_inv; simplify_eq; done.
Qed.

(** A direct decision after the transport is chosen. *)
Lemma local_decision hint mid priority now e n p k :
  cell_ok n (local e) -> peers (local e) !! k = Some p -> is_active p = true -> hint ∈ reachable_hints p ->
  exists q tr seen p', d_primary (prefer_active_transport e (route_message hint mid priority now e)) = Direct q tr /\
    peers (local e) !! q = Some p' /\ status p' = Active seen tr /\ hint ∈ reachable_hints p'.
Proof.
  intros [Hok _] Hp Ha Hh. unfold route_message. destruct (peers_for_hint hint (local e)) as [|q qs] eqn:Hq.
  { exfalso. assert (p ∈ peers_for_hint hint (local e)) as Hin by (apply elem_of_peers_for_hint; eauto). rewrite Hq in Hin. set_solver. }
  assert (q ∈ peers_for_hint hint (local e)) as (Hqa & Hqh & k' & Hk')%elem_of_peers_for_hint by (rewrite Hq; by left).
  destruct (Hok _ _ Hk') as [Hid _]. unfold prefer_active_transport. cbn [d_primary]. unfold get_peer. rewrite Hid, Hk'. cbn [d_primary].
  unfold is_active in Hqa. destruct (status q) as [seen tr|?|?] eqn:Hst; [|done..]. exists k', tr, seen, q. split_and!; done.
Qed.

(** A message for a peer that was just seen goes directly to a peer of its hint, over the
    transport on which that one was last seen, unless the hint itself is in the negative
    cache, a route was prefetched for it or it has a delivery path. *)
Theorem seen_is_routed_directly n m now at_ later secs id t e e' mid priority :
  cell_ok n (local (base_engine e)) -> cache_ok m (negative_cache e) -> m + 2 < 2 ^ 32 ->
  opt_peer_seen now at_ id t e = Ok e' ->
  entries (negative_cache e) !! hex_encode (direct_hint id) = None ->
  get_route_early later (direct_hint id) (prefetch_manager e) = None -> active_paths (direct_hint id) (multipath e) = [] ->
  exists d e'', route_message_optimized (direct_hint id) mid priority secs later e' = Ok (d, e'') /\
    exists q tr seen p, d_primary d = Direct q tr /\ peers (local (base_engine e')) !! q = Some p /\
      status p = Active seen tr /\ direct_hint id ∈ reachable_hints p.
Proof.
  intros Hc Hcache Hm Hs Hneg Hpre Hmulti.
  destruct (opt_peer_seen_spec n now at_ id t e e' Hc Hs) as (Hc' & Hneg' & Hpre' & Hmul' & p & Hp & Hst & Hh).
  destruct (check_refines later (hex_encode (direct_hint id)) (m + 1) (negative_cache e')) as (c' & Hd & _);
    [rewrite Hneg'; apply clear_ok; [done|lia]|lia|].
  assert (entries (negative_cache e') !! hex_encode (direct_hint id) = None) as Hnone.
  { rewrite Hneg'. cbn [clear_unreachable set_entries entries]. rewrite lookup_delete. by case_decide. }
  rewrite Hnone in Hd.
  destruct (local_decision (direct_hint id) mid priority secs (base_engine e') n p id Hc' Hp) as (q & tr & seen & p' & Hprim & Hloc);
    [unfold is_active; by rewrite Hst|done|].
  destruct (route_optimized_cases (direct_hint id) mid priority secs later e' false c' Hd) as (r & Hr & Hcase & _).
  rewrite Hpre', Hpre in Hcase. unfold multipath_decision in Hcase. rewrite Hmul', Hmulti in Hcase. cbn zeta in Hcase.
  unfold track_next_hop in Hcase. rewrite Hprim in Hcase. cbn [rmap] in Hcase.
  destruct r as [[d e'']| |]; [|done..]. injection Hcase as Hd'. exists d, e''. split; [done|]. exists q, tr, seen, p'.
  cbn [fst] in Hd'. by rewrite Hd'.
Qed.

Lemma hex_length_inj a b : hex_encode a = hex_encode b -> zlen a = zlen b.
Proof using LH. intros Heq%(f_equal str_len). rewrite !hex_encode_len in Heq. lia. Qed.

(** Recording a peer as unreachable under its 32-byte id does not change where messages for
    its hint are sent: the cache is asked for the hexadecimal of the 4-byte hint. *)
Theorem unreachable_peer_still_routed m at1 at2 id hint mid priority now e e' :
  cache_ok m (negative_cache e) -> m + 2 < 2 ^ 32 -> zlen id = 32 -> zlen hint = 4 ->
  cache_len (negative_cache e) < max_entries (negative_cache e) ->
  record_unreachable_peer at1 (hex_encode id) e = Ok e' ->
  rmap fst (route_message_optimized hint mid priority now at2 e') = rmap fst (route_message_optimized hint mid priority now at2 e).
Proof.
  intros Hc Hm Hid Hh Hroom. unfold record_unreachable_peer. intros (c1 & H1 & [= <-])%rbind_ok_inv.
  destruct (record_refines at1 (hex_encode id) m (negative_cache e) Hc) as (c1' & H1' & Hent & Hc1 & _); [lia|].
  rewrite H1' in H1. injection H1 as ->. injection Hent as Hent.
  assert (entries c1 !! hex_encode hint = entries (negative_cache e) !! hex_encode hint) as Hsame.
  { assert (hex_encode id <> hex_encode hint) as Hne by (intros Heq%hex_length_inj; lia).
    unfold cache_len in Hroom. rewrite Hent. destruct (entries (negative_cache e) !! hex_encode id); [by rewrite lookup_insert_ne|].
    rewrite (proj2 (Z.leb_gt (max_entries (negative_cache e)) _)) by lia. by rewrite lookup_insert_ne. }
  destruct (check_refines at2 (hex_encode hint) m (negative_cache e) Hc) as (c2 & Hd2 & _); [lia|].
  destruct (check_refines at2 (hex_encode hint) (m + 1) c1 Hc1) as (c3 & Hd3 & _); [lia|]. rewrite Hsame in Hd3.
  destruct (route_optimized_cases hint mid priority now at2 e _ c2 Hd2) as (r2 & -> & -> & _).
  destruct (route_optimized_cases hint mid priority now at2 (set_cache c1 e) _ c3 Hd3) as (r3 & -> & -> & _).
  destruct (match entries (negative_cache e) !! hex_encode hint with Some e0 => _ | None => false end); [done|].
  cbn [prefetch_manager set_cache base_engine]. unfold multipath_decision, track_next_hop. cbn [multipath set_cache oe_ttl].
  destruct (get_route_early _ _ _); [done|]. destruct (match active_paths _ _ with [] => _ | _ :: _ => _ end); [done|].
  cbn zeta. destruct (d_primary _); try done. destruct (calculate_ttl _ _ _) as [r| |]; [|done..]. cbn [rbind].
  by destruct (record_activity _ _ _).
Qed.
End OptimizedProofs.

(** ** Examples *)

Module OptimizedExamples.
#[local] Instance oe_build : Build := {| overflow_checks := true |}.
Import SampleIds.
#[local] Instance oe_hasher : DefaultHasher := {| hasher_finish l := le_combine (take 8 l) |}.
#[local] Instance oe_floats : FloatFns :=
  {| f64_ln x := if bool_decide (x = lit 1 100) then SFopp (lit 46 10) else lit 69 100; f64_exp x := x;
     f64_powf x _ := x; f64_powi x _ := f64_mul x x |}.
#[local] Instance oe_peers : HashIter PeerId PeerInfo := canonical_iter.
#[local] Instance oe_gateways : HashIter PeerId GatewayInfo := canonical_iter.
#[local] Instance oe_summaries : HashIter (list Hint) NeighborhoodSummary := canonical_iter.
#[local] Instance oe_routes : HashIter Hint (list RouteAdvertisement) := canonical_iter.
#[local] Instance oe_entries : HashIter string NegativeCacheEntry := canonical_iter.
#[local] Instance oe_prefetched : HashIter Hint PrefetchedRoute := canonical_iter.
#[local] Instance oe_paths : HashIter Hint (list DeliveryPath) := canonical_iter.

Definition id : PeerId := replicate 32 Byte.x07.
Definition start : OptimizedRoutingEngine := optimized_new 0 [] [].
Definition seen : OptimizedRoutingEngine := match opt_peer_seen 1000 5 id TCP start with Ok e => e | _ => start end.

Lemma seen_ok : opt_peer_seen 1000 5 id TCP start = Ok seen.
Proof.
  unfold seen. assert (is_ok (opt_peer_seen 1000 5 id TCP start) = true) as Hok by (by vm_compute).
  by destruct (opt_peer_seen 1000 5 id TCP start).
Qed.

Lemma start_cell : cell_ok 1000 (local (base_engine start)).
Proof. split_and!; [apply map_Forall_empty|done|]. cbn [start optimized_new base_engine engine_new local cell_new peers]. by rewrite map_size_empty. Qed.

Lemma start_cache : cache_ok 0 (negative_cache start).
Proof.
  split; [split; by vm_compute|]. split; [|split_and!; try (by vm_compute); apply map_Forall_empty].
  intros i [e Hi]. change (entries (negative_cache start)) with (∅ : gmap string NegativeCacheEntry) in Hi.
  by rewrite lookup_empty in Hi.
Qed.

Lemma seen_is_reachable_witness : exists e'', can_reach_destination 9 (hex_encode id) seen = Ok (true, e'').
Proof. by apply (seen_is_reachable 1000 0 1000 5 9 id TCP start seen start_cell start_cache); [| |apply seen_ok]. Defined.

Lemma seen_is_routed_directly_witness :
  exists d e'', route_message_optimized (direct_hint id) [] 0 1000 9 seen = Ok (d, e'') /\
    exists q tr s p, d_primary d = Direct q tr /\ peers (local (base_engine seen)) !! q = Some p /\
      status p = Active s tr /\ direct_hint id ∈ reachable_hints p.
Proof.
  by apply (seen_is_routed_directly 1000 0 1000 5 9 1000 id TCP start seen [] 0 start_cell start_cache); [|apply seen_ok|..].
Defined.

Lemma routing_never_caches_witness :
  exists d e', route_message_optimized [] [] 200 1000 9 start = Ok (d, e') /\ d_primary d = RouteDiscovery [] /\
    entries (negative_cache e') = entries (negative_cache start).
Proof.
  destruct (route_message_optimized [] [] 200 1000 9 start) as [[d e']| |] eqn:Hr;
    [|by apply (f_equal is_ok) in Hr; vm_compute in Hr..].
  exists d, e'. split; [reflexivity|]. split; [|by apply (routing_never_caches _ _ _ _ _ _ _ _ Hr)].
  assert (match route_message_optimized [] [] 200 1000 9 start with Ok r => d_primary r.1 | _ => StoreAndCarry end = RouteDiscovery []) as Hd
    by (by vm_compute). by rewrite Hr in Hd.
Defined.

Lemma unreachable_peer_still_routed_witness :
  exists e', record_unreachable_peer 9 (hex_encode id) start = Ok e' /\
    rmap fst (route_message_optimized (replicate 4 Byte.x07) [] 0 1000 9 e') =
    rmap fst (route_message_optimized (replicate 4 Byte.x07) [] 0 1000 9 start).
Proof.
  destruct (record_unreachable_peer 9 (hex_encode id) start) as [e'| |] eqn:Hr;
    [|by apply (f_equal is_ok) in Hr; vm_compute in Hr..].
  exists e'. split; [reflexivity|].
  by apply (unreachable_peer_still_routed 0 9 9 id (replicate 4 Byte.x07) [] 0 1000 start e' start_cache).
Defined.
End OptimizedExamples.
