(* ===== verification/AddrFilter.v ===== *)
(** * Address filtering ([core/src/transport/addr_filter.rs])

    Which addresses a node dials, tells a stranger about, tells a neighbour on its own
    network about, and writes into its ledger.  A multiaddr is the list of its protocol
    components; reading and printing one is third-party code, the class [MultiaddrLib]. *)

From S2P Require Import Prelude Effects.

(** ** Addresses *)

Record Ipv4Addr : Type := ipv4 { o0 : Z; o1 : Z; o2 : Z; o3 : Z }.

(** The eight segments of an IPv6 address. *)
Record Ipv6Addr : Type := ipv6 { s0 : Z; s1 : Z; s2 : Z; s3 : Z; s4 : Z; s5 : Z; s6 : Z; s7 : Z }.

#[global] Instance Ipv4Addr_eq_dec : EqDecision Ipv4Addr.
Proof. solve_decision. Defined.

#[global] Instance Ipv6Addr_eq_dec : EqDecision Ipv6Addr.
Proof. solve_decision. Defined.

Inductive IpAddr : Type := V4 (ip : Ipv4Addr) | V6 (ip : Ipv6Addr).

(** [libp2p::multiaddr::Protocol]; [Other] is any component the filter does not look at. *)
Inductive Protocol : Type :=
  | Ip4 (ip : Ipv4Addr) | Ip6 (ip : Ipv6Addr)
  | Dns (name : string) | Dns4 (name : string) | Dns6 (name : string) | Dnsaddr (name : string)
  | Tcp (port : Z) | Udp (port : Z)
  | P2p (peer : string) | P2pCircuit
  | Other (name : string).

#[global] Instance Protocol_eq_dec : EqDecision Protocol.
Proof. solve_decision. Defined.

Notation Multiaddr := (list Protocol).

(** Third-party: [str::parse::<Multiaddr>] and [Multiaddr::to_string]. *)
Class MultiaddrLib : Type := {
  parse_multiaddr : string -> option Multiaddr;
  print_multiaddr : Multiaddr -> string;
}.

(** What is printed reads back, and only the address of no component is the empty text. *)
Class LawfulMultiaddr {ML : MultiaddrLib} : Prop := {
  parse_print : forall a, parse_multiaddr (print_multiaddr a) = Some a;
  print_empty : forall a, print_multiaddr a = ""%string -> a = [];
}.

(** *** The standard library's classes of addresses *)

Definition v4_loopback (ip : Ipv4Addr) : bool := o0 ip =? 127.
Definition v4_unspecified (ip : Ipv4Addr) : bool := (o0 ip =? 0) && (o1 ip =? 0) && (o2 ip =? 0) && (o3 ip =? 0).
Definition v4_link_local (ip : Ipv4Addr) : bool := (o0 ip =? 169) && (o1 ip =? 254).
Definition v4_multicast (ip : Ipv4Addr) : bool := (224 <=? o0 ip) && (o0 ip <=? 239).
Definition v4_broadcast (ip : Ipv4Addr) : bool :=
  (o0 ip =? 255) && (o1 ip =? 255) && (o2 ip =? 255) && (o3 ip =? 255).
Definition v4_private (ip : Ipv4Addr) : bool :=
  (o0 ip =? 10) || ((o0 ip =? 172) && ((16 <=? o1 ip) && (o1 ip <=? 31))) || ((o0 ip =? 192) && (o1 ip =? 168)).

Definition v6_loopback (ip : Ipv6Addr) : bool := bool_decide (ip = ipv6 0 0 0 0 0 0 0 1).
Definition v6_unspecified (ip : Ipv6Addr) : bool := bool_decide (ip = ipv6 0 0 0 0 0 0 0 0).
Definition v6_multicast (ip : Ipv6Addr) : bool := Z.land (s0 ip) 0xff00 =? 0xff00.
Definition v6_unicast_link_local (ip : Ipv6Addr) : bool := Z.land (s0 ip) 0xffc0 =? 0xfe80.

(** The high and the low octet of a segment. *)
Definition hi (s : Z) : Z := s / 256.
Definition lo (s : Z) : Z := s mod 256.

(** [Ipv6Addr::to_ipv4]: [::a.b.c.d] and [::ffff:a.b.c.d]. *)
Definition to_ipv4 (ip : Ipv6Addr) : option Ipv4Addr :=
  if (s0 ip =? 0) && (s1 ip =? 0) && (s2 ip =? 0) && (s3 ip =? 0) && (s4 ip =? 0) &&
     ((s5 ip =? 0) || (s5 ip =? 0xffff))
  then Some (ipv4 (hi (s6 ip)) (lo (s6 ip)) (hi (s7 ip)) (lo (s7 ip)))
  else None.

(** ** The filter *)

Inductive NetworkMode : Type := Local | Public.

Inductive DnsPolicy : Type := Reject | AllowLocallyConfigured.

Inductive Audience : Type := Dial (mode : NetworkMode) | Disclose | DialTrustedLocalProxy.

Definition is_unconditionally_routable_ipv4 (ip : Ipv4Addr) : bool :=
  if v4_loopback ip || v4_unspecified ip || v4_link_local ip || v4_multicast ip || v4_broadcast ip then false
  else if o0 ip =? 0 then false
  else if (o0 ip =? 192) && (o1 ip =? 0) && (o2 ip =? 0) then false
  else true.

Definition is_globally_routable_ipv4 (ip : Ipv4Addr) : bool :=
  if negb (is_unconditionally_routable_ipv4 ip) then false
  else if v4_private ip then false
  else if (o0 ip =? 100) && ((64 <=? o1 ip) && (o1 ip <=? 127)) then false
  else if (o0 ip =? 192) && (o1 ip =? 0) && (o2 ip =? 2) then false
  else if (o0 ip =? 198) && ((o1 ip =? 18) || (o1 ip =? 19)) then false
  else if 240 <=? o0 ip then false
  else true.

Definition embedded_ipv4 (ip : Ipv6Addr) : option Ipv4Addr :=
  match to_ipv4 ip with
  | Some v4 => Some v4
  | None =>
      if (s0 ip =? 0x0064) && (s1 ip =? 0xff9b) && (s2 ip =? 0) && (s3 ip =? 0) && (s4 ip =? 0) && (s5 ip =? 0)
      then Some (ipv4 (hi (s6 ip)) (lo (s6 ip)) (hi (s7 ip)) (lo (s7 ip)))
      else if (s0 ip =? 0x0064) && (s1 ip =? 0xff9b) && (s2 ip =? 0x0001)
      then Some (ipv4 (hi (s3 ip)) (lo (s3 ip)) (lo (s4 ip)) (hi (s5 ip)))
      else if s0 ip =? 0x2002 then Some (ipv4 (hi (s1 ip)) (lo (s1 ip)) (hi (s2 ip)) (lo (s2 ip)))
      else None
  end.

(** [!o] of an octet. *)
Definition not_u8 (o : Z) : Z := 255 - o.

Definition teredo_ipv4s (ip : Ipv6Addr) : option (Ipv4Addr * Ipv4Addr) :=
  if negb (s0 ip =? 0x2001) || negb (s1 ip =? 0x0000) then None
  else Some (ipv4 (hi (s2 ip)) (lo (s2 ip)) (hi (s3 ip)) (lo (s3 ip)),
             ipv4 (not_u8 (hi (s6 ip))) (not_u8 (lo (s6 ip))) (not_u8 (hi (s7 ip))) (not_u8 (lo (s7 ip)))).

Definition ipv4_permitted (ip : Ipv4Addr) (audience : Audience) : bool :=
  match audience with
  | Dial Local => is_unconditionally_routable_ipv4 ip
  | Dial Public => is_unconditionally_routable_ipv4 ip && negb (v4_private ip)
  | Disclose => is_globally_routable_ipv4 ip
  | DialTrustedLocalProxy => v4_loopback ip || is_unconditionally_routable_ipv4 ip
  end.

Definition unique_local (ip : Ipv6Addr) : bool := Z.land (s0 ip) 0xfe00 =? 0xfc00.

Definition ipv6_permitted (ip : Ipv6Addr) (audience : Audience) : bool :=
  match embedded_ipv4 ip with
  | Some v4 => ipv4_permitted v4 audience
  | None =>
      match teredo_ipv4s ip with
      | Some (server, client) => ipv4_permitted server audience && ipv4_permitted client audience
      | None =>
          if v6_loopback ip || v6_unspecified ip || v6_multicast ip then false
          else if (Z.land (s0 ip) 0xffc0 =? 0xfe80) || (Z.land (s0 ip) 0xffc0 =? 0xfec0) then false
          else match audience with
               | Dial Local => true
               | DialTrustedLocalProxy => true
               | Dial Public | Disclose => negb (unique_local ip)
               end
      end
  end.

(** The traversal, with the flags [has_transport] and [has_circuit] as it goes. *)
Fixpoint check_from (audience : Audience) (dns : DnsPolicy) (has_transport has_circuit : bool) (addr : Multiaddr) : bool :=
  match addr with
  | [] => has_transport
  | proto :: addr =>
      if has_circuit then
        match proto with
        | P2pCircuit => false
        | _ => check_from audience dns has_transport has_circuit addr
        end
      else
        match proto with
        | P2pCircuit => check_from audience dns has_transport true addr
        | Ip4 ip => if negb (ipv4_permitted ip audience) then false else check_from audience dns true has_circuit addr
        | Ip6 ip => if negb (ipv6_permitted ip audience) then false else check_from audience dns true has_circuit addr
        | Dns _ | Dns4 _ | Dns6 _ | Dnsaddr _ =>
            match dns with
            | Reject => false
            | AllowLocallyConfigured => check_from audience dns true has_circuit addr
            end
        | _ => check_from audience dns has_transport has_circuit addr
        end
  end.

Definition check_multiaddr (addr : Multiaddr) (audience : Audience) (dns : DnsPolicy) : bool :=
  check_from audience dns false false addr.

Definition is_dialable_multiaddr_parsed (addr : Multiaddr) (mode : NetworkMode) (dns : DnsPolicy) : bool :=
  check_multiaddr addr (Dial mode) dns.

Definition is_dialable_trusted_local_proxy_parsed (addr : Multiaddr) (dns : DnsPolicy) : bool :=
  check_multiaddr addr DialTrustedLocalProxy dns.

Definition is_disclosable_multiaddr_parsed (addr : Multiaddr) : bool := check_multiaddr addr Disclose Reject.

Definition is_circuit (proto : Protocol) : bool := match proto with P2pCircuit => true | _ => false end.

Definition is_peer (proto : Protocol) : bool := match proto with P2p _ => true | _ => false end.

Definition is_cgnat (ip : Ipv4Addr) : bool := (o0 ip =? 100) && ((64 <=? o1 ip) && (o1 ip <=? 127)).

Definition is_safe_private_v4 (ip : Ipv4Addr) : bool :=
  negb (v4_loopback ip) && negb (v4_unspecified ip) && negb (v4_link_local ip) && negb (v4_multicast ip) &&
  negb (v4_broadcast ip) && (v4_private ip || is_cgnat ip).

Definition is_safe_private_ip (ip : IpAddr) : bool :=
  match ip with
  | V4 ip => is_safe_private_v4 ip
  | V6 ip =>
      negb (v6_loopback ip) && negb (v6_unspecified ip) && negb (v6_multicast ip) && negb (v6_unicast_link_local ip) &&
      (unique_local ip || match embedded_ipv4 ip with Some v4 => is_safe_private_v4 v4 | None => false end)
  end.

Definition is_private_adjacency_ip (ip : IpAddr) : bool :=
  match ip with
  | V4 v4 => is_safe_private_ip (V4 v4) && v4_private v4
  | V6 v6 =>
      if negb (is_safe_private_ip (V6 v6)) then false
      else if unique_local v6 then true
      else match embedded_ipv4 v6 with
           | Some v4 => is_safe_private_ip (V4 v4) && v4_private v4
           | None => false
           end
  end.

Definition same_subnet_v4 (a b : Ipv4Addr) : bool := (o0 a =? o0 b) && (o1 a =? o1 b) && (o2 a =? o2 b).

Definition same_private_subnet (a b : IpAddr) : bool :=
  match a, b with
  | V4 a, V4 b => same_subnet_v4 a b
  | V6 a, V6 b =>
      if negb (unique_local a) || negb (unique_local b) then false
      else (s0 a =? s0 b) && (s1 a =? s1 b) && (s2 a =? s2 b) && (s3 a =? s3 b)
  | V6 a, V4 b => match embedded_ipv4 a with Some a => same_subnet_v4 a b | None => false end
  | V4 a, V6 b => match embedded_ipv4 b with Some b => same_subnet_v4 a b | None => false end
  end.

(** [rposition(is_circuit)]. *)
Fixpoint last_circuit_from (i : nat) (protocols : Multiaddr) : option nat :=
  match protocols with
  | [] => None
  | p :: protocols =>
      match last_circuit_from (S i) protocols with
      | Some k => Some k
      | None => if is_circuit p then Some i else None
      end
  end.

(** The loop of [strip_peer_id_multiaddr] from index [i] on. *)
Fixpoint strip_from (last_circuit : option nat) (i : nat) (protocols : Multiaddr) : Multiaddr :=
  match protocols with
  | [] => []
  | proto :: protocols =>
      let after_circuit := match last_circuit with Some k => bool_decide (k < i)%nat | None => true end in
      if after_circuit && is_peer proto then strip_from last_circuit (S i) protocols
      else proto :: strip_from last_circuit (S i) protocols
  end.

Definition strip_peer_id_multiaddr (addr : Multiaddr) : Multiaddr := strip_from (last_circuit_from 0 addr) 0 addr.

(** The loop of [is_recordable_multiaddr]. *)
Fixpoint recordable_from (has_ip_transport has_circuit : bool) (addr : Multiaddr) : bool :=
  match addr with
  | [] => has_ip_transport
  | P2pCircuit :: addr => if has_circuit then false else recordable_from has_ip_transport true addr
  | (Ip4 _ | Ip6 _) :: addr => recordable_from true has_circuit addr
  | (Dns _ | Dns4 _ | Dns6 _ | Dnsaddr _) :: addr =>
      if negb has_circuit then false else recordable_from has_ip_transport has_circuit addr
  | _ :: addr => recordable_from has_ip_transport has_circuit addr
  end.

Definition recordable_parsed (addr : Multiaddr) : bool := recordable_from false false addr.

Definition ip_component (proto : Protocol) : option IpAddr :=
  match proto with Ip4 ip => Some (V4 ip) | Ip6 ip => Some (V6 ip) | _ => None end.

(** [Iterator::find_map]. *)
Fixpoint find_map {A B} (f : A -> option B) (l : list A) : option B :=
  match l with
  | [] => None
  | x :: l => match f x with Some b => Some b | None => find_map f l end
  end.

Section Text.
Context {ML : MultiaddrLib}.

Definition is_dialable_multiaddr (multiaddr : string) (mode : NetworkMode) (dns : DnsPolicy) : bool :=
  match parse_multiaddr multiaddr with
  | Some addr => is_dialable_multiaddr_parsed addr mode dns
  | None => false
  end.

Definition is_disclosable_multiaddr (multiaddr : string) : bool :=
  match parse_multiaddr multiaddr with
  | Some addr => is_disclosable_multiaddr_parsed addr
  | None => false
  end.

Definition first_ip_component (multiaddr : string) : option IpAddr :=
  addr ← parse_multiaddr multiaddr; find_map ip_component addr.

Definition is_disclosable_on_rfc1918_network (multiaddr : string) (requester_addr : option string)
    (my_addrs : list string) : bool :=
  match parse_multiaddr multiaddr with
  | None => false
  | Some addr =>
      if existsb is_circuit addr then false
      else match requester_addr with
           | None => false
           | Some requester_addr =>
               match parse_multiaddr requester_addr with
               | None => false
               | Some requester_multiaddr =>
                   if existsb is_circuit requester_multiaddr then false
                   else match first_ip_component requester_addr with
                        | None => false
                        | Some requester_ip =>
                            if negb (is_private_adjacency_ip requester_ip) then false
                            else match first_ip_component multiaddr with
                                 | None => false
                                 | Some entry_ip =>
                                     if negb (is_private_adjacency_ip entry_ip) || negb (same_private_subnet entry_ip requester_ip)
                                     then false
                                     else
                                       let concrete_local_ips := omap first_ip_component my_addrs in
                                       negb (zlen concrete_local_ips =? 0) &&
                                       existsb (fun local_ip => same_private_subnet local_ip requester_ip) concrete_local_ips
                                 end
                        end
               end
           end
  end.

Definition is_recordable_multiaddr (multiaddr : string) : bool :=
  match parse_multiaddr multiaddr with
  | None => false
  | Some addr => recordable_parsed addr
  end.

Definition strip_peer_id (multiaddr : string) : string :=
  match parse_multiaddr multiaddr with
  | Some addr => print_multiaddr (strip_peer_id_multiaddr addr)
  | None => multiaddr
  end.

Definition is_self_address (candidate : string) (my_addrs : list string) : bool :=
  let stripped_candidate := strip_peer_id candidate in
  if String.eqb stripped_candidate "" then false
  else existsb (fun a => String.eqb (strip_peer_id a) stripped_candidate) my_addrs.

Definition is_acceptable_peer_address (candidate : string) (mode : NetworkMode) (dns : DnsPolicy)
    (my_addrs : list string) : bool :=
  is_dialable_multiaddr candidate mode dns && negb (is_self_address candidate my_addrs).

End Text.

(** ** Blocks of addresses

    The address classes as a table of CIDR blocks on 32-bit addresses. *)

Definition v4_wf (ip : Ipv4Addr) : Prop := in_u 8 (o0 ip) /\ in_u 8 (o1 ip) /\ in_u 8 (o2 ip) /\ in_u 8 (o3 ip).

Definition v4_bits (ip : Ipv4Addr) : Z := o0 ip * 2 ^ 24 + o1 ip * 2 ^ 16 + o2 ip * 2 ^ 8 + o3 ip.

Definition in_cidr (ip : Ipv4Addr) (c : Ipv4Addr * Z) : Prop :=
  v4_bits ip / 2 ^ (32 - c.2) = v4_bits c.1 / 2 ^ (32 - c.2).

(** Never a peer: "this network", loopback, link-local, IETF assignments, multicast, broadcast. *)
Definition never_peer : list (Ipv4Addr * Z) :=
  [(ipv4 0 0 0 0, 8); (ipv4 127 0 0 0, 8); (ipv4 169 254 0 0, 16); (ipv4 192 0 0 0, 24); (ipv4 224 0 0 0, 4);
   (ipv4 255 255 255 255, 32)].

Definition private_use : list (Ipv4Addr * Z) := [(ipv4 10 0 0 0, 8); (ipv4 172 16 0 0, 12); (ipv4 192 168 0 0, 16)].

(** Not routed on the internet: carrier-grade NAT, documentation, benchmarking, reserved. *)
Definition not_routed : list (Ipv4Addr * Z) :=
  [(ipv4 100 64 0 0, 10); (ipv4 192 0 2 0, 24); (ipv4 198 18 0 0, 15); (ipv4 240 0 0 0, 4)].

Ltac cidr :=
  unfold in_cidr, v4_bits in *; cbn [fst snd o0 o1 o2 o3] in *;
  repeat match goal with
  | |- context [2 ^ (32 - ?k)] => let v := eval vm_compute in (2 ^ (32 - k)) in change (2 ^ (32 - k)) with v
  | H : context [2 ^ (32 - ?k)] |- _ => let v := eval vm_compute in (2 ^ (32 - k)) in change (2 ^ (32 - k)) with v in H
  end.

Ltac cidr_solve := cidr; split; intros; Z.to_euclidean_division_equations; lia.

(** A block whose length is that of whole octets, or falls within the first or the second. *)
Lemma in_cidr_8 ip a : v4_wf ip -> in_cidr ip (ipv4 a 0 0 0, 8) <-> o0 ip = a.
Proof. destruct ip as [a0 a1 a2 a3]. intros (H0 & H1 & H2 & H3). unfold in_u in *. cidr_solve. Qed.

Lemma in_cidr_16 ip a b : v4_wf ip -> in_u 8 b -> in_cidr ip (ipv4 a b 0 0, 16) <-> o0 ip = a /\ o1 ip = b.
Proof. destruct ip as [a0 a1 a2 a3]. intros (H0 & H1 & H2 & H3) Hb. unfold in_u in *. cidr_solve. Qed.

Lemma in_cidr_24 ip a b c : v4_wf ip -> in_u 8 b -> in_u 8 c ->
  in_cidr ip (ipv4 a b c 0, 24) <-> o0 ip = a /\ o1 ip = b /\ o2 ip = c.
Proof. destruct ip as [a0 a1 a2 a3]. intros (H0 & H1 & H2 & H3) Hb Hc. unfold in_u in *. cidr_solve. Qed.

Lemma in_cidr_32 ip jp : v4_wf ip -> v4_wf jp -> in_cidr ip (jp, 32) <-> ip = jp.
Proof.
  destruct ip as [a0 a1 a2 a3], jp as [b0 b1 b2 b3]. intros (H0 & H1 & H2 & H3) (K0 & K1 & K2 & K3).
  unfold in_u in *. cidr. rewrite !Z.div_1_r. split; [|by intros [= -> -> -> ->]].
  intros. assert (a0 = b0 /\ a1 = b1 /\ a2 = b2 /\ a3 = b3) as (-> & -> & -> & ->) by lia. done.
Qed.

Lemma in_cidr_4 ip a : v4_wf ip -> in_cidr ip (ipv4 (16 * a) 0 0 0, 4) <-> 16 * a <= o0 ip < 16 * a + 16.
Proof. destruct ip as [a0 a1 a2 a3]. intros (H0 & H1 & H2 & H3). unfold in_u in *. cidr_solve. Qed.

Lemma in_cidr_12 ip a b : v4_wf ip -> 0 <= b < 16 ->
  in_cidr ip (ipv4 a (16 * b) 0 0, 12) <-> o0 ip = a /\ 16 * b <= o1 ip < 16 * b + 16.
Proof. destruct ip as [a0 a1 a2 a3]. intros (H0 & H1 & H2 & H3) Hb. unfold in_u in *. cidr_solve. Qed.

Lemma in_cidr_10 ip a b : v4_wf ip -> 0 <= b < 4 ->
  in_cidr ip (ipv4 a (64 * b) 0 0, 10) <-> o0 ip = a /\ 64 * b <= o1 ip < 64 * b + 64.
Proof. destruct ip as [a0 a1 a2 a3]. intros (H0 & H1 & H2 & H3) Hb. unfold in_u in *. cidr_solve. Qed.

Lemma in_cidr_15 ip a b : v4_wf ip -> 0 <= b < 128 ->
  in_cidr ip (ipv4 a (2 * b) 0 0, 15) <-> o0 ip = a /\ 2 * b <= o1 ip < 2 * b + 2.
Proof. destruct ip as [a0 a1 a2 a3]. intros (H0 & H1 & H2 & H3) Hb. unfold in_u in *. cidr_solve. Qed.

(** ** What the verdicts mean *)

(** The blocks no address for this audience may fall in. *)
Definition forbidden (audience : Audience) : list (Ipv4Addr * Z) :=
  match audience with
  | Dial Local => never_peer
  | Dial Public => never_peer ++ private_use
  | Disclose => never_peer ++ private_use ++ not_routed
  | DialTrustedLocalProxy =>
      [(ipv4 0 0 0 0, 8); (ipv4 169 254 0 0, 16); (ipv4 192 0 0 0, 24); (ipv4 224 0 0 0, 4); (ipv4 255 255 255 255, 32)]
  end.

Definition outside (ip : Ipv4Addr) : list (Ipv4Addr * Z) -> Prop := Forall (fun c => ~ in_cidr ip c).

Lemma never_peer_octets ip : v4_wf ip ->
  outside ip never_peer <->
  o0 ip <> 0 /\ o0 ip <> 127 /\ ~ (o0 ip = 169 /\ o1 ip = 254) /\ ~ (o0 ip = 192 /\ o1 ip = 0 /\ o2 ip = 0) /\
  ~ (224 <= o0 ip < 240) /\ ip <> ipv4 255 255 255 255.
Proof.
  intros Hw. unfold outside, never_peer. rewrite !Forall_cons, Forall_nil, !in_cidr_8, in_cidr_16, in_cidr_24, in_cidr_32
    by (done || by_computation). rewrite (in_cidr_4 ip 14) by done. tauto.
Qed.

Lemma private_use_octets ip : v4_wf ip ->
  outside ip private_use <->
  o0 ip <> 10 /\ ~ (o0 ip = 172 /\ 16 <= o1 ip < 32) /\ ~ (o0 ip = 192 /\ o1 ip = 168).
Proof.
  intros Hw. unfold outside, private_use. rewrite !Forall_cons, Forall_nil, in_cidr_8, in_cidr_16 by (done || by_computation).
  rewrite (in_cidr_12 ip 172 1) by (done || lia). tauto.
Qed.

Lemma not_routed_octets ip : v4_wf ip ->
  outside ip not_routed <->
  ~ (o0 ip = 100 /\ 64 <= o1 ip < 128) /\ ~ (o0 ip = 192 /\ o1 ip = 0 /\ o2 ip = 2) /\
  ~ (o0 ip = 198 /\ 18 <= o1 ip < 20) /\ ~ (240 <= o0 ip < 256).
Proof.
  intros Hw. unfold outside, not_routed. rewrite !Forall_cons, Forall_nil, in_cidr_24 by (done || by_computation).
  rewrite (in_cidr_10 ip 100 1), (in_cidr_15 ip 198 9), (in_cidr_4 ip 15) by (done || lia). tauto.
Qed.

Lemma ipv4_eq ip a b c d : ip = ipv4 a b c d <-> o0 ip = a /\ o1 ip = b /\ o2 ip = c /\ o3 ip = d.
Proof. destruct ip. cbn. split; [by intros [= -> -> -> ->]|by intros (-> & -> & -> & ->)]. Qed.

Lemma if_false (b c : bool) : (if b then false else c) = negb b && c.
Proof. by destruct b. Qed.

Lemma routable_octets ip :
  is_unconditionally_routable_ipv4 ip = true <->
  o0 ip <> 0 /\ o0 ip <> 127 /\ ~ (o0 ip = 169 /\ o1 ip = 254) /\ ~ (o0 ip = 192 /\ o1 ip = 0 /\ o2 ip = 0) /\
  ~ (224 <= o0 ip < 240) /\ ip <> ipv4 255 255 255 255.
Proof.
  rewrite ipv4_eq. unfold is_unconditionally_routable_ipv4, v4_loopback, v4_unspecified, v4_link_local, v4_multicast,
    v4_broadcast. rewrite !if_false. lia.
Qed.

Lemma private_octets ip :
  v4_private ip = false <->
  o0 ip <> 10 /\ ~ (o0 ip = 172 /\ 16 <= o1 ip < 32) /\ ~ (o0 ip = 192 /\ o1 ip = 168).
Proof. unfold v4_private. lia. Qed.

Lemma global_octets ip : v4_wf ip ->
  is_globally_routable_ipv4 ip = true <->
  is_unconditionally_routable_ipv4 ip = true /\ v4_private ip = false /\
  ~ (o0 ip = 100 /\ 64 <= o1 ip < 128) /\ ~ (o0 ip = 192 /\ o1 ip = 0 /\ o2 ip = 2) /\
  ~ (o0 ip = 198 /\ 18 <= o1 ip < 20) /\ ~ (240 <= o0 ip < 256).
Proof.
  intros (H0 & H1 & _ & _). unfold in_u in *. unfold is_globally_routable_ipv4. rewrite !if_false.
  destruct (is_unconditionally_routable_ipv4 ip), (v4_private ip); cbn [negb andb]; lia.
Qed.

(** The IPv4 verdict is the table of blocks. *)
Lemma ipv4_permitted_table ip audience : v4_wf ip -> ipv4_permitted ip audience = true <-> outside ip (forbidden audience).
Proof.
  intros Hw. unfold outside. destruct audience as [[]| |]; cbn [ipv4_permitted forbidden].
  - rewrite routable_octets. symmetry. by apply never_peer_octets.
  - rewrite andb_true_iff, negb_true_iff, Forall_app, routable_octets, private_octets.
    rewrite <-(never_peer_octets ip Hw), <-(private_use_octets ip Hw). done.
  - rewrite (global_octets ip Hw), !Forall_app, routable_octets, private_octets.
    rewrite <-(never_peer_octets ip Hw), <-(private_use_octets ip Hw), <-(not_routed_octets ip Hw). done.
  - rewrite orb_true_iff, routable_octets, ipv4_eq. unfold v4_loopback. rewrite Z.eqb_eq.
    rewrite !Forall_cons, Forall_nil, !in_cidr_8, in_cidr_16, in_cidr_24, in_cidr_32, ipv4_eq by (done || by_computation).
    rewrite (in_cidr_4 ip 14) by done. lia.
Qed.

(** *** IPv4 destinations behind an IPv6 address *)

Definition seg (a b : Z) : Z := a * 256 + b.

Lemma hi_seg a b : in_u 8 a -> in_u 8 b -> hi (seg a b) = a.
Proof. unfold in_u, hi, seg. intros. Z.to_euclidean_division_equations. lia. Qed.

Lemma lo_seg a b : in_u 8 a -> in_u 8 b -> lo (seg a b) = b.
Proof. unfold in_u, lo, seg. intros. Z.to_euclidean_division_equations. lia. Qed.

(** An IPv6 address that carries packets to the IPv4 address [v], in each of the formats
    that do: compatible and mapped addresses, the two NAT64 prefixes, 6to4, and the server
    and the client of a Teredo address, the latter with its bits inverted. *)
Inductive reaches : Ipv6Addr -> Ipv4Addr -> Prop :=
  | reach_compatible a b c d : reaches (ipv6 0 0 0 0 0 0 (seg a b) (seg c d)) (ipv4 a b c d)
  | reach_mapped a b c d : reaches (ipv6 0 0 0 0 0 0xffff (seg a b) (seg c d)) (ipv4 a b c d)
  | reach_nat64 a b c d : reaches (ipv6 0x64 0xff9b 0 0 0 0 (seg a b) (seg c d)) (ipv4 a b c d)
  | reach_nat64_local a b c d u x y z : in_u 8 u -> in_u 8 x ->
      reaches (ipv6 0x64 0xff9b 1 (seg a b) (seg u c) (seg d x) y z) (ipv4 a b c d)
  | reach_6to4 a b c d w x y z t : reaches (ipv6 0x2002 (seg a b) (seg c d) w x y z t) (ipv4 a b c d)
  | reach_teredo_server a b c d w x y z : reaches (ipv6 0x2001 0 (seg a b) (seg c d) w x y z) (ipv4 a b c d)
  | reach_teredo_client a b c d w x y z :
      reaches (ipv6 0x2001 0 w x y z (seg (255 - a) (255 - b)) (seg (255 - c) (255 - d))) (ipv4 a b c d).

Lemma not_octet a : in_u 8 a -> in_u 8 (255 - a) /\ not_u8 (255 - a) = a.
Proof. unfold in_u, not_u8. lia. Qed.

Lemma ipv6_permitted_reaches ip v audience :
  reaches ip v -> v4_wf v -> ipv6_permitted ip audience = true -> ipv4_permitted v audience = true.
Proof.
  intros Hr. destruct Hr; intros (W0 & W1 & W2 & W3); cbn [o0 o1 o2 o3] in *; unfold ipv6_permitted;
    match goal with
    | |- context [embedded_ipv4 ?ip] => let r := eval cbn -[hi lo seg] in (embedded_ipv4 ip) in change (embedded_ipv4 ip) with r
    end; cbv beta iota.
  6,7: match goal with
    | |- context [teredo_ipv4s ?ip] => let r := eval cbn -[hi lo seg not_u8] in (teredo_ipv4s ip) in change (teredo_ipv4s ip) with r
    end; cbv beta iota.
  all: rewrite ?hi_seg, ?lo_seg by (done || by apply not_octet).
  1-5: done.
  - by intros [? _]%andb_true_iff.
  - rewrite (proj2 (not_octet a W0)), (proj2 (not_octet b W1)), (proj2 (not_octet c W2)), (proj2 (not_octet d W3)).
    by intros [_ ?]%andb_true_iff.
Qed.

(** *** The traversal *)

(** The components of the hop that is dialed: those before the first relay marker. *)
Fixpoint hop (addr : Multiaddr) : Multiaddr :=
  match addr with
  | [] => []
  | p :: addr => if is_circuit p then [] else p :: hop addr
  end.

Definition circuits (addr : Multiaddr) : nat := length (filter is_circuit addr).

Definition is_dns (proto : Protocol) : bool :=
  match proto with Dns _ | Dns4 _ | Dns6 _ | Dnsaddr _ => true | _ => false end.

Definition is_ip (proto : Protocol) : bool := match proto with Ip4 _ | Ip6 _ => true | _ => false end.

(** A component this audience accepts. *)
Definition permitted (audience : Audience) (dns : DnsPolicy) (proto : Protocol) : bool :=
  match proto with
  | Ip4 ip => ipv4_permitted ip audience
  | Ip6 ip => ipv6_permitted ip audience
  | Dns _ | Dns4 _ | Dns6 _ | Dnsaddr _ => match dns with Reject => false | AllowLocallyConfigured => true end
  | _ => true
  end.

Lemma circuits_cons p l : circuits (p :: l) = if is_circuit p then S (circuits l) else circuits l.
Proof. unfold circuits. rewrite filter_cons. by destruct p. Qed.

Lemma check_after_circuit audience dns t addr :
  check_from audience dns t true addr = t && (circuits addr =? 0)%nat.
Proof.
  unfold circuits. induction addr as [|p addr IH]; cbn [check_from]; [by rewrite filter_nil, andb_true_r|].
  rewrite filter_cons. destruct p; cbn; rewrite ?IH; try done. by rewrite andb_false_r.
Qed.

Lemma check_from_spec audience dns t addr :
  check_from audience dns t false addr =
  forallb (permitted audience dns) (hop addr) && (t || existsb (fun p => is_ip p || is_dns p) (hop addr)) &&
  (circuits addr <=? 1)%nat.
Proof.
  revert t. induction addr as [|p addr IH]; intros t; [by destruct t|].
  assert (forall q, is_circuit q = false -> circuits (q :: addr) = circuits addr) as Hc.
  { intros q Hq. unfold circuits. by rewrite filter_cons_False by (by rewrite Hq; intros []). }
  destruct p; cbn [check_from hop is_circuit forallb existsb permitted is_ip is_dns orb];
    try (rewrite Hc by done; rewrite IH; try done).
  1-2: rewrite if_false, negb_involutive; by rewrite orb_true_r, !andb_true_r, !andb_assoc.
  1-4: destruct dns; [done|]; by rewrite orb_true_r, orb_true_l.
  - rewrite check_after_circuit, orb_false_r. cbn [andb]. f_equal. unfold circuits. rewrite filter_cons_True by done.
    cbn [length]. by destruct (length _).
Qed.

(** *** Stripping peer ids *)

Definition without_peers (l : Multiaddr) : Multiaddr := filter (fun p => negb (is_peer p)) l.

Lemma without_peers_cons p l : without_peers (p :: l) = if is_peer p then without_peers l else p :: without_peers l.
Proof. unfold without_peers. rewrite filter_cons. by destruct p. Qed.

(** The reference: all peer ids after the last relay marker go, all before it stay. *)
Lemma last_circuit_none i l : last_circuit_from i l = None <-> existsb is_circuit l = false.
Proof.
  revert i. induction l as [|p l IH]; intros i; [done|]. cbn [last_circuit_from existsb]. rewrite orb_false_iff, <-(IH (S i)).
  destruct (last_circuit_from (S i) l), (is_circuit p); naive_solver.
Qed.

Lemma last_circuit_app i l1 l2 : existsb is_circuit l2 = false ->
  last_circuit_from i (l1 ++ P2pCircuit :: l2) = Some (i + length l1)%nat.
Proof.
  intros H. revert i. induction l1 as [|p l1 IH]; intros i; cbn [app last_circuit_from length].
  - rewrite (proj2 (last_circuit_none (S i) l2) H). cbn. by rewrite Nat.add_0_r.
  - rewrite IH. f_equal. lia.
Qed.

Lemma strip_from_none i l : strip_from None i l = without_peers l.
Proof.
  revert i. induction l as [|p l IH]; intros i; [done|]. cbn [strip_from]. rewrite without_peers_cons, IH. by destruct p.
Qed.

Lemma strip_from_after k i l : (k < i)%nat -> strip_from (Some k) i l = without_peers l.
Proof.
  revert i. induction l as [|p l IH]; intros i Hi; [done|]. cbn [strip_from]. rewrite bool_decide_true by done.
  rewrite without_peers_cons, IH by lia. by destruct p.
Qed.

Lemma strip_from_before k i l1 l2 : (i + length l1 <= k + 1)%nat ->
  strip_from (Some k) i (l1 ++ l2) = l1 ++ strip_from (Some k) (i + length l1) l2.
Proof.
  revert i. induction l1 as [|p l1 IH]; intros i Hi; cbn [app strip_from length] in *; [by rewrite Nat.add_0_r|].
  rewrite bool_decide_false by lia. cbn [andb]. f_equal. rewrite IH by lia.
  by replace (i + S (length l1))%nat with (S i + length l1)%nat by lia.
Qed.

Lemma strip_direct l : existsb is_circuit l = false ->
  strip_peer_id_multiaddr l = without_peers l.
Proof. intros H. unfold strip_peer_id_multiaddr. by rewrite (proj2 (last_circuit_none 0 l) H), strip_from_none. Qed.

Lemma strip_circuit l1 l2 : existsb is_circuit l2 = false ->
  strip_peer_id_multiaddr (l1 ++ P2pCircuit :: l2) = l1 ++ P2pCircuit :: without_peers l2.
Proof.
  intros H. unfold strip_peer_id_multiaddr. rewrite last_circuit_app by done. rewrite strip_from_before by lia.
  f_equal. cbn [strip_from Nat.add]. rewrite bool_decide_false by lia. cbn [andb]. f_equal. apply strip_from_after. lia.
Qed.

(** Every address is one or the other. *)
Lemma circuit_split l : existsb is_circuit l = false \/
  exists l1 l2, l = l1 ++ P2pCircuit :: l2 /\ existsb is_circuit l2 = false.
Proof.
  induction l as [|p l [IH|(l1 & l2 & -> & IH)]]; [by left| |by right; exists (p :: l1), l2].
  destruct (is_circuit p) eqn:Hp; [|left; cbn; by rewrite Hp]. right. exists [], l. by destruct p.
Qed.

Lemma existsb_filter_peer l : existsb is_circuit (without_peers l) = existsb is_circuit l.
Proof. induction l as [|p l IH]; [done|]. rewrite without_peers_cons. destruct p; cbn; try done. Qed.

Lemma filter_peer_idemp l :
  without_peers (without_peers l) = without_peers l.
Proof. unfold without_peers. rewrite list_filter_filter. apply list_filter_iff. tauto. Qed.

Lemma strip_idempotent addr : strip_peer_id_multiaddr (strip_peer_id_multiaddr addr) = strip_peer_id_multiaddr addr.
Proof.
  destruct (circuit_split addr) as [H|(l1 & l2 & -> & H)].
  - rewrite (strip_direct addr H), strip_direct by (by rewrite existsb_filter_peer). apply filter_peer_idemp.
  - rewrite (strip_circuit l1 l2 H), strip_circuit by (by rewrite existsb_filter_peer). by rewrite filter_peer_idemp.
Qed.

Lemma hop_direct l : existsb is_circuit l = false -> hop l = l.
Proof.
  induction l as [|p l IH]; [done|]. cbn [existsb hop]. intros [Hp Hl]%orb_false_iff. by rewrite Hp, IH.
Qed.

Lemma hop_app l1 l2 : hop (l1 ++ P2pCircuit :: l2) = hop l1.
Proof. induction l1 as [|p l1 IH]; [done|]. cbn [app hop]. by rewrite IH. Qed.

Lemma circuits_app l1 l2 : circuits (l1 ++ l2) = (circuits l1 + circuits l2)%nat.
Proof. unfold circuits. by rewrite filter_app, length_app. Qed.

Lemma circuits_filter_peer l : circuits (without_peers l) = circuits l.
Proof.
  induction l as [|p l IH]; [done|]. rewrite without_peers_cons, (circuits_cons p l), <-IH.
  destruct (is_peer p) eqn:Hp; [by destruct p|]. by rewrite circuits_cons.
Qed.

(** Peer ids carry no weight in a verdict. *)
Lemma forallb_filter_peer a d l :
  forallb (permitted a d) (without_peers l) = forallb (permitted a d) l.
Proof. induction l as [|p l IH]; [done|]. rewrite without_peers_cons. destruct p; cbn; by rewrite ?IH. Qed.

Lemma existsb_transport_filter_peer l :
  existsb (fun p => is_ip p || is_dns p) (without_peers l) = existsb (fun p => is_ip p || is_dns p) l.
Proof. induction l as [|p l IH]; [done|]. rewrite without_peers_cons. destruct p; cbn; by rewrite ?IH. Qed.

Lemma check_strip addr a d : check_multiaddr (strip_peer_id_multiaddr addr) a d = check_multiaddr addr a d.
Proof.
  unfold check_multiaddr. rewrite !check_from_spec. destruct (circuit_split addr) as [H|(l1 & l2 & -> & H)].
  - rewrite (strip_direct addr H), circuits_filter_peer. rewrite (hop_direct addr H), hop_direct by (by rewrite existsb_filter_peer).
    by rewrite forallb_filter_peer, existsb_transport_filter_peer.
  - rewrite (strip_circuit l1 l2 H), !hop_app, !circuits_app. f_equal. f_equal. f_equal.
    change (P2pCircuit :: ?l) with ([P2pCircuit] ++ l). by rewrite !circuits_app, circuits_filter_peer.
Qed.

Lemma strip_snoc_peer addr p : strip_peer_id_multiaddr (addr ++ [P2p p]) = strip_peer_id_multiaddr addr.
Proof.
  destruct (circuit_split addr) as [H|(l1 & l2 & -> & H)].
  - rewrite (strip_direct addr H), strip_direct by (rewrite existsb_app, H; done).
    unfold without_peers. by rewrite filter_app, app_nil_r.
  - rewrite (strip_circuit l1 l2 H), <-app_assoc. cbn [app]. rewrite strip_circuit by (rewrite existsb_app, H; done).
    unfold without_peers. by rewrite filter_app, app_nil_r.
Qed.

(** *** Recording *)

Lemma recordable_after_circuit t addr : recordable_from t true addr = (t || existsb is_ip addr) && (circuits addr =? 0)%nat.
Proof.
  revert t. induction addr as [|p addr IH]; intros t; [by destruct t|]. rewrite circuits_cons.
  destruct p; cbn [recordable_from is_circuit existsb is_ip orb negb]; rewrite ?IH; try done.
  - by rewrite orb_true_r.
  - by rewrite orb_true_r.
  - by rewrite andb_false_r.
Qed.

Lemma recordable_from_spec t addr :
  recordable_from t false addr =
  negb (existsb is_dns (hop addr)) && (t || existsb is_ip addr) && (circuits addr <=? 1)%nat.
Proof.
  revert t. induction addr as [|p addr IH]; intros t; [by destruct t|]. rewrite circuits_cons.
  destruct p; cbn [recordable_from is_circuit hop existsb is_ip is_dns orb negb]; rewrite ?IH; try done.
  1-2: by rewrite orb_true_r.
  rewrite recordable_after_circuit. cbn [andb]. f_equal. by destruct (circuits addr).
Qed.

Lemma recordable_spec addr :
  recordable_parsed addr = negb (existsb is_dns (hop addr)) && existsb is_ip addr && (circuits addr <=? 1)%nat.
Proof. apply (recordable_from_spec false). Qed.

(** ** Theorems *)

(** An IPv4 address that dialing [addr] can send packets to. *)
Definition targets (addr : Multiaddr) (v : Ipv4Addr) : Prop :=
  Ip4 v ∈ hop addr \/ exists ip, Ip6 ip ∈ hop addr /\ reaches ip v.

Lemma filtered_check addr audience dns v :
  v4_wf v -> check_multiaddr addr audience dns = true -> targets addr v -> outside v (forbidden audience).
Proof.
  intros Hw Hc Ht. unfold check_multiaddr in Hc. rewrite check_from_spec in Hc. apply andb_true_iff in Hc as [[Hp _]%andb_true_iff _].
  rewrite forallb_forall in Hp. apply ipv4_permitted_table; [done|]. destruct Ht as [Hv|(ip & Hv & Hr)].
  - by apply (Hp (Ip4 v)), list_elem_of_In.
  - eapply ipv6_permitted_reaches; [done..|]. by apply (Hp (Ip6 ip)), list_elem_of_In.
Qed.

(** C33: an address that passes for an audience leads to no IPv4 destination in a block that is
    forbidden to it, whether the destination is spelled as such or wrapped in any of the
    IPv6 formats that carry IPv4: no loopback, no link-local metadata service, no multicast
    for a dial, and no private, carrier-grade NAT or reserved block for a disclosure; and of
    names, only those that the policy allows are in the hop. *)
Theorem filtered_targets addr audience dns :
  check_multiaddr addr audience dns = true ->
  (forall v, v4_wf v -> targets addr v -> outside v (forbidden audience)) /\
  (dns = Reject -> Forall (fun p => is_dns p = false) (hop addr)) /\
  Exists (fun p => is_ip p || is_dns p = true) (hop addr) /\ (circuits addr <= 1)%nat.
Proof.
  intros Hc. split; [intros v ? ?; by eapply filtered_check|]. unfold check_multiaddr in Hc. rewrite check_from_spec in Hc.
  apply andb_true_iff in Hc as [[Hp Ht]%andb_true_iff Hn%Nat.leb_le]. split_and!; [|by apply Exists_exists; apply existsb_exists in Ht as (p & ?%list_elem_of_In & ?); eauto|done].
  intros ->. rewrite forallb_forall in Hp. apply Forall_forall. intros p Hin%list_elem_of_In. specialize (Hp p Hin). by destruct p.
Qed.

(** Each audience accepts no more than the next. *)
Definition stricter (a b : Audience) : bool :=
  match a, b with
  | Disclose, _ | _, DialTrustedLocalProxy | Dial Public, Dial _ | Dial Local, Dial Local => true
  | _, _ => false
  end.

Lemma ipv4_stricter a b ip : stricter a b = true -> ipv4_permitted ip a = true -> ipv4_permitted ip b = true.
Proof.
  destruct a as [[]| |], b as [[]| |]; cbn [stricter ipv4_permitted]; try done; intros _; unfold is_globally_routable_ipv4;
    rewrite ?if_false, ?andb_true_iff, ?orb_true_iff, ?negb_true_iff, ?negb_false_iff; tauto.
Qed.

Lemma ipv6_stricter a b ip : stricter a b = true -> ipv6_permitted ip a = true -> ipv6_permitted ip b = true.
Proof.
  intros Hs. unfold ipv6_permitted. destruct (embedded_ipv4 ip) as [v|]; [by apply ipv4_stricter|].
  destruct (teredo_ipv4s ip) as [[x y]|].
  - rewrite !andb_true_iff. intros [? ?]. split; by eapply ipv4_stricter.
  - case_if; [done|]. case_if; [done|]. by destruct a as [[]| |], b as [[]| |].
Qed.

(** Whatever may be disclosed may be dialed in public mode, whatever may be dialed in public
    mode may be dialed in local mode, and so on: a stricter audience, with a stricter policy
    for names, never lets through what a laxer one refuses. *)
Theorem audiences_ordered addr a b dns :
  stricter a b = true -> check_multiaddr addr a Reject = true -> check_multiaddr addr b dns = true.
Proof.
  intros Hs. unfold check_multiaddr. rewrite !check_from_spec. rewrite !andb_true_iff. intros [[Hp Ht] Hc].
  split_and!; [|done|done]. rewrite forallb_forall in *. intros p Hin. specialize (Hp p Hin).
  destruct p; cbn [permitted] in *; try done; [by eapply ipv4_stricter|by eapply ipv6_stricter].
Qed.

(** What the trusted local proxy is allowed beyond a local dial is IPv4 loopback alone: if
    only the proxy may dial an address, it leads to 127.0.0.0/8. *)
Theorem proxy_adds_loopback addr dns :
  check_multiaddr addr DialTrustedLocalProxy dns = true -> check_multiaddr addr (Dial Local) dns = false ->
  Exists (fun p => match p with
                   | Ip4 v => v4_loopback v = true
                   | Ip6 ip => match embedded_ipv4 ip, teredo_ipv4s ip with
                               | Some v, _ => v4_loopback v = true
                               | None, Some (x, y) => v4_loopback x = true \/ v4_loopback y = true
                               | None, None => False
                               end
                   | _ => False
                   end) (hop addr).
Proof.
  unfold check_multiaddr. rewrite !check_from_spec. rewrite !andb_true_iff. intros [[Hp ->] ->]. rewrite !andb_true_r.
  induction (hop addr) as [|p l IH]; [done|]. cbn [forallb] in *. apply andb_true_iff in Hp as [Hp Hl].
  intros [Hq|Hq]%andb_false_iff; [apply Exists_cons_hd|by apply Exists_cons_tl, IH].
  destruct p; cbn [permitted ipv4_permitted] in *; try congruence.
  - apply orb_true_iff in Hp as [Hp|Hp]; congruence.
  - unfold ipv6_permitted in *. destruct (embedded_ipv4 ip) as [v|]; cbn [ipv4_permitted] in *.
    + apply orb_true_iff in Hp as [Hp|Hp]; congruence.
    + destruct (teredo_ipv4s ip) as [[x y]|]; [|congruence]. apply andb_true_iff in Hp as [[Hx|Hx]%orb_true_iff [Hy|Hy]%orb_true_iff];
        auto. by rewrite Hx, Hy in Hq.
Qed.

(** The IPv4 address of an address, or the one embedded in it. *)
Definition v4_of (ip : IpAddr) : option Ipv4Addr := match ip with V4 ip => Some ip | V6 ip => embedded_ipv4 ip end.

(** Two addresses on one private network: both (or what they embed) in one private /24, or
    both unique local with the same 64-bit prefix. *)
Definition neighbours (a b : IpAddr) : Prop :=
  (exists va vb, v4_of a = Some va /\ v4_of b = Some vb /\ o0 va = o0 vb /\ o1 va = o1 vb /\ o2 va = o2 vb /\
     v4_private va = true /\ v4_private vb = true) \/
  (exists x y, a = V6 x /\ b = V6 y /\ unique_local x = true /\ unique_local y = true /\
     s0 x = s0 y /\ s1 x = s1 y /\ s2 x = s2 y /\ s3 x = s3 y).

Lemma unique_local_not_embedded ip v : embedded_ipv4 ip = Some v -> unique_local ip = false.
Proof.
  unfold embedded_ipv4, to_ipv4, unique_local. intros H.
  assert (s0 ip = 0 \/ s0 ip = 0x64 \/ s0 ip = 0x2002) as [-> | [-> | ->]]; [|done..].
  repeat match goal with H : context [if ?b then _ else _] |- _ => destruct b eqn:? end; bool_to_prop; auto; done.
Qed.

Lemma adjacency_neighbours a b : is_private_adjacency_ip b = true -> same_private_subnet a b = true ->
  is_private_adjacency_ip a = true -> neighbours a b.
Proof.
  unfold neighbours. destruct a as [a|a], b as [b|b]; cbn [is_private_adjacency_ip same_private_subnet v4_of].
  - intros [_ Hb]%andb_true_iff Hs [_ Ha]%andb_true_iff. unfold same_subnet_v4 in Hs. bool_to_prop. left. eauto 12.
  - destruct (embedded_ipv4 b) as [v|] eqn:Ev; [|done]. rewrite (unique_local_not_embedded b v Ev).
    intros Hb Hs [_ Ha]%andb_true_iff. rewrite !if_false in Hb. unfold same_subnet_v4 in Hs. bool_to_prop. left. eauto 12.
  - destruct (embedded_ipv4 a) as [v|] eqn:Ev; [|done]. rewrite (unique_local_not_embedded a v Ev).
    intros [_ Hb]%andb_true_iff Hs Ha. rewrite !if_false in Ha. unfold same_subnet_v4 in Hs. bool_to_prop. left. eauto 12.
  - intros _ Hs _. rewrite if_false in Hs. bool_to_prop. right. eauto 12.
Qed.

Section TextTheorems.
Context {ML : MultiaddrLib}.

Lemma lan_evidence multiaddr requester my_addrs :
  is_disclosable_on_rfc1918_network multiaddr requester my_addrs = true ->
  exists r addr raddr e q,
    requester = Some r /\ parse_multiaddr multiaddr = Some addr /\ parse_multiaddr r = Some raddr /\
    circuits addr = 0%nat /\ circuits raddr = 0%nat /\
    first_ip_component multiaddr = Some e /\ first_ip_component r = Some q /\ neighbours e q /\
    exists a l, a ∈ my_addrs /\ first_ip_component a = Some l /\ same_private_subnet l q = true.
Proof.
  unfold is_disclosable_on_rfc1918_network. destruct (parse_multiaddr multiaddr) as [addr|] eqn:Ea; [|done].
  rewrite if_false. intros [Hca H]%andb_true_iff. destruct requester as [r|]; [|done].
  destruct (parse_multiaddr r) as [raddr|] eqn:Er; [|done]. rewrite if_false in H. apply andb_true_iff in H as [Hcr H].
  destruct (first_ip_component r) as [q|] eqn:Eq; [|done]. rewrite if_false, negb_involutive in H. apply andb_true_iff in H as [Hq H].
  destruct (first_ip_component multiaddr) as [e|] eqn:Ee; [|done]. rewrite if_false, negb_orb, !negb_involutive in H.
  apply andb_true_iff in H as [[He Hs]%andb_true_iff H]. cbv zeta in H. apply andb_true_iff in H as [_ H].
  apply existsb_exists in H as (l & Hl & Hsl). apply list_elem_of_In, list_elem_of_omap in Hl as (a & Ha & Hla).
  assert (forall l, negb (existsb is_circuit l) = true -> circuits l = 0%nat) as Hcirc.
  { intros l0 Hl0%negb_true_iff. rewrite <-(hop_direct l0 Hl0). clear. induction l0 as [|p l0 IH]; [done|]. cbn [hop].
    destruct (is_circuit p) eqn:Hp; [done|]. by rewrite circuits_cons, Hp. }
  exists r, addr, raddr, e, q. split_and!; eauto using adjacency_neighbours.
Qed.

Lemma relayed_requester multiaddr r raddr my_addrs :
  parse_multiaddr r = Some raddr -> P2pCircuit ∈ raddr -> is_disclosable_on_rfc1918_network multiaddr (Some r) my_addrs = false.
Proof.
  intros Hr Hin. assert (existsb is_circuit raddr = true) as Hc.
  { apply existsb_exists. exists P2pCircuit. split; [by apply list_elem_of_In|done]. }
  unfold is_disclosable_on_rfc1918_network. destruct (parse_multiaddr multiaddr); [|done].
  case_if; [done|]. by rewrite Hr, Hc.
Qed.

(** A private address goes only to a requester seen on the same private network, reached
    without a relay, and only if the node listens on the subnet of the requester: the entry
    and the requester are neighbours, and so is one of the node's own addresses.  A requester
    without an observed address, or one that came through a relay, learns nothing private. *)
Theorem lan_disclosure multiaddr requester my_addrs :
  (is_disclosable_on_rfc1918_network multiaddr requester my_addrs = true ->
   exists r e q l, requester = Some r /\ first_ip_component multiaddr = Some e /\ first_ip_component r = Some q /\
     neighbours e q /\ l ∈ omap first_ip_component my_addrs /\ same_private_subnet l q = true) /\
  is_disclosable_on_rfc1918_network multiaddr None my_addrs = false /\
  (forall r raddr, parse_multiaddr r = Some raddr -> P2pCircuit ∈ raddr ->
     is_disclosable_on_rfc1918_network multiaddr (Some r) my_addrs = false).
Proof.
  split_and!.
  - intros (r & addr & raddr & e & q & -> & _ & _ & _ & _ & He & Hq & Hn & a & l & Ha & Hl & Hs)%lan_evidence.
    exists r, e, q, l. split_and!; try done. apply list_elem_of_omap. eauto.
  - unfold is_disclosable_on_rfc1918_network. destruct (parse_multiaddr multiaddr); [|done]. by case_if.
  - intros r raddr Hr Hin. by eapply relayed_requester.
Qed.

Context {LM : LawfulMultiaddr}.

Lemma strip_print addr : strip_peer_id (print_multiaddr addr) = print_multiaddr (strip_peer_id_multiaddr addr).
Proof. unfold strip_peer_id. by rewrite parse_print. Qed.

(** Stripping the endpoint's peer ids is done once for all, leaves every verdict as it was,
    and keeps the relay that a circuit goes through, its peer id included. *)
Theorem strip_keeps_route addr :
  strip_peer_id (strip_peer_id (print_multiaddr addr)) = strip_peer_id (print_multiaddr addr) /\
  (forall mode dns, is_dialable_multiaddr (strip_peer_id (print_multiaddr addr)) mode dns =
                    is_dialable_multiaddr (print_multiaddr addr) mode dns) /\
  is_disclosable_multiaddr (strip_peer_id (print_multiaddr addr)) = is_disclosable_multiaddr (print_multiaddr addr) /\
  (forall relay rest, addr = relay ++ P2pCircuit :: rest ->
     relay ++ [P2pCircuit] `prefix_of` strip_peer_id_multiaddr addr).
Proof.
  unfold is_dialable_multiaddr, is_disclosable_multiaddr. rewrite !strip_print, !parse_print.
  split_and!.
  - by rewrite strip_idempotent.
  - intros. apply check_strip.
  - apply check_strip.
  - intros relay rest ->. destruct (circuit_split rest) as [H|(l1 & l2 & -> & H)].
    + rewrite strip_circuit by done. exists (without_peers rest). by rewrite <-app_assoc.
    + replace (relay ++ P2pCircuit :: l1 ++ P2pCircuit :: l2) with ((relay ++ P2pCircuit :: l1) ++ P2pCircuit :: l2)
        by (by rewrite <-app_assoc). rewrite strip_circuit by done.
      exists (l1 ++ P2pCircuit :: without_peers l2). by rewrite <-!app_assoc.
Qed.

(** A node's own address with a peer id attached, any peer id, is still its own address. *)
Theorem self_dial_unmasked addr p my_addrs :
  is_self_address (print_multiaddr (addr ++ [P2p p])) my_addrs = is_self_address (print_multiaddr addr) my_addrs.
Proof. unfold is_self_address. by rewrite !strip_print, strip_snoc_peer. Qed.

(** An address accepted from a peer may be dialed and is none of the node's own. *)
Theorem accepted_is_foreign addr mode dns my_addrs :
  is_acceptable_peer_address (print_multiaddr addr) mode dns my_addrs = true ->
  check_multiaddr addr (Dial mode) dns = true /\
  Forall (fun m => strip_peer_id m <> print_multiaddr (strip_peer_id_multiaddr addr)) my_addrs.
Proof.
  unfold is_acceptable_peer_address, is_dialable_multiaddr, is_self_address. rewrite parse_print.
  intros [Hd Hs%negb_true_iff]%andb_true_iff. split; [done|]. rewrite strip_print in Hs.
  apply Forall_forall. intros m Hm Heq. destruct (String.eqb _ "") eqn:He in Hs.
  - apply String.eqb_eq in He. apply print_empty in He. unfold is_dialable_multiaddr_parsed in Hd.
    by rewrite <-check_strip, He in Hd.
  - apply Bool.not_true_iff_false in Hs. apply Hs, existsb_exists. exists m. split; [by apply list_elem_of_In|by apply String.eqb_eq].
Qed.

End TextTheorems.

(** The ledger's predicate counts an IP address after the relay marker as the transport of
    the hop before it: an address whose hop has no transport, which no audience accepts, is
    recorded. *)
Theorem recordable_without_hop r v audience dns :
  recordable_parsed [P2p r; P2pCircuit; Ip4 v] = true /\ check_multiaddr [P2p r; P2pCircuit; Ip4 v] audience dns = false.
Proof. done. Qed.

(** What may be dialed without trusting names may be recorded. *)
Theorem dialable_recordable addr mode : check_multiaddr addr (Dial mode) Reject = true -> recordable_parsed addr = true.
Proof.
  unfold check_multiaddr. rewrite check_from_spec, recordable_spec. rewrite !andb_true_iff. intros [[Hp Ht] Hc].
  assert (existsb is_dns (hop addr) = false) as Hd.
  { apply Bool.not_true_iff_false. intros (p & Hin & Hdns)%existsb_exists. rewrite forallb_forall in Hp.
    specialize (Hp p Hin). by destruct p. }
  split_and!; [by rewrite Hd| |done]. apply existsb_exists in Ht as (p & Hin & Hip). apply existsb_exists. exists p.
  split; [|apply orb_true_iff in Hip as [?|Hip]; [done|]].
  - clear -Hin. induction addr as [|q addr IH]; [done|]. cbn [hop] in Hin. destruct (is_circuit q); [done|].
    destruct Hin as [-> |Hin]; [by left|right; auto].
  - exfalso. apply Bool.not_true_iff_false in Hd. apply Hd, existsb_exists. eauto.
Qed.

(** ** Examples *)

Module AddrFilterExamples.

Definition to_tree (p : Protocol) : gen_tree (Z + string) :=
  match p with
  | Ip4 (ipv4 a b c d) => GenNode 0 [GenLeaf (inl a); GenLeaf (inl b); GenLeaf (inl c); GenLeaf (inl d)]
  | Ip6 (ipv6 a b c d e f g h) =>
      GenNode 1 [GenLeaf (inl a); GenLeaf (inl b); GenLeaf (inl c); GenLeaf (inl d);
                 GenLeaf (inl e); GenLeaf (inl f); GenLeaf (inl g); GenLeaf (inl h)]
  | Dns s => GenNode 2 [GenLeaf (inr s)]
  | Dns4 s => GenNode 3 [GenLeaf (inr s)]
  | Dns6 s => GenNode 4 [GenLeaf (inr s)]
  | Dnsaddr s => GenNode 5 [GenLeaf (inr s)]
  | Tcp z => GenNode 6 [GenLeaf (inl z)]
  | Udp z => GenNode 7 [GenLeaf (inl z)]
  | P2p s => GenNode 8 [GenLeaf (inr s)]
  | P2pCircuit => GenNode 9 []
  | Other s => GenNode 10 [GenLeaf (inr s)]
  end.

Definition of_tree (t : gen_tree (Z + string)) : option Protocol :=
  match t with
  | GenNode 0 [GenLeaf (inl a); GenLeaf (inl b); GenLeaf (inl c); GenLeaf (inl d)] => Some (Ip4 (ipv4 a b c d))
  | GenNode 1 [GenLeaf (inl a); GenLeaf (inl b); GenLeaf (inl c); GenLeaf (inl d);
               GenLeaf (inl e); GenLeaf (inl f); GenLeaf (inl g); GenLeaf (inl h)] => Some (Ip6 (ipv6 a b c d e f g h))
  | GenNode 2 [GenLeaf (inr s)] => Some (Dns s)
  | GenNode 3 [GenLeaf (inr s)] => Some (Dns4 s)
  | GenNode 4 [GenLeaf (inr s)] => Some (Dns6 s)
  | GenNode 5 [GenLeaf (inr s)] => Some (Dnsaddr s)
  | GenNode 6 [GenLeaf (inl z)] => Some (Tcp z)
  | GenNode 7 [GenLeaf (inl z)] => Some (Udp z)
  | GenNode 8 [GenLeaf (inr s)] => Some (P2p s)
  | GenNode 9 [] => Some P2pCircuit
  | GenNode 10 [GenLeaf (inr s)] => Some (Other s)
  | _ => None
  end.

#[export] Instance Protocol_countable : Countable Protocol.
Proof. refine (inj_countable to_tree of_tree _). by intros [[]|[]| | | | | | | | |]. Defined.

(** Addresses as the text of some encoding, the empty address as the empty text. *)
#[export] Instance sample_multiaddr : MultiaddrLib :=
  {| parse_multiaddr s :=
       if String.eqb s "" then Some [] else match dec_any (str_bytes s) with Ok a => Some a | _ => None end;
     print_multiaddr a := match a with [] => ""%string | _ => of_bytes (enc_any a) end |}.

Lemma enc_any_nonempty {A} `{Countable A} (a : A) : of_bytes (enc_any a) <> ""%string.
Proof.
  intros H1. apply (f_equal str_bytes) in H1. rewrite str_bytes_of_bytes in H1. revert H1. unfold enc_any. by destruct (encode a).
Qed.

#[export] Instance sample_multiaddr_lawful : LawfulMultiaddr.
Proof.
  split; cbn [parse_multiaddr print_multiaddr sample_multiaddr].
  - intros [|p a]; [done|]. rewrite (proj2 (String.eqb_neq _ _)) by apply enc_any_nonempty.
    by rewrite str_bytes_of_bytes, dec_enc_any.
  - intros [|p a]; [done|]. intros H. by apply enc_any_nonempty in H.
Qed.

Definition METADATA : Ipv4Addr := ipv4 169 254 169 254.
Definition RELAY : Multiaddr := [Ip4 (ipv4 203 0 113 7); Tcp 443; P2p "QmRelay"; P2pCircuit; P2p "QmTarget"].

(** The metadata service behind NAT64 is refused; a public 6to4 address is a target that passes. *)
Example metadata_refused :
  check_multiaddr [Ip6 (ipv6 0x64 0xff9b 0 0 0 0 0xa9fe 0xa9fe); Tcp 80] (Dial Local) Reject = false.
Proof. reflexivity. Qed.

Lemma filtered_targets_witness :
  outside (ipv4 8 8 4 4) (forbidden Disclose).
Proof.
  apply (filtered_targets [Ip6 (ipv6 0x2002 (seg 8 8) (seg 4 4) 0 0 0 0 1); Tcp 80] Disclose Reject).
  - reflexivity.
  - by_computation.
  - right. eexists. split; [apply elem_of_cons; by left|constructor].
Defined.

Lemma audiences_ordered_witness : check_multiaddr RELAY (Dial Public) AllowLocallyConfigured = true.
Proof. apply (audiences_ordered RELAY Disclose); reflexivity. Defined.

Lemma proxy_adds_loopback_witness :
  Exists (fun p => match p with
                   | Ip4 v => v4_loopback v = true
                   | Ip6 ip => match embedded_ipv4 ip, teredo_ipv4s ip with
                               | Some v, _ => v4_loopback v = true
                               | None, Some (x, y) => v4_loopback x = true \/ v4_loopback y = true
                               | None, None => False
                               end
                   | _ => False
                   end) (hop [Ip4 (ipv4 127 0 0 1); Tcp 9001]).
Proof. apply (proxy_adds_loopback _ Reject); reflexivity. Defined.

Definition LAN_ENTRY : string := print_multiaddr [Ip4 (ipv4 192 168 1 20); Tcp 9001].
Definition LAN_REQUESTER : string := print_multiaddr [Ip4 (ipv4 192 168 1 44); Tcp 50000].
Definition LAN_SELF : string := print_multiaddr [Ip4 (ipv4 192 168 1 2); Tcp 9001].

Lemma lan_disclosure_witness :
  is_disclosable_on_rfc1918_network LAN_ENTRY (Some LAN_REQUESTER) [LAN_SELF] = true /\
  (exists r e q, Some LAN_REQUESTER = Some r /\ first_ip_component LAN_ENTRY = Some e /\ first_ip_component r = Some q /\ neighbours e q) /\
  is_disclosable_on_rfc1918_network LAN_ENTRY (Some (print_multiaddr RELAY)) [LAN_SELF] = false.
Proof.
  assert (is_disclosable_on_rfc1918_network LAN_ENTRY (Some LAN_REQUESTER) [LAN_SELF] = true) as H by (vm_compute; reflexivity).
  split; [exact H|]. split.
  - destruct (proj1 (lan_disclosure LAN_ENTRY (Some LAN_REQUESTER) [LAN_SELF]) H) as (r & e & q & l & Hr & He & Hq & Hn & _).
    exists r, e, q. split_and!; assumption.
  - refine (proj2 (proj2 (lan_disclosure LAN_ENTRY None [LAN_SELF])) _ RELAY (parse_print RELAY) _). unfold RELAY. do 3 right. by left.
Defined.

Lemma strip_keeps_route_witness :
  strip_peer_id (strip_peer_id (print_multiaddr RELAY)) = strip_peer_id (print_multiaddr RELAY).
Proof. apply (strip_keeps_route RELAY). Defined.

Lemma self_dial_unmasked_witness :
  is_self_address (print_multiaddr ([Ip4 (ipv4 192 168 1 2); Tcp 9001] ++ [P2p "QmX"])) [LAN_SELF] = true.
Proof. rewrite self_dial_unmasked. vm_compute. reflexivity. Defined.

Lemma accepted_is_foreign_witness :
  Forall (fun m => strip_peer_id m <> print_multiaddr (strip_peer_id_multiaddr RELAY)) [LAN_SELF].
Proof. apply (accepted_is_foreign RELAY Local Reject). vm_compute. reflexivity. Defined.

Lemma dialable_recordable_witness : recordable_parsed RELAY = true.
Proof. apply (dialable_recordable RELAY Local). reflexivity. Defined.

End AddrFilterExamples.
