(* ===== verification/Ledger.v ===== *)
(** * The connection ledger ([core/src/store/ledger_entry.rs])

    The addresses a node has heard of or reached, bounded, kept in memory and in the file
    [ledger.json], and what it hands out of them: dial candidates, invite seeds, and replies
    to ledger exchanges.  The file system is the directory of the ledger with the faults of
    one call as an argument; peer ids and keys are third-party code, the classes [IdLib],
    [KeyLib] and [PeerLib]; [serde_json] is a [Codec]. *)

From Stdlib Require Import SpecFloat.
From stdpp Require Import pretty.
From S2P Require Import Prelude Effects Ids AddrFilter Floats.

(** ** Data *)

Record LedgerEntry : Type := mkLedger {
  le_multiaddr : string;
  le_peer_id : option string;
  le_public_key : option string;
  le_nickname : option string;
  le_success_count : Z;
  le_failure_count : Z;
  le_last_seen : option Z;
  le_topics : list string;
}.

#[global] Instance LedgerEntry_eq_dec : EqDecision LedgerEntry.
Proof. solve_decision. Defined.

Record SeedLedgerEntry : Type := mkSeed { seed_multiaddr : string }.

Inductive SeedExportAudience : Type := Untrusted | LocalMesh.

Record SharedPeerEntry : Type := mkShared {
  sp_multiaddr : string;
  sp_last_peer_id : option string;
  sp_last_seen : Z;
  sp_known_topics : list string;
}.

Definition MAX_SEED_LEDGER_ENTRIES : Z := 16.
Definition MAX_LEDGER_ENTRIES : Z := 1024.
Definition MAX_LEN_MULTIADDR : Z := 512.
Definition MAX_LEN_PEER_ID : Z := 128.
Definition MAX_LEN_PUBLIC_KEY : Z := 512.
Definition MAX_LEN_NICKNAME : Z := 128.
Definition MAX_TOPICS_PER_ENTRY : Z := 64.
Definition MAX_LEN_TOPIC : Z := 256.
Definition MAX_PERSISTED_LEDGER_BYTES : Z := 16 * 1024 * 1024.
Definition LEDGER_DEAD_FAILURE_THRESHOLD : Z := 3.

(** Third-party: [str::parse::<PeerId>], and the text of the peer id of an Ed25519 key. *)
Class PeerLib : Type := {
  peer_id_valid : string -> bool;
  peer_id_of_key : bytes -> string;
}.

(** Updates of one field. *)
Definition set_peer_id (e : LedgerEntry) (p : option string) : LedgerEntry :=
  mkLedger (le_multiaddr e) p (le_public_key e) (le_nickname e) (le_success_count e) (le_failure_count e) (le_last_seen e) (le_topics e).
Definition set_public_key (e : LedgerEntry) (k : option string) : LedgerEntry :=
  mkLedger (le_multiaddr e) (le_peer_id e) k (le_nickname e) (le_success_count e) (le_failure_count e) (le_last_seen e) (le_topics e).
Definition set_nickname (e : LedgerEntry) (n : option string) : LedgerEntry :=
  mkLedger (le_multiaddr e) (le_peer_id e) (le_public_key e) n (le_success_count e) (le_failure_count e) (le_last_seen e) (le_topics e).
Definition set_success (e : LedgerEntry) (n : Z) : LedgerEntry :=
  mkLedger (le_multiaddr e) (le_peer_id e) (le_public_key e) (le_nickname e) n (le_failure_count e) (le_last_seen e) (le_topics e).
Definition set_failure (e : LedgerEntry) (n : Z) : LedgerEntry :=
  mkLedger (le_multiaddr e) (le_peer_id e) (le_public_key e) (le_nickname e) (le_success_count e) n (le_last_seen e) (le_topics e).
Definition set_last_seen (e : LedgerEntry) (t : option Z) : LedgerEntry :=
  mkLedger (le_multiaddr e) (le_peer_id e) (le_public_key e) (le_nickname e) (le_success_count e) (le_failure_count e) t (le_topics e).
Definition set_topics (e : LedgerEntry) (l : list string) : LedgerEntry :=
  mkLedger (le_multiaddr e) (le_peer_id e) (le_public_key e) (le_nickname e) (le_success_count e) (le_failure_count e) (le_last_seen e) l.

(** ** Orders *)

(** [Ord for str]. *)
Definition str_cmp (s t : string) : comparison :=
  if String.eqb s t then Eq else if bytes_leb (str_bytes s) (str_bytes t) then Lt else Gt.

(** [Ordering::then_with]. *)
Definition then_with (c d : comparison) : comparison := match c with Eq => d | _ => c end.

(** Entries never seen come first, then the oldest. *)
Definition seen_cmp (a b : option Z) : comparison :=
  match a, b with
  | None, None => Eq
  | None, Some _ => Lt
  | Some _, None => Gt
  | Some a, Some b => a ?= b
  end.

Definition oldest_seen_first (a b : nat * LedgerEntry) : comparison :=
  then_with (seen_cmp (le_last_seen a.2) (le_last_seen b.2)) (str_cmp (le_multiaddr a.2) (le_multiaddr b.2)).

Definition seen_or_0 (e : LedgerEntry) : Z := default 0 (le_last_seen e).

Definition bool_cmp (a b : bool) : comparison :=
  match a, b with false, true => Lt | true, false => Gt | _, _ => Eq end.

(** The order of the cut at load time: proven first, then the most recently seen. *)
Definition keep_first (a b : LedgerEntry) : comparison :=
  then_with (bool_cmp (0 <? le_success_count b) (0 <? le_success_count a))
    (then_with (seen_or_0 b ?= seen_or_0 a) (str_cmp (le_multiaddr a) (le_multiaddr b))).

(** [success as f64 / total as f64], or zero. *)
Definition rate (e : LedgerEntry) : f64 :=
  let total := le_success_count e + le_failure_count e in
  if 0 <? total then f64_div (f64_of (le_success_count e)) (f64_of total) else f64_of 0.

(** [partial_cmp(..).unwrap_or(Equal)]. *)
Definition cmp_or_equal (x y : f64) : comparison := match SFcompare x y with Some c => c | None => Eq end.

Definition dial_first (a b : LedgerEntry) : comparison :=
  then_with (seen_or_0 b ?= seen_or_0 a)
    (then_with (cmp_or_equal (rate b) (rate a))
       (then_with (le_success_count b ?= le_success_count a) (str_cmp (le_multiaddr a) (le_multiaddr b)))).

(** Never seen last. *)
Definition seed_first (a b : LedgerEntry) : comparison :=
  then_with (seen_cmp (le_last_seen b) (le_last_seen a))
    (then_with (le_success_count b ?= le_success_count a) (str_cmp (le_multiaddr a) (le_multiaddr b))).

(** [sort_by], a stable sort. *)
Definition sort_by {A} (cmp : A -> A -> comparison) (l : list A) : list A := stable_sort (fun a b => cmp a b <> Gt) l.

(** ** Text *)

Fixpoint is_prefix (p l : bytes) : bool :=
  match p, l with
  | [], _ => true
  | a :: p, b :: l => bool_decide (a = b) && is_prefix p l
  | _ :: _, [] => false
  end.

(** [str::contains]. *)
Fixpoint contains (needle hay : bytes) : bool :=
  is_prefix needle hay || match hay with [] => false | _ :: hay => contains needle hay end.

Definition is_dns_multiaddr (addr_str : string) : bool :=
  contains (str_bytes "/dns/") (str_bytes addr_str) || contains (str_bytes "/dns4/") (str_bytes addr_str) ||
  contains (str_bytes "/dns6/") (str_bytes addr_str) || contains (str_bytes "/dnsaddr/") (str_bytes addr_str).

(** [chars().any(char::is_control)]: the control characters below U+0020, U+007F, and the
    ones from U+0080 to U+009F, which take two bytes. *)
Fixpoint has_control (l : bytes) : bool :=
  match l with
  | [] => false
  | a :: l =>
      (byte.unsigned a <? 32) || (byte.unsigned a =? 127) ||
      ((byte.unsigned a =? 0xC2) && match l with b :: _ => (0x80 <=? byte.unsigned b) && (byte.unsigned b <=? 0x9F) | [] => false end) ||
      has_control l
  end.

(** [value.trim()], unless nothing is left. *)
Definition trimmed (value : option string) : option string :=
  value ≫= fun value => let t := trim value in if String.eqb t "" then None else Some t.

Definition sanitize_optional_ledger_text (value : option string) (max_len : Z) : option string * bool :=
  let sanitized := value ≫= fun value =>
    let t := trim value in
    if String.eqb t "" || (max_len <? str_len t) || has_control (str_bytes t) then None else Some t in
  (sanitized, negb (bool_decide (value = sanitized))).

(** The loop of [sanitize_legacy_topics]. *)
Fixpoint topics_loop (sanitized : list string) (changed : bool) (original : list string) : list string * bool :=
  match original with
  | [] => (sanitized, changed)
  | topic :: original =>
      if zlen sanitized =? MAX_TOPICS_PER_ENTRY then (sanitized, true)
      else
        let t := trim topic in
        if String.eqb t "" || (MAX_LEN_TOPIC <? str_len t) || has_control (str_bytes t)
        then topics_loop sanitized true original
        else if existsb (fun existing => String.eqb existing t) sanitized then topics_loop sanitized true original
        else topics_loop (sanitized ++ [t]) (changed || negb (str_len t =? str_len topic)) original
  end.

Definition sanitize_legacy_topics (topics : list string) : list string * bool := topics_loop [] false topics.

(** ** Peer ids and keys *)

Section Ledger.
Context {IL : IdLib} {KL : KeyLib} {PL : PeerLib} {ML : MultiaddrLib} `{Build}.

Definition strip_peer_id_component (multiaddr : string) : string := strip_peer_id multiaddr.

Definition port (proto : Protocol) : option Z := match proto with Tcp p | Udp p => Some p | _ => None end.

Definition get_multiaddr_port (addr_str : string) : option Z := addr ← parse_multiaddr addr_str; find_map port addr.

Definition peer_id_from_public_key_hex (public_key_hex : string) : option string :=
  bytes ← hex_decode public_key_hex;
  if (zlen bytes =? 32) && ed_point bytes then Some (peer_id_of_key bytes) else None.

(** The start of an identity multihash of a 32-byte Ed25519 key. *)
Definition KEY_HEADER : bytes := [Byte.x00; Byte.x24; Byte.x08; Byte.x01; Byte.x12; Byte.x20].

Definition public_key_hex_from_libp2p_peer_id (peer_id : string) : option string :=
  bytes ← bs58_decode (trim peer_id);
  if negb (zlen bytes =? 38) || negb (bool_decide (take 6 bytes = KEY_HEADER)) then None
  else
    let key_hex := hex_encode (drop 6 bytes) in
    if negb (bool_decide (peer_id_from_public_key_hex key_hex = Some (trim peer_id))) then None else Some key_hex.

Definition is_self_certifying_binding (peer_id public_key_hex : string) : bool :=
  match peer_id_from_public_key_hex public_key_hex with Some derived => String.eqb derived peer_id | None => false end.

(** [s.len() == 64 && s.chars().all(hex digit) && hex::decode(s).is_ok()]. *)
Definition hex_id (s : string) : bool :=
  (str_len s =? 64) && forallb is_ascii_hexdigit (str_bytes s) && bool_decide (is_Some (hex_decode s)).

Definition canonical_ledger_peer_id (peer_id : string) (public_key : option string) : option string :=
  let t := trim peer_id in
  if String.eqb t "" then None
  else if hex_id t then Some (to_lowercase t)
  else match public_key with
       | Some pk =>
           let pk_trimmed := trim pk in
           let pk_valid := hex_id pk_trimmed in
           if pk_valid && is_self_certifying_binding t pk_trimmed then Some (to_lowercase pk_trimmed)
           else match public_key_hex_from_libp2p_peer_id t with
                | Some derived => Some (to_lowercase derived)
                | None => if pk_valid then None else to_lowercase <$> public_key_hex_from_libp2p_peer_id t
                end
       | None => to_lowercase <$> public_key_hex_from_libp2p_peer_id t
       end.

(** The length and form checks at the start of an ingestion. *)
Definition ingest_refused (multiaddr peer_id : string) : bool :=
  (MAX_LEN_MULTIADDR <? str_len multiaddr) ||
  (negb (String.eqb peer_id "") &&
   ((MAX_LEN_PEER_ID <? str_len peer_id) || (negb (hex_id (trim peer_id)) && negb (peer_id_valid peer_id)))).

(** ** Eviction *)

Definition evict_one_locked (entries : list LedgerEntry) : list LedgerEntry :=
  if zlen entries <? MAX_LEDGER_ENTRIES then entries
  else
    let victim :=
      match min_by oldest_seen_first (filter (fun ie => le_success_count ie.2 = 0) (imap pair entries)) with
      | Some (idx, _) => idx
      | None => match min_by oldest_seen_first (imap pair entries) with Some (idx, _) => idx | None => 0%nat end
      end in
    delete victim entries.

(** [while entries.len() >= MAX_LEDGER_ENTRIES { evict_one_locked(entries) }]; every round
    removes an entry, so as many rounds as there are entries are enough. *)
Fixpoint evict_loop (fuel : nat) (entries : list LedgerEntry) : list LedgerEntry :=
  match fuel with
  | O => entries
  | S fuel => if MAX_LEDGER_ENTRIES <=? zlen entries then evict_loop fuel (evict_one_locked entries) else entries
  end.

Definition make_room (entries : list LedgerEntry) : list LedgerEntry := evict_loop (length entries) entries.

(** ** Ingestion *)

(** The first entry of this peer under a name, at the same port. *)
Definition dns_entry (entries : list LedgerEntry) (multiaddr peer_id : string) : option nat :=
  let target_port := get_multiaddr_port multiaddr in
  fst <$> list_find (fun entry =>
    Is_true (bool_decide (le_peer_id entry = Some peer_id) && is_dns_multiaddr (le_multiaddr entry) &&
             (bool_decide (target_port = None) || bool_decide (get_multiaddr_port (le_multiaddr entry) = target_port)))) entries.

Definition address_entry (entries : list LedgerEntry) (multiaddr : string) : option nat :=
  fst <$> list_find (fun entry => le_multiaddr entry = multiaddr) entries.

(** The peer id and key that [annotate_identity_locked] stores. *)
Definition canonical_pair (peer_id : string) (public_key : option string) : string * option string :=
  match canonical_ledger_peer_id peer_id public_key with
  | Some canonical =>
      if negb (String.eqb canonical (to_lowercase (trim peer_id))) then
        (canonical,
         match public_key with
         | Some pk => if String.eqb (to_lowercase (trim pk)) canonical && negb (String.eqb pk canonical) then Some canonical else Some pk
         | None => Some canonical
         end)
      else (to_lowercase (trim peer_id), (fun pk => to_lowercase (trim pk)) <$> public_key)
  | None => (peer_id, public_key)
  end.

Definition or_keep {A} (new old : option A) : option A := match new with Some _ => new | None => old end.

Definition annotate_identity_locked (now : Z) (entries : list LedgerEntry) (multiaddr peer_id : string)
    (public_key nickname : option string) : list LedgerEntry * bool :=
  let normalized_public_key := trimmed public_key in
  let normalized_nickname := trimmed nickname in
  if ingest_refused multiaddr peer_id ||
     match normalized_public_key with Some v => MAX_LEN_PUBLIC_KEY <? str_len v | None => false end ||
     match normalized_nickname with Some v => MAX_LEN_NICKNAME <? str_len v | None => false end
  then (entries, false)
  else
    let normalized_public_key := normalized_public_key ≫= fun key =>
      if String.eqb peer_id "" || is_self_certifying_binding peer_id key then Some key else None in
    let '(peer_id, normalized_public_key) := canonical_pair peer_id normalized_public_key in
    let annotate (entry : LedgerEntry) :=
      set_last_seen (set_nickname (set_public_key entry (or_keep normalized_public_key (le_public_key entry)))
                       (or_keep normalized_nickname (le_nickname entry))) (Some now) in
    match dns_entry entries multiaddr peer_id with
    | Some idx => (alter annotate idx entries, false)
    | None =>
        match address_entry entries multiaddr with
        | Some idx => (alter (fun entry => annotate (set_peer_id entry (Some peer_id))) idx entries, false)
        | None =>
            (make_room entries ++ [mkLedger multiaddr (Some peer_id) normalized_public_key normalized_nickname 0 0 (Some now) []], true)
        end
    end.

(** The peer id and key that [record_connection] stores. *)
Definition connection_pair (peer_id : string) : string * option string :=
  match canonical_ledger_peer_id peer_id None with
  | Some canonical => (canonical, Some canonical)
  | None =>
      let trimmed_lower := to_lowercase (trim peer_id) in
      if hex_id trimmed_lower && negb (String.eqb peer_id trimmed_lower) then (trimmed_lower, Some trimmed_lower)
      else (peer_id, None)
  end.

(** [entry.success_count += 1] at an index, and what follows it. *)
Definition reached (now : Z) (key : option string) (entries : list LedgerEntry) (idx : nat) (f : LedgerEntry -> LedgerEntry) :
    res string (list LedgerEntry) :=
  match entries !! idx with
  | Some entry =>
      let! n := chk_u 32 (le_success_count entry + 1) in
      let entry := f (set_success entry n) in
      Ok (<[idx := set_last_seen (set_public_key entry (or_keep (le_public_key entry) key)) (Some now)]> entries)
  | None => Panic
  end.

Definition record_connection_locked (now : Z) (entries : list LedgerEntry) (multiaddr peer_id : string) : res string (list LedgerEntry) :=
  let '(peer_id, canonical_public_key) := connection_pair peer_id in
  match dns_entry entries multiaddr peer_id with
  | Some idx => reached now canonical_public_key entries idx (fun e => e)
  | None =>
      match address_entry entries multiaddr with
      | Some idx => reached now canonical_public_key entries idx (fun e => set_peer_id e (Some peer_id))
      | None =>
          Ok (make_room entries ++ [mkLedger multiaddr (Some peer_id) canonical_public_key None 1 0 (Some now) []])
      end
  end.

(** One seed of [import_seed_entries_locked]. *)
Definition import_seed (now : Z) (mode : NetworkMode) (ledger : list LedgerEntry) (added : Z) (seed : SeedLedgerEntry) :
    list LedgerEntry * Z :=
  let stripped := strip_peer_id_component (seed_multiaddr seed) in
  if String.eqb stripped "" then (ledger, added)
  else if negb (is_dialable_multiaddr stripped mode Reject) then (ledger, added)
  else if existsb (fun e => String.eqb (strip_peer_id_component (le_multiaddr e)) stripped) ledger then (ledger, added)
  else if (MAX_LEN_MULTIADDR <? str_len (seed_multiaddr seed)) || (MAX_LEN_MULTIADDR <? str_len stripped) then (ledger, added)
  else (make_room ledger ++ [mkLedger stripped None None None 0 0 (Some now) []], added + 1).

Definition import_seeds (now : Z) (mode : NetworkMode) (ledger : list LedgerEntry) (seeds : list SeedLedgerEntry) :
    list LedgerEntry * Z :=
  foldl (fun '(ledger, added) seed => import_seed now mode ledger added seed) (ledger, 0)
    (take (Z.to_nat MAX_SEED_LEDGER_ENTRIES) seeds).

(** ** Reading *)

Definition alive (e : LedgerEntry) : bool := (0 <? le_success_count e) && (le_failure_count e <? LEDGER_DEAD_FAILURE_THRESHOLD).

Definition dialable_addresses (entries : list LedgerEntry) : list LedgerEntry :=
  sort_by dial_first (filter (fun e => alive e = true) entries).

Definition seed_addresses (entries : list LedgerEntry) (limit : Z) : list LedgerEntry :=
  take (Z.to_nat limit)
    (sort_by seed_first (filter (fun e => le_success_count e = 0 /\ le_failure_count e < LEDGER_DEAD_FAILURE_THRESHOLD) entries)).

Definition get_preferred_relays (entries : list LedgerEntry) (limit : Z) : list LedgerEntry :=
  take (Z.to_nat limit) (sort_by (fun a b => seen_or_0 b ?= seen_or_0 a) (filter (fun e => alive e = true) entries)).

Definition exported (audience : SeedExportAudience) (addr : string) : bool :=
  match audience with
  | Untrusted => is_disclosable_multiaddr addr
  | LocalMesh => is_dialable_multiaddr addr Local Reject
  end.

Definition export_seed_entries_for (entries : list LedgerEntry) (limit : Z) (audience : SeedExportAudience) : list SeedLedgerEntry :=
  mkSeed <$> filter (fun addr => exported audience addr = true)
               ((fun entry => strip_peer_id_component (le_multiaddr entry)) <$> get_preferred_relays entries limit).

Definition export_seed_entries (entries : list LedgerEntry) (limit : Z) : list SeedLedgerEntry :=
  export_seed_entries_for entries limit Untrusted.

(** [Vec::dedup]. *)
Fixpoint dedup_from (x : string) (l : list string) : list string :=
  match l with
  | [] => []
  | y :: l => if String.eqb x y then dedup_from x l else y :: dedup_from y l
  end.

Definition dedup (l : list string) : list string := match l with [] => [] | x :: l => x :: dedup_from x l end.

Definition all_known_topics (entries : list LedgerEntry) : list string := dedup (sort_by str_cmp (entries ≫= le_topics)).

Definition summary (entries : list LedgerEntry) : string :=
  "Ledger contains " +:+ pretty (zlen entries) +:+ " peer entries".

Definition ledger_entry_to_shared (entry : LedgerEntry) : SharedPeerEntry :=
  mkShared (strip_peer_id_component (le_multiaddr entry)) (le_peer_id entry) (seen_or_0 entry / 1000) (le_topics entry).

Definition ledger_entry_to_shared_routing_only (entry : LedgerEntry) : SharedPeerEntry :=
  let e := ledger_entry_to_shared entry in mkShared (sp_multiaddr e) (sp_last_peer_id e) (sp_last_seen e) [].

Definition discloses (requester_peer_id : string) (requester_addr : option string) (my_addrs : list string) (e : LedgerEntry) : bool :=
  alive e && negb (bool_decide (le_peer_id e = Some requester_peer_id)) &&
  (let addr := strip_peer_id_component (le_multiaddr e) in
   is_disclosable_multiaddr addr || is_disclosable_on_rfc1918_network addr requester_addr my_addrs).

Definition exchange_response_entries_for_request (entries : list LedgerEntry) (limit : Z) (requester_peer_id : string)
    (requester_addr : option string) (my_addrs : list string) : list SharedPeerEntry :=
  ledger_entry_to_shared_routing_only <$>
    take (Z.to_nat limit) (filter (fun e => discloses requester_peer_id requester_addr my_addrs e = true) entries).

Definition exchange_response_entries (entries : list LedgerEntry) (limit : Z) (requester_peer_id : string)
    (my_addrs : list string) : list SharedPeerEntry :=
  exchange_response_entries_for_request entries limit requester_peer_id None my_addrs.

(** ** The file *)

(** Load-time checks and repairs. *)

Definition load_admits (entry : LedgerEntry) : bool :=
  (str_len (le_multiaddr entry) <=? MAX_LEN_MULTIADDR) &&
  match le_peer_id entry with
  | None => true
  | Some peer_id => String.eqb peer_id "" || ((str_len peer_id <=? MAX_LEN_PEER_ID) && peer_id_valid peer_id)
  end.

(** One round of the sanitizing loop of [load], with whether it changed the entry. *)
Definition load_sanitize (entry : LedgerEntry) : LedgerEntry * bool :=
  let '(public_key, c1) := sanitize_optional_ledger_text (le_public_key entry) MAX_LEN_PUBLIC_KEY in
  let '(nickname, c2) := sanitize_optional_ledger_text (le_nickname entry) MAX_LEN_NICKNAME in
  let '(topics, c3) := sanitize_legacy_topics (le_topics entry) in
  let poisoned :=
    match le_peer_id entry, public_key with
    | Some peer_id, Some public_key => negb (String.eqb peer_id "") && negb (is_self_certifying_binding peer_id public_key)
    | _, _ => false
    end in
  let entry := set_topics (set_nickname (set_public_key entry public_key) nickname) topics in
  if poisoned then (set_public_key entry None, true) else (entry, c1 || c2 || c3).

(** The canonical id that [load] finds for a trimmed peer id. *)
Definition load_canonical (peer_id_raw : string) (public_key : option string) : option string :=
  if hex_id peer_id_raw then Some (to_lowercase (trim peer_id_raw))
  else match public_key with
       | Some pk =>
           let pk_trimmed := trim pk in
           let pk_valid := hex_id pk_trimmed in
           if pk_valid && is_self_certifying_binding peer_id_raw pk_trimmed then Some (to_lowercase pk_trimmed)
           else match public_key_hex_from_libp2p_peer_id peer_id_raw with
                | Some derived => Some (to_lowercase derived)
                | None => if pk_valid then None else to_lowercase <$> public_key_hex_from_libp2p_peer_id peer_id_raw
                end
       | None => to_lowercase <$> public_key_hex_from_libp2p_peer_id peer_id_raw
       end.

(** One round of the migration loop of [load]. *)
Definition load_migrate (entry : LedgerEntry) : LedgerEntry * bool :=
  match le_peer_id entry with
  | None => (entry, false)
  | Some pid =>
      let peer_id_raw := trim pid in
      if String.eqb peer_id_raw "" then (entry, false)
      else match load_canonical peer_id_raw (le_public_key entry) with
           | None => (entry, false)
           | Some canonical =>
               if negb (String.eqb canonical (to_lowercase (trim peer_id_raw))) then
                 let public_key :=
                   match le_public_key entry with
                   | Some pk => if String.eqb (to_lowercase (trim pk)) canonical then Some canonical else Some pk
                   | None => Some canonical
                   end in
                 (set_public_key (set_peer_id entry (Some canonical)) public_key, true)
               else
                 let normalized_peer := to_lowercase (trim peer_id_raw) in
                 let normalized_pk := (fun pk => to_lowercase (trim pk)) <$> le_public_key entry in
                 (set_public_key (set_peer_id entry (Some normalized_peer)) normalized_pk,
                  negb (bool_decide (le_peer_id entry = Some normalized_peer)) ||
                  negb (bool_decide (le_public_key entry = normalized_pk)))
           end
  end.

(** A loop that rewrites every entry and notes whether any changed. *)
Definition each (f : LedgerEntry -> LedgerEntry * bool) (entries : list LedgerEntry) : list LedgerEntry * bool :=
  ((fun e => (f e).1) <$> entries, existsb (fun e => (f e).2) entries).

(** The cut of a ledger that is over the cap. *)
Definition load_cut (entries : list LedgerEntry) (changed : bool) : list LedgerEntry * bool :=
  if MAX_LEDGER_ENTRIES <? zlen entries
  then (take (Z.to_nat MAX_LEDGER_ENTRIES) (sort_by keep_first entries), true)
  else (entries, changed).

Definition load_repair (parsed : list LedgerEntry) : list LedgerEntry * bool :=
  let entries := filter (fun e => load_admits e = true) parsed in
  let changed := negb (zlen entries =? zlen parsed) in
  let '(entries, changed) := load_cut entries changed in
  let '(entries, c1) := each load_sanitize entries in
  let '(entries, c2) := each load_migrate entries in
  (entries, changed || c1 || c2).

(** What the directory of the ledger holds, and the ledger in memory. *)
Inductive Node : Type := Regular (data : bytes) | Special.

Record World : Type := mkWorld {
  w_entries : list LedgerEntry;
  w_dir : option (gmap string Node);
  w_nonce : Z;
}.

(** The clock and the process, and which system calls of one operation succeed:
    [io_appended] is what another process appends to the file after its size was checked,
    [io_partial] what a failed write leaves in the temporary file. *)
Record Io : Type := mkIo {
  io_now : Z;
  io_secs : Z;
  io_pid : Z;
  io_read_dir : bool;
  io_remove : string -> bool;
  io_open : bool;
  io_metadata : bool;
  io_metadata_after : bool;
  io_read : bool;
  io_appended : bytes;
  io_quarantine : bool;
  io_create_dir : bool;
  io_write : bool;
  io_partial : bytes;
  io_rename : bool;
}.

Definition LEDGER_FILE : string := "ledger.json".
Definition TMP_PREFIX : string := "ledger.json.tmp.".

Definition put_file (name : string) (n : Node) : M World unit := fun w =>
  (Ok tt, mkWorld (w_entries w) (<[name := n]> <$> w_dir w) (w_nonce w)).

Definition remove_file (io : Io) (name : string) : M World unit := fun w =>
  if io_remove io name then (Ok tt, mkWorld (w_entries w) (delete name <$> w_dir w) (w_nonce w)) else (Err "io"%string, w).

(** [fs::rename] within the directory. *)
Definition rename_file (ok : bool) (from to : string) : M World unit := fun w =>
  match w_dir w with
  | Some files =>
      match files !! from with
      | Some n => if ok then (Ok tt, mkWorld (w_entries w) (Some (<[to := n]> (delete from files))) (w_nonce w)) else (Err "io"%string, w)
      | None => (Err "io"%string, w)
      end
  | None => (Err "io"%string, w)
  end.

Definition create_dir_all (io : Io) : M World unit := fun w =>
  if io_create_dir io then (Ok tt, mkWorld (w_entries w) (Some (default ∅ (w_dir w))) (w_nonce w)) else (Err "io"%string, w).

(** [SAVE_TMP_NONCE.fetch_add(1)]. *)
Definition next_nonce : M World Z := fun w => (Ok (w_nonce w), mkWorld (w_entries w) (w_dir w) (cast_u 64 (w_nonce w + 1))).

Definition set_entries (entries : list LedgerEntry) : M World unit := fun w => (Ok tt, mkWorld entries (w_dir w) (w_nonce w)).

Definition live : M World (list LedgerEntry) := reads (fun w => Ok (w_entries w)).

Context {C : Codec (list LedgerEntry)}.

(** Whether the manager has a storage path. *)
Variable persistent : bool.

Definition serialize_ledger_entries (entries : list LedgerEntry) : res string bytes :=
  match enc entries with
  | None => Err "Internal"%string
  | Some data => if MAX_PERSISTED_LEDGER_BYTES <? zlen data then Err "StorageError"%string else Ok data
  end.

Definition write_serialized_ledger (io : Io) (data : bytes) : M World unit :=
  if negb persistent then ret tt
  else if MAX_PERSISTED_LEDGER_BYTES <? zlen data then throw "StorageError"
  else
    let* _ := or_throw (create_dir_all io) "StorageError" in
    let* nonce := next_nonce in
    let tmp_file := TMP_PREFIX +:+ pretty (io_pid io) +:+ "." +:+ pretty nonce in
    if io_write io then
      let* _ := put_file tmp_file (Regular data) in
      let* renamed := try_ok (rename_file (io_rename io) tmp_file LEDGER_FILE) in
      match renamed with
      | Some _ => ret tt
      | None => let* _ := try_ok (remove_file io tmp_file) in throw "StorageError"
      end
    else
      let* _ := put_file tmp_file (Regular (io_partial io)) in
      let* _ := try_ok (remove_file io tmp_file) in
      throw "StorageError".

Definition save_with_entries (io : Io) (entries : list LedgerEntry) : M World unit :=
  if negb persistent then ret tt
  else let* data := lift (serialize_ledger_entries entries) in write_serialized_ledger io data.

Definition save (io : Io) : M World unit := let* entries := live in save_with_entries io entries.

(** The quarantine of a bad file, and the restoration of what is in memory. *)
Definition quarantine_bad_ledger (io : Io) : M World unit :=
  let* nonce := next_nonce in
  let corrupt_name := LEDGER_FILE +:+ ".corrupt-" +:+ pretty (io_secs io) +:+ "." +:+ pretty nonce in
  let* _ := or_throw (rename_file (io_quarantine io) LEDGER_FILE corrupt_name) "StorageError" in
  let* live_snapshot := live in
  if zlen live_snapshot =? 0 then ret tt
  else let* restored_data := lift (serialize_ledger_entries live_snapshot) in write_serialized_ledger io restored_data.

(** Temporary files that an earlier run left behind. *)
Definition clean_tmp (io : Io) : M World unit := fun w =>
  (Ok tt,
   if io_read_dir io
   then mkWorld (w_entries w)
          (filter (fun nv => Is_true (negb (is_prefix (str_bytes TMP_PREFIX) (str_bytes nv.1) && io_remove io nv.1))) <$> w_dir w)
          (w_nonce w)
   else w).

Definition load_file : M World (option Node) := reads (fun w => Ok (files ← w_dir w; files !! LEDGER_FILE)).

Definition load (io : Io) : M World unit :=
  if negb persistent then ret tt
  else
    let* _ := clean_tmp io in
    let* file := load_file in
    if negb (io_open io) then throw "StorageError"
    else match file with
    | None => ret tt
    | Some node =>
        if negb (io_metadata io) then throw "StorageError"
        else match node with
        | Special => quarantine_bad_ledger io
        | Regular stored =>
            if MAX_PERSISTED_LEDGER_BYTES <? zlen stored then quarantine_bad_ledger io
            else
              let content := stored ++ io_appended io in
              let* _ := put_file LEDGER_FILE (Regular content) in
              let data := take (Z.to_nat (MAX_PERSISTED_LEDGER_BYTES + 1)) content in
              if negb (io_read io) || negb (utf8_valid data) then quarantine_bad_ledger io
              else if negb (io_metadata_after io) then throw "StorageError"
              else if (MAX_PERSISTED_LEDGER_BYTES <? zlen data) || (MAX_PERSISTED_LEDGER_BYTES <? zlen content)
              then quarantine_bad_ledger io
              else match dec data with
                   | None => quarantine_bad_ledger io
                   | Some parsed =>
                       let '(entries, changed) := load_repair parsed in
                       let* durable_data := lift (serialize_ledger_entries entries) in
                       let* _ := if changed : bool then write_serialized_ledger io durable_data else ret tt in
                       set_entries entries
                   end
        end
    end.

(** ** The operations of the manager *)

Definition update_entries (io : Io) (f : list LedgerEntry -> res string (list LedgerEntry)) : M World unit :=
  let* entries := live in
  let* snapshot := lift (f entries) in
  let* _ := set_entries snapshot in
  let* _ := try_ok (save_with_entries io snapshot) in
  ret tt.

Definition record_connection (io : Io) (multiaddr peer_id : string) : M World unit :=
  if negb (is_recordable_multiaddr multiaddr) then ret tt
  else if ingest_refused multiaddr peer_id then ret tt
  else update_entries io (fun entries => record_connection_locked (io_now io) entries multiaddr peer_id).

Definition record_failure (io : Io) (multiaddr : string) : M World unit :=
  update_entries io (fun entries =>
    match address_entry entries multiaddr with
    | Some idx =>
        match entries !! idx with
        | Some entry => let! n := chk_u 32 (le_failure_count entry + 1) in Ok (<[idx := set_failure entry n]> entries)
        | None => Panic
        end
    | None => Ok entries
    end).

Definition annotate_identity (io : Io) (multiaddr peer_id : string) (public_key nickname : option string) : M World unit :=
  if negb (is_recordable_multiaddr multiaddr) then ret tt
  else update_entries io (fun entries => Ok (annotate_identity_locked (io_now io) entries multiaddr peer_id public_key nickname).1).

Definition annotate_identities_batch (io : Io) (items : list (string * string * option string * option string)) : M World unit :=
  update_entries io (fun entries =>
    Ok (foldl (fun entries '(multiaddr, peer_id, public_key, nickname) =>
                 if negb (is_recordable_multiaddr multiaddr) then entries
                 else (annotate_identity_locked (io_now io) entries multiaddr peer_id public_key nickname).1) entries items)).

Definition import_seed_entries_locked (io : Io) (seeds : list SeedLedgerEntry) (mode : NetworkMode) : M World Z :=
  let* ledger := live in
  let '(snapshot, added) := import_seeds (io_now io) mode ledger seeds in
  let* _ := set_entries snapshot in
  let* _ := try_ok (save_with_entries io snapshot) in
  ret added.

Definition import_seed_entries (io : Io) (seeds : list SeedLedgerEntry) : M World Z := import_seed_entries_locked io seeds Local.

Definition import_seed_entries_with_mode (io : Io) (seeds : list SeedLedgerEntry) (mode : NetworkMode) : M World Z :=
  import_seed_entries_locked io seeds mode.

End Ledger.

(** ** Lemmas *)

(** *** Eviction *)

Lemma elem_of_indexed {A} (l : list A) i x : (i, x) ∈ imap pair l <-> l !! i = Some x.
Proof.
  rewrite list_elem_of_lookup. split.
  - intros (j & Hj). rewrite list_lookup_imap in Hj. apply fmap_Some in Hj as (y & Hy & [= -> ->]). done.
  - intros H1. exists i. by rewrite list_lookup_imap, H1.
Qed.

(** The entry that leaves a full ledger. *)
Definition victim (entries : list LedgerEntry) (i : nat) (v : LedgerEntry) : Prop :=
  entries !! i = Some v /\
  (le_success_count v = 0 \/ Forall (fun e => le_success_count e <> 0) entries) /\
  forall e, e ∈ entries -> (le_success_count v = 0 -> le_success_count e = 0) -> seen_cmp (le_last_seen v) (le_last_seen e) <> Gt.

#[local] Instance seen_le_refl : Reflexive (fun a b : nat * LedgerEntry => seen_cmp (le_last_seen a.2) (le_last_seen b.2) <> Gt).
Proof. intros [i e]. cbn. destruct (le_last_seen e) as [t|]; cbn; [|done]. by rewrite Z.compare_refl. Qed.

#[local] Instance seen_le_trans : Transitive (fun a b : nat * LedgerEntry => seen_cmp (le_last_seen a.2) (le_last_seen b.2) <> Gt).
Proof.
  intros [i a] [j b] [k c]. cbn. destruct (le_last_seen a), (le_last_seen b), (le_last_seen c); cbn; try done.
  rewrite !Z.compare_le_iff. lia.
Qed.

Lemma seen_cmp_gt a b : seen_cmp a b = Gt -> seen_cmp b a <> Gt.
Proof.
  destruct a as [a|], b as [b|]; cbn; try done. rewrite Z.compare_gt_iff, Z.compare_le_iff. lia.
Qed.

Lemma oldest_seen_spec a b :
  (oldest_seen_first a b = Gt -> seen_cmp (le_last_seen b.2) (le_last_seen a.2) <> Gt) /\
  (oldest_seen_first a b <> Gt -> seen_cmp (le_last_seen a.2) (le_last_seen b.2) <> Gt).
Proof.
  unfold oldest_seen_first, then_with. destruct (seen_cmp (le_last_seen a.2) (le_last_seen b.2)) eqn:E.
  - split; [|done]. intros _. destruct (le_last_seen a.2), (le_last_seen b.2); cbn in *; try done.
    rewrite Z.compare_le_iff. apply Z.compare_eq in E. lia.
  - split; done.
  - split; [|done]. intros _. by apply seen_cmp_gt.
Qed.

Lemma min_seen l i v : min_by oldest_seen_first l = Some (i, v) ->
  (i, v) ∈ l /\ forall j e, (j, e) ∈ l -> seen_cmp (le_last_seen v) (le_last_seen e) <> Gt.
Proof.
  intros Hm. apply (min_by_minimum _ (fun a b : nat * LedgerEntry => seen_cmp (le_last_seen a.2) (le_last_seen b.2) <> Gt)) in Hm
    as [Hin Hall]; [|intros; apply oldest_seen_spec]. split; [done|]. rewrite Forall_forall in Hall.
  intros j e Hj. by apply (Hall (j, e)).
Qed.

Lemma evict_one_spec entries : MAX_LEDGER_ENTRIES <= zlen entries ->
  exists i v, victim entries i v /\ evict_one_locked entries = delete i entries.
Proof.
  intros Hlen. unfold evict_one_locked. rewrite (proj2 (Z.ltb_ge _ _)) by done. cbv zeta.
  destruct (min_by oldest_seen_first (filter _ _)) as [[i v]|] eqn:Hm.
  - apply min_seen in Hm as [Hin Hall]. apply list_elem_of_filter in Hin as [Hs Hin%elem_of_indexed]. exists i, v.
    split; [|done]. split_and!; [done|by left|]. intros e (j & Hj)%list_elem_of_lookup He. apply (Hall j).
    apply list_elem_of_filter. split; [by apply He|by apply elem_of_indexed].
  - apply min_by_None in Hm. assert (Forall (fun e => le_success_count e <> 0) entries) as Hp.
    { apply Forall_forall. intros e (j & Hj)%list_elem_of_lookup He. apply elem_of_indexed in Hj.
      assert ((j, e) ∈ filter (fun ie => le_success_count ie.2 = 0) (imap pair entries)) as Hin
        by (by apply list_elem_of_filter). rewrite Hm in Hin. by apply elem_of_nil in Hin. }
    destruct (min_by oldest_seen_first (imap pair entries)) as [[i v]|] eqn:Hn.
    + apply min_seen in Hn as [Hin%elem_of_indexed Hall]. exists i, v. split; [|done]. split_and!; [done|by right|].
      intros e (j & Hj)%list_elem_of_lookup _. apply (Hall j). by apply elem_of_indexed.
    + apply min_by_None in Hn. apply (f_equal length) in Hn. rewrite length_imap in Hn. unfold zlen, MAX_LEDGER_ENTRIES in Hlen.
      cbn in Hn. lia.
Qed.

Lemma evict_one_length entries : MAX_LEDGER_ENTRIES <= zlen entries -> S (length (evict_one_locked entries)) = length entries.
Proof.
  intros (i & v & (Hi & _) & ->)%evict_one_spec. pose proof (lookup_lt_Some _ _ _ Hi). rewrite length_delete by done. lia.
Qed.

Lemma evict_one_sublist entries : evict_one_locked entries `sublist_of` entries.
Proof.
  destruct (decide (zlen entries < MAX_LEDGER_ENTRIES)) as [Hl|Hl].
  - unfold evict_one_locked. by rewrite (proj2 (Z.ltb_lt _ _)).
  - destruct (evict_one_spec entries ltac:(lia)) as (i & v & _ & ->). apply sublist_delete.
Qed.

Lemma ledger_evict_bound fuel entries : (length entries <= fuel)%nat -> zlen (evict_loop fuel entries) < MAX_LEDGER_ENTRIES.
Proof.
  revert entries. induction fuel as [|fuel IH]; intros entries Hf; cbn [evict_loop].
  - unfold zlen, MAX_LEDGER_ENTRIES. lia.
  - destruct (MAX_LEDGER_ENTRIES <=? zlen entries) eqn:E; bool_to_prop; [|done].
    apply IH. pose proof (evict_one_length entries E). lia.
Qed.

Lemma evict_loop_sublist fuel entries : evict_loop fuel entries `sublist_of` entries.
Proof.
  revert entries. induction fuel as [|fuel IH]; intros entries; cbn [evict_loop]; [done|].
  case_if; [|done]. etrans; [apply IH|apply evict_one_sublist].
Qed.

Lemma make_room_bound entries : zlen (make_room entries) < MAX_LEDGER_ENTRIES.
Proof. by apply ledger_evict_bound. Qed.

Lemma make_room_sublist entries : make_room entries `sublist_of` entries.
Proof. apply evict_loop_sublist. Qed.

Lemma make_room_id entries : zlen entries < MAX_LEDGER_ENTRIES -> make_room entries = entries.
Proof.
  intros Hl. unfold make_room. destruct (length entries); [done|]. cbn [evict_loop]. by rewrite (proj2 (Z.leb_gt _ _)).
Qed.

(** Room for one more is made by removing just one entry from a ledger that is full. *)
Lemma make_room_full entries : zlen entries = MAX_LEDGER_ENTRIES -> make_room entries = evict_one_locked entries.
Proof.
  intros Hl. unfold make_room. pose proof (evict_one_length entries ltac:(lia)) as Hlen.
  destruct (length entries) as [|n] eqn:En; [lia|]. cbn [evict_loop]. rewrite (proj2 (Z.leb_le _ _)) by lia.
  destruct n; [done|]. cbn [evict_loop]. rewrite (proj2 (Z.leb_gt _ _)); [done|]. unfold zlen in *. lia.
Qed.

Lemma Forall_of_sublist {A} (P : A -> Prop) l k : l `sublist_of` k -> Forall P k -> Forall P l.
Proof. induction 1; intros Hk; [done| |]; apply Forall_cons in Hk as [? ?]; auto. Qed.

Lemma sublist_elem_in {A} (x : A) l k : l `sublist_of` k -> x ∈ l -> x ∈ k.
Proof. induction 1; [done|rewrite !elem_of_cons|rewrite elem_of_cons]; tauto. Qed.

(** *** Computations that leave the ledger in memory alone *)

Definition frames {A} (m : M World A) : Prop := forall w, (m w).1 <> Panic /\ w_entries (m w).2 = w_entries w.

Create HintDb ledger_frame.

Section Frames.

Lemma frames_ret {A} (a : A) : frames (ret a).
Proof. done. Qed.

Lemma frames_throw {A} e : frames (throw (A := A) e).
Proof. done. Qed.

Lemma frames_lift {A} (r : res string A) : r <> Panic -> frames (lift r).
Proof. done. Qed.

Lemma frames_bind {A B} (m : M World A) (k : A -> M World B) : frames m -> (forall a, frames (k a)) -> frames (bind m k).
Proof.
  intros Hm Hk w. destruct (Hm w) as [Hp He]. unfold bind. destruct (m w) as [[a|e|] w']; cbn in *; [|done|done].
  destruct (Hk a w') as [? Hk']. split; [done|]. by rewrite Hk'.
Qed.

Lemma frames_try_ok {A} (m : M World A) : frames m -> frames (try_ok m).
Proof. intros Hm w. destruct (Hm w) as [Hp He]. unfold try_ok. by destruct (m w) as [[a|e|] w']. Qed.

Lemma frames_or_throw {A} (m : M World A) e : frames m -> frames (or_throw m e).
Proof. intros Hm w. destruct (Hm w) as [Hp He]. unfold or_throw. by destruct (m w) as [[a|e'|] w']. Qed.

Lemma frames_put n d : frames (put_file n d).
Proof. done. Qed.

Lemma frames_remove io n : frames (remove_file io n).
Proof. intros w. unfold remove_file. by case_if. Qed.

Lemma frames_rename ok a b : frames (rename_file ok a b).
Proof. intros w. unfold rename_file. destruct (w_dir w) as [f|]; [|done]. destruct (f !! a); [|done]. by destruct ok. Qed.

Lemma frames_mkdir io : frames (create_dir_all io).
Proof. intros w. unfold create_dir_all. by case_if. Qed.

Lemma frames_nonce : frames next_nonce.
Proof. done. Qed.

Lemma frames_live : frames live.
Proof. done. Qed.

Lemma frames_load_file : frames load_file.
Proof. done. Qed.

Lemma frames_clean io : frames (clean_tmp io).
Proof. intros w. unfold clean_tmp. by destruct (io_read_dir io). Qed.

End Frames.

#[export] Hint Resolve frames_ret frames_throw frames_lift frames_bind frames_try_ok frames_or_throw frames_put
  frames_remove frames_rename frames_mkdir frames_nonce frames_live frames_load_file frames_clean : ledger_frame.

Ltac frame_solve :=
  repeat match goal with
  | |- frames (if ?b then _ else _) => destruct b
  | |- frames (match ?o with Some _ => _ | None => _ end) => destruct o
  | |- forall _, _ => intros ?
  | |- frames (bind _ _) => apply frames_bind
  | |- frames _ => solve [auto with ledger_frame]
  end.

Section Operations.
Context {IL : IdLib} {KL : KeyLib} {PL : PeerLib} {ML : MultiaddrLib} `{Build} {C : Codec (list LedgerEntry)}.
Variable persistent : bool.

Lemma serialize_no_panic l : serialize_ledger_entries l <> Panic.
Proof. unfold serialize_ledger_entries. destruct (enc l); [|done]. by case_if. Qed.

#[local] Hint Resolve serialize_no_panic : ledger_frame.

Lemma frames_write io data : frames (write_serialized_ledger persistent io data).
Proof. unfold write_serialized_ledger. cbv zeta. frame_solve. Qed.

#[local] Hint Resolve frames_write : ledger_frame.

Lemma frames_save io entries : frames (save_with_entries persistent io entries).
Proof. unfold save_with_entries. frame_solve. Qed.

Lemma frames_quarantine io : frames (quarantine_bad_ledger persistent io).
Proof. unfold quarantine_bad_ledger. cbv zeta. frame_solve. Qed.

(** An update of the entries installs its result whatever becomes of the file. *)
Lemma update_entries_spec io f w :
  match f (w_entries w) with
  | Ok l => exists w', update_entries persistent io f w = (Ok tt, w') /\ w_entries w' = l
  | Err e => update_entries persistent io f w = (Err e, w)
  | Panic => update_entries persistent io f w = (Panic, w)
  end.
Proof.
  unfold update_entries, live, reads, lift, bind, set_entries, try_ok. destruct (f (w_entries w)) as [l|e|]; [|done..].
  destruct (frames_save io l (mkWorld l (w_dir w) (w_nonce w))) as [Hp Hf].
  destruct (save_with_entries persistent io l _) as [[u|e|] w']; cbn in *; [eauto..|done].
Qed.

Lemma import_entries_spec io seeds mode w :
  exists w', import_seed_entries_locked persistent io seeds mode w = (Ok (import_seeds (io_now io) mode (w_entries w) seeds).2, w') /\
    w_entries w' = (import_seeds (io_now io) mode (w_entries w) seeds).1.
Proof.
  unfold import_seed_entries_locked, live, reads, bind, set_entries, try_ok. destruct (import_seeds _ _ _ _) as [l n].
  destruct (frames_save io l (mkWorld l (w_dir w) (w_nonce w))) as [Hp Hf].
  destruct (save_with_entries persistent io l _) as [[u|e|] w']; cbn in *; [eauto..|done].
Qed.

(** [load] leaves the ledger as it was, or installs what it repaired; it never panics. *)
Lemma load_spec io w : (load persistent io w).1 <> Panic /\
  (w_entries (load persistent io w).2 = w_entries w \/
   exists parsed, w_entries (load persistent io w).2 = (load_repair parsed).1).
Proof.
  pose (Q (m : M World unit) := forall w, (m w).1 <> Panic /\ (w_entries (m w).2 = w_entries w \/
    exists parsed, w_entries (m w).2 = (load_repair parsed).1)).
  assert (forall m : M World unit, frames m -> Q m) as HQ by (intros m Hm w'; destruct (Hm w'); auto).
  assert (forall A (m : M World A) k, frames m -> (forall a, Q (k a)) -> Q (bind m k)) as HB.
  { intros A m k Hm Hk w'. destruct (Hm w') as [Hp He]. unfold bind. destruct (m w') as [[a|e|] w1]; cbn in *; [|auto|done].
    destruct (Hk a w1) as [? [E|?]]; auto. rewrite E, He. auto. }
  enough (Q (load persistent io)) by done.
  unfold load. destruct (negb persistent); [auto with ledger_frame|].
  apply HB; [auto with ledger_frame|intros _]. apply HB; [auto with ledger_frame|intros file].
  destruct (negb (io_open io)); [auto with ledger_frame|]. destruct file as [[stored|]|]; [| |auto with ledger_frame].
  2: { destruct (negb (io_metadata io)); auto using frames_quarantine with ledger_frame. }
  destruct (negb (io_metadata io)); [auto with ledger_frame|]. case_if; [auto using frames_quarantine|]. cbv zeta.
  apply HB; [auto with ledger_frame|intros _]. case_if; [auto using frames_quarantine|].
  destruct (negb (io_metadata_after io)); [auto with ledger_frame|]. case_if; [auto using frames_quarantine|].
  destruct (dec _) as [parsed|]; [|auto using frames_quarantine]. destruct (load_repair parsed) as [l changed] eqn:El.
  apply HB; [auto with ledger_frame|intros data]. apply HB; [destruct changed; auto with ledger_frame|intros _].
  intros w'. cbn. split; [done|]. right. exists parsed. by rewrite El.
Qed.

End Operations.

(** *** Lengths *)

Lemma strip_length w2 w3 l : (length (strip w2 w3 l) <= length l)%nat.
Proof.
  induction l as [l IH] using (induction_ltof1 _ length). unfold ltof in IH.
  assert (forall k, (length k < length l)%nat -> (length (strip w2 w3 k) <= length l)%nat) as IH'.
  { intros k Hk. specialize (IH k Hk). lia. }
  destruct l as [|a l1]; [done|]. cbn [strip]. case_if; [apply IH'; cbn; lia|]. destruct l1 as [|b l2]; [done|].
  case_if; [apply IH'; cbn; lia|]. destruct l2 as [|c l3]; [done|]. case_if; [apply IH'; cbn; lia|done].
Qed.

Lemma str_len_of_bytes l : str_len (of_bytes l) = zlen l.
Proof. unfold str_len. by rewrite str_bytes_of_bytes. Qed.

Lemma str_len_trim s : str_len (trim s) <= str_len s.
Proof.
  unfold trim. rewrite str_len_of_bytes. unfold str_len, zlen. rewrite length_reverse. 
  pose proof (strip_length (fun b a => ws2 a b) (fun c b a => ws3 a b c) (reverse (strip ws2 ws3 (str_bytes s)))) as H1.
  rewrite length_reverse in H1. pose proof (strip_length ws2 ws3 (str_bytes s)). lia.
Qed.

Lemma str_len_nonneg s : 0 <= str_len s.
Proof. apply zlen_nonneg. Qed.

Definition opt_len (max : Z) (o : option string) : Prop := match o with Some s => str_len s <= max | None => True end.

(** The bounds of an entry and of the ledger. *)
Definition entry_bounded (e : LedgerEntry) : Prop :=
  str_len (le_multiaddr e) <= MAX_LEN_MULTIADDR /\ opt_len MAX_LEN_PEER_ID (le_peer_id e) /\
  opt_len MAX_LEN_PUBLIC_KEY (le_public_key e) /\ opt_len MAX_LEN_NICKNAME (le_nickname e).

Definition ledger_bounded (entries : list LedgerEntry) : Prop :=
  zlen entries <= MAX_LEDGER_ENTRIES /\ Forall entry_bounded entries.

Lemma sanitize_bounded o max : opt_len max (sanitize_optional_ledger_text o max).1.
Proof.
  unfold sanitize_optional_ledger_text. destruct o as [s|]; cbn; [|done]. case_if; [done|]. cbn. bool_to_prop. done.
Qed.

Lemma trimmed_bounded o max : opt_len max o -> opt_len max (trimmed o).
Proof.
  destruct o as [s|]; cbn; [|done]. intros Hs. case_if; [done|]. cbn. pose proof (str_len_trim s). lia.
Qed.

Lemma or_keep_bounded max (a b : option string) : opt_len max a -> opt_len max b -> opt_len max (or_keep a b).
Proof. by destruct a. Qed.

Section Bounds.
Context {IL : IdLib} {KL : KeyLib} {PL : PeerLib} {ML : MultiaddrLib} `{Build} {C : Codec (list LedgerEntry)} `{!LawfulHex}.

Lemma hex_id_len s : hex_id s = true -> str_len s = 64.
Proof. unfold hex_id. intros H1. bool_to_prop. done. Qed.

Lemma derived_key_len p k : public_key_hex_from_libp2p_peer_id p = Some k -> str_len k = 64.
Proof.
  unfold public_key_hex_from_libp2p_peer_id. destruct (bs58_decode _) as [bytes|]; cbn; [|done]. case_if; [done|]. case_if; [done|].
  intros [= <-]. bool_to_prop. rewrite hex_encode_len. unfold zlen in *. rewrite length_drop. lia.
Qed.

Lemma derived_len p c : to_lowercase <$> public_key_hex_from_libp2p_peer_id p = Some c -> str_len c = 64.
Proof. intros (k & Hk & ->)%fmap_Some. rewrite str_len_lower. by eapply derived_key_len. Qed.

Lemma load_canonical_len p k c : load_canonical p k = Some c -> str_len c <= 64.
Proof.
  unfold load_canonical. case_if.
  - intros [= <-]. rewrite str_len_lower. pose proof (str_len_trim p). apply hex_id_len in C0. lia.
  - destruct k as [pk|]; [|intros Hc%derived_len; lia]. cbv zeta. case_if.
    + intros [= <-]. rewrite str_len_lower. bool_to_prop. pose proof (hex_id_len _ ltac:(eassumption)). lia.
    + destruct (public_key_hex_from_libp2p_peer_id p) as [d|] eqn:Ed.
      * intros [= <-]. rewrite str_len_lower. apply derived_key_len in Ed. lia.
      * by case_if.
Qed.

Lemma canonical_load p k : trim p <> ""%string -> trim (trim p) = trim p ->
  canonical_ledger_peer_id p k = load_canonical (trim p) k.
Proof.
  intros Hn Ht. unfold canonical_ledger_peer_id, load_canonical. rewrite (proj2 (String.eqb_neq _ _)) by done. by rewrite Ht.
Qed.

Lemma canonical_len p k c : canonical_ledger_peer_id p k = Some c -> str_len c <= 64.
Proof.
  unfold canonical_ledger_peer_id. cbv zeta. case_if; [done|]. case_if.
  - intros [= <-]. rewrite str_len_lower. apply hex_id_len in C1. lia.
  - destruct k as [pk|]; [|intros Hc%derived_len; lia]. case_if.
    + intros [= <-]. rewrite str_len_lower. bool_to_prop. pose proof (hex_id_len _ ltac:(eassumption)). lia.
    + destruct (public_key_hex_from_libp2p_peer_id _) as [d|] eqn:Ed.
      * intros [= <-]. rewrite str_len_lower. apply derived_key_len in Ed. lia.
      * by case_if.
Qed.

Lemma lower_trim_len pk : str_len (to_lowercase (trim pk)) <= str_len pk.
Proof. rewrite str_len_lower. apply str_len_trim. Qed.

Lemma canonical_pair_bounded p k : str_len p <= MAX_LEN_PEER_ID -> opt_len MAX_LEN_PUBLIC_KEY k ->
  str_len (canonical_pair p k).1 <= MAX_LEN_PEER_ID /\ opt_len MAX_LEN_PUBLIC_KEY (canonical_pair p k).2.
Proof.
  unfold MAX_LEN_PEER_ID, MAX_LEN_PUBLIC_KEY. intros Hp Hk. unfold canonical_pair.
  destruct (canonical_ledger_peer_id p k) as [c|] eqn:Ec; [|done]. apply canonical_len in Ec. case_if; cbn [fst snd].
  - split; [lia|]. destruct k as [pk|]; [|cbn; lia]. case_if; cbn in *; lia.
  - split; [pose proof (lower_trim_len p); lia|]. destruct k as [pk|]; cbn in *; [|done]. pose proof (lower_trim_len pk). lia.
Qed.

Lemma connection_pair_bounded p : str_len p <= MAX_LEN_PEER_ID ->
  str_len (connection_pair p).1 <= MAX_LEN_PEER_ID /\ opt_len MAX_LEN_PUBLIC_KEY (connection_pair p).2.
Proof.
  unfold MAX_LEN_PEER_ID, MAX_LEN_PUBLIC_KEY. intros Hp. unfold connection_pair.
  destruct (canonical_ledger_peer_id p None) as [c|] eqn:Ec; [apply canonical_len in Ec; cbn; lia|].
  pose proof (lower_trim_len p). case_if; cbn; lia.
Qed.

Lemma ingest_admitted m p : ingest_refused m p = false -> str_len m <= MAX_LEN_MULTIADDR /\ str_len p <= MAX_LEN_PEER_ID.
Proof.
  unfold ingest_refused. intros [Hm%Z.ltb_ge Hp]%orb_false_iff. split; [done|]. destruct (String.eqb p "") eqn:Ep.
  - apply String.eqb_eq in Ep as ->. by_computation.
  - cbn [negb andb] in Hp. bool_to_prop. done.
Qed.

Lemma make_room_bounded entries e : Forall entry_bounded entries -> entry_bounded e -> ledger_bounded (make_room entries ++ [e]).
Proof.
  intros Hf He. split.
  - rewrite zlen_app. pose proof (make_room_bound entries). change (zlen [e]) with 1. lia.
  - apply Forall_app. split; [|by apply Forall_singleton]. eapply Forall_of_sublist; [apply make_room_sublist|done].
Qed.

Lemma annotate_bounded now entries m p k n : ledger_bounded entries ->
  ledger_bounded (annotate_identity_locked now entries m p k n).1.
Proof.
  intros Hb. unfold annotate_identity_locked. cbv zeta. case_if; [done|]. apply orb_false_iff in C0 as [[Hr Hk]%orb_false_iff Hn].
  apply ingest_admitted in Hr as [Hm Hp].
  set (key := trimmed k ≫= _). assert (opt_len MAX_LEN_PUBLIC_KEY key) as Hkey.
  { unfold key. destruct (trimmed k) as [s|]; cbn; [|done]. case_if; [|done]. cbn. by apply Z.ltb_ge. }
  assert (opt_len MAX_LEN_NICKNAME (trimmed n)) as Hnick by (destruct (trimmed n); cbn; [by apply Z.ltb_ge|done]).
  destruct (canonical_pair_bounded p key Hp Hkey) as [Hp' Hk']. destruct (canonical_pair p key) as [p' k']. cbn [fst snd] in *.
  destruct Hb as [Hlen Hall].
  assert (forall i f, (forall e, entry_bounded e -> entry_bounded (f e)) -> ledger_bounded (alter f i entries)) as Halter.
  { intros i f Hf. split; [unfold zlen; by rewrite length_alter|]. apply Forall_alter; [done|]. intros x Hx. apply Hf. }
  destruct (dns_entry entries m p') as [i|]; [|destruct (address_entry entries m) as [i|]]; cbn [fst].
  - apply Halter. intros e (? & ? & ? & ?). split_and!; cbn; auto using or_keep_bounded.
  - apply Halter. intros e (? & ? & ? & ?). split_and!; cbn; auto using or_keep_bounded.
  - by apply make_room_bounded.
Qed.

Lemma reached_bounded now key entries i f l : opt_len MAX_LEN_PUBLIC_KEY key ->
  (forall e n, entry_bounded e -> entry_bounded (f (set_success e n))) -> ledger_bounded entries ->
  reached now key entries i f = Ok l -> ledger_bounded l.
Proof.
  intros Hk Hf [Hlen Hall]. unfold reached. destruct (entries !! i) as [e|] eqn:Ee; [|done].
  intros (n & _ & [= <-])%rbind_ok_inv. split; [unfold zlen; by rewrite length_insert|]. apply Forall_insert; [done|].
  rewrite Forall_lookup in Hall. destruct (Hf e n (Hall i e Ee)) as (? & ? & ? & ?). split_and!; cbn; auto using or_keep_bounded.
Qed.

Lemma record_bounded now entries m p l : ingest_refused m p = false -> ledger_bounded entries ->
  record_connection_locked now entries m p = Ok l -> ledger_bounded l.
Proof.
  intros [Hm Hp]%ingest_admitted Hb. unfold record_connection_locked. destruct (connection_pair_bounded p Hp) as [Hp' Hk'].
  destruct (connection_pair p) as [p' k']. cbn [fst snd] in *.
  destruct (dns_entry entries m p') as [i|]; [|destruct (address_entry entries m) as [i|]].
  - by apply reached_bounded.
  - apply reached_bounded; [done| |done]. intros e n (? & ? & ? & ?). by split_and!.
  - intros [= <-]. apply make_room_bounded; [apply Hb|]. by split_and!.
Qed.

Lemma import_bounded now mode entries seeds : ledger_bounded entries -> ledger_bounded (import_seeds now mode entries seeds).1.
Proof.
  unfold import_seeds. generalize (take (Z.to_nat MAX_SEED_LEDGER_ENTRIES) seeds). intros l. generalize 0 as n.
  revert entries. induction l as [|s l IH]; intros entries n Hb; [done|]. cbn [foldl].
  destruct (import_seed now mode entries n s) as [entries' n'] eqn:E. apply IH. revert E. unfold import_seed. cbv zeta.
  repeat case_if; intros [= <- <-]; try done. bool_to_prop. apply make_room_bounded; [apply Hb|]. by split_and!.
Qed.

Lemma sanitize_entry_bounded e : load_admits e = true -> entry_bounded (load_sanitize e).1.
Proof.
  unfold load_admits, load_sanitize. intros [Hm Hp]%andb_true_iff.
  pose proof (sanitize_bounded (le_public_key e) MAX_LEN_PUBLIC_KEY) as Hk.
  pose proof (sanitize_bounded (le_nickname e) MAX_LEN_NICKNAME) as Hn.
  destruct (sanitize_optional_ledger_text (le_public_key e) _) as [k c1], (sanitize_optional_ledger_text (le_nickname e) _) as [n c2],
    (sanitize_legacy_topics (le_topics e)) as [t c3]. cbn [fst snd] in *.
  assert (opt_len MAX_LEN_PEER_ID (le_peer_id e)) as Hpid.
  { destruct (le_peer_id e) as [p|]; [|done]. cbn. apply orb_true_iff in Hp as [->%String.eqb_eq|[Hp _]%andb_true_iff]; [by_computation|].
    by apply Z.leb_le. }
  apply Z.leb_le in Hm. case_if; by split_and!.
Qed.

Lemma migrate_entry_bounded e : entry_bounded e -> entry_bounded (load_migrate e).1.
Proof.
  intros He. pose proof He as (Hm & Hp & Hk & Hn). unfold load_migrate. destruct (le_peer_id e) as [p|] eqn:Ep; [|done].
  cbv zeta. case_if; [done|]. destruct (load_canonical _ _) as [c|] eqn:Ec; [|done].
  apply load_canonical_len in Ec. cbn in Hp. unfold MAX_LEN_PEER_ID, MAX_LEN_PUBLIC_KEY in *. case_if; cbn [fst].
  - split_and!; cbn; unfold MAX_LEN_PEER_ID, MAX_LEN_PUBLIC_KEY; [done|lia| |done].
    destruct (le_public_key e) as [k|]; [|cbn; lia]. case_if; cbn in *; lia.
  - split_and!; cbn; unfold MAX_LEN_PEER_ID, MAX_LEN_PUBLIC_KEY; [done| | |done].
    + pose proof (lower_trim_len (trim p)). pose proof (str_len_trim p). lia.
    + destruct (le_public_key e) as [k|]; cbn in *; [|done]. pose proof (lower_trim_len k). lia.
Qed.

Lemma load_repair_bounded parsed : ledger_bounded (load_repair parsed).1.
Proof.
  unfold load_repair. cbv zeta. set (kept := filter _ parsed).
  assert (Forall (fun e => load_admits e = true) kept) as Hkept.
  { apply Forall_forall. intros e He. by apply list_elem_of_filter in He as [? _]. }
  set (cut := load_cut kept _). assert (zlen cut.1 <= MAX_LEDGER_ENTRIES /\ Forall (fun e => load_admits e = true) cut.1) as [Hlen Hcut].
  { unfold cut, load_cut. case_if; cbn [fst].
    - split; [unfold zlen, MAX_LEDGER_ENTRIES; rewrite length_take; lia|]. apply Forall_take. unfold sort_by.
      by rewrite stable_sort_Permutation.
    - bool_to_prop. done. }
  destruct cut as [l c]. cbn [fst each] in *. split.
  - unfold zlen in *. by rewrite !length_fmap.
  - rewrite !Forall_fmap. eapply Forall_impl; [exact Hcut|]. intros e He. by apply migrate_entry_bounded, sanitize_entry_bounded.
Qed.

End Bounds.

(** ** Theorems *)

Section Theorems.
Context {IL : IdLib} {KL : KeyLib} {PL : PeerLib} {ML : MultiaddrLib} `{Build} {C : Codec (list LedgerEntry)}.
Variable persistent : bool.

(** Any call of the manager that writes. *)
Inductive Call : Type :=
  | CRecord (io : Io) (multiaddr peer_id : string)
  | CFailure (io : Io) (multiaddr : string)
  | CAnnotate (io : Io) (multiaddr peer_id : string) (public_key nickname : option string)
  | CBatch (io : Io) (items : list (string * string * option string * option string))
  | CImport (io : Io) (seeds : list SeedLedgerEntry) (mode : NetworkMode)
  | CLoad (io : Io)
  | CSave (io : Io).

Definition run_call (c : Call) : M World unit :=
  match c with
  | CRecord io m p => record_connection persistent io m p
  | CFailure io m => record_failure persistent io m
  | CAnnotate io m p k n => annotate_identity persistent io m p k n
  | CBatch io items => annotate_identities_batch persistent io items
  | CImport io seeds mode => let* _ := import_seed_entries_with_mode persistent io seeds mode in ret tt
  | CLoad io => load persistent io
  | CSave io => save persistent io
  end.

Lemma update_keeps (P : list LedgerEntry -> Prop) io f w : P (w_entries w) ->
  (forall l, f (w_entries w) = Ok l -> P l) -> P (w_entries (update_entries persistent io f w).2).
Proof.
  intros HP Hf. pose proof (update_entries_spec persistent io f w) as Hu.
  destruct (f (w_entries w)) as [l|e|]; [destruct Hu as (w' & -> & Hw'); cbn; rewrite Hw'; auto|by rewrite Hu..].
Qed.


(** A full ledger gives up an entry it never reached, the one heard of longest ago; only
    when every entry was reached once does one of those go, again the one seen longest ago. *)
Theorem eviction_order entries :
  zlen entries = MAX_LEDGER_ENTRIES ->
  exists i v, make_room entries = delete i entries /\ entries !! i = Some v /\
    (le_success_count v = 0 \/ Forall (fun e => le_success_count e <> 0) entries) /\
    (forall e, e ∈ entries -> (le_success_count v = 0 -> le_success_count e = 0) ->
       seen_cmp (le_last_seen v) (le_last_seen e) <> Gt).
Proof.
  intros Hl. rewrite (make_room_full entries Hl). destruct (evict_one_spec entries ltac:(lia)) as (i & v & (Hi & Hp & Ho) & ->).
  eauto 10.
Qed.

(** What an import has done after some seeds: [kept] of the old entries, [new] ones, [n] added. *)
Definition imported (now : Z) (mode : NetworkMode) (entries : list LedgerEntry) (l : list LedgerEntry) (n : Z) : Prop :=
  exists kept new,
    l = kept ++ new /\ kept `sublist_of` entries /\ (zlen entries + n < MAX_LEDGER_ENTRIES -> kept = entries /\ zlen new = n) /\
    zlen new <= n /\
    Forall (fun e => is_dialable_multiaddr (le_multiaddr e) mode Reject = true /\
                     e = mkLedger (le_multiaddr e) None None None 0 0 (Some now) []) new.

Lemma import_seed_step now mode entries l n s : imported now mode entries l n ->
  exists n', (import_seed now mode l n s).2 = n' /\ n <= n' <= n + 1 /\ imported now mode entries (import_seed now mode l n s).1 n'.
Proof.
  intros Hi. assert (exists n', n = n' /\ n <= n' <= n + 1 /\ imported now mode entries l n') as Hsame by (exists n; split_and!; done || lia).
  unfold import_seed. cbv zeta. set (st := strip_peer_id_component _). case_if; [done|]. case_if; [done|]. case_if; [done|]. case_if; [done|].
  clear Hsame. exists (n + 1). split_and!; [done|lia..|]. cbn [fst]. destruct Hi as (kept & new & -> & Hk & Hlen & Hn & Hnew).
  pose proof (make_room_sublist (kept ++ new)) as Hs. apply sublist_app_r in Hs as (kept' & new' & Heq & Hk' & Hn').
  exists kept', (new' ++ [mkLedger st None None None 0 0 (Some now) []]). rewrite Heq, app_assoc. split_and!; [done|by etrans| | |].
  - intros Hroom. destruct Hlen as [-> Hz]; [lia|]. rewrite make_room_id in Heq by (rewrite zlen_app; lia).
    assert (kept' = entries) as ->.
    { apply sublist_length in Hn'. apply (f_equal length) in Heq as Hlen. rewrite !length_app in Hlen.
      pose proof (sublist_length _ _ Hk'). apply app_inj_1 in Heq as [-> _]; [done|]. lia. }
    apply app_inv_head in Heq as ->. split; [done|]. rewrite zlen_app. change (zlen [_]) with 1. lia.
  - apply sublist_length in Hn'. rewrite zlen_app. change (zlen [_]) with 1. unfold zlen in *. lia.
  - apply Forall_app. split; [by eapply Forall_of_sublist|]. apply Forall_singleton. split; [by bool_to_prop|done].
Qed.

(** Seeds of an invite are never taken for addresses that were reached: an import adds at
    most sixteen entries, all of them unproven, without an identity and fit to dial, changes
    no entry that was there, and reports how many it added. *)
Theorem import_adds_seeds now mode entries seeds :
  (import_seeds now mode entries seeds).2 <= 16 /\
  imported now mode entries (import_seeds now mode entries seeds).1 (import_seeds now mode entries seeds).2.
Proof.
  unfold import_seeds. set (l := take _ seeds). assert ((length l <= 16)%nat) as Hl by (unfold l, MAX_SEED_LEDGER_ENTRIES; rewrite length_take; lia).
  assert (forall l0 n, imported now mode entries l0 n ->
    let r := foldl (fun '(ledger, added) seed => import_seed now mode ledger added seed) (l0, n) l in
    r.2 <= n + Z.of_nat (length l) /\ imported now mode entries r.1 r.2) as Hgen.
  { clear Hl. induction l as [|s l IH]; intros l0 n Hi; cbn [foldl]; [split; [cbn; lia|done]|].
    destruct (import_seed_step now mode entries l0 n s Hi) as (n' & Hn' & Hb & Hi'). destruct (import_seed now mode l0 n s) as [l1 n1].
    cbn [fst snd] in *. subst n1. destruct (IH l1 n' Hi') as [H1 H2]. split; [cbn [length]; lia|done]. }
  destruct (Hgen entries 0) as [H1 H2]; [|split; [lia|done]]. exists entries, []. rewrite app_nil_r. by split_and!.
Qed.

(** An import leaves the list of proven addresses as it was, but for entries that had to go. *)
Corollary imported_not_dialable now mode entries seeds e :
  e ∈ dialable_addresses (import_seeds now mode entries seeds).1 -> e ∈ dialable_addresses entries.
Proof.
  unfold dialable_addresses, sort_by. rewrite !stable_sort_Permutation, !list_elem_of_filter.
  destruct (proj2 (import_adds_seeds now mode entries seeds)) as (kept & new & -> & Hk & _ & _ & Hnew).
  intros [Ha [Hin|Hin]%elem_of_app]; [split; [done|by eapply sublist_elem_in]|].
  rewrite Forall_forall in Hnew. destruct (Hnew e Hin) as [_ He]. rewrite He in Ha. done.
Qed.

End Theorems.

(** *** Order of the dial candidates *)

Definition antisym {A} (c : A -> A -> comparison) : Prop := forall a b, c b a = CompOpp (c a b).

Lemma antisym_then {A} (c d : A -> A -> comparison) : antisym c -> antisym d -> antisym (fun a b => then_with (c a b) (d a b)).
Proof. intros Hc Hd a b. rewrite (Hc a b), (Hd a b). by destruct (c a b). Qed.

Lemma cmp_or_equal_antisym x y : cmp_or_equal y x = CompOpp (cmp_or_equal x y).
Proof.
  unfold cmp_or_equal. destruct (decide (x = S754_nan)) as [-> |Hx]; [by destruct y|].
  destruct (decide (y = S754_nan)) as [-> |Hy]; [by destruct x|].
  rewrite !SFcompare_key by (by apply bool_decide_eq_false). apply key_cmp_antisym.
Qed.

Lemma str_cmp_antisym s t : str_cmp t s = CompOpp (str_cmp s t).
Proof.
  unfold str_cmp. rewrite (String.eqb_sym t s). destruct (String.eqb s t) eqn:E; [done|]. apply String.eqb_neq in E.
  destruct (bytes_leb (str_bytes s) (str_bytes t)) eqn:E1, (bytes_leb (str_bytes t) (str_bytes s)) eqn:E2; try done.
  - exfalso. apply E. apply (inj str_bytes). by apply (anti_symm bytes_le).
  - destruct (total bytes_le (str_bytes s) (str_bytes t)); unfold bytes_le in *; congruence.
Qed.

Lemma dial_first_antisym : antisym dial_first.
Proof.
  unfold dial_first. apply antisym_then; [intros a b; apply Z.compare_antisym|].
  apply antisym_then; [intros a b; apply cmp_or_equal_antisym|].
  apply antisym_then; [intros a b; apply Z.compare_antisym|intros a b; apply str_cmp_antisym].
Qed.

#[local] Instance dial_first_total : Total (fun a b => dial_first a b <> Gt).
Proof. intros a b. rewrite (dial_first_antisym a b). destruct (dial_first a b); cbn; auto. Qed.

(** The dial candidates are the entries that were reached and have not failed three times,
    each once, the most recently seen first. *)
Theorem dialable_freshest_first entries :
  dialable_addresses entries ≡ₚ filter (fun e => alive e = true) entries /\
  StronglySorted (fun a b => seen_or_0 b <= seen_or_0 a) (dialable_addresses entries).
Proof.
  unfold dialable_addresses, sort_by. split; [apply stable_sort_Permutation|].
  assert (Sorted (fun a b => dial_first a b <> Gt) (stable_sort (fun a b => dial_first a b <> Gt)
    (filter (fun e => alive e = true) entries))) as Hs by (apply Sorted_stable_sort; apply _).
  apply Sorted_StronglySorted; [intros a b c; lia|].
  induction Hs as [|a l Hs IH Hhd]; constructor; [done|]. destruct Hhd as [|b l Hab]; constructor.
  unfold dial_first, then_with in Hab. destruct (Z.compare_spec (seen_or_0 b) (seen_or_0 a)); [lia|lia|done].
Qed.

(** *** What leaves the node *)

Section Disclosure.
Context {IL : IdLib} {KL : KeyLib} {PL : PeerLib} {ML : MultiaddrLib} {LM : LawfulMultiaddr} `{Build}.

(** The text of an address that leads to no block forbidden to the audience. *)
Definition safe_text (audience : Audience) (text : string) : Prop :=
  exists addr, text = print_multiaddr addr /\ forall v, v4_wf v -> targets addr v -> outside v (forbidden audience).

Lemma strip_text m a : parse_multiaddr (strip_peer_id m) = Some a -> strip_peer_id m = print_multiaddr a \/ parse_multiaddr m = None.
Proof.
  unfold strip_peer_id. destruct (parse_multiaddr m) as [b|] eqn:E; [|by right]. rewrite parse_print. intros [= <-]. by left.
Qed.

Lemma checked_text m a audience dns : parse_multiaddr (strip_peer_id m) = Some a -> check_multiaddr a audience dns = true ->
  safe_text audience (strip_peer_id m).
Proof.
  intros E Hd. pose proof E as Hs. apply strip_text in Hs as [Hs|Hs].
  - exists a. split; [done|]. intros v Hw Ht. by eapply filtered_check.
  - unfold strip_peer_id in E. by rewrite !Hs in E.
Qed.

Lemma disclosable_text m : is_disclosable_multiaddr (strip_peer_id m) = true -> safe_text Disclose (strip_peer_id m).
Proof.
  unfold is_disclosable_multiaddr. destruct (parse_multiaddr (strip_peer_id m)) as [a|] eqn:E; [|done]. by apply checked_text.
Qed.


(** Seeds that go into an invite lead nowhere private; those for a mesh around the corner
    lead at least to no address that is never a peer. *)
Theorem exported_seeds_safe entries limit audience seed :
  seed ∈ export_seed_entries_for entries limit audience ->
  safe_text (match audience with Untrusted => Disclose | LocalMesh => Dial Local end) (seed_multiaddr seed) /\
  (exists e, e ∈ entries /\ alive e = true /\ seed_multiaddr seed = strip_peer_id (le_multiaddr e)).
Proof.
  unfold export_seed_entries_for. intros (addr & -> & Hin)%list_elem_of_fmap. apply list_elem_of_filter in Hin as [Hx Hin].
  apply list_elem_of_fmap in Hin as (e & -> & Hin). cbn [seed_multiaddr]. split.
  - destruct audience; cbn [exported] in Hx; [by apply disclosable_text|]. unfold is_dialable_multiaddr in Hx.
    destruct (parse_multiaddr _) as [a|] eqn:E; [|done]. by eapply checked_text.
  - unfold get_preferred_relays, sort_by in Hin. apply elem_of_take in Hin as (i & Hi & _). apply list_elem_of_lookup_2 in Hi.
    rewrite stable_sort_Permutation in Hi. apply list_elem_of_filter in Hi as [Ha He]. eauto.
Qed.

End Disclosure.

(** *** The file *)

(** What the peer id of an Ed25519 key documents: base 58 of the identity multihash of the
    key, which is ASCII text of some fifty characters and a valid peer id. *)
Class LawfulPeer {KL : KeyLib} {PL : PeerLib} : Prop := {
  peer_id_decodes : forall k, zlen k = 32 -> bs58_decode (peer_id_of_key k) = Some (KEY_HEADER ++ k);
  peer_id_plain : forall k, zlen k = 32 -> Forall plain (str_bytes (peer_id_of_key k));
  peer_id_len : forall k, zlen k = 32 -> 0 < str_len (peer_id_of_key k) <= MAX_LEN_PEER_ID /\ str_len (peer_id_of_key k) <> 64;
  peer_id_of_key_valid : forall k, zlen k = 32 -> peer_id_valid (peer_id_of_key k) = true;
}.

(** No call fails and nobody else writes. *)
Definition io_fine (io : Io) : Prop :=
  io_open io = true /\ io_metadata io = true /\ io_metadata_after io = true /\ io_read io = true /\ io_appended io = [] /\
  io_create_dir io = true /\ io_write io = true /\ io_rename io = true.

Section Persistence.
Context {IL : IdLib} {KL : KeyLib} {PL : PeerLib} {ML : MultiaddrLib} `{Build} {C : Codec (list LedgerEntry)}.

(** A ledger whose JSON is text that fits the file and reads back. *)
Definition fits (l : list LedgerEntry) : Prop :=
  exists d, enc l = Some d /\ dec d = Some l /\ zlen d <= MAX_PERSISTED_LEDGER_BYTES /\ utf8_valid d = true.

Lemma serialize_fits l d : enc l = Some d -> zlen d <= MAX_PERSISTED_LEDGER_BYTES -> serialize_ledger_entries l = Ok d.
Proof. intros He Hd. unfold serialize_ledger_entries. rewrite He. by rewrite (proj2 (Z.ltb_ge _ _)). Qed.

Lemma write_fine io d w : io_fine io -> zlen d <= MAX_PERSISTED_LEDGER_BYTES ->
  exists files n, write_serialized_ledger true io d w = (Ok tt, mkWorld (w_entries w) (Some files) n) /\
    files !! LEDGER_FILE = Some (Regular d).
Proof.
  intros (_ & _ & _ & _ & _ & Hd & Hw & Hr) Hl. unfold write_serialized_ledger. cbn [negb]. rewrite (proj2 (Z.ltb_ge _ _)) by done.
  cbv zeta. unfold bind, or_throw, create_dir_all, next_nonce, put_file, try_ok, rename_file.
  rewrite Hd, Hw, Hr. cbn [w_dir w_entries w_nonce fmap option_fmap option_map ret].
  rewrite lookup_insert_eq. eexists _, _. split; [reflexivity|]. apply lookup_insert_eq.
Qed.

Lemma save_fine io l w : io_fine io -> fits l ->
  exists files n d, save_with_entries true io l w = (Ok tt, mkWorld (w_entries w) (Some files) n) /\
    files !! LEDGER_FILE = Some (Regular d) /\ dec d = Some l /\ zlen d <= MAX_PERSISTED_LEDGER_BYTES /\ utf8_valid d = true.
Proof.
  intros Hio (d & He & Hd & Hz & Hu). unfold save_with_entries. cbn [negb].
  rewrite (bind_run (lift (serialize_ledger_entries l)) _ w d w) by (unfold lift; by rewrite (serialize_fits l d)).
  destruct (write_fine io d w Hio Hz) as (files & n & -> & Hf). exists files, n, d. done.
Qed.

(** The temporary files that are cleaned are not the ledger. *)
Lemma clean_keeps_ledger io w files node : w_dir w = Some files -> files !! LEDGER_FILE = Some node ->
  exists files', clean_tmp io w = (Ok tt, mkWorld (w_entries w) (Some files') (w_nonce w)) /\ files' !! LEDGER_FILE = Some node.
Proof.
  intros Hw Hf. unfold clean_tmp. destruct (io_read_dir io).
  - rewrite Hw. eexists. split; [reflexivity|]. apply map_lookup_filter_Some. split; [done|]. cbn [fst]. done.
  - exists files. split; [|done]. destruct w. cbn in *. by subst.
Qed.

Lemma load_fine io w files d parsed : io_fine io -> w_dir w = Some files -> files !! LEDGER_FILE = Some (Regular d) ->
  dec d = Some parsed -> zlen d <= MAX_PERSISTED_LEDGER_BYTES -> utf8_valid d = true -> fits (load_repair parsed).1 ->
  exists w', load true io w = (Ok tt, w') /\ w_entries w' = (load_repair parsed).1.
Proof.
  intros Hio Hw Hf Hd Hz Hu (d2 & He2 & _ & Hz2 & _). unfold load. cbn [negb].
  destruct (clean_keeps_ledger io w files _ Hw Hf) as (files' & Hc & Hf'). rewrite (bind_run _ _ _ _ _ Hc).
  rewrite (bind_run load_file _ _ (Some (Regular d)) _) by (unfold load_file, reads; cbn; by rewrite Hf').
  pose proof Hio as (-> & -> & -> & -> & -> & _). cbn [negb orb]. rewrite (proj2 (Z.ltb_ge _ _)) by done. cbv zeta.
  rewrite app_nil_r. rewrite (bind_run (put_file _ _) _ _ tt _ eq_refl). rewrite take_ge by (unfold zlen in Hz; lia).
  rewrite Hu. cbn [negb]. rewrite (proj2 (Z.ltb_ge _ _)) by done. cbn [orb]. rewrite Hd.
  destruct (load_repair parsed) as [l changed]. cbn [fst] in *.
  rewrite (bind_run (lift (serialize_ledger_entries l)) _ _ d2 _) by (unfold lift; by rewrite (serialize_fits l d2)).
  destruct changed.
  - match goal with |- exists w', bind (write_serialized_ledger true io d2) _ ?w0 = _ /\ _ =>
      destruct (write_fine io d2 w0 Hio Hz2) as (f2 & n2 & Hwr & _); rewrite (bind_run _ _ _ _ _ Hwr) end.
    eexists. split; [reflexivity|done].
  - rewrite bind_ret_l. eexists. split; [reflexivity|done].
Qed.

(** An entry that loading leaves as it is. *)
Definition settled (e : LedgerEntry) : Prop :=
  load_admits e = true /\ load_sanitize e = (e, false) /\ load_migrate e = (e, false).

Lemma each_id (f : LedgerEntry -> LedgerEntry * bool) l : Forall (fun e => f e = (e, false)) l -> each f l = (l, false).
Proof.
  intros Hl. unfold each. induction Hl as [|e l He Hl IH]; [done|]. injection IH as IH1 IH2. cbn. by rewrite He, IH1, IH2.
Qed.

Lemma filter_all {A} (P : A -> Prop) `{forall x, Decision (P x)} l : Forall P l -> filter P l = l.
Proof. induction 1; [done|]. rewrite filter_cons_True by done. by f_equal. Qed.

Lemma filter_none {A} (P : A -> Prop) `{forall x, Decision (P x)} l : Forall (fun x => ~ P x) l -> filter P l = [].
Proof. induction 1; [done|]. by rewrite filter_cons_False. Qed.

Lemma load_repair_settled l : zlen l <= MAX_LEDGER_ENTRIES -> Forall settled l -> load_repair l = (l, false).
Proof.
  intros Hl Hs. unfold load_repair. rewrite filter_all by (eapply Forall_impl; [exact Hs|by intros e (? & _)]).
  rewrite Z.eqb_refl. cbn [negb]. unfold load_cut. rewrite (proj2 (Z.ltb_ge _ _)) by done.
  rewrite (each_id load_sanitize l) by (eapply Forall_impl; [exact Hs|by intros e (_ & ? & _)]).
  by rewrite (each_id load_migrate l) by (eapply Forall_impl; [exact Hs|by intros e (_ & _ & ?)]).
Qed.

(** Entries without an identity, such as seeds and bare addresses, are settled. *)
Lemma anonymous_settled m s f t : str_len m <= MAX_LEN_MULTIADDR -> settled (mkLedger m None None None s f t []).
Proof. intros Hm. split_and!; [|done|done]. unfold load_admits. cbn. rewrite andb_true_r. by apply Z.leb_le. Qed.

(** What is saved is there after a restart, entry by entry, if loading has nothing to repair
    in it. *)
Theorem restart_keeps_settled io io' w n :
  io_fine io -> io_fine io' -> fits (w_entries w) -> zlen (w_entries w) <= MAX_LEDGER_ENTRIES -> Forall settled (w_entries w) ->
  exists w1 w2, save true io w = (Ok tt, w1) /\ load true io' (mkWorld [] (w_dir w1) n) = (Ok tt, w2) /\ w_entries w2 = w_entries w.
Proof.
  intros Hio Hio' Hfit Hl Hs. destruct (save_fine io (w_entries w) w Hio Hfit) as (files & n1 & d & Hsave & Hf & Hd & Hz & Hu).
  eexists. pose proof (load_repair_settled _ Hl Hs) as Hr.
  destruct (load_fine io' (mkWorld [] (Some files) n) files d (w_entries w) Hio' eq_refl Hf Hd Hz Hu) as (w2 & Hload & He).
  { by rewrite Hr. }
  exists w2. split_and!; [unfold save; by rewrite (bind_run live _ w (w_entries w) w eq_refl)|done|]. by rewrite He, Hr.
Qed.

(** *** Canonical ids *)

Context `{!LawfulHex} `{!LawfulPeer}.

Lemma hex_of_key k : zlen k = 32 -> ed_point k = true ->
  peer_id_from_public_key_hex (hex_encode k) = Some (peer_id_of_key k).
Proof. intros Hk Hp. unfold peer_id_from_public_key_hex. rewrite hex_decode_encode. cbn. by rewrite Hk, Hp. Qed.

Lemma trim_peer_id k : zlen k = 32 -> trim (peer_id_of_key k) = peer_id_of_key k.
Proof. intros Hk. by apply trim_plain, peer_id_plain. Qed.

(** The key is recovered from the peer id that it certifies. *)
Lemma key_of_peer_id k : zlen k = 32 -> ed_point k = true ->
  public_key_hex_from_libp2p_peer_id (peer_id_of_key k) = Some (hex_encode k).
Proof.
  intros Hk Hp. unfold public_key_hex_from_libp2p_peer_id. rewrite (trim_peer_id k Hk), (peer_id_decodes k Hk). cbn [mbind option_bind].
  rewrite zlen_app, Hk. change (zlen KEY_HEADER + 32 =? 38) with true. cbn [negb orb].
  change (take 6 (KEY_HEADER ++ k)) with KEY_HEADER. change (drop 6 (KEY_HEADER ++ k)) with k.
  rewrite bool_decide_true by done. cbn [negb]. rewrite (hex_of_key k Hk Hp). by rewrite bool_decide_true.
Qed.

Lemma peer_id_not_hex k : zlen k = 32 -> hex_id (peer_id_of_key k) = false.
Proof. intros Hk. unfold hex_id. rewrite (proj2 (Z.eqb_neq _ _)); [done|]. by apply peer_id_len. Qed.

Lemma peer_id_nonempty k : zlen k = 32 -> String.eqb (peer_id_of_key k) "" = false.
Proof.
  intros Hk. apply String.eqb_neq. intros He. pose proof (peer_id_len k Hk) as [Hl _]. rewrite He in Hl. vm_compute in Hl. by destruct Hl.
Qed.

Lemma connection_pair_key k : zlen k = 32 -> ed_point k = true ->
  connection_pair (peer_id_of_key k) = (hex_encode k, Some (hex_encode k)).
Proof.
  intros Hk Hp. unfold connection_pair, canonical_ledger_peer_id. cbv zeta.
  rewrite (trim_peer_id k Hk), (peer_id_nonempty k Hk), (peer_id_not_hex k Hk), (key_of_peer_id k Hk Hp). cbn [fmap option_fmap option_map].
  by rewrite hex_encode_lower.
Qed.

Lemma ingest_key m k : zlen k = 32 -> str_len m <= MAX_LEN_MULTIADDR -> ingest_refused m (peer_id_of_key k) = false.
Proof.
  intros Hk Hm. unfold ingest_refused. rewrite (proj2 (Z.ltb_ge _ _)) by done. rewrite (peer_id_of_key_valid k Hk).
  pose proof (peer_id_len k Hk) as [[_ Hl] _]. rewrite (proj2 (Z.ltb_ge MAX_LEN_PEER_ID _)) by done. cbn [negb orb].
  by rewrite !andb_false_r.
Qed.

(** The entry that a first connection to the peer with key [k] makes. *)
Definition first_entry (now : Z) (m : string) (k : bytes) : LedgerEntry :=
  mkLedger m (Some (hex_encode k)) (Some (hex_encode k)) None 1 0 (Some now) [].

Lemma record_first now m k : zlen k = 32 -> ed_point k = true ->
  record_connection_locked now [] m (peer_id_of_key k) = Ok [first_entry now m k].
Proof. intros Hk Hp. unfold record_connection_locked. by rewrite (connection_pair_key k Hk Hp). Qed.

(** A connection is stored under the hexadecimal key of the peer, which loading takes for a
    malformed peer id: the entry of a peer that was just reached is dropped by the next load,
    and the file is rewritten without it. *)
Theorem connection_lost_on_restart io io' w n m k :
  io_fine io -> io_fine io' -> w_entries w = [] -> zlen k = 32 -> ed_point k = true ->
  is_recordable_multiaddr m = true -> str_len m <= MAX_LEN_MULTIADDR -> peer_id_valid (hex_encode k) = false ->
  fits [first_entry (io_now io) m k] -> fits [] ->
  exists w1 w2, record_connection true io m (peer_id_of_key k) w = (Ok tt, w1) /\ dialable_addresses (w_entries w1) = [first_entry (io_now io) m k] /\
    load true io' (mkWorld [] (w_dir w1) n) = (Ok tt, w2) /\ w_entries w2 = [].
Proof.
  intros Hio Hio' Hw Hk Hp Hm Hml Hv Hfit Hfit0. set (e := first_entry (io_now io) m k).
  destruct (save_fine io [e] (mkWorld [e] (w_dir w) (w_nonce w)) Hio Hfit) as (files & n1 & d & Hsave & Hf & Hd & Hz & Hu).
  assert (load_repair [e] = ([], true)) as Hr.
  { assert (load_admits e = false) as Ha.
    { unfold load_admits. cbn [le_peer_id e first_entry]. rewrite Hv, !andb_false_r, orb_false_r.
      rewrite (proj2 (String.eqb_neq _ _)); [apply andb_false_r|]. intros Hx. pose proof (hex_encode_len k) as Hl. rewrite Hx, Hk in Hl. done. }
    unfold load_repair. rewrite filter_none by (apply Forall_singleton; by rewrite Ha). done. }
  exists (mkWorld [e] (Some files) n1).
  destruct (load_fine io' (mkWorld [] (Some files) n) files d [e] Hio' eq_refl Hf Hd Hz Hu) as (w2 & Hload & He); [by rewrite Hr|].
  exists w2. split_and!; [|done|done|by rewrite He, Hr].
  unfold record_connection. rewrite Hm, (ingest_key m k Hk Hml). cbn [negb]. unfold update_entries.
  rewrite (bind_run live _ w [] w) by (unfold live, reads; by rewrite Hw).
  rewrite (bind_run (lift _) _ w [e] w) by (unfold lift; by rewrite (record_first _ _ _ Hk Hp)).
  rewrite (bind_run (set_entries [e]) _ w tt _ eq_refl). unfold bind, try_ok. by rewrite Hsave.
Qed.

(** A reply to a ledger exchange tells a peer about itself: the ledger knows the peer by its
    key, the requester is given by its peer id, and the two never match; the id in the reply
    is not a peer id that the other side could read. *)
Theorem requester_hears_of_itself now m k limit my_addrs :
  zlen k = 32 -> ed_point k = true -> 1 <= limit -> is_disclosable_multiaddr (strip_peer_id m) = true ->
  peer_id_valid (hex_encode k) = false ->
  exists l s, record_connection_locked now [] m (peer_id_of_key k) = Ok l /\
    exchange_response_entries l limit (peer_id_of_key k) my_addrs = [s] /\
    sp_last_peer_id s = Some (hex_encode k) /\ peer_id_from_public_key_hex (hex_encode k) = Some (peer_id_of_key k).
Proof.
  intros Hk Hp Hl Hd Hv. exists [first_entry now m k], (ledger_entry_to_shared_routing_only (first_entry now m k)).
  split; [by apply record_first|]. split; [|split; [done|by apply hex_of_key]].
  unfold exchange_response_entries, exchange_response_entries_for_request. rewrite filter_all.
  - replace (Z.to_nat limit) with (S (Z.to_nat (limit - 1))) by lia. cbn [take]. by rewrite take_nil.
  - apply Forall_singleton. unfold discloses. cbn [alive le_success_count first_entry le_failure_count le_peer_id le_multiaddr].
    unfold strip_peer_id_component. rewrite Hd. rewrite bool_decide_false; [done|]. intros [= Hx].
    by rewrite Hx, (peer_id_of_key_valid k Hk) in Hv.
Qed.

(** A connection to a known address replaces the peer id of its entry and keeps the key that
    is there: when another peer answers at the address, its id is bound to the key of the one
    before. *)
Theorem stale_key_kept now e k :
  zlen k = 32 -> ed_point k = true -> is_dns_multiaddr (le_multiaddr e) = false -> 0 <= le_success_count e < u32_max ->
  is_Some (le_public_key e) ->
  record_connection_locked now [e] (le_multiaddr e) (peer_id_of_key k) =
    Ok [mkLedger (le_multiaddr e) (Some (hex_encode k)) (le_public_key e) (le_nickname e) (le_success_count e + 1)
          (le_failure_count e) (Some now) (le_topics e)].
Proof.
  intros Hk Hp Hdns Hs [old Hkey]. unfold record_connection_locked. rewrite (connection_pair_key k Hk Hp).
  assert (dns_entry [e] (le_multiaddr e) (hex_encode k) = None) as ->.
  { unfold dns_entry. cbn. rewrite Hdns. by rewrite !andb_false_r. }
  assert (address_entry [e] (le_multiaddr e) = Some 0%nat) as ->.
  { unfold address_entry. cbn. by rewrite decide_True. }
  unfold reached. cbn [lookup list_lookup]. unfold chk_u, u32_max in *.
  rewrite (proj2 (Z.leb_le _ _)), (proj2 (Z.ltb_lt _ _)) by lia. cbn. by rewrite Hkey.
Qed.

End Persistence.

(** ** Examples *)

Module LedgerExamples.
Import SampleIds AddrFilterExamples.

#[export] Instance checked : Build := {| overflow_checks := true |}.

#[export] Instance sample_peers : PeerLib :=
  {| peer_id_valid s := bool_decide (is_Some (strip_prefix "12D3" s)) || bool_decide (is_Some (strip_prefix "Qm" s));
     peer_id_of_key k := "12D3" +:+ hex_encode k |}.

#[export] Instance sample_peers_lawful : LawfulPeer.
Proof.
  assert (forall k, zlen k = 32 -> str_len ("12D3" +:+ hex_encode k) = 68) as Hlen.
  { intros k Hk. unfold str_len. rewrite str_bytes_app, zlen_app. fold (str_len (hex_encode k)). rewrite hex_encode_len, Hk. done. }
  split; intros k Hk; cbn [peer_id_of_key peer_id_valid sample_peers].
  - change (bs58_decode ("12D3" +:+ hex_encode k)) with ((fun k => KEY_HEADER ++ k) <$> hex_decode (hex_encode k)).
    by rewrite hex_decode_encode.
  - rewrite str_bytes_app. apply Forall_app. split; [by repeat constructor|]. eapply Forall_impl; [apply hex_encode_digits|apply hexdigit_plain].
  - rewrite (Hlen k Hk). unfold MAX_LEN_PEER_ID. lia.
  - by rewrite strip_prefix_app.
Qed.

Definition to_tuple (e : LedgerEntry) :=
  (le_multiaddr e, le_peer_id e, le_public_key e, le_nickname e, (le_success_count e, le_failure_count e, le_last_seen e, le_topics e)).

#[export] Instance LedgerEntry_countable : Countable LedgerEntry.
Proof.
  refine (inj_countable' to_tuple (fun '(m, p, k, n, (s, f, t, l)) => mkLedger m p k n s f t l) _). by intros [].
Defined.

#[export] Instance sample_json : Codec (list LedgerEntry) := any_codec.

Definition IO : Io := mkIo 5000 5 42 true (fun _ => true) true true true true [] true true true [] true.

Definition PEER_KEY : bytes := Byte.x0a :: replicate 31 Byte.x00.
Definition ADDR : string := print_multiaddr [Ip4 (ipv4 8 8 8 8); Tcp 1].
Definition MORE : string := print_multiaddr [Ip4 (ipv4 9 9 9 9); Udp 53].

Lemma fits_sample l : (zlen (enc_any l) <=? MAX_PERSISTED_LEDGER_BYTES) && utf8_valid (enc_any l) = true -> fits l.
Proof.
  intros [Hz Hu]%andb_true_iff. exists (enc_any l). split; [done|]. split; [|split; [by apply Z.leb_le|done]].
  cbn. by rewrite dec_enc_any.
Qed.

Lemma io_fine_sample : io_fine IO.
Proof. by split_and!. Qed.


(** A ledger full of seeds, the last one the oldest. *)
Definition FULL : list LedgerEntry :=
  replicate 1023 (mkLedger "a" None None None 0 0 (Some 7) []) ++ [mkLedger "b" None None None 0 0 (Some 6) []].

Lemma eviction_order_witness :
  zlen FULL = MAX_LEDGER_ENTRIES /\ exists i v, make_room FULL = delete i FULL /\ FULL !! i = Some v /\ le_last_seen v = Some 6.
Proof.
  assert (zlen FULL = MAX_LEDGER_ENTRIES) as Hl by (vm_compute; reflexivity). split; [exact Hl|].
  destruct (eviction_order FULL Hl) as (i & v & Hr & Hv & _ & Ho). exists i, v. split; [exact Hr|]. split; [exact Hv|].
  assert (mkLedger "b" None None None 0 0 (Some 6) [] ∈ FULL) as Hb.
  { unfold FULL. apply elem_of_app. right. apply elem_of_cons. left. reflexivity. }
  specialize (Ho _ Hb (fun _ => eq_refl)). apply list_elem_of_lookup_2 in Hv. unfold FULL in Hv.
  apply elem_of_app in Hv as [Hv|Hv]; [apply elem_of_replicate in Hv as [-> _]; by contradict Ho|].
  apply list_elem_of_singleton in Hv as ->. reflexivity.
Defined.

Definition PROVEN : LedgerEntry := first_entry 5000 ADDR PEER_KEY.

Lemma imported_not_dialable_witness : PROVEN ∈ dialable_addresses [PROVEN].
Proof.
  apply (imported_not_dialable 6000 Local [PROVEN] [mkSeed MORE]). unfold dialable_addresses, sort_by.
  rewrite stable_sort_Permutation. apply list_elem_of_filter. split; [reflexivity|].
  assert (head (import_seeds 6000 Local [PROVEN] [mkSeed MORE]).1 = Some PROVEN) as Hh by (vm_compute; reflexivity).
  destruct (import_seeds _ _ _ _).1 as [|x l]; [discriminate|]. injection Hh as ->. apply elem_of_cons. left. reflexivity.
Defined.


Lemma exported_seeds_safe_witness :
  safe_text Disclose ADDR.
Proof.
  assert (mkSeed ADDR ∈ export_seed_entries [PROVEN] 10) as Hin.
  { assert (seed_multiaddr <$> export_seed_entries [PROVEN] 10 = [ADDR]) as He by (vm_compute; reflexivity).
    destruct (export_seed_entries [PROVEN] 10) as [|[x] [|y l]]; cbn in He; try discriminate. injection He as ->.
    apply elem_of_cons. left. reflexivity. }
  apply (exported_seeds_safe _ _ _ _ Hin).
Defined.

Definition SEED : LedgerEntry := mkLedger MORE None None None 0 0 (Some 3) [].

Lemma restart_keeps_settled_witness : exists w1 w2,
  save true IO (mkWorld [SEED] None 0) = (Ok tt, w1) /\ load true IO (mkWorld [] (w_dir w1) 0) = (Ok tt, w2) /\ w_entries w2 = [SEED].
Proof.
  apply (restart_keeps_settled IO IO (mkWorld [SEED] None 0)).
  - exact io_fine_sample.
  - exact io_fine_sample.
  - apply fits_sample. vm_compute. reflexivity.
  - vm_compute. discriminate.
  - apply Forall_singleton, anonymous_settled. vm_compute. discriminate.
Defined.

Lemma connection_lost_on_restart_witness : exists w1 w2,
  record_connection true IO ADDR (peer_id_of_key PEER_KEY) (mkWorld [] None 0) = (Ok tt, w1) /\
  dialable_addresses (w_entries w1) = [PROVEN] /\ load true IO (mkWorld [] (w_dir w1) 0) = (Ok tt, w2) /\ w_entries w2 = [].
Proof.
  apply (connection_lost_on_restart IO IO (mkWorld [] None 0) 0 ADDR PEER_KEY).
  - exact io_fine_sample.
  - exact io_fine_sample.
  - reflexivity.
  - reflexivity.
  - reflexivity.
  - vm_compute. reflexivity.
  - vm_compute. discriminate.
  - vm_compute. reflexivity.
  - apply fits_sample. vm_compute. reflexivity.
  - apply fits_sample. vm_compute. reflexivity.
Defined.

Lemma requester_hears_of_itself_witness : exists l s,
  record_connection_locked 5000 [] ADDR (peer_id_of_key PEER_KEY) = Ok l /\
  exchange_response_entries l 64 (peer_id_of_key PEER_KEY) [] = [s] /\ sp_last_peer_id s = Some (hex_encode PEER_KEY).
Proof.
  destruct (requester_hears_of_itself 5000 ADDR PEER_KEY 64 []) as (l & s & H1 & H2 & H3 & _);
    [reflexivity|reflexivity|lia|vm_compute; reflexivity|vm_compute; reflexivity|]. exists l, s. split_and!; assumption.
Defined.

(** The key of another peer stays with the entry. *)
Lemma stale_key_kept_witness :
  record_connection_locked 9 [mkLedger "m" None (Some KEY) None 1 0 None []] "m" (peer_id_of_key PEER_KEY) =
    Ok [mkLedger "m" (Some (hex_encode PEER_KEY)) (Some KEY) None 2 0 (Some 9) []].
Proof.
  apply (stale_key_kept 9 (mkLedger "m" None (Some KEY) None 1 0 None []) PEER_KEY); [reflexivity|reflexivity|vm_compute; reflexivity| |].
  - cbn. unfold u32_max. lia.
  - exists KEY. reflexivity.
Defined.

End LedgerExamples.
