(* ===== verification/LedgerPaths.v ===== *)
(** * Where ledgers live ([core/src/store/ledger_entry.rs])

    The storage path of a ledger manager, made absolute and normal, and the registry that
    lets every manager of one process on the same path share one ledger.  The file system's
    [canonicalize] and the current directory are arguments. *)

From S2P Require Import Prelude.

(** ** Paths, as [Path::components] reads them *)

Inductive Component : Type :=
  | Prefix (name : string) | RootDir | CurDir | ParentDir | Normal (name : string).

#[global] Instance Component_eq_dec : EqDecision Component.
Proof. solve_decision. Defined.

#[global] Instance Component_countable : Countable Component.
Proof.
  refine (inj_countable' (fun c => match c with Prefix n => inl (inl n) | RootDir => inr 0%nat | CurDir => inr 1%nat
                                              | ParentDir => inr 2%nat | Normal n => inl (inr n) end)
            (fun x => match x with inl (inl n) => Prefix n | inr O => RootDir | inr 1%nat => CurDir | inr _ => ParentDir
                                 | inl (inr n) => Normal n end) _). by intros [].
Defined.

Notation PathBuf := (list Component).

(** [Path::parent] and [PathBuf::pop]: the last component goes, unless it is a root. *)
Definition parent (p : PathBuf) : option PathBuf :=
  match last p with
  | None | Some (Prefix _) | Some RootDir => None
  | Some _ => Some (removelast p)
  end.

Definition pop (p : PathBuf) : PathBuf := default p (parent p).

(** [PathBuf::push]: an absolute component replaces the path, a root after a prefix extends it. *)
Definition push (p : PathBuf) (c : Component) : PathBuf :=
  match c with
  | Prefix _ => [c]
  | RootDir => match p with [Prefix n] => [Prefix n; RootDir] | _ => [RootDir] end
  | _ => p ++ [c]
  end.

Definition is_absolute (p : PathBuf) : bool :=
  match p with RootDir :: _ | Prefix _ :: RootDir :: _ => true | _ => false end.

(** [Path::join]. *)
Definition join (base p : PathBuf) : PathBuf := foldl push base p.

Definition lexically_normalize_absolute_path (path : PathBuf) : PathBuf :=
  foldl (fun normalized component =>
           match component with
           | CurDir => normalized
           | ParentDir => pop normalized
           | _ => push normalized component
           end) [] path.

Section Paths.
Variable canonicalize : PathBuf -> option PathBuf.
Variable current_dir : option PathBuf.

(** The suffix that is not there yet, put back on its canonical ancestor. *)
Definition extend (canonical : PathBuf) (missing_suffix : list Component) : PathBuf :=
  foldl (fun canonical component =>
           match component with ParentDir => pop canonical | CurDir => canonical | c => push canonical c end)
    canonical (reverse missing_suffix).

(** The search for an ancestor that exists; a path has as many ancestors as components, so
    that many rounds are enough. *)
Fixpoint nearest (fuel : nat) (existing_ancestor : PathBuf) (missing_suffix : list Component) : option PathBuf :=
  match canonicalize existing_ancestor with
  | Some canonical => Some (lexically_normalize_absolute_path (extend canonical missing_suffix))
  | None =>
      match last existing_ancestor with
      | None | Some (Prefix _) | Some RootDir => None
      | Some component =>
          match fuel with
          | O => None
          | S fuel => nearest fuel (removelast existing_ancestor) (missing_suffix ++ [component])
          end
      end
  end.

Definition normalize_storage_path (storage_path : PathBuf) : option PathBuf :=
  let absolute := if is_absolute storage_path then Some storage_path else (fun base => join base storage_path) <$> current_dir in
  match absolute with
  | None => None
  | Some absolute =>
      match nearest (length absolute) absolute [] with
      | Some p => Some p
      | None => Some (lexically_normalize_absolute_path absolute)
      end
  end.

(** ** The registry *)

(** The managers of the process, each with its path ([None] for one in memory only) and the
    state it uses, the registry of weak references, and the next state to be allocated. *)
Record Process : Type := mkProcess {
  managers : list (option PathBuf * nat);
  registry : gmap PathBuf nat;
  fresh_state : nat;
}.

Definition strong_count (p : Process) (state : nat) : nat := length (filter (fun m => m.2 = state) (managers p)).

(** [registry.retain(..)], then the state of the path or a new one. *)
Definition shared_ledger_state (p : Process) (storage_path : PathBuf) : nat * Process :=
  let registry := filter (fun ps => strong_count p ps.2 <> 0%nat) (registry p) in
  match registry !! storage_path with
  | Some existing => (existing, mkProcess (managers p) registry (fresh_state p))
  | None => (fresh_state p, mkProcess (managers p) (<[storage_path := fresh_state p]> registry) (S (fresh_state p)))
  end.

Definition ephemeral (p : Process) : Process :=
  mkProcess (managers p ++ [(None, fresh_state p)]) (registry p) (S (fresh_state p)).

(** [LedgerManager::new]. *)
Definition manager_new (p : Process) (storage_path : PathBuf) : Process :=
  match normalize_storage_path storage_path with
  | None => ephemeral p
  | Some storage_path =>
      let '(state, p) := shared_ledger_state p storage_path in
      mkProcess (managers p ++ [(Some storage_path, state)]) (registry p) (fresh_state p)
  end.

(** A manager is dropped. *)
Definition manager_drop (p : Process) (i : nat) : Process := mkProcess (delete i (managers p)) (registry p) (fresh_state p).

Inductive step : Process -> Process -> Prop :=
  | step_new p path : step p (manager_new p path)
  | step_ephemeral p : step p (ephemeral p)
  | step_drop p i : step p (manager_drop p i).

Inductive reachable : Process -> Prop :=
  | reachable_init : reachable (mkProcess [] ∅ 0)
  | reachable_step p q : reachable p -> step p q -> reachable q.

(** ** Invariant *)

(** Managers with a path are registered under it with their state; no two paths have the same
    state, and a manager in memory shares its state with nobody; the next state is unused. *)
Record process_ok (p : Process) : Prop := {
  ok_registered : forall path s, (Some path, s) ∈ managers p -> registry p !! path = Some s;
  ok_injective : forall p1 p2 s, registry p !! p1 = Some s -> registry p !! p2 = Some s -> p1 = p2;
  ok_managers_old : forall a s, (a, s) ∈ managers p -> (s < fresh_state p)%nat;
  ok_registry_old : forall path s, registry p !! path = Some s -> (s < fresh_state p)%nat;
  ok_private : forall path s, (None, s) ∈ managers p -> registry p !! path <> Some s;
  ok_apart : NoDup (filter (fun m => m.1 = None) (managers p));
}.

Lemma filter_sublist_mono {A} (P : A -> Prop) `{forall x, Decision (P x)} l k : l `sublist_of` k -> filter P l `sublist_of` filter P k.
Proof.
  induction 1 as [|x l k Hs IH|x l k Hs IH]; [done| |]; rewrite !filter_cons; case_decide; auto using sublist_skip, sublist_cons.
Qed.

Lemma strong_count_pos p a s : (a, s) ∈ managers p -> strong_count p s <> 0%nat.
Proof.
  intros Hin. unfold strong_count. assert ((a, s) ∈ filter (fun m : option PathBuf * nat => m.2 = s) (managers p)) as Hf by (by apply list_elem_of_filter).
  destruct (filter _ _); [by apply elem_of_nil in Hf|done].
Qed.

Lemma ephemeral_ok p : process_ok p -> process_ok (ephemeral p).
Proof.
  intros [H1 H2 H3 H4 H5 H6]. split; cbn [managers registry fresh_state ephemeral].
  - intros path s [Hin|Hin%list_elem_of_singleton]%elem_of_app; [auto|done].
  - done.
  - intros a s [Hin|Hin%list_elem_of_singleton]%elem_of_app; [specialize (H3 _ _ Hin); lia|injection Hin as _ ->; lia].
  - intros path s Hs%H4. lia.
  - intros path s [Hin|Hin%list_elem_of_singleton]%elem_of_app; [auto|]. injection Hin as ->. intros Hs%H4. lia.
  - rewrite filter_app. apply NoDup_app. split_and!; [done| |apply NoDup_singleton].
    intros m [_ Hm]%list_elem_of_filter Hin%list_elem_of_singleton. subst m. specialize (H3 _ _ Hm). lia.
Qed.

Lemma new_ok p path : process_ok p -> process_ok (manager_new p path).
Proof.
  intros Hp. unfold manager_new. destruct (normalize_storage_path path) as [sp|]; [|by apply ephemeral_ok].
  destruct Hp as [H1 H2 H3 H4 H5 H6]. unfold shared_ledger_state.
  set (reg := filter _ (registry p)).
  assert (forall q s, reg !! q = Some s -> registry p !! q = Some s) as Hsub by (intros q s Hs; by apply map_lookup_filter_Some in Hs as [? _]).
  assert (forall q s, (Some q, s) ∈ managers p -> reg !! q = Some s) as Hreg.
  { intros q s Hin. apply map_lookup_filter_Some. split; [auto|]. cbn. by eapply strong_count_pos. }
  destruct (reg !! sp) as [s0|] eqn:E.
  - split; cbn [managers registry fresh_state].
    + intros q s [Hin|Hin%list_elem_of_singleton]%elem_of_app; [auto|by injection Hin as -> ->].
    + intros p1 p2 s Hs1%Hsub Hs2%Hsub. eauto.
    + intros a s [Hin|Hin%list_elem_of_singleton]%elem_of_app; [eauto|]. injection Hin as -> ->. eauto.
    + eauto.
    + intros q s [Hin|Hin%list_elem_of_singleton]%elem_of_app; [|done]. intros Hs%Hsub. by eapply H5.
    + rewrite filter_app. cbn. by rewrite app_nil_r.
  - split; cbn [managers registry fresh_state].
    + intros q s [Hin|Hin%list_elem_of_singleton]%elem_of_app; [|injection Hin as -> ->; apply lookup_insert_eq].
      rewrite lookup_insert_ne; [auto|]. intros ->. apply Hreg in Hin. congruence.
    + intros p1 p2 s [[<- <-]|[_ Hs1]]%lookup_insert_Some [[<- He]|[_ Hs2]]%lookup_insert_Some; [done| | |eauto].
      * apply Hsub, H4 in Hs2. lia.
      * apply Hsub, H4 in Hs1. lia.
    + intros a s [Hin|Hin%list_elem_of_singleton]%elem_of_app; [specialize (H3 _ _ Hin); lia|injection Hin as _ ->; lia].
    + intros q s [[<- <-]|[_ Hs%Hsub%H4]]%lookup_insert_Some; lia.
    + intros q s [Hin|Hin%list_elem_of_singleton]%elem_of_app; [|done].
      intros [[_ <-]|[_ Hs%Hsub]]%lookup_insert_Some; [specialize (H3 _ _ Hin); lia|by eapply H5].
    + rewrite filter_app. cbn. by rewrite app_nil_r.
Qed.

Lemma drop_ok p i : process_ok p -> process_ok (manager_drop p i).
Proof.
  intros [H1 H2 H3 H4 H5 H6]. assert (forall m, m ∈ delete i (managers p) -> m ∈ managers p) as Hsub.
  { intros m Hm. apply list_elem_of_lookup in Hm as [j Hj]. destruct (decide (j < i)%nat).
    - rewrite list_lookup_delete_lt in Hj by done. by eapply list_elem_of_lookup_2.
    - rewrite list_lookup_delete_ge in Hj by lia. by eapply list_elem_of_lookup_2. }
  split; cbn [managers registry fresh_state manager_drop]; eauto.
  eapply sublist_NoDup; [exact H6|]. apply filter_sublist_mono, sublist_delete.
Qed.

Lemma reachable_ok p : reachable p -> process_ok p.
Proof.
  induction 1 as [|p q Hp IH Hs]; [|destruct Hs; auto using new_ok, ephemeral_ok, drop_ok].
  split; cbn; try (intros; set_solver). constructor.
Qed.

(** Managers that the same process holds on one path share one ledger, and managers on
    different paths, or in memory only, share none: whatever was created and dropped before. *)
Theorem one_ledger_per_path p a b s t :
  reachable p -> (a, s) ∈ managers p -> (b, t) ∈ managers p ->
  (a = b -> a <> None -> s = t) /\ (a <> b -> s <> t).
Proof.
  intros [H1 H2 H3 H4 H5 H6]%reachable_ok Ha Hb. split.
  - intros -> Hn. destruct b as [path|]; [|done]. apply H1 in Ha, Hb. congruence.
  - intros Hn ->. destruct a as [pa|], b as [pb|]; [| | |done].
    + apply Hn. f_equal. eauto.
    + eapply H5; [exact Hb|]. by apply H1 in Ha.
    + eapply H5; [exact Ha|]. by apply H1 in Hb.
Qed.

(** ** Normal paths *)

Definition normal (p : PathBuf) : Prop := Forall (fun c => c <> CurDir /\ c <> ParentDir) p.

Lemma pop_normal p : normal p -> normal (pop p).
Proof.
  intros Hp. unfold pop, parent. destruct (last p) as [[]|] eqn:E; cbn; try done; apply last_Some in E as [l ->];
    rewrite removelast_last; by apply Forall_app in Hp as [? _].
Qed.

Lemma push_normal p c : c <> CurDir -> c <> ParentDir -> normal p -> normal (push p c).
Proof.
  intros H1 H2 Hp. unfold normal in *. destruct c; cbn; try done.
  - by repeat constructor.
  - destruct p as [|[] [|]]; by repeat constructor.
  - apply Forall_app. split; [done|by repeat constructor].
Qed.

(** No [.] or [..] is left, however many there were. *)
Lemma lexically_normal path : normal (lexically_normalize_absolute_path path).
Proof.
  unfold lexically_normalize_absolute_path. assert (normal []) as Hn by constructor. revert Hn. generalize (@nil Component).
  induction path as [|c path IH]; intros acc Hn; [done|]. cbn [foldl]. apply IH.
  destruct c; auto using push_normal, pop_normal; by apply push_normal.
Qed.

(** Where a ledger is stored is a path without [.] and [..], whether or not its directories
    exist. *)
Theorem storage_path_normal path p : normalize_storage_path path = Some p -> normal p.
Proof.
  unfold normalize_storage_path. destruct (if is_absolute path then _ else _) as [absolute|]; [|done].
  destruct (nearest (length absolute) absolute []) as [q|] eqn:E; intros [= <-]; [|apply lexically_normal].
  revert E. generalize (length absolute), (@nil Component). intros fuel. generalize absolute.
  induction fuel as [|fuel IH]; intros anc suffix; cbn [nearest].
  - destruct (canonicalize anc); [intros [= <-]; apply lexically_normal|]. by destruct (last anc) as [[]|].
  - destruct (canonicalize anc); [intros [= <-]; apply lexically_normal|]. destruct (last anc) as [[]|]; try done; apply IH.
Qed.

End Paths.

(** ** Examples *)

Module LedgerPathsExamples.

(** Only the root exists. *)
Definition canon (p : PathBuf) : option PathBuf := match p with [RootDir] => Some [RootDir] | _ => None end.

Definition HERE : PathBuf := [RootDir; Normal "home"].
Definition DIRECT : PathBuf := [RootDir; Normal "home"; Normal "data"].
Definition ROUNDABOUT : PathBuf := [Normal "tmp"; ParentDir; Normal "data"].

Example same_place :
  normalize_storage_path canon (Some HERE) DIRECT = Some DIRECT /\
  normalize_storage_path canon (Some HERE) ROUNDABOUT = Some DIRECT.
Proof. split; reflexivity. Qed.

Definition TWO : Process :=
  manager_new canon (Some HERE) (manager_new canon (Some HERE) (mkProcess [] ∅ 0) DIRECT) ROUNDABOUT.

Lemma one_ledger_per_path_witness : managers TWO = [(Some DIRECT, 0%nat); (Some DIRECT, 0%nat)] /\ 0%nat = 0%nat.
Proof.
  assert (managers TWO = [(Some DIRECT, 0%nat); (Some DIRECT, 0%nat)]) as Hm by (vm_compute; reflexivity). split; [exact Hm|].
  assert (reachable canon (Some HERE) TWO) as Hr.
  { eapply reachable_step; [|apply step_new]. eapply reachable_step; [apply reachable_init|apply step_new]. }
  apply (proj1 (one_ledger_per_path canon (Some HERE) TWO (Some DIRECT) (Some DIRECT) 0%nat 0%nat Hr
    ltac:(rewrite Hm; by left) ltac:(rewrite Hm; right; by left))); [reflexivity|discriminate].
Defined.

Lemma storage_path_normal_witness : normal DIRECT.
Proof. apply (storage_path_normal canon (Some HERE) ROUNDABOUT). reflexivity. Defined.

End LedgerPathsExamples.
