(* ===== verification/Reputation.v ===== *)
(** * Peer reputation ([core/src/transport/reputation.rs])

    Counters of good and bad behaviour for each peer, the score from 0 to 100 that is
    computed from them in IEEE doubles, its decay, and its persistence.  Both clocks are
    arguments: the wall clock in seconds and the monotonic clock.  [serde_json] is a codec of
    the stored fields; the monotonic time of the last signal is not stored. *)

From Stdlib Require Import SpecFloat.
From S2P Require Import Prelude Backend Effects KvStore Floats.

(** ** Scores *)

Definition MIN : f64 := f64_of 0.
Definition MAX : f64 := f64_of 100.
Definition NEUTRAL : f64 := f64_of 50.

Definition score_new (score : f64) : f64 := clamp MIN MAX score.

Definition is_trusted (s : f64) : bool := SFleb (f64_of 70) s.
Definition is_suspicious (s : f64) : bool := SFltb s (f64_of 30) && SFleb (f64_of 10) s.
Definition is_abusive (s : f64) : bool := SFltb s (f64_of 10).

Inductive AbuseSignal : Type :=
  | RateLimited | OversizedMessage | InvalidFormat | DuplicateMessage | InvalidDestination
  | SuccessfulRelay | FailedRelay | SuccessfulDelivery | ConnectionTimeout.

#[global] Instance AbuseSignal_eq_dec : EqDecision AbuseSignal.
Proof. solve_decision. Defined.

Record PeerAbuseStats : Type := mkStats {
  pa_peer_id : string;
  rate_limit_hits : Z;
  oversized_messages : Z;
  invalid_format_count : Z;
  duplicate_count : Z;
  invalid_destination_count : Z;
  successful_relays : Z;
  failed_relays : Z;
  successful_deliveries : Z;
  connection_timeouts : Z;
  last_signal_epoch_secs : option Z;
  last_signal_at : option Z;
  reputation_score : f64;
}.

Definition stats_new (instant : Z) (peer_id : string) : PeerAbuseStats :=
  mkStats peer_id 0 0 0 0 0 0 0 0 0 None (Some instant) NEUTRAL.

(** The counter that a signal adds one to. *)
Definition count_signal `{Build} (s : PeerAbuseStats) (signal : AbuseSignal) : res string PeerAbuseStats :=
  let '(mkStats p a b c d e f g h i t u r) := s in
  match signal with
  | RateLimited => let! a := chk_u 32 (a + 1) in Ok (mkStats p a b c d e f g h i t u r)
  | OversizedMessage => let! b := chk_u 32 (b + 1) in Ok (mkStats p a b c d e f g h i t u r)
  | InvalidFormat => let! c := chk_u 32 (c + 1) in Ok (mkStats p a b c d e f g h i t u r)
  | DuplicateMessage => let! d := chk_u 32 (d + 1) in Ok (mkStats p a b c d e f g h i t u r)
  | InvalidDestination => let! e := chk_u 32 (e + 1) in Ok (mkStats p a b c d e f g h i t u r)
  | SuccessfulRelay => let! f := chk_u 32 (f + 1) in Ok (mkStats p a b c d e f g h i t u r)
  | FailedRelay => let! g := chk_u 32 (g + 1) in Ok (mkStats p a b c d e f g h i t u r)
  | SuccessfulDelivery => let! h := chk_u 32 (h + 1) in Ok (mkStats p a b c d e f g h i t u r)
  | ConnectionTimeout => let! i := chk_u 32 (i + 1) in Ok (mkStats p a b c d e f g h i t u r)
  end.

(** [positive] and [negative] of [calculate_score], and their difference. *)
Definition positive_part (s : PeerAbuseStats) : f64 :=
  f64_add (f64_mul (f64_of (successful_relays s)) (f64_of 2)) (f64_mul (f64_of (successful_deliveries s)) (f64_of 3)).

Definition negative_part (s : PeerAbuseStats) : f64 :=
  f64_add (f64_add (f64_add (f64_add (f64_add (f64_add
    (f64_mul (f64_of (rate_limit_hits s)) (f64_of 5))
    (f64_mul (f64_of (oversized_messages s)) (f64_of 3)))
    (f64_mul (f64_of (invalid_format_count s)) (f64_of 4)))
    (f64_mul (f64_of (duplicate_count s)) (f64_of 2)))
    (f64_mul (f64_of (invalid_destination_count s)) (f64_of 3)))
    (f64_mul (f64_of (failed_relays s)) (lit 3 2)))
    (f64_mul (f64_of (connection_timeouts s)) (f64_of 1)).

Definition calculate_score (s : PeerAbuseStats) : f64 :=
  let total := f64_sub (positive_part s) (negative_part s) in
  let score := f64_add NEUTRAL (f64_mul (f64_div total (f64_add (f64_of 1) (SFabs total))) (f64_of 50)) in
  score_new score.

Definition set_times (s : PeerAbuseStats) (epoch instant : option Z) (score : f64) : PeerAbuseStats :=
  mkStats (pa_peer_id s) (rate_limit_hits s) (oversized_messages s) (invalid_format_count s) (duplicate_count s)
    (invalid_destination_count s) (successful_relays s) (failed_relays s) (successful_deliveries s) (connection_timeouts s)
    epoch instant score.

Definition stats_record_signal `{Build} (secs instant : Z) (s : PeerAbuseStats) (signal : AbuseSignal) : res string PeerAbuseStats :=
  let! s := count_signal s signal in
  Ok (set_times s (Some secs) (Some instant) (calculate_score s)).

Definition stats_rate_limit_multiplier (s : PeerAbuseStats) : f64 :=
  if is_trusted (reputation_score s) then lit 3 2
  else if is_abusive (reputation_score s) then lit 1 10
  else if is_suspicious (reputation_score s) then lit 1 2
  else f64_of 1.

(** One peer of [apply_decay], [elapsed_secs] after its last signal and past the time to live. *)
Definition decay_stats (decay_secs elapsed_secs : Z) (s : PeerAbuseStats) : PeerAbuseStats :=
  let decay_ratio := f64_min (f64_div (f64_of (elapsed_secs - decay_secs)) (f64_of decay_secs)) (f64_of 1) in
  let current := reputation_score s in
  let new_value := f64_add current (f64_mul (f64_mul (f64_sub NEUTRAL current) decay_ratio) (lit 1 2)) in
  let count_decay := f64_sub (f64_of 1) (f64_mul decay_ratio (lit 3 10)) in
  let decayed n := f64_to_u 32 (f64_mul (f64_of n) count_decay) in
  mkStats (pa_peer_id s) (decayed (rate_limit_hits s)) (decayed (oversized_messages s)) (decayed (invalid_format_count s))
    (decayed (duplicate_count s)) (decayed (invalid_destination_count s)) (successful_relays s) (decayed (failed_relays s))
    (successful_deliveries s) (decayed (connection_timeouts s)) (last_signal_epoch_secs s) (last_signal_at s) (score_new new_value).

(** ** The manager *)

Record AbuseReputationManager (B : Type) : Type := mkReputation {
  rm_peers : gmap string PeerAbuseStats;
  rm_max_tracked_peers : Z;
  rm_storage : option B;
  rm_decay_ttl : Z;
}.
#[global] Arguments mkReputation {B} _ _ _ _.
#[global] Arguments rm_peers {B} _.
#[global] Arguments rm_max_tracked_peers {B} _.
#[global] Arguments rm_storage {B} _.
#[global] Arguments rm_decay_ttl {B} _.

Definition STORAGE_PREFIX : bytes := str_bytes "reputation:".

Definition storage_key (peer_id : string) : bytes := STORAGE_PREFIX ++ str_bytes peer_id.

(** [reputation_score.value() as u32]. *)
Definition rank (s : PeerAbuseStats) : Z := f64_to_u 32 (reputation_score s).

Section Manager.
Context {B : Type} {SB : StorageBackend B} {CS : Codec PeerAbuseStats} {BM : Build} {HI : HashIter string PeerAbuseStats}.

Local Notation RM := (M (AbuseReputationManager B)).

Definition set_peers (peers : gmap string PeerAbuseStats) : RM unit :=
  fun m => (Ok tt, mkReputation peers (rm_max_tracked_peers m) (rm_storage m) (rm_decay_ttl m)).

Definition get_peers : RM (gmap string PeerAbuseStats) := fun m => (Ok (rm_peers m), m).

(** [if let Some(ref storage) = self.storage { storage.call(..) }]. *)
Definition on_storage (call : B -> res string B) : RM unit := fun m =>
  match rm_storage m with
  | None => (Ok tt, m)
  | Some b =>
      match call b with
      | Ok b' => (Ok tt, mkReputation (rm_peers m) (rm_max_tracked_peers m) (Some b') (rm_decay_ttl m))
      | Err e => (Err e, m)
      | Panic => (Panic, m)
      end
  end.

Definition persist_peer (peer_id : string) (stats : PeerAbuseStats) : RM unit :=
  match enc stats with
  | Some value => let* _ := try_ok (on_storage (fun b => be_put b (storage_key peer_id) value)) in ret tt
  | None => ret tt
  end.

Definition remove_peer_from_storage (peer_id : string) : RM unit :=
  let* _ := try_ok (on_storage (fun b => be_remove b (storage_key peer_id))) in ret tt.

Definition manager_new (max_tracked_peers : Z) : AbuseReputationManager B :=
  mkReputation ∅ max_tracked_peers None (7 * 24 * 3600).

(** One entry of the scan in [load_from_storage]. *)
Definition load_entry (instant : Z) (peers : gmap string PeerAbuseStats) (value : bytes) : gmap string PeerAbuseStats :=
  match dec value with
  | Some stats =>
      let stats := set_times stats (last_signal_epoch_secs stats) ((fun _ => instant) <$> last_signal_epoch_secs stats) (reputation_score stats) in
      <[pa_peer_id stats := stats]> peers
  | None => peers
  end.

(** The capacity limit after loading: the lowest scores go, in memory only. *)
Definition enforce_capacity (max_tracked_peers : Z) (peers : gmap string PeerAbuseStats) : gmap string PeerAbuseStats :=
  if max_tracked_peers <? Z.of_nat (size peers) then
    let entries := stable_sort (fun a b => (a.2 ?= b.2) <> Gt) ((fun ks => (ks.1, rank ks.2)) <$> hm_iter peers) in
    let remove_count := Z.of_nat (size peers) - max_tracked_peers in
    foldl (fun peers key => delete key peers) peers (take (Z.to_nat remove_count) entries).*1
  else peers.

Definition load_from_storage (instant : Z) : RM unit := fun m =>
  match rm_storage m with
  | None => (Ok tt, m)
  | Some b =>
      match be_scan_prefix b STORAGE_PREFIX with
      | Ok entries =>
          let peers := foldl (load_entry instant) (rm_peers m) entries.*2 in
          set_peers (enforce_capacity (rm_max_tracked_peers m) peers) m
      | Err _ => (Ok tt, m)
      | Panic => (Panic, m)
      end
  end.

Definition with_backend (instant max_tracked_peers : Z) (backend : B) : res string () * AbuseReputationManager B :=
  load_from_storage instant (mkReputation ∅ max_tracked_peers (Some backend) (7 * 24 * 3600)).

(** Whether [apply_decay] changes a peer, and the seconds since its last signal. *)
Definition decays (now_epoch decay_secs : Z) (s : PeerAbuseStats) : option Z :=
  match last_signal_epoch_secs s with
  | Some last_epoch =>
      let elapsed_secs := sat_sub now_epoch last_epoch in
      if decay_secs <? elapsed_secs then Some elapsed_secs else None
  | None => None
  end.

Definition decayed (now_epoch decay_secs : Z) (s : PeerAbuseStats) : PeerAbuseStats :=
  match decays now_epoch decay_secs s with
  | Some elapsed_secs => decay_stats decay_secs elapsed_secs s
  | None => s
  end.

Definition apply_decay (now_epoch : Z) : RM unit := fun m =>
  let decay_secs := rm_decay_ttl m in
  let to_persist := (filter (fun ks => is_Some (decays now_epoch decay_secs ks.2)) (hm_iter (rm_peers m))).*1 in
  let peers := decayed now_epoch decay_secs <$> rm_peers m in
  (let* _ := set_peers peers in
   mfold (fun _ peer_id => match peers !! peer_id with Some stats => persist_peer peer_id stats | None => ret tt end) tt to_persist) m.

Definition flush_to_storage : RM unit := fun m =>
  match rm_storage m with
  | None => (Ok tt, m)
  | Some _ =>
      (let* _ := mfold (fun _ ks => persist_peer ks.1 ks.2) tt (hm_iter (rm_peers m)) in
       let* _ := try_ok (on_storage be_flush) in ret tt) m
  end.

(** The eviction at the head of [record_signal]. *)
Definition evict_lowest : RM unit :=
  let* peers := get_peers in
  match min_by (fun a b => rank a.2 ?= rank b.2) (hm_iter peers) with
  | Some (lowest_key, _) =>
      let* _ := remove_peer_from_storage lowest_key in
      set_peers (delete lowest_key peers)
  | None => ret tt
  end.

(** The rest of [record_signal]: the entry is made if there is none, counts the signal and is written. *)
Definition count_and_persist (secs instant : Z) (peer_id : string) (signal : AbuseSignal) : RM f64 :=
  let* peers := get_peers in
  let entry := default (stats_new instant peer_id) (peers !! peer_id) in
  let* _ := set_peers (<[peer_id := entry]> peers) in
  let* stats := lift (stats_record_signal secs instant entry signal) in
  let* _ := set_peers (<[peer_id := stats]> peers) in
  let* _ := persist_peer peer_id stats in
  ret (reputation_score stats).

Definition record_signal (secs instant : Z) (peer_id : string) (signal : AbuseSignal) : RM f64 := fun m =>
  let full := bool_decide (rm_peers m !! peer_id = None) && (rm_max_tracked_peers m <=? Z.of_nat (size (rm_peers m))) in
  (let* _ := if full then evict_lowest else ret tt in count_and_persist secs instant peer_id signal) m.

Definition get_score (m : AbuseReputationManager B) (peer_id : string) : f64 :=
  default NEUTRAL (reputation_score <$> rm_peers m !! peer_id).

Definition rate_limit_multiplier (m : AbuseReputationManager B) (peer_id : string) : f64 :=
  default (f64_of 1) (stats_rate_limit_multiplier <$> rm_peers m !! peer_id).

Definition all_reputations (m : AbuseReputationManager B) : list (string * f64) :=
  (fun ks => (ks.1, reputation_score ks.2)) <$> hm_iter (rm_peers m).

(** [last_signal_at.map(|t| now.duration_since(t) < max_age).unwrap_or(false)]. *)
Definition fresh (now max_age : Z) (s : PeerAbuseStats) : bool :=
  match last_signal_at s with Some t => sat_sub now t <? max_age | None => false end.

Definition prune_stale (now max_age : Z) : RM Z := fun m =>
  let before := Z.of_nat (size (rm_peers m)) in
  let to_remove := (filter (fun ks => fresh now max_age ks.2 = false) (hm_iter (rm_peers m))).*1 in
  (let* _ := set_peers (filter (fun ks => fresh now max_age ks.2 = true) (rm_peers m)) in
   let* _ := mfold (fun _ key => remove_peer_from_storage key) tt to_remove in
   let* peers := get_peers in
   ret (before - Z.of_nat (size peers))) m.

Definition manager_len (m : AbuseReputationManager B) : Z := Z.of_nat (size (rm_peers m)).
Definition manager_is_empty (m : AbuseReputationManager B) : bool := manager_len m =? 0.

End Manager.

(** ** Scores are numbers from 0 to 100 *)

Definition counts (s : PeerAbuseStats) : list Z :=
  [rate_limit_hits s; oversized_messages s; invalid_format_count s; duplicate_count s; invalid_destination_count s;
   successful_relays s; failed_relays s; successful_deliveries s; connection_timeouts s].

Definition counts_ok (s : PeerAbuseStats) : Prop := Forall (fun n => 0 <= n < 2 ^ 32) (counts s).

Definition score_ok (x : f64) : Prop := is_nan x = false /\ f64_le MIN x /\ f64_le x MAX /\ canonical x.

Record stats_ok (s : PeerAbuseStats) : Prop := {
  ok_counts : counts_ok s;
  ok_score : score_ok (reputation_score s);
  ok_epoch : forall t, last_signal_epoch_secs s = Some t -> 0 <= t;
}.

Lemma score_new_ok x : is_nan x = false -> canonical x -> score_ok (score_new x).
Proof.
  intros Hx Hc. destruct (clamp_range MIN MAX x) as (? & ? & ?); [done..|by_computation|]. split_and!; try done.
  by apply clamp_canonical.
Qed.

Lemma score_mag x : score_ok x -> mag 7 x.
Proof.
  intros (Hn & Hlo & Hhi & Hc). change MAX with (S754_finite false 7036874417766400 (-46)) in Hhi.
  by apply (canonical_mag 7 7036874417766400 (-46)).
Qed.

Lemma weighted_mag n w k : 0 <= n < 2 ^ 32 -> mag k w -> 0 <= k <= 10 -> mag 44 (f64_mul (f64_of n) w).
Proof.
  intros Hn Hw Hk. apply (mag_weaken (33 + k + 1)); [lia|]. apply f64_mul_mag; [|done|lia].
  apply (f64_of_mag n 32); lia.
Qed.

Lemma sum_mag k j x y : mag k x -> mag j y -> j <= k -> 0 <= k <= 950 -> mag (k + 2) (f64_add x y).
Proof. intros. apply f64_add_mag; [done|by apply (mag_weaken j)|lia]. Qed.

Lemma total_mag s : counts_ok s -> mag 60 (f64_sub (positive_part s) (negative_part s)).
Proof.
  intros Hc. unfold counts_ok, counts in Hc. rewrite !Forall_cons in Hc. destruct Hc as (? & ? & ? & ? & ? & ? & ? & ? & ? & _).
  assert (forall n w, 0 <= n < 2 ^ 32 -> mag 3 w -> mag 44 (f64_mul (f64_of n) w)) as Hw.
  { intros n w Hn Hw. apply (weighted_mag n w 3); [done|done|lia]. }
  assert (mag 46 (positive_part s)) as Hp by (apply sum_mag with (k := 44) (j := 44); try lia; apply Hw; done || by vm_compute).
  apply (f64_sub_mag 58); [by apply (mag_weaken 46)| |lia]. apply (mag_weaken 56); [lia|].
  unfold negative_part. change 56 with (44 + 2 + 2 + 2 + 2 + 2 + 2).
  repeat (eapply sum_mag; [|apply Hw; [done|by vm_compute]|lia|lia]). apply Hw; [done|by vm_compute].
Qed.

Lemma calculate_score_ok s : counts_ok s -> score_ok (calculate_score s).
Proof.
  intros Hc. pose proof (total_mag s Hc) as Ht. unfold calculate_score. set (total := f64_sub _ _) in *.
  pose proof (mag_finite _ _ Ht) as Hf. apply score_new_ok.
  - apply f64_add_number_l; [done|]. apply f64_mul_number_r; [|done|done]. apply f64_div_number; [done| |].
    + apply f64_add_number; [done|]. eapply mag_finite, mag_abs, Ht.
    + intros t. eapply one_plus_nonzero, Ht.
  - apply f64_add_canonical; [by vm_compute|apply f64_mul_canonical].
Qed.

Lemma count_signal_ok `{Build} s signal s' :
  counts_ok s -> count_signal s signal = Ok s' ->
  counts_ok s' /\ pa_peer_id s' = pa_peer_id s.
Proof.
  intros Hc. unfold counts_ok, counts in *. rewrite !Forall_cons in *. destruct s; cbn in *.
  destruct signal; cbn; intros (x & Hx & [= <-])%rbind_ok_inv; cbn; apply chk_u_range in Hx; unfold in_u in Hx; tauto || lia.
Qed.

Lemma record_signal_ok `{Build} secs instant s signal s' :
  0 <= secs -> counts_ok s -> stats_record_signal secs instant s signal = Ok s' -> stats_ok s' /\ pa_peer_id s' = pa_peer_id s.
Proof.
  intros Ht Hc (s1 & H1 & [= <-])%rbind_ok_inv. apply count_signal_ok in H1 as [Hok Hid]; [|done].
  split; [|done]. split; [done|by apply calculate_score_ok|by intros t [= <-]].
Qed.

(** The share of the way back to neutral: from 0 to 1. *)
Lemma decay_ratio_mag n d :
  0 < n < 2 ^ 64 -> 0 < d < 2 ^ 53 -> mag 1 (f64_min (f64_div (f64_of n) (f64_of d)) (f64_of 1)).
Proof.
  intros Hn Hd. assert (forall t, f64_of n <> S754_zero t /\ f64_of d <> S754_zero t) as Hz by (intros t; split; apply f64_of_pos; lia).
  assert (is_nan (f64_div (f64_of n) (f64_of d)) = false) as Hq.
  { apply f64_div_number; [|apply f64_of_number|apply Hz]. eapply mag_finite, (f64_of_mag n 64); lia. }
  destruct (f64_min_range (f64_div (f64_of n) (f64_of d)) (f64_of 1)) as (Hm & Hle & Hc); [done..|].
  change (f64_of 1) with (S754_finite false 4503599627370496 (-52)) in Hle at 2.
  eapply canonical_mag; [|done| |exact Hle|done|lia].
  - destruct Hc as [-> | ->]; [apply f64_div_canonical|by vm_compute].
  - destruct Hc as [-> | ->]; [|by_computation]. apply f64_div_nonneg; [apply (f64_of_pos _ false); lia..|apply Hz|apply Hz].
Qed.

Lemma decay_stats_ok decay_secs elapsed_secs s :
  stats_ok s -> 0 < decay_secs < 2 ^ 53 -> decay_secs < elapsed_secs < 2 ^ 64 -> stats_ok (decay_stats decay_secs elapsed_secs s).
Proof.
  intros [Hc Hs Hep] Hd He. pose proof (decay_ratio_mag (elapsed_secs - decay_secs) decay_secs ltac:(lia) Hd) as Hr.
  unfold decay_stats. set (ratio := f64_min _ _) in *. split; [| |done].
  - unfold counts_ok, counts in *. rewrite !Forall_cons in *. destruct Hc as (? & ? & ? & ? & ? & ? & ? & ? & ? & _).
    cbn -[f64_to_u Z.pow]. do 9 (split; [assumption || by apply f64_to_u_range|]). constructor.
  - cbn. pose proof (score_mag _ Hs) as Hm. apply score_new_ok.
    + apply f64_add_number; [by eapply mag_finite|]. eapply mag_finite, (f64_mul_mag 12 1); [|by vm_compute|lia].
      apply (f64_mul_mag 10 1); [|done|lia]. apply (f64_sub_mag 8); [by vm_compute|by apply (mag_weaken 7)|lia].
    + apply f64_add_canonical; [apply Hs|apply f64_mul_canonical].
Qed.

(** ** What is stored is what is tracked *)

Lemma storage_key_inj i j : storage_key i = storage_key j -> i = j.
Proof. unfold storage_key. intros H. by apply app_inv_head, str_bytes_inj in H. Qed.

Lemma storage_key_prefix k : starts_with STORAGE_PREFIX k = true <-> exists i, k = storage_key i.
Proof.
  split; [|intros (i & ->); apply starts_with_app]. intros (r & ->)%starts_with_spec. exists (of_bytes r).
  unfold storage_key. by rewrite str_bytes_of_bytes.
Qed.

Section Laws.
Context {B : Type} {SB : StorageBackend B} {LB : LawfulBackend B} {CS : Codec PeerAbuseStats} {BM : Build} {HI : HashIter string PeerAbuseStats}.

(** What [value] says of a peer: all but the monotonic time, and a score that is still one
    (the decimal form of a double is not always read back exactly). *)
Definition stored (s : PeerAbuseStats) (value : bytes) : Prop :=
  exists r, score_ok r /\ dec value = Some (set_times s (last_signal_epoch_secs s) None r).

(** What [serde_json] promises. *)
Class StatsCodec : Prop :=
  stats_written : forall s, score_ok (reputation_score s) -> exists value, enc s = Some value /\ stored s value.

Context {LC : StatsCodec}.
Implicit Types (m : AbuseReputationManager B) (P : gmap string PeerAbuseStats).

Definition mirrored (P : gmap string PeerAbuseStats) (m : AbuseReputationManager B) : Prop :=
  match rm_storage m with
  | Some b => forall id, option_Forall2 stored (P !! id) (be_view b !! storage_key id)
  | None => True
  end.

Record reputation_ok (m : AbuseReputationManager B) : Prop := {
  ok_peers : map_Forall (fun id s => stats_ok s /\ pa_peer_id s = id) (rm_peers m);
  ok_bound : Z.of_nat (size (rm_peers m)) <= Z.max 1 (rm_max_tracked_peers m);
  ok_ttl : rm_decay_ttl m = 7 * 24 * 3600;
  ok_mirrored : mirrored (rm_peers m) m;
}.

(** A run that leaves everything but the storage. *)
Definition same_memory m m' : Prop :=
  rm_peers m' = rm_peers m /\ rm_max_tracked_peers m' = rm_max_tracked_peers m /\ rm_decay_ttl m' = rm_decay_ttl m /\
  (is_Some (rm_storage m') <-> is_Some (rm_storage m)).

Lemma wp_persist id s (Q : unit -> AbuseReputationManager B -> Prop) E m :
  score_ok (reputation_score s) ->
  (forall m', same_memory m m' -> (forall P, mirrored P m -> mirrored (<[id := s]> P) m') -> Q tt m') ->
  wp (persist_peer id s) Q E m.
Proof.
  intros Hs HQ. unfold persist_peer. destruct (stats_written s Hs) as (v & -> & Hv). wp_steps. unfold wp, on_storage.
  destruct (rm_storage m) as [b|] eqn:Hb.
  - destruct (be_put_law b (storage_key id) v) as (b' & -> & Hview). apply HQ; [by split_and!; cbn|].
    intros P HP id'. cbn. rewrite Hview. unfold mirrored in HP. rewrite Hb in HP. destruct (decide (id' = id)) as [ -> |].
    + rewrite !lookup_insert_eq. by constructor.
    + rewrite !lookup_insert_ne by (done || by intros ?%storage_key_inj). apply HP.
  - apply HQ; [done|]. intros P _. unfold mirrored. by rewrite Hb.
Qed.

Lemma wp_unstore id (Q : unit -> AbuseReputationManager B -> Prop) E m :
  (forall m', same_memory m m' -> (forall P, mirrored P m -> mirrored (delete id P) m') -> Q tt m') ->
  wp (remove_peer_from_storage id) Q E m.
Proof.
  intros HQ. unfold remove_peer_from_storage. wp_steps. unfold wp, on_storage. destruct (rm_storage m) as [b|] eqn:Hb.
  - destruct (be_remove_law b (storage_key id)) as (b' & -> & Hview). apply HQ; [by split_and!; cbn|].
    intros P HP id'. cbn. rewrite Hview. unfold mirrored in HP. rewrite Hb in HP. destruct (decide (id' = id)) as [ -> |].
    + rewrite !lookup_delete_eq. constructor.
    + rewrite !lookup_delete_ne by (done || by intros ?%storage_key_inj). apply HP.
  - apply HQ; [done|]. intros P _. unfold mirrored. by rewrite Hb.
Qed.

(** *** Eviction and signals *)

(** The peer that a full table gives up has the lowest whole score. *)
Definition evicted (P P' : gmap string PeerAbuseStats) : Prop :=
  exists id s, P !! id = Some s /\ P' = delete id P /\ forall id' s', P !! id' = Some s' -> rank s <= rank s'.

Definition ranked (a b : string * PeerAbuseStats) : Prop := rank a.2 <= rank b.2.

#[local] Instance ranked_refl : Reflexive ranked.
Proof. intros a. unfold ranked. lia. Qed.
#[local] Instance ranked_trans : Transitive ranked.
Proof. intros a b c. unfold ranked. lia. Qed.

Lemma lowest_ranked l a : min_by (fun a b => rank a.2 ?= rank b.2) l = Some a -> a ∈ l /\ Forall (ranked a) l.
Proof.
  apply min_by_minimum; [apply _..|]. intros x y _ _. unfold ranked. destruct (Z.compare_spec (rank x.2) (rank y.2)); split; (done || lia).
Qed.

Lemma wp_evict (Q : unit -> AbuseReputationManager B -> Prop) E m :
  rm_peers m <> ∅ -> mirrored (rm_peers m) m ->
  (forall m', evicted (rm_peers m) (rm_peers m') -> rm_max_tracked_peers m' = rm_max_tracked_peers m ->
     rm_decay_ttl m' = rm_decay_ttl m -> mirrored (rm_peers m') m' -> Q tt m') ->
  wp evict_lowest Q E m.
Proof.
  intros Hne Hm HQ. unfold evict_lowest. wp_steps. unfold wp at 1, get_peers.
  destruct (min_by _ _) as [[id s]|] eqn:Hmin.
  - apply lowest_ranked in Hmin as [Hin Hall].
    apply elem_of_hm_iter in Hin. wp_steps. apply wp_unstore. intros m1 (Hp & Hx & Ht & _) Hmir. unfold wp, set_peers. apply HQ; cbn; [|done|done|by apply Hmir].
    exists id, s. split_and!; [done|done|]. intros id' s' H'. rewrite Forall_forall in Hall. by apply (Hall (id', s')), elem_of_hm_iter.
  - apply min_by_None in Hmin. destruct Hne. by rewrite <-map_size_empty_iff, <-length_hm_iter, Hmin.
Qed.

(** The table that a signal for [id] starts from. *)
Definition admitted m id (P : gmap string PeerAbuseStats) : Prop :=
  if bool_decide (rm_peers m !! id = None /\ rm_max_tracked_peers m <= Z.of_nat (size (rm_peers m)) /\ rm_peers m <> ∅)
  then evicted (rm_peers m) P else P = rm_peers m.

Definition room (s : PeerAbuseStats) : Prop := Forall (fun n => n < 2 ^ 32 - 1) (counts s).

Lemma count_signal_room s signal : counts_ok s -> room s -> exists s', count_signal s signal = Ok s'.
Proof.
  unfold counts_ok, room, counts. rewrite !Forall_cons. destruct s; cbn. intros Hc Hr.
  destruct signal; cbn; rewrite chk_u_ok by (unfold in_u; lia); by eexists.
Qed.

Lemma evicted_facts P P' id :
  evicted P P' -> P !! id = None -> P' !! id = None /\ size P' = pred (size P) /\ P' ⊆ P.
Proof.
  intros (i & s & Hi & -> & _) Hid. rewrite map_size_delete_Some by eauto. split_and!; [|done|apply delete_subseteq].
  apply lookup_delete_None. by right.
Qed.

Lemma wp_count secs instant id signal (Q : f64 -> AbuseReputationManager B -> Prop) E m :
  0 <= secs -> map_Forall (fun id s => stats_ok s /\ pa_peer_id s = id) (rm_peers m) -> (forall s, rm_peers m !! id = Some s -> room s) ->
  mirrored (rm_peers m) m -> rm_decay_ttl m = 7 * 24 * 3600 ->
  (forall s, Z.of_nat (size (<[id := s]> (rm_peers m))) <= Z.max 1 (rm_max_tracked_peers m)) ->
  (forall s m', stats_record_signal secs instant (default (stats_new instant id) (rm_peers m !! id)) signal = Ok s ->
     rm_peers m' = <[id := s]> (rm_peers m) -> reputation_ok m' -> Q (reputation_score s) m') ->
  wp (count_and_persist secs instant id signal) Q E m.
Proof.
  intros Hsecs Hp Hroom Hm Ht Hsize HQ. unfold count_and_persist. set (entry := default (stats_new instant id) (rm_peers m !! id)) in *.
  assert (counts_ok entry /\ room entry /\ pa_peer_id entry = id) as (Hc & Hr & Hid).
  { unfold entry. destruct (rm_peers m !! id) as [s|] eqn:Hs; cbn; [destruct (Hp id s Hs) as [[? _ _] ?]; auto|]. by split_and!; repeat constructor. }
  destruct (count_signal_room entry signal Hc Hr) as [s0 Hs0].
  assert (exists s, stats_record_signal secs instant entry signal = Ok s) as [s Hs] by (unfold stats_record_signal; rewrite Hs0; by eexists).
  destruct (record_signal_ok _ _ _ _ _ Hsecs Hc Hs) as [Hok Hsid].
  wp_steps. unfold wp at 1, get_peers. wp_steps. unfold wp at 1, set_peers. fold entry. wp_steps. rewrite Hs. wp_steps. unfold wp at 1, set_peers.
  wp_steps. apply wp_persist; [apply Hok|]. intros m2 (Hp2 & Hx2 & Ht2 & _) Hmir2. cbn in *. wp_steps. apply HQ; [done|done|].
  split; rewrite ?Hp2, ?Hx2, ?Ht2; try done.
  - apply map_Forall_insert_2; [by rewrite Hsid, Hid|done].
  - by apply Hmir2.
Qed.

(** The effect of [record_signal] on a table that it found in order. *)
Lemma wp_record secs instant id signal (Q : f64 -> AbuseReputationManager B -> Prop) E m :
  0 <= secs -> reputation_ok m -> (forall s, rm_peers m !! id = Some s -> room s) ->
  (forall P s m', admitted m id P -> stats_record_signal secs instant (default (stats_new instant id) (rm_peers m !! id)) signal = Ok s ->
     rm_peers m' = <[id := s]> P -> reputation_ok m' -> Q (reputation_score s) m') ->
  wp (record_signal secs instant id signal) Q E m.
Proof.
  intros Hsecs [Hp Hb Ht Hm] Hroom HQ. unfold record_signal, wp. set (full := _ && _).
  change (wp (let* _ := if full then evict_lowest else ret tt in count_and_persist secs instant id signal) Q E m).
  wp_steps. destruct (decide (rm_peers m !! id = None /\ rm_max_tracked_peers m <= Z.of_nat (size (rm_peers m)) /\ rm_peers m <> ∅)) as [Hfull|Hroomy].
  - assert (full = true) as -> by (unfold full; apply andb_true_iff; rewrite bool_decide_eq_true; split; [tauto|lia]).
    destruct Hfull as (Hnone & Hfull & Hne). apply wp_evict; [done|done|]. intros m1 Hev Hx1 Ht1 Hm1.
    destruct (evicted_facts _ _ id Hev Hnone) as (Hn1 & Hsz & Hsub). apply wp_count; [done| |by rewrite Hn1|done|congruence|..].
    + intros i s Hi. apply Hp. by eapply lookup_weaken.
    + intros s. rewrite map_size_insert_None, Hx1 by done. apply map_size_non_empty_iff in Hne. lia.
    + intros s m' Hs Hp' Hok'. eapply HQ; [|by rewrite Hnone, Hn1 in *|done|done]. unfold admitted. by rewrite bool_decide_eq_true_2.
  - assert (wp (if full then evict_lowest else ret tt) (fun _ => wp (count_and_persist secs instant id signal) Q E) E m) as Hrest; [|done].
    assert (wp (count_and_persist secs instant id signal) Q E m) as Hcount.
    { apply wp_count; [done|done|done|done|done| |].
      - intros s. destruct (rm_peers m !! id) as [s'|] eqn:Hs'; [rewrite map_size_insert_Some by eauto; lia|].
        rewrite map_size_insert_None by done. destruct (decide (rm_peers m = ∅)) as [He|]; [rewrite He, map_size_empty; lia|].
        destruct (decide (rm_max_tracked_peers m <= Z.of_nat (size (rm_peers m)))); [by destruct Hroomy|lia].
      - intros s m' Hs Hp' Hok'. eapply HQ; [|done|done|done]. unfold admitted. by rewrite bool_decide_eq_false_2. }
    destruct full eqn:Hf; [|done]. unfold full in Hf. apply andb_true_iff in Hf as [H1%bool_decide_eq_true H2%Z.leb_le].
    assert (rm_peers m = ∅) as He by (apply dec_stable; naive_solver).
    assert (hm_iter (rm_peers m) = []) as Hnil by (apply nil_length_inv; by rewrite length_hm_iter, He, map_size_empty).
    unfold evict_lowest. wp_steps. unfold wp at 1, get_peers. by rewrite Hnil.
Qed.

(** *** Decay and pruning *)

Lemma decayed_ok now s : 0 <= now < 2 ^ 64 -> stats_ok s -> stats_ok (decayed now (7 * 24 * 3600) s).
Proof.
  intros Hn Hs. unfold decayed, decays. destruct (last_signal_epoch_secs s) as [t|] eqn:Ht; [|done]. apply ok_epoch in Ht; [|done].
  destruct (Z.ltb_spec (7 * 24 * 3600) (sat_sub now t)) as [Hlt|]; [|done]. apply decay_stats_ok; [done|lia|]. unfold sat_sub in *. lia.
Qed.

(** The storage agrees with the table [N] but for the peers that are left in [l]. *)
Definition synced (N : gmap string PeerAbuseStats) (l : list string) m : Prop :=
  exists P, mirrored P m /\ forall id, id ∉ l -> P !! id = N !! id.

Lemma synced_nil N m : synced N [] m -> mirrored N m.
Proof. intros (P & HP & Heq). replace N with P; [done|]. apply map_eq. intros id. apply Heq, not_elem_of_nil. Qed.

Lemma synced_persist N x s l m m' :
  N !! x = Some s -> synced N (x :: l) m -> (forall P, mirrored P m -> mirrored (<[x := s]> P) m') -> synced N l m'.
Proof.
  intros Hx (P & HP & Heq) Hstep. exists (<[x := s]> P). split; [by apply Hstep|]. intros id Hid.
  destruct (decide (id = x)) as [ -> |]; [by rewrite lookup_insert_eq|]. rewrite lookup_insert_ne by done. apply Heq. set_solver.
Qed.

Lemma synced_unstore N x l m m' :
  N !! x = None -> synced N (x :: l) m -> (forall P, mirrored P m -> mirrored (delete x P) m') -> synced N l m'.
Proof.
  intros Hx (P & HP & Heq) Hstep. exists (delete x P). split; [by apply Hstep|]. intros id Hid.
  destruct (decide (id = x)) as [ -> |]; [by rewrite lookup_delete_eq|]. rewrite lookup_delete_ne by done. apply Heq. set_solver.
Qed.

Lemma wp_persist_all N l (Q : unit -> AbuseReputationManager B -> Prop) E m :
  map_Forall (fun _ s => stats_ok s) N -> Forall (fun x => is_Some (N !! x)) l -> synced N l m ->
  (forall m', same_memory m m' -> mirrored N m' -> Q tt m') ->
  wp (mfold (fun _ id => match N !! id with Some stats => persist_peer id stats | None => ret tt end) tt l) Q E m.
Proof.
  intros HN Hl Hs HQ. eapply wp_mono; [apply (wp_mfold _ (fun _ l w => Forall (fun x => is_Some (N !! x)) l /\ synced N l w /\ same_memory m w)
    (fun _ _ => False)); [done|]|..].
  - intros _ x l' w (Hx & Hsy & Hsame). apply Forall_cons in Hx as [[s Hx] Hl']. rewrite Hx. apply wp_persist; [apply (HN x s Hx)|].
    intros w' Hsame' Hmir. split_and!; [done|by eapply synced_persist|]. unfold same_memory in *. naive_solver congruence.
  - intros [] w (_ & Hsy & Hsame). apply HQ; [done|by apply synced_nil].
  - done.
Qed.

Lemma wp_unstore_all N l (Q : unit -> AbuseReputationManager B -> Prop) E m :
  Forall (fun x => N !! x = None) l -> synced N l m ->
  (forall m', same_memory m m' -> mirrored N m' -> Q tt m') ->
  wp (mfold (fun _ id => remove_peer_from_storage id) tt l) Q E m.
Proof.
  intros Hl Hs HQ. eapply wp_mono; [apply (wp_mfold _ (fun _ l w => Forall (fun x => N !! x = None) l /\ synced N l w /\ same_memory m w)
    (fun _ _ => False)); [done|]|..].
  - intros _ x l' w (Hx & Hsy & Hsame). apply Forall_cons in Hx as [Hx Hl']. apply wp_unstore.
    intros w' Hsame' Hmir. split_and!; [done|by eapply synced_unstore|]. unfold same_memory in *. naive_solver congruence.
  - intros [] w (_ & Hsy & Hsame). apply HQ; [done|by apply synced_nil].
  - done.
Qed.

Lemma decayed_id now ttl s : ~ is_Some (decays now ttl s) -> decayed now ttl s = s.
Proof. unfold decayed. by intros ->%eq_None_not_Some. Qed.

Lemma wp_decay now E m :
  0 <= now < 2 ^ 64 -> reputation_ok m ->
  wp (apply_decay now) (fun _ m' => reputation_ok m' /\ rm_peers m' = decayed now (7 * 24 * 3600) <$> rm_peers m) E m.
Proof.
  intros Hnow [Hp Hb Ht Hm]. unfold apply_decay, wp. rewrite Ht. set (N := _ <$> rm_peers m). set (l := (filter _ _).*1).
  match goal with |- context [bind ?a ?b m] => change (wp (bind a b) (fun _ m' => reputation_ok m' /\ rm_peers m' = N) E m) end.
  assert (map_Forall (fun id s => stats_ok s /\ pa_peer_id s = id) N) as HN.
  { intros id s (s0 & <- & H0)%lookup_fmap_Some. destruct (Hp id s0 H0) as [? <-]. split; [by apply decayed_ok|].
    unfold decayed. by destruct (decays _ _ _). }
  wp_steps. unfold wp at 1, set_peers. apply wp_persist_all.
  - intros id s Hs. by apply (HN id s).
  - apply Forall_fmap, Forall_forall. intros [id s] [_ Hin]%list_elem_of_filter. apply elem_of_hm_iter in Hin. unfold N. cbn.
    rewrite lookup_fmap, Hin. by eexists.
  - exists (rm_peers m). split; [done|]. intros id Hid. unfold N. rewrite lookup_fmap. destruct (rm_peers m !! id) as [s|] eqn:Hs; [|done].
    cbn. f_equal. symmetry. apply decayed_id. intros Hd. apply Hid. apply list_elem_of_fmap. exists (id, s). split; [done|].
    apply list_elem_of_filter. split; [done|by apply elem_of_hm_iter].
  - cbn. intros m' (Hp' & Hx' & Ht' & _) Hm'. split; [|done]. cbn in *. split; rewrite ?Hp', ?Hx', ?Ht'; try done.
    unfold N. by rewrite map_size_fmap.
Qed.

Lemma wp_prune now max_age E m :
  reputation_ok m ->
  wp (prune_stale now max_age) (fun n m' => reputation_ok m' /\ rm_peers m' = filter (fun ks => fresh now max_age ks.2 = true) (rm_peers m) /\
    n = Z.of_nat (size (rm_peers m)) - Z.of_nat (size (rm_peers m'))) E m.
Proof.
  intros [Hp Hb Ht Hm]. unfold prune_stale, wp. set (N := filter _ (rm_peers m)). set (l := (filter _ (hm_iter _)).*1).
  match goal with |- context [bind ?a ?b m] => change (wp (bind a b) (fun n m' => reputation_ok m' /\ rm_peers m' = N /\
    n = Z.of_nat (size (rm_peers m)) - Z.of_nat (size (rm_peers m'))) E m) end.
  wp_steps. unfold wp at 1, set_peers. wp_steps. apply (wp_unstore_all N).
  - apply Forall_fmap, Forall_forall. intros [id s] [Hf Hin]%list_elem_of_filter. apply elem_of_hm_iter in Hin. cbn in *.
    apply map_lookup_filter_None. right. intros s' Hs' Hf'. cbn in Hf'. congruence.
  - exists (rm_peers m). split; [done|]. intros id Hid. unfold N. symmetry. destruct (rm_peers m !! id) as [s|] eqn:Hs.
    + apply map_lookup_filter_Some. split; [done|]. cbn. destruct (fresh now max_age s) eqn:Hf; [done|]. destruct Hid.
      apply list_elem_of_fmap. exists (id, s). split; [done|]. apply list_elem_of_filter. split; [done|by apply elem_of_hm_iter].
    + apply map_lookup_filter_None. by left.
  - cbn. intros m' (Hp' & Hx' & Ht' & _) Hm'. cbn in *. wp_steps. unfold wp, get_peers, ret. split_and!; [|done|done]. split; rewrite ?Hp', ?Hx', ?Ht'; try done.
    + intros id s [Hs _]%map_lookup_filter_Some. by apply Hp.
    + assert (size N <= size (rm_peers m))%nat; [|lia]. apply map_subseteq_size, map_filter_subseteq.
Qed.

Lemma wp_flush E m : reputation_ok m -> wp flush_to_storage (fun _ m' => reputation_ok m' /\ rm_peers m' = rm_peers m) E m.
Proof.
  intros [Hp Hb Ht Hm]. unfold flush_to_storage, wp. destruct (rm_storage m) as [b|] eqn:Hst; [|done].
  match goal with |- context [bind ?a ?b m] => change (wp (bind a b) (fun _ m' => reputation_ok m' /\ rm_peers m' = rm_peers m) E m) end.
  wp_steps. eapply wp_mono; [apply (wp_mfold _ (fun _ l w => Forall (fun ks => rm_peers m !! ks.1 = Some ks.2) l /\ mirrored (rm_peers m) w /\ same_memory m w)
    (fun _ _ => False))|..]; [|intros _ [id s] l w (Hl & Hmir & Hsame)|intros [] w (_ & Hmir & Hp' & Hx' & Ht' & Hs'); cbn|done].
  - split_and!; [|done|done]. apply Forall_forall. intros [id s]. cbn. by rewrite elem_of_hm_iter.
  - apply Forall_cons in Hl as [Hid Hl]. cbn in *. apply wp_persist; [apply (Hp id s Hid)|]. intros w' Hsame' Hmir'. split_and!; [done| |].
    + rewrite <-(insert_id (rm_peers m) id s) by done. by apply Hmir'.
    + unfold same_memory in *. naive_solver congruence.
  - wp_steps. unfold wp, on_storage. destruct (rm_storage w) as [b'|] eqn:Hw; [|by destruct Hs' as [_ [? ?]]; [eexists|]].
    destruct (be_flush_law b') as (b2 & -> & Hview). cbn. unfold mirrored in Hmir. rewrite Hw in Hmir.
    split; [|done]. split; cbn; rewrite ?Hp', ?Hx', ?Ht'; try done. unfold mirrored. cbn. by rewrite Hview.
Qed.

(** *** Restarts *)

(** What a peer is after a restart: its counters, the time of its last signal, and a score. *)
Definition reloaded (instant : Z) (s s' : PeerAbuseStats) : Prop :=
  exists r, score_ok r /\ s' = set_times s (last_signal_epoch_secs s) ((fun _ => instant) <$> last_signal_epoch_secs s) r.

Lemma reloaded_ok instant s s' : reloaded instant s s' -> stats_ok s -> stats_ok s' /\ pa_peer_id s' = pa_peer_id s.
Proof. by intros (r & Hr & ->) [Hc Hs He]. Qed.

(** The entries of a scan: one key for each peer of [P], with its stored form. *)
Definition scanned P (kv : bytes * bytes) : Prop :=
  exists id s, kv.1 = storage_key id /\ P !! id = Some s /\ pa_peer_id s = id /\ stored s kv.2.

Lemma load_scanned instant P l acc id :
  NoDup l.*1 -> Forall (scanned P) l ->
  let peers := foldl (load_entry instant) acc l.*2 in
  (storage_key id ∈ l.*1 -> exists s s', P !! id = Some s /\ peers !! id = Some s' /\ reloaded instant s s') /\
  (storage_key id ∉ l.*1 -> peers !! id = acc !! id).
Proof.
  revert acc. induction l as [|[k v] l IH]; intros acc Hnd Hall; cbn; [set_solver|].
  apply NoDup_cons in Hnd as [Hk Hnd]. apply Forall_cons in Hall as [(i & s & Hi & Hs & Hid & (r & Hr & Hv)) Hall]. cbn in Hi, Hv, Hk. subst k.
  destruct (IH (load_entry instant acc v) Hnd Hall) as [IH1 IH2]. set (peers := foldl _ _ _) in *. clearbody peers.
  assert (load_entry instant acc v = <[i := set_times s (last_signal_epoch_secs s) ((fun _ => instant) <$> last_signal_epoch_secs s) r]> acc) as Hload.
  { unfold load_entry. rewrite Hv. cbn. by rewrite Hid. }
  rewrite Hload in IH2. split; rewrite elem_of_cons.
  - intros [ ->%storage_key_inj |Hin]; [|by apply IH1]. rewrite IH2, lookup_insert_eq by done. eexists s, _. split_and!; [done|done|by exists r].
  - intros Hn. rewrite IH2 by tauto. apply lookup_insert_ne. intros <-. tauto.
Qed.

Lemma scan_mirrored b P :
  (forall id, option_Forall2 stored (P !! id) (be_view b !! storage_key id)) -> map_Forall (fun id s => pa_peer_id s = id) P ->
  exists l, be_scan_prefix b STORAGE_PREFIX = Ok l /\ NoDup l.*1 /\ Forall (scanned P) l /\
    forall id, is_Some (P !! id) <-> storage_key id ∈ l.*1.
Proof.
  intros Hm Hid. destruct (be_scan_law b STORAGE_PREFIX) as (l & Hl & Hperm). exists l. split; [done|].
  assert (forall k v, (k, v) ∈ l <-> starts_with STORAGE_PREFIX k = true /\ be_view b !! k = Some v) as Hin.
  { intros k v. rewrite Hperm, list_elem_of_filter, elem_of_map_to_list. cbn. by rewrite Is_true_true. }
  split_and!.
  - rewrite Hperm. eapply sublist_NoDup; [apply (NoDup_fst_map_to_list (be_view b))|]. apply fmap_sublist, sublist_filter.
  - apply Forall_forall. intros [k v] [(id & ->)%storage_key_prefix Hv]%Hin. specialize (Hm id). rewrite Hv in Hm. inversion Hm as [s v' Hs Heq|]; subst.
    exists id, s. split_and!; [done|done|by apply Hid|done].
  - intros id. rewrite list_elem_of_fmap. split.
    + intros [s Hs]. specialize (Hm id). rewrite Hs in Hm. inversion Hm as [s' v Hv Heq Heq'|]; subst. exists (storage_key id, v).
      split; [done|]. apply Hin. split; [apply storage_key_prefix; by eexists|done].
    + intros ([k v] & Hk & [_ Hv]%Hin). cbn [fst] in Hk. subst k. specialize (Hm id). rewrite Hv in Hm. inversion Hm as [s v' Hs Heq|]; subst. by eexists.
Qed.

(** A restart from the storage of a manager in order. *)
Lemma restart_reloads instant b m :
  reputation_ok m -> rm_storage m = Some b -> Z.of_nat (size (rm_peers m)) <= rm_max_tracked_peers m ->
  exists m', with_backend instant (rm_max_tracked_peers m) b = (Ok tt, m') /\ reputation_ok m' /\
    forall id, option_Forall2 (reloaded instant) (rm_peers m !! id) (rm_peers m' !! id).
Proof.
  intros [Hp Hb Ht Hm] Hst Hsize. unfold mirrored in Hm. rewrite Hst in Hm.
  destruct (scan_mirrored b (rm_peers m) Hm) as (l & Hl & Hnd & Hall & Hdom); [intros id s Hs; by apply Hp|].
  set (peers := foldl (load_entry instant) ∅ l.*2).
  assert (forall id, option_Forall2 (reloaded instant) (rm_peers m !! id) (peers !! id)) as Hrel.
  { intros id. destruct (load_scanned instant (rm_peers m) l ∅ id Hnd Hall) as [Hin Hout]. fold peers in Hin, Hout.
    destruct (rm_peers m !! id) as [s|] eqn:Hs.
    - destruct Hin as (s0 & s' & H0 & -> & Hr); [apply Hdom; by eexists|]. simplify_eq. by constructor.
    - rewrite Hout, lookup_empty; [constructor|]. rewrite <-Hdom, Hs. by intros [? ?]. }
  assert (size peers = size (rm_peers m)) as Hsz.
  { rewrite <-!size_dom. f_equal. apply set_eq. intros id. rewrite !elem_of_dom. specialize (Hrel id). inversion Hrel; split; intros [? ?]; (done || by eexists). }
  eexists. unfold with_backend, load_from_storage. cbn [rm_storage rm_peers rm_max_tracked_peers]. rewrite Hl. unfold enforce_capacity. fold peers.
  rewrite (proj2 (Z.ltb_ge _ _)) by lia. split_and!; [done| |done]. split; cbn [rm_peers rm_max_tracked_peers]; [|lia|done|].
  - intros id s' Hs'. specialize (Hrel id). rewrite Hs' in Hrel. inversion Hrel as [s s'' Hr Heq|]; subst. symmetry in Heq.
    destruct (Hp id s Heq) as [Hok <-]. by eapply reloaded_ok.
  - unfold mirrored. cbn [rm_storage]. intros id. specialize (Hm id). specialize (Hrel id).
    destruct (be_view b !! storage_key id) as [v|], (peers !! id) as [s'|], (rm_peers m !! id) as [s|]; try (by inversion Hm); try (by inversion Hrel).
    inversion_clear Hm as [? ? (r' & Hr' & Hv)|]. inversion_clear Hrel as [? ? (r & Hr & ->)|]. constructor. by exists r'.
Qed.

(** ** Properties *)

(** What can happen to a manager: a signal that no counter overflows on, decay, pruning, a flush
    and a restart from its storage. *)
Inductive rep_step m : AbuseReputationManager B -> Prop :=
  | step_signal secs instant id signal score m' :
      0 <= secs -> (forall s, rm_peers m !! id = Some s -> room s) -> record_signal secs instant id signal m = (Ok score, m') -> rep_step m m'
  | step_decay now m' : 0 <= now < 2 ^ 64 -> apply_decay now m = (Ok tt, m') -> rep_step m m'
  | step_prune now max_age n m' : prune_stale now max_age m = (Ok n, m') -> rep_step m m'
  | step_flush m' : flush_to_storage m = (Ok tt, m') -> rep_step m m'
  | step_restart instant b m' :
      1 <= rm_max_tracked_peers m -> rm_storage m = Some b -> with_backend instant (rm_max_tracked_peers m) b = (Ok tt, m') -> rep_step m m'.

Lemma rep_step_ok m m' : reputation_ok m -> rep_step m m' -> reputation_ok m'.
Proof.
  intros Hok [secs instant id signal score m1 Hsecs Hroom Hrun|now m1 Hn Hrun|now max_age n m1 Hrun|m1 Hrun|instant b m1 Hmax Hst Hrun].
  - eapply (wp_ok_inv _ (fun _ => reputation_ok) (fun _ _ => False)); [|exact Hrun]. apply wp_record; [done..|]. by intros ? ? ? _ _ _ ?.
  - eapply (wp_ok_inv _ _ (fun _ _ => False)) in Hrun; [|by apply wp_decay]. apply Hrun.
  - eapply (wp_ok_inv _ _ (fun _ _ => False)) in Hrun; [|by apply wp_prune]. apply Hrun.
  - eapply (wp_ok_inv _ _ (fun _ _ => False)) in Hrun; [|by apply wp_flush]. apply Hrun.
  - destruct (restart_reloads instant b m Hok Hst) as (m2' & Hrun' & Hok' & _); [destruct Hok; lia|]. congruence.
Qed.

(** C36: in every state that a manager reaches, each score is a number from 0 to 100, the
    table holds at most its limit (of at least one), and the storage holds exactly the tracked
    peers. *)
Theorem reputation_invariant m m' : reputation_ok m -> rtc rep_step m m' -> reputation_ok m'.
Proof. intros Hok Hr. induction Hr as [|m m1 m2 Hs _ IH]; eauto using rep_step_ok. Qed.

(** A signal is counted for its peer and answered with the new score; the other peers
    keep their records, but for one with the lowest whole score that a full table gives up for a
    new peer. *)
Theorem signal_counted secs instant id signal m :
  0 <= secs -> reputation_ok m -> (forall s, rm_peers m !! id = Some s -> room s) ->
  exists P s m', record_signal secs instant id signal m = (Ok (reputation_score s), m') /\ admitted m id P /\
    stats_record_signal secs instant (default (stats_new instant id) (rm_peers m !! id)) signal = Ok s /\
    rm_peers m' = <[id := s]> P /\ get_score m' id = reputation_score s /\ score_ok (reputation_score s).
Proof.
  intros Hsecs Hok Hroom. destruct (wp_run (record_signal secs instant id signal) (fun score m' => exists P s, score = reputation_score s /\ admitted m id P /\
    stats_record_signal secs instant (default (stats_new instant id) (rm_peers m !! id)) signal = Ok s /\ rm_peers m' = <[id := s]> P /\ reputation_ok m') m)
    as (score & m' & Hrun & P & s & -> & HP & Hs & Hp & Hok').
  { apply wp_record; [done..|]. intros P s m' HP Hs Hp Hok'. by exists P, s. }
  exists P, s, m'. unfold get_score. rewrite Hp, lookup_insert_eq. split_and!; try done.
  destruct (ok_peers m' Hok' id s) as [[_ Hsc _] _]; [by rewrite Hp, lookup_insert_eq|done].
Qed.

(** When a full table is signalled a new peer, the peer that scored below all others is
    forgotten: it is neutral again and has the rate limit of an unknown peer. *)
Theorem worst_peer_forgotten secs instant id signal worst s m :
  0 <= secs -> reputation_ok m -> rm_peers m !! id = None -> rm_max_tracked_peers m <= Z.of_nat (size (rm_peers m)) ->
  rm_peers m !! worst = Some s -> (forall id' s', rm_peers m !! id' = Some s' -> id' <> worst -> rank s < rank s') ->
  exists score m', record_signal secs instant id signal m = (Ok score, m') /\
    get_score m' worst = NEUTRAL /\ rate_limit_multiplier m' worst = f64_of 1.
Proof.
  intros Hsecs Hok Hnew Hfull Hw Hlow.
  destruct (wp_run (record_signal secs instant id signal) (fun _ m' => rm_peers m' !! worst = None) m) as (score & m' & Hrun & Hgone).
  { apply wp_record; [done|done|by rewrite Hnew|]. intros P s1 m' HP _ -> _. unfold admitted in HP.
    rewrite bool_decide_eq_true_2 in HP by (split_and!; [done..|intros He; by rewrite He in Hw]).
    destruct HP as (i & si & Hi & -> & Hmin). rewrite lookup_insert_ne by congruence.
    destruct (decide (i = worst)) as [ -> |Hne]; [apply lookup_delete_eq|]. specialize (Hlow i si Hi Hne). specialize (Hmin worst s Hw). lia. }
  exists score, m'. unfold get_score, rate_limit_multiplier. by rewrite Hgone.
Qed.

(** After a restart each tracked peer has its counters and the time of its last
    signal back, with a score from 0 to 100, and no other peer is tracked. *)
Theorem reputation_survives_restart instant b m :
  reputation_ok m -> rm_storage m = Some b -> 1 <= rm_max_tracked_peers m ->
  exists m', with_backend instant (rm_max_tracked_peers m) b = (Ok tt, m') /\
    forall id, option_Forall2 (reloaded instant) (rm_peers m !! id) (rm_peers m' !! id).
Proof.
  intros Hok Hst Hmax. destruct (restart_reloads instant b m Hok Hst) as (m' & ? & _ & ?); [destruct Hok; lia|]. by exists m'.
Qed.

End Laws.

(** One delivery makes an unknown peer trusted and one exceeded rate limit makes it
    abusive, with a tenth of the rate limit of an unknown peer. *)
Theorem one_signal_decides `{Build} secs instant id :
  (exists s, stats_record_signal secs instant (stats_new instant id) SuccessfulDelivery = Ok s /\
     is_trusted (reputation_score s) = true /\ stats_rate_limit_multiplier s = lit 3 2) /\
  (exists s, stats_record_signal secs instant (stats_new instant id) RateLimited = Ok s /\
     is_abusive (reputation_score s) = true /\ stats_rate_limit_multiplier s = lit 1 10).
Proof. split; eexists; (split; [reflexivity|]); split; vm_compute; reflexivity. Qed.

(** ** Concrete inputs *)

Module ReputationExamples.

#[local] Instance ex_eq : EqDecision spec_float.
Proof. solve_decision. Defined.

#[local] Instance ex_float : Countable spec_float.
Proof.
  apply (inj_countable' (fun x => match x with
    | S754_zero s => inl (inl s) | S754_infinity s => inl (inr s) | S754_nan => inr None | S754_finite s m e => inr (Some (s, m, e)) end)
    (fun x => match x with inl (inl s) => S754_zero s | inl (inr s) => S754_infinity s | inr None => S754_nan
      | inr (Some (s, m, e)) => S754_finite s m e end)). by intros [].
Defined.

Definition fields (s : PeerAbuseStats) : string * list Z * option Z * spec_float :=
  (pa_peer_id s, counts s, last_signal_epoch_secs s, reputation_score s).

Definition of_fields (x : string * list Z * option Z * spec_float) : option PeerAbuseStats :=
  match x with
  | (p, [a; b; c; d; e; f; g; h; i], t, r) => Some (mkStats p a b c d e f g h i t None r)
  | _ => None
  end.

#[local] Instance ex_codec : Codec PeerAbuseStats :=
  {| enc s := Some (enc_any (fields s)); dec v := match dec_any v with Ok x => of_fields x | _ => None end |}.

Lemma ex_lawful : StatsCodec.
Proof.
  intros s Hs. exists (enc_any (fields s)). split; [done|]. exists (reputation_score s). split; [done|]. cbn. by rewrite dec_enc_any.
Qed.

#[local] Existing Instance ex_lawful.
#[local] Instance ex_iter : HashIter bytes bytes := canonical_iter.
#[local] Instance ex_iter_p : HashIter string PeerAbuseStats := canonical_iter.
#[local] Instance ex_build : Build := {| overflow_checks := true |}.

(** A manager for two peers over an empty store. *)
Definition START : AbuseReputationManager MemoryStorage := mkReputation ∅ 2 (Some memory_new) (7 * 24 * 3600).

Lemma start_ok : reputation_ok START.
Proof. split; [apply map_Forall_empty|by vm_compute|done|]. intros id. cbn [rm_peers START]. rewrite lookup_empty. cbn. rewrite lookup_empty. constructor. Qed.

Definition after (m : AbuseReputationManager MemoryStorage) (id : string) (signal : AbuseSignal) : AbuseReputationManager MemoryStorage :=
  (record_signal 1000 5 id signal m).2.

Definition ONE := after START "bad" RateLimited.
Definition FULL := after ONE "good" SuccessfulDelivery.

Lemma one_step : rep_step START ONE.
Proof.
  eapply (step_signal START 1000 5 "bad" RateLimited); [done| |vm_compute; reflexivity].
  intros s Hs. vm_compute in Hs. discriminate Hs.
Qed.

Lemma full_step : rep_step ONE FULL.
Proof.
  eapply (step_signal ONE 1000 5 "good" SuccessfulDelivery); [done| |vm_compute; reflexivity].
  intros s Hs. vm_compute in Hs. discriminate Hs.
Qed.

Lemma full_ok : reputation_ok FULL.
Proof. exact (rep_step_ok _ _ (rep_step_ok _ _ start_ok one_step) full_step). Qed.

Lemma reputation_invariant_witness : reputation_ok FULL.
Proof. apply (reputation_invariant START FULL start_ok). eapply rtc_l; [apply one_step|apply rtc_once, full_step]. Defined.

Lemma full_new : rm_peers FULL !! "new"%string = None.
Proof. by vm_compute. Qed.

Lemma signal_counted_witness :
  exists P s m', record_signal 1001 6 "new" FailedRelay FULL = (Ok (reputation_score s), m') /\ admitted FULL "new" P /\
    rm_peers m' = <["new"%string := s]> P.
Proof.
  destruct (signal_counted 1001 6 "new" FailedRelay FULL) as (P & s & m' & ? & ? & _ & ? & _); [lia|apply full_ok|by rewrite full_new|].
  exists P, s, m'. split_and!; assumption.
Defined.

Lemma worst_peer_forgotten_witness :
  is_abusive (get_score FULL "bad") = true /\
  exists score m', record_signal 1001 6 "new" SuccessfulRelay FULL = (Ok score, m') /\ get_score m' "bad" = NEUTRAL.
Proof.
  split; [by vm_compute|]. destruct (rm_peers FULL !! "bad"%string) as [s|] eqn:Hs; [|by vm_compute in Hs].
  destruct (worst_peer_forgotten 1001 6 "new" SuccessfulRelay "bad" s FULL) as (score & m' & ? & ? & _);
    [lia|apply full_ok|apply full_new|by vm_compute|exact Hs| |exists score, m'; split; assumption].
  assert (map_Forall (fun id' s' => id' <> "bad"%string -> rank s < rank s') (rm_peers FULL)) as Hall; [|exact Hall].
  vm_compute in Hs. injection Hs as <-. apply (bool_decide_unpack _). by vm_compute.
Defined.

Lemma reputation_survives_restart_witness :
  exists b m', rm_storage FULL = Some b /\ with_backend 9 2 b = (Ok tt, m') /\ option_Forall2 (reloaded 9) (rm_peers FULL !! "bad"%string) (rm_peers m' !! "bad"%string).
Proof.
  assert (is_Some (rm_storage FULL)) as [b Hb] by by_computation. destruct (reputation_survives_restart 9 b FULL full_ok Hb) as (m' & ? & Hm'); [by vm_compute|].
  exists b, m'. split_and!; [assumption|assumption|apply Hm'].
Defined.

End ReputationExamples.
