(* ===== verification/Spam.v ===== *)
(** * Spam detection ([core/src/abuse/spam_detection.rs])

    The engine that flags a peer as spam from the block list and from what was recorded
    of its messages.  Contacts and blocks are read from the store they share.  The clock is
    the monotonic one; its values are in seconds.  The counters are of type [usize] and count
    messages, which no run sends enough of to overflow them. *)

From Stdlib Require Import SpecFloat.
From S2P Require Import Prelude Backend Effects KvStore Ids Blocked Contacts Floats.

Record SpamDetectionConfig : Type := mkSpamConfig {
  min_contacts_for_detection : Z;
  small_network_spam_threshold : f64;
  large_network_spam_threshold : f64;
  min_spam_threshold : f64;
  max_normal_message_len : Z;
  mass_distribution_repeat_threshold : Z;
  flooding_window_secs : Z;
  flooding_max_in_window : Z;
  cold_contact_threshold : f64;
}.

Definition spam_config_default : SpamDetectionConfig :=
  mkSpamConfig 3 (lit 75 100) (lit 10 100) (lit 10 100) 4096 5 60 30 (lit 8 10).

Inductive SpamSignal : Type := CommunityBlocked | ContentPattern | Flooding | MassDistribution | ColdContactSpam.

#[global] Instance SpamSignal_eq_dec : EqDecision SpamSignal.
Proof. solve_decision. Defined.

Record SpamDetectionResult : Type := mkDetection {
  sr_is_spam : bool;
  sr_confidence : f64;
  sr_total_contacts : Z;
  sr_blocked_by_count : Z;
  sr_block_percentage : f64;
  sr_contributing_signals : list SpamSignal;
}.

Record PeerMessageTrack : Type := mkTrack {
  content_fingerprints : gmap Z Z;
  recent_message_times : list Z;
  cold_contact_sends : Z;
  total_sends : Z;
  signal_accumulator : f64;
}.

Definition track_new : PeerMessageTrack := mkTrack ∅ [] 0 0 f64_zero.

(** [sd_community]: whether the managers of contacts and of blocks are there. *)
Record SpamDetectionEngine : Type := mkSpam {
  sd_config : SpamDetectionConfig;
  sd_community : bool;
  peer_tracks : gmap string PeerMessageTrack;
  sd_max_tracked_peers : Z;
}.

Definition spam_new (config : SpamDetectionConfig) : SpamDetectionEngine := mkSpam config true ∅ 4096.
Definition new_heuristics_only (config : SpamDetectionConfig) : SpamDetectionEngine := mkSpam config false ∅ 4096.

Definition set_tracks (e : SpamDetectionEngine) (tracks : gmap string PeerMessageTrack) : SpamDetectionEngine :=
  mkSpam (sd_config e) (sd_community e) tracks (sd_max_tracked_peers e).

(** FNV-1a over the bytes of a message, in 64 bits. *)
Definition content_fingerprint (data : bytes) : Z :=
  foldl (fun hash b => (Z.lxor hash (byte.unsigned b) * 0x100000001b3) mod 2 ^ 64) 0xcbf29ce484222325 data.

(** The threshold for a network of this size. *)
Definition effective_threshold (config : SpamDetectionConfig) (total_contacts : Z) : f64 :=
  let spam_threshold := if total_contacts <? 10 then small_network_spam_threshold config else large_network_spam_threshold config in
  f64_max spam_threshold (min_spam_threshold config).

(** [now.duration_since(t) < window]. *)
Definition in_window (now window t : Z) : bool := sat_sub now t <? window.

(** The heuristic signals of one peer's track. *)
Definition track_signals (config : SpamDetectionConfig) (now : Z) (max_repeats : Z) (track : PeerMessageTrack) : list SpamSignal :=
  let recent_count := zlen (filter (fun t => in_window now (flooding_window_secs config) t = true) (recent_message_times track)) in
  (if flooding_max_in_window config <=? recent_count then [Flooding] else []) ++
  (if mass_distribution_repeat_threshold config <=? max_repeats then [MassDistribution] else []) ++
  (if 0 <? total_sends track then
     let cold_ratio := f64_div (f64_of (cold_contact_sends track)) (f64_of (total_sends track)) in
     if SFleb (cold_contact_threshold config) cold_ratio && (5 <=? total_sends track) then [ColdContactSpam] else []
   else []).

(** [confidence] from the share of blocked contacts and the signals. *)
Definition confidence_of (config : SpamDetectionConfig) (total_contacts : Z) (block_percentage : f64) (signals : list SpamSignal) : f64 :=
  let community_confidence :=
    if SFltb f64_zero block_percentage then
      let effective_threshold := effective_threshold config total_contacts in
      if SFleb effective_threshold block_percentage then f64_min (f64_div block_percentage effective_threshold) f64_one else f64_zero
    else f64_zero in
  let heuristics := zlen (filter (fun s => s <> CommunityBlocked) signals) in
  let heuristic_confidence := f64_mul (f64_of heuristics) (lit 3 10) in
  f64_min (f64_add community_confidence heuristic_confidence) f64_one.

Definition signal_weight (signal : SpamSignal) : f64 :=
  match signal with
  | CommunityBlocked => lit 4 10
  | ContentPattern => lit 3 10
  | Flooding => lit 2 10
  | MassDistribution => lit 25 100
  | ColdContactSpam => lit 15 100
  end.

Section Engine.
Context {HT : HashIter string PeerMessageTrack} {HF : HashIter Z Z}.

(** [values().copied().max().unwrap_or(0)]. *)
Definition max_repeats (track : PeerMessageTrack) : Z := foldl Z.max 0 (hm_iter (content_fingerprints track)).*2.

(** [if !contains_key && len >= max { remove(keys().next()) }] and [entry().or_insert_with]. *)
Definition admit_track (e : SpamDetectionEngine) (peer_id : string) : gmap string PeerMessageTrack * PeerMessageTrack :=
  let tracks :=
    if bool_decide (peer_tracks e !! peer_id = None) && (sd_max_tracked_peers e <=? Z.of_nat (size (peer_tracks e)))
    then match hm_iter (peer_tracks e) with
         | (evict_key, _) :: _ => delete evict_key (peer_tracks e)
         | [] => peer_tracks e
         end
    else peer_tracks e in
  (tracks, default track_new (tracks !! peer_id)).

Definition record_spam_signal (e : SpamDetectionEngine) (peer_id : string) (signal : SpamSignal) : SpamDetectionEngine :=
  let '(tracks, track) := admit_track e peer_id in
  let track := mkTrack (content_fingerprints track) (recent_message_times track) (cold_contact_sends track) (total_sends track)
                 (f64_add (signal_accumulator track) (signal_weight signal)) in
  set_tracks e (<[peer_id := track]> tracks).

(** Above 256 fingerprints, the 128 that were counted most are kept. *)
Definition trim_fingerprints (m : gmap Z Z) : gmap Z Z :=
  if 256 <? Z.of_nat (size m) then
    list_to_map (take 128 (reverse (stable_sort (fun a b => (a.2 ?= b.2) <> Gt) (hm_iter m))))
  else m.

Definition track_message (config : SpamDetectionConfig) (now : Z) (track : PeerMessageTrack) (envelope_data : bytes) (is_to_contact : bool) :
    PeerMessageTrack :=
  let fp := content_fingerprint envelope_data in
  let fingerprints := <[fp := default 0 (content_fingerprints track !! fp) + 1]> (content_fingerprints track) in
  let times := filter (fun t => in_window now (flooding_window_secs config) t = true) (recent_message_times track ++ [now]) in
  mkTrack (trim_fingerprints fingerprints) times
    (if is_to_contact then cold_contact_sends track else cold_contact_sends track + 1) (total_sends track + 1) (signal_accumulator track).

Definition record_outbound_message (now : Z) (e : SpamDetectionEngine) (peer_id : string) (envelope_data : bytes) (is_to_contact : bool) :
    SpamDetectionEngine :=
  let '(tracks, track) := admit_track e peer_id in
  set_tracks e (<[peer_id := track_message (sd_config e) now track envelope_data is_to_contact]> tracks).

Definition is_content_suspicious (e : SpamDetectionEngine) (envelope_data : bytes) : bool :=
  max_normal_message_len (sd_config e) <? zlen envelope_data.

Definition prune_stale_peers (e : SpamDetectionEngine) (max_entries : Z) : Z * SpamDetectionEngine :=
  let before := Z.of_nat (size (peer_tracks e)) in
  let tracks :=
    if max_entries <? before then
      let keys := (take (Z.to_nat (before - max_entries)) (hm_iter (peer_tracks e))).*1 in
      foldl (fun tracks key => delete key tracks) (peer_tracks e) keys
    else peer_tracks e in
  (before - Z.of_nat (size tracks), set_tracks e tracks).

Section Detect.
Context {B : Type} {SB : StorageBackend B} {IL : IdLib} {KL : KeyLib}.
Context {CB : Codec BlockedIdentity} {CC : Codec Contact}.

(** Whether a contact of this node counts as blocked. *)
Definition contact_blocked (blocked_set : gset string) (contact : Contact) : M B bool :=
  if bool_decide (ct_peer_id contact ∈ blocked_set) then ret true
  else let* r := try_ok (is_blocked_resolved (ct_peer_id contact) None) in ret (bool_decide (r = Some true)).

(** The community part of [detect_spam]: contacts, blocked contacts, their share, signals. *)
Definition detect_community (e : SpamDetectionEngine) : M B (Z * Z * f64 * list SpamSignal) :=
  if sd_community e then
    let* contacts := try_ok contact_list in
    let contacts := default [] contacts in
    let total_contacts := zlen contacts in
    if min_contacts_for_detection (sd_config e) <=? total_contacts then
      let* blocked_set := try_ok blocked_only_peer_ids in
      let blocked_set := default ∅ blocked_set in
      let* blocked_by_count := mfold (fun n contact =>
        let* blocked := contact_blocked blocked_set contact in ret (if blocked : bool then n + 1 else n)) 0 contacts in
      let block_percentage := if total_contacts =? 0 then f64_zero else f64_div (f64_of blocked_by_count) (f64_of total_contacts) in
      let signals := if SFleb (effective_threshold (sd_config e) total_contacts) block_percentage then [CommunityBlocked] else [] in
      ret (total_contacts, blocked_by_count, block_percentage, signals)
    else ret (total_contacts, 0, f64_zero, [])
  else ret (0, 0, f64_zero, []).

Definition detect_spam (now : Z) (e : SpamDetectionEngine) (peer_id : string) : M B SpamDetectionResult :=
  let* '(total_contacts, blocked_by_count, block_percentage, community) := detect_community e in
  let signals := community ++
    match peer_tracks e !! peer_id with
    | Some track => track_signals (sd_config e) now (max_repeats track) track
    | None => []
    end in
  ret (mkDetection (negb (bool_decide (signals = []))) (confidence_of (sd_config e) total_contacts block_percentage signals)
    total_contacts blocked_by_count block_percentage signals).

Definition spam_score (now : Z) (e : SpamDetectionEngine) (peer_id : string) : M B f64 :=
  let* result := detect_spam now e peer_id in
  ret (if sr_is_spam result then sr_confidence result else f64_zero).

End Detect.
End Engine.

(** ** Bounds on what is kept *)

Section Bounds.
Context {HT : HashIter string PeerMessageTrack} {HF : HashIter Z Z}.

Record spam_ok (e : SpamDetectionEngine) : Prop := {
  ok_tracks : Z.of_nat (size (peer_tracks e)) <= Z.max 1 (sd_max_tracked_peers e);
  ok_prints : map_Forall (fun (_ : string) t => Z.of_nat (size (content_fingerprints t)) <= 256) (peer_tracks e);
}.

Lemma admit_track_spec e p tracks t :
  admit_track e p = (tracks, t) ->
  tracks ⊆ peer_tracks e /\ tracks !! p = peer_tracks e !! p /\ t = default track_new (peer_tracks e !! p) /\
  (Z.of_nat (size (peer_tracks e)) < sd_max_tracked_peers e -> tracks = peer_tracks e) /\
  (spam_ok e -> forall t', Z.of_nat (size (<[p := t']> tracks)) <= Z.max 1 (sd_max_tracked_peers e)).
Proof.
  unfold admit_track. set (tracks' := if bool_decide _ && _ then _ else peer_tracks e). intros [= <- <-].
  assert (tracks' ⊆ peer_tracks e /\ tracks' !! p = peer_tracks e !! p /\
    (Z.of_nat (size (peer_tracks e)) < sd_max_tracked_peers e -> tracks' = peer_tracks e) /\
    (spam_ok e -> forall t', Z.of_nat (size (<[p := t']> tracks')) <= Z.max 1 (sd_max_tracked_peers e))) as (H1 & H2 & H3 & H4);
    [|rewrite H2; by split_and!].
  unfold tracks'. destruct (peer_tracks e !! p) as [t|] eqn:Hp.
  { rewrite bool_decide_eq_false_2 by done. cbn. split_and!; [done|done|done|]. intros [Hs _] t'. by rewrite map_size_insert_Some by eauto. }
  rewrite bool_decide_eq_true_2 by done. cbn. destruct (Z.leb_spec (sd_max_tracked_peers e) (Z.of_nat (size (peer_tracks e)))) as [Hfull|Hroom].
  - destruct (hm_iter (peer_tracks e)) as [|[k v] l] eqn:Hl.
    + split_and!; [done|done|lia|]. intros _ t'. rewrite map_size_insert_None by done.
      rewrite <-length_hm_iter, Hl. cbn. lia.
    + assert (peer_tracks e !! k = Some v) as Hk by (apply elem_of_hm_iter; rewrite Hl; left).
      split_and!; [apply delete_subseteq|apply lookup_delete_None; by right|lia|]. intros [Hs _] t'.
      rewrite map_size_insert_None, map_size_delete_Some by (eauto || by apply lookup_delete_None; right). lia.
  - split_and!; [done|done|done|]. intros _ t'. rewrite map_size_insert_None by done. lia.
Qed.

Lemma trim_fingerprints_size m : Z.of_nat (size (trim_fingerprints m)) <= 256.
Proof.
  unfold trim_fingerprints. destruct (Z.ltb_spec 256 (Z.of_nat (size m))); [|lia]. set (l := take 128 _).
  assert (length l <= 128)%nat as Hl by (unfold l; rewrite length_take; lia). clearbody l.
  assert (size (list_to_map l : gmap Z Z) <= length l)%nat; [|lia]. clear. induction l as [|[k v] l IH]; [by vm_compute|].
  cbn. destruct ((list_to_map l : gmap Z Z) !! k) eqn:Hk; [rewrite map_size_insert_Some by eauto|rewrite map_size_insert_None by done]; lia.
Qed.

Lemma set_track_ok e p t tracks :
  spam_ok e -> tracks ⊆ peer_tracks e -> Z.of_nat (size (<[p := t]> tracks)) <= Z.max 1 (sd_max_tracked_peers e) ->
  Z.of_nat (size (content_fingerprints t)) <= 256 -> spam_ok (set_tracks e (<[p := t]> tracks)).
Proof.
  intros [_ Hp] Hsub Hs Ht. split; cbn; [done|]. apply map_Forall_insert_2; [done|]. intros k t' Hk. apply (Hp k). by eapply lookup_weaken.
Qed.

Lemma default_track_prints e p : spam_ok e -> Z.of_nat (size (content_fingerprints (default track_new (peer_tracks e !! p)))) <= 256.
Proof. intros [_ Hp]. destruct (peer_tracks e !! p) as [t|] eqn:Ht; [exact (Hp p t Ht)|by vm_compute]. Qed.

Lemma delete_all_size (keys : list string) (m : gmap string PeerMessageTrack) :
  NoDup keys -> (forall k, k ∈ keys -> is_Some (m !! k)) ->
  (size (foldl (fun m k => delete k m) m keys) + length keys)%nat = size m /\ foldl (fun m k => delete k m) m keys ⊆ m.
Proof.
  revert m. induction keys as [|k keys IH]; intros m Hnd Hin; [cbn; split; [lia|done]|]. apply NoDup_cons in Hnd as [Hk Hnd]. cbn [foldl length].
  destruct (IH (delete k m) Hnd) as [Hs Hsub].
  { intros k' Hk'. rewrite lookup_delete_ne by (intros ->; done). apply Hin. by right. }
  assert (is_Some (m !! k)) as [t Ht] by (apply Hin; left). assert (size (delete k m) = pred (size m)) as Hd by (apply map_size_delete_Some; by eexists).
  assert (size m <> 0%nat) by (eapply map_size_ne_0_lookup_2; by eexists). split; [lia|]. etrans; [exact Hsub|apply delete_subseteq].
Qed.

(** The engine tracks at most its limit of peers (of at least one) and at most 256
    fingerprints for each, and [prune_stale_peers] leaves at most the number asked for and
    reports how many it removed. *)
Theorem spam_tracking_bounded e :
  spam_ok e ->
  (forall p signal, spam_ok (record_spam_signal e p signal)) /\
  (forall now p data to_contact, spam_ok (record_outbound_message now e p data to_contact)) /\
  (forall n, 0 <= n -> let '(removed, e') := prune_stale_peers e n in
     spam_ok e' /\ Z.of_nat (size (peer_tracks e')) = Z.min n (Z.of_nat (size (peer_tracks e))) /\
     removed = Z.of_nat (size (peer_tracks e)) - Z.of_nat (size (peer_tracks e'))).
Proof.
  intros Hok. split_and!.
  - intros p signal. unfold record_spam_signal. destruct (admit_track e p) as [tracks t] eqn:Ha.
    apply admit_track_spec in Ha as (Hsub & _ & -> & _ & Hsize). apply set_track_ok; [done|done|by apply Hsize|]. by apply default_track_prints.
  - intros now p data tc. unfold record_outbound_message. destruct (admit_track e p) as [tracks t] eqn:Ha.
    apply admit_track_spec in Ha as (Hsub & _ & _ & _ & Hsize). apply set_track_ok; [done|done|by apply Hsize|]. apply trim_fingerprints_size.
  - intros n Hn. unfold prune_stale_peers. cbn. set (before := Z.of_nat (size (peer_tracks e))).
    destruct (Z.ltb_spec n before) as [Hlt|]; [|split_and!; [by destruct e|cbn; lia|done]].
    set (keys := (take _ _).*1). destruct (delete_all_size keys (peer_tracks e)) as [Hs Hsub].
    + unfold keys. eapply sublist_NoDup; [apply NoDup_hm_keys|]. apply fmap_sublist, sublist_take.
    + intros k ([k' t] & -> & Hin)%list_elem_of_fmap. apply elem_of_take in Hin as (i & Hi & _). apply list_elem_of_lookup_2, elem_of_hm_iter in Hi. by eexists.
    + assert (Z.of_nat (length keys) = before - n) as Hk.
      { unfold keys. rewrite length_fmap, length_take, length_hm_iter. fold before. unfold before in *. lia. }
      cbn. destruct Hok as [Hb Hp]. fold before in Hb. split_and!; [split; cbn; [unfold before in *; lia|]|unfold before in *; lia|done].
      intros k t Ht. apply (Hp k). by eapply lookup_weaken.
Qed.

End Bounds.

(** ** What is recorded of each peer *)

(** A message that a peer sent: its time, the sender, its content, and whether it went to a contact. *)
Record Sent : Type := mkSent { se_time : Z; se_peer : string; se_data : bytes; se_to_contact : bool }.

Definition own (p : string) (tr : list Sent) : list Sent := filter (fun x => se_peer x = p) tr.

Lemma own_snoc p tr x : own p (tr ++ [x]) = own p tr ++ (if decide (se_peer x = p) then [x] else []).
Proof. unfold own. by rewrite filter_app. Qed.

Section Traces.
Context {HT : HashIter string PeerMessageTrack} {HF : HashIter Z Z}.

Definition run_trace (e : SpamDetectionEngine) (tr : list Sent) : SpamDetectionEngine :=
  foldl (fun e x => record_outbound_message (se_time x) e (se_peer x) (se_data x) (se_to_contact x)) e tr.

(** The track of a peer agrees with the messages it sent. *)
Definition track_of (config : SpamDetectionConfig) (tr : list Sent) (p : string) (t : option PeerMessageTrack) : Prop :=
  match t with
  | None => own p tr = []
  | Some t =>
      total_sends t = zlen (own p tr) /\
      cold_contact_sends t = zlen (filter (fun x => se_to_contact x = false) (own p tr)) /\
      forall now, Forall (fun x => se_time x <= now) tr ->
        filter (fun u => in_window now (flooding_window_secs config) u = true) (recent_message_times t) =
        filter (fun u => in_window now (flooding_window_secs config) u = true) (se_time <$> own p tr)
  end.

Lemma window_filter now later w (l : list Z) :
  now <= later ->
  filter (fun u => in_window later w u = true) (filter (fun u => in_window now w u = true) l) = filter (fun u => in_window later w u = true) l.
Proof.
  intros Hle. rewrite list_filter_filter. apply list_filter_iff. intros u. unfold in_window, sat_sub. rewrite !Z.ltb_lt. lia.
Qed.

Lemma track_message_of config tr x p t :
  Forall (fun y => se_time y <= se_time x) tr -> se_peer x = p -> track_of config tr p t ->
  track_of config (tr ++ [x]) p (Some (track_message config (se_time x) (default track_new t) (se_data x) (se_to_contact x))).
Proof.
  intros Hle Hp Ht. cbn. rewrite own_snoc, decide_True by done.
  assert (total_sends (default track_new t) = zlen (own p tr) /\
    cold_contact_sends (default track_new t) = zlen (filter (fun x => se_to_contact x = false) (own p tr)) /\
    forall now, Forall (fun x => se_time x <= now) tr ->
      filter (fun u => in_window now (flooding_window_secs config) u = true) (recent_message_times (default track_new t)) =
      filter (fun u => in_window now (flooding_window_secs config) u = true) (se_time <$> own p tr)) as (H1 & H2 & H3).
  { destruct t as [t|]; [done|]. cbn in Ht. rewrite Ht. done. }
  split_and!.
  - rewrite H1. unfold zlen. rewrite length_app. cbn. lia.
  - rewrite filter_app, filter_cons, filter_nil, H2. unfold zlen. rewrite length_app. case_decide as Hd; destruct (se_to_contact x); try done; cbn [length]; lia.
  - intros now [Hnow Hx]%Forall_app. rewrite Forall_singleton in Hx. rewrite window_filter by done.
    rewrite fmap_app, !filter_app, H3 by done. done.
Qed.

Lemma track_other config tr x p t : se_peer x <> p -> track_of config tr p t -> track_of config (tr ++ [x]) p t.
Proof.
  intros Hp. unfold track_of. rewrite own_snoc, decide_False, app_nil_r by done. destruct t as [t|]; [|done].
  intros (? & ? & H3). split_and!; [done|done|]. intros now [Hnow _]%Forall_app. by apply H3.
Qed.

Lemma run_trace_spec e tr :
  peer_tracks e = ∅ -> Z.of_nat (length tr) <= sd_max_tracked_peers e -> StronglySorted Z.le (se_time <$> tr) ->
  Z.of_nat (size (peer_tracks (run_trace e tr))) <= Z.of_nat (length tr) /\
  sd_config (run_trace e tr) = sd_config e /\ sd_max_tracked_peers (run_trace e tr) = sd_max_tracked_peers e /\
  forall p, track_of (sd_config e) tr p (peer_tracks (run_trace e tr) !! p).
Proof.
  intros He. induction tr as [|x tr IH] using rev_ind; intros Hlen Hs.
  { cbn. rewrite He. split_and!; [by vm_compute|done|done|]. intros p. by rewrite lookup_empty. }
  rewrite length_app in Hlen. cbn in Hlen. rewrite fmap_app in Hs. apply StronglySorted_app in Hs as (Hord & Hs & _).
  destruct IH as (Hsz & Hc & Hm & Htr); [lia|done|]. unfold run_trace in *. rewrite foldl_app. cbn [foldl].
  set (e1 := foldl _ e tr) in *. unfold record_outbound_message. destruct (admit_track e1 (se_peer x)) as [tracks t] eqn:Ha.
  apply admit_track_spec in Ha as (_ & Hlk & -> & Hroom & _). rewrite Hroom in * by lia. cbn. rewrite length_app. cbn.
  assert (Forall (fun y => se_time y <= se_time x) tr) as Hle.
  { apply Forall_forall. intros y Hy. apply Hord; [by apply list_elem_of_fmap_2|set_solver]. }
  split_and!; [|done|done|].
  - destruct (peer_tracks e1 !! se_peer x) eqn:Hx; [rewrite map_size_insert_Some by eauto|rewrite map_size_insert_None by done]; lia.
  - intros p. rewrite Hc. destruct (decide (se_peer x = p)) as [Hp|Hp].
    + rewrite <-Hp, lookup_insert_eq, Hp. by apply track_message_of.
    + rewrite lookup_insert_ne by done. by apply track_other.
Qed.

End Traces.

(** ** Properties of detection *)

Section Detection.
Context {HT : HashIter string PeerMessageTrack} {HF : HashIter Z Z}.
Context {B : Type} {SB : StorageBackend B} {LB : LawfulBackend B} {IL : IdLib} {KL : KeyLib}.
Context {CB : Codec BlockedIdentity} {CC : Codec Contact}.
Implicit Type b : B.

Lemma track_signals_spec config now reps t :
  0 < flooding_max_in_window config ->
  (Flooding ∈ track_signals config now reps t <->
     flooding_max_in_window config <= zlen (filter (fun u => in_window now (flooding_window_secs config) u = true) (recent_message_times t))) /\
  (MassDistribution ∈ track_signals config now reps t <-> mass_distribution_repeat_threshold config <= reps) /\
  (ColdContactSpam ∈ track_signals config now reps t <->
     5 <= total_sends t /\ SFleb (cold_contact_threshold config) (f64_div (f64_of (cold_contact_sends t)) (f64_of (total_sends t))) = true) /\
  CommunityBlocked ∉ track_signals config now reps t.
Proof.
  intros Hmax. unfold track_signals. set (ratio := SFleb _ _). set (n := zlen _).
  destruct (Z.leb_spec (flooding_max_in_window config) n), (Z.leb_spec (mass_distribution_repeat_threshold config) reps), ratio,
    (Z.ltb_spec 0 (total_sends t)), (Z.leb_spec 5 (total_sends t)); cbn; set_solver by lia.
Qed.

Lemma detect_heuristic now e p b :
  sd_community e = false ->
  detect_spam now e p b =
    let signals := match peer_tracks e !! p with Some t => track_signals (sd_config e) now (max_repeats t) t | None => [] end in
    (Ok (mkDetection (negb (bool_decide (signals = []))) (confidence_of (sd_config e) 0 f64_zero signals) 0 0 f64_zero signals), b).
Proof. intros Hc. unfold detect_spam, detect_community. by rewrite Hc. Qed.

Lemma record_community now e p data c : sd_community (record_outbound_message now e p data c) = sd_community e.
Proof. unfold record_outbound_message. by destruct (admit_track e p). Qed.

Lemma run_trace_community e tr : sd_community (run_trace e tr) = sd_community e.
Proof.
  unfold run_trace. induction tr as [|x tr IH] using rev_ind; [done|]. rewrite foldl_app. cbn [foldl]. by rewrite record_community, IH.
Qed.

Lemma times_in_window now w (l : list Sent) :
  zlen (filter (fun u => in_window now w u = true) (se_time <$> l)) = zlen (filter (fun x => in_window now w (se_time x) = true) l).
Proof.
  unfold zlen. f_equal. induction l as [|x l IH]; [done|]. rewrite fmap_cons, !filter_cons. case_decide; cbn [length]; by rewrite IH.
Qed.

(** The heuristics judge each peer by its own messages: it floods when it sent the
    configured number of messages within the window, and it spams strangers when at least
    five messages, and the configured share of them, went to peers that are not contacts. *)
Theorem heuristics_exact config now tr p b :
  0 < flooding_max_in_window config -> Z.of_nat (length tr) <= 4096 -> StronglySorted Z.le (se_time <$> tr) ->
  Forall (fun x => se_time x <= now) tr ->
  exists r, detect_spam now (run_trace (new_heuristics_only config) tr) p b = (Ok r, b) /\
    (Flooding ∈ sr_contributing_signals r <->
       flooding_max_in_window config <= zlen (filter (fun x => in_window now (flooding_window_secs config) (se_time x) = true) (own p tr))) /\
    (ColdContactSpam ∈ sr_contributing_signals r <->
       5 <= zlen (own p tr) /\ SFleb (cold_contact_threshold config)
         (f64_div (f64_of (zlen (filter (fun x => se_to_contact x = false) (own p tr)))) (f64_of (zlen (own p tr)))) = true).
Proof.
  intros Hmax Hlen Hs Hnow. destruct (run_trace_spec (new_heuristics_only config) tr eq_refl Hlen Hs) as (_ & Hc & _ & Ht). specialize (Ht p).
  eexists. split; [apply detect_heuristic; by rewrite run_trace_community|]. cbn [sr_contributing_signals]. rewrite Hc. cbn [sd_config new_heuristics_only] in *.
  destruct (peer_tracks _ !! p) as [t|]; cbn in Ht.
  - destruct Ht as (H1 & H2 & H3). destruct (track_signals_spec config now (max_repeats t) t Hmax) as (HF' & _ & HC & _). rewrite HF', HC, H1, H2, H3 by done.
    by rewrite times_in_window.
  - rewrite Ht. change (zlen []) with 0. split; (split; [by intros ?%elem_of_nil|]); [|intros [? _]; lia].
    rewrite filter_nil. change (zlen []) with 0. lia.
Qed.

Definition peer_signals now e p : list SpamSignal :=
  match peer_tracks e !! p with Some t => track_signals (sd_config e) now (max_repeats t) t | None => [] end.

Lemma detect_same now e e' p b :
  sd_config e' = sd_config e -> sd_community e' = sd_community e -> peer_signals now e' p = peer_signals now e p ->
  detect_spam now e' p b = detect_spam now e p b.
Proof.
  intros Hc Hm Hs. unfold detect_spam. fold (peer_signals now e' p) (peer_signals now e p). rewrite Hc, Hs.
  replace (detect_community e') with (detect_community (B := B) e); [done|]. unfold detect_community. by rewrite Hc, Hm.
Qed.

Lemma silent_track config now acc :
  0 < flooding_max_in_window config -> 0 < mass_distribution_repeat_threshold config ->
  let t := mkTrack ∅ [] 0 0 acc in track_signals config now (max_repeats t) t = [].
Proof.
  intros Hf Hm. unfold track_signals, max_repeats. cbn [content_fingerprints recent_message_times cold_contact_sends total_sends].
  assert (hm_iter (∅ : gmap Z Z) = []) as -> by (apply nil_length_inv; by rewrite length_hm_iter, map_size_empty).
  rewrite filter_nil. change (zlen []) with 0. change (foldl Z.max 0 [].*2) with 0.
  rewrite (proj2 (Z.leb_gt (flooding_max_in_window config) 0)), (proj2 (Z.leb_gt (mass_distribution_repeat_threshold config) 0)) by lia. done.
Qed.

(** A recorded spam signal changes no verdict: where the table has room or the peer
    is tracked, every peer is judged as before. *)
Theorem spam_signals_unread now e p signal q b :
  0 < flooding_max_in_window (sd_config e) -> 0 < mass_distribution_repeat_threshold (sd_config e) ->
  is_Some (peer_tracks e !! p) \/ Z.of_nat (size (peer_tracks e)) < sd_max_tracked_peers e ->
  detect_spam now (record_spam_signal e p signal) q b = detect_spam now e q b.
Proof.
  intros Hf Hm Hroom. unfold record_spam_signal. destruct (admit_track e p) as [tracks t] eqn:Ha.
  assert (tracks = peer_tracks e) as ->.
  { destruct Hroom as [[t0 Ht0]|Hroom]; [|by eapply admit_track_spec]. unfold admit_track in Ha. rewrite Ht0 in Ha. rewrite bool_decide_eq_false_2 in Ha by done. by injection Ha. }
  apply admit_track_spec in Ha as (_ & _ & -> & _). apply detect_same; [done|done|]. unfold peer_signals. cbn [peer_tracks set_tracks sd_config].
  destruct (decide (q = p)) as [ -> |]; [|by rewrite lookup_insert_ne]. rewrite lookup_insert_eq. destruct (peer_tracks e !! p) as [t|]; [done|].
  by apply silent_track.
Qed.


(** *** The community test *)

(** The contacts of this node that it has blocked itself. *)
Definition blocked_ids b : gset string := match (blocked_only_peer_ids b).1 with Ok s => s | _ => ∅ end.

Definition blocked_here b (c : Contact) : bool :=
  bool_decide (ct_peer_id c ∈ blocked_ids b) || match (is_blocked (ct_peer_id c) None b).1 with Ok true => true | _ => false end.

Definition own_blocked b (contacts : list Contact) : list Contact := filter (fun c => blocked_here b c = true) contacts.

Lemma contact_blocked_run b (c : Contact) : contact_blocked (blocked_ids b) c b = (Ok (blocked_here b c), b).
Proof.
  unfold contact_blocked, blocked_here. case_bool_decide; [done|]. unfold bind, try_ok, ret.
  change (is_blocked_resolved (ct_peer_id c) None b) with (is_blocked (ct_peer_id c) None b). rewrite is_blocked_run. cbn.
  by destruct (existsb _ _).
Qed.

Lemma blocked_count_run b contacts n :
  mfold (fun n contact => let* blocked := contact_blocked (blocked_ids b) contact in ret (if blocked : bool then n + 1 else n)) n contacts b =
    (Ok (n + zlen (own_blocked b contacts)), b).
Proof.
  revert n. induction contacts as [|c l IH]; intros n; [cbn; by rewrite Z.add_0_r|]. cbn [mfold]. unfold bind at 1. unfold bind at 1.
  rewrite contact_blocked_run. unfold ret at 1. rewrite IH. unfold own_blocked. rewrite filter_cons. destruct (blocked_here b c).
  - rewrite decide_True, zlen_cons by done. do 2 f_equal. lia.
  - by rewrite decide_False.
Qed.

Lemma decode_all_state {A} `{Codec A} (f : list A -> A -> list A) (l : list (bytes * bytes)) acc b :
  exists r, mfold (fun acc kv => let* x := kv_dec kv.2 in ret (f acc x)) acc l b = (r, b) /\ r <> Panic.
Proof.
  revert acc. induction l as [|kv l IH]; intros acc; [by eexists|]. cbn [mfold]. unfold bind at 1. unfold bind at 1. unfold kv_dec, lift.
  destruct (dec kv.2) as [a|]; cbn; [apply IH|by eexists].
Qed.

Lemma blocked_ids_run b : exists r, blocked_only_peer_ids b = (r, b) /\ r <> Panic /\ default ∅ (match r with Ok s => Some s | _ => None end) = blocked_ids b.
Proof.
  assert (exists r, blocked_only_peer_ids b = (r, b) /\ r <> Panic) as (r & Hr & Hp).
  { unfold blocked_only_peer_ids, blocked_list. destruct (kv_scan_run (str_bytes BLOCKED_PREFIX) b) as (l & Hl & _).
    destruct (decode_all_state (A := BlockedIdentity) (fun acc x => acc ++ [x]) l [] b) as (r & Hr & Hp).
    unfold bind at 1. unfold bind at 1. rewrite Hl. unfold bind at 1. rewrite Hr. destruct r; (eexists; split; [reflexivity|done]). }
  exists r. unfold blocked_ids. rewrite Hr. split_and!; [done|done|]. by destruct r.
Qed.

Lemma detect_community_run e b contacts :
  sd_community e = true -> contact_list b = (Ok contacts, b) -> 1 <= min_contacts_for_detection (sd_config e) <= zlen contacts ->
  let share := f64_div (f64_of (zlen (own_blocked b contacts))) (f64_of (zlen contacts)) in
  detect_community e b = (Ok (zlen contacts, zlen (own_blocked b contacts), share,
    if SFleb (effective_threshold (sd_config e) (zlen contacts)) share then [CommunityBlocked] else []), b).
Proof.
  intros Hc Hl Hn share. unfold detect_community. rewrite Hc.
  rewrite (bind_run _ _ _ (Some contacts) b) by (unfold try_ok; by rewrite Hl). change (default [] (Some contacts)) with contacts.
  rewrite (proj2 (Z.leb_le (min_contacts_for_detection (sd_config e)) (zlen contacts))) by lia.
  destruct (blocked_ids_run b) as (r & Hrun & Hr & Hids).
  rewrite (bind_run _ _ _ (match r with Ok s => Some s | _ => None end) b) by (unfold try_ok; rewrite Hrun; by destruct r).
  cbn zeta. rewrite Hids, (bind_run _ _ _ _ _ (blocked_count_run b contacts 0)), (proj2 (Z.eqb_neq (zlen contacts) 0)) by lia.
  by rewrite Z.add_0_l.
Qed.

(** The community test asks how many of this node's own contacts it has blocked
    itself, not who has blocked the peer in question.  Once the share reaches the threshold,
    every peer is judged to be spam, whoever it is and whatever it has sent. *)
Theorem community_condemns_everyone now e p b contacts :
  sd_community e = true -> contact_list b = (Ok contacts, b) -> 1 <= min_contacts_for_detection (sd_config e) <= zlen contacts ->
  SFleb (effective_threshold (sd_config e) (zlen contacts)) (f64_div (f64_of (zlen (own_blocked b contacts))) (f64_of (zlen contacts))) = true ->
  exists r, detect_spam now e p b = (Ok r, b) /\ sr_is_spam r = true /\ CommunityBlocked ∈ sr_contributing_signals r /\
    sr_blocked_by_count r = zlen (own_blocked b contacts).
Proof.
  intros Hc Hl Hn Hshare. unfold detect_spam. rewrite (bind_run _ _ _ _ _ (detect_community_run e b contacts Hc Hl Hn)), Hshare.
  eexists. split; [reflexivity|]. split_and!; [done|set_solver|done].
Qed.
End Detection.

(** ** Concrete inputs *)

Module SpamExamples.
Import SampleIds.

#[local] Instance ex_iter : HashIter bytes bytes := canonical_iter.
#[local] Instance ex_iter_t : HashIter string PeerMessageTrack := canonical_iter.
#[local] Instance ex_iter_f : HashIter Z Z := canonical_iter.
#[local] Existing Instance BlockedExamples.ex_codec.
#[local] Existing Instance ContactExamples.ex_codec.

Definition row (c : Contact) : bytes * bytes := (contact_key (ct_peer_id c), default [] (enc c)).

(** Four contacts, of which this node has blocked three. *)
Definition CONTACTS : list Contact :=
  (fun n => contact_new 5 n n) <$> ["c0"; "c1"; "c2"; "c3"]%string.

Definition STORE : MemoryStorage :=
  mkMemory (list_to_map ((row <$> CONTACTS) ++
    ((fun n => (block_key n None, default [] (enc (blocked_new 7 n)))) <$> ["c0"; "c1"; "c2"]%string))).

Definition ENGINE : SpamDetectionEngine := spam_new spam_config_default.

(** Thirty messages in one minute, none of them to a contact. *)
Definition FLOOD : list Sent := (fun n => mkSent (Z.of_nat n) "flooder" [] false) <$> seq 0 30.

Lemma spam_tracking_bounded_witness :
  spam_ok (record_outbound_message 5 ENGINE "p" [] true) /\ spam_ok (record_spam_signal ENGINE "p" Flooding).
Proof.
  destruct (spam_tracking_bounded ENGINE) as (H1 & H2 & _); [split; [by vm_compute|apply map_Forall_empty]|]. split; [apply H2|apply H1].
Defined.

Lemma heuristics_exact_witness :
  exists r, detect_spam 40 (run_trace (new_heuristics_only spam_config_default) FLOOD) "flooder" STORE = (Ok r, STORE) /\
    Flooding ∈ sr_contributing_signals r /\ ColdContactSpam ∈ sr_contributing_signals r.
Proof.
  destruct (heuristics_exact spam_config_default 40 FLOOD "flooder" STORE) as (r & Hr & Hf & Hc);
    [by vm_compute|by vm_compute|by_computation|by_computation|].
  exists r. split; [exact Hr|]. split; [apply Hf; by vm_compute|apply Hc; by vm_compute].
Defined.

Lemma spam_signals_unread_witness :
  detect_spam 40 (record_spam_signal ENGINE "p" Flooding) "p" STORE = detect_spam 40 ENGINE "p" STORE.
Proof. apply spam_signals_unread; [by vm_compute|by vm_compute|right; by vm_compute]. Defined.

Definition LISTED : list Contact := match (contact_list STORE).1 with Ok l => l | _ => [] end.

Lemma listed_run : contact_list STORE = (Ok LISTED, STORE).
Proof. vm_cast_no_check (@eq_refl _ (contact_list STORE)). Qed.

Lemma community_condemns_everyone_witness :
  zlen (own_blocked STORE LISTED) = 3 /\
  exists r, detect_spam 40 ENGINE "stranger" STORE = (Ok r, STORE) /\ sr_is_spam r = true.
Proof.
  split; [by vm_compute|].
  destruct (community_condemns_everyone 40 ENGINE "stranger" STORE LISTED) as (r & Hr & Hs & _); [done|apply listed_run|by vm_compute|by vm_compute|].
  exists r. split; [exact Hr|exact Hs].
Defined.

End SpamExamples.
