(* ===== verification/AutoBlock.v ===== *)
(** * Abuse control ([core/src/abuse/reputation.rs], [core/src/abuse/auto_block.rs] and the part of
    [core/src/iron_core.rs] that connects them)

    Reputation and spam detection combined into one score, the engine that blocks peers by
    it, and the core's two copies of the managers.  The store of contacts and blocks is one
    shared backend of type [B]; the reputation manager's own storage, if any, has type [S]. *)

From Stdlib Require Import SpecFloat.
From S2P Require Import Prelude Backend Effects KvStore Ids Blocked Contacts Floats Reputation Spam.

(** ** The enhanced manager *)

Record EnhancedAbuseReputationManager (S : Type) : Type := mkEnhanced {
  base_manager : AbuseReputationManager S;
  spam_detector : SpamDetectionEngine;
}.
#[global] Arguments mkEnhanced {S} _ _.
#[global] Arguments base_manager {S} _.
#[global] Arguments spam_detector {S} _.

Record EnhancedReputationScore : Type := mkScore {
  base_score : f64;
  spam_confidence : f64;
  is_community_flagged : bool;
}.

Definition overall_score (s : EnhancedReputationScore) : f64 :=
  f64_mul (base_score s) (f64_sub (f64_of 1) (f64_mul (spam_confidence s) (lit 8 10))).

Definition enhanced_is_suspicious (s : EnhancedReputationScore) : bool := is_suspicious (base_score s) || is_community_flagged s.

Definition enhanced_is_abusive (s : EnhancedReputationScore) : bool := is_abusive (base_score s) || SFltb (lit 8 10) (spam_confidence s).

Section Enhanced.
Context {S : Type} {SS : StorageBackend S} {CS : Codec PeerAbuseStats} {BM : Build} {HP : HashIter string PeerAbuseStats}.
Context {HT : HashIter string PeerMessageTrack} {HF : HashIter Z Z}.
Context {B : Type} {SB : StorageBackend B} {IL : IdLib} {KL : KeyLib}.
Context {CB : Codec BlockedIdentity} {CD : Codec (list string)} {CC : Codec Contact}.

Local Notation Enhanced := (EnhancedAbuseReputationManager S).
Local Notation EM := (M (Enhanced * B)).

Definition on_base {A} (m : M (AbuseReputationManager S) A) : EM A := fun '(e, b) =>
  let '(r, base) := m (base_manager e) in (r, (mkEnhanced base (spam_detector e), b)).

Definition on_store {X A} (m : M B A) : M (X * B) A := fun '(x, b) => let '(r, b') := m b in (r, (x, b')).

Definition enhanced_new (max_tracked_peers : Z) (spam_detector : SpamDetectionEngine) : Enhanced :=
  mkEnhanced (manager_new max_tracked_peers) spam_detector.

Definition enhanced_with_backend (instant max_tracked_peers : Z) (spam_detector : SpamDetectionEngine) (backend : S) : res string () * Enhanced :=
  let '(r, base) := with_backend instant max_tracked_peers backend in (r, mkEnhanced base spam_detector).

Definition enhanced_apply_decay (now_epoch : Z) : EM unit := on_base (apply_decay now_epoch).

Definition enhanced_flush_to_storage : EM unit := on_base flush_to_storage.

Definition enhanced_record_signal (secs instant : Z) (peer_id : string) (signal : AbuseSignal) : EM f64 :=
  let* score := on_base (record_signal secs instant peer_id signal) in
  let* _ :=
    if bool_decide (signal = DuplicateMessage \/ signal = InvalidFormat) then
      let* spam_result := fun w => on_store (detect_spam instant (spam_detector w.1) peer_id) w in
      if sr_is_spam spam_result then
        let* _ := on_base (record_signal secs instant peer_id InvalidFormat) in ret tt
      else ret tt
    else ret tt in
  ret score.

(** The base signal that a spam signal is translated to. *)
Definition base_signal (signal : SpamSignal) : option AbuseSignal :=
  match signal with
  | CommunityBlocked => None
  | ContentPattern => Some InvalidFormat
  | Flooding => Some RateLimited
  | MassDistribution => Some DuplicateMessage
  | ColdContactSpam => Some InvalidDestination
  end.

Definition enhanced_record_spam_signal (secs instant : Z) (peer_id : string) (signal : SpamSignal) : EM unit :=
  let* _ := fun '(e, b) => (Ok tt, (mkEnhanced (base_manager e) (record_spam_signal (spam_detector e) peer_id signal), b)) in
  match base_signal signal with
  | Some s => let* _ := on_base (record_signal secs instant peer_id s) in ret tt
  | None => ret tt
  end.

Definition enhanced_record_outbound_message (instant : Z) (peer_id : string) (envelope_data : bytes) (is_to_contact : bool) : EM unit :=
  fun '(e, b) => (Ok tt, (mkEnhanced (base_manager e) (record_outbound_message instant (spam_detector e) peer_id envelope_data is_to_contact), b)).

(** [EnhancedReputationScore] of a peer with this base score. *)
Definition enhance (instant : Z) (e : Enhanced) (peer_id : string) (base_score : f64) : M B EnhancedReputationScore :=
  let* spam_score := spam_score instant (spam_detector e) peer_id in
  ret (mkScore base_score spam_score (SFltb (lit 1 2) spam_score)).

Definition get_enhanced_score (instant : Z) (e : Enhanced) (peer_id : string) : M B EnhancedReputationScore :=
  enhance instant e peer_id (get_score (base_manager e) peer_id).

Definition enhanced_get_score (e : Enhanced) (peer_id : string) : f64 := get_score (base_manager e) peer_id.

Definition enhanced_rate_limit_multiplier (e : Enhanced) (peer_id : string) : f64 := rate_limit_multiplier (base_manager e) peer_id.

Definition all_enhanced_scores (instant : Z) (e : Enhanced) : M B (list (string * EnhancedReputationScore)) :=
  mfold (fun acc ps => let* s := enhance instant e ps.1 ps.2 in ret (acc ++ [(ps.1, s)])) [] (all_reputations (base_manager e)).

End Enhanced.

(** ** Automatic blocking *)

Record AutoBlockConfig : Type := mkAutoConfig {
  reputation_threshold : f64;
  spam_confidence_threshold : f64;
  ac_enabled : bool;
  exempt_peer_ids : list string;
  max_audit_entries : Z;
}.

Definition auto_config_default : AutoBlockConfig := mkAutoConfig (f64_of 10) (lit 8 10) true [] 1024.

Inductive AutoBlockReason : Type := LowReputation | HighSpamConfidence | CombinedAbuse.

Record AutoBlockAuditEntry : Type := mkAutoEntry {
  aa_peer_id : string;
  aa_reason : AutoBlockReason;
  aa_reputation_score : f64;
  aa_spam_confidence : f64;
  aa_timestamp_secs : Z;
  aa_was_automatic : bool;
}.

Record AutoBlockResult : Type := mkAutoResult {
  ar_should_block : bool;
  ar_reason : option AutoBlockReason;
  ar_reputation_score : f64;
  ar_spam_confidence : f64;
}.

Record AutoBlockEngine (S : Type) : Type := mkAuto {
  au_config : AutoBlockConfig;
  reputation_manager : EnhancedAbuseReputationManager S;
  au_audit_log : list AutoBlockAuditEntry;
}.
#[global] Arguments mkAuto {S} _ _ _.
#[global] Arguments au_config {S} _.
#[global] Arguments reputation_manager {S} _.
#[global] Arguments au_audit_log {S} _.

Definition auto_new {S} (config : AutoBlockConfig) (reputation_manager : EnhancedAbuseReputationManager S) : AutoBlockEngine S :=
  mkAuto config reputation_manager [].

Definition update_config {S} (e : AutoBlockEngine S) (config : AutoBlockConfig) : AutoBlockEngine S :=
  mkAuto config (reputation_manager e) (au_audit_log e).

Definition set_exempt (c : AutoBlockConfig) (l : list string) : AutoBlockConfig :=
  mkAutoConfig (reputation_threshold c) (spam_confidence_threshold c) (ac_enabled c) l (max_audit_entries c).

Definition exempt_peer {S} (e : AutoBlockEngine S) (peer_id : string) : AutoBlockEngine S :=
  update_config e (set_exempt (au_config e) (exempt_peer_ids (au_config e) ++ [peer_id])).

Definition unexempt_peer {S} (e : AutoBlockEngine S) (peer_id : string) : AutoBlockEngine S :=
  update_config e (set_exempt (au_config e) (filter (fun p => p <> peer_id) (exempt_peer_ids (au_config e)))).

Definition is_exempt {S} (e : AutoBlockEngine S) (peer_id : string) : bool :=
  existsb (fun p => String.eqb p peer_id) (exempt_peer_ids (au_config e)).

(** The reason for which these scores are blocked, if any. *)
Definition block_reason (config : AutoBlockConfig) (overall spam_conf : f64) : option AutoBlockReason :=
  let low_rep := SFltb overall (reputation_threshold config) in
  let high_spam := SFleb (spam_confidence_threshold config) spam_conf in
  if low_rep && high_spam then Some CombinedAbuse
  else if low_rep then Some LowReputation
  else if high_spam then Some HighSpamConfidence
  else None.

(** [audit.push(entry)] and the oldest entries dropped above the limit. *)
Definition push_audit (max_audit_entries : Z) (audit : list AutoBlockAuditEntry) (entry : AutoBlockAuditEntry) : list AutoBlockAuditEntry :=
  let audit := audit ++ [entry] in
  if max_audit_entries <? zlen audit then drop (Z.to_nat (zlen audit - max_audit_entries)) audit else audit.

Section AutoBlock.
Context {S : Type} {HP : HashIter string PeerAbuseStats} {HT : HashIter string PeerMessageTrack} {HF : HashIter Z Z}.
Context {B : Type} {SB : StorageBackend B} {IL : IdLib} {KL : KeyLib}.
Context {CB : Codec BlockedIdentity} {CD : Codec (list string)} {CC : Codec Contact}.

Local Notation AM := (M (AutoBlockEngine S * B)).

Definition evaluate (instant : Z) (e : AutoBlockEngine S) (peer_id : string) : M B AutoBlockResult :=
  let config := au_config e in
  if negb (ac_enabled config) then ret (mkAutoResult false None f64_zero f64_zero)
  else if is_exempt e peer_id then
    let* enhanced := get_enhanced_score instant (reputation_manager e) peer_id in
    ret (mkAutoResult false None (overall_score enhanced) f64_zero)
  else
    let* enhanced := get_enhanced_score instant (reputation_manager e) peer_id in
    let overall := overall_score enhanced in
    let spam_conf := spam_confidence enhanced in
    let reason := block_reason config overall spam_conf in
    ret (mkAutoResult (bool_decide (is_Some reason)) reason overall spam_conf).

Definition evaluate_and_block (secs instant : Z) (peer_id : string) : AM bool :=
  let* result := fun w => on_store (evaluate instant w.1 peer_id) w in
  if negb (ar_should_block result) then ret false
  else
    let reason := default CombinedAbuse (ar_reason result) in
    let* _ := on_store (block (blocked_new secs peer_id)) in
    let entry := mkAutoEntry peer_id reason (ar_reputation_score result) (ar_spam_confidence result) secs true in
    let* _ := fun '(e, b) =>
      (Ok tt, (mkAuto (au_config e) (reputation_manager e) (push_audit (max_audit_entries (au_config e)) (au_audit_log e) entry), b)) in
    ret true.

Definition evaluate_all_tracked (secs instant : Z) : AM Z :=
  let* reputations := fun w => on_store (all_enhanced_scores instant (reputation_manager w.1)) w in
  mfold (fun blocked_count ps =>
    let* blocked := evaluate_and_block secs instant ps.1 in ret (if blocked : bool then blocked_count + 1 else blocked_count)) 0 reputations.

End AutoBlock.

(** ** The managers of the core *)

Record AbuseCore (S B : Type) : Type := mkCore {
  abuse_manager : EnhancedAbuseReputationManager S;
  auto_block_engine : AutoBlockEngine S;
  core_store : B;
}.
#[global] Arguments mkCore {S B} _ _ _.
#[global] Arguments abuse_manager {S B} _.
#[global] Arguments auto_block_engine {S B} _.
#[global] Arguments core_store {S B} _.

(** The signal that the transport layer names; an unknown name is a rate limit. *)
Definition abuse_signal_named (signal : string) : AbuseSignal :=
  if String.eqb signal "RateLimited" then RateLimited
  else if String.eqb signal "OversizedMessage" then OversizedMessage
  else if String.eqb signal "InvalidFormat" then InvalidFormat
  else if String.eqb signal "DuplicateMessage" then DuplicateMessage
  else if String.eqb signal "InvalidDestination" then InvalidDestination
  else if String.eqb signal "SuccessfulRelay" then SuccessfulRelay
  else if String.eqb signal "FailedRelay" then FailedRelay
  else if String.eqb signal "SuccessfulDelivery" then SuccessfulDelivery
  else if String.eqb signal "ConnectionTimeout" then ConnectionTimeout
  else RateLimited.

Section Core.
Context {S : Type} {SS : StorageBackend S} {CS : Codec PeerAbuseStats} {BM : Build} {HP : HashIter string PeerAbuseStats}.
Context {HT : HashIter string PeerMessageTrack} {HF : HashIter Z Z}.
Context {B : Type} {SB : StorageBackend B} {IL : IdLib} {KL : KeyLib}.
Context {CB : Codec BlockedIdentity} {CD : Codec (list string)} {CC : Codec Contact}.

Local Notation Core := (AbuseCore S B).

(** Two spam detectors and two reputation managers; the engine holds the second of each. *)
Definition core_new (backend : B) : Core :=
  let spam_detector := new_heuristics_only spam_config_default in
  let abuse_mgr := enhanced_new 1000 spam_detector in
  let auto_block_spam := new_heuristics_only spam_config_default in
  let auto_block_reputation := enhanced_new 1000 auto_block_spam in
  mkCore abuse_mgr (auto_new auto_config_default auto_block_reputation) backend.

Definition with_abuse {A} (m : M (EnhancedAbuseReputationManager S * B) A) : M Core A := fun c =>
  let '(r, (e, b)) := m (abuse_manager c, core_store c) in (r, mkCore e (auto_block_engine c) b).

Definition with_engine {A} (m : M (AutoBlockEngine S * B) A) : M Core A := fun c =>
  let '(r, (e, b)) := m (auto_block_engine c, core_store c) in (r, mkCore (abuse_manager c) e b).

Definition record_abuse_signal (secs instant : Z) (peer_id signal : string) : M Core unit :=
  let* _ := with_abuse (enhanced_record_signal secs instant peer_id (abuse_signal_named signal)) in ret tt.

Definition core_record_spam_signal (secs instant : Z) (peer_id : string) (signal : SpamSignal) : M Core unit :=
  with_abuse (enhanced_record_spam_signal secs instant peer_id signal).

Definition core_record_outbound_message (instant : Z) (peer_id : string) (data : bytes) (is_to_contact : bool) : M Core unit :=
  with_abuse (enhanced_record_outbound_message instant peer_id data is_to_contact).

Definition auto_block_evaluate (instant : Z) (c : Core) (peer_id : string) : res string AutoBlockResult :=
  (evaluate instant (auto_block_engine c) peer_id (core_store c)).1.

Definition auto_block_evaluate_and_block (secs instant : Z) (peer_id : string) : M Core bool :=
  with_engine (evaluate_and_block secs instant peer_id).

Definition auto_block_exempt_peer (peer_id : string) : M Core unit :=
  with_engine (fun '(e, b) => (Ok tt, (exempt_peer e peer_id, b))).

Definition auto_block_unexempt_peer (peer_id : string) : M Core unit :=
  with_engine (fun '(e, b) => (Ok tt, (unexempt_peer e peer_id, b))).

Definition auto_block_is_exempt (c : Core) (peer_id : string) : bool := is_exempt (auto_block_engine c) peer_id.

Definition auto_block_evaluate_all_tracked (secs instant : Z) : M Core Z :=
  let* r := try_ok (with_engine (evaluate_all_tracked secs instant)) in ret (default 0 r).

(** The abuse scan of [perform_maintenance]; its error is only logged. *)
Definition maintenance_abuse_scan (secs instant : Z) : M Core (option Z) := try_ok (with_engine (evaluate_all_tracked secs instant)).

Definition get_peer_reputation (c : Core) (peer_id : string) : f64 := enhanced_get_score (abuse_manager c) peer_id.

Definition peer_rate_limit_multiplier (c : Core) (peer_id : string) : f64 := enhanced_rate_limit_multiplier (abuse_manager c) peer_id.

(** The queries of one enhanced score. *)
Definition core_enhanced {A} (f : EnhancedReputationScore -> A) (instant : Z) (c : Core) (peer_id : string) : res string A :=
  rmap f (get_enhanced_score instant (abuse_manager c) peer_id (core_store c)).1.

Definition peer_spam_score : Z -> Core -> string -> res string f64 := core_enhanced spam_confidence.
Definition get_reputation_score : Z -> Core -> string -> res string f64 := core_enhanced overall_score.
Definition is_peer_suspicious : Z -> Core -> string -> res string bool := core_enhanced enhanced_is_suspicious.
Definition is_peer_abusive : Z -> Core -> string -> res string bool := core_enhanced enhanced_is_abusive.

Definition get_enhanced_peer_reputation : Z -> Core -> string -> res string (f64 * f64 * bool) :=
  core_enhanced (fun s => (base_score s, spam_confidence s, SFltb (base_score s) (SFopp (lit 1 2)))).

Definition detect_spam_confidence (instant : Z) (c : Core) (peer_id : string) : res string f64 :=
  (spam_score instant (spam_detector (abuse_manager c)) peer_id (core_store c)).1.

Definition prune_stale_spam_peers (max_entries : Z) : M Core Z :=
  with_abuse (fun '(e, b) =>
    let '(n, spam) := prune_stale_peers (spam_detector e) max_entries in (Ok n, (mkEnhanced (base_manager e) spam, b))).

End Core.

(** ** What every run keeps *)

(** An invariant of the states that a computation reaches, also when it fails. *)
Definition stays {W A} (I : W -> Prop) (m : M W A) : Prop := forall w, I w -> I (m w).2.

Create HintDb stays_db.

Section Keeps.
Context {W : Type} (I : W -> Prop).

Lemma stays_ret {A} (a : A) : stays I (ret a).
Proof. by intros w Hw. Qed.

Lemma stays_bind {A A'} (m : M W A) (k : A -> M W A') : stays I m -> (forall a, stays I (k a)) -> stays I (bind m k).
Proof. intros Hm Hk w Hw. specialize (Hm w Hw). unfold bind. destruct (m w) as [[a|e|] w']; [by apply Hk|done|done]. Qed.

Lemma stays_try_ok {A} (m : M W A) : stays I m -> stays I (try_ok m).
Proof. intros Hm w Hw. specialize (Hm w Hw). unfold try_ok. by destruct (m w) as [[a|e|] w']. Qed.
End Keeps.
#[export] Hint Resolve stays_ret stays_bind stays_try_ok : stays_db.

Section CoreLaws.
Context {S : Type} {SS : StorageBackend S} {CS : Codec PeerAbuseStats} {BM : Build} {HP : HashIter string PeerAbuseStats}.
Context {HT : HashIter string PeerMessageTrack} {HF : HashIter Z Z}.
Context {B : Type} {SB : StorageBackend B} {LB : LawfulBackend B} {IL : IdLib} {KL : KeyLib}.
Context {CB : Codec BlockedIdentity} {LC : LawfulCodec BlockedIdentity} {CD : Codec (list string)} {LD : LawfulCodec (list string)} {CC : Codec Contact}.
Implicit Types (b : B) (e : EnhancedAbuseReputationManager S).

Lemma spam_score_heuristic now s p b : sd_community s = false -> (spam_score now s p b).2 = b /\ exists x, (spam_score now s p b).1 = Ok x.
Proof. intros Hc. unfold spam_score, bind. rewrite detect_heuristic by done. cbn zeta iota. split; [done|by eexists]. Qed.

(** *** Operations of the manager of signals *)

Definition heuristic b (w : EnhancedAbuseReputationManager S * B) : Prop := sd_community (spam_detector w.1) = false /\ w.2 = b.

Lemma on_base_keeps {A} b (m : M (AbuseReputationManager S) A) : stays (heuristic b) (on_base m).
Proof. intros [e b'] [He Hb]. unfold on_base. by destruct (m (base_manager e)). Qed.

Lemma detect_keeps b now p : stays (heuristic b) (fun w => on_store (detect_spam now (spam_detector w.1) p) w).
Proof. intros [e b'] [He Hb]. cbn in *. by rewrite detect_heuristic. Qed.
#[local] Hint Resolve on_base_keeps detect_keeps : stays_db.

Lemma record_signal_keeps b secs instant p signal : stays (heuristic b) (enhanced_record_signal secs instant p signal).
Proof.
  unfold enhanced_record_signal. apply stays_bind; [auto with stays_db|]. intros score. apply stays_bind; [|auto with stays_db].
  case_bool_decide; [|auto with stays_db]. apply stays_bind; [auto with stays_db|]. intros r. destruct (sr_is_spam r); auto with stays_db.
Qed.

Lemma record_spam_keeps b secs instant p signal : stays (heuristic b) (enhanced_record_spam_signal secs instant p signal).
Proof.
  unfold enhanced_record_spam_signal. apply stays_bind; [|intros _; destruct (base_signal signal); auto with stays_db].
  intros [e b'] [He Hb]. split; [|done]. cbn in *. unfold record_spam_signal. by destruct (admit_track (spam_detector e) p).
Qed.

Lemma record_outbound_keeps b instant p data c : stays (heuristic b) (enhanced_record_outbound_message instant p data c).
Proof. intros [e b'] [He Hb]. split; [|done]. exact (eq_trans (record_community instant (spam_detector e) p data c) He). Qed.

(** *** An engine whose own manager was told nothing *)

Definition unfed (g : AutoBlockEngine S) : Prop :=
  rm_peers (base_manager (reputation_manager g)) = ∅ /\ peer_tracks (spam_detector (reputation_manager g)) = ∅ /\
  sd_community (spam_detector (reputation_manager g)) = false /\
  reputation_threshold (au_config g) = f64_of 10 /\ spam_confidence_threshold (au_config g) = lit 8 10.

Lemma unfed_score instant g p b : unfed g -> exists s, get_enhanced_score instant (reputation_manager g) p b = (Ok s, b) /\
  SFltb (overall_score s) (f64_of 10) = false /\ SFleb (lit 8 10) (spam_confidence s) = false.
Proof.
  intros (Hp & Ht & Hc & _ & _). unfold get_enhanced_score, enhance, spam_score, get_score. rewrite Hp, lookup_empty.
  unfold bind at 1 2. rewrite detect_heuristic by done. rewrite Ht, lookup_empty. cbn zeta iota. eexists. split; [reflexivity|]. by vm_compute.
Qed.

Lemma unfed_evaluate instant g p b : unfed g -> exists r, evaluate instant g p b = (Ok r, b) /\ ar_should_block r = false.
Proof.
  intros Hg. destruct (unfed_score instant g p b Hg) as (s & Hs & Hlow & Hspam). destruct Hg as (_ & _ & _ & Hr & Hc). unfold evaluate.
  destruct (negb (ac_enabled (au_config g))); [by eexists|]. destruct (is_exempt g p); rewrite (bind_run _ _ _ _ _ Hs); [by eexists|].
  unfold block_reason. rewrite Hr, Hc, Hlow, Hspam. by eexists.
Qed.

Lemma unfed_block secs instant g p b : unfed g -> evaluate_and_block secs instant p (g, b) = (Ok false, (g, b)).
Proof.
  intros Hg. destruct (unfed_evaluate instant g p b Hg) as (r & Hr & Hno). unfold evaluate_and_block, bind, on_store. cbn [fst]. rewrite Hr, Hno. done.
Qed.

Lemma unfed_scan secs instant g b : unfed g -> evaluate_all_tracked secs instant (g, b) = (Ok 0, (g, b)).
Proof.
  intros (Hp & _). unfold evaluate_all_tracked, bind, on_store, all_enhanced_scores, all_reputations. cbn [fst]. rewrite Hp.
  assert (hm_iter (∅ : gmap string PeerAbuseStats) = []) as -> by (apply nil_length_inv; by rewrite length_hm_iter, map_size_empty). done.
Qed.

(** ** Properties *)

(** The operations of the core on its abuse control. *)
Inductive core_op : Type :=
  | OpSignal (secs instant : Z) (peer_id signal : string)
  | OpSpam (secs instant : Z) (peer_id : string) (signal : SpamSignal)
  | OpOutbound (instant : Z) (peer_id : string) (data : bytes) (is_to_contact : bool)
  | OpPrune (max_entries : Z)
  | OpEvaluate (secs instant : Z) (peer_id : string)
  | OpExempt (peer_id : string)
  | OpUnexempt (peer_id : string)
  | OpScan (secs instant : Z).

Definition core_run (op : core_op) (c : AbuseCore S B) : AbuseCore S B :=
  match op with
  | OpSignal secs instant p s => (record_abuse_signal secs instant p s c).2
  | OpSpam secs instant p s => (core_record_spam_signal secs instant p s c).2
  | OpOutbound instant p d t => (core_record_outbound_message instant p d t c).2
  | OpPrune n => (prune_stale_spam_peers n c).2
  | OpEvaluate secs instant p => (auto_block_evaluate_and_block secs instant p c).2
  | OpExempt p => (auto_block_exempt_peer p c).2
  | OpUnexempt p => (auto_block_unexempt_peer p c).2
  | OpScan secs instant => (maintenance_abuse_scan secs instant c).2
  end.

Definition idle b (c : AbuseCore S B) : Prop :=
  unfed (auto_block_engine c) /\ heuristic b (abuse_manager c, core_store c).

Lemma with_abuse_idle {A} b (m : M (EnhancedAbuseReputationManager S * B) A) : stays (heuristic b) m -> stays (idle b) (with_abuse m).
Proof.
  intros Hm c [Hu Hh]. unfold with_abuse. specialize (Hm _ Hh). destruct (m (abuse_manager c, core_store c)) as [r [e b']]. by split.
Qed.

Lemma with_engine_idle {A} b (m : M (AutoBlockEngine S * B) A) :
  (forall g b', unfed g -> unfed (m (g, b')).2.1 /\ (m (g, b')).2.2 = b') -> stays (idle b) (with_engine m).
Proof.
  intros Hm c [Hu [Hc Hb]]. unfold with_engine. destruct (Hm (auto_block_engine c) (core_store c) Hu) as [Hu' Hb'].
  destruct (m (auto_block_engine c, core_store c)) as [r [e b']]. cbn in *. split; [done|]. split; [done|by subst].
Qed.

Lemma core_run_idle b op c : idle b c -> idle b (core_run op c).
Proof.
  destruct op as [secs instant p s|secs instant p s|instant p d t|n|secs instant p|p|p|secs instant]; cbn [core_run].
  - apply stays_bind; [|auto with stays_db]. apply with_abuse_idle, record_signal_keeps.
  - apply with_abuse_idle, record_spam_keeps.
  - apply with_abuse_idle, record_outbound_keeps.
  - apply with_abuse_idle. intros [e b'] [He Hb]. by split.
  - apply with_engine_idle. intros g b' Hg. by rewrite unfed_block.
  - apply with_engine_idle. by intros g b' Hg.
  - apply with_engine_idle. by intros g b' Hg.
  - apply stays_try_ok, with_engine_idle. intros g b' Hg. by rewrite unfed_scan.
Qed.

(** The core never blocks a peer by itself.  Its engine judges peers by a manager of
    its own that no operation of the core records anything in: whatever signals, spam and
    messages are recorded and however often the maintenance scan runs, no peer is to be blocked
    and the store of blocks is as it was. *)
Theorem core_never_auto_blocks b ops instant p :
  let c := foldl (fun c op => core_run op c) (core_new b) ops in
  core_store c = b /\ exists r, auto_block_evaluate instant c p = Ok r /\ ar_should_block r = false.
Proof.
  intros c. assert (idle b c) as [Hu [_ Hb]].
  { unfold c. assert (idle b (core_new b)) as H0 by (by split_and!). revert H0. generalize (core_new b : AbuseCore S B).
    induction ops as [|op ops IH]; intros c0 H0; cbn [foldl]; [done|]. by apply IH, core_run_idle. }
  cbn in Hb. split; [done|]. unfold auto_block_evaluate. destruct (unfed_evaluate instant _ p (core_store c) Hu) as (r & -> & Hr). by exists r.
Qed.

(** The third part of the answer to [get_enhanced_peer_reputation] is never true: scores
    are not negative. *)
Theorem reputation_flag_never_set instant (c : AbuseCore S B) p x y flag :
  (forall s, rm_peers (base_manager (abuse_manager c)) !! p = Some s -> score_ok (reputation_score s)) ->
  get_enhanced_peer_reputation instant c p = Ok (x, y, flag) -> flag = false.
Proof.
  intros Hok. unfold get_enhanced_peer_reputation, core_enhanced, get_enhanced_score, enhance, bind.
  destruct (spam_score _ _ _ _) as [[v|e|] b']; cbn; try done. intros [= <- <- <-].
  assert (score_ok (get_score (base_manager (abuse_manager c)) p)) as (Hn & Hlo & _).
  { unfold get_score. destruct (_ !! p) as [s|]; [by apply Hok|]. split_and!; [done|by_computation|by_computation|by vm_compute]. }
  rewrite SFltb_spec by done. rewrite bool_decide_eq_true_2; [done|]. etrans; [|exact Hlo]. by_computation.
Qed.

(** *** A block that is carried out *)

(** A peer whose block can be written: its registry of devices is readable and its public key, if it is named by one, has an identity id. *)
Definition blockable b (p : string) : Prop :=
  registries_ok b /\ ((split_identifier_flavor p).2 = PublicKey -> is_Some (derived_of p)).

Lemma block_blocks secs p b : blockable b p -> exists b', block (blocked_new secs p) b = (Ok tt, b') /\ is_blocked p None b' = (Ok true, b').
Proof.
  intros [Hr Hd]. destruct (block_run (blocked_new secs p) b) as (b' & rows & Hb & _ & Hin & _); [done|done|]. exists b'. split; [done|].
  apply (is_blocked_true p None b' (split_identifier_flavor p).1); [apply raw_resolved|]. apply blocked_at_row, Hin. left.
Qed.

Lemma push_audit_spec n audit entry :
  1 <= n -> zlen (push_audit n audit entry) <= Z.max n (zlen audit) /\ last (push_audit n audit entry) = Some entry.
Proof.
  intros Hn. unfold push_audit. rewrite zlen_app, zlen_cons, zlen_nil. destruct (Z.ltb_spec n (zlen audit + (1 + 0))) as [Hlt|Hge].
  - unfold zlen in *. rewrite length_drop, length_app. cbn. split; [lia|]. rewrite drop_app_le by lia. by rewrite last_snoc.
  - split; [rewrite zlen_app, zlen_cons, zlen_nil; lia|apply last_snoc].
Qed.

(** A peer that is to be blocked is not exempt, and [evaluate_and_block] blocks it, with
    the reason and the scores as the last entry of the audit log, which stays within its limit. *)
Theorem auto_block_carried_out secs instant p (g : AutoBlockEngine S) b r :
  1 <= max_audit_entries (au_config g) -> zlen (au_audit_log g) <= max_audit_entries (au_config g) -> blockable b p ->
  evaluate instant g p b = (Ok r, b) -> ar_should_block r = true ->
  is_exempt g p = false /\ ac_enabled (au_config g) = true /\
  exists g' b', evaluate_and_block secs instant p (g, b) = (Ok true, (g', b')) /\ is_blocked p None b' = (Ok true, b') /\
    zlen (au_audit_log g') <= max_audit_entries (au_config g') /\
    last (au_audit_log g') = Some (mkAutoEntry p (default CombinedAbuse (ar_reason r)) (ar_reputation_score r) (ar_spam_confidence r) secs true).
Proof.
  intros Hmax Hlen Hb He Hr.
  assert (is_exempt g p = false /\ ac_enabled (au_config g) = true) as [Hx Hen].
  { unfold evaluate in He. destruct (ac_enabled (au_config g)); [|injection He as <-; done]. cbn [negb] in He. destruct (is_exempt g p); [|done].
    apply bind_ok_inv in He as (s & b1 & _ & [= <- _]). done. }
  split_and!; [done|done|]. destruct (block_blocks secs p b Hb) as (b' & Hblock & His).
  set (entry := mkAutoEntry p (default CombinedAbuse (ar_reason r)) (ar_reputation_score r) (ar_spam_confidence r) secs true).
  destruct (push_audit_spec (max_audit_entries (au_config g)) (au_audit_log g) entry Hmax) as [Hn Hlast].
  exists (mkAuto (au_config g) (reputation_manager g) (push_audit (max_audit_entries (au_config g)) (au_audit_log g) entry)), b'.
  split_and!; [|done|cbn; lia|done]. unfold evaluate_and_block, bind, on_store. cbn [fst]. rewrite He, Hr. cbn [negb]. by rewrite Hblock.
Qed.

(** *** Scans *)

(** The verdict of an engine without the community test; the store plays no part in it. *)
Definition condemned instant (g : AutoBlockEngine S) b (p : string) : bool :=
  match (evaluate instant g p b).1 with Ok r => ar_should_block r | _ => false end.

Lemma heuristic_score instant e p x b : sd_community (spam_detector e) = false -> exists s, forall b' : B, enhance instant e p x b' = (Ok s, b').
Proof.
  intros Hc. unfold enhance, spam_score, bind. eexists. intros b'. rewrite detect_heuristic by done. cbn zeta iota. reflexivity.
Qed.

Lemma heuristic_evaluate instant (g : AutoBlockEngine S) p b :
  sd_community (spam_detector (reputation_manager g)) = false ->
  exists r, (forall b' : B, evaluate instant g p b' = (Ok r, b')) /\ ar_should_block r = condemned instant g b p.
Proof.
  intros Hc. destruct (heuristic_score instant (reputation_manager g) p (get_score (base_manager (reputation_manager g)) p) b Hc) as [s Hs].
  assert (exists r, forall b' : B, evaluate instant g p b' = (Ok r, b')) as [r Hr].
  { unfold evaluate. destruct (negb _); [by eexists|]. destruct (is_exempt g p); eexists; intros b';
      rewrite (bind_run _ _ _ _ _ (Hs b')); reflexivity. }
  exists r. split; [done|]. unfold condemned. by rewrite Hr.
Qed.

Definition same_judge (g g' : AutoBlockEngine S) : Prop := au_config g' = au_config g /\ reputation_manager g' = reputation_manager g.

Lemma condemned_same instant g g' b b' p :
  sd_community (spam_detector (reputation_manager g)) = false -> same_judge g g' -> condemned instant g' b' p = condemned instant g b p.
Proof.
  intros Hc [Hcfg Hrep]. destruct (heuristic_evaluate instant g p b Hc) as (r & Hr & <-). unfold condemned.
  replace (evaluate instant g' p b') with (evaluate instant g p b'); [by rewrite Hr|]. unfold evaluate, is_exempt. by rewrite Hcfg, Hrep.
Qed.

(** The peers of a list can all be blocked. *)
Definition nameable (p : string) : Prop := (split_identifier_flavor p).2 = PublicKey -> is_Some (derived_of p).

Lemma block_one secs instant g b p :
  sd_community (spam_detector (reputation_manager g)) = false -> registries_ok b -> nameable p ->
  exists g' b', evaluate_and_block secs instant p (g, b) = (Ok (condemned instant g b p), (g', b')) /\ same_judge g g' /\ registries_ok b'.
Proof.
  intros Hc Hb Hp. destruct (heuristic_evaluate instant g p b Hc) as (r & Hr & Hcond). rewrite <-Hcond.
  unfold evaluate_and_block, bind, on_store. cbn [fst]. rewrite Hr. destruct (ar_should_block r); cbn [negb]; [|exists g, b; by split_and!].
  destruct (block_run (blocked_new secs p) b) as (b' & rows & -> & _ & _ & _ & Hout & _); [done|done|]. eexists _, b'. split_and!; [reflexivity|by split|].
  intros id data. rewrite (registries_preserved b b' rows Hout). apply Hb.
Qed.

Lemma scan_loop secs instant (l : list (string * EnhancedReputationScore)) g b n :
  sd_community (spam_detector (reputation_manager g)) = false -> registries_ok b -> Forall nameable l.*1 ->
  exists g' b', mfold (fun blocked_count ps =>
      let* blocked := evaluate_and_block secs instant ps.1 in ret (if blocked : bool then blocked_count + 1 else blocked_count)) n l (g, b) =
    (Ok (n + zlen (filter (fun p => condemned instant g b p = true) l.*1)), (g', b')) /\ same_judge g g' /\ registries_ok b'.
Proof.
  revert g b n. induction l as [|[p s] l IH]; intros g b n Hc Hb Hl.
  { exists g, b. cbn. rewrite Z.add_0_r. by split_and!. }
  rewrite fmap_cons in *. apply Forall_cons in Hl as [Hp Hl]. cbn [fst] in *. destruct (block_one secs instant g b p Hc Hb Hp) as (g1 & b1 & H1 & Hs1 & Hb1).
  destruct (IH g1 b1 (if condemned instant g b p then n + 1 else n)) as (g2 & b2 & H2 & Hs2 & Hb2); [by rewrite (proj2 Hs1)|done|done|].
  exists g2, b2. cbn [mfold]. split_and!; [|destruct Hs1, Hs2; split; congruence|done].
  erewrite bind_run; [|unfold bind; cbn [fst]; rewrite H1; reflexivity]. rewrite H2, filter_cons.
  rewrite (list_filter_iff _ (fun q => condemned instant g b q = true) l.*1) by (intros q; by rewrite (condemned_same instant g g1 b b1)).
  destruct (condemned instant g b p); [rewrite decide_True, zlen_cons by done|by rewrite decide_False]. do 2 f_equal. lia.
Qed.

Lemma all_scores_run instant e b :
  sd_community (spam_detector e) = false ->
  exists l, all_enhanced_scores instant e b = (Ok l, b) /\ l.*1 = (hm_iter (rm_peers (base_manager e))).*1.
Proof.
  intros Hc. unfold all_enhanced_scores, all_reputations.
  assert (forall (xs : list (string * f64)) acc, exists l,
    mfold (fun acc ps => let* s := enhance instant e ps.1 ps.2 in ret (acc ++ [(ps.1, s)])) acc xs b = (Ok l, b) /\ l.*1 = acc.*1 ++ xs.*1) as H.
  { induction xs as [|[p x] xs IH]; intros acc; [exists acc; split; [done|by rewrite app_nil_r]|]. cbn [mfold fst snd].
    destruct (heuristic_score instant e p x b Hc) as [s Hs]. destruct (IH (acc ++ [(p, s)])) as (l & Hl & Hk). exists l. split.
    - erewrite bind_run; [exact Hl|]. by rewrite (bind_run _ _ _ _ _ (Hs b)).
    - rewrite Hk, fmap_app, <-app_assoc. done. }
  destruct (H ((fun ks => (ks.1, reputation_score ks.2)) <$> hm_iter (rm_peers (base_manager e))) []) as (l & Hl & Hk).
  exists l. split; [done|]. rewrite Hk. cbn. rewrite <-list_fmap_compose. done.
Qed.

(** A scan blocks and counts every tracked peer that the engine condemns, and the next
    scan counts the same peers again, although they are already blocked. *)
Theorem scan_counts_again secs secs' instant (g : AutoBlockEngine S) b :
  sd_community (spam_detector (reputation_manager g)) = false -> registries_ok b ->
  Forall nameable (hm_iter (rm_peers (base_manager (reputation_manager g)))).*1 ->
  let n := zlen (filter (fun p => condemned instant g b p = true) (hm_iter (rm_peers (base_manager (reputation_manager g)))).*1) in
  exists g1 b1 g2 b2, evaluate_all_tracked secs instant (g, b) = (Ok n, (g1, b1)) /\
    evaluate_all_tracked secs' instant (g1, b1) = (Ok n, (g2, b2)).
Proof.
  intros Hc Hb Hn n.
  assert (forall secs0 g0 b0, same_judge g g0 -> registries_ok b0 ->
    exists g' b', evaluate_all_tracked secs0 instant (g0, b0) = (Ok n, (g', b')) /\ same_judge g g' /\ registries_ok b') as Hscan.
  { intros secs0 g0 b0 Hs Hb0. assert (sd_community (spam_detector (reputation_manager g0)) = false) as Hc0 by (by rewrite (proj2 Hs)).
    destruct (all_scores_run instant (reputation_manager g0) b0 Hc0) as (l & Hl & Hk). rewrite (proj2 Hs) in Hk.
    destruct (scan_loop secs0 instant l g0 b0 0 Hc0 Hb0) as (g' & b' & Hrun & Hs' & Hb'); [by rewrite Hk|]. exists g', b'.
    split_and!; [|destruct Hs, Hs'; split; congruence|done]. unfold evaluate_all_tracked. erewrite bind_run; [|unfold on_store; cbn [fst]; rewrite Hl; reflexivity].
    rewrite Hrun, Hk, Z.add_0_l. unfold n. do 3 f_equal. apply list_filter_iff. intros q. by rewrite (condemned_same instant g g0 b b0). }
  destruct (Hscan secs g b) as (g1 & b1 & H1 & Hs1 & Hb1); [done|done|]. destruct (Hscan secs' g1 b1 Hs1 Hb1) as (g2 & b2 & H2 & _).
  by exists g1, b1, g2, b2.
Qed.
End CoreLaws.

(** ** Concrete inputs *)

Module AutoBlockExamples.
Import SampleIds.

#[local] Instance ex_iter : HashIter bytes bytes := canonical_iter.
#[local] Instance ex_iter_p : HashIter string PeerAbuseStats := canonical_iter.
#[local] Instance ex_iter_t : HashIter string PeerMessageTrack := canonical_iter.
#[local] Instance ex_iter_f : HashIter Z Z := canonical_iter.
#[local] Instance ex_build : Build := {| overflow_checks := true |}.
#[local] Existing Instance BlockedExamples.ex_codec.
#[local] Existing Instance BlockedExamples.ex_lawful.
#[local] Existing Instance BlockedExamples.ex_codec_d.
#[local] Existing Instance BlockedExamples.ex_lawful_d.
#[local] Existing Instance ContactExamples.ex_codec.
#[local] Existing Instance ReputationExamples.ex_codec.

Definition fresh_manager : EnhancedAbuseReputationManager MemoryStorage := enhanced_new 1000 (new_heuristics_only spam_config_default).

(** An engine whose manager was told that [mallory] exceeded her rate limit once. *)
Definition FED : AutoBlockEngine MemoryStorage :=
  auto_new auto_config_default
    (enhanced_record_signal 1000 5 "mallory" RateLimited (fresh_manager, memory_new)).2.1.

Lemma empty_registries : registries_ok memory_new.
Proof. intros id data Hd. cbn in Hd. by rewrite lookup_empty in Hd. Qed.

Lemma auto_block_carried_out_witness :
  exists g' b', evaluate_and_block 1000 5 "mallory" (FED, memory_new) = (Ok true, (g', b')) /\ is_blocked "mallory" None b' = (Ok true, b').
Proof.
  destruct (evaluate 5 FED "mallory" memory_new) as [[r|e|] b] eqn:He; [|by vm_compute in He..].
  assert (b = memory_new /\ ar_should_block r = true) as [-> Hr] by (vm_compute in He; by injection He as <- <-).
  destruct (auto_block_carried_out 1000 5 "mallory" FED memory_new r) as (_ & _ & g' & b' & H1 & H2 & _);
    [by vm_compute|by vm_compute|split; [apply empty_registries|by vm_compute]|exact He|exact Hr|].
  exists g', b'. split; [exact H1|exact H2].
Defined.

Lemma scan_counts_again_witness :
  exists g1 b1 g2 b2, evaluate_all_tracked 1000 5 (FED, memory_new) = (Ok 1, (g1, b1)) /\
    evaluate_all_tracked 2000 5 (g1, b1) = (Ok 1, (g2, b2)).
Proof.
  destruct (scan_counts_again 1000 2000 5 FED memory_new) as (g1 & b1 & g2 & b2 & H1 & H2); [done|apply empty_registries| |].
  - vm_compute. repeat constructor. discriminate.
  - exists g1, b1, g2, b2. split; [exact H1|exact H2].
Defined.

Definition CORE : AbuseCore MemoryStorage MemoryStorage := core_run (OpSignal 1000 5 "mallory" "RateLimited") (core_new memory_new).

(** The same signal, told to the core: its reputation is that of an abuser, and it is not blocked. *)
Example core_unaware :
  is_abusive (get_peer_reputation CORE "mallory") = true /\
  rmap ar_should_block (auto_block_evaluate 5 CORE "mallory") = Ok false.
Proof. by vm_compute. Qed.

Lemma reputation_flag_never_set_witness : exists x y, get_enhanced_peer_reputation 5 CORE "mallory" = Ok (x, y, false).
Proof.
  destruct (get_enhanced_peer_reputation 5 CORE "mallory") as [[[x y] flag]|e|] eqn:Hr; [|by vm_compute in Hr..].
  exists x, y. rewrite (reputation_flag_never_set 5 CORE "mallory" x y flag); [done| |exact Hr].
  intros s Hs. vm_compute in Hs. injection Hs as <-.
  split; [by vm_compute|]. split; [by_computation|]. split; [by_computation|]. cbn [canonical reputation_score]. lia.
Defined.

End AutoBlockExamples.
