(* ===== verification/DialPolicy.v ===== *)
(** * Dial policy ([core/src/transport/dial_policy.rs])

    The backoff of each address, the limit on dials in flight, and the ladder of circuit
    addresses through known relays.  The clock is monotonic and counts nanoseconds; it is an
    argument of the operations. *)

From S2P Require Import Prelude Effects AddrFilter.

Definition secs (n : Z) : Z := n * 10 ^ 9.
Definition as_secs (d : Z) : Z := d / 10 ^ 9.

(** ** Backoff of one address *)

Record PerPeerBackoffState : Type := mkBackoff {
  attempt_count : Z;
  last_attempt_ts : Z;
  backoff_duration : Z;
  is_dead : bool;
  bo_peer_id : option string;
}.

Definition backoff_new (now : Z) (peer_id : option string) : PerPeerBackoffState := mkBackoff 0 now (secs 1) false peer_id.

Definition is_eligible (now : Z) (s : PerPeerBackoffState) : bool :=
  if is_dead s then false
  else if 3 <=? attempt_count s then false
  else if attempt_count s =? 0 then true
  else last_attempt_ts s + backoff_duration s <=? now.

Definition on_dial_failure `{Build} (now : Z) (s : PerPeerBackoffState) : res string PerPeerBackoffState :=
  let! n := chk_u 32 (attempt_count s + 1) in
  let! doubled := chk_u 64 (as_secs (backoff_duration s) * 2) in
  Ok (mkBackoff n now (secs (Z.min doubled 30)) (if 3 <=? n then true else is_dead s) (bo_peer_id s)).

Definition on_permanent_failure (s : PerPeerBackoffState) : PerPeerBackoffState :=
  mkBackoff 3 (last_attempt_ts s) (backoff_duration s) true (bo_peer_id s).

Definition on_connection_established (now : Z) (s : PerPeerBackoffState) : PerPeerBackoffState :=
  mkBackoff 0 now (secs 1) false (bo_peer_id s).

(** ** The manager *)

Record DialPolicyManager : Type := mkDial {
  peer_backoff : gmap string PerPeerBackoffState;
  concurrent_dials : gmap string Z;
}.

Definition dial_new : DialPolicyManager := mkDial ∅ ∅.

(** [entry(addr_key).or_insert_with(|| PerPeerBackoffState::new(peer_id))]. *)
Definition entry_of (now : Z) (m : DialPolicyManager) (addr_key : string) (peer_id : option string) : PerPeerBackoffState :=
  default (backoff_new now peer_id) (peer_backoff m !! addr_key).

Definition set_entry (m : DialPolicyManager) (addr_key : string) (s : PerPeerBackoffState) : DialPolicyManager :=
  mkDial (<[addr_key := s]> (peer_backoff m)) (concurrent_dials m).

Definition register_dial_attempt (now : Z) (m : DialPolicyManager) (addr_key : string) (peer_id : option string) : bool * DialPolicyManager :=
  let state := entry_of now m addr_key peer_id in
  let m := set_entry m addr_key state in
  if negb (is_eligible now state) then (false, m)
  else
    let dial_count := default 0 (concurrent_dials m !! addr_key) in
    if 3 <=? dial_count then (false, mkDial (peer_backoff m) (<[addr_key := dial_count]> (concurrent_dials m)))
    else (true, mkDial (peer_backoff m) (<[addr_key := dial_count + 1]> (concurrent_dials m))).

Definition complete_dial_attempt (m : DialPolicyManager) (addr_key : string) : DialPolicyManager :=
  match concurrent_dials m !! addr_key with
  | Some count => if 0 <? count then mkDial (peer_backoff m) (<[addr_key := count - 1]> (concurrent_dials m)) else m
  | None => m
  end.

Definition record_dial_failure `{Build} (now : Z) (m : DialPolicyManager) (addr_key : string) (peer_id : option string) : res string DialPolicyManager :=
  let! s := on_dial_failure now (entry_of now m addr_key peer_id) in
  Ok (set_entry m addr_key s).

Definition record_permanent_failure (now : Z) (m : DialPolicyManager) (addr_key : string) (peer_id : option string) : DialPolicyManager :=
  set_entry m addr_key (on_permanent_failure (entry_of now m addr_key peer_id)).

Definition reset_on_connection_established (now : Z) (m : DialPolicyManager) (addr_key : string) (peer_id : option string) : DialPolicyManager :=
  set_entry m addr_key (on_connection_established now (entry_of now m addr_key peer_id)).

Definition reset_peer_backoff (now : Z) (m : DialPolicyManager) (peer_id : string) : DialPolicyManager :=
  mkDial ((fun s => if bool_decide (bo_peer_id s = Some peer_id) && (is_dead s || (0 <? attempt_count s))
                    then on_connection_established now s else s) <$> peer_backoff m) (concurrent_dials m).

Definition get_backoff_state (m : DialPolicyManager) (addr_key : string) : option PerPeerBackoffState := peer_backoff m !! addr_key.

Definition stale (now max_age : Z) (s : PerPeerBackoffState) : bool := max_age <? sat_sub now (last_attempt_ts s).

Section Prune.
Context {HI : HashIter string PerPeerBackoffState}.

Definition prune_old_entries (now max_age : Z) (m : DialPolicyManager) : DialPolicyManager :=
  let stale_peers := (filter (fun ks => stale now max_age ks.2 = true) (hm_iter (peer_backoff m))).*1 in
  foldl (fun m peer_key => mkDial (delete peer_key (peer_backoff m)) (delete peer_key (concurrent_dials m))) m stale_peers.
End Prune.

Definition multiaddr_to_key {ML : MultiaddrLib} (addr : Multiaddr) : string := print_multiaddr (filter (fun p => is_peer p = false) addr).

(** ** Circuit addresses *)

Record CircuitRelayLadder : Type := mkLadder { relays : list (string * list Multiaddr) }.

Definition ladder_new : CircuitRelayLadder := mkLadder [].

Definition remove_relay (l : CircuitRelayLadder) (relay_peer_id : string) : CircuitRelayLadder :=
  mkLadder (filter (fun e => e.1 <> relay_peer_id) (relays l)).

Definition add_relay (l : CircuitRelayLadder) (relay_peer_id : string) (external_addrs : list Multiaddr) : CircuitRelayLadder :=
  mkLadder (relays (remove_relay l relay_peer_id) ++ [(relay_peer_id, external_addrs)]).

(** The loop over the components of a relay's address: the direct part, whether it has an IP address and a port. *)
Definition direct_step (acc : Multiaddr * bool * bool) (proto : Protocol) : Multiaddr * bool * bool :=
  let '(direct_addr, has_ip, has_port) := acc in
  match proto with
  | Ip4 _ | Ip6 _ => (direct_addr ++ [proto], true, has_port)
  | Tcp _ | Udp _ => (direct_addr ++ [proto], has_ip, true)
  | P2p _ => acc
  | other => (direct_addr ++ [other], has_ip, has_port)
  end.

Definition circuit_address (relay_pid target_peer_id : string) (relay_addr : Multiaddr) : option Multiaddr :=
  if existsb is_circuit relay_addr then None
  else
    let '(direct_addr, has_ip, has_port) := foldl direct_step ([], false, false) relay_addr in
    if has_ip && has_port then Some (direct_addr ++ [P2p relay_pid; P2pCircuit; P2p target_peer_id]) else None.

(** The order in which a [HashSet] of these elements is iterated. *)
Class SetOrder (A : Type) : Type := {
  set_order : list A -> list A;
  set_order_perm : forall l, set_order l ≡ₚ l;
}.

Definition build_relay_addresses {SO : SetOrder Multiaddr} (l : CircuitRelayLadder) (target_peer_id : string) : list Multiaddr :=
  set_order (remove_dups (relays l ≫= fun '(relay_pid, external_addrs) =>
    if bool_decide (relay_pid = target_peer_id) then []
    else omap (circuit_address relay_pid target_peer_id) external_addrs)).

(** ** The state of an address *)

(** What the operations leave: whole seconds up to thirty, and for an address that is not
    dead fewer than three failures and a backoff that doubled with each. *)
Record backoff_ok (s : PerPeerBackoffState) : Prop := {
  ok_attempts : 0 <= attempt_count s < 2 ^ 32;
  ok_backoff : exists d, backoff_duration s = secs d /\ 1 <= d <= 30;
  ok_live : is_dead s = false -> attempt_count s < 3 /\ backoff_duration s = secs (2 ^ attempt_count s);
}.

Lemma as_secs_secs n : as_secs (secs n) = n.
Proof. unfold as_secs, secs. by rewrite Z.div_mul. Qed.

Lemma backoff_new_ok now p : backoff_ok (backoff_new now p).
Proof. split; cbn -[secs]; [lia| |by split]. exists 1. by split. Qed.

Lemma permanent_ok s : backoff_ok s -> backoff_ok (on_permanent_failure s).
Proof. intros [_ Hb _]. split; cbn -[secs]; [lia|done|done]. Qed.

Lemma established_ok now s : backoff_ok (on_connection_established now s).
Proof. apply (backoff_new_ok now (bo_peer_id s)). Qed.

Lemma failure_ok `{Build} now s s' : backoff_ok s -> on_dial_failure now s = Ok s' -> backoff_ok s'.
Proof.
  intros [Hn (d & Hd & Hr) Hl] (n & Hc & (x & Hx & [= <-])%rbind_ok_inv)%rbind_ok_inv. rewrite Hd, as_secs_secs in Hx.
  rewrite chk_u_ok in Hx by (unfold in_u; lia). injection Hx as <-. pose proof (chk_u_range 32 _ n ltac:(lia) Hc) as Hin.
  split; cbn -[secs Z.pow]; [exact Hin|exists (Z.min (d * 2) 30); split; [done|lia]|].
  destruct (Z.leb_spec 3 n); [done|]. intros [Hlt Hb]%Hl. split; [done|]. rewrite chk_u_ok in Hc by (unfold in_u; lia). injection Hc as <-.
  assert (d = 2 ^ attempt_count s) as -> by (apply (f_equal as_secs) in Hb; by rewrite Hd, !as_secs_secs in Hb).
  f_equal. assert (attempt_count s = 0 \/ attempt_count s = 1) as [-> | ->] by lia; reflexivity.
Qed.

(** ** Runs of the manager *)

Record dial_ok (m : DialPolicyManager) : Prop := {
  ok_states : map_Forall (fun _ s => backoff_ok s) (peer_backoff m);
  ok_counts : map_Forall (fun (_ : string) n => 0 <= n <= 3) (concurrent_dials m);
}.

Inductive dial_op : Type :=
  | Register (now : Z) (key : string) (peer : option string)
  | Complete (key : string)
  | Failed (now : Z) (key : string) (peer : option string)
  | Permanent (now : Z) (key : string) (peer : option string)
  | Connected (now : Z) (key : string) (peer : option string)
  | PeerUp (now : Z) (peer : string)
  | Prune (now max_age : Z).

Section Runs.
Context {BM : Build} {HI : HashIter string PerPeerBackoffState}.

Definition dial_run (m : DialPolicyManager) (op : dial_op) : res string DialPolicyManager :=
  match op with
  | Register now k p => Ok (register_dial_attempt now m k p).2
  | Complete k => Ok (complete_dial_attempt m k)
  | Failed now k p => record_dial_failure now m k p
  | Permanent now k p => Ok (record_permanent_failure now m k p)
  | Connected now k p => Ok (reset_on_connection_established now m k p)
  | PeerUp now p => Ok (reset_peer_backoff now m p)
  | Prune now age => Ok (prune_old_entries now age m)
  end.

Lemma entry_of_ok now m k p : dial_ok m -> backoff_ok (entry_of now m k p).
Proof. intros [Hs _]. unfold entry_of. destruct (peer_backoff m !! k) as [s|] eqn:Hk; [exact (Hs k s Hk)|apply backoff_new_ok]. Qed.

Lemma set_backoff_ok m k s : dial_ok m -> backoff_ok s -> dial_ok (set_entry m k s).
Proof. intros [Hs Hc] Hk. split; [by apply map_Forall_insert_2|done]. Qed.

Lemma set_count_ok m k n : dial_ok m -> 0 <= n <= 3 -> dial_ok (mkDial (peer_backoff m) (<[k := n]> (concurrent_dials m))).
Proof. intros [Hs Hc] Hn. split; [done|by apply map_Forall_insert_2]. Qed.

Lemma count_ok m k : dial_ok m -> 0 <= default 0 (concurrent_dials m !! k) <= 3.
Proof. intros [_ Hc]. destruct (concurrent_dials m !! k) as [n|] eqn:Hk; [exact (Hc k n Hk)|cbn; lia]. Qed.

Lemma prune_lookup now age m k :
  let m' := prune_old_entries now age m in
  let gone := match peer_backoff m !! k with Some s => stale now age s | None => false end in
  peer_backoff m' !! k = (if gone then None else peer_backoff m !! k) /\
  concurrent_dials m' !! k = (if gone then None else concurrent_dials m !! k).
Proof.
  cbn. unfold prune_old_entries. set (l := (filter _ _).*1).
  assert (k ∈ l <-> match peer_backoff m !! k with Some s => stale now age s | None => false end = true) as Hin.
  { unfold l. rewrite list_elem_of_fmap. split.
    - intros ([k' s] & -> & [Hst Hk]%list_elem_of_filter). apply elem_of_hm_iter in Hk. cbn. by rewrite Hk.
    - destruct (peer_backoff m !! k) as [s|] eqn:Hk; [|done]. intros Hst. exists (k, s). split; [done|]. apply list_elem_of_filter.
      split; [done|by apply elem_of_hm_iter]. }
  assert (forall (l : list string) m, let m' := foldl (fun m key => mkDial (delete key (peer_backoff m)) (delete key (concurrent_dials m))) m l in
    peer_backoff m' !! k = (if decide (k ∈ l) then None else peer_backoff m !! k) /\
    concurrent_dials m' !! k = (if decide (k ∈ l) then None else concurrent_dials m !! k)) as Hfold.
  { clear. induction l as [|x l IH]; intros m; cbn [foldl]; [by rewrite decide_False by apply not_elem_of_nil|].
    destruct (IH (mkDial (delete x (peer_backoff m)) (delete x (concurrent_dials m)))) as [-> ->]. cbn. destruct (decide (k = x)) as [-> |Hne].
    - rewrite !lookup_delete_eq. repeat case_decide; set_solver.
    - rewrite !lookup_delete_ne by done. repeat case_decide; set_solver. }
  destruct (Hfold l m) as [-> ->]. revert Hin. generalize (match peer_backoff m !! k with Some s => stale now age s | None => false end).
  intros [] Hin; [rewrite !decide_True by tauto|rewrite !decide_False by naive_solver]; done.
Qed.

Lemma dial_run_ok m op m' : dial_ok m -> dial_run m op = Ok m' -> dial_ok m'.
Proof.
  intros Hok. destruct op as [now k p|k|now k p|now k p|now k p|now p|now age]; cbn [dial_run].
  - intros [= <-]. unfold register_dial_attempt. set (s := entry_of now m k p). pose proof (set_backoff_ok m k s Hok (entry_of_ok now m k p Hok)) as Hset.
    destruct (negb _); [done|]. pose proof (count_ok (set_entry m k s) k Hset). destruct (Z.leb_spec 3 (default 0 (concurrent_dials (set_entry m k s) !! k))); cbn [snd];
      apply (set_count_ok (set_entry m k s)); done || lia.
  - intros [= <-]. unfold complete_dial_attempt. destruct (concurrent_dials m !! k) as [n|] eqn:Hk; [|done]. destruct (Z.ltb_spec 0 n); [|done].
    apply set_count_ok; [done|]. pose proof (count_ok m k Hok) as Hc. rewrite Hk in Hc. cbn in Hc. lia.
  - intros (s & Hs & [= <-])%rbind_ok_inv. apply set_backoff_ok; [done|]. eapply failure_ok; [|exact Hs]. by apply entry_of_ok.
  - intros [= <-]. apply set_backoff_ok, permanent_ok, entry_of_ok; done.
  - intros [= <-]. apply set_backoff_ok, established_ok; done.
  - intros [= <-]. destruct Hok as [Hs Hc]. split; [|done]. intros k s (s0 & <- & H0)%lookup_fmap_Some. case_match; [apply established_ok|exact (Hs k s0 H0)].
  - intros [= <-]. destruct Hok as [Hs Hc]. split.
    + intros k s Hk. destruct (prune_lookup now age m k) as [H1 _]. cbv zeta in H1. rewrite H1 in Hk. destruct (match _ with Some _ => _ | None => _ end) in Hk; [done|exact (Hs k s Hk)].
    + intros k n Hk. destruct (prune_lookup now age m k) as [_ H2]. cbv zeta in H2. rewrite H2 in Hk. destruct (match _ with Some _ => _ | None => _ end) in Hk; [done|exact (Hc k n Hk)].
Qed.

(** ** Properties of the backoff *)

(** In every state that a sequence of operations reaches, at most three dials are counted
    for an address, and a dial that is not refused outright waits for nothing, for two seconds
    after one failure, or for four after two; the backoffs above that belong to dead addresses. *)
Theorem dial_schedule ops m k s now :
  rfold dial_run dial_new ops = Ok m -> peer_backoff m !! k = Some s ->
  0 <= default 0 (concurrent_dials m !! k) <= 3 /\
  (is_eligible now s = true <->
     is_dead s = false /\ (attempt_count s = 0 \/ (attempt_count s = 1 /\ last_attempt_ts s + secs 2 <= now) \/
       (attempt_count s = 2 /\ last_attempt_ts s + secs 4 <= now))).
Proof.
  intros Hr Hk. assert (dial_ok m) as Hok.
  { assert (dial_ok dial_new) as H0 by (split; apply map_Forall_empty). revert H0 Hr. generalize dial_new.
    induction ops as [|op ops IH]; intros m0 H0 Hr; [by injection Hr as <-|]. cbn in Hr. apply rbind_ok_inv in Hr as (m1 & H1 & Hr).
    eapply IH; [|exact Hr]. by eapply dial_run_ok. }
  split; [by apply count_ok|]. destruct (ok_states m Hok k s Hk) as [Hn _ Hl]. unfold is_eligible. destruct (is_dead s); [naive_solver|].
  destruct (Hl eq_refl) as [Hlt ->]. rewrite (proj2 (Z.leb_gt 3 (attempt_count s))) by lia.
  assert (attempt_count s = 0 \/ attempt_count s = 1 \/ attempt_count s = 2) as [-> | [-> | ->]] by lia; cbn -[secs]; rewrite ?Z.leb_le; naive_solver lia.
Qed.

(** An address that is dead is refused until a connection to it, or to its peer, is
    established or its entry is pruned: no other operation makes it eligible. *)
Theorem dead_until_connected m op m' k s now :
  dial_run m op = Ok m' -> peer_backoff m !! k = Some s -> is_dead s = true ->
  (forall t p, op <> Connected t k p) -> (forall t p, op = PeerUp t p -> bo_peer_id s <> Some p) -> (forall t age, op <> Prune t age) ->
  exists s', peer_backoff m' !! k = Some s' /\ is_dead s' = true /\ bo_peer_id s' = bo_peer_id s /\
    forall p, (register_dial_attempt now m' k p).1 = false.
Proof.
  intros Hr Hk Hd Hc Hp Hn.
  assert (exists s', peer_backoff m' !! k = Some s' /\ is_dead s' = true /\ bo_peer_id s' = bo_peer_id s) as (s' & Hk' & Hd' & Hid).
  { assert (forall k0 x, (k0 = k -> is_dead x = true /\ bo_peer_id x = bo_peer_id s) ->
      exists s', peer_backoff (set_entry m k0 x) !! k = Some s' /\ is_dead s' = true /\ bo_peer_id s' = bo_peer_id s) as Hset.
    { intros k0 x Hx. cbn. destruct (decide (k0 = k)) as [-> |]; [rewrite lookup_insert_eq; exists x; naive_solver|rewrite lookup_insert_ne by done; by exists s]. }
    destruct op as [t k0 p|k0|t k0 p|t k0 p|t k0 p|t p|t age]; cbn [dial_run] in Hr.
    - injection Hr as <-. destruct (Hset k0 (entry_of t m k0 p)) as (s' & H1 & H2); [intros ->; unfold entry_of; by rewrite Hk|].
      exists s'. split; [|done]. unfold register_dial_attempt. by repeat case_match.
    - injection Hr as <-. exists s. split; [|done]. unfold complete_dial_attempt. by repeat case_match.
    - apply rbind_ok_inv in Hr as (x & (n & _ & (y & _ & [= <-])%rbind_ok_inv)%rbind_ok_inv & [= <-]). apply Hset. intros ->.
      unfold entry_of. rewrite Hk. cbn. rewrite Hd. by case_match.
    - injection Hr as <-. apply Hset. intros ->. unfold entry_of. by rewrite Hk.
    - injection Hr as <-. apply Hset. intros ->. by destruct (Hc t p).
    - injection Hr as <-. cbn. rewrite lookup_fmap, Hk. cbn. rewrite bool_decide_eq_false_2 by (by apply (Hp t p)). by exists s.
    - by destruct (Hn t age). }
  exists s'. split_and!; [done..|]. intros p. unfold register_dial_attempt, entry_of. rewrite Hk'. cbn. unfold is_eligible. by rewrite Hd'.
Qed.

(** *** Dials in flight *)

(** A run with the dials that were let through and are not complete. *)
Inductive flight_step : DialPolicyManager * gmap string Z -> DialPolicyManager * gmap string Z -> Prop :=
  | flight_register now k p m m' g ok :
      register_dial_attempt now m k p = (ok, m') ->
      flight_step (m, g) (m', if ok then <[k := default 0 (g !! k) + 1]> g else g)
  | flight_complete k m g : 0 < default 0 (g !! k) ->
      flight_step (m, g) (complete_dial_attempt m k, <[k := default 0 (g !! k) - 1]> g)
  | flight_other op m m' g : dial_run m op = Ok m' ->
      match op with Failed _ _ _ | Permanent _ _ _ | Connected _ _ _ | PeerUp _ _ => True | _ => False end -> flight_step (m, g) (m', g).

Definition counted (w : DialPolicyManager * gmap string Z) : Prop :=
  forall k, default 0 (concurrent_dials w.1 !! k) = default 0 (w.2 !! k) /\ 0 <= default 0 (w.2 !! k) <= 3.

Lemma flight_step_counted w w' : counted w -> flight_step w w' -> counted w'.
Proof.
  intros Hw Hs. destruct Hs as [now k p m m' g ok Hr|k m g Hg|op m m' g Hr Hop]; intros k'; pose proof (Hw k') as [Hc Hb]; cbn [fst snd] in *.
  - unfold register_dial_attempt in Hr. set (s := entry_of now m k p) in *. destruct (negb _); [by simplify_eq|]. cbn in Hr.
    destruct (Z.leb_spec 3 (default 0 (concurrent_dials m !! k))) as [Hfull|Hroom]; simplify_eq; cbn.
    + destruct (decide (k' = k)) as [-> |]; [rewrite lookup_insert_eq|rewrite lookup_insert_ne by done]; done.
    + destruct (decide (k' = k)) as [-> |]; [rewrite !lookup_insert_eq|rewrite !lookup_insert_ne by done]; cbn; lia.
  - unfold complete_dial_attempt. destruct (Hw k) as [Hck Hbk]. cbn [fst snd] in *. destruct (concurrent_dials m !! k) as [n|] eqn:Hk; cbn in Hck.
    + rewrite (proj2 (Z.ltb_lt 0 n)) by lia. cbn. destruct (decide (k' = k)) as [-> |]; [rewrite !lookup_insert_eq|rewrite !lookup_insert_ne by done]; cbn; lia.
    + lia.
  - destruct op as [ | |t k0 p|t k0 p|t k0 p|t p| ]; try done; cbn [dial_run] in Hr.
    + by apply rbind_ok_inv in Hr as (x & _ & [= <-]).
    + by injection Hr as <-.
    + by injection Hr as <-.
    + by injection Hr as <-.
Qed.

(** While nothing is pruned, at most three dials to an address are in flight: the
    manager counts exactly the dials that it let through and that are not complete. *)
Theorem in_flight_bounded m g k :
  rtc flight_step (dial_new, ∅) (m, g) ->
  default 0 (concurrent_dials m !! k) = default 0 (g !! k) /\ 0 <= default 0 (g !! k) <= 3.
Proof.
  intros Hr. assert (counted (dial_new, ∅)) as H0 by (intros k'; cbn; rewrite !lookup_empty; cbn; lia).
  assert (forall w w', counted w -> rtc flight_step w w' -> counted w') as Hall.
  { intros w w' Hw Hs. induction Hs; eauto using flight_step_counted. }
  exact (Hall _ _ H0 Hr k).
Qed.

(** The limit is one for each address, not one for the node: any number of dials to
    different addresses is let through at once. *)
Theorem dials_unbounded_in_total keys now :
  NoDup keys ->
  let '(admitted, m) := foldl (fun '(l, m) k => let '(ok, m) := register_dial_attempt now m k None in (l ++ [ok], m)) ([], dial_new) keys in
  admitted = replicate (length keys) true /\ forall k, k ∈ keys -> concurrent_dials m !! k = Some 1.
Proof.
  induction keys as [|k keys IH] using rev_ind; intros Hnd; [by split; [|intros k ?%elem_of_nil]|].
  rewrite foldl_app. cbn [foldl]. apply NoDup_app in Hnd as (Hnd & Hk & _).
  assert (let '(_, m) := foldl (fun '(l, m) k => let '(ok, m) := register_dial_attempt now m k None in (l ++ [ok], m)) ([], dial_new) keys in
    forall k, k ∉ keys -> peer_backoff m !! k = None /\ concurrent_dials m !! k = None) as Hout.
  { clear. induction keys as [|x keys IH] using rev_ind; [intros k _; by cbn; rewrite !lookup_empty|]. rewrite foldl_app. cbn [foldl].
    destruct (foldl _ _ keys) as [l m]. destruct (register_dial_attempt now m x None) as [ok m'] eqn:Hr. intros k [Hk Hx]%not_elem_of_app.
    destruct (IH k Hk) as [H1 H2]. unfold register_dial_attempt in Hr. repeat case_match; simplify_eq; cbn; rewrite ?lookup_insert_ne by set_solver; done. }
  specialize (IH Hnd). destruct (foldl _ _ keys) as [l m]. destruct IH as [-> Hin].
  destruct (Hout k) as [H1 H2]; [intros Hk'; apply (Hk k Hk'); set_solver|].
  unfold register_dial_attempt, entry_of. rewrite H1. cbn. rewrite H2. cbn. rewrite length_app, replicate_add. split; [done|].
  intros k' [Hk'|Hk']%elem_of_app.
  - rewrite lookup_insert_ne; [by apply Hin|]. intros ->. apply (Hk k' Hk'). set_solver.
  - apply list_elem_of_singleton in Hk' as ->. apply lookup_insert_eq.
Qed.
End Runs.

(** ** Circuit addresses *)

Definition is_ip (p : Protocol) : bool := match p with Ip4 _ | Ip6 _ => true | _ => false end.
Definition is_port (p : Protocol) : bool := match p with Tcp _ | Udp _ => true | _ => false end.

Lemma direct_fold addr d i p :
  foldl direct_step (d, i, p) addr =
    (d ++ filter (fun x => is_peer x = false) addr, i || existsb is_ip addr, p || existsb is_port addr).
Proof.
  revert d i p. induction addr as [|x addr IH]; intros d i p; [cbn; by rewrite app_nil_r, !orb_false_r|].
  cbn [foldl existsb]. rewrite filter_cons.
  destruct x; cbn [direct_step is_peer is_ip is_port]; rewrite IH; case_decide; try done;
    rewrite <-?app_assoc, ?orb_true_r, ?orb_false_r; cbn; rewrite ?orb_true_r; done.
Qed.

Lemma circuit_address_spec relay target addr a :
  circuit_address relay target addr = Some a <->
  existsb is_circuit addr = false /\ existsb is_ip addr = true /\ existsb is_port addr = true /\
  a = filter (fun x => is_peer x = false) addr ++ [P2p relay; P2pCircuit; P2p target].
Proof.
  unfold circuit_address. rewrite direct_fold. cbn. destruct (existsb is_circuit addr); [naive_solver|].
  destruct (existsb is_ip addr), (existsb is_port addr); cbn; naive_solver.
Qed.

(** The circuit addresses of a target are exactly the direct parts of the known relays'
    own addresses, with an IP address and a port, followed by the relay, one circuit and the
    target; no relay is used to reach itself, and no address is listed twice. *)
Theorem relay_addresses_exact {SO : SetOrder Multiaddr} l target :
  NoDup (build_relay_addresses l target) /\
  forall a, a ∈ build_relay_addresses l target <->
    exists relay addrs ext, (relay, addrs) ∈ relays l /\ ext ∈ addrs /\ relay <> target /\
      existsb is_circuit ext = false /\ existsb is_ip ext = true /\ existsb is_port ext = true /\
      a = filter (fun x => is_peer x = false) ext ++ [P2p relay; P2pCircuit; P2p target].
Proof.
  unfold build_relay_addresses. split; [rewrite set_order_perm; apply NoDup_remove_dups|]. intros a.
  rewrite set_order_perm, elem_of_remove_dups, list_elem_of_bind. split.
  - intros ([relay addrs] & Ha & Hin). case_bool_decide as Hr; [by apply elem_of_nil in Ha|]. apply list_elem_of_omap in Ha as (ext & Hext & Hc).
    apply circuit_address_spec in Hc as (? & ? & ? & ->). by exists relay, addrs, ext.
  - intros (relay & addrs & ext & Hin & Hext & Hr & H). exists (relay, addrs). split; [|done]. rewrite bool_decide_eq_false_2 by done.
    apply list_elem_of_omap. exists ext. split; [done|]. by apply circuit_address_spec.
Qed.

(** A circuit address built from a relay's address passes the filter's own test of its
    shape: it has one circuit, and its peer-free form is the relay's address and the circuit. *)
Lemma circuit_address_circuits relay target addr a : circuit_address relay target addr = Some a -> circuits a = 1%nat.
Proof.
  intros (Hc & _ & _ & ->)%circuit_address_spec. unfold circuits. rewrite filter_app, length_app. cbn.
  destruct (filter is_circuit (filter (fun x => is_peer x = false) addr)) as [|x rest] eqn:Hf; [done|].
  assert (x ∈ filter is_circuit (filter (fun x => is_peer x = false) addr)) as Hx by (rewrite Hf; left).
  rewrite !list_elem_of_filter in Hx. destruct Hx as (Hcx & _ & Hx).
  assert (existsb is_circuit addr = true); [|congruence]. apply existsb_exists. exists x. split; [by apply list_elem_of_In|by apply Is_true_true].
Qed.

(** A registered relay replaces what was known of it, and relays stay distinct. *)
Theorem ladder_registers l relay addrs :
  NoDup (relays l).*1 ->
  NoDup (relays (add_relay l relay addrs)).*1 /\
  (forall e, e ∈ relays (add_relay l relay addrs) <-> e = (relay, addrs) \/ (e ∈ relays l /\ e.1 <> relay)) /\
  (forall e, e ∈ relays (remove_relay l relay) <-> e ∈ relays l /\ e.1 <> relay).
Proof.
  intros Hnd. assert (forall e, e ∈ relays (remove_relay l relay) <-> e ∈ relays l /\ e.1 <> relay) as Hrem.
  { intros e. cbn. rewrite list_elem_of_filter. tauto. }
  split_and!; [|intros e; cbn; rewrite elem_of_app, list_elem_of_singleton, list_elem_of_filter; tauto|done].
  cbn [relays add_relay]. rewrite fmap_app. apply NoDup_app. split_and!; [|intros k|apply NoDup_singleton].
  - eapply sublist_NoDup; [exact Hnd|]. apply fmap_sublist, sublist_filter.
  - intros ([k' a] & -> & [_ Hne]%Hrem)%list_elem_of_fmap. cbn in *. rewrite list_elem_of_singleton. done.
Qed.

(** ** Concrete inputs *)

Module DialPolicyExamples.

#[local] Instance ex_build : Build := {| overflow_checks := true |}.
#[local] Instance ex_iter : HashIter string PerPeerBackoffState := canonical_iter.
#[local] Instance ex_order : SetOrder Multiaddr := {| set_order l := l; set_order_perm := fun l => Permutation_refl l |}.

Definition twice_failed : list dial_op := [Register 0 "a" None; Complete "a"; Failed 5 "a" None; Failed 6 "a" None].

Definition after (ops : list dial_op) : DialPolicyManager := match rfold dial_run dial_new ops with Ok m => m | _ => dial_new end.

Lemma dial_schedule_witness : exists s, peer_backoff (after twice_failed) !! "a"%string = Some s /\
  is_eligible (secs 4 + 5) s = false /\ is_eligible (secs 4 + 6) s = true.
Proof.
  assert (is_Some (peer_backoff (after twice_failed) !! "a"%string)) as [s Hs] by (vm_compute; by eexists). exists s. split; [exact Hs|].
  assert (rfold dial_run dial_new twice_failed = Ok (after twice_failed)) as Hr by (by vm_compute).
  destruct (dial_schedule twice_failed (after twice_failed) "a" s (secs 4 + 5) Hr Hs) as [_ H1].
  destruct (dial_schedule twice_failed (after twice_failed) "a" s (secs 4 + 6) Hr Hs) as [_ H2].
  vm_compute in Hs. injection Hs as <-. split; [apply not_true_iff_false; rewrite H1|apply H2]; cbn; lia.
Defined.

Definition dead_a : DialPolicyManager := after [Permanent 3 "a" None].

Lemma dead_until_connected_witness : exists s, peer_backoff dead_a !! "a"%string = Some s /\
  (register_dial_attempt (secs 100) (after [Permanent 3 "a" None; Connected 4 "b" None]) "a" None).1 = false.
Proof.
  assert (is_Some (peer_backoff dead_a !! "a"%string)) as [s Hs] by (vm_compute; by eexists). exists s. split; [exact Hs|].
  destruct (dead_until_connected dead_a (Connected 4 "b" None) (after [Permanent 3 "a" None; Connected 4 "b" None]) "a" s (secs 100)) as (s' & _ & _ & _ & H);
    [by vm_compute|exact Hs|vm_compute in Hs; by injection Hs as <-|done|done|done|apply H].
Defined.

Lemma in_flight_bounded_witness : exists m g, rtc flight_step (dial_new, ∅) (m, g) /\ concurrent_dials m !! "a"%string = Some 1 /\ default 0 (g !! "a"%string) = 1.
Proof.
  destruct (register_dial_attempt 0 dial_new "a" None) as [ok m] eqn:Hr. assert (ok = true) as -> by (by vm_compute in Hr; simplify_eq).
  exists m, (<["a"%string := 1]> ∅). assert (rtc flight_step (dial_new, ∅) (m, <["a"%string := 1]> ∅)) as Hs.
  { apply rtc_once. exact (flight_register 0 "a" None dial_new m ∅ true Hr). }
  destruct (in_flight_bounded m (<["a"%string := 1]> ∅) "a" Hs) as [Hc _]. split; [exact Hs|]. split; [|by vm_compute].
  vm_compute in Hr. by simplify_eq.
Defined.

Lemma dials_unbounded_in_total_witness :
  (foldl (fun '(l, m) k => let '(ok, m) := register_dial_attempt 7 m k None in (l ++ [ok], m)) ([], dial_new) ["a"; "b"; "c"; "d"]%string).1 =
    [true; true; true; true].
Proof.
  pose proof (dials_unbounded_in_total ["a"; "b"; "c"; "d"]%string 7 ltac:(by_computation)) as H.
  destruct (foldl _ _ _) as [l m]. destruct H as [-> _]. done.
Defined.

(** A prune forgets the dials in flight: after it three more are let through. *)
Example prune_forgets_in_flight :
  let m := after [Register 0 "a" None; Register 0 "a" None; Register 0 "a" None] in
  (register_dial_attempt 1 m "a" None).1 = false /\
  (register_dial_attempt 9 (prune_old_entries 9 5 m) "a" None).1 = true.
Proof. by vm_compute. Qed.

Lemma ladder_registers_witness : NoDup (relays (add_relay (add_relay ladder_new "r" []) "r" [[Tcp 1]])).*1.
Proof. apply (ladder_registers (add_relay ladder_new "r" []) "r" [[Tcp 1]]). by_computation. Defined.

End DialPolicyExamples.
