(* ===== verification/Gatt.v ===== *)
(** * Messages over Bluetooth characteristics ([core/src/transport/ble/gatt.rs])

    Fragmentation of a message into writes of at most 512 bytes, reassembly, and the queue of
    writes with its limit. *)

From stdpp Require Import pretty.
From S2P Require Import Prelude Effects.

Definition MAX_CHARACTERISTIC_SIZE : Z := 512.
Definition DEFAULT_MAX_OUTSTANDING_WRITES : Z := 10.
Definition HEADER_SIZE : Z := 4.

Inductive GattCharacteristic : Type := Write | Notify | Status.

Definition uuid (c : GattCharacteristic) : Z :=
  match c with Write => 0xDF02 | Notify => 0xDF03 | Status => 0xDF04 end.

Inductive GattError : Type :=
  | WriteQueueFull
  | WriteFailed (text : string)
  | ReadFailed (text : string)
  | FragmentationError (text : string)
  | ReassemblyError (text : string)
  | InvalidCharacteristic
  | NotConnected.

(** ** Fragment headers *)

Record GattFragmentHeader : Type := mkHeader { total_fragments : Z; fragment_index : Z }.

Definition header_new (total_fragments fragment_index : Z) : res GattError GattFragmentHeader :=
  if total_fragments <=? fragment_index then Err (FragmentationError "Fragment index out of range")
  else Ok (mkHeader total_fragments fragment_index).

Definition header_to_bytes (h : GattFragmentHeader) : bytes := le_split 2 (total_fragments h) ++ le_split 2 (fragment_index h).

Definition header_from_bytes (b : bytes) : res GattError GattFragmentHeader :=
  if zlen b <? HEADER_SIZE then Err (ReassemblyError "Fragment header too short")
  else
    let! total_fragments := read_u16 b 0 in
    let! fragment_index := read_u16 b 2 in
    header_new total_fragments fragment_index.

(** ** Fragmentation *)

(** [slice::chunks], with the length of the slice as fuel. *)
Fixpoint chunks_from {A} (fuel n : nat) (l : list A) : list (list A) :=
  match fuel, l with
  | S fuel, _ :: _ => take n l :: chunks_from fuel n (drop n l)
  | _, _ => []
  end.

Definition chunks {A} (n : nat) (l : list A) : list (list A) := chunks_from (length l) n l.

Definition div_ceil (a b : Z) : Z := (a + b - 1) / b.

Definition max_payload_per_write : Z := MAX_CHARACTERISTIC_SIZE - HEADER_SIZE.

(** One write; [index as u16] and [total_fragments as u16] truncate. *)
Definition fragment_one (total_fragments : Z) (fragments : list bytes) (ic : nat * bytes) : res GattError (list bytes) :=
  let! header := header_new (total_fragments mod 2 ^ 16) (Z.of_nat ic.1 mod 2 ^ 16) in
  Ok (fragments ++ [header_to_bytes header ++ ic.2]).

Definition fragment (data : bytes) : res GattError (list bytes) :=
  let max_payload := max_payload_per_write in
  if zlen data =? 0 then Ok [[]]
  else
    let total_fragments := div_ceil (zlen data) max_payload in
    if u16_max <? total_fragments then Err (FragmentationError "Message too large for GATT fragmentation")
    else rfold (fragment_one total_fragments) [] (imap pair (chunks (Z.to_nat max_payload) data)).

(** ** Reassembly *)

Definition check_fragment (first_header : GattFragmentHeader) (acc : unit) (fragment : nat * bytes) : res GattError unit :=
  let! header := header_from_bytes fragment.2 in
  if negb (fragment_index header =? Z.of_nat fragment.1) then
    Err (ReassemblyError ("Fragment out of order: expected index " +:+ pretty fragment.1 +:+ ", got " +:+ pretty (fragment_index header)))
  else if negb (total_fragments header =? total_fragments first_header) then Err (ReassemblyError "Inconsistent fragment count")
  else Ok tt.

Definition reassemble (fragments : list bytes) : res GattError bytes :=
  match fragments with
  | [] => Ok []
  | first :: _ =>
      let! first_header := header_from_bytes first in
      let expected_total := total_fragments first_header in
      if negb (zlen fragments =? expected_total) then
        Err (ReassemblyError ("Expected " +:+ pretty expected_total +:+ " fragments, got " +:+ pretty (length fragments)))
      else
        let! _ := rfold (check_fragment first_header) tt (imap pair fragments) in
        Ok (fragments ≫= fun f => if HEADER_SIZE <? zlen f then drop (Z.to_nat HEADER_SIZE) f else [])
  end.

(** ** The queue of writes *)

Record GattWriteRequest : Type := mkWrite { wr_characteristic : GattCharacteristic; wr_data : bytes }.

Definition write_request_new (characteristic : GattCharacteristic) (data : bytes) : res GattError GattWriteRequest :=
  if MAX_CHARACTERISTIC_SIZE <? zlen data then Err (FragmentationError "Data exceeds characteristic size")
  else Ok (mkWrite characteristic data).

Record GattWriteQueue : Type := mkQueue { wq_queue : list GattWriteRequest; max_outstanding : Z }.

Definition queue_new (max_outstanding : Z) : GattWriteQueue := mkQueue [] max_outstanding.
Definition queue_new_default : GattWriteQueue := queue_new DEFAULT_MAX_OUTSTANDING_WRITES.
Definition queue_is_full (q : GattWriteQueue) : bool := max_outstanding q <=? zlen (wq_queue q).
Definition queue_is_empty (q : GattWriteQueue) : bool := zlen (wq_queue q) =? 0.
Definition queue_len (q : GattWriteQueue) : Z := zlen (wq_queue q).

Definition enqueue (q : GattWriteQueue) (request : GattWriteRequest) : res GattError GattWriteQueue :=
  if queue_is_full q then Err WriteQueueFull else Ok (mkQueue (wq_queue q ++ [request]) (max_outstanding q)).

Definition dequeue (q : GattWriteQueue) : option GattWriteRequest * GattWriteQueue :=
  match wq_queue q with
  | [] => (None, q)
  | r :: l => (Some r, mkQueue l (max_outstanding q))
  end.

Definition peek (q : GattWriteQueue) : option GattWriteRequest := head (wq_queue q).
Definition queue_clear (q : GattWriteQueue) : GattWriteQueue := mkQueue [] (max_outstanding q).

(** ** Chunks *)

Section Chunks.
Context {A : Type}.
Implicit Types l : list A.

Lemma chunks_from_spec fuel n l :
  (0 < n)%nat -> (length l <= fuel)%nat ->
  concat (chunks_from fuel n l) = l /\ Forall (fun c => 0 < length c <= n)%nat (chunks_from fuel n l) /\
  Z.of_nat (length (chunks_from fuel n l)) = div_ceil (zlen l) (Z.of_nat n).
Proof.
  intros Hn. revert l. induction fuel as [|fuel IH]; intros l Hl; [destruct l; [|cbn in Hl; lia]|destruct l as [|x l]].
  1,2: split_and!; [done|done|]; unfold div_ceil, zlen; cbn [length]; rewrite Z.div_small by lia; done.
  cbn [chunks_from]. destruct (IH (drop n (x :: l))) as (H1 & H2 & H3); [rewrite length_drop; cbn [length] in *; lia|].
  split_and!.
  - cbn [concat]. by rewrite H1, take_drop.
  - constructor; [|done]. rewrite length_take. cbn [length]. lia.
  - cbn [length]. rewrite Nat2Z.inj_succ, H3. unfold div_ceil, zlen. rewrite length_drop. set (k := length (x :: l)).
    assert (1 <= Z.of_nat k) by (unfold k; cbn [length]; lia). destruct (Z.le_gt_cases (Z.of_nat n) (Z.of_nat k)) as [Hle|Hgt].
    + replace (Z.of_nat k + Z.of_nat n - 1) with ((Z.of_nat (k - n) + Z.of_nat n - 1) + 1 * Z.of_nat n) by lia. rewrite Z.div_add by lia. lia.
    + replace (Z.of_nat (k - n)) with 0 by lia. rewrite (Z.div_small (0 + _ - 1)) by lia.
      replace (Z.of_nat k + Z.of_nat n - 1) with (1 * Z.of_nat n + (Z.of_nat k - 1)) by lia. rewrite Z.div_add_l, Z.div_small by lia. lia.
Qed.

Lemma chunks_spec n l :
  (0 < n)%nat -> concat (chunks n l) = l /\ Forall (fun c => 0 < length c <= n)%nat (chunks n l) /\ zlen (chunks n l) = div_ceil (zlen l) (Z.of_nat n).
Proof. intros Hn. by apply chunks_from_spec. Qed.
End Chunks.

(** ** Headers *)

(** The write that carries part [i] of [n]. *)
Definition framed (n i : Z) (p : bytes) : bytes := header_to_bytes (mkHeader n i) ++ p.

Lemma zlen_framed n i p : zlen (framed n i p) = 4 + zlen p.
Proof. unfold framed, header_to_bytes. autorewrite with zlen. cbn. lia. Qed.

Lemma header_framed n i p : in_u 16 n -> in_u 16 i -> header_from_bytes (framed n i p) = header_new n i.
Proof.
  intros Hn Hi. unfold header_from_bytes. rewrite zlen_framed, (proj2 (Z.ltb_ge _ _)) by (pose proof (zlen_nonneg p); unfold HEADER_SIZE; lia).
  unfold framed, header_to_bytes. cbn [total_fragments fragment_index]. rewrite <-app_assoc.
  rewrite (read_u16_head (le_split 2 n) _ 0 n); [|done|apply zlen_le_split|by apply le_combine_le_split]. cbn [rbind].
  rewrite read_u16_app_r by (by rewrite zlen_le_split).
  rewrite (read_u16_head (le_split 2 i) _ _ i); [done|by rewrite zlen_le_split|apply zlen_le_split|by apply le_combine_le_split].
Qed.

Lemma header_inv f h :
  header_from_bytes f = Ok h ->
  exists p, f = framed (total_fragments h) (fragment_index h) p /\ in_u 16 (total_fragments h) /\ 0 <= fragment_index h < total_fragments h.
Proof.
  unfold header_from_bytes. destruct (Z.ltb_spec (zlen f) HEADER_SIZE) as [|Hlen]; [done|]. unfold HEADER_SIZE in Hlen.
  destruct f as [|a [|b [|c [|d p]]]]; try (exfalso; unfold zlen in Hlen; cbn [length] in Hlen; lia).
  change (read_u16 (a :: b :: c :: d :: p) 0) with (@Ok GattError Z (le_combine [a; b])).
  change (read_u16 (a :: b :: c :: d :: p) 2) with (@Ok GattError Z (le_combine [c; d])). cbn [rbind]. unfold header_new.
  destruct (Z.leb_spec (le_combine [a; b]) (le_combine [c; d])); [done|]. intros [= <-]. exists p. cbn [total_fragments fragment_index].
  pose proof (le_combine_bound [a; b]). pose proof (le_combine_bound [c; d]). split_and!; [|done|lia..].
  unfold framed, header_to_bytes. cbn [total_fragments fragment_index]. pose proof (split_le_combine [a; b]) as Hab. pose proof (split_le_combine [c; d]) as Hcd.
  cbn [length] in Hab, Hcd. by rewrite Hab, Hcd.
Qed.

(** ** Lists of writes *)

(** The writes of a message in parts. *)
Definition numbered (ps : list bytes) : list bytes := imap (fun i p => framed (zlen ps) (Z.of_nat i) p) ps.

Lemma fragments_numbered_from cs n acc k :
  (k + length cs <= n)%nat -> Z.of_nat n <= u16_max ->
  rfold (fragment_one (Z.of_nat n)) acc (imap (fun i c => ((k + i)%nat, c)) cs) =
    Ok (acc ++ imap (fun i p => framed (Z.of_nat n) (Z.of_nat (k + i)) p) cs).
Proof.
  unfold u16_max. revert acc k. induction cs as [|c cs IH]; intros acc k Hk Hn; [cbn; by rewrite app_nil_r|].
  cbn [length] in Hk. rewrite !imap_cons. cbn [rfold]. unfold fragment_one at 1. cbn [fst snd]. rewrite !Z.mod_small by lia. unfold header_new.
  rewrite (proj2 (Z.leb_gt _ _)) by lia. cbn [rbind].
  rewrite (imap_ext (_ ∘ S) (fun i c => ((S k + i)%nat, c))) by (intros; cbn; f_equal; lia).
  rewrite IH by lia. rewrite <-app_assoc. cbn [app]. f_equal. f_equal. f_equal.
  apply imap_ext. intros i x _. cbn. f_equal. lia.
Qed.

Lemma check_numbered_from first fs k :
  rfold (check_fragment first) tt (imap (fun i f => ((k + i)%nat, f)) fs) = Ok tt ->
  exists ps, fs = imap (fun i p => framed (total_fragments first) (Z.of_nat (k + i)) p) ps.
Proof.
  revert k. induction fs as [|f fs IH]; intros k; [by exists []|]. rewrite imap_cons. cbn [rfold].
  intros ([] & Hf & Hr)%rbind_ok_inv. unfold check_fragment in Hf. apply rbind_ok_inv in Hf as (h & Hh & Hf). cbn [fst snd] in *.
  apply header_inv in Hh as (p & -> & _). destruct (Z.eqb_spec (fragment_index h) (Z.of_nat (k + 0))) as [Hi|]; [|done].
  destruct (Z.eqb_spec (total_fragments h) (total_fragments first)) as [Ht|]; [|done].
  rewrite (imap_ext (_ ∘ S) (fun i c => ((S k + i)%nat, c))) in Hr by (intros; cbn; f_equal; lia). apply IH in Hr as (ps & ->). exists (p :: ps).
  rewrite imap_cons, Hi, Ht. f_equal. apply imap_ext. intros i x _. cbn. f_equal. lia.
Qed.

Lemma check_numbered_ok first ps k :
  Z.of_nat (k + length ps) <= total_fragments first -> in_u 16 (total_fragments first) ->
  rfold (check_fragment first) tt (imap (fun i p => ((k + i)%nat, framed (total_fragments first) (Z.of_nat (k + i)) p)) ps) = Ok tt.
Proof.
  intros Hk Hn. revert k Hk. induction ps as [|p ps IH]; intros k Hk; [done|]. cbn [length] in Hk. rewrite imap_cons. cbn [rfold].
  unfold check_fragment at 1. cbn [fst snd]. rewrite header_framed by (unfold in_u in *; lia). unfold header_new. rewrite (proj2 (Z.leb_gt _ _)) by lia.
  cbn [rbind total_fragments fragment_index]. rewrite !Z.eqb_refl. cbn [negb rbind]. rewrite <-(IH (S k)) by lia. f_equal.
  apply imap_ext. intros i x _. cbn. do 2 f_equal; lia.
Qed.

Lemma imap_twice {A1 A2 A3} (f : nat -> A2 -> A3) (g : nat -> A1 -> A2) l : imap f (imap g l) = imap (fun i x => f i (g i x)) l.
Proof. revert f g. induction l as [|x l IH]; intros f g; [done|]. rewrite !imap_cons, IH. done. Qed.

Lemma payloads n ps : (imap (fun i p => framed n (Z.of_nat i) p) ps ≫= fun f => if HEADER_SIZE <? zlen f then drop (Z.to_nat HEADER_SIZE) f else []) = concat ps.
Proof.
  assert (forall k : nat, (imap (fun i p => framed n (Z.of_nat (k + i)) p) ps ≫= fun f => if HEADER_SIZE <? zlen f then drop (Z.to_nat HEADER_SIZE) f else []) = concat ps) as H;
    [|exact (H 0%nat)].
  induction ps as [|p ps IH]; intros k; [done|]. rewrite imap_cons, bind_cons. cbn [concat]. f_equal.
  - rewrite zlen_framed. unfold HEADER_SIZE. destruct (Z.ltb_spec 4 (4 + zlen p)); [done|].
    symmetry. apply zlen_0_inv. pose proof (zlen_nonneg p). lia.
  - rewrite <-(IH (S k)). f_equal. apply imap_ext. intros i x _. cbn. f_equal. lia.
Qed.

Lemma reassemble_numbered ps : 1 <= zlen ps <= u16_max -> reassemble (numbered ps) = Ok (concat ps).
Proof.
  intros Hn. unfold reassemble. destruct (numbered ps) as [|f r] eqn:Hf.
  { destruct ps; [rewrite zlen_nil in Hn; lia|]. unfold numbered in Hf. by rewrite imap_cons in Hf. }
  assert (header_from_bytes f = Ok (mkHeader (zlen ps) 0)) as ->.
  { destruct ps as [|p ps']; [done|]. unfold numbered in Hf. rewrite imap_cons in Hf. injection Hf as <- _.
    rewrite header_framed by (unfold in_u, u16_max in *; lia). unfold header_new. by rewrite (proj2 (Z.leb_gt _ _)) by lia. }
  cbn [rbind total_fragments]. rewrite <-Hf. replace (zlen (numbered ps)) with (zlen ps) by (unfold numbered, zlen; by rewrite length_imap).
  rewrite Z.eqb_refl. cbn [negb]. unfold numbered. rewrite imap_twice, payloads.
  pose proof (check_numbered_ok (mkHeader (zlen ps) 0) ps 0 ltac:(cbn; unfold zlen; lia) ltac:(cbn; unfold in_u, u16_max in *; lia)) as Hc. cbn [total_fragments] in Hc.
  change (fun i p => ((0 + i)%nat, framed (zlen ps) (Z.of_nat (0 + i)) p)) with (fun (i : nat) p => (i, framed (zlen ps) (Z.of_nat i) p)) in Hc. by rewrite Hc.
Qed.

(** ** Properties *)

(** The writes of a message that is not empty and has at most 65,535 parts are at most
    512 bytes long and are reassembled to the message. *)
Theorem gatt_roundtrip data :
  0 < zlen data <= u16_max * max_payload_per_write ->
  exists fs, fragment data = Ok fs /\ Forall (fun f => zlen f <= MAX_CHARACTERISTIC_SIZE) fs /\
    zlen fs = div_ceil (zlen data) max_payload_per_write /\ reassemble fs = Ok data.
Proof.
  intros Hd. unfold fragment. rewrite (proj2 (Z.eqb_neq (zlen data) 0)) by lia.
  assert (max_payload_per_write = 508) as Hmax by done. destruct (chunks_spec (Z.to_nat max_payload_per_write) data) as (Hcat & Hlen & Hcount); [by vm_compute; lia|].
  rewrite Z2Nat.id in Hcount by (rewrite Hmax; lia). set (cs := chunks _ data) in *. rewrite <-Hcount.
  assert (1 <= zlen cs <= u16_max) as Hcs.
  { rewrite Hcount, Hmax in *. unfold div_ceil, u16_max in *. split; [apply Z.div_le_lower_bound; lia|].
    assert ((zlen data + 508 - 1) / 508 < 65536); [apply Z.div_lt_upper_bound; lia|lia]. }
  rewrite (proj2 (Z.ltb_ge _ _)) by lia. exists (numbered cs). pose proof (fragments_numbered_from cs (length cs) [] 0 ltac:(lia) ltac:(unfold zlen in Hcs; lia)) as Hf.
  change (imap (fun i c => ((0 + i)%nat, c)) cs) with (imap pair cs) in Hf. fold (zlen cs) in Hf. split_and!; [exact Hf| | |].
  - apply Forall_forall. intros f (i & Hi)%list_elem_of_lookup. unfold numbered in Hi. rewrite list_lookup_imap in Hi. apply fmap_Some in Hi as (c & Hc & ->).
    rewrite zlen_framed. unfold MAX_CHARACTERISTIC_SIZE. rewrite Forall_forall in Hlen. apply list_elem_of_lookup_2, Hlen in Hc. unfold zlen. rewrite Hmax in Hc. lia.
  - unfold numbered, zlen. by rewrite length_imap.
  - by rewrite reassemble_numbered, Hcat.
Qed.

(** Reassembly accepts exactly the numbered parts of a message, in order and complete. *)
Theorem reassembly_exact fs data :
  fs <> [] -> (reassemble fs = Ok data <-> exists ps, 1 <= zlen ps <= u16_max /\ fs = numbered ps /\ data = concat ps).
Proof.
  intros Hne. split; [|intros (ps & Hn & -> & ->); by apply reassemble_numbered]. destruct fs as [|f r]; [done|]. unfold reassemble.
  intros (first & Hf & H)%rbind_ok_inv. destruct (Z.eqb_spec (zlen (f :: r)) (total_fragments first)) as [Ht|]; [|done]. cbn [negb] in H.
  apply rbind_ok_inv in H as ([] & Hc & [= <-]). apply (check_numbered_from first (f :: r) 0) in Hc as (ps & Hps). cbn in Hps.
  apply header_inv in Hf as (p & _ & Hin & _). assert (zlen ps = total_fragments first) as Hl by (rewrite <-Ht, Hps; unfold zlen; by rewrite length_imap).
  exists ps. split; [|split; [by rewrite Hps; unfold numbered; rewrite Hl|]].
  2: { change ((f :: r) ≫= (fun f => if HEADER_SIZE <? zlen f then drop (Z.to_nat HEADER_SIZE) f else []) = concat ps). rewrite Hps. apply payloads. }
  rewrite Hl, <-Ht, zlen_cons. pose proof (zlen_nonneg r). unfold in_u, u16_max in *. rewrite <-Ht, zlen_cons in Hin. lia.
Qed.

(** The one message that does not survive is the empty one: it is sent as a write without
    a header, which the receiver refuses. *)
Theorem gatt_empty_lost :
  fragment [] = Ok [[]] /\ reassemble [[]] = Err (ReassemblyError "Fragment header too short").
Proof. done. Qed.

(** The queue hands out the writes in the order in which they were put in and never holds more
    than its limit. *)
Theorem write_queue_fifo q r q' :
  zlen (wq_queue q) <= max_outstanding q -> enqueue q r = Ok q' ->
  zlen (wq_queue q') <= max_outstanding q' /\ wq_queue q' = wq_queue q ++ [r] /\
  (forall x l, wq_queue q = x :: l -> dequeue q' = (Some x, mkQueue (l ++ [r]) (max_outstanding q))) /\
  (wq_queue q = [] -> dequeue q' = (Some r, queue_clear q)).
Proof.
  intros Hq. unfold enqueue, queue_is_full. destruct (Z.leb_spec (max_outstanding q) (zlen (wq_queue q))); [done|]. intros [= <-]. cbn.
  split_and!; [rewrite zlen_app, zlen_cons, zlen_nil; lia|done| |].
  - intros x l Hl. unfold dequeue. cbn. by rewrite Hl.
  - intros Hl. unfold dequeue. cbn. by rewrite Hl.
Qed.

(** ** Concrete inputs *)

Module GattExamples.

Definition MESSAGE : bytes := replicate 600 Byte.x07.

Lemma gatt_roundtrip_witness : exists fs, fragment MESSAGE = Ok fs /\ zlen fs = 2 /\ reassemble fs = Ok MESSAGE.
Proof.
  destruct (gatt_roundtrip MESSAGE) as (fs & Hf & _ & Hn & Hr); [by vm_compute|]. exists fs. split; [exact Hf|]. split; [rewrite Hn; by vm_compute|exact Hr].
Defined.

Lemma reassembly_exact_witness : reassemble [framed 1 0 [Byte.x01]] = Ok [Byte.x01].
Proof. apply (reassembly_exact [framed 1 0 [Byte.x01]] [Byte.x01]); [done|]. exists [[Byte.x01]]. split; [by vm_compute|done]. Defined.

Lemma write_queue_fifo_witness : exists q', enqueue queue_new_default (mkWrite Write []) = Ok q' /\ zlen (wq_queue q') <= max_outstanding q'.
Proof.
  destruct (enqueue queue_new_default (mkWrite Write [])) as [q'|e|] eqn:Hq; [|by vm_compute in Hq..]. exists q'. split; [done|].
  apply (write_queue_fifo queue_new_default (mkWrite Write []) q'); [by vm_compute|done].
Defined.

End GattExamples.
