(* ===== verification/AuditLog.v ===== *)
(** * The audit log ([core/src/observability.rs])

    A log of events, each of which carries the hash of the one before it, with pruning and
    persistence.  The clock and the fresh event ids are arguments; [serde_json] is a codec
    (of the text after [from_utf8_lossy], for the stored log), and BLAKE3 and the hexadecimal
    form are those of [Ids]. *)

From S2P Require Import Prelude Backend Effects KvStore Ids.

Inductive AuditEventType : Type :=
  | IdentityCreated | IdentityDeleted | MessageSent | MessageReceived | RelayEnabled | RelayDisabled
  | ContactAdded | ContactBlocked | ContactRemoved | BackupExported | BackupImported | ConsentGranted
  | StorageCompacted | LegacyStaticEcdhSend.

#[global] Instance AuditEventType_eq_dec : EqDecision AuditEventType.
Proof. solve_decision. Defined.

Definition type_name (t : AuditEventType) : string :=
  match t with
  | IdentityCreated => "IdentityCreated" | IdentityDeleted => "IdentityDeleted"
  | MessageSent => "MessageSent" | MessageReceived => "MessageReceived"
  | RelayEnabled => "RelayEnabled" | RelayDisabled => "RelayDisabled"
  | ContactAdded => "ContactAdded" | ContactBlocked => "ContactBlocked" | ContactRemoved => "ContactRemoved"
  | BackupExported => "BackupExported" | BackupImported => "BackupImported" | ConsentGranted => "ConsentGranted"
  | StorageCompacted => "StorageCompacted" | LegacyStaticEcdhSend => "LegacyStaticEcdhSend"
  end.

Record AuditEvent : Type := mkEvent {
  event_id : string;
  event_type : AuditEventType;
  timestamp_unix_secs : Z;
  ev_identity_id : option string;
  ev_peer_id : option string;
  ev_details : option string;
  prev_hash : string;
}.

#[global] Instance AuditEvent_eq_dec : EqDecision AuditEvent.
Proof. solve_decision. Defined.

Record AuditLog : Type := mkLog {
  events : list AuditEvent;
  last_hash : string;
  pruned_head_hash : option string;
}.

Inductive AuditLogError : Type :=
  | ChainBroken (event_index : Z) (expected found : string)
  | EmptyLog
  | PersistenceError.

Definition GENESIS : string := "0000000000000000000000000000000000000000000000000000000000000000".

Definition log_new : AuditLog := mkLog [] GENESIS None.

Definition AUDIT_KEY : bytes := str_bytes "audit_log_v1".

Section Log.
Context {IL : IdLib} {CE : Codec AuditEvent} {CL : Codec AuditLog}.

(** [AuditEvent::new], with the fresh id and the clock as arguments. *)
Definition event_new (id : string) (now : Z) (event_type : AuditEventType) (identity_id peer_id details : option string) (prev_hash : string) : AuditEvent :=
  mkEvent id event_type now identity_id peer_id details prev_hash.

(** [serde_json::to_string(self).expect(..)], hashed. *)
Definition chain_hash {E} (e : AuditEvent) : res E string :=
  match enc e with
  | Some json => Ok (hex_encode (blake3_hash json))
  | None => Panic
  end.

Definition append (id : string) (now : Z) (log : AuditLog) (event_type : AuditEventType) (identity_id peer_id details : option string) :
    res AuditLogError (AuditEvent * AuditLog) :=
  let event := event_new id now event_type identity_id peer_id details (last_hash log) in
  let! last_hash := chain_hash event in
  Ok (event, mkLog (events log ++ [event]) last_hash (pruned_head_hash log)).

(** [iter().position(..)]. *)
Fixpoint position {A} (f : A -> bool) (l : list A) : option nat :=
  match l with
  | [] => None
  | x :: l => if f x then Some O else S <$> position f l
  end.

Definition prune_before (before_timestamp : Z) (log : AuditLog) : res AuditLogError (Z * AuditLog) :=
  let split_idx := position (fun e => before_timestamp <=? timestamp_unix_secs e) (events log) in
  let! r :=
    match split_idx with
    | Some O => Ok (0, log)
    | Some (S i as idx) =>
        let! pruned := match events log !! i with Some e => chain_hash e | None => Panic end in
        Ok (Z.of_nat idx mod 2 ^ 32, mkLog (drop idx (events log)) (last_hash log) (Some pruned))
    | None =>
        match last (events log) with
        | Some e =>
            let! pruned := chain_hash e in
            Ok (zlen (events log) mod 2 ^ 32, mkLog [] (last_hash log) (Some pruned))
        | None => Ok (0, log)
        end
    end in
  let '(prune_count, log) := r in
  let log := match events log with
             | [] => mkLog [] (default GENESIS (pruned_head_hash log)) (pruned_head_hash log)
             | _ => log
             end in
  Ok (prune_count, log).

(** The loop [for i in 1..len]. *)
Fixpoint validate_from (i : Z) (prev : AuditEvent) (l : list AuditEvent) : res AuditLogError unit :=
  match l with
  | [] => Ok tt
  | e :: l =>
      let! expected_prev_hash := chain_hash prev in
      if negb (String.eqb (prev_hash e) expected_prev_hash) then Err (ChainBroken i expected_prev_hash (prev_hash e))
      else validate_from (i + 1) e l
  end.

Definition validate_chain (log : AuditLog) : res AuditLogError unit :=
  match events log with
  | [] => Err EmptyLog
  | first :: rest =>
      let expected_head := default GENESIS (pruned_head_hash log) in
      if negb (String.eqb (prev_hash first) expected_head) then Err (ChainBroken 0 expected_head (prev_hash first))
      else validate_from 1 first rest
  end.

Section Persistence.
Context {B : Type} {SB : StorageBackend B}.

Definition persist (log : AuditLog) (backend : B) : res AuditLogError B :=
  match enc log with
  | Some json => match be_put backend AUDIT_KEY json with Ok b => Ok b | Err _ => Err PersistenceError | Panic => Panic end
  | None => Err PersistenceError
  end.

Definition log_load (backend : B) : res AuditLogError AuditLog :=
  match be_get backend AUDIT_KEY with
  | Ok (Some data) => match dec data with Some log => Ok log | None => Ok log_new end
  | Panic => Panic
  | _ => Ok log_new
  end.
End Persistence.

(** *** The core's access to its log ([iron_core.rs]) *)

Definition get_audit_log (log : AuditLog) : list AuditEvent := events log.

Definition get_audit_events_since (log : AuditLog) (since : Z) : list AuditEvent :=
  List.filter (fun e => since <=? timestamp_unix_secs e) (events log).

Definition validate_audit_chain (log : AuditLog) : res string unit :=
  match validate_chain log with
  | Ok u => Ok u
  | Err _ => Err "CorruptionDetected"
  | Panic => Panic
  end.
End Log.

(** ** The chain *)

Section Laws.
Context {IL : IdLib} {CE : Codec AuditEvent} {LE : LawfulCodec AuditEvent} {CL : Codec AuditLog} {LL : LawfulCodec AuditLog}.

Definition hash_of (e : AuditEvent) : string := hex_encode (blake3_hash (default [] (enc e))).

Lemma chain_hash_run {E} e : @chain_hash _ _ E e = Ok (hash_of e).
Proof. unfold chain_hash, hash_of. destruct (enc_dec e) as (v & -> & _). done. Qed.

(** Events that follow one another from the hash [h], and the hash they end in. *)
Fixpoint linked (h : string) (l : list AuditEvent) : Prop :=
  match l with
  | [] => True
  | e :: l => prev_hash e = h /\ linked (hash_of e) l
  end.

Fixpoint tip (h : string) (l : list AuditEvent) : string :=
  match l with
  | [] => h
  | e :: l => tip (hash_of e) l
  end.

Definition head_of (log : AuditLog) : string := default GENESIS (pruned_head_hash log).

Record chain_ok (log : AuditLog) : Prop := {
  ok_linked : linked (head_of log) (events log);
  ok_tip : last_hash log = tip (head_of log) (events log);
}.

Lemma linked_app h l1 l2 : linked h (l1 ++ l2) <-> linked h l1 /\ linked (tip h l1) l2.
Proof. revert h. induction l1 as [|e l IH]; intros h; cbn; [tauto|]. rewrite IH. tauto. Qed.

Lemma tip_app h l1 l2 : tip h (l1 ++ l2) = tip (tip h l1) l2.
Proof. revert h. induction l1 as [|e l IH]; intros h; cbn; [done|]. apply IH. Qed.

Lemma tip_last h l e : last l = Some e -> tip h l = hash_of e.
Proof. intros (l' & ->)%last_Some. by rewrite tip_app. Qed.

Lemma validate_from_spec i prev l : validate_from i prev l = Ok tt <-> linked (hash_of prev) l.
Proof.
  revert i prev. induction l as [|e l IH]; intros i prev; cbn [validate_from linked]; [tauto|]. rewrite chain_hash_run. cbn [rbind].
  destruct (String.eqb_spec (prev_hash e) (hash_of prev)); cbn [negb]; [rewrite IH; tauto|naive_solver].
Qed.

Lemma validate_spec log : validate_chain log = Ok tt <-> events log <> [] /\ linked (head_of log) (events log).
Proof.
  unfold validate_chain, head_of. destruct (events log) as [|e l]; [naive_solver|]. cbn [linked].
  destruct (String.eqb_spec (prev_hash e) (default GENESIS (pruned_head_hash log))); cbn [negb]; [rewrite validate_from_spec; naive_solver|naive_solver].
Qed.

(** *** Operations *)

Lemma append_ok id now log t i p d : chain_ok log -> exists e log', append id now log t i p d = Ok (e, log') /\ chain_ok log' /\
  events log' = events log ++ [e] /\ prev_hash e = last_hash log.
Proof.
  intros [Hl Ht]. unfold append. rewrite chain_hash_run. cbn [rbind]. eexists _, _. split; [done|]. cbn. split_and!; [|done|done].
  split; cbn; unfold head_of in *; cbn; [rewrite linked_app; cbn; by rewrite <-Ht|by rewrite tip_app].
Qed.

Lemma position_spec {A} (f : A -> bool) l :
  match position f l with
  | Some i => exists x, l !! i = Some x /\ f x = true /\ Forall (fun y => f y = false) (take i l)
  | None => Forall (fun y => f y = false) l
  end.
Proof.
  induction l as [|x l IH]; cbn; [done|]. destruct (f x) eqn:Hx; [by exists x|]. destruct (position f l) as [i|]; cbn; [|by constructor].
  destruct IH as (y & ? & ? & ?). exists y. split_and!; [done|done|by constructor].
Qed.

(** What is left of a list after its longest prefix of old events. *)
Fixpoint drop_old (t : Z) (l : list AuditEvent) : list AuditEvent :=
  match l with
  | [] => []
  | e :: l' => if t <=? timestamp_unix_secs e then l else drop_old t l'
  end.

Lemma drop_old_position t l :
  drop_old t l = match position (fun e => t <=? timestamp_unix_secs e) l with Some i => drop i l | None => [] end.
Proof. induction l as [|e l IH]; cbn; [done|]. destruct (t <=? timestamp_unix_secs e); [done|]. rewrite IH. by destruct (position _ l). Qed.

Lemma drop_chain log i e h :
  chain_ok log -> events log !! i = Some e -> h = last_hash log ->
  chain_ok (mkLog (drop (S i) (events log)) h (Some (hash_of e))).
Proof.
  intros [Hl Ht] Hi ->. pose proof (take_drop_middle _ _ _ Hi) as Hsplit. rewrite <-Hsplit in Hl, Ht. rewrite linked_app in Hl. rewrite tip_app in Ht.
  cbn in Hl, Ht. split; cbn; unfold head_of; cbn; [apply Hl|done].
Qed.

Lemma prune_ok t log : chain_ok log ->
  exists n log', prune_before t log = Ok (n, log') /\ chain_ok log' /\ events log' = drop_old t (events log) /\ last_hash log' = last_hash log /\
    n = (zlen (events log) - zlen (events log')) mod 2 ^ 32.
Proof.
  intros Hok. pose proof (position_spec (fun e => t <=? timestamp_unix_secs e) (events log)) as Hpos. unfold prune_before. rewrite drop_old_position.
  assert (forall log', chain_ok log' -> last_hash log' = last_hash log ->
    let log'' := match events log' with [] => mkLog [] (default GENESIS (pruned_head_hash log')) (pruned_head_hash log') | _ => log' end in
    chain_ok log'' /\ events log'' = events log' /\ last_hash log'' = last_hash log) as Hfix.
  { intros [es h p] [Hl Ht] Hh. cbn in *. destruct es as [|e es]; cbn; [|done]. cbn in Ht. unfold head_of in Ht. cbn in Ht. split_and!; [done|done|congruence]. }
  destruct (position _ _) as [[|i]|].
  - cbn [rbind]. destruct (Hfix log Hok eq_refl) as (? & Hev & ?). eexists _, _. split; [done|]. split_and!; [done|done|done|].
    rewrite Hev. by rewrite Z.sub_diag.
  - destruct Hpos as (x & Hx & _ & _). assert (is_Some (events log !! i)) as [e He] by (apply lookup_lt_is_Some; apply lookup_lt_Some in Hx; lia).
    rewrite He, chain_hash_run. cbn [rbind]. destruct (Hfix _ (drop_chain log i e _ Hok He eq_refl) eq_refl) as (? & Hev & ?).
    eexists _, _. split; [done|]. split_and!; [done|done|done|]. rewrite Hev. cbn [events]. f_equal. unfold zlen. rewrite length_drop. apply lookup_lt_Some in Hx. lia.
  - destruct (last (events log)) as [e|] eqn:Hlast; cbn [rbind].
    + rewrite chain_hash_run. cbn [rbind]. assert (chain_ok (mkLog [] (last_hash log) (Some (hash_of e)))) as Hnew.
      { destruct Hok as [_ Ht]. split; [done|]. cbn. unfold head_of. cbn. rewrite Ht. by apply tip_last. }
      destruct (Hfix _ Hnew eq_refl) as (? & Hev & ?). eexists _, _. split; [done|]. split_and!; [done|done|done|]. cbn. by rewrite Z.sub_0_r.
    + destruct (Hfix log Hok eq_refl) as (? & Hev & ?). eexists _, _. split; [done|]. apply last_None in Hlast.
      split_and!; [done|by rewrite Hev|done|]. rewrite Hev, Hlast. done.
Qed.
(** *** Two chains with the same end *)

Lemma linked_same h l1 : forall l2, linked h l1 -> linked h l2 -> tip h l1 = tip h l2 ->
  l1 = l2 \/ (exists e1 e2, e1 ∈ l1 /\ e2 ∈ l2 /\ e1 <> e2 /\ hash_of e1 = hash_of e2) \/ (exists e, e ∈ l1 ++ l2 /\ hash_of e = h).
Proof.
  induction l1 as [|e1 l1 IH] using rev_ind; intros l2 H1 H2; destruct l2 as [|e2 l2 _] using rev_ind; rewrite ?tip_app; cbn [tip]; intros Ht.
  - by left.
  - right; right. exists e2. split; [set_solver|done].
  - right; right. exists e1. split; [set_solver|done].
  - rewrite linked_app in H1, H2. cbn [linked] in H1, H2. destruct H1 as (H1 & Hp1 & _), H2 as (H2 & Hp2 & _).
    destruct (decide (e1 = e2)) as [->|Hne]; [|right; left; exists e1, e2; set_solver].
    destruct (IH l2 H1 H2) as [->|[(a & b & Ha & Hb & Hab)|(a & Ha & Hh)]]; [congruence|by left| |].
    + right; left. exists a, b. set_solver.
    + right; right. exists a. split; [|done]. set_solver.
Qed.

(** *** Pruning in time order *)

Lemma drop_old_suffix t l : exists old, l = old ++ drop_old t l /\ Forall (fun e => timestamp_unix_secs e < t) old.
Proof.
  induction l as [|e l (old & Hl & Hold)]; cbn; [by exists []|]. destruct (Z.leb_spec t (timestamp_unix_secs e)); [by exists []|].
  exists (e :: old). split; [cbn; congruence|by constructor].
Qed.

Lemma drop_old_sorted t l : Sorted.StronglySorted (fun a b => timestamp_unix_secs a <= timestamp_unix_secs b) l ->
  drop_old t l = List.filter (fun e => t <=? timestamp_unix_secs e) l.
Proof.
  induction 1 as [|e l _ IH Hall]; cbn; [done|]. destruct (Z.leb_spec t (timestamp_unix_secs e)); [|done]. f_equal.
  rewrite Forall_forall in Hall. clear IH. induction l as [|a l IH]; cbn; [done|].
  rewrite (proj2 (Z.leb_le t (timestamp_unix_secs a))); [|specialize (Hall a ltac:(set_solver)); lia]. f_equal. apply IH. set_solver.
Qed.

(** *** A log and its backend over time *)

Context {B : Type} {SB : StorageBackend B} {LB : LawfulBackend B}.

Inductive audit_step : AuditLog * B -> AuditLog * B -> Prop :=
  | AuAppend id now t i p d e log log' b : append id now log t i p d = Ok (e, log') -> audit_step (log, b) (log', b)
  | AuPrune t n log log' b : prune_before t log = Ok (n, log') -> audit_step (log, b) (log', b)
  | AuPersist log b b' : persist log b = Ok b' -> audit_step (log, b) (log, b')
  | AuRestart log log' b : log_load b = Ok log' -> audit_step (log, b) (log', b)
  | AuOther k v log b b' : k <> AUDIT_KEY -> be_put b k v = Ok b' -> audit_step (log, b) (log, b').

Lemma log_load_run b : @log_load _ B _ b =
  Ok (match be_view b !! AUDIT_KEY with Some data => default log_new (dec data) | None => log_new end).
Proof. unfold log_load. rewrite be_get_law. destruct (be_view b !! AUDIT_KEY) as [data|]; [|done]. by destruct (dec data). Qed.

Lemma persist_run log b : exists b' v, persist log b = Ok b' /\ be_view b' = <[AUDIT_KEY := v]> (be_view b) /\ dec v = Some log.
Proof.
  unfold persist. destruct (enc_dec log) as (v & -> & Hv). destruct (be_put_law b AUDIT_KEY v) as (b' & -> & Hb). by exists b', v.
Qed.

Definition stored_ok (b : B) : Prop := forall log, log_load b = Ok log -> chain_ok log.

Lemma log_new_ok : chain_ok log_new.
Proof. by split. Qed.

Lemma audit_step_ok s s' : audit_step s s' -> chain_ok s.1 -> stored_ok s.2 -> chain_ok s'.1 /\ stored_ok s'.2.
Proof.
  intros Hstep Hl Hb. destruct Hstep as [id now t i p d e log log' b Ha|t n log log' b Hp|log b b' Hp|log log' b Hld|k v log b b' Hk Hput]; cbn in *.
  - destruct (append_ok id now log t i p d Hl) as (? & ? & Ha' & Hok & _). rewrite Ha in Ha'. by simplify_eq.
  - destruct (prune_ok t log Hl) as (? & ? & Hp' & Hok & _). rewrite Hp in Hp'. by simplify_eq.
  - split; [done|]. destruct (persist_run log b) as (b1 & v & Hrun & Hview & Hv). assert (b1 = b') as -> by congruence.
    intros log' Hld. rewrite log_load_run, Hview, lookup_insert_eq, Hv in Hld. by simplify_eq.
  - split; [by apply Hb|done].
  - split; [done|]. destruct (be_put_law b k v) as (b1 & Hrun & Hview). assert (b1 = b') as -> by congruence.
    intros log' Hld. apply Hb. rewrite log_load_run in *. by rewrite Hview, lookup_insert_ne in Hld.
Qed.

End Laws.

(** ** Theorems *)

Section Theorems.
Context {IL : IdLib} {CE : Codec AuditEvent} {LE : LawfulCodec AuditEvent} {CL : Codec AuditLog} {LL : LawfulCodec AuditLog}.
Context {B : Type} {SB : StorageBackend B} {LB : LawfulBackend B}.

(** The chain is never broken by the program: whatever sequence of appends, prunes, writes to the
    store, restarts and writes of other keys follows a start on a store without a log, every event
    links to the one before it, the next event will link to the last one (also when pruning emptied
    the log), and validation succeeds exactly when the log has an event. *)
Theorem audit_chain_kept (b0 : B) log b :
  be_view b0 !! AUDIT_KEY = None -> rtc audit_step (log_new, b0) (log, b) ->
  linked (head_of log) (events log) /\ last_hash log = tip (head_of log) (events log) /\
  (validate_chain log = Ok tt <-> events log <> []).
Proof.
  intros Hnone Hrun. assert (chain_ok log /\ stored_ok b) as [[Hl Ht] _].
  { change (chain_ok (log, b).1 /\ stored_ok (log, b).2). remember (log, b) as s eqn:Hs. clear Hs log b.
    assert (chain_ok (log_new, b0).1 /\ stored_ok (log_new, b0).2) as Hinit.
    { split; [apply log_new_ok|]. intros log. cbn [fst snd]. intros Hld. rewrite log_load_run, Hnone in Hld. simplify_eq. apply log_new_ok. }
    revert Hinit. induction Hrun as [|s s1 s2 Hstep _ IH]; [done|]. intros [? ?]. apply IH. by eapply audit_step_ok. }
  split_and!; [done|done|]. rewrite validate_spec. tauto.
Qed.

(** A log that was persisted is the log a restart loads, whatever other keys are written in between. *)
Theorem audit_restart log (b : B) kvs :
  AUDIT_KEY ∉ kvs.*1 ->
  exists b1, persist log b = Ok b1 /\
  forall b2, be_view b2 = foldr (fun kv m => <[kv.1 := kv.2]> m) (be_view b1) kvs -> log_load b2 = Ok log.
Proof.
  intros Hk. destruct (persist_run log b) as (b1 & v & Hrun & Hview & Hv). exists b1. split; [exact Hrun|]. intros b2 Hb2.
  assert (be_view b2 !! AUDIT_KEY = Some v) as Hlook.
  { rewrite Hb2. clear Hb2 b2. induction kvs as [|[k w] kvs IH]; cbn in *; [by rewrite Hview, lookup_insert_eq|].
    rewrite lookup_insert_ne by set_solver. apply IH. set_solver. }
  by rewrite log_load_run, Hlook, Hv.
Qed.

(** Pruning removes the events older than the cut-off and no other from a log in time order, returns
    how many they were, keeps the rest valid, and leaves the hash the next event links to as it was. *)
Theorem prune_exact t log :
  chain_ok log -> Sorted.StronglySorted (fun a b => timestamp_unix_secs a <= timestamp_unix_secs b) (events log) ->
  exists n log', prune_before t log = Ok (n, log') /\
    events log' = get_audit_events_since log t /\ n = (zlen (events log) - zlen (events log')) mod 2 ^ 32 /\ last_hash log' = last_hash log /\
    (events log' <> [] -> validate_chain log' = Ok tt).
Proof.
  intros Hok Hsorted. destruct (prune_ok t log Hok) as (n & log' & Hrun & [Hl _] & Hev & Hlast & Hn). exists n, log'. split; [exact Hrun|].
  split; [by rewrite Hev, drop_old_sorted|]. split; [exact Hn|]. split; [exact Hlast|]. intros Hne. by apply validate_spec.
Qed.

(** Two logs that start from the same hash, end in the same event and both validate hold the same
    events, unless two different events of theirs have the same hash or the hash they start from is
    that of one of their own events: every change before the last event is detected. *)
Theorem tampering_detected a b :
  validate_chain a = Ok tt -> validate_chain b = Ok tt -> head_of a = head_of b -> last (events a) = last (events b) ->
  events a = events b \/
  (exists e1 e2, e1 ∈ events a /\ e2 ∈ events b /\ e1 <> e2 /\ hash_of e1 = hash_of e2) \/
  (exists e, e ∈ events a ++ events b /\ hash_of e = head_of a).
Proof.
  rewrite !validate_spec. intros [Hne Ha] [_ Hb] Hhead Hlast. rewrite <-Hhead in Hb. apply linked_same; [done|done|].
  destruct (last (events a)) as [e|] eqn:He; [|by apply last_None in He]. by rewrite (tip_last _ _ e), (tip_last _ _ e).
Qed.

(** The end of a log is not protected: the last event of a valid log can be replaced by any event
    that keeps its [prev_hash], and any number of final events can be removed as long as one is left;
    [last_hash], which tells the difference, is never compared. *)
Theorem log_end_unprotected l e e' more log :
  validate_chain log = Ok tt -> events log = l ++ e :: more -> prev_hash e' = prev_hash e ->
  validate_chain (mkLog (l ++ [e']) (last_hash log) (pruned_head_hash log)) = Ok tt.
Proof.
  rewrite !validate_spec. intros [_ Hl] Hev He. cbn. rewrite Hev, linked_app in Hl. cbn [linked] in Hl. split; [by destruct l|].
  unfold head_of in *. cbn. rewrite linked_app. cbn [linked]. rewrite He. tauto.
Qed.

(** A log without events, which is what every node starts with and what pruning can leave behind, is
    reported by the core as corrupted. *)
Theorem empty_log_is_corruption t log :
  Forall (fun e => timestamp_unix_secs e < t) (events log) ->
  exists n log', prune_before t log = Ok (n, log') /\ validate_audit_chain log' = Err "CorruptionDetected".
Proof.
  intros Hold. pose proof (position_spec (fun e => t <=? timestamp_unix_secs e) (events log)) as Hpos. unfold prune_before.
  destruct (position _ _) as [i|].
  - destruct Hpos as (x & Hx & Hle & _). rewrite Forall_forall in Hold. specialize (Hold x (list_elem_of_lookup_2 _ _ _ Hx)). apply Z.leb_le in Hle. lia.
  - destruct (last (events log)) as [e|] eqn:Hlast; cbn [rbind].
    + rewrite chain_hash_run. cbn [rbind]. by eexists _, _.
    + apply last_None in Hlast. rewrite Hlast. by eexists _, _.
Qed.
End Theorems.

(** ** Examples *)

Module AuditExamples.
Import SampleIds.

#[local] Instance ex_iter : HashIter bytes bytes := canonical_iter.

#[local] Instance ex_type : Countable AuditEventType.
Proof.
  set (all := [IdentityCreated; IdentityDeleted; MessageSent; MessageReceived; RelayEnabled; RelayDisabled; ContactAdded;
    ContactBlocked; ContactRemoved; BackupExported; BackupImported; ConsentGranted; StorageCompacted; LegacyStaticEcdhSend]).
  apply (inj_countable (fun t => list_find (fun u => u = t) all ≫= fun r => Some r.1) (fun n => n ≫= fun i => all !! i)). by intros [].
Defined.

#[local] Instance ex_event : Countable AuditEvent.
Proof.
  apply (inj_countable' (fun e => (event_id e, event_type e, timestamp_unix_secs e, ev_identity_id e, ev_peer_id e, ev_details e, prev_hash e))
    (fun '(a, b, c, d, e, f, g) => mkEvent a b c d e f g)). by intros [].
Defined.

#[local] Instance ex_log_dec : EqDecision AuditLog.
Proof. solve_decision. Defined.

#[local] Instance ex_log : Countable AuditLog.
Proof.
  apply (inj_countable' (fun l => (events l, last_hash l, pruned_head_hash l)) (fun '(a, b, c) => mkLog a b c)). by intros [].
Defined.

#[local] Instance ex_codec_e : Codec AuditEvent := any_codec.
#[local] Instance ex_lawful_e : LawfulCodec AuditEvent := any_codec_lawful.
#[local] Instance ex_codec_l : Codec AuditLog := any_codec.
#[local] Instance ex_lawful_l : LawfulCodec AuditLog := any_codec_lawful.

Definition appended (id : string) (now : Z) (log : AuditLog) : AuditLog :=
  match append id now log MessageSent None None None with Ok r => r.2 | _ => log end.

Definition ONE : AuditLog := appended "a" 10 log_new.
Definition TWO : AuditLog := appended "b" 20 ONE.

Lemma one_run : exists e, append "a" 10 log_new MessageSent None None None = Ok (e, ONE).
Proof. unfold ONE, appended. destruct (append_ok "a" 10 log_new MessageSent None None None log_new_ok) as (e & l & -> & _). by exists e. Qed.

Lemma one_log_ok : chain_ok ONE.
Proof. unfold ONE, appended. destruct (append_ok "a" 10 log_new MessageSent None None None log_new_ok) as (e & l & -> & ? & _). done. Qed.

Lemma two_ok : chain_ok TWO.
Proof. unfold TWO, appended. destruct (append_ok "b" 20 ONE MessageSent None None None one_log_ok) as (e & l & -> & ? & _). done. Qed.

Lemma audit_chain_kept_witness : validate_chain ONE = Ok tt.
Proof.
  destruct one_run as [e Hrun].
  destruct (audit_chain_kept memory_new ONE memory_new) as (_ & _ & Hval); [by vm_compute|eapply rtc_once, AuAppend, Hrun|].
  apply Hval. by vm_compute.
Defined.

Lemma audit_restart_witness : exists b1, persist ONE memory_new = Ok b1 /\ log_load b1 = Ok ONE.
Proof.
  destruct (audit_restart ONE memory_new []) as (b1 & Hrun & Hload); [set_solver|]. exists b1. split; [exact Hrun|]. by apply Hload.
Defined.

Lemma prune_exact_witness : exists n log', prune_before 15 TWO = Ok (n, log') /\ n = 1 /\ validate_chain log' = Ok tt.
Proof.
  destruct (prune_exact 15 TWO two_ok) as (n & log' & Hrun & Hev & Hn & _ & Hval).
  - vm_compute. repeat constructor; discriminate.
  - exists n, log'. split; [exact Hrun|]. split; [rewrite Hn, Hev; by vm_compute|]. apply Hval. rewrite Hev. by vm_compute.
Defined.

Lemma two_valid : validate_chain TWO = Ok tt.
Proof. apply validate_spec. split; [by vm_compute|apply two_ok]. Qed.

Lemma tampering_detected_witness :
  events TWO = events TWO \/
  (exists e1 e2, e1 ∈ events TWO /\ e2 ∈ events TWO /\ e1 <> e2 /\ hash_of e1 = hash_of e2) \/
  (exists e, e ∈ events TWO ++ events TWO /\ hash_of e = head_of TWO).
Proof. apply (tampering_detected TWO TWO); [apply two_valid|apply two_valid|reflexivity|reflexivity]. Defined.

(** A changed first event breaks the link of the second. *)
Example forged_event_found :
  exists e h, validate_chain (mkLog (mkEvent "z" IdentityDeleted 10 None None None GENESIS :: drop 1 (events TWO)) (last_hash TWO) None) =
    Err (ChainBroken 1 e h).
Proof. eexists _, _. vm_compute. reflexivity. Qed.

Lemma log_end_unprotected_witness :
  exists e', validate_chain (mkLog ([] ++ [e']) (last_hash TWO) (pruned_head_hash TWO)) = Ok tt /\ e' ∉ events TWO.
Proof.
  exists (mkEvent "forged" IdentityDeleted 99 None None None GENESIS). split.
  - destruct (events TWO) as [|e more] eqn:Hev; [by vm_compute in Hev|].
    apply (log_end_unprotected [] e _ more TWO); [apply two_valid|exact Hev|]. destruct two_ok as [Hl _]. rewrite Hev in Hl. symmetry. apply Hl.
  - apply (bool_decide_unpack _). by vm_compute.
Defined.

Lemma empty_log_is_corruption_witness : exists n log', prune_before 50 TWO = Ok (n, log') /\ validate_audit_chain log' = Err "CorruptionDetected".
Proof. apply (empty_log_is_corruption 50 TWO). vm_compute. repeat constructor. Defined.
End AuditExamples.
