(* ===== verification/Invite.v ===== *)
(** * Invitations ([core/src/relay/invite.rs])

    Signed invite tokens with their seed ledger, the QR payload they travel in, and the record
    of who invited whom.  [bincode] is a codec of each wire shape, base64 the class [Base64],
    Ed25519 and ML-DSA those of [Crypto] and [Identity]; the clock is an argument, and the
    texts inside errors are left out.  The walk up the chain of inviters is a loop without a
    bound in the source: it is given fuel here, and [None] is a walk that is not over. *)

From S2P Require Import Prelude Crypto Effects Ids Identity AddrFilter Ledger.

(** ** Data *)

Definition QR_BYTE_BUDGET : Z := 2953.
Definition QR_PAYLOAD_PREFIX : string := "SCI1:".
Definition INVITE_SIGNING_DOMAIN : bytes := str_bytes "SCM-INVITE-v1".
Definition MLDSA65_PUBLIC_KEY_LEN : Z := 1952.

Inductive InviteError : Type :=
  | InvalidToken | VerificationFailed | TokenExpired | SerializationError | InvalidInviter
  | PayloadTooLarge (size limit : Z) | MalformedPayload | MissingSignature | MalformedSignature | MalformedKey
  | PqSignatureRequired | PqVerificationFailed.

Record InviteToken : Type := mkInvite {
  inviter_id : string;
  inviter_public_key : bytes;
  invitee_id : string;
  iv_created_at : Z;
  iv_expires_at : Z;
  iv_signature : bytes;
  iv_metadata : option string;
  pq_public_key : option bytes;
  pq_signature : option bytes;
  seed_ledger : list SeedLedgerEntry;
}.

(** The shape before the seed ledger was added. *)
Record LegacyInviteToken : Type := mkLegacyInvite {
  lg_inviter_id : string;
  lg_inviter_public_key : bytes;
  lg_invitee_id : string;
  lg_created_at : Z;
  lg_expires_at : Z;
  lg_signature : bytes;
  lg_metadata : option string;
  lg_pq_public_key : option bytes;
  lg_pq_signature : option bytes;
}.

(** ** The seed ledger *)

(** [find(needle)] and the text before it. *)
Fixpoint before (needle hay : bytes) : option bytes :=
  if is_prefix needle hay then Some []
  else match hay with [] => None | a :: hay => cons a <$> before needle hay end.

Definition P2P : bytes := str_bytes "/p2p/".

Definition stripped (entry : SeedLedgerEntry) : SeedLedgerEntry :=
  match before P2P (str_bytes (seed_multiaddr entry)) with
  | Some s => mkSeed (of_bytes s)
  | None => entry
  end.

Fixpoint seed_loop (seen : list string) (out : list SeedLedgerEntry) (ranked_peers : list SeedLedgerEntry) : list SeedLedgerEntry :=
  match ranked_peers with
  | [] => out
  | peer :: ranked_peers =>
      if MAX_SEED_LEDGER_ENTRIES <=? zlen out then out
      else
        let peer := stripped peer in
        if bool_decide (seed_multiaddr peer ∈ seen) then seed_loop seen out ranked_peers
        else seed_loop (seen ++ [seed_multiaddr peer]) (out ++ [peer]) ranked_peers
  end.

Definition build_seed_ledger (inviter_entry : SeedLedgerEntry) (ranked_peers : list SeedLedgerEntry) : list SeedLedgerEntry :=
  let first := stripped inviter_entry in
  seed_loop [seed_multiaddr first] [first] ranked_peers.

(** ** Tokens *)

Class Base64 : Type := {
  b64_encode : bytes -> string;           (** [URL_SAFE_NO_PAD.encode] *)
  b64_decode : string -> option bytes;    (** [URL_SAFE_NO_PAD.decode] *)
}.

Section Token.
Context {CR : Crypto} {MD : MlDsa} {B64 : Base64} {CT : Codec InviteToken} {CG : Codec LegacyInviteToken} `{Build}.

Definition invite_new (now : Z) (inviter_id : string) (inviter_public_key : bytes) (invitee_id : string) : res InviteError InviteToken :=
  let! expires_at := chk_u 64 (now + 30 * 24 * 3600) in
  Ok (mkInvite inviter_id inviter_public_key invitee_id now expires_at [] None None None []).

Definition with_expiry (t : InviteToken) (duration_secs : Z) : res InviteError InviteToken :=
  let! expires_at := chk_u 64 (iv_created_at t + duration_secs) in
  Ok (mkInvite (inviter_id t) (inviter_public_key t) (invitee_id t) (iv_created_at t) expires_at (iv_signature t) (iv_metadata t)
        (pq_public_key t) (pq_signature t) (seed_ledger t)).

Definition with_metadata (t : InviteToken) (metadata : string) : InviteToken :=
  mkInvite (inviter_id t) (inviter_public_key t) (invitee_id t) (iv_created_at t) (iv_expires_at t) (iv_signature t) (Some metadata)
    (pq_public_key t) (pq_signature t) (seed_ledger t).

Definition with_signature (t : InviteToken) (signature : bytes) : InviteToken :=
  mkInvite (inviter_id t) (inviter_public_key t) (invitee_id t) (iv_created_at t) (iv_expires_at t) signature (iv_metadata t)
    (pq_public_key t) (pq_signature t) (seed_ledger t).

Definition with_pq_signature (t : InviteToken) (pq_pubkey pq_sig : bytes) : InviteToken :=
  mkInvite (inviter_id t) (inviter_public_key t) (invitee_id t) (iv_created_at t) (iv_expires_at t) (iv_signature t) (iv_metadata t)
    (Some pq_pubkey) (Some pq_sig) (seed_ledger t).

Definition with_seed_ledger (t : InviteToken) (entries : list SeedLedgerEntry) : InviteToken :=
  mkInvite (inviter_id t) (inviter_public_key t) (invitee_id t) (iv_created_at t) (iv_expires_at t) (iv_signature t) (iv_metadata t)
    (pq_public_key t) (pq_signature t) (take (Z.to_nat MAX_SEED_LEDGER_ENTRIES) entries).

(** The token without its signatures. *)
Definition unsigned (t : InviteToken) : InviteToken :=
  mkInvite (inviter_id t) (inviter_public_key t) (invitee_id t) (iv_created_at t) (iv_expires_at t) [] (iv_metadata t)
    (pq_public_key t) None (seed_ledger t).

Definition get_signable_data (t : InviteToken) : res InviteError bytes :=
  match enc (unsigned t) with
  | Some body => Ok (INVITE_SIGNING_DOMAIN ++ body)
  | None => Err SerializationError
  end.

Definition verify_ed25519 (t : InviteToken) (signed : bytes) : res InviteError unit :=
  if negb (zlen (inviter_public_key t) =? 32) then Err MalformedKey
  else if negb (ed25519_key_valid (inviter_public_key t)) then Err MalformedKey
  else if negb (zlen (iv_signature t) =? 64) then Err MalformedSignature
  else if ed25519_verify (inviter_public_key t) signed (iv_signature t) then Ok tt else Err VerificationFailed.

Definition verify_pq (t : InviteToken) (signed : bytes) (require_pq : bool) : res InviteError unit :=
  match pq_public_key t, pq_signature t with
  | Some pq_key, Some pq_sig =>
      if negb (zlen pq_key =? MLDSA65_PUBLIC_KEY_LEN) then Err MalformedKey
      else map_err (fun _ => PqVerificationFailed) (mldsa_verify pq_key signed pq_sig)
  | None, Some _ => Err MalformedKey
  | _, None => if require_pq then Err PqSignatureRequired else Ok tt
  end.

Definition verify_with_policy (now : Z) (t : InviteToken) (require_pq : bool) : res InviteError unit :=
  if iv_expires_at t <=? now then Err TokenExpired
  else if bool_decide (iv_signature t = []) then Err MissingSignature
  else
    let! signed := get_signable_data t in
    let! _ := verify_ed25519 t signed in
    verify_pq t signed require_pq.

Definition invite_verify (now : Z) (t : InviteToken) : res InviteError unit := verify_with_policy now t false.

Definition invite_is_valid (now : Z) (t : InviteToken) (require_pq : bool) : res InviteError bool :=
  match verify_with_policy now t require_pq with
  | Ok _ => Ok true
  | Err _ => Ok false
  | Panic => Panic
  end.

Definition invite_to_bytes (t : InviteToken) : res InviteError bytes :=
  match enc t with Some b => Ok b | None => Err SerializationError end.

Definition of_legacy (l : LegacyInviteToken) : InviteToken :=
  mkInvite (lg_inviter_id l) (lg_inviter_public_key l) (lg_invitee_id l) (lg_created_at l) (lg_expires_at l) (lg_signature l)
    (lg_metadata l) (lg_pq_public_key l) (lg_pq_signature l) [].

Definition invite_from_bytes (b : bytes) : res InviteError InviteToken :=
  match dec b with
  | Some token => Ok token
  | None => match dec b with Some legacy => Ok (of_legacy legacy) | None => Err SerializationError end
  end.

Definition to_qr_payload (t : InviteToken) : res InviteError string :=
  let! raw := invite_to_bytes t in
  let encoded := QR_PAYLOAD_PREFIX +:+ b64_encode raw in
  if QR_BYTE_BUDGET <? str_len encoded then Err (PayloadTooLarge (str_len encoded) QR_BYTE_BUDGET) else Ok encoded.

Definition from_qr_payload (payload : string) : res InviteError InviteToken :=
  match strip_prefix QR_PAYLOAD_PREFIX payload with
  | None => Err MalformedPayload
  | Some body =>
      if QR_BYTE_BUDGET <? str_len body then Err (PayloadTooLarge (str_len body) QR_BYTE_BUDGET)
      else match b64_decode body with
           | None => Err MalformedPayload
           | Some raw => invite_from_bytes raw
           end
  end.
End Token.

(** ** Who invited whom *)

Record InviteChain : Type := mkChain { invites : gmap string (string * string * Z) }.

Definition chain_new : InviteChain := mkChain ∅.

Definition record_invite (now : Z) (c : InviteChain) (invite_id inviter_id invitee_id : string) : InviteChain :=
  mkChain (<[invite_id := (inviter_id, invitee_id, now)]> (invites c)).

Definition invite_count (c : InviteChain) : Z := Z.of_nat (size (invites c)).

Definition chain_clear (c : InviteChain) : InviteChain := mkChain ∅.

Section Chain.
Context {HI : HashIter string (string * string * Z)}.

(** [self.invites.values()]. *)
Definition invite_values (c : InviteChain) : list (string * string * Z) := (hm_iter (invites c)).*2.

Definition chain_get_inviter (c : InviteChain) (invitee_id : string) : option string :=
  find_map (fun '(inviter_id, invited_id, _) => if String.eqb invited_id invitee_id then Some inviter_id else None) (invite_values c).

Definition chain_get_invitees (c : InviteChain) (inviter_id : string) : list string :=
  omap (fun '(iid, invitee_id, _) => if String.eqb iid inviter_id then Some invitee_id else None) (invite_values c).

(** The loop [while let Some(inviter) = ..]. *)
Fixpoint trust_loop (fuel : nat) (c : InviteChain) (chain : list string) (current : string) : option (list string) :=
  match fuel with
  | O => None
  | S fuel =>
      match chain_get_inviter c current with
      | Some inviter => trust_loop fuel c (chain ++ [inviter]) inviter
      | None => Some chain
      end
  end.

Definition chain_get_trust_chain (fuel : nat) (c : InviteChain) (node_id : string) : option (list string) :=
  trust_loop fuel c [node_id] node_id.

Definition distance_from_root (fuel : nat) (c : InviteChain) (node_id : string) : option Z :=
  (fun chain => sat_sub (cast_u 32 (zlen chain)) 1) <$> chain_get_trust_chain fuel c node_id.

Definition get_direct_invitations (c : InviteChain) (person_id : string) : list (string * Z) :=
  omap (fun '(inviter_id, invitee_id, timestamp) => if String.eqb inviter_id person_id then Some (invitee_id, timestamp) else None)
    (invite_values c).

(** ** The invite system *)

Record InviteSystem : Type := mkSystem {
  our_id : string;
  our_public_key : bytes;
  chain : InviteChain;
}.

Definition system_new (node_id : string) (public_key : bytes) : InviteSystem := mkSystem node_id public_key chain_new.

Definition create_invite_token `{Build} (now : Z) (s : InviteSystem) (invitee_id : string) : res InviteError InviteToken :=
  invite_new now (our_id s) (our_public_key s) invitee_id.

Definition record_invitation (now : Z) (s : InviteSystem) (invitee_id : string) : InviteSystem :=
  let invite_id := our_id s +:+ "_" +:+ invitee_id in
  mkSystem (our_id s) (our_public_key s) (record_invite now (chain s) invite_id (our_id s) invitee_id).

Definition get_trust_chain (fuel : nat) (s : InviteSystem) (peer_id : string) : option (list string) := chain_get_trust_chain fuel (chain s) peer_id.

Definition get_invitees (s : InviteSystem) : list string := chain_get_invitees (chain s) (our_id s).

Definition get_inviter (s : InviteSystem) : option string := chain_get_inviter (chain s) (our_id s).

Definition is_direct_connection (s : InviteSystem) (peer_id : string) : bool :=
  bool_decide (peer_id ∈ chain_get_invitees (chain s) (our_id s)) || bool_decide (chain_get_inviter (chain s) (our_id s) = Some peer_id).

Definition get_connected_peers (s : InviteSystem) : list string :=
  let peers := chain_get_invitees (chain s) (our_id s) in
  match chain_get_inviter (chain s) (our_id s) with
  | Some inviter => peers ++ [inviter]
  | None => peers
  end.
End Chain.

(** ** Seeds *)

Lemma is_prefix_app p l r : is_prefix p l = true -> is_prefix p (l ++ r) = true.
Proof. revert l. induction p as [|a p IH]; intros [|b l]; cbn; try done. rewrite !andb_true_iff. intros [? ?]. split; [done|by apply IH]. Qed.

Lemma before_split p l l1 : before p l = Some l1 -> exists l2, l = l1 ++ l2.
Proof.
  revert l1. induction l as [|a l IH]; intros l1; cbn [before].
  - case_if; [|done]. intros [= <-]. by exists [].
  - case_if; [intros [= <-]; by exists (a :: l)|]. destruct (before p l) as [l'|]; [|done]. intros [= <-].
    destruct (IH l' eq_refl) as [l2 ->]. by exists l2.
Qed.

Lemma before_first p l l1 : p <> [] -> before p l = Some l1 -> before p l1 = None.
Proof.
  intros Hp. revert l1. induction l as [|a l IH]; intros l1; cbn [before].
  - case_if; [|done]. by destruct p.
  - case_if; [intros [= <-]; by destruct p|]. destruct (before p l) as [l'|] eqn:Hb; [|done]. intros [= <-].
    destruct (before_split _ _ _ Hb) as [l2 ->]. cbn [before]. case_if; [|by rewrite (IH l')].
    match goal with H : is_prefix p (a :: l') = true |- _ => apply (is_prefix_app _ _ l2) in H end. cbn [app] in *. congruence.
Qed.

(** No peer id rides in the address of a seed. *)
Definition bare (e : SeedLedgerEntry) : Prop := before P2P (str_bytes (seed_multiaddr e)) = None.

Lemma stripped_bare e : bare (stripped e).
Proof.
  unfold bare, stripped. destruct (before P2P (str_bytes (seed_multiaddr e))) as [l|] eqn:Hb; [|done]. cbn [seed_multiaddr]. rewrite str_bytes_of_bytes.
  by apply (before_first P2P (str_bytes (seed_multiaddr e))); [vm_compute|].
Qed.

Lemma seed_multiaddr_inj e1 e2 : seed_multiaddr e1 = seed_multiaddr e2 -> e1 = e2.
Proof. destruct e1, e2. cbn. congruence. Qed.

(** What the loop keeps: addresses all different and bare, at most the limit of them. *)
Record seeds_ok (out : list SeedLedgerEntry) : Prop := {
  sd_nodup : NoDup out;
  sd_bare : Forall bare out;
  sd_bound : zlen out <= MAX_SEED_LEDGER_ENTRIES;
}.

Lemma seed_loop_spec peers : forall out, seeds_ok out ->
  exists new, seed_loop (seed_multiaddr <$> out) out peers = out ++ new /\ seeds_ok (out ++ new) /\ sublist new (stripped <$> peers) /\
    (zlen (out ++ new) < MAX_SEED_LEDGER_ENTRIES -> forall p, p ∈ peers -> stripped p ∈ out ++ new).
Proof.
  induction peers as [|p peers IH]; intros out Hok; cbn [seed_loop fmap list_fmap].
  - exists []. rewrite app_nil_r. split_and!; [done|done|constructor|set_solver].
  - destruct (Z.leb_spec MAX_SEED_LEDGER_ENTRIES (zlen out)).
    { exists []. rewrite app_nil_r. split_and!; [done|done|apply sublist_nil_l|lia]. }
    destruct (bool_decide_reflect (seed_multiaddr (stripped p) ∈ seed_multiaddr <$> out)) as [Hin|Hin].
    + destruct (IH out Hok) as (new & -> & Hnew & Hsub & Hall). exists new. split_and!; [done|done|by constructor|].
      intros Hlt q [->|Hq]%elem_of_cons; [|by apply Hall]. apply list_elem_of_fmap in Hin as (e & He & Hin).
      apply seed_multiaddr_inj in He as ->. set_solver.
    + destruct (IH (out ++ [stripped p])) as (new & Hrun & Hnew & Hsub & Hall).
      { destruct Hok as [Hn Hb Hz]. split.
        - apply NoDup_app. split_and!; [done| |apply NoDup_singleton]. intros e He ->%list_elem_of_singleton. apply Hin.
          apply list_elem_of_fmap. by exists (stripped p).
        - apply Forall_app. split; [done|]. constructor; [apply stripped_bare|constructor].
        - rewrite zlen_app, zlen_cons, zlen_nil. lia. }
      rewrite fmap_app in Hrun. cbn [fmap list_fmap] in Hrun. exists (stripped p :: new). rewrite Hrun, <-app_assoc. cbn [app].
      rewrite <-app_assoc in Hnew, Hall. cbn [app] in Hnew, Hall. split_and!; [done|done|by constructor|].
      intros Hlt q [->|Hq]%elem_of_cons; [set_solver|]. by apply Hall.
Qed.

(** The seed ledger of an invite starts with the inviter's own address, whatever the peers are; it
    has at most sixteen entries, all different and none with a peer id, in the order of the ranking;
    and no peer is left out while there is room. *)
Theorem seed_ledger_built inviter peers :
  let l := build_seed_ledger inviter peers in
  head l = Some (stripped inviter) /\ 1 <= zlen l <= MAX_SEED_LEDGER_ENTRIES /\ NoDup l /\ Forall bare l /\
  sublist (tail l) (stripped <$> peers) /\ (zlen l < MAX_SEED_LEDGER_ENTRIES -> forall p, p ∈ peers -> stripped p ∈ l).
Proof.
  cbv zeta. unfold build_seed_ledger. destruct (seed_loop_spec peers [stripped inviter]) as (new & Hrun & [Hn Hb Hz] & Hsub & Hall).
  { split; [apply NoDup_singleton|constructor; [apply stripped_bare|constructor]|done]. }
  cbn [fmap list_fmap] in Hrun. rewrite Hrun. cbn [app head tail] in *. split_and!; try done.
  rewrite zlen_cons. pose proof (zlen_nonneg new). lia.
Qed.

(** ** Tokens *)

(** What the documentation of the crates promises: base64 is decoded to what was encoded and takes
    four characters for three bytes, and [bincode] writes every byte of a vector. *)
Class LawfulBase64 {B64 : Base64} : Prop := {
  b64_roundtrip : forall b, b64_decode (b64_encode b) = Some b;
  b64_length : forall b, str_len (b64_encode b) = (4 * zlen b + 2) / 3;
}.

Class InviteWire {CT : Codec InviteToken} {CG : Codec LegacyInviteToken} : Prop := {
  wire_lawful :: LawfulCodec InviteToken;
  wire_legacy : forall l b, enc l = Some b -> @dec InviteToken _ b = None /\ dec b = Some l;
  wire_size : forall t b, enc t = Some b ->
    zlen (inviter_public_key t) + zlen (iv_signature t) + zlen (default [] (pq_public_key t)) + zlen (default [] (pq_signature t)) <= zlen b;
}.

Ltac div_lia := Z.div_mod_to_equations; lia.

Section TokenLaws.
Context {CR : Crypto} {MD : MlDsa} {B64 : Base64} {L64 : LawfulBase64} {CT : Codec InviteToken} {CG : Codec LegacyInviteToken} {IW : InviteWire}.

Lemma signable_run t : exists body, enc (unsigned t) = Some body /\ get_signable_data t = Ok (INVITE_SIGNING_DOMAIN ++ body) /\ dec body = Some (unsigned t).
Proof. unfold get_signable_data. destruct (enc_dec (unsigned t)) as (b & -> & Hb). by exists b. Qed.

Lemma signable_binds t1 t2 : get_signable_data t1 = get_signable_data t2 -> unsigned t1 = unsigned t2.
Proof.
  destruct (signable_run t1) as (b1 & _ & -> & H1), (signable_run t2) as (b2 & _ & -> & H2).
  intros Heq%Ok_inj%app_inv_head. congruence.
Qed.

Lemma verify_ed25519_ok t m : verify_ed25519 t m = Ok tt <->
  zlen (inviter_public_key t) = 32 /\ ed25519_key_valid (inviter_public_key t) = true /\ zlen (iv_signature t) = 64 /\
  ed25519_verify (inviter_public_key t) m (iv_signature t) = true.
Proof.
  unfold verify_ed25519. destruct (Z.eqb_spec (zlen (inviter_public_key t)) 32); cbn [negb]; [|naive_solver].
  destruct (ed25519_key_valid _); cbn [negb]; [|naive_solver]. destruct (Z.eqb_spec (zlen (iv_signature t)) 64); cbn [negb]; [|naive_solver].
  destruct (ed25519_verify _ _ _); naive_solver.
Qed.

(** What is required of the post-quantum signature. *)
Definition pq_accepted (t : InviteToken) (m : bytes) (require_pq : bool) : Prop :=
  match pq_signature t with
  | Some s => exists k, pq_public_key t = Some k /\ mldsa_verify k m s = Ok tt
  | None => require_pq = false
  end.

Lemma verify_pq_ok t m r : verify_pq t m r = Ok tt <-> pq_accepted t m r.
Proof.
  unfold verify_pq, pq_accepted. destruct (pq_signature t) as [s|]; [|by destruct (pq_public_key t), r].
  destruct (pq_public_key t) as [k|]; [|naive_solver]. unfold MLDSA65_PUBLIC_KEY_LEN.
  destruct (Z.eqb_spec (zlen k) 1952) as [E|E]; cbn [negb].
  - split; [intros H; exists k; split; [done|]|intros (? & [= <-] & ->); done]. by destruct (mldsa_verify k m s) as [[]| |].
  - split; [done|]. intros (? & [= <-] & H). unfold mldsa_verify in H. by rewrite (proj2 (Z.eqb_neq _ _) E) in H.
Qed.

Lemma policy_ok now t r : verify_with_policy now t r = Ok tt <->
  now < iv_expires_at t /\ exists m, get_signable_data t = Ok m /\ verify_ed25519 t m = Ok tt /\ pq_accepted t m r.
Proof.
  unfold verify_with_policy. destruct (Z.leb_spec (iv_expires_at t) now); [split; [done|intros [? _]; lia]|].
  destruct (signable_run t) as (b & _ & Hm & _).
  destruct (bool_decide_reflect (iv_signature t = [])) as [E|E].
  - split; [done|]. intros (_ & m & _ & (_ & _ & Hs & _)%verify_ed25519_ok & _). by rewrite E in Hs.
  - rewrite Hm. cbn [rbind]. split.
    + intros Hv. split; [done|]. eexists. split; [done|]. rewrite <-verify_pq_ok.
      destruct (verify_ed25519 t _) as [[]|?|] eqn:Hed; [|done..]. by split.
    + intros (_ & m & <-%Ok_inj & -> & Hp). by apply verify_pq_ok.
Qed.

(** A token is accepted exactly when it has not expired, its Ed25519 key and signature are well
    formed and the signature covers every field but the signatures, and its ML-DSA signature, which
    a strict policy demands, covers the same bytes with the key that the token carries. *)
Theorem invite_verified now t require_pq :
  verify_with_policy now t require_pq = Ok tt <->
  now < iv_expires_at t /\
  exists body, enc (unsigned t) = Some body /\
    let signed := INVITE_SIGNING_DOMAIN ++ body in
    zlen (inviter_public_key t) = 32 /\ ed25519_key_valid (inviter_public_key t) = true /\ zlen (iv_signature t) = 64 /\
    ed25519_verify (inviter_public_key t) signed (iv_signature t) = true /\ pq_accepted t signed require_pq.
Proof.
  rewrite policy_ok. destruct (signable_run t) as (b & Hb & Hm & _). split.
  - intros (Hnow & m & Hm' & Hed & Hp). split; [done|]. exists b. split; [done|]. rewrite Hm in Hm'. apply Ok_inj in Hm' as <-. apply verify_ed25519_ok in Hed. naive_solver.
  - intros (Hnow & b' & Hb' & H1 & H2 & H3 & H4 & Hp). split; [done|]. rewrite Hb in Hb'. injection Hb' as <-. exists (INVITE_SIGNING_DOMAIN ++ b). split; [done|].
    split; [by apply verify_ed25519_ok|done].
Qed.

(** C38: nothing in an accepted token can be exchanged, its seed addresses least of all: two accepted
    tokens with the same key and the same Ed25519 signature agree in every field but the ML-DSA
    signature, or that signature is valid for two different texts. *)
Theorem invite_tamperproof now now' t t' r r' :
  verify_with_policy now t r = Ok tt -> verify_with_policy now' t' r' = Ok tt ->
  inviter_public_key t = inviter_public_key t' -> iv_signature t = iv_signature t' ->
  inviter_id t = inviter_id t' /\ invitee_id t = invitee_id t' /\ iv_created_at t = iv_created_at t' /\ iv_expires_at t = iv_expires_at t' /\
    iv_metadata t = iv_metadata t' /\ pq_public_key t = pq_public_key t' /\ seed_ledger t = seed_ledger t' \/
  exists m m', m <> m' /\ ed25519_verify (inviter_public_key t) m (iv_signature t) = true /\ ed25519_verify (inviter_public_key t) m' (iv_signature t) = true.
Proof.
  rewrite !policy_ok. intros (_ & m & Hm & (_ & _ & _ & Hs)%verify_ed25519_ok & _) (_ & m' & Hm' & (_ & _ & _ & Hs')%verify_ed25519_ok & _) Hk He.
  destruct (decide (m = m')) as [->|Hne].
  { left. assert (unsigned t = unsigned t') as Hu by (apply signable_binds; congruence). injection Hu as. done. }
  right. exists m, m'. rewrite Hk, He at 2. rewrite Hk, He in *. done.
Qed.

Lemma invite_bytes_roundtrip t : exists b, invite_to_bytes t = Ok b /\ invite_from_bytes b = Ok t.
Proof. unfold invite_to_bytes, invite_from_bytes. destruct (enc_dec t) as (b & -> & Hb). exists b. by rewrite Hb. Qed.

Lemma str_len_app s t : str_len (s +:+ t) = str_len s + str_len t.
Proof. unfold str_len. by rewrite str_bytes_app, zlen_app. Qed.

(** An invite whose encoding has at most 2,211 bytes is written as a QR payload that is read back as
    the same token; a longer one is refused. *)
Theorem invite_qr_roundtrip t raw : invite_to_bytes t = Ok raw ->
  (zlen raw <= 2211 -> exists s, to_qr_payload t = Ok s /\ str_len s <= QR_BYTE_BUDGET /\ from_qr_payload s = Ok t) /\
  (2211 < zlen raw -> exists n, to_qr_payload t = Err (PayloadTooLarge n QR_BYTE_BUDGET)).
Proof.
  intros Hraw. destruct (invite_bytes_roundtrip t) as (b & Hb & Hback). assert (b = raw) as -> by congruence.
  assert (str_len (QR_PAYLOAD_PREFIX +:+ b64_encode raw) = 5 + (4 * zlen raw + 2) / 3) as Hlen by (rewrite str_len_app, b64_length; done).
  unfold to_qr_payload. rewrite Hraw. cbn [rbind]. rewrite Hlen. unfold QR_BYTE_BUDGET. split; intros Hz.
  - destruct (Z.ltb_spec 2953 (5 + (4 * zlen raw + 2) / 3)); [div_lia|]. eexists. split; [done|]. split; [div_lia|].
    unfold from_qr_payload. rewrite strip_prefix_app, b64_length, b64_roundtrip. unfold QR_BYTE_BUDGET.
    by destruct (Z.ltb_spec 2953 ((4 * zlen raw + 2) / 3)); [div_lia|].
  - destruct (Z.ltb_spec 2953 (5 + (4 * zlen raw + 2) / 3)); [by eexists|div_lia].
Qed.

(** No invite that a strict policy accepts fits in a QR code: the ML-DSA key and signature alone
    have 5,261 bytes. *)
Theorem strict_invite_never_fits now t :
  verify_with_policy now t true = Ok tt -> exists n, to_qr_payload t = Err (PayloadTooLarge n QR_BYTE_BUDGET).
Proof.
  rewrite policy_ok. intros (_ & m & _ & _ & Hp). unfold pq_accepted in Hp. destruct (pq_signature t) as [s|] eqn:Hs; [|done].
  destruct Hp as (k & Hk & Hv). assert (zlen k = 1952 /\ zlen s = 3309) as [Hzk Hzs].
  { unfold mldsa_verify in Hv. destruct (Z.eqb_spec (zlen k) 1952); [|done]. destruct (Z.eqb_spec (zlen s) 3309); [|done]. done. }
  unfold to_qr_payload, invite_to_bytes. destruct (enc_dec t) as (b & Hb & _). rewrite Hb. cbn [rbind].
  pose proof (wire_size t b Hb) as Hz. rewrite Hk, Hs in Hz. unfold default, id in Hz. pose proof (zlen_nonneg (inviter_public_key t)).
  pose proof (zlen_nonneg (iv_signature t)). rewrite str_len_app, b64_length. change (str_len QR_PAYLOAD_PREFIX) with 5. unfold QR_BYTE_BUDGET.
  destruct (Z.ltb_spec 2953 (5 + (4 * zlen b + 2) / 3)); [by eexists|div_lia].
Qed.

(** A token of the older shape is read with an empty seed ledger, and one of the current shape is
    never mistaken for it. *)
Theorem legacy_invite_read l b t :
  (enc l = Some b -> invite_from_bytes b = Ok (of_legacy l) /\ seed_ledger (of_legacy l) = []) /\
  (exists b', invite_to_bytes t = Ok b' /\ invite_from_bytes b' = Ok t).
Proof.
  split; [|apply invite_bytes_roundtrip]. intros [Hc Hl]%wire_legacy. unfold invite_from_bytes. by rewrite Hc, Hl.
Qed.
End TokenLaws.

(** ** Chains of inviters *)

Section ChainLaws.
Context {HI : HashIter string (string * string * Z)}.

Lemma find_map_Some {A B} (f : A -> option B) l b : find_map f l = Some b -> exists a, a ∈ l /\ f a = Some b.
Proof.
  induction l as [|a l IH]; cbn; [done|]. destruct (f a) as [b'|] eqn:Hf.
  - intros [= ->]. exists a. split; [left|done].
  - intros (a' & ? & ?)%IH. exists a'. split; [by right|done].
Qed.

Lemma find_map_None {A B} (f : A -> option B) l a : find_map f l = None -> a ∈ l -> f a = None.
Proof.
  induction l as [|x l IH]; cbn; [intros _ []%not_elem_of_nil|]. destruct (f x) eqn:Hf; [done|]. intros Hn [->|Ha]%elem_of_cons; [done|by apply IH].
Qed.

Lemma invite_values_spec c v : v ∈ invite_values c <-> exists id, invites c !! id = Some v.
Proof.
  unfold invite_values. rewrite list_elem_of_fmap. split.
  - intros ([id v'] & -> & Hv). exists id. by apply elem_of_hm_iter in Hv.
  - intros [id Hv]. exists (id, v). split; [done|]. by apply elem_of_hm_iter.
Qed.

Lemma inviter_Some c x y : chain_get_inviter c x = Some y -> exists ts, (y, x, ts) ∈ invite_values c.
Proof. intros ([[i v] ts] & Hin & Hf)%find_map_Some. destruct (String.eqb_spec v x); [|done]. simplify_eq. by exists ts. Qed.

Lemma inviter_None c x y ts : chain_get_inviter c x = None -> (y, x, ts) ∉ invite_values c.
Proof. intros Hn Hin. pose proof (find_map_None _ _ _ Hn Hin) as Hf. cbn in Hf. by rewrite String.eqb_refl in Hf. Qed.

Lemma invitees_spec c x y : y ∈ chain_get_invitees c x <-> exists ts, (x, y, ts) ∈ invite_values c.
Proof.
  unfold chain_get_invitees. rewrite list_elem_of_omap. split.
  - intros ([[i v] ts] & Hin & Hf). destruct (String.eqb_spec i x); [|done]. simplify_eq. by exists ts.
  - intros [ts Hin]. exists (x, y, ts). by rewrite String.eqb_refl.
Qed.

(** [x] was invited by [y], as the walk sees it. *)
Definition invited_by (c : InviteChain) (x y : string) : Prop := chain_get_inviter c x = Some y.

(** A walk from [x] through [l], and one that ends there. *)
Fixpoint walk (c : InviteChain) (x : string) (l : list string) : Prop :=
  match l with
  | [] => True
  | y :: l => invited_by c x y /\ walk c y l
  end.

Fixpoint climbs (c : InviteChain) (x : string) (l : list string) : Prop :=
  match l with
  | [] => chain_get_inviter c x = None
  | y :: l => invited_by c x y /\ climbs c y l
  end.

(** The nodes a walk leaves. *)
Fixpoint froms (x : string) (l : list string) : list string :=
  match l with
  | [] => []
  | y :: l => x :: froms y l
  end.

Lemma trust_loop_spec c fuel : forall acc x,
  match trust_loop fuel c acc x with
  | Some r => exists l, r = acc ++ l /\ climbs c x l /\ (length l < fuel)%nat
  | None => exists l, walk c x l /\ length l = fuel
  end.
Proof.
  induction fuel as [|fuel IH]; intros acc x; cbn [trust_loop]; [by exists []|].
  destruct (chain_get_inviter c x) as [y|] eqn:Hy; [|exists []; rewrite app_nil_r; split_and!; [done|done|cbn; lia]].
  specialize (IH (acc ++ [y]) y). destruct (trust_loop _ _ _ _) as [r|].
  - destruct IH as (l & -> & Hl & ?). exists (y :: l). rewrite <-app_assoc. cbn. split_and!; [done|done|done|lia].
  - destruct IH as (l & Hl & ?). exists (y :: l). cbn. split_and!; [done|done|lia].
Qed.

Lemma climbs_det c x l1 l2 : climbs c x l1 -> climbs c x l2 -> l1 = l2.
Proof.
  unfold invited_by. revert x l2. induction l1 as [|y l1 IH]; intros x [|z l2]; cbn; unfold invited_by; [done|naive_solver..|].
  intros [Hy H1] [Hz H2]. assert (y = z) as -> by congruence. f_equal. by apply (IH z).
Qed.

Lemma climbs_rtc c x y l : rtc (invited_by c) x y -> climbs c x l -> exists l', climbs c y l' /\ (length l' <= length l)%nat.
Proof.
  intros Hr. revert l. induction Hr as [|x z y Hxz _ IH]; intros l Hl; [by exists l|]. destruct l as [|w l]; cbn in Hl; unfold invited_by in *; [congruence|].
  destruct Hl as [Hw Hl]. assert (w = z) as -> by congruence. destruct (IH l Hl) as (l' & ? & ?). exists l'. cbn. split; [done|lia].
Qed.

Lemma tc_first {A} (R : A -> A -> Prop) x y : tc R x y -> exists z, R x z /\ rtc R z y.
Proof. intros [?|? z ? ? Ht]; [by eexists|]. exists z. split; [done|by apply tc_rtc]. Qed.

Lemma climbs_acyclic c x y l : rtc (invited_by c) x y -> tc (invited_by c) y y -> ~ climbs c x l.
Proof.
  intros Hr (z & Hyz & Hzy)%tc_first Hl. destruct (climbs_rtc _ _ _ _ Hr Hl) as (ly & Hy & _). destruct ly as [|w ly]; cbn in Hy; unfold invited_by in *; [congruence|].
  destruct Hy as [Hw Hy]. assert (w = z) as -> by congruence. destruct (climbs_rtc _ _ _ _ Hzy Hy) as (ly' & Hy' & ?).
  assert (ly' = z :: ly) as ->; [by apply (climbs_det c y)|]. cbn in *. lia.
Qed.

Lemma walk_froms c x l : walk c x l -> forall y, y ∈ froms x l -> rtc (invited_by c) x y /\ exists i ts, (i, y, ts) ∈ invite_values c.
Proof.
  revert x. induction l as [|z l IH]; intros x; cbn; [intros _ y []%not_elem_of_nil|]. intros [Hz Hl] y [->|Hy]%elem_of_cons.
  - split; [done|]. apply inviter_Some in Hz as [ts ?]. by exists z, ts.
  - destruct (IH z Hl y Hy) as [? ?]. split; [by eapply rtc_l|done].
Qed.

Lemma walk_cycle c x l : walk c x l -> NoDup (froms x l) \/ exists y, rtc (invited_by c) x y /\ tc (invited_by c) y y.
Proof.
  revert x. induction l as [|z l IH]; intros x; cbn; [left; constructor|]. intros [Hz Hl].
  destruct (IH z Hl) as [Hn|(y & ? & ?)]; [|right; exists y; split; [by eapply rtc_l|done]].
  destruct (decide (x ∈ froms z l)) as [Hx|Hx]; [|left; by constructor]. right. exists x. split; [done|].
  destruct (walk_froms _ _ _ Hl x Hx) as [Hr _]. eapply tc_rtc_r; [by apply tc_once|done].
Qed.

Lemma length_froms x l : length (froms x l) = length l.
Proof. revert x. induction l as [|y l IH]; intros x; cbn; [done|]. by rewrite IH. Qed.

Lemma walk_bound c x l : walk c x l -> NoDup (froms x l) -> (length l <= size (invites c))%nat.
Proof.
  intros Hl Hn. rewrite <-(length_froms x l), <-(length_hm_iter (invites c)), <-(length_fmap snd).
  rewrite <-(length_fmap (fun v => v.1.2)). apply submseteq_length, NoDup_submseteq; [done|]. intros y Hy.
  destruct (walk_froms _ _ _ Hl y Hy) as (_ & i & ts & Hin). apply list_elem_of_fmap. by exists (i, y, ts).
Qed.

Lemma climbs_walk c x l : climbs c x l -> walk c x l.
Proof. revert x. induction l as [|y l IH]; intros x; cbn; [done|]. intros [? ?]. split; [done|by apply IH]. Qed.

Lemma climbs_nodup c x l : climbs c x l -> NoDup (x :: l).
Proof.
  revert x. induction l as [|y l IH]; intros x Hl; [apply NoDup_singleton|]. pose proof Hl as [Hy Hl']. apply NoDup_cons. split; [|by apply IH].
  intros Hx. assert (rtc (invited_by c) y x) as Hr.
  { clear IH Hl Hy. revert y Hl' Hx. induction l as [|z l IH]; intros y Hl' [->|Hx]%elem_of_cons; try done; [by apply not_elem_of_nil in Hx|].
    destruct Hl' as [Hz Hl']. eapply rtc_l; [done|]. by apply IH. }
  apply (climbs_acyclic c x x (y :: l)); [done| |done]. eapply tc_rtc_r; [by apply tc_once|done].
Qed.

Lemma trust_chain_climbs c x l fuel : climbs c x l -> (length l < fuel)%nat -> chain_get_trust_chain fuel c x = Some (x :: l).
Proof.
  intros Hl Hf. unfold chain_get_trust_chain. pose proof (trust_loop_spec c fuel [x] x) as Hs. destruct (trust_loop _ _ _ _) as [r|].
  - destruct Hs as (l' & -> & Hl' & _). by rewrite (climbs_det c x l' l).
  - destruct Hs as (l' & Hl' & Hlen). exfalso. clear -Hl Hf Hl' Hlen. revert x l fuel Hl Hf Hl' Hlen. induction l' as [|y l' IH]; cbn; intros x l fuel Hl Hf Hl' Hlen; [lia|].
    destruct Hl' as [Hy Hl']. destruct l as [|z l]; cbn in Hl, Hf; unfold invited_by in *; [congruence|]. destruct Hl as [Hz Hl].
    assert (y = z) as -> by congruence. apply (IH z l (length l')); [done|lia|done|done].
Qed.

Lemma trust_chain_cycle c x y fuel : rtc (invited_by c) x y -> tc (invited_by c) y y -> chain_get_trust_chain fuel c x = None.
Proof.
  intros Hr Ht. unfold chain_get_trust_chain. pose proof (trust_loop_spec c fuel [x] x) as Hs.
  destruct (trust_loop _ _ _ _) as [r|]; [|done]. destruct Hs as (l & _ & Hl & _). by destruct (climbs_acyclic _ _ _ _ Hr Ht Hl).
Qed.

(** The walk up the inviters of a node either comes to somebody whom nobody invited, without meeting
    anybody twice and after at most as many steps as there are invites, and the chain of trust is
    what it met; or it comes to somebody who is among their own inviters, and never returns. *)
Theorem trust_chain_returns c x :
  (exists l, climbs c x l /\ NoDup (x :: l) /\ zlen l <= invite_count c /\
     forall fuel, (length l < fuel)%nat -> chain_get_trust_chain fuel c x = Some (x :: l)) \/
  (exists y, rtc (invited_by c) x y /\ tc (invited_by c) y y /\ forall fuel, chain_get_trust_chain fuel c x = None).
Proof.
  pose proof (trust_loop_spec c (S (size (invites c))) [x] x) as Hs. destruct (trust_loop _ _ _ _) as [r|].
  - left. destruct Hs as (l & _ & Hl & Hlen). exists l. split; [done|]. split; [by eapply climbs_nodup|]. split; [unfold zlen, invite_count; lia|].
    intros fuel Hf. by apply trust_chain_climbs.
  - right. destruct Hs as (l & Hl & Hlen). destruct (walk_cycle _ _ _ Hl) as [Hn|(y & Hr & Ht)]; [apply (walk_bound _ _ _ Hl) in Hn; lia|].
    exists y. split_and!; [done|done|]. intros fuel. by apply (trust_chain_cycle c x y).
Qed.

(** *** The invite system of a node *)

(** The invitations of [us], by the key they are recorded under. *)
Definition records_of (us : string) (m : gmap string (string * string * Z)) (invited : list string) : Prop :=
  (forall k i v ts, m !! k = Some (i, v, ts) -> i = us /\ k = us +:+ "_" +:+ v) /\
  (forall v, v ∈ invited <-> exists ts, m !! (us +:+ "_" +:+ v) = Some (us, v, ts)).

Lemma string_app_inj (s t u : string) : s +:+ t = s +:+ u -> t = u.
Proof. induction s as [|a s IH]; cbn; [done|]. intros [= H]. by apply IH. Qed.

Lemma key_inj us v w : us +:+ "_" +:+ v = us +:+ "_" +:+ w -> v = w.
Proof. intros H%string_app_inj. cbn in H. by injection H. Qed.

Definition invite_run (us : string) (key : bytes) (l : list (Z * string)) : InviteSystem :=
  foldl (fun s '(now, v) => record_invitation now s v) (system_new us key) l.

Lemma invite_run_records us key l : our_id (invite_run us key l) = us /\ records_of us (invites (chain (invite_run us key l))) l.*2.
Proof.
  induction l as [|[now v] l [Hus [Hk Hv]]] using rev_ind.
  - split; [done|]. split; [intros k i v ts; cbn; by rewrite lookup_empty|]. intros v. cbn. rewrite lookup_empty. set_solver.
  - unfold invite_run in *. rewrite foldl_snoc. cbn [record_invitation]. set (s := foldl _ _ l) in *. split; [done|]. cbn [record_invitation chain invites record_invite]. rewrite Hus. split.
    + intros k i w ts. rewrite lookup_insert_Some. intros [[<- [= <- <- <-]]|[_ Hl]]; [done|by eapply Hk].
    + intros w. rewrite fmap_app, elem_of_app, Hv. cbn. destruct (decide (w = v)) as [->|Hne].
      * split; [intros _; exists now; by rewrite lookup_insert_eq|set_solver].
      * rewrite lookup_insert_ne by (intros E%key_inj; congruence). set_solver.
Qed.

Lemma invite_run_values us key l i v ts :
  (i, v, ts) ∈ invite_values (chain (invite_run us key l)) -> i = us /\ v ∈ l.*2.
Proof.
  destruct (invite_run_records us key l) as [_ [Hk Hv]]. intros [id Hid]%invite_values_spec. destruct (Hk _ _ _ _ Hid) as [-> ->].
  split; [done|]. apply Hv. by exists ts.
Qed.

Lemma invite_run_inviter us key l x :
  chain_get_inviter (chain (invite_run us key l)) x = if bool_decide (x ∈ l.*2) then Some us else None.
Proof.
  destruct (chain_get_inviter _ x) as [y|] eqn:Hy.
  - apply inviter_Some in Hy as [ts [-> Hx]%invite_run_values]. by rewrite bool_decide_true.
  - rewrite bool_decide_false; [done|]. intros Hx. destruct (invite_run_records us key l) as [_ [_ Hv]].
    apply Hv in Hx as [ts Hx]. apply (inviter_None _ _ us ts Hy), invite_values_spec. by eexists.
Qed.

(** A node's own record is about the people it invited and nobody else.  As long as it never
    recorded an invitation of itself, nobody is its inviter, the peers it is connected to are those
    it invited, and every chain of trust has one or two members; once it did, the chain of trust of
    itself and of everybody it invited is never computed. *)
Theorem invite_system_view us key l :
  let s := invite_run us key l in
  (forall p, p ∈ get_invitees s <-> p ∈ l.*2) /\
  (us ∉ l.*2 ->
     get_inviter s = None /\ (forall p, is_direct_connection s p = true <-> p ∈ l.*2) /\ get_connected_peers s = get_invitees s /\
     forall p fuel, (1 < fuel)%nat -> get_trust_chain fuel s p = Some (if bool_decide (p ∈ l.*2) then [p; us] else [p])) /\
  (us ∈ l.*2 -> forall p fuel, p ∈ l.*2 -> get_trust_chain fuel s p = None).
Proof.
  cbv zeta. destruct (invite_run_records us key l) as [Hus [Hk Hv]]. pose proof (invite_run_inviter us key l) as Hinv.
  assert (forall p, p ∈ get_invitees (invite_run us key l) <-> p ∈ l.*2) as Hees.
  { intros p. unfold get_invitees. rewrite invitees_spec, Hus. split; [intros [ts Hin]; by apply (invite_run_values us key l) in Hin as [_ ?]|].
    intros [ts Hp]%Hv. exists ts. apply invite_values_spec. by eexists. }
  split; [exact Hees|]. split.
  - intros Hnot. assert (get_inviter (invite_run us key l) = None) as Hnone by (unfold get_inviter; rewrite Hus, Hinv; by rewrite bool_decide_false).
    unfold is_direct_connection, get_connected_peers. fold (get_inviter (invite_run us key l)) (get_invitees (invite_run us key l)). rewrite Hnone.
    split_and!; [done| |done|].
    + intros p. rewrite orb_true_iff, !bool_decide_eq_true, Hees. naive_solver.
    + intros p fuel Hf. destruct (bool_decide_reflect (p ∈ l.*2)) as [Hp|Hp]; apply trust_chain_climbs; cbn; unfold invited_by; rewrite ?Hinv; try lia.
      * split; [by case_bool_decide|by case_bool_decide].
      * by case_bool_decide.
  - intros Hself p fuel Hp. apply (trust_chain_cycle _ p us).
    + apply rtc_once. unfold invited_by. by rewrite Hinv, bool_decide_true.
    + apply tc_once. unfold invited_by. by rewrite Hinv, bool_decide_true.
Qed.
End ChainLaws.

(** ** Concrete inputs *)

Module InviteExamples.
Import Sample.
#[local] Existing Instance IdentityExamples.ex_dsa.
#[local] Existing Instance IdentityExamples.ex_dsa_laws.
#[local] Instance ex_iter : HashIter string (string * string * Z) := canonical_iter.

(** A base64 of the right length: the bytes, padded. *)
#[local] Instance ex_b64 : Base64 := {|
  b64_encode b := of_bytes (b ++ replicate (Z.to_nat ((4 * zlen b + 2) / 3 - zlen b)) Byte.x41);
  b64_decode s := Some (take (Z.to_nat (3 * str_len s / 4)) (str_bytes s));
|}.

#[local] Instance ex_b64_laws : LawfulBase64.
Proof.
  assert (forall b, str_len (b64_encode b) = (4 * zlen b + 2) / 3) as Hlen.
  { intros b. cbn. unfold str_len. rewrite str_bytes_of_bytes, zlen_app, zlen_replicate. pose proof (zlen_nonneg b). div_lia. }
  split; [|exact Hlen]. intros b. cbn [b64_decode ex_b64]. rewrite Hlen. cbn [b64_encode ex_b64]. rewrite str_bytes_of_bytes. f_equal.
  apply take_app_length'. pose proof (zlen_nonneg b). unfold zlen in *. div_lia.
Qed.

#[local] Instance seed_dec : EqDecision SeedLedgerEntry.
Proof. solve_decision. Defined.

#[local] Instance seed_countable : Countable SeedLedgerEntry.
Proof. apply (inj_countable' seed_multiaddr mkSeed). by intros []. Defined.

#[local] Instance token_dec : EqDecision InviteToken.
Proof. solve_decision. Defined.

#[local] Instance token_countable : Countable InviteToken.
Proof.
  apply (inj_countable' (fun t => (((inviter_id t, inviter_public_key t), (invitee_id t, iv_created_at t)), ((iv_expires_at t, iv_signature t), (iv_metadata t,
    pq_public_key t)), (pq_signature t, seed_ledger t))) (fun '(((a, b), (c, d)), ((e, f), (g, h)), (i, j)) => mkInvite a b c d e f g h i j)). by intros [].
Defined.

#[local] Instance legacy_dec : EqDecision LegacyInviteToken.
Proof. solve_decision. Defined.

#[local] Instance legacy_countable : Countable LegacyInviteToken.
Proof.
  apply (inj_countable' (fun t => (lg_inviter_id t, lg_inviter_public_key t, lg_invitee_id t, lg_created_at t, lg_expires_at t, lg_signature t,
    lg_metadata t, lg_pq_public_key t, lg_pq_signature t)) (fun '(a, b, c, d, e, f, g, h, i) => mkLegacyInvite a b c d e f g h i)). by intros [].
Defined.

(** Wire shapes told apart by a first byte, the current one with room for its vectors. *)
Fixpoint skip (l : bytes) : option bytes :=
  match l with
  | Byte.x00 :: l => skip l
  | Byte.x02 :: l => Some l
  | _ => None
  end.

Lemma skip_zeros n l : skip (replicate n Byte.x00 ++ Byte.x02 :: l) = Some l.
Proof. by induction n. Qed.

Definition room (t : InviteToken) : nat :=
  length (inviter_public_key t) + length (iv_signature t) + length (default [] (pq_public_key t)) + length (default [] (pq_signature t)).

#[local] Instance ex_codec : Codec InviteToken := {|
  enc t := Some (Byte.x01 :: replicate (room t) Byte.x00 ++ Byte.x02 :: enc_any t);
  dec b := match b with Byte.x01 :: b => b ← skip b; match dec_any b with Ok t => Some t | _ => None end | _ => None end;
|}.

#[local] Instance ex_codec_g : Codec LegacyInviteToken := {|
  enc t := Some (Byte.x00 :: enc_any t);
  dec b := match b with Byte.x00 :: b => match dec_any b with Ok t => Some t | _ => None end | _ => None end;
|}.

#[local] Instance ex_wire : InviteWire.
Proof.
  split.
  - intros t. eexists. split; [done|]. cbn [dec ex_codec]. rewrite skip_zeros. cbn [mbind option_bind]. by rewrite dec_enc_any.
  - intros l b Hb. injection Hb as <-. split; [done|]. cbn [dec ex_codec_g]. by rewrite dec_enc_any.
  - intros t b Hb. injection Hb as <-. rewrite zlen_cons, zlen_app, zlen_cons, zlen_replicate. unfold room, zlen. lia.
Qed.

(** An invite of Alice for Bob, with both signatures. *)
Definition DRAFT : InviteToken :=
  mkInvite "alice" (ed25519_public [Byte.x01]) "bob" 0 100 [] None (Some (dsa_public [Byte.x02])) None [mkSeed "/ip4/203.0.113.5/tcp/4001"].

Definition TEXT : bytes := INVITE_SIGNING_DOMAIN ++ default [] (enc DRAFT).

Definition HYBRID : InviteToken := with_pq_signature (with_signature DRAFT (ed25519_sign [Byte.x01] TEXT)) (dsa_public [Byte.x02]) (dsa_sign [Byte.x02] TEXT).

Lemma hybrid_pq : pq_accepted HYBRID TEXT true.
Proof.
  exists (dsa_public [Byte.x02]). split; [reflexivity|]. unfold mldsa_verify.
  rewrite dsa_public_length, dsa_sign_length, dsa_sign_valid, dsa_correct. reflexivity.
Qed.

Lemma hybrid_ok : verify_with_policy 5 HYBRID true = Ok tt.
Proof.
  apply policy_ok. split; [reflexivity|]. exists TEXT. split; [reflexivity|]. split; [|apply hybrid_pq].
  apply verify_ed25519_ok. split_and!; [apply ed25519_public_length|apply ed25519_public_valid|apply ed25519_sign_length|apply ed25519_correct].
Qed.

Lemma invite_verified_witness : verify_with_policy 5 HYBRID true = Ok tt.
Proof.
  apply invite_verified. split; [reflexivity|]. exists (default [] (enc DRAFT)). split; [reflexivity|].
  split_and!; [apply ed25519_public_length|apply ed25519_public_valid|apply ed25519_sign_length|apply ed25519_correct|apply hybrid_pq].
Defined.

Lemma invite_tamperproof_witness :
  seed_ledger HYBRID = seed_ledger HYBRID \/
  exists m m', m <> m' /\ ed25519_verify (inviter_public_key HYBRID) m (iv_signature HYBRID) = true /\ ed25519_verify (inviter_public_key HYBRID) m' (iv_signature HYBRID) = true.
Proof.
  destruct (invite_tamperproof 5 5 HYBRID HYBRID true true hybrid_ok hybrid_ok eq_refl eq_refl) as [(_ & _ & _ & _ & _ & _ & H)|H]; [left; exact H|right; exact H].
Defined.

Lemma strict_invite_never_fits_witness : exists n, to_qr_payload HYBRID = Err (PayloadTooLarge n QR_BYTE_BUDGET).
Proof. apply (strict_invite_never_fits 5). apply hybrid_ok. Defined.

Definition SMALL : InviteToken := mkInvite "" [] "" 0 9 [] None None None [].

Lemma invite_qr_roundtrip_witness : exists s, to_qr_payload SMALL = Ok s /\ from_qr_payload s = Ok SMALL.
Proof.
  destruct (invite_qr_roundtrip SMALL (default [] (enc SMALL))) as [H _]; [reflexivity|].
  destruct H as (s & H1 & _ & H2); [vm_compute; discriminate|]. exists s. split; [exact H1|exact H2].
Defined.

Definition OLD : LegacyInviteToken := mkLegacyInvite "a" [] "b" 0 9 [] None None None.

Lemma legacy_invite_read_witness : invite_from_bytes (default [] (enc OLD)) = Ok (of_legacy OLD).
Proof. destruct (legacy_invite_read OLD (default [] (enc OLD)) SMALL) as [H _]. apply H. reflexivity. Defined.

(** An inviter behind a relay: the seed is the address of the relay, and the way to the inviter is lost. *)
Example circuit_inviter_lost :
  build_seed_ledger (mkSeed "/ip4/203.0.113.5/tcp/4001/p2p/12D3Relay/p2p-circuit/p2p/12D3Alice") [] = [mkSeed "/ip4/203.0.113.5/tcp/4001"].
Proof. by vm_compute. Qed.

(** Two nodes that invited each other. *)
Example mutual_invites fuel :
  chain_get_trust_chain fuel (record_invite 0 (record_invite 0 chain_new "1" "alice" "bob") "2" "bob" "alice") "alice" = None.
Proof.
  apply (trust_chain_cycle _ "alice" "alice"); [done|]. apply (tc_l _ _ "bob"); [by vm_compute|]. apply tc_once. by vm_compute.
Qed.
End InviteExamples.
