(* ===== verification/MeshRouting.v ===== *)
(** * Relays, routes and retries ([core/src/transport/mesh_routing.rs])

    The score of a relay, the attempts to deliver a message, the ranking of routes, and the
    table of which relay saw which recipient when, with the fair eviction that bounds it.
    Peer ids are their texts; the order that libp2p gives them is the class [PeerOrder].
    Clock readings (Unix seconds) are arguments, durations are nanoseconds, and [usize]
    counts are natural numbers. *)

From Stdlib Require Import SpecFloat.
From stdpp Require Import pretty.
From S2P Require Import Prelude Effects Floats NegativeCache Ledger.

(** ** Routes *)

Definition ROUTE_REASON_DIRECT_FIRST : string := "DIRECT_FIRST".
Definition ROUTE_REASON_RELAY_RECENCY_SUCCESS : string := "RELAY_RECENCY_SUCCESS".
Definition ROUTE_REASON_RELAY_SUCCESS_SCORE : string := "RELAY_SUCCESS_SCORE".
Definition ROUTE_REASON_RELAY_TIEBREAK_LAST_SUCCESS : string := "RELAY_TIEBREAK_LAST_SUCCESS".
Definition ROUTE_REASON_RELAY_TIEBREAK_PEER_ID : string := "RELAY_TIEBREAK_PEER_ID".

Record RankedRoute : Type := mkRoute {
  path : list string;
  reason_code : string;
  rr_recipient_recency : Z;
  rr_relay_success_score : f64;
  rr_latest_success_order : Z;
}.

Record RouteCursorAdvance : Type := mkAdvance { next_index : Z; wrapped_pass : bool }.

Definition advance_route_cursor (current_index candidate_count : Z) : RouteCursorAdvance :=
  if candidate_count =? 0 then mkAdvance 0 false
  else
    let next_index := sat_add 64 current_index 1 in
    if candidate_count <=? next_index then mkAdvance 0 true else mkAdvance next_index false.

Definition RECENCY_MAX_CLOCK_SKEW_SECS : Z := 5 * 60.
Definition RECENCY_MAX_AGE_SECS : Z := 7 * 24 * 60 * 60.
Definition RECENCY_MAX_TRACKED_ROUTES : nat := 4096.
Definition RECENCY_PRUNE_TARGET_ROUTES : nat := 3072.
Definition RECENCY_MAX_ROUTES_PER_RELAY : nat := 64.

(** ** Relays *)

Record RelayStats : Type := mkRelayStats {
  messages_relayed : Z;
  bytes_relayed : Z;
  successful_deliveries : Z;
  failed_deliveries : Z;
  avg_latency_ms : Z;
  last_used : Z;
}.

Definition stats_default : RelayStats := mkRelayStats 0 0 0 0 0 0.

Record RelayReputation : Type := mkRep {
  rep_peer_id : string;
  rep_stats : RelayStats;
  rep_score : f64;
  is_reliable : bool;
}.

Definition success_score (s : RelayStats) : f64 :=
  f64_mul (f64_div (f64_of (successful_deliveries s)) (f64_of (messages_relayed s))) (f64_of 70).

Definition latency_score (ms : Z) : f64 :=
  f64_of (if ms <? 100 then 20 else if ms <? 500 then 15 else if ms <? 1000 then 10 else 5).

Definition recency_score (age_secs : Z) : f64 :=
  f64_of (if age_secs <? 60 then 10 else if age_secs <? 300 then 7 else if age_secs <? 3600 then 5 else 2).

Definition calculate_score (now : Z) (r : RelayReputation) : RelayReputation :=
  let s := rep_stats r in
  if messages_relayed s =? 0 then mkRep (rep_peer_id r) s (f64_of 50) true
  else
    let age_secs := sat_sub now (last_used s) in
    let score := f64_add (f64_add (success_score s) (latency_score (avg_latency_ms s))) (recency_score age_secs) in
    mkRep (rep_peer_id r) s score (SFleb (f64_of 50) score).

Record ReputationTracker : Type := mkTracker { reputations : gmap string RelayReputation }.

Definition tracker_new : ReputationTracker := mkTracker ∅.

Definition neutral (peer_id : string) : RelayReputation := mkRep peer_id stats_default (f64_of 50) true.

Definition record_relay_attempt `{Build} (now : Z) (t : ReputationTracker) (peer_id : string) (success : bool) (latency_ms bytes : Z) :
    res string ReputationTracker :=
  let rep := default (neutral peer_id) (reputations t !! peer_id) in
  let s := rep_stats rep in
  let! messages_relayed := chk_u 64 (messages_relayed s + 1) in
  let! bytes_relayed := chk_u 64 (bytes_relayed s + bytes) in
  let! successful_deliveries := if success then chk_u 64 (successful_deliveries s + 1) else Ok (successful_deliveries s) in
  let! failed_deliveries := if success then Ok (failed_deliveries s) else chk_u 64 (failed_deliveries s + 1) in
  let! sum := chk_u 64 (avg_latency_ms s + latency_ms) in
  let stats := mkRelayStats messages_relayed bytes_relayed successful_deliveries failed_deliveries (sum / 2) now in
  Ok (mkTracker (<[peer_id := calculate_score now (mkRep (rep_peer_id rep) stats (rep_score rep) (is_reliable rep))]> (reputations t))).

Definition tracker_add_relay (t : ReputationTracker) (peer_id : string) : ReputationTracker :=
  match reputations t !! peer_id with
  | Some _ => t
  | None => mkTracker (<[peer_id := neutral peer_id]> (reputations t))
  end.

Definition tracker_is_empty (t : ReputationTracker) : bool := bool_decide (reputations t = ∅).

(** [f64::total_cmp]: a NaN, which has no sign here, comes last, and the zeros are told apart. *)
Definition total_key (x : f64) : Z * Z * Z :=
  match x with
  | S754_nan => (3, 0, 0)
  | S754_zero s => (0, 0, if s then 0 else 1)
  | _ => f64_key x
  end.

Definition total_cmp (x y : f64) : comparison := key_cmp (total_key x) (total_key y).

Definition by_reputation (a b : RelayReputation) : comparison :=
  then_with (total_cmp (rep_score b) (rep_score a)) (str_cmp (rep_peer_id a) (rep_peer_id b)).

(** ** Retries *)

Definition ms (n : Z) : Z := n * 10 ^ 6.

Record RetryStrategy : Type := mkStrategy {
  max_attempts : option Z;
  initial_delay : Z;
  max_delay : Z;
  backoff_multiplier : f64;
  use_exponential_backoff : bool;
}.

Definition strategy_default : RetryStrategy := mkStrategy None (ms 100) (ms 30000) (lit 3 2) true.

Definition calculate_delay {FF : FloatFns} (s : RetryStrategy) (attempt : Z) : Z :=
  if negb (use_exponential_backoff s) then initial_delay s
  else
    let delay_ms := f64_mul (f64_of (initial_delay s / 10 ^ 6)) (f64_powi (backoff_multiplier s) (swrap 32 attempt)) in
    Z.min (ms (f64_to_u 64 delay_ms)) (max_delay s).

Definition strategy_should_retry (s : RetryStrategy) (attempt : Z) : bool :=
  match max_attempts s with Some max => attempt <? max | None => true end.

Record DeliveryAttempt : Type := mkAttempt {
  message_id : string;
  target_peer : string;
  attempt : Z;
  paths_tried : list (list string);
  last_attempt : Z;
  strategy : RetryStrategy;
}.

Definition attempt_new (now : Z) (message_id target_peer : string) : DeliveryAttempt :=
  mkAttempt message_id target_peer 0 [] now strategy_default.

Definition next_retry_delay {FF : FloatFns} (a : DeliveryAttempt) : Z := calculate_delay (strategy a) (attempt a).

Definition should_retry (a : DeliveryAttempt) : bool := strategy_should_retry (strategy a) (attempt a).

Definition attempt_record_failure `{Build} (now : Z) (a : DeliveryAttempt) (path : list string) : res string DeliveryAttempt :=
  let! n := chk_u 32 (attempt a + 1) in
  Ok (mkAttempt (message_id a) (target_peer a) n (paths_tried a ++ [path]) now (strategy a)).

(** ** The delivery manager *)

Record MultiPathDelivery : Type := mkDelivery {
  attempts : gmap string DeliveryAttempt;
  reputation : ReputationTracker;
  recipient_recency_by_route : gmap (string * string) Z;
  recency_routes_by_relay : gmap string (list string);
  latest_success_by_route : gmap (string * string) Z;
  success_sequence : Z;
}.

Definition delivery_new : MultiPathDelivery := mkDelivery ∅ tracker_new ∅ ∅ ∅ 0.

Definition set_attempts (d : MultiPathDelivery) (a : gmap string DeliveryAttempt) : MultiPathDelivery :=
  mkDelivery a (reputation d) (recipient_recency_by_route d) (recency_routes_by_relay d) (latest_success_by_route d) (success_sequence d).

Definition set_reputation (d : MultiPathDelivery) (t : ReputationTracker) : MultiPathDelivery :=
  mkDelivery (attempts d) t (recipient_recency_by_route d) (recency_routes_by_relay d) (latest_success_by_route d) (success_sequence d).

Definition set_recency (d : MultiPathDelivery) (m : gmap (string * string) Z) (q : gmap string (list string)) : MultiPathDelivery :=
  mkDelivery (attempts d) (reputation d) m q (latest_success_by_route d) (success_sequence d).

Definition start_delivery (now : Z) (d : MultiPathDelivery) (message_id target_peer : string) : MultiPathDelivery :=
  set_attempts d (<[message_id := attempt_new now message_id target_peer]> (attempts d)).

Definition add_relay (d : MultiPathDelivery) (peer_id : string) : MultiPathDelivery :=
  set_reputation d (tracker_add_relay (reputation d) peer_id).

(** The order of [PeerId], for [sort_unstable]. *)
Class PeerOrder : Type := {
  peer_leb : string -> string -> bool;
  peer_leb_total : forall a b, peer_leb a b = true \/ peer_leb b a = true;
  peer_leb_trans : forall a b c, peer_leb a b = true -> peer_leb b c = true -> peer_leb a c = true;
  peer_leb_antisym : forall a b, peer_leb a b = true -> peer_leb b a = true -> a = b;
}.

Definition peer_le `{PeerOrder} (a b : string) : Prop := peer_leb a b = true.

#[export] Instance peer_le_dec `{PeerOrder} a b : Decision (peer_le a b).
Proof. unfold peer_le. apply _. Defined.

Section Delivery.
Context {BM : Build} {PO : PeerOrder}.
Context {HQ : HashIter string (list string)} {HR : HashIter string RelayReputation} {HA : HashIter string DeliveryAttempt}.

Definition best_relays_of (t : ReputationTracker) (count : nat) : list string :=
  let peers := sort_by by_reputation (hm_iter (reputations t)).*2 in
  rep_peer_id <$> take count (filter (fun r => is_reliable r = true) peers).

Definition all_reputations (t : ReputationTracker) : list RelayReputation := (hm_iter (reputations t)).*2.

(** *** Eviction of recency signals *)

(** [histogram[count] += 1] for every relay. *)
Definition histogram_of (queues : list (list string)) : list nat :=
  foldl (fun h recipients => alter S (length recipients `min` RECENCY_MAX_ROUTES_PER_RELAY)%nat h)
    (replicate (S RECENCY_MAX_ROUTES_PER_RELAY) O) queues.

Definition excess_above (histogram : list nat) (level : nat) : nat :=
  sum_list_with (fun c => histogram !!! c * (c - level))%nat (seq (S level) (RECENCY_MAX_ROUTES_PER_RELAY - level)).

(** The largest level whose excess still covers [to_drop], or zero. *)
Definition find_level (histogram : list nat) (to_drop : nat) : nat :=
  default O (head (filter (fun t => to_drop <= excess_above histogram t)%nat (reverse (seq 0 (S RECENCY_MAX_ROUTES_PER_RELAY))))).

(** [while recipients.len() > trim_to && to_drop > 0]: the recipients evicted, what is left to drop, and the queue. *)
Fixpoint trim_loop (trim_to to_drop : nat) (recipients : list string) : list string * nat * list string :=
  match recipients with
  | [] => ([], to_drop, [])
  | recipient :: rest =>
      if decide (trim_to < length recipients /\ 0 < to_drop)%nat then
        let '(evicted, d, q) := trim_loop trim_to (to_drop - 1)%nat rest in (recipient :: evicted, d, q)
      else ([], to_drop, recipients)
  end.

(** The loop over all relays; the state is what is left to drop, the relays at the trim level, the
    routes evicted and the queues. *)
Definition trim_step (trim_to : nat) (s : nat * list string * list (string * string) * gmap string (list string)) (kq : string * list string) :=
  let '(to_drop, at_level, evicted, queues) := s in
  let '(relay, recipients) := kq in
  let '(ev, to_drop, recipients) := trim_loop trim_to to_drop recipients in
  (to_drop,
   if decide (length recipients = trim_to /\ 0 < trim_to)%nat then at_level ++ [relay] else at_level,
   evicted ++ (pair relay <$> ev),
   <[relay := recipients]> queues).

(** The remainder, one route from each relay at the trim level. *)
Fixpoint remainder_loop (to_drop : nat) (relays : list string) (evicted : list (string * string)) (queues : gmap string (list string)) :
    list (string * string) * gmap string (list string) :=
  match relays with
  | [] => (evicted, queues)
  | relay :: relays =>
      if decide (to_drop = O) then (evicted, queues)
      else match queues !! relay with
           | Some (recipient :: rest) =>
               remainder_loop (to_drop - 1)%nat relays (evicted ++ [(relay, recipient)]) (<[relay := rest]> queues)
           | _ => remainder_loop to_drop relays evicted queues
           end
  end.

Definition sort_peers (l : list string) : list string := stable_sort peer_le l.

Definition prune_recipient_recency (d : MultiPathDelivery) : MultiPathDelivery :=
  let total := size (recipient_recency_by_route d) in
  if decide (total <= RECENCY_MAX_TRACKED_ROUTES)%nat then d
  else
    let to_drop := (total - RECENCY_PRUNE_TARGET_ROUTES)%nat in
    let queues := recency_routes_by_relay d in
    let histogram := histogram_of (hm_iter queues).*2 in
    let t_star := find_level histogram to_drop in
    let trim_to := (S t_star `min` RECENCY_MAX_ROUTES_PER_RELAY)%nat in
    let '(to_drop, relays_at_trim_level, evicted, queues) := foldl (trim_step trim_to) (to_drop, [], [], queues) (hm_iter queues) in
    let '(evicted, queues) := remainder_loop to_drop (sort_peers relays_at_trim_level) evicted queues in
    set_recency d (foldl (fun m key => delete key m) (recipient_recency_by_route d) evicted) (filter (fun kq => kq.2 <> []) queues).

(** [while per_relay.len() > RECENCY_MAX_ROUTES_PER_RELAY]. *)
Fixpoint quota_loop (per_relay : list string) : list string * list string :=
  match per_relay with
  | [] => ([], [])
  | evicted :: rest =>
      if decide (RECENCY_MAX_ROUTES_PER_RELAY < length per_relay)%nat then
        let '(ev, q) := quota_loop rest in (evicted :: ev, q)
      else ([], per_relay)
  end.

Definition too_old (now seen_at : Z) : bool := (seen_at =? 0) || (sat_add 64 seen_at RECENCY_MAX_AGE_SECS <? now).

Definition record_recipient_seen_via_relay (now : Z) (d : MultiPathDelivery) (relay_peer recipient_peer : string) (seen_at : Z) : MultiPathDelivery :=
  if too_old now seen_at then d
  else
    let ceiling := sat_add 64 now RECENCY_MAX_CLOCK_SKEW_SECS in
    let clamped := Z.min seen_at ceiling in
    let key := (relay_peer, recipient_peer) in
    let m := recipient_recency_by_route d in
    match m !! key with
    | Some existing => set_recency d (<[key := if now <? existing then clamped else Z.max existing clamped]> m) (recency_routes_by_relay d)
    | None =>
        let per_relay := default [] (recency_routes_by_relay d !! relay_peer) ++ [recipient_peer] in
        let '(evicted, per_relay) := quota_loop per_relay in
        let m := foldl (fun m e => delete (relay_peer, e) m) (<[key := clamped]> m) evicted in
        prune_recipient_recency (set_recency d m (<[relay_peer := per_relay]> (recency_routes_by_relay d)))
    end.

Definition record_recipient_seen_via_relay_from_wire (now : Z) (d : MultiPathDelivery) (relay_peer recipient_peer : string) (seen_at : Z) :
    bool * MultiPathDelivery :=
  if too_old now seen_at then (false, d)
  else (true, record_recipient_seen_via_relay now d relay_peer recipient_peer seen_at).

Definition recipient_recency (d : MultiPathDelivery) (relay_peer recipient_peer : string) : option Z :=
  recipient_recency_by_route d !! (relay_peer, recipient_peer).

Definition tracked_recency_routes (d : MultiPathDelivery) : nat := size (recipient_recency_by_route d).

Definition tracked_recency_routes_for_relay (d : MultiPathDelivery) (relay_peer : string) : nat :=
  match recency_routes_by_relay d !! relay_peer with Some recipients => length recipients | None => O end.

Definition record_recipient_seen_now (now : Z) (d : MultiPathDelivery) (relay_peer recipient_peer : string) : MultiPathDelivery :=
  record_recipient_seen_via_relay now d relay_peer recipient_peer now.

(** *** Ranking *)

Record RelayCandidate : Type := mkCandidate {
  relay_peer : string;
  relay_key : string;
  recipient_recency_of : Z;
  relay_success_score : f64;
  latest_success_order : Z;
}.

Definition candidate_of (d : MultiPathDelivery) (target : string) (rep : RelayReputation) : RelayCandidate :=
  let relay_peer := rep_peer_id rep in
  mkCandidate relay_peer relay_peer (default 0 (recipient_recency_by_route d !! (relay_peer, target))) (rep_score rep)
    (default 0 (latest_success_by_route d !! (relay_peer, target))).

Definition ranks_before (a b : RelayCandidate) : comparison :=
  then_with (recipient_recency_of b ?= recipient_recency_of a)
    (then_with (total_cmp (relay_success_score b) (relay_success_score a))
       (then_with (latest_success_order b ?= latest_success_order a) (str_cmp (relay_key a) (relay_key b)))).

Definition reason_of (relay : RelayCandidate) : string :=
  if 0 <? recipient_recency_of relay then ROUTE_REASON_RELAY_RECENCY_SUCCESS
  else if 0 <? latest_success_order relay then ROUTE_REASON_RELAY_TIEBREAK_LAST_SUCCESS
  else if SFltb (f64_of 0) (relay_success_score relay) then ROUTE_REASON_RELAY_SUCCESS_SCORE
  else ROUTE_REASON_RELAY_TIEBREAK_PEER_ID.

Definition relay_candidates (d : MultiPathDelivery) (target : string) : list RelayCandidate :=
  candidate_of d target <$>
    filter (fun rep => is_reliable rep = true /\ rep_peer_id rep <> target) (hm_iter (reputations (reputation d))).*2.

Definition route_via (target : string) (relay : RelayCandidate) : RankedRoute :=
  mkRoute [relay_peer relay; target] (reason_of relay) (recipient_recency_of relay) (relay_success_score relay) (latest_success_order relay).

Definition direct_route (target : string) : RankedRoute := mkRoute [target] ROUTE_REASON_DIRECT_FIRST 0 (f64_of 0) 0.

Definition ranked_routes (d : MultiPathDelivery) (target : string) (count : nat) : list RankedRoute :=
  match count with
  | O => []
  | S rest => direct_route target :: (route_via target <$> take rest (sort_by ranks_before (relay_candidates d target)))
  end.

Definition get_best_paths (d : MultiPathDelivery) (target : string) (count : nat) : list (list string) :=
  path <$> ranked_routes d target count.

(** *** Outcomes *)

(** [path[..path.len() - 1]] of a path with more than one node. *)
Definition relays_of (path : list string) : list string := if decide (1 < length path)%nat then take (length path - 1) path else [].

Definition record_success (now : Z) (d : MultiPathDelivery) (message_id : string) (path : list string) (latency_ms : Z) : res string MultiPathDelivery :=
  let d := set_attempts d (delete message_id (attempts d)) in
  if decide (1 < length path)%nat then
    let order := sat_add 64 (success_sequence d) 1 in
    let target := default (hd "" path) (last path) in
    rfold (fun d relay =>
      let! t := record_relay_attempt now (reputation d) relay true latency_ms 1024 in
      Ok (mkDelivery (attempts d) t (recipient_recency_by_route d) (recency_routes_by_relay d)
            (<[(relay, target) := order]> (latest_success_by_route d)) (success_sequence d)))
      (mkDelivery (attempts d) (reputation d) (recipient_recency_by_route d) (recency_routes_by_relay d) (latest_success_by_route d) order)
      (relays_of path)
  else Ok d.

Definition record_failure (now : Z) (d : MultiPathDelivery) (message_id : string) (path : list string) : res string MultiPathDelivery :=
  match attempts d !! message_id with
  | Some a =>
      let! a := attempt_record_failure now a path in
      let d := set_attempts d (<[message_id := a]> (attempts d)) in
      rfold (fun d relay => let! t := record_relay_attempt now (reputation d) relay false 10000 0 in Ok (set_reputation d t)) d (relays_of path)
  | None => Ok d
  end.

Definition converge_delivery (d : MultiPathDelivery) (message_id : string) : bool * MultiPathDelivery :=
  (bool_decide (is_Some (attempts d !! message_id)), set_attempts d (delete message_id (attempts d))).

Definition delivery_attempt (d : MultiPathDelivery) (message_id : string) : option DeliveryAttempt := attempts d !! message_id.

Definition pending_attempts (d : MultiPathDelivery) : list DeliveryAttempt := (hm_iter (attempts d)).*2.

Definition best_relays (d : MultiPathDelivery) (count : nat) : list string := best_relays_of (reputation d) count.
End Delivery.

(** ** Bootstrap *)

Record BootstrapCapability : Type := mkBootstrap { known_peers : list string; last_update : Z }.

Definition bootstrap_new : BootstrapCapability := mkBootstrap [] 0.

Definition add_peer (now : Z) (b : BootstrapCapability) (peer_id : string) : BootstrapCapability :=
  if bool_decide (peer_id ∈ known_peers b) then b else mkBootstrap (known_peers b ++ [peer_id]) now.

Definition get_bootstrap_candidates (b : BootstrapCapability) : list string := known_peers b.

Definition can_bootstrap_others (b : BootstrapCapability) : bool := negb (bool_decide (known_peers b = [])).

(** ** The eviction level *)

Definition excess (queues : list (list string)) (level : nat) : nat := sum_list_with (fun q => length q - level)%nat queues.

Lemma sum_alter h c level s : NoDup s -> (c < length h)%nat ->
  sum_list_with (fun i => alter S c h !!! i * (i - level))%nat s =
  (sum_list_with (fun i => h !!! i * (i - level)) s + if decide (c ∈ s) then c - level else 0)%nat.
Proof.
  intros Hs Hc. induction Hs as [|i s Hi _ IH]; cbn [sum_list_with].
  - by rewrite decide_False by apply not_elem_of_nil.
  - rewrite IH. destruct (decide (i = c)) as [->|Hne].
    + rewrite list_lookup_total_alter, (decide_True (P := c = c /\ _)) by done. rewrite (decide_False (P := c ∈ s)) by done.
      rewrite (decide_True (P := c ∈ c :: s)) by left. rewrite Nat.mul_succ_l. lia.
    + rewrite list_lookup_total_alter, (decide_False (P := c = i /\ _)) by naive_solver. destruct (decide (c ∈ s)) as [Hin|Hin].
      * rewrite decide_True by (by right). lia.
      * rewrite decide_False by (rewrite elem_of_cons; naive_solver). lia.
Qed.

Lemma excess_above_alter h c level : length h = S RECENCY_MAX_ROUTES_PER_RELAY -> (c <= RECENCY_MAX_ROUTES_PER_RELAY)%nat ->
  excess_above (alter S c h) level = (excess_above h level + (c - level))%nat.
Proof.
  intros Hh Hc. unfold excess_above. rewrite sum_alter by (try apply NoDup_seq; lia). f_equal.
  case_decide as Hin; [done|]. rewrite elem_of_seq in Hin. lia.
Qed.

Lemma histogram_excess queues level : Forall (fun q => length q <= RECENCY_MAX_ROUTES_PER_RELAY)%nat queues ->
  excess_above (histogram_of queues) level = excess queues level.
Proof.
  intros Hq. unfold histogram_of.
  assert (forall h, length h = S RECENCY_MAX_ROUTES_PER_RELAY ->
    excess_above (foldl (fun h recipients => alter S (length recipients `min` RECENCY_MAX_ROUTES_PER_RELAY)%nat h) h queues) level =
    (excess_above h level + excess queues level)%nat) as Hgen.
  { induction Hq as [|q queues Hlen _ IH]; intros h Hh; cbn [foldl excess sum_list_with]; [lia|]. rewrite IH by (by rewrite length_alter).
    rewrite excess_above_alter by lia. unfold excess. lia. }
  rewrite Hgen by apply length_replicate. assert (excess_above (replicate (S RECENCY_MAX_ROUTES_PER_RELAY) 0%nat) level = 0%nat) as ->; [|done].
  unfold excess_above. induction (seq _ _) as [|c s IH]; cbn [sum_list_with]; [done|]. rewrite IH.
  destruct (decide (c < S RECENCY_MAX_ROUTES_PER_RELAY)%nat); [by rewrite lookup_total_replicate_2|].
  rewrite list_lookup_total_alt, lookup_ge_None_2; [done|]. rewrite length_replicate. lia.
Qed.

Lemma last_level (P : nat -> Prop) `{forall t, Decision (P t)} n :
  match head (filter P (reverse (seq 0 n))) with
  | Some t => P t /\ (t < n)%nat /\ forall u, (t < u < n)%nat -> ~ P u
  | None => forall u, (u < n)%nat -> ~ P u
  end.
Proof.
  induction n as [|n IH]; [intros u; lia|]. rewrite seq_S, reverse_snoc. cbn [Nat.add]. rewrite filter_cons. case_decide as Hn; cbn [head].
  - split_and!; [done|lia|lia].
  - destruct (head _) as [t|].
    + destruct IH as (Ht & Hlt & Hu). split_and!; [done|lia|]. intros u Hu'. destruct (decide (u = n)) as [->|]; [done|]. apply Hu. lia.
    + intros u Hu. destruct (decide (u = n)) as [->|]; [done|]. apply IH. lia.
Qed.

Lemma find_level_spec h to_drop : (0 < to_drop <= excess_above h 0)%nat ->
  let t := find_level h to_drop in
  (t < RECENCY_MAX_ROUTES_PER_RELAY)%nat /\ (to_drop <= excess_above h t)%nat /\ (excess_above h (S t) < to_drop)%nat.
Proof.
  intros Hd. cbv zeta. unfold find_level. pose proof (last_level (fun t => to_drop <= excess_above h t)%nat (S RECENCY_MAX_ROUTES_PER_RELAY)) as Hl.
  destruct (head _) as [t|]; cbn [default from_option id]; [|exfalso; apply (Hl O); unfold RECENCY_MAX_ROUTES_PER_RELAY; lia].
  destruct Hl as (Ht & Hlt & Hu). assert (excess_above h RECENCY_MAX_ROUTES_PER_RELAY = 0%nat) as H0 by (unfold excess_above; by rewrite Nat.sub_diag).
  assert (t <> RECENCY_MAX_ROUTES_PER_RELAY) by (intros ->; lia). split_and!; [lia|done|].
  assert (~ to_drop <= excess_above h (S t))%nat; [|lia]. apply Hu. lia.
Qed.

(** ** The eviction loops *)

Lemma trim_loop_spec trim q : forall d, (length q - trim <= d)%nat ->
  trim_loop trim d q = (take (length q - trim) q, (d - (length q - trim))%nat, drop (length q - trim) q).
Proof.
  induction q as [|x q IH]; intros d Hd; cbn [trim_loop length]; [by rewrite Nat.sub_0_r|]. cbn [length] in Hd. case_decide as Hc.
  - rewrite IH by lia. replace (S (length q) - trim)%nat with (S (length q - trim)) by lia. cbn [take drop].
    by replace (d - 1 - (length q - trim))%nat with (d - S (length q - trim))%nat by lia.
  - replace (S (length q) - trim)%nat with O by lia. cbn [take drop]. by rewrite Nat.sub_0_r.
Qed.

(** How many routes a relay loses in the first loop. *)
Definition over (trim : nat) (q : list string) : nat := (length q - trim)%nat.

Lemma trim_fold trim l : forall d lvl ev qs, (0 < trim)%nat -> (excess l.*2 trim <= d)%nat ->
  foldl (trim_step trim) (d, lvl, ev, qs) l =
  ((d - excess l.*2 trim)%nat,
   lvl ++ (filter (fun kq => trim <= length kq.2)%nat l).*1,
   ev ++ (l ≫= fun kq => pair kq.1 <$> take (over trim kq.2) kq.2),
   foldl (fun m kq => <[kq.1 := drop (over trim kq.2) kq.2]> m) qs l).
Proof.
  induction l as [|[r q] l IH]; intros d lvl ev qs Htrim Hd.
  - cbn. by rewrite Nat.sub_0_r, !app_nil_r.
  - cbn [foldl fmap list_fmap excess sum_list_with fst snd] in *. unfold trim_step at 2. rewrite trim_loop_spec by lia.
    rewrite IH by (unfold excess in *; try done; lia). fold (over trim q). rewrite filter_cons. cbn [mbind list_bind fst snd].
    apply f_equal2; [apply f_equal2; [apply f_equal2; [unfold excess, over; lia|]|]|done].
    + rewrite length_drop. unfold over. case_decide as H1; case_decide as H2; cbn [fmap list_fmap fst snd] in *; [|lia..|done]. by rewrite <-app_assoc.
    + by rewrite <-app_assoc.
Qed.

Lemma foldl_insert_lookup (f : list string -> list string) (l : list (string * list string)) : forall (m : gmap string (list string)) k, NoDup l.*1 ->
  foldl (fun m kq => <[kq.1 := f kq.2]> m) m l !! k =
  match (list_to_map l : gmap string (list string)) !! k with Some q => Some (f q) | None => m !! k end.
Proof.
  induction l as [|[r q] l IH]; intros m k Hn; cbn [foldl fmap list_fmap fst snd] in *; [by rewrite list_to_map_nil, lookup_empty|].
  apply NoDup_cons in Hn as [Hr Hn]. rewrite IH by done. rewrite list_to_map_cons. destruct (decide (r = k)) as [->|Hne].
  - by rewrite not_elem_of_list_to_map_1, !lookup_insert_eq by done.
  - rewrite !lookup_insert_ne by done. done.
Qed.

Lemma remainder_spec relays : forall d ev qs, NoDup relays -> (forall r, r ∈ relays -> exists x q, qs !! r = Some (x :: q)) ->
  let '(ev', qs') := remainder_loop d relays ev qs in
  (forall r x, (r, x) ∈ ev' <-> (r, x) ∈ ev \/ (r ∈ take d relays /\ exists q, qs !! r = Some (x :: q))) /\
  (forall r, qs' !! r = if decide (r ∈ take d relays) then tail <$> qs !! r else qs !! r).
Proof.
  induction relays as [|r relays IH]; intros d ev qs Hn Hq; cbn [remainder_loop].
  - rewrite take_nil. split; [set_solver|]. intros r. by rewrite decide_False by apply not_elem_of_nil.
  - destruct d as [|d]; cbn [take].
    + rewrite decide_True by done. split; [set_solver|]. intros r'. by rewrite decide_False by apply not_elem_of_nil.
    + rewrite decide_False by done. apply NoDup_cons in Hn as [Hr Hn]. destruct (Hq r) as (x & q & Hx); [left|]. rewrite Hx, Nat.sub_1_r. cbn [Nat.pred].
      assert (r ∉ take d relays) as Hrt by (intros Hin; by apply subseteq_take in Hin).
      specialize (IH d (ev ++ [(r, x)]) (<[r := q]> qs) Hn). destruct (remainder_loop _ _ _ _) as [ev' qs'].
      assert (forall r', r' ∈ relays -> <[r := q]> qs !! r' = qs !! r') as Hsame by (intros r' ?; rewrite lookup_insert_ne; [done|set_solver]).
      destruct IH as [Hev Hqs]; [intros r' Hr'; rewrite Hsame by done; apply Hq; by right|]. split.
      * intros r' y. rewrite Hev, elem_of_app, list_elem_of_singleton, elem_of_cons. split.
        -- intros [[?|[= -> ->]]|[Hin (q' & Hq')]]; [by left|right; split; [by left|by exists q]|].
           rewrite Hsame in Hq' by (by apply subseteq_take in Hin). right. split; [by right|by exists q'].
        -- intros [?|[[->|Hin] (q' & Hq')]]; [left; by left|left; right; congruence|].
           right. split; [done|]. exists q'. by rewrite Hsame by (by apply subseteq_take in Hin).
      * intros r'. rewrite Hqs. destruct (decide (r' = r)) as [->|Hne].
        -- rewrite (decide_False (P := r ∈ take d relays)) by done. rewrite decide_True by left. by rewrite lookup_insert_eq, Hx.
        -- rewrite lookup_insert_ne by done. destruct (decide (r' ∈ take d relays)); [rewrite decide_True by (by right); done|].
           rewrite decide_False; [done|]. rewrite elem_of_cons. naive_solver.
Qed.

(** ** The index of routes *)

(** The queues list exactly the tracked routes; each is without repetition, not empty and within the quota. *)
Record index_ok (routes : gmap (string * string) Z) (queues : gmap string (list string)) : Prop := {
  idx_dom : forall r x, is_Some (routes !! (r, x)) <-> exists q, queues !! r = Some q /\ x ∈ q;
  idx_nodup : forall r q, queues !! r = Some q -> NoDup q;
  idx_nonempty : forall r q, queues !! r = Some q -> q <> [];
  idx_quota : forall r q, queues !! r = Some q -> (length q <= RECENCY_MAX_ROUTES_PER_RELAY)%nat;
}.

Definition routes_list (l : list (string * list string)) : list (string * string) := l ≫= fun kq => pair kq.1 <$> kq.2.

Lemma elem_of_routes_list l r x : (r, x) ∈ routes_list l <-> exists q, (r, q) ∈ l /\ x ∈ q.
Proof.
  unfold routes_list. rewrite list_elem_of_bind. split.
  - intros ([r' q] & (x' & [= -> ->] & Hx)%list_elem_of_fmap & Hq). by exists q.
  - intros (q & Hq & Hx). exists (r, q). split; [|done]. apply list_elem_of_fmap. by exists x.
Qed.

Lemma routes_list_nodup l : NoDup l.*1 -> (forall r q, (r, q) ∈ l -> NoDup q) -> NoDup (routes_list l).
Proof.
  induction l as [|[r q] l IH]; intros Hn Hq; [constructor|]. cbn [fmap list_fmap fst] in Hn. apply NoDup_cons in Hn as [Hr Hn].
  unfold routes_list. cbn [mbind list_bind fst snd]. apply NoDup_app. split_and!.
  - apply NoDup_fmap_2; [intros ? ? [=]; done|]. apply (Hq r). left.
  - intros [r' x] (x' & [= -> ->] & _)%list_elem_of_fmap Hin. apply elem_of_routes_list in Hin as (q' & Hin & _). apply Hr.
    apply list_elem_of_fmap. by exists (r, q').
  - apply IH; [done|]. intros r' q' Hin. apply (Hq r'). by right.
Qed.

Lemma size_routes (routes : gmap (string * string) Z) l :
  NoDup l.*1 -> (forall r q, (r, q) ∈ l -> NoDup q) -> (forall r x, is_Some (routes !! (r, x)) <-> exists q, (r, q) ∈ l /\ x ∈ q) ->
  size routes = excess l.*2 0.
Proof.
  intros Hn Hq Hdom. rewrite <-size_dom. assert (dom routes = list_to_set (routes_list l)) as ->.
  { apply set_eq. intros [r x]. rewrite elem_of_dom, elem_of_list_to_set, elem_of_routes_list. apply Hdom. }
  rewrite size_list_to_set by (by apply routes_list_nodup). clear. unfold routes_list, excess. induction l as [|[r q] l IH]; [done|].
  rewrite bind_cons, length_app, IH, length_fmap. cbn [fmap list_fmap sum_list_with fst snd]. lia.
Qed.

Lemma excess_step l t : excess l.*2 t = (excess l.*2 (S t) + length (filter (fun kq : string * list string => S t <= length kq.2)%nat l))%nat.
Proof.
  unfold excess. induction l as [|[r q] l IH]; [done|]. cbn [fmap list_fmap sum_list_with fst snd]. rewrite filter_cons. cbn [snd]. case_decide; cbn [length]; lia.
Qed.

Lemma excess_mono l t t' : (t <= t')%nat -> (excess l t' <= excess l t)%nat.
Proof. unfold excess. intros Ht. induction l as [|q l IH]; cbn [sum_list_with]; lia. Qed.

Lemma foldl_delete (ev : list (string * string)) : forall (m : gmap (string * string) Z) k,
  foldl (fun m key => delete key m) m ev !! k = if decide (k ∈ ev) then None else m !! k.
Proof.
  induction ev as [|e ev IH]; intros m k; cbn [foldl]; [by rewrite decide_False by apply not_elem_of_nil|]. rewrite IH.
  destruct (decide (k ∈ ev)); [by rewrite decide_True by (by right)|]. destruct (decide (k = e)) as [->|Hne].
  - rewrite decide_True by left. by rewrite lookup_delete_eq.
  - rewrite lookup_delete_ne by done. rewrite decide_False; [done|]. rewrite elem_of_cons. naive_solver.
Qed.

(** How many of its routes a relay loses: down to one above the level, and one more when it is among [extra]. *)
Definition loses (t : nat) (extra : list string) (r : string) (q : list string) : nat :=
  (over (S t) q + if decide (r ∈ extra) then 1 else 0)%nat.

Section PruneLaws.
Context {PO : PeerOrder} {HQ : HashIter string (list string)}.

Lemma sort_peers_perm l : sort_peers l ≡ₚ l.
Proof. apply stable_sort_Permutation. Qed.

(** What is left of the relay's queue, and that nothing is lost twice. *)
Lemma loses_le t extra r (q : list string) : (r ∈ extra -> (S t <= length q)%nat) -> (loses t extra r q <= length q)%nat.
Proof. intros He. unfold loses, over. case_decide as Hr; [specialize (He Hr)|]; lia. Qed.

Lemma loses_sum t extra (l : list (string * list string)) : NoDup l.*1 -> NoDup extra ->
  (forall r, r ∈ extra -> exists q, (r, q) ∈ l /\ (S t <= length q)%nat) ->
  excess (map (fun kq => (kq.1, drop (loses t extra kq.1 kq.2) kq.2)) l).*2 0 = (excess l.*2 0 - excess l.*2 (S t) - length extra)%nat /\
  (excess l.*2 (S t) + length extra <= excess l.*2 0)%nat.
Proof.
  intros Hn He Hx. assert (length extra = length (filter (fun r => r ∈ extra) l.*1)) as Hlen.
  { apply Permutation_length, NoDup_Permutation; [done|by apply NoDup_filter|]. intros r. rewrite list_elem_of_filter. split; [|tauto].
    intros Hr. split; [done|]. destruct (Hx r Hr) as (q & Hq & _). apply list_elem_of_fmap. by exists (r, q). }
  rewrite Hlen. assert (forall r q, (r, q) ∈ l -> r ∈ extra -> (S t <= length q)%nat) as Hbig.
  { intros r q Hq Hr. destruct (Hx r Hr) as (q' & Hq' & ?). assert (q = q') as ->; [|done].
    apply (elem_of_list_to_map_1 (M := gmap string)) in Hq; [|done]. apply (elem_of_list_to_map_1 (M := gmap string)) in Hq'; [|done]. congruence. }
  clear Hlen Hx He. induction l as [|[r q] l IH]; [done|]. cbn [fmap list_fmap fst] in Hn. apply NoDup_cons in Hn as [Hr Hn].
  destruct IH as [IH1 IH2]; [done|intros r' q' ?; apply (Hbig r'); by right|].
  unfold excess in *. cbn [map fmap list_fmap sum_list_with fst snd]. rewrite filter_cons, length_drop.
  pose proof (Hbig r q ltac:(left)) as Hb. rewrite IH1. unfold loses, over.
  destruct (decide (r ∈ extra)) as [Hin|Hin]; cbn [length]; [specialize (Hb Hin)|clear Hb]; lia.
Qed.

Definition lost_of (d : MultiPathDelivery) (t : nat) (extra : list string) (r : string) : list string :=
  match recency_routes_by_relay d !! r with Some q => take (loses t extra r q) q | None => [] end.

(** What pruning does to the routes and queues, with the level and the relays that lose one more. *)
Record pruned (d d' : MultiPathDelivery) (t : nat) (extra : list string) : Prop := {
  pr_extra : NoDup extra /\ forall r, r ∈ extra -> exists q, recency_routes_by_relay d !! r = Some q /\ (S t <= length q)%nat;
  pr_queues : forall r, recency_routes_by_relay d' !! r =
    q ← recency_routes_by_relay d !! r; if decide (drop (loses t extra r q) q = []) then None else Some (drop (loses t extra r q) q);
  pr_routes : forall r x, recipient_recency_by_route d' !! (r, x) =
    if decide (x ∈ lost_of d t extra r) then None else recipient_recency_by_route d !! (r, x);
  pr_level : (excess (hm_iter (recency_routes_by_relay d)).*2 (S t) < size (recipient_recency_by_route d) - RECENCY_PRUNE_TARGET_ROUTES)%nat;
  pr_count : (excess (hm_iter (recency_routes_by_relay d)).*2 (S t) + length extra =
    size (recipient_recency_by_route d) - RECENCY_PRUNE_TARGET_ROUTES)%nat;
  pr_frame : d' = set_recency d (recipient_recency_by_route d') (recency_routes_by_relay d');
}.

Lemma trimmed_queues (trim : nat) (queues : gmap string (list string)) r :
  foldl (fun m kq => <[kq.1 := drop (over trim kq.2) kq.2]> m) queues (hm_iter queues) !! r =
  (fun q => drop (over trim q) q) <$> queues !! r.
Proof.
  rewrite (foldl_insert_lookup (fun q => drop (over trim q) q)) by apply NoDup_hm_keys.
  assert ((list_to_map (hm_iter queues) : gmap string (list string)) = queues) as ->.
  { apply map_eq. intros k. apply option_eq. intros q. rewrite <-elem_of_list_to_map by apply NoDup_hm_keys. apply elem_of_hm_iter. }
  by destruct (queues !! r).
Qed.

Lemma elem_take_extra t extra r x (q : list string) : (r ∈ extra -> (S t <= length q)%nat) ->
  x ∈ take (loses t extra r q) q <-> x ∈ take (over (S t) q) q \/ (r ∈ extra /\ exists q', drop (over (S t) q) q = x :: q').
Proof.
  intros He. unfold loses. destruct (decide (r ∈ extra)) as [Hr|Hr].
  - specialize (He Hr). destruct (drop (over (S t) q) q) as [|y q'] eqn:Hd.
    { exfalso. apply (f_equal length) in Hd. rewrite length_drop in Hd. unfold over in Hd. cbn in Hd. lia. }
    rewrite <-take_take_drop, Hd. cbn [take]. rewrite take_0, elem_of_app, list_elem_of_singleton. naive_solver.
  - rewrite Nat.add_0_r. naive_solver.
Qed.

Lemma prune_pruned d : index_ok (recipient_recency_by_route d) (recency_routes_by_relay d) ->
  (RECENCY_MAX_TRACKED_ROUTES < size (recipient_recency_by_route d))%nat ->
  exists t extra, (t < RECENCY_MAX_ROUTES_PER_RELAY)%nat /\ pruned d (prune_recipient_recency d) t extra.
Proof.
  intros Hok Hbig. unfold prune_recipient_recency. rewrite decide_False by lia. set (queues := recency_routes_by_relay d) in *.
  set (routes := recipient_recency_by_route d) in *. pose proof (NoDup_hm_keys queues) as Hnd.
  assert (forall r q, (r, q) ∈ hm_iter queues <-> queues !! r = Some q) as Hl by apply elem_of_hm_iter.
  assert (size routes = excess (hm_iter queues).*2 0) as Hsize.
  { apply size_routes; [done|intros r q ?%Hl; by eapply idx_nodup|]. intros r x. rewrite (idx_dom _ _ Hok). setoid_rewrite Hl. done. }
  set (to_drop := (size routes - RECENCY_PRUNE_TARGET_ROUTES)%nat).
  assert (forall level, excess_above (histogram_of (hm_iter queues).*2) level = excess (hm_iter queues).*2 level) as Hhist.
  { intros level. apply histogram_excess. apply Forall_forall. intros q ([r q'] & -> & Hq)%list_elem_of_fmap. apply Hl in Hq. by eapply idx_quota. }
  destruct (find_level_spec (histogram_of (hm_iter queues).*2) to_drop) as (Ht & Hge & Hlt).
  { rewrite Hhist. unfold to_drop, RECENCY_PRUNE_TARGET_ROUTES, RECENCY_MAX_TRACKED_ROUTES in *. lia. }
  set (t := find_level _ to_drop) in *. rewrite Hhist in Hge, Hlt. replace (S t `min` RECENCY_MAX_ROUTES_PER_RELAY)%nat with (S t) by lia.
  rewrite trim_fold by lia. rewrite !app_nil_l. set (lvl := (filter _ (hm_iter queues)).*1). set (n := (to_drop - _)%nat).
  assert (length lvl = excess (hm_iter queues).*2 t - excess (hm_iter queues).*2 (S t))%nat as Hlvl.
  { unfold lvl. rewrite length_fmap, (excess_step _ t). lia. }
  assert (forall r, r ∈ sort_peers lvl <-> exists q, queues !! r = Some q /\ (S t <= length q)%nat) as Hin.
  { intros r. rewrite sort_peers_perm. unfold lvl. rewrite list_elem_of_fmap. split.
    - intros ([r' q] & -> & [Hq ?%Hl]%list_elem_of_filter). by exists q.
    - intros (q & ?%Hl & ?). exists (r, q). split; [done|]. by apply list_elem_of_filter. }
  assert (NoDup (sort_peers lvl)) as Hnl.
  { rewrite sort_peers_perm. unfold lvl. eapply sublist_NoDup; [exact Hnd|]. apply fmap_sublist, sublist_filter. }
  set (qs1 := foldl _ queues _). assert (forall r, qs1 !! r = (fun q => drop (over (S t) q) q) <$> queues !! r) as Hqs1 by (intros r; apply trimmed_queues).
  pose proof (remainder_spec (sort_peers lvl) n (hm_iter queues ≫= fun kq => pair kq.1 <$> take (over (S t) kq.2) kq.2) qs1 Hnl) as Hrem.
  destruct (remainder_loop _ _ _ _) as [ev qs2]. destruct Hrem as [Hev Hqs2].
  { intros r (q & Hq & Hlen)%Hin. rewrite Hqs1, Hq. cbn. destruct (drop (over (S t) q) q) as [|x q'] eqn:Hd; [|by exists x, q'].
    exfalso. apply (f_equal length) in Hd. rewrite length_drop in Hd. unfold over in Hd. cbn in Hd. lia. }
  set (extra := take n (sort_peers lvl)) in *. exists t, extra. split; [done|].
  assert (forall r, r ∈ extra -> exists q, queues !! r = Some q /\ (S t <= length q)%nat) as Hextra.
  { intros r Hr. apply Hin. by apply subseteq_take in Hr. }
  assert (forall r q, queues !! r = Some q -> r ∈ extra -> (S t <= length q)%nat) as Hx2.
  { intros r q Hq (q' & Hq' & ?)%Hextra. congruence. }
  assert (forall r q, queues !! r = Some q -> qs2 !! r = Some (drop (loses t extra r q) q)) as Hfinal.
  { intros r q Hq. rewrite Hqs2, Hqs1, Hq. cbn [fmap option_fmap option_map]. unfold loses. destruct (decide (r ∈ extra)); cbn [fmap option_fmap option_map].
    - by rewrite <-drop_drop.
    - by rewrite Nat.add_0_r. }
  split.
  - split; [|exact Hextra]. eapply sublist_NoDup; [exact Hnl|]. apply sublist_take.
  - intros r. cbn [recency_routes_by_relay set_recency]. fold queues. rewrite map_lookup_filter. destruct (queues !! r) as [q|] eqn:Hq; cbn.
    + rewrite (Hfinal r q Hq). cbn. by case_decide; case_guard.
    + rewrite Hqs2, Hqs1, Hq. by case_decide.
  - intros r x. cbn [recipient_recency_by_route set_recency]. fold routes. rewrite foldl_delete. unfold lost_of. fold queues.
    destruct (queues !! r) as [q|] eqn:Hq.
    + destruct (decide (x ∈ take (loses t extra r q) q)) as [Hx|Hx]; rewrite (elem_take_extra t extra r x q (Hx2 r q Hq)) in Hx.
      * rewrite decide_True; [done|]. rewrite Hev. destruct Hx as [Hx|[Hx (q' & Hd)]]; [left|right].
        -- apply list_elem_of_bind. exists (r, q). split; [|by apply Hl]. apply list_elem_of_fmap. by exists x.
        -- split; [done|]. exists q'. by rewrite Hqs1, Hq, <-Hd.
      * rewrite decide_False; [done|]. rewrite Hev. intros [Hb|[Hr (q' & Hd)]]; apply Hx; [left|right].
        -- apply list_elem_of_bind in Hb as ([r' q'] & (x' & [= -> ->] & Hx')%list_elem_of_fmap & Hq'%Hl). cbn in *. by simplify_eq.
        -- split; [done|]. rewrite Hqs1, Hq in Hd. exists q'. by injection Hd.
    + rewrite (decide_False (P := x ∈ [])) by apply not_elem_of_nil. case_decide as Hx; [|done]. exfalso. apply Hev in Hx as [Hb|[(q & Hq' & _)%Hextra _]]; [|congruence].
      apply list_elem_of_bind in Hb as ([r' q'] & (x' & [= -> ->] & Hx')%list_elem_of_fmap & Hq'%Hl). cbn in *. congruence.
  - fold queues routes to_drop. lia.
  - fold queues routes to_drop. unfold extra. rewrite length_take, sort_peers_perm, Hlvl. unfold n. lia.
  - done.
Qed.

Lemma size_tracked d : index_ok (recipient_recency_by_route d) (recency_routes_by_relay d) ->
  size (recipient_recency_by_route d) = excess (hm_iter (recency_routes_by_relay d)).*2 0.
Proof.
  intros Hok. apply size_routes; [apply NoDup_hm_keys|intros r q ?%elem_of_hm_iter; by eapply idx_nodup|].
  intros r x. rewrite (idx_dom _ _ Hok). setoid_rewrite elem_of_hm_iter. done.
Qed.

Lemma pruned_loses d d' t extra r q : pruned d d' t extra -> recency_routes_by_relay d !! r = Some q -> (loses t extra r q <= length q)%nat.
Proof. intros [[_ Hx] _ _ _ _ _] Hq. apply loses_le. intros (q' & Hq' & ?)%Hx. congruence. Qed.

Lemma elem_take_drop {A} (x : A) k l : NoDup l -> x ∈ drop k l <-> x ∈ l /\ x ∉ take k l.
Proof.
  intros Hn. rewrite <-(take_drop k l) in Hn at 1. apply NoDup_app in Hn as (_ & Hd & _).
  rewrite <-(take_drop k l) at 2. rewrite elem_of_app. split; [intros Hx; split; [by right|intros Ht; by apply (Hd x Ht)]|naive_solver].
Qed.

Lemma pruned_dom d d' t extra r x :
  index_ok (recipient_recency_by_route d) (recency_routes_by_relay d) -> pruned d d' t extra ->
  is_Some (recipient_recency_by_route d' !! (r, x)) <-> exists q, recency_routes_by_relay d !! r = Some q /\ x ∈ drop (loses t extra r q) q.
Proof.
  intros Hok Hp. rewrite (pr_routes _ _ _ _ Hp). unfold lost_of. destruct (recency_routes_by_relay d !! r) as [q|] eqn:Hq.
  - pose proof (elem_take_drop x (loses t extra r q) q (idx_nodup _ _ Hok r q Hq)) as Hx. pose proof (idx_dom _ _ Hok r x) as Hdom.
    case_decide; [split; [by intros []|intros (? & [= <-] & ?); naive_solver]|]. rewrite Hdom, Hq. split; intros (? & [= <-] & ?); naive_solver.
  - rewrite decide_False by apply not_elem_of_nil. rewrite (idx_dom _ _ Hok), Hq. naive_solver.
Qed.

Lemma pruned_ok d d' t extra : index_ok (recipient_recency_by_route d) (recency_routes_by_relay d) -> pruned d d' t extra ->
  index_ok (recipient_recency_by_route d') (recency_routes_by_relay d').
Proof.
  intros Hok Hp. assert (forall r q', recency_routes_by_relay d' !! r = Some q' ->
    exists q, recency_routes_by_relay d !! r = Some q /\ q' = drop (loses t extra r q) q /\ q' <> []) as Hq'.
  { intros r q'. rewrite (pr_queues _ _ _ _ Hp). destruct (recency_routes_by_relay d !! r) as [q|]; [|done]. cbn. case_decide; [done|]. intros [= <-]. by exists q. }
  split.
  - intros r x. rewrite (pruned_dom _ _ _ _ r x Hok Hp). split.
    + intros (q & Hq & Hx). exists (drop (loses t extra r q) q). split; [|done]. rewrite (pr_queues _ _ _ _ Hp), Hq. cbn. rewrite decide_False; [done|].
      intros He. rewrite He in Hx. by apply not_elem_of_nil in Hx.
    + intros (q' & (q & Hq & -> & _)%Hq' & Hx). by exists q.
  - intros r q' (q & Hq & -> & _)%Hq'. eapply sublist_NoDup; [by eapply idx_nodup|apply sublist_drop].
  - intros r q' (q & _ & _ & ?)%Hq'. done.
  - intros r q' (q & Hq & -> & _)%Hq'. rewrite length_drop. pose proof (idx_quota _ _ Hok r q Hq). lia.
Qed.

Lemma pruned_size d d' t extra : index_ok (recipient_recency_by_route d) (recency_routes_by_relay d) -> pruned d d' t extra ->
  (RECENCY_PRUNE_TARGET_ROUTES <= size (recipient_recency_by_route d))%nat -> size (recipient_recency_by_route d') = RECENCY_PRUNE_TARGET_ROUTES.
Proof.
  intros Hok Hp Hbig. pose proof (pr_extra _ _ _ _ Hp) as [Hne Hex].
  set (l := hm_iter (recency_routes_by_relay d)). destruct (loses_sum t extra l) as [Hsum Hle]; [apply NoDup_hm_keys|done| |].
  { intros r (q & Hq & ?)%Hex. exists q. split; [|done]. by apply elem_of_hm_iter. }
  set (f := fun kq : string * list string => (kq.1, drop (loses t extra kq.1 kq.2) kq.2)) in *.
  rewrite (size_routes _ (map f l)).
  - rewrite Hsum. pose proof (pr_count _ _ _ _ Hp) as Hc. fold l in Hc. rewrite (size_tracked d Hok) in *. fold l in Hc, Hbig |- *. lia.
  - assert ((map f l).*1 = l.*1) as ->; [|apply NoDup_hm_keys]. clear. induction l as [|[r q] l IH]; cbn; [done|]. by f_equal.
  - intros r q' Hin. apply (list_elem_of_fmap f) in Hin as ([r2 q] & [= -> ->] & Hq%elem_of_hm_iter). cbn. eapply sublist_NoDup; [by eapply idx_nodup|apply sublist_drop].
  - intros r x. rewrite (pruned_dom _ _ _ _ r x Hok Hp). split.
    + intros (q & Hq & Hx). exists (drop (loses t extra r q) q). split; [|done]. apply (list_elem_of_fmap f). exists (r, q). split; [done|]. by apply elem_of_hm_iter.
    + intros (q' & Hin & Hx). apply (list_elem_of_fmap f) in Hin as ([r2 q] & [= -> ->] & Hq%elem_of_hm_iter). by exists q.
Qed.

Lemma level_zero d d' extra : index_ok (recipient_recency_by_route d) (recency_routes_by_relay d) -> pruned d d' 0 extra ->
  (RECENCY_PRUNE_TARGET_ROUTES < size (recency_routes_by_relay d))%nat.
Proof.
  intros Hok Hp. pose proof (pr_level _ _ _ _ Hp) as Hlt. rewrite (size_tracked d Hok) in Hlt. rewrite (excess_step _ 0), filter_id, length_hm_iter in Hlt; [lia|].
  apply Forall_forall. intros [r q] Hq%elem_of_hm_iter. pose proof (idx_nonempty _ _ Hok r q Hq). cbn. destruct q; [done|]. cbn. lia.
Qed.

Lemma pruned_count d d' t extra r : pruned d d' t extra ->
  tracked_recency_routes_for_relay d' r =
  match recency_routes_by_relay d !! r with Some q => length q - loses t extra r q | None => 0 end%nat.
Proof.
  intros Hp. unfold tracked_recency_routes_for_relay. rewrite (pr_queues _ _ _ _ Hp). destruct (recency_routes_by_relay d !! r) as [q|]; [|done]. cbn.
  rewrite <-length_drop. case_decide as He; [by rewrite He|done].
Qed.

(** C37: eviction is exact and fair.  When the table has grown past its limit, what is left are exactly the
    3,072 routes of its low-water mark; there is a level such that every relay keeps all its routes up
    to that level and at most one more, the ones it announced last, with their values; and a relay
    with a single route keeps it unless more than 3,072 relays are known. *)
Theorem fair_eviction d :
  index_ok (recipient_recency_by_route d) (recency_routes_by_relay d) -> (RECENCY_MAX_TRACKED_ROUTES < tracked_recency_routes d)%nat ->
  let d' := prune_recipient_recency d in
  let count s r := tracked_recency_routes_for_relay s r in
  tracked_recency_routes d' = RECENCY_PRUNE_TARGET_ROUTES /\
  (exists t, forall r, (count d r `min` t <= count d' r <= count d r `min` S t)%nat) /\
  (forall r q', recency_routes_by_relay d' !! r = Some q' ->
     exists old, recency_routes_by_relay d !! r = Some (old ++ q') /\ forall x, x ∈ q' -> recipient_recency d' r x = recipient_recency d r x) /\
  (forall r, count d r = 1%nat -> (size (recency_routes_by_relay d) <= RECENCY_PRUNE_TARGET_ROUTES)%nat -> count d' r = 1%nat).
Proof.
  intros Hok Hbig. cbv zeta. destruct (prune_pruned d Hok Hbig) as (t & extra & _ & Hp). set (d' := prune_recipient_recency d) in *.
  assert (forall r, (tracked_recency_routes_for_relay d r `min` t <= tracked_recency_routes_for_relay d' r <= tracked_recency_routes_for_relay d r `min` S t)%nat) as Hlev.
  { intros r. rewrite (pruned_count _ _ _ _ r Hp). unfold tracked_recency_routes_for_relay. destruct (recency_routes_by_relay d !! r) as [q|] eqn:Hq; [|lia].
    pose proof (pruned_loses _ _ _ _ r q Hp Hq). unfold loses, over in *. case_decide as Hr; [|lia]. apply (proj2 (pr_extra _ _ _ _ Hp)) in Hr as (q2 & Hq2 & ?).
    assert (q2 = q) as -> by congruence. lia. }
  split; [|split; [by exists t|split]].
  - apply (pruned_size d d' t extra Hok Hp). unfold tracked_recency_routes, RECENCY_MAX_TRACKED_ROUTES, RECENCY_PRUNE_TARGET_ROUTES in *. lia.
  - intros r q' Hq'. rewrite (pr_queues _ _ _ _ Hp) in Hq'. destruct (recency_routes_by_relay d !! r) as [q|] eqn:Hq; [|done]. cbn in Hq'. case_decide; [done|]. injection Hq' as <-.
    exists (take (loses t extra r q) q). rewrite take_drop. split; [done|]. intros x Hx. unfold recipient_recency. rewrite (pr_routes _ _ _ _ Hp).
    rewrite decide_False; [done|]. unfold lost_of. rewrite Hq. by apply (elem_take_drop x _ q (idx_nodup _ _ Hok r q Hq)).
  - intros r H1 Hfew. destruct t as [|t]; [apply (level_zero d d' extra Hok) in Hp; lia|]. specialize (Hlev r). lia.
Qed.
End PruneLaws.

(** ** Orders *)

(** A comparison that is a total preorder. *)
Record lawful {A} (c : A -> A -> comparison) : Prop := {
  cmp_antisym : antisym c;
  cmp_trans : forall x y z, c x y <> Gt -> c y z <> Gt -> c x z <> Gt;
}.

Lemma lawful_by {A B} (f : A -> B) c : lawful c -> lawful (fun a b => c (f a) (f b)).
Proof. intros [Ha Ht]. split; [intros a b; apply Ha|intros x y z; apply Ht]. Qed.

Lemma lawful_flip {A} (c : A -> A -> comparison) : lawful c -> lawful (fun a b => c b a).
Proof. intros [Ha Ht]. split; [intros a b; apply Ha|]. intros x y z H1 H2. by apply (Ht z y x). Qed.

Lemma lawful_then {A} (c d : A -> A -> comparison) : lawful c -> lawful d -> lawful (fun a b => then_with (c a b) (d a b)).
Proof.
  intros [Ha Ht] [Hda Hdt]. split; [by apply antisym_then|]. intros x y z H1 H2.
  assert (c x z <> Gt) as Hxz by (apply (Ht x y z); [by destruct (c x y)|by destruct (c y z)]).
  destruct (c x z) eqn:E; [|done..]. cbn.
  assert (c x y = Eq) as E1.
  { destruct (c x y) eqn:Exy; [done| |done]. exfalso. assert (c z x <> Gt) as Hzx by (rewrite (Ha x z), E; done).
    apply (Ht y z x) in Hzx; [|by destruct (c y z)]. by rewrite (Ha x y), Exy in Hzx. }
  assert (c y z = Eq) as E2.
  { destruct (c y z) eqn:Eyz; [done| |done]. exfalso. assert (c z x <> Gt) as Hzx by (rewrite (Ha x z), E; done).
    apply (Ht z x y) in Hzx; [|by rewrite E1]. by rewrite (Ha y z), Eyz in Hzx. }
  rewrite E1 in H1. rewrite E2 in H2. by apply (Hdt x y z).
Qed.

Lemma lawful_Z : lawful Z.compare.
Proof. split; [intros a b; apply Z.compare_antisym|]. intros x y z. rewrite !Z.compare_le_iff. lia. Qed.

Lemma lawful_key : lawful key_cmp.
Proof.
  assert (forall a b, key_cmp a b <> Gt <-> key_cmp a b = Lt \/ a = b) as Hle.
  { intros a b. rewrite <-key_cmp_Eq. destruct (key_cmp a b); naive_solver. }
  split; [intros a b; apply key_cmp_antisym|]. intros x y z. rewrite !Hle, !key_cmp_Lt. intros [H1| ->] [H2| ->]; [left; lia|by left|by left|by right].
Qed.

Lemma lawful_str : lawful str_cmp.
Proof.
  assert (forall s t, str_cmp s t <> Gt <-> bytes_le (str_bytes s) (str_bytes t)) as Hle.
  { intros s t. unfold str_cmp, bytes_le. destruct (String.eqb_spec s t) as [->|]; [split; [intros _; apply bytes_le_refl|done]|].
    destruct (bytes_leb _ _); split; done. }
  split; [intros a b; apply str_cmp_antisym|]. intros x y z. rewrite !Hle. apply bytes_le_trans.
Qed.

Lemma lawful_total : lawful total_cmp.
Proof. apply (lawful_by total_key key_cmp), lawful_key. Qed.

Lemma lawful_ranks : lawful ranks_before.
Proof.
  apply lawful_then; [apply (lawful_flip (fun a b => recipient_recency_of a ?= recipient_recency_of b)), (lawful_by _ Z.compare), lawful_Z|].
  apply lawful_then; [apply (lawful_flip (fun a b => total_cmp (relay_success_score a) (relay_success_score b))), (lawful_by _ total_cmp), lawful_total|].
  apply lawful_then; [apply (lawful_flip (fun a b => latest_success_order a ?= latest_success_order b)), (lawful_by _ Z.compare), lawful_Z|].
  apply (lawful_by relay_key str_cmp), lawful_str.
Qed.

Lemma lawful_reputation : lawful by_reputation.
Proof.
  apply lawful_then; [apply (lawful_flip (fun a b => total_cmp (rep_score a) (rep_score b))), (lawful_by _ total_cmp), lawful_total|].
  apply (lawful_by rep_peer_id str_cmp), lawful_str.
Qed.

Lemma sort_sorted {A} (c : A -> A -> comparison) l : lawful c -> StronglySorted (fun a b => c a b <> Gt) (sort_by c l).
Proof.
  intros [Ha Ht]. apply StronglySorted_stable_sort; [intros x y z; apply Ht|]. intros a b. rewrite (Ha a b). destruct (c a b); cbn; auto.
Qed.

(** Sorting by a lawful comparison that tells the elements apart forgets the order they came in. *)
Lemma sort_unique {A} (c : A -> A -> comparison) l1 l2 : lawful c -> (forall x y, x ∈ l1 -> y ∈ l1 -> c x y = Eq -> x = y) -> l1 ≡ₚ l2 ->
  sort_by c l1 = sort_by c l2.
Proof.
  intros Hc Heq Hp. apply (StronglySorted_unique_strong (fun a b => c a b <> Gt)); [|by apply sort_sorted..|].
  - intros x y Hx Hy H1 H2. unfold sort_by in *. rewrite stable_sort_Permutation in Hx, Hy. rewrite <-Hp in Hy. apply Heq; [done|done|].
    rewrite (cmp_antisym c Hc x y) in H2. by destruct (c x y).
  - unfold sort_by. by rewrite !stable_sort_Permutation.
Qed.

Lemma str_cmp_Eq s t : str_cmp s t = Eq -> s = t.
Proof. unfold str_cmp. destruct (String.eqb_spec s t); [done|]. by destruct (bytes_leb _ _). Qed.

(** ** Ranking *)

(** Every relay is recorded under its own id. *)
Definition reps_ok (t : ReputationTracker) : Prop := forall k rep, reputations t !! k = Some rep -> rep_peer_id rep = k.

Lemma rep_values `{HR : HashIter string RelayReputation} (m : gmap string RelayReputation) rep :
  rep ∈ (hm_iter m).*2 <-> exists k, m !! k = Some rep.
Proof.
  rewrite list_elem_of_fmap. split; [intros ([k r] & -> & Hin%elem_of_hm_iter); by exists k|]. intros [k Hk]. exists (k, rep). split; [done|]. by apply elem_of_hm_iter.
Qed.

Lemma ranks_Eq d target t1 t2 x y : reps_ok (reputation d) ->
  (exists k, reputations (reputation d) !! k = Some t1) -> (exists k, reputations (reputation d) !! k = Some t2) ->
  x = candidate_of d target t1 -> y = candidate_of d target t2 -> ranks_before x y = Eq -> x = y.
Proof.
  intros Hok [k1 H1] [k2 H2] -> -> H. assert (rep_peer_id t1 = rep_peer_id t2) as Hid.
  { unfold ranks_before, candidate_of in H. cbn in H. destruct (_ ?= _) in H; [|done..]. destruct (total_cmp _ _) in H; [|done..]. destruct (_ ?= _) in H; [|done..].
    by apply str_cmp_Eq. }
  rewrite (Hok _ _ H1), (Hok _ _ H2) in Hid. congruence.
Qed.

(** The ranking of routes does not depend on the order in which the table of relays is iterated. *)
Theorem ranked_routes_deterministic (I1 I2 : HashIter string RelayReputation) d target count : reps_ok (reputation d) ->
  @ranked_routes I1 d target count = @ranked_routes I2 d target count.
Proof.
  intros Hok. destruct count as [|n]; [done|]. unfold ranked_routes. do 3 f_equal. apply sort_unique; [apply lawful_ranks| |].
  - intros x y (t1 & -> & Hx)%list_elem_of_fmap (t2 & -> & Hy)%list_elem_of_fmap.
    apply list_elem_of_filter in Hx as [_ Hx%rep_values], Hy as [_ Hy%rep_values]. intros He. by apply (ranks_Eq d target t1 t2).
  - unfold relay_candidates. apply fmap_Permutation, filter_Permutation, fmap_Permutation. by rewrite !hm_iter_perm.
Qed.

Section Ranking.
Context {HR : HashIter string RelayReputation}.

Lemma relay_candidates_spec d target c : reps_ok (reputation d) ->
  c ∈ relay_candidates d target <-> exists rep, reputations (reputation d) !! relay_peer c = Some rep /\ is_reliable rep = true /\
    relay_peer c <> target /\ c = candidate_of d target rep.
Proof.
  intros Hok. unfold relay_candidates. rewrite list_elem_of_fmap. split.
  - intros (rep & -> & [[Hr Hne] [k Hk]%rep_values]%list_elem_of_filter). exists rep. cbn. by rewrite (Hok k rep Hk) in *.
  - intros (rep & Hrep & Hr & Hne & ->). exists rep. split; [done|]. apply list_elem_of_filter. split; [|apply rep_values; by eexists].
    split; [done|]. by rewrite (Hok _ _ Hrep) in *.
Qed.

(** The first route is direct; the others go through reliable relays other than the recipient, each at
    most once, in the order of the ranking; and a reliable relay is left out only when the list is
    full of relays that rank at least as high. *)
Theorem ranked_routes_exact d target n : reps_ok (reputation d) ->
  exists cs, ranked_routes d target (S n) = direct_route target :: (route_via target <$> cs) /\ (length cs <= n)%nat /\
    NoDup (relay_peer <$> cs) /\ StronglySorted (fun a b => ranks_before a b <> Gt) cs /\
    (forall c, c ∈ cs -> exists rep, reputations (reputation d) !! relay_peer c = Some rep /\ is_reliable rep = true /\ relay_peer c <> target) /\
    (forall r rep, reputations (reputation d) !! r = Some rep -> is_reliable rep = true -> r <> target -> r ∉ relay_peer <$> cs ->
       length cs = n /\ forall c, c ∈ cs -> ranks_before c (candidate_of d target rep) <> Gt).
Proof.
  intros Hok. set (all := sort_by ranks_before (relay_candidates d target)). exists (take n all). split; [done|].
  assert (all ≡ₚ relay_candidates d target) as Hp by (unfold all, sort_by; apply stable_sort_Permutation).
  pose proof (sort_sorted ranks_before (relay_candidates d target) lawful_ranks) as Hs. fold all in Hs. rewrite <-(take_drop n all) in Hs.
  assert (forall c, c ∈ all <-> exists rep, reputations (reputation d) !! relay_peer c = Some rep /\ is_reliable rep = true /\ relay_peer c <> target /\ c = candidate_of d target rep)
    as Hall by (intros c; rewrite Hp; by apply relay_candidates_spec).
  split; [rewrite length_take; lia|]. split_and!.
  - eapply sublist_NoDup; [|apply fmap_sublist, sublist_take]. rewrite Hp. unfold relay_candidates. rewrite <-list_fmap_compose.
    eapply sublist_NoDup; [|apply fmap_sublist, sublist_filter]. rewrite <-list_fmap_compose. pose proof (NoDup_hm_keys (reputations (reputation d))) as Hn.
    erewrite list_fmap_ext; [exact Hn|]. intros i [k rep] Hi. cbn. apply list_elem_of_lookup_2, elem_of_hm_iter in Hi. by apply Hok.
  - by apply StronglySorted_app_1_l in Hs.
  - intros c Hc. apply subseteq_take in Hc. apply Hall in Hc as (rep & ? & ? & ? & _). by exists rep.
  - intros r rep Hr Hrel Hne Hout. assert (candidate_of d target rep ∈ drop n all) as Hd.
    { assert (candidate_of d target rep ∈ all) as Hin by (apply Hall; exists rep; cbn; by rewrite (Hok _ _ Hr)).
      rewrite <-(take_drop n all) in Hin. apply elem_of_app in Hin as [Hin|Hin]; [|done]. exfalso. apply Hout. apply list_elem_of_fmap.
      exists (candidate_of d target rep). split; [|done]. cbn. by rewrite (Hok _ _ Hr). }
    split.
    + rewrite length_take. assert (drop n all <> []) as Hnn by (intros E; rewrite E in Hd; by apply not_elem_of_nil in Hd).
      destruct (decide (n <= length all)%nat); [lia|]. exfalso. apply Hnn, drop_ge. lia.
    + intros c Hc. by apply (StronglySorted_app_1_elem_of _ _ _ c (candidate_of d target rep) Hs).
Qed.
End Ranking.

(** ** Runs *)

Inductive DeliveryOp : Type :=
  | OpStart (message_id target : string)
  | OpRelay (peer : string)
  | OpSeen (relay recipient : string) (seen_at : Z)
  | OpSeenWire (relay recipient : string) (seen_at : Z)
  | OpSeenNow (relay recipient : string)
  | OpSuccess (message_id : string) (path : list string) (latency_ms : Z)
  | OpFailure (message_id : string) (path : list string)
  | OpConverge (message_id : string).

Section Runs.
Context {BM : Build} {PO : PeerOrder} {HQ : HashIter string (list string)} {HR : HashIter string RelayReputation}.

Definition delivery_run (d : MultiPathDelivery) (op : Z * DeliveryOp) : res string MultiPathDelivery :=
  let now := op.1 in
  match op.2 with
  | OpStart id target => Ok (start_delivery now d id target)
  | OpRelay peer => Ok (add_relay d peer)
  | OpSeen relay recipient seen_at => Ok (record_recipient_seen_via_relay now d relay recipient seen_at)
  | OpSeenWire relay recipient seen_at => Ok (record_recipient_seen_via_relay_from_wire now d relay recipient seen_at).2
  | OpSeenNow relay recipient => Ok (record_recipient_seen_now now d relay recipient)
  | OpSuccess id path latency_ms => record_success now d id path latency_ms
  | OpFailure id path => record_failure now d id path
  | OpConverge id => Ok (converge_delivery d id).2
  end.

Lemma quota_loop_spec q :
  quota_loop q = (take (length q - RECENCY_MAX_ROUTES_PER_RELAY) q, drop (length q - RECENCY_MAX_ROUTES_PER_RELAY) q).
Proof.
  induction q as [|x q IH]; cbn [quota_loop length]; [done|]. case_decide as Hc.
  - rewrite IH. replace (S (length q) - RECENCY_MAX_ROUTES_PER_RELAY)%nat with (S (length q - RECENCY_MAX_ROUTES_PER_RELAY)) by lia. done.
  - replace (S (length q) - RECENCY_MAX_ROUTES_PER_RELAY)%nat with O by lia. done.
Qed.

(** Pruning, whether or not it does anything. *)
Lemma prune_keeps d : index_ok (recipient_recency_by_route d) (recency_routes_by_relay d) ->
  let d' := prune_recipient_recency d in
  index_ok (recipient_recency_by_route d') (recency_routes_by_relay d') /\ (tracked_recency_routes d' <= RECENCY_MAX_TRACKED_ROUTES)%nat /\
  recipient_recency_by_route d' ⊆ recipient_recency_by_route d /\
  d' = set_recency d (recipient_recency_by_route d') (recency_routes_by_relay d').
Proof.
  intros Hok. cbv zeta. destruct (decide (tracked_recency_routes d <= RECENCY_MAX_TRACKED_ROUTES)%nat) as [Hle|Hbig].
  - unfold prune_recipient_recency. unfold tracked_recency_routes in Hle. rewrite decide_True by done. split_and!; [done|done|done|by destruct d].
  - destruct (prune_pruned d Hok) as (t & extra & _ & Hp); [unfold tracked_recency_routes in *; lia|]. split_and!.
    + by eapply pruned_ok.
    + unfold tracked_recency_routes in *. rewrite (pruned_size d _ t extra Hok Hp); unfold RECENCY_PRUNE_TARGET_ROUTES, RECENCY_MAX_TRACKED_ROUTES in *; lia.
    + apply map_subseteq_spec. intros [r x] v. rewrite (pr_routes _ _ _ _ Hp). by case_decide.
    + by eapply pr_frame.
Qed.

Lemma foldl_delete_relay (relay : string) ev : forall (m : gmap (string * string) Z) r x,
  foldl (fun m e => delete (relay, e) m) m ev !! (r, x) = if decide (r = relay /\ x ∈ ev) then None else m !! (r, x).
Proof.
  intros m r x. assert (foldl (fun m e => delete (relay, e) m) m ev = foldl (fun m key => delete key m) m (pair relay <$> ev)) as ->.
  { revert m. induction ev as [|e ev IH]; intros m; cbn; [done|]. apply IH. }
  rewrite foldl_delete. assert ((r, x) ∈ pair relay <$> ev <-> r = relay /\ x ∈ ev) as Hiff.
  { rewrite list_elem_of_fmap. naive_solver. }
  case_decide; case_decide; tauto.
Qed.

(** A new route, with the quota of its relay. *)
Lemma new_route_ok routes queues relay x v : index_ok routes queues -> routes !! (relay, x) = None ->
  let q := default [] (queues !! relay) ++ [x] in
  let k := (length q - RECENCY_MAX_ROUTES_PER_RELAY)%nat in
  index_ok (foldl (fun m e => delete (relay, e) m) (<[(relay, x) := v]> routes) (take k q)) (<[relay := drop k q]> queues).
Proof.
  intros Hok Hnone. cbv zeta. set (q0 := default [] (queues !! relay)). set (q := q0 ++ [x]). set (k := (length q - _)%nat).
  assert (forall y, y ∈ q0 <-> is_Some (routes !! (relay, y))) as Hq0.
  { intros y. rewrite (idx_dom _ _ Hok). unfold q0. destruct (queues !! relay) as [q1|]; cbn; [naive_solver|]. split; [by intros ?%not_elem_of_nil|naive_solver]. }
  assert (NoDup q0 /\ (length q0 <= RECENCY_MAX_ROUTES_PER_RELAY)%nat) as [Hn0 Hl0].
  { unfold q0. destruct (queues !! relay) as [q1|] eqn:Hq1; cbn; [split; [by eapply idx_nodup|by eapply idx_quota]|split; [constructor|lia]]. }
  assert (NoDup q) as Hn.
  { unfold q. apply NoDup_app. split_and!; [done| |apply NoDup_singleton]. intros y Hy ->%list_elem_of_singleton. apply Hq0 in Hy. rewrite Hnone in Hy. by destruct Hy. }
  assert (length q = S (length q0)) as Hlen by (unfold q; rewrite length_app; cbn; lia).
  assert (length (drop k q) = length q `min` RECENCY_MAX_ROUTES_PER_RELAY)%nat as Hld by (rewrite length_drop; unfold k; lia).
  split.
  - intros r y. rewrite foldl_delete_relay. destruct (decide (r = relay)) as [->|Hr].
    + rewrite lookup_insert_eq. pose proof (elem_take_drop y k q Hn) as Htd. assert (y ∈ q <-> y = x \/ y ∈ q0) as Hyq by (unfold q; set_solver).
      case_decide as Hc; [split; [by intros []|intros (? & [= <-] & ?); naive_solver]|]. destruct (decide (y = x)) as [->|Hne].
      * rewrite lookup_insert_eq. split; [intros _; eexists; split; [done|]; naive_solver|by eexists].
      * rewrite lookup_insert_ne by congruence. rewrite <-Hq0. split; [intros ?; eexists; split; [done|]; naive_solver|intros (? & [= <-] & ?); naive_solver].
    + rewrite decide_False by naive_solver. rewrite lookup_insert_ne by congruence. rewrite lookup_insert_ne by done. apply (idx_dom _ _ Hok).
  - intros r q'. rewrite lookup_insert_Some. intros [[<- <-]|[_ Hq']]; [|by eapply idx_nodup]. eapply sublist_NoDup; [exact Hn|apply sublist_drop].
  - intros r q'. rewrite lookup_insert_Some. intros [[<- <-]|[_ Hq']]; [|by eapply idx_nonempty]. intros He. rewrite He in Hld. cbn [length] in Hld.
    unfold RECENCY_MAX_ROUTES_PER_RELAY in Hld. lia.
  - intros r q'. rewrite lookup_insert_Some. intros [[<- <-]|[_ Hq']]; [lia|by eapply idx_quota].
Qed.

Lemma rfold_keeps {E A B} (P : B -> Prop) (f : B -> A -> res E B) l : (forall b a b', a ∈ l -> P b -> f b a = Ok b' -> P b') ->
  forall acc r, P acc -> rfold f acc l = Ok r -> P r.
Proof.
  induction l as [|a l IH]; intros Hf acc r Hacc; cbn; [by intros [= <-]|]. intros (b & Hb & Hr)%rbind_ok_inv.
  eapply IH; [|by eapply Hf; [left| |]|exact Hr]. intros b0 a0 b1 Ha. apply Hf. by right.
Qed.

(** What one attempt writes. *)
Lemma attempt_writes now t p success lat bytes t' : record_relay_attempt now t p success lat bytes = Ok t' ->
  exists rep, t' = mkTracker (<[p := calculate_score now rep]> (reputations t)) /\
    rep_peer_id rep = rep_peer_id (default (neutral p) (reputations t !! p)) /\
    (let s := rep_stats (default (neutral p) (reputations t !! p)) in
     chk_u (E := string) 64 (messages_relayed s + 1) = Ok (messages_relayed (rep_stats rep)) /\
     (success = false -> successful_deliveries (rep_stats rep) = successful_deliveries s)).
Proof.
  unfold record_relay_attempt. intros (m & Hm & (b & Hb & (su & Hsu & (fa & Hfa & (sum & Hsum & [= <-])%rbind_ok_inv)%rbind_ok_inv)%rbind_ok_inv)%rbind_ok_inv)%rbind_ok_inv.
  eexists. split; [reflexivity|]. cbn. split_and!; [done|done|]. intros ->. by injection Hsu as <-.
Qed.

Lemma calculate_id now r : rep_peer_id (calculate_score now r) = rep_peer_id r.
Proof. unfold calculate_score. by case_if. Qed.

Lemma attempt_reps_ok now t p success lat bytes t' : record_relay_attempt now t p success lat bytes = Ok t' -> reps_ok t -> reps_ok t'.
Proof.
  intros (rep & -> & Hid & _)%attempt_writes Hok k r'. cbn. rewrite lookup_insert_Some. intros [[<- <-]|[_ Hk]]; [|by apply Hok].
  rewrite calculate_id, Hid. destruct (reputations t !! p) as [r|] eqn:Hr; [by apply Hok|done].
Qed.

(** The invariant, at a time of the clock. *)
Record delivery_ok (now : Z) (d : MultiPathDelivery) : Prop := {
  do_index : index_ok (recipient_recency_by_route d) (recency_routes_by_relay d);
  do_bound : (tracked_recency_routes d <= RECENCY_MAX_TRACKED_ROUTES)%nat;
  do_values : forall k v, recipient_recency_by_route d !! k = Some v -> 0 < v <= sat_add 64 now RECENCY_MAX_CLOCK_SKEW_SECS;
  do_reps : reps_ok (reputation d);
}.

Lemma delivery_ok_later now now' d : now <= now' -> delivery_ok now d -> delivery_ok now' d.
Proof. intros Hn [H1 H2 H3 H4]. split; [done|done| |done]. intros k v Hv. specialize (H3 k v Hv). unfold sat_add in *. lia. Qed.

Lemma delivery_ok_frame now d d' :
  recipient_recency_by_route d' = recipient_recency_by_route d -> recency_routes_by_relay d' = recency_routes_by_relay d -> reps_ok (reputation d') ->
  delivery_ok now d -> delivery_ok now d'.
Proof. intros E1 E2 Hr [H1 H2 H3 _]. split; unfold tracked_recency_routes in *; rewrite ?E1, ?E2; done. Qed.

Lemma signal_seen_ok now d relay recipient seen_at : 0 <= now -> 0 <= seen_at -> delivery_ok now d ->
  delivery_ok now (record_recipient_seen_via_relay now d relay recipient seen_at).
Proof.
  intros Hnow Hseen Hok. unfold record_recipient_seen_via_relay. destruct (too_old now seen_at) eqn:Hold; [done|].
  set (ceiling := sat_add 64 now RECENCY_MAX_CLOCK_SKEW_SECS). set (clamped := Z.min seen_at ceiling).
  assert (0 < clamped <= ceiling) as Hcl.
  { unfold too_old in Hold. apply orb_false_iff in Hold as [H0%Z.eqb_neq _]. unfold clamped, ceiling, sat_add, RECENCY_MAX_CLOCK_SKEW_SECS. lia. }
  pose proof Hok as [Hidx Hb Hv Hr]. destruct (recipient_recency_by_route d !! (relay, recipient)) as [existing|] eqn:He.
  - specialize (Hv _ _ He) as Hex. split; [| | |done].
    + destruct Hidx as [H1 H2 H3 H4]. split; cbn; [|done..]. intros r x. rewrite <-H1. destruct (decide ((r, x) = (relay, recipient))) as [[= -> ->]|Hne].
      * rewrite lookup_insert_eq, He. split; intros _; by eexists.
      * by rewrite lookup_insert_ne by congruence.
    + unfold tracked_recency_routes in *. cbn. rewrite map_size_insert, He. done.
    + intros k v. cbn. rewrite lookup_insert_Some. intros [[<- <-]|[_ Hk]]; [|by apply (Hv k)]. fold ceiling in Hex |- *. case_if; lia.
  - rewrite quota_loop_spec. pose proof (new_route_ok _ _ relay recipient clamped Hidx He) as Hnew. cbv zeta in Hnew.
    set (q := default [] _ ++ [recipient]) in *. set (k := (length q - _)%nat) in *. set (m := foldl _ _ (take k q)) in *.
    destruct (prune_keeps (set_recency d m (<[relay := drop k q]> (recency_routes_by_relay d))) Hnew) as (H1 & H2 & Hsub & Hframe).
    split; [exact H1|exact H2| |rewrite Hframe; done]. intros key v Hkv. eapply map_subseteq_spec in Hkv; [|exact Hsub]. cbn in Hkv. destruct key as [r x].
    unfold m in Hkv. rewrite foldl_delete_relay in Hkv. case_decide; [done|]. apply lookup_insert_Some in Hkv as [[_ <-]|[_ Hkv]]; [done|by apply (Hv (r, x))].
Qed.

(** Times of the clock that do not go back and timestamps that are natural numbers. *)
Definition op_ok (op : DeliveryOp) : Prop := match op with OpSeen _ _ t | OpSeenWire _ _ t => 0 <= t | _ => True end.

Lemma delivery_run_ok now d op d' : 0 <= now -> op_ok op -> delivery_ok now d -> delivery_run d (now, op) = Ok d' -> delivery_ok now d'.
Proof.
  intros Hnow Hop Hok. pose proof (do_reps _ _ Hok) as Hr. unfold delivery_run. cbn [fst snd].
  destruct op as [id target|peer|relay rec t|relay rec t|relay rec|id p lat|id p|id]; cbn in Hop.
  - intros [= <-]. by apply (delivery_ok_frame now d).
  - intros [= <-]. apply (delivery_ok_frame now d); try done. cbn. unfold tracker_add_relay. destruct (reputations _ !! peer); [done|].
    intros k rep. cbn. rewrite lookup_insert_Some. intros [[<- <-]|[_ ?]]; [done|by apply Hr].
  - intros [= <-]. by apply signal_seen_ok.
  - intros [= <-]. unfold record_recipient_seen_via_relay_from_wire. destruct (too_old now t); [done|]. by apply signal_seen_ok.
  - intros [= <-]. by apply signal_seen_ok.
  - unfold record_success. case_decide; [|intros [= <-]; by apply (delivery_ok_frame now d)]. apply (rfold_keeps (delivery_ok now)).
    + intros b a b' _ Hb (t & Ht & [= <-])%rbind_ok_inv. apply (delivery_ok_frame now b); try done. cbn. eapply attempt_reps_ok; [exact Ht|by eapply do_reps].
    + by apply (delivery_ok_frame now d).
  - unfold record_failure. destruct (attempts d !! id) as [a|]; [|by intros [= <-]]. intros (a' & _ & Hf)%rbind_ok_inv. revert Hf. apply (rfold_keeps (delivery_ok now)).
    + intros b x b' _ Hb (t & Ht & [= <-])%rbind_ok_inv. apply (delivery_ok_frame now b); try done. cbn. eapply attempt_reps_ok; [exact Ht|by eapply do_reps].
    + by apply (delivery_ok_frame now d).
  - intros [= <-]. by apply (delivery_ok_frame now d).
Qed.

(** The clock readings of a run, from [t0] to [t1]. *)
Fixpoint clocked (t0 : Z) (ops : list (Z * DeliveryOp)) (t1 : Z) : Prop :=
  match ops with
  | [] => t0 = t1
  | (now, op) :: ops => t0 <= now /\ op_ok op /\ clocked now ops t1
  end.

(** Whatever peers announce, the table of recency signals stays within its limits: at most 4,096 routes
    in all and 64 for a relay, listed exactly by the queues, with no timestamp more than five minutes
    ahead of the clock; and every relay is recorded under its own id. *)
Theorem recency_invariant ops t1 d : clocked 0 ops t1 -> rfold delivery_run delivery_new ops = Ok d ->
  (tracked_recency_routes d <= RECENCY_MAX_TRACKED_ROUTES)%nat /\
  (forall r, tracked_recency_routes_for_relay d r <= RECENCY_MAX_ROUTES_PER_RELAY)%nat /\
  (forall r x v, recipient_recency d r x = Some v -> 0 < v <= t1 + RECENCY_MAX_CLOCK_SKEW_SECS) /\
  index_ok (recipient_recency_by_route d) (recency_routes_by_relay d) /\ reps_ok (reputation d).
Proof.
  intros Hc Hrun. assert (delivery_ok t1 d) as [Hidx Hb Hv Hr].
  { assert (delivery_ok 0 delivery_new) as H0.
    { split; [split; cbn|cbn; unfold tracked_recency_routes; cbn; rewrite map_size_empty; lia|intros k v; cbn; by rewrite lookup_empty|intros k rep; cbn; by rewrite lookup_empty].
      - intros r x. rewrite !lookup_empty. split; [by intros []|naive_solver].
      - intros r q. by rewrite lookup_empty.
      - intros r q. by rewrite lookup_empty.
      - intros r q. by rewrite lookup_empty. }
    revert H0 Hc Hrun. generalize delivery_new as d0. assert (0 <= 0) as Hz by lia. revert Hz. generalize 0 at 2 3 4 as t0.
    induction ops as [|[now op] ops IH]; intros t0 Ht0 d0 Hd0; cbn; [by intros -> [= <-]|].
    intros (Hle & Hop & Hc) (d1 & H1 & Hrun)%rbind_ok_inv. apply (IH now ltac:(lia) d1); [|done|done].
    eapply delivery_run_ok; [lia|exact Hop| |exact H1]. by eapply delivery_ok_later. }
  split_and!; [done| | |done|done].
  - intros r. unfold tracked_recency_routes_for_relay. destruct (recency_routes_by_relay d !! r) as [q|] eqn:Hq; [by eapply idx_quota|lia].
  - intros r x v Hx. specialize (Hv _ _ Hx). unfold sat_add in Hv. lia.
Qed.

(** *** A relay that has never delivered *)

Definition stats_of (t : ReputationTracker) (r : string) : RelayStats := rep_stats (default (neutral r) (reputations t !! r)).

(** At most [n] attempts through [r], none of which succeeded. *)
Definition unproven (n : Z) (r : string) (t : ReputationTracker) : Prop :=
  successful_deliveries (stats_of t r) = 0 /\ 0 <= messages_relayed (stats_of t r) <= n.

Definition condemned (n : Z) (r : string) (t : ReputationTracker) : Prop :=
  unproven n r t /\ exists rep, reputations t !! r = Some rep /\ is_reliable rep = false.

Lemma zero_score m : 0 < m -> exists s, f64_mul (f64_div (f64_of 0) (f64_of m)) (f64_of 70) = S754_zero s.
Proof.
  intros Hm. pose proof (f64_of_number m) as Hn. pose proof (fun s => proj2 (f64_of_pos m s Hm)) as Hz. change (f64_of 0) with (S754_zero false).
  destruct (f64_of m) as [s|s| |s mm e]; cbn; [by destruct (Hz s)|by eexists|done|by eexists].
Qed.

(** Without a delivery the score is at most thirty. *)
Lemma unproven_unreliable now rep : successful_deliveries (rep_stats rep) = 0 -> 0 < messages_relayed (rep_stats rep) ->
  is_reliable (calculate_score now rep) = false.
Proof.
  intros Hs Hm. unfold calculate_score. rewrite (proj2 (Z.eqb_neq _ 0)) by lia. cbn [is_reliable]. unfold success_score. rewrite Hs.
  destruct (zero_score _ Hm) as [b ->]. unfold latency_score, recency_score. by repeat case_if; destruct b; vm_compute.
Qed.

Lemma calculate_stats now rep : rep_stats (calculate_score now rep) = rep_stats rep.
Proof. unfold calculate_score. by case_if. Qed.

Lemma attempt_other now t p success lat bytes t' n r : record_relay_attempt now t p success lat bytes = Ok t' -> p <> r ->
  (unproven n r t -> unproven n r t') /\ (condemned n r t -> condemned n r t').
Proof.
  intros (rep & -> & _)%attempt_writes Hne. assert (stats_of (mkTracker (<[p := calculate_score now rep]> (reputations t))) r = stats_of t r) as Hst.
  { unfold stats_of. cbn. by rewrite lookup_insert_ne. }
  unfold condemned, unproven. rewrite Hst. cbn. by rewrite lookup_insert_ne.
Qed.

Lemma attempt_fails now t lat bytes t' n r : record_relay_attempt now t r false lat bytes = Ok t' -> n + 1 < 2 ^ 64 -> unproven n r t -> condemned (n + 1) r t'.
Proof.
  intros (rep & -> & _ & Hm & Hs)%attempt_writes Hn [Hs0 Hm0]. fold (stats_of t r) in Hm, Hs. rewrite chk_u_ok in Hm by (unfold in_u; lia). injection Hm as Hm.
  specialize (Hs eq_refl). split; [split; unfold stats_of; cbn; rewrite lookup_insert_eq; cbn; rewrite calculate_stats; lia|].
  eexists. cbn. rewrite lookup_insert_eq. split; [done|]. apply unproven_unreliable; lia.
Qed.

Lemma unproven_weaken n n' r t : n <= n' -> unproven n r t -> unproven n' r t.
Proof. intros ? [? ?]. split; [done|lia]. Qed.

Lemma condemned_weaken n n' r t : n <= n' -> condemned n r t -> condemned n' r t.
Proof. intros ? [? ?]. split; [by eapply unproven_weaken|done]. Qed.

(** A sequence of failures. *)
Lemma failures_condemn now n r path : forall d d', n + zlen path < 2 ^ 64 ->
  rfold (fun d relay => let! t := record_relay_attempt now (reputation d) relay false 10000 0 in Ok (set_reputation d t)) d path = Ok d' ->
  (condemned n r (reputation d) -> condemned (n + zlen path) r (reputation d')) /\
  (unproven n r (reputation d) -> r ∈ path -> condemned (n + zlen path) r (reputation d')).
Proof.
  revert n. induction path as [|p path IH]; intros n d d' Hn; cbn [rfold].
  - intros [= <-]. rewrite zlen_nil, Z.add_0_r. split; [done|intros _ []%not_elem_of_nil].
  - rewrite zlen_cons in *. pose proof (zlen_nonneg path). intros (d1 & (t & Ht & [= <-])%rbind_ok_inv & Hrest)%rbind_ok_inv. destruct (decide (p = r)) as [->|Hne].
    + assert (unproven n r (reputation d) -> condemned (n + 1 + zlen path) r (reputation d')) as Hc.
      { intros Hu. destruct (IH (n + 1) _ _ ltac:(lia) Hrest) as [IHc _]. apply IHc. cbn. eapply attempt_fails; [exact Ht|lia|done]. }
      replace (n + (1 + zlen path)) with (n + 1 + zlen path) by lia. split; [intros [Hu _]; by apply Hc|intros Hu _; by apply Hc].
    + destruct (attempt_other _ _ _ _ _ _ _ n r Ht Hne) as [Hu Hc]. destruct (IH n _ _ ltac:(lia) Hrest) as [IHc IHu]. cbn in IHc, IHu. split.
      * intros Hd. apply (condemned_weaken (n + zlen path)); [lia|]. by apply IHc, Hc.
      * intros Hd [->|Hin]%elem_of_cons; [done|]. apply (condemned_weaken (n + zlen path)); [lia|]. apply IHu; [by apply Hu|done].
Qed.

(** Attempts an operation adds to a relay, at most. *)
Definition cost (op : DeliveryOp) : Z := match op with OpSuccess _ path _ | OpFailure _ path => zlen path | _ => 0 end.

Definition spares (r : string) (op : DeliveryOp) : Prop := match op with OpSuccess _ path _ => r ∉ relays_of path | _ => True end.

Lemma zlen_relays p : zlen (relays_of p) <= zlen p.
Proof. unfold relays_of, zlen. case_decide; cbn; [rewrite length_take|]; lia. Qed.

Lemma seen_reputation now d relay rec t : reputation (record_recipient_seen_via_relay now d relay rec t) = reputation d.
Proof.
  unfold record_recipient_seen_via_relay. destruct (too_old _ _); [done|].
  destruct (recipient_recency_by_route d !! (relay, rec)); [done|]. rewrite quota_loop_spec.
  unfold prune_recipient_recency. case_decide; [done|]. destruct (foldl (trim_step _) _ _) as [[[? ?] ?] ?]. by destruct (remainder_loop _ _ _ _).
Qed.

Lemma condemned_step now n r d op d' : n + cost op < 2 ^ 64 -> spares r op -> delivery_run d (now, op) = Ok d' ->
  condemned n r (reputation d) -> condemned (n + cost op) r (reputation d').
Proof.
  intros Hn Hsp. unfold delivery_run. cbn [fst snd]. intros Hrun Hc.
  destruct op as [id target|peer|relay rec t|relay rec t|relay rec|id p lat|id p|id]; cbn [cost] in *; rewrite ?Z.add_0_r.
  - by injection Hrun as <-.
  - injection Hrun as <-. cbn. unfold tracker_add_relay. destruct (reputations _ !! peer) eqn:Hp; [done|]. destruct Hc as [Hu (rep & Hrep & Hrel)].
    assert (peer <> r) as Hne by congruence. split; [|exists rep; cbn; by rewrite lookup_insert_ne]. unfold unproven, stats_of in *. cbn. by rewrite lookup_insert_ne.
  - injection Hrun as <-. by rewrite seen_reputation.
  - injection Hrun as <-. unfold record_recipient_seen_via_relay_from_wire. destruct (too_old now t); [done|]. cbn. by rewrite seen_reputation.
  - injection Hrun as <-. unfold record_recipient_seen_now. by rewrite seen_reputation.
  - apply (condemned_weaken n); [pose proof (zlen_nonneg p); lia|]. unfold record_success in Hrun. case_decide; [|by injection Hrun as <-]. revert Hrun.
    apply (rfold_keeps (fun d => condemned n r (reputation d))); [|done]. intros b a b' Ha Hb (t & Ht & [= <-])%rbind_ok_inv. cbn.
    destruct (attempt_other _ _ _ _ _ _ _ n r Ht) as [_ Hk]; [intros ->; by apply Hsp|by apply Hk].
  - unfold record_failure in Hrun. pose proof (zlen_relays p). pose proof (zlen_nonneg p). destruct (attempts d !! id) as [a|]; [|injection Hrun as <-; apply (condemned_weaken n); [lia|done]].
    apply rbind_ok_inv in Hrun as (a' & _ & Hrun). apply (condemned_weaken (n + zlen (relays_of p))); [lia|].
    destruct (failures_condemn now n r (relays_of p) _ d' ltac:(lia) Hrun) as [Hk _]. by apply Hk.
  - by injection Hrun as <-.
Qed.

Definition total_cost (ops : list (Z * DeliveryOp)) : Z := foldr (fun op acc => cost op.2 + acc) 0 ops.

Lemma total_cost_nonneg ops : 0 <= total_cost ops.
Proof.
  assert (forall op, 0 <= cost op) as Hc by (intros []; cbn; try lia; apply zlen_nonneg). induction ops as [|[t op] ops IH]; [done|].
  unfold total_cost in *. cbn. specialize (Hc op). lia.
Qed.

(** One failure is final for a relay that has not delivered yet.  From the first failed delivery
    through it, no route that is offered for any recipient goes through that relay, however much time
    passes and whatever else is reported, until a delivery through it succeeds. *)
Theorem one_failure_excludes now n r d id p ops d' :
  attempts d !! id <> None -> unproven n r (reputation d) -> r ∈ relays_of p -> reps_ok (reputation d') ->
  Forall (fun op => spares r op.2) ops -> n + zlen p + total_cost ops < 2 ^ 64 ->
  rfold delivery_run d ((now, OpFailure id p) :: ops) = Ok d' ->
  forall target count route, route ∈ ranked_routes d' target count -> r ∉ relays_of (path route).
Proof.
  intros Hid Hu Hr Hreps Hsp Hn. cbn [rfold]. intros (d1 & H1 & Hrun)%rbind_ok_inv. cbn in H1. unfold record_failure in H1. destruct (attempts d !! id) as [a|]; [|done].
  apply rbind_ok_inv in H1 as (a' & _ & H1). pose proof (zlen_relays p) as Hz. pose proof total_cost_nonneg as Hcost.
  assert (condemned (n + zlen p) r (reputation d1)) as Hc.
  { apply (condemned_weaken (n + zlen (relays_of p))); [lia|]. specialize (Hcost ops).
    destruct (failures_condemn now n r (relays_of p) _ d1 ltac:(lia) H1) as [_ Hk]. by apply Hk. }
  assert (exists n', condemned n' r (reputation d')) as [n' [_ (rep & Hrep & Hrel)]].
  { clear H1 Hu Hr Hid Hreps. revert Hn Hc Hrun. generalize (n + zlen p) as k. revert d1. induction Hsp as [|[t op] ops Hop _ IH]; intros d1 k Hk Hc; cbn [rfold].
    - intros [= <-]. by exists k.
    - intros (d2 & H2 & Hrun)%rbind_ok_inv. unfold total_cost in Hk. cbn [foldr snd] in *. fold (total_cost ops) in Hk.
      apply (IH d2 (k + cost op)); [lia| |done].
      eapply condemned_step; [|exact Hop|exact H2|done]. specialize (Hcost ops). lia. }
  intros target count route Hin. unfold ranked_routes in Hin. destruct count as [|count]; [by apply not_elem_of_nil in Hin|].
  apply elem_of_cons in Hin as [->|Hin]; [cbn; apply not_elem_of_nil|]. apply list_elem_of_fmap in Hin as (c & -> & Hin). apply subseteq_take in Hin.
  unfold sort_by in Hin. rewrite stable_sort_Permutation in Hin. apply (relay_candidates_spec d' target c Hreps) in Hin as (rep' & Hrep' & Hrel' & _).
  cbn. intros ->%list_elem_of_singleton. congruence.
Qed.
End Runs.

(** ** Concrete inputs *)

Module MeshRoutingExamples.

#[local] Instance ex_order : PeerOrder.
Proof.
  refine {| peer_leb a b := bytes_leb (str_bytes a) (str_bytes b) |}.
  - intros a b. apply (total bytes_le).
  - intros a b c. apply bytes_le_trans.
  - intros a b H1 H2. apply (inj str_bytes). by apply (anti_symm bytes_le).
Defined.

#[local] Instance ex_iter_q : HashIter string (list string) := canonical_iter.
#[local] Instance ex_iter_r : HashIter string RelayReputation := canonical_iter.
#[local] Instance ex_build : Build := {| overflow_checks := true |}.

(** A manager that tracks the given queues. *)
Definition state_of (l : list (string * list string)) : MultiPathDelivery :=
  mkDelivery ∅ tracker_new (list_to_map ((fun k => (k, 1)) <$> routes_list l)) (list_to_map l) ∅ 0.

Lemma state_index l : NoDup l.*1 -> (forall r q, (r, q) ∈ l -> NoDup q /\ q <> [] /\ (length q <= RECENCY_MAX_ROUTES_PER_RELAY)%nat) ->
  index_ok (recipient_recency_by_route (state_of l)) (recency_routes_by_relay (state_of l)).
Proof.
  intros Hn Hq. cbn. assert (forall r q, (list_to_map l : gmap string (list string)) !! r = Some q <-> (r, q) ∈ l) as Hl by (intros r q; by rewrite <-elem_of_list_to_map).
  split; [|intros r q ?%Hl; by apply (Hq r)..]. intros r x. setoid_rewrite Hl. rewrite <-elem_of_routes_list.
  assert (NoDup ((fun k : string * string => (k, 1)) <$> routes_list l).*1) as Hnr.
  { rewrite <-list_fmap_compose. cbn. rewrite list_fmap_id. apply routes_list_nodup; [done|]. intros r' q' ?. by apply (Hq r'). }
  split.
  - intros [v Hv]. apply elem_of_list_to_map in Hv; [|done]. apply list_elem_of_fmap in Hv as (k & [= -> ->] & Hk). done.
  - intros Hin. exists 1. apply elem_of_list_to_map; [done|]. apply list_elem_of_fmap. by exists (r, x).
Qed.

Definition names (n : nat) : list string := (fun i => pretty (N.of_nat i)) <$> seq 0 n.

Lemma names_nodup n : NoDup (names n).
Proof. apply NoDup_fmap_2; [|apply NoDup_seq]. intros i j H. apply (inj pretty) in H. lia. Qed.

(** Seventy relays with sixty routes each. *)
Definition CROWD : list (string * list string) := (fun r => (r, names 60)) <$> names 70.

Lemma crowd_keys : CROWD.*1 = names 70.
Proof. by vm_compute. Qed.

Lemma crowd_index : index_ok (recipient_recency_by_route (state_of CROWD)) (recency_routes_by_relay (state_of CROWD)).
Proof.
  apply state_index; [rewrite crowd_keys; apply names_nodup|]. intros r q (r' & [= -> ->] & _)%list_elem_of_fmap.
  split; [apply names_nodup|]. split; [done|]. unfold names. rewrite length_fmap, length_seq. unfold RECENCY_MAX_ROUTES_PER_RELAY. lia.
Qed.

Lemma crowd_size : tracked_recency_routes (state_of CROWD) = 4200%nat.
Proof.
  unfold tracked_recency_routes. rewrite (size_routes _ CROWD).
  - by vm_compute.
  - rewrite crowd_keys. apply names_nodup.
  - intros r q (r' & [= -> ->] & _)%list_elem_of_fmap. apply names_nodup.
  - intros r x. rewrite (idx_dom _ _ crowd_index). cbn [recency_routes_by_relay state_of].
    setoid_rewrite <-elem_of_list_to_map; [done|]. rewrite crowd_keys. apply names_nodup.
Qed.

Lemma crowd_big : (RECENCY_MAX_TRACKED_ROUTES < tracked_recency_routes (state_of CROWD))%nat.
Proof. rewrite crowd_size. unfold RECENCY_MAX_TRACKED_ROUTES. lia. Qed.

Lemma fair_eviction_witness : tracked_recency_routes (prune_recipient_recency (state_of CROWD)) = RECENCY_PRUNE_TARGET_ROUTES.
Proof. destruct (fair_eviction (state_of CROWD) crowd_index crowd_big) as (H & _). exact H. Defined.

Definition OPS : list (Z * DeliveryOp) :=
  [(10, OpRelay "relay"); (11, OpStart "m" "bob"); (12, OpSeenWire "relay" "bob" (2 ^ 64 - 1)); (13, OpFailure "m" ["relay"; "bob"])].

Lemma recency_invariant_witness : exists d, rfold delivery_run delivery_new OPS = Ok d /\ recipient_recency d "relay" "bob" = Some 312 /\
  (forall r x v, recipient_recency d r x = Some v -> 0 < v <= 13 + 300).
Proof.
  destruct (rfold delivery_run delivery_new OPS) as [d|e|] eqn:Hrun; [|by vm_compute in Hrun..]. exists d. split; [done|]. split.
  - vm_compute in Hrun. injection Hrun as <-. by vm_compute.
  - destruct (recency_invariant OPS 13 d) as (_ & _ & Hv & _); [|exact Hrun|exact Hv]. cbn. lia.
Defined.

Definition ONE : MultiPathDelivery := start_delivery 0 (add_relay delivery_new "relay") "m" "bob".

Lemma one_reps_ok : reps_ok (reputation ONE).
Proof.
  intros k rep Hk. change (reputations (reputation ONE)) with (<["relay" := neutral "relay"]> (∅ : gmap string RelayReputation)) in Hk.
  apply lookup_insert_Some in Hk as [[<- <-]|[_ Hk]]; [done|by rewrite lookup_empty in Hk].
Qed.

Lemma ranked_routes_deterministic_witness : @ranked_routes ex_iter_r ONE "bob" 5 = @ranked_routes canonical_iter ONE "bob" 5.
Proof. apply (ranked_routes_deterministic ex_iter_r canonical_iter ONE "bob" 5). apply one_reps_ok. Defined.

Lemma ranked_routes_exact_witness :
  exists cs, ranked_routes ONE "bob" 2 = direct_route "bob" :: (route_via "bob" <$> cs) /\ (length cs <= 1)%nat.
Proof. destruct (ranked_routes_exact ONE "bob" 1 one_reps_ok) as (cs & H1 & H2 & _). exists cs. split; [exact H1|exact H2]. Defined.

Example relay_offered : get_best_paths ONE "bob" 2 = [["bob"]; ["relay"; "bob"]].
Proof. by vm_compute. Qed.

Definition FAILED : MultiPathDelivery := match record_failure 13 ONE "m" ["relay"; "bob"] with Ok d => d | _ => ONE end.

Lemma failed_ok : reps_ok (reputation FAILED).
Proof. change (map_Forall (fun k rep => rep_peer_id rep = k) (reputations (reputation FAILED))). apply (bool_decide_unpack _). by vm_compute. Qed.

Lemma one_failure_excludes_witness : Forall (fun route => "relay" ∉ relays_of (path route)) (ranked_routes FAILED "bob" 5).
Proof.
  apply Forall_forall. intros route. apply (one_failure_excludes 13 0 "relay" ONE "m" ["relay"; "bob"] [] FAILED);
    [by vm_compute|by vm_compute| |apply failed_ok|constructor|by vm_compute|by vm_compute].
  apply (bool_decide_unpack _). by vm_compute.
Defined.
End MeshRoutingExamples.
