(* ===== verification/Escalation.v ===== *)
(** * Choice of a transport ([core/src/transport/escalation.rs], [core/src/transport/abstraction.rs])

    The transports with their capabilities, and the engine that moves a peer to a better or to
    a worse one.  Scores are IEEE doubles; clock readings are arguments. *)

From Stdlib Require Import SpecFloat.
From S2P Require Import Prelude Floats Circuit.

(** ** Transports *)

Inductive TransportType : Type := BLE | WiFiAware | WiFiDirect | Internet | LocalTransport.

#[global] Instance TransportType_eq_dec : EqDecision TransportType.
Proof. solve_decision. Defined.

Definition transport_code (t : TransportType) : positive :=
  match t with BLE => 1 | WiFiAware => 2 | WiFiDirect => 3 | Internet => 4 | LocalTransport => 5 end.

#[global] Instance TransportType_countable : Countable TransportType.
Proof.
  refine {| encode := transport_code;
            decode p := match p with 1 => Some BLE | 2 => Some WiFiAware | 3 => Some WiFiDirect | 4 => Some Internet | 5 => Some LocalTransport | _ => None end%positive |}.
  by intros [].
Defined.

Definition transport_name (t : TransportType) : string :=
  match t with BLE => "BLE" | WiFiAware => "WiFiAware" | WiFiDirect => "WiFiDirect" | Internet => "Internet" | LocalTransport => "Local" end.

Record TransportCapabilities : Type := mkCaps {
  max_payload_size : Z;
  supports_streaming : bool;
  is_bidirectional : bool;
  estimated_bandwidth_bps : Z;
  estimated_latency_ms : Z;
}.

Definition for_transport (t : TransportType) : TransportCapabilities :=
  match t with
  | BLE => mkCaps 512 false true 2000000 50
  | WiFiAware => mkCaps 2048 true true 80000000 10
  | WiFiDirect => mkCaps 4096 true true 250000000 5
  | Internet => mkCaps 8192 true true 100000000 100
  | LocalTransport => mkCaps 65536 true true 10000000000 1
  end.

(** ** The engine *)

Inductive EscalationPolicy : Type := PreferHighBandwidth | PreferLowLatency | PreferLowPower | Balanced.

Definition policy_default : EscalationPolicy := Balanced.

Inductive EscalationError : Type := NoTransportsAvailable | NotPossible | EscalationFailed (message : string).

Record EscalationState : Type := mkEsc {
  current_transport_of : TransportType;
  available_transports : list TransportType;
  last_escalation_attempt : option Z;
}.

Record EscalationEngine : Type := mkEngine {
  states : gmap bytes EscalationState;
  policy : EscalationPolicy;
  capabilities : gmap TransportType TransportCapabilities;
}.

Inductive ProximityTransport : Type := Ble | WifiAware | WifiDirect | Multipeer.

Definition escalation_new (policy : EscalationPolicy) : EscalationEngine := mkEngine ∅ policy ∅.

Definition set_states (e : EscalationEngine) (m : gmap bytes EscalationState) : EscalationEngine := mkEngine m (policy e) (capabilities e).

Definition set_capabilities (e : EscalationEngine) (transport : TransportType) (c : TransportCapabilities) : EscalationEngine :=
  mkEngine (states e) (policy e) (<[transport := c]> (capabilities e)).

Definition bandwidth (cap : TransportCapabilities) : f64 := f64_div (f64_of (estimated_bandwidth_bps cap)) (f64_of 1000000000).

Definition quickness (cap : TransportCapabilities) : f64 := f64_sub (f64_of 1000) (f64_of (estimated_latency_ms cap)).

Definition escalation_score (e : EscalationEngine) (transport : TransportType) : f64 :=
  let cap := default (for_transport transport) (capabilities e !! transport) in
  match policy e with
  | PreferHighBandwidth => bandwidth cap
  | PreferLowLatency => quickness cap
  | PreferLowPower =>
      match transport with
      | BLE => f64_of 400 | WiFiAware => f64_of 300 | WiFiDirect => f64_of 200 | Internet => f64_of 100 | LocalTransport => f64_of 0
      end
  | Balanced =>
      let bandwidth_score := f64_mul (bandwidth cap) (lit 2 5) in
      let latency_score := f64_mul (quickness cap) (lit 3 10) in
      let streaming_score := f64_mul (if supports_streaming cap then f64_of 100 else f64_of 0) (lit 3 10) in
      f64_add (f64_add bandwidth_score latency_score) streaming_score
  end.

(** [partial_cmp(..).unwrap_or(Equal)] of the scores. *)
Definition transport_cmp (e : EscalationEngine) (a b : TransportType) : comparison :=
  default Eq (SFcompare (escalation_score e a) (escalation_score e b)).

Definition select_best_transport (e : EscalationEngine) (available : list TransportType) : TransportType :=
  match available with
  | [] => LocalTransport
  | first :: _ => default first (max_by (transport_cmp e) available)
  end.

Definition find_better_transport (e : EscalationEngine) (available : list TransportType) (current : TransportType) : option TransportType :=
  best ← max_by (transport_cmp e) (filter (fun t => t <> current) available);
  if SFltb (escalation_score e current) (escalation_score e best) then Some best else None.

Definition find_worse_transport (e : EscalationEngine) (available : list TransportType) (current : TransportType) : option TransportType :=
  best ← max_by (transport_cmp e) (filter (fun t => t <> current) available);
  if SFltb (escalation_score e best) (escalation_score e current) then Some best else None.

Definition init_peer (e : EscalationEngine) (peer_id : bytes) (available : list TransportType) : res EscalationError EscalationEngine :=
  if bool_decide (available = []) then Err NoTransportsAvailable
  else
    let current := select_best_transport e available in
    Ok (set_states e (<[peer_id := mkEsc current available None]> (states e))).

Definition should_escalate (e : EscalationEngine) (peer_id : bytes) : bool :=
  match states e !! peer_id with
  | Some s => bool_decide (is_Some (find_better_transport e (available_transports s) (current_transport_of s)))
  | None => false
  end.

Definition escalate (now : Z) (e : EscalationEngine) (peer_id : bytes) : res EscalationError (TransportType * EscalationEngine) :=
  match states e !! peer_id with
  | None => Err NotPossible
  | Some s =>
      match find_better_transport e (available_transports s) (current_transport_of s) with
      | None => Err NotPossible
      | Some target => Ok (target, set_states e (<[peer_id := mkEsc target (available_transports s) (Some now)]> (states e)))
      end
  end.

Definition deescalate (e : EscalationEngine) (peer_id : bytes) : res EscalationError (option TransportType * EscalationEngine) :=
  match states e !! peer_id with
  | None => Err NotPossible
  | Some s =>
      match find_worse_transport e (available_transports s) (current_transport_of s) with
      | Some fallback => Ok (Some fallback, set_states e (<[peer_id := mkEsc fallback (available_transports s) (last_escalation_attempt s)]> (states e)))
      | None => Ok (None, e)
      end
  end.

Definition current_transport (e : EscalationEngine) (peer_id : bytes) : option TransportType := current_transport_of <$> states e !! peer_id.

Definition update_available_transports (e : EscalationEngine) (peer_id : bytes) (transports : list TransportType) : res EscalationError EscalationEngine :=
  match states e !! peer_id with
  | Some s => Ok (set_states e (<[peer_id := mkEsc (current_transport_of s) transports (last_escalation_attempt s)]> (states e)))
  | None => Err NotPossible
  end.

Definition recommended_transport (e : EscalationEngine) (peer_id : bytes) : option ProximityTransport :=
  (fun s => match select_best_transport e (available_transports s) with
            | BLE => Ble
            | WiFiAware => WifiAware
            | WiFiDirect => WifiDirect
            | _ => Ble
            end) <$> states e !! peer_id.

Definition cleanup_peer (e : EscalationEngine) (peer_id : bytes) : EscalationEngine := set_states e (delete peer_id (states e)).

Definition all_states {HI : HashIter bytes EscalationState} (e : EscalationEngine) : list (bytes * EscalationState) := hm_iter (states e).

(** ** Scores *)

(** Capabilities with the machine's integers. *)
Definition caps_ok (e : EscalationEngine) : Prop :=
  map_Forall (fun _ c => 0 <= estimated_bandwidth_bps c < 2 ^ 64 /\ 0 <= estimated_latency_ms c < 2 ^ 32) (capabilities e).

Lemma cap_ok e t : caps_ok e ->
  let cap := default (for_transport t) (capabilities e !! t) in
  0 <= estimated_bandwidth_bps cap < 2 ^ 64 /\ 0 <= estimated_latency_ms cap < 2 ^ 32.
Proof. intros Hok. cbv zeta. destruct (capabilities e !! t) as [c|] eqn:Hc; [by apply (Hok t)|]. destruct t; cbn; lia. Qed.

Lemma bandwidth_number c : 0 <= estimated_bandwidth_bps c < 2 ^ 64 -> is_nan (bandwidth c) = false.
Proof.
  intros Hb. unfold bandwidth. apply f64_div_number; [|apply f64_of_number|by intros []].
  eapply mag_finite, (f64_of_mag _ 64); lia.
Qed.

Lemma quickness_mag c : 0 <= estimated_latency_ms c < 2 ^ 32 -> mag 35 (quickness c).
Proof. intros Hl. apply (f64_sub_mag 33); [apply (mag_weaken 11); [lia|]; apply (f64_of_mag _ 10); lia|apply (f64_of_mag _ 32); lia|lia]. Qed.

Lemma score_number e t : caps_ok e -> is_nan (escalation_score e t) = false.
Proof.
  intros Hok. destruct (cap_ok e t Hok) as [Hb Hl]. unfold escalation_score. set (cap := default _ _) in *. pose proof (quickness_mag cap Hl) as Hq.
  destruct (policy e).
  - by apply bandwidth_number.
  - apply mag_finite in Hq. by destruct (quickness cap).
  - by destruct t.
  - apply f64_add_number_r; [apply f64_add_number_r|by destruct (supports_streaming cap)].
    + apply f64_mul_number_r; [by apply bandwidth_number|done|by intros []].
    + eapply mag_finite, (f64_mul_mag 35 2); [done|by vm_compute|lia].
Qed.

(** The order of the transports by score. *)
Definition at_most (e : EscalationEngine) (a b : TransportType) : Prop := f64_le (escalation_score e a) (escalation_score e b).

#[export] Instance at_most_dec e a b : Decision (at_most e a b).
Proof. unfold at_most. apply _. Defined.

Section Scores.
Context (e : EscalationEngine) (Hok : caps_ok e).

Lemma below_spec a b : SFltb (escalation_score e a) (escalation_score e b) = negb (bool_decide (at_most e b a)).
Proof. apply SFltb_spec; by apply score_number. Qed.

Lemma max_by_best l best : max_by (transport_cmp e) l = Some best -> best ∈ l /\ forall t, t ∈ l -> at_most e t best.
Proof.
  intros Hb. split; [by eapply max_by_elem|]. destruct l as [|x l]; [done|]. cbn in Hb. injection Hb as <-. revert x.
  induction l as [|y l IH]; intros x t; cbn [foldl]; [intros ->%list_elem_of_singleton; by apply (reflexivity (R := f64_le))|].
  destruct (cmp_or_equal_spec (escalation_score e x) (escalation_score e y)) as [Hgt Hle]; [by apply score_number..|].
  set (m := match transport_cmp e x y with Gt => x | _ => y end).
  assert (at_most e x m /\ at_most e y m) as [Hx Hy].
  { unfold m, transport_cmp, at_most. destruct (default Eq _) eqn:E.
    - split; [by apply Hle|done].
    - split; [by apply Hle|done].
    - split; [done|by apply Hgt]. }
  intros Ht. rewrite !elem_of_cons in Ht. destruct Ht as [->|[->|Ht]].
  - etrans; [exact Hx|]. apply IH. left.
  - etrans; [exact Hy|]. apply IH. left.
  - apply IH. by right.
Qed.

Lemma select_best l : l <> [] -> select_best_transport e l ∈ l /\ forall t, t ∈ l -> at_most e t (select_best_transport e l).
Proof.
  destruct l as [|x l]; [done|]. intros _. unfold select_best_transport. destruct (max_by (transport_cmp e) (x :: l)) as [b|] eqn:Hb; [|done].
  cbn [default from_option id]. by apply max_by_best.
Qed.

Lemma better_spec l current t : find_better_transport e l current = Some t <->
  max_by (transport_cmp e) (filter (fun t => t <> current) l) = Some t /\ ~ at_most e t current.
Proof.
  unfold find_better_transport. destruct (max_by _ _) as [b|]; cbn; [|naive_solver]. rewrite below_spec. case_bool_decide; cbn; naive_solver.
Qed.

Lemma worse_spec l current t : find_worse_transport e l current = Some t <->
  max_by (transport_cmp e) (filter (fun t => t <> current) l) = Some t /\ ~ at_most e current t.
Proof.
  unfold find_worse_transport. destruct (max_by _ _) as [b|]; cbn; [|naive_solver]. rewrite below_spec. case_bool_decide; cbn; naive_solver.
Qed.

(** There is nothing better exactly when every available transport scores at most as high. *)
Lemma better_none l current : find_better_transport e l current = None <-> forall t, t ∈ l -> at_most e t current.
Proof.
  split.
  - intros Hn t Ht. destruct (decide (t = current)) as [->|Hne]; [done|]. destruct (max_by (transport_cmp e) (filter (fun t => t <> current) l)) as [b|] eqn:Hb.
    + destruct (decide (at_most e b current)) as [Hle|Hnle].
      * etrans; [|exact Hle]. apply max_by_best in Hb as [_ Hb]. apply Hb. by apply list_elem_of_filter.
      * by rewrite (proj2 (better_spec l current b)) in Hn.
    + apply max_by_none in Hb. assert (t ∈ filter (fun t => t <> current) l) as Hin by (by apply list_elem_of_filter). rewrite Hb in Hin. by apply not_elem_of_nil in Hin.
  - intros Hall. destruct (find_better_transport e l current) as [t|] eqn:Ht; [|done]. apply better_spec in Ht as [Hb Hn].
    apply max_by_best in Hb as [Hb%list_elem_of_filter _]. exfalso. apply Hn, Hall, Hb.
Qed.
End Scores.

(** ** Properties *)

(** Escalation reaches the best transport in one step: what it moves to is available, scores higher
    than what the peer had and at least as high as everything available, and there is nothing to
    escalate to afterwards.  A peer starts on such a transport. *)
Theorem escalation_reaches_best e peer : caps_ok e ->
  (forall now t e', escalate now e peer = Ok (t, e') ->
     exists s, states e !! peer = Some s /\ t ∈ available_transports s /\ ~ at_most e t (current_transport_of s) /\
       (forall u, u ∈ available_transports s -> at_most e u t) /\ current_transport e' peer = Some t /\ should_escalate e' peer = false) /\
  (forall l, l <> [] -> exists e', init_peer e peer l = Ok e' /\ should_escalate e' peer = false /\
     exists t, current_transport e' peer = Some t /\ t ∈ l /\ forall u, u ∈ l -> at_most e u t).
Proof.
  intros Hok. split.
  - intros now t e'. unfold escalate. destruct (states e !! peer) as [s|] eqn:Hs; [|done]. destruct (find_better_transport _ _ _) as [u|] eqn:Hb; [|done]. intros [= <- <-].
    exists s. apply (better_spec e Hok) in Hb as [Hb Hn]. apply (max_by_best e Hok) in Hb as [[Hne Hin]%list_elem_of_filter Hall].
    assert (forall v, v ∈ available_transports s -> at_most e v u) as Hbest.
    { intros v Hv. destruct (decide (v = current_transport_of s)) as [->|]; [|apply Hall; by apply list_elem_of_filter].
      unfold at_most in *. destruct (total f64_le (escalation_score e u) (escalation_score e (current_transport_of s))); [done|done]. }
    split_and!; try done.
    + unfold current_transport. cbn. by rewrite lookup_insert_eq.
    + unfold should_escalate. cbn. rewrite lookup_insert_eq. cbn. apply bool_decide_eq_false. rewrite (proj2 (better_none (set_states e _) Hok _ _)); [by intros []|]. done.
  - intros l Hl. unfold init_peer. rewrite bool_decide_false by done. eexists. split; [done|]. destruct (select_best e Hok l Hl) as [Hin Hall]. split.
    + unfold should_escalate. cbn. rewrite lookup_insert_eq. cbn. apply bool_decide_eq_false. rewrite (proj2 (better_none (set_states e _) Hok _ _)); [by intros []|]. done.
    + exists (select_best_transport e l). split_and!; [unfold current_transport; cbn; by rewrite lookup_insert_eq|done|done].
Qed.

(** A peer falls back once, and not further.  A fallback happens only from a transport that scores
    above every other available one; afterwards no further fallback is found, however many worse
    transports are left, and the engine is ready to escalate back to the transport that was given up. *)
Theorem fallback_only_once e peer t e' s : caps_ok e ->
  states e !! peer = Some s -> current_transport_of s ∈ available_transports s -> deescalate e peer = Ok (Some t, e') ->
  (forall u, u ∈ available_transports s -> u <> current_transport_of s -> ~ at_most e (current_transport_of s) u) /\
  deescalate e' peer = Ok (None, e') /\
  (forall now, exists e'', escalate now e' peer = Ok (current_transport_of s, e'')).
Proof.
  intros Hok Hs Hcur Hd. unfold deescalate in Hd. rewrite Hs in Hd. destruct (find_worse_transport _ _ _) as [u|] eqn:Hw; [|done]. injection Hd as -> <-.
  apply (worse_spec e Hok) in Hw as [Hb Hn]. apply (max_by_best e Hok) in Hb as [[Hne Hin]%list_elem_of_filter Hall].
  assert (forall v, v ∈ available_transports s -> v <> current_transport_of s -> ~ at_most e (current_transport_of s) v) as Htop.
  { intros v Hv Hvne Hle. apply Hn. etrans; [exact Hle|]. apply Hall. by apply list_elem_of_filter. }
  set (e' := set_states e _). assert (caps_ok e') as Hok' by done.
  assert (states e' !! peer = Some (mkEsc t (available_transports s) (last_escalation_attempt s))) as Hs' by (cbn; by rewrite lookup_insert_eq).
  assert (max_by (transport_cmp e') (filter (fun v => v <> t) (available_transports s)) = Some (current_transport_of s)) as Hmax.
  { destruct (max_by _ _) as [b|] eqn:Hb.
    - apply (max_by_best e' Hok') in Hb as [[Hbt Hbin]%list_elem_of_filter Hball]. f_equal. destruct (decide (b = current_transport_of s)) as [|Hbne]; [done|].
      exfalso. apply (Htop b Hbin Hbne). apply (Hball (current_transport_of s)). by apply list_elem_of_filter.
    - apply max_by_none in Hb. assert (current_transport_of s ∈ filter (fun v => v <> t) (available_transports s)) as Hx by (by apply list_elem_of_filter).
      rewrite Hb in Hx. by apply not_elem_of_nil in Hx. }
  split; [exact Htop|]. split.
  - unfold deescalate. rewrite Hs'. cbn [available_transports current_transport_of]. destruct (find_worse_transport e' _ t) as [v|] eqn:Hv; [|done].
    apply (worse_spec e' Hok') in Hv as [Hv Hnv]. rewrite Hmax in Hv. injection Hv as <-. exfalso. apply Hnv. unfold at_most in *.
    destruct (total f64_le (escalation_score e t) (escalation_score e (current_transport_of s))); [done|by destruct Hn].
  - intros now. unfold escalate. rewrite Hs'. cbn [available_transports current_transport_of].
    rewrite (proj2 (better_spec e' Hok' _ _ _) (conj Hmax (Htop t Hin Hne))). by eexists.
Qed.

(** ** Concrete inputs *)

Module EscalationExamples.

Definition ENGINE : EscalationEngine :=
  set_states (escalation_new PreferLowPower) {[ [Byte.x01] := mkEsc BLE [BLE; WiFiAware; WiFiDirect; Internet] None ]}.

Lemma engine_ok : caps_ok ENGINE.
Proof. intros t c. cbn. by rewrite lookup_empty. Qed.

Lemma escalation_reaches_best_witness : exists e', init_peer ENGINE [Byte.x02] [Internet; WiFiAware] = Ok e' /\ should_escalate e' [Byte.x02] = false.
Proof.
  destruct (escalation_reaches_best ENGINE [Byte.x02] engine_ok) as [_ H]. destruct (H [Internet; WiFiAware]) as (e' & H1 & H2 & _); [done|].
  exists e'. split; [exact H1|exact H2].
Defined.

Lemma engine_falls_back : find_worse_transport ENGINE [BLE; WiFiAware; WiFiDirect; Internet] BLE = Some WiFiAware.
Proof. by vm_compute. Qed.

Lemma fallback_only_once_witness : exists e', deescalate ENGINE [Byte.x01] = Ok (Some WiFiAware, e') /\ deescalate e' [Byte.x01] = Ok (None, e').
Proof.
  set (s := mkEsc BLE [BLE; WiFiAware; WiFiDirect; Internet] None). assert (states ENGINE !! [Byte.x01] = Some s) as Hs by apply lookup_singleton_eq.
  eexists. assert (deescalate ENGINE [Byte.x01] = Ok (Some WiFiAware, set_states ENGINE (<[[Byte.x01] := mkEsc WiFiAware (available_transports s) None]> (states ENGINE)))) as Hd.
  { unfold deescalate. rewrite Hs. cbn [available_transports current_transport_of s]. by rewrite engine_falls_back. }
  split; [exact Hd|]. destruct (fallback_only_once ENGINE [Byte.x01] WiFiAware _ s engine_ok Hs ltac:(left) Hd) as (_ & H & _). exact H.
Defined.

(** Bluetooth is recommended to a peer that can only be reached over the Internet. *)
Example recommends_unavailable :
  recommended_transport (set_states (escalation_new Balanced) {[ [Byte.x01] := mkEsc Internet [Internet] None ]}) [Byte.x01] = Some Ble.
Proof. by vm_compute. Qed.
End EscalationExamples.
