(* ===== verification/Observation.v ===== *)
(** * Observed addresses and connections ([core/src/transport/observation.rs])

    What other nodes say this node's address is, the ranking that is drawn from it, and the
    table of active connections.  Clock readings are arguments. *)

From S2P Require Import Prelude Circuit AddrFilter Ledger.

(** ** Socket addresses *)

#[global] Instance Ipv4Addr_countable : Countable Ipv4Addr.
Proof. apply (inj_countable' (fun a => (o0 a, o1 a, o2 a, o3 a)) (fun '(a, b, c, d) => ipv4 a b c d)). by intros []. Defined.

#[global] Instance Ipv6Addr_countable : Countable Ipv6Addr.
Proof.
  apply (inj_countable' (fun a => (s0 a, s1 a, s2 a, s3 a, (s4 a, s5 a, s6 a, s7 a))) (fun '(a, b, c, d, (e, f, g, h)) => ipv6 a b c d e f g h)).
  by intros [].
Defined.

#[global] Instance IpAddr_eq_dec : EqDecision IpAddr.
Proof. solve_decision. Defined.

#[global] Instance IpAddr_countable : Countable IpAddr.
Proof. apply (inj_countable' (fun a => match a with V4 x => inl x | V6 x => inr x end) (fun a => match a with inl x => V4 x | inr x => V6 x end)). by intros []. Defined.

Record SocketAddr : Type := socket { ip_of : IpAddr; port_of : Z }.

#[global] Instance SocketAddr_eq_dec : EqDecision SocketAddr.
Proof. solve_decision. Defined.

#[global] Instance SocketAddr_countable : Countable SocketAddr.
Proof. apply (inj_countable' (fun a => (ip_of a, port_of a)) (fun '(a, b) => socket a b)). by intros []. Defined.

(** ** The observer *)

Record AddressObservation : Type := mkObs {
  observer : string;
  address : SocketAddr;
  timestamp : Z;
  confirmation_count : Z;
}.

Record AddressObserver : Type := mkObserver {
  observations : gmap string AddressObservation;
  cached_external_addresses : list SocketAddr;
}.

Definition observer_new : AddressObserver := mkObserver ∅ [].

Definition external_addresses (s : AddressObserver) : list SocketAddr := cached_external_addresses s.

Definition primary_external_address (s : AddressObserver) : option SocketAddr := head (cached_external_addresses s).

(** The update of an existing observation, [and_modify]. *)
Definition confirm `{Build} (now : Z) (address' : SocketAddr) (obs : AddressObservation) : res string AddressObservation :=
  if bool_decide (address obs = address') then
    let! n := chk_u 32 (confirmation_count obs + 1) in Ok (mkObs (observer obs) (address obs) now n)
  else Ok (mkObs (observer obs) address' now 1).

Section Observer.
Context {BM : Build} {HO : HashIter string AddressObservation} {HA : HashIter SocketAddr Z}.

Definition count_step (counts : gmap SocketAddr Z) (obs : AddressObservation) : res string (gmap SocketAddr Z) :=
  let! n := chk_u 32 (default 0 (counts !! address obs) + confirmation_count obs) in
  Ok (<[address obs := n]> counts).

Definition by_count (a b : SocketAddr * Z) : comparison := b.2 ?= a.2.

Definition recalculate_consensus (s : AddressObserver) : res string AddressObserver :=
  let! address_counts := rfold count_step ∅ (hm_iter (observations s)).*2 in
  Ok (mkObserver (observations s) (sort_by by_count (hm_iter address_counts)).*1).

Definition record_observation (now : Z) (s : AddressObserver) (observer' : string) (address' : SocketAddr) : res string AddressObserver :=
  let! obs := match observations s !! observer' with
              | Some obs => confirm now address' obs
              | None => Ok (mkObs observer' address' now 1)
              end in
  recalculate_consensus (mkObserver (<[observer' := obs]> (observations s)) (cached_external_addresses s)).

Definition all_observations (s : AddressObserver) : list AddressObservation := (hm_iter (observations s)).*2.

(** The closure of [retain] runs on every observation, and its subtraction may underflow. *)
Definition retain_step (now max_age_secs : Z) (kept : gmap string AddressObservation) (ko : string * AddressObservation) :
  res string (gmap string AddressObservation) :=
  let! age := chk_u 64 (now - timestamp ko.2) in
  Ok (if age <? max_age_secs then kept else delete ko.1 kept).

Definition expire_old_observations (now : Z) (s : AddressObserver) (max_age_secs : Z) : res string AddressObserver :=
  let! kept := rfold (retain_step now max_age_secs) (observations s) (hm_iter (observations s)) in
  recalculate_consensus (mkObserver kept (cached_external_addresses s)).
End Observer.

(** ** Connections *)

Record ConnectionEndpoint : Type := mkEndpoint {
  ep_peer_id : string;
  remote_addr : Multiaddr;
  local_addr : Multiaddr;
  connection_id : string;
  established_at : Z;
}.

Record ConnectionTracker : Type := mkTracker { connections : gmap string (gmap string ConnectionEndpoint) }.

Definition tracker_new : ConnectionTracker := mkTracker ∅.

Definition add_connection (now : Z) (t : ConnectionTracker) (peer_id : string) (remote local : Multiaddr) (id : string) : ConnectionTracker :=
  mkTracker (<[peer_id := <[id := mkEndpoint peer_id remote local id now]> (default ∅ (connections t !! peer_id))]> (connections t)).

Definition remove_connection (t : ConnectionTracker) (peer_id : string) : ConnectionTracker := mkTracker (delete peer_id (connections t)).

Definition remove_connection_by_id (t : ConnectionTracker) (peer_id id : string) : ConnectionTracker :=
  match connections t !! peer_id with
  | None => t
  | Some conns =>
      let conns := delete id conns in
      mkTracker (if bool_decide (conns = ∅) then delete peer_id (connections t) else <[peer_id := conns]> (connections t))
  end.

Definition get_connection_by_id (t : ConnectionTracker) (peer_id id : string) : option ConnectionEndpoint :=
  conns ← connections t !! peer_id; conns !! id.

Section Tracker.
Context {HE : HashIter string ConnectionEndpoint} {HP : HashIter string (gmap string ConnectionEndpoint)}.

Definition get_connection (t : ConnectionTracker) (peer_id : string) : option ConnectionEndpoint :=
  conns ← connections t !! peer_id; max_by (fun a b => established_at a ?= established_at b) (hm_iter conns).*2.

Definition all_connections (t : ConnectionTracker) : list ConnectionEndpoint :=
  (hm_iter (connections t)).*2 ≫= fun conns => (hm_iter conns).*2.
End Tracker.

Definition socket_step (acc : option IpAddr * option Z) (protocol : Protocol) : option IpAddr * option Z :=
  match protocol with
  | Ip4 addr => (Some (V4 addr), acc.2)
  | Ip6 addr => (Some (V6 addr), acc.2)
  | Tcp p | Udp p => (acc.1, Some p)
  | _ => acc
  end.

Definition extract_socket_addr (addr : Multiaddr) : option SocketAddr :=
  match foldl socket_step (None, None) addr with
  | (Some ip, Some port) => Some (socket ip port)
  | _ => None
  end.

(** ** The ranking *)

(** The confirmations of an address, over all observers. *)
Definition votes (a : SocketAddr) (l : list AddressObservation) : Z :=
  foldr (fun o n => (if bool_decide (address o = a) then confirmation_count o else 0) + n) 0 l.

Definition weight (s : AddressObserver) (a : SocketAddr) : Z := votes a (map_to_list (observations s)).*2.

Lemma votes_cons a o l : votes a (o :: l) = (if bool_decide (address o = a) then confirmation_count o else 0) + votes a l.
Proof. done. Qed.

Lemma votes_perm a l l' : l ≡ₚ l' -> votes a l = votes a l'.
Proof. induction 1; cbn; [done|by f_equal|repeat case_bool_decide; lia|congruence]. Qed.

Lemma votes_nonneg a l : Forall (fun o => 0 <= confirmation_count o) l -> 0 <= votes a l.
Proof. induction 1; [done|]. rewrite votes_cons. case_bool_decide; lia. Qed.

(** What the cache is, when no counter overflowed: every observed address once, by falling weight. *)
Record ranked (s : AddressObserver) : Prop := {
  ranked_nodup : NoDup (cached_external_addresses s);
  ranked_elem : forall a, a ∈ cached_external_addresses s <-> exists p o, observations s !! p = Some o /\ address o = a;
  ranked_sorted : StronglySorted (fun a b => weight s b <= weight s a) (cached_external_addresses s);
}.

Record observations_ok (s : AddressObserver) : Prop := {
  obs_count : map_Forall (fun p o => observer o = p /\ 1 <= confirmation_count o < 2 ^ 32) (observations s);
  obs_total : forall a, weight s a < 2 ^ 32;
}.

Section Ranking.
Context {BM : Build} {HO : HashIter string AddressObservation} {HA : HashIter SocketAddr Z}.

Lemma counts_spec l counts : Forall (fun o => 1 <= confirmation_count o) l ->
  (forall a, 0 <= default 0 (counts !! a)) -> (forall a, default 0 (counts !! a) + votes a l < 2 ^ 32) ->
  exists counts', rfold count_step counts l = Ok counts' /\
    (forall a, default 0 (counts' !! a) = default 0 (counts !! a) + votes a l) /\
    (forall a, is_Some (counts' !! a) <-> is_Some (counts !! a) \/ exists o, o ∈ l /\ address o = a).
Proof.
  intros Hl. revert counts. induction Hl as [|o l Ho Hl IH]; intros counts Hc Hb.
  { exists counts. split_and!; [done|intros a; cbn; lia|]. intros a. split; [by left|]. intros [?|(o & Ho & _)]; [done|by apply not_elem_of_nil in Ho]. }
  cbn [rfold]. unfold count_step at 1.
  assert (0 <= default 0 (counts !! address o) + confirmation_count o < 2 ^ 32) as Hr.
  { pose proof (Hc (address o)). pose proof (Hb (address o)) as Hb'. rewrite votes_cons, bool_decide_true in Hb' by done.
    assert (0 <= votes (address o) l) by (apply votes_nonneg; eapply Forall_impl; [exact Hl|]; intros ?; cbn; lia). lia. }
  rewrite chk_u_ok by done. cbn [rbind].
  set (counts1 := <[address o := _]> counts).
  assert (forall a, default 0 (counts1 !! a) + votes a l = default 0 (counts !! a) + votes a (o :: l)) as Hsum.
  { intros a. unfold counts1. rewrite votes_cons. destruct (decide (address o = a)) as [<-|Hne].
    - rewrite lookup_insert_eq, bool_decide_true by done. cbn [default from_option id]. lia.
    - rewrite lookup_insert_ne, bool_decide_false by done. lia. }
  destruct (IH counts1) as (counts' & Hrun & Hval & Hdom).
  - intros a. unfold counts1. destruct (decide (address o = a)) as [<-|Hne]; [rewrite lookup_insert_eq|rewrite lookup_insert_ne by done; apply Hc]. cbn. lia.
  - intros a. rewrite Hsum. apply Hb.
  - exists counts'. split_and!; [done|intros a; by rewrite Hval, Hsum|]. intros a. rewrite Hdom. unfold counts1. rewrite lookup_insert_is_Some. setoid_rewrite elem_of_cons. split.
    + intros [[<-|[_ ?]]|(o' & Ho' & <-)]; [right; exists o; by split; [left|]|by left|right; exists o'; by split; [right|]].
    + intros [?|(o' & [->|Ho'] & <-)]; [|left; by left|right; by exists o'].
      left. destruct (decide (address o = a)); [by left|by right].
Qed.

#[local] Instance by_count_total : Total (fun a b : SocketAddr * Z => by_count a b <> Gt).
Proof. intros a b. unfold by_count. destruct (Z.compare_spec b.2 a.2), (Z.compare_spec a.2 b.2); (by left) || (by right) || lia. Qed.

#[local] Instance by_count_trans : Transitive (fun a b : SocketAddr * Z => by_count a b <> Gt).
Proof. intros a b c. unfold by_count. rewrite !Z.compare_gt_iff. lia. Qed.

Lemma sorted_weights (w : SocketAddr -> Z) l : StronglySorted (fun a b => by_count a b <> Gt) l -> Forall (fun an => an.2 = w an.1) l ->
  StronglySorted (fun a b => w b <= w a) l.*1.
Proof.
  induction 1 as [|[a n] l Hs IH Hle]; cbn; [constructor|]. intros [Ha Hall]%Forall_cons. constructor; [by apply IH|].
  rewrite Forall_fmap. rewrite Forall_forall in *. intros [b k] Hb. specialize (Hle _ Hb). specialize (Hall _ Hb). unfold by_count in Hle.
  cbn in *. rewrite Z.compare_gt_iff in Hle. lia.
Qed.

Lemma recalculate_ranked s : observations_ok s -> exists s', recalculate_consensus s = Ok s' /\ observations s' = observations s /\ ranked s'.
Proof.
  intros [Hcnt Htot]. unfold recalculate_consensus.
  assert (forall a, votes a (hm_iter (observations s)).*2 = weight s a) as Hw by (intros a; apply votes_perm; by rewrite hm_iter_perm).
  destruct (counts_spec (hm_iter (observations s)).*2 ∅) as (counts & -> & Hval & Hdom).
  - rewrite hm_iter_perm, Forall_fmap. apply map_Forall_to_list in Hcnt. eapply Forall_impl; [exact Hcnt|]. intros [p o] [_ ?]. cbn in *. lia.
  - intros a. by rewrite lookup_empty.
  - intros a. rewrite lookup_empty, Hw. cbn. apply Htot.
  - cbn [rbind]. eexists. split; [done|]. split; [done|].
    assert (forall a n, counts !! a = Some n -> n = weight s a) as Hn.
    { intros a n Ha. pose proof (Hval a) as Hv. rewrite Ha, lookup_empty, Hw in Hv. cbn in Hv. lia. }
    assert (sort_by by_count (hm_iter counts) ≡ₚ hm_iter counts) as Hperm by apply stable_sort_Permutation.
    split; cbn.
    + rewrite Hperm. apply NoDup_hm_keys.
    + intros a. rewrite Hperm, list_elem_of_fmap. split.
      * intros ([a' n] & -> & Hin%elem_of_hm_iter). destruct (proj1 (Hdom a')) as [[? Hx]|(o & Ho & <-)]; [by eexists|by rewrite lookup_empty in Hx|].
        rewrite hm_iter_perm in Ho. apply list_elem_of_fmap in Ho as ([p o'] & -> & Ho%elem_of_map_to_list). by exists p, o'.
      * intros (p & o & Ho & <-). destruct (proj2 (Hdom (address o))) as [n Hin].
        { right. exists o. split; [|done]. rewrite hm_iter_perm. apply list_elem_of_fmap. exists (p, o). by rewrite elem_of_map_to_list. }
        exists (address o, n). by rewrite elem_of_hm_iter.
    + assert (StronglySorted (fun a b => by_count a b <> Gt) (sort_by by_count (hm_iter counts))) as Hs.
      { apply Sorted_StronglySorted; [apply _|]. apply Sorted_stable_sort. apply _. }
      assert (Forall (fun an => an.2 = weight s an.1) (sort_by by_count (hm_iter counts))) as Hall.
      { rewrite Hperm, Forall_forall. intros [a n] Hin%elem_of_hm_iter. by apply Hn. }
      by apply (sorted_weights (weight s)).
Qed.
End Ranking.

(** ** Operations on the observer *)

(** All the confirmations there are. *)
Definition all_votes (l : list AddressObservation) : Z := foldr (fun o n => confirmation_count o + n) 0 l.

Definition all_weight (m : gmap string AddressObservation) : Z := all_votes (map_to_list m).*2.

Lemma all_votes_cons o l : all_votes (o :: l) = confirmation_count o + all_votes l.
Proof. done. Qed.

Lemma all_votes_perm l l' : l ≡ₚ l' -> all_votes l = all_votes l'.
Proof. induction 1; rewrite ?all_votes_cons; lia. Qed.

Lemma votes_all a l : Forall (fun o => 1 <= confirmation_count o) l -> votes a l <= all_votes l.
Proof. induction 1; [done|]. rewrite votes_cons. rewrite all_votes_cons. case_bool_decide; lia. Qed.

Lemma all_weight_insert m p o : all_weight (<[p := o]> m) = confirmation_count o + all_weight (delete p m).
Proof.
  unfold all_weight. rewrite <-insert_delete_eq, (all_votes_perm _ (o :: (map_to_list (delete p m)).*2)); [done|].
  by rewrite map_to_list_insert by apply lookup_delete_eq.
Qed.

Lemma all_weight_delete m p o : m !! p = Some o -> all_weight m = confirmation_count o + all_weight (delete p m).
Proof. intros Hp. rewrite <-all_weight_insert. by rewrite insert_id. Qed.

(** Observations made by time [t], of at most [n] records. *)
Record observed (t n : Z) (m : gmap string AddressObservation) : Prop := {
  observed_each : map_Forall (fun p o => observer o = p /\ 1 <= confirmation_count o /\ timestamp o <= t) m;
  observed_total : all_weight m <= n;
}.

Lemma observed_counts t n m : observed t n m -> Forall (fun o => 1 <= confirmation_count o) (map_to_list m).*2.
Proof. intros [He _]. apply map_Forall_to_list in He. rewrite Forall_fmap. eapply Forall_impl; [exact He|]. intros [p o] (_ & ? & _). done. Qed.

Lemma all_weight_delete_le t n m p : observed t n m -> all_weight (delete p m) <= all_weight m.
Proof.
  intros [He _]. destruct (m !! p) as [o|] eqn:Hp; [|by rewrite delete_id]. rewrite (all_weight_delete m p o Hp). destruct (He p o Hp) as (_ & ? & _). lia.
Qed.

Lemma observed_delete t n m p : observed t n m -> observed t n (delete p m).
Proof. intros Hm. pose proof (all_weight_delete_le t n m p Hm). destruct Hm as [He Ht]. split; [by apply map_Forall_delete|lia]. Qed.

Lemma observed_weaken t n m t' n' : t <= t' -> n <= n' -> observed t n m -> observed t' n' m.
Proof. intros ? ? [He Ht]. split; [|lia]. intros p o Hp. destruct (He p o Hp) as (? & ? & ?). split_and!; [done..|lia]. Qed.

Lemma all_votes_nonneg l : Forall (fun o => 1 <= confirmation_count o) l -> 0 <= all_votes l.
Proof. induction 1; [done|]. rewrite all_votes_cons. lia. Qed.

Lemma observed_ok t n m cache : observed t n m -> n < 2 ^ 32 -> observations_ok (mkObserver m cache).
Proof.
  intros Hm Hn. pose proof (observed_counts t n m Hm) as Hc. pose proof Hm as [He Ht]. split; cbn.
  - intros p o Hp. destruct (He p o Hp) as (? & ? & _). split; [done|]. pose proof (all_weight_delete m p o Hp) as Hd.
    pose proof (all_votes_nonneg _ (observed_counts t n _ (observed_delete t n m p Hm))) as Hz. unfold all_weight in *. lia.
  - intros a. unfold weight. cbn. pose proof (votes_all a _ Hc). unfold all_weight in *. lia.
Qed.

Section Operations.
Context {BM : Build} {HO : HashIter string AddressObservation} {HA : HashIter SocketAddr Z}.

(** A record is the count of its observer: one more for the address it said before, one for another. *)
Definition count_after (a : SocketAddr) (o : option AddressObservation) : Z :=
  match o with
  | Some o => if bool_decide (address o = a) then confirmation_count o + 1 else 1
  | None => 1
  end.

Lemma record_run t n now s p a : observed t n (observations s) -> t <= now -> n + 1 < 2 ^ 32 ->
  exists s', record_observation now s p a = Ok s' /\ ranked s' /\ observed now (n + 1) (observations s') /\
    observations s' = <[p := mkObs p a now (count_after a (observations s !! p))]> (observations s).
Proof.
  intros Hm Ht Hn. unfold record_observation. set (c := count_after a (observations s !! p)).
  assert (match observations s !! p with Some obs => confirm now a obs | None => Ok (mkObs p a now 1) end = Ok (mkObs p a now c) /\ 1 <= c /\ c + all_weight (delete p (observations s)) <= n + 1) as (-> & Hc & Hsum).
  { unfold c, count_after. pose proof Hm as [He Htot]. destruct (observations s !! p) as [o|] eqn:Hp.
    - destruct (He p o Hp) as (Ho & Hone & Hts). rewrite (all_weight_delete _ p o Hp) in Htot.
      pose proof (all_votes_nonneg _ (observed_counts _ _ _ (observed_delete _ _ _ p Hm))) as H0. fold (all_weight (delete p (observations s))) in H0.
      unfold confirm. case_bool_decide as Ha; [|rewrite Ho; split_and!; [done|lia|lia]].
      rewrite chk_u_ok by (unfold in_u; lia). cbn [rbind]. rewrite Ho, Ha. split_and!; [done|lia|lia].
    - rewrite delete_id by done. split_and!; [done|lia|lia]. }
  cbn [rbind]. set (o := mkObs p a now c).
  assert (observed now (n + 1) (<[p := o]> (observations s))) as Hm'.
  { split; [|rewrite all_weight_insert; cbn; lia]. intros q o' [[<- <-]|[_ Hq]]%lookup_insert_Some; [cbn; split_and!; [done|lia|lia]|].
    destruct (observed_each _ _ _ Hm q o' Hq) as (? & ? & ?). split_and!; [done..|lia]. }
  destruct (recalculate_ranked (mkObserver (<[p := o]> (observations s)) (cached_external_addresses s))) as (s' & Hs & Ho & Hr).
  { eapply observed_ok; [exact Hm'|lia]. }
  exists s'. rewrite Ho. by split_and!.
Qed.

Lemma retain_spec t n now max m l kept : observed t n m -> t <= now -> now < 2 ^ 64 -> map_Forall (fun _ o => 0 <= timestamp o) m ->
  (forall p o, (p, o) ∈ l -> m !! p = Some o) ->
  rfold (retain_step now max) kept l = Ok (foldl (fun kept po => if now - timestamp po.2 <? max then kept else delete po.1 kept) kept l).
Proof.
  intros Hm Ht Hw H0. revert kept. induction l as [|[p o] l IH]; intros kept Hl; [done|]. cbn [rfold foldl]. unfold retain_step at 1. cbn [fst snd].
  assert (m !! p = Some o) as Hp by (apply Hl; left). destruct (observed_each _ _ _ Hm p o Hp) as (_ & _ & ?). specialize (H0 p o Hp). cbn in H0.
  rewrite chk_u_ok by (unfold in_u; lia). cbn [rbind]. apply IH. intros q o' Hq. apply Hl. by right.
Qed.

(** [foldl] of deletions is a filter. *)
Lemma delete_stale (P : AddressObservation -> bool) l kept q :
  foldl (fun (kept : gmap string AddressObservation) po => if P po.2 then kept else delete po.1 kept) kept l !! q =
  if existsb (fun po => bool_decide (po.1 = q) && negb (P po.2)) l then None else kept !! q.
Proof.
  revert kept. induction l as [|[p o] l IH]; intros kept; [done|]. cbn [foldl existsb fst snd]. rewrite IH. destruct (P o); cbn [negb].
  - by rewrite andb_false_r.
  - rewrite andb_true_r. case_bool_decide as Hpq; cbn [orb].
    + subst. rewrite lookup_delete_eq. by destruct (existsb _ _).
    + by rewrite lookup_delete_ne.
Qed.

Lemma expire_run t n now max s : observed t n (observations s) -> t <= now -> now < 2 ^ 64 -> n < 2 ^ 32 -> map_Forall (fun _ o => 0 <= timestamp o) (observations s) ->
  exists s', expire_old_observations now s max = Ok s' /\ ranked s' /\ observations s' = filter (fun po => now - timestamp po.2 < max) (observations s).
Proof.
  intros Hm Ht Hw Hn H0. unfold expire_old_observations. rewrite (retain_spec t n now max (observations s)); [|done..|intros p o; apply elem_of_hm_iter]. cbn [rbind].
  set (kept := foldl _ _ _). assert (kept = filter (fun po => now - timestamp po.2 < max) (observations s)) as Hk.
  { apply map_eq. intros q. unfold kept. rewrite (delete_stale (fun o => now - timestamp o <? max)). rewrite map_lookup_filter.
    destruct (observations s !! q) as [o|] eqn:Hq; cbn [mbind option_bind]; [|by destruct (existsb _ _)].
    destruct (existsb _ _) eqn:Hx.
    - apply existsb_exists in Hx as ([q' o'] & Hin%list_elem_of_In & [Hqq Hold]%andb_prop). apply bool_decide_eq_true in Hqq. cbn in Hqq, Hold. subst q'.
      apply elem_of_hm_iter in Hin. rewrite Hin in Hq. injection Hq as ->. apply negb_true_iff, Z.ltb_ge in Hold.
      case_guard as Hg; [|done]. cbn in Hg. lia.
    - case_guard as Hg; [done|]. exfalso. apply Hg. cbn. destruct (Z.ltb_spec (now - timestamp o) max); [done|]. rewrite <-not_true_iff_false in Hx. destruct Hx.
      apply existsb_exists. exists (q, o). split; [by apply list_elem_of_In, elem_of_hm_iter|]. cbn. rewrite bool_decide_true by done. cbn. apply negb_true_iff, Z.ltb_ge. lia. }
  assert (observed t n kept) as Hm'.
  { unfold kept. clear Hk kept. generalize (hm_iter (observations s)). intros l. revert Hm. generalize (observations s). induction l as [|[p o] l IH]; intros m Hm; [done|]. cbn [foldl].
    apply IH. case_match; [done|by apply observed_delete]. }
  destruct (recalculate_ranked (mkObserver kept (cached_external_addresses s))) as (s' & Hs & Ho & Hr); [by eapply observed_ok|].
  exists s'. rewrite Ho. by split_and!.
Qed.
End Operations.

(** ** Connections by peer *)

Record tracker_ok (t : ConnectionTracker) : Prop := {
  tracker_live : map_Forall (fun _ conns => conns <> ∅) (connections t);
  tracker_keys : map_Forall (fun p conns => map_Forall (fun id e => ep_peer_id e = p /\ connection_id e = id) conns) (connections t);
}.

Lemma tracker_new_ok : tracker_ok tracker_new.
Proof. by split; apply map_Forall_empty. Qed.

Lemma add_connection_ok now t p r l id : tracker_ok t -> tracker_ok (add_connection now t p r l id).
Proof.
  intros [Hl Hk]. split; cbn; apply map_Forall_insert_2; try done; [apply insert_non_empty|]. apply map_Forall_insert_2; [done|].
  destruct (connections t !! p) eqn:Hp; cbn; [by apply (Hk p)|apply map_Forall_empty].
Qed.

Lemma remove_connection_ok t p : tracker_ok t -> tracker_ok (remove_connection t p).
Proof. intros [Hl Hk]. split; cbn; by apply map_Forall_delete. Qed.

Lemma remove_by_id_ok t p id : tracker_ok t -> tracker_ok (remove_connection_by_id t p id).
Proof.
  intros [Hl Hk]. unfold remove_connection_by_id. destruct (connections t !! p) as [conns|] eqn:Hp; [|by split]. case_bool_decide as He; split; cbn; [by apply map_Forall_delete..| |].
  - by apply map_Forall_insert_2.
  - apply map_Forall_insert_2; [|done]. apply map_Forall_delete. by apply (Hk p).
Qed.

(** ** Properties *)

Inductive ObserverOp : Type := RecordOp (now : Z) (p : string) (a : SocketAddr) | ExpireOp (now max_age_secs : Z).

Definition op_time (op : ObserverOp) : Z := match op with RecordOp now _ _ | ExpireOp now _ => now end.

(** Clock readings that do not run backwards. *)
Fixpoint clock_from (t : Z) (ops : list ObserverOp) : Prop :=
  match ops with
  | [] => True
  | op :: rest => t <= op_time op < 2 ^ 64 /\ clock_from (op_time op) rest
  end.

Section Properties.
Context {BM : Build} {HO : HashIter string AddressObservation} {HA : HashIter SocketAddr Z}.

Definition observer_step (s : AddressObserver) (op : ObserverOp) : res string AddressObserver :=
  match op with
  | RecordOp now p a => record_observation now s p a
  | ExpireOp now max => expire_old_observations now s max
  end.

Lemma consensus_from ops t n s : clock_from t ops -> 0 <= t -> observed t n (observations s) -> map_Forall (fun _ o => 0 <= timestamp o) (observations s) ->
  ranked s -> 0 <= n -> n + zlen ops < 2 ^ 32 -> exists s', rfold observer_step s ops = Ok s' /\ ranked s'.
Proof.
  revert t n s. induction ops as [|op ops IH]; intros t n s Hclock Ht Hm Hpos Hr Hn Hlen; [by exists s|].
  destruct Hclock as [Hnow Hclock]. rewrite zlen_cons in Hlen. pose proof (zlen_nonneg ops). cbn [rfold]. destruct op as [now p a|now max]; cbn [observer_step op_time] in *.
  - destruct (record_run t n now s p a Hm) as (s' & -> & Hr' & Hm' & Ho); [lia..|]. cbn [rbind]. apply (IH now (n + 1)); try done; try lia.
    rewrite Ho. apply map_Forall_insert_2; [cbn; lia|done].
  - destruct (expire_run t n now max s Hm) as (s' & -> & Hr' & Ho); [lia..|done|]. cbn [rbind]. apply (IH now n); try done; try lia.
    + rewrite Ho. destruct Hm as [He Htot]. split.
      * intros q o [Hq _]%map_lookup_filter_Some. destruct (He q o Hq) as (? & ? & ?). split_and!; [done..|lia].
      * clear -He Htot. revert He Htot. generalize (observations s). intros m He Htot. etrans; [|exact Htot].
        assert (map_Forall (fun _ o => 1 <= confirmation_count o) m) as Hc by (intros p o Hp; by destruct (He p o Hp) as (_ & ? & _)). clear He Htot.
        induction m as [|p o m Hp IH] using map_ind; [by rewrite map_filter_empty|].
        apply map_Forall_insert in Hc as [Ho Hc]; [|done]. specialize (IH Hc). cbn in Ho.
        rewrite all_weight_insert, delete_id by done. destruct (decide (now - timestamp o < max)).
        { rewrite map_filter_insert_True, all_weight_insert, delete_id by (done || by rewrite map_lookup_filter, Hp). lia. }
        rewrite map_filter_insert_False by done. rewrite delete_id by done. lia.
    + rewrite Ho. intros q o [Hq _]%map_lookup_filter_Some. by apply (Hpos q).
Qed.

(** Nothing a node is told about its address makes the observer fail, as long as the clock does not
    run backwards, and the ranking is always up to date: every address somebody reports is listed
    once, by falling number of confirmations. *)
Theorem address_consensus ops : clock_from 0 ops -> zlen ops < 2 ^ 32 ->
  exists s, rfold observer_step observer_new ops = Ok s /\ ranked s.
Proof.
  intros Hc Hlen. eapply (consensus_from ops 0 0); try done; try lia.
  split; [constructor| |constructor]. intros a. split; [by intros ?%not_elem_of_nil|intros (p & o & Ho & _); done].
Qed.

(** The heaviest address, alone at the top, is the primary one. *)
Lemma primary_heaviest s a : ranked s -> 0 < weight s a -> (forall b, b <> a -> weight s b < weight s a) -> a ∈ cached_external_addresses s -> primary_external_address s = Some a.
Proof.
  intros [_ _ Hs] _ Hw Hin. unfold primary_external_address. inversion Hs as [Hnil|b l Hl Hall Heq]; [rewrite <-Hnil in Hin; by apply not_elem_of_nil in Hin|].
  cbn. f_equal. rewrite <-Heq in Hin. apply elem_of_cons in Hin as [->|Hin]; [done|]. rewrite Forall_forall in Hall. specialize (Hall a Hin).
  destruct (decide (b = a)) as [|Hne]; [done|]. specialize (Hw b Hne). lia.
Qed.

Lemma repeat_record k t n now s p a : observed t n (observations s) -> ranked s -> t <= now -> n + Z.of_nat k < 2 ^ 32 -> forall c0 t0,
  observations s !! p = Some (mkObs p a t0 c0) ->
  exists s' t', rfold observer_step s (replicate k (RecordOp now p a)) = Ok s' /\ ranked s' /\
    observations s' = <[p := mkObs p a t' (c0 + Z.of_nat k)]> (observations s).
Proof.
  revert n t s. induction k as [|k IH]; intros n t s Hm Hr Ht Hk c0 t0 Hp; cbn [replicate rfold observer_step].
  { exists s, t0. split_and!; [done|done|]. by rewrite Z.add_0_r, insert_id. }
  destruct (record_run t n now s p a Hm) as (s1 & -> & Hr1 & Hm1 & Ho); [lia..|]. cbn [rbind]. rewrite Hp in Ho. cbn in Ho. rewrite bool_decide_true in Ho by done.
  destruct (IH (n + 1) now s1) with (c0 := c0 + 1) (t0 := now) as (s' & t' & Hrun & Hr' & Ho'); [done|done|lia|lia|rewrite Ho; by rewrite lookup_insert_eq|].
  exists s', t'. split_and!; [done|done|]. rewrite Ho', Ho, insert_insert_eq. do 2 f_equal. lia.
Qed.

Lemma votes_delete_le t n m p a c ts b cache : observed t n m -> a <> b -> weight (mkObserver (<[p := mkObs p a ts c]> m) cache) b <= n.
Proof.
  intros Hm Hne. unfold weight. cbn [observations]. rewrite <-insert_delete_eq, (votes_perm b _ (mkObs p a ts c :: (map_to_list (delete p m)).*2)).
  - rewrite votes_cons, bool_decide_false by done. pose proof (observed_delete t n m p Hm) as Hd. pose proof (votes_all b _ (observed_counts _ _ _ Hd)). destruct Hd as [_ Ht]. unfold all_weight in Ht. lia.
  - by rewrite map_to_list_insert by apply lookup_delete_eq.
Qed.

Lemma weight_own t n m p a c ts cache : observed t n m -> 0 <= c -> c <= weight (mkObserver (<[p := mkObs p a ts c]> m) cache) a.
Proof.
  intros Hm Hc. unfold weight. cbn [observations]. rewrite <-insert_delete_eq, (votes_perm a _ (mkObs p a ts c :: (map_to_list (delete p m)).*2)).
  - rewrite votes_cons, bool_decide_true by done. cbn. pose proof (observed_counts _ _ _ (observed_delete t n m p Hm)) as Hcs.
    assert (0 <= votes a (map_to_list (delete p m)).*2) by (apply votes_nonneg; eapply Forall_impl; [exact Hcs|]; intros ?; cbn; lia). lia.
  - by rewrite map_to_list_insert by apply lookup_delete_eq.
Qed.

(** One observer decides.  Whatever any number of observers have reported, one of them that repeats
    itself more often than all reports so far makes its own choice the node's primary address:
    confirmations of one observer count as much as those of different ones. *)
Theorem one_observer_decides t n s p a now k : observed t n (observations s) -> 0 <= n -> t <= now -> n < Z.of_nat k -> n + Z.of_nat k < 2 ^ 32 ->
  exists s', rfold observer_step s (replicate k (RecordOp now p a)) = Ok s' /\ primary_external_address s' = Some a.
Proof.
  intros Hm Hn Ht Hk Hb. destruct k as [|k]; [lia|]. cbn [replicate rfold observer_step].
  destruct (record_run t n now s p a Hm) as (s1 & -> & Hr1 & Hm1 & Ho); [lia..|]. cbn [rbind]. set (c0 := count_after a (observations s !! p)) in *.
  assert (1 <= c0) as Hc0.
  { unfold c0, count_after. destruct (observations s !! p) as [o|] eqn:Hp; [|done]. destruct (observed_each _ _ _ Hm p o Hp) as (_ & ? & _). case_bool_decide; lia. }
  destruct (repeat_record k now (n + 1) now s1 p a) with (c0 := c0) (t0 := now) as (s' & t' & Hrun & Hr' & Ho'); [done|done|lia|lia|rewrite Ho; by rewrite lookup_insert_eq|].
  rewrite Ho, insert_insert_eq in Ho'. exists s'. split; [done|]. pose proof (weight_own t n (observations s) p a (c0 + Z.of_nat k) t' (cached_external_addresses s') Hm ltac:(lia)) as Hown.
  assert (weight s' = weight (mkObserver (<[p := mkObs p a t' (c0 + Z.of_nat k)]> (observations s)) (cached_external_addresses s'))) as Hw by (unfold weight; by rewrite Ho').
  apply primary_heaviest; [done|rewrite Hw; lia| |].
  - intros b Hba. rewrite Hw. assert (a <> b) as Hab by congruence. pose proof (votes_delete_le t n (observations s) p a (c0 + Z.of_nat k) t' b (cached_external_addresses s') Hm Hab). lia.
  - apply (ranked_elem _ Hr'). exists p, (mkObs p a t' (c0 + Z.of_nat k)). by rewrite Ho', lookup_insert_eq.
Qed.

(** Expiry keeps exactly the observations that are not too old and ranks what is left. *)
Theorem expiry_exact t n now max s : observed t n (observations s) -> t <= now < 2 ^ 64 -> n < 2 ^ 32 -> map_Forall (fun _ o => 0 <= timestamp o) (observations s) ->
  exists s', expire_old_observations now s max = Ok s' /\ ranked s' /\ forall p o, observations s' !! p = Some o <-> observations s !! p = Some o /\ now - timestamp o < max.
Proof.
  intros Hm Ht Hn Hpos. destruct (expire_run t n now max s Hm) as (s' & Hs & Hr & Ho); [lia..|done|]. exists s'. split_and!; [done..|].
  intros p o. rewrite Ho, map_lookup_filter_Some. done.
Qed.
End Properties.

Section Connections.
Context {HE : HashIter string ConnectionEndpoint} {HP : HashIter string (gmap string ConnectionEndpoint)}.

Lemma latest_spec (l : list ConnectionEndpoint) e : max_by (fun a b => established_at a ?= established_at b) l = Some e ->
  e ∈ l /\ forall e', e' ∈ l -> established_at e' <= established_at e.
Proof.
  intros Hb. split; [by eapply max_by_elem|]. destruct l as [|x l]; [done|]. cbn in Hb. injection Hb as <-. revert x.
  induction l as [|y l IH]; intros x e'; cbn [foldl]; [by intros ->%list_elem_of_singleton|]. rewrite !elem_of_cons.
  set (b := match established_at x ?= established_at y with Gt => x | _ => y end).
  assert (established_at x <= established_at b /\ established_at y <= established_at b) as [Hx Hy].
  { unfold b. destruct (Z.compare_spec (established_at x) (established_at y)); lia. }
  intros [->|[->|He]]; [etrans; [exact Hx|]; apply IH; left|etrans; [exact Hy|]; apply IH; left|apply IH; by right].
Qed.

(** A peer's connections are independent of each other: closing one, by its id, leaves the others and
    the other peers' untouched, what is left is found by its id, listed, and the latest of it is the
    peer's connection; a peer without connections has none and is not kept. *)
Theorem connection_paths t p : tracker_ok t ->
  (forall id, let t' := remove_connection_by_id t p id in
     tracker_ok t' /\ get_connection_by_id t' p id = None /\
     forall q id', (q, id') <> (p, id) -> get_connection_by_id t' q id' = get_connection_by_id t q id') /\
  (forall e, e ∈ all_connections t <-> get_connection_by_id t (ep_peer_id e) (connection_id e) = Some e) /\
  match get_connection t p with
  | Some e => get_connection_by_id t p (connection_id e) = Some e /\
              forall id e', get_connection_by_id t p id = Some e' -> established_at e' <= established_at e
  | None => connections t !! p = None /\ forall id, get_connection_by_id t p id = None
  end.
Proof.
  intros Hok. split_and!.
  - intros id t'. split; [by apply remove_by_id_ok|]. unfold t', remove_connection_by_id, get_connection_by_id. destruct (connections t !! p) as [conns|] eqn:Hp; cbn.
    + case_bool_decide as He; cbn.
      * rewrite lookup_delete_eq. split; [done|]. intros q id' Hne. destruct (decide (q = p)) as [->|Hq]; [|by rewrite lookup_delete_ne].
        rewrite lookup_delete_eq, Hp. cbn. symmetry. rewrite <-(lookup_delete_ne conns id id') by congruence. rewrite He. apply lookup_empty.
      * rewrite lookup_insert_eq. cbn. rewrite lookup_delete_eq. split; [done|]. intros q id' Hne. destruct (decide (q = p)) as [->|Hq]; [|by rewrite lookup_insert_ne].
        rewrite lookup_insert_eq, Hp. cbn. apply lookup_delete_ne. congruence.
    + rewrite Hp. by cbn.
  - intros e. unfold all_connections, get_connection_by_id. rewrite list_elem_of_bind. split.
    + intros (conns & He & Hc). apply list_elem_of_fmap in Hc as ([q conns'] & -> & Hq%elem_of_hm_iter). apply list_elem_of_fmap in He as ([id e'] & -> & He%elem_of_hm_iter).
      cbn in *. destruct (tracker_keys t Hok q conns' Hq id e' He) as [-> ->]. by rewrite Hq.
    + intros (conns & Hq & He)%bind_Some. exists conns. split; apply list_elem_of_fmap; [exists (connection_id e, e)|exists (ep_peer_id e, conns)]; by rewrite elem_of_hm_iter.
  - unfold get_connection, get_connection_by_id. destruct (connections t !! p) as [conns|] eqn:Hp; cbn; [|done].
    destruct (max_by _ _) as [e|] eqn:Hm.
    + apply latest_spec in Hm as [([id e'] & -> & He%elem_of_hm_iter)%list_elem_of_fmap Hmax]. cbn in *. destruct (tracker_keys t Hok p conns Hp id e' He) as [_ ->].
      split; [done|]. intros id' e'' He''. apply Hmax, list_elem_of_fmap. exists (id', e''). by rewrite elem_of_hm_iter.
    + exfalso. apply max_by_none in Hm. apply (tracker_live t Hok p conns Hp). apply fmap_nil_inv in Hm. apply map_to_list_empty_iff, Permutation_nil. by rewrite <-hm_iter_perm, Hm.
Qed.
End Connections.

(** ** Concrete inputs *)

Module ObservationExamples.

#[local] Instance ex_build : Build := {| overflow_checks := true |}.
#[local] Instance ex_obs : HashIter string AddressObservation := canonical_iter.
#[local] Instance ex_addr : HashIter SocketAddr Z := canonical_iter.
#[local] Instance ex_conn : HashIter string ConnectionEndpoint := canonical_iter.
#[local] Instance ex_peers : HashIter string (gmap string ConnectionEndpoint) := canonical_iter.

Definition TRUE_ADDR : SocketAddr := socket (V4 (ipv4 203 0 113 5)) 4001.
Definition FALSE_ADDR : SocketAddr := socket (V4 (ipv4 198 51 100 9)) 4001.

(** Three observers agree; one that repeats itself four times outvotes them. *)
Definition HONEST : list ObserverOp := [RecordOp 10 "a" TRUE_ADDR; RecordOp 11 "b" TRUE_ADDR; RecordOp 12 "c" TRUE_ADDR].

Example liar_outvotes :
  (fun s => primary_external_address s) <$> (match rfold observer_step observer_new (HONEST ++ replicate 4 (RecordOp 20 "liar" FALSE_ADDR)) with Ok s => Some s | _ => None end) =
  Some (Some FALSE_ADDR).
Proof. by vm_compute. Qed.

(** A clock that runs backwards stops the node in a build with overflow checks. *)
Example clock_backwards_panics : rfold observer_step observer_new [RecordOp 10 "a" TRUE_ADDR; ExpireOp 9 3600] = Panic.
Proof. by vm_compute. Qed.

Lemma address_consensus_witness : exists s, rfold observer_step observer_new HONEST = Ok s /\ ranked s.
Proof. apply (address_consensus HONEST); [cbn; lia|by vm_compute]. Defined.

Definition SEEN : AddressObserver := mkObserver {[ "a"%string := mkObs "a" TRUE_ADDR 10 2 ]} [TRUE_ADDR].

Lemma seen_observed : observed 10 2 (observations SEEN).
Proof. split; [|by vm_compute]. intros p o. cbn. intros [<- <-]%lookup_singleton_Some. cbn. split_and!; [done|lia|lia]. Qed.

Lemma one_observer_decides_witness : exists s', rfold observer_step SEEN (replicate 3 (RecordOp 20 "liar" FALSE_ADDR)) = Ok s' /\ primary_external_address s' = Some FALSE_ADDR.
Proof. apply (one_observer_decides 10 2 SEEN "liar" FALSE_ADDR 20 3 seen_observed); lia. Defined.

Lemma expiry_exact_witness : exists s', expire_old_observations 100 SEEN 50 = Ok s' /\ observations s' !! "a"%string = None.
Proof.
  destruct (expiry_exact 10 2 100 50 SEEN seen_observed) as (s' & Hs & _ & Ho); [lia|lia|intros p o; cbn; intros [<- <-]%lookup_singleton_Some; cbn; lia|].
  exists s'. split; [exact Hs|]. destruct (observations s' !! "a"%string) as [o|] eqn:He; [|reflexivity]. apply Ho in He as [He Hlt]. cbn in He. apply lookup_singleton_Some in He as [_ <-]. cbn in Hlt. lia.
Defined.

Definition TWO : ConnectionTracker := add_connection 20 (add_connection 10 tracker_new "p" [Tcp 1] [] "direct") "p" [Tcp 2] [] "relayed".

Lemma two_paths_ok : tracker_ok TWO.
Proof. by apply add_connection_ok, add_connection_ok, tracker_new_ok. Qed.

Lemma connection_paths_witness : get_connection_by_id (remove_connection_by_id TWO "p" "relayed") "p" "direct" = Some (mkEndpoint "p" [Tcp 1] [] "direct" 10).
Proof. destruct (connection_paths TWO "p" two_paths_ok) as [H _]. destruct (H "relayed"%string) as (_ & _ & H'). rewrite H' by done. reflexivity. Defined.

(** A relayed address gives the relay's socket with the last port of the address. *)
Example socket_of_relayed : extract_socket_addr [Ip4 (ipv4 10 0 0 1); Tcp 4001; P2p "relay"; P2pCircuit; P2p "target"] = Some (socket (V4 (ipv4 10 0 0 1)) 4001).
Proof. reflexivity. Qed.

End ObservationExamples.
