(* ===== verification/Health.v ===== *)
(** * Transport health ([core/src/transport/health.rs], [core/src/transport/diagnostics.rs],
      [core/src/transport/capability.rs])

    Statistics of the connections to each peer and of all of them, the scores drawn from them and
    the reports made of them.  Clock readings are arguments, in milliseconds; peers are named by the
    text of their id; registered callbacks are values, and the calls made to them an output. *)

From Stdlib Require Import SpecFloat.
From S2P Require Import Prelude Effects Floats AddrFilter Ids LocalCell Neighborhood GlobalRoutes RoutingEngine.

Inductive ConnectionState : Type := Connecting | Connected | Disconnecting | Disconnected | Failed.

#[global] Instance ConnectionState_eq_dec : EqDecision ConnectionState.
Proof. solve_decision. Defined.

#[global] Instance ConnectionState_countable : Countable ConnectionState.
Proof.
  refine {| encode s := match s with Connecting => 1 | Connected => 2 | Disconnecting => 3 | Disconnected => 4 | Failed => 5 end%positive;
            decode p := match p with 1 => Some Connecting | 2 => Some Connected | 3 => Some Disconnecting | 4 => Some Disconnected | 5 => Some Failed | _ => None end%positive |}.
  by intros [].
Defined.

(** [{:?}]. *)
Definition state_text (s : ConnectionState) : string :=
  match s with
  | Connecting => "Connecting" | Connected => "Connected" | Disconnecting => "Disconnecting" | Disconnected => "Disconnected" | Failed => "Failed"
  end.

(** ** Statistics of a peer *)

Record ConnectionStats : Type := mkStats {
  cs_peer_id : string;
  cs_state : ConnectionState;
  duration_ms : Z;
  messages_sent : Z;
  message_failures : Z;
  bytes_sent : Z;
  bytes_received : Z;
  avg_latency_ms : Z;
  last_activity : Z;
  connection_attempts : Z;
  successful_connections : Z;
  connection_failures : Z;
  current_address : option Multiaddr;
  known_addresses : list Multiaddr;
}.

Definition stats_new (now : Z) (peer_id : string) : ConnectionStats := mkStats peer_id Disconnected 0 0 0 0 0 0 now 0 0 0 None [].

Definition update_state (now : Z) (s : ConnectionStats) (state : ConnectionState) : ConnectionStats := { s with cs_state := state; last_activity := now }.

Definition update_current_address (now : Z) (s : ConnectionStats) (a : Multiaddr) : ConnectionStats :=
  { s with current_address := Some a;
    known_addresses := if bool_decide (a ∈ known_addresses s) then known_addresses s else known_addresses s ++ [a];
    last_activity := now }.

Section Stats.
Context {BM : Build}.

Definition stats_message_success (now : Z) (s : ConnectionStats) (bytes latency_ms : Z) : res string ConnectionStats :=
  let! sent := chk_u 64 (messages_sent s + 1) in
  let! total := chk_u 64 (bytes_sent s + bytes) in
  let! avg := if 1 <? sent then let! sum := chk_u 64 (avg_latency_ms s + latency_ms) in Ok (sum / 2) else Ok latency_ms in
  Ok { s with messages_sent := sent; bytes_sent := total; avg_latency_ms := avg; last_activity := now }.

Definition stats_message_failure (now : Z) (s : ConnectionStats) : res string ConnectionStats :=
  let! n := chk_u 64 (message_failures s + 1) in Ok { s with message_failures := n; last_activity := now }.

Definition stats_bytes_received (now : Z) (s : ConnectionStats) (bytes : Z) : res string ConnectionStats :=
  let! n := chk_u 64 (bytes_received s + bytes) in Ok { s with bytes_received := n; last_activity := now }.

Definition stats_connection_attempt (now : Z) (s : ConnectionStats) : res string ConnectionStats :=
  let! n := chk_u 32 (connection_attempts s + 1) in Ok { s with connection_attempts := n; last_activity := now }.

Definition stats_successful_connection (now : Z) (s : ConnectionStats) : res string ConnectionStats :=
  let! n := chk_u 32 (successful_connections s + 1) in Ok { s with successful_connections := n; last_activity := now }.

Definition stats_connection_failure (now : Z) (s : ConnectionStats) : res string ConnectionStats :=
  let! n := chk_u 32 (connection_failures s + 1) in Ok { s with connection_failures := n; last_activity := now }.

Definition is_healthy (now : Z) (s : ConnectionStats) : res string bool :=
  let! age := chk_u 64 (now - last_activity s) in
  Ok (bool_decide (cs_state s = Connected) && (age <? 30000) && (0 <? successful_connections s) &&
      ((connection_attempts s =? 0) || SFltb (lit 7 10) (f64_div (f64_of (successful_connections s)) (f64_of (connection_attempts s))))).

Definition age_factor (age_ms : Z) : f64 :=
  if age_ms <? 10000 then f64_one else if age_ms <? 30000 then lit 8 10 else if age_ms <? 60000 then lit 5 10 else lit 2 10.

(** [a as f64 / b as f64], or one when there is nothing to divide by. *)
Definition rate (a b : Z) : f64 := if 0 <? b then f64_div (f64_of a) (f64_of b) else f64_one.

Definition quality_score (now : Z) (s : ConnectionStats) : res string f64 :=
  let! age := chk_u 64 (now - last_activity s) in
  let success_rate := rate (successful_connections s) (connection_attempts s) in
  let! messages := chk_u 64 (messages_sent s + message_failures s) in
  let message_success_rate := rate (messages_sent s) messages in
  Ok (clamp f64_zero f64_one
        (f64_add (f64_add (f64_mul success_rate (lit 4 10)) (f64_mul message_success_rate (lit 4 10))) (f64_mul (age_factor age) (lit 2 10)))).
End Stats.

(** ** Global metrics *)

Record GlobalTransportMetrics : Type := mkMetrics {
  total_connection_attempts : Z;
  total_successful_connections : Z;
  total_connection_failures : Z;
  total_messages_sent : Z;
  total_message_failures : Z;
  total_bytes_sent : Z;
  total_bytes_received : Z;
  current_active_connections : Z;
  peak_active_connections : Z;
  connection_state_counts : gmap ConnectionState Z;
  start_timestamp : Z;
}.

Definition metrics_new (now : Z) : GlobalTransportMetrics := mkMetrics 0 0 0 0 0 0 0 0 0 ∅ now.

Section Metrics.
Context {BM : Build}.

(** One more active connection. *)
Definition activate (g : GlobalTransportMetrics) : res string GlobalTransportMetrics :=
  let! n := chk_u 32 (current_active_connections g + 1) in
  Ok { g with current_active_connections := n; peak_active_connections := if peak_active_connections g <? n then n else peak_active_connections g }.

Definition global_connection_attempt (g : GlobalTransportMetrics) : res string GlobalTransportMetrics :=
  let! n := chk_u 64 (total_connection_attempts g + 1) in Ok { g with total_connection_attempts := n }.

Definition global_successful_connection (g : GlobalTransportMetrics) : res string GlobalTransportMetrics :=
  let! n := chk_u 64 (total_successful_connections g + 1) in activate { g with total_successful_connections := n }.

Definition global_connection_failure (g : GlobalTransportMetrics) : res string GlobalTransportMetrics :=
  let! n := chk_u 64 (total_connection_failures g + 1) in Ok { g with total_connection_failures := n }.

Definition global_message_success (g : GlobalTransportMetrics) (bytes : Z) : res string GlobalTransportMetrics :=
  let! n := chk_u 64 (total_messages_sent g + 1) in
  let! total := chk_u 64 (total_bytes_sent g + bytes) in
  Ok { g with total_messages_sent := n; total_bytes_sent := total }.

Definition global_message_failure (g : GlobalTransportMetrics) : res string GlobalTransportMetrics :=
  let! n := chk_u 64 (total_message_failures g + 1) in Ok { g with total_message_failures := n }.

Definition global_bytes_received (g : GlobalTransportMetrics) (bytes : Z) : res string GlobalTransportMetrics :=
  let! total := chk_u 64 (total_bytes_received g + bytes) in Ok { g with total_bytes_received := total }.

Definition record_connection_state_change (g : GlobalTransportMetrics) (state : ConnectionState) : res string GlobalTransportMetrics :=
  let! g := match state with
            | Connected => activate g
            | Disconnected | Failed =>
                if 0 <? current_active_connections g then Ok { g with current_active_connections := current_active_connections g - 1 } else Ok g
            | _ => Ok g
            end in
  let! n := chk_u 32 (default 0 (connection_state_counts g !! state) + 1) in
  Ok { g with connection_state_counts := <[state := n]> (connection_state_counts g) }.

Definition health_score (now : Z) (g : GlobalTransportMetrics) : res string f64 :=
  let! up := chk_u 64 (now - start_timestamp g) in
  let uptime_secs := up / 1000 in
  if uptime_secs =? 0 then Ok f64_one
  else
    let connection_success_rate := rate (total_successful_connections g) (total_connection_attempts g) in
    let! messages := chk_u 64 (total_messages_sent g + total_message_failures g) in
    let message_success_rate := rate (total_messages_sent g) messages in
    let connection_stability :=
      if 0 <? total_successful_connections g then
        let avg_duration := if 0 <? current_active_connections g then uptime_secs / current_active_connections g else 0 in
        f64_min (f64_div (f64_of avg_duration) (f64_of 60)) f64_one
      else f64_one in
    Ok (clamp f64_zero f64_one
          (f64_add (f64_add (f64_mul connection_success_rate (lit 3 10)) (f64_mul message_success_rate (lit 4 10))) (f64_mul connection_stability (lit 3 10)))).

Definition uptime_seconds (now : Z) (g : GlobalTransportMetrics) : res string Z :=
  let! up := chk_u 64 (now - start_timestamp g) in Ok (up / 1000).
End Metrics.

(** ** The monitor *)

Record TransportHealthMonitor (Cb : Type) : Type := mkMonitor {
  connection_stats : gmap string ConnectionStats;
  global_metrics : GlobalTransportMetrics;
  state_change_callbacks : list Cb;
}.

Arguments mkMonitor {Cb}.
Arguments connection_stats {Cb}.
Arguments global_metrics {Cb}.
Arguments state_change_callbacks {Cb}.

Section Monitor.
Context {Cb : Type} {BM : Build} {HS : HashIter string ConnectionStats}.

Definition monitor_new (now : Z) : TransportHealthMonitor Cb := mkMonitor ∅ (metrics_new now) [].

(** The new state and the calls made: which callback, with which peer and state. *)
Definition update_connection_state (now : Z) (m : TransportHealthMonitor Cb) (peer_id : string) (state : ConnectionState) :
  res string (TransportHealthMonitor Cb * list (Cb * string * ConnectionState)) :=
  let entry := default (stats_new now peer_id) (connection_stats m !! peer_id) in
  let calls := (fun callback => (callback, peer_id, state)) <$> state_change_callbacks m in
  let! g := record_connection_state_change (global_metrics m) state in
  Ok (mkMonitor (<[peer_id := update_state now entry state]> (connection_stats m)) g (state_change_callbacks m), calls).

(** [if let Some(entry) = stats.get_mut(&peer_id) { .. }]. *)
Definition on_entry (f : ConnectionStats -> res string ConnectionStats) (m : TransportHealthMonitor Cb) (peer_id : string) : res string (gmap string ConnectionStats) :=
  match connection_stats m !! peer_id with
  | Some entry => let! entry := f entry in Ok (<[peer_id := entry]> (connection_stats m))
  | None => Ok (connection_stats m)
  end.

Definition record_message_success (now : Z) (m : TransportHealthMonitor Cb) (peer_id : string) (bytes latency_ms : Z) : res string (TransportHealthMonitor Cb) :=
  let! stats := on_entry (fun s => stats_message_success now s bytes latency_ms) m peer_id in
  let! g := global_message_success (global_metrics m) bytes in Ok (mkMonitor stats g (state_change_callbacks m)).

Definition record_message_failure (now : Z) (m : TransportHealthMonitor Cb) (peer_id : string) : res string (TransportHealthMonitor Cb) :=
  let! stats := on_entry (stats_message_failure now) m peer_id in
  let! g := global_message_failure (global_metrics m) in Ok (mkMonitor stats g (state_change_callbacks m)).

Definition record_bytes_received (now : Z) (m : TransportHealthMonitor Cb) (peer_id : string) (bytes : Z) : res string (TransportHealthMonitor Cb) :=
  let! stats := on_entry (fun s => stats_bytes_received now s bytes) m peer_id in
  let! g := global_bytes_received (global_metrics m) bytes in Ok (mkMonitor stats g (state_change_callbacks m)).

Definition record_connection_attempt (now : Z) (m : TransportHealthMonitor Cb) (peer_id : string) : res string (TransportHealthMonitor Cb) :=
  let! entry := stats_connection_attempt now (default (stats_new now peer_id) (connection_stats m !! peer_id)) in
  let! g := global_connection_attempt (global_metrics m) in Ok (mkMonitor (<[peer_id := entry]> (connection_stats m)) g (state_change_callbacks m)).

Definition record_successful_connection (now : Z) (m : TransportHealthMonitor Cb) (peer_id : string) : res string (TransportHealthMonitor Cb) :=
  let! stats := on_entry (stats_successful_connection now) m peer_id in
  let! g := global_successful_connection (global_metrics m) in Ok (mkMonitor stats g (state_change_callbacks m)).

Definition record_connection_failure (now : Z) (m : TransportHealthMonitor Cb) (peer_id : string) : res string (TransportHealthMonitor Cb) :=
  let! stats := on_entry (stats_connection_failure now) m peer_id in
  let! g := global_connection_failure (global_metrics m) in Ok (mkMonitor stats g (state_change_callbacks m)).

Definition monitor_current_address (now : Z) (m : TransportHealthMonitor Cb) (peer_id : string) (a : Multiaddr) : TransportHealthMonitor Cb :=
  match connection_stats m !! peer_id with
  | Some entry => mkMonitor (<[peer_id := update_current_address now entry a]> (connection_stats m)) (global_metrics m) (state_change_callbacks m)
  | None => m
  end.

Definition get_connection_stats (m : TransportHealthMonitor Cb) (peer_id : string) : option ConnectionStats := connection_stats m !! peer_id.

Definition get_all_connection_stats (m : TransportHealthMonitor Cb) : gmap string ConnectionStats := connection_stats m.

Definition get_global_metrics (m : TransportHealthMonitor Cb) : GlobalTransportMetrics := global_metrics m.

(** The ids of the peers whose connection is healthy, or is not. *)
Definition connections_by_health (wanted : bool) (now : Z) (m : TransportHealthMonitor Cb) : res string (list string) :=
  rfold (fun acc ps => let! h := is_healthy now ps.2 in Ok (if Bool.eqb h wanted then acc ++ [ps.1] else acc)) [] (hm_iter (connection_stats m)).

Definition get_healthy_connections : Z -> TransportHealthMonitor Cb -> res string (list string) := connections_by_health true.

Definition get_unhealthy_connections : Z -> TransportHealthMonitor Cb -> res string (list string) := connections_by_health false.

Definition register_state_change_callback (m : TransportHealthMonitor Cb) (callback : Cb) : TransportHealthMonitor Cb :=
  mkMonitor (connection_stats m) (global_metrics m) (state_change_callbacks m ++ [callback]).

Definition cleanup_stale_connections (now : Z) (m : TransportHealthMonitor Cb) (max_age_secs : Z) : res string (TransportHealthMonitor Cb) :=
  let! age := chk_u 64 (max_age_secs * 1000) in
  let! cutoff_ms := chk_u 64 (now - age) in
  let stale_peers := (filter (fun ps => last_activity ps.2 < cutoff_ms) (hm_iter (connection_stats m))).*1 in
  Ok (mkMonitor (foldl (fun stats p => delete p stats) (connection_stats m) stale_peers) (global_metrics m) (state_change_callbacks m)).

(** ** Capability and reports *)

Definition can_forward_for_wasm (m : TransportHealthMonitor Cb) : bool :=
  let metrics := get_global_metrics m in (0 <? current_active_connections metrics) || (0 <? total_messages_sent metrics).
End Monitor.

Record PeerConnectionSummary : Type := mkSummary {
  pc_peer_id : string; pc_state : string; pc_messages_sent : Z; pc_messages_failed : Z; pc_avg_latency_ms : Z; pc_last_activity_ms : Z;
}.

Record RoutingDecisionSnapshot : Type := mkSnapshot {
  message_id_hex : string; recipient_hint_hex : string; decided_by : string; confidence : f64; primary_hop : string; alternative_count : Z; timestamp_ms : Z;
}.

Record NetworkDiagnosticsReport : Type := mkReport {
  connected_peer_count : Z;
  nd_total_messages_sent : Z;
  nd_total_messages_failed : Z;
  nd_avg_latency_ms : Z;
  active_connections : Z;
  connection_summary : list PeerConnectionSummary;
  generated_at_ms : Z;
  recent_routing_decisions : list RoutingDecisionSnapshot;
}.

Record ExtendedNetworkDiagnostics : Type := mkExtended {
  base_report : NetworkDiagnosticsReport;
  healthy_peer_count : Z;
  unhealthy_peer_count : Z;
  healthy_peer_ids : list string;
  unhealthy_peer_ids : list string;
}.

Definition summary_of (s : ConnectionStats) : PeerConnectionSummary :=
  mkSummary (cs_peer_id s) (state_text (cs_state s)) (messages_sent s) (message_failures s) (avg_latency_ms s) (last_activity s).

Record RoutingTelemetry : Type := mkTelemetry { ring : list RoutingDecisionSnapshot; capacity : Z }.

Definition telemetry_new : RoutingTelemetry := mkTelemetry [] 256.

(** [debug_layer] and [debug_hop] are the derived [Debug] texts. *)
Definition telemetry_record {IL : IdLib} (debug_layer : RoutingLayer -> string) (debug_hop : NextHop -> string) (now : Z) (t : RoutingTelemetry) (d : RoutingDecision) : RoutingTelemetry :=
  let snapshot := mkSnapshot (hex_encode (d_message_id d)) (hex_encode (d_recipient_hint d)) (debug_layer (d_decided_by d)) (d_confidence d)
                    (debug_hop (d_primary d)) (zlen (d_alternatives d)) now in
  mkTelemetry ((if capacity t <=? zlen (ring t) then tail (ring t) else ring t) ++ [snapshot]) (capacity t).

Definition telemetry_entries (t : RoutingTelemetry) : list RoutingDecisionSnapshot := ring t.

Section Reports.
Context {Cb : Type} {BM : Build} {HS : HashIter string ConnectionStats}.

Definition compute_avg_latency (peers : gmap string ConnectionStats) : res string Z :=
  let latencies := filter (fun l => 0 < l) (avg_latency_ms <$> filter (fun s => cs_state s = Connected) (hm_iter peers).*2) in
  if bool_decide (latencies = []) then Ok 0
  else let! sum := rfold (fun acc l => chk_u 64 (acc + l)) 0 latencies in Ok (sum / zlen latencies).

Definition get_network_diagnostics_report (now : Z) (m : TransportHealthMonitor Cb) : res string NetworkDiagnosticsReport :=
  let metrics := get_global_metrics m in
  let peers := get_all_connection_stats m in
  let! avg := compute_avg_latency peers in
  Ok (mkReport (zlen (filter (fun s => cs_state s = Connected) (hm_iter peers).*2)) (total_messages_sent metrics) (total_message_failures metrics) avg
        (current_active_connections metrics) (summary_of <$> (hm_iter peers).*2) now []).

Definition report_with_telemetry (now : Z) (m : TransportHealthMonitor Cb) (t : RoutingTelemetry) : res string NetworkDiagnosticsReport :=
  let! report := get_network_diagnostics_report now m in Ok { report with recent_routing_decisions := telemetry_entries t }.

Definition get_extended_network_diagnostics (now : Z) (m : TransportHealthMonitor Cb) : res string ExtendedNetworkDiagnostics :=
  let! base := get_network_diagnostics_report now m in
  let! healthy := get_healthy_connections now m in
  let! unhealthy := get_unhealthy_connections now m in
  Ok (mkExtended base (zlen healthy) (zlen unhealthy) healthy unhealthy).
End Reports.

(** ** Scores *)

Lemma f64_mul_nonneg x y : f64_le f64_zero x -> f64_le f64_zero y -> f64_le f64_zero (f64_mul x y).
Proof.
  rewrite !f64_le_iff, !key_cmp_Lt. intros Hx Hy. destruct x as [s|[]| |[]], y as [t|[]| |[]]; cbn in Hx, Hy; try (exfalso; naive_solver lia); try (cbn; naive_solver lia).
  rewrite <-key_cmp_Lt, <-f64_le_iff. apply round_aux_nonneg.
Qed.

Lemma f64_add_nonneg_number x y : is_nan x = false -> is_nan y = false -> f64_le f64_zero x -> f64_le f64_zero y -> is_nan (f64_add x y) = false.
Proof.
  rewrite !f64_le_iff, !key_cmp_Lt. intros Hnx Hny Hx Hy. destruct x as [[]|[]| |], y as [[]|[]| |]; cbn in Hx, Hy; try done; try (exfalso; naive_solver lia).
  apply normalize_number.
Qed.

Lemma f64_add_nonneg x y : is_nan x = false -> is_nan y = false -> f64_le f64_zero x -> f64_le f64_zero y -> f64_le f64_zero (f64_add x y).
Proof.
  rewrite !f64_le_iff, !key_cmp_Lt. intros Hnx Hny Hx Hy. destruct x as [[]|[]| |[]], y as [[]|[]| |[]]; cbn in Hx, Hy; try done; try (exfalso; naive_solver lia); try (cbn; naive_solver lia).
  rewrite <-key_cmp_Lt, <-f64_le_iff. unfold f64_add, SFadd. cbn [cond_Zopp].
  match goal with |- f64_le _ (binary_normalize _ _ ?z _ _) => assert (0 < z) as Hz by lia; revert Hz; generalize z end.
  intros [|w|w] Hz; try lia.
  unfold binary_normalize, binary_round. destruct (shl_align _ _ _). apply round_aux_nonneg.
Qed.

(** A number that is not negative. *)
Definition amount (x : f64) : Prop := is_nan x = false /\ f64_le f64_zero x.

Lemma rate_amount a b : 0 <= a < 2 ^ 64 -> 0 <= b -> amount (rate a b).
Proof.
  intros Ha Hb. unfold rate. destruct (Z.ltb_spec 0 b); [|by split; vm_compute]. assert (forall s, f64_of b <> S754_zero s) as Hz by (intros s; by apply f64_of_pos).
  assert (finite (f64_of a) = true) as Hf by (eapply mag_finite, (f64_of_mag a 64); lia). split; [apply f64_div_number; [done|apply f64_of_number|done]|].
  destruct (decide (a = 0)) as [->|Hne].
  - change (f64_of 0) with f64_zero. destruct (f64_of_pos b false) as [Hpos _]; [done|]. revert Hz Hpos. generalize (f64_of b). intros y Hz Hpos.
    rewrite f64_le_iff, key_cmp_Lt in Hpos. destruct y as [s|[]| |[]]; [by destruct (Hz s)|cbn in Hpos; naive_solver lia|..]; try by vm_compute.
  - apply f64_div_nonneg; [by apply (f64_of_pos a false); lia|by apply (f64_of_pos b false)|intros s; apply f64_of_pos; lia|done].
Qed.

(** A weighted sum of three amounts is an amount. *)
Lemma weigh_amount x y z a b c : amount x -> amount y -> amount z -> a ∈ [lit 2 10; lit 3 10; lit 4 10] -> b ∈ [lit 2 10; lit 3 10; lit 4 10] -> c ∈ [lit 2 10; lit 3 10; lit 4 10] ->
  amount (f64_add (f64_add (f64_mul x a) (f64_mul y b)) (f64_mul z c)).
Proof.
  intros Hx Hy Hz Ha Hb Hc.
  assert (forall v w, amount v -> w ∈ [lit 2 10; lit 3 10; lit 4 10] -> amount (f64_mul v w)) as Hmul.
  { intros v w [Hn Hv] Hw. split.
    - apply f64_mul_number_r; [done|..]; rewrite !elem_of_cons, elem_of_nil in Hw; destruct Hw as [->|[->|[->|[]]]]; done.
    - apply f64_mul_nonneg; [done|]. rewrite !elem_of_cons, elem_of_nil in Hw. destruct Hw as [->|[->|[->|[]]]]; by vm_compute. }
  assert (forall v w, amount v -> amount w -> amount (f64_add v w)) as Hadd.
  { intros v w [? ?] [? ?]. split; [by apply f64_add_nonneg_number|by apply f64_add_nonneg]. }
  auto.
Qed.

Lemma clamp_unit x : is_nan x = false -> f64_le f64_zero (clamp f64_zero f64_one x) /\ f64_le (clamp f64_zero f64_one x) f64_one.
Proof. intros Hx. destruct (clamp_range f64_zero f64_one x) as (_ & ? & ?); done. Qed.

Record stats_ok (s : ConnectionStats) : Prop := {
  so_sent : 0 <= messages_sent s < 2 ^ 64;
  so_failed : 0 <= message_failures s < 2 ^ 64;
  so_attempts : 0 <= connection_attempts s < 2 ^ 32;
  so_successes : 0 <= successful_connections s < 2 ^ 32;
  so_known : NoDup (known_addresses s);
  so_current : forall a, current_address s = Some a -> a ∈ known_addresses s;
}.

Record metrics_ok (g : GlobalTransportMetrics) : Prop := {
  mo_attempts : 0 <= total_connection_attempts g < 2 ^ 64;
  mo_successes : 0 <= total_successful_connections g < 2 ^ 64;
  mo_sent : 0 <= total_messages_sent g < 2 ^ 64;
  mo_failed : 0 <= total_message_failures g < 2 ^ 64;
  mo_active : 0 <= current_active_connections g <= peak_active_connections g;
  mo_peak : peak_active_connections g < 2 ^ 32;
}.

Section Ranges.
Context {BM : Build}.

Lemma quality_range now s : stats_ok s -> last_activity s <= now < 2 ^ 64 -> 0 <= last_activity s -> messages_sent s + message_failures s < 2 ^ 64 ->
  exists q, quality_score now s = Ok q /\ f64_le f64_zero q /\ f64_le q f64_one.
Proof.
  intros Hs Hnow Hact Hsum. destruct Hs. unfold quality_score. rewrite !chk_u_ok by (unfold in_u; lia). cbn [rbind]. eexists. split; [done|]. apply clamp_unit.
  apply weigh_amount; [apply rate_amount; lia|apply rate_amount; lia| |set_solver..]. unfold age_factor. repeat case_match; by split; vm_compute.
Qed.

Lemma health_range now g : metrics_ok g -> start_timestamp g <= now < 2 ^ 64 -> 0 <= start_timestamp g -> total_messages_sent g + total_message_failures g < 2 ^ 64 ->
  exists q, health_score now g = Ok q /\ f64_le f64_zero q /\ f64_le q f64_one.
Proof.
  intros Hg Hnow Hst Hsum. destruct Hg. unfold health_score. rewrite !chk_u_ok by (unfold in_u; lia). cbn [rbind].
  destruct ((now - start_timestamp g) / 1000 =? 0) eqn:Hup; [exists f64_one; split; [done|]; split; by vm_compute|].
  eexists. split; [done|]. apply clamp_unit. apply weigh_amount; [apply rate_amount; lia|apply rate_amount; lia| |set_solver..].
  case_match; [|by split; vm_compute]. set (d := if 0 <? _ then _ else 0).
  assert (0 <= d < 2 ^ 64) as Hd.
  { unfold d. destruct (Z.ltb_spec 0 (current_active_connections g)); [|lia]. assert (0 <= (now - start_timestamp g) / 1000 < 2 ^ 64).
    { split; [apply Z.div_pos; lia|]. apply Z.div_lt_upper_bound; lia. }
    split; [apply Z.div_pos; lia|]. apply Z.div_lt_upper_bound; [done|]. nia. }
  pose proof (rate_amount d 60 Hd ltac:(lia)) as [Hn Hz]. change (rate d 60) with (f64_div (f64_of d) (f64_of 60)) in Hn, Hz.
  destruct (f64_min_range (f64_div (f64_of d) (f64_of 60)) f64_one Hn) as (Hm & _ & [-> | ->]); [done|by split|by split; vm_compute].
Qed.
End Ranges.

(** ** Runs of the monitor *)

Inductive MonitorOp (Cb : Type) : Type :=
| StateOp (p : string) (state : ConnectionState)
| MessageOp (p : string) (bytes latency_ms : Z)
| MessageFailedOp (p : string)
| ReceivedOp (p : string) (bytes : Z)
| AttemptOp (p : string)
| SuccessOp (p : string)
| FailureOp (p : string)
| AddressOp (p : string) (a : Multiaddr)
| CallbackOp (callback : Cb)
| CleanupOp (max_age_secs : Z).

Arguments StateOp {Cb}.
Arguments MessageOp {Cb}.
Arguments MessageFailedOp {Cb}.
Arguments ReceivedOp {Cb}.
Arguments AttemptOp {Cb}.
Arguments SuccessOp {Cb}.
Arguments FailureOp {Cb}.
Arguments AddressOp {Cb}.
Arguments CallbackOp {Cb}.
Arguments CleanupOp {Cb}.

Record monitor_ok {Cb} (m : TransportHealthMonitor Cb) : Prop := {
  mon_stats : map_Forall (fun p s => cs_peer_id s = p /\ stats_ok s) (connection_stats m);
  mon_metrics : metrics_ok (global_metrics m);
}.

Section Runs.
Context {Cb : Type} {BM : Build} {HS : HashIter string ConnectionStats}.
Implicit Types m : TransportHealthMonitor Cb.

Definition monitor_step m (nop : Z * MonitorOp Cb) : res string (TransportHealthMonitor Cb) :=
  let now := nop.1 in
  match nop.2 with
  | StateOp p state => let! r := update_connection_state now m p state in Ok r.1
  | MessageOp p bytes latency => record_message_success now m p bytes latency
  | MessageFailedOp p => record_message_failure now m p
  | ReceivedOp p bytes => record_bytes_received now m p bytes
  | AttemptOp p => record_connection_attempt now m p
  | SuccessOp p => record_successful_connection now m p
  | FailureOp p => record_connection_failure now m p
  | AddressOp p a => Ok (monitor_current_address now m p a)
  | CallbackOp callback => Ok (register_state_change_callback m callback)
  | CleanupOp max => cleanup_stale_connections now m max
  end.

Lemma stats_new_ok now p : stats_ok (stats_new now p).
Proof. split; cbn; try lia; [constructor|done]. Qed.

Lemma entry_or_new_ok now m p : monitor_ok m -> let e := default (stats_new now p) (connection_stats m !! p) in cs_peer_id e = p /\ stats_ok e.
Proof. intros [Hs _]. destruct (connection_stats m !! p) as [s|] eqn:Hp; cbn; [by apply (Hs p)|]. split; [done|apply stats_new_ok]. Qed.

(** Updates that keep the statistics of a peer in order. *)
Definition keeps (f : ConnectionStats -> res string ConnectionStats) : Prop := forall s s', f s = Ok s' -> stats_ok s -> cs_peer_id s' = cs_peer_id s /\ stats_ok s'.

Ltac keep := intros s s'; cbv beta delta [stats_message_success stats_message_failure stats_bytes_received stats_connection_attempt stats_successful_connection stats_connection_failure];
  intros (n & Hn & H)%rbind_ok_inv [Hs1 Hs2 Hs3 Hs4 Hs5 Hs6];
  repeat (apply rbind_ok_inv in H as (? & ? & H)); injection H as <-; apply chk_u_range in Hn; [|lia]; unfold in_u in Hn; split; [done|]; split; cbn; unfold constant; done || lia.

Lemma message_success_keeps now b l : keeps (fun s => stats_message_success now s b l).
Proof. keep. Qed.
Lemma message_failure_keeps now : keeps (stats_message_failure now).
Proof. keep. Qed.
Lemma bytes_received_keeps now b : keeps (fun s => stats_bytes_received now s b).
Proof. keep. Qed.
Lemma connection_attempt_keeps now : keeps (stats_connection_attempt now).
Proof. keep. Qed.
Lemma successful_connection_keeps now : keeps (stats_successful_connection now).
Proof. keep. Qed.
Lemma connection_failure_keeps now : keeps (stats_connection_failure now).
Proof. keep. Qed.

Lemma on_entry_ok f m p stats : keeps f -> monitor_ok m -> on_entry f m p = Ok stats -> map_Forall (fun p s => cs_peer_id s = p /\ stats_ok s) stats.
Proof.
  intros Hf [Hs _]. unfold on_entry. destruct (connection_stats m !! p) as [s|] eqn:Hp; [|by intros [= <-]]. intros (s' & Hs' & [= <-])%rbind_ok_inv.
  destruct (Hs p s Hp) as [Hid Hok]. destruct (Hf s s' Hs' Hok) as [Hid' Hok']. apply map_Forall_insert_2; [|done]. by rewrite Hid'.
Qed.

Definition keeps_metrics (f : GlobalTransportMetrics -> res string GlobalTransportMetrics) : Prop := forall g g', f g = Ok g' -> metrics_ok g -> metrics_ok g'.

Lemma activate_keeps : keeps_metrics activate.
Proof.
  intros g g' (n & Hn & [= <-])%rbind_ok_inv []. apply chk_u_range in Hn; [|lia]. unfold in_u in Hn. split; cbn; unfold constant; try done; destruct (Z.ltb_spec (peak_active_connections g) n); lia.
Qed.

Ltac keep_metrics := intros g g'; cbv beta delta [global_connection_attempt global_connection_failure global_message_success global_message_failure global_bytes_received];
  intros (n & Hn & H)%rbind_ok_inv []; repeat (apply rbind_ok_inv in H as (? & ? & H)); injection H as <-; apply chk_u_range in Hn; [|lia]; unfold in_u in Hn; split; cbn; unfold constant; done || lia.

Lemma global_attempt_keeps : keeps_metrics global_connection_attempt.
Proof. keep_metrics. Qed.
Lemma global_failure_keeps : keeps_metrics global_connection_failure.
Proof. keep_metrics. Qed.
Lemma global_message_keeps b : keeps_metrics (fun g => global_message_success g b).
Proof. keep_metrics. Qed.
Lemma global_message_failure_keeps : keeps_metrics global_message_failure.
Proof. keep_metrics. Qed.
Lemma global_received_keeps b : keeps_metrics (fun g => global_bytes_received g b).
Proof. keep_metrics. Qed.
Lemma global_successful_keeps : keeps_metrics global_successful_connection.
Proof.
  intros g g' (n & Hn & H)%rbind_ok_inv []. apply chk_u_range in Hn; [|lia]. unfold in_u in Hn. eapply activate_keeps; [exact H|]. by split.
Qed.
Lemma state_change_keeps state : keeps_metrics (fun g => record_connection_state_change g state).
Proof.
  intros g g' (g1 & Hg1 & (n & Hn & [= <-])%rbind_ok_inv)%rbind_ok_inv Hok. assert (metrics_ok g1) as []; [|by split].
  destruct state; try (by injection Hg1 as <-); [by eapply activate_keeps| |]; destruct (Z.ltb_spec 0 (current_active_connections g)); injection Hg1 as <-; try done; clear Hn; destruct Hok, g; split; cbn in *; unfold constant; done || lia.
Qed.

Lemma delete_all_sub (l : list string) (m : gmap string ConnectionStats) : foldl (fun (m : gmap string ConnectionStats) p => delete p m) m l ⊆ m.
Proof. revert m. induction l as [|p l IH]; intros m; [done|]. cbn. etrans; [apply IH|apply delete_subseteq]. Qed.

Lemma monitor_step_ok m nop m' : monitor_step m nop = Ok m' -> monitor_ok m -> monitor_ok m'.
Proof.
  destruct nop as [now op]. intros Hstep Hm. pose proof Hm as [Hs Hg]. destruct op as [p state|p b l|p|p b|p|p|p|p a|cb|max]; cbn [monitor_step fst snd] in Hstep.
  - apply rbind_ok_inv in Hstep as ([m1 calls] & (g & Hrec & [= <- <-])%rbind_ok_inv & [= <-]). split; cbn; [|by eapply (state_change_keeps state)].
    destruct (entry_or_new_ok now m p Hm) as [Hid []]. apply map_Forall_insert_2; [|done]. split; [done|]. by split.
  - apply rbind_ok_inv in Hstep as (st & Hst & (g & Hrec & [= <-])%rbind_ok_inv). split; cbn; [eapply on_entry_ok; [apply message_success_keeps|done..]|by eapply (global_message_keeps b)].
  - apply rbind_ok_inv in Hstep as (st & Hst & (g & Hrec & [= <-])%rbind_ok_inv). split; cbn; [eapply on_entry_ok; [apply message_failure_keeps|done..]|by eapply global_message_failure_keeps].
  - apply rbind_ok_inv in Hstep as (st & Hst & (g & Hrec & [= <-])%rbind_ok_inv). split; cbn; [eapply on_entry_ok; [apply bytes_received_keeps|done..]|by eapply (global_received_keeps b)].
  - apply rbind_ok_inv in Hstep as (st & Hst & (g & Hrec & [= <-])%rbind_ok_inv). split; cbn; [|by eapply global_attempt_keeps].
    destruct (entry_or_new_ok now m p Hm) as [Hid Hok]. apply map_Forall_insert_2; [|done]. destruct (connection_attempt_keeps now _ _ Hst Hok) as [-> ?]. done.
  - apply rbind_ok_inv in Hstep as (st & Hst & (g & Hrec & [= <-])%rbind_ok_inv). split; cbn; [eapply on_entry_ok; [apply successful_connection_keeps|done..]|by eapply global_successful_keeps].
  - apply rbind_ok_inv in Hstep as (st & Hst & (g & Hrec & [= <-])%rbind_ok_inv). split; cbn; [eapply on_entry_ok; [apply connection_failure_keeps|done..]|by eapply global_failure_keeps].
  - injection Hstep as <-. unfold monitor_current_address. destruct (connection_stats m !! p) as [s|] eqn:Hp; [|done]. split; cbn; [|done]. destruct (Hs p s Hp) as [Hid []].
    apply map_Forall_insert_2; [|done]. split; [done|]. split; cbn; try done; case_bool_decide as Ha; try done.
    + apply NoDup_app. split_and!; [done| |apply NoDup_singleton]. by intros x Hx ->%list_elem_of_singleton.
    + by intros x [= <-].
    + intros x [= <-]. apply elem_of_app. right. by apply list_elem_of_singleton.
  - injection Hstep as <-. by split.
  - apply rbind_ok_inv in Hstep as (age & _ & (cutoff & _ & [= <-])%rbind_ok_inv). split; cbn; [|done]. intros p s Hp. apply Hs. eapply lookup_weaken; [exact Hp|apply delete_all_sub].
Qed.

Lemma monitor_run_ok start (ops : list (Z * MonitorOp Cb)) m : rfold monitor_step (monitor_new start) ops = Ok m -> monitor_ok m.
Proof.
  assert (monitor_ok (monitor_new start : TransportHealthMonitor Cb)) as Hnew by (split; [apply map_Forall_empty|split; cbn; lia]). revert Hnew. generalize (monitor_new start : TransportHealthMonitor Cb).
  induction ops as [|op ops IH]; intros m0 Hm0; cbn [rfold]; [by intros [= <-]|]. intros (m1 & Hstep & Hrun)%rbind_ok_inv. eapply IH; [|exact Hrun]. by eapply monitor_step_ok.
Qed.

(** The statistics stay in order: each peer's are under its own id, with its current address among the
    known ones and each of those once; no more connections are active than ever were. *)
Theorem monitor_invariant start (ops : list (Z * MonitorOp Cb)) m : rfold monitor_step (monitor_new start) ops = Ok m -> monitor_ok m.
Proof. apply monitor_run_ok. Qed.

(** What a connection that is made and closed reports, in the order of the documented life cycle. *)
Definition lifecycle (now : Z) (p : string) : list (Z * MonitorOp Cb) :=
  [(now, AttemptOp p); (now, StateOp p Connected); (now, SuccessOp p); (now, StateOp p Disconnected)].

(** After [k] such connections, all of them closed. *)
Record closed (k : Z) m : Prop := {
  closed_stats : map_Forall (fun _ s => cs_state s = Disconnected /\ 0 <= connection_attempts s <= k /\ 0 <= successful_connections s <= k) (connection_stats m);
  closed_counts : map_Forall (fun _ n => 0 <= n <= k) (connection_state_counts (global_metrics m));
  closed_attempts : 0 <= total_connection_attempts (global_metrics m) <= k;
  closed_successes : 0 <= total_successful_connections (global_metrics m) <= k;
  closed_active : current_active_connections (global_metrics m) = k;
}.

Lemma default_le (counts : gmap ConnectionState Z) k s : 0 <= k -> map_Forall (fun _ n => 0 <= n <= k) counts -> 0 <= default 0 (counts !! s) <= k.
Proof. intros Hk Hc. destruct (counts !! s) as [n|] eqn:Hn; cbn; [by apply (Hc s)|lia]. Qed.

Lemma lifecycle_run now p k m : 0 <= k -> k + 2 < 2 ^ 32 -> closed k m -> exists m', rfold monitor_step m (lifecycle now p) = Ok m' /\ closed (k + 1) m'.
Proof.
  intros Hk Hb [Hs Hc Ha Hsu Hact]. destruct m as [st [ga gs gf gm gmf gbs gbr gact gpk gcnt gst] cbs]. cbn in Hs, Hc, Ha, Hsu, Hact.
  assert (exists e, default (stats_new now p) (st !! p) = e /\ 0 <= connection_attempts e <= k /\ 0 <= successful_connections e <= k) as (e & He & Hea & Hes).
  { destruct (st !! p) as [e|] eqn:Hp; [exists e; split; [done|]; by apply (Hs p)|]. eexists. split; [done|]. cbn. lia. }
  pose proof (default_le gcnt k Connected Hk Hc) as Hcc. pose proof (default_le gcnt k Disconnected Hk Hc) as Hcd.
  destruct e as [ei est ed em emf ebs ebr el ela ea es ef eca eka]. cbn in Hea, Hes.
  set (e1 := mkStats ei est ed em emf ebs ebr el now (ea + 1) es ef eca eka). set (e2 := mkStats ei Connected ed em emf ebs ebr el now (ea + 1) es ef eca eka).
  set (e3 := mkStats ei Connected ed em emf ebs ebr el now (ea + 1) (es + 1) ef eca eka). set (e4 := mkStats ei Disconnected ed em emf ebs ebr el now (ea + 1) (es + 1) ef eca eka).
  set (pk1 := if gpk <? gact + 1 then gact + 1 else gpk). set (pk2 := if pk1 <? gact + 1 + 1 then gact + 1 + 1 else pk1).
  set (cnt1 := <[Connected := default 0 (gcnt !! Connected) + 1]> gcnt). set (cnt2 := <[Disconnected := default 0 (gcnt !! Disconnected) + 1]> cnt1).
  set (m1 := mkMonitor (<[p := e1]> st) (mkMetrics (ga + 1) gs gf gm gmf gbs gbr gact gpk gcnt gst) cbs).
  set (m2 := mkMonitor (<[p := e2]> st) (mkMetrics (ga + 1) gs gf gm gmf gbs gbr (gact + 1) pk1 cnt1 gst) cbs).
  set (m3 := mkMonitor (<[p := e3]> st) (mkMetrics (ga + 1) (gs + 1) gf gm gmf gbs gbr (gact + 1 + 1) pk2 cnt1 gst) cbs).
  set (m4 := mkMonitor (<[p := e4]> st) (mkMetrics (ga + 1) (gs + 1) gf gm gmf gbs gbr (gact + 1 + 1 - 1) pk2 cnt2 gst) cbs).
  assert (monitor_step (mkMonitor st (mkMetrics ga gs gf gm gmf gbs gbr gact gpk gcnt gst) cbs) (now, AttemptOp p) = Ok m1) as H1.
  { cbn. unfold record_connection_attempt. cbn [connection_stats]. rewrite He. cbn. unfold stats_connection_attempt, global_connection_attempt. cbn. by rewrite !chk_u_ok by (unfold in_u; lia). }
  assert (monitor_step m1 (now, StateOp p Connected) = Ok m2) as H2.
  { cbn. unfold update_connection_state, record_connection_state_change, activate. unfold m1. cbn [connection_stats global_metrics current_active_connections]. rewrite lookup_insert_eq.
    rewrite chk_u_ok by (unfold in_u; lia). cbn. unfold constant.
    rewrite chk_u_ok by (unfold in_u; lia). cbn. by rewrite insert_insert_eq. }
  assert (monitor_step m2 (now, SuccessOp p) = Ok m3) as H3.
  { cbn. unfold record_successful_connection, on_entry. unfold m2. cbn [connection_stats]. rewrite lookup_insert_eq. unfold stats_successful_connection, global_successful_connection, activate. cbn.
    rewrite !chk_u_ok by (unfold in_u; lia). cbn. unfold constant. by rewrite insert_insert_eq. }
  assert (monitor_step m3 (now, StateOp p Disconnected) = Ok m4) as H4.
  { cbn. unfold update_connection_state, record_connection_state_change. unfold m3. cbn [connection_stats global_metrics current_active_connections]. rewrite lookup_insert_eq.
    rewrite (proj2 (Z.ltb_lt 0 (gact + 1 + 1))) by lia. cbn. unfold constant, cnt1. rewrite lookup_insert_ne by done. rewrite chk_u_ok by (unfold in_u; lia). cbn. by rewrite insert_insert_eq. }
  exists m4. cbn [lifecycle rfold]. rewrite H1. cbn [rbind]. rewrite H2. cbn [rbind]. rewrite H3. cbn [rbind]. rewrite H4. split; [done|]. split; cbn; try lia.
  - apply map_Forall_insert_2; [cbn; split; [done|lia]|]. intros q s Hq. destruct (Hs q s Hq) as (? & ? & ?). split; [done|lia].
  - apply map_Forall_insert_2; [lia|]. apply map_Forall_insert_2; [lia|]. intros q n Hq. specialize (Hc q n Hq). cbn in Hc. lia.
Qed.

(** A connection counts twice.  When a connection is reported as the life cycle of the monitor's own
    test does it, by its state and as a success, it is added twice to the active connections and
    removed once: after any number of connections that were all closed again, as many are still
    counted as active, and the node still offers to forward for thin clients. *)
Theorem connections_counted_twice start now peers : zlen peers + 2 < 2 ^ 32 ->
  exists m, rfold monitor_step (monitor_new start) (peers ≫= lifecycle now) = Ok m /\
    map_Forall (fun _ s => cs_state s = Disconnected) (connection_stats m) /\
    current_active_connections (global_metrics m) = zlen peers /\ (peers <> [] -> can_forward_for_wasm m = true).
Proof.
  intros Hlen. assert (forall k m, 0 <= k -> k + zlen peers + 2 < 2 ^ 32 -> closed k m -> exists m', rfold monitor_step m (peers ≫= lifecycle now) = Ok m' /\ closed (k + zlen peers) m') as Hrun.
  { clear Hlen. induction peers as [|p peers IH]; intros k m Hk Hb Hm; [exists m; split; [done|]; by rewrite Z.add_0_r|].
    rewrite zlen_cons in Hb |- *. pose proof (zlen_nonneg peers). change ((p :: peers) ≫= lifecycle now) with (lifecycle now p ++ (peers ≫= lifecycle now)). rewrite rfold_app.
    destruct (lifecycle_run now p k m) as (m1 & -> & Hm1); [lia..|done|]. cbn [rbind]. destruct (IH (k + 1) m1) as (m' & Hrun & Hm'); [lia..|done|].
    exists m'. split; [done|]. by replace (k + (1 + zlen peers)) with (k + 1 + zlen peers) by lia. }
  destruct (Hrun 0 (monitor_new start)) as (m & Hm & Hc); [lia..| |].
  - split; cbn; try lia; apply map_Forall_empty.
  - exists m. destruct Hc as [Hs _ _ _ Hact]. split_and!; [done| |lia|].
    + intros p s Hp. by apply (Hs p).
    + intros Hne. unfold can_forward_for_wasm, get_global_metrics. rewrite Hact. destruct peers as [|p peers]; [done|]. rewrite zlen_cons. pose proof (zlen_nonneg peers).
      by rewrite (proj2 (Z.ltb_lt 0 _)) by lia.
Qed.
End Runs.

Section Views.
Context {Cb : Type} {BM : Build} {HS : HashIter string ConnectionStats}.
Implicit Types m : TransportHealthMonitor Cb.

(** [is_healthy] where the clock has not run backwards. *)
Definition healthy_at (now : Z) (s : ConnectionStats) : bool :=
  bool_decide (cs_state s = Connected) && (now - last_activity s <? 30000) && (0 <? successful_connections s) &&
  ((connection_attempts s =? 0) || SFltb (lit 7 10) (f64_div (f64_of (successful_connections s)) (f64_of (connection_attempts s)))).

Lemma is_healthy_at now s : 0 <= last_activity s <= now -> now < 2 ^ 64 -> is_healthy now s = Ok (healthy_at now s).
Proof. intros. unfold is_healthy. by rewrite chk_u_ok by (unfold in_u; lia). Qed.

Lemma by_health_run wanted now (l : list (string * ConnectionStats)) acc : Forall (fun ps => 0 <= last_activity ps.2 <= now) l -> now < 2 ^ 64 ->
  rfold (fun acc ps => let! b := is_healthy now ps.2 in Ok (if Bool.eqb b wanted then acc ++ [ps.1] else acc)) acc l =
  Ok (acc ++ (filter (fun ps => healthy_at now ps.2 = wanted) l).*1).
Proof.
  intros Hl Hnow. revert acc. induction Hl as [|[p s] l Hs Hl IH]; intros acc; cbn [rfold]; [by rewrite app_nil_r|]. cbn [snd fst] in *.
  rewrite is_healthy_at by done. cbn [rbind]. rewrite IH. f_equal. rewrite filter_cons. cbn [snd]. destruct (decide (healthy_at now s = wanted)) as [Hw|Hw].
  - rewrite Hw, eqb_reflx. cbn. by rewrite <-app_assoc.
  - by rewrite (proj2 (Bool.eqb_false_iff _ _)).
Qed.

(** Every tracked peer is reported either as healthy or as unhealthy, and once; a healthy one is
    connected, was active within thirty seconds and has connected before. *)
Theorem health_partition now m : map_Forall (fun _ s => 0 <= last_activity s <= now) (connection_stats m) -> now < 2 ^ 64 ->
  exists healthy unhealthy, get_healthy_connections now m = Ok healthy /\ get_unhealthy_connections now m = Ok unhealthy /\
    healthy ++ unhealthy ≡ₚ (map_to_list (connection_stats m)).*1 /\
    forall p, p ∈ healthy -> exists s, connection_stats m !! p = Some s /\ cs_state s = Connected /\ now - last_activity s < 30000 /\ 0 < successful_connections s.
Proof.
  intros Hact Hnow. assert (Forall (fun ps => 0 <= last_activity ps.2 <= now) (hm_iter (connection_stats m))) as Hl.
  { rewrite hm_iter_perm. apply map_Forall_to_list in Hact. eapply Forall_impl; [exact Hact|]. by intros [p s]. }
  eexists _, _. split; [by apply by_health_run|]. split; [by apply by_health_run|]. cbn [app]. split.
  - rewrite <-hm_iter_perm, <-fmap_app. apply fmap_Permutation. induction Hl as [|[p s] l Hs Hl IH]; [done|]. rewrite !filter_cons. cbn [snd] in *.
    destruct (healthy_at now s); cbn; [by apply Permutation_skip|]. rewrite <-IH. symmetry. apply Permutation_middle.
  - intros p ([p' s] & -> & [Hw Hin%elem_of_hm_iter]%list_elem_of_filter)%list_elem_of_fmap. cbn [fst snd] in *. exists s. split; [done|].
    apply andb_prop in Hw as [[[->%bool_decide_eq_true ?%Z.ltb_lt]%andb_prop ?%Z.ltb_lt]%andb_prop _]. done.
Qed.

Lemma delete_listed (l : list string) (st : gmap string ConnectionStats) p :
  foldl (fun (st : gmap string ConnectionStats) p => delete p st) st l !! p = if bool_decide (p ∈ l) then None else st !! p.
Proof.
  revert st. induction l as [|q l IH]; intros st; [by rewrite bool_decide_false by apply not_elem_of_nil|]. cbn. rewrite IH. destruct (decide (p ∈ l)).
  - by rewrite !bool_decide_true by (try apply elem_of_cons; auto).
  - rewrite bool_decide_false by done. destruct (decide (p = q)) as [->|Hne]; [rewrite bool_decide_true by left; apply lookup_delete_eq|].
    rewrite bool_decide_false by (rewrite elem_of_cons; naive_solver). by apply lookup_delete_ne.
Qed.

(** Cleaning up forgets exactly the peers without activity for the given time. *)
Theorem cleanup_forgets_idle now m max_age_secs : 0 <= max_age_secs -> max_age_secs * 1000 <= now < 2 ^ 64 ->
  exists m', cleanup_stale_connections now m max_age_secs = Ok m' /\ global_metrics m' = global_metrics m /\
    forall p s, connection_stats m' !! p = Some s <-> connection_stats m !! p = Some s /\ now - max_age_secs * 1000 <= last_activity s.
Proof.
  intros H0 Hmax. unfold cleanup_stale_connections. rewrite !chk_u_ok by (unfold in_u; lia). cbn [rbind]. rewrite chk_u_ok by (unfold in_u; lia). cbn [rbind]. eexists. split; [done|]. split; [done|].
  intros p s. cbn. rewrite delete_listed. case_bool_decide as Hp.
  - split; [done|]. intros [Hs Ha]. apply list_elem_of_fmap in Hp as ([p' s'] & -> & [Hl Hin%elem_of_hm_iter]%list_elem_of_filter). cbn in *. rewrite Hs in Hin. injection Hin as <-. lia.
  - split; [|by intros []]. intros Hs. split; [done|]. destruct (Z.le_gt_cases (now - max_age_secs * 1000) (last_activity s)); [done|]. destruct Hp. apply list_elem_of_fmap. exists (p, s).
    split; [done|]. apply list_elem_of_filter. by rewrite elem_of_hm_iter.
Qed.

(** Scores lie between zero and one, for every peer and for the node, in every state the monitor reaches. *)
Theorem scores_in_range start (ops : list (Z * MonitorOp Cb)) m now : rfold monitor_step (monitor_new start) ops = Ok m -> now < 2 ^ 64 ->
  (forall p s, connection_stats m !! p = Some s -> 0 <= last_activity s <= now -> messages_sent s + message_failures s < 2 ^ 64 ->
     exists q, quality_score now s = Ok q /\ f64_le f64_zero q /\ f64_le q f64_one) /\
  (let g := global_metrics m in 0 <= start_timestamp g <= now -> total_messages_sent g + total_message_failures g < 2 ^ 64 ->
     exists q, health_score now g = Ok q /\ f64_le f64_zero q /\ f64_le q f64_one).
Proof.
  intros Hrun Hnow. apply monitor_run_ok in Hrun as [Hs Hg].
  split.
  - intros p s Hp Ha Hsum. destruct (Hs p s Hp) as [_ Hok]. apply quality_range; [done|lia..].
  - intros g Ht Hsum. apply health_range; [done|lia..].
Qed.
End Views.

(** The ring of routing decisions holds the last 256 of them, in their order. *)
Theorem telemetry_ring {IL : IdLib} debug_layer debug_hop (ds : list (Z * RoutingDecision)) :
  let snap nd := mkSnapshot (hex_encode (d_message_id nd.2)) (hex_encode (d_recipient_hint nd.2)) (debug_layer (d_decided_by nd.2)) (d_confidence nd.2)
                   (debug_hop (d_primary nd.2)) (zlen (d_alternatives nd.2)) nd.1 in
  telemetry_entries (foldl (fun t nd => telemetry_record debug_layer debug_hop nd.1 t nd.2) telemetry_new ds) = snap <$> drop (length ds - 256) ds.
Proof.
  intros snap. assert (foldl (fun t nd => telemetry_record debug_layer debug_hop nd.1 t nd.2) telemetry_new ds = mkTelemetry (snap <$> drop (length ds - 256) ds) 256) as ->; [|done].
  induction ds as [|nd ds IH] using rev_ind; [done|]. rewrite foldl_app, IH. cbn [foldl]. unfold telemetry_record. cbn [ring capacity]. f_equal. rewrite length_app. cbn [length].
  unfold zlen. rewrite length_fmap, length_drop. destruct (Z.leb_spec 256 (Z.of_nat (length ds - (length ds - 256)))) as [Hf|Hf].
  - rewrite drop_app_le by lia. rewrite fmap_app. cbn [fmap list_fmap]. f_equal. replace (length ds + 1 - 256)%nat with (1 + (length ds - 256))%nat by lia.
    rewrite Nat.add_comm, <-drop_drop. by destruct (drop (length ds - 256) ds).
  - replace (length ds - 256)%nat with 0%nat by lia. replace (length ds + 1 - 256)%nat with 0%nat by lia. rewrite !drop_0, fmap_app. done.
Qed.

(** ** Concrete inputs *)

Module HealthExamples.

#[local] Instance ex_build : Build := {| overflow_checks := true |}.
#[local] Instance ex_stats : HashIter string ConnectionStats := canonical_iter.

Definition OPS : list (Z * MonitorOp string) := lifecycle 10 "p" ++ [(20, StateOp "q" Connected); (20, SuccessOp "q"); (21, MessageOp "q" 100 5)].

Definition MON : TransportHealthMonitor string := match rfold monitor_step (monitor_new 0) OPS with Ok m => m | _ => monitor_new 0 end.

Lemma mon_run : rfold monitor_step (monitor_new 0) OPS = Ok MON.
Proof. by vm_compute. Qed.

Lemma monitor_invariant_witness : monitor_ok MON.
Proof. apply (monitor_invariant 0 OPS). exact mon_run. Defined.

Lemma connections_counted_twice_witness : exists m : TransportHealthMonitor string, rfold monitor_step (monitor_new 0) (["p"; "q"]%string ≫= lifecycle 5) = Ok m /\
  current_active_connections (global_metrics m) = 2.
Proof. destruct (connections_counted_twice (Cb := string) 0 5 ["p"; "q"]%string) as (m & H1 & _ & H2 & _); [by vm_compute|]. exists m. split; [exact H1|exact H2]. Defined.

Lemma mon_active : map_Forall (fun _ s => 0 <= last_activity s <= 30) (connection_stats MON).
Proof. apply map_Forall_to_list. vm_compute. repeat constructor; discriminate. Qed.

Lemma health_partition_witness : exists healthy unhealthy, get_healthy_connections 30 MON = Ok healthy /\ get_unhealthy_connections 30 MON = Ok unhealthy.
Proof. destruct (health_partition 30 MON mon_active) as (h & u & H1 & H2 & _); [lia|]. exists h, u. split; [exact H1|exact H2]. Defined.

Example q_is_healthy : get_healthy_connections 30 MON = Ok ["q"%string] /\ get_unhealthy_connections 30 MON = Ok ["p"%string].
Proof. by vm_compute. Qed.

Lemma cleanup_forgets_idle_witness : exists m', cleanup_stale_connections 3600015 MON 3600 = Ok m' /\ connection_stats m' !! "p"%string = None.
Proof.
  destruct (cleanup_forgets_idle 3600015 MON 3600) as (m' & H1 & _ & H2); [lia|lia|]. exists m'. split; [exact H1|]. destruct (connection_stats m' !! "p"%string) as [s|] eqn:Hs; [|reflexivity].
  apply H2 in Hs as [Hs Ha]. vm_compute in Hs. injection Hs as <-. vm_compute in Ha. by destruct Ha.
Defined.

Lemma scores_in_range_witness : exists q, health_score 5000 (global_metrics MON) = Ok q /\ f64_le q f64_one.
Proof.
  destruct (scores_in_range 0 OPS MON 5000 mon_run) as [_ H]; [lia|]. destruct H as (q & H1 & _ & H2); [vm_compute; by split|by vm_compute|]. exists q. split; [exact H1|exact H2].
Defined.

(** A clock that runs backwards: a panic in a build with overflow checks. *)
Example health_clock_backwards : get_healthy_connections 20 MON = Panic.
Proof. by vm_compute. Qed.

End HealthExamples.
