(* ===== verification/Manager.v ===== *)
(** * Transport manager ([core/src/transport/manager.rs], [core/src/transport/abstraction.rs])

    Which peers are reachable over which transports, what is queued to be sent to them, which of them
    are to be reconnected and when, and the periodic clean-up of silent peers.  Instants are
    nanoseconds, one reading of the clock for a call; peers are 32 bytes.  The order in which hash maps
    and sets are visited is the classes [HashIter] and [SetOrder]. *)

From S2P Require Import Prelude Effects Circuit AddrFilter Ledger DialPolicy Escalation Observation Health.

(** ** Data *)

Record TransportState : Type := mkState { running : bool; connected : gset bytes; caps : TransportCapabilities }.

Definition state_new (c : TransportCapabilities) : TransportState := mkState false ∅ c.

Record PendingSend : Type := mkSend {
  ps_peer_id : bytes; ps_data : bytes; ps_priority : Z; preferred_transport : option TransportType; ps_created_at : Z;
}.

Definition enqueue (items : list PendingSend) (item : PendingSend) : list PendingSend :=
  sort_by (fun a b => ps_priority b ?= ps_priority a) (items ++ [item]).

Definition dequeue (items : list PendingSend) : option (PendingSend * list PendingSend) :=
  match items with [] => None | item :: rest => Some (item, rest) end.

Definition millis (n : Z) : Z := n * 10 ^ 6.

Definition RECONNECT_BASE_INTERVAL : Z := secs 1.
Definition RECONNECT_MAX_INTERVAL : Z := secs 60.
Definition RECONNECT_BACKOFF_MULTIPLIER : Z := 2.
Definition RECONNECT_MAX_FAILURES : Z := 10.
Definition RECONNECT_MAX_CONCURRENT : Z := 3.
Definition STALE_CONFIRM_TICKS : Z := 3.
Definition RECONNECT_STAGGER_INTERVAL : Z := millis 200.

Record ReconnectionState : Type := mkReconnect {
  rc_peer_id : bytes;
  last_transports : gset TransportType;
  last_addr : bytes;
  failures : Z;
  next_attempt_at : Z;
  disconnected_at : Z;
}.

Definition reconnect_new (now : Z) (peer_id : bytes) (ts : gset TransportType) (addr : bytes) : ReconnectionState :=
  mkReconnect peer_id ts addr 0 (now + RECONNECT_BASE_INTERVAL) now.

Definition backoff_interval (r : ReconnectionState) : Z :=
  let base := RECONNECT_BASE_INTERVAL / 10 ^ 6 in
  let multiplier := if RECONNECT_BACKOFF_MULTIPLIER ^ failures r <=? u32_max then RECONNECT_BACKOFF_MULTIPLIER ^ failures r else u32_max in
  Z.min (millis (sat_mul 64 base multiplier)) RECONNECT_MAX_INTERVAL.

Definition record_failure {BM : Build} (now : Z) (r : ReconnectionState) : res string ReconnectionState :=
  let! n := chk_u 32 (failures r + 1) in
  let r := mkReconnect (rc_peer_id r) (last_transports r) (last_addr r) n (next_attempt_at r) (disconnected_at r) in
  Ok (mkReconnect (rc_peer_id r) (last_transports r) (last_addr r) n (now + backoff_interval r) (disconnected_at r)).

Definition is_exhausted (r : ReconnectionState) : bool := RECONNECT_MAX_FAILURES <=? failures r.

Definition is_ready (now : Z) (r : ReconnectionState) : bool := next_attempt_at r <=? now.

Definition delayed (at_ : Z) (r : ReconnectionState) : ReconnectionState :=
  mkReconnect (rc_peer_id r) (last_transports r) (last_addr r) (failures r) at_ (disconnected_at r).

Inductive TransportEvent : Type :=
| PeerDiscovered (peer_id : bytes) (transport : TransportType) (addr : bytes)
| PeerDisconnected (peer_id : bytes) (transport : TransportType)
| DataReceived (peer_id : bytes) (transport : TransportType) (data : bytes)
| TransportErrorEvent (transport : TransportType) (error : string)
| ConnectionEstablished (peer_id : bytes) (transport : TransportType).

Inductive TransportError : Type :=
| PeerNotFound | TransportNotAvailable | SendFailed | ConnectionFailed | InvalidPayload | TransportIoError | SerializationError | Timeout | Internal.

Inductive SendResult : Type := Queued (t : TransportType).

(** *** The recall module ([core/src/dspy/modules.rs]) *)

Record MultiHopRecall : Type := mkRecall { recall_name : string; max_hops : Z; recall_steps : list string }.

Definition recall_new (name : string) (max_hops : Z) : MultiHopRecall := mkRecall name max_hops [].

Definition recall_add_step (r : MultiHopRecall) (step : string) : MultiHopRecall := mkRecall (recall_name r) (max_hops r) (recall_steps r ++ [step]).

Definition recall (r : MultiHopRecall) (query : string) : res string (list string) := Ok [].

Definition validate_input (r : MultiHopRecall) (input : string) : bool := negb (bool_decide (input = ""%string)).

(** ** The manager *)

Record TransportManager (Cb : Type) : Type := mkManager {
  transports : gmap TransportType TransportState;
  peer_transports : gmap bytes (gset TransportType);
  outgoing : list PendingSend;
  peer_last_seen : gmap bytes Z;
  target_peers : gmap bytes bytes;
  reconnection_queue : gmap bytes ReconnectionState;
  stale_candidates : gmap bytes Z;
  health_monitor : option (TransportHealthMonitor Cb);
  address_observer : AddressObserver;
  multi_hop_recall : option MultiHopRecall;
  escalation_engine : option EscalationEngine;
}.

Arguments mkManager {Cb}.
Arguments transports {Cb}.
Arguments peer_transports {Cb}.
Arguments outgoing {Cb}.
Arguments peer_last_seen {Cb}.
Arguments target_peers {Cb}.
Arguments reconnection_queue {Cb}.
Arguments stale_candidates {Cb}.
Arguments health_monitor {Cb}.
Arguments address_observer {Cb}.
Arguments multi_hop_recall {Cb}.
Arguments escalation_engine {Cb}.

Section Setters.
Context {Cb : Type}.
Implicit Types m : TransportManager Cb.

Definition set_transports m v : TransportManager Cb :=
  mkManager v (peer_transports m) (outgoing m) (peer_last_seen m) (target_peers m) (reconnection_queue m) (stale_candidates m) (health_monitor m) (address_observer m) (multi_hop_recall m) (escalation_engine m).
Definition set_peer_transports m v : TransportManager Cb :=
  mkManager (transports m) v (outgoing m) (peer_last_seen m) (target_peers m) (reconnection_queue m) (stale_candidates m) (health_monitor m) (address_observer m) (multi_hop_recall m) (escalation_engine m).
Definition set_outgoing m v : TransportManager Cb :=
  mkManager (transports m) (peer_transports m) v (peer_last_seen m) (target_peers m) (reconnection_queue m) (stale_candidates m) (health_monitor m) (address_observer m) (multi_hop_recall m) (escalation_engine m).
Definition set_last_seen m v : TransportManager Cb :=
  mkManager (transports m) (peer_transports m) (outgoing m) v (target_peers m) (reconnection_queue m) (stale_candidates m) (health_monitor m) (address_observer m) (multi_hop_recall m) (escalation_engine m).
Definition set_targets m v : TransportManager Cb :=
  mkManager (transports m) (peer_transports m) (outgoing m) (peer_last_seen m) v (reconnection_queue m) (stale_candidates m) (health_monitor m) (address_observer m) (multi_hop_recall m) (escalation_engine m).
Definition set_queue m v : TransportManager Cb :=
  mkManager (transports m) (peer_transports m) (outgoing m) (peer_last_seen m) (target_peers m) v (stale_candidates m) (health_monitor m) (address_observer m) (multi_hop_recall m) (escalation_engine m).
Definition set_stale m v : TransportManager Cb :=
  mkManager (transports m) (peer_transports m) (outgoing m) (peer_last_seen m) (target_peers m) (reconnection_queue m) v (health_monitor m) (address_observer m) (multi_hop_recall m) (escalation_engine m).
Definition set_monitor m v : TransportManager Cb :=
  mkManager (transports m) (peer_transports m) (outgoing m) (peer_last_seen m) (target_peers m) (reconnection_queue m) (stale_candidates m) v (address_observer m) (multi_hop_recall m) (escalation_engine m).
Definition set_observer m v : TransportManager Cb :=
  mkManager (transports m) (peer_transports m) (outgoing m) (peer_last_seen m) (target_peers m) (reconnection_queue m) (stale_candidates m) (health_monitor m) v (multi_hop_recall m) (escalation_engine m).
Definition set_recall m v : TransportManager Cb :=
  mkManager (transports m) (peer_transports m) (outgoing m) (peer_last_seen m) (target_peers m) (reconnection_queue m) (stale_candidates m) (health_monitor m) (address_observer m) v (escalation_engine m).
Definition set_engine m v : TransportManager Cb :=
  mkManager (transports m) (peer_transports m) (outgoing m) (peer_last_seen m) (target_peers m) (reconnection_queue m) (stale_candidates m) (health_monitor m) (address_observer m) (multi_hop_recall m) v.

Definition new_with_multihop (r : option MultiHopRecall) : TransportManager Cb := mkManager ∅ ∅ [] ∅ ∅ ∅ ∅ None observer_new r None.

Definition transport_manager_new : TransportManager Cb := new_with_multihop None.

Definition set_health_monitor m (monitor : TransportHealthMonitor Cb) : TransportManager Cb := set_monitor m (Some monitor).

Definition set_escalation_engine m (engine : EscalationEngine) : TransportManager Cb := set_engine m (Some engine).

Definition register_transport m (t : TransportType) (c : TransportCapabilities) : TransportManager Cb := set_transports m (<[t := state_new c]> (transports m)).

(** [if let Some(state) = transports.get_mut(&t) { state.connected_peers.remove(&peer_id) }]. *)
Definition drop_connected (peer_id : bytes) (ts : gmap TransportType TransportState) (t : TransportType) : gmap TransportType TransportState :=
  alter (fun s => mkState (running s) (connected s ∖ {[peer_id]}) (caps s)) t ts.

Definition peer_lost (now : Z) m (peer_id : bytes) (t : TransportType) : TransportManager Cb :=
  match target_peers m !! peer_id, reconnection_queue m !! peer_id with
  | Some addr, None => set_queue m (<[peer_id := reconnect_new now peer_id {[t]} addr]> (reconnection_queue m))
  | _, _ => m
  end.

Definition handle_event (now : Z) m (event : TransportEvent) : TransportManager Cb :=
  match event with
  | PeerDiscovered peer_id t _ =>
      let m := set_peer_transports m (<[peer_id := default ∅ (peer_transports m !! peer_id) ∪ {[t]}]> (peer_transports m)) in
      set_last_seen m (<[peer_id := now]> (peer_last_seen m))
  | PeerDisconnected peer_id t =>
      let m := set_transports m (drop_connected peer_id (transports m) t) in
      match peer_transports m !! peer_id with
      | None => m
      | Some ts =>
          let ts := ts ∖ {[t]} in
          if bool_decide (ts = ∅) then peer_lost now (set_peer_transports m (delete peer_id (peer_transports m))) peer_id t
          else set_peer_transports m (<[peer_id := ts]> (peer_transports m))
      end
  | DataReceived peer_id _ _ => set_last_seen m (<[peer_id := now]> (peer_last_seen m))
  | ConnectionEstablished peer_id t =>
      let m := set_transports m (alter (fun s => mkState (running s) (connected s ∪ {[peer_id]}) (caps s)) t (transports m)) in
      match escalation_engine m with
      | None => m
      | Some engine =>
          if should_escalate engine peer_id then
            match escalate now engine peer_id with Ok (_, engine) => set_engine m (Some engine) | _ => m end
          else m
      end
  | TransportErrorEvent _ _ => m
  end.

(** *** Choice of a transport *)

Definition transport_score m (peer_id : bytes) (t : TransportType) : Z :=
  match transports m !! t with
  | None => 0
  | Some state =>
      let caps := caps state in
      (if bool_decide (peer_id ∈ connected state) then 1000 else 0) +
      (if supports_streaming caps then 500 else 0) +
      Z.min 100 (estimated_bandwidth_bps caps / 1000000) * 5 +
      sat_sub 100 (estimated_latency_ms caps)
  end.

Section Selection.
Context {ST : SetOrder TransportType}.

Definition set_iter (s : gset TransportType) : list TransportType := set_order (elements s).

Definition best_transport_for_peer m (peer_id : bytes) : res TransportError TransportType :=
  match peer_transports m !! peer_id with
  | None => Err PeerNotFound
  | Some available =>
      if bool_decide (available = ∅) then Err PeerNotFound
      else match max_by (fun a b => transport_score m peer_id a ?= transport_score m peer_id b) (set_iter available) with
           | Some best => Ok best
           | None => Err PeerNotFound
           end
  end.

Definition send_to_peer (now : Z) m (peer_id data : bytes) (priority : Z) : res TransportError (SendResult * TransportManager Cb) :=
  let! best := best_transport_for_peer m peer_id in
  Ok (Queued best, set_outgoing m (enqueue (outgoing m) (mkSend peer_id data priority (Some best) now))).

Definition transports_for_peer m (peer_id : bytes) : list TransportType := default [] (set_iter <$> peer_transports m !! peer_id).
End Selection.

Definition connected_peers {HP : HashIter bytes (gset TransportType)} m : list bytes := (hm_iter (peer_transports m)).*1.

Definition peers_on_transport {SB : SetOrder bytes} m (t : TransportType) : list bytes :=
  match transports m !! t with Some state => set_order (elements (connected state)) | None => [] end.

Definition is_peer_connected m (peer_id : bytes) : bool :=
  match peer_transports m !! peer_id with Some ts => negb (bool_decide (ts = ∅)) | None => false end.

Definition pending_sends m : list PendingSend := outgoing m.

(** *** Reconnection *)

Definition add_target_peer m (peer_id addr : bytes) : TransportManager Cb := set_targets m (<[peer_id := addr]> (target_peers m)).

Definition remove_target_peer m (peer_id : bytes) : TransportManager Cb :=
  let m := set_targets m (delete peer_id (target_peers m)) in set_queue m (delete peer_id (reconnection_queue m)).

Section Reconnect.
Context {HR : HashIter bytes ReconnectionState}.

Definition waiting_since (queue : gmap bytes ReconnectionState) (p : bytes) : Z := from_option disconnected_at 0 (queue !! p).

(** The peers after the first three are put off, each 200 ms more than the one before. *)
Fixpoint stagger (now i : Z) (queue : gmap bytes ReconnectionState) (l : list bytes) : gmap bytes ReconnectionState :=
  match l with
  | [] => queue
  | p :: rest => stagger now (i + 1) (alter (delayed (now + RECONNECT_STAGGER_INTERVAL * (i + 1))) p queue) rest
  end.

Definition peers_needing_reconnect (now : Z) m : list ReconnectionState * TransportManager Cb :=
  let queue := reconnection_queue m in
  let ready := (filter (fun ps => is_ready now ps.2 && negb (is_exhausted ps.2) = true) (hm_iter queue)).*1 in
  let '(ready, queue) :=
    if RECONNECT_MAX_CONCURRENT <? zlen ready then
      let ready := sort_by (fun a b => waiting_since queue a ?= waiting_since queue b) ready in
      (take (Z.to_nat RECONNECT_MAX_CONCURRENT) ready, stagger now 0 queue (drop (Z.to_nat RECONNECT_MAX_CONCURRENT) ready))
    else (ready, queue) in
  (omap (fun id => queue !! id) ready, set_queue m queue).
End Reconnect.

Definition record_reconnect_success m (peer_id : bytes) : TransportManager Cb := set_queue m (delete peer_id (reconnection_queue m)).

Definition record_reconnect_failure {BM : Build} (now : Z) m (peer_id : bytes) : res string (TransportManager Cb) :=
  match reconnection_queue m !! peer_id with
  | Some state => let! state := record_failure now state in Ok (set_queue m (<[peer_id := state]> (reconnection_queue m)))
  | None => Ok m
  end.

Definition reconnection_queue_len m : Z := Z.of_nat (size (reconnection_queue m)).

(** *** Maintenance *)

Section Tick.
Context {BM : Build} {ST : SetOrder TransportType} {HZ : HashIter bytes Z} {HS : HashIter string ConnectionStats}.

Definition STALE_THRESHOLD : Z := secs 300.

Definition time_stale (now : Z) m : gset bytes := dom (filter (fun ps => STALE_THRESHOLD < now - ps.2) (peer_last_seen m)).

(** Phase A: the counts of consecutive stale ticks, and the peers that reach the limit. *)
Definition count_stale (stale : gset bytes) (candidates : gmap bytes Z) : res string (gmap bytes Z) :=
  rfold (fun (acc : gmap bytes Z) p => let! n := chk_u 32 (default 0 (acc !! p) + 1) in Ok (<[p := n]> acc))
    (filter (fun pc => pc.1 ∈ stale) candidates) (elements stale).

Definition confirmed_stale (candidates : gmap bytes Z) : list bytes := (filter (fun pc => STALE_CONFIRM_TICKS <= pc.2) (hm_iter candidates)).*1.

(** Phase B. *)
Definition reconcile m (stale_peers : list (bytes * list TransportType)) : TransportManager Cb :=
  foldl (fun m pt => set_transports (set_last_seen m (delete pt.1 (peer_last_seen m))) (foldl (drop_connected pt.1) (transports m) pt.2)) m stale_peers.

(** Phase C, for one peer. *)
Definition replay (now : Z) m (pt : bytes * list TransportType) : TransportManager Cb :=
  let m := match escalation_engine m with
           | Some engine => match deescalate engine pt.1 with Ok (_, engine) => set_engine m (Some engine) | _ => m end
           | None => m
           end in
  foldl (fun m t => handle_event now m (PeerDisconnected pt.1 t)) m pt.2.

Fixpoint restagger (now idx : Z) (queue : gmap bytes ReconnectionState) (l : list bytes) : gmap bytes ReconnectionState :=
  match l with
  | [] => queue
  | p :: rest =>
      match queue !! p with
      | Some state => restagger now (idx + 1) (<[p := delayed (now + RECONNECT_STAGGER_INTERVAL * (idx + 1)) state]> queue) rest
      | None => restagger now idx queue rest
      end
  end.

Definition tick (now : Z) m : res string (TransportManager Cb) :=
  let! candidates := count_stale (time_stale now m) (stale_candidates m) in
  let confirmed := confirmed_stale candidates in
  let m := set_stale m (foldl (fun c p => delete p c) candidates confirmed) in
  let stale_peers := (fun p => (p, transports_for_peer m p)) <$> confirmed in
  let m := reconcile m stale_peers in
  let m := foldl (replay now) m stale_peers in
  let m := set_queue m (restagger now 0 (reconnection_queue m) confirmed) in
  let m := set_queue m (filter (fun ps => is_exhausted ps.2 = false) (reconnection_queue m)) in
  match health_monitor m with
  | None => Ok m
  | Some monitor => let! monitor := cleanup_stale_connections (now / 10 ^ 6) monitor 3600 in Ok (set_monitor m (Some monitor))
  end.
End Tick.

(** *** Other operations *)

Section Observed.
Context {BM : Build} {HO : HashIter string AddressObservation} {HA : HashIter SocketAddr Z} {HS : HashIter string ConnectionStats}.

Definition expire_address_observations (now : Z) m (max_age_secs : Z) : res string (TransportManager Cb) :=
  let! o := expire_old_observations (as_secs now) (address_observer m) max_age_secs in Ok (set_observer m o).

Definition manager_healthy (now : Z) m : res string (list string) :=
  match health_monitor m with Some h => get_healthy_connections (now / 10 ^ 6) h | None => Ok [] end.

Definition manager_unhealthy (now : Z) m : res string (list string) :=
  match health_monitor m with Some h => get_unhealthy_connections (now / 10 ^ 6) h | None => Ok [] end.

Definition manager_stats m : gmap string ConnectionStats := from_option get_all_connection_stats ∅ (health_monitor m).

Definition manager_metrics (now : Z) m : GlobalTransportMetrics := from_option get_global_metrics (metrics_new (now / 10 ^ 6)) (health_monitor m).

Definition get_all_observed_connections m : list ConnectionEndpoint :=
  (fun obs => mkEndpoint (observer obs) [] [] ("obs-" +:+ observer obs) (timestamp obs)) <$> all_observations (address_observer m).

Definition cleanup_health_stale_connections (now : Z) m (max_age_secs : Z) : res string (TransportManager Cb) :=
  match health_monitor m with
  | Some monitor => let! monitor := cleanup_stale_connections (now / 10 ^ 6) monitor max_age_secs in Ok (set_monitor m (Some monitor))
  | None => Ok m
  end.
End Observed.

Definition named_transport (name : string) : option TransportType :=
  let name := to_lowercase name in
  if bool_decide (name = "ble"%string) then Some BLE
  else if bool_decide (name ∈ ["wifi_aware"; "wifiaware"]%string) then Some WiFiAware
  else if bool_decide (name ∈ ["wifi_direct"; "wifidirect"]%string) then Some WiFiDirect
  else if bool_decide (name ∈ ["internet"; "tcp"; "quic"]%string) then Some Internet
  else if bool_decide (name = "local"%string) then Some LocalTransport
  else None.

Definition disable_transport m (name : string) : TransportManager Cb :=
  match named_transport name with
  | Some t => set_transports m (alter (fun s => mkState false ∅ (caps s)) t (transports m))
  | None => m
  end.

Definition set_multi_hop_recall m (r : MultiHopRecall) : TransportManager Cb := set_recall m (Some r).

(** [path.contains(needle)]. *)
Definition contains (needle path : string) : bool := bool_decide (is_Some (String.index 0 needle path)).

Definition path_transport (path : string) : option TransportType :=
  if contains "ble" path then Some BLE else if contains "wifi" path then Some WiFiDirect else if contains "internet" path then Some Internet else None.

Definition run_multi_hop_path_selection m (query : string) : list TransportType :=
  match multi_hop_recall m with
  | Some r =>
      if validate_input r query then match recall r query with Ok paths => omap path_transport paths | _ => [] end else []
  | None =>
      filter (fun t => from_option running false (transports m !! t) = true) [BLE; WiFiAware; WiFiDirect; Internet; LocalTransport]
  end.

Definition add_multi_hop_step m (step : string) : TransportManager Cb := set_recall m ((fun r => recall_add_step r step) <$> multi_hop_recall m).
End Setters.

(** ** Clean-up of silent peers *)

(** What a disconnection does not touch. *)
Record same_rest {Cb} (m m' : TransportManager Cb) : Prop := {
  sr_outgoing : outgoing m' = outgoing m;
  sr_seen : peer_last_seen m' = peer_last_seen m;
  sr_targets : target_peers m' = target_peers m;
  sr_stale : stale_candidates m' = stale_candidates m;
  sr_monitor : health_monitor m' = health_monitor m;
  sr_observer : address_observer m' = address_observer m;
  sr_recall : multi_hop_recall m' = multi_hop_recall m;
}.

#[export] Instance same_rest_refl {Cb} : Reflexive (@same_rest Cb).
Proof. by split. Qed.
#[export] Instance same_rest_trans {Cb} : Transitive (@same_rest Cb).
Proof. intros a b c [] []. split; congruence. Qed.

(** Transports of which peers were at most dropped. *)
Definition shrunk (ts ts' : gmap TransportType TransportState) : Prop :=
  forall t, match ts !! t, ts' !! t with
            | None, None => True
            | Some s, Some s' => running s' = running s /\ caps s' = caps s /\ connected s' ⊆ connected s
            | _, _ => False
            end.

#[export] Instance shrunk_refl : Reflexive shrunk.
Proof. intros ts t. by destruct (ts !! t). Qed.
#[export] Instance shrunk_trans : Transitive shrunk.
Proof.
  intros a b c H1 H2 t. specialize (H1 t). specialize (H2 t). destruct (a !! t), (b !! t), (c !! t); try done.
  destruct H1 as (? & ? & ?), H2 as (? & ? & ?). split_and!; [congruence..|by etrans].
Qed.

Lemma drop_shrunk p ts t : shrunk ts (drop_connected p ts t).
Proof.
  intros u. unfold drop_connected. destruct (decide (t = u)) as [->|Hne].
  - rewrite lookup_alter_eq. destruct (ts !! u); cbn; [|done]. split_and!; [done..|set_solver].
  - rewrite lookup_alter_ne by done. by destruct (ts !! u).
Qed.

Lemma drop_all_shrunk p l ts : shrunk ts (foldl (drop_connected p) ts l).
Proof. revert ts. induction l as [|t l IH]; intros ts; [done|]. cbn. etrans; [apply drop_shrunk|apply IH]. Qed.

(** No transport of [l] lists [p]. *)
Definition gone (p : bytes) (l : list TransportType) (ts : gmap TransportType TransportState) : Prop :=
  forall t s, t ∈ l -> ts !! t = Some s -> p ∉ connected s.

Lemma gone_shrunk p l ts ts' : shrunk ts ts' -> gone p l ts -> gone p l ts'.
Proof. intros Hs Hg t s' Ht Hs'. specialize (Hs t). rewrite Hs' in Hs. destruct (ts !! t) as [s|] eqn:Hts; [|done]. destruct Hs as (_ & _ & Hsub). specialize (Hg t s Ht Hts). set_solver. Qed.

Lemma drop_all_gone p l ts : gone p l (foldl (drop_connected p) ts l).
Proof.
  revert ts. induction l as [|t l IH]; intros ts; [by intros ? ? ?%not_elem_of_nil|]. cbn. intros u s [->|Hu]%elem_of_cons Hs; [|by eapply IH].
  pose proof (drop_all_shrunk p l (drop_connected p ts t) t) as Hd. rewrite Hs in Hd. unfold drop_connected in Hd at 1. rewrite lookup_alter_eq in Hd.
  destruct (ts !! t); [|done]. cbn in Hd. destruct Hd as (_ & _ & Hsub). set_solver.
Qed.

Section Silent.
Context {Cb : Type} {BM : Build} {ST : SetOrder TransportType} {HZ : HashIter bytes Z} {HS : HashIter string ConnectionStats}.
Implicit Types m : TransportManager Cb.

Lemma set_iter_perm (ts : gset TransportType) : set_iter ts ≡ₚ elements ts.
Proof. apply set_order_perm. Qed.

(** The queue entry of a peer that was lost on [ts]. *)
Definition requeued (now : Z) (p : bytes) (ts : gset TransportType) (target : option bytes) (before after : option ReconnectionState) : Prop :=
  match target, before with
  | Some addr, None => exists t, t ∈ ts /\ after = Some (reconnect_new now p {[t]} addr)
  | _, _ => after = before
  end.

Lemma disconnect_known now m p t ts : peer_transports m !! p = Some ts ->
  handle_event now m (PeerDisconnected p t) =
  let m := set_transports m (drop_connected p (transports m) t) in
  if bool_decide (ts ∖ {[t]} = ∅) then peer_lost now (set_peer_transports m (delete p (peer_transports m))) p t
  else set_peer_transports m (<[p := ts ∖ {[t]}]> (peer_transports m)).
Proof. intros Hp. unfold handle_event. cbn [peer_transports set_transports]. by rewrite Hp. Qed.

Lemma disconnects_run now p l ts m : NoDup l -> (forall t, t ∈ ts <-> t ∈ l) -> l <> [] -> peer_transports m !! p = Some ts ->
  let m' := foldl (fun m t => handle_event now m (PeerDisconnected p t)) m l in
  same_rest m m' /\ escalation_engine m' = escalation_engine m /\ peer_transports m' = delete p (peer_transports m) /\ shrunk (transports m) (transports m') /\
  (forall q, q <> p -> reconnection_queue m' !! q = reconnection_queue m !! q) /\
  requeued now p ts (target_peers m !! p) (reconnection_queue m !! p) (reconnection_queue m' !! p).
Proof.
  revert ts m. induction l as [|t l IH]; intros ts m Hnd Hts Hne Hp; [done|]. apply NoDup_cons in Hnd as [Ht Hnd]. cbn [foldl].
  rewrite (disconnect_known now m p t ts Hp).
  assert (forall u, u ∈ ts ∖ {[t]} <-> u ∈ l) as Hrest by (intros u; rewrite elem_of_difference, Hts, elem_of_cons, elem_of_singleton; naive_solver).
  case_bool_decide as Hempty.
  - assert (l = []) as ->. { destruct l as [|u l]; [done|]. exfalso. apply (not_elem_of_empty (C := gset TransportType) u). rewrite <-Hempty. apply Hrest. left. }
    cbn [foldl]. unfold peer_lost, requeued. cbn. destruct (target_peers m !! p) as [addr|] eqn:Haddr; [destruct (reconnection_queue m !! p) as [r|] eqn:Hr|]; cbn.
    + split_and!; [by split|done|done|apply drop_shrunk|done|done].
    + split_and!; [by split|done|done|apply drop_shrunk|intros q Hq; by rewrite lookup_insert_ne|]. exists t. split; [apply Hts; left|apply lookup_insert_eq].
    + split_and!; [by split|done|done|apply drop_shrunk|done|done].
  - assert (l <> []) as Hl. { intros ->. apply Hempty. apply set_eq. intros u. rewrite Hrest. split; [by intros ?%not_elem_of_nil|set_solver]. }
    set (m1 := set_peer_transports _ _).
    destruct (IH (ts ∖ {[t]}) m1) as (Hs & He & Hpt & Hsh & Hq & Hr); [done|done|done|unfold m1; cbn; by rewrite lookup_insert_eq|].
    split_and!.
    + etrans; [|exact Hs]. by split.
    + by rewrite He.
    + rewrite Hpt. unfold m1. cbn. by rewrite delete_insert_eq.
    + etrans; [|exact Hsh]. apply drop_shrunk.
    + intros q Hne'. by rewrite Hq.
    + unfold requeued in *. change (target_peers m1) with (target_peers m) in Hr. change (reconnection_queue m1) with (reconnection_queue m) in Hr.
      destruct (target_peers m !! p); [|exact Hr]. destruct (reconnection_queue m !! p); [exact Hr|]. destruct Hr as (u & Hu & Hr). exists u. split; [set_solver|exact Hr].
Qed.

Lemma replay_run now p m : map_Forall (fun _ ts => ts <> ∅) (peer_transports m) ->
  let m' := replay now m (p, transports_for_peer m p) in
  same_rest m m' /\ peer_transports m' = delete p (peer_transports m) /\ shrunk (transports m) (transports m') /\
  (forall q, q <> p -> reconnection_queue m' !! q = reconnection_queue m !! q) /\
  match peer_transports m !! p with
  | Some ts => requeued now p ts (target_peers m !! p) (reconnection_queue m !! p) (reconnection_queue m' !! p)
  | None => reconnection_queue m' !! p = reconnection_queue m !! p
  end.
Proof.
  intros Hsets. unfold replay. cbn [fst snd]. set (m0 := match escalation_engine m with Some _ => _ | None => m end).
  assert (same_rest m m0 /\ peer_transports m0 = peer_transports m /\ transports m0 = transports m /\ reconnection_queue m0 = reconnection_queue m) as (Hs0 & Hp0 & Ht0 & Hq0).
  { unfold m0. repeat case_match; split_and!; done. }
  unfold transports_for_peer. destruct (peer_transports m !! p) as [ts|] eqn:Hp; cbn [fmap option_fmap option_map default from_option id].
  - assert (set_iter ts <> []) as Hne.
    { intros Hnil. pose proof (set_iter_perm ts) as Hperm. rewrite Hnil in Hperm. apply Permutation_nil in Hperm. apply elements_empty_inv in Hperm. apply (Hsets p ts Hp). by apply leibniz_equiv. }
    destruct (disconnects_run now p (set_iter ts) ts m0) as (Hs & _ & Hpt & Hsh & Hq & Hr); [rewrite set_iter_perm; apply NoDup_elements|intros t; by rewrite set_iter_perm, elem_of_elements|done|by rewrite Hp0|].
    split_and!; [by etrans|by rewrite Hpt, Hp0|by rewrite <-Ht0|intros q Hne'; by rewrite Hq, Hq0|]. rewrite Hq0, (sr_targets _ _ Hs0) in Hr. done.
  - cbn [foldl]. split_and!; [done|by rewrite Hp0, delete_id|by rewrite Ht0|intros; by rewrite Hq0|by rewrite Hq0].
Qed.

Lemma replays_run now (m0 : TransportManager Cb) ps m : NoDup ps -> map_Forall (fun _ ts => ts <> ∅) (peer_transports m) ->
  (forall p, p ∈ ps -> peer_transports m !! p = peer_transports m0 !! p) ->
  let m' := foldl (replay now) m ((fun p => (p, transports_for_peer m0 p)) <$> ps) in
  same_rest m m' /\ (forall q, peer_transports m' !! q = if bool_decide (q ∈ ps) then None else peer_transports m !! q) /\ shrunk (transports m) (transports m') /\
  (forall q, q ∉ ps -> reconnection_queue m' !! q = reconnection_queue m !! q) /\
  (forall p, p ∈ ps -> match peer_transports m !! p with
                       | Some ts => requeued now p ts (target_peers m !! p) (reconnection_queue m !! p) (reconnection_queue m' !! p)
                       | None => reconnection_queue m' !! p = reconnection_queue m !! p
                       end).
Proof.
  revert m. induction ps as [|p ps IH]; intros m Hnd Hsets Hsame; cbn [fmap list_fmap foldl].
  { split_and!; [done|intros q; by rewrite bool_decide_false by apply not_elem_of_nil|done|done|by intros p ?%not_elem_of_nil]. }
  apply NoDup_cons in Hnd as [Hp Hnd]. assert (transports_for_peer m0 p = transports_for_peer m p) as -> by (unfold transports_for_peer; rewrite Hsame; [done|left]).
  destruct (replay_run now p m Hsets) as (Hs & Hpt & Hsh & Hq & Hr). set (m1 := replay now m _) in *.
  destruct (IH m1) as (Hs' & Hpt' & Hsh' & Hq' & Hr'); [done|rewrite Hpt; by apply map_Forall_delete|intros q Hin; rewrite Hpt, lookup_delete_ne by set_solver; apply Hsame; by right|].
  split_and!.
  - by etrans.
  - intros q. rewrite Hpt', Hpt. destruct (decide (q = p)) as [->|Hne]; [rewrite (bool_decide_true (p ∈ p :: ps)) by left; rewrite lookup_delete_eq; by case_bool_decide|].
    rewrite lookup_delete_ne by done. destruct (decide (q ∈ ps)); [by rewrite !bool_decide_true by (done || by right)|]. by rewrite !bool_decide_false by set_solver.
  - by etrans.
  - intros q Hin. rewrite Hq', Hq by set_solver. done.
  - intros q [->|Hin]%elem_of_cons; [by rewrite Hq'|]. specialize (Hr' q Hin). assert (q <> p) by set_solver.
    rewrite Hpt, lookup_delete_ne, Hq, (sr_targets _ _ Hs) in Hr' by done. done.
Qed.

Lemma count_run (l : list bytes) (acc : gmap bytes Z) : NoDup l -> map_Forall (fun _ n => 0 <= n < 2 ^ 32 - 1) acc ->
  exists acc', rfold (fun (acc : gmap bytes Z) p => let! n := @chk_u _ string 32 (default 0 (acc !! p) + 1) in Ok (<[p := n]> acc)) acc l = Ok acc' /\
    forall q, acc' !! q = if bool_decide (q ∈ l) then Some (default 0 (acc !! q) + 1) else acc !! q.
Proof.
  intros Hnd Hacc. assert (forall l acc, NoDup l -> (forall p, p ∈ l -> 0 <= default 0 (acc !! p) < 2 ^ 32 - 1) ->
    exists acc', rfold (fun (acc : gmap bytes Z) p => let! n := @chk_u _ string 32 (default 0 (acc !! p) + 1) in Ok (<[p := n]> acc)) acc l = Ok acc' /\
    forall q, acc' !! q = if bool_decide (q ∈ l) then Some (default 0 (acc !! q) + 1) else acc !! q) as Hgen.
  { clear. induction l as [|p l IH]; intros acc Hnd Hacc; cbn [rfold]; [exists acc; split; [done|]; intros q; by rewrite bool_decide_false by apply not_elem_of_nil|].
    apply NoDup_cons in Hnd as [Hp Hnd]. pose proof (Hacc p ltac:(left)) as Hb. rewrite chk_u_ok by (unfold in_u; lia). cbn [rbind].
    destruct (IH (<[p := default 0 (acc !! p) + 1]> acc)) as (acc' & -> & Hval); [done|intros q Hq; rewrite lookup_insert_ne by set_solver; apply Hacc; by right|].
    exists acc'. split; [done|]. intros q. rewrite Hval. destruct (decide (q = p)) as [->|Hne].
    - rewrite bool_decide_false by done. rewrite bool_decide_true by left. by rewrite lookup_insert_eq.
    - rewrite lookup_insert_ne by done. destruct (decide (q ∈ l)); [by rewrite !bool_decide_true by (done || by right)|]. by rewrite !bool_decide_false by set_solver. }
  apply Hgen; [done|]. intros p _. destruct (acc !! p) as [n|] eqn:Hn; cbn; [by apply (Hacc p)|lia].
Qed.

Lemma count_stale_run (stale : gset bytes) (c : gmap bytes Z) : map_Forall (fun _ n => 0 <= n < 2 ^ 32 - 1) c ->
  exists c', count_stale stale c = Ok c' /\ forall q, c' !! q = if bool_decide (q ∈ stale) then Some (default 0 (c !! q) + 1) else None.
Proof.
  intros Hc. unfold count_stale. destruct (count_run (elements stale) (filter (fun pc => pc.1 ∈ stale) c)) as (c' & -> & Hval); [apply NoDup_elements|intros q n [Hq _]%map_lookup_filter_Some; by apply (Hc q)|].
  exists c'. split; [done|]. intros q. rewrite Hval. rewrite map_lookup_filter. destruct (decide (q ∈ stale)) as [Hq|Hq].
  - rewrite (bool_decide_true (q ∈ elements stale)) by by apply elem_of_elements. rewrite (bool_decide_true (q ∈ stale)) by done.
    destruct (c !! q); cbn; [|done]. by rewrite option_guard_True.
  - rewrite (bool_decide_false (q ∈ elements stale)) by by rewrite elem_of_elements. rewrite (bool_decide_false (q ∈ stale)) by done.
    destruct (c !! q); cbn; [|done]. by rewrite option_guard_False.
Qed.

Lemma elem_of_confirmed (c : gmap bytes Z) p : p ∈ confirmed_stale c <-> exists n, c !! p = Some n /\ 3 <= n.
Proof.
  unfold confirmed_stale. rewrite list_elem_of_fmap. split.
  - intros ([p' n] & -> & [Hn Hin%elem_of_hm_iter]%list_elem_of_filter). by exists n.
  - intros (n & Hc & Hn). exists (p, n). split; [done|]. apply list_elem_of_filter. by rewrite elem_of_hm_iter.
Qed.

Lemma NoDup_confirmed (c : gmap bytes Z) : NoDup (confirmed_stale c).
Proof. unfold confirmed_stale. eapply sublist_NoDup; [apply (NoDup_hm_keys c)|]. apply fmap_sublist, sublist_filter. Qed.

Lemma delete_list_lookup {A} (l : list bytes) (c : gmap bytes A) q : foldl (fun c p => delete p c) c l !! q = if bool_decide (q ∈ l) then None else c !! q.
Proof.
  revert c. induction l as [|p l IH]; intros c; cbn [foldl]; [by rewrite bool_decide_false by apply not_elem_of_nil|]. rewrite IH. destruct (decide (q = p)) as [->|Hne].
  - rewrite lookup_delete_eq, (bool_decide_true (p ∈ p :: l)) by left. by case_bool_decide.
  - rewrite lookup_delete_ne by done. destruct (decide (q ∈ l)); [by rewrite !bool_decide_true by (done || by right)|]. by rewrite !bool_decide_false by set_solver.
Qed.

Lemma reconcile_run m (f : bytes -> list TransportType) ps :
  let m' := reconcile m ((fun p => (p, f p)) <$> ps) in
  peer_last_seen m' = foldl (fun c p => delete p c) (peer_last_seen m) ps /\ shrunk (transports m) (transports m') /\ (forall p, p ∈ ps -> gone p (f p) (transports m')) /\ m' = set_transports (set_last_seen m (peer_last_seen m')) (transports m').
Proof.
  revert m. induction ps as [|p ps IH]; intros m; cbn [fmap list_fmap foldl]; [split_and!; [done|done|by intros ? ?%not_elem_of_nil|by destruct m]|].
  unfold reconcile. cbn [foldl fst snd]. set (m1 := set_transports _ _). destruct (IH m1) as (Hs & Hsh & Hg & Hm). unfold reconcile in *. set (m' := foldl _ m1 _) in *. split_and!.
  - rewrite Hs. done.
  - etrans; [|exact Hsh]. apply drop_all_shrunk.
  - intros q [->|Hq]%elem_of_cons; [|by apply Hg]. eapply gone_shrunk; [exact Hsh|]. apply drop_all_gone.
  - rewrite Hm at 1. done.
Qed.

Lemma restagger_run now idx queue l : NoDup l ->
  let queue' := restagger now idx queue l in
  (forall q, q ∉ l -> queue' !! q = queue !! q) /\ (forall q, q ∈ l -> match queue !! q with
                      | None => queue' !! q = None
                      | Some r => exists i, idx <= i < idx + zlen l /\ queue' !! q = Some (delayed (now + RECONNECT_STAGGER_INTERVAL * (i + 1)) r)
                      end).
Proof.
  revert idx queue. induction l as [|p l IH]; intros idx queue Hnd; cbn [restagger]; [split; [done|by intros ? ?%not_elem_of_nil]|].
  apply NoDup_cons in Hnd as [Hp Hnd]. rewrite zlen_cons. pose proof (zlen_nonneg l). destruct (queue !! p) as [r|] eqn:Hr.
  - destruct (IH (idx + 1) (<[p := delayed (now + RECONNECT_STAGGER_INTERVAL * (idx + 1)) r]> queue) Hnd) as [Hout Hin]. split.
    + intros q Hq. rewrite Hout, lookup_insert_ne by set_solver. done.
    + intros q [->|Hq]%elem_of_cons; [rewrite Hr, Hout, lookup_insert_eq by done; exists idx; split; [lia|done]|].
      specialize (Hin q Hq). rewrite lookup_insert_ne in Hin by set_solver. destruct (queue !! q); [|done]. destruct Hin as (i & Hi & ->). exists i. split; [lia|done].
  - destruct (IH idx queue Hnd) as [Hout Hin]. split; [intros q Hq; apply Hout; set_solver|]. intros q [->|Hq]%elem_of_cons; [by rewrite Hr, Hout|].
    specialize (Hin q Hq). destruct (queue !! q); [|done]. destruct Hin as (i & Hi & ->). exists i. split; [lia|done].
Qed.

(** The clock that the statistics of the health monitor need: an hour past the epoch, in 64-bit milliseconds. *)
Definition monitor_fits (now : Z) m : Prop := health_monitor m = None \/ 3600000 <= now / 10 ^ 6 < 2 ^ 64.

(** The last step of a tick. *)
Definition tick_cleanup (now : Z) m : res string (TransportManager Cb) :=
  match health_monitor m with
  | None => Ok m
  | Some monitor => let! monitor := cleanup_stale_connections (now / 10 ^ 6) monitor 3600 in Ok (set_monitor m (Some monitor))
  end.

Lemma tick_monitor now m : monitor_fits now m -> exists m', tick_cleanup now m = Ok m'.
Proof.
  intros Hf. unfold tick_cleanup. destruct (health_monitor m) as [h|] eqn:Hh; [|by eexists].
  destruct Hf as [|Hf]; [congruence|]. unfold cleanup_stale_connections. rewrite chk_u_ok by (unfold in_u; lia). cbn [rbind]. rewrite chk_u_ok by (unfold in_u; lia). cbn [rbind]. by eexists.
Qed.

Lemma tick_cleanup_inv now m m' : tick_cleanup now m = Ok m' -> m' = set_monitor m (health_monitor m') /\ (health_monitor m = None -> health_monitor m' = None).
Proof.
  unfold tick_cleanup. destruct (health_monitor m) as [h|] eqn:Hh; [|intros [= <-]; split; [by destruct m|done]].
  intros (h' & _ & [= <-])%rbind_ok_inv. by split.
Qed.

(** A tick, by what it does to each part of the state: [ps] are the peers it prunes. *)
Record ticked (now : Z) m m' (ps : list bytes) : Prop := {
  tk_nodup : NoDup ps;
  tk_pruned : forall p, p ∈ ps <-> exists t, peer_last_seen m !! p = Some t /\ STALE_THRESHOLD < now - t /\ STALE_CONFIRM_TICKS <= default 0 (stale_candidates m !! p) + 1;
  tk_count : forall p, stale_candidates m' !! p =
    if bool_decide (p ∈ time_stale now m) && negb (bool_decide (p ∈ ps)) then Some (default 0 (stale_candidates m !! p) + 1) else None;
  tk_seen : forall p, peer_last_seen m' !! p = if bool_decide (p ∈ ps) then None else peer_last_seen m !! p;
  tk_known : forall p, peer_transports m' !! p = if bool_decide (p ∈ ps) then None else peer_transports m !! p;
  tk_shrunk : shrunk (transports m) (transports m');
  tk_gone : forall p ts, p ∈ ps -> peer_transports m !! p = Some ts -> gone p (elements ts) (transports m');
  tk_others : forall q, q ∉ ps -> reconnection_queue m' !! q = (r ← reconnection_queue m !! q; if is_exhausted r then None else Some r);
  tk_lost : forall p, p ∈ ps -> exists r0, match peer_transports m !! p with
                                           | Some ts => requeued now p ts (target_peers m !! p) (reconnection_queue m !! p) r0
                                           | None => r0 = reconnection_queue m !! p
                                           end /\
    match r0 with
    | None => reconnection_queue m' !! p = None
    | Some r => exists i, 0 <= i < zlen ps /\
        reconnection_queue m' !! p = if is_exhausted r then None else Some (delayed (now + RECONNECT_STAGGER_INTERVAL * (i + 1)) r)
    end;
  tk_outgoing : outgoing m' = outgoing m;
  tk_targets : target_peers m' = target_peers m;
  tk_observer : address_observer m' = address_observer m;
  tk_recall : multi_hop_recall m' = multi_hop_recall m;
}.

Lemma elem_of_time_stale now m p : p ∈ time_stale now m <-> exists t, peer_last_seen m !! p = Some t /\ STALE_THRESHOLD < now - t.
Proof.
  unfold time_stale. rewrite elem_of_dom. split.
  - intros [t [Ht Hs]%map_lookup_filter_Some]. by exists t.
  - intros (t & Ht & Hs). exists t. by apply map_lookup_filter_Some.
Qed.

Lemma pruned_queue (queue : gmap bytes ReconnectionState) p :
  filter (fun ps => is_exhausted ps.2 = false) queue !! p = (r ← queue !! p; if is_exhausted r then None else Some r).
Proof. rewrite map_lookup_filter. destruct (queue !! p) as [r|]; cbn; [|done]. case_guard as Hg; cbn in Hg; destruct (is_exhausted r); done. Qed.

Lemma tick_core now m : map_Forall (fun _ ts => ts <> ∅) (peer_transports m) -> map_Forall (fun _ n => 0 <= n < 2 ^ 32 - 1) (stale_candidates m) ->
  exists m' ps, tick now m = tick_cleanup now m' /\ health_monitor m' = health_monitor m /\ ticked now m m' ps.
Proof.
  intros Hsets Hstale. unfold tick. destruct (count_stale_run (time_stale now m) (stale_candidates m) Hstale) as (c & -> & Hc). cbn [rbind].
  set (ps := confirmed_stale c). set (m1 := set_stale m _). pose proof (NoDup_confirmed c) as Hnd. fold ps in Hnd.
  destruct (reconcile_run m1 (transports_for_peer m1) ps) as (Hseen & Hsh1 & Hgone & Hm2). set (m2 := reconcile m1 _) in *.
  assert (peer_transports m2 = peer_transports m /\ reconnection_queue m2 = reconnection_queue m /\ target_peers m2 = target_peers m) as (Hpt2 & Hq2 & Ht2) by (by rewrite Hm2).
  destruct (replays_run now m1 ps m2 Hnd) as (Hs3 & Hpt3 & Hsh3 & Hq3 & Hr3); [by rewrite Hpt2|by rewrite Hpt2|]. set (m3 := foldl (replay now) m2 _) in *.
  destruct (restagger_run now 0 (reconnection_queue m3) ps Hnd) as [Hout Hin]. set (q4 := restagger now 0 _ ps) in *.
  set (m4 := set_queue (set_queue m3 q4) _).
  exists m4, ps. split; [reflexivity|]. split; [unfold m4; cbn; by rewrite (sr_monitor _ _ Hs3), Hm2|].
  assert (forall p, p ∈ ps <-> exists t, peer_last_seen m !! p = Some t /\ STALE_THRESHOLD < now - t /\ STALE_CONFIRM_TICKS <= default 0 (stale_candidates m !! p) + 1) as Hps.
  { intros p. unfold ps. rewrite elem_of_confirmed. setoid_rewrite Hc. split.
    - intros (n & Hn & Hle). case_bool_decide as Hst; [|done]. injection Hn as <-. apply elem_of_time_stale in Hst as (t & Ht & Hs). by exists t.
    - intros (t & Ht & Hs & Hle). exists (default 0 (stale_candidates m !! p) + 1). rewrite bool_decide_true; [done|]. apply elem_of_time_stale. by exists t. }
  split; cbn; try done.
  - intros p. rewrite (sr_stale _ _ Hs3), Hm2. cbn. rewrite delete_list_lookup, Hc. fold ps. destruct (bool_decide (p ∈ ps)), (bool_decide (p ∈ time_stale now m)); done.
  - intros p. rewrite (sr_seen _ _ Hs3), Hseen. apply delete_list_lookup.
  - intros p. by rewrite Hpt3, Hpt2.
  - etrans; [exact Hsh1|exact Hsh3].
  - intros p ts Hp Hts. eapply gone_shrunk; [exact Hsh3|]. pose proof (Hgone p Hp) as Hg. unfold transports_for_peer in Hg. cbn in Hg. rewrite Hts in Hg. cbn in Hg.
    intros t s Ht Hs. apply (Hg t s); [|done]. by rewrite set_iter_perm.
  - intros q Hq. rewrite pruned_queue, Hout, Hq3, Hq2 by done. done.
  - intros p Hp. exists (reconnection_queue m3 !! p). specialize (Hr3 p Hp). rewrite Hpt2, Ht2, Hq2 in Hr3. split; [by destruct (peer_transports m !! p)|].
    specialize (Hin p Hp). rewrite pruned_queue. destruct (reconnection_queue m3 !! p) as [r|]; [|by rewrite Hin].
    destruct Hin as (i & Hi & ->). exists i. split; [lia|]. cbn. done.
  - rewrite (sr_outgoing _ _ Hs3). by rewrite Hm2.
  - rewrite (sr_targets _ _ Hs3). by rewrite Hm2.
  - rewrite (sr_observer _ _ Hs3). by rewrite Hm2.
  - rewrite (sr_recall _ _ Hs3). by rewrite Hm2.
Qed.
Lemma ticked_monitor now m m' ps h : ticked now m m' ps -> ticked now m (set_monitor m' h) ps.
Proof. intros []. by split. Qed.

Lemma tick_run now m : map_Forall (fun _ ts => ts <> ∅) (peer_transports m) -> map_Forall (fun _ n => 0 <= n < 2 ^ 32 - 1) (stale_candidates m) -> monitor_fits now m ->
  exists m' ps, tick now m = Ok m' /\ ticked now m m' ps /\ (health_monitor m = None -> health_monitor m' = None).
Proof.
  intros Hsets Hstale Hfit. destruct (tick_core now m Hsets Hstale) as (m4 & ps & Ht & Hh & Htk).
  destruct (tick_monitor now m4) as (m' & Hm'); [unfold monitor_fits; by rewrite Hh|]. exists m', ps. rewrite Ht. destruct (tick_cleanup_inv now m4 m' Hm') as [Heq Hn].
  rewrite Hh in Hn. split_and!; [done|rewrite Heq; by apply ticked_monitor|done].
Qed.

Lemma tick_inv now m m' : map_Forall (fun _ ts => ts <> ∅) (peer_transports m) -> map_Forall (fun _ n => 0 <= n < 2 ^ 32 - 1) (stale_candidates m) ->
  tick now m = Ok m' -> exists ps, ticked now m m' ps.
Proof.
  intros Hsets Hstale Ht. destruct (tick_core now m Hsets Hstale) as (m4 & ps & Hc & _ & Htk). exists ps. rewrite Hc in Ht. destruct (tick_cleanup_inv now m4 m' Ht) as [Heq _].
  rewrite Heq. by apply ticked_monitor.
Qed.
End Silent.

(** ** Invariant *)

Definition by_priority (a b : PendingSend) : Prop := ps_priority b <= ps_priority a.

#[export] Instance by_priority_total : Total by_priority.
Proof. intros a b. unfold by_priority. lia. Qed.
#[export] Instance by_priority_trans : Transitive by_priority.
Proof. intros a b c. unfold by_priority. lia. Qed.

Record manager_ok {Cb} (m : TransportManager Cb) : Prop := {
  mg_sets : map_Forall (fun _ ts => ts <> ∅) (peer_transports m);
  mg_seen : dom (peer_transports m) ⊆ dom (peer_last_seen m);
  mg_targets : dom (reconnection_queue m) ⊆ dom (target_peers m);
  mg_queue : map_Forall (fun p r => rc_peer_id r = p /\ 0 <= failures r < 2 ^ 32) (reconnection_queue m);
  mg_stale : map_Forall (fun _ n => 1 <= n < STALE_CONFIRM_TICKS) (stale_candidates m);
  mg_running : map_Forall (fun _ s => running s = false) (transports m);
  mg_outgoing : Sorted by_priority (outgoing m);
}.

Inductive ManagerOp (Cb : Type) : Type :=
| RegisterOp (t : TransportType) (c : TransportCapabilities)
| EventOp (event : TransportEvent)
| SendOp (p data : bytes) (priority : Z)
| AddTargetOp (p addr : bytes)
| RemoveTargetOp (p : bytes)
| DueOp
| ReconnectedOp (p : bytes)
| ReconnectFailedOp (p : bytes)
| TickOp
| ExpireObservedOp (max_age_secs : Z)
| DisableOp (name : string)
| MonitorSetOp (h : TransportHealthMonitor Cb)
| EngineSetOp (e : EscalationEngine)
| RecallSetOp (r : MultiHopRecall)
| RecallStepOp (step : string).

Arguments RegisterOp {Cb}.
Arguments EventOp {Cb}.
Arguments SendOp {Cb}.
Arguments AddTargetOp {Cb}.
Arguments RemoveTargetOp {Cb}.
Arguments DueOp {Cb}.
Arguments ReconnectedOp {Cb}.
Arguments ReconnectFailedOp {Cb}.
Arguments TickOp {Cb}.
Arguments ExpireObservedOp {Cb}.
Arguments DisableOp {Cb}.
Arguments MonitorSetOp {Cb}.
Arguments EngineSetOp {Cb}.
Arguments RecallSetOp {Cb}.
Arguments RecallStepOp {Cb}.

Section Invariant.
Context {Cb : Type} {BM : Build} {ST : SetOrder TransportType} {HZ : HashIter bytes Z} {HS : HashIter string ConnectionStats} {HR : HashIter bytes ReconnectionState}.
Context {HO : HashIter string AddressObservation} {HA : HashIter SocketAddr Z}.
Implicit Types m : TransportManager Cb.

Definition manager_step m (nop : Z * ManagerOp Cb) : res string (TransportManager Cb) :=
  let now := nop.1 in
  match nop.2 with
  | RegisterOp t c => Ok (register_transport m t c)
  | EventOp event => Ok (handle_event now m event)
  | SendOp p data priority => Ok match send_to_peer now m p data priority with Ok (_, m') => m' | _ => m end
  | AddTargetOp p addr => Ok (add_target_peer m p addr)
  | RemoveTargetOp p => Ok (remove_target_peer m p)
  | DueOp => Ok (peers_needing_reconnect now m).2
  | ReconnectedOp p => Ok (record_reconnect_success m p)
  | ReconnectFailedOp p => record_reconnect_failure now m p
  | TickOp => tick now m
  | ExpireObservedOp max => expire_address_observations now m max
  | DisableOp name => Ok (disable_transport m name)
  | MonitorSetOp h => Ok (set_health_monitor m h)
  | EngineSetOp e => Ok (set_escalation_engine m e)
  | RecallSetOp r => Ok (set_multi_hop_recall m r)
  | RecallStepOp step => Ok (add_multi_hop_step m step)
  end.

Lemma shrunk_running ts ts' : shrunk ts ts' -> map_Forall (fun _ s => running s = false) ts -> map_Forall (fun _ s => running s = false) ts'.
Proof. intros Hs Hr t s' Hs'. specialize (Hs t). rewrite Hs' in Hs. destruct (ts !! t) as [s|] eqn:Ht; [|done]. destruct Hs as (-> & _). by apply (Hr t). Qed.

Lemma Sorted_sub {A} (R R' : relation A) l : (forall a b, R a b -> R' a b) -> Sorted R l -> Sorted R' l.
Proof. intros Hsub. induction 1 as [|x l Hl IH Hx]; constructor; [done|]. inversion Hx; constructor; auto. Qed.

Lemma enqueue_sorted l x : Sorted by_priority (enqueue l x).
Proof.
  unfold enqueue, sort_by. apply (Sorted_sub (fun a b => (ps_priority b ?= ps_priority a) <> Gt)); [intros a b; rewrite Z.compare_gt_iff; unfold by_priority; lia|].
  apply Sorted_stable_sort. intros a b. rewrite !Z.compare_gt_iff. lia.
Qed.

Lemma enqueue_perm l x : enqueue l x ≡ₚ l ++ [x].
Proof. apply stable_sort_Permutation. Qed.

Lemma enqueue_fifo l x k : filter (fun i => ps_priority i = k) (enqueue l x) = filter (fun i => ps_priority i = k) (l ++ [x]).
Proof. apply stable_sort_stable. intros a b -> ->. by rewrite Z.compare_refl. Qed.

Lemma handle_event_ok now m event : manager_ok m -> manager_ok (handle_event now m event).
Proof.
  intros [Hsets Hseen Htg Hq Hst Hrun Hout]. destruct event as [p t addr|p t|p t d|t e|p t]; cbn [handle_event].
  - split; cbn; try done; [apply map_Forall_insert_2; [set_solver|done]|]. rewrite !dom_insert_L. set_solver.
  - pose proof (shrunk_running _ _ (drop_shrunk p (transports m) t) Hrun) as Hrun'. cbn [peer_transports set_transports]. destruct (peer_transports m !! p) as [ts|] eqn:Hp; [|by split].
    assert (p ∈ dom (peer_last_seen m)) by (apply Hseen, elem_of_dom; by eexists). case_bool_decide as He.
    + assert (manager_ok (set_peer_transports (set_transports m (drop_connected p (transports m) t)) (delete p (peer_transports m)))) as Hok.
      { split; cbn; try done; [by apply map_Forall_delete|]. rewrite dom_delete_L. set_solver. }
      unfold peer_lost. cbn [target_peers reconnection_queue set_peer_transports set_transports]. destruct (target_peers m !! p) as [addr|] eqn:Ha; [|done]. destruct (reconnection_queue m !! p); [done|].
      destruct Hok. split; cbn; try done; [|apply map_Forall_insert_2; [split; [done|cbn; lia]|done]]. rewrite dom_insert_L. assert (p ∈ dom (target_peers m)) by (apply elem_of_dom; by eexists). set_solver.
    + split; cbn; try done; [by apply map_Forall_insert_2|]. rewrite dom_insert_L. set_solver.
  - split; cbn; try done. rewrite dom_insert_L. set_solver.
  - by split.
  - set (m1 := set_transports m _). assert (manager_ok m1) as Hok.
    { split; try done. cbn. intros u s' Hu. destruct (decide (t = u)) as [->|Hne]; [|rewrite lookup_alter_ne in Hu by done; by apply (Hrun u)].
      rewrite lookup_alter_eq in Hu. apply fmap_Some in Hu as (s & Hs & ->). cbn. exact (Hrun u s Hs). }
    destruct (escalation_engine m1) as [engine|]; [|done]. case_match; [|done]. case_match; [|done..]. case_match. destruct Hok. by split.
Qed.

Lemma stagger_run now i queue l : NoDup l ->
  (forall q, q ∉ l -> stagger now i queue l !! q = queue !! q) /\
  (forall q, q ∈ l -> exists j, i <= j < i + zlen l /\ stagger now i queue l !! q = delayed (now + RECONNECT_STAGGER_INTERVAL * (j + 1)) <$> queue !! q).
Proof.
  revert i queue. induction l as [|p l IH]; intros i queue Hnd; cbn [stagger]; [split; [done|by intros ? ?%not_elem_of_nil]|].
  apply NoDup_cons in Hnd as [Hp Hnd]. rewrite zlen_cons. pose proof (zlen_nonneg l). destruct (IH (i + 1) (alter (delayed (now + RECONNECT_STAGGER_INTERVAL * (i + 1))) p queue) Hnd) as [Hout Hin]. split.
  - intros q Hq. rewrite Hout, lookup_alter_ne by set_solver. done.
  - intros q [->|Hq]%elem_of_cons; [exists i; split; [lia|]; rewrite Hout by done; apply lookup_alter_eq|].
    destruct (Hin q Hq) as (j & Hj & ->). exists j. split; [lia|]. rewrite lookup_alter_ne by set_solver. done.
Qed.

(** The peers that are due, before the batch is cut. *)
Definition due (now : Z) (queue : gmap bytes ReconnectionState) : list bytes :=
  (filter (fun ps => is_ready now ps.2 && negb (is_exhausted ps.2) = true) (hm_iter queue)).*1.

Lemma elem_of_due now queue p : p ∈ due now queue <-> exists r, queue !! p = Some r /\ is_ready now r = true /\ is_exhausted r = false.
Proof.
  unfold due. rewrite list_elem_of_fmap. split.
  - intros ([p' r] & -> & [[Hr He%negb_true_iff]%andb_prop Hin%elem_of_hm_iter]%list_elem_of_filter). by exists r.
  - intros (r & Hr & Hre & He). exists (p, r). split; [done|]. apply list_elem_of_filter. rewrite elem_of_hm_iter. cbn. by rewrite Hre, He.
Qed.

Lemma NoDup_due now queue : NoDup (due now queue).
Proof. unfold due. eapply sublist_NoDup; [apply (NoDup_hm_keys queue)|]. apply fmap_sublist, sublist_filter. Qed.

Definition longest_first (queue : gmap bytes ReconnectionState) (l : list bytes) : list bytes := sort_by (fun a b => waiting_since queue a ?= waiting_since queue b) l.

Lemma longest_first_perm queue l : longest_first queue l ≡ₚ l.
Proof. apply stable_sort_Permutation. Qed.

Lemma longest_first_sorted queue l : StronglySorted (fun a b => waiting_since queue a <= waiting_since queue b) (longest_first queue l).
Proof.
  apply Sorted_StronglySorted; [intros a b c; lia|]. apply (Sorted_sub (fun a b => (waiting_since queue a ?= waiting_since queue b) <> Gt)); [intros a b; by rewrite Z.compare_gt_iff, Z.nlt_ge|].
  apply Sorted_stable_sort. intros a b. rewrite !Z.compare_gt_iff. lia.
Qed.

Lemma reconnect_cases now m : (peers_needing_reconnect now m) =
  let queue := reconnection_queue m in
  if RECONNECT_MAX_CONCURRENT <? zlen (due now queue) then
    let queue' := stagger now 0 queue (drop 3 (longest_first queue (due now queue))) in
    (omap (fun id => queue' !! id) (take 3 (longest_first queue (due now queue))), set_queue m queue')
  else (omap (fun id => queue !! id) (due now queue), set_queue m queue).
Proof. unfold peers_needing_reconnect. fold (due now (reconnection_queue m)). cbv zeta. destruct (RECONNECT_MAX_CONCURRENT <? zlen (due now (reconnection_queue m))); done. Qed.

Lemma reconnect_queue now m p : exists f, reconnection_queue (peers_needing_reconnect now m).2 !! p = f <$> reconnection_queue m !! p /\
  forall r, rc_peer_id (f r) = rc_peer_id r /\ failures (f r) = failures r.
Proof.
  rewrite reconnect_cases. cbv zeta. destruct (RECONNECT_MAX_CONCURRENT <? _); cbn; [|exists id; split; [by destruct (reconnection_queue m !! p)|done]].
  set (l := drop 3 _). assert (NoDup l) as Hnd.
  { assert (NoDup (longest_first (reconnection_queue m) (due now (reconnection_queue m)))) as Hn by (rewrite longest_first_perm; apply NoDup_due).
    rewrite <-(take_drop 3) in Hn. by apply NoDup_app in Hn as (_ & _ & Hn). }
  destruct (stagger_run now 0 (reconnection_queue m) l Hnd) as [Hout Hin]. destruct (decide (p ∈ l)) as [Hp|Hp].
  - destruct (Hin p Hp) as (j & _ & ->). by eexists.
  - rewrite Hout by done. exists id. split; [by destruct (reconnection_queue m !! p)|done].
Qed.

Lemma tick_ok now m m' : manager_ok m -> tick now m = Ok m' -> manager_ok m'.
Proof.
  intros [Hsets Hseen Htg Hq Hst Hrun Hout] Ht. destruct (tick_inv now m m' Hsets) as [ps Htk]; [intros p n Hp; specialize (Hst p n Hp); unfold STALE_CONFIRM_TICKS in Hst; cbn in Hst; lia|done|]. destruct Htk.
  assert (forall p r, reconnection_queue m' !! p = Some r -> exists r0, (reconnection_queue m !! p = Some r0 \/ is_Some (target_peers m !! p) /\ rc_peer_id r0 = p /\ failures r0 = 0) /\
            rc_peer_id r = rc_peer_id r0 /\ failures r = failures r0) as Hfrom.
  { intros p r Hr. destruct (decide (p ∈ ps)) as [Hp|Hp].
    - destruct (tk_lost0 p Hp) as (r0 & Hr0 & Hfin). destruct r0 as [r0|]; [|congruence]. destruct Hfin as (i & _ & Hfin). rewrite Hfin in Hr. destruct (is_exhausted r0); [done|]. injection Hr as <-.
      exists r0. split; [|done]. destruct (peer_transports m !! p); [|by left]. unfold requeued in Hr0. destruct (target_peers m !! p) as [addr|]; [|by left]. destruct (reconnection_queue m !! p); [by left|].
      destruct Hr0 as (t & _ & [= ->]). right. split; [by eexists|done].
    - rewrite tk_others0 in Hr by done. destruct (reconnection_queue m !! p) as [r0|]; [|done]. cbn in Hr. destruct (is_exhausted r0); [done|]. injection Hr as <-. exists r0. by split; [left|]. }
  split.
  - intros p ts Hp. rewrite tk_known0 in Hp. case_bool_decide; [done|]. by apply (Hsets p).
  - intros p [ts Hp]%elem_of_dom. rewrite tk_known0 in Hp. apply elem_of_dom. rewrite tk_seen0. case_bool_decide; [done|]. apply elem_of_dom, Hseen, elem_of_dom. by eexists.
  - rewrite tk_targets0. intros p [r Hr]%elem_of_dom. destruct (Hfrom p r Hr) as (r0 & [Hr0|[Hr0 _]] & _); [|by apply elem_of_dom]. apply Htg, elem_of_dom. by eexists.
  - intros p r Hr. destruct (Hfrom p r Hr) as (r0 & H0 & -> & ->). destruct H0 as [H0|(_ & -> & ->)]; [by apply (Hq p)|]. split; [done|lia].
  - intros p n Hn. rewrite tk_count0 in Hn. destruct (bool_decide (p ∈ time_stale now m)) eqn:Hs; [|done]. destruct (bool_decide (p ∈ ps)) eqn:Hp; [done|]. cbn in Hn. injection Hn as <-.
    apply bool_decide_eq_false in Hp. apply bool_decide_eq_true, elem_of_time_stale in Hs as (t & Hl & Hold). assert (0 <= default 0 (stale_candidates m !! p)) as Hd.
    { destruct (stale_candidates m !! p) as [n|] eqn:Hn; cbn; [specialize (Hst p n Hn); cbn in Hst; lia|lia]. }
    split; [lia|]. destruct (Z.lt_ge_cases (default 0 (stale_candidates m !! p) + 1) STALE_CONFIRM_TICKS); [done|]. destruct Hp. apply tk_pruned0. by exists t.
  - by eapply shrunk_running.
  - by rewrite tk_outgoing0.
Qed.

Lemma manager_step_ok m nop m' : manager_ok m -> manager_step m nop = Ok m' -> manager_ok m'.
Proof.
  destruct nop as [now op]. intros Hok. destruct op as [t c|event|p d pr|p addr|p| |p|p| |max|name|h|e|r|step]; cbn [manager_step fst snd].
  - intros [= <-]. destruct Hok. split; try done. cbn. by apply map_Forall_insert_2.
  - intros [= <-]. by apply handle_event_ok.
  - intros [= <-]. unfold send_to_peer. destruct (best_transport_for_peer m p) as [best| |]; [|done..]. cbn [rbind]. destruct Hok. split; try done. cbn. apply enqueue_sorted.
  - intros [= <-]. destruct Hok. split; try done. cbn. rewrite dom_insert_L. set_solver.
  - intros [= <-]. destruct Hok. split; try done; cbn; [rewrite !dom_delete_L; set_solver|by apply map_Forall_delete].
  - intros [= <-]. assert (exists queue, (peers_needing_reconnect now m).2 = set_queue m queue) as [queue Hm].
    { rewrite reconnect_cases. cbv zeta. destruct (RECONNECT_MAX_CONCURRENT <? _); by eexists. }
    pose proof (reconnect_queue now m) as Hf. rewrite Hm in *. destruct Hok. split; try done; cbn in *.
    + intros p [r Hr]%elem_of_dom. destruct (Hf p) as (f & Hfp & _). rewrite Hfp in Hr. apply fmap_Some in Hr as (r0 & Hr0 & _). apply mg_targets0, elem_of_dom. by eexists.
    + intros p r Hr. destruct (Hf p) as (f & Hfp & Hid). rewrite Hfp in Hr. apply fmap_Some in Hr as (r0 & Hr0 & ->). destruct (Hid r0) as [-> ->]. by apply (mg_queue0 p).
  - intros [= <-]. destruct Hok. split; try done; cbn; [rewrite dom_delete_L; set_solver|by apply map_Forall_delete].
  - unfold record_reconnect_failure. destruct (reconnection_queue m !! p) as [r|] eqn:Hr; [|by intros [= <-]]. intros (r' & Hr' & [= <-])%rbind_ok_inv. destruct Hok.
    unfold record_failure in Hr'. apply rbind_ok_inv in Hr' as (n & Hn & [= <-]). apply chk_u_range in Hn; [|lia]. split; try done; cbn.
    + rewrite dom_insert_L. assert (p ∈ dom (target_peers m)) by (apply mg_targets0, elem_of_dom; by eexists). set_solver.
    + apply map_Forall_insert_2; [|done]. cbn. split; [by apply (mg_queue0 p)|done].
  - by apply tick_ok.
  - intros (o & _ & [= <-])%rbind_ok_inv. destruct Hok. by split.
  - intros [= <-]. unfold disable_transport. destruct (named_transport name) as [t|]; [|done]. destruct Hok. split; try done. cbn. intros u s Hu. destruct (decide (t = u)) as [->|Hne].
    + rewrite lookup_alter_eq in Hu. by apply fmap_Some in Hu as (s0 & _ & ->).
    + rewrite lookup_alter_ne in Hu by done. by apply (mg_running0 u).
  - intros [= <-]. destruct Hok. by split.
  - intros [= <-]. destruct Hok. by split.
  - intros [= <-]. destruct Hok. by split.
  - intros [= <-]. destruct Hok. by split.
Qed.

Lemma manager_run_ok m ops m' : manager_ok m -> rfold manager_step m ops = Ok m' -> manager_ok m'.
Proof.
  revert m. induction ops as [|op ops IH]; intros m Hok; cbn [rfold]; [by intros [= <-]|]. intros (m1 & Hstep & Hrun)%rbind_ok_inv. eapply IH; [|exact Hrun]. by eapply manager_step_ok.
Qed.

Lemma manager_new_ok r : manager_ok (new_with_multihop r : TransportManager Cb).
Proof. split; cbn; try (rewrite !dom_empty_L; done); try apply map_Forall_empty. constructor. Qed.

(** ** Properties *)

(** Whatever happens to a manager, a peer that is known at all is known on some transport and has a
    time when it was last seen, so that it cannot be kept forever in silence; only target peers wait to
    be reconnected; nobody has been found stale three times and is still kept; and the outgoing queue
    is in the order of priority. *)
Theorem manager_invariant r ops m : rfold manager_step (new_with_multihop r : TransportManager Cb) ops = Ok m -> manager_ok m.
Proof. apply manager_run_ok, manager_new_ok. Qed.

(** No transport is ever running, so path selection selects nothing: neither the recall module, which
    recalls no path, nor the fallback in its absence. *)
Theorem no_path_selected r ops m query : rfold manager_step (new_with_multihop r : TransportManager Cb) ops = Ok m -> run_multi_hop_path_selection m query = [].
Proof.
  intros Hrun. apply manager_run_ok in Hrun; [|apply manager_new_ok]. unfold run_multi_hop_path_selection. destruct (multi_hop_recall m) as [rc|]; [by destruct (validate_input rc query)|].
  assert (forall t, from_option running false (transports m !! t) = false) as Hr.
  { intros t. destruct (transports m !! t) as [s|] eqn:Hs; cbn; [by apply (mg_running m Hrun t)|done]. }
  rewrite !filter_cons, filter_nil. rewrite !Hr. done.
Qed.


Lemma omap_lookup_all (queue : gmap bytes ReconnectionState) (l : list bytes) : (forall p, p ∈ l -> exists r, queue !! p = Some r /\ rc_peer_id r = p) ->
  rc_peer_id <$> omap (fun id => queue !! id) l = l.
Proof.
  induction l as [|p l IH]; intros Hl; [done|]. destruct (Hl p) as (r & Hr & Hid); [left|]. cbn. rewrite Hr. cbn. rewrite Hid. f_equal. apply IH. intros q Hq. apply Hl. by right.
Qed.


(** Nothing leaves the outgoing queue: over any run of the manager it is what it was and what was sent
    since, in the order of priority and, within a priority, in the order of sending. *)
Theorem outgoing_only_grows m ops m' : manager_ok m -> rfold manager_step m ops = Ok m' ->
  exists items, outgoing m' ≡ₚ outgoing m ++ items /\ Sorted by_priority (outgoing m') /\
    forall k, filter (fun i => ps_priority i = k) (outgoing m') = filter (fun i => ps_priority i = k) (outgoing m ++ items).
Proof.
  intros Hok Hrun. pose proof (manager_run_ok m ops m' Hok Hrun) as Hok'. enough (exists items, outgoing m' ≡ₚ outgoing m ++ items /\
    forall k, filter (fun i => ps_priority i = k) (outgoing m') = filter (fun i => ps_priority i = k) (outgoing m ++ items)) as (items & ? & ?) by (exists items; split_and!; [done|apply Hok'|done]).
  clear Hok'. revert m Hok Hrun. induction ops as [|nop ops IH]; intros m Hok; cbn [rfold]; [intros [= <-]; exists []; by rewrite app_nil_r|].
  intros (m1 & Hstep & Hrun)%rbind_ok_inv. destruct (IH m1 (manager_step_ok m nop m1 Hok Hstep) Hrun) as (items & Hp & Hf).
  assert (outgoing m1 = outgoing m \/ exists x, outgoing m1 = enqueue (outgoing m) x) as [Ho|[x Ho]].
  { destruct nop as [now op], op as [t c|[]|p d pr|p addr|p| |p|p| |max|name|h|e|r|step]; cbn [manager_step fst snd handle_event] in Hstep.
    all: try (injection Hstep as <-; by left).
    - injection Hstep as <-. left. cbn [peer_transports set_transports]. destruct (peer_transports m !! peer_id); [|done]. case_bool_decide; [|done]. unfold peer_lost. by repeat case_match.
    - injection Hstep as <-. left. destruct (escalation_engine _); [|done]. case_match; [|done]. case_match; [|done..]. by case_match.
    - injection Hstep as <-. unfold send_to_peer. destruct (best_transport_for_peer m p); cbn [rbind]; [right; by eexists|by left..].
    - injection Hstep as <-. left. rewrite reconnect_cases. cbv zeta. by destruct (RECONNECT_MAX_CONCURRENT <? _).
    - left. unfold record_reconnect_failure in Hstep. destruct (reconnection_queue m !! p); [|by injection Hstep as <-]. by apply rbind_ok_inv in Hstep as (? & _ & [= <-]).
    - left. destruct (tick_inv now m m1 (mg_sets m Hok)) as [ps Htk]; [intros q n Hn; pose proof (mg_stale m Hok q n Hn) as Hb; unfold STALE_CONFIRM_TICKS in Hb; cbn in Hb; lia|done|]. by destruct Htk.
    - left. by apply rbind_ok_inv in Hstep as (o & _ & [= <-]).
    - injection Hstep as <-. left. unfold disable_transport. by destruct (named_transport name). }
  - exists items. by rewrite <-Ho.
  - exists (x :: items). rewrite Ho in Hp, Hf. split; [rewrite Hp, enqueue_perm, <-app_assoc; done|]. intros k. rewrite Hf, !filter_app, enqueue_fifo, filter_app, filter_cons, <-app_assoc. do 2 f_equal. rewrite filter_cons, filter_nil. by case_decide.
Qed.

(** Disabling a transport does not take it out of use: a peer that is known on it alone is still sent to
    over it. *)
Theorem disabled_still_selected m name t p : named_transport name = Some t -> peer_transports m !! p = Some {[t]} ->
  best_transport_for_peer (disable_transport m name) p = Ok t.
Proof.
  intros Hname Hp. unfold best_transport_for_peer, disable_transport. rewrite Hname. cbn [peer_transports set_transports]. rewrite Hp, bool_decide_false by set_solver.
  assert (set_iter {[t]} = [t]) as ->; [|done]. apply Permutation_singleton_r. rewrite set_iter_perm. by rewrite elements_singleton.
Qed.

(** A connection that is established to a peer nobody discovered leaves the peer unknown: nothing can be
    sent to it, and when the connection is lost it does not wait to be reconnected, target or not. *)
Theorem established_peer_unknown now m p t : peer_transports m !! p = None -> reconnection_queue m !! p = None ->
  let m1 := handle_event now m (ConnectionEstablished p t) in
  best_transport_for_peer m1 p = Err PeerNotFound /\ is_peer_connected m1 p = false /\
  reconnection_queue (handle_event now m1 (PeerDisconnected p t)) !! p = None.
Proof.
  intros Hp Hq m1. assert (peer_transports m1 = peer_transports m /\ reconnection_queue m1 = reconnection_queue m) as [Hp1 Hq1].
  { unfold m1. cbn [handle_event]. destruct (escalation_engine _); [|done]. case_match; [|done]. case_match; [|done..]. by case_match. }
  clearbody m1. unfold best_transport_for_peer, is_peer_connected. rewrite Hp1, Hp. split_and!; [done|done|]. cbn [handle_event peer_transports set_transports]. rewrite Hp1, Hp. cbn. by rewrite Hq1.
Qed.

(** The wait after the [n]-th failure doubles from two seconds up to a minute, and after ten failures the
    peer is not due again. *)
Theorem reconnect_backoff now r : 0 <= failures r < 2 ^ 32 - 1 ->
  exists r', record_failure now r = Ok r' /\ failures r' = failures r + 1 /\
    next_attempt_at r' = now + secs (Z.min (2 ^ (failures r + 1)) 60) /\ (10 <= failures r' -> is_exhausted r' = true).
Proof.
  intros Hf. unfold record_failure. rewrite chk_u_ok by (unfold in_u; lia). cbn [rbind]. eexists. split; [done|]. cbn. split_and!; [done| |].
  - unfold backoff_interval, RECONNECT_BACKOFF_MULTIPLIER, RECONNECT_BASE_INTERVAL, RECONNECT_MAX_INTERVAL, sat_mul, u32_max, millis, secs. cbn [failures].
    set (k := failures r + 1). assert (1 <= 2 ^ k) by (apply (Z.pow_le_mono_r 2 0 k); lia). change (1 * 10 ^ 9 / 10 ^ 6) with 1000. destruct (Z.leb_spec (2 ^ k) (2 ^ 32 - 1)); lia.
  - intros Hge. unfold is_exhausted, RECONNECT_MAX_FAILURES. cbn. by apply Z.leb_le.
Qed.
End Invariant.

(** ** Concrete inputs *)

Module ManagerExamples.

#[local] Instance ex_build : Build := {| overflow_checks := true |}.
#[local] Instance ex_order : SetOrder TransportType := {| set_order l := l; set_order_perm l := Permutation_refl l |}.
#[local] Instance ex_stale : HashIter bytes Z := canonical_iter.
#[local] Instance ex_stats : HashIter string ConnectionStats := canonical_iter.
#[local] Instance ex_queue : HashIter bytes ReconnectionState := canonical_iter.
#[local] Instance ex_obs : HashIter string AddressObservation := canonical_iter.
#[local] Instance ex_addr : HashIter SocketAddr Z := canonical_iter.

Definition P : bytes := [Byte.x01].
Definition ADDR : bytes := [Byte.x09].

(** A target peer that is found on two transports, and something sent to it. *)
Definition OPS : list (Z * ManagerOp unit) :=
  [(0, RegisterOp BLE (for_transport BLE)); (0, RegisterOp WiFiDirect (for_transport WiFiDirect)); (0, AddTargetOp P ADDR); (0, EventOp (PeerDiscovered P BLE ADDR));
   (0, EventOp (PeerDiscovered P WiFiDirect ADDR)); (0, EventOp (ConnectionEstablished P BLE)); (1, SendOp P [Byte.x05] 1); (2, SendOp P [Byte.x06] 2); (3, SendOp P [Byte.x07] 1)].

Definition KNOWN : TransportManager unit := match rfold manager_step transport_manager_new OPS with Ok m => m | _ => transport_manager_new end.

Lemma known_is_ok : is_ok (rfold manager_step (new_with_multihop None) OPS) = true.
Proof. by vm_compute. Qed.

Lemma known_run : rfold manager_step (new_with_multihop None) OPS = Ok KNOWN.
Proof. pose proof known_is_ok as Hok. unfold KNOWN, transport_manager_new. by destruct (rfold manager_step _ _). Qed.

Lemma manager_invariant_witness : manager_ok KNOWN.
Proof. apply (manager_invariant None OPS). exact known_run. Defined.

Lemma known_ok : manager_ok KNOWN.
Proof. apply (manager_run_ok (new_with_multihop None) OPS); [apply manager_new_ok|exact known_run]. Qed.

Lemma no_path_selected_witness : run_multi_hop_path_selection KNOWN "anything" = [].
Proof. apply (no_path_selected None OPS KNOWN "anything"). exact known_run. Defined.



Lemma outgoing_only_grows_witness : exists items, outgoing KNOWN ≡ₚ [] ++ items.
Proof.
  destruct (outgoing_only_grows (new_with_multihop None) OPS KNOWN) as (items & H & _); [apply manager_new_ok|exact known_run|]. exists items. exact H.
Defined.

(** The urgent message first, the others in the order of sending. *)
Example known_pending : ps_data <$> pending_sends KNOWN = [[Byte.x06]; [Byte.x05]; [Byte.x07]].
Proof. by vm_compute. Qed.

Definition ONLY_BLE : TransportManager unit := handle_event 0 (register_transport transport_manager_new BLE (for_transport BLE)) (PeerDiscovered P BLE ADDR).

Lemma disabled_still_selected_witness : best_transport_for_peer (disable_transport ONLY_BLE "Ble") P = Ok BLE.
Proof. apply (disabled_still_selected ONLY_BLE "Ble" BLE P); [reflexivity|]. vm_compute. reflexivity. Defined.

Definition TARGET : TransportManager unit := add_target_peer (register_transport transport_manager_new Internet (for_transport Internet)) P ADDR.

Lemma established_peer_unknown_witness : best_transport_for_peer (handle_event 1 TARGET (ConnectionEstablished P Internet)) P = Err PeerNotFound.
Proof. apply (established_peer_unknown 1 TARGET P Internet); reflexivity. Defined.

Lemma reconnect_backoff_witness : exists r', record_failure 0 (mkReconnect P ∅ ADDR 2 0 0) = Ok r' /\ next_attempt_at r' = secs 8.
Proof. destruct (reconnect_backoff 0 (mkReconnect P ∅ ADDR 2 0 0)) as (r' & H1 & _ & H2 & _); [cbn; lia|]. exists r'. split; [exact H1|exact H2]. Defined.

End ManagerExamples.
